(* ===== verification/_CoqProject ===== *)
-Q . S2P
Prelude.v
Jcs.v
JsonText.v
GoTime.v
Formula.v
Ledger.v
Quarantine.v
Receipt.v
Resync.v
Settlement.v
Split.v
Verdict.v
HotPath.v
Billing.v
Finality.v
Outputs.v
VersionFloor.v
GoFloat.v
GoSort.v
Pool.v
PoolHolds.v
Tier2.v
PoolServing.v
Capacity.v
Admission.v
TerminalArbiter.v
Sticky.v
Routing.v
SlotQueue.v
Selection.v
Forwarding.v
MismatchLimiter.v
Quota.v
Journal.v
Recovery.v
Evm.v
PayoutStore.v
PayoutRunner.v
PayoutSafety.v
PayoutAddresses.v
Trust.v
Rewards.v
RuntimeFlags.v
Funding.v
PayoutOps.v
Dedupe.v
DedupeSafety.v
