(* ===== verification/Prelude.v ===== *)
(** * A verification of the MacProvider coordinator and gateway

    MacProvider serves language-model requests on machines of independent
    providers. The coordinator ([phase4-coordinator/], Go) routes a buyer's request
    to a provider, bills the attempt into a SQLite ledger, checks the provider's
    signed receipt for what was delivered, and settles the credits into weekly
    payouts. The gateway ([phase5-gateway/]) stands in front of it for buyers and
    keeps the buyers' quotas and bills. This library models the money paths of both
    and the small state machines around a request, and proves what makes them
    correct. Paths below are under [phase4-coordinator/internal/], and for the
    gateway under [phase5-gateway/internal/].

    ** How the parts interact

    A finished attempt is written by the hot path (HotPath) in one transaction: a
    request-log row, a credit priced by the formula (Formula) and split between
    provider and operator (Ledger), an identity snapshot. Independently the provider
    sends a receipt. The verifier (Receipt) judges it against the recorded evidence;
    the verdict store (Verdict) keeps one row per attempt, which the first terminal
    outcome closes. Whichever of credit and verdict comes second runs the resync
    (Resync), which bills the credit again on the usage the receipt proves. A
    settlement run (Settlement) collects eligible credits into payouts, which are
    claimed once. What each attempt delivered is recorded once, and outputs that overlap
    are marked and never paid (Outputs). An operator resolves a quarantined credit by
    voiding or crediting it, for good after a correction window (Quarantine). Finality
    queries (Finality) tell the gateway what became of a request. Billing puts the
    tables together.

    A payout runner takes a lease, turns each ready payout into a signed USDC transfer
    (Evm) recorded in a row of attempts (PayoutStore), sends it to two RPC nodes, waits
    for both to show it deep enough, and claims the payout (PayoutRunner). An operator may
    abandon an attempt, with a cancelling transaction at its nonce; a poller looks for
    reorganisations. Several processes may do all this at once (PayoutSafety). A provider
    registers the address it is paid at under a signature of its key (PayoutAddresses);
    operators pause that with a runtime flag (RuntimeFlags), record the funding of the hot
    wallet and what reorganisations took back, while a worker compares the tables with the
    chain (Funding), and tune and trigger the runner (PayoutOps).

    Beside the payouts in USDC, providers accrue MALIBU rewards: a job evaluates which of
    them are trusted, with promotions that two operators confirm (Trust), and a ticker accrues
    amounts that are held until the provider is (Rewards).

    Which providers there are and whether they may serve is the registry of the pool
    (Pool). The websocket server feeds it registrations, heartbeats, state updates and
    canary results; the buyer server reports faults and reads copies of the sessions. The
    tests of tier 2 (Tier2), the version floors and the capacity clamp bound what a
    provider may claim, and the admission manager (Admission) how many providers may join
    unasked and how much they may serve.

    A request that reaches the coordinator selects a provider (Selection): one it is
    pinned to, or the best of those that pass the gates (Routing) with its conversation's
    provider preferred (Sticky), or one whose slot it waits for (SlotQueue). The handler
    then forwards it (Forwarding), fails over and retries at other sessions within the
    budget, and answers. Beside it stand the terminal arbiter of a request and the warning
    limiter of sticky routing.

    In the gateway a request reserves tokens of the account's daily quota and a
    concurrency slot (Quota). When the response is out, the handler writes its effect
    to the journal (Journal), settles the reservation, and seals the effect; when a
    step fails, the recovery pass drives the effect again (Recovery). A buyer that repeats a
    request without an id waits for the first attempt and gets its response again, or is
    refused by its reservation (Dedupe).

    ** Files

    - Prelude: [int64] with wrap-around ([Int64]), Go strings on ASCII bytes
      ([GoStr]), sums, map iteration in an unknown order, tactics and hint databases.
    - Jcs: [billing/jcs.go], the canonical JSON encoder: UTF-8, UTF-16 key order,
      escapes, numbers; the class [TextLib] is NFC and the float conversions.
    - JsonText: the texts [encoding/json] accepts, and the token stream of an object.
    - GoTime: the calendar, the time texts the ledger stores and compares, and their
      parser.
    - Formula: [billing/formula.go]. [ComputeCreditsWithCache] on 64-bit integers
      against a reference bill on unbounded integers; rounding; rate lookup.
    - Ledger: the tables, CHECK constraints, triggers and the payable view of
      [billing/store.go], as lists of rows in insertion order; row inserts of
      [billing/hotpath.go]. A statement SQLite refuses is [None].
    - Quarantine: [billing/quarantine.go], the force-void and force-credit endpoints
      from the route to the answer.
    - Receipt: [billing/settlement_verifier.go], [billing/route_snapshot.go]. The
      verifier as a function of its input; [genuine] is its specification.
    - Resync: [syncVerifiedReceiptLedgerCreditForAttemptTx] of
      [billing/settlement_receipts.go], as a decision and its effect.
    - Settlement: [billing/settlement.go], [billing/payout.go]. [RunSettlement] and
      [ClaimPayoutReady] as whole transactions; [ledger_step] is the step relation of
      the money tables and [ledger_ok] its invariant.
    - Split: the provider/operator split along [ledger_step].
    - Verdict: the verdict transactions of [billing/settlement_receipts.go]; the class
      [BillingTables] is what they use of the other tables.
    - HotPath: [writeHotPath], the request-log insert of [requestlog/store.go].
    - Billing: the evidence loaders; [Tables] implements [BillingTables].
    - Finality: [billing/settlement_finality.go], including the expiry it triggers.
    - Outputs: [billing/settlement_output.go], the records of what attempts delivered.
    - GoFloat: [float64] as the standard library's binary64. GoSort: [sort.SliceStable], as
      the insertion sort every stable sort agrees with on a weak order.
    - Pool: [pool/provider.go], every method of the registry over a heap of session
      objects that the two indexes share. PoolHolds: its invariant and the recovery holds.
      PoolServing: canaries against the interface [ServingPredicate], which the websocket
      server's [canaryBuyerServing] implements, and the rotation of receipt keys.
    - Tier2: the exclusion tests of [tier2/catalog.go], [buyer/server.go] and
      [ws/server.go].
    - VersionFloor: [versionfloor/versionfloor.go]. Capacity:
      [pool/capacity_clamp.go] and the state-update clamp of [ws/server.go].
      TerminalArbiter: [buyer/terminal_arbiter.go]. Sticky:
      [routing/sticky/sticky.go] with its callers in [buyer/server.go].
      MismatchLimiter: [buyer/sticky_mismatch_limiter.go].
    - Admission: [ws/admission.go], with the row of [ws/admission_store.go].
    - Routing: [routing/]: exclusion, the eligibility gates, objectives, epsilon, retries.
    - SlotQueue: [buyer/slot_queue.go], and its use by many requests at once.
    - Selection: [selectProviderExcluding] of [buyer/server.go] with all it calls.
    - Forwarding: [buyer/forward_with_failover.go], [buyer/transport_result.go] and the
      callbacks of the three transports in [buyer/server.go], as a trace of events.
    - Quota (gateway): the reservation, usage and concurrency tables of
      [storage/sqlite/store.go] and [migrate.go], as finite maps by primary key, with
      every operation on them; times compare as the texts SQL compares.
    - Journal (gateway): [settlement/journal/journal.go], the segment files as a map
      from names to bytes, each append with what the file system may do to it.
    - Recovery (gateway): [settleAfterCommit] of [router/chat_proxy.go] and
      [router/settlement_journal_recovery.go] in a handler monad over the store, the
      journal and the conflict counters. Each call may run, fail, take effect and
      report an error, or be cut off by a crash; the choices and the clock are the
      environment [Env].
    - Dedupe (gateway): [router/idless_dedupe.go], the response capture of
      [router/chat_proxy.go] and [responses.go] and the handler around the claim and the
      reservation: the shared entries in a heap, the requests as processes that step once
      per critical section. DedupeSafety: its invariant and theorems.

    - Evm: [payout/evm.go], [eip55.go], [signer.go] and the envelope checks of [runner.go]
      and [abandon.go]: RLP on bytes, with an outcome for a Go panic; the class [EvmLib] is
      Keccak and the recovery of a public key.
    - PayoutStore: the tables of [payout/] and every statement on them. PayoutRunner: the
      runner, abandon handler, reorg poller and reaper as programs ([prog]) over database
      transactions and questions to the world. PayoutSafety: the system of many such
      processes, a chain and two nodes; its rely-guarantee logic ([wp]), invariant and
      theorems, and executions that compute.
    - PayoutAddresses: [payout/addresses.go], [eip712.go], [deny.go]: the registration
      endpoint with typed-data digests, nonces and the cooling-off.
    - RuntimeFlags: [payout/runtime_flags.go], [pauseresume.go], [bootstrap.go]: goroutines
      ([Proc]) that step once per transaction and per event, in any interleaving.
    - Funding: [payout/funding.go], the records of [orphans.go], the worker of [reconcile.go]
      and the bootstrap triggers, as a history of requests and pipeline statements.
    - PayoutOps: [payout/config_tuning.go], [runnow.go], [chronic.go], [config_security.go],
      [topology.go].
    - Trust: [rewards/unlock.go], [unlock_admin.go], [wallet_mirror.go]. Rewards:
      [rewards/emission.go], [withdrawal.go] and the histories of all reward jobs.

    ** What is shown

    - C1: the bill is the exact formula or a flagged zero.
    - C2, C3: no interleaving of runners, abandon requests with a cancel, reorg polls and
      reapers pays a payout twice, and a claimed payout was paid. C15, C25: the envelope
      that is sent pays exactly this amount to exactly this address, its signature is that
      of the hot wallet over the digest the code computes, and it decodes to what was
      encoded.
    - C11, C17, C23: every reachable registry of the pool is well formed; canaries
      never empty a model; a held session cannot talk its way back into the routing.
    - C12, C19, C20: a selected provider may serve the request, a slot waited for goes to
      the head of its queue, the selection ends, and takes one of the best providers that
      are ready.
    - C21: the slot queue accounts for every slot and waiter in any interleaving.
    - C33: if waits end and queues are full at most so often, a request is answered, exactly
      once, after a bounded number of attempts, no two of them at the same session
      ([session_tried_once]).
    - C28, C38: a payout goes to an address its provider registered with the key of that
      address and that has cooled off, and no signed registration is accepted twice.
    - C14: recorded funding that nodes confirmed never exceeds what arrived on the chain; by
      hand it is refused for good after the first payout ([manual_funding_ends]), and the
      worker halts on made-up funding and not on right books
      ([worker_finds_made_up_funding]). Orphans keep their snapshot ([orphans_are_kept]).
    - C30: a flip of a flag is announced at most once, the flag is what its audit rows lead to
      ([flag_follows_audit]), a pass of the reaper announces every old flip
      ([reaper_announces_old_flips]), a pause stops registrations
      ([pause_stops_registrations]) and survives restarts ([restart_keeps_flags]).
    - C22: what can be withdrawn was earned by a trusted provider. A demoted one earns its
      trust again ([demoted_provider_requalifies]), and an operator promotion took two
      operators ([promotion_took_two_operators]).
    - C39: a response sent again to a retry without an id is the whole answer of an identical
      request; such a retry is not reserved again unless its claim was dropped, out of its
      window or under pressure ([claim_kept], [retry_billed_once]), the index keeps its
      bounds ([reachable_index_ok]) and strands no waiter ([no_stranded_waiter]).
    - C18: a provisional provider serves at most its quota in any hour, while the store can
      be written and, at a restart, read.
    - C6-C10: payouts carry the sums of their credits in every interleaving; a run
      settles only eligible credits and always commits; a claim succeeds exactly on
      a payout that equals its sources, and at most once.
    - C29: a resolution endpoint does exactly what it documents, every refusal included; a
      matured force credit is never corrected again ([matured_force_credit_final]).
    - C13, C16: in the gateway's store a settled reservation is billed once and
      for good, and the daily quota is exceeded by no more than what is billed without a
      reservation.
    - C24: an acknowledged journal effect stays in the recovery queue until it is
      sealed or quarantined, also beside a prune that runs while others write, if writes are
      whole and the prune has not read the segment of the effect before it was written.
    - C4, C5: a re-drive bills what the journal says and nothing else; recovery of an
      effect ends within ten undisturbed passes; a seal always means a bill, through
      failures, crashes and restarts ([sealed_effect_is_billed]).
    - Beyond the numbered claims: the credit splits without remainder
      ([credit_split_conserved]), the version gate is exact ([check_verdict]), the
      terminal arbiter reports exactly the disagreements in any order of events
      ([terminal_verdict_exact], [verdict_order_independent]), the sticky map is bounded
      and isolates accounts, the gateway's concurrency limit holds
      ([concurrency_bounded]), and a rotated receipt key stays verifiable for its grace
      ([rotated_key_verifiable]); slots are granted in the order of arrival
      ([slot_granted_in_turn]), a stored sticky pin is found again
      ([store_lookup_roundtrip]), the bytes a snapshot digest hashes determine the snapshot
      ([snapshot_canonical_injective]), finality of an external request is the fold of all
      its attempts ([external_finality_merges]), what the local signer signs passes the
      check before a broadcast ([local_signer_passes]), live tuning stays in its bounds and
      admitted run-now requests keep their interval ([run_now_spaced]), and an RPC outage is
      paged with reason and once per cooldown ([outages_paged_with_reason]).
    - C26: no byte range of a response is paid twice, whatever the attempts report.
    - C27: the verifier accepts exactly genuine receipts; what it settles is delivered usage
      in range ([settled_usage_safe]).
    - C31: settled verdicts are earned, and closed ones final ([closed_verdict_final]).
    - C32: the finality answer is the documented fold of the attempts, in both directions.
    - C34-C36: the resync bills or quarantines exactly the credits that are due, on the
      receipt's usage, changes nothing but an update time when run again, and no reachable
      credit has a split that does not add up.
    - C37: the hot path writes exactly the documented credit on every branch, as ledger
      steps, and pays only unambiguous attempts
      ([hot_path_pays_unambiguous]).
    - C40: end to end, no enforced credit is settled without a genuine receipt.

    ** Conventions and bounds

    Integers are [Z] with the wrap-around of [int64] written out where the code
    computes on them; sums that SQLite computes are checked to fit. A transaction that
    fails returns [None] and leaves the store as it was. Times are the texts or
    Unix milliseconds the code stores, and each clock reading is an argument. The
    functions are structurally recursive, but for seven that take fuel, each with a proof
    that enough of it gives a result: the JSON text parser (three times the length of the
    text and three more), the loop over the runes of a text (its length), the wait for a
    slot ([queue_loop]: the operations before the deadline is seen, four per provider and
    two more) and the loop over attempts ([forwardWithFailover]: the retries, the full
    queues and two more) and the RLP decoder (the length of the payload), and the two loops that evict from the index of
    retries (the mappings, the bodies). A runner polls a
    receipt [PollRounds] times, runs any number of ticks, and scans at most 79 chunks of
    stale cancels, the ceiling of the code. Recovery's bound of ten is the code's own. A pass of
    the reaper ends within three steps per audit row and two more ([run_alone]). What Go or SQL leave
    open is a parameter with its law: the order of [range] over a map, and the order
    of [GROUP BY]. Code outside the repository is a class: [GoLib] (SHA-256, Ed25519,
    base64, JSON decoding), [EvmLib] (Keccak, key recovery), [TextLib] (NFC, float texts), [JsonColumns] and [RecordCodec]
    (a journal line).

    ** Not modelled

    Logging, metrics and audit payload texts; HTTP, websocket and database drivers;
    schema migrations; nil receivers; non-ASCII case folding in string helpers; ledger recovery and config snapshot
    writes, whose rows the model reads; the routes of the payout admin listener, the timers of
    its workers and the splitter of [reconcile.sql]; the rendering of reward balances; the bodies of the
    dispatch callbacks (request construction, streaming relay, response rendering); the websocket
    relay, onboarding, device management, statistics and explorer, which move no money; the gateway's
    accounts, keys and reconciler; the verifier command line and the Swift provider binary. A journal
    write torn inside a line is modelled, and excluded where a theorem says so.

    ** Plan

    Next, in this order: ledger recovery as further [ledger_step]s; the gateway's accounts,
    reconciler and limiters; the websocket relay as a producer of the events [Pool] takes. *)

From Stdlib Require Export ZArith Lia Ascii.
From Stdlib Require String.
From stdpp Require Export base tactics list gmap strings fin_maps numbers sorting.

Global Open Scope Z_scope.
Global Open Scope list_scope.
#[export] Set Warnings "-clear-no-such-hyp".

(** ** Automation *)

(** Lemmas on machine integers. *)
Create HintDb go64.
Create Rewrite HintDb go64.
(** Lemmas on list sums, filters and maps. *)
Create HintDb go_list.
Create Rewrite HintDb go_list.

(** Turns every boolean test of the goal and of the hypotheses into a case
    split; [lia] understands the resulting [_ = true] and [_ = false]. *)
Ltac split_ifs :=
  repeat match goal with
  | |- context [if ?b then _ else _] =>
      lazymatch type of b with bool => destruct b eqn:? end
  | H : context [if ?b then _ else _] |- _ =>
      lazymatch type of b with bool => destruct b eqn:? end
  end.

(** Splits boolean conjunctions and disjunctions of the hypotheses. *)
Ltac bool_hyps :=
  repeat match goal with
  | H : (_ && _)%bool = true |- _ => apply andb_true_iff in H as [? ?]
  | H : (_ || _)%bool = false |- _ => apply orb_false_iff in H as [? ?]
  | H : negb _ = true |- _ => apply negb_true_iff in H
  | H : negb _ = false |- _ => apply negb_false_iff in H
  | H : String.eqb _ _ = true |- _ => apply String.eqb_eq in H
  | H : String.eqb _ _ = false |- _ => apply String.eqb_neq in H
  | H : bool_decide _ = true |- _ => apply bool_decide_eq_true_1 in H
  | H : bool_decide _ = false |- _ => apply bool_decide_eq_false_1 in H
  end.

(** ** Record update

    [r <| f := v |>] is the record [r] with field [f] set to [v]. A record gets the
    notation by an instance of [Rebuild], the record put together from its own fields;
    the setter of a field is computed from it. *)
Class Rebuild (R : Type) := rebuild : R -> R.
Class Setter {R E : Type} (field : R -> E) := set_field : E -> R -> R.
Arguments set_field {R E} field {_} v r /.

Ltac field_setter :=
  lazymatch goal with
  | |- @Setter ?R ?E ?field =>
      let whole := constr:(_ : Rebuild R) in
      let setter := constr:(fun (v : E) (r : R) => ltac:(
        let body := eval hnf in (whole r) in
        lazymatch eval pattern (field r) in body with
        | ?hole _ => let out := eval cbv beta in (hole v) in exact out
        end)) in
      exact setter
  end.
#[export] Hint Extern 1 (Setter _) => field_setter : typeclass_instances.

Notation "r <| f := v |>" := (set_field f v r) (at level 1, left associativity, f at level 0, v at level 99, format "r  <|  f  :=  v  |>").

(** ** 64-bit signed integers

    Go's [int64] (and [int] on the 64-bit targets the services are built for):
    a [Z] kept in [[-2^63, 2^63)] by wrapping the result of each operation.
    Division and remainder truncate toward zero, as in Go. *)
Module Int64.
Definition modulus : Z := 18446744073709551616.
Definition half : Z := 9223372036854775808.
Definition max : Z := 9223372036854775807.
Definition min : Z := -9223372036854775808.

Definition wrap (z : Z) : Z := (z + half) mod modulus - half.
Definition add (a b : Z) : Z := wrap (a + b).
Definition sub (a b : Z) : Z := wrap (a - b).
Definition mul (a b : Z) : Z := wrap (a * b).
Definition neg (a : Z) : Z := wrap (- a).
Definition quot (a b : Z) : Z := wrap (Z.quot a b).
Definition rem (a b : Z) : Z := wrap (Z.rem a b).

Definition in_range (z : Z) : Prop := min <= z <= max.

Lemma wrap_id z : in_range z -> wrap z = z.
Proof.
  unfold in_range, wrap, min, max, half, modulus. intros H.
  rewrite Z.mod_small by lia. lia.
Qed.

Lemma wrap_range z : in_range (wrap z).
Proof.
  unfold in_range, wrap, min, max, half, modulus.
  pose proof (Z.mod_pos_bound (z + 9223372036854775808) 18446744073709551616).
  lia.
Qed.

Lemma add_exact a b : in_range (a + b) -> add a b = a + b.
Proof. apply wrap_id. Qed.

Lemma sub_exact a b : in_range (a - b) -> sub a b = a - b.
Proof. apply wrap_id. Qed.

Lemma mul_exact a b : in_range (a * b) -> mul a b = a * b.
Proof. apply wrap_id. Qed.

Lemma neg_exact a : in_range (- a) -> neg a = - a.
Proof. apply wrap_id. Qed.

Lemma quot_range a b : in_range a -> 0 < b -> in_range (Z.quot a b).
Proof.
  unfold in_range, min, max. intros Ha Hb.
  destruct (Z.le_gt_cases 0 a).
  - pose proof (Z.quot_pos a b ltac:(lia) Hb).
    pose proof (Z.quot_le_upper_bound a b a Hb). nia.
  - pose proof (Z.quot_pos (- a) b ltac:(lia) Hb).
    pose proof (Z.quot_le_upper_bound (- a) b (- a) Hb).
    rewrite Z.quot_opp_l in * by lia. nia.
Qed.

Lemma quot_exact a b : in_range a -> 0 < b -> quot a b = Z.quot a b.
Proof. intros. apply wrap_id. by apply quot_range. Qed.

Lemma rem_abs_lt a b : 0 < b -> Z.abs (Z.rem a b) < b.
Proof. intros. pose proof (Z.rem_bound_abs a b). lia. Qed.

Lemma rem_exact a b : 0 < b <= max -> rem a b = Z.rem a b.
Proof.
  intros. apply wrap_id. pose proof (rem_abs_lt a b).
  unfold in_range, min, max in *. lia.
Qed.
(** Sums at the 64-bit width: wrapping early or late is the same. *)
Lemma wrap_wrap z : wrap (wrap z) = wrap z.
Proof. apply wrap_id, wrap_range. Qed.

Lemma add_wrap_l a b : add (wrap a) b = add a b.
Proof.
  unfold add, wrap. f_equal.
  replace ((a + half) mod modulus - half + b + half) with ((a + half) mod modulus + b) by lia.
  rewrite Zplus_mod_idemp_l. f_equal. lia.
Qed.

Lemma add_comm a b : add a b = add b a.
Proof. unfold add. f_equal. lia. Qed.

Lemma add_wrap_r a b : add a (wrap b) = add a b.
Proof. by rewrite add_comm, add_wrap_l, add_comm. Qed.

Lemma add_assoc a b c : add (add a b) c = add a (add b c).
Proof. unfold add at 2 4. rewrite add_wrap_l, add_wrap_r. unfold add. f_equal. lia. Qed.

Lemma add_range a b : in_range (add a b).
Proof. apply wrap_range. Qed.

Lemma add_zero_r a : in_range a -> add a 0 = a.
Proof. intros Ha. unfold add. rewrite Z.add_0_r. by apply wrap_id. Qed.

Lemma add_zero_l_r a b : add a (add 0 b) = add a b.
Proof. unfold add at 2. by rewrite add_wrap_r. Qed.
End Int64.

#[export] Hint Resolve Int64.wrap_range : go64.
Global Hint Rewrite Int64.add_exact Int64.sub_exact Int64.mul_exact
  Int64.neg_exact using (unfold Int64.in_range, Int64.min, Int64.max in *; lia) : go64.

(** Unfolds the bounds of the 64-bit range for [lia]. *)
Ltac i64 := unfold Int64.in_range, Int64.min, Int64.max in *.

(** ** Sums over lists *)

Section SumZ.
Context {A : Type}.
Implicit Types (f g : A -> Z) (l : list A).

Fixpoint sumZ f l : Z :=
  match l with
  | [] => 0
  | x :: l => f x + sumZ f l
  end.

Lemma sumZ_app f l1 l2 : sumZ f (l1 ++ l2) = sumZ f l1 + sumZ f l2.
Proof. induction l1; simpl; lia. Qed.

Lemma sumZ_ext f g l : (forall x, x ∈ l -> f x = g x) -> sumZ f l = sumZ g l.
Proof.
  induction l as [|x l IH]; intros H; simpl; [done|].
  rewrite IH by (intros; apply H; set_solver). rewrite H by set_solver. lia.
Qed.

Lemma sumZ_plus f g l : sumZ (fun x => f x + g x) l = sumZ f l + sumZ g l.
Proof. induction l; simpl; lia. Qed.

Lemma sumZ_nonneg f l : (forall x, x ∈ l -> 0 <= f x) -> 0 <= sumZ f l.
Proof.
  induction l as [|x l IH]; intros H; simpl; [lia|].
  pose proof (H x ltac:(set_solver)).
  pose proof (IH ltac:(set_solver)). lia.
Qed.

#[global] Instance sumZ_perm f : Proper (Permutation ==> eq) (sumZ f).
Proof. intros l1 l2 H. induction H; simpl; lia. Qed.
End SumZ.

Lemma sumZ_map {A B} (h : A -> B) (f : B -> Z) l :
  sumZ f (map h l) = sumZ (fun x => f (h x)) l.
Proof. induction l; simpl; [done|]. by rewrite IHl. Qed.

(** Sum of [f] over the members of [l] selected by [p]. *)
Definition sum_if {A} (p : A -> bool) (f : A -> Z) (l : list A) : Z :=
  sumZ (fun x => if p x then f x else 0) l.

Lemma sum_if_filter {A} (p : A -> bool) (f : A -> Z) l :
  sum_if p f l = sumZ f (List.filter p l).
Proof.
  unfold sum_if. induction l as [|x l IH]; simpl; [done|].
  destruct (p x); simpl; rewrite IH; lia.
Qed.

Lemma sum_if_cons {A} (p : A -> bool) (f : A -> Z) x l :
  sum_if p f (x :: l) = (if p x then f x else 0) + sum_if p f l.
Proof. done. Qed.

#[export] Hint Resolve sumZ_nonneg : go_list.

(** ** Sums over a map *)

Section MapSum.
Context {K V : Type} `{Countable K}.
Implicit Types (f g : K -> V -> Z) (m : gmap K V).

Definition sum_map f m : Z := map_fold (fun k v acc => f k v + acc) 0 m.

Lemma sum_map_empty f : sum_map f ∅ = 0.
Proof. apply map_fold_empty. Qed.

Lemma sum_map_insert f m k v : m !! k = None -> sum_map f (<[k := v]> m) = f k v + sum_map f m.
Proof. intros Hk. unfold sum_map. rewrite map_fold_insert_L; [done| |done]. intros. lia. Qed.

Lemma sum_map_lookup f m k v : m !! k = Some v -> sum_map f m = f k v + sum_map f (delete k m).
Proof.
  intros Hk. rewrite <- (insert_delete_id m k v Hk) at 1.
  apply sum_map_insert, lookup_delete_eq.
Qed.

(** Replacing a row changes the sum by the difference of the two rows. *)
Lemma sum_map_update f m k v v' :
  m !! k = Some v -> sum_map f (<[k := v']> m) = sum_map f m - f k v + f k v'.
Proof.
  intros Hk. rewrite <- insert_delete_eq, sum_map_insert by apply lookup_delete_eq.
  rewrite (sum_map_lookup f m k v Hk). lia.
Qed.

Lemma sum_map_nonneg f m : map_Forall (fun k v => 0 <= f k v) m -> 0 <= sum_map f m.
Proof.
  induction m as [|k v m Hk IH] using map_ind; intros Hf; [rewrite sum_map_empty; lia|].
  rewrite sum_map_insert by done. apply map_Forall_insert in Hf as [? ?]; [|done].
  specialize (IH ltac:(done)). lia.
Qed.

(** A change of the rows that raises no summand raises no sum. *)
Lemma sum_map_fmap_le f m (h : V -> V) :
  map_Forall (fun k v => f k (h v) <= f k v) m -> sum_map f (h <$> m) <= sum_map f m.
Proof.
  induction m as [|k v m Hk IH] using map_ind; intros Hh; [rewrite fmap_empty; lia|].
  apply map_Forall_insert in Hh as [Hv Hh]; [|done]. specialize (IH Hh).
  rewrite fmap_insert, !sum_map_insert by (rewrite ?lookup_fmap, ?Hk; done). lia.
Qed.

Lemma sum_map_imap f m (g : K -> V -> V) :
  sum_map f (map_imap (fun k v => Some (g k v)) m) = sum_map (fun k v => f k (g k v)) m.
Proof.
  induction m as [|k v m Hk IH] using map_ind; [by rewrite map_imap_empty|].
  erewrite map_imap_insert_Some by done. rewrite !sum_map_insert; [by rewrite IH|done|].
  by rewrite map_lookup_imap, Hk.
Qed.

Lemma sum_map_mono f g m : (forall k v, f k v <= g k v) -> sum_map f m <= sum_map g m.
Proof.
  intros Hf. induction m as [|k v m Hk IH] using map_ind; [done|].
  rewrite !sum_map_insert by done. specialize (Hf k v). lia.
Qed.

Lemma sum_map_filter_le f m (P : K * V -> Prop) `{!forall x, Decision (P x)} :
  map_Forall (fun k v => 0 <= f k v) m -> sum_map f (filter P m) <= sum_map f m.
Proof.
  induction m as [|k v m Hk IH] using map_ind; intros Hf; [rewrite map_filter_empty; lia|].
  apply map_Forall_insert in Hf as [Hv Hf]; [|done]. specialize (IH Hf).
  rewrite (sum_map_insert _ _ _ _ Hk). destruct (decide (P (k, v))).
  - rewrite map_filter_insert_True by done. rewrite sum_map_insert; [lia|].
    apply map_lookup_filter_None_2. by left.
  - rewrite map_filter_insert_False, delete_id by done. lia.
Qed.
End MapSum.

(** ** Lists *)

Lemma find_Some_elem {A} (p : A -> bool) l x :
  List.find p l = Some x -> x ∈ l /\ p x = true.
Proof. intros H. apply find_some in H as [? ?]. by rewrite list_elem_of_In. Qed.

Lemma find_None_elem {A} (p : A -> bool) l x :
  List.find p l = None -> x ∈ l -> p x = false.
Proof. intros H Hx. eapply find_none; [done|]. by apply list_elem_of_In. Qed.

Lemma find_app {A} (p : A -> bool) l1 l2 :
  List.find p (l1 ++ l2)
  = match List.find p l1 with Some x => Some x | None => List.find p l2 end.
Proof. induction l1 as [|x l1 IH]; simpl; [done|]. by destruct (p x). Qed.

Lemma Forall2_compose {A} (R : A -> A -> Prop) l1 l2 l3 :
  (forall x y z, R x y -> R y z -> R x z) ->
  Forall2 R l1 l2 -> Forall2 R l2 l3 -> Forall2 R l1 l3.
Proof.
  intros Ht H. revert l3. induction H; intros l3 H3; inversion_clear H3; constructor; eauto.
Qed.

Lemma Forall2_refl_on {A} (R : A -> A -> Prop) l : (forall x, R x x) -> Forall2 R l l.
Proof. intros H. induction l; constructor; auto. Qed.

Lemma filter_length_le {A} (p q : A -> bool) l :
  (forall x, x ∈ l -> q x = true -> p x = true) ->
  (length (List.filter q l) <= length (List.filter p l))%nat.
Proof.
  induction l as [|x l IH]; intros H; simpl; [done|].
  pose proof (H x (list_elem_of_here _ _)) as Hx.
  pose proof (IH (fun y Hy => H y (list_elem_of_further _ _ _ Hy))).
  destruct (q x), (p x); simpl; try lia; by specialize (Hx eq_refl).
Qed.

(** A stronger filter that keeps as many elements is the same filter. *)
Lemma filter_length_eq {A} (p q : A -> bool) l :
  (forall x, x ∈ l -> q x = true -> p x = true) ->
  length (List.filter p l) = length (List.filter q l) ->
  forall x, x ∈ l -> p x = q x.
Proof.
  induction l as [|y l IH]; intros H Hl x Hx; [set_solver|]. simpl in Hl.
  assert (forall z, z ∈ l -> q z = true -> p z = true) as H'
    by (intros z Hz; apply H; by apply list_elem_of_further).
  pose proof (H y (list_elem_of_here _ _)) as Hy.
  pose proof (filter_length_le p q l H').
  apply elem_of_cons in Hx as [->|Hx].
  - destruct (p y), (q y); simpl in *; try done; try lia; by specialize (Hy eq_refl).
  - apply IH; [done| |done]. destruct (p y), (q y); simpl in *; try lia; by specialize (Hy eq_refl).
Qed.

(** Two members of a list with the same value of a duplicate-free key are equal. *)
Lemma NoDup_map_inj {A B} (k : A -> B) (l : list A) x y :
  NoDup (map k l) -> x ∈ l -> y ∈ l -> k x = k y -> x = y.
Proof.
  induction l as [|a l IH]; simpl; [set_solver|].
  rewrite NoDup_cons, !elem_of_cons. intros [Hn Hd] [->|Hx] [->|Hy] He; auto.
  - destruct Hn. rewrite He. apply list_elem_of_In, in_map_iff. exists y.
    by rewrite <- list_elem_of_In.
  - destruct Hn. rewrite <- He. apply list_elem_of_In, in_map_iff. exists x.
    by rewrite <- list_elem_of_In.
Qed.

Lemma elem_of_map {A B} (f : A -> B) l y :
  y ∈ map f l <-> exists x, x ∈ l /\ y = f x.
Proof.
  rewrite list_elem_of_In, in_map_iff.
  split; intros (x & H1 & H2); exists x; rewrite list_elem_of_In in *; auto.
Qed.

Lemma elem_of_List_filter {A} (p : A -> bool) l x :
  x ∈ List.filter p l <-> x ∈ l /\ p x = true.
Proof. rewrite !list_elem_of_In. apply filter_In. Qed.

Lemma existsb_elem {A} (p : A -> bool) l :
  existsb p l = true <-> exists x, x ∈ l /\ p x = true.
Proof.
  rewrite existsb_exists. split; intros (x & H & ?); exists x;
    rewrite list_elem_of_In in *; auto.
Qed.

Lemma Forall_forallb {A} (p : A -> bool) (l : list A) :
  forallb p l = true <-> Forall (fun x => p x = true) l.
Proof.
  rewrite forallb_forall, Forall_forall.
  split; intros H x Hx; apply H; by apply list_elem_of_In.
Qed.

(** ** Counting *)

(** The number of members of [l] that satisfy [p]. *)
Definition count {A} (p : A -> bool) (l : list A) : Z := Z.of_nat (length (List.filter p l)).

Lemma count_app {A} (p : A -> bool) l1 l2 : count p (l1 ++ l2) = count p l1 + count p l2.
Proof. unfold count. rewrite List.filter_app, length_app. lia. Qed.

Lemma count_cons {A} (p : A -> bool) x l :
  count p (x :: l) = (if p x then 1 else 0) + count p l.
Proof. unfold count. simpl. destruct (p x); simpl; lia. Qed.

Lemma count_nonneg {A} (p : A -> bool) l : 0 <= count p l.
Proof. unfold count. lia. Qed.

Lemma count_le_length {A} (p : A -> bool) l : count p l <= Z.of_nat (length l).
Proof. unfold count. pose proof (List.filter_length_le p l). lia. Qed.

Lemma count_wrap {A} (p : A -> bool) l :
  Z.of_nat (length l) <= Int64.max -> Int64.wrap (count p l) = count p l.
Proof.
  intros Hl. apply Int64.wrap_id. pose proof (count_le_length p l). pose proof (count_nonneg p l).
  i64. lia.
Qed.

Lemma count_zero_existsb {A} (p : A -> bool) l : existsb p l = negb (count p l =? 0).
Proof.
  induction l as [|x l IH]; [done|]. rewrite count_cons. simpl. rewrite IH.
  pose proof (count_nonneg p l). destruct (p x); simpl; [symmetry; apply negb_true_iff; lia|].
  f_equal.
Qed.

#[global] Instance count_perm {A} (p : A -> bool) : Proper (Permutation ==> eq) (count p).
Proof. intros l1 l2 H. induction H; rewrite ?count_cons in *; lia. Qed.

Lemma existsb_snoc {A} (p : A -> bool) l x : existsb p (l ++ [x]) = (existsb p l || p x)%bool.
Proof. rewrite existsb_app. simpl. by rewrite orb_false_r. Qed.

Lemma count_snoc {A} (p : A -> bool) l x :
  count p (l ++ [x]) = count p l + if p x then 1 else 0.
Proof. by rewrite count_app, count_cons, Z.add_0_r. Qed.

(** ** Strings

    Go strings are byte strings; so are Rocq's. The case and white-space
    helpers below are Go's [strings] functions on the ASCII range (bytes at or
    above 128 are neither letters nor spaces here); every identifier they are
    applied to (model keys, class names, version strings, header values) is
    ASCII. *)
Module GoStr.
Definition is_space (c : ascii) : bool :=
  let n := N_of_ascii c in
  ((9 <=? n) && (n <=? 13) || (n =? 32))%N%bool.

Definition lower_ascii (c : ascii) : ascii :=
  let n := N_of_ascii c in
  if ((65 <=? n) && (n <=? 90))%N%bool then ascii_of_N (n + 32)%N else c.

Definition chars (s : string) : list ascii := String.list_ascii_of_string s.
Definition of_chars (l : list ascii) : string := String.string_of_list_ascii l.

Fixpoint drop_while (p : ascii -> bool) (l : list ascii) : list ascii :=
  match l with
  | [] => []
  | c :: l' => if p c then drop_while p l' else l
  end.

Definition TrimLeftFunc (p : ascii -> bool) (s : string) : string :=
  of_chars (drop_while p (chars s)).
Definition TrimRightFunc (p : ascii -> bool) (s : string) : string :=
  of_chars (rev (drop_while p (rev (chars s)))).
Definition TrimSpace (s : string) : string :=
  TrimRightFunc is_space (TrimLeftFunc is_space s).
Definition ToLower (s : string) : string := of_chars (map lower_ascii (chars s)).
Definition EqualFold (a b : string) : bool := String.eqb (ToLower a) (ToLower b).

Fixpoint list_prefix (p l : list ascii) : bool :=
  match p, l with
  | [], _ => true
  | _ :: _, [] => false
  | a :: p', b :: l' => (Ascii.eqb a b && list_prefix p' l')%bool
  end.

Definition HasPrefix (s p : string) : bool := list_prefix (chars p) (chars s).
Definition HasSuffix (s p : string) : bool :=
  list_prefix (rev (chars p)) (rev (chars s)).
Definition TrimPrefix (s p : string) : string :=
  if HasPrefix s p then of_chars (skipn (length (chars p)) (chars s)) else s.
Definition TrimSuffix (s p : string) : string :=
  if HasSuffix s p
  then of_chars (firstn (length (chars s) - length (chars p)) (chars s)) else s.

(** The text after the character [c]. *)
Definition expect (c : ascii) (l : list ascii) : option (list ascii) :=
  match l with x :: l => if Ascii.eqb x c then Some l else None | [] => None end.

(** The position of the first [c] in [l], as [strings.IndexByte]. *)
Fixpoint index_byte (l : list ascii) (c : ascii) : option nat :=
  match l with
  | [] => None
  | x :: l' => if Ascii.eqb x c then Some 0%nat else S <$> index_byte l' c
  end.

(** [strings.Split] on a one-byte separator. *)
Fixpoint split_on (sep : ascii) (l : list ascii) : list (list ascii) :=
  match l with
  | [] => [[]]
  | x :: l' =>
      if Ascii.eqb x sep then [] :: split_on sep l'
      else match split_on sep l' with
           | [] => [[x]]
           | w :: ws => (x :: w) :: ws
           end
  end.

(** [strconv.Atoi]: an optional sign, then decimal digits; [None] stands for
    the syntax and the range error. *)
Definition is_digit (c : ascii) : bool :=
  let n := N_of_ascii c in ((48 <=? n) && (n <=? 57))%N%bool.

Definition digits_value (l : list ascii) : Z :=
  fold_left (fun acc c => 10 * acc + (Z.of_N (N_of_ascii c) - 48)) l 0.

Definition parse_magnitude (l : list ascii) : option Z :=
  match l with
  | [] => None
  | _ => if forallb is_digit l then Some (digits_value l) else None
  end.

Definition int_range_checked (z : Z) : option Z :=
  if (Int64.min <=? z) && (z <=? Int64.max) then Some z else None.

Definition Atoi (s : string) : option Z :=
  match chars s with
  | c :: l =>
      if Ascii.eqb c "-" then m ← parse_magnitude l; int_range_checked (- m)
      else if Ascii.eqb c "+" then m ← parse_magnitude l; int_range_checked m
      else m ← parse_magnitude (c :: l); int_range_checked m
  | [] => None
  end.

Lemma int_range_checked_range z z' : int_range_checked z = Some z' -> Int64.in_range z'.
Proof.
  unfold int_range_checked, Int64.in_range. intros H.
  split_ifs; simplify_eq; bool_hyps; lia.
Qed.

Lemma Atoi_range s z : Atoi s = Some z -> Int64.in_range z.
Proof.
  unfold Atoi. intros H. destruct (chars s) as [|c l]; [done|].
  split_ifs; simplify_option_eq; eauto using int_range_checked_range.
Qed.

Lemma chars_of_chars l : chars (of_chars l) = l.
Proof. apply String.list_ascii_of_string_of_list_ascii. Qed.

Lemma of_chars_chars s : of_chars (chars s) = s.
Proof. apply String.string_of_list_ascii_of_string. Qed.

Lemma chars_app a b : chars (a +:+ b) = chars a ++ chars b.
Proof.
  unfold chars. induction a as [|c a IH]; [done|].
  change (String c a +:+ b) with (String c (a +:+ b)). simpl. by rewrite IH.
Qed.

Lemma chars_inj a b : chars a = chars b -> a = b.
Proof. intros H. by rewrite <- (of_chars_chars a), H, of_chars_chars. Qed.

(** Concatenations with right parts of the same length split uniquely. *)
Lemma append_inj_r a1 a2 b1 b2 :
  length (chars b1) = length (chars b2) ->
  a1 +:+ b1 = a2 +:+ b2 -> a1 = a2 /\ b1 = b2.
Proof.
  intros Hl H. apply (f_equal chars) in H. rewrite !chars_app in H.
  apply app_inj_2 in H as [H1 H2]; [|done]. split; by apply chars_inj.
Qed.

Lemma drop_while_snoc p l c : p c = false -> drop_while p (l ++ [c]) = drop_while p l ++ [c].
Proof. intros Hc. induction l as [|x l IH]; simpl; [by rewrite Hc|]. by destruct (p x). Qed.

Lemma drop_while_head p l :
  drop_while p l = [] \/ exists c t, drop_while p l = c :: t /\ p c = false.
Proof. induction l as [|x l IH]; simpl; [auto|]. destruct (p x) eqn:?; eauto. Qed.

Lemma drop_while_idem p l : drop_while p (drop_while p l) = drop_while p l.
Proof. destruct (drop_while_head p l) as [->|(c & t & -> & Hc)]; simpl; [done|]. by rewrite Hc. Qed.

Lemma drop_while_trim p l :
  drop_while p (rev (drop_while p (rev (drop_while p l)))) = rev (drop_while p (rev (drop_while p l))).
Proof.
  destruct (drop_while_head p l) as [->|(c & t & -> & Hc)]; [done|].
  simpl. rewrite (drop_while_snoc p _ c Hc), rev_app_distr. simpl. by rewrite Hc.
Qed.

Lemma TrimSpace_idem s : TrimSpace (TrimSpace s) = TrimSpace s.
Proof.
  unfold TrimSpace, TrimRightFunc, TrimLeftFunc. rewrite !chars_of_chars.
  by rewrite (drop_while_trim _ (chars s)), rev_involutive, drop_while_idem.
Qed.

Lemma ToLower_empty s : ToLower s = "" -> s = "".
Proof. unfold ToLower. destruct s; [done|]. discriminate. Qed.

Lemma lower_ascii_idem c : lower_ascii (lower_ascii c) = lower_ascii c.
Proof. destruct c as [[] [] [] [] [] [] [] []]; reflexivity. Qed.

Lemma ToLower_idem s : ToLower (ToLower s) = ToLower s.
Proof.
  unfold ToLower. rewrite chars_of_chars, map_map. f_equal.
  apply map_ext. apply lower_ascii_idem.
Qed.

Lemma EqualFold_refl s : EqualFold s s = true.
Proof. apply String.eqb_refl. Qed.

Lemma EqualFold_sym a b : EqualFold a b = EqualFold b a.
Proof. apply String.eqb_sym. Qed.
End GoStr.

Global Hint Rewrite GoStr.chars_of_chars GoStr.of_chars_chars GoStr.ToLower_idem GoStr.TrimSpace_idem
  GoStr.EqualFold_refl : go_list.

(** ** Maps in Go's iteration order

    [range] over a Go map visits every entry once, in an unspecified order. An
    [order] argument is that order; [enumerates] is all the language
    guarantees of it. *)
Definition enumerates {A} (order : gmap string A -> list (string * A)) : Prop :=
  forall m, order m ≡ₚ map_to_list m.

Lemma enumerates_map_to_list {A} : enumerates (@map_to_list _ A _ _).
Proof. by intros m. Qed.

Section MapLoop.
Context {A : Type} (p : string -> A -> bool).

(** [for k, v := range m { if p(k, v) { delete(m, k); n++ } }] over the visits [l]. *)
Definition delete_loop (l : list (string * A)) (acc : gmap string A * Z) : gmap string A * Z :=
  fold_left (fun acc kv => if p kv.1 kv.2 then (delete kv.1 acc.1, acc.2 + 1) else acc) l acc.

Lemma delete_loop_lookup l m n k :
  NoDup (map fst l) -> (forall k v, (k, v) ∈ l -> m !! k = Some v) ->
  (delete_loop l (m, n)).1 !! k
  = v ← m !! k; if existsb (fun kv => String.eqb kv.1 k && p kv.1 kv.2)%bool l then None else Some v.
Proof.
  revert m n. induction l as [|[k0 v0] l IH]; intros m n Hd Hl; simpl.
  { by destruct (m !! k). }
  simpl in Hd. apply NoDup_cons in Hd as [Hn Hd].
  assert (forall k v, (k, v) ∈ l -> k <> k0 /\ m !! k = Some v) as Hl'.
  { intros k' v' Hk. split; [|apply Hl; by right].
    intros ->. apply Hn. apply elem_of_map. by exists (k0, v'). }
  destruct (p k0 v0) eqn:Hp; simpl; rewrite ?andb_true_r, ?andb_false_r; simpl.
  - rewrite IH; [|done|].
    + destruct (String.eqb k0 k) eqn:Hk; bool_hyps.
      * subst. rewrite lookup_delete_eq. simpl. by destruct (m !! k).
      * by rewrite lookup_delete_ne.
    + intros k' v' Hk. rewrite lookup_delete_ne by (apply not_eq_sym; by eapply Hl').
      by apply Hl'.
  - apply IH; [done|]. intros k' v' Hk. by apply Hl'.
Qed.

(** The loop over a whole map removes exactly the entries that satisfy [p]. *)
Lemma delete_loop_filter order m n :
  enumerates order ->
  (delete_loop (order m) (m, n)).1 = filter (fun kv => p kv.1 kv.2 = false) m.
Proof.
  intros Ho. pose proof (Ho m) as Hm. apply map_eq. intros k.
  rewrite delete_loop_lookup.
  2:{ change (map fst (order m)) with ((order m).*1). rewrite Hm. apply NoDup_fst_map_to_list. }
  2:{ intros k' v' Hk. rewrite Hm in Hk. by apply elem_of_map_to_list in Hk. }
  destruct (m !! k) as [v|] eqn:Hk; simpl.
  2:{ symmetry. by apply map_lookup_filter_None_2; left. }
  destruct (existsb _ _) eqn:He.
  - apply existsb_elem in He as ([k' v'] & Hin & Hb). simpl in Hb. bool_hyps. subst.
    rewrite Hm in Hin. apply elem_of_map_to_list in Hin. simplify_eq.
    symmetry. apply map_lookup_filter_None_2. right. intros ? ? ?. simplify_eq/=. congruence.
  - symmetry. apply map_lookup_filter_Some_2; [done|]. simpl.
    destruct (p k v) eqn:Hp; [|done].
    enough (existsb (fun kv => String.eqb kv.1 k && p kv.1 kv.2)%bool (order m) = true)
      by congruence.
    apply existsb_elem. exists (k, v). simpl. rewrite String.eqb_refl, Hp. split; [|done].
    rewrite Hm. by apply elem_of_map_to_list.
Qed.

(** The loop counts what it removes. *)
Lemma delete_loop_size l m n :
  NoDup (map fst l) -> (forall k v, (k, v) ∈ l -> m !! k = Some v) ->
  (delete_loop l (m, n)).2
  = n + Z.of_nat (size m) - Z.of_nat (size (delete_loop l (m, n)).1).
Proof.
  revert m n. induction l as [|[k0 v0] l IH]; intros m n Hd Hl; simpl; [lia|].
  simpl in Hd. apply NoDup_cons in Hd as [Hn Hd].
  assert (m !! k0 = Some v0) as Hk0 by (apply Hl; by left).
  assert (size m <> 0%nat).
  { intros H%map_size_empty_inv. subst. by rewrite lookup_empty in Hk0. }
  destruct (p k0 v0); simpl; rewrite IH; try done.
  - rewrite map_size_delete, Hk0. simpl. lia.
  - intros k v Hk. rewrite lookup_delete_ne; [apply Hl; by right|].
    intros ->. apply Hn. apply elem_of_map. by exists (k, v).
  - intros k v Hk. apply Hl. by right.
Qed.

Lemma delete_loop_removed order m :
  enumerates order ->
  (delete_loop (order m) (m, 0)).2
  = Z.of_nat (size m) - Z.of_nat (size (delete_loop (order m) (m, 0)).1).
Proof.
  intros Ho. pose proof (Ho m) as Hm. rewrite delete_loop_size; [lia| |].
  - change (map fst (order m)) with ((order m).*1). rewrite Hm. apply NoDup_fst_map_to_list.
  - intros k v Hk. rewrite Hm in Hk. by apply elem_of_map_to_list in Hk.
Qed.
End MapLoop.

(** ** Time

    Instants are nanoseconds in [Z]; [Time.Sub] saturates at the 64-bit range
    of a [Duration]. *)
Definition time_sub (a b : Z) : Z := Z.max Int64.min (Z.min Int64.max (a - b)).

Lemma time_sub_exact a b : Int64.in_range (a - b) -> time_sub a b = a - b.
Proof. unfold time_sub. i64. lia. Qed.

Lemma time_sub_mono a a' b : a <= a' -> time_sub a b <= time_sub a' b.
Proof. unfold time_sub. lia. Qed.
