(* ===== verification/Jcs.v ===== *)
(** * Canonical JSON

    Models [phase4-coordinator/internal/billing/jcs.go]: the encoder whose output is
    hashed and signed for route snapshots, usages and receipt tuples. Strings are
    byte strings; [range s] over the runes of a string is Go's UTF-8 decoding, in
    which an invalid byte reads as U+FFFD. Floating-point parsing and shortest
    formatting ([strconv]) and Unicode normalisation ([golang.org/x/text]) are
    members of the class [TextLib]. *)

From S2P Require Import Prelude.
From stdpp Require Import pretty.

#[local] Set Warnings "-register-all".
#[local] Open Scope char_scope.
#[local] Open Scope Z_scope.

Class TextLib := {
  (** [norm.NFC.String]; ASCII text is in normal form *)
  nfc : string -> string;
  nfc_ascii : forall s, Forall (fun c => (N_of_ascii c < 128)%N) (GoStr.chars s) -> nfc s = s;
  float64 : Type;
  (** [strconv.ParseFloat(_, 64)]; [None] is an error *)
  ParseFloat : string -> option float64;
  (** [math.IsInf(f, 0) || math.IsNaN(f)] *)
  not_finite : float64 -> bool;
  (** [f == math.Trunc(f)], [f >= math.MinInt64], [f <= math.MaxInt64] *)
  is_trunc : float64 -> bool;
  ge_min_int64 : float64 -> bool;
  le_max_int64 : float64 -> bool;
  (** [int64(f)] *)
  float_to_int64 : float64 -> Z;
  is_zero : float64 -> bool;
  is_negative : float64 -> bool;
  float_opp : float64 -> float64;
  (** [strconv.FormatFloat(f, 'g', -1, 64)] *)
  FormatFloat_g : float64 -> string;
}.

Definition bytes : Type := list ascii.

(** ** Runes *)

Definition RuneError : Z := 65533.

Definition cont (b : Z) : bool := (128 <=? b) && (b <=? 191).

Definition pair_ok (b0 b1 : Z) : bool := (194 <=? b0) && (b0 <=? 223) && cont b1.

Definition triple_ok (b0 b1 b2 : Z) : bool :=
  (224 <=? b0) && (b0 <=? 239)
  && (if b0 =? 224 then 160 <=? b1 else 128 <=? b1)
  && (if b0 =? 237 then b1 <=? 159 else b1 <=? 191) && cont b2.

Definition quad_ok (b0 b1 b2 b3 : Z) : bool :=
  (240 <=? b0) && (b0 <=? 244)
  && (if b0 =? 240 then 144 <=? b1 else 128 <=? b1)
  && (if b0 =? 244 then b1 <=? 143 else b1 <=? 191) && cont b2 && cont b3.

(** [[]rune(s)]: an invalid byte is one [RuneError]. *)
Fixpoint runes (l : list Z) : list Z :=
  match l with
  | [] => []
  | b0 :: l1 =>
      if b0 <? 128 then b0 :: runes l1
      else match l1 with
      | b1 :: l2 =>
          if pair_ok b0 b1 then (b0 - 192) * 64 + (b1 - 128) :: runes l2
          else match l2 with
          | b2 :: l3 =>
              if triple_ok b0 b1 b2
              then (b0 - 224) * 4096 + (b1 - 128) * 64 + (b2 - 128) :: runes l3
              else match l3 with
              | b3 :: l4 =>
                  if quad_ok b0 b1 b2 b3
                  then (b0 - 240) * 262144 + (b1 - 128) * 4096 + (b2 - 128) * 64 + (b3 - 128)
                         :: runes l4
                  else RuneError :: runes l1
              | [] => RuneError :: runes l1
              end
          | [] => RuneError :: runes l1
          end
      | [] => RuneError :: runes l1
      end
  end.

Definition codes (l : bytes) : list Z := map (fun c => Z.of_N (N_of_ascii c)) l.
Definition rune_list (s : string) : list Z := runes (codes (GoStr.chars s)).

Definition byte_of (z : Z) : ascii := ascii_of_N (Z.to_N z).

(** [WriteRune] *)
Definition encode_rune (r : Z) : bytes :=
  let r := if (r <? 0) || (1114111 <? r) || ((55296 <=? r) && (r <=? 57343)) then RuneError else r in
  if r <? 128 then [byte_of r]
  else if r <? 2048 then [byte_of (192 + r / 64); byte_of (128 + r mod 64)]
  else if r <? 65536
  then [byte_of (224 + r / 4096); byte_of (128 + (r / 64) mod 64); byte_of (128 + r mod 64)]
  else [byte_of (240 + r / 262144); byte_of (128 + (r / 4096) mod 64);
        byte_of (128 + (r / 64) mod 64); byte_of (128 + r mod 64)].

(** [utf16.Encode] *)
Definition utf16_units (r : Z) : list Z :=
  if r <? 65536 then [r]
  else [55296 + (r - 65536) / 1024; 56320 + (r - 65536) mod 1024].

Definition utf16_encode (s : string) : list Z := flat_map utf16_units (rune_list s).

Fixpoint units_less (a b : list Z) : bool :=
  match a, b with
  | x :: a', y :: b' => if x =? y then units_less a' b' else x <? y
  | [], _ :: _ => true
  | _, [] => false
  end.

Definition utf16Less (a b : string) : bool := units_less (utf16_encode a) (utf16_encode b).

(** ** Strings *)

Definition hex_digit (z : Z) : ascii := byte_of (if z <? 10 then 48 + z else 87 + z).

Definition quote : ascii := byte_of 34.
Definition backslash : ascii := byte_of 92.

Definition escape_rune (r : Z) : bytes :=
  if r =? 34 then [backslash; quote]
  else if r =? 92 then [backslash; backslash]
  else if r =? 8 then [backslash; "b"]
  else if r =? 9 then [backslash; "t"]
  else if r =? 10 then [backslash; "n"]
  else if r =? 12 then [backslash; "f"]
  else if r =? 13 then [backslash; "r"]
  else if (0 <=? r) && (r <=? 31)
  then [backslash; "u"; "0"; "0"; hex_digit (r / 16); hex_digit (r mod 16)]
  else encode_rune r.

Definition escapeJCSString (s : string) : bytes :=
  quote :: flat_map escape_rune (rune_list s) ++ [quote].

(** ** Numbers *)

(** [strconv.FormatInt(z, 10)] *)
Definition format_int (z : Z) : bytes := GoStr.chars (pretty z).

Definition is_digit (c : ascii) : bool :=
  let n := N_of_ascii c in ((48 <=? n) && (n <=? 57))%N.

Definition digits_value (l : bytes) : Z :=
  fold_left (fun acc c => acc * 10 + (Z.of_N (N_of_ascii c) - 48)) l 0.

(** [integerNumberPattern], an optional minus and a decimal without leading zeroes,
    and [strconv.ParseInt] on it. *)
Definition parse_integer (raw : string) : option Z :=
  let '(negative, ds) := match GoStr.chars raw with
                         | "-" :: ds => (true, ds)
                         | ds => (false, ds)
                         end in
  let shape := match ds with
               | [] => false
               | ["0"] => true
               | "0" :: _ => false
               | _ => forallb is_digit ds
               end in
  let n := if negative : bool then - digits_value ds else digits_value ds in
  if shape && (Int64.min <=? n) && (n <=? Int64.max) then Some n else None.

Fixpoint trim_zeroes (l : bytes) : bytes :=
  match l with "0" :: l' => trim_zeroes l' | _ => l end.

(** [strings.IndexAny] for e or E *)
Fixpoint index_exponent (l : bytes) : option nat :=
  match l with
  | [] => None
  | c :: l' => if (Ascii.eqb c "e" || Ascii.eqb c "E")%bool then Some 0%nat
               else S <$> index_exponent l'
  end.

(** The digits without leading zeroes, and the position of the decimal point. *)
Definition decimalDigitsAndExponent (s : bytes) : option (bytes * Z) :=
  match index_exponent s with
  | Some split =>
      let mantissa := firstn split s in
      exp ← GoStr.Atoi (GoStr.of_chars (skipn (S split) s));
      let '(integerDigits, mantissa) :=
        match GoStr.index_byte mantissa "." with
        | Some point => (point, firstn point mantissa ++ skipn (S point) mantissa)
        | None => (length mantissa, mantissa)
        end in
      match trim_zeroes mantissa with
      | [] => Some (["0"], 1)
      | digits => Some (digits, exp + Z.of_nat integerDigits)
      end
  | None =>
      let '(point, s) :=
        match GoStr.index_byte s "." with
        | Some point => (point, firstn point s ++ skipn (S point) s)
        | None => (length s, s)
        end in
      match trim_zeroes s with
      | [] => Some (["0"], 1)
      | digits => Some (digits, Z.of_nat point - Z.of_nat (length s - length digits))
      end
  end.

Definition renderECMAScriptNumber (digits : bytes) (e : Z) : bytes :=
  let k := Z.of_nat (length digits) in
  if (k <=? e) && (e <=? 21) then digits ++ repeat "0" (Z.to_nat (e - k))
  else if (0 <? e) && (e <=? 21)
  then firstn (Z.to_nat e) digits ++ ["."] ++ skipn (Z.to_nat e) digits
  else if (-6 <? e) && (e <=? 0)
  then ["0"; "."] ++ repeat "0" (Z.to_nat (- e)) ++ digits
  else
    let exponent := e - 1 in
    let mantissa := firstn 1 digits ++ (if 1 <? k then "." :: skipn 1 digits else []) in
    if 0 <=? exponent then mantissa ++ ["e"; "+"] ++ format_int exponent
    else mantissa ++ ["e"; "-"] ++ format_int (- exponent).

Section Encoder.
Context {TL : TextLib}.

Definition canonicalDouble (f : float64) : option bytes :=
  if not_finite f then None
  else if is_zero f then Some ["0"]
  else
    let '(sign, f) := if is_negative f then (["-"], float_opp f) else ([], f) in
    '(digits, e) ← decimalDigitsAndExponent (GoStr.chars (FormatFloat_g f));
    Some (sign ++ renderECMAScriptNumber digits e).

Definition canonicalJSONNumber (raw : string) : option bytes :=
  match parse_integer raw with
  | Some n => Some (format_int n)
  | None =>
      f ← ParseFloat raw;
      if not_finite f then None
      else if is_trunc f && ge_min_int64 f && le_max_int64 f
      then Some (format_int (float_to_int64 f))
      else canonicalDouble f
  end.

(** ** Values *)

(** The dynamic types [writeJCS] accepts. An object is its entries in the order
    [range] visits the map. *)
Inductive JsonValue :=
| JsonNull
| JsonString (s : string)
| JsonRawString (s : string)
| JsonBool (b : bool)
| JsonInt (z : Z)
| JsonNumber (raw : string)
| JsonFloat (f : float64)
| JsonArray (items : list JsonValue)
| JsonObject (entries : list (string * JsonValue)).

(** [sort.Slice(keys, utf16Less)] on the keys of a map. *)
Fixpoint insert_key {A} (e : string * A) (l : list (string * A)) : list (string * A) :=
  match l with
  | [] => [e]
  | x :: l' => if utf16Less e.1 x.1 then e :: l else x :: insert_key e l'
  end.
Definition sort_keys {A} (l : list (string * A)) : list (string * A) := foldr insert_key [] l.

(** The items separated by commas, if all of them encode. *)
Fixpoint join_items (items : list (option bytes)) : option bytes :=
  match items with
  | [] => Some []
  | [item] => item
  | item :: items => b ← item; rest ← join_items items; Some (b ++ [","] ++ rest)
  end.

Definition write_entry (e : string * option bytes) : option bytes :=
  v ← e.2; Some (escapeJCSString e.1 ++ [":"] ++ v).

Fixpoint writeJCS (normalizeStrings : bool) (v : JsonValue) : option bytes :=
  match v with
  | JsonNull => Some (GoStr.chars "null")
  | JsonString s => Some (escapeJCSString (if normalizeStrings then nfc s else s))
  | JsonRawString s => Some (escapeJCSString s)
  | JsonBool b => Some (GoStr.chars (if b then "true" else "false"))
  | JsonInt z => Some (format_int z)
  | JsonNumber raw => canonicalJSONNumber raw
  | JsonFloat f => canonicalDouble f
  | JsonArray items =>
      b ← join_items (map (writeJCS normalizeStrings) items);
      Some (["["] ++ b ++ ["]"])
  | JsonObject entries =>
      b ← join_items (map write_entry
            (sort_keys (map (fun e => (e.1, writeJCS normalizeStrings e.2)) entries)));
      Some (["{"] ++ b ++ ["}"])
  end.

Definition CanonicalJSON (v : JsonValue) : option string := GoStr.of_chars <$> writeJCS true v.
Definition CanonicalJSONRawStrings (v : JsonValue) : option string :=
  GoStr.of_chars <$> writeJCS false v.
End Encoder.

(** ** Key order *)

Lemma units_less_irrefl a : units_less a a = false.
Proof. induction a as [|x a IH]; simpl; [done|]. by rewrite Z.eqb_refl. Qed.

Lemma units_less_trans a b c : units_less a b = true -> units_less b c = true -> units_less a c = true.
Proof.
  revert b c. induction a as [|x a IH]; intros [|y b] [|z c]; simpl; try done.
  destruct (x =? y) eqn:E1, (y =? z) eqn:E2, (x =? z) eqn:E3; try lia; intros; [by eapply IH|lia..].
Qed.

Lemma units_less_total a b : a <> b -> units_less a b = negb (units_less b a).
Proof.
  revert b. induction a as [|x a IH]; intros [|y b] Hne; simpl; try done.
  rewrite (Z.eqb_sym y x). destruct (x =? y) eqn:E; [|lia].
  apply IH. intros ->. apply Hne. f_equal. lia.
Qed.

Lemma insert_key_comm {A} (a b : string * A) l :
  utf16_encode a.1 <> utf16_encode b.1 ->
  insert_key a (insert_key b l) = insert_key b (insert_key a l).
Proof.
  intros Hne. pose proof (units_less_total _ _ Hne) as Ht.
  assert (forall x y z : string * A, utf16Less x.1 y.1 = true -> utf16Less y.1 z.1 = true ->
    utf16Less x.1 z.1 = true) as Htr by (intros x y z; apply units_less_trans).
  change (utf16Less a.1 b.1 = negb (utf16Less b.1 a.1)) in Ht.
  induction l as [|x l IH]; simpl.
  { rewrite Ht. by destruct (utf16Less b.1 a.1). }
  destruct (utf16Less b.1 x.1) eqn:Eb, (utf16Less a.1 x.1) eqn:Ea; simpl;
    rewrite ?Ea, ?Eb; try done.
  - rewrite Ht. destruct (utf16Less b.1 a.1); simpl; rewrite ?Ea, ?Eb; done.
  - rewrite Ht. destruct (utf16Less b.1 a.1) eqn:E; simpl; rewrite ?Ea; [done|].
    simpl in Ht. by rewrite (Htr a b x Ht Eb) in Ea.
  - destruct (utf16Less b.1 a.1) eqn:E; simpl; rewrite ?Eb; [|done].
    by rewrite (Htr b a x E Ea) in Eb.
  - by rewrite IH.
Qed.

(** The sorted entries do not depend on the order in which the map is visited. *)
Lemma sort_keys_perm {A} (l1 l2 : list (string * A)) :
  NoDup (map (fun e => utf16_encode e.1) l1) -> l1 ≡ₚ l2 -> sort_keys l1 = sort_keys l2.
Proof.
  intros Hnd Hp. unfold sort_keys. apply (foldr_permutation (=) insert_key []); [|done].
  intros j1 a1 j2 a2 b Hj H1 H2. apply insert_key_comm. intros He. apply Hj.
  apply (NoDup_lookup (map (fun e => utf16_encode e.1) l1) j1 j2 (utf16_encode a1.1)); [done|..].
  - change (map ?f ?x) with (f <$> x). by rewrite list_lookup_fmap, H1.
  - change (map ?f ?x) with (f <$> x). rewrite list_lookup_fmap, H2. simpl. by rewrite He.
Qed.

Lemma insert_key_elem {A} (e : string * A) l : insert_key e l ≡ₚ e :: l.
Proof.
  induction l as [|x l IH]; simpl; [done|]. case_match; [done|]. rewrite IH. apply perm_swap.
Qed.

Lemma sort_keys_elem {A} (l : list (string * A)) : sort_keys l ≡ₚ l.
Proof. induction l as [|e l IH]; simpl; [done|]. by rewrite insert_key_elem, IH. Qed.

Lemma insert_key_map {A B} (g : A -> B) (e : string * A) l :
  insert_key (e.1, g e.2) (map (fun x => (x.1, g x.2)) l)
  = map (fun x => (x.1, g x.2)) (insert_key e l).
Proof. induction l as [|x l IH]; simpl; [done|]. case_match; [done|]. by rewrite IH. Qed.

Lemma sort_keys_map {A B} (g : A -> B) (l : list (string * A)) :
  sort_keys (map (fun x => (x.1, g x.2)) l) = map (fun x => (x.1, g x.2)) (sort_keys l).
Proof. induction l as [|e l IH]; simpl; [done|]. by rewrite IH, insert_key_map. Qed.

(** ** ASCII text *)

Definition ascii_text (s : string) : Prop :=
  Forall (fun c => (N_of_ascii c < 128)%N) (GoStr.chars s).

Lemma runes_ascii l : Forall (fun z => z < 128) l -> runes l = l.
Proof.
  induction 1 as [|z l Hz _ IH]; simpl; [done|]. by rewrite (proj2 (Z.ltb_lt z 128) Hz), IH.
Qed.

Lemma rune_list_ascii s : ascii_text s -> rune_list s = codes (GoStr.chars s).
Proof.
  intros Hs. apply runes_ascii. unfold codes. apply Forall_map, (Forall_impl _ _ _ Hs). simpl. lia.
Qed.

(** Reading one escaped rune back. *)
Definition hex_value (c : ascii) : Z :=
  let n := Z.of_N (N_of_ascii c) in if n <? 58 then n - 48 else n - 87.

Definition unescape (l : bytes) : option (Z * bytes) :=
  match l with
  | [] => None
  | c :: l1 =>
      if Ascii.eqb c quote then None
      else if Ascii.eqb c backslash then
        match l1 with
        | "b" :: l2 => Some (8, l2)
        | "t" :: l2 => Some (9, l2)
        | "n" :: l2 => Some (10, l2)
        | "f" :: l2 => Some (12, l2)
        | "r" :: l2 => Some (13, l2)
        | "u" :: "0" :: "0" :: h1 :: h2 :: l2 => Some (hex_value h1 * 16 + hex_value h2, l2)
        | c1 :: l2 => Some (Z.of_N (N_of_ascii c1), l2)
        | [] => None
        end
      else Some (Z.of_N (N_of_ascii c), l1)
  end.

Lemma unescape_escape r x : 0 <= r < 128 -> unescape (escape_rune r ++ x) = Some (r, x).
Proof.
  intros Hr. assert (exists n, (n < 128)%nat /\ r = Z.of_nat n) as (n & Hn & ->).
  { exists (Z.to_nat r). lia. }
  clear Hr. do 128 (destruct n as [|n]; [reflexivity|]). lia.
Qed.

Lemma escape_codes_inj (a b : list Z) x y :
  Forall (fun z => 0 <= z < 128) a -> Forall (fun z => 0 <= z < 128) b ->
  flat_map escape_rune a ++ quote :: x = flat_map escape_rune b ++ quote :: y -> a = b /\ x = y.
Proof.
  intros Ha. revert b. induction Ha as [|r a Hr Ha IH]; intros b Hb E.
  - destruct Hb as [|r b Hr Hb]; simpl in E; [by injection E as ->|].
    rewrite <- app_assoc in E. apply (f_equal unescape) in E.
    by rewrite unescape_escape in E.
  - destruct Hb as [|r' b Hr' Hb]; simpl in E; rewrite <- app_assoc in E.
    + apply (f_equal unescape) in E. by rewrite unescape_escape in E.
    + rewrite <- app_assoc in E. apply (f_equal unescape) in E.
      rewrite !unescape_escape in E by done. injection E as -> E.
      destruct (IH b Hb E) as [-> ->]. done.
Qed.

Lemma codes_inj a b : codes a = codes b -> a = b.
Proof.
  revert b. induction a as [|c a IH]; intros [|d b] E; simplify_eq/=; [done|].
  f_equal; [|by apply IH].
  apply (f_equal (fun n => ascii_of_N n)) in H. by rewrite !ascii_N_embedding in H.
Qed.

(** An escaped ASCII string can be split off what follows it, and read back. *)
Lemma escape_string_inj s t x y :
  ascii_text s -> ascii_text t ->
  escapeJCSString s ++ x = escapeJCSString t ++ y -> s = t /\ x = y.
Proof.
  intros Hs Ht. unfold escapeJCSString. rewrite !rune_list_ascii by done. simpl.
  rewrite <- !app_assoc. simpl. intros [= E].
  assert (forall u, ascii_text u -> Forall (fun z => 0 <= z < 128) (codes (GoStr.chars u))) as Hc.
  { intros u Hu. unfold codes. apply Forall_map, (Forall_impl _ _ _ Hu). simpl. lia. }
  destruct (escape_codes_inj _ _ _ _ (Hc s Hs) (Hc t Ht) E) as [Ec ->].
  split; [|done]. by apply GoStr.chars_inj, codes_inj.
Qed.

(** ** Integers *)

Definition int_char (c : ascii) : Prop := is_digit c = true \/ c = "-".

Lemma pretty_N_char_digit n : is_digit (pretty_N_char n) = true.
Proof. unfold pretty_N_char. repeat case_match; done. Qed.

Lemma pretty_N_go_chars n s :
  Forall int_char (GoStr.chars s) -> Forall int_char (GoStr.chars (pretty_N_go n s)).
Proof.
  revert s. induction (N.lt_wf_0 n) as [n _ IH]; intros s Hs.
  destruct (decide (n = 0)%N) as [->|Hn]; [by rewrite pretty_N_go_0|].
  rewrite pretty_N_go_step by lia. apply IH; [apply N.div_lt; lia|].
  constructor; [left; apply pretty_N_char_digit|done].
Qed.

Lemma pretty_N_chars (n : N) : Forall int_char (GoStr.chars (pretty n)).
Proof.
  unfold pretty, pretty_N. case_decide; [repeat constructor|apply pretty_N_go_chars; constructor].
Qed.

Lemma format_int_chars z : Forall int_char (format_int z).
Proof.
  unfold format_int, pretty, pretty_Z. destruct z as [|p|p]; [repeat constructor|apply pretty_N_chars|].
  constructor; [by right|apply pretty_N_chars].
Qed.

Lemma pretty_N_go_nonempty n s : s <> ""%string -> pretty_N_go n s <> ""%string.
Proof.
  revert s. induction (N.lt_wf_0 n) as [n _ IH]; intros s Hs.
  destruct (decide (n = 0)%N) as [->|Hn]; [by rewrite pretty_N_go_0|].
  rewrite pretty_N_go_step by lia. apply IH; [apply N.div_lt; lia|done].
Qed.

Lemma format_int_nonempty z : format_int z <> [].
Proof.
  assert (pretty z <> ""%string) as Hz.
  { unfold pretty, pretty_Z. destruct z as [|p|p]; [done| |done].
    change (pretty (N.pos p) <> ""%string). unfold pretty, pretty_N.
    destruct (decide _); [done|].
    rewrite pretty_N_go_step by lia. by apply pretty_N_go_nonempty. }
  unfold format_int. by destruct (pretty z).
Qed.

(** Two runs of characters of one kind that meet other characters are equal. *)
Lemma run_inj (P : ascii -> Prop) a b x y c d :
  Forall P a -> Forall P b -> ~ P c -> ~ P d ->
  a ++ c :: x = b ++ d :: y -> a = b /\ c :: x = d :: y.
Proof.
  intros Ha. revert b. induction Ha as [|e a He Ha IH]; intros b Hb Hc Hd E.
  - destruct Hb as [|f b Hf Hb]; [done|]. by injection E as -> _.
  - destruct Hb as [|f b Hf Hb]; injection E as -> E; [done|].
    by destruct (IH b Hb Hc Hd E) as [-> ?].
Qed.

Lemma int_char_false c : is_digit c = false -> c <> "-" -> ~ int_char c.
Proof. intros H1 H2 [H|H]; congruence. Qed.

(** ** Flat objects *)

(** The values route snapshots and usages render to. *)
Inductive JVal := JNull | JStr (s : string) | JInt (z : Z).

Definition of_flat {TL : TextLib} (v : JVal) : JsonValue :=
  match v with JNull => JsonNull | JStr s => JsonString s | JInt z => JsonInt z end.

Definition flat_object {TL : TextLib} (m : gmap string JVal) : JsonValue :=
  JsonObject (map (fun e => (e.1, of_flat e.2)) (map_to_list m)).

Definition flat_ascii (e : string * JVal) : Prop :=
  ascii_text e.1 /\ match e.2 with JStr s => ascii_text s | _ => True end.

Definition flat_bytes (v : JVal) : bytes :=
  match v with
  | JNull => GoStr.chars "null"
  | JStr s => escapeJCSString s
  | JInt z => format_int z
  end.

(** What follows a value in an object. *)
Definition value_end (c : ascii) : Prop := c = "," \/ c = "}".

Lemma value_end_int c : value_end c -> ~ int_char c.
Proof. intros [->| ->]; by apply int_char_false. Qed.

Lemma flat_bytes_inj v w x y c d :
  match v with JStr s => ascii_text s | _ => True end ->
  match w with JStr s => ascii_text s | _ => True end ->
  value_end c -> value_end d ->
  flat_bytes v ++ c :: x = flat_bytes w ++ d :: y -> v = w /\ c :: x = d :: y.
Proof.
  intros Hv Hw Hc Hd.
  assert (forall z (l : bytes) f g, format_int z ++ l = f :: g -> int_char f) as Hint.
  { intros z l f g E. pose proof (format_int_nonempty z) as Hne.
    pose proof (format_int_chars z) as Hch. destruct (format_int z); [done|].
    injection E as -> _. by apply Forall_cons_1 in Hch as [? _]. }
  assert (~ int_char "n" /\ ~ int_char quote) as [Hn Hq] by (split; by apply int_char_false).
  destruct v as [|s|z], w as [|t|z']; simpl flat_bytes; intros E.
  - by injection E as -> ->.
  - discriminate E.
  - symmetry in E. by apply Hint in E.
  - discriminate E.
  - apply escape_string_inj in E as [-> E]; done.
  - symmetry in E. by apply Hint in E.
  - by apply Hint in E.
  - by apply Hint in E.
  - apply (run_inj int_char) in E as [E1 E2]; [|apply format_int_chars..|by apply value_end_int|by apply value_end_int].
    split; [|done]. f_equal. apply (inj (pretty (A := Z))). by apply GoStr.chars_inj.
Qed.

Definition entry_bytes (e : string * JVal) : bytes := escapeJCSString e.1 ++ ":" :: flat_bytes e.2.

Fixpoint entries_bytes (l : list (string * JVal)) : bytes :=
  match l with
  | [] => []
  | [e] => entry_bytes e
  | e :: l' => entry_bytes e ++ "," :: entries_bytes l'
  end.

Lemma entries_bytes_inj l1 l2 :
  Forall flat_ascii l1 -> Forall flat_ascii l2 ->
  entries_bytes l1 ++ ["}"] = entries_bytes l2 ++ ["}"] -> l1 = l2.
Proof.
  assert (forall e l, exists c x, value_end c /\ entries_bytes (e :: l) ++ ["}"]
    = entry_bytes e ++ c :: x /\ (l = [] /\ c :: x = ["}"] \/ l <> [] /\ c :: x = "," :: entries_bytes l ++ ["}"]))
    as Hsplit.
  { intros e [|e' l].
    - exists "}", []. split; [by right|]. split; [done|by left].
    - exists ",", (entries_bytes (e' :: l) ++ ["}"]). split; [by left|].
      split; [|by right]. simpl. by rewrite <- app_assoc. }
  intros H1. revert l2. induction H1 as [|e l1 He H1 IH]; intros l2 H2 E.
  - destruct H2 as [|e l2 He H2]; [done|]. destruct (Hsplit e l2) as (c & x & _ & Hs & _).
    rewrite Hs in E. discriminate E.
  - destruct (Hsplit e l1) as (c & x & Hc & Hs & Hl). rewrite Hs in E.
    destruct H2 as [|e' l2 He' H2]; [discriminate E|].
    destruct (Hsplit e' l2) as (d & y & Hd & Hs' & Hl'). rewrite Hs' in E.
    unfold entry_bytes in E. rewrite <- !app_assoc in E.
    apply escape_string_inj in E as [Ek E]; [|apply He|apply He'].
    injection E as E. apply flat_bytes_inj in E as [Ev E]; [|apply He|apply He'|done|done].
    destruct e as [k v], e' as [k' v']. simpl in Ek, Ev. subst. f_equal.
    destruct Hl as [[-> F1]|[Hne F1]], Hl' as [[-> F2]|[Hne' F2]]; rewrite F1, F2 in E;
      [done|done|done|]. apply IH; [done|]. by injection E.
Qed.

Section Flat.
Context {TL : TextLib}.

Lemma join_entries l :
  Forall flat_ascii l ->
  join_items (map write_entry (map (fun e => (e.1, writeJCS true (of_flat e.2))) l))
  = Some (entries_bytes l).
Proof.
  assert (forall e, flat_ascii e ->
    write_entry (e.1, writeJCS true (of_flat e.2)) = Some (entry_bytes e)) as He.
  { intros [k v] [_ Hv]. unfold write_entry, entry_bytes. simpl in *.
    destruct v; simpl; [done| |done]. by rewrite nfc_ascii. }
  induction 1 as [|e l Hf Hl IH]; [done|]. destruct l as [|e' l].
  - simpl. by apply He.
  - change (join_items (map write_entry (map (fun e => (e.1, writeJCS true (of_flat e.2))) (e :: e' :: l))))
      with (b ← write_entry (e.1, writeJCS true (of_flat e.2));
            rest ← join_items (map write_entry (map (fun e => (e.1, writeJCS true (of_flat e.2))) (e' :: l)));
            Some (b ++ [","] ++ rest)).
    rewrite He, IH by done. done.
Qed.

(** The bytes of a flat ASCII object: its entries, sorted. *)
Lemma flat_canonical m :
  Forall flat_ascii (map_to_list m) ->
  CanonicalJSON (flat_object m)
  = Some (GoStr.of_chars ("{" :: entries_bytes (sort_keys (map_to_list m)) ++ ["}"])).
Proof.
  intros Hm. unfold CanonicalJSON, flat_object. cbn [writeJCS].
  assert (Forall flat_ascii (sort_keys (map_to_list m))) as Hs by (by rewrite sort_keys_elem).
  rewrite map_map. cbn [fst snd].
  rewrite (sort_keys_map (fun v => writeJCS true (of_flat v))). by rewrite join_entries.
Qed.

Lemma of_chars_inj (a b : bytes) : GoStr.of_chars a = GoStr.of_chars b -> a = b.
Proof.
  intros E. apply (f_equal String.list_ascii_of_string) in E. unfold GoStr.of_chars in E.
  by rewrite !String.list_ascii_of_string_of_list_ascii in E.
Qed.

(** Flat ASCII objects with the same canonical bytes are equal. *)
Lemma flat_canonical_inj m1 m2 c :
  Forall flat_ascii (map_to_list m1) -> Forall flat_ascii (map_to_list m2) ->
  CanonicalJSON (flat_object m1) = Some c -> CanonicalJSON (flat_object m2) = Some c -> m1 = m2.
Proof.
  intros H1 H2. rewrite !flat_canonical by done. intros [= <-] [= E%of_chars_inj].
  apply entries_bytes_inj in E; [|by rewrite sort_keys_elem..].
  apply map_to_list_inj. rewrite <- (sort_keys_elem (map_to_list m1)), <- E. apply sort_keys_elem.
Qed.
End Flat.

(** ** Canonical bytes do not depend on the map order *)

(** The canonical bytes of an object do not depend on the order in which
    [range] visits the map: two visits of the same entries, with keys that differ in
    UTF-16, encode to the same bytes, or fail together. *)
Lemma canonical_order_irrelevant {TL : TextLib} (normalize : bool)
    (visit1 visit2 : list (string * JsonValue)) :
  NoDup (map (fun e => utf16_encode e.1) visit1) -> visit1 ≡ₚ visit2 ->
  writeJCS normalize (JsonObject visit1) = writeJCS normalize (JsonObject visit2).
Proof.
  intros Hnd Hp. cbn [writeJCS].
  rewrite (sort_keys_perm (map (fun e => (e.1, writeJCS normalize e.2)) visit1)
             (map (fun e => (e.1, writeJCS normalize e.2)) visit2)); [done| |by rewrite Hp].
  by rewrite map_map.
Qed.

(** ** Samples *)

(** Text without floating-point numbers, already in normal form. *)
Module JcsSample.
Definition lib : TextLib := {|
  nfc := fun s => s;
  nfc_ascii := fun s _ => eq_refl;
  float64 := unit;
  ParseFloat := fun _ => None;
  not_finite := fun _ => true;
  is_trunc := fun _ => false;
  ge_min_int64 := fun _ => false;
  le_max_int64 := fun _ => false;
  float_to_int64 := fun _ => 0;
  is_zero := fun _ => false;
  is_negative := fun _ => false;
  float_opp := fun f => f;
  FormatFloat_g := fun _ => ""%string;
|}.
End JcsSample.

#[local] Existing Instance JcsSample.lib.

Example canonical_object :
  CanonicalJSON (JsonObject [("b"%string, JsonNumber "-0"); ("a"%string, JsonArray [JsonInt 12; JsonNull])])
  = Some (GoStr.of_chars (["{"; quote; "a"; quote; ":"; "["; "1"; "2"; ","; "n"; "u"; "l"; "l"; "]"; ",";
      quote; "b"; quote; ":"; "0"; "}"])).
Proof. vm_compute. reflexivity. Qed.
