(* ===== verification/JsonText.v ===== *)
(** * JSON texts

    What the code uses of the decoder of [encoding/json]: the grammar of a value, read
    byte by byte, with the decoding of strings. It reads the body of an operator's
    request ([phase4-coordinator/internal/billing/quarantine.go]) and checks the
    arguments of a tool call ([billing/settlement_output.go]). *)

From S2P Require Import Prelude Jcs.
#[local] Open Scope Z_scope.

(** What matters of a value is whether it is a string, null or something else. *)
Inductive BodyValue := BStr (s : string) | BNull | BOther.

Definition code (c : ascii) : Z := Z.of_N (N_of_ascii c).
Definition is_space (c : ascii) : bool :=
  let n := code c in (n =? 32) || (n =? 9) || (n =? 10) || (n =? 13).
Definition skip_space : list ascii -> list ascii := GoStr.drop_while is_space.

Definition hex_digit_value (c : ascii) : option Z :=
  let n := code c in
  if (48 <=? n) && (n <=? 57) then Some (n - 48)
  else if (97 <=? n) && (n <=? 102) then Some (n - 87)
  else if (65 <=? n) && (n <=? 70) then Some (n - 55)
  else None.

Definition hex4 (l : list ascii) : option (Z * list ascii) :=
  match l with
  | a :: b :: c :: d :: l =>
      a ← hex_digit_value a; b ← hex_digit_value b; c ← hex_digit_value c; d ← hex_digit_value d;
      Some (4096 * a + 256 * b + 16 * c + d, l)
  | _ => None
  end.

Definition is_surrogate (r : Z) : bool := (55296 <=? r) && (r <? 57344).

(** [utf16.DecodeRune]. *)
Definition decode_pair (r1 r2 : Z) : option Z :=
  if (55296 <=? r1) && (r1 <? 56320) && (56320 <=? r2) && (r2 <? 57344)
  then Some ((r1 - 55296) * 1024 + (r2 - 56320) + 65536) else None.

(** The escapes of one character after the backslash. *)
Definition simple_escape (c : ascii) : option ascii :=
  let n := code c in
  if (n =? 34) || (n =? 92) || (n =? 47) then Some c
  else if n =? 98 then Some (byte_of 8)
  else if n =? 102 then Some (byte_of 12)
  else if n =? 110 then Some (byte_of 10)
  else if n =? 114 then Some (byte_of 13)
  else if n =? 116 then Some (byte_of 9)
  else None.

(** A string after its opening quote: its bytes, and the rest after the closing one. A
    lone surrogate escape decodes to [RuneError]. *)
Fixpoint json_quoted (fuel : nat) (l : list ascii) : option (list ascii * list ascii) :=
  match fuel with
  | O => None
  | S fuel =>
      match l with
      | [] => None
      | c :: l =>
          if Ascii.eqb c quote then Some ([], l)
          else if code c <? 32 then None
          else if Ascii.eqb c backslash then
            match l with
            | [] => None
            | e :: l =>
                if Ascii.eqb e "u" then
                  '(r, l) ← hex4 l;
                  let paired :=
                    match l with
                    | b :: u :: l' =>
                        if (is_surrogate r && Ascii.eqb b backslash && Ascii.eqb u "u")%bool then
                          '(r2, l') ← hex4 l'; x ← decode_pair r r2; Some (x, l')
                        else None
                    | _ => None
                    end in
                  match paired with
                  | Some (x, l') => '(s, rest) ← json_quoted fuel l'; Some (encode_rune x ++ s, rest)
                  | None => '(s, rest) ← json_quoted fuel l; Some (encode_rune r ++ s, rest)
                  end
                else x ← simple_escape e; '(s, rest) ← json_quoted fuel l; Some (x :: s, rest)
            end
          else '(s, rest) ← json_quoted fuel l; Some (c :: s, rest)
      end
  end.

(** *** Numbers and literals *)

Fixpoint digits_from (l : list ascii) : list ascii :=
  match l with c :: l' => if GoStr.is_digit c then digits_from l' else l | [] => [] end.
Definition some_digits (l : list ascii) : option (list ascii) :=
  match l with c :: l' => if GoStr.is_digit c then Some (digits_from l') else None | [] => None end.

Definition json_exponent (l : list ascii) : option (list ascii) :=
  match l with
  | c :: l' =>
      if Ascii.eqb c "e" || Ascii.eqb c "E" then
        match l' with
        | s :: l'' => if Ascii.eqb s "+" || Ascii.eqb s "-" then some_digits l'' else some_digits l'
        | [] => None
        end
      else Some l
  | [] => Some l
  end.

Definition json_number (l : list ascii) : option (list ascii) :=
  let l := match l with c :: l' => if Ascii.eqb c "-" then l' else l | [] => l end in
  l ← (match l with
       | c :: l' => if Ascii.eqb c "0" then Some l' else some_digits l
       | [] => None
       end);
  match l with
  | c :: l' => if Ascii.eqb c "." then l'' ← some_digits l'; json_exponent l'' else json_exponent l
  | [] => Some l
  end.

Fixpoint literal (t l : list ascii) : option (list ascii) :=
  match t, l with
  | [], _ => Some l
  | x :: t, y :: l => if Ascii.eqb x y then literal t l else None
  | _, [] => None
  end.

(** *** Values

    A value, the members of an object after its brace, and the items of an array
    after its bracket; [first] is set before the first member or item. *)
Fixpoint json_value (fuel : nat) (l : list ascii) : option (BodyValue * list ascii) :=
  match fuel with
  | O => None
  | S fuel =>
      let l := skip_space l in
      match l with
      | [] => None
      | c :: l' =>
          if Ascii.eqb c quote then
            '(s, rest) ← json_quoted (S (length l')) l'; Some (BStr (GoStr.of_chars s), rest)
          else if Ascii.eqb c "{" then '(_, rest) ← json_members fuel true l'; Some (BOther, rest)
          else if Ascii.eqb c "[" then rest ← json_items fuel true l'; Some (BOther, rest)
          else if Ascii.eqb c "t" then rest ← literal (GoStr.chars "true") l; Some (BOther, rest)
          else if Ascii.eqb c "f" then rest ← literal (GoStr.chars "false") l; Some (BOther, rest)
          else if Ascii.eqb c "n" then rest ← literal (GoStr.chars "null") l; Some (BNull, rest)
          else rest ← json_number l; Some (BOther, rest)
      end
  end
with json_members (fuel : nat) (first : bool) (l : list ascii)
    : option (list (string * BodyValue) * list ascii) :=
  match fuel with
  | O => None
  | S fuel =>
      let l := skip_space l in
      match l with
      | [] => None
      | c :: l' =>
          if Ascii.eqb c "}" && first then Some ([], l')
          else if Ascii.eqb c quote then
            '(k, rest) ← json_quoted (S (length l')) l';
            rest ← GoStr.expect ":" (skip_space rest);
            '(v, rest) ← json_value fuel rest;
            match skip_space rest with
            | d :: rest' =>
                if Ascii.eqb d "}" then Some ([(GoStr.of_chars k, v)], rest')
                else if Ascii.eqb d "," then
                  '(ms, rest'') ← json_members fuel false rest'; Some ((GoStr.of_chars k, v) :: ms, rest'')
                else None
            | [] => None
            end
          else None
      end
  end
with json_items (fuel : nat) (first : bool) (l : list ascii) : option (list ascii) :=
  match fuel with
  | O => None
  | S fuel =>
      match skip_space l with
      | [] => None
      | c :: l' =>
          if Ascii.eqb c "]" && first then Some l'
          else
            '(_, rest) ← json_value fuel l;
            match skip_space rest with
            | d :: rest' =>
                if Ascii.eqb d "]" then Some rest'
                else if Ascii.eqb d "," then json_items fuel false rest'
                else None
            | [] => None
            end
      end
  end.

(** A text that is one JSON object: its members in order. *)
Definition json_object (l : list ascii) : option (list (string * BodyValue)) :=
  match skip_space l with
  | c :: l' =>
      if Ascii.eqb c "{" then
        '(ms, rest) ← json_members (3 * S (length l)) true l';
        match skip_space rest with [] => Some ms | _ => None end
      else None
  | [] => None
  end.

(** *** The fuel is enough

    Every step of the parser consumes the text: with more fuel than [json_object]
    gives, the result is the same. *)

Lemma drop_while_length p l : (length (GoStr.drop_while p l) <= length l)%nat.
Proof. induction l as [|c l IH]; simpl; [lia|]. destruct (p c); simpl; lia. Qed.

Lemma hex4_length l r l' : hex4 l = Some (r, l') -> (length l' < length l)%nat.
Proof.
  unfold hex4. destruct l as [|a [|b [|c [|d l]]]]; try done. intros H. simplify_option_eq. simpl. lia.
Qed.

Lemma json_quoted_length fuel l s rest : json_quoted fuel l = Some (s, rest) -> (length rest < length l)%nat.
Proof.
  revert l s rest. induction fuel as [|fuel IH]; intros l s rest H; simpl in H; [done|].
  assert (forall l0 (g : list ascii -> list ascii), ('(s0, r0) ← json_quoted fuel l0; Some (g s0, r0)) = Some (s, rest) ->
    (length rest < length l0)%nat) as Hrec.
  { intros l0 g E. destruct (json_quoted fuel l0) as [[s0 r0]|] eqn:E0; simpl in E; [|done].
    injection E as _ <-. by eapply IH. }
  destruct l as [|c l]; [done|]. destruct (Ascii.eqb c quote); [injection H as _ <-; simpl; lia|].
  destruct (code c <? 32); [done|]. destruct (Ascii.eqb c backslash).
  - destruct l as [|e l]; [done|]. destruct (Ascii.eqb e "u").
    + destruct (hex4 l) as [[r l1]|] eqn:E1; simpl in H; [|done]. apply hex4_length in E1.
      assert (forall x l2, (match l1 with
        | b :: u :: l' => if (is_surrogate r && Ascii.eqb b backslash && Ascii.eqb u "u")%bool
            then '(r2, l') ← hex4 l'; x ← decode_pair r r2; Some (x, l') else None
        | _ => None end) = Some (x, l2) -> (length l2 < length l1)%nat) as Hp.
      { intros x l2 Hp. destruct l1 as [|b [|u l']]; [done..|]. destruct (_ && _)%bool; [|done].
        destruct (hex4 l') as [[r2 l'']|] eqn:E2; simpl in Hp; [|done]. apply hex4_length in E2.
        destruct (decode_pair r r2); simpl in Hp; simplify_eq. simpl. lia. }
      destruct (match l1 with | b :: u :: l' => _ | _ => _ end) as [[x l2]|] eqn:E2.
      * specialize (Hp _ _ eq_refl). apply Hrec in H. simpl. lia.
      * apply Hrec in H. simpl. lia.
    + destruct (simple_escape e) as [x|]; simpl in H; [|done]. apply (Hrec _ (cons x)) in H. simpl. lia.
  - apply (Hrec _ (cons c)) in H. simpl. lia.
Qed.

Lemma json_quoted_fuel f1 f2 l :
  (length l < f1)%nat -> (length l < f2)%nat -> json_quoted f1 l = json_quoted f2 l.
Proof.
  revert f2 l. induction f1 as [|f1 IH]; intros [|f2] l H1 H2; [lia..|].
  destruct l as [|c l]; [done|]. cbn [json_quoted]. simpl in H1, H2.
  destruct (Ascii.eqb c quote); [done|]. destruct (code c <? 32); [done|].
  destruct (Ascii.eqb c backslash); [|by rewrite (IH f2 l) by lia].
  destruct l as [|e l]; [done|]. simpl in H1, H2. destruct (Ascii.eqb e "u").
  - destruct (hex4 l) as [[r l1]|] eqn:E1; simpl; [|done]. apply hex4_length in E1.
    destruct l1 as [|b [|u l']]; [by rewrite (IH f2) by (simpl in *; lia)..|].
    destruct (_ && _)%bool; [|by rewrite (IH f2) by (simpl in *; lia)].
    destruct (hex4 l') as [[r2 l'']|] eqn:E2; simpl; [|by rewrite (IH f2) by (simpl in *; lia)].
    apply hex4_length in E2. destruct (decode_pair r r2); simpl; by rewrite (IH f2) by (simpl in *; lia).
  - destruct (simple_escape e); simpl; [|done]. by rewrite (IH f2 l) by lia.
Qed.

Lemma digits_from_length l : (length (digits_from l) <= length l)%nat.
Proof. induction l as [|c l IH]; simpl; [lia|]. destruct (GoStr.is_digit c); simpl; lia. Qed.

Lemma some_digits_length l r : some_digits l = Some r -> (length r < length l)%nat.
Proof.
  destruct l as [|c l]; simpl; [done|]. destruct (GoStr.is_digit c); [|done]. intros H. injection H as <-.
  pose proof (digits_from_length l). lia.
Qed.

Lemma json_exponent_length l r : json_exponent l = Some r -> (length r <= length l)%nat.
Proof.
  destruct l as [|c l]; simpl; [intros H; by injection H as <-|].
  destruct (_ || _)%bool; [|intros H; injection H as <-; simpl; lia].
  destruct l as [|s l]; [done|]. destruct (_ || _)%bool; intros H%some_digits_length; simpl in *; lia.
Qed.

Lemma json_number_length l r : json_number l = Some r -> (length r < length l)%nat.
Proof.
  unfold json_number. set (l0 := match l with c :: l' => if Ascii.eqb c "-" then l' else l | [] => l end).
  assert (length l0 <= length l)%nat as Hl0.
  { unfold l0. destruct l as [|c l']; [done|]. destruct (Ascii.eqb c "-"); simpl; lia. }
  destruct (match l0 with c :: l' => _ | [] => _ end) as [l1|] eqn:E1; simpl; [|done].
  assert (length l1 < length l0)%nat as Hl1.
  { destruct l0 as [|c l']; [done|]. destruct (Ascii.eqb c "0"); [injection E1 as <-; simpl; lia|].
    by apply some_digits_length. }
  intros H. enough (length r <= length l1)%nat by lia. destruct l1 as [|c l']; [by injection H as <-|].
  destruct (Ascii.eqb c "."); [|by apply json_exponent_length].
  destruct (some_digits l') as [l''|] eqn:E; simpl in H; [|done].
  apply some_digits_length in E. apply json_exponent_length in H. simpl. lia.
Qed.

Lemma literal_length t l r : literal t l = Some r -> (length r <= length l)%nat /\ (t <> [] -> length r < length l)%nat.
Proof.
  revert l. induction t as [|x t IH]; intros l H; simpl in H; [injection H as <-; done|].
  destruct l as [|y l]; [done|]. destruct (Ascii.eqb x y); [|done]. apply IH in H as [H _]. simpl. split; [lia|]. lia.
Qed.

Lemma expect_length c l r : GoStr.expect c l = Some r -> (length r < length l)%nat.
Proof. destruct l as [|x l]; simpl; [done|]. destruct (Ascii.eqb x c); [|done]. intros H. injection H as <-. lia. Qed.

Lemma json_length fuel :
  (forall l v rest, json_value fuel l = Some (v, rest) -> (length rest < length l)%nat)
  /\ (forall b l v rest, json_members fuel b l = Some (v, rest) -> (length rest < length l)%nat)
  /\ (forall b l rest, json_items fuel b l = Some rest -> (length rest < length l)%nat).
Proof.
  induction fuel as [|fuel (IHv & IHm & IHi)]; [done|]. split_and!.
  - intros l v rest H. cbn [json_value] in H. pose proof (drop_while_length is_space l) as Hs. fold (skip_space l) in Hs.
    destruct (skip_space l) as [|c l'] eqn:El; [done|]. simpl in Hs.
    destruct (Ascii.eqb c quote).
    { destruct (json_quoted _ l') as [[s r]|] eqn:E; simpl in H; [|done]. apply json_quoted_length in E. simplify_eq. lia. }
    destruct (Ascii.eqb c "{").
    { destruct (json_members fuel true l') as [[ms r]|] eqn:E; simpl in H; [|done]. apply IHm in E. simplify_eq. lia. }
    destruct (Ascii.eqb c "[").
    { destruct (json_items fuel true l') as [r|] eqn:E; simpl in H; [|done]. apply IHi in E. simplify_eq. lia. }
    destruct (Ascii.eqb c "t"); [|destruct (Ascii.eqb c "f"); [|destruct (Ascii.eqb c "n")]];
      try (destruct (literal _ _) as [r|] eqn:E; [apply literal_length in E as [_ E]|done];
           injection H as _ <-; specialize (E ltac:(done)); simpl in E; lia).
    destruct (json_number _) as [r|] eqn:E; [|done]. apply json_number_length in E. injection H as _ <-. simpl in E. lia.
  - intros b l v rest H. cbn [json_members] in H. pose proof (drop_while_length is_space l) as Hs. fold (skip_space l) in Hs.
    destruct (skip_space l) as [|c l'] eqn:El; [done|]. simpl in Hs.
    destruct (_ && b)%bool; [injection H as _ <-; lia|]. destruct (Ascii.eqb c quote); [|done].
    destruct (json_quoted _ l') as [[k r]|] eqn:E; simpl in H; [|done]. apply json_quoted_length in E.
    destruct (GoStr.expect ":" (skip_space r)) as [r1|] eqn:E1; simpl in H; [|done]. apply expect_length in E1.
    pose proof (drop_while_length is_space r). unfold skip_space in E1.
    destruct (json_value fuel r1) as [[x r2]|] eqn:E2; simpl in H; [|done]. apply IHv in E2.
    pose proof (drop_while_length is_space r2) as Hs2. fold (skip_space r2) in Hs2.
    destruct (skip_space r2) as [|d r3]; [done|]. simpl in Hs2. destruct (Ascii.eqb d "}"); [injection H as _ <-; lia|].
    destruct (Ascii.eqb d ","); [|done]. destruct (json_members fuel false r3) as [[ms r4]|] eqn:E3; simpl in H; [|done].
    apply IHm in E3. injection H as _ <-. lia.
  - intros b l rest H. cbn [json_items] in H. pose proof (drop_while_length is_space l) as Hs. fold (skip_space l) in Hs.
    destruct (skip_space l) as [|c l'] eqn:El; [done|]. simpl in Hs.
    destruct (_ && b)%bool; [injection H as <-; lia|].
    destruct (json_value fuel l) as [[x r2]|] eqn:E2; simpl in H; [|done]. apply IHv in E2.
    pose proof (drop_while_length is_space r2) as Hs2. fold (skip_space r2) in Hs2.
    destruct (skip_space r2) as [|d r3]; [done|]. simpl in Hs2. destruct (Ascii.eqb d "]"); [injection H as <-; lia|].
    destruct (Ascii.eqb d ","); [|done]. apply IHi in H. lia.
Qed.

Lemma json_fuel f1 :
  (forall f2 l, (2 * length l + 1 <= f1)%nat -> (2 * length l + 1 <= f2)%nat -> json_value f1 l = json_value f2 l)
  /\ (forall f2 b l, (2 * length l + 2 <= f1)%nat -> (2 * length l + 2 <= f2)%nat -> json_members f1 b l = json_members f2 b l)
  /\ (forall f2 b l, (2 * length l + 2 <= f1)%nat -> (2 * length l + 2 <= f2)%nat -> json_items f1 b l = json_items f2 b l).
Proof.
  induction f1 as [|f1 (IHv & IHm & IHi)]; [split_and!; intros; lia|].
  split_and!; (intros [|f2]; [intros; lia|]).
  - intros l H1 H2. cbn [json_value]. pose proof (drop_while_length is_space l) as Hs. fold (skip_space l) in Hs.
    destruct (skip_space l) as [|c l'] eqn:El; [done|]. simpl in Hs. by rewrite (IHm f2), (IHi f2) by lia.
  - intros b l H1 H2. cbn [json_members]. pose proof (drop_while_length is_space l) as Hs. fold (skip_space l) in Hs.
    destruct (skip_space l) as [|c l'] eqn:El; [done|]. simpl in Hs.
    destruct (_ && b)%bool; [done|]. destruct (Ascii.eqb c quote); [|done].
    destruct (json_quoted _ l') as [[k r]|] eqn:E; simpl; [|done]. apply json_quoted_length in E.
    destruct (GoStr.expect ":" (skip_space r)) as [r1|] eqn:E1; simpl; [|done]. apply expect_length in E1.
    pose proof (drop_while_length is_space r). unfold skip_space in E1. rewrite (IHv f2) by lia.
    destruct (json_value f2 r1) as [[x r2]|] eqn:E2; simpl; [|done]. apply (json_length f2) in E2.
    pose proof (drop_while_length is_space r2) as Hs2. fold (skip_space r2) in Hs2.
    destruct (skip_space r2) as [|d r3]; [done|]. simpl in Hs2. by rewrite (IHm f2) by lia.
  - intros b l H1 H2. cbn [json_items]. pose proof (drop_while_length is_space l) as Hs. fold (skip_space l) in Hs.
    destruct (skip_space l) as [|c l'] eqn:El; [done|]. simpl in Hs.
    destruct (_ && b)%bool; [done|]. rewrite (IHv f2) by lia.
    destruct (json_value f2 l) as [[x r2]|] eqn:E2; simpl; [|done]. apply (json_length f2) in E2.
    pose proof (drop_while_length is_space r2) as Hs2. fold (skip_space r2) in Hs2.
    destruct (skip_space r2) as [|d r3]; [done|]. simpl in Hs2. by rewrite (IHi f2) by lia.
Qed.

Lemma json_object_fuel fuel c l' l :
  skip_space l = c :: l' -> (3 * S (length l) <= fuel)%nat ->
  json_members (3 * S (length l)) true l' = json_members fuel true l'.
Proof.
  intros Hl Hf. pose proof (drop_while_length is_space l) as Hs. fold (skip_space l) in Hs. rewrite Hl in Hs.
  simpl length in Hs. apply (json_fuel (3 * S (length l))); lia.
Qed.

(** [json.Valid], for texts nested less deeply than the decoder's limit of 10000. *)
Definition json_Valid (s : string) : bool :=
  let l := GoStr.chars s in
  match json_value (3 * S (length l)) l with
  | Some (_, rest) => match skip_space rest with [] => true | _ => false end
  | None => false
  end.
