(* ===== verification/GoTime.v ===== *)
(** * Instants, calendar dates and their texts

    Models what the code uses of Go's [time] package: an instant is its nanoseconds
    since the Unix epoch; a date is computed from a day count the way [absDate] does.
    [sqliteTimeText] ([phase4-coordinator/internal/billing/time_sql.go]) writes the
    fixed-width text that the ledger stores and SQL compares; [parse_rfc3339] is
    [time.Parse] with [time.RFC3339Nano]. For the years 0 to 9999 the texts sort as
    the instants do and parse back to them. *)

From S2P Require Import Prelude.
#[local] Open Scope Z_scope.

Definition second : Z := 1000000000.
Definition day : Z := 86400 * second.

(** Go's zero time is the first of January of year 1; the code often takes it for a
    missing time and reads the clock instead. *)
Definition zero_time : Z := -62135596800 * second.
Definition IsZero (t : Z) : bool := t =? zero_time.
Definition or_now (t now : Z) : Z := if IsZero t then now else t.

(** ** Dates *)

Definition leap (y : Z) : bool := ((y mod 4 =? 0) && negb (y mod 100 =? 0) || (y mod 400 =? 0))%bool.

Definition days_in_month (y m : Z) : Z :=
  if m =? 2 then if leap y then 29 else 28
  else if ((m =? 4) || (m =? 6) || (m =? 9) || (m =? 11))%bool then 30 else 31.

Definition days_before_month (y m : Z) : Z :=
  sumZ (days_in_month y) (map (fun i => Z.of_nat i) (List.seq 1 (Z.to_nat (m - 1)))).

Definition days_since_epoch (y m d : Z) : Z :=
  let y' := y - 1 in
  365 * y' + y' / 4 - y' / 100 + y' / 400 + days_before_month y m + (d - 1) - 719162.

(** The month and day of the [yday]-th day of a year, from month [m] on. *)
Fixpoint month_day (fuel : nat) (y m yday : Z) : Z * Z :=
  match fuel with
  | O => (m, yday + 1)
  | S fuel => if yday <? days_in_month y m then (m, yday + 1) else month_day fuel y (m + 1) (yday - days_in_month y m)
  end.

(** The years of a day count from year 1 by 400, 100, 4 and single years; the last
    day of a 100-year or one-year cycle belongs to the fourth. *)
Definition year_yday (n : Z) : Z * Z :=
  let n400 := n / 146097 in
  let d := n mod 146097 in
  let n100 := Z.min 3 (d / 36524) in
  let d := d - 36524 * n100 in
  let n4 := d / 1461 in
  let d := d - 1461 * n4 in
  let n1 := Z.min 3 (d / 365) in
  (400 * n400 + 100 * n100 + 4 * n4 + n1 + 1, d - 365 * n1).

Definition date_of_days (z : Z) : Z * Z * Z :=
  let '(y, yday) := year_yday (z + 719162) in
  let '(m, d) := month_day 11 y 1 yday in (y, m, d).

Definition valid_date (y m d : Z) : bool :=
  (1 <=? m) && (m <=? 12) && (1 <=? d) && (d <=? days_in_month y m).

(** *** The date of a day is its inverse *)

(** Days from the first day of year 1 to the first day of year [y]. *)
Definition year_start (y : Z) : Z := let y' := y - 1 in 365 * y' + y' / 4 - y' / 100 + y' / 400.
Definition year_days (y : Z) : Z := if leap y then 366 else 365.

Lemma leap_next y : year_start (y + 1) = year_start y + year_days y.
Proof.
  unfold year_start, year_days, leap. replace (y + 1 - 1) with y by lia.
  destruct (y mod 4 =? 0) eqn:E4, (y mod 100 =? 0) eqn:E1, (y mod 400 =? 0) eqn:E0; simpl;
    Z.to_euclidean_division_equations; lia.
Qed.

Lemma year_start_mono y1 y2 : y1 <= y2 -> year_start y1 <= year_start y2.
Proof. unfold year_start. intros. Z.to_euclidean_division_equations; lia. Qed.

Lemma year_yday_spec n y yday :
  year_yday n = (y, yday) -> n = year_start y + yday /\ 0 <= yday < year_days y.
Proof.
  unfold year_yday. set (a := n / 146097). set (d := n mod 146097).
  set (b := Z.min 3 (d / 36524)). set (d1 := d - 36524 * b). set (c := d1 / 1461). set (d2 := d1 - 1461 * c).
  set (e := Z.min 3 (d2 / 365)). intros H. injection H as <- <-.
  assert (n = 146097 * a + d /\ 0 <= d < 146097) as [Hn Hd].
  { unfold a, d. pose proof (Z.div_mod n 146097). pose proof (Z.mod_pos_bound n 146097). lia. }
  assert (0 <= b <= 3 /\ 0 <= d1 /\ (b < 3 -> d1 < 36524) /\ d1 < 36525) as (Hb & Hd1 & Hb3 & Hd1').
  { unfold d1, b. clearbody d. Z.to_euclidean_division_equations. lia. }
  assert (0 <= c <= 24 /\ 0 <= d2 < 1461 /\ d1 = 1461 * c + d2) as (Hc & Hd2 & Ed1).
  { unfold d2, c. clearbody d1. Z.to_euclidean_division_equations. lia. }
  assert (0 <= e <= 3 /\ 0 <= d2 - 365 * e <= 365 /\ (e < 3 -> d2 - 365 * e < 365)) as (He & Hy & He3).
  { unfold e. clearbody d2. Z.to_euclidean_division_equations. lia. }
  assert (d = 36524 * b + 1461 * c + d2) as Ed by (unfold d1 in Ed1; lia).
  clearbody a b c d1 d2 e. unfold year_start, year_days, leap.
  set (y := 400 * a + 100 * b + 4 * c + e + 1).
  assert ((y - 1) / 4 = 100 * a + 25 * b + c) as -> by (symmetry; apply (Z.div_unique _ _ _ e); lia).
  assert ((y - 1) / 100 = 4 * a + b) as -> by (symmetry; apply (Z.div_unique _ _ _ (4 * c + e)); lia).
  assert ((y - 1) / 400 = a) as -> by (symmetry; apply (Z.div_unique _ _ _ (100 * b + 4 * c + e)); lia).
  split; [lia|].
  assert (d2 - 365 * e = 365 -> y mod 4 = 0 /\ (y mod 100 <> 0 \/ y mod 400 = 0)) as Hl.
  { intros E. assert (e = 3) as -> by lia. split.
    - rewrite Z.mod_divide by done. exists (100 * a + 25 * b + c + 1). lia.
    - destruct (Z.eq_dec b 3) as [->|Hb'].
      + destruct (Z.eq_dec c 24) as [->|]; [right; rewrite Z.mod_divide by done; exists (a + 1); lia|left].
        rewrite <- (Z.mod_unique_pos _ 100 (4 * a + 3) (4 * c + 4)); lia.
      + left. rewrite <- (Z.mod_unique_pos _ 100 (4 * a + b) (4 * c + 4)); lia. }
  clearbody y. destruct (y mod 4 =? 0) eqn:E4, (y mod 100 =? 0) eqn:E1, (y mod 400 =? 0) eqn:E0; simpl; lia.
Qed.

Lemma days_before_next y m : 1 <= m -> days_before_month y (m + 1) = days_before_month y m + days_in_month y m.
Proof.
  intros Hm. unfold days_before_month. replace (Z.to_nat (m + 1 - 1)) with (S (Z.to_nat (m - 1))) by lia.
  rewrite seq_S, map_app, sumZ_app. cbn [map sumZ]. replace (Z.of_nat (1 + Z.to_nat (m - 1))) with m by lia. lia.
Qed.

Lemma days_in_month_bounds y m : 28 <= days_in_month y m <= 31.
Proof. unfold days_in_month. split_ifs; lia. Qed.

Lemma days_before_mono y m1 m2 : 1 <= m1 <= m2 -> days_before_month y m1 <= days_before_month y m2.
Proof.
  intros H. replace m2 with (m1 + Z.of_nat (Z.to_nat (m2 - m1))) by lia. generalize (Z.to_nat (m2 - m1)) as k.
  induction k as [|k IH]; [by rewrite Z.add_0_r|]. replace (m1 + Z.of_nat (S k)) with (m1 + Z.of_nat k + 1) by lia.
  rewrite days_before_next by lia. pose proof (days_in_month_bounds y (m1 + Z.of_nat k)). lia.
Qed.

(** Month and day of a day of the year. *)
Lemma month_day_spec fuel y m0 yday m d :
  1 <= m0 <= 12 -> fuel = Z.to_nat (12 - m0) -> 0 <= yday < days_before_month y 13 - days_before_month y m0 ->
  month_day fuel y m0 yday = (m, d) ->
  m0 <= m <= 12 /\ 1 <= d <= days_in_month y m /\ days_before_month y m0 + yday = days_before_month y m + (d - 1).
Proof.
  revert m0 yday. induction fuel as [|fuel IH]; intros m0 yday Hm Hf Hy H; simpl in H.
  - injection H as <- <-. assert (m0 = 12) as -> by lia.
    pose proof (days_before_next y 12 ltac:(lia)) as Hn. change (12 + 1) with 13 in Hn. lia.
  - destruct (yday <? days_in_month y m0) eqn:E; [injection H as <- <-; lia|].
    pose proof (days_before_next y m0 ltac:(lia)) as Hn.
    apply IH in H as (H1 & H2 & H3); [|lia..]. lia.
Qed.

Lemma year_of_months y : days_before_month y 13 = year_days y.
Proof. unfold days_before_month, days_in_month, year_days. cbn. destruct (leap y); reflexivity. Qed.

Lemma date_of_days_spec z y m d :
  date_of_days z = (y, m, d) -> valid_date y m d = true /\ days_since_epoch y m d = z.
Proof.
  unfold date_of_days. destruct (year_yday _) as [y' yday] eqn:Ey. apply year_yday_spec in Ey as [En Hy].
  destruct (month_day _ _ _ _) as [m' d'] eqn:Em. intros H. injection H as -> -> ->.
  apply month_day_spec in Em as (Hm & Hd & E); [|lia|done|].
  - unfold valid_date, days_since_epoch. fold (year_start y). split; [lia|].
    change (days_before_month y 1) with 0 in E. lia.
  - rewrite year_of_months. change (days_before_month y 1) with 0. lia.
Qed.

Definition date_lt (a b : Z * Z * Z) : Prop :=
  a.1.1 < b.1.1 \/ (a.1.1 = b.1.1 /\ (a.1.2 < b.1.2 \/ (a.1.2 = b.1.2 /\ a.2 < b.2))).

Lemma valid_date_bounds y m d :
  valid_date y m d = true -> 1 <= m <= 12 /\ 1 <= d <= days_in_month y m.
Proof. unfold valid_date. intros H. bool_hyps. lia. Qed.

Lemma days_in_year y m d :
  valid_date y m d = true -> 0 <= days_before_month y m + (d - 1) < year_days y.
Proof.
  intros [Hm Hd]%valid_date_bounds. pose proof (days_before_mono y 1 m ltac:(lia)) as H1.
  change (days_before_month y 1) with 0 in H1.
  pose proof (days_before_mono y (m + 1) 13 ltac:(lia)) as H2. rewrite year_of_months, days_before_next in H2; lia.
Qed.

(** Later dates have later days. *)
Lemma days_since_epoch_mono y1 m1 d1 y2 m2 d2 :
  valid_date y1 m1 d1 = true -> valid_date y2 m2 d2 = true ->
  date_lt (y1, m1, d1) (y2, m2, d2) -> days_since_epoch y1 m1 d1 < days_since_epoch y2 m2 d2.
Proof.
  intros V1 V2 H. pose proof (days_in_year _ _ _ V1). pose proof (days_in_year _ _ _ V2).
  apply valid_date_bounds in V1 as [Hm1 Hd1], V2 as [Hm2 Hd2].
  unfold days_since_epoch. fold (year_start y1) (year_start y2). destruct H as [H|[E H]]; simpl in *.
  - pose proof (year_start_mono (y1 + 1) y2 ltac:(lia)). rewrite leap_next in *. lia.
  - subst y2. destruct H as [H|[-> H]]; [|lia].
    pose proof (days_before_mono y1 (m1 + 1) m2 ltac:(lia)). rewrite days_before_next in * by lia. lia.
Qed.

Lemma date_lt_total a b : date_lt a b \/ a = b \/ date_lt b a.
Proof.
  destruct a as [[y1 m1] d1], b as [[y2 m2] d2]. unfold date_lt. simpl.
  destruct (Z.lt_total y1 y2) as [|[->|]]; [auto| |auto].
  destruct (Z.lt_total m1 m2) as [|[->|]]; [auto 6| |auto 6].
  destruct (Z.lt_total d1 d2) as [|[->|]]; auto 10.
Qed.

Lemma date_of_days_mono z1 z2 : z1 < z2 -> date_lt (date_of_days z1) (date_of_days z2).
Proof.
  intros H. destruct (date_of_days z1) as [[y1 m1] d1] eqn:E1. destruct (date_of_days z2) as [[y2 m2] d2] eqn:E2.
  apply date_of_days_spec in E1 as [V1 E1], E2 as [V2 E2].
  destruct (date_lt_total (y1, m1, d1) (y2, m2, d2)) as [|[E|L]]; [done|injection E as -> -> ->; lia|].
  apply days_since_epoch_mono in L; [lia|done..].
Qed.

(** ** Texts *)

Definition digit_char (n : Z) : ascii := ascii_of_N (Z.to_N (48 + n mod 10)).

Fixpoint padded_digits (width : nat) (n : Z) : list ascii :=
  match width with
  | O => []
  | S w => padded_digits w (n / 10) ++ [digit_char n]
  end.

Definition date_text (z : Z) : list ascii :=
  let '(y, m, d) := date_of_days z in
  padded_digits 4 y ++ "-"%char :: padded_digits 2 m ++ "-"%char :: padded_digits 2 d.

Definition clock_text (c : Z) : list ascii :=
  padded_digits 2 (c / (3600 * second)) ++ ":"%char :: padded_digits 2 (c / (60 * second) mod 60)
  ++ ":"%char :: padded_digits 2 (c / second mod 60) ++ "."%char :: padded_digits 9 (c mod second).

(** [t.UTC().Format("2006-01-02T15:04:05.000000000Z")], for years 0 to 9999. *)
Definition sqliteTimeText (t : Z) : string :=
  GoStr.of_chars (date_text (t / day) ++ "T"%char :: clock_text (t mod day) ++ ["Z"%char]).

(** [t.UTC().Format(time.RFC3339Nano)]: the fraction without its trailing zeros. *)
Definition rfc3339NanoText (t : Z) : string :=
  let c := t mod day in
  let fraction := rev (GoStr.drop_while (Ascii.eqb "0") (rev (padded_digits 9 (c mod second)))) in
  GoStr.of_chars (date_text (t / day) ++ "T"%char :: padded_digits 2 (c / (3600 * second)) ++ ":"%char
    :: padded_digits 2 (c / (60 * second) mod 60) ++ ":"%char :: padded_digits 2 (c / second mod 60)
    ++ (match fraction with [] => [] | _ => "."%char :: fraction end) ++ ["Z"%char]).

(** The instants with a year of four digits. *)
Definition in_years (t : Z) : Prop := -719528 * day <= t < 2932897 * day.

(** *** Fixed-width texts sort as numbers *)

Fixpoint chars_compare (a b : list ascii) : comparison :=
  match a, b with
  | [], [] => Eq
  | [], _ => Lt
  | _, [] => Gt
  | x :: a, y :: b => match Ascii.compare x y with Eq => chars_compare a b | c => c end
  end.

Lemma string_compare_chars a b : String.compare a b = chars_compare (GoStr.chars a) (GoStr.chars b).
Proof. revert b. induction a as [|x a IH]; intros [|y b]; simpl; [done..|]. by rewrite IH. Qed.

Lemma of_chars_compare a b : String.compare (GoStr.of_chars a) (GoStr.of_chars b) = chars_compare a b.
Proof. by rewrite string_compare_chars, !GoStr.chars_of_chars. Qed.

(** First by [c], then by [k]. *)
Definition then_compare (c k : comparison) : comparison := match c with Eq => k | _ => c end.

Lemma same_char_compare c a b : chars_compare (c :: a) (c :: b) = chars_compare a b.
Proof. simpl. unfold Ascii.compare. by rewrite N.compare_refl. Qed.

Lemma digit_code n : N_of_ascii (digit_char n) = Z.to_N (48 + n mod 10).
Proof.
  unfold digit_char. apply N_ascii_embedding. pose proof (Z.mod_pos_bound n 10). lia.
Qed.

Lemma digit_compare a b x y :
  chars_compare (digit_char a :: x) (digit_char b :: y)
  = then_compare (a mod 10 ?= b mod 10) (chars_compare x y).
Proof.
  simpl. unfold Ascii.compare. rewrite !digit_code. unfold then_compare.
  pose proof (Z.mod_pos_bound a 10). pose proof (Z.mod_pos_bound b 10).
  rewrite Z2N.inj_compare by lia. rewrite Z.add_compare_mono_l. by destruct (_ ?= _).
Qed.

(** A number compares by its high part, then by its low part. *)
Lemma compare_div_mod m a b : 0 < m -> (a ?= b) = then_compare (a / m ?= b / m) (a mod m ?= b mod m).
Proof.
  intros Hm. pose proof (Z.div_mod a m). pose proof (Z.div_mod b m).
  pose proof (Z.mod_pos_bound a m Hm). pose proof (Z.mod_pos_bound b m Hm).
  destruct (Z.compare_spec (a / m) (b / m)) as [E|L|L]; simpl.
  - rewrite E in *. destruct (Z.compare_spec (a mod m) (b mod m));
      [apply Z.compare_eq_iff|apply Z.compare_lt_iff|apply Z.compare_gt_iff]; lia.
  - apply Z.compare_lt_iff. nia.
  - apply Z.compare_gt_iff. nia.
Qed.

Lemma then_compare_assoc a b c : then_compare (then_compare a b) c = then_compare a (then_compare b c).
Proof. by destruct a. Qed.

Lemma padded_compare w a b x y :
  0 <= a < 10 ^ Z.of_nat w -> 0 <= b < 10 ^ Z.of_nat w ->
  chars_compare (padded_digits w a ++ x) (padded_digits w b ++ y) = then_compare (a ?= b) (chars_compare x y).
Proof.
  revert a b x y. induction w as [|w IH]; intros a b x y Ha Hb.
  - assert (a = 0) as -> by (simpl in Ha; lia). assert (b = 0) as -> by (simpl in Hb; lia). done.
  - rewrite Nat2Z.inj_succ, Z.pow_succ_r in Ha, Hb by lia. simpl. rewrite <- !app_assoc. simpl.
    rewrite IH by (split; [apply Z.div_pos; lia|apply Z.div_lt_upper_bound; lia]).
    rewrite digit_compare, (compare_div_mod 10 a b) by lia. by rewrite then_compare_assoc.
Qed.

Lemma padded_compare_end w a b :
  0 <= a < 10 ^ Z.of_nat w -> 0 <= b < 10 ^ Z.of_nat w ->
  chars_compare (padded_digits w a) (padded_digits w b) = (a ?= b).
Proof.
  intros Ha Hb. pose proof (padded_compare w a b [] [] Ha Hb) as H. rewrite !app_nil_r in H. rewrite H.
  simpl. by destruct (a ?= b).
Qed.

Ltac num_bounds := change (Z.of_nat 2) with 2; change (Z.of_nat 4) with 4; change (Z.of_nat 9) with 9;
  change (10 ^ 2) with 100; change (10 ^ 4) with 10000; change (10 ^ 9) with 1000000000.

(** The year of an instant with a four-digit year. *)
Lemma date_bounds z y m d :
  -719528 <= z < 2932897 -> date_of_days z = (y, m, d) -> 0 <= y < 10000 /\ 1 <= m < 100 /\ 1 <= d < 100.
Proof.
  intros Hz H. apply date_of_days_spec in H as [V E]. pose proof (days_in_year _ _ _ V) as Hy.
  unfold days_since_epoch in E. fold (year_start y) in E.
  pose proof (days_in_month_bounds y m). apply valid_date_bounds in V as [Hm Hd].
  assert (year_start 0 = -366 /\ year_start 10000 = 3652059) as [Y0 Y1] by done.
  split; [|lia]. split.
  - destruct (Z.lt_ge_cases y 0) as [L|]; [|done]. pose proof (year_start_mono (y + 1) 0 ltac:(lia)).
    rewrite leap_next in *. lia.
  - destruct (Z.lt_ge_cases y 10000) as [|L]; [done|]. pose proof (year_start_mono 10000 y L). lia.
Qed.

Lemma date_compare z1 z2 x y :
  -719528 <= z1 < 2932897 -> -719528 <= z2 < 2932897 ->
  chars_compare (date_text z1 ++ x) (date_text z2 ++ y) = then_compare (z1 ?= z2) (chars_compare x y).
Proof.
  intros H1 H2. unfold date_text. destruct (date_of_days z1) as [[y1 m1] d1] eqn:E1.
  destruct (date_of_days z2) as [[y2 m2] d2] eqn:E2.
  destruct (date_bounds _ _ _ _ H1 E1) as (? & ? & ?), (date_bounds _ _ _ _ H2 E2) as (? & ? & ?).
  rewrite <- !app_assoc, padded_compare by (num_bounds; lia). rewrite <- !app_comm_cons, same_char_compare.
  rewrite <- !app_assoc, padded_compare by (num_bounds; lia). rewrite <- !app_comm_cons, same_char_compare.
  rewrite padded_compare by (num_bounds; lia). rewrite <- !then_compare_assoc. f_equal.
  destruct (Z.compare_spec z1 z2) as [->|L|L].
  - rewrite E1 in E2. injection E2 as -> -> ->. by rewrite !Z.compare_refl.
  - apply date_of_days_mono in L. rewrite E1, E2 in L. unfold date_lt in L. simpl in L.
    destruct (Z.compare_spec y1 y2), (Z.compare_spec m1 m2), (Z.compare_spec d1 d2); simpl; try done; lia.
  - apply date_of_days_mono in L. rewrite E1, E2 in L. unfold date_lt in L. simpl in L.
    destruct (Z.compare_spec y1 y2), (Z.compare_spec m1 m2), (Z.compare_spec d1 d2); simpl; try done; lia.
Qed.

(** Hours, minutes and seconds, whatever follows. *)
Lemma clock_seconds_compare c1 c2 x y :
  0 <= c1 < day -> 0 <= c2 < day ->
  chars_compare
    (padded_digits 2 (c1 / (3600 * second)) ++ ":"%char :: padded_digits 2 (c1 / (60 * second) mod 60)
       ++ ":"%char :: padded_digits 2 (c1 / second mod 60) ++ x)
    (padded_digits 2 (c2 / (3600 * second)) ++ ":"%char :: padded_digits 2 (c2 / (60 * second) mod 60)
       ++ ":"%char :: padded_digits 2 (c2 / second mod 60) ++ y)
  = then_compare (c1 / second ?= c2 / second) (chars_compare x y).
Proof.
  intros H1 H2. unfold day in *.
  assert (forall c, 0 <= c < 86400 * second -> 0 <= c / (3600 * second) < 24 /\ 0 <= c / (60 * second) mod 60 < 60
    /\ 0 <= c / second mod 60 < 60) as B.
  { intros c Hc. unfold second in *. split; [|split]; try (apply Z.mod_pos_bound; lia).
    split; [apply Z.div_pos; lia|apply Z.div_lt_upper_bound; lia]. }
  destruct (B c1 H1) as (? & ? & ?), (B c2 H2) as (? & ? & ?). clear B.
  rewrite padded_compare by (num_bounds; lia). rewrite same_char_compare.
  rewrite padded_compare by (num_bounds; lia). rewrite same_char_compare.
  rewrite padded_compare by (num_bounds; lia). rewrite <- !then_compare_assoc. f_equal.
  rewrite (compare_div_mod 60 (c1 / second) (c2 / second)) by done. f_equal.
  rewrite !Z.div_div, !(Z.mul_comm second 60) by done.
  rewrite (compare_div_mod 60 (c1 / (60 * second)) (c2 / (60 * second))) by done. f_equal.
  by rewrite !Z.div_div, (Z.mul_comm (60 * second) 60), Z.mul_assoc by done.
Qed.

Lemma clock_compare c1 c2 x y :
  0 <= c1 < day -> 0 <= c2 < day ->
  chars_compare (clock_text c1 ++ x) (clock_text c2 ++ y) = then_compare (c1 ?= c2) (chars_compare x y).
Proof.
  intros H1 H2. unfold clock_text.
  pose proof (Z.mod_pos_bound c1 second ltac:(done)). pose proof (Z.mod_pos_bound c2 second ltac:(done)).
  repeat (rewrite <- app_assoc || rewrite <- app_comm_cons).
  rewrite clock_seconds_compare, same_char_compare, padded_compare by (done || num_bounds; unfold second in *; lia).
  by rewrite <- then_compare_assoc, <- compare_div_mod.
Qed.

Lemma in_years_day t : in_years t -> -719528 <= t / day < 2932897.
Proof.
  unfold in_years. intros H. split; [apply Z.div_le_lower_bound|apply Z.div_lt_upper_bound]; unfold day, second in *; lia.
Qed.

(** The texts of instants compare as the instants. *)
Lemma sqliteTimeText_compare a b :
  in_years a -> in_years b -> String.compare (sqliteTimeText a) (sqliteTimeText b) = (a ?= b).
Proof.
  intros Ha Hb. unfold sqliteTimeText. rewrite of_chars_compare, date_compare by by apply in_years_day.
  rewrite same_char_compare, clock_compare by (apply Z.mod_pos_bound; done).
  rewrite (compare_div_mod day a b) by done. rewrite same_char_compare. simpl.
  by destruct (_ ?= _), (_ ?= _).
Qed.

(** *** Texts with a trimmed fraction sort as their seconds *)

Lemma second_of_day t : t mod day / second = (t / second) mod 86400.
Proof.
  unfold day. rewrite (Z.mul_comm 86400), Z.rem_mul_r, (Z.mul_comm second), Z.div_add by done.
  pose proof (Z.mod_pos_bound t second ltac:(done)). by rewrite (Z.div_small (t mod second)).
Qed.

(** The texts of instants in different seconds compare as the seconds. *)
Lemma rfc3339NanoText_compare a b :
  in_years a -> in_years b -> exists c,
  String.compare (rfc3339NanoText a) (rfc3339NanoText b) = then_compare (a / second ?= b / second) c.
Proof.
  intros Ha Hb. eexists. unfold rfc3339NanoText.
  rewrite of_chars_compare, date_compare by by apply in_years_day.
  rewrite same_char_compare, clock_seconds_compare by (apply Z.mod_pos_bound; done).
  rewrite <- then_compare_assoc. f_equal.
  rewrite (compare_div_mod 86400 (a / second) (b / second)) by done.
  rewrite !Z.div_div, (Z.mul_comm second) by done. fold day. f_equal.
  by rewrite !second_of_day.
Qed.

(** ** Parsing *)

Definition digit_value (c : ascii) : option Z :=
  if GoStr.is_digit c then Some (Z.of_N (N_of_ascii c) - 48) else None.

(** A number of the given width and the rest of the text. *)
Fixpoint parse_number (width : nat) (acc : Z) (l : list ascii) : option (Z * list ascii) :=
  match width with
  | O => Some (acc, l)
  | S w => match l with
           | [] => None
           | c :: l => d ← digit_value c; parse_number w (10 * acc + d) l
           end
  end.

(** The digits at the head of [l]: the first nine count, as nanoseconds. *)
Fixpoint parse_fraction (width : nat) (acc : Z) (l : list ascii) : Z * list ascii :=
  match l with
  | c :: l' =>
      match digit_value c with
      | Some d => match width with
                  | O => parse_fraction O acc l'
                  | S w => parse_fraction w (10 * acc + d) l'
                  end
      | None => (acc * 10 ^ Z.of_nat width, l)
      end
  | [] => (acc * 10 ^ Z.of_nat width, l)
  end.

Definition parse_nanoseconds (l : list ascii) : Z * list ascii :=
  match l with
  | x :: (c :: _) as l' => if Ascii.eqb x "." && GoStr.is_digit c then parse_fraction 9 0 l' else (0, l)
  | _ => (0, l)
  end.

(** The offset in minutes at the end of the text. *)
Definition parse_offset (l : list ascii) : option Z :=
  match l with
  | [c] => if Ascii.eqb c "Z" then Some 0 else None
  | c :: l =>
      '(h, l) ← parse_number 2 0 l; l ← GoStr.expect ":" l; '(m, l) ← parse_number 2 0 l;
      if ((h <=? 23) && (m <=? 59) && (match l with [] => true | _ => false end))%bool
      then if Ascii.eqb c "+" then Some (60 * h + m) else if Ascii.eqb c "-" then Some (- (60 * h + m)) else None
      else None
  | [] => None
  end.

(** [time.Parse(time.RFC3339Nano, s)]. A one-digit hour and a comma before the
    fraction, which Go tolerates and no writer of the stored texts produces, are not
    accepted here. *)
Definition parse_rfc3339 (s : string) : option Z :=
  '(y, l) ← parse_number 4 0 (GoStr.chars s); l ← GoStr.expect "-" l;
  '(m, l) ← parse_number 2 0 l; l ← GoStr.expect "-" l;
  '(d, l) ← parse_number 2 0 l; l ← GoStr.expect "T" l;
  '(h, l) ← parse_number 2 0 l; l ← GoStr.expect ":" l;
  '(mi, l) ← parse_number 2 0 l; l ← GoStr.expect ":" l;
  '(sec, l) ← parse_number 2 0 l;
  let '(ns, l) := parse_nanoseconds l in
  off ← parse_offset l;
  if (valid_date y m d && (h <=? 23) && (mi <=? 59) && (sec <=? 59))%bool
  then Some (days_since_epoch y m d * day + (3600 * h + 60 * mi + sec - 60 * off) * second + ns)
  else None.

Lemma digit_value_char n : digit_value (digit_char n) = Some (n mod 10).
Proof.
  unfold digit_value, GoStr.is_digit. rewrite digit_code. pose proof (Z.mod_pos_bound n 10 ltac:(lia)).
  replace (_ && _)%bool with true; [f_equal; lia|].
  symmetry. apply andb_true_iff. split; apply N.leb_le; lia.
Qed.

Lemma parse_number_padded w n acc x :
  0 <= n < 10 ^ Z.of_nat w ->
  parse_number w acc (padded_digits w n ++ x) = Some (acc * 10 ^ Z.of_nat w + n, x).
Proof.
  assert (forall w acc a l, parse_number w acc a = Some l -> forall v, parse_number (w + v) acc a = parse_number v l.1 l.2) as Happ.
  { clear. induction w as [|w IH]; intros acc a l H v; simpl in *; [by injection H as <-|].
    destruct a as [|c a]; [done|]. destruct (digit_value c) as [d|]; simpl in *; [|done]. by apply IH. }
  revert n x. induction w as [|w IH]; intros n x Hn.
  - simpl in *. f_equal. f_equal. lia.
  - rewrite Nat2Z.inj_succ, Z.pow_succ_r in * by lia. cbn [padded_digits]. rewrite <- app_assoc. simpl app.
    rewrite <- Nat.add_1_r. rewrite (Happ _ _ _ _ (IH (n / 10) (digit_char n :: x)
      ltac:(split; [apply Z.div_pos; lia|apply Z.div_lt_upper_bound; lia]))).
    cbn [parse_number fst snd]. rewrite digit_value_char. simpl.
    f_equal. f_equal. pose proof (Z.div_mod n 10). lia.
Qed.

Lemma expect_char c l : GoStr.expect c (c :: l) = Some l.
Proof. simpl. by rewrite Ascii.eqb_refl. Qed.

Lemma padded_digits_digits w n :
  length (padded_digits w n) = w /\ Forall (fun c => is_Some (digit_value c)) (padded_digits w n).
Proof.
  revert n. induction w as [|w IH]; intros n; simpl; [done|]. destruct (IH (n / 10)) as [H1 H2].
  rewrite length_app, H1, Forall_app. simpl. split; [lia|]. split; [done|]. apply Forall_singleton.
  by rewrite digit_value_char.
Qed.

Lemma parse_fraction_padded w n x acc v :
  match x with c :: _ => GoStr.is_digit c = false | [] => True end -> 0 <= n < 10 ^ Z.of_nat w ->
  parse_fraction (w + v) acc (padded_digits w n ++ x) = ((acc * 10 ^ Z.of_nat w + n) * 10 ^ Z.of_nat v, x).
Proof.
  intros Hx. assert (forall l v acc, Forall (fun c => is_Some (digit_value c)) l ->
    parse_fraction (length l + v) acc (l ++ x)
    = match parse_number (length l) acc (l ++ x) with
      | Some (a, _) => (a * 10 ^ Z.of_nat v, x) | None => (0, x) end) as H.
  { clear - Hx. induction l as [|c l IH]; intros v acc Hl; simpl.
    - destruct x as [|c x]; simpl; [done|]. unfold digit_value. by rewrite Hx.
    - apply Forall_cons in Hl as [[d Hd] Hl]. rewrite Hd. simpl. by apply IH. }
  intros Hn. destruct (padded_digits_digits w n) as [Hlen Hall].
  specialize (H (padded_digits w n) v acc Hall). rewrite Hlen in H. rewrite H, parse_number_padded by done. done.
Qed.

Lemma parse_nanoseconds_padded n x :
  match x with c :: _ => GoStr.is_digit c = false | [] => True end -> 0 <= n < second ->
  parse_nanoseconds ("."%char :: padded_digits 9 n ++ x) = (n, x).
Proof.
  intros Hx Hn. pose proof (parse_fraction_padded 9 n x 0 0 Hx Hn) as H.
  change (9 + 0)%nat with 9%nat in H. rewrite Z.mul_0_l, Z.add_0_l, Z.mul_1_r in H.
  assert (exists c l, padded_digits 9 n ++ x = c :: l /\ GoStr.is_digit c = true) as (c & l & E & Hc).
  { cbn [padded_digits app]. eexists _, _. split; [reflexivity|].
    pose proof (digit_value_char (n / 10 / 10 / 10 / 10 / 10 / 10 / 10 / 10)) as D. unfold digit_value in D.
    by destruct (GoStr.is_digit _). }
  unfold parse_nanoseconds. rewrite E in *. rewrite Hc. exact H.
Qed.

(** A text of the seconds of [t], a fraction that parses to its nanoseconds, and [Z]. *)
Lemma parse_seconds_text t fraction :
  in_years t -> parse_nanoseconds (fraction ++ ["Z"%char]) = (t mod day mod second, ["Z"%char]) ->
  parse_rfc3339 (GoStr.of_chars (date_text (t / day) ++ "T"%char
    :: padded_digits 2 (t mod day / (3600 * second)) ++ ":"%char
    :: padded_digits 2 (t mod day / (60 * second) mod 60) ++ ":"%char
    :: padded_digits 2 (t mod day / second mod 60) ++ fraction ++ ["Z"%char])) = Some t.
Proof.
  intros Ht Hns. apply in_years_day in Ht as Hd. unfold parse_rfc3339. rewrite GoStr.chars_of_chars.
  unfold date_text. destruct (date_of_days (t / day)) as [[y m] d] eqn:E.
  destruct (date_bounds _ _ _ _ Hd E) as (Hy & Hm & Hdd). apply date_of_days_spec in E as [V E].
  set (c := t mod day) in *. assert (0 <= c < day) as Hc by (apply Z.mod_pos_bound; done).
  assert (t = (t / day) * day + c) as Et by (unfold c; pose proof (Z.div_mod t day); lia).
  rewrite <- !app_assoc, <- !app_comm_cons.
  rewrite parse_number_padded by (num_bounds; lia). cbn [mbind option_bind].
  rewrite expect_char. cbn [mbind option_bind]. rewrite <- !app_assoc, <- !app_comm_cons.
  rewrite parse_number_padded by (num_bounds; lia). cbn [mbind option_bind].
  rewrite expect_char. cbn [mbind option_bind]. rewrite <- ?app_assoc, <- ?app_comm_cons.
  rewrite parse_number_padded by (num_bounds; lia). cbn [mbind option_bind].
  rewrite expect_char. cbn [mbind option_bind]. rewrite <- ?app_assoc, <- ?app_comm_cons.
  assert (0 <= c / (3600 * second) < 24 /\ 0 <= c / (60 * second) mod 60 < 60 /\ 0 <= c / second mod 60 < 60)
    as (Hh & Hmi & Hs).
  { unfold day, second in *. split; [|split; apply Z.mod_pos_bound; lia].
    split; [apply Z.div_pos; lia|apply Z.div_lt_upper_bound; lia]. }
  rewrite parse_number_padded by (num_bounds; lia). cbn [mbind option_bind].
  rewrite expect_char. cbn [mbind option_bind]. rewrite <- ?app_assoc, <- ?app_comm_cons.
  rewrite parse_number_padded by (num_bounds; lia). cbn [mbind option_bind].
  rewrite expect_char. cbn [mbind option_bind]. rewrite <- ?app_assoc, <- ?app_comm_cons.
  rewrite parse_number_padded by (num_bounds; lia). cbn [mbind option_bind]. rewrite Hns.
  change (parse_offset ["Z"%char]) with (Some 0). cbn [mbind option_bind]. rewrite !Z.mul_0_l, !Z.add_0_l, V, E.
  replace (_ && _)%bool with true by lia. f_equal.
  enough ((3600 * (c / (3600 * second)) + 60 * (c / (60 * second) mod 60) + c / second mod 60 - 60 * 0) * second
          + c mod second = c) by lia.
  clear - Hc. unfold day, second in *. Z.to_euclidean_division_equations. lia.
Qed.

(** What the ledger writes parses back to the instant. *)
Lemma parse_sqliteTimeText t : in_years t -> parse_rfc3339 (sqliteTimeText t) = Some t.
Proof.
  intros Ht. pose proof (parse_seconds_text t ("."%char :: padded_digits 9 (t mod day mod second)) Ht) as H.
  rewrite <- app_comm_cons in H. unfold sqliteTimeText, clock_text. rewrite <- !app_assoc, <- !app_comm_cons.
  rewrite <- !app_assoc, <- !app_comm_cons, <- !app_assoc. apply H.
  apply parse_nanoseconds_padded; [done|]. by apply Z.mod_pos_bound.
Qed.

(** Zeros at the end of a fraction do not count. *)
Lemma parse_fraction_zeros k l x acc :
  match x with c :: _ => GoStr.is_digit c = false | [] => True end ->
  Forall (fun c => is_Some (digit_value c)) l ->
  parse_fraction (length l + k) acc (l ++ repeat "0"%char k ++ x) = parse_fraction (length l + k) acc (l ++ x).
Proof.
  intros Hx. revert acc. induction l as [|c l IH]; intros acc Hl; cbn [app length Nat.add].
  - clear Hl. assert (forall w a, parse_fraction w a x = (a * 10 ^ Z.of_nat w, x)) as Hend.
    { intros w a. destruct x as [|c x]; [done|]. cbn [parse_fraction]. unfold digit_value. by rewrite Hx. }
    rewrite Hend. revert acc. induction k as [|k IH]; intros acc; cbn [repeat app].
    + by rewrite Hend.
    + cbn [parse_fraction]. change (digit_value "0") with (Some 0). cbn match. rewrite IH. f_equal.
      rewrite Nat2Z.inj_succ, Z.pow_succ_r by lia. lia.
  - apply Forall_cons in Hl as [[d Hd] Hl]. cbn [parse_fraction]. rewrite Hd. by apply IH.
Qed.

Lemma drop_zeros l : exists k,
  l = rev (GoStr.drop_while (Ascii.eqb "0") (rev l)) ++ repeat "0"%char k.
Proof.
  rewrite <- (rev_involutive l). generalize (rev l) as r. intros r. rewrite rev_involutive.
  induction r as [|c r [k IH]]; [by exists 0%nat|]. cbn [GoStr.drop_while rev].
  destruct (Ascii.eqb_spec "0" c) as [<-|]; [|exists 0%nat; cbn; by rewrite app_nil_r].
  exists (S k). rewrite IH at 1. rewrite <- app_assoc. f_equal. symmetry. apply repeat_cons.
Qed.

Lemma parse_trimmed_fraction n :
  0 <= n < second ->
  let fraction := rev (GoStr.drop_while (Ascii.eqb "0") (rev (padded_digits 9 n))) in
  parse_nanoseconds ((match fraction with [] => [] | _ => "."%char :: fraction end) ++ ["Z"%char]) = (n, ["Z"%char]).
Proof.
  intros Hn fraction. destruct (drop_zeros (padded_digits 9 n)) as [k E]. fold fraction in E.
  destruct (padded_digits_digits 9 n) as [Hlen Hall].
  pose proof (parse_fraction_padded 9 n ["Z"%char] 0 0 eq_refl Hn) as P.
  rewrite Z.mul_0_l, Z.add_0_l, Z.mul_1_r in P. change (9 + 0)%nat with 9%nat in P. rewrite E in Hlen, Hall, P.
  rewrite length_app, repeat_length in Hlen. apply Forall_app in Hall as [Hf _].
  rewrite <- app_assoc, <- Hlen, parse_fraction_zeros, Hlen in P by done.
  clear E. clearbody fraction. destruct fraction as [|c l].
  - cbn in P. by injection P as <-.
  - apply Forall_cons in Hf as [[v Hv] _]. unfold digit_value in Hv. cbn [app]. unfold parse_nanoseconds.
    change (Ascii.eqb "." ".") with true. destruct (GoStr.is_digit c); [exact P|done].
Qed.

(** A text with a trimmed fraction parses back to the instant. *)
Lemma parse_rfc3339NanoText t : in_years t -> parse_rfc3339 (rfc3339NanoText t) = Some t.
Proof.
  intros Ht. unfold rfc3339NanoText. apply parse_seconds_text; [done|].
  apply parse_trimmed_fraction. by apply Z.mod_pos_bound.
Qed.

Lemma sqliteTimeText_inj a b : in_years a -> in_years b -> sqliteTimeText a = sqliteTimeText b -> a = b.
Proof.
  intros Ha Hb H. enough (Some a = Some b) by congruence.
  by rewrite <- (parse_sqliteTimeText a Ha), H, parse_sqliteTimeText.
Qed.

(** [time.Parse("2006-01-02", s)], as a day count. *)
Definition parse_date (s : string) : option Z :=
  match GoStr.split_on "-" (GoStr.chars s) with
  | [ys; ms; ds] =>
      y ← GoStr.parse_magnitude ys; m ← GoStr.parse_magnitude ms; d ← GoStr.parse_magnitude ds;
      if ((length ys =? 4)%nat && (length ms =? 2)%nat && (length ds =? 2)%nat && valid_date y m d)%bool
      then Some (days_since_epoch y m d) else None
  | _ => None
  end.
