(* ===== verification/Formula.v ===== *)
(** * Billing formula (phase4-coordinator/internal/billing/formula.go)

    The pure money arithmetic of the coordinator: the rate-card lookup, the
    model-key normalisation, banker's rounding, the overflow-checked integer
    operations and [ComputeCreditsWithCache], which turns the token counts of
    one provider-reached attempt into gross, provider and operator credits.

    The theorems show that the 64-bit computation never wraps, that it is the
    exact unbounded formula whenever it bills, that it fails closed to zero
    otherwise, and that the split always adds up. *)

From S2P Require Import Prelude.

(** ** Data *)

Definition UsageProviderReported : string := "provider_reported".
Definition UsageByteEstimated : string := "byte_estimated".
Definition UsageNullError : string := "null_error".
Definition FaultNone : string := "none".
Definition FaultBreakerQualifying : string := "breaker_qualifying".
Definition FaultNullUsageError : string := "null_usage_error".
Definition globalMultiplierDenom : Z := 1000000.
Definition tokensPerMillion : Z := 1000000.
Definition providerShareDenom : Z := 10000.
Definition maxBillableTokens : Z := 10000000.

(** [config.RateCardEntry]; all rates are [int64]. *)
Record RateCardEntry := mkRateCardEntry {
  PromptCreditsPerMtok : Z;
  PromptCacheHitCreditsPerMtok : Z;
  CompletionCreditsPerMtok : Z;
  promptCacheHitRateSet : bool;
}.

(** The zero value [RateCardEntry{}]. *)
Definition zeroRate : RateCardEntry := mkRateCardEntry 0 0 0 false.

Definition EffectivePromptCacheHitCreditsPerMtok (e : RateCardEntry) : Z :=
  if promptCacheHitRateSet e || negb (PromptCacheHitCreditsPerMtok e =? 0)
     || (PromptCreditsPerMtok e =? 0)
  then PromptCacheHitCreditsPerMtok e
  else PromptCreditsPerMtok e.

(** [BilledRow]; a nil [*int64] is [None]. *)
Record BilledRow := mkBilledRow {
  GrossCredits : Z;
  ProviderCredits : Z;
  OperatorCredits : Z;
  UsageSource : string;
  FaultFlag : string;
  PromptTokens : option Z;
  CachedPromptTokens : option Z;
  CompletionTokens : option Z;
  EstimatedCompTokens : option Z;
  PromptRatePerMtok : Z;
  PromptCacheHitRatePerMtok : Z;
  CompletionRatePerMtok : Z;
  GlobalMultiplierPPM : Z;
  ProviderShareBps : Z;
}.

Definition set_usage (u : string) (r : BilledRow) : BilledRow :=
  mkBilledRow (GrossCredits r) (ProviderCredits r) (OperatorCredits r) u
    (FaultFlag r) (PromptTokens r) (CachedPromptTokens r) (CompletionTokens r)
    (EstimatedCompTokens r) (PromptRatePerMtok r) (PromptCacheHitRatePerMtok r)
    (CompletionRatePerMtok r) (GlobalMultiplierPPM r) (ProviderShareBps r).

Definition set_fault (f : string) (r : BilledRow) : BilledRow :=
  mkBilledRow (GrossCredits r) (ProviderCredits r) (OperatorCredits r)
    (UsageSource r) f (PromptTokens r) (CachedPromptTokens r)
    (CompletionTokens r) (EstimatedCompTokens r) (PromptRatePerMtok r)
    (PromptCacheHitRatePerMtok r) (CompletionRatePerMtok r)
    (GlobalMultiplierPPM r) (ProviderShareBps r).

Definition set_credits (g p o : Z) (r : BilledRow) : BilledRow :=
  mkBilledRow g p o (UsageSource r) (FaultFlag r) (PromptTokens r)
    (CachedPromptTokens r) (CompletionTokens r) (EstimatedCompTokens r)
    (PromptRatePerMtok r) (PromptCacheHitRatePerMtok r)
    (CompletionRatePerMtok r) (GlobalMultiplierPPM r) (ProviderShareBps r).

Definition clear_tokens (r : BilledRow) : BilledRow :=
  mkBilledRow (GrossCredits r) (ProviderCredits r) (OperatorCredits r)
    (UsageSource r) (FaultFlag r) None None None None (PromptRatePerMtok r)
    (PromptCacheHitRatePerMtok r) (CompletionRatePerMtok r)
    (GlobalMultiplierPPM r) (ProviderShareBps r).

(** ** Rate card *)

Definition knownModelNamespace (namespace : string) : bool :=
  existsb (String.eqb namespace)
    ["mlx-community"; "openai"; "google"; "meta-llama"; "nvidia"; "qwen"].

Definition NormalizeModelKey (model : string) : string :=
  let key := GoStr.ToLower (GoStr.TrimSpace model) in
  let '(namespace, key) :=
    match GoStr.index_byte (GoStr.chars key) "/"%char with
    | Some slash =>
        let namespace := GoStr.of_chars (firstn slash (GoStr.chars key)) in
        (namespace,
         if knownModelNamespace namespace
         then GoStr.of_chars (skipn (S slash) (GoStr.chars key)) else key)
    | None => ("", key)
    end in
  let key := fold_left GoStr.TrimSuffix ["-mxfp4-q8"; "-4bit"; "-8bit"] key in
  if String.eqb namespace "meta-llama" && GoStr.HasPrefix key "llama-"
  then "meta-llama/" +:+ key
  else if GoStr.HasPrefix key "meta-llama-"
  then "meta-llama/" +:+ GoStr.TrimPrefix key "meta-"
  else if GoStr.HasPrefix key "nvidia-nemotron-"
  then GoStr.TrimPrefix key "nvidia-"
  else if GoStr.HasPrefix key "gpt-oss-"
  then "openai/" +:+ key
  else key.

(** [RateFor]; a nil map is [None]. The log lines have no effect on the
    result and are left out. *)
Definition RateFor (rateCard : option (gmap string RateCardEntry)) (model : string)
    : RateCardEntry :=
  match rateCard with
  | Some card =>
      match card !! model with
      | Some entry => entry
      | None =>
          let normalized := NormalizeModelKey model in
          let viaNormalized :=
            if negb (String.eqb normalized model) then card !! normalized else None in
          match viaNormalized with
          | Some entry => entry
          | None =>
              match card !! "default" with
              | Some entry => entry
              | None => zeroRate
              end
          end
      end
  | None => zeroRate
  end.

(** ** Rounding and checked arithmetic *)

Definition RoundHalfEven (numerator denominator : Z) : Z :=
  if denominator <=? 0 then 0
  else
    let q := Int64.quot numerator denominator in
    let r := Int64.rem numerator denominator in
    let r := if r <? 0 then Int64.neg r else r in
    let twice := Int64.mul r 2 in
    if twice <? denominator then q
    else if denominator <? twice then
      if 0 <=? numerator then Int64.add q 1 else Int64.sub q 1
    else if Int64.rem q 2 =? 0 then q
    else if 0 <=? numerator then Int64.add q 1 else Int64.sub q 1.

(** The Go pair [(value, ok)] is [Some value] or [None]. *)
Definition checkedMul (a b : Z) : option Z :=
  if (a <? 0) || (b <? 0) then None
  else if (a =? 0) || (b =? 0) then Some 0
  else if Int64.quot Int64.max b <? a then None
  else Some (Int64.mul a b).

Definition checkedAdd (a b : Z) : option Z :=
  if (a <? 0) || (b <? 0) then None
  else if Int64.sub Int64.max b <? a then None
  else Some (Int64.add a b).

Definition invalidBillableTokenCount (v : Z) : bool :=
  (v <? 0) || (maxBillableTokens <? v).

Definition zeroCredits (row : BilledRow) : BilledRow :=
  let row := set_credits 0 0 0 row in
  if String.eqb (FaultFlag row) FaultNullUsageError then clear_tokens row else row.

(** ** Billable completion tokens

    [(tokens, clampedToEstimate)], or [None] for the Go result [ok = false]. *)
Definition billableCompletion (usageSource : string)
    (completionTokens estimatedCompletionTokens : option Z) : option (Z * bool) :=
  if String.eqb usageSource UsageByteEstimated then
    match estimatedCompletionTokens with
    | None => Some (0, false)
    | Some estimate =>
        if estimate <? 0 then None
        else match completionTokens with
             | Some providerReported =>
                 if providerReported <? 0 then None
                 else if providerReported <? estimate
                 then Some (providerReported, false)
                 else Some (estimate, false)
             | None => Some (estimate, false)
             end
    end
  else
    match completionTokens with
    | None =>
        match estimatedCompletionTokens with
        | None => Some (0, false)
        | Some estimate => Some (estimate, true)
        end
    | Some providerReported =>
        if providerReported <? 0 then None
        else match estimatedCompletionTokens with
             | None => Some (providerReported, false)
             | Some estimate =>
                 if estimate <? 0 then None
                 else if estimate <? providerReported then Some (estimate, true)
                 else Some (providerReported, false)
             end
    end.

(** ** The credit computation *)

(** The exit every failed check takes: null-usage flags, zero credits. *)
Definition nullUsage (row : BilledRow) : BilledRow :=
  zeroCredits (set_usage UsageNullError (set_fault FaultNullUsageError row)).

(** The six checked operations that share this exit, [rateScaled] in Go. *)
Definition rateScaledNumerator (prompt cached completion : Z)
    (rateEntry : RateCardEntry) (multiplierPPM : Z) : option Z :=
  let uncached := Int64.sub prompt cached in
  uncachedPromptNumerator ← checkedMul uncached (PromptCreditsPerMtok rateEntry);
  cachedPromptNumerator ←
    checkedMul cached (EffectivePromptCacheHitCreditsPerMtok rateEntry);
  promptNumerator ← checkedAdd uncachedPromptNumerator cachedPromptNumerator;
  completionNumerator ← checkedMul completion (CompletionCreditsPerMtok rateEntry);
  baseNumerator ← checkedAdd promptNumerator completionNumerator;
  checkedMul baseNumerator multiplierPPM.

Definition ComputeCreditsWithCache
    (promptTokens cachedPromptTokens completionTokens
     estimatedCompletionTokens : option Z)
    (usageSource faultFlag : string) (rateEntry : RateCardEntry)
    (multiplierPPM providerShareBps : Z) : BilledRow :=
  let usageSource :=
    if String.eqb usageSource "" then UsageProviderReported else usageSource in
  let faultFlag := if String.eqb faultFlag "" then FaultNone else faultFlag in
  let row := mkBilledRow 0 0 0 usageSource faultFlag promptTokens
    cachedPromptTokens completionTokens estimatedCompletionTokens
    (PromptCreditsPerMtok rateEntry)
    (EffectivePromptCacheHitCreditsPerMtok rateEntry)
    (CompletionCreditsPerMtok rateEntry) multiplierPPM providerShareBps in
  if String.eqb (FaultFlag row) FaultBreakerQualifying then row
  else if String.eqb (UsageSource row) UsageNullError
  then set_fault FaultNullUsageError row
  else
  let prompt := default 0 promptTokens in
  let cached := default 0 cachedPromptTokens in
  match billableCompletion (UsageSource row) completionTokens
          estimatedCompletionTokens with
  | None => nullUsage row
  | Some (completion, clampedToEstimate) =>
  let row :=
    if String.eqb (UsageSource row) UsageByteEstimated then row
    else if clampedToEstimate : bool then set_usage UsageByteEstimated row
    else set_usage UsageProviderReported row in
  if invalidBillableTokenCount prompt || invalidBillableTokenCount cached
     || (prompt <? cached) || invalidBillableTokenCount completion
  then nullUsage row
  else
  match rateScaledNumerator prompt cached completion rateEntry multiplierPPM with
  | None => nullUsage row
  | Some rateScaled =>
  let gross := RoundHalfEven rateScaled
                 (Int64.mul globalMultiplierDenom tokensPerMillion) in
  match checkedMul gross providerShareBps with
  | None => nullUsage (set_credits gross 0 0 row)
  | Some providerNumerator =>
  let provider := RoundHalfEven providerNumerator providerShareDenom in
  set_credits gross provider (Int64.sub gross provider) row
  end end end.

Definition ComputeCredits
    (promptTokens completionTokens estimatedCompletionTokens : option Z)
    (usageSource faultFlag : string) (rateEntry : RateCardEntry)
    (multiplierPPM providerShareBps : Z) : BilledRow :=
  ComputeCreditsWithCache promptTokens None completionTokens
    estimatedCompletionTokens usageSource faultFlag rateEntry multiplierPPM
    providerShareBps.

Definition usageFor (errorCode : string)
    (estimatedCompletionTokens : option Z) : string :=
  if existsb (String.eqb errorCode)
       ["error_model_not_loaded"; "error_context_exceeded"; "error_queue_full";
        "error_internal"]
  then UsageNullError
  else match estimatedCompletionTokens with
       | Some _ => UsageByteEstimated
       | None => UsageProviderReported
       end.

(** ** Reference arithmetic over unbounded integers *)

(** [q] is [n / d] rounded to nearest, ties to even. *)
Definition is_half_even (n d q : Z) : Prop :=
  2 * Z.abs (n - q * d) <= d /\ (2 * Z.abs (n - q * d) = d -> Z.Even q).

Lemma is_half_even_unique n d q1 q2 :
  0 < d -> is_half_even n d q1 -> is_half_even n d q2 -> q1 = q2.
Proof.
  intros Hd [H1 E1] [H2 E2].
  assert (-1 <= q1 - q2 <= 1) as Hq by nia.
  destruct (decide (q1 = q2)) as [|Hne]; [done|exfalso].
  assert (2 * Z.abs (n - q1 * d) = d) as T1 by nia.
  assert (2 * Z.abs (n - q2 * d) = d) as T2 by nia.
  destruct (E1 T1) as [a ->], (E2 T2) as [b ->]. lia.
Qed.

Definition half_even_div (n d : Z) : Z :=
  let q := n / d in
  let r := n mod d in
  if 2 * r <? d then q
  else if d <? 2 * r then q + 1
  else if Z.even q then q else q + 1.

Lemma half_even_div_spec n d : 0 < d -> is_half_even n d (half_even_div n d).
Proof.
  intros Hd. unfold half_even_div.
  pose proof (Z.div_mod n d ltac:(lia)) as Hn.
  pose proof (Z.mod_pos_bound n d Hd) as Hr.
  set (q := n / d) in *. set (r := n mod d) in *.
  destruct (2 * r <? d) eqn:E1; [split; nia|].
  destruct (d <? 2 * r) eqn:E2; [split; nia|].
  destruct (Z.even q) eqn:E3.
  - split; [nia|]. intros _. by apply Z.even_spec.
  - split; [nia|]. intros _. apply Z.even_spec. rewrite Z.add_1_r, Z.even_succ.
    rewrite <- Z.negb_even, E3. done.
Qed.

Lemma half_even_div_mono n1 n2 d :
  0 < d -> n1 <= n2 -> half_even_div n1 d <= half_even_div n2 d.
Proof.
  intros Hd Hn. destruct (half_even_div_spec n1 d Hd) as [H1 E1].
  destruct (half_even_div_spec n2 d Hd) as [H2 E2].
  set (a := half_even_div n1 d) in *. set (b := half_even_div n2 d) in *.
  destruct (Z.le_gt_cases a b) as [|Hgt]; [done|exfalso].
  assert (a = b + 1) by nia. subst a.
  assert (n1 = n2) by nia. subst n2.
  assert (b + 1 = b); [|lia].
  eapply (is_half_even_unique n1 d); [done|split|split]; auto; nia.
Qed.

Lemma half_even_div_bounds n d k :
  0 < d -> 0 <= n <= k * d -> 0 <= half_even_div n d <= k.
Proof.
  intros Hd Hn. destruct (half_even_div_spec n d Hd) as [H _]. nia.
Qed.

(** The 64-bit rounding is the unbounded one on its whole input range. *)
Lemma RoundHalfEven_exact n d :
  Int64.in_range n -> 0 < d <= 4611686018427387904 ->
  RoundHalfEven n d = half_even_div n d.
Proof.
  intros Hn Hd. apply (is_half_even_unique n d); [lia| |apply half_even_div_spec; lia].
  unfold RoundHalfEven. destruct (d <=? 0) eqn:E0; [lia|].
  rewrite Int64.quot_exact by (done || lia).
  rewrite (Int64.rem_exact n d) by (i64; lia).
  pose proof (Z.quot_rem n d ltac:(lia)) as Hqr.
  pose proof (Int64.rem_abs_lt n d ltac:(lia)) as Hrb.
  pose proof (Z.rem_sign_nz n d ltac:(lia)) as Hsg.
  pose proof (Int64.quot_range n d Hn ltac:(lia)) as Hqrng.
  set (q := Z.quot n d) in *. set (r := Z.rem n d) in *.
  assert (r <> 0 -> -4611686018427387904 <= q <= 4611686018427387904) as Hq2.
  { intros Hr. assert (2 <= d) by lia. i64. nia. }
  assert ((if r <? 0 then Int64.neg r else r) = Z.abs r) as ->.
  { destruct (r <? 0) eqn:E; [rewrite Int64.neg_exact by (i64; lia)|]; lia. }
  rewrite Int64.mul_exact by (i64; lia).
  assert (0 <= n -> 0 <= r) as Hpos by nia.
  assert (n < 0 -> r <= 0) as Hneg by nia.
  rewrite (Int64.rem_exact q 2) by (i64; lia).
  split_ifs;
    rewrite ?Int64.add_exact, ?Int64.sub_exact by (i64; lia);
    (split; [nia|intros Ht]); try (exfalso; nia).
  all: pose proof (Z.quot_rem q 2 ltac:(lia)) as Hq2r;
    pose proof (Int64.rem_abs_lt q 2 ltac:(lia)).
  - exists (Z.quot q 2). lia.
  - assert (Z.rem q 2 = 1 \/ Z.rem q 2 = -1) as [] by lia;
      [exists (Z.quot q 2 + 1)|exists (Z.quot q 2)]; lia.
  - assert (Z.rem q 2 = 1 \/ Z.rem q 2 = -1) as [] by lia;
      [exists (Z.quot q 2)|exists (Z.quot q 2 - 1)]; lia.
Qed.

Lemma checkedMul_spec a b :
  checkedMul a b =
    (if bool_decide (0 <= a /\ 0 <= b /\ a * b <= Int64.max)
     then Some (a * b) else None).
Proof.
  unfold checkedMul.
  destruct ((a <? 0) || (b <? 0)) eqn:E1.
  { rewrite bool_decide_eq_false_2; [done|lia]. }
  bool_hyps.
  destruct ((a =? 0) || (b =? 0)) eqn:E2.
  { assert (a * b = 0) as -> by lia.
    rewrite bool_decide_eq_true_2; [done|i64; lia]. }
  bool_hyps. rewrite Int64.quot_exact by (i64; lia).
  rewrite Z.quot_div_nonneg by (i64; lia).
  pose proof (Z.div_mod Int64.max b ltac:(lia)).
  pose proof (Z.mod_pos_bound Int64.max b ltac:(lia)).
  destruct (Int64.max / b <? a) eqn:E3.
  - rewrite bool_decide_eq_false_2; [done|nia].
  - assert (a * b <= Int64.max) by nia.
    rewrite bool_decide_eq_true_2 by lia.
    rewrite Int64.mul_exact; [done|i64; nia].
Qed.

Lemma checkedAdd_spec a b :
  b <= Int64.max ->
  checkedAdd a b =
    (if bool_decide (0 <= a /\ 0 <= b /\ a + b <= Int64.max)
     then Some (a + b) else None).
Proof.
  intros Hb. unfold checkedAdd.
  destruct ((a <? 0) || (b <? 0)) eqn:E1.
  { rewrite bool_decide_eq_false_2; [done|lia]. }
  bool_hyps. rewrite Int64.sub_exact by (i64; lia).
  destruct (Int64.max - b <? a) eqn:E3.
  - rewrite bool_decide_eq_false_2; [done|lia].
  - rewrite bool_decide_eq_true_2 by lia.
    rewrite Int64.add_exact; [done|i64; lia].
Qed.

Definition base_numerator (prompt cached completion : Z) (e : RateCardEntry) : Z :=
  (prompt - cached) * PromptCreditsPerMtok e
  + cached * EffectivePromptCacheHitCreditsPerMtok e
  + completion * CompletionCreditsPerMtok e.

(** The credits [(gross, provider, operator)] the formula means, over unbounded
    integers: [None] when some operand is out of bounds or the scaled amount
    does not fit in an [int64]. *)
Definition reference_bill (prompt cached completion : Z) (e : RateCardEntry)
    (mult bps : Z) : option (Z * Z * Z) :=
  let pr := PromptCreditsPerMtok e in
  let cr := EffectivePromptCacheHitCreditsPerMtok e in
  let kr := CompletionCreditsPerMtok e in
  let base := base_numerator prompt cached completion e in
  let gross := half_even_div (base * mult) 1000000000000 in
  let provider := half_even_div (gross * bps) 10000 in
  if bool_decide
       ((0 <= cached <= prompt /\ prompt <= maxBillableTokens
         /\ 0 <= completion <= maxBillableTokens)
        /\ (0 <= pr /\ 0 <= cr /\ 0 <= kr /\ 0 <= mult /\ 0 <= bps)
        /\ base <= Int64.max /\ base * mult <= Int64.max
        /\ gross * bps <= Int64.max)
  then Some (gross, provider, gross - provider)
  else None.

Definition reference_credits (prompt cached completion estimated : option Z)
    (usageSource faultFlag : string) (e : RateCardEntry) (mult bps : Z)
    : option (Z * Z * Z) :=
  if String.eqb faultFlag FaultBreakerQualifying
     || String.eqb usageSource UsageNullError then None
  else match billableCompletion usageSource completion estimated with
       | None => None
       | Some (c, _) => reference_bill (default 0 prompt) (default 0 cached) c e mult bps
       end.

Definition credits (r : BilledRow) : Z * Z * Z :=
  (GrossCredits r, ProviderCredits r, OperatorCredits r).

(** Every failed check leaves the billed row at zero with null usage. *)
Lemma nullUsage_credits r :
  credits (nullUsage r) = (0, 0, 0) /\ UsageSource (nullUsage r) = UsageNullError.
Proof. done. Qed.

Lemma billableCompletion_empty c e :
  billableCompletion "" c e = billableCompletion UsageProviderReported c e.
Proof. done. Qed.

Lemma base_numerator_nonneg prompt cached completion e :
  0 <= cached <= prompt -> 0 <= completion -> 0 <= PromptCreditsPerMtok e ->
  0 <= EffectivePromptCacheHitCreditsPerMtok e -> 0 <= CompletionCreditsPerMtok e ->
  0 <= base_numerator prompt cached completion e.
Proof.
  intros. unfold base_numerator.
  repeat apply Z.add_nonneg_nonneg; apply Z.mul_nonneg_nonneg; lia.
Qed.

Lemma rateScaledNumerator_spec prompt cached completion e mult :
  0 <= cached <= prompt -> prompt <= Int64.max -> 0 <= completion ->
  rateScaledNumerator prompt cached completion e mult =
    (if bool_decide
          ((0 <= PromptCreditsPerMtok e /\ 0 <= EffectivePromptCacheHitCreditsPerMtok e
            /\ 0 <= CompletionCreditsPerMtok e /\ 0 <= mult)
           /\ base_numerator prompt cached completion e <= Int64.max
           /\ base_numerator prompt cached completion e * mult <= Int64.max)
     then Some (base_numerator prompt cached completion e * mult) else None).
Proof.
  intros Hc Hp Hk. unfold rateScaledNumerator, base_numerator.
  rewrite Int64.sub_exact by (i64; lia).
  set (pr := PromptCreditsPerMtok e). set (kr := CompletionCreditsPerMtok e).
  set (cr := EffectivePromptCacheHitCreditsPerMtok e).
  rewrite (checkedMul_spec (prompt - cached)). case_bool_decide as H1; simpl;
    [|rewrite bool_decide_eq_false_2 by nia; done].
  rewrite (checkedMul_spec cached). case_bool_decide as H2; simpl;
    [|rewrite bool_decide_eq_false_2 by nia; done].
  rewrite checkedAdd_spec by lia. case_bool_decide as H3; simpl;
    [|rewrite bool_decide_eq_false_2 by nia; done].
  rewrite (checkedMul_spec completion). case_bool_decide as H4; simpl;
    [|rewrite bool_decide_eq_false_2 by nia; done].
  rewrite checkedAdd_spec by lia. case_bool_decide as H5; simpl;
    [|rewrite bool_decide_eq_false_2 by nia; done].
  rewrite (checkedMul_spec (_ + _)). erewrite bool_decide_ext; [done|nia].
Qed.

(** What follows the token checks, for valid counts, against the reference. *)
Lemma ComputeCredits_tail prompt cached completion e mult bps row :
  invalidBillableTokenCount prompt || invalidBillableTokenCount cached
    || (prompt <? cached) || invalidBillableTokenCount completion = false ->
  UsageSource row <> UsageNullError ->
  let out :=
    match rateScaledNumerator prompt cached completion e mult with
    | None => nullUsage row
    | Some scaled =>
        let gross := RoundHalfEven scaled
                       (Int64.mul globalMultiplierDenom tokensPerMillion) in
        match checkedMul gross bps with
        | None => nullUsage (set_credits gross 0 0 row)
        | Some n =>
            let provider := RoundHalfEven n providerShareDenom in
            set_credits gross provider (Int64.sub gross provider) row
        end
    end in
  credits out = default (0, 0, 0) (reference_bill prompt cached completion e mult bps)
  /\ (UsageSource out = UsageNullError
      <-> reference_bill prompt cached completion e mult bps = None).
Proof.
  intros Hv Hu. unfold invalidBillableTokenCount, maxBillableTokens in Hv.
  rewrite rateScaledNumerator_spec by (i64; lia).
  unfold reference_bill, maxBillableTokens, providerShareDenom.
  change (Int64.mul globalMultiplierDenom tokensPerMillion) with 1000000000000.
  case_bool_decide as H1; cbv zeta;
    [|rewrite bool_decide_eq_false_2 by (intros ?; apply H1; tauto); done].
  pose proof (base_numerator_nonneg prompt cached completion e) as Hb0.
  set (scaled := base_numerator prompt cached completion e * mult) in *.
  assert (0 <= scaled) by (apply Z.mul_nonneg_nonneg; lia).
  rewrite RoundHalfEven_exact by (i64; lia).
  pose proof (half_even_div_bounds scaled 1000000000000 scaled ltac:(lia) ltac:(lia)) as Hg.
  set (gross := half_even_div scaled 1000000000000) in *.
  rewrite (checkedMul_spec gross). case_bool_decide as H7.
  - rewrite bool_decide_eq_true_2 by lia.
    pose proof (half_even_div_bounds (gross * bps) 10000 (gross * bps)
                  ltac:(lia) ltac:(nia)) as Hp.
    rewrite RoundHalfEven_exact by (i64; lia).
    unfold credits, set_credits; simpl. rewrite Int64.sub_exact by (i64; lia). done.
  - rewrite bool_decide_eq_false_2; [done|]. intros ?. apply H7. lia.
Qed.

Lemma ComputeCreditsWithCache_spec prompt cached completion estimated usage fault e
    mult bps :
  let row := ComputeCreditsWithCache prompt cached completion estimated usage fault
               e mult bps in
  let ref := reference_credits prompt cached completion estimated usage fault e
               mult bps in
  credits row = default (0, 0, 0) ref
  /\ (fault <> FaultBreakerQualifying -> UsageSource row = UsageNullError <-> ref = None).
Proof.
  unfold ComputeCreditsWithCache, reference_credits. simpl UsageSource. simpl FaultFlag.
  assert (String.eqb (if String.eqb fault "" then FaultNone else fault)
            FaultBreakerQualifying = String.eqb fault FaultBreakerQualifying) as ->.
  { destruct (String.eqb fault "") eqn:E; bool_hyps; by subst. }
  assert (String.eqb (if String.eqb usage "" then UsageProviderReported else usage)
            UsageNullError = String.eqb usage UsageNullError) as ->.
  { destruct (String.eqb usage "") eqn:E; bool_hyps; by subst. }
  assert (billableCompletion (if String.eqb usage "" then UsageProviderReported else usage)
            completion estimated = billableCompletion usage completion estimated) as ->.
  { destruct (String.eqb usage "") eqn:E; bool_hyps; by subst. }
  destruct (String.eqb fault FaultBreakerQualifying) eqn:Ef; bool_hyps; [by simpl|].
  destruct (String.eqb usage UsageNullError) eqn:Eu; simpl.
  { split; [done|]. intros _. apply String.eqb_eq in Eu as ->. by simpl. }
  destruct (billableCompletion usage completion estimated) as [[c clamp]|] eqn:Eb;
    [|by simpl].
  destruct (_ || _) eqn:Ev.
  - unfold invalidBillableTokenCount, maxBillableTokens in Ev.
    unfold reference_bill, maxBillableTokens. rewrite bool_decide_eq_false_2 by lia. done.
  - cbv zeta.
    match goal with |- context [nullUsage ?r] =>
      destruct (ComputeCredits_tail (default 0 prompt) (default 0 cached) c e mult bps
                  r Ev) as [H1 H2]; [|split; [exact H1|intros _; exact H2]]
    end.
    destruct (String.eqb _ UsageByteEstimated) eqn:Eby; bool_hyps.
    + simpl. rewrite Eby. done.
    + destruct clamp; done.
Qed.

Lemma reference_bill_Some prompt cached completion e mult bps g p o :
  reference_bill prompt cached completion e mult bps = Some (g, p, o) ->
  g = half_even_div (base_numerator prompt cached completion e * mult) 1000000000000
  /\ p = half_even_div (g * bps) 10000 /\ o = g - p
  /\ 0 <= g /\ 0 <= p /\ 0 <= mult /\ 0 <= CompletionCreditsPerMtok e
  /\ 0 <= bps.
Proof.
  unfold reference_bill. case_bool_decide as H; [|done]. intros [= <- <- <-].
  destruct H as ((? & ? & ?) & (? & ? & ? & ? & ?) & ? & ? & ?).
  assert (0 <= base_numerator prompt cached completion e * mult).
  { apply Z.mul_nonneg_nonneg; [apply base_numerator_nonneg|]; lia. }
  set (n := base_numerator prompt cached completion e * mult) in *.
  pose proof (half_even_div_bounds n 1000000000000 n ltac:(lia) ltac:(lia)).
  set (gr := half_even_div n 1000000000000) in *.
  pose proof (half_even_div_bounds (gr * bps) 10000 (gr * bps) ltac:(lia) ltac:(nia)).
  lia.
Qed.

Lemma reference_credits_Some prompt cached completion estimated usage fault e mult bps t :
  reference_credits prompt cached completion estimated usage fault e mult bps = Some t ->
  exists c clamp, billableCompletion usage completion estimated = Some (c, clamp)
    /\ reference_bill (default 0 prompt) (default 0 cached) c e mult bps = Some t.
Proof.
  unfold reference_credits. destruct (_ || _); [done|].
  destruct (billableCompletion _ _ _) as [[c clamp]|]; [|done]. eauto.
Qed.

(** The billed triple of a row: zero, or a reference bill. *)
Lemma ComputeCreditsWithCache_credits prompt cached completion estimated usage fault e
    mult bps :
  let row := ComputeCreditsWithCache prompt cached completion estimated usage fault
               e mult bps in
  credits row = (0, 0, 0)
  \/ exists c clamp, billableCompletion usage completion estimated = Some (c, clamp)
     /\ reference_bill (default 0 prompt) (default 0 cached) c e mult bps
        = Some (credits row).
Proof.
  cbv zeta.
  destruct (ComputeCreditsWithCache_spec prompt cached completion estimated usage fault e
              mult bps) as [-> _].
  destruct (reference_credits _ _ _ _ _ _ _ _ _) as [t|] eqn:E; [right|by left].
  by apply reference_credits_Some in E.
Qed.

(** The split of a computed row adds up and stays within the gross. *)
Lemma ComputeCreditsWithCache_split prompt cached completion estimated usage fault e
    mult bps :
  bps <= 10000 ->
  let row := ComputeCreditsWithCache prompt cached completion estimated usage fault
               e mult bps in
  GrossCredits row = ProviderCredits row + OperatorCredits row
  /\ 0 <= ProviderCredits row <= GrossCredits row
  /\ 0 <= OperatorCredits row.
Proof.
  intros Hb row.
  destruct (ComputeCreditsWithCache_credits prompt cached completion estimated usage
              fault e mult bps) as [H|(c & clamp & _ & H)]; fold row in H.
  - injection H as -> -> ->. lia.
  - apply reference_bill_Some in H as (_ & Hp & Ho & Hg & Hp0 & _ & _ & ?).
    pose proof (half_even_div_bounds (GrossCredits row * bps) 10000 (GrossCredits row)
                  ltac:(lia) ltac:(nia)). lia.
Qed.

Lemma ComputeCreditsWithCache_share prompt cached completion estimated usage fault e
    mult bps :
  ProviderShareBps (ComputeCreditsWithCache prompt cached completion estimated usage fault
                      e mult bps) = bps.
Proof. unfold ComputeCreditsWithCache. by repeat case_match. Qed.

(** ** Theorems *)

(** C1. The overflow-checked 64-bit credit computation is the exact formula over
    unbounded integers: its gross, provider and operator credits are those of the
    reference bill (rate per million tokens times multiplier per million, rounded
    half to even, then the provider share in basis points rounded half to even) when
    the reference is defined, and all zero otherwise; and, outside the breaker path,
    the row is flagged [null_error] exactly when the reference is undefined. *)
Theorem compute_credits_exact prompt cached completion estimated usage fault e mult bps :
  let row := ComputeCreditsWithCache prompt cached completion estimated usage fault
               e mult bps in
  let ref := reference_credits prompt cached completion estimated usage fault e
               mult bps in
  (GrossCredits row, ProviderCredits row, OperatorCredits row) = default (0, 0, 0) ref
  /\ (fault <> FaultBreakerQualifying ->
      UsageSource row = UsageNullError <-> ref = None).
Proof. apply ComputeCreditsWithCache_spec. Qed.

(** For every input the gross credits are the sum of the provider and operator
    credits, nothing is negative when the provider share is at most 100%, and the
    provider never receives more than the gross amount. *)
Theorem credit_split_conserved prompt cached completion estimated usage fault e mult bps :
  bps <= 10000 ->
  let row := ComputeCreditsWithCache prompt cached completion estimated usage fault
               e mult bps in
  GrossCredits row = ProviderCredits row + OperatorCredits row
  /\ 0 <= ProviderCredits row <= GrossCredits row
  /\ 0 <= OperatorCredits row.
Proof. apply ComputeCreditsWithCache_split. Qed.

Definition sample_rate : RateCardEntry := mkRateCardEntry 500000 100000 1500000 true.

Lemma credit_split_conserved_witness :
  let row := ComputeCreditsWithCache (Some 1200) (Some 200) (Some 333) (Some 900)
               "" "" sample_rate 1250000 8500 in
  GrossCredits row = ProviderCredits row + OperatorCredits row
  /\ 0 <= ProviderCredits row <= GrossCredits row
  /\ 0 <= OperatorCredits row.
Proof.
  apply (credit_split_conserved (Some 1200) (Some 200) (Some 333) (Some 900)
           "" "" sample_rate 1250000 8500). lia.
Defined.

(** [RoundHalfEven] on 64-bit integers returns the nearest integer to the
    quotient, the even one on a tie, for every numerator and every positive
    denominator up to 2^62; no intermediate operation overflows. *)
Theorem round_half_even_correct n d q :
  Int64.in_range n -> 0 < d <= 4611686018427387904 ->
  RoundHalfEven n d = q <-> is_half_even n d q.
Proof.
  intros Hn Hd. rewrite RoundHalfEven_exact by done.
  pose proof (half_even_div_spec n d ltac:(lia)).
  split; [by intros <-|]. intros. by apply (is_half_even_unique n d); [lia|..].
Qed.

Lemma round_half_even_correct_witness :
  RoundHalfEven (-25) 10 = -2 /\ is_half_even (-25) 10 (-2).
Proof.
  split; [reflexivity|].
  apply (round_half_even_correct (-25) 10 (-2)); [split; vm_compute; congruence|lia|reflexivity].
Defined.

(** The completion tokens that are billed never exceed what the provider
    reported nor what the coordinator estimated from the delivered bytes, whichever
    of the two are present. *)
Theorem billable_completion_bounded usage completion estimated n clamp :
  billableCompletion usage completion estimated = Some (n, clamp) ->
  (forall r, completion = Some r -> n <= Z.max 0 r)
  /\ (forall est, estimated = Some est -> n <= est).
Proof.
  unfold billableCompletion. intros H.
  destruct completion, estimated; split; intros; split_ifs; simplify_eq; lia.
Qed.

Lemma billable_completion_bounded_witness :
  (forall r, Some 900 = Some r -> 700 <= Z.max 0 r)
  /\ (forall est, Some 700 = Some est -> 700 <= est).
Proof.
  apply (billable_completion_bounded UsageProviderReported (Some 900) (Some 700) 700 true).
  reflexivity.
Defined.

(** Billing is monotone in the reported completion tokens: with the same rates,
    two attempts that are both billed as provider-reported cost no less when more
    tokens were reported. *)
Theorem gross_monotone_in_completion prompt cached k1 k2 e mult bps :
  let row k := ComputeCreditsWithCache prompt cached (Some k) None
                 UsageProviderReported FaultNone e mult bps in
  k1 <= k2 ->
  UsageSource (row k1) <> UsageNullError -> UsageSource (row k2) <> UsageNullError ->
  GrossCredits (row k1) <= GrossCredits (row k2).
Proof.
  intros row Hk N1 N2.
  assert (forall k, UsageSource (row k) <> UsageNullError ->
    reference_bill (default 0 prompt) (default 0 cached) k e mult bps
      = Some (credits (row k))) as Href.
  { intros k N.
    destruct (ComputeCreditsWithCache_spec prompt cached (Some k) None
                UsageProviderReported FaultNone e mult bps) as [Hc Hn].
    fold (row k) in Hc, Hn. rewrite Hn in N by done.
    destruct (reference_credits _ _ _ _ _ _ _ _ _) as [t|] eqn:E; [|done].
    rewrite Hc. simpl. apply reference_credits_Some in E as (c & clamp & Hb & <-).
    unfold billableCompletion in Hb. simpl in Hb.
    destruct (k <? 0); [done|]. by simplify_eq. }
  apply Href in N1, N2.
  apply reference_bill_Some in N1 as (-> & _ & _ & _ & _ & Hm & Hr & _).
  apply reference_bill_Some in N2 as (-> & _).
  apply half_even_div_mono; [lia|]. unfold base_numerator.
  apply Z.mul_le_mono_nonneg_r; [done|].
  apply Z.add_le_mono_l, Z.mul_le_mono_nonneg_r; done.
Qed.

Lemma gross_monotone_in_completion_witness :
  GrossCredits (ComputeCreditsWithCache (Some 100) None (Some 5000) None
                  UsageProviderReported FaultNone sample_rate 1000000 8500) = 7550
  /\ 7550 <= GrossCredits (ComputeCreditsWithCache (Some 100) None (Some 9000) None
                  UsageProviderReported FaultNone sample_rate 1000000 8500).
Proof.
  split; [reflexivity|].
  apply (gross_monotone_in_completion (Some 100) None 5000 9000 sample_rate 1000000 8500);
    [lia|vm_compute; congruence|vm_compute; congruence].
Defined.
