(* ===== verification/Ledger.v ===== *)
(** * The billing ledger tables (phase4-coordinator/internal/billing/store.go,
      hotpath.go)

    The SQLite tables the settlement pipeline reads and writes, as lists of
    rows in insertion order, with the column constraints, unique keys and
    triggers of [store.go]; the row-level statements of the hot path
    ([insertRequestCreditTx], [insertOperatorCreditTx]) and the input clean-up
    that precedes them; and the view of payable credits.

    A statement that SQLite would refuse (a CHECK, a UNIQUE key, a trigger that
    raises ABORT) is [None]; the enclosing transaction then rolls back.
    Timestamps are the fixed-width UTC texts of [sqliteTimeText], compared
    bytewise as SQLite compares TEXT. *)

From S2P Require Import Prelude Formula.

(** ** Tables *)

(** [ledger_request_credits] *)
Record CreditRow := mkCreditRow {
  lrc_id : Z;
  lrc_request_id : string;
  lrc_attempt_n : Z;
  lrc_provider_id : string;
  lrc_provider_assigned_id : option string;
  lrc_ts_utc : string;
  lrc_model : string;
  lrc_status : Z;
  lrc_stream : bool;
  lrc_prompt_tokens : option Z;
  lrc_charged_prompt_tokens : option Z;
  lrc_provider_reported_prompt_tokens : option Z;
  lrc_cached_prompt_tokens : option Z;
  lrc_completion_tokens : option Z;
  lrc_estimated_completion_tokens : option Z;
  lrc_usage_source : string;
  lrc_prompt_rate_per_mtok : Z;
  lrc_completion_rate_per_mtok : Z;
  lrc_global_multiplier_ppm : Z;
  lrc_gross_credits : Z;
  lrc_provider_share_bps : Z;
  lrc_provider_credits : Z;
  lrc_fault_flag : string;
  lrc_attestation_class : option string;
  lrc_settled : bool;
  lrc_settlement_id : option Z;
  lrc_quarantined : bool;
  lrc_quarantine_reason : option string;
  lrc_settlement_account_scope_hash : option string;
  lrc_settlement_policy_mode : string;
  lrc_settlement_policy_version : option string;
  lrc_recovery_source : string;
  lrc_created_at_utc : string;
  lrc_updated_at_utc : option string;
}.

(** The row with new settlement and quarantine columns; every other column is
    kept. *)
Definition lrc_with_state (settled : bool) (sid : option Z) (quarantined : bool)
    (reason : option string) (updated : string) (r : CreditRow) : CreditRow :=
  mkCreditRow (lrc_id r) (lrc_request_id r) (lrc_attempt_n r) (lrc_provider_id r)
    (lrc_provider_assigned_id r) (lrc_ts_utc r) (lrc_model r) (lrc_status r)
    (lrc_stream r) (lrc_prompt_tokens r) (lrc_charged_prompt_tokens r)
    (lrc_provider_reported_prompt_tokens r) (lrc_cached_prompt_tokens r)
    (lrc_completion_tokens r) (lrc_estimated_completion_tokens r)
    (lrc_usage_source r) (lrc_prompt_rate_per_mtok r)
    (lrc_completion_rate_per_mtok r) (lrc_global_multiplier_ppm r)
    (lrc_gross_credits r) (lrc_provider_share_bps r) (lrc_provider_credits r)
    (lrc_fault_flag r) (lrc_attestation_class r) settled sid quarantined reason
    (lrc_settlement_account_scope_hash r) (lrc_settlement_policy_mode r)
    (lrc_settlement_policy_version r) (lrc_recovery_source r)
    (lrc_created_at_utc r) (Some updated).

(** [ledger_operator_credits] *)
Record OperatorRow := mkOperatorRow {
  loc_id : Z;
  loc_request_credit_id : Z;
  loc_request_id : string;
  loc_attempt_n : Z;
  loc_provider_id : string;
  loc_ts_utc : string;
  loc_gross_credits : Z;
  loc_operator_share_bps : Z;
  loc_operator_credits : Z;
  loc_fault_flag : string;
  loc_created_at_utc : string;
}.

(** [ledger_payout_ready]; its [status] column is constrained to three values. *)
Inductive PayoutStatus := ready | consumed | voided.

#[global] Instance PayoutStatus_eq_dec : EqDecision PayoutStatus.
Proof. solve_decision. Defined.

Record PayoutRow := mkPayoutRow {
  lpr_id : Z;
  lpr_provider_id : string;
  lpr_window_start_utc : string;
  lpr_window_end_utc : string;
  lpr_cadence_days : Z;
  lpr_source_credit_count : Z;
  lpr_gross_credits : Z;
  lpr_provider_credits : Z;
  lpr_operator_credits : Z;
  lpr_min_payout_credits : Z;
  lpr_payout_currency : option string;
  lpr_payout_external_id : option string;
  lpr_status : PayoutStatus;
  lpr_idempotency_key : string;
  lpr_created_at_utc : string;
}.

(** The row with new totals. *)
Definition lpr_with_totals (n g p o : Z) (r : PayoutRow) : PayoutRow :=
  mkPayoutRow (lpr_id r) (lpr_provider_id r) (lpr_window_start_utc r)
    (lpr_window_end_utc r) (lpr_cadence_days r) n g p o (lpr_min_payout_credits r)
    (lpr_payout_currency r) (lpr_payout_external_id r) (lpr_status r)
    (lpr_idempotency_key r) (lpr_created_at_utc r).

(** The row with a new status, external id and currency. *)
Definition lpr_with_status (s : PayoutStatus) (ext cur : option string)
    (r : PayoutRow) : PayoutRow :=
  mkPayoutRow (lpr_id r) (lpr_provider_id r) (lpr_window_start_utc r)
    (lpr_window_end_utc r) (lpr_cadence_days r) (lpr_source_credit_count r)
    (lpr_gross_credits r) (lpr_provider_credits r) (lpr_operator_credits r)
    (lpr_min_payout_credits r) cur ext s (lpr_idempotency_key r)
    (lpr_created_at_utc r).

(** [ledger_quarantine_resolutions] *)
Record ResolutionRow := mkResolutionRow {
  lqr_id : Z;
  lqr_request_credit_id : Z;
  lqr_resolution_kind : string;
  lqr_operator_id : string;
  lqr_resolution_reason : string;
  lqr_created_at_utc : string;
  lqr_force_credit_matures_at_utc : option string;
  lqr_correction_deadline_at_utc : string;
}.

(** The columns of [settlement_route_snapshots], [settlement_receipt_verdicts]
    and [settlement_attempt_outputs] the settlement queries join on. *)
Record RouteSnapshotRow := mkRouteSnapshotRow {
  srs_account_scope : string;
  srs_request_id : string;
  srs_attempt_n : Z;
  srs_provider_id : string;
  srs_route_snapshot_digest : string;
  srs_route_snapshot_mode : string;
  srs_route_snapshot_policy_version : string;
}.

Record VerdictRow := mkVerdictRow {
  srv_account_scope_hash : string;
  srv_request_id : string;
  srv_attempt_n : Z;
  srv_provider_id : string;
  srv_route_snapshot_digest : string;
  srv_route_snapshot_mode : string;
  srv_route_snapshot_policy_version : string;
  srv_receipt_result : string;
  srv_closed : bool;
  srv_settlement_outcome : string;
  srv_reason : string;
}.

Record AttemptOutputRow := mkAttemptOutputRow {
  sao_account_scope : string;
  sao_request_id : string;
  sao_attempt_n : Z;
  sao_provider_id : string;
  sao_usage_canonical_json : string;
  sao_overlapping_or_duplicate : bool;
}.

(** [ledger_provider_identity_snapshots] *)
Record IdentityRow := mkIdentityRow {
  lpis_id : Z;
  lpis_request_id : string;
  lpis_attempt_n : Z;
  lpis_provider_assigned_id : string;
  lpis_provider_id : string;
  lpis_config_snapshot_id : option Z;
  lpis_provider_reported_prompt_tokens : option Z;
  lpis_created_at_utc : string;
}.

(** The columns of [ledger_config_snapshots] a snapshot is read back from. *)
Record ConfigSnapshotRow := mkConfigSnapshotRow {
  lcs_id : Z;
  lcs_provider_share_bps : Z;
  lcs_global_multiplier_ppm : Z;
  lcs_rate_card_json : string;
}.

(** [ledger_reconciliation_runs], as the claim audit writes it. *)
Record RunRow := mkRunRow {
  run_type : string;
  run_from_utc : string;
  run_to_utc : string;
  run_buyer_equivalent_credits : Z;
  run_provider_gross_credits : Z;
  run_started_at_utc : string;
  run_status : string;
  run_has_error : bool;
}.

(** The database: the tables and the AUTOINCREMENT counters of the tables rows
    are inserted into here. *)
Record Ledger := mkLedger {
  lrc : list CreditRow;
  loc : list OperatorRow;
  lpr : list PayoutRow;
  lqr : list ResolutionRow;
  srs : list RouteSnapshotRow;
  srv : list VerdictRow;
  sao : list AttemptOutputRow;
  runs : list RunRow;
  next_lrc : Z;
  next_loc : Z;
  next_lpr : Z;
  lpis : list IdentityRow;
  next_lpis : Z;
  lcs : list ConfigSnapshotRow;
}.

Definition with_lrc (rows : list CreditRow) (l : Ledger) : Ledger :=
  mkLedger rows (loc l) (lpr l) (lqr l) (srs l) (srv l) (sao l) (runs l)
    (next_lrc l) (next_loc l) (next_lpr l) (lpis l) (next_lpis l) (lcs l).

Definition with_lpr (rows : list PayoutRow) (next : Z) (l : Ledger) : Ledger :=
  mkLedger (lrc l) (loc l) rows (lqr l) (srs l) (srv l) (sao l) (runs l)
    (next_lrc l) (next_loc l) next (lpis l) (next_lpis l) (lcs l).

Definition with_lqr (rows : list ResolutionRow) (l : Ledger) : Ledger :=
  mkLedger (lrc l) (loc l) (lpr l) rows (srs l) (srv l) (sao l) (runs l)
    (next_lrc l) (next_loc l) (next_lpr l) (lpis l) (next_lpis l) (lcs l).

Definition with_runs (rows : list RunRow) (l : Ledger) : Ledger :=
  mkLedger (lrc l) (loc l) (lpr l) (lqr l) (srs l) (srv l) (sao l) rows
    (next_lrc l) (next_loc l) (next_lpr l) (lpis l) (next_lpis l) (lcs l).

Definition with_loc (rows : list OperatorRow) (l : Ledger) : Ledger :=
  mkLedger (lrc l) rows (lpr l) (lqr l) (srs l) (srv l) (sao l) (runs l)
    (next_lrc l) (next_loc l) (next_lpr l) (lpis l) (next_lpis l) (lcs l).

Definition with_srv (rows : list VerdictRow) (l : Ledger) : Ledger :=
  mkLedger (lrc l) (loc l) (lpr l) (lqr l) (srs l) rows (sao l) (runs l)
    (next_lrc l) (next_loc l) (next_lpr l) (lpis l) (next_lpis l) (lcs l).

Definition with_lpis (rows : list IdentityRow) (next : Z) (l : Ledger) : Ledger :=
  mkLedger (lrc l) (loc l) (lpr l) (lqr l) (srs l) (srv l) (sao l) (runs l)
    (next_lrc l) (next_loc l) (next_lpr l) rows next (lcs l).

(** [UPDATE t SET ... WHERE p]. *)
Definition update_where {A} (p : A -> bool) (f : A -> A) (rows : list A) : list A :=
  map (fun r => if p r then f r else r) rows.

(** [UPDATE] of the columns [settled] and [settlement_id] under the trigger
    [trg_lrc_settled_link_immutable]: the statement aborts when it would change
    either column of a settled row. *)
Definition link_change_allowed (old new : CreditRow) : bool :=
  negb (lrc_settled old)
  || (Bool.eqb (lrc_settled old) (lrc_settled new)
      && (default (-1) (lrc_settlement_id old) =? default (-1) (lrc_settlement_id new))).

Definition update_links (p : CreditRow -> bool) (f : CreditRow -> CreditRow)
    (rows : list CreditRow) : option (list CreditRow) :=
  if forallb (fun r => negb (p r) || link_change_allowed r (f r)) rows
  then Some (update_where p f rows) else None.

(** [UPDATE] of [ledger_payout_ready.status] under the trigger
    [trg_lpr_terminal_status_guard]: a consumed or voided row never changes
    status. *)
Definition update_status (p : PayoutRow -> bool) (f : PayoutRow -> PayoutRow)
    (rows : list PayoutRow) : option (list PayoutRow) :=
  if forallb (fun r => negb (p r) || bool_decide (lpr_status r = ready)
                       || bool_decide (lpr_status (f r) = lpr_status r)) rows
  then Some (update_where p f rows) else None.

(** ** Hot path input *)

(** [HotPathInput], without the logging callback. *)
Record HotPathInput := mkHotPathInput {
  hp_RequestID : string;
  hp_AttemptN : Z;
  hp_ProviderAssignedID : string;
  hp_ProviderID : string;
  hp_Model : string;
  hp_Status : Z;
  hp_Stream : bool;
  hp_TSUtc : string;
  hp_PromptTokens : option Z;
  hp_PromptTokenUpperBound : option Z;
  hp_ProviderReportedPromptTokens : option Z;
  hp_CachedPromptTokens : option Z;
  hp_CompletionTokens : option Z;
  hp_EstimatedCompTokens : option Z;
  hp_ErrorCode : string;
  hp_FaultFlag : string;
  hp_StickyResult : string;
  hp_StickyMissReason : string;
  hp_ConfigSnapshotID : Z;
  hp_RateEntry : RateCardEntry;
  hp_MultiplierPPM : Z;
  hp_ProviderShareBps : Z;
  hp_SettlementAccountScopeHash : string;
  hp_SettlementPolicyMode : string;
  hp_SettlementPolicyVersion : string;
}.

Definition hp_with_tokens (prompt reported cached : option Z) (i : HotPathInput)
    : HotPathInput :=
  mkHotPathInput (hp_RequestID i) (hp_AttemptN i) (hp_ProviderAssignedID i)
    (hp_ProviderID i) (hp_Model i) (hp_Status i) (hp_Stream i) (hp_TSUtc i) prompt
    (hp_PromptTokenUpperBound i) reported cached (hp_CompletionTokens i)
    (hp_EstimatedCompTokens i) (hp_ErrorCode i) (hp_FaultFlag i) (hp_StickyResult i)
    (hp_StickyMissReason i) (hp_ConfigSnapshotID i) (hp_RateEntry i)
    (hp_MultiplierPPM i) (hp_ProviderShareBps i) (hp_SettlementAccountScopeHash i)
    (hp_SettlementPolicyMode i) (hp_SettlementPolicyVersion i).

Definition nullString (v : string) : option string :=
  if String.eqb v "" then None else Some v.

Definition settlementPolicyModeOrLegacy (mode : string) : string :=
  if String.eqb mode "observe" || String.eqb mode "enforce" then mode else "legacy".

(** The pointer update of the input and the returned quarantine reason. *)
Definition normalizeCachedPromptTokens (i : HotPathInput) : HotPathInput * string :=
  let clear := hp_with_tokens (hp_PromptTokens i)
                 (hp_ProviderReportedPromptTokens i) None i in
  match hp_CachedPromptTokens i with
  | None => (i, "")
  | Some cached =>
      if (cached <? 0)
         || match hp_PromptTokens i with None => true | Some p => p <? cached end
      then (clear, "invalid_cached_prompt_tokens")
      else if 0 <? hp_AttemptN i then (clear, "")
      else if negb (String.eqb (hp_StickyResult i) "hit") then
        if 0 <? cached then (clear, "ambiguous_cache") else (clear, "")
      else (i, "")
  end.

Definition boundProviderReportedPromptTokens (i : HotPathInput) : HotPathInput :=
  let reported := hp_PromptTokens i in
  match hp_PromptTokens i, hp_PromptTokenUpperBound i with
  | Some prompt, Some bound =>
      let bound := if bound <? 0 then 0 else bound in
      if bound <? prompt
      then hp_with_tokens (Some bound) reported (hp_CachedPromptTokens i) i
      else hp_with_tokens (hp_PromptTokens i) reported (hp_CachedPromptTokens i) i
  | _, _ => hp_with_tokens (hp_PromptTokens i) reported (hp_CachedPromptTokens i) i
  end.

(** ** Row constraints and inserts *)

Definition null_or_nonneg (v : option Z) : bool :=
  match v with None => true | Some z => 0 <=? z end.

Definition is_hex64 (s : string) : bool :=
  let cs := GoStr.chars s in
  (length cs =? 64)%nat
  && forallb (fun c => let n := N_of_ascii c in
        ((48 <=? n) && (n <=? 57) || (97 <=? n) && (n <=? 102))%N) cs.

(** The CHECK constraints of [ledger_request_credits] and the trigger
    [trg_lrc_settlement_policy_insert_guard]. A comparison with NULL does not
    fail a CHECK. *)
Definition credit_row_checks (r : CreditRow) : bool :=
  (0 <=? lrc_attempt_n r)
  && null_or_nonneg (lrc_prompt_tokens r)
  && null_or_nonneg (lrc_charged_prompt_tokens r)
  && null_or_nonneg (lrc_provider_reported_prompt_tokens r)
  && match lrc_cached_prompt_tokens r with
     | None => true
     | Some c => (0 <=? c) && match lrc_prompt_tokens r with
                              | None => true | Some p => c <=? p end
     end
  && null_or_nonneg (lrc_completion_tokens r)
  && null_or_nonneg (lrc_estimated_completion_tokens r)
  && existsb (String.eqb (lrc_usage_source r))
       [UsageProviderReported; UsageByteEstimated; UsageNullError]
  && (0 <=? lrc_prompt_rate_per_mtok r)
  && (0 <=? lrc_completion_rate_per_mtok r)
  && (0 <=? lrc_global_multiplier_ppm r)
  && (0 <=? lrc_gross_credits r)
  && (0 <=? lrc_provider_share_bps r) && (lrc_provider_share_bps r <=? 10000)
  && (0 <=? lrc_provider_credits r)
  && existsb (String.eqb (lrc_fault_flag r))
       [FaultNone; FaultBreakerQualifying; FaultNullUsageError]
  && existsb (String.eqb (lrc_settlement_policy_mode r)) ["legacy"; "observe"; "enforce"]
  && match lrc_settlement_account_scope_hash r with None => true | Some h => is_hex64 h end
  && existsb (String.eqb (lrc_recovery_source r))
       ["hot_path"; "startup_scan"; "nightly_reconcile"]
  && (negb (String.eqb (lrc_usage_source r) UsageNullError) || (lrc_gross_credits r =? 0)).

Definition same_attempt (a b : CreditRow) : bool :=
  String.eqb (lrc_request_id a) (lrc_request_id b)
  && (lrc_attempt_n a =? lrc_attempt_n b)
  && String.eqb (lrc_provider_id a) (lrc_provider_id b).

Definition hot_path_row (id : Z) (i : HotPathInput) (result : BilledRow)
    (source now : string) (quarantined : bool) (quarantineReason : string) : CreditRow :=
  mkCreditRow id (hp_RequestID i) (hp_AttemptN i) (hp_ProviderID i)
    (nullString (hp_ProviderAssignedID i)) (hp_TSUtc i) (hp_Model i) (hp_Status i)
    (hp_Stream i) (PromptTokens result) (PromptTokens result)
    (hp_ProviderReportedPromptTokens i) (CachedPromptTokens result)
    (CompletionTokens result) (EstimatedCompTokens result) (UsageSource result)
    (PromptRatePerMtok result) (CompletionRatePerMtok result)
    (GlobalMultiplierPPM result) (GrossCredits result) (ProviderShareBps result)
    (ProviderCredits result) (FaultFlag result) None false None quarantined
    (nullString quarantineReason) (nullString (hp_SettlementAccountScopeHash i))
    (settlementPolicyModeOrLegacy (hp_SettlementPolicyMode i))
    (nullString (hp_SettlementPolicyVersion i)) source now None.

(** The new row's id, or [None] when a constraint refuses the insert. *)
Definition insertRequestCreditTx (i : HotPathInput) (result : BilledRow)
    (source now : string) (quarantined : bool) (quarantineReason : string)
    (l : Ledger) : option (Z * Ledger) :=
  let row := hot_path_row (next_lrc l) i result source now quarantined
               quarantineReason in
  if credit_row_checks row && negb (existsb (same_attempt row) (lrc l))
  then Some (next_lrc l,
             mkLedger (lrc l ++ [row]) (loc l) (lpr l) (lqr l) (srs l) (srv l)
               (sao l) (runs l) (next_lrc l + 1) (next_loc l) (next_lpr l)
               (lpis l) (next_lpis l) (lcs l))
  else None.

Definition insertOperatorCreditTx (requestCreditID : Z) (i : HotPathInput)
    (result : BilledRow) (now : string) (l : Ledger) : option Ledger :=
  let row := mkOperatorRow (next_loc l) requestCreditID (hp_RequestID i)
    (hp_AttemptN i) (hp_ProviderID i) (hp_TSUtc i) (GrossCredits result)
    (Int64.sub 10000 (ProviderShareBps result)) (OperatorCredits result)
    (FaultFlag result) now in
  if (0 <=? loc_attempt_n row) && (0 <=? loc_gross_credits row)
     && (0 <=? loc_operator_share_bps row) && (loc_operator_share_bps row <=? 10000)
     && (0 <=? loc_operator_credits row)
     && existsb (String.eqb (loc_fault_flag row))
          [FaultNone; FaultBreakerQualifying; FaultNullUsageError]
     && negb (existsb (fun r => loc_request_credit_id r =? requestCreditID) (loc l))
  then Some (mkLedger (lrc l) (loc l ++ [row]) (lpr l) (lqr l) (srs l) (srv l)
               (sao l) (runs l) (next_lrc l) (next_loc l + 1) (next_lpr l)
               (lpis l) (next_lpis l) (lcs l))
  else None.

(** The credited path of the hot path: compute, insert the provider row, insert
    the operator row. *)
Definition creditAttemptTx (i : HotPathInput) (now : string) (l : Ledger)
    : option Ledger :=
  let result := ComputeCreditsWithCache (hp_PromptTokens i) (hp_CachedPromptTokens i)
    (hp_CompletionTokens i) (hp_EstimatedCompTokens i)
    (usageFor (hp_ErrorCode i) (hp_EstimatedCompTokens i)) (hp_FaultFlag i)
    (hp_RateEntry i) (hp_MultiplierPPM i) (hp_ProviderShareBps i) in
  '(requestCreditID, l) ← insertRequestCreditTx i result "hot_path" now false "" l;
  insertOperatorCreditTx requestCreditID i result now l.

(** ** Settlement eligibility *)

(** The latest resolution of a credit: [ORDER BY created_at_utc DESC, id DESC
    LIMIT 1]. *)
Definition later_resolution (a b : ResolutionRow) : bool :=
  match String.compare (lqr_created_at_utc a) (lqr_created_at_utc b) with
  | Gt => true
  | Eq => lqr_id b <? lqr_id a
  | Lt => false
  end.

Definition latest_resolution (rows : list ResolutionRow) (credit_id : Z)
    : option ResolutionRow :=
  fold_left (fun best r =>
      if lqr_request_credit_id r =? credit_id then
        match best with
        | None => Some r
        | Some b => if later_resolution r b then Some r else best
        end
      else best) rows None.

(** [EXISTS] the latest resolution, a force credit whose maturity satisfies [p]. *)
Definition force_credit_latest (rows : list ResolutionRow) (credit_id : Z)
    (p : string -> bool) : bool :=
  existsb (fun r =>
      (lqr_request_credit_id r =? credit_id)
      && match latest_resolution rows credit_id with
         | Some latest => lqr_id r =? lqr_id latest
         | None => false
         end
      && String.eqb (lqr_resolution_kind r) "force_credit"
      && match lqr_force_credit_matures_at_utc r with
         | Some m => p m
         | None => false
         end) rows.

(** The three-way join that proves an enforced attempt verified. *)
Definition verified_attempt (l : Ledger) (r : CreditRow) : bool :=
  match lrc_settlement_account_scope_hash r, lrc_settlement_policy_version r with
  | Some scope_hash, Some version =>
      existsb (fun s =>
        existsb (fun v =>
          existsb (fun o =>
            String.eqb (srv_account_scope_hash v) scope_hash
            && String.eqb (srv_request_id v) (srs_request_id s)
            && (srv_attempt_n v =? srs_attempt_n s)
            && String.eqb (srv_provider_id v) (srs_provider_id s)
            && String.eqb (srv_route_snapshot_digest v) (srs_route_snapshot_digest s)
            && String.eqb (sao_account_scope o) (srs_account_scope s)
            && String.eqb (sao_request_id o) (srs_request_id s)
            && (sao_attempt_n o =? srs_attempt_n s)
            && String.eqb (sao_provider_id o) (srs_provider_id s)
            && String.eqb (srs_request_id s) (lrc_request_id r)
            && (srs_attempt_n s =? lrc_attempt_n r)
            && String.eqb (srs_provider_id s) (lrc_provider_id r)
            && String.eqb (srs_route_snapshot_mode s) "enforce"
            && String.eqb (srs_route_snapshot_policy_version s) version
            && String.eqb (srv_route_snapshot_mode v) "enforce"
            && String.eqb (srv_route_snapshot_policy_version v) version
            && srv_closed v
            && String.eqb (srv_settlement_outcome v) "verified"
            && negb (sao_overlapping_or_duplicate o)) (sao l)) (srv l)) (srs l)
  | _, _ => false
  end.

Definition policy_allows (l : Ledger) (r : CreditRow) : bool :=
  String.eqb (lrc_settlement_policy_mode r) "legacy"
  || String.eqb (lrc_settlement_policy_mode r) "observe"
  || (String.eqb (lrc_settlement_policy_mode r) "enforce" && verified_attempt l r).

Definition quarantine_allows (l : Ledger) (now : string) (r : CreditRow) : bool :=
  negb (lrc_quarantined r)
  || force_credit_latest (lqr l) (lrc_id r) (fun m => String.leb m now).

(** The view [spec022_payable_request_credits] at clock text [now]. *)
Definition payable (l : Ledger) (now : string) (r : CreditRow) : bool :=
  quarantine_allows l now r && policy_allows l r.

(** ** Updates of rows *)

Lemma elem_of_update_where {A} (p : A -> bool) f (rows : list A) x :
  x ∈ update_where p f rows <->
  exists r, r ∈ rows /\ x = (if p r then f r else r).
Proof.
  unfold update_where. rewrite list_elem_of_In, in_map_iff.
  split; intros (r & H1 & H2); exists r; rewrite list_elem_of_In in *; auto.
Qed.

Lemma map_update_where {A B} (k : A -> B) (p : A -> bool) f (rows : list A) :
  (forall r, p r = true -> k (f r) = k r) ->
  map k (update_where p f rows) = map k rows.
Proof.
  intros H. unfold update_where. rewrite map_map. apply map_ext.
  intros r. destruct (p r) eqn:E; auto.
Qed.

Lemma sumZ_update_where {A} (f : A -> Z) p g (rows : list A) :
  sumZ f (update_where p g rows) = sumZ (fun r => f (if p r then g r else r)) rows.
Proof. unfold update_where. by rewrite sumZ_map. Qed.

Lemma Forall2_update_where {A} (R : A -> A -> Prop) (p : A -> bool) (f : A -> A) rows :
  (forall r, r ∈ rows -> R r (if p r then f r else r)) ->
  Forall2 R rows (update_where p f rows).
Proof.
  induction rows as [|r rows IH]; simpl; intros H; constructor.
  - apply H. set_solver.
  - apply IH. set_solver.
Qed.

Lemma lookup_update_where {A} (p : A -> bool) f (rows : list A) i :
  update_where p f rows !! i = (fun r => if p r then f r else r) <$> rows !! i.
Proof. apply list_lookup_fmap. Qed.
