(* ===== verification/Quarantine.v ===== *)
(** * Operator resolutions of quarantined credits

    Models [phase4-coordinator/internal/billing/quarantine.go] and the routing of its
    endpoints in [endpoints.go]: an operator force-credits or force-voids a
    quarantined credit, and may correct the decision once, to the opposite kind,
    while the hold of the first one is open. The whole request is modelled: the path,
    the JSON body byte by byte, the sanitiser of the fields, the transaction and the
    answer. The rows are those the payable view and the settlement run read. *)

From S2P Require Import Prelude Jcs JsonText GoTime Ledger.
#[local] Open Scope Z_scope.

(** ** Paths *)

Definition quarantinePathPrefix : string := "/admin/ledger/quarantine/".
Definition forceVoidPathSuffix : string := "/force-void".
Definition forceCreditPathSuffix : string := "/force-credit".

Inductive quarantinePathMatch :=
  | NoMatch
  | BadID (kind : string)
  | Matched (kind : string) (id : Z).

Definition path_id (kind : string) (idStr : list ascii) : quarantinePathMatch :=
  match idStr with
  | [] => BadID kind
  | _ => if forallb GoStr.is_digit idStr
         then match GoStr.Atoi (GoStr.of_chars idStr) with
              | Some id => Matched kind id
              | None => BadID kind
              end
         else BadID kind
  end.

Definition matchQuarantinePath (path : string) : quarantinePathMatch :=
  if GoStr.HasPrefix path quarantinePathPrefix then
    let rest := skipn (length (GoStr.chars quarantinePathPrefix)) (GoStr.chars path) in
    let without (suffix : string) := firstn (length rest - length (GoStr.chars suffix)) rest in
    if GoStr.HasSuffix (GoStr.of_chars rest) forceVoidPathSuffix then path_id "force-void" (without forceVoidPathSuffix)
    else if GoStr.HasSuffix (GoStr.of_chars rest) forceCreditPathSuffix
    then path_id "force-credit" (without forceCreditPathSuffix)
    else NoMatch
  else NoMatch.

(** ** Answers *)

(** An HTTP answer: its status, its error code, and the resolution it shows. *)
Record Response := mkResponse {
  rs_status : Z;
  rs_code : string;
  rs_resolution : option ResolutionRow;
}.

Definition writeError (status : Z) (code : string) : Response := mkResponse status code None.
Definition writeValidationError (code : string) : Response := writeError 422 code.

(** ** Reading the body *)

Record Request := mkRequest {
  rq_ContentType : string;
  rq_ContentLength : Z;
  rq_body : list ascii;
  rq_read_fails : bool;
}.

Record forceVoidBody := mkBody { fv_OperatorID : string; fv_Reason : string }.

Definition maxBodyBytes : Z := 4096.
Definition maxReasonLen : Z := 500.
Definition maxOperatorIDLen : Z := 64.

(** [utf8.Valid]. *)
Fixpoint utf8_valid (l : list Z) : bool :=
  match l with
  | [] => true
  | b0 :: l1 =>
      if b0 <? 128 then utf8_valid l1
      else match l1 with
      | b1 :: l2 =>
          if pair_ok b0 b1 then utf8_valid l2
          else match l2 with
          | b2 :: l3 =>
              if triple_ok b0 b1 b2 then utf8_valid l3
              else match l3 with
              | b3 :: l4 => if quad_ok b0 b1 b2 b3 then utf8_valid l4 else false
              | [] => false
              end
          | [] => false
          end
      | [] => false
      end
  end.

Definition ValidString (s : string) : bool := utf8_valid (codes (GoStr.chars s)).

(** [strings.ContainsRune(s, utf8.RuneError)]. *)
Definition has_rune_error (s : string) : bool := existsb (fun r => r =? RuneError) (rune_list s).

Definition member (k : string) (ms : list (string * BodyValue)) : option BodyValue :=
  option_map snd (find (fun m => String.eqb m.1 k) ms).

Fixpoint distinct (ks : list string) : bool :=
  match ks with [] => true | k :: ks => negb (existsb (String.eqb k) ks) && distinct ks end.

Definition allowed_key (k : string) : bool := String.eqb k "operator_id" || String.eqb k "reason".

(** [json.Unmarshal] into a string that is empty; null leaves it. *)
Definition unmarshal_string (v : BodyValue) : option string :=
  match v with BStr s => Some s | BNull => Some "" | BOther => None end.

Definition decodeForceVoidBody (r : Request) : Response + forceVoidBody :=
  let raw := r.(rq_body) in
  if maxBodyBytes + 1 <? Z.of_nat (length raw) then inl (writeError 413 "request_too_large")
  else if r.(rq_read_fails) then inl (writeError 400 "bad_request")
  else if maxBodyBytes <? Z.of_nat (length raw) then inl (writeError 413 "request_too_large")
  else if negb (utf8_valid (codes raw)) then inl (writeValidationError "invalid_utf8")
  else match json_object raw with
  | None => inl (writeError 400 "bad_request")
  | Some ms =>
      if negb (distinct ms.*1 && forallb allowed_key ms.*1) then inl (writeError 400 "bad_request")
      else match member "operator_id" ms with
      | None => inl (writeValidationError "missing_field")
      | Some op =>
      match member "reason" ms with
      | None => inl (writeValidationError "missing_field")
      | Some re =>
      match unmarshal_string op with
      | None => inl (writeError 400 "bad_request")
      | Some op =>
      match unmarshal_string re with
      | None => inl (writeError 400 "bad_request")
      | Some re =>
          if has_rune_error op then inl (writeValidationError "invalid_utf8")
          else if has_rune_error re then inl (writeValidationError "invalid_utf8")
          else inr (mkBody op re)
      end end end end
  end.

(** ** The sanitiser *)

Definition space_ascii (c : ascii) : bool :=
  let n := code c in (n =? 32) || (n =? 9) || (n =? 10) || (n =? 13) || (n =? 11) || (n =? 12).
Definition trimSpaceASCII (s : string) : string :=
  GoStr.of_chars (rev (GoStr.drop_while space_ascii (rev (GoStr.drop_while space_ascii (GoStr.chars s))))).

Definition operator_rune (r : Z) : bool :=
  ((65 <=? r) && (r <=? 90)) || ((97 <=? r) && (r <=? 122)) || ((48 <=? r) && (r <=? 57))
  || (r =? 95) || (r =? 46) || (r =? 45).

Definition validateOperatorID (s : string) : string :=
  if negb (ValidString s) then "invalid_utf8"
  else
    let t := trimSpaceASCII s in
    if String.eqb t "" || (maxOperatorIDLen <? Z.of_nat (length (GoStr.chars t))) then "bad_operator_id"
    else if forallb operator_rune (rune_list t) then "" else "bad_operator_id".

(** The ranges of [isRejectedCodepoint] above the C1 controls. *)
Definition rejected_ranges : list (Z * Z) :=
  [(173, 173); (847, 847); (1564, 1564); (4447, 4448); (6068, 6069); (6155, 6159); (8203, 8207);
   (8234, 8238); (8288, 8292); (8293, 8293); (8294, 8297); (8298, 8303); (12644, 12644); (65024, 65039);
   (65279, 65279); (65440, 65440); (65520, 65528); (57344, 63743); (113824, 113827); (119155, 119162);
   (917504, 917631); (917632, 917759); (917760, 917999); (918000, 921599); (983040, 1048573);
   (1048576, 1114109)].

Definition isRejectedCodepoint (r : Z) : bool :=
  if r <? 32 then negb ((r =? 9) || (r =? 10) || (r =? 13))
  else if r =? 127 then true
  else if (128 <=? r) && (r <=? 159) then true
  else existsb (fun p => (p.1 <=? r) && (r <=? p.2)) rejected_ranges.

Definition validateReason (s : string) : string :=
  if negb (ValidString s) then "invalid_utf8"
  else
    let t := trimSpaceASCII s in
    if String.eqb t "" then "empty_reason"
    else if maxReasonLen <? Z.of_nat (length (rune_list t)) then "reason_too_long"
    else if existsb isRejectedCodepoint (rune_list t) then "unsanitized_reason" else "".

(** [strings.TrimSpace] and [EqualFold] on the media type. *)
Definition isJSONContentType (ct : string) : bool :=
  let base := match GoStr.index_byte (GoStr.chars ct) ";" with
              | Some i => GoStr.of_chars (firstn i (GoStr.chars ct))
              | None => ct
              end in
  GoStr.EqualFold (GoStr.TrimSpace base) "application/json".

(** ** The transaction *)

Definition resolutionKindVoid : string := "force_void".
Definition resolutionKindCredit : string := "force_credit".
Definition eventForceVoid : string := "ledger_quarantine_force_void".
Definition eventForceCredit : string := "ledger_quarantine_force_credit".

(** A row of [audit_log], with the fields of its JSON payload. *)
Record AuditRow := mkAuditRow {
  au_ts_utc : string;
  au_event_type : string;
  au_provider_id : string;
  au_request_credit_id : Z;
  au_request_id : string;
  au_attempt_n : Z;
  au_quarantine_reason : option string;
  au_resolution : ResolutionRow;
}.

Record QDB := mkQDB { q_ledger : Ledger; q_audit : list AuditRow }.

(** [AUTOINCREMENT]; rows are never deleted. *)
Definition next_resolution_id (rows : list ResolutionRow) : Z := 1 + foldr Z.max 0 (map lqr_id rows).

(** SQLite's [length] of a text: its characters up to the first NUL. *)
Fixpoint before_nul (l : list Z) : list Z :=
  match l with [] => [] | r :: l => if r =? 0 then [] else r :: before_nul l end.
Definition sqlite_length (s : string) : Z := Z.of_nat (length (before_nul (rune_list s))).

(** The CHECK constraints of [ledger_quarantine_resolutions]. *)
Definition resolution_checks (r : ResolutionRow) : bool :=
  (String.eqb r.(lqr_resolution_kind) "force_void" || String.eqb r.(lqr_resolution_kind) "force_credit")
  && (1 <=? sqlite_length r.(lqr_operator_id)) && (sqlite_length r.(lqr_operator_id) <=? 64)
  && (1 <=? sqlite_length r.(lqr_resolution_reason)) && (sqlite_length r.(lqr_resolution_reason) <=? 500).

Definition resolutions_of (id : Z) (rows : list ResolutionRow) : list ResolutionRow :=
  List.filter (fun r => lqr_request_credit_id r =? id) rows.

(** What the transaction reads of the hold: once for the maturity, once for the
    deadline. The seconds become a [time.Duration] by a 64-bit product. *)
Record Holds := mkHolds { hold_matures : Z; hold_deadline : Z }.

Definition new_resolution (rows : list ResolutionRow) (id : Z) (kind operatorID reason : string) (now : Z)
    (h : Holds) : ResolutionRow :=
  mkResolutionRow (next_resolution_id rows) id kind operatorID reason (sqliteTimeText now)
    (if String.eqb kind resolutionKindCredit then Some (sqliteTimeText (now + Int64.mul h.(hold_matures) second)) else None)
    (sqliteTimeText (now + Int64.mul h.(hold_deadline) second)).

(** [correctionDeadline] and the comparison with the clock. *)
Definition correction_open (now : Z) (deadlineAt : string) : bool :=
  match parse_rfc3339 deadlineAt with Some deadline => now <? deadline | None => false end.

(** [respondAlreadyResolved] and [respondResolutionLocked]: the latest resolution. *)
Definition conflict (code : string) (rows : list ResolutionRow) (id : Z) : Response :=
  match latest_resolution rows id with
  | Some r => mkResponse 409 code (Some r)
  | None => writeError 500 "internal_error"
  end.

(** The guards before the insert, and what they answer. *)
Definition resolution_guard (rows : list ResolutionRow) (id : Z) (kind : string) (now : Z) : option Response :=
  let existingCount := Z.of_nat (length (resolutions_of id rows)) in
  if 0 <? existingCount then
    match latest_resolution rows id with
    | None => Some (writeError 500 "internal_error")
    | Some latest =>
        if String.eqb (lqr_resolution_kind latest) kind || (2 <=? existingCount)
        then Some (conflict "already_resolved" rows id)
        else if negb (correction_open now (lqr_correction_deadline_at_utc latest))
        then Some (conflict "resolution_locked" rows id)
        else None
    end
  else None.

(** The transaction of [forceResolutionHandler]; [dbOk] is whether its statements
    run: a statement or a commit that fails rolls back. The failure is tested first: a
    request that the code refuses with 404, 409 or 422 before the failing statement is
    answered 500 here, with the database as it was in both cases. *)
Definition resolution_tx (dbOk : bool) (db : QDB) (id : Z) (kind event operatorID reason : string) (now : Z)
    (h : Holds) : QDB * Response :=
  if negb dbOk then (db, writeError 500 "internal_error")
  else match find (fun r => lrc_id r =? id) (lrc db.(q_ledger)) with
  | None => (db, writeError 404 "not_found")
  | Some credit =>
      if negb (lrc_quarantined credit) then (db, writeValidationError "not_quarantined")
      else
        let rows := lqr db.(q_ledger) in
        match resolution_guard rows id kind now with
        | Some answer => (db, answer)
        | None =>
            let row := new_resolution rows id kind operatorID reason now h in
            if negb (resolution_checks row) then (db, writeError 500 "internal_error")
            else
              (mkQDB (with_lqr (rows ++ [row]) db.(q_ledger))
                 (db.(q_audit) ++ [mkAuditRow (sqliteTimeText now) event (lrc_provider_id credit) id
                    (lrc_request_id credit) (lrc_attempt_n credit) (lrc_quarantine_reason credit) row]),
               mkResponse 200 "" (Some row))
        end
  end.

Definition forceResolutionHandler (dbOk : bool) (db : QDB) (r : Request) (id : Z) (kind event : string) (now : Z)
    (h : Holds) : QDB * Response :=
  if negb (isJSONContentType r.(rq_ContentType)) then (db, writeError 415 "unsupported_media_type")
  else if maxBodyBytes <? r.(rq_ContentLength) then (db, writeError 413 "request_too_large")
  else match decodeForceVoidBody r with
  | inl answer => (db, answer)
  | inr body =>
      let e1 := validateOperatorID body.(fv_OperatorID) in
      if negb (String.eqb e1 "") then (db, writeValidationError e1)
      else
        let e2 := validateReason body.(fv_Reason) in
        if negb (String.eqb e2 "") then (db, writeValidationError e2)
        else resolution_tx dbOk db id kind event (trimSpaceASCII body.(fv_OperatorID))
               (trimSpaceASCII body.(fv_Reason)) now h
  end.

Definition forceVoidHandler (dbOk : bool) (db : QDB) (r : Request) (id now : Z) (h : Holds) :=
  forceResolutionHandler dbOk db r id resolutionKindVoid eventForceVoid now h.
Definition forceCreditHandler (dbOk : bool) (db : QDB) (r : Request) (id now : Z) (h : Holds) :=
  forceResolutionHandler dbOk db r id resolutionKindCredit eventForceCredit now h.

(** ** The routes

    [Gate] is what the dispatcher finds: the launch flags, whether the bearer is the
    operator key, whether the admin bucket has a token, and the method. *)
Record Gate := mkGate {
  g_ForceVoidEnabled : bool;
  g_ForceCreditEnabled : bool;
  g_operator : bool;
  g_bucket : bool;
  g_post : bool;
}.

(** The quarantine part of [serveHTTP]; [None] when the path is another route. *)
Definition serve_quarantine (g : Gate) (dbOk : bool) (db : QDB) (path : string) (r : Request) (now : Z)
    (h : Holds) : option (QDB * Response) :=
  let gated (kind : string) (k : QDB * Response) : option (QDB * Response) :=
    let enabled := if String.eqb kind "force-credit" then g.(g_ForceCreditEnabled) else g.(g_ForceVoidEnabled) in
    if negb enabled then
      if g.(g_operator) && negb g.(g_bucket) then Some (db, writeError 429 "rate_limited")
      else Some (db, writeError 404 "not_found")
    else if negb g.(g_operator) then Some (db, writeError 403 "forbidden")
    else if negb g.(g_bucket) then Some (db, writeError 429 "rate_limited")
    else if negb g.(g_post) then Some (db, writeError 405 "method_not_allowed")
    else Some k in
  match matchQuarantinePath path with
  | NoMatch => None
  | BadID kind => gated kind (db, writeError 400 "bad_request")
  | Matched kind id =>
      gated kind (if String.eqb kind "force-credit" then forceCreditHandler dbOk db r id now h
                  else forceVoidHandler dbOk db r id now h)
  end.

(** ** What the sanitiser lets through *)

Definition clean_operator (op : string) : Prop :=
  (1 <= length (rune_list op) <= 64)%nat /\ Forall (fun r => operator_rune r = true) (rune_list op).
Definition clean_reason (re : string) : Prop :=
  (1 <= length (rune_list re) <= 500)%nat /\ Forall (fun r => isRejectedCodepoint r = false) (rune_list re).

Lemma runes_length l : (length (runes l) <= length l)%nat.
Proof.
  remember (length l) as n eqn:Hn. assert (length l <= n)%nat as Hl by lia. clear Hn. revert l Hl.
  induction n as [|n IH]; intros l Hl; [by destruct l; simpl in *; lia|].
  destruct l as [|b0 l1]; [simpl; lia|].
  assert (forall l', (length l' <= n)%nat -> (S (length (runes l')) <= S n)%nat) as Hrec
    by (intros l' Hl'; apply le_n_S, IH, Hl').
  cbn [runes]. simpl in Hl.
  destruct (b0 <? 128); [apply Hrec; lia|]. destruct l1 as [|b1 l2]; [apply Hrec; simpl; lia|].
  destruct (pair_ok b0 b1); [apply Hrec; simpl in *; lia|]. destruct l2 as [|b2 l3]; [apply Hrec; simpl in *; lia|].
  destruct (triple_ok b0 b1 b2); [apply Hrec; simpl in *; lia|].
  destruct l3 as [|b3 l4]; [apply Hrec; simpl in *; lia|]. destruct (quad_ok b0 b1 b2 b3); apply Hrec; simpl in *; lia.
Qed.

Lemma runes_nonempty l : l <> [] -> (1 <= length (runes l))%nat.
Proof.
  destruct l as [|b0 l1]; [done|]. intros _. cbn [runes]. destruct (b0 <? 128); [simpl; lia|].
  destruct l1 as [|b1 l2]; [simpl; lia|]. destruct (pair_ok b0 b1); [simpl; lia|].
  destruct l2 as [|b2 l3]; [simpl; lia|]. destruct (triple_ok b0 b1 b2); [simpl; lia|].
  destruct l3 as [|b3 l4]; [simpl; lia|]. destruct (quad_ok b0 b1 b2 b3); simpl; lia.
Qed.

Lemma nonempty_runes s : s <> ""%string -> (1 <= length (rune_list s))%nat.
Proof. intros H. apply runes_nonempty. destruct s; [done|]. simpl. done. Qed.

Lemma validateOperatorID_clean s : validateOperatorID s = ""%string -> clean_operator (trimSpaceASCII s).
Proof.
  unfold validateOperatorID, clean_operator. destruct (negb _); [done|]. set (t := trimSpaceASCII s).
  destruct (_ || _)%bool eqn:E; [done|]. bool_hyps. destruct (forallb _ _) eqn:F; [|done]. intros _. split.
  - split; [by apply nonempty_runes|]. unfold rune_list. pose proof (runes_length (codes (GoStr.chars t))) as Hl.
    unfold codes in Hl at 2. rewrite length_map in Hl. unfold maxOperatorIDLen in *. lia.
  - apply Forall_forall. intros r Hr. rewrite forallb_forall in F. apply F. by apply list_elem_of_In.
Qed.

Lemma validateReason_clean s : validateReason s = ""%string -> clean_reason (trimSpaceASCII s).
Proof.
  unfold validateReason, clean_reason. destruct (negb _); [done|]. set (t := trimSpaceASCII s).
  destruct (String.eqb t "") eqn:E; [done|]. bool_hyps. destruct (_ <? _) eqn:L; [done|].
  destruct (existsb _ _) eqn:F; [done|]. intros _. split.
  - split; [by apply nonempty_runes|]. unfold maxReasonLen in *. lia.
  - apply Forall_forall. intros r Hr. apply not_true_is_false. intros Hx.
    assert (existsb isRejectedCodepoint (rune_list t) = true); [|congruence].
    apply existsb_exists. exists r. split; [by apply list_elem_of_In|done].
Qed.

Lemma before_nul_all l : Forall (fun r => r <> 0) l -> before_nul l = l.
Proof. induction 1 as [|r l Hr Hl IH]; [done|]. simpl. destruct (r =? 0) eqn:E; [lia|]. by rewrite IH. Qed.

Lemma sqlite_length_clean s (P : Z -> Prop) :
  Forall P (rune_list s) -> ~ P 0 -> sqlite_length s = Z.of_nat (length (rune_list s)).
Proof.
  intros H H0. unfold sqlite_length. rewrite before_nul_all; [done|]. eapply Forall_impl; [done|].
  intros r Hr ->. done.
Qed.

(** A sanitised resolution satisfies the constraints of its table. *)
Lemma clean_resolution_checks rows id kind op re now h :
  kind = resolutionKindVoid \/ kind = resolutionKindCredit -> clean_operator op -> clean_reason re ->
  resolution_checks (new_resolution rows id kind op re now h) = true.
Proof.
  intros Hk [Hol Ho] [Hrl Hr]. unfold resolution_checks. cbn [new_resolution lqr_resolution_kind lqr_operator_id lqr_resolution_reason].
  rewrite (sqlite_length_clean op _ Ho), (sqlite_length_clean re _ Hr) by done.
  destruct Hk as [->| ->]; simpl; lia.
Qed.

(** ** What the handler does *)

Lemma latest_resolution_snoc rows r id :
  latest_resolution (rows ++ [r]) id
  = if lqr_request_credit_id r =? id then
      match latest_resolution rows id with
      | None => Some r
      | Some b => if later_resolution r b then Some r else Some b
      end
    else latest_resolution rows id.
Proof.
  unfold latest_resolution. rewrite fold_left_app. simpl. destruct (_ =? id); [|done].
  destruct (fold_left _ rows None) as [b|]; [|done]. by destruct (later_resolution r b).
Qed.

Lemma resolutions_of_snoc id rows r :
  resolutions_of id (rows ++ [r]) = resolutions_of id rows ++ (if lqr_request_credit_id r =? id then [r] else []).
Proof. unfold resolutions_of. rewrite List.filter_app. simpl. by destruct (_ =? id). Qed.

Lemma latest_resolution_some rows id :
  resolutions_of id rows <> [] -> exists r, latest_resolution rows id = Some r.
Proof.
  induction rows as [|r rows IH] using rev_ind; [done|]. rewrite resolutions_of_snoc, latest_resolution_snoc.
  destruct (_ =? id).
  - intros _. destruct (latest_resolution rows id); [destruct (later_resolution _ _)|]; eauto.
  - rewrite app_nil_r. done.
Qed.

(** The prior resolutions an accepted one may follow: none, or one of the opposite
    kind whose deadline is still ahead. *)
Definition follows (rows : list ResolutionRow) (id : Z) (kind : string) (now : Z) : Prop :=
  resolutions_of id rows = []
  \/ exists r0 deadline, resolutions_of id rows = [r0] /\ lqr_resolution_kind r0 <> kind
       /\ parse_rfc3339 (lqr_correction_deadline_at_utc r0) = Some deadline /\ now < deadline.

Lemma latest_singleton rows id r0 : resolutions_of id rows = [r0] -> latest_resolution rows id = Some r0.
Proof.
  induction rows as [|r rows IH] using rev_ind; [done|]. rewrite resolutions_of_snoc, latest_resolution_snoc.
  destruct (_ =? id) eqn:E; [|by rewrite app_nil_r].
  intros H. apply (app_inj_2 _ []) in H as [H1 H2]; [|done]. injection H2 as ->.
  destruct (latest_resolution rows id) as [b|] eqn:Hb; [|done]. exfalso.
  assert (forall l b, latest_resolution l id = Some b -> resolutions_of id l <> []) as Hne.
  { clear. intros l. induction l as [|r l IH] using rev_ind; [done|]. intros b.
    rewrite resolutions_of_snoc, latest_resolution_snoc. destruct (_ =? id); [by intros _ [_ ?]%app_eq_nil|].
    rewrite app_nil_r. apply IH. }
  by apply Hne in Hb.
Qed.

Lemma resolution_guard_none rows id kind now : resolution_guard rows id kind now = None <-> follows rows id kind now.
Proof.
  unfold resolution_guard, follows, correction_open.
  destruct (resolutions_of id rows) as [|r0 [|r1 l]] eqn:E; simpl.
  - split; [by left|done].
  - rewrite (latest_singleton _ _ _ E). destruct (String.eqb _ kind) eqn:Ek; bool_hyps; simpl.
    { split; [by unfold conflict; rewrite (latest_singleton _ _ _ E)|]. intros [|(x & d & H & Hn & _)]; [done|].
      injection H as <-. done. }
    destruct (parse_rfc3339 _) as [d|] eqn:Ed; simpl.
    + destruct (now <? d) eqn:El; simpl.
      * split; [intros _|done]. right. exists r0, d. split_and!; [done..|lia].
      * split; [by unfold conflict; rewrite (latest_singleton _ _ _ E)|].
        intros [|(x & d' & H & _ & Hd & Hlt)]; [done|]. injection H as <-. rewrite Hd in Ed. injection Ed as <-. lia.
    + split; [by unfold conflict; rewrite (latest_singleton _ _ _ E)|].
      intros [|(x & d' & H & _ & Hd & _)]; [done|]. injection H as <-. congruence.
  - destruct (latest_resolution_some rows id) as [b Hb]; [by rewrite E|]. rewrite Hb.
    match goal with |- context [2 <=? ?n] => assert ((2 <=? n) = true) as -> by (apply Z.leb_le; lia) end. rewrite orb_true_r.
    split; [by unfold conflict; rewrite Hb|]. intros [|(x & d & H & _)]; done.
Qed.

Lemma resolution_guard_answer rows id kind now a :
  resolution_guard rows id kind now = Some a -> rs_status a = 409.
Proof.
  unfold resolution_guard. destruct (0 <? _) eqn:E; [|done].
  destruct (latest_resolution_some rows id) as [b Hb]; [by intros Hn; rewrite Hn in E|].
  rewrite Hb. unfold conflict. rewrite Hb. intros H. by split_ifs; simplify_eq.
Qed.

(** What a successful resolution has done. *)
Definition resolved (db db' : QDB) (id : Z) (kind event : string) (now : Z) (h : Holds) (a : Response) : Prop :=
  exists credit op re row,
    row = new_resolution (lqr db.(q_ledger)) id kind op re now h
    /\ find (fun r => lrc_id r =? id) (lrc db.(q_ledger)) = Some credit /\ lrc_quarantined credit = true
    /\ clean_operator op /\ clean_reason re /\ follows (lqr db.(q_ledger)) id kind now
    /\ rs_resolution a = Some row
    /\ q_ledger db' = with_lqr (lqr db.(q_ledger) ++ [row]) db.(q_ledger)
    /\ q_audit db' = db.(q_audit) ++ [mkAuditRow (sqliteTimeText now) event (lrc_provider_id credit) id
         (lrc_request_id credit) (lrc_attempt_n credit) (lrc_quarantine_reason credit) row].

Lemma resolution_tx_spec dbOk db id kind event op re now h :
  kind = resolutionKindVoid \/ kind = resolutionKindCredit -> clean_operator op -> clean_reason re ->
  let '(db', a) := resolution_tx dbOk db id kind event op re now h in
  (rs_status a = 200 /\ resolved db db' id kind event now h a)
  \/ (db' = db /\ (rs_status a = 404 \/ rs_status a = 409 \/ rs_status a = 422 \/ (rs_status a = 500 /\ dbOk = false))).
Proof.
  intros Hk Ho Hr. unfold resolution_tx. destruct dbOk; simpl; [|by right; auto 10].
  destruct (find _ _) as [c|] eqn:Hc; [|right; auto]. destruct (lrc_quarantined c) eqn:Hq; simpl; [|right; auto 10].
  destruct (resolution_guard _ _ _ _) as [a|] eqn:Hg.
  { apply resolution_guard_answer in Hg. right. auto. }
  rewrite clean_resolution_checks by done. simpl. left. split; [done|].
  apply resolution_guard_none in Hg. eexists c, op, re, _. by split_and!.
Qed.

Lemma decode_answer r a : decodeForceVoidBody r = inl a -> rs_status a = 400 \/ rs_status a = 413 \/ rs_status a = 422.
Proof.
  unfold decodeForceVoidBody. intros H.
  repeat match type of H with
  | context [match ?x with _ => _ end] => destruct x
  end; simplify_eq; simpl; auto.
Qed.

Lemma force_resolution_exact_aux (dbOk credit : bool) (db : QDB) (r : Request) (id now : Z) (h : Holds) :
  let '(db', a) := (if credit then forceCreditHandler else forceVoidHandler) dbOk db r id now h in
  (rs_status a = 200
   /\ resolved db db' id (if credit then resolutionKindCredit else resolutionKindVoid)
        (if credit then eventForceCredit else eventForceVoid) now h a)
  \/ (db' = db /\ (In (rs_status a) [400; 404; 409; 413; 415; 422] \/ (rs_status a = 500 /\ dbOk = false))).
Proof.
  set (kind := if credit then resolutionKindCredit else resolutionKindVoid).
  set (event := if credit then eventForceCredit else eventForceVoid).
  replace ((if credit then forceCreditHandler else forceVoidHandler) dbOk db r id now h)
    with (forceResolutionHandler dbOk db r id kind event now h) by (unfold kind, event; by destruct credit).
  assert (kind = resolutionKindVoid \/ kind = resolutionKindCredit) as Hk by (unfold kind; destruct credit; auto).
  clearbody kind event. unfold forceResolutionHandler.
  destruct (negb (isJSONContentType _)); [right; simpl; auto 10|]. destruct (_ <? _); [right; simpl; auto 10|].
  destruct (decodeForceVoidBody r) as [a|body] eqn:Hd.
  { apply decode_answer in Hd. right. split; [done|]. left. simpl. intuition. }
  destruct (negb (String.eqb (validateOperatorID _) "")) eqn:Ho; [right; simpl; auto 10|].
  destruct (negb (String.eqb (validateReason _) "")) eqn:Hr; [right; simpl; auto 10|]. bool_hyps.
  pose proof (resolution_tx_spec dbOk db id kind event _ _ now h Hk (validateOperatorID_clean _ Ho)
    (validateReason_clean _ Hr)) as H.
  destruct (resolution_tx _ _ _ _ _ _ _ _ _) as [db' a]. destruct H as [H|[-> H]]; [by left|].
  right. split; [done|]. simpl. intuition.
Qed.

(** Claim C29. The answer of the resolution endpoint is exact. A resolution is accepted only
    for a quarantined credit with no resolution or with one of the opposite kind whose
    correction deadline is ahead, with a sanitised operator and reason, and then
    appends exactly that resolution and its audit row. Every refusal leaves the
    database as it was, carries one of the documented statuses, and none of them is an
    internal error unless the database itself failed: the sanitiser is at least as
    strict as the constraints of the table. *)
Theorem force_resolution_exact (dbOk credit : bool) (db : QDB) (r : Request) (id now : Z) (h : Holds) :
  let '(db', a) := (if credit then forceCreditHandler else forceVoidHandler) dbOk db r id now h in
  (rs_status a = 200
   /\ resolved db db' id (if credit then resolutionKindCredit else resolutionKindVoid)
        (if credit then eventForceCredit else eventForceVoid) now h a)
  \/ (db' = db /\ (In (rs_status a) [400; 404; 409; 413; 415; 422] \/ (rs_status a = 500 /\ dbOk = false))).
Proof.
  apply force_resolution_exact_aux.
Qed.

(** ** Histories

    Calls of the two endpoints at the readings of a clock that does not go back,
    among changes of the other tables. *)
Definition hold_ok (now : Z) (h : Holds) : Prop :=
  in_years now /\ 0 < h.(hold_deadline) <= h.(hold_matures) /\ h.(hold_matures) * second <= Int64.max
  /\ in_years (now + h.(hold_matures) * second).

Inductive q_exec (T0 : Z) (db0 : QDB) : Z -> QDB -> Prop :=
  | qe_start : q_exec T0 db0 T0 db0
  | qe_call T db dbOk (credit : bool) r id now h :
      q_exec T0 db0 T db -> T <= now -> hold_ok now h ->
      q_exec T0 db0 now ((if credit then forceCreditHandler else forceVoidHandler) dbOk db r id now h).1
  | qe_other T T' db db' :
      q_exec T0 db0 T db -> T <= T' -> lqr (q_ledger db') = lqr (q_ledger db) -> q_exec T0 db0 T' db'.

(** A resolution written at [t]. *)
Definition stamped (r : ResolutionRow) (t : Z) : Prop :=
  exists rows id kind op re h, hold_ok t h /\ r = new_resolution rows id kind op re t h
    /\ (kind = resolutionKindVoid \/ kind = resolutionKindCredit).

(** The table at time [T]: every row was written by then, and identifiers and times
    grow along it. *)
Inductive table_at : Z -> list ResolutionRow -> Prop :=
  | ta_nil T : table_at T []
  | ta_later T T' rows : table_at T rows -> T <= T' -> table_at T' rows
  | ta_add T rows id kind op re h :
      table_at T rows -> hold_ok T h -> follows rows id kind T ->
      kind = resolutionKindVoid \/ kind = resolutionKindCredit ->
      table_at T (rows ++ [new_resolution rows id kind op re T h]).

Lemma handler_rows dbOk (credit : bool) db r id now h T :
  table_at T (lqr (q_ledger db)) -> T <= now -> hold_ok now h ->
  table_at now (lqr (q_ledger ((if credit then forceCreditHandler else forceVoidHandler) dbOk db r id now h).1)).
Proof.
  intros Ht Hn Hh. pose proof (force_resolution_exact_aux dbOk credit db r id now h) as H.
  destruct ((if credit then forceCreditHandler else forceVoidHandler) dbOk db r id now h) as [db' a]. simpl.
  destruct H as [[_ (c & op & re & row & -> & _ & _ & _ & _ & Hf & _ & -> & _)]|[-> _]].
  - simpl. apply ta_add; [by eapply ta_later|done..|]. destruct credit; auto.
  - by eapply ta_later.
Qed.

Lemma q_exec_table T0 db0 T db :
  q_exec T0 db0 T db -> table_at T0 (lqr (q_ledger db0)) -> table_at T (lqr (q_ledger db)).
Proof.
  induction 1 as [|T db dbOk credit r id now h _ IH Hle Hh|T T' db db' _ IH Hle E]; intros H0; [done| |].
  - eapply handler_rows; eauto.
  - rewrite E. eapply ta_later; eauto.
Qed.

Lemma q_exec_time T0 db0 T db : q_exec T0 db0 T db -> T0 <= T.
Proof. induction 1; lia. Qed.

Lemma next_id_above rows r : r ∈ rows -> lqr_id r < next_resolution_id rows.
Proof.
  unfold next_resolution_id. intros H. enough (lqr_id r <= foldr Z.max 0 (map lqr_id rows)) by lia.
  induction H as [x l|x y l H IH]; simpl; lia.
Qed.

Lemma table_stamped T rows r : table_at T rows -> r ∈ rows -> exists t, t <= T /\ stamped r t.
Proof.
  induction 1 as [T|T T' rows _ IH Hle|T rows id kind op re h _ IH Hh Hf Hk].
  - intros H. by apply not_elem_of_nil in H.
  - intros (t & Ht & Hs)%IH. exists t. split; [lia|done].
  - rewrite elem_of_app, list_elem_of_singleton. intros [H| ->]; [by apply IH|].
    exists T. split; [done|]. by exists rows, id, kind, op, re, h.
Qed.

Lemma latest_elem rows id r : latest_resolution rows id = Some r -> r ∈ resolutions_of id rows.
Proof.
  induction rows as [|x rows IH] using rev_ind; [done|]. rewrite resolutions_of_snoc, latest_resolution_snoc.
  rewrite elem_of_app. destruct (_ =? id).
  - destruct (latest_resolution rows id) as [b|]; [destruct (later_resolution x b)|]; intros H; injection H as <-;
      first [by left; apply IH|right; by apply list_elem_of_singleton].
  - intros H. left. by apply IH.
Qed.

Lemma stamped_years r t : stamped r t -> in_years t /\ lqr_created_at_utc r = sqliteTimeText t.
Proof. intros (rows & id & kind & op & re & h & (Hy & _) & -> & _). done. Qed.

(** The latest resolution of a credit is its last. *)
Lemma table_latest T rows id : table_at T rows -> latest_resolution rows id = last (resolutions_of id rows).
Proof.
  induction 1 as [T|T T' rows _ IH Hle|T rows id' kind op re h Ht IH Hh Hf Hk]; [done|done|].
  rewrite latest_resolution_snoc, resolutions_of_snoc. simpl. destruct (id' =? id) eqn:E.
  - rewrite last_snoc. destruct (latest_resolution rows id) as [b|] eqn:Hb; [|done].
    apply latest_elem in Hb. unfold resolutions_of in Hb. apply list_elem_of_In, filter_In in Hb as [Hb _].
    apply list_elem_of_In in Hb. destruct (table_stamped _ _ _ Ht Hb) as (t & Hle & Hs).
    apply stamped_years in Hs as [Hy Hc]. destruct Hh as (HyT & _). unfold later_resolution. simpl. rewrite Hc.
    rewrite sqliteTimeText_compare by done. destruct (Z.compare_spec T t) as [->|L|L]; [|lia|done].
    apply next_id_above in Hb. by replace (lqr_id b <? next_resolution_id rows) with true by lia.
  - rewrite app_nil_r. apply IH.
Qed.

Lemma table_ids T rows r1 r2 : table_at T rows -> r1 ∈ rows -> r2 ∈ rows -> lqr_id r1 = lqr_id r2 -> r1 = r2.
Proof.
  induction 1 as [T|T T' rows _ IH Hle|T rows id kind op re h _ IH Hh Hf Hk]; [|done|].
  - intros H. by apply not_elem_of_nil in H.
  - rewrite !elem_of_app, !list_elem_of_singleton. intros [H1| ->] [H2| ->] E; [by apply IH| | |done].
    + apply next_id_above in H1. simpl in E. lia.
    + apply next_id_above in H2. simpl in E. lia.
Qed.

Lemma hold_mul h now : hold_ok now h ->
  Int64.mul h.(hold_matures) second = h.(hold_matures) * second
  /\ Int64.mul h.(hold_deadline) second = h.(hold_deadline) * second
  /\ in_years (now + h.(hold_deadline) * second).
Proof.
  intros (Hy & Hd & Hm & Hy'). unfold in_years, day, second in *.
  rewrite !Int64.mul_exact by (i64; lia). split_and!; [done..| |]; lia.
Qed.

Lemma text_leb_iff a b : in_years a -> in_years b -> String.leb (sqliteTimeText a) (sqliteTimeText b) = true <-> a <= b.
Proof.
  intros Ha Hb. unfold String.leb. rewrite sqliteTimeText_compare by done. unfold Z.le.
  destruct (a ?= b); split; congruence.
Qed.

(** The last resolution of a credit that is force-credited and matured at [T]: a
    force credit whose correction deadline is not after [T]. *)
Lemma matured_latest T T' rows id :
  table_at T' rows -> in_years T -> force_credit_latest rows id (fun m => String.leb m (sqliteTimeText T)) = true ->
  exists r deadline, last (resolutions_of id rows) = Some r /\ lqr_resolution_kind r = resolutionKindCredit
    /\ parse_rfc3339 (lqr_correction_deadline_at_utc r) = Some deadline /\ deadline <= T.
Proof.
  intros Ht HT H. unfold force_credit_latest in H. apply existsb_exists in H as (r & Hr & H).
  apply list_elem_of_In in Hr. bool_hyps. destruct (latest_resolution rows id) as [b|] eqn:Hb; [|done].
  assert (r = b) as <-.
  { apply (table_ids _ _ _ _ Ht Hr); [|lia]. apply latest_elem in Hb. unfold resolutions_of in Hb.
    apply list_elem_of_In, filter_In in Hb as [Hb _]. by apply list_elem_of_In. }
  destruct (table_stamped _ _ _ Ht Hr) as (t & Hle & rows' & id' & kind & op & re & h & Hh & -> & Hk).
  destruct (hold_mul _ _ Hh) as (Em & Ed & Hyd). rewrite (table_latest _ _ _ Ht) in Hb.
  exists (new_resolution rows' id' kind op re t h), (t + hold_deadline h * second). split_and!; [done|done| |].
  - simpl. rewrite Ed. by apply parse_sqliteTimeText.
  - simpl in *. destruct (String.eqb kind resolutionKindCredit); [|done]. rewrite Em in *.
    destruct Hh as (Hy & Hd & Hm & Hym).
    match goal with H : String.leb _ _ = true |- _ => apply text_leb_iff in H; [|done..] end.
    unfold second in *. nia.
Qed.

Lemma matured_closed T T' rows id kind now :
  table_at T' rows -> in_years T -> T <= now ->
  force_credit_latest rows id (fun m => String.leb m (sqliteTimeText T)) = true -> ~ follows rows id kind now.
Proof.
  intros Ht HT Hn Hm Hf. destruct (matured_latest _ _ _ _ Ht HT Hm) as (r & d & Hl & _ & Hp & Hd).
  destruct Hf as [E|(r0 & d0 & E & _ & Hp0 & Hlt)]; rewrite E in Hl; [done|]. simpl in Hl. injection Hl as ->.
  rewrite Hp in Hp0. injection Hp0 as ->. lia.
Qed.

(** Whether the latest resolution is a matured force credit depends on the credit's own
    resolutions. *)
Lemma force_credit_mono T1 T2 rows1 rows2 id (p q : string -> bool) :
  table_at T1 rows1 -> table_at T2 rows2 -> resolutions_of id rows1 = resolutions_of id rows2 ->
  (forall r m, r ∈ rows1 -> lqr_force_credit_matures_at_utc r = Some m -> p m = true -> q m = true) ->
  force_credit_latest rows1 id p = true -> force_credit_latest rows2 id q = true.
Proof.
  intros H1 H2 E Hpq H. unfold force_credit_latest in *. rewrite (table_latest _ _ _ H1) in H.
  rewrite (table_latest _ _ _ H2), <- E. apply existsb_exists in H as (r & Hr & H). bool_hyps.
  apply existsb_exists. exists r. split.
  - assert (In r (resolutions_of id rows1)) as Hi by (apply filter_In; split; [done|lia]).
    rewrite E in Hi. by apply filter_In in Hi as [Hi _].
  - apply list_elem_of_In in Hr. destruct (lqr_force_credit_matures_at_utc r) as [m|] eqn:Em; [|done].
    rewrite (Hpq r m) by done. rewrite andb_true_r. rewrite !andb_true_iff. split_and!; [lia| |]; [done|].
    apply String.eqb_eq. done.
Qed.

Lemma q_exec_frozen T db T1 db1 id :
  table_at T (lqr (q_ledger db)) -> in_years T ->
  force_credit_latest (lqr (q_ledger db)) id (fun m => String.leb m (sqliteTimeText T)) = true ->
  q_exec T db T1 db1 -> resolutions_of id (lqr (q_ledger db1)) = resolutions_of id (lqr (q_ledger db)).
Proof.
  intros Ht HT Hm H. induction H as [|T2 db2 dbOk credit r id' now h Hx IH Hle Hh|T2 T' db2 db' _ IH Hle E]; [done| |].
  - pose proof (force_resolution_exact_aux dbOk credit db2 r id' now h) as Ha.
    destruct ((if credit then forceCreditHandler else forceVoidHandler) dbOk db2 r id' now h) as [db' a]. simpl.
    destruct Ha as [[_ (c & op & re & row & -> & _ & _ & _ & _ & Hf & _ & -> & _)]|[-> _]]; [|done].
    simpl. rewrite resolutions_of_snoc. simpl. destruct (id' =? id) eqn:Ei; [|by rewrite app_nil_r].
    apply Z.eqb_eq in Ei as ->. exfalso. pose proof (q_exec_time _ _ _ _ Hx).
    apply (matured_closed T T (lqr (q_ledger db)) id (if credit then resolutionKindCredit else resolutionKindVoid) now);
      [done..|lia|done|]. unfold follows in *. by rewrite IH in Hf.
  - rewrite E. apply IH.
Qed.

(** A matured force credit is final. Start from a ledger without resolutions
    and let operators, settlement runs and every other writer act in any order; once the
    settlement query lets a quarantined credit pass at some instant, no later call of
    either endpoint adds a resolution to it, and the query lets it pass at every later
    instant: what has been settled on a force credit is never voided afterwards. *)
Theorem matured_force_credit_final (T0 T1 T2 : Z) (db0 db1 db2 : QDB) (r : CreditRow) :
  lqr (q_ledger db0) = [] -> in_years T1 -> in_years T2 ->
  q_exec T0 db0 T1 db1 -> lrc_quarantined r = true ->
  quarantine_allows (q_ledger db1) (sqliteTimeText T1) r = true ->
  q_exec T1 db1 T2 db2 ->
  resolutions_of (lrc_id r) (lqr (q_ledger db2)) = resolutions_of (lrc_id r) (lqr (q_ledger db1))
  /\ quarantine_allows (q_ledger db2) (sqliteTimeText T2) r = true.
Proof.
  intros H0 HT1 HT2 Hx1 Hq Ha Hx2. pose proof (q_exec_time _ _ _ _ Hx2) as Hle.
  assert (table_at T1 (lqr (q_ledger db1))) as Ht1 by (eapply q_exec_table; [done|]; rewrite H0; apply ta_nil).
  pose proof (q_exec_table _ _ _ _ Hx2 Ht1) as Ht2. unfold quarantine_allows in *. rewrite Hq in *. simpl in *.
  pose proof (q_exec_frozen _ _ _ _ _ Ht1 HT1 Ha Hx2) as E. split; [done|].
  eapply (force_credit_mono _ _ _ _ _ _ _ Ht1 Ht2); [done| |done].
  intros x m Hx Em Hp. destruct (table_stamped _ _ _ Ht1 Hx) as (t & Ht & rows & id & kind & op & re & h & Hh & -> & _).
  simpl in Em. destruct (String.eqb kind resolutionKindCredit); [|done]. injection Em as <-.
  destruct (hold_mul _ _ Hh) as (Em & _ & _). destruct Hh as (_ & _ & _ & Hy). rewrite Em in *.
  apply text_leb_iff in Hp; [|done..]. apply text_leb_iff; [done..|lia].
Qed.

(** A credit has at most two resolutions, and a second one is of the opposite kind
    and was written before the deadline of the first. *)
Lemma resolution_history T0 T db0 db id :
  lqr (q_ledger db0) = [] -> q_exec T0 db0 T db ->
  match resolutions_of id (lqr (q_ledger db)) with
  | [] | [_] => True
  | [r1; r2] => lqr_resolution_kind r1 <> lqr_resolution_kind r2 /\ exists t d, stamped r2 t
      /\ parse_rfc3339 (lqr_correction_deadline_at_utc r1) = Some d /\ t < d
  | _ => False
  end.
Proof.
  intros H0 Hx. assert (table_at T (lqr (q_ledger db))) as Ht by (eapply q_exec_table; [done|]; rewrite H0; apply ta_nil).
  revert Ht. generalize (lqr (q_ledger db)) as rows. clear.
  induction 1 as [T|T T' rows _ IH Hle|T rows id' kind op re h Ht IH Hh Hf Hk]; [done|done|].
  rewrite resolutions_of_snoc. cbn [lqr_request_credit_id new_resolution]. destruct (id' =? id) eqn:Ei.
  - apply Z.eqb_eq in Ei as ->. destruct Hf as [-> |(r0 & d & -> & Hn & Hp & Hlt)]; simpl; [done|].
    split; [done|]. exists T, d. split_and!; [|done..]. by exists rows, id, kind, op, re, h.
  - by rewrite app_nil_r.
Qed.

(** ** A resolution at work *)

Module QuarantineSample.
Definition t0 : Z := 1700000000 * second.
Definition credit : CreditRow :=
  mkCreditRow 7 "req" 0 "prov" None "2023-11-14T00:00:00.000000000Z" "m" 200 false None None None None None None
    "provider_reported" 0 0 0 0 0 0 "none" None false None true (Some "split_mismatch") None "legacy" None "hot_path"
    "2023-11-14T00:00:00.000000000Z" None.
Definition ledger : Ledger := mkLedger [credit] [] [] [] [] [] [] [] 8 1 1 [] 1 [].
Definition db : QDB := mkQDB ledger [].
Definition body : list ascii :=
  [byte_of 123; byte_of 34] ++ GoStr.chars "operator_id" ++ [byte_of 34; byte_of 58; byte_of 34]
  ++ GoStr.chars " ops-1 " ++ [byte_of 34; byte_of 44; byte_of 34] ++ GoStr.chars "reason"
  ++ [byte_of 34; byte_of 58; byte_of 34] ++ GoStr.chars "checked by \u0068and" ++ [byte_of 34; byte_of 125].
Definition request : Request := mkRequest "Application/JSON; charset=utf-8" 60 body false.
Definition holds : Holds := mkHolds 3600 3600.
Definition credited : QDB := (forceCreditHandler true db request 7 t0 holds).1.
Definition matured_at : Z := t0 + 3600 * second.
End QuarantineSample.

Example force_credit_answer :
  rs_status (forceCreditHandler true QuarantineSample.db QuarantineSample.request 7 QuarantineSample.t0
    QuarantineSample.holds).2 = 200
  /\ map lqr_operator_id (lqr (q_ledger QuarantineSample.credited)) = ["ops-1"%string]
  /\ map lqr_resolution_reason (lqr (q_ledger QuarantineSample.credited)) = ["checked by hand"%string]
  /\ option_map (fun x => rs_status x.2)
       (serve_quarantine (mkGate true false true true true) true QuarantineSample.db
          "/admin/ledger/quarantine/7/force-void" QuarantineSample.request QuarantineSample.t0 QuarantineSample.holds)
     = Some 200.
Proof. vm_compute. done. Qed.

Lemma matured_force_credit_final_witness :
  quarantine_allows (q_ledger (forceVoidHandler true QuarantineSample.credited QuarantineSample.request 7
      QuarantineSample.matured_at QuarantineSample.holds).1)
    (sqliteTimeText QuarantineSample.matured_at) QuarantineSample.credit = true.
Proof.
  assert (forall z, QuarantineSample.t0 <= z <= QuarantineSample.t0 + 7200 * second -> in_years z) as Hy.
  { intros z Hz. unfold QuarantineSample.t0, in_years, day, second in *. lia. }
  assert (forall z, QuarantineSample.t0 <= z <= QuarantineSample.matured_at -> hold_ok z QuarantineSample.holds) as Hh.
  { intros z Hz. unfold QuarantineSample.matured_at in Hz. unfold hold_ok. cbn [QuarantineSample.holds hold_matures hold_deadline].
    split_and!; [apply Hy; unfold second in *; lia|lia|lia|done|apply Hy; unfold second in *; lia]. }
  apply (matured_force_credit_final QuarantineSample.t0 QuarantineSample.matured_at QuarantineSample.matured_at
    QuarantineSample.db QuarantineSample.credited).
  - reflexivity.
  - apply Hy. unfold QuarantineSample.matured_at, second. lia.
  - apply Hy. unfold QuarantineSample.matured_at, second. lia.
  - apply (qe_other _ _ QuarantineSample.t0 _ QuarantineSample.credited); [|vm_compute; discriminate|reflexivity].
    apply (qe_call _ _ QuarantineSample.t0 QuarantineSample.db true true QuarantineSample.request 7
      QuarantineSample.t0 QuarantineSample.holds); [apply qe_start|lia|].
    apply Hh. unfold QuarantineSample.matured_at, second. lia.
  - reflexivity.
  - vm_compute. reflexivity.
  - apply (qe_call _ _ QuarantineSample.matured_at QuarantineSample.credited true false QuarantineSample.request 7
      QuarantineSample.matured_at QuarantineSample.holds); [apply qe_start|lia|].
    apply Hh. unfold QuarantineSample.matured_at, second. lia.
Defined.

(** The hold is read twice. When it grows between the two readings, a force credit
    matures before its correction deadline, and can be voided after it was settled. *)
Example matured_credit_voided_when_hold_grows :
  let h := mkHolds 3600 7200 in
  let db1 := (forceCreditHandler true QuarantineSample.db QuarantineSample.request 7 QuarantineSample.t0 h).1 in
  let db2 := (forceVoidHandler true db1 QuarantineSample.request 7 QuarantineSample.matured_at h).1 in
  quarantine_allows (q_ledger db1) (sqliteTimeText QuarantineSample.matured_at) QuarantineSample.credit = true
  /\ quarantine_allows (q_ledger db2) (sqliteTimeText QuarantineSample.matured_at) QuarantineSample.credit = false.
Proof. vm_compute. done. Qed.
