(* ===== verification/Receipt.v ===== *)
(** * Settlement receipts: the verifier

    Models [phase4-coordinator/internal/billing/settlement_verifier.go] and the
    route snapshot of [route_snapshot.go]: a provider's signed receipt for one
    attempt is checked against what the coordinator recorded when it routed and
    served the attempt, and the outcome decides whether the attempt settles.

    Hashes, signatures, base64 and JSON decoding are Go standard-library code,
    and the canonical JSON encoder is [jcs.go]; they are the operations of the
    class [GoLib], over which the file is parametric. Byte slices are
    byte strings. *)

From S2P Require Import Prelude Jcs.

Definition SettlementOutcomePending : string := "pending".
Definition SettlementOutcomeVerified : string := "verified".
Definition SettlementOutcomeQuarantined : string := "quarantined".
Definition SettlementOutcomeZeroSettled : string := "zero_settled".
Definition SettlementReceiptResultValid : string := "valid".
Definition SettlementReceiptResultInvalid : string := "invalid".
Definition SettlementReceiptResultInconclusive : string := "inconclusive".
Definition maxSettlementClockSkewMS : Z := 60000.
Definition UsageSourceCoordinatorObserved : string := "coordinator_observed".
Definition RouteSnapshotModeObserve : string := "observe".
Definition RouteSnapshotModeEnforce : string := "enforce".
Definition MaxPendingReceiptDeadlineSeconds : Z := 900.
Definition SnapshotManifestV1 : string := "macprovider.snapshot-manifest.v1".

Definition settlementTerminalStates : list string :=
  ["normal_done"; "provider_error"; "buyer_cancel"; "gateway_timeout";
   "upstream_transport_disconnect"].

Definition v04SettlementTupleKeys : list string :=
  ["account_scope"; "attempt_n"; "catalog_body_digest"; "catalog_id";
   "expected_catalog_model_hash"; "issued_at_unix_ms"; "model_hash";
   "model_id"; "output_hash"; "output_prefix_end_byte";
   "output_prefix_start_byte"; "prompt_hash"; "provider_id";
   "provider_receipt_key_id"; "receipt_version"; "request_id";
   "route_snapshot_digest"; "route_snapshot_mode";
   "route_snapshot_policy_version"; "signature_key_alg";
   "terminal_state"; "terminal_state_ts_unix_ms"; "usage"].

Definition v04SettlementUsageKeys : list string :=
  ["billable_input_tokens"; "billable_output_tokens"; "delivered_output_bytes";
   "observed_input_tokens"; "observed_output_tokens"].

(** ** Data *)

Record SettlementUsage := mkUsage {
  BillableInputTokens : Z;
  BillableOutputTokens : Z;
  DeliveredOutputBytes : Z;
  ObservedInputTokens : Z;
  ObservedOutputTokens : Z;
}.

Record RouteSnapshot := mkSnapshot {
  rs_AccountScope : string;
  rs_RequestID : string;
  rs_AttemptN : Z;
  rs_ProviderID : string;
  rs_ProviderSessionID : option string;
  rs_ProviderGenerationID : option string;
  rs_PaidEntrypoint : string;
  rs_ProviderReceiptKeyID : string;
  rs_ProviderReceiptKeySource : string;
  rs_ModelID : string;
  rs_ProviderReportedModelHash : string;
  rs_ProviderReportedModelHashAlgorithm : string;
  rs_ExpectedCatalogModelHash : string;
  rs_ExpectedCatalogModelHashAlgorithm : string;
  rs_CatalogID : string;
  rs_CatalogBodyDigest : string;
  rs_CatalogSignatureKeyID : string;
  rs_CatalogSignaturePubkeyFingerprint : string;
  rs_CatalogExpiresAtUnixMS : Z;
  rs_Spec008HashStatus : string;
  rs_PolicyVersion : string;
  rs_Mode : string;
  rs_RouteDecisionTSUnixMS : Z;
  rs_RequestStartTSUnixMS : Z;
  rs_PendingDeadlineSeconds : Z;
  rs_PromptHashBasis : string;
  rs_PromptHash : string;
}.

Record settlementTupleV04 := mkTuple {
  tu_AccountScope : string;
  tu_CatalogBodyDigest : string;
  tu_CatalogID : string;
  tu_ExpectedCatalogModelHash : string;
  tu_IssuedAtUnixMS : Z;
  tu_ModelHash : string;
  tu_ModelID : string;
  tu_OutputHash : string;
  tu_OutputPrefixEndByte : Z;
  tu_OutputPrefixStartByte : Z;
  tu_PromptHash : string;
  tu_ProviderID : string;
  tu_ProviderReceiptKeyID : string;
  tu_ReceiptVersion : string;
  tu_RequestID : string;
  tu_RouteSnapshotDigest : string;
  tu_RouteSnapshotMode : string;
  tu_RouteSnapshotPolicyVersion : string;
  tu_SignatureKeyAlg : string;
  tu_TerminalState : string;
  tu_TerminalStateTSUnixMS : Z;
  tu_AttemptN : Z;
  tu_Usage : SettlementUsage;
}.

Record SettlementVerifyInput := mkInput {
  Header : string;
  ProviderReceiptPubkey : string;
  in_Route : RouteSnapshot;
  in_AccountScope : string;
  in_RequestID : string;
  in_AttemptN : Z;
  in_ProviderID : string;
  in_ProviderReceiptKeyID : string;
  in_TerminalState : string;
  in_TerminalStateTSUnixMS : Z;
  in_OutputHash : string;
  in_OutputPrefixStartByte : Z;
  in_OutputPrefixEndByte : Z;
  ExpectedUsage : SettlementUsage;
  UsageSource : string;
  UsageCrossChecked : bool;
  OverlappingOrDuplicate : bool;
  ReceiptReceivedUnixMS : Z;
  NowUnixMS : Z;
  ReceiptMissing : bool;
  TrustRootInconclusive : bool;
  CanonicalHashesAvailable : bool;
  AlreadyDeadlineQuarantined : bool;
  TerminalOutcomeFinal : bool;
}.

Record SettlementVerificationChecks := mkChecks {
  ck_SignatureVerified : bool;
  ck_RouteSnapshotMatched : bool;
  ck_PromptHashMatched : bool;
  ck_OutputHashMatched : bool;
  ck_UsageMatched : bool;
  ck_UsageCrossChecked : bool;
  ck_NoOverlap : bool;
  ck_TerminalStateMatched : bool;
  ck_TimestampWindowValid : bool;
}.

Definition no_checks : SettlementVerificationChecks :=
  mkChecks false false false false false false false false false.

(** The facts extracted from a parsed receipt: every scalar of the tuple (its
    usage and canonical bytes only as digests). *)
Record SettlementReceiptFacts := mkFacts {
  fa_AccountScope : string; fa_RequestID : string; fa_AttemptN : Z;
  fa_ProviderID : string; fa_ProviderReceiptKeyID : string; fa_ReceiptVersion : string;
  fa_ModelID : string; fa_ModelHash : string; fa_ExpectedCatalogModelHash : string;
  fa_CatalogID : string; fa_CatalogBodyDigest : string; fa_PromptHash : string;
  fa_OutputHash : string; fa_OutputPrefixStartByte : Z; fa_OutputPrefixEndByte : Z;
  fa_RouteSnapshotDigest : string; fa_RouteSnapshotMode : string;
  fa_RouteSnapshotPolicyVersion : string; fa_SignatureKeyAlg : string;
  fa_TerminalState : string; fa_TerminalStateTSUnixMS : Z; fa_IssuedAtUnixMS : Z;
  fa_UsageDigest : string; fa_TupleCanonicalSHA256 : string;
}.

Record SettlementVerifyResult := mkVerify {
  Outcome : string;
  ReceiptResult : string;
  Reason : string;
  ReceiptVersion : string;
  Facts : option SettlementReceiptFacts;
  Checks : SettlementVerificationChecks;
}.

(** ** The library operations *)

Class GoLib := {
  (** [hex(sha256(b))] *)
  sha256_hex : string -> string;
  (** [ed25519.Verify(pubkey, message, signature)] *)
  ed25519_Verify : string -> string -> string -> bool;
  (** [base64.StdEncoding.DecodeString] *)
  base64_decode : string -> option string;
  (** [decodeSettlementRawObject]: one JSON object and nothing after it, as a
      map from its keys to the raw text of their values *)
  json_raw_object : string -> option (gmap string string);
  (** [json.Unmarshal] of a raw value into a string; empty on error *)
  json_string : string -> string;
  (** decoding into the tuple type, unknown fields refused *)
  json_tuple : string -> option settlementTupleV04;
  (** number formatting and normalisation, for the canonical encoder *)
  text_lib :: TextLib;
  (** decoding into [any] with [UseNumber] *)
  json_any : string -> option JsonValue;
  (** the order in which [range] visits a map literal *)
  range_order : list (string * string) -> list (string * string);
  range_order_perm : forall l, range_order l ≡ₚ l;
}.

(** ** Patterns *)

Definition is_hex_lower (c : ascii) : bool :=
  let n := N_of_ascii c in
  (((48 <=? n) && (n <=? 57)) || ((97 <=? n) && (n <=? 102)))%N%bool.

(** [^[0-9a-f]{64}$] *)
Definition hex64Pattern (s : string) : bool :=
  ((length (GoStr.chars s) =? 64)%nat && forallb is_hex_lower (GoStr.chars s))%bool.

(** [^ed25519-sha256:[0-9a-f]{64}$] *)
Definition receiptKeyIDPattern (s : string) : bool :=
  (GoStr.HasPrefix s "ed25519-sha256:"
   && hex64Pattern (GoStr.TrimPrefix s "ed25519-sha256:"))%bool.

Section Verifier.
Context `{GoLib}.

(** ** Route snapshots *)

Definition ReceiptKeyID (pubkey : string) : option string :=
  if (length (GoStr.chars pubkey) =? 32)%nat
  then Some ("ed25519-sha256:" +:+ sha256_hex pubkey) else None.

Definition nullableString (v : option string) : JVal :=
  match v with None => JNull | Some s => JStr s end.

Definition snapshot_base (r : RouteSnapshot) : list (string * JVal) := [
    ("account_scope", JStr r.(rs_AccountScope));
    ("request_id", JStr r.(rs_RequestID));
    ("attempt_n", JInt r.(rs_AttemptN));
    ("provider_id", JStr r.(rs_ProviderID));
    ("provider_session_id", nullableString r.(rs_ProviderSessionID));
    ("provider_generation_id", nullableString r.(rs_ProviderGenerationID));
    ("paid_entrypoint", JStr r.(rs_PaidEntrypoint));
    ("provider_receipt_key_id", JStr r.(rs_ProviderReceiptKeyID));
    ("provider_receipt_key_source", JStr r.(rs_ProviderReceiptKeySource));
    ("model_id", JStr r.(rs_ModelID));
    ("provider_reported_model_hash", JStr r.(rs_ProviderReportedModelHash));
    ("expected_catalog_model_hash", JStr r.(rs_ExpectedCatalogModelHash));
    ("catalog_id", JStr r.(rs_CatalogID));
    ("catalog_body_digest", JStr r.(rs_CatalogBodyDigest));
    ("catalog_signature_key_id", JStr r.(rs_CatalogSignatureKeyID));
    ("catalog_signature_pubkey_fingerprint", JStr r.(rs_CatalogSignaturePubkeyFingerprint));
    ("catalog_expires_at_unix_ms", JInt r.(rs_CatalogExpiresAtUnixMS));
    ("spec008_hash_status", JStr r.(rs_Spec008HashStatus));
    ("route_snapshot_policy_version", JStr r.(rs_PolicyVersion));
    ("route_snapshot_mode", JStr r.(rs_Mode));
    ("route_decision_ts_unix_ms", JInt r.(rs_RouteDecisionTSUnixMS));
    ("request_start_ts_unix_ms", JInt r.(rs_RequestStartTSUnixMS));
    ("pending_deadline_seconds", JInt r.(rs_PendingDeadlineSeconds));
    ("prompt_hash_basis", JStr r.(rs_PromptHashBasis));
    ("prompt_hash", JStr r.(rs_PromptHash))].
Definition snapshot_Value (r : RouteSnapshot) : gmap string JVal :=
  let value := list_to_map (snapshot_base r) in
  if (negb (String.eqb r.(rs_ProviderReportedModelHashAlgorithm) "")
      || negb (String.eqb r.(rs_ExpectedCatalogModelHashAlgorithm) ""))%bool
  then <["expected_catalog_model_hash_algorithm" := JStr r.(rs_ExpectedCatalogModelHashAlgorithm)]>
       (<["provider_reported_model_hash_algorithm" := JStr r.(rs_ProviderReportedModelHashAlgorithm)]> value)
  else value.

Definition snapshot_required (r : RouteSnapshot) : list (string * string) := [
  ("account_scope", r.(rs_AccountScope)); ("request_id", r.(rs_RequestID));
  ("provider_id", r.(rs_ProviderID)); ("paid_entrypoint", r.(rs_PaidEntrypoint));
  ("provider_receipt_key_id", r.(rs_ProviderReceiptKeyID));
  ("provider_receipt_key_source", r.(rs_ProviderReceiptKeySource));
  ("model_id", r.(rs_ModelID));
  ("provider_reported_model_hash", r.(rs_ProviderReportedModelHash));
  ("expected_catalog_model_hash", r.(rs_ExpectedCatalogModelHash));
  ("catalog_id", r.(rs_CatalogID)); ("catalog_body_digest", r.(rs_CatalogBodyDigest));
  ("catalog_signature_key_id", r.(rs_CatalogSignatureKeyID));
  ("catalog_signature_pubkey_fingerprint", r.(rs_CatalogSignaturePubkeyFingerprint));
  ("spec008_hash_status", r.(rs_Spec008HashStatus));
  ("route_snapshot_policy_version", r.(rs_PolicyVersion));
  ("route_snapshot_mode", r.(rs_Mode));
  ("prompt_hash_basis", r.(rs_PromptHashBasis)); ("prompt_hash", r.(rs_PromptHash))].

(** The first field visited that fails [p]; [range] chooses the order. *)
Definition first_failing (p : string -> bool) (fields : list (string * string)) : option string :=
  fst <$> List.find (fun fv => negb (p fv.2)) (range_order fields).

Definition nonblank (s : string) : bool := negb (String.eqb (GoStr.TrimSpace s) "").

(** [RouteSnapshot.Validate]: [None] when valid, else the error text. *)
Definition snapshot_Validate (r : RouteSnapshot) : option string :=
  match first_failing nonblank (snapshot_required r) with
  | Some field => Some ("route snapshot missing " +:+ field)
  | None =>
  if r.(rs_AttemptN) <? 0 then Some "route snapshot attempt_n must be >= 0"
  else if negb (receiptKeyIDPattern r.(rs_ProviderReceiptKeyID))
  then Some "route snapshot provider_receipt_key_id invalid"
  else if negb (String.eqb r.(rs_ProviderReceiptKeySource) "auth_session"
                || String.eqb r.(rs_ProviderReceiptKeySource) "rotation_grace"
                || String.eqb r.(rs_ProviderReceiptKeySource) "operator_pin")
  then Some "route snapshot provider_receipt_key_source invalid"
  else if negb (String.eqb r.(rs_Mode) RouteSnapshotModeObserve
                || String.eqb r.(rs_Mode) RouteSnapshotModeEnforce)
  then Some "route snapshot route_snapshot_mode invalid"
  else if (negb (String.eqb r.(rs_ProviderReportedModelHashAlgorithm) "")
           || negb (String.eqb r.(rs_ExpectedCatalogModelHashAlgorithm) ""))
          && (negb (String.eqb r.(rs_ProviderReportedModelHashAlgorithm) SnapshotManifestV1)
              || negb (String.eqb r.(rs_ExpectedCatalogModelHashAlgorithm) SnapshotManifestV1))
  then Some "route snapshot model hash algorithm invalid"
  else
  match first_failing hex64Pattern [
    ("provider_reported_model_hash", r.(rs_ProviderReportedModelHash));
    ("expected_catalog_model_hash", r.(rs_ExpectedCatalogModelHash));
    ("catalog_body_digest", r.(rs_CatalogBodyDigest));
    ("prompt_hash", r.(rs_PromptHash))] with
  | Some field => Some ("route snapshot " +:+ field +:+ " must be 64 lowercase hex chars")
  | None =>
  if negb (receiptKeyIDPattern r.(rs_CatalogSignaturePubkeyFingerprint))
  then Some "route snapshot catalog_signature_pubkey_fingerprint invalid"
  else if (r.(rs_CatalogExpiresAtUnixMS) <=? 0) || (r.(rs_RouteDecisionTSUnixMS) <=? 0)
          || (r.(rs_RequestStartTSUnixMS) <=? 0)
  then Some "route snapshot timestamps must be positive"
  else if (r.(rs_PendingDeadlineSeconds) <=? 0)
          || (MaxPendingReceiptDeadlineSeconds <? r.(rs_PendingDeadlineSeconds))
  then Some "route snapshot pending_deadline_seconds must be between 1 and 900"
  else None
  end end%bool.

(** [CanonicalSHA256Hex]; the digest and the canonical bytes. *)
Definition CanonicalSHA256Hex (v : gmap string JVal) : option (string * string) :=
  canonical ← CanonicalJSON (flat_object v); Some (sha256_hex canonical, canonical).

Definition snapshot_Digest (r : RouteSnapshot) : option (string * string) :=
  match snapshot_Validate r with
  | Some _ => None
  | None => CanonicalSHA256Hex (snapshot_Value r)
  end.

(** ** Parsing *)

Definition settlementInvalid (reason rv : string) : SettlementVerifyResult :=
  mkVerify SettlementOutcomeQuarantined SettlementReceiptResultInvalid reason rv None no_checks.
Definition settlementQuarantined (reason rv : string) : SettlementVerifyResult :=
  mkVerify SettlementOutcomeQuarantined SettlementReceiptResultInvalid reason rv None no_checks.
Definition settlementInvalidWithFacts (reason rv : string) (facts : SettlementReceiptFacts)
    (checks : SettlementVerificationChecks) : SettlementVerifyResult :=
  let out := settlementInvalid reason rv in
  mkVerify (Outcome out) (ReceiptResult out) (Reason out) (ReceiptVersion out) (Some facts) checks.

(** [header[:dot]] and [header[dot+1:]]. *)
Definition splitSettlementReceiptEnvelope (header : string) : option (string * string) :=
  match GoStr.index_byte (GoStr.chars header) "." with
  | None => None
  | Some dot =>
      let rest := skipn (S dot) (GoStr.chars header) in
      if ((dot =? 0)%nat || (S dot =? length (GoStr.chars header))%nat
          || match GoStr.index_byte rest "." with Some _ => true | None => false end)%bool
      then None
      else
        tupleRaw ← base64_decode (GoStr.of_chars (firstn dot (GoStr.chars header)));
        signature ← base64_decode (GoStr.of_chars rest);
        if (length (GoStr.chars signature) =? 64)%nat then Some (tupleRaw, signature) else None
  end.

(** [validateSettlementTupleScalars]: [None] when valid, else the error text. *)
Definition validateSettlementTupleScalars (t : settlementTupleV04) : option string :=
  match first_failing nonblank [
    ("account_scope", t.(tu_AccountScope)); ("catalog_id", t.(tu_CatalogID));
    ("model_id", t.(tu_ModelID)); ("provider_id", t.(tu_ProviderID));
    ("request_id", t.(tu_RequestID)); ("route_snapshot_mode", t.(tu_RouteSnapshotMode));
    ("route_snapshot_policy_version", t.(tu_RouteSnapshotPolicyVersion))] with
  | Some field => Some (field +:+ "_missing")
  | None =>
  match first_failing hex64Pattern [
    ("catalog_body_digest", t.(tu_CatalogBodyDigest));
    ("expected_catalog_model_hash", t.(tu_ExpectedCatalogModelHash));
    ("model_hash", t.(tu_ModelHash)); ("output_hash", t.(tu_OutputHash));
    ("prompt_hash", t.(tu_PromptHash)); ("route_snapshot_digest", t.(tu_RouteSnapshotDigest))] with
  | Some field => Some (field +:+ "_invalid")
  | None =>
  if negb (String.eqb t.(tu_ReceiptVersion) "4") then Some "receipt_version_invalid"
  else if (t.(tu_IssuedAtUnixMS) <=? 0) || (t.(tu_TerminalStateTSUnixMS) <=? 0)
  then Some "timestamp_invalid"
  else if (t.(tu_AttemptN) <? 0) || (t.(tu_OutputPrefixStartByte) <? 0)
          || (t.(tu_OutputPrefixEndByte) <? t.(tu_OutputPrefixStartByte))
  then Some "range_invalid"
  else None
  end end%bool.

Definition settlementRawString (fields : gmap string string) (key : string) : string :=
  match fields !! key with Some raw => json_string raw | None => "" end.

Definition settlementRawObject (fields : gmap string string) (key : string)
    : option (gmap string string) :=
  raw ← fields !! key; json_raw_object raw.

(** [sameSettlementStringSet(sortedSettlementKeys(fields), want)] on
    duplicate-free [want]: the sorted lists agree exactly when the sets do. *)
Definition same_keys (fields : gmap string string) (want : list string) : bool :=
  bool_decide (dom fields = list_to_set (C := gset string) want).

(** The parsed tuple, signature, raw bytes and canonical bytes, or the verdict. *)
Definition parseSettlementReceiptV04 (header : string)
    : (settlementTupleV04 * string * string * string) + SettlementVerifyResult :=
  match splitSettlementReceiptEnvelope header with
  | None => inr (settlementInvalid "receipt_envelope_invalid" "")
  | Some (tupleRaw, signature) =>
  match json_raw_object tupleRaw with
  | None => inr (settlementInvalid "tuple_json_invalid" "")
  | Some fields =>
  let rv := settlementRawString fields "receipt_version" in
  if String.eqb rv "" then inr (settlementInvalid "not_settlement_capable" "")
  else if negb (String.eqb rv "4") then
    if (String.eqb rv "1" || String.eqb rv "2" || String.eqb rv "3")%bool
    then inr (settlementInvalid "not_settlement_capable" rv)
    else inr (mkVerify SettlementOutcomeQuarantined SettlementReceiptResultInconclusive
                "unknown_receipt_version" rv None no_checks)
  else if negb (same_keys fields v04SettlementTupleKeys)
  then inr (settlementInvalid "tuple_shape_invalid" rv)
  else
  match settlementRawObject fields "usage" with
  | None => inr (settlementInvalid "usage_shape_invalid" rv)
  | Some usageFields =>
  if negb (same_keys usageFields v04SettlementUsageKeys)
  then inr (settlementInvalid "usage_shape_invalid" rv)
  else
  match json_any tupleRaw ≫= CanonicalJSON with
  | None => inr (settlementInvalid "tuple_json_invalid" rv)
  | Some canonical =>
  match json_tuple tupleRaw with
  | None => inr (settlementInvalid "tuple_type_invalid" rv)
  | Some tuple =>
  match validateSettlementTupleScalars tuple with
  | Some err => inr (settlementInvalid err rv)
  | None => inl (tuple, signature, tupleRaw, canonical)
  end end end end end end.

Definition usage_Value (u : SettlementUsage) : gmap string JVal :=
  list_to_map [
    ("billable_input_tokens", JInt u.(BillableInputTokens));
    ("billable_output_tokens", JInt u.(BillableOutputTokens));
    ("delivered_output_bytes", JInt u.(DeliveredOutputBytes));
    ("observed_input_tokens", JInt u.(ObservedInputTokens));
    ("observed_output_tokens", JInt u.(ObservedOutputTokens))].

Definition settlementFacts (t : settlementTupleV04) (canonical : string) : SettlementReceiptFacts :=
  mkFacts t.(tu_AccountScope) t.(tu_RequestID) t.(tu_AttemptN) t.(tu_ProviderID)
    t.(tu_ProviderReceiptKeyID) t.(tu_ReceiptVersion) t.(tu_ModelID) t.(tu_ModelHash)
    t.(tu_ExpectedCatalogModelHash) t.(tu_CatalogID) t.(tu_CatalogBodyDigest) t.(tu_PromptHash)
    t.(tu_OutputHash) t.(tu_OutputPrefixStartByte) t.(tu_OutputPrefixEndByte)
    t.(tu_RouteSnapshotDigest) t.(tu_RouteSnapshotMode) t.(tu_RouteSnapshotPolicyVersion)
    t.(tu_SignatureKeyAlg) t.(tu_TerminalState) t.(tu_TerminalStateTSUnixMS) t.(tu_IssuedAtUnixMS)
    (match CanonicalSHA256Hex (usage_Value t.(tu_Usage)) with Some (d, _) => d | None => "" end)
    (sha256_hex canonical).

(** ** Matching the tuple against the recorded context *)

Definition deadlineUnixMS (i : SettlementVerifyInput) : Z :=
  Int64.add i.(in_TerminalStateTSUnixMS) (Int64.mul i.(in_Route).(rs_PendingDeadlineSeconds) 1000).

Definition pendingUntilSettlementDeadline (i : SettlementVerifyInput) (reason : string)
    : SettlementVerifyResult :=
  let now := if i.(NowUnixMS) =? 0 then i.(ReceiptReceivedUnixMS) else i.(NowUnixMS) in
  if deadlineUnixMS i <? now then settlementQuarantined (reason +:+ "_deadline_elapsed") ""
  else mkVerify SettlementOutcomePending SettlementReceiptResultInconclusive reason "" None no_checks.

Definition neqs (a b : string) : bool := negb (String.eqb a b).
Definition neqz (a b : Z) : bool := negb (a =? b).

(** The pointer argument [checks] is threaded: the result is the reason, empty
    on success, and the checks as left by the function. *)
Definition tupleMatchesSettlementContext (t : settlementTupleV04) (i : SettlementVerifyInput)
    (routeDigest : string) (c : SettlementVerificationChecks)
    : string * SettlementVerificationChecks :=
  let r := i.(in_Route) in
  if neqs t.(tu_AccountScope) i.(in_AccountScope) || neqs t.(tu_AccountScope) r.(rs_AccountScope)
  then ("account_scope_mismatch", c)
  else if neqs t.(tu_RequestID) i.(in_RequestID) || neqs t.(tu_RequestID) r.(rs_RequestID)
  then ("request_id_mismatch", c)
  else if neqz t.(tu_AttemptN) i.(in_AttemptN) || neqz t.(tu_AttemptN) r.(rs_AttemptN)
  then ("attempt_mismatch", c)
  else if neqs t.(tu_ProviderID) i.(in_ProviderID) || neqs t.(tu_ProviderID) r.(rs_ProviderID)
  then ("provider_id_mismatch", c)
  else if neqs t.(tu_ProviderReceiptKeyID) i.(in_ProviderReceiptKeyID)
  then ("provider_receipt_key_id_mismatch", c)
  else if neqs t.(tu_RouteSnapshotDigest) routeDigest then ("route_snapshot_digest_mismatch", c)
  else if neqs t.(tu_RouteSnapshotMode) r.(rs_Mode) then ("route_snapshot_mode_mismatch", c)
  else if neqs t.(tu_RouteSnapshotPolicyVersion) r.(rs_PolicyVersion)
  then ("route_snapshot_policy_version_mismatch", c)
  else if neqs t.(tu_ModelID) r.(rs_ModelID) then ("model_id_mismatch", c)
  else if neqs t.(tu_ModelHash) r.(rs_ProviderReportedModelHash)
          || neqs t.(tu_ModelHash) r.(rs_ExpectedCatalogModelHash)
  then ("model_hash_mismatch", c)
  else if neqs t.(tu_ExpectedCatalogModelHash) r.(rs_ExpectedCatalogModelHash)
  then ("expected_catalog_model_hash_mismatch", c)
  else if neqs t.(tu_CatalogID) r.(rs_CatalogID)
          || neqs t.(tu_CatalogBodyDigest) r.(rs_CatalogBodyDigest)
  then ("catalog_snapshot_mismatch", c)
  else
  let c := mkChecks c.(ck_SignatureVerified) true c.(ck_PromptHashMatched) c.(ck_OutputHashMatched)
    c.(ck_UsageMatched) c.(ck_UsageCrossChecked) c.(ck_NoOverlap) c.(ck_TerminalStateMatched)
    c.(ck_TimestampWindowValid) in
  if neqs t.(tu_PromptHash) r.(rs_PromptHash) then ("prompt_hash_mismatch", c)
  else
  let c := mkChecks c.(ck_SignatureVerified) c.(ck_RouteSnapshotMatched) true c.(ck_OutputHashMatched)
    c.(ck_UsageMatched) c.(ck_UsageCrossChecked) c.(ck_NoOverlap) c.(ck_TerminalStateMatched)
    c.(ck_TimestampWindowValid) in
  if neqs t.(tu_OutputHash) i.(in_OutputHash) then ("output_hash_mismatch", c)
  else if neqz t.(tu_OutputPrefixStartByte) i.(in_OutputPrefixStartByte)
          || neqz t.(tu_OutputPrefixEndByte) i.(in_OutputPrefixEndByte)
  then ("output_prefix_mismatch", c)
  else
  let c := mkChecks c.(ck_SignatureVerified) c.(ck_RouteSnapshotMatched) c.(ck_PromptHashMatched) true
    c.(ck_UsageMatched) c.(ck_UsageCrossChecked) c.(ck_NoOverlap) c.(ck_TerminalStateMatched)
    c.(ck_TimestampWindowValid) in
  if negb (existsb (String.eqb t.(tu_TerminalState)) settlementTerminalStates)
  then ("terminal_state_out_of_enum", c)
  else if neqs t.(tu_TerminalState) i.(in_TerminalState) then ("terminal_state_mismatch", c)
  else
  let c := mkChecks c.(ck_SignatureVerified) c.(ck_RouteSnapshotMatched) c.(ck_PromptHashMatched)
    c.(ck_OutputHashMatched) c.(ck_UsageMatched) c.(ck_UsageCrossChecked) c.(ck_NoOverlap) true
    c.(ck_TimestampWindowValid) in
  if neqz t.(tu_TerminalStateTSUnixMS) i.(in_TerminalStateTSUnixMS)
  then ("terminal_state_timestamp_mismatch", c)
  else if (t.(tu_IssuedAtUnixMS) <? Int64.sub r.(rs_RequestStartTSUnixMS) maxSettlementClockSkewMS)
          || (Int64.add i.(ReceiptReceivedUnixMS) maxSettlementClockSkewMS <? t.(tu_IssuedAtUnixMS))
  then ("issued_at_window_mismatch", c)
  else
  ("", mkChecks c.(ck_SignatureVerified) c.(ck_RouteSnapshotMatched) c.(ck_PromptHashMatched)
    c.(ck_OutputHashMatched) c.(ck_UsageMatched) c.(ck_UsageCrossChecked) c.(ck_NoOverlap)
    c.(ck_TerminalStateMatched) true)%bool.

Definition tupleSettlementUsage (t : settlementTupleV04) : string :=
  let u := t.(tu_Usage) in
  if (t.(tu_OutputPrefixStartByte) <? 0) || (t.(tu_OutputPrefixEndByte) <? 0)
     || (t.(tu_OutputPrefixEndByte) <? t.(tu_OutputPrefixStartByte))
  then "output_prefix_invalid"
  else if (u.(BillableInputTokens) <? 0) || (u.(BillableOutputTokens) <? 0)
          || (u.(DeliveredOutputBytes) <? 0) || (u.(ObservedInputTokens) <? 0)
          || (u.(ObservedOutputTokens) <? 0)
  then "usage_negative_value"
  else if neqz u.(DeliveredOutputBytes)
            (Int64.sub t.(tu_OutputPrefixEndByte) t.(tu_OutputPrefixStartByte))
  then "usage_delivered_bytes_mismatch"
  else if String.eqb t.(tu_TerminalState) "normal_done" then
    if neqz u.(BillableInputTokens) u.(ObservedInputTokens)
       || neqz u.(BillableOutputTokens) u.(ObservedOutputTokens)
    then "usage_observed_mismatch" else ""
  else if u.(DeliveredOutputBytes) =? 0 then
    if neqz u.(BillableInputTokens) 0 || neqz u.(BillableOutputTokens) 0
    then "usage_zero_prefix_billable_tokens" else ""
  else if (u.(ObservedInputTokens) <? u.(BillableInputTokens))
          || (u.(ObservedOutputTokens) <? u.(BillableOutputTokens))
  then "usage_partial_billable_tokens"
  else ""%bool.

Definition tupleUsageMatchesLedger (u : SettlementUsage) (i : SettlementVerifyInput)
    (c : SettlementVerificationChecks) : string * SettlementVerificationChecks :=
  if negb i.(UsageCrossChecked) then ("usage_not_cross_checked", c)
  else if neqs i.(UsageSource) UsageSourceCoordinatorObserved
  then ("usage_source_not_settlement_capable", c)
  else
  let c := mkChecks c.(ck_SignatureVerified) c.(ck_RouteSnapshotMatched) c.(ck_PromptHashMatched)
    c.(ck_OutputHashMatched) c.(ck_UsageMatched) true c.(ck_NoOverlap) c.(ck_TerminalStateMatched)
    c.(ck_TimestampWindowValid) in
  let e := i.(ExpectedUsage) in
  if neqz u.(BillableInputTokens) e.(BillableInputTokens)
     || neqz u.(BillableOutputTokens) e.(BillableOutputTokens)
     || neqz u.(DeliveredOutputBytes) e.(DeliveredOutputBytes)
     || neqz u.(ObservedInputTokens) e.(ObservedInputTokens)
     || neqz u.(ObservedOutputTokens) e.(ObservedOutputTokens)
  then ("usage_mismatch", c)
  else
  ("", mkChecks c.(ck_SignatureVerified) c.(ck_RouteSnapshotMatched) c.(ck_PromptHashMatched)
    c.(ck_OutputHashMatched) true c.(ck_UsageCrossChecked) c.(ck_NoOverlap)
    c.(ck_TerminalStateMatched) c.(ck_TimestampWindowValid))%bool.

(** ** The verifier *)

Definition VerifySettlementReceipt (i : SettlementVerifyInput) : SettlementVerifyResult :=
  if i.(AlreadyDeadlineQuarantined) then settlementQuarantined "deadline_quarantined" ""
  else if i.(TerminalOutcomeFinal) then settlementQuarantined "duplicate_receipt_after_terminal" ""
  else if i.(ReceiptMissing) then pendingUntilSettlementDeadline i "missing_receipt"
  else if i.(TrustRootInconclusive) then pendingUntilSettlementDeadline i "trust_root_inconclusive"
  else if negb i.(CanonicalHashesAvailable) then settlementQuarantined "canonical_hash_unavailable" ""
  else if i.(OverlappingOrDuplicate) then settlementQuarantined "overlapping_output_prefix" ""
  else
  let checks := mkChecks false false false false false false true false false in
  match snapshot_Digest i.(in_Route) with
  | None => settlementQuarantined "route_snapshot_invalid" ""
  | Some (routeDigest, _) =>
  if deadlineUnixMS i <? i.(ReceiptReceivedUnixMS)
  then settlementQuarantined "receipt_after_deadline" ""
  else
  match parseSettlementReceiptV04 i.(Header) with
  | inr parseResult => parseResult
  | inl (tuple, signature, raw, canonical) =>
  let facts := settlementFacts tuple canonical in
  let rv := tuple.(tu_ReceiptVersion) in
  if neqs raw canonical then settlementInvalidWithFacts "non_canonical_tuple" rv facts checks
  else if neqs tuple.(tu_SignatureKeyAlg) "Ed25519"
  then settlementInvalidWithFacts "signature_key_alg_invalid" rv facts checks
  else if negb (receiptKeyIDPattern tuple.(tu_ProviderReceiptKeyID))
  then settlementInvalidWithFacts "provider_receipt_key_id_invalid" rv facts checks
  else if (match ReceiptKeyID i.(ProviderReceiptPubkey) with
           | None => true
           | Some pinnedKeyID => neqs tuple.(tu_ProviderReceiptKeyID) pinnedKeyID
           end || neqs tuple.(tu_ProviderReceiptKeyID) i.(in_Route).(rs_ProviderReceiptKeyID))%bool
  then settlementInvalidWithFacts "provider_receipt_key_id_mismatch" rv facts checks
  else if negb (ed25519_Verify i.(ProviderReceiptPubkey) raw signature)
  then settlementInvalidWithFacts "signature_verify_failed" rv facts checks
  else
  let checks := mkChecks true false false false false false true false false in
  let '(reason, checks) := tupleMatchesSettlementContext tuple i routeDigest checks in
  if neqs reason "" then settlementInvalidWithFacts reason rv facts checks
  else
  let reason := tupleSettlementUsage tuple in
  if neqs reason "" then settlementInvalidWithFacts reason rv facts checks
  else
  let '(reason, checks) := tupleUsageMatchesLedger tuple.(tu_Usage) i checks in
  if neqs reason "" then settlementInvalidWithFacts reason rv facts checks
  else if (neqs tuple.(tu_TerminalState) "normal_done"
           && (tuple.(tu_Usage).(DeliveredOutputBytes) =? 0))%bool
  then mkVerify SettlementOutcomeZeroSettled SettlementReceiptResultValid
         "verified_zero_settlement" rv (Some facts) checks
  else mkVerify SettlementOutcomeVerified SettlementReceiptResultValid
         "verified_settlement" rv (Some facts) checks
  end end.
End Verifier.

(** ** Specification

    What a receipt must be for the attempt to settle, stated on the receipt and
    the recorded context, without the order in which the verifier checks it. *)

Record matches_context (t : settlementTupleV04) (i : SettlementVerifyInput) (digest : string) : Prop := {
  mc_account : tu_AccountScope t = in_AccountScope i /\ tu_AccountScope t = rs_AccountScope (in_Route i);
  mc_request : tu_RequestID t = in_RequestID i /\ tu_RequestID t = rs_RequestID (in_Route i);
  mc_attempt : tu_AttemptN t = in_AttemptN i /\ tu_AttemptN t = rs_AttemptN (in_Route i);
  mc_provider : tu_ProviderID t = in_ProviderID i /\ tu_ProviderID t = rs_ProviderID (in_Route i);
  mc_key : tu_ProviderReceiptKeyID t = in_ProviderReceiptKeyID i;
  mc_digest : tu_RouteSnapshotDigest t = digest;
  mc_mode : tu_RouteSnapshotMode t = rs_Mode (in_Route i);
  mc_policy : tu_RouteSnapshotPolicyVersion t = rs_PolicyVersion (in_Route i);
  mc_model : tu_ModelID t = rs_ModelID (in_Route i);
  mc_hash : tu_ModelHash t = rs_ProviderReportedModelHash (in_Route i) /\
            tu_ModelHash t = rs_ExpectedCatalogModelHash (in_Route i);
  mc_expected : tu_ExpectedCatalogModelHash t = rs_ExpectedCatalogModelHash (in_Route i);
  mc_catalog : tu_CatalogID t = rs_CatalogID (in_Route i) /\
               tu_CatalogBodyDigest t = rs_CatalogBodyDigest (in_Route i);
  mc_prompt : tu_PromptHash t = rs_PromptHash (in_Route i);
  mc_output : tu_OutputHash t = in_OutputHash i;
  mc_prefix : tu_OutputPrefixStartByte t = in_OutputPrefixStartByte i /\
              tu_OutputPrefixEndByte t = in_OutputPrefixEndByte i;
  mc_terminal : tu_TerminalState t ∈ settlementTerminalStates /\
                tu_TerminalState t = in_TerminalState i;
  mc_ts : tu_TerminalStateTSUnixMS t = in_TerminalStateTSUnixMS i;
  mc_window : Int64.sub (rs_RequestStartTSUnixMS (in_Route i)) maxSettlementClockSkewMS
                <= tu_IssuedAtUnixMS t
                <= Int64.add (ReceiptReceivedUnixMS i) maxSettlementClockSkewMS;
}.

(** The billed usage is non-negative, covers exactly the delivered prefix, and
    never exceeds the observed usage. *)
Record usage_billable (t : settlementTupleV04) : Prop := {
  ub_prefix : 0 <= tu_OutputPrefixStartByte t <= tu_OutputPrefixEndByte t;
  ub_nonneg : 0 <= BillableInputTokens (tu_Usage t) /\ 0 <= BillableOutputTokens (tu_Usage t) /\
              0 <= ObservedInputTokens (tu_Usage t) /\ 0 <= ObservedOutputTokens (tu_Usage t) /\
              0 <= DeliveredOutputBytes (tu_Usage t);
  ub_delivered : DeliveredOutputBytes (tu_Usage t)
                 = Int64.sub (tu_OutputPrefixEndByte t) (tu_OutputPrefixStartByte t);
  ub_cap : BillableInputTokens (tu_Usage t) <= ObservedInputTokens (tu_Usage t) /\
           BillableOutputTokens (tu_Usage t) <= ObservedOutputTokens (tu_Usage t);
  ub_done : tu_TerminalState t = "normal_done" ->
            BillableInputTokens (tu_Usage t) = ObservedInputTokens (tu_Usage t) /\
            BillableOutputTokens (tu_Usage t) = ObservedOutputTokens (tu_Usage t);
  ub_zero : tu_TerminalState t <> "normal_done" -> DeliveredOutputBytes (tu_Usage t) = 0 ->
            BillableInputTokens (tu_Usage t) = 0 /\ BillableOutputTokens (tu_Usage t) = 0;
}.

Section Spec.
Context `{GoLib}.

Record genuine (i : SettlementVerifyInput) (t : settlementTupleV04) : Prop := {
  ge_open : AlreadyDeadlineQuarantined i = false /\ TerminalOutcomeFinal i = false /\
            ReceiptMissing i = false /\ TrustRootInconclusive i = false /\
            CanonicalHashesAvailable i = true /\ OverlappingOrDuplicate i = false;
  ge_time : ReceiptReceivedUnixMS i <= deadlineUnixMS i;
  ge_signed : exists sig raw digest canonical key,
    snapshot_Digest (in_Route i) = Some (digest, canonical) /\
    parseSettlementReceiptV04 (Header i) = inl (t, sig, raw, raw) /\
    tu_SignatureKeyAlg t = "Ed25519" /\ receiptKeyIDPattern key = true /\
    ReceiptKeyID (ProviderReceiptPubkey i) = Some key /\ tu_ProviderReceiptKeyID t = key /\
    rs_ProviderReceiptKeyID (in_Route i) = key /\
    ed25519_Verify (ProviderReceiptPubkey i) raw sig = true /\
    matches_context t i digest;
  ge_usage : usage_billable t;
  ge_ledger : UsageCrossChecked i = true /\ UsageSource i = UsageSourceCoordinatorObserved /\
              tu_Usage t = ExpectedUsage i;
}.
End Spec.

(** ** Proofs *)

Lemma neqs_true a b : neqs a b = true <-> a <> b.
Proof. unfold neqs. by rewrite negb_true_iff, String.eqb_neq. Qed.
Lemma neqs_false a b : neqs a b = false <-> a = b.
Proof. unfold neqs. by rewrite negb_false_iff, String.eqb_eq. Qed.
Lemma neqz_true a b : neqz a b = true <-> a <> b.
Proof. unfold neqz. by rewrite negb_true_iff, Z.eqb_neq. Qed.
Lemma neqz_false a b : neqz a b = false <-> a = b.
Proof. unfold neqz. by rewrite negb_false_iff, Z.eqb_eq. Qed.

(** Turns the verifier's tests in the hypotheses into propositions. *)
Ltac tests :=
  repeat match goal with
  | H : (_ || _)%bool = true |- _ => apply orb_true_iff in H
  | H : (_ || _)%bool = false |- _ => apply orb_false_iff in H as [? ?]
  | H : (_ && _)%bool = true |- _ => apply andb_true_iff in H as [? ?]
  | H : neqs _ _ = true |- _ => apply neqs_true in H
  | H : neqs _ _ = false |- _ => apply neqs_false in H
  | H : neqz _ _ = true |- _ => apply neqz_true in H
  | H : neqz _ _ = false |- _ => apply neqz_false in H
  | H : negb _ = true |- _ => apply negb_true_iff in H
  | H : negb _ = false |- _ => apply negb_false_iff in H
  | H : String.eqb _ _ = true |- _ => apply String.eqb_eq in H
  | H : String.eqb _ _ = false |- _ => apply String.eqb_neq in H
  | H : (_ <? _) = true |- _ => apply Z.ltb_lt in H
  | H : (_ <? _) = false |- _ => apply Z.ltb_ge in H
  | H : (_ =? _) = true |- _ => apply Z.eqb_eq in H
  | H : (_ =? _) = false |- _ => apply Z.eqb_neq in H
  end.

Lemma terminal_state_known s :
  existsb (String.eqb s) settlementTerminalStates = true <-> s ∈ settlementTerminalStates.
Proof.
  rewrite existsb_elem. split.
  - intros (x & Hx & E). apply String.eqb_eq in E. by subst.
  - intros Hs. exists s. by rewrite String.eqb_refl.
Qed.

(** Unfolds the local definitions of the checks, one at a time. *)
Ltac flatten_checks :=
  cbn [ck_SignatureVerified ck_RouteSnapshotMatched ck_PromptHashMatched ck_OutputHashMatched
       ck_UsageMatched ck_UsageCrossChecked ck_NoOverlap ck_TerminalStateMatched
       ck_TimestampWindowValid].

(** Walks down a chain of guards that ended with the empty reason. *)
Ltac pass_guard H :=
  match type of H with
  | (if ?b then (_, _) else _).1 = "" => destruct b eqn:?; [discriminate H|]
  end.

Lemma context_sound t i d c :
  (tupleMatchesSettlementContext t i d c).1 = "" ->
  matches_context t i d /\
  (tupleMatchesSettlementContext t i d c).2
  = mkChecks (ck_SignatureVerified c) true true true (ck_UsageMatched c) (ck_UsageCrossChecked c)
      (ck_NoOverlap c) true true.
Proof.
  unfold tupleMatchesSettlementContext. destruct c. flatten_checks. intros Hr.
  repeat pass_guard Hr. split; [|reflexivity]. tests.
  match goal with H : existsb _ _ = true |- _ => apply terminal_state_known in H end.
  constructor; try split; congruence || lia || done.
Qed.

Lemma context_complete t i d c :
  matches_context t i d -> (tupleMatchesSettlementContext t i d c).1 = "".
Proof.
  intros []. unfold tupleMatchesSettlementContext. destruct c. flatten_checks.
  repeat match goal with H : _ /\ _ |- _ => destruct H end.
  repeat match goal with
  | |- (if ?b then (_, _) else _).1 = "" =>
      replace b with false; [|symmetry; rewrite ?orb_false_iff, ?neqs_false, ?neqz_false,
        ?negb_false_iff, ?terminal_state_known, ?Z.ltb_ge; repeat split; first [congruence|lia]]
  end. reflexivity.
Qed.

Lemma usage_iff t : tupleSettlementUsage t = "" <-> usage_billable t.
Proof.
  unfold tupleSettlementUsage. cbv zeta. split.
  - intros Hr. split_ifs; try discriminate Hr; tests; constructor; intros;
      repeat split; congruence || lia.
  - intros [Hp (? & ? & ? & ? & ?) Hd [? ?] Hdone Hz].
    split_ifs; tests; try reflexivity; exfalso.
    all: repeat match goal with
      | H : _ \/ _ |- _ => destruct H; tests
      | H : ?P -> _, H' : ?P |- _ => specialize (H H')
      | H : _ /\ _ |- _ => destruct H
      end; congruence || lia.
Qed.

Lemma ledger_iff u i c :
  (tupleUsageMatchesLedger u i c).1 = ""
  <-> UsageCrossChecked i = true /\ UsageSource i = UsageSourceCoordinatorObserved /\
      u = ExpectedUsage i.
Proof.
  unfold tupleUsageMatchesLedger. destruct c. flatten_checks. split.
  - intros Hr. repeat pass_guard Hr. tests. repeat split; auto.
    destruct u, (ExpectedUsage i). simpl in *. congruence.
  - intros (H1 & H2 & H3). rewrite H1, H2, H3. unfold neqs, neqz.
    by rewrite String.eqb_refl, !Z.eqb_refl.
Qed.

Lemma ledger_checks u i c :
  (tupleUsageMatchesLedger u i c).1 = "" ->
  (tupleUsageMatchesLedger u i c).2
  = mkChecks (ck_SignatureVerified c) (ck_RouteSnapshotMatched c) (ck_PromptHashMatched c)
      (ck_OutputHashMatched c) true true (ck_NoOverlap c) (ck_TerminalStateMatched c)
      (ck_TimestampWindowValid c).
Proof.
  unfold tupleUsageMatchesLedger. destruct c. flatten_checks. intros Hr.
  repeat pass_guard Hr. reflexivity.
Qed.

Section Correctness.
Context `{GoLib}.

Lemma parse_never_valid h r :
  parseSettlementReceiptV04 h = inr r -> ReceiptResult r <> SettlementReceiptResultValid.
Proof.
  unfold parseSettlementReceiptV04. intros Hp.
  repeat (case_match; simplify_eq; try discriminate).
Qed.

(** The outcome of a receipt that passes every check. *)
Definition settled_outcome (t : settlementTupleV04) : string :=
  if (neqs t.(tu_TerminalState) "normal_done" && (DeliveredOutputBytes t.(tu_Usage) =? 0))%bool
  then SettlementOutcomeZeroSettled else SettlementOutcomeVerified.

Definition all_checks : SettlementVerificationChecks :=
  mkChecks true true true true true true true true true.

(** Steps over one test of the verifier in a hypothesis about a valid result;
    a branch that answers with a fixed invalid result is closed. *)
Ltac step_valid H :=
  match type of H with
  | ReceiptResult (if ?b then _ else _) = _ => destruct b eqn:?; [try discriminate H|]
  | ReceiptResult (match ?x with _ => _ end) = _ => destruct x eqn:?; try discriminate H
  end.

Lemma verify_valid_genuine i :
  ReceiptResult (VerifySettlementReceipt i) = SettlementReceiptResultValid ->
  exists t, genuine i t.
Proof.
  unfold VerifySettlementReceipt, pendingUntilSettlementDeadline. cbv zeta. intros Hv.
  do 2 (step_valid Hv). step_valid Hv; [by destruct (deadlineUnixMS i <? _)|].
  step_valid Hv; [by destruct (deadlineUnixMS i <? _)|].
  do 2 (step_valid Hv).
  destruct (snapshot_Digest _) as [[digest canonical]|] eqn:Hdig; [|discriminate].
  step_valid Hv.
  destruct (parseSettlementReceiptV04 _) as [[[[t sig] raw] canon]|r] eqn:Hp;
    [|by apply (parse_never_valid _ _ Hp) in Hv].
  do 5 (step_valid Hv).
  destruct (tupleMatchesSettlementContext t i digest _) as [reason c1] eqn:Hc.
  do 2 (step_valid Hv).
  destruct (tupleUsageMatchesLedger _ i c1) as [reason2 c2] eqn:Hl.
  step_valid Hv. clear Hv. tests. subst.
  pose proof (f_equal fst Hc) as Hc1%context_sound. destruct Hc1 as [Hm _].
  pose proof (f_equal fst Hl) as Hl1%ledger_iff.
  destruct (ReceiptKeyID _) as [key|] eqn:Hkey; [|discriminate]. tests.
  exists t. constructor; [repeat split; auto| lia | | by apply usage_iff | exact Hl1].
  exists sig, canon, digest, canonical, key. repeat split; congruence || eauto.
  all: apply Hm.
Qed.

Lemma genuine_verify i t :
  genuine i t ->
  let r := VerifySettlementReceipt i in
  Outcome r = settled_outcome t /\ ReceiptResult r = SettlementReceiptResultValid /\
  Checks r = all_checks.
Proof.
  intros [(H1 & H2 & H3 & H4 & H5 & H6) Ht
    (sig & raw & digest & canonical & key & Hd & Hp & Ha & Hk & Hpk & Htk & Hrk & Hs & Hm) Hu Hl].
  unfold VerifySettlementReceipt. cbv zeta. rewrite H1, H2, H3, H4, H5, H6. cbn [negb].
  rewrite Hd. replace (deadlineUnixMS i <? _) with false by lia. rewrite Hp, Ha, Htk, Hpk, Hrk, Hk, Hs.
  replace (neqs raw raw) with false by (symmetry; by apply neqs_false).
  replace (neqs key key) with false by (symmetry; by apply neqs_false). simpl.
  pose proof (context_complete t i digest
    (mkChecks true false false false false false true false false) Hm) as Hc.
  pose proof (context_sound _ _ _ _ Hc) as [_ Hc2].
  destruct (tupleMatchesSettlementContext _ _ _ _) as [reason c1]. simpl in Hc, Hc2. subst.
  apply usage_iff in Hu. rewrite Hu. simpl.
  apply (ledger_iff _ _ (mkChecks true true true true false false true true true)) in Hl.
  pose proof (ledger_checks _ _ _ Hl) as Hl2.
  destruct (tupleUsageMatchesLedger _ _ _) as [reason2 c2]. simpl in Hl, Hl2. subst. simpl.
  unfold settled_outcome. by destruct (_ && _)%bool.
Qed.

(** Only a valid receipt settles. *)
Lemma settled_is_valid i :
  Outcome (VerifySettlementReceipt i) = SettlementOutcomeVerified \/
  Outcome (VerifySettlementReceipt i) = SettlementOutcomeZeroSettled ->
  ReceiptResult (VerifySettlementReceipt i) = SettlementReceiptResultValid.
Proof.
  unfold VerifySettlementReceipt, pendingUntilSettlementDeadline. cbv zeta.
  intros Ho. repeat (case_match; try (destruct Ho; discriminate); try reflexivity).
  match goal with Hp : parseSettlementReceiptV04 _ = inr _ |- _ =>
    unfold parseSettlementReceiptV04 in Hp end.
  repeat (case_match; simplify_eq; try (destruct Ho; discriminate)).
Qed.
End Correctness.

(** Claim C27. The verifier accepts exactly the genuine receipts: the result is
    valid if and only if the receipt parses to a canonical tuple signed by the
    key the route snapshot pinned, arrived by the deadline, and agrees with the
    recorded route, prompt, output, terminal state and usage. On acceptance
    every check is reported passed and the attempt is verified, or zero-settled
    when nothing was delivered; otherwise it is pending or quarantined. *)
Theorem receipt_valid_iff_genuine `{GoLib} (i : SettlementVerifyInput) :
  let r := VerifySettlementReceipt i in
  (ReceiptResult r = SettlementReceiptResultValid <-> exists t, genuine i t) /\
  (forall t, genuine i t -> Outcome r = settled_outcome t /\ Checks r = all_checks) /\
  (Outcome r = SettlementOutcomeVerified \/ Outcome r = SettlementOutcomeZeroSettled
   <-> ReceiptResult r = SettlementReceiptResultValid).
Proof.
  cbv zeta. split; [|split].
  - split; [apply verify_valid_genuine|]. intros [t Ht]. by apply genuine_verify in Ht as (_ & ? & _).
  - intros t Ht. by apply genuine_verify in Ht as (? & _ & ?).
  - split.
    + apply settled_is_valid.
    + intros [t Ht]%verify_valid_genuine. apply genuine_verify in Ht as (-> & _).
      unfold settled_outcome. destruct (_ && _)%bool; auto.
Qed.

(** A settled receipt bills safely: when the attempt is verified or
    zero-settled, the usage it settles is non-negative, at most what the
    coordinator observed, equal to it when the request finished normally, covers
    exactly the delivered output bytes, and is zero when it zero-settles. *)
Theorem settled_usage_safe `{GoLib} (i : SettlementVerifyInput) :
  ReceiptResult (VerifySettlementReceipt i) = SettlementReceiptResultValid ->
  Int64.in_range (in_OutputPrefixEndByte i) ->
  let u := ExpectedUsage i in
  0 <= BillableInputTokens u <= ObservedInputTokens u /\
  0 <= BillableOutputTokens u <= ObservedOutputTokens u /\
  DeliveredOutputBytes u = in_OutputPrefixEndByte i - in_OutputPrefixStartByte i /\
  (in_TerminalState i = "normal_done" ->
     BillableInputTokens u = ObservedInputTokens u /\
     BillableOutputTokens u = ObservedOutputTokens u) /\
  (Outcome (VerifySettlementReceipt i) = SettlementOutcomeZeroSettled ->
     DeliveredOutputBytes u = 0 /\ BillableInputTokens u = 0 /\ BillableOutputTokens u = 0).
Proof.
  intros [t Ht]%verify_valid_genuine Hr. pose proof (genuine_verify i t Ht) as (Ho & _ & _).
  destruct Ht as [_ _ (? & ? & ? & ? & ? & _ & _ & _ & _ & _ & _ & _ & _ & Hm)
    [Hp (? & ? & ? & ? & ?) Hd [? ?] Hdone Hz] (_ & _ & He)].
  destruct (mc_prefix _ _ _ Hm) as [Hs1 Hs2]. destruct (mc_terminal _ _ _ Hm) as [_ Hts].
  cbv zeta. rewrite Ho, <- He, <- Hts. rewrite Hs1, Hs2 in *.
  rewrite Int64.sub_exact in Hd by (i64; lia).
  split; [lia|]. split; [lia|]. split; [exact Hd|]. split; [exact Hdone|].
  unfold settled_outcome. destruct (_ && _)%bool eqn:E; [|discriminate]. tests. intros _.
  split; [done|]. by apply Hz.
Qed.

(** An attempt without a receipt, or with an inconclusive trust root,
    is never settled: it is pending up to the deadline the snapshot fixes, the
    terminal timestamp plus the pending window, and quarantined at every later
    instant. *)
Theorem missing_receipt_deadline `{GoLib} (i : SettlementVerifyInput) :
  AlreadyDeadlineQuarantined i = false -> TerminalOutcomeFinal i = false ->
  (ReceiptMissing i || TrustRootInconclusive i)%bool = true ->
  snapshot_Validate (in_Route i) = None -> NowUnixMS i <> 0 ->
  0 <= in_TerminalStateTSUnixMS i <= Int64.max - 900000 ->
  let deadline := in_TerminalStateTSUnixMS i + rs_PendingDeadlineSeconds (in_Route i) * 1000 in
  let r := VerifySettlementReceipt i in
  (NowUnixMS i <= deadline -> Outcome r = SettlementOutcomePending /\
     ReceiptResult r = SettlementReceiptResultInconclusive) /\
  (deadline < NowUnixMS i -> Outcome r = SettlementOutcomeQuarantined /\
     ReceiptResult r = SettlementReceiptResultInvalid).
Proof.
  intros H1 H2 H3 Hv Hn Hts. cbv zeta. unfold VerifySettlementReceipt. rewrite H1, H2.
  assert (0 < rs_PendingDeadlineSeconds (in_Route i) <= 900) as Hs.
  { revert Hv. unfold snapshot_Validate, MaxPendingReceiptDeadlineSeconds.
    destruct (first_failing nonblank _); [done|].
    intros Hv. repeat (case_match; try discriminate). tests.
    repeat match goal with H : (_ <=? _) = false |- _ => apply Z.leb_gt in H end. lia. }
  assert (deadlineUnixMS i
    = in_TerminalStateTSUnixMS i + rs_PendingDeadlineSeconds (in_Route i) * 1000) as Hd.
  { unfold deadlineUnixMS. rewrite Int64.mul_exact by (i64; lia).
    rewrite Int64.add_exact; [done|]. i64. lia. }
  assert (forall reason, pendingUntilSettlementDeadline i reason
    = if deadlineUnixMS i <? NowUnixMS i then settlementQuarantined (reason +:+ "_deadline_elapsed") ""
      else mkVerify SettlementOutcomePending SettlementReceiptResultInconclusive reason "" None no_checks)
    as Hp.
  { intros reason. unfold pendingUntilSettlementDeadline. cbv zeta.
    by replace (NowUnixMS i =? 0) with false by lia. }
  destruct (ReceiptMissing i); simpl in H3; [|rewrite H3]; rewrite Hp; clear Hp;
    (destruct (_ <? NowUnixMS i) eqn:Hlt; tests; split; intros ?; first [lia|by split]).
Qed.

(** ** The canonical bytes of a snapshot determine it *)

Definition snapshot_texts (r : RouteSnapshot) : list string :=
  [rs_AccountScope r; rs_RequestID r; rs_ProviderID r; default "" (rs_ProviderSessionID r);
   default "" (rs_ProviderGenerationID r); rs_PaidEntrypoint r; rs_ProviderReceiptKeyID r;
   rs_ProviderReceiptKeySource r; rs_ModelID r; rs_ProviderReportedModelHash r;
   rs_ProviderReportedModelHashAlgorithm r; rs_ExpectedCatalogModelHash r;
   rs_ExpectedCatalogModelHashAlgorithm r; rs_CatalogID r; rs_CatalogBodyDigest r;
   rs_CatalogSignatureKeyID r; rs_CatalogSignaturePubkeyFingerprint r; rs_Spec008HashStatus r;
   rs_PolicyVersion r; rs_Mode r; rs_PromptHashBasis r; rs_PromptHash r].

Lemma ascii_text_const s :
  forallb (fun c => (N_of_ascii c <? 128)%N) (GoStr.chars s) = true -> ascii_text s.
Proof.
  intros Hb. apply Forall_forall. intros c Hc. rewrite forallb_forall in Hb.
  apply list_elem_of_In, Hb in Hc. by apply N.ltb_lt.
Qed.

Lemma flat_ascii_insert k v m :
  flat_ascii (k, v) -> Forall flat_ascii (map_to_list m) -> Forall flat_ascii (map_to_list (<[k:=v]> m)).
Proof.
  intros Hk Hm. apply Forall_forall. intros [k' v'] Hin%elem_of_map_to_list.
  destruct (decide (k = k')) as [<-|Hne].
  - rewrite lookup_insert in Hin. case_decide; [by simplify_eq|done].
  - rewrite lookup_insert_ne in Hin by done. rewrite Forall_forall in Hm.
    by apply Hm, elem_of_map_to_list.
Qed.

Lemma flat_ascii_list l : Forall flat_ascii l -> Forall flat_ascii (map_to_list (list_to_map (M := gmap string JVal) l)).
Proof.
  induction 1 as [|[k v] l Hk Hl IH]; [simpl; rewrite map_to_list_empty; constructor|].
  simpl. by apply flat_ascii_insert.
Qed.

Lemma nullable_ascii k v :
  ascii_text k -> ascii_text (default "" v) -> flat_ascii (k, nullableString v).
Proof. intros Hk Hv. split; [done|]. by destruct v. Qed.

Lemma snapshot_Value_ascii r :
  Forall ascii_text (snapshot_texts r) -> Forall flat_ascii (map_to_list (snapshot_Value r)).
Proof.
  intros Hr. assert (Forall flat_ascii (snapshot_base r)) as Hb.
  { unfold snapshot_texts in Hr. rewrite !Forall_cons in Hr. destruct_and! Hr. unfold snapshot_base.
    repeat (apply Forall_cons; split); [..|by constructor];
      first [ apply nullable_ascii; [by apply ascii_text_const|assumption]
            | split; [by apply ascii_text_const|first [assumption|exact I]] ]. }
  unfold snapshot_Value. apply flat_ascii_list in Hb.
  unfold snapshot_texts in Hr. rewrite !Forall_cons in Hr. destruct_and! Hr.
  destruct (_ || _)%bool; [|done].
  apply flat_ascii_insert; [split; [by apply ascii_text_const|done]|].
  apply flat_ascii_insert; [split; [by apply ascii_text_const|done]|done].
Qed.

Lemma nullableString_inj a b : nullableString a = nullableString b -> a = b.
Proof. destruct a, b; unfold nullableString; congruence. Qed.

(** Two field lists with the same, distinct, keys that agree as maps agree. *)
Lemma fields_agree (l1 l2 : list (string * JVal)) :
  l1.*1 = l2.*1 -> NoDup l1.*1 ->
  (forall k, k ∈ l1.*1 -> (list_to_map l1 : gmap string JVal) !! k = (list_to_map l2 : gmap string JVal) !! k) ->
  l1 = l2.
Proof.
  revert l2. induction l1 as [|[k v] l1 IH]; intros [|[k' v'] l2] Ek Hnd Hm; try done.
  simpl in Ek. injection Ek as -> Ek. simpl in Hnd. apply NoDup_cons in Hnd as [Hk Hnd].
  assert (v = v') as ->.
  { specialize (Hm k'). simpl in Hm. rewrite !lookup_insert_eq in Hm. specialize (Hm ltac:(left)). congruence. }
  f_equal. apply IH; [done|done|]. intros k Hin. specialize (Hm k ltac:(by right)). simpl in Hm.
  assert (k' <> k) by (intros ->; done). by rewrite !lookup_insert_ne in Hm.
Qed.

Lemma snapshot_Value_base r k :
  k ∈ (snapshot_base r).*1 ->
  snapshot_Value r !! k = (list_to_map (snapshot_base r) : gmap string JVal) !! k.
Proof.
  intros Hk. unfold snapshot_Value. destruct (_ || _)%bool; [|done].
  rewrite !lookup_insert_ne; [done|..]; intros <-;
    revert Hk; refine (bool_decide_eq_false_1 (_ ∈ (snapshot_base r).*1) _); reflexivity.
Qed.

(** The two optional keys are present together, unless both are empty. *)
Lemma snapshot_Value_algorithms r :
  snapshot_Value r !! "provider_reported_model_hash_algorithm" =
    (if (String.eqb (rs_ProviderReportedModelHashAlgorithm r) ""
         && String.eqb (rs_ExpectedCatalogModelHashAlgorithm r) "")%bool then None
     else Some (JStr (rs_ProviderReportedModelHashAlgorithm r))) /\
  snapshot_Value r !! "expected_catalog_model_hash_algorithm" =
    (if (String.eqb (rs_ProviderReportedModelHashAlgorithm r) ""
         && String.eqb (rs_ExpectedCatalogModelHashAlgorithm r) "")%bool then None
     else Some (JStr (rs_ExpectedCatalogModelHashAlgorithm r))).
Proof.
  unfold snapshot_Value.
  destruct (String.eqb _ ""), (String.eqb (rs_ExpectedCatalogModelHashAlgorithm r) ""); split; simpl orb;
    try (rewrite lookup_insert_ne by done); rewrite ?lookup_insert_eq; try done;
    apply not_elem_of_list_to_map; refine (bool_decide_eq_false_1 (_ ∈ (snapshot_base r).*1) _); reflexivity.
Qed.

Lemma snapshot_Value_inj r1 r2 : snapshot_Value r1 = snapshot_Value r2 -> r1 = r2.
Proof.
  intros E.
  destruct (snapshot_Value_algorithms r1) as [A1 A2], (snapshot_Value_algorithms r2) as [B1 B2].
  rewrite E in A1, A2. rewrite B1 in A1. rewrite B2 in A2.
  assert (rs_ProviderReportedModelHashAlgorithm r1 = rs_ProviderReportedModelHashAlgorithm r2
    /\ rs_ExpectedCatalogModelHashAlgorithm r1 = rs_ExpectedCatalogModelHashAlgorithm r2) as [F1 F2].
  { clear B1 B2. destruct (_ && _)%bool eqn:B1 in A1; destruct (_ && _)%bool eqn:B2 in A1; try done;
      rewrite ?B1, ?B2 in A2; [bool_hyps; split; congruence|by simplify_eq]. }
  assert (snapshot_base r1 = snapshot_base r2) as Eb.
  { apply fields_agree; [reflexivity|apply (bool_decide_unpack _); reflexivity|].
    intros k Hk. rewrite <- !snapshot_Value_base by exact Hk. by rewrite E. }
  clear E A1 A2 B1 B2. destruct r1, r2. simpl in F1, F2. unfold snapshot_base in Eb. simpl in Eb.
  injection Eb as. repeat match goal with H : nullableString _ = nullableString _ |- _ =>
    apply nullableString_inj in H end. subst; reflexivity.
Qed.

(** The signed digest input is injective: two route snapshots with
    ASCII texts whose [Digest] serialises to the same canonical bytes are the
    same snapshot, field by field. A receipt tuple that pins the digest of one
    snapshot therefore pins, up to a SHA-256 collision, all twenty-seven fields
    of it; no field is dropped, defaulted or merged by the encoder. *)
Theorem snapshot_canonical_injective `{GL : GoLib} (r1 r2 : RouteSnapshot) (d1 d2 c : string) :
  Forall ascii_text (snapshot_texts r1) -> Forall ascii_text (snapshot_texts r2) ->
  snapshot_Digest r1 = Some (d1, c) -> snapshot_Digest r2 = Some (d2, c) -> r1 = r2 /\ d1 = d2.
Proof.
  unfold snapshot_Digest, CanonicalSHA256Hex. intros A1 A2 D1 D2.
  destruct (snapshot_Validate r1); [done|]. destruct (snapshot_Validate r2); [done|].
  destruct (CanonicalJSON (flat_object (snapshot_Value r1))) eqn:E1; [|done].
  destruct (CanonicalJSON (flat_object (snapshot_Value r2))) eqn:E2; [|done].
  simpl in D1, D2. simplify_eq. split; [|done]. apply snapshot_Value_inj.
  by eapply flat_canonical_inj; [apply snapshot_Value_ascii|apply snapshot_Value_ascii|..].
Qed.

(** ** A concrete library and a receipt that settles

    The instance hashes to a constant and accepts every signature; it shows that
    the hypotheses of the theorems can hold together. *)
Module ReceiptSample.
Definition hash64 : string :=
  "0123456789abcdef0123456789abcdef0123456789abcdef0123456789abcdef".
Definition key_id : string := "ed25519-sha256:" +:+ hash64.
Definition usage : SettlementUsage := mkUsage 12 34 5 12 34.

Definition tuple : settlementTupleV04 :=
  mkTuple "acct" hash64 "catalog" hash64 1000500 hash64 "llama" hash64 5 0 hash64 "prov" key_id "4"
    "req" hash64 "enforce" "v1" "Ed25519" "normal_done" 1001000 0 usage.

Definition route : RouteSnapshot :=
  mkSnapshot "acct" "req" 0 "prov" None None "chat" key_id "auth_session" "llama" hash64 "" hash64 ""
    "catalog" hash64 "sig" key_id 9000000 "verified" "v1" "enforce" 1000000 1000000 300 "basis" hash64.

Definition keys_map (ks : list string) : gmap string string :=
  list_to_map (map (fun k => (k, if String.eqb k "usage" then "U" else "4")) ks).

Definition sample_lib : GoLib := {|
  sha256_hex := fun _ => hash64;
  ed25519_Verify := fun _ _ _ => true;
  base64_decode := Some;
  json_raw_object := fun s =>
    if String.eqb s "U" then Some (keys_map v04SettlementUsageKeys)
    else Some (keys_map v04SettlementTupleKeys);
  json_string := fun s => s;
  json_tuple := fun _ => Some tuple;
  text_lib := JcsSample.lib;
  json_any := fun _ => Some JsonNull;
  range_order := fun l => l;
  range_order_perm := fun l => Permutation_refl l;
|}.

Definition header : string := "null." +:+ hash64.
Definition pubkey : string := "0123456789abcdef0123456789abcdef".

Definition input (missing : bool) (now : Z) : SettlementVerifyInput :=
  mkInput header pubkey route "acct" "req" 0 "prov" key_id "normal_done" 1001000 hash64 0 5
    usage UsageSourceCoordinatorObserved true false now now missing false true false false.
End ReceiptSample.

#[local] Existing Instance ReceiptSample.sample_lib.

Lemma settled_usage_safe_witness :
  ReceiptResult (VerifySettlementReceipt (ReceiptSample.input false 1002000))
  = SettlementReceiptResultValid /\
  0 <= BillableInputTokens ReceiptSample.usage <= ObservedInputTokens ReceiptSample.usage.
Proof.
  assert (ReceiptResult (VerifySettlementReceipt (ReceiptSample.input false 1002000))
    = SettlementReceiptResultValid) as Hv by (vm_compute; reflexivity).
  split; [exact Hv|].
  destruct (settled_usage_safe (ReceiptSample.input false 1002000) Hv
    ltac:(vm_compute; split; discriminate)) as [Hb _]. exact Hb.
Defined.

Lemma missing_receipt_deadline_witness :
  Outcome (VerifySettlementReceipt (ReceiptSample.input true 1301000)) = SettlementOutcomePending /\
  Outcome (VerifySettlementReceipt (ReceiptSample.input true 1301001)) = SettlementOutcomeQuarantined.
Proof.
  assert (forall now, snapshot_Validate (in_Route (ReceiptSample.input true now)) = None) as Hv
    by (intros now; vm_compute; reflexivity).
  split.
  - apply (missing_receipt_deadline (ReceiptSample.input true 1301000));
      [reflexivity|reflexivity|reflexivity|apply Hv|simpl; lia|simpl; i64; lia|simpl; lia].
  - apply (missing_receipt_deadline (ReceiptSample.input true 1301001));
      [reflexivity|reflexivity|reflexivity|apply Hv|simpl; lia|simpl; i64; lia|simpl; lia].
Defined.

Lemma snapshot_canonical_injective_witness :
  exists d c, snapshot_Digest ReceiptSample.route = Some (d, c) /\
  forall r d', Forall ascii_text (snapshot_texts r) -> snapshot_Digest r = Some (d', c) ->
  ReceiptSample.route = r /\ d = d'.
Proof.
  assert (exists d c, snapshot_Digest ReceiptSample.route = Some (d, c)) as (d & c & H)
    by (vm_compute; eauto).
  exists d, c. split; [exact H|]. intros r d' Hr Hd.
  apply (snapshot_canonical_injective ReceiptSample.route r d d' c); [|exact Hr|exact H|exact Hd].
  unfold snapshot_texts. repeat (constructor; [by apply ascii_text_const|]). constructor.
Defined.
