(* ===== verification/Resync.v ===== *)
(** * Resync of a credit with its verified receipt

    Models [syncVerifiedReceiptLedgerCreditForAttemptTx] of
    [phase4-coordinator/internal/billing/settlement_receipts.go]: once the
    receipt of an enforced attempt is verified, the unsettled credit of the
    attempt is billed again on the usage the receipt is bound to. A credit with
    cached prompt tokens is billed again only when the configuration snapshot it
    was priced with reproduces it; otherwise the credit and the verdict are
    quarantined.

    The function is split into the decision, read from the tables, and its
    effect. [None] is an SQL or JSON error; the transaction then rolls back.
    The join of the query is unique up to the unique keys of its tables, and
    [LIMIT 1] is the first row in table order. *)

From S2P Require Import Prelude Receipt Formula Ledger.

(** The [encoding/json] decoders of the two JSON columns that are read back. *)
Class JsonColumns := {
  json_usage : string -> option SettlementUsage;
  (** the JSON text [null] decodes to the nil map, [Some None] *)
  json_rate_card : string -> option (option (gmap string RateCardEntry));
}.

(** ** Updates of the money columns *)

(** The row with a new bill. *)
Definition lrc_with_bill (result : BilledRow) (now : string) (r : CreditRow) : CreditRow :=
  mkCreditRow (lrc_id r) (lrc_request_id r) (lrc_attempt_n r) (lrc_provider_id r)
    (lrc_provider_assigned_id r) (lrc_ts_utc r) (lrc_model r) (lrc_status r)
    (lrc_stream r) (PromptTokens result) (PromptTokens result)
    (lrc_provider_reported_prompt_tokens r) (lrc_cached_prompt_tokens r)
    (CompletionTokens result) None (UsageSource result) (lrc_prompt_rate_per_mtok r)
    (lrc_completion_rate_per_mtok r) (lrc_global_multiplier_ppm r)
    (GrossCredits result) (lrc_provider_share_bps r) (ProviderCredits result)
    (FaultFlag result) (lrc_attestation_class r) (lrc_settled r) (lrc_settlement_id r)
    (lrc_quarantined r) (lrc_quarantine_reason r) (lrc_settlement_account_scope_hash r)
    (lrc_settlement_policy_mode r) (lrc_settlement_policy_version r)
    (lrc_recovery_source r) (lrc_created_at_utc r) (Some now).

(** The row quarantined with zero credits. *)
Definition lrc_with_quarantine (reason now : string) (r : CreditRow) : CreditRow :=
  mkCreditRow (lrc_id r) (lrc_request_id r) (lrc_attempt_n r) (lrc_provider_id r)
    (lrc_provider_assigned_id r) (lrc_ts_utc r) (lrc_model r) (lrc_status r)
    (lrc_stream r) (lrc_prompt_tokens r) (lrc_charged_prompt_tokens r)
    (lrc_provider_reported_prompt_tokens r) (lrc_cached_prompt_tokens r)
    (lrc_completion_tokens r) (lrc_estimated_completion_tokens r)
    (lrc_usage_source r) (lrc_prompt_rate_per_mtok r)
    (lrc_completion_rate_per_mtok r) (lrc_global_multiplier_ppm r) 0
    (lrc_provider_share_bps r) 0 (lrc_fault_flag r) (lrc_attestation_class r)
    (lrc_settled r) (lrc_settlement_id r) true (Some reason)
    (lrc_settlement_account_scope_hash r) (lrc_settlement_policy_mode r)
    (lrc_settlement_policy_version r) (lrc_recovery_source r) (lrc_created_at_utc r)
    (Some now).

(** The money columns the trigger [trg_lrc_settled_money_immutable] watches;
    [COALESCE(v, -1)] on the nullable ones. *)
Definition money_columns (r : CreditRow) : list Z * list string :=
  ([default (-1) (lrc_prompt_tokens r); default (-1) (lrc_charged_prompt_tokens r);
    default (-1) (lrc_provider_reported_prompt_tokens r);
    default (-1) (lrc_completion_tokens r); default (-1) (lrc_estimated_completion_tokens r);
    lrc_prompt_rate_per_mtok r; default (-1) (lrc_cached_prompt_tokens r);
    lrc_completion_rate_per_mtok r; lrc_global_multiplier_ppm r; lrc_gross_credits r;
    lrc_provider_share_bps r; lrc_provider_credits r],
   [lrc_usage_source r; lrc_fault_flag r]).

Definition money_change_allowed (old new : CreditRow) : bool :=
  negb (lrc_settled old || lrc_settled new) || bool_decide (money_columns old = money_columns new).

(** [UPDATE ledger_request_credits] of money columns under that trigger and the
    CHECK constraints. *)
Definition update_money (p : CreditRow -> bool) (f : CreditRow -> CreditRow)
    (rows : list CreditRow) : option (list CreditRow) :=
  if forallb (fun r => negb (p r) || (money_change_allowed r (f r) && credit_row_checks (f r))) rows
  then Some (update_where p f rows) else None.

Definition loc_with_amounts (gross operator : Z) (fault : string) (o : OperatorRow) : OperatorRow :=
  mkOperatorRow (loc_id o) (loc_request_credit_id o) (loc_request_id o) (loc_attempt_n o)
    (loc_provider_id o) (loc_ts_utc o) gross (loc_operator_share_bps o) operator fault
    (loc_created_at_utc o).

Definition operator_amount_checks (o : OperatorRow) : bool :=
  (0 <=? loc_gross_credits o) && (0 <=? loc_operator_credits o)
  && existsb (String.eqb (loc_fault_flag o)) [FaultNone; FaultBreakerQualifying; FaultNullUsageError].

Definition update_operator (p : OperatorRow -> bool) (f : OperatorRow -> OperatorRow)
    (rows : list OperatorRow) : option (list OperatorRow) :=
  if forallb (fun o => negb (p o) || operator_amount_checks (f o)) rows
  then Some (update_where p f rows) else None.

(** ** The decision *)

Inductive SyncDecision :=
| SyncNone
| SyncBill (requestCreditID : Z) (result : BilledRow)
| SyncQuarantine (requestCreditID : Z) (accountScopeHash reason : string).

(** The WHERE clause on the credit. *)
Definition sync_credit (requestID : string) (attemptN : Z) (providerID : string)
    (c : CreditRow) : bool :=
  String.eqb (lrc_request_id c) requestID && (lrc_attempt_n c =? attemptN)
  && String.eqb (lrc_provider_id c) providerID
  && String.eqb (lrc_settlement_policy_mode c) "enforce"
  && negb (lrc_quarantined c) && negb (lrc_settled c)
  && match lrc_settlement_id c with None => true | Some _ => false end.

(** The three joins. *)
Definition sync_verdict (c : CreditRow) (hash version : string) (v : VerdictRow) : bool :=
  String.eqb (srv_account_scope_hash v) hash
  && String.eqb (srv_request_id v) (lrc_request_id c)
  && (srv_attempt_n v =? lrc_attempt_n c)
  && String.eqb (srv_provider_id v) (lrc_provider_id c)
  && String.eqb (srv_route_snapshot_mode v) "enforce"
  && String.eqb (srv_route_snapshot_policy_version v) version
  && srv_closed v && String.eqb (srv_settlement_outcome v) "verified".

Definition sync_snapshot (c : CreditRow) (version : string) (v : VerdictRow)
    (s : RouteSnapshotRow) : bool :=
  String.eqb (srs_request_id s) (lrc_request_id c)
  && (srs_attempt_n s =? lrc_attempt_n c)
  && String.eqb (srs_provider_id s) (lrc_provider_id c)
  && String.eqb (srs_route_snapshot_digest s) (srv_route_snapshot_digest v)
  && String.eqb (srs_route_snapshot_mode s) "enforce"
  && String.eqb (srs_route_snapshot_policy_version s) version.

Definition sync_output (s : RouteSnapshotRow) (o : AttemptOutputRow) : bool :=
  String.eqb (sao_account_scope o) (srs_account_scope s)
  && String.eqb (sao_request_id o) (srs_request_id s)
  && (sao_attempt_n o =? srs_attempt_n s)
  && String.eqb (sao_provider_id o) (srs_provider_id s)
  && negb (sao_overlapping_or_duplicate o).

(** The joined rows of a credit: its scope hash and the usage JSON. *)
Definition sync_joins (l : Ledger) (c : CreditRow) : list (string * string) :=
  match lrc_settlement_account_scope_hash c, lrc_settlement_policy_version c with
  | Some hash, Some version =>
      flat_map (fun v =>
        flat_map (fun s =>
          map (fun o => (hash, sao_usage_canonical_json o))
            (List.filter (sync_output s) (sao l)))
          (List.filter (sync_snapshot c version v) (srs l)))
        (List.filter (sync_verdict c hash version) (srv l))
  | _, _ => []
  end.

(** The selected rows. *)
Definition sync_rows (l : Ledger) (requestID : string) (attemptN : Z) (providerID : string)
    : list (CreditRow * string * string) :=
  flat_map (fun c => map (fun j => (c, j.1, j.2)) (sync_joins l c))
    (List.filter (sync_credit requestID attemptN providerID) (lrc l)).

(** The identity snapshot of the credit with the largest id. *)
Definition same_identity (c : CreditRow) (i : IdentityRow) : bool :=
  String.eqb (lpis_request_id i) (lrc_request_id c)
  && (lpis_attempt_n i =? lrc_attempt_n c)
  && String.eqb (lpis_provider_id i) (lrc_provider_id c)
  && match lrc_provider_assigned_id c with
     | Some a => String.eqb (lpis_provider_assigned_id i) a
     | None => false
     end.

Definition latest_identity (c : CreditRow) (rows : list IdentityRow) : option IdentityRow :=
  fold_left (fun best i =>
      if same_identity c i then
        match best with
        | Some b => if lpis_id b <? lpis_id i then Some i else best
        | None => Some i
        end
      else best) rows None.

Definition config_snapshot_of (l : Ledger) (c : CreditRow) : option Z :=
  latest_identity c (lpis l) ≫= lpis_config_snapshot_id.

Section Resync.
Context `{JsonColumns}.

(** [snapshotByIDQueryer]: [inr None] is [ErrNoSnapshot], [inl tt] another error. *)
Definition snapshotByIDQueryer (l : Ledger) (id : Z)
    : unit + option (option (gmap string RateCardEntry) * Z * Z) :=
  match List.find (fun s => lcs_id s =? id) (lcs l) with
  | None => inr None
  | Some s =>
      match json_rate_card (lcs_rate_card_json s) with
      | None => inl tt
      | Some card => inr (Some (card, lcs_global_multiplier_ppm s, lcs_provider_share_bps s))
      end
  end.

(** The bill the credit was written with, recomputed. *)
Definition current_bill (c : CreditRow) (cached : Z) (rateEntry : RateCardEntry) : BilledRow :=
  ComputeCreditsWithCache (lrc_prompt_tokens c) (Some cached) (lrc_completion_tokens c)
    (lrc_estimated_completion_tokens c) (lrc_usage_source c) (lrc_fault_flag c) rateEntry
    (lrc_global_multiplier_ppm c) (lrc_provider_share_bps c).

(** The cached tokens and the rates the new bill uses, a quarantine reason, or
    an error. *)
Definition sync_rates (l : Ledger) (c : CreditRow) (chargedPrompt : Z)
    : option (string + option Z * RateCardEntry) :=
  let plain := mkRateCardEntry (lrc_prompt_rate_per_mtok c) 0 (lrc_completion_rate_per_mtok c) false in
  match lrc_cached_prompt_tokens c with
  | Some cached =>
      if 0 <? cached then
        if chargedPrompt <? cached then Some (inl "invalid_cached_prompt_tokens")
        else match config_snapshot_of l c with
        | None => Some (inl "missing_cache_config_snapshot")
        | Some snapshotID =>
            match snapshotByIDQueryer l snapshotID with
            | inl _ => None
            | inr None => Some (inl "missing_cache_config_snapshot")
            | inr (Some (rateCard, snapshotMultiplier, snapshotShare)) =>
                let rateEntry := RateFor rateCard (lrc_model c) in
                if negb (PromptCreditsPerMtok rateEntry =? lrc_prompt_rate_per_mtok c)
                   || negb (CompletionCreditsPerMtok rateEntry =? lrc_completion_rate_per_mtok c)
                   || negb (snapshotMultiplier =? lrc_global_multiplier_ppm c)
                   || negb (snapshotShare =? lrc_provider_share_bps c)
                then Some (inl "cache_config_snapshot_rate_mismatch")
                else
                  let current := current_bill c cached rateEntry in
                  if negb (GrossCredits current =? lrc_gross_credits c)
                     || negb (ProviderCredits current =? lrc_provider_credits c)
                     || negb (String.eqb (UsageSource current) (lrc_usage_source c))
                     || negb (String.eqb (FaultFlag current) (lrc_fault_flag c))
                  then Some (inl "cache_config_snapshot_rate_mismatch")
                  else Some (inr (Some cached, rateEntry))
            end
        end
      else Some (inr (None, plain))
  | None => Some (inr (None, plain))
  end.

(** The prompt tokens to charge: the receipt's, never above the ledger's. *)
Definition charged_prompt (c : CreditRow) (usage : SettlementUsage) : Z :=
  match lrc_prompt_tokens c with
  | Some p => if p <? BillableInputTokens usage then p else BillableInputTokens usage
  | None => BillableInputTokens usage
  end.

Definition sync_decision (l : Ledger) (requestID : string) (attemptN : Z) (providerID : string)
    : option SyncDecision :=
  match sync_rows l requestID attemptN providerID with
  | [] => Some SyncNone
  | (c, hash, usageJSON) :: _ =>
      usage ← json_usage usageJSON;
      let chargedPrompt := charged_prompt c usage in
      rates ← sync_rates l c chargedPrompt;
      match rates with
      | inl reason => Some (SyncQuarantine (lrc_id c) hash reason)
      | inr (cached, rateEntry) =>
          Some (SyncBill (lrc_id c)
            (ComputeCreditsWithCache (Some chargedPrompt) cached
               (Some (BillableOutputTokens usage)) None UsageProviderReported
               (lrc_fault_flag c) rateEntry (lrc_global_multiplier_ppm c)
               (lrc_provider_share_bps c)))
      end
  end.

(** ** The effect *)

Definition markVerifiedReceiptCacheQuarantinedTx (requestCreditID : Z) (reason now : string)
    (l : Ledger) : option Ledger :=
  credits ← update_money (fun r => lrc_id r =? requestCreditID)
              (lrc_with_quarantine reason now) (lrc l);
  operators ← update_operator (fun o => loc_request_credit_id o =? requestCreditID)
                (fun o => loc_with_amounts 0 0 (loc_fault_flag o) o) (loc l);
  Some (with_loc operators (with_lrc credits l)).

Definition markSettlementReceiptCacheQuarantinedTx (accountScopeHash requestID : string)
    (attemptN : Z) (providerID reason : string) (l : Ledger) : Ledger :=
  with_srv (update_where (fun v =>
      String.eqb (srv_account_scope_hash v) accountScopeHash
      && String.eqb (srv_request_id v) requestID && (srv_attempt_n v =? attemptN)
      && String.eqb (srv_provider_id v) providerID)
    (fun v => mkVerdictRow (srv_account_scope_hash v) (srv_request_id v) (srv_attempt_n v)
       (srv_provider_id v) (srv_route_snapshot_digest v) (srv_route_snapshot_mode v)
       (srv_route_snapshot_policy_version v) SettlementReceiptResultInvalid true
       SettlementOutcomeQuarantined reason) (srv l)) l.

Definition sync_bill (requestCreditID : Z) (result : BilledRow) (now : string) (l : Ledger)
    : option Ledger :=
  credits ← update_money (fun r => lrc_id r =? requestCreditID)
              (lrc_with_bill result now) (lrc l);
  operators ← update_operator (fun o => loc_request_credit_id o =? requestCreditID)
                (loc_with_amounts (GrossCredits result) (OperatorCredits result) (FaultFlag result))
                (loc l);
  Some (with_loc operators (with_lrc credits l)).

(** The ledger afterwards and the quarantine reason, empty when there is none. *)
Definition syncVerifiedReceiptLedgerCreditForAttemptTx (requestID : string) (attemptN : Z)
    (providerID now : string) (l : Ledger) : option (Ledger * string) :=
  decision ← sync_decision l requestID attemptN providerID;
  match decision with
  | SyncNone => Some (l, "")
  | SyncBill requestCreditID result =>
      l' ← sync_bill requestCreditID result now l; Some (l', "")
  | SyncQuarantine requestCreditID accountScopeHash reason =>
      l' ← markVerifiedReceiptCacheQuarantinedTx requestCreditID reason now l;
      Some (markSettlementReceiptCacheQuarantinedTx accountScopeHash requestID attemptN
              providerID reason l', reason)
  end.
End Resync.

(** ** What a resync changes *)

Lemma update_money_Some p f rows rows' :
  update_money p f rows = Some rows' ->
  rows' = update_where p f rows /\
  forall r, r ∈ rows -> p r = true -> money_change_allowed r (f r) = true /\ credit_row_checks (f r) = true.
Proof.
  unfold update_money. destruct (forallb _ _) eqn:E; [|done]. intros [= <-]. split; [done|].
  rewrite forallb_forall in E. intros r Hr Hp. apply list_elem_of_In, E in Hr.
  rewrite Hp in Hr. simpl in Hr. by bool_hyps.
Qed.

Lemma update_operator_Some p f rows rows' :
  update_operator p f rows = Some rows' -> rows' = update_where p f rows.
Proof. unfold update_operator. destruct (forallb _ _); [|done]. by intros [= <-]. Qed.

(** A selected row is a credit of the attempt that may be billed again, with a
    closed verified verdict of its account and a non-overlapping output. *)
Lemma sync_rows_elem l req att prov c hash u :
  (c, hash, u) ∈ sync_rows l req att prov ->
  c ∈ lrc l /\ sync_credit req att prov c = true
  /\ lrc_settlement_account_scope_hash c = Some hash
  /\ exists version v s o, lrc_settlement_policy_version c = Some version
     /\ v ∈ srv l /\ sync_verdict c hash version v = true
     /\ s ∈ srs l /\ sync_snapshot c version v s = true
     /\ o ∈ sao l /\ sync_output s o = true /\ u = sao_usage_canonical_json o.
Proof.
  unfold sync_rows. rewrite list_elem_of_In, in_flat_map. intros (c0 & Hc & Hin).
  apply filter_In in Hc as [Hc Hcr]. apply in_map_iff in Hin as ([h u'] & [= -> -> ->] & Hin).
  unfold sync_joins in Hin.
  destruct (lrc_settlement_account_scope_hash c) as [h'|] eqn:Eh; [|done].
  destruct (lrc_settlement_policy_version c) as [version|] eqn:Ev; [|done].
  apply in_flat_map in Hin as (v & [Hv Hvv]%filter_In & Hin).
  apply in_flat_map in Hin as (s & [Hs Hss]%filter_In & Hin).
  apply in_map_iff in Hin as (o & [= -> <-] & [Ho Hoo]%filter_In).
  apply list_elem_of_In in Hc, Hv, Hs, Ho. split; [done|]. split; [done|].
  split; [done|]. by exists version, v, s, o.
Qed.

(** The three outcomes of a resync. *)
Inductive sync_outcome `{JsonColumns} (l : Ledger) (req : string) (att : Z) (prov now : string)
    : Ledger -> string -> Prop :=
| outcome_none : sync_rows l req att prov = [] -> sync_outcome l req att prov now l ""
| outcome_bill c hash u tl usage cached rate result l' :
    sync_rows l req att prov = (c, hash, u) :: tl -> json_usage u = Some usage ->
    sync_rates l c (charged_prompt c usage) = Some (inr (cached, rate)) ->
    result = ComputeCreditsWithCache (Some (charged_prompt c usage)) cached
      (Some (BillableOutputTokens usage)) None UsageProviderReported (lrc_fault_flag c) rate
      (lrc_global_multiplier_ppm c) (lrc_provider_share_bps c) ->
    sync_bill (lrc_id c) result now l = Some l' ->
    sync_outcome l req att prov now l' ""
| outcome_quarantine c hash u tl usage reason l1 :
    sync_rows l req att prov = (c, hash, u) :: tl -> json_usage u = Some usage ->
    sync_rates l c (charged_prompt c usage) = Some (inl reason) ->
    markVerifiedReceiptCacheQuarantinedTx (lrc_id c) reason now l = Some l1 ->
    sync_outcome l req att prov now
      (markSettlementReceiptCacheQuarantinedTx hash req att prov reason l1) reason.

Lemma sync_inv `{JsonColumns} req att prov now l l' why :
  syncVerifiedReceiptLedgerCreditForAttemptTx req att prov now l = Some (l', why) ->
  sync_outcome l req att prov now l' why.
Proof.
  unfold syncVerifiedReceiptLedgerCreditForAttemptTx, sync_decision.
  destruct (sync_rows l req att prov) as [|[[c hash] u] tl] eqn:Er.
  { intros [= <- <-]. by apply outcome_none. }
  destruct (json_usage u) as [usage|] eqn:Eu; [|done]. cbn [mbind option_bind]. cbv zeta.
  destruct (sync_rates l c _) as [[reason|[cached rate]]|] eqn:Es; [| |done]; cbn [mbind option_bind].
  - destruct (markVerifiedReceiptCacheQuarantinedTx _ _ _ _) eqn:Em; [|done].
    intros [= <- <-]. by eapply outcome_quarantine.
  - destruct (sync_bill _ _ _ _) eqn:Eb; [|done]. intros [= <- <-]. by eapply outcome_bill.
Qed.

(** Only the rate checks of cached prompt tokens quarantine. *)
Lemma sync_rates_reason `{JsonColumns} l c p reason :
  sync_rates l c p = Some (inl reason) ->
  reason ∈ ["invalid_cached_prompt_tokens"; "missing_cache_config_snapshot";
            "cache_config_snapshot_rate_mismatch"]
  /\ exists cached, lrc_cached_prompt_tokens c = Some cached /\ 0 < cached.
Proof.
  unfold sync_rates. intros Hr. destruct (lrc_cached_prompt_tokens c) as [cached|]; [|done].
  destruct (0 <? cached) eqn:Ec; [|done].
  split; [|exists cached; split; [done|lia]].
  repeat case_match; simplify_eq; set_solver.
Qed.

(** ** Exactness *)

Lemma charged_prompt_le c usage :
  charged_prompt c usage <= BillableInputTokens usage
  /\ forall q, lrc_prompt_tokens c = Some q -> charged_prompt c usage <= q.
Proof.
  unfold charged_prompt. destruct (lrc_prompt_tokens c) as [p|]; [|done].
  destruct (p <? _) eqn:E; (split; [lia|intros ? [= <-]; lia]).
Qed.

(** The tokens of a bill are the given ones, or none when usage is null. *)
Lemma bill_tokens prompt cached completion fault e mult bps :
  let row := ComputeCreditsWithCache prompt cached completion None UsageProviderReported fault
               e mult bps in
  (UsageSource row = UsageNullError /\ PromptTokens row = None)
  \/ (UsageSource row = UsageProviderReported /\ PromptTokens row = prompt
      /\ CompletionTokens row = completion
      /\ FaultFlag row = if String.eqb fault "" then FaultNone else fault).
Proof.
  cbv zeta. unfold ComputeCreditsWithCache. cbv zeta.
  change (String.eqb UsageProviderReported "") with false. cbv match. cbn [UsageSource FaultFlag].
  destruct (String.eqb (if String.eqb fault "" then FaultNone else fault) FaultBreakerQualifying);
    [by right|].
  change (String.eqb UsageProviderReported UsageNullError) with false. cbv match.
  destruct (billableCompletion _ completion None) as [[n clamp]|] eqn:Eb; [|by left].
  assert (clamp = false) as ->.
  { unfold billableCompletion in Eb. simpl in Eb. repeat case_match; by simplify_eq. }
  destruct (_ || _); [by left|].
  destruct (rateScaledNumerator _ _ _ _ _); [|by left].
  destruct (checkedMul _ bps); [by right|by left].
Qed.

(** The bill of credit [c] on the usage of its receipt. *)
Definition new_bill (c : CreditRow) (usage : SettlementUsage) (cached : option Z) (rate : RateCardEntry) : BilledRow :=
  ComputeCreditsWithCache (Some (charged_prompt c usage)) cached (Some (BillableOutputTokens usage)) None
    UsageProviderReported (lrc_fault_flag c) rate (lrc_global_multiplier_ppm c) (lrc_provider_share_bps c).

(** The configuration snapshot of [c] has the rates, multiplier and share of the credit,
    and its rate entry for the model reproduces what the credit was billed. *)
Definition reproduced `{JsonColumns} (l : Ledger) (c : CreditRow) (k : Z) (rate : RateCardEntry) : Prop :=
  exists sid s card, config_snapshot_of l c = Some sid
    /\ List.find (fun s => lcs_id s =? sid) (lcs l) = Some s /\ json_rate_card (lcs_rate_card_json s) = Some card
    /\ rate = RateFor card (lrc_model c)
    /\ PromptCreditsPerMtok rate = lrc_prompt_rate_per_mtok c
    /\ CompletionCreditsPerMtok rate = lrc_completion_rate_per_mtok c
    /\ lcs_global_multiplier_ppm s = lrc_global_multiplier_ppm c /\ lcs_provider_share_bps s = lrc_provider_share_bps c
    /\ GrossCredits (current_bill c k rate) = lrc_gross_credits c
    /\ ProviderCredits (current_bill c k rate) = lrc_provider_credits c
    /\ UsageSource (current_bill c k rate) = lrc_usage_source c
    /\ FaultFlag (current_bill c k rate) = lrc_fault_flag c.

(** What a credit is billed again with, the cached tokens and the rates, or why it is
    quarantined, when [charged] prompt tokens are charged. *)
Inductive pricing `{JsonColumns} (l : Ledger) (c : CreditRow) (charged : Z) : string + option Z * RateCardEntry -> Prop :=
| price_plain :
    (forall k, lrc_cached_prompt_tokens c = Some k -> k <= 0) ->
    pricing l c charged
      (inr (None, mkRateCardEntry (lrc_prompt_rate_per_mtok c) 0 (lrc_completion_rate_per_mtok c) false))
| price_cached k rate :
    lrc_cached_prompt_tokens c = Some k -> 0 < k <= charged -> reproduced l c k rate ->
    pricing l c charged (inr (Some k, rate))
| price_invalid k :
    lrc_cached_prompt_tokens c = Some k -> 0 < k -> charged < k ->
    pricing l c charged (inl "invalid_cached_prompt_tokens")
| price_missing k :
    lrc_cached_prompt_tokens c = Some k -> 0 < k <= charged ->
    (forall sid, config_snapshot_of l c = Some sid -> List.find (fun s => lcs_id s =? sid) (lcs l) = None) ->
    pricing l c charged (inl "missing_cache_config_snapshot")
| price_mismatch k :
    lrc_cached_prompt_tokens c = Some k -> 0 < k <= charged -> (forall rate, ~ reproduced l c k rate) ->
    (exists sid, config_snapshot_of l c = Some sid /\ is_Some (List.find (fun s => lcs_id s =? sid) (lcs l))) ->
    pricing l c charged (inl "cache_config_snapshot_rate_mismatch").

Lemma sync_rates_pricing `{JsonColumns} l c charged x : sync_rates l c charged = Some x -> pricing l c charged x.
Proof.
  unfold sync_rates. intros Hr.
  destruct (lrc_cached_prompt_tokens c) as [k|] eqn:Ek; [|injection Hr as <-; apply price_plain; congruence].
  destruct (0 <? k) eqn:E0; [|injection Hr as <-; apply price_plain; intros ? [= <-]%(eq_trans (eq_sym Ek)); lia].
  destruct (charged <? k) eqn:Ec; [injection Hr as <-; apply (price_invalid _ _ _ k); [done|lia|lia]|].
  destruct (config_snapshot_of l c) as [sid|] eqn:Es.
  2:{ injection Hr as <-. apply (price_missing _ _ _ k); [done|lia|congruence]. }
  unfold snapshotByIDQueryer in Hr. destruct (List.find _ _) as [sn|] eqn:Ef.
  2:{ injection Hr as <-. apply (price_missing _ _ _ k); [done|lia|]. intros ? [= <-]%(eq_trans (eq_sym Es)). done. }
  destruct (json_rate_card _) as [card|] eqn:Ej; [|done]. cbv zeta in Hr.
  assert (forall rate, reproduced l c k rate -> rate = RateFor card (lrc_model c)
    /\ negb (PromptCreditsPerMtok rate =? lrc_prompt_rate_per_mtok c)
       || negb (CompletionCreditsPerMtok rate =? lrc_completion_rate_per_mtok c)
       || negb (lcs_global_multiplier_ppm sn =? lrc_global_multiplier_ppm c)
       || negb (lcs_provider_share_bps sn =? lrc_provider_share_bps c) = false
    /\ negb (GrossCredits (current_bill c k rate) =? lrc_gross_credits c)
       || negb (ProviderCredits (current_bill c k rate) =? lrc_provider_credits c)
       || negb (String.eqb (UsageSource (current_bill c k rate)) (lrc_usage_source c))
       || negb (String.eqb (FaultFlag (current_bill c k rate)) (lrc_fault_flag c)) = false) as Hrep.
  { intros rate (sid' & s' & card' & E1 & E2 & E3 & E4 & -> & -> & H1 & H2 & -> & -> & -> & ->).
    rewrite E1 in Es. injection Es as ->. rewrite Ef in E2. injection E2 as <-. rewrite Ej in E3. injection E3 as <-.
    rewrite H1, H2, !Z.eqb_refl, !String.eqb_refl. done. }
  destruct (negb _ || _ || _ || _) eqn:D1 in Hr.
  { injection Hr as <-. apply (price_mismatch _ _ _ k); [done|lia| |by eauto]. intros rate Hx. apply Hrep in Hx as (-> & Hx & _). congruence. }
  destruct (negb _ || _ || _ || _) eqn:D2 in Hr.
  { injection Hr as <-. apply (price_mismatch _ _ _ k); [done|lia| |by eauto]. intros rate Hx. apply Hrep in Hx as (-> & _ & Hx). congruence. }
  injection Hr as <-. apply price_cached; [done|lia|]. exists sid, sn, card. bool_hyps. split_and!; first [done|lia|congruence].
Qed.

(** The credit at one position of the table after a resync: [selected] tells which credit
    it takes, with the usage text of its output. *)
Inductive row_change `{JsonColumns} (l l' : Ledger) (now why : string) (selected : string -> Prop) (r r' : CreditRow) : Prop :=
| change_none : (forall u, ~ selected u) -> r' = r -> row_change l l' now why selected r r'
| change_bill u usage cached rate :
    why = "" -> selected u -> json_usage u = Some usage -> pricing l r (charged_prompt r usage) (inr (cached, rate)) ->
    r' = lrc_with_bill (new_bill r usage cached rate) now r ->
    (lrc_gross_credits r', lrc_provider_credits r', OperatorCredits (new_bill r usage cached rate))
      = default (0, 0, 0) (reference_credits (Some (charged_prompt r usage)) cached (Some (BillableOutputTokens usage)) None
          UsageProviderReported (lrc_fault_flag r) rate (lrc_global_multiplier_ppm r) (lrc_provider_share_bps r)) ->
    (forall x, x ∈ loc l' -> loc_request_credit_id x = lrc_id r ->
       loc_gross_credits x = lrc_gross_credits r' /\ loc_operator_credits x = OperatorCredits (new_bill r usage cached rate)) ->
    row_change l l' now why selected r r'
| change_quarantine u usage :
    selected u -> json_usage u = Some usage -> pricing l r (charged_prompt r usage) (inl why) ->
    r' = lrc_with_quarantine why now r ->
    (forall x, x ∈ loc l' -> loc_request_credit_id x = lrc_id r -> loc_gross_credits x = 0 /\ loc_operator_credits x = 0) ->
    row_change l l' now why selected r r'.

Lemma operator_amounts_set id f rows g o x :
  (forall y, loc_gross_credits (f y) = g /\ loc_operator_credits (f y) = o) ->
  x ∈ update_where (fun y => loc_request_credit_id y =? id) f rows ->
  loc_request_credit_id x = id -> (forall y, loc_request_credit_id (f y) = loc_request_credit_id y) ->
  loc_gross_credits x = g /\ loc_operator_credits x = o.
Proof.
  intros Hf (y & Hy & ->)%elem_of_update_where. destruct (_ =? _) eqn:E; [|lia].
  intros _ _. apply Hf.
Qed.

(** The credit a resync takes: the first of the selected rows. *)
Definition taken (l : Ledger) (req : string) (att : Z) (prov : string) (c : CreditRow) (u : string) : Prop :=
  exists hash tl, sync_rows l req att prov = (c, hash, u) :: tl.

Lemma resync_row_change `{JsonColumns} req att prov now l l' why i r r' :
  NoDup (map lrc_id (lrc l)) ->
  syncVerifiedReceiptLedgerCreditForAttemptTx req att prov now l = Some (l', why) ->
  lrc l !! i = Some r -> lrc l' !! i = Some r' ->
  row_change l l' now why (taken l req att prov r) r r'.
Proof.
  intros Hnd Hs Hr Hr'. apply sync_inv in Hs.
  assert (forall c h u tl, sync_rows l req att prov = (c, h, u) :: tl -> lrc_id r = lrc_id c -> r = c) as Hsel.
  { intros c h u tl E. destruct (sync_rows_elem l req att prov c h u) as (Hc & _); [rewrite E; left|].
    apply list_elem_of_lookup_2 in Hr. by apply (NoDup_map_inj lrc_id (lrc l)). }
  assert (forall c h u tl, sync_rows l req att prov = (c, h, u) :: tl -> lrc_id r <> lrc_id c -> forall u', ~ taken l req att prov r u') as Hoth.
  { intros c h u tl E Hn u' (h' & tl' & E'). congruence. }
  destruct Hs as [E|c h u tl usage cached rate result l' E Hu Hrt Hres Hb|c h u tl usage reason l1 E Hu Hrt Hm].
  - apply change_none; [|congruence]. intros u (h & tl & E'). congruence.
  - unfold sync_bill in Hb. destruct (update_money _ _ _) as [rows|] eqn:Em; [|done].
    apply update_money_Some in Em as [-> _]. simpl in Hb.
    destruct (update_operator _ _ _) as [ops|] eqn:Eo; [|done]. apply update_operator_Some in Eo as ->.
    injection Hb as <-. cbn [lrc with_loc with_lrc] in Hr'.
    rewrite lookup_update_where, Hr in Hr'. injection Hr' as <-.
    destruct (lrc_id r =? lrc_id c) eqn:Eid; [|apply Z.eqb_neq in Eid; apply change_none; [by eapply Hoth|done]].
    apply Z.eqb_eq in Eid. pose proof (Hsel c h u tl E Eid). subst r. fold (new_bill c usage cached rate) in Hres.
    apply (change_bill _ _ _ _ _ _ _ u usage cached rate); [done|by exists h, tl|done|by apply sync_rates_pricing|by subst| |].
    + subst result. apply (ComputeCreditsWithCache_spec (Some (charged_prompt c usage)) cached
        (Some (BillableOutputTokens usage)) None UsageProviderReported (lrc_fault_flag c) rate).
    + intros x Hx Hid. cbn in Hx. subst result. by refine (operator_amounts_set _ _ _ _ _ _ _ Hx Hid _).
  - unfold markVerifiedReceiptCacheQuarantinedTx in Hm.
    destruct (update_money _ _ _) as [rows|] eqn:Em; [|done].
    apply update_money_Some in Em as [-> _]. simpl in Hm.
    destruct (update_operator _ _ _) as [ops|] eqn:Eo; [|done]. apply update_operator_Some in Eo as ->.
    injection Hm as <-. cbn in Hr'. rewrite lookup_update_where, Hr in Hr'. injection Hr' as <-.
    destruct (lrc_id r =? lrc_id c) eqn:Eid; [|apply Z.eqb_neq in Eid; apply change_none; [by eapply Hoth|done]].
    apply Z.eqb_eq in Eid. pose proof (Hsel c h u tl E Eid). subst r.
    apply (change_quarantine _ _ _ _ _ _ _ u usage); [by exists h, tl|done|by apply sync_rates_pricing|done|].
    intros x Hx Hid. cbn in Hx. by refine (operator_amounts_set _ _ _ _ _ _ _ Hx Hid _).
Qed.

(** A credit is due for a resync with the usage text [u]: it is of the attempt, enforced,
    neither quarantined nor settled nor linked, its account has a closed verified verdict
    for the attempt under the policy version of the credit, on the snapshot of the route,
    and [u] is the usage of an output of the attempt that does not overlap. *)
Definition due (l : Ledger) (req : string) (att : Z) (prov : string) (c : CreditRow) (u : string) : Prop :=
  sync_credit req att prov c = true
  /\ exists hash version v s o,
     lrc_settlement_account_scope_hash c = Some hash /\ lrc_settlement_policy_version c = Some version
     /\ v ∈ srv l /\ sync_verdict c hash version v = true
     /\ s ∈ srs l /\ sync_snapshot c version v s = true
     /\ o ∈ sao l /\ sync_output s o = true /\ u = sao_usage_canonical_json o.

Lemma due_row l req att prov c u : c ∈ lrc l -> due l req att prov c u -> exists hash, (c, hash, u) ∈ sync_rows l req att prov.
Proof.
  intros Hc (Hcr & hash & version & v & s & o & E1 & E2 & Hv & Hvv & Hs & Hss & Ho & Hoo & ->). exists hash.
  unfold sync_rows. apply list_elem_of_In, in_flat_map. exists c. split; [apply filter_In; split; [by apply list_elem_of_In|done]|].
  apply in_map_iff. exists (hash, sao_usage_canonical_json o). split; [done|]. unfold sync_joins. rewrite E1, E2.
  apply list_elem_of_In in Hv, Hs, Ho. apply in_flat_map. exists v. split; [by apply filter_In|].
  apply in_flat_map. exists s. split; [by apply filter_In|]. apply in_map_iff. exists o. split; [done|by apply filter_In].
Qed.

Lemma row_due l req att prov c hash u : (c, hash, u) ∈ sync_rows l req att prov -> c ∈ lrc l /\ due l req att prov c u.
Proof.
  intros (Hc & Hcr & Eh & version & v & s & o & H)%sync_rows_elem. split; [done|]. split; [done|]. exists hash, version, v, s, o. naive_solver.
Qed.

(** The columns of the unique key of [ledger_request_credits]. *)
Definition attempt_key (c : CreditRow) := (lrc_request_id c, lrc_attempt_n c, lrc_provider_id c).

Lemma sync_credit_attempt req att prov c : sync_credit req att prov c = true -> attempt_key c = (req, att, prov).
Proof. unfold sync_credit, attempt_key. intros H. bool_hyps. f_equal; [f_equal; [done|lia]|done]. Qed.

(** With one credit per attempt, the credit that is due is the one taken. *)
Lemma taken_due l req att prov r :
  NoDup (map attempt_key (lrc l)) -> r ∈ lrc l ->
  (forall u, taken l req att prov r u -> due l req att prov r u)
  /\ ((forall u, ~ taken l req att prov r u) -> forall u, ~ due l req att prov r u).
Proof.
  intros Hnd Hr. split.
  - intros u (hash & tl & E). apply (row_due l req att prov r hash u). rewrite E. left.
  - intros Hn u Hd. destruct (due_row _ _ _ _ _ _ Hr Hd) as [hash Hin].
    destruct (sync_rows l req att prov) as [|[[c h] u'] tl] eqn:E; [by apply elem_of_nil in Hin|].
    destruct (row_due l req att prov c h u') as [Hc [Hcr _]]; [rewrite E; left|].
    apply (Hn u'). exists h, tl. rewrite E. do 3 f_equal. apply (NoDup_map_inj attempt_key (lrc l)); [done..|].
    destruct Hd as [Hd _]. apply sync_credit_attempt in Hcr, Hd. congruence.
Qed.

(** Claim C34. With one credit per attempt, a resync bills a credit again exactly when it is due: of the
    attempt, enforced, unsettled, unlinked, not quarantined, with a closed verified verdict
    and an output that does not overlap. A credit that is not due is kept as it is, settled
    ones included. The credit that is due is billed on the usage of its output: prompt
    tokens the smaller of the receipt's and the ledger's; without cached tokens at the rates
    stored in the credit, and with cached tokens at those of its configuration snapshot if
    that reproduces the credit; the amounts are those of the exact formula, on the credit
    and on its operator row. Otherwise, with more cached tokens than charged, without the
    snapshot, or with one that does not reproduce it, and only then, it is quarantined with
    the reason and zero credits on both sides. *)
Theorem resync_exact `{JsonColumns} (req : string) (att : Z) (prov now : string)
    (l l' : Ledger) (why : string) (i : nat) (r r' : CreditRow) :
  NoDup (map lrc_id (lrc l)) -> NoDup (map attempt_key (lrc l)) ->
  syncVerifiedReceiptLedgerCreditForAttemptTx req att prov now l = Some (l', why) ->
  lrc l !! i = Some r -> lrc l' !! i = Some r' ->
  row_change l l' now why (due l req att prov r) r r'.
Proof.
  intros Hnd Hk Hs Hr Hr'. destruct (taken_due l req att prov r Hk) as [Ht Hn]; [by eapply list_elem_of_lookup_2|].
  destruct (resync_row_change _ _ _ _ _ _ _ _ _ _ Hnd Hs Hr Hr') as [Hno ->|u usage cached rate|u usage].
  - apply change_none; [|done]. by apply Hn.
  - eapply change_bill; eauto.
  - eapply change_quarantine; eauto.
Qed.

(** ** The frame of a resync *)

(** The ledgers agree outside the two credit tables and the verdicts; the credit
    [id], unsettled and unlinked, and its operator rows are rewritten to amounts
    that add up, or the credit is quarantined. *)
Record credit_rewrite (id : Z) (f : CreditRow -> CreditRow) (g : OperatorRow -> OperatorRow)
    (l l' : Ledger) : Prop := mkCreditRewrite {
  cr_lrc : lrc l' = update_where (fun r => lrc_id r =? id) f (lrc l);
  cr_loc : loc l' = update_where (fun o => loc_request_credit_id o =? id) g (loc l);
  cr_frame : lpr l' = lpr l /\ lqr l' = lqr l /\ next_lrc l' = next_lrc l /\ next_lpr l' = next_lpr l;
  cr_keys : forall r, lrc_id (f r) = lrc_id r /\ lrc_provider_id (f r) = lrc_provider_id r
    /\ lrc_settled (f r) = lrc_settled r /\ lrc_settlement_id (f r) = lrc_settlement_id r;
  cr_operator_keys : forall o, loc_request_credit_id (g o) = loc_request_credit_id o;
  cr_open : exists c, c ∈ lrc l /\ lrc_id c = id /\ lrc_settled c = false /\ lrc_quarantined c = false;
  cr_amounts : forall r, r ∈ lrc l -> lrc_id r = id ->
    0 <= lrc_provider_credits (f r) <= lrc_gross_credits (f r);
  cr_split : forall r o, r ∈ lrc l -> lrc_id r = id ->
    lrc_quarantined (f r) = true
    \/ loc_operator_credits (g o) + lrc_provider_credits (f r) = lrc_gross_credits (f r);
}.

Lemma sync_bill_rewrite id result now l l' c :
  c ∈ lrc l -> lrc_id c = id -> lrc_settled c = false -> lrc_quarantined c = false ->
  (lrc_provider_share_bps c <= 10000 ->
   GrossCredits result = ProviderCredits result + OperatorCredits result
   /\ 0 <= ProviderCredits result <= GrossCredits result) ->
  sync_bill id result now l = Some l' ->
  exists f g, credit_rewrite id f g l l'.
Proof.
  intros Hc Hid Hs Hq Hsplit Hb. unfold sync_bill in Hb.
  destruct (update_money _ _ _) as [rows|] eqn:Em; [|done].
  apply update_money_Some in Em as [-> Hok]. simpl in Hb.
  destruct (update_operator _ _ _) as [ops|] eqn:Eo; [|done]. apply update_operator_Some in Eo as ->.
  injection Hb as <-.
  destruct (Hok c Hc) as [_ Hck]; [by apply Z.eqb_eq|].
  unfold credit_row_checks in Hck. bool_hyps.
  destruct Hsplit as [Hg Hp]; [cbn [lrc_provider_share_bps lrc_with_bill] in *; lia|].
  eexists _, _. econstructor; [done|done|done|done|done|by exists c|..]; intros; simpl; [lia|right; lia].
Qed.

Lemma sync_quarantine_rewrite id reason now l l' c :
  c ∈ lrc l -> lrc_id c = id -> lrc_settled c = false -> lrc_quarantined c = false ->
  markVerifiedReceiptCacheQuarantinedTx id reason now l = Some l' ->
  exists f g, credit_rewrite id f g l l'.
Proof.
  intros Hc Hid Hs Hq Hm. unfold markVerifiedReceiptCacheQuarantinedTx in Hm.
  destruct (update_money _ _ _) as [rows|] eqn:Em; [|done].
  apply update_money_Some in Em as [-> _]. simpl in Hm.
  destruct (update_operator _ _ _) as [ops|] eqn:Eo; [|done]. apply update_operator_Some in Eo as ->.
  injection Hm as <-.
  eexists _, _. econstructor; [done|done|done|done|done|by exists c|..]; intros; simpl; [lia|by left].
Qed.

Lemma sync_frame `{JsonColumns} req att prov now l l' why :
  syncVerifiedReceiptLedgerCreditForAttemptTx req att prov now l = Some (l', why) ->
  l' = l \/ exists id f g, credit_rewrite id f g l l'.
Proof.
  intros Hs%sync_inv.
  assert (forall c h u tl, sync_rows l req att prov = (c, h, u) :: tl ->
    c ∈ lrc l /\ lrc_settled c = false /\ lrc_quarantined c = false) as Hsel.
  { intros c h u tl E. destruct (sync_rows_elem l req att prov c h u) as (Hc & Hcc & _);
      [rewrite E; left|]. split; [done|]. unfold sync_credit in Hcc. by bool_hyps. }
  destruct Hs as [E|c h u tl usage cached rate result l' E Hu Hrt Hres Hb|c h u tl usage reason l1 E Hu Hrt Hm];
    [by left|right; exists (lrc_id c)..]; destruct (Hsel c h u tl E) as (Hc & Hs & Hq).
  - eapply sync_bill_rewrite; [exact Hc|done|done|done| |exact Hb]. intros Hb'. subst result.
    destruct (ComputeCreditsWithCache_split (Some (charged_prompt c usage)) cached
      (Some (BillableOutputTokens usage)) None UsageProviderReported (lrc_fault_flag c) rate
      (lrc_global_multiplier_ppm c) (lrc_provider_share_bps c) Hb') as (? & ? & _). done.
  - destruct (sync_quarantine_rewrite _ _ _ _ _ _ Hc eq_refl Hs Hq Hm) as (f & g & [Hx1 Hx2 Hx3 ? ? ? ? ?]).
    by exists f, g.
Qed.

(** ** A verified attempt *)

Module ResyncSample.
Definition columns : JsonColumns := {|
  json_usage s := if String.eqb s "{usage}" then Some (mkUsage 900 3000 12000 900 3000) else None;
  json_rate_card s := if String.eqb s "{rates}" then Some (Some {[ "qwen3-8b" := sample_rate ]}) else None;
|}.
Definition hash : string := ReceiptSample.hash64.
Definition now : string := "2026-07-20T00:00:01.000000000Z".
Definition input (cached : option Z) : HotPathInput :=
  mkHotPathInput "req-1" 0 "assigned-1" "alice" "qwen3-8b" 200 true
    "2026-07-14T10:00:00.000000000Z" (Some 1000) None (Some 1000) cached (Some 4000) None "" "none"
    "hit" "" 1 sample_rate 1000000 8500 hash "enforce" "v1".
Definition tables : Ledger :=
  mkLedger [] [] [] []
    [mkRouteSnapshotRow "acct" "req-1" 0 "alice" hash "enforce" "v1"]
    [mkVerdictRow hash "req-1" 0 "alice" hash "enforce" "v1" "valid" true "verified" "ok"]
    [mkAttemptOutputRow "acct" "req-1" 0 "alice" "{usage}" false]
    [] 1 1 1
    [mkIdentityRow 1 "req-1" 0 "assigned-1" "alice" (Some 1) (Some 1000) now] 2
    [mkConfigSnapshotRow 1 8500 1000000 "{rates}"].
Definition credited (cached : option Z) : Ledger :=
  default tables (creditAttemptTx (input cached) now tables).
Definition synced (cached : option Z) : Ledger * string :=
  default (tables, "") (syncVerifiedReceiptLedgerCreditForAttemptTx (H := columns) "req-1" 0 "alice" now
    (credited cached)).
End ResyncSample.

Lemma resync_exact_witness :
  exists r r', lrc (ResyncSample.credited (Some 100)) !! 0%nat = Some r
    /\ lrc (ResyncSample.synced (Some 100)).1 !! 0%nat = Some r'
    /\ (lrc_gross_credits r, lrc_gross_credits r') = (6460, 4910)
    /\ row_change (H := ResyncSample.columns) (ResyncSample.credited (Some 100)) (ResyncSample.synced (Some 100)).1
         ResyncSample.now "" (due (ResyncSample.credited (Some 100)) "req-1" 0 "alice" r) r r'.
Proof.
  eexists _, _. split; [vm_compute; reflexivity|]. split; [vm_compute; reflexivity|].
  split; [vm_compute; reflexivity|].
  apply (resync_exact (H := ResyncSample.columns) "req-1" 0 "alice" ResyncSample.now
           (ResyncSample.credited (Some 100)) (ResyncSample.synced (Some 100)).1 "" 0).
  - apply (bool_decide_eq_true_1 (NoDup _)). vm_compute. reflexivity.
  - apply (bool_decide_eq_true_1 (NoDup _)). vm_compute. reflexivity.
  - vm_compute. reflexivity.
  - vm_compute. reflexivity.
  - vm_compute. reflexivity.
Defined.

(** ** Replay *)

(** The columns a resync selects a credit by. *)
Definition sync_key (c : CreditRow) :=
  (lrc_request_id c, lrc_attempt_n c, lrc_provider_id c, lrc_settlement_policy_mode c,
   lrc_quarantined c, lrc_settled c, lrc_settlement_id c,
   (lrc_settlement_account_scope_hash c, lrc_settlement_policy_version c)).

Lemma sync_credit_key req att prov c c' :
  sync_key c = sync_key c' -> sync_credit req att prov c = sync_credit req att prov c'.
Proof. unfold sync_key, sync_credit. by intros [= -> -> -> -> -> -> -> _ _]. Qed.

Lemma sync_joins_key l l' c c' :
  sync_key c = sync_key c' -> srv l' = srv l -> srs l' = srs l -> sao l' = sao l ->
  sync_joins l c = sync_joins l' c'.
Proof.
  unfold sync_key, sync_joins, sync_verdict, sync_snapshot.
  by intros [= -> -> -> _ _ _ _ -> ->] -> -> ->.
Qed.

(** An update that keeps those columns keeps the selection. *)
Lemma sync_rows_update l l' req att prov p f :
  lrc l' = update_where p f (lrc l) -> srv l' = srv l -> srs l' = srs l -> sao l' = sao l ->
  (forall c, sync_key (f c) = sync_key c) ->
  sync_rows l' req att prov
  = map (fun x => (if p x.1.1 then f x.1.1 else x.1.1, x.1.2, x.2)) (sync_rows l req att prov).
Proof.
  intros E E1 E2 E3 Hf. unfold sync_rows. rewrite E. clear E.
  induction (lrc l) as [|c rows IH]; [done|]. simpl.
  set (c' := if p c then f c else c).
  assert (sync_key c' = sync_key c) as Hk by (subst c'; destruct (p c); [apply Hf|done]).
  rewrite (sync_credit_key req att prov c' c Hk).
  destruct (sync_credit req att prov c); [|exact IH]. simpl.
  rewrite map_app, IH, map_map. by rewrite (sync_joins_key l l' c c').
Qed.

Lemma config_snapshot_of_same l l' c c' :
  lpis l' = lpis l -> lrc_request_id c' = lrc_request_id c -> lrc_attempt_n c' = lrc_attempt_n c ->
  lrc_provider_id c' = lrc_provider_id c ->
  lrc_provider_assigned_id c' = lrc_provider_assigned_id c ->
  config_snapshot_of l' c' = config_snapshot_of l c.
Proof.
  intros E E1 E2 E3 E4. unfold config_snapshot_of, latest_identity, same_identity.
  by rewrite E, E1, E2, E3, E4.
Qed.

(** A second update with a function that overrides the first. *)
Lemma update_where_over {A} (p : A -> bool) f h g (rows : list A) :
  (forall r, p (f r) = p r) -> (forall r, h (f r) = g r) ->
  update_where p h (update_where p f rows) = update_where p g rows.
Proof.
  intros Hp Hf. unfold update_where. rewrite map_map. apply map_ext. intros r.
  destruct (p r) eqn:E; [by rewrite Hp, E, Hf|by rewrite E].
Qed.

Lemma update_money_again p f g rows rows' :
  (forall r, p (f r) = p r) -> (forall r, g (f r) = g r) ->
  (forall r, money_columns (g r) = money_columns (f r) /\ credit_row_checks (g r) = credit_row_checks (f r)) ->
  update_money p f rows = Some rows' -> update_money p g rows' = Some (update_where p g rows').
Proof.
  intros Hp Hf Hg [-> Hok]%update_money_Some. unfold update_money.
  assert (forallb (fun r => negb (p r) || (money_change_allowed r (g r) && credit_row_checks (g r)))
            (update_where p f rows) = true) as ->; [|done].
  apply forallb_forall. intros x (r & Hr & ->)%list_elem_of_In%elem_of_update_where.
  destruct (p r) eqn:E; [|by rewrite E]. rewrite Hp, E, Hf. simpl. destruct (Hg r) as [Hm Hc].
  destruct (Hok r Hr E) as [_ Hck]. rewrite Hc, Hck. unfold money_change_allowed.
  rewrite bool_decide_eq_true_2 by (by symmetry). by rewrite orb_true_r.
Qed.

Lemma update_operator_again p f rows rows' :
  (forall r, p (f r) = p r) -> (forall r, f (f r) = f r) ->
  update_operator p f rows = Some rows' -> update_operator p f rows' = Some rows'.
Proof.
  intros Hp Hf. unfold update_operator. destruct (forallb _ rows) eqn:Eb; [|done].
  intros [= <-]. rewrite (update_where_over _ _ _ f) by done.
  assert (forallb (fun o => negb (p o) || operator_amount_checks (f o))
            (update_where p f rows) = true) as ->; [|done].
  rewrite forallb_forall in Eb. apply forallb_forall.
  intros x (r & Hr & ->)%list_elem_of_In%elem_of_update_where.
  apply list_elem_of_In, Eb in Hr. destruct (p r) eqn:E; [|by rewrite E]. by rewrite Hp, E, Hf.
Qed.

(** The row with a new update time. *)
Definition stamp_update (now : string) (r : CreditRow) : CreditRow :=
  lrc_with_state (lrc_settled r) (lrc_settlement_id r) (lrc_quarantined r) (lrc_quarantine_reason r) now r.

Lemma update_where_id {A} (p : A -> bool) f (rows : list A) :
  (forall r, r ∈ rows -> p r = true -> f r = r) -> update_where p f rows = rows.
Proof.
  intros Hf. unfold update_where. rewrite <- (map_id rows) at 2. apply map_ext_in. intros r Hr%list_elem_of_In.
  destruct (p r) eqn:E; [by apply Hf|done].
Qed.

(** Writing the same bill again, at a later clock, changes the update time. *)
Lemma sync_bill_again id result now now' l l' :
  sync_bill id result now l = Some l' ->
  sync_bill id result now' l' = Some (with_lrc (update_where (fun r => lrc_id r =? id) (stamp_update now') (lrc l')) l').
Proof.
  unfold sync_bill. destruct (update_money _ _ (lrc l)) as [rows|] eqn:Em; [|done]. simpl.
  destruct (update_operator _ _ (loc l)) as [ops|] eqn:Eo; [|done]. simpl. intros [= <-].
  cbn [lrc loc with_loc with_lrc]. pose proof Em as [Er _]%update_money_Some.
  apply (update_money_again _ _ (lrc_with_bill result now')) in Em; [|done..].
  apply update_operator_again in Eo; [|done|done]. rewrite Em. simpl. rewrite Eo. simpl.
  subst rows. by rewrite !(update_where_over _ _ _ (lrc_with_bill result now')) by done.
Qed.

Lemma bill_fault_default prompt cached completion estimated usage fault e mult bps :
  ComputeCreditsWithCache prompt cached completion estimated usage
    (if String.eqb fault "" then FaultNone else fault) e mult bps
  = ComputeCreditsWithCache prompt cached completion estimated usage fault e mult bps.
Proof.
  unfold ComputeCreditsWithCache. destruct (String.eqb fault "") eqn:E; [done|]. by rewrite E.
Qed.

(** The bill of a credit, recomputed after a resync wrote it. *)
Lemma sync_rates_again `{JsonColumns} l l' c usage cached rate now :
  let bill c := ComputeCreditsWithCache (Some (charged_prompt c usage)) cached
      (Some (BillableOutputTokens usage)) None UsageProviderReported (lrc_fault_flag c) rate
      (lrc_global_multiplier_ppm c) (lrc_provider_share_bps c) in
  let c' := lrc_with_bill (bill c) now c in
  lpis l' = lpis l -> lcs l' = lcs l -> UsageSource (bill c) <> UsageNullError ->
  sync_rates l c (charged_prompt c usage) = Some (inr (cached, rate)) ->
  bill c' = bill c /\ charged_prompt c' usage = charged_prompt c usage
  /\ sync_rates l' c' (charged_prompt c usage) = Some (inr (cached, rate)).
Proof.
  intros bill c' E1 E2 Hn Hr.
  destruct (bill_tokens (Some (charged_prompt c usage)) cached (Some (BillableOutputTokens usage))
    (lrc_fault_flag c) rate (lrc_global_multiplier_ppm c) (lrc_provider_share_bps c))
    as [[Hx _]|(Hu & Hp & Hc & Hf)]; [done|].
  assert (charged_prompt c' usage = charged_prompt c usage) as Hcp.
  { pose proof (charged_prompt_le c usage) as [Hle _]. unfold charged_prompt at 1.
    subst c'. cbn [lrc_prompt_tokens lrc_with_bill]. unfold bill. rewrite Hp.
    destruct (_ <? _) eqn:E; lia. }
  assert (lrc_fault_flag c' = if String.eqb (lrc_fault_flag c) "" then FaultNone else lrc_fault_flag c)
    as Hfc by done.
  assert (bill c' = bill c) as Hb.
  { unfold bill at 1. rewrite Hcp, Hfc. apply bill_fault_default. }
  split; [done|]. split; [done|]. unfold sync_rates in Hr |- *.
  change (lrc_cached_prompt_tokens c') with (lrc_cached_prompt_tokens c).
  rewrite (config_snapshot_of_same l l' c c') by done.
  destruct (lrc_cached_prompt_tokens c) as [k|]; [|done].
  destruct (0 <? k); [|done]. destruct (_ <? k); [done|].
  destruct (config_snapshot_of l c) as [sid|]; [|done].
  unfold snapshotByIDQueryer in Hr |- *. rewrite E2. destruct (List.find _ _) as [s|]; [|done].
  destruct (json_rate_card _) as [card|]; [|done]. cbv zeta in Hr |- *.
  destruct (negb _ || _ || _ || _) eqn:D1 in Hr; [done|].
  destruct (negb _ || _ || _ || _) eqn:D2 in Hr; [done|]. injection Hr as Hk Hrate.
  change (lrc_model c') with (lrc_model c). rewrite Hrate in D1 |- *.
  change (lrc_prompt_rate_per_mtok c') with (lrc_prompt_rate_per_mtok c).
  change (lrc_completion_rate_per_mtok c') with (lrc_completion_rate_per_mtok c).
  change (lrc_global_multiplier_ppm c') with (lrc_global_multiplier_ppm c).
  change (lrc_provider_share_bps c') with (lrc_provider_share_bps c). rewrite D1.
  assert (current_bill c' k rate = bill c) as ->.
  { unfold current_bill. subst c'. cbn [lrc_prompt_tokens lrc_with_bill lrc_completion_tokens
      lrc_estimated_completion_tokens lrc_usage_source lrc_fault_flag lrc_global_multiplier_ppm
      lrc_provider_share_bps]. unfold bill. rewrite <- Hk in *. rewrite Hp, Hc, Hu, Hf.
    apply bill_fault_default. }
  subst c'. cbn [lrc_gross_credits lrc_provider_credits lrc_usage_source lrc_fault_flag lrc_with_bill].
  by rewrite !Z.eqb_refl, !String.eqb_refl, Hk.
Qed.

(** After a quarantine no credit of the attempt is selected any more. *)
Lemma quarantined_not_taken `{JsonColumns} req att prov now l l' l1 c h u tl reason :
  NoDup (map attempt_key (lrc l)) -> sync_rows l req att prov = (c, h, u) :: tl ->
  markVerifiedReceiptCacheQuarantinedTx (lrc_id c) reason now l = Some l1 -> lrc l' = lrc l1 ->
  sync_rows l' req att prov = [].
Proof.
  intros Hk E Hm El. destruct (row_due l req att prov c h u) as [Hc [Hcr _]]; [rewrite E; left|].
  unfold markVerifiedReceiptCacheQuarantinedTx in Hm. destruct (update_money _ _ _) as [rows|] eqn:Em; [|done].
  apply update_money_Some in Em as [-> _]. simpl in Hm. destruct (update_operator _ _ _) as [ops|]; [|done].
  injection Hm as <-. cbn in El. unfold sync_rows.
  assert (List.filter (sync_credit req att prov) (lrc l') = []) as ->; [|done].
  destruct (List.filter _ _) as [|x rest] eqn:Ef; [done|exfalso].
  assert (In x (List.filter (sync_credit req att prov) (lrc l'))) as [Hx Hxs]%filter_In by (rewrite Ef; by left).
  rewrite El in Hx. apply list_elem_of_In, elem_of_update_where in Hx as (y & Hy & ->).
  destruct (lrc_id y =? lrc_id c) eqn:Eid; [unfold sync_credit in Hxs; by bool_hyps|].
  assert (y = c) as ->; [|by rewrite Z.eqb_refl in Eid]. apply (NoDup_map_inj attempt_key (lrc l)); [done..|].
  apply sync_credit_attempt in Hcr, Hxs. congruence.
Qed.

Lemma sync_no_rows `{JsonColumns} req att prov now l :
  sync_rows l req att prov = [] -> syncVerifiedReceiptLedgerCreditForAttemptTx req att prov now l = Some (l, "").
Proof. intros E. unfold syncVerifiedReceiptLedgerCreditForAttemptTx, sync_decision. by rewrite E. Qed.

Lemma with_lrc_same l : with_lrc (lrc l) l = l.
Proof. by destruct l. Qed.

(** Claim C35. A resync is idempotent. With distinct ids and one credit per attempt, run again at any clock
    after it committed, it succeeds without a reason and changes nothing, or nothing but the
    update time of the credit it billed: amounts, operator rows and verdicts stay; at the
    same clock nothing changes at all, and nothing after a quarantine. The one condition is
    that the bill it wrote did not overflow to null usage. So ingesting a receipt after the
    hot path, or the hot path after a receipt, bills the attempt once. *)
Theorem resync_idempotent `{JsonColumns} (req : string) (att : Z) (prov now now' : string)
    (l l' : Ledger) (why : string) :
  NoDup (map lrc_id (lrc l)) -> NoDup (map attempt_key (lrc l)) ->
  syncVerifiedReceiptLedgerCreditForAttemptTx req att prov now l = Some (l', why) ->
  (forall r, r ∈ lrc l' -> sync_credit req att prov r = true -> lrc_usage_source r <> UsageNullError) ->
  exists billed,
    syncVerifiedReceiptLedgerCreditForAttemptTx req att prov now' l'
      = Some (with_lrc (update_where billed (stamp_update now') (lrc l')) l', "")
    /\ (forall r, r ∈ lrc l' -> billed r = true -> sync_credit req att prov r = true)
    /\ (why <> "" \/ now' = now -> update_where billed (stamp_update now') (lrc l') = lrc l').
Proof.
  intros Hid Hk Hs Hn. pose proof Hs as Hs0. apply sync_inv in Hs.
  destruct Hs as [E|c h u tl usage cached rate result l' E Hu Hrt Hres Hb|
    c h u tl usage reason l1 E Hu Hrt Hm].
  - exists (fun _ => false). rewrite update_where_id by done. rewrite with_lrc_same. by rewrite sync_no_rows.
  - subst result. set (result := ComputeCreditsWithCache _ _ _ _ _ _ _ _ _) in Hb.
    assert (exists ops, l' = with_loc ops (with_lrc (update_where (fun r => lrc_id r =? lrc_id c)
      (lrc_with_bill result now) (lrc l)) l)) as [ops El].
    { unfold sync_bill in Hb. destruct (update_money _ _ _) as [rows|] eqn:Em; [|done].
      apply update_money_Some in Em as [-> _]. simpl in Hb.
      destruct (update_operator _ _ _) as [ops|]; [|done]. injection Hb as <-. by exists ops. }
    pose proof (sync_rows_update l l' req att prov (fun r => lrc_id r =? lrc_id c)
      (lrc_with_bill result now)) as Hrows.
    rewrite E in Hrows. cbn [map fst snd] in Hrows. rewrite Z.eqb_refl in Hrows.
    destruct (sync_rows_elem l' req att prov (lrc_with_bill result now c) h u) as (Hin & Hsel & _).
    { rewrite Hrows; [left|by rewrite El..|done]. }
    pose proof (sync_rates_again l l' c usage cached rate now) as Hag. cbv beta zeta in Hag.
    fold result in Hag.
    destruct Hag as (Hb1 & Hb2 & Hb3); [by rewrite El|by rewrite El| |done|].
    { exact (Hn _ Hin Hsel). }
    exists (fun r => lrc_id r =? lrc_id c). split_and!.
    + unfold syncVerifiedReceiptLedgerCreditForAttemptTx, sync_decision.
      rewrite Hrows by (by rewrite ?El). cbn [mbind option_bind]. rewrite Hu. cbn [mbind option_bind].
      cbv zeta. rewrite Hb2, Hb3. cbn [mbind option_bind]. rewrite Hb2 in Hb1. rewrite Hb1.
      change (lrc_id (lrc_with_bill result now c)) with (lrc_id c).
      by rewrite (sync_bill_again _ _ _ now' _ _ Hb).
    + intros r Hr Heq. replace r with (lrc_with_bill result now c); [done|].
      apply (NoDup_map_inj lrc_id (lrc l')); [rewrite El; simpl; by rewrite map_update_where|done..|]. simpl. lia.
    + intros [? | ->]; [done|]. apply update_where_id. rewrite El. cbn [lrc with_loc with_lrc].
      intros r (y & _ & ->)%elem_of_update_where Hr. destruct (lrc_id y =? lrc_id c) eqn:Ey; [done|]. congruence.
  - exists (fun _ => false). rewrite update_where_id by done. rewrite with_lrc_same.
    rewrite sync_no_rows; [done|]. eapply quarantined_not_taken; [done|exact E|exact Hm|done].
Qed.

Lemma resync_idempotent_witness :
  (ResyncSample.synced (Some 100)).2 = ""
  /\ syncVerifiedReceiptLedgerCreditForAttemptTx (H := ResyncSample.columns) "req-1" 0 "alice"
       ResyncSample.now (ResyncSample.synced (Some 100)).1
     = Some ((ResyncSample.synced (Some 100)).1, "").
Proof.
  split; [vm_compute; reflexivity|].
  destruct (resync_idempotent (H := ResyncSample.columns) "req-1" 0 "alice" ResyncSample.now ResyncSample.now
           (ResyncSample.credited (Some 100)) (ResyncSample.synced (Some 100)).1 "") as (billed & E & _ & Hb).
  - apply (bool_decide_eq_true_1 (NoDup _)). vm_compute. reflexivity.
  - apply (bool_decide_eq_true_1 (NoDup _)). vm_compute. reflexivity.
  - vm_compute. reflexivity.
  - intros r Hr _ Hn.
    assert (forallb (fun x => negb (String.eqb (lrc_usage_source x) UsageNullError))
              (lrc (ResyncSample.synced (Some 100)).1) = true) as E by (vm_compute; reflexivity).
    rewrite forallb_forall in E. apply list_elem_of_In, E in Hr.
    rewrite Hn in Hr. discriminate Hr.
  - rewrite Hb in E by (right; reflexivity). rewrite with_lrc_same in E. exact E.
Defined.
