(* ===== verification/Settlement.v ===== *)
(** * Settlement and payout claims (phase4-coordinator/internal/billing/settlement.go,
      payout.go)

    [RunSettlement] aggregates unsettled request credits into one payout row per
    provider and window and links each credit to it; [ClaimPayoutReady]
    revalidates a payout against its source credits and consumes it. Both are
    one SQLite transaction: [None] is an error and a rollback.

    The theorems show that the totals of every payout that is not voided are the
    sums over the credits linked to it in every reachable ledger, that a settled
    credit is never touched again, that only eligible credits are settled, that a
    settlement run never trips a constraint or trigger of the schema, and that a
    payout is claimed at most once and for the exact amount of its sources. *)

From S2P Require Import Prelude Formula Ledger Resync.

(** [config.SettlementConfig] *)
Record SettlementConfig := mkSettlementConfig {
  CadenceDays : Z;
  MinPayoutCredits : Z;
  StartupReconcileWindowHours : Z;
  NightlyReconcileWindowDays : Z;
  RecoveryGraceSeconds : Z;
  PendingDeadlineSeconds : Z;
  VerifiedModelSettlementMode : string;
  JobEnabled : bool;
}.

(** ** RunSettlement *)

(** First statement: a credit that is linked but not settled is quarantined. *)
Definition conflicting_link (windowEnd : string) (r : CreditRow) : bool :=
  String.ltb (lrc_ts_utc r) windowEnd && negb (lrc_settled r)
  && match lrc_settlement_id r with Some _ => true | None => false end
  && negb (lrc_quarantined r).

Definition quarantine_row (reason now : string) (r : CreditRow) : CreditRow :=
  lrc_with_state (lrc_settled r) (lrc_settlement_id r) true
    (Some (default reason (lrc_quarantine_reason r))) now r.

(** Second statement: a credit without exactly one operator row, or whose split
    does not add up to the gross, is quarantined. *)
Definition operator_rows (l : Ledger) (r : CreditRow) : list OperatorRow :=
  List.filter (fun o => loc_request_credit_id o =? lrc_id r) (loc l).

Definition split_mismatch (l : Ledger) (windowEnd : string) (r : CreditRow) : bool :=
  String.ltb (lrc_ts_utc r) windowEnd && negb (lrc_settled r)
  && match lrc_settlement_id r with Some _ => false | None => true end
  && negb (lrc_quarantined r)
  && (negb (length (operator_rows l r) =? 1)%nat
      || negb (sumZ loc_operator_credits (operator_rows l r) + lrc_provider_credits r
               =? lrc_gross_credits r)).

(** Third statement: the credits that may be settled in this window. *)
Definition settlement_eligible (l : Ledger) (windowStart windowEnd now : string)
    (r : CreditRow) : bool :=
  String.ltb (lrc_ts_utc r) windowEnd && negb (lrc_settled r)
  && match lrc_settlement_id r with Some _ => false | None => true end
  && quarantine_allows l now r
  && policy_allows l r
  && negb (existsb (fun p =>
        String.eqb (lpr_provider_id p) (lrc_provider_id r)
        && String.eqb (lpr_window_start_utc p) windowStart
        && String.eqb (lpr_window_end_utc p) windowEnd
        && force_credit_latest (lqr l) (lrc_id r)
             (fun m => String.ltb (lpr_created_at_utc p) m)) (lpr l)).

(** The temp table [settlement_eligible_request_credits]. *)
Definition eligible_table (l : Ledger) (windowStart windowEnd now : string)
    : list (Z * string) :=
  map (fun r => (lrc_id r, lrc_provider_id r))
    (List.filter (settlement_eligible l windowStart windowEnd now) (lrc l)).

Record Group := mkGroup {
  g_provider : string;
  g_count : Z;
  g_gross : Z;
  g_provider_credits : Z;
  g_operator_credits : Z;
}.

(** The credits of one group of the aggregate query. *)
Definition group_rows (elig : list (Z * string)) (rows : list CreditRow)
    (provider : string) : list CreditRow :=
  List.filter (fun r => String.eqb (lrc_provider_id r) provider
                        && existsb (fun e => fst e =? lrc_id r) elig) rows.

Definition operator_part (r : CreditRow) : Z :=
  lrc_gross_credits r - lrc_provider_credits r.

Definition group_of (elig : list (Z * string)) (rows : list CreditRow)
    (provider : string) : Group :=
  let rs := group_rows elig rows provider in
  mkGroup provider (sumZ (fun _ => 1) rs) (sumZ lrc_gross_credits rs)
    (sumZ lrc_provider_credits rs) (sumZ operator_part rs).

(** SQLite's [SUM] raises an error when an integer total leaves 64 bits. *)
Definition sum_fits (g : Group) : bool :=
  bool_decide (Int64.in_range (g_gross g)) && bool_decide (Int64.in_range (g_provider_credits g))
  && bool_decide (Int64.in_range (g_operator_credits g)).

Definition idempotencyKey (provider start end_ : string) : string :=
  provider +:+ "|" +:+ start +:+ "|" +:+ end_.

(** The CHECK constraints of [ledger_payout_ready] on amounts. *)
Definition payout_checks (r : PayoutRow) : bool :=
  (0 <? lpr_cadence_days r) && (0 <? lpr_source_credit_count r)
  && (0 <=? lpr_gross_credits r) && (0 <=? lpr_provider_credits r)
  && (0 <=? lpr_operator_credits r) && (0 <=? lpr_min_payout_credits r).

Definition add_group (g : Group) (r : PayoutRow) : PayoutRow :=
  lpr_with_totals (lpr_source_credit_count r + g_count g)
    (lpr_gross_credits r + g_gross g)
    (lpr_provider_credits r + g_provider_credits g)
    (lpr_operator_credits r + g_operator_credits g) r.

(** [INSERT ... ON CONFLICT(idempotency_key) DO UPDATE ... WHERE status = 'ready']:
    the new ledger and the number of affected rows. *)
Definition upsert_payout (cfg : SettlementConfig) (windowStart windowEnd now : string)
    (g : Group) (l : Ledger) : option (Ledger * Z) :=
  let key := idempotencyKey (g_provider g) windowStart windowEnd in
  let is_key p := String.eqb (lpr_idempotency_key p) key in
  let fresh := mkPayoutRow (next_lpr l) (g_provider g) windowStart windowEnd
    (CadenceDays cfg) (g_count g) (g_gross g) (g_provider_credits g)
    (g_operator_credits g) (MinPayoutCredits cfg) None None ready key now in
  if negb (payout_checks fresh) then None
  else match List.find is_key (lpr l) with
  | Some p =>
      if bool_decide (lpr_status p = ready) then
        if payout_checks (add_group g p)
        then Some (with_lpr (update_where is_key (add_group g) (lpr l)) (next_lpr l) l, 1)
        else None
      else Some (l, 0)
  | None =>
      if existsb (fun p => String.eqb (lpr_provider_id p) (g_provider g)
                           && String.eqb (lpr_window_start_utc p) windowStart
                           && String.eqb (lpr_window_end_utc p) windowEnd) (lpr l)
      then None
      else Some (with_lpr (lpr l ++ [fresh]) (next_lpr l + 1) l, 1)
  end.

(** The credits the last statement of the loop links:
    [provider_id = ? AND id IN (SELECT id ... WHERE provider_id = ?)]. *)
Definition link_target (elig : list (Z * string)) (provider : string) (r : CreditRow) : bool :=
  String.eqb (lrc_provider_id r) provider
  && existsb (fun e => (fst e =? lrc_id r) && String.eqb (snd e) provider) elig.

Definition link_row (sid : Z) (now : string) (r : CreditRow) : CreditRow :=
  lrc_with_state true (Some sid) (lrc_quarantined r) (lrc_quarantine_reason r) now r.

(** One iteration of the loop over the groups. *)
Definition settle_group (cfg : SettlementConfig) (windowStart windowEnd now : string)
    (elig : list (Z * string)) (g : Group) (l : Ledger) : option Ledger :=
  '(l, affected) ← upsert_payout cfg windowStart windowEnd now g l;
  let key := idempotencyKey (g_provider g) windowStart windowEnd in
  p ← List.find (fun p => String.eqb (lpr_idempotency_key p) key) (lpr l);
  if negb (bool_decide (lpr_status p = ready)) then Some l
  else if affected =? 0 then Some l
  else
    rows ← update_links (link_target elig (g_provider g)) (link_row (lpr_id p) now) (lrc l);
    Some (with_lrc rows l).

Fixpoint settle_groups (cfg : SettlementConfig) (windowStart windowEnd now : string)
    (elig : list (Z * string)) (gs : list Group) (l : Ledger) : option Ledger :=
  match gs with
  | [] => Some l
  | g :: gs =>
      l ← settle_group cfg windowStart windowEnd now elig g l;
      settle_groups cfg windowStart windowEnd now elig gs l
  end.

(** The ledger after the two quarantine statements. *)
Definition quarantine_pass (windowEnd now : string) (l : Ledger) : Ledger :=
  let l := with_lrc (update_where (conflicting_link windowEnd)
             (quarantine_row "conflicting_settlement_id" now) (lrc l)) l in
  with_lrc (update_where (split_mismatch l windowEnd)
    (quarantine_row "operator_split_mismatch" now) (lrc l)) l.

Section RunSettlement.
(** [GROUP BY] yields each provider of the joined rows once, in an order SQL
    leaves open. *)
Context (group_order : list string -> list string).

Definition groups (cfg : SettlementConfig) (elig : list (Z * string)) (l : Ledger)
    : list Group :=
  List.filter (fun g => MinPayoutCredits cfg <=? g_provider_credits g)
    (map (group_of elig (lrc l))
       (group_order (map lrc_provider_id
          (List.filter (fun r => existsb (fun e => fst e =? lrc_id r) elig) (lrc l))))).

Definition RunSettlement (cfg : SettlementConfig) (windowStart windowEnd now : string)
    (l : Ledger) : option Ledger :=
  let l := quarantine_pass windowEnd now l in
  let elig := eligible_table l windowStart windowEnd now in
  let gs := groups cfg elig l in
  if forallb sum_fits gs
  then settle_groups cfg windowStart windowEnd now elig gs l
  else None.

(** The method call: the in-memory config of the store is replaced first; the
    database keeps its old contents when the transaction fails. The flag tells
    whether the call returned no error. *)
Definition RunSettlement_call (cfg : SettlementConfig) (windowStart windowEnd now : string)
    (st : Ledger * SettlementConfig) : (Ledger * SettlementConfig) * bool :=
  match RunSettlement cfg windowStart windowEnd now (fst st) with
  | Some l' => ((l', cfg), true)
  | None => ((fst st, cfg), false)
  end.
End RunSettlement.

(** ** ClaimPayoutReady *)

(** [recordClaimAudit] *)
Definition recordClaimAudit (p : PayoutRow) (now status : string) (has_error : bool)
    (l : Ledger) : Ledger :=
  with_runs (runs l ++ [mkRunRow "spec_007_claim" (lpr_window_start_utc p)
    (lpr_window_end_utc p) (lpr_gross_credits p) (lpr_gross_credits p) now status
    has_error]) l.

(** The credits that count as valid sources of payout [p] at view time [view_now]. *)
Definition payable_source (l : Ledger) (view_now : string) (p : PayoutRow)
    (r : CreditRow) : bool :=
  bool_decide (lrc_settlement_id r = Some (lpr_id p)) && lrc_settled r
  && String.eqb (lrc_provider_id r) (lpr_provider_id p)
  && String.ltb (lrc_ts_utc r) (lpr_window_end_utc p)
  && payable l view_now r.

Definition release_row (now : string) (r : CreditRow) : CreditRow :=
  lrc_with_state false None (lrc_quarantined r) (lrc_quarantine_reason r) now r.

Definition has_id (id : Z) (p : PayoutRow) : bool := lpr_id p =? id.
Definition ready_id (id : Z) (p : PayoutRow) : bool :=
  has_id id p && bool_decide (lpr_status p = ready).

(** The last part of the claim: the guarded status update and its audit row. *)
Definition consume_payout (payoutID expectedGrossCredits : Z)
    (payoutExternalID payoutCurrency now : string) (p : PayoutRow) (l : Ledger)
    : option (bool * Ledger) :=
  let hit q := ready_id payoutID q && (lpr_gross_credits q =? expectedGrossCredits) in
  rows ← update_status hit (lpr_with_status consumed (nullString payoutExternalID)
                              (nullString payoutCurrency)) (lpr l);
  let claimed := existsb hit (lpr l) in
  let l := with_lpr rows (next_lpr l) l in
  Some (claimed,
        recordClaimAudit p now (if claimed then "complete" else "failed")
          (negb claimed) l).

(** The result [(claimed, ledger)]; [None] is an error, rolled back. *)
Definition ClaimPayoutReady (payoutID expectedGrossCredits : Z)
    (payoutExternalID payoutCurrency now view_now : string) (l : Ledger)
    : option (bool * Ledger) :=
  match List.find (has_id payoutID) (lpr l) with
  | None => Some (false, l)
  | Some p =>
      let finish := consume_payout payoutID expectedGrossCredits payoutExternalID
                      payoutCurrency now p in
      if bool_decide (lpr_status p = ready) then
        let sources := List.filter (fun r => bool_decide
                         (lrc_settlement_id r = Some payoutID)) (lrc l) in
        let pay := List.filter (payable_source l view_now p) (lrc l) in
        let sourceCount := Z.of_nat (length sources) in
        let payableCount := Z.of_nat (length pay) in
        let payableGross := sumZ lrc_gross_credits pay in
        let payableProvider := sumZ lrc_provider_credits pay in
        let payableOperator := sumZ operator_part pay in
        let sourceSetValid := (0 <? sourceCount) && (sourceCount =? payableCount) in
        let payoutMatchesSources :=
          (lpr_source_credit_count p =? payableCount)
          && (lpr_gross_credits p =? payableGross)
          && (lpr_provider_credits p =? payableProvider)
          && (lpr_operator_credits p =? payableOperator) in
        if negb (bool_decide (Int64.in_range payableGross)
                 && bool_decide (Int64.in_range payableProvider)
                 && bool_decide (Int64.in_range payableOperator)) then None
        else if negb sourceSetValid then
          rows ← update_links
                   (fun r => bool_decide (lrc_settlement_id r = Some payoutID)
                             && negb (payable_source l view_now p r)
                             && negb (lrc_settled r))
                   (release_row now) (lrc l);
          prows ← update_status (ready_id payoutID)
                    (fun q => lpr_with_status voided (lpr_payout_external_id q)
                                (lpr_payout_currency q) q) (lpr l);
          Some (false, recordClaimAudit p now "failed" true
                         (with_lrc rows (with_lpr prows (next_lpr l) l)))
        else if negb payoutMatchesSources then
          prows ←
            (if lpr_min_payout_credits p <=? payableProvider then
               let totals := lpr_with_totals payableCount payableGross payableProvider
                               payableOperator in
               if forallb (fun q => negb (ready_id payoutID q) || payout_checks (totals q))
                    (lpr l)
               then Some (update_where (ready_id payoutID) totals (lpr l)) else None
             else update_status (ready_id payoutID)
                    (fun q => lpr_with_status voided (lpr_payout_external_id q)
                                (lpr_payout_currency q) q) (lpr l));
          Some (false, recordClaimAudit p now "failed" true
                         (with_lpr prows (next_lpr l) l))
        else finish l
      else finish l
  end.

(** ** Invariant *)

(** [f] reads only columns the settlement statements leave alone. *)
Class MoneyField (f : CreditRow -> Z) : Prop :=
  money_keep : forall s i q why u r, f (lrc_with_state s i q why u r) = f r.

#[global] Instance money_const k : MoneyField (fun _ => k).
Proof. done. Qed.
#[global] Instance money_gross : MoneyField lrc_gross_credits.
Proof. done. Qed.
#[global] Instance money_provider : MoneyField lrc_provider_credits.
Proof. done. Qed.
#[global] Instance money_operator : MoneyField operator_part.
Proof. done. Qed.

Definition linked (id : Z) (r : CreditRow) : bool :=
  lrc_settled r && bool_decide (lrc_settlement_id r = Some id).

(** The total of [f] over the credits settled into payout [id]. *)
Definition linked_sum (id : Z) (f : CreditRow -> Z) (rows : list CreditRow) : Z :=
  sum_if (linked id) f rows.

Definition totals_match (rows : list CreditRow) (p : PayoutRow) : Prop :=
  lpr_source_credit_count p = linked_sum (lpr_id p) (fun _ => 1) rows
  /\ lpr_gross_credits p = linked_sum (lpr_id p) lrc_gross_credits rows
  /\ lpr_provider_credits p = linked_sum (lpr_id p) lrc_provider_credits rows
  /\ lpr_operator_credits p = linked_sum (lpr_id p) operator_part rows.

(** The width of [sqliteTimeText]: ["2006-01-02T15:04:05.000000000Z"]. *)
Definition time_text (s : string) : Prop := length (GoStr.chars s) = 30%nat.

(** What every reachable ledger satisfies: unique and fresh ids, unique payout
    keys, settled credits linked to an existing payout of their own provider, and
    the totals of a payout that is not voided equal to the sums over its credits. *)
Record ledger_ok (l : Ledger) : Prop := mkLedgerOk {
  ok_credit_ids : NoDup (map lrc_id (lrc l));
  ok_credit_fresh : forall r, r ∈ lrc l -> lrc_id r < next_lrc l;
  ok_payout_ids : NoDup (map lpr_id (lpr l));
  ok_payout_keys : NoDup (map lpr_idempotency_key (lpr l));
  ok_payout_fresh : forall p, p ∈ lpr l -> lpr_id p < next_lpr l;
  ok_links : forall r, r ∈ lrc l -> lrc_settled r = true ->
    exists i, lrc_settlement_id r = Some i /\ i < next_lpr l;
  ok_totals : forall p, p ∈ lpr l -> lpr_status p <> voided -> totals_match (lrc l) p;
  ok_key_shape : forall p, p ∈ lpr l ->
    lpr_idempotency_key p = idempotencyKey (lpr_provider_id p) (lpr_window_start_utc p)
                              (lpr_window_end_utc p)
    /\ time_text (lpr_window_start_utc p) /\ time_text (lpr_window_end_utc p);
  ok_payout_checks : forall p, p ∈ lpr l -> payout_checks p = true;
  ok_amounts : forall r, r ∈ lrc l -> 0 <= lrc_provider_credits r <= lrc_gross_credits r;
  ok_link_provider : forall r p, r ∈ lrc l -> p ∈ lpr l -> linked (lpr_id p) r = true ->
    lrc_provider_id r = lpr_provider_id p;
}.

(** *** Updates of credit rows *)

(** A row update that keeps the settlement link keeps every linked sum. *)
Lemma linked_sum_update id f `{!MoneyField f} p q why u (rows : list CreditRow) :
  linked_sum id f
    (update_where p (fun r => lrc_with_state (lrc_settled r) (lrc_settlement_id r)
                                (q r) (why r) u r) rows)
  = linked_sum id f rows.
Proof.
  unfold linked_sum, sum_if. rewrite sumZ_update_where. apply sumZ_ext.
  intros r _. destruct (p r); [|done]. unfold linked; simpl. by rewrite money_keep.
Qed.

(** Linking unsettled rows to [sid] adds their sum to [sid] and to no other. *)
Lemma linked_sum_link id f `{!MoneyField f} p sid now (rows : list CreditRow) :
  (forall r, r ∈ rows -> p r = true -> lrc_settled r = false) ->
  linked_sum id f (update_where p (link_row sid now) rows)
  = linked_sum id f rows + (if id =? sid then sum_if p f rows else 0).
Proof.
  intros Hun. unfold linked_sum, sum_if. rewrite sumZ_update_where.
  assert (forall r, r ∈ rows ->
    (if linked id (if p r then link_row sid now r else r)
     then f (if p r then link_row sid now r else r) else 0)
    = (if linked id r then f r else 0)
      + (if id =? sid then (if p r then f r else 0) else 0)) as Hr.
  { intros r Hin. destruct (p r) eqn:E; [|destruct (id =? sid); lia].
    unfold link_row, linked. rewrite (Hun r Hin E). simpl. rewrite money_keep.
    destruct (Z.eqb_spec id sid) as [->|Hne].
    - by rewrite bool_decide_eq_true_2.
    - by rewrite bool_decide_eq_false_2 by congruence. }
  rewrite (sumZ_ext _ _ _ Hr), sumZ_plus. f_equal.
  destruct (id =? sid); [done|]. induction rows; simpl; [done|].
  rewrite IHrows; [done|..]; intros; [apply Hun|apply Hr]; set_solver.
Qed.

Lemma linked_sum_fresh id f (rows : list CreditRow) :
  (forall r, r ∈ rows -> linked id r = false) -> linked_sum id f rows = 0.
Proof.
  intros H. unfold linked_sum, sum_if. rewrite (sumZ_ext _ (fun _ => 0)).
  - clear H. induction rows; simpl; auto.
  - intros r Hr. by rewrite H.
Qed.

Lemma update_links_Some p f rows rows' :
  update_links p f rows = Some rows' -> rows' = update_where p f rows.
Proof. unfold update_links. by destruct (forallb _ _); intros; simplify_eq. Qed.

Lemma update_status_Some p f rows rows' :
  update_status p f rows = Some rows' -> rows' = update_where p f rows.
Proof. unfold update_status. by destruct (forallb _ _); intros; simplify_eq. Qed.

(** The link update never trips the immutability trigger on unsettled rows. *)
Lemma update_links_unsettled p f rows :
  (forall r, r ∈ rows -> p r = true -> lrc_settled r = false) ->
  update_links p f rows = Some (update_where p f rows).
Proof.
  intros H. unfold update_links.
  assert (forallb (fun r => negb (p r) || link_change_allowed r (f r)) rows = true) as ->;
    [|done].
  apply forallb_forall. intros r Hr. apply list_elem_of_In in Hr.
  destruct (p r) eqn:E; [|done]. unfold link_change_allowed. by rewrite (H r Hr E).
Qed.

(** *** Payout upsert *)

Lemma idempotencyKey_inj p1 s1 e1 p2 s2 e2 :
  time_text s1 -> time_text e1 -> time_text s2 -> time_text e2 ->
  idempotencyKey p1 s1 e1 = idempotencyKey p2 s2 e2 ->
  p1 = p2 /\ s1 = s2 /\ e1 = e2.
Proof.
  unfold time_text, idempotencyKey. intros H1 H2 H3 H4 H.
  apply GoStr.append_inj_r in H as [-> H]; [|rewrite !GoStr.chars_app, !length_app; simpl; lia].
  apply GoStr.append_inj_r in H as [_ H]; [|rewrite !GoStr.chars_app, !length_app; simpl; lia].
  apply GoStr.append_inj_r in H as [-> H]; [|rewrite !GoStr.chars_app, !length_app; simpl; lia].
  apply GoStr.append_inj_r in H as [_ ->]; [|lia]. done.
Qed.

(** The totals of [q] are the linked totals of [rows] plus those of [g]. *)
Definition totals_plus (rows : list CreditRow) (g : Group) (q : PayoutRow) : Prop :=
  lpr_source_credit_count q = linked_sum (lpr_id q) (fun _ => 1) rows + g_count g
  /\ lpr_gross_credits q = linked_sum (lpr_id q) lrc_gross_credits rows + g_gross g
  /\ lpr_provider_credits q
     = linked_sum (lpr_id q) lrc_provider_credits rows + g_provider_credits g
  /\ lpr_operator_credits q
     = linked_sum (lpr_id q) operator_part rows + g_operator_credits g.

(** What the loop may assume of the payout table after an upsert that affected a
    row [q]: everything but the totals of [q], which run ahead by the group. *)
Record upserted (g : Group) (key : string) (l l1 : Ledger) (q : PayoutRow) : Prop := mkUpserted {
  up_find : List.find (fun p => String.eqb (lpr_idempotency_key p) key) (lpr l1) = Some q;
  up_ready : lpr_status q = ready;
  up_provider : lpr_provider_id q = g_provider g;
  up_ids : NoDup (map lpr_id (lpr l1));
  up_keys : NoDup (map lpr_idempotency_key (lpr l1));
  up_fresh : forall p, p ∈ lpr l1 -> lpr_id p < next_lpr l1;
  up_next : next_lpr l <= next_lpr l1;
  up_others : forall p, p ∈ lpr l1 -> p = q \/ (p ∈ lpr l /\ lpr_id p <> lpr_id q);
  up_totals : totals_plus (lrc l) g q;
  up_key_shape : forall p, p ∈ lpr l1 ->
    lpr_idempotency_key p = idempotencyKey (lpr_provider_id p) (lpr_window_start_utc p)
                              (lpr_window_end_utc p)
    /\ time_text (lpr_window_start_utc p) /\ time_text (lpr_window_end_utc p);
  up_checks : forall p, p ∈ lpr l1 -> payout_checks p = true;
  up_rest : l1 = with_lpr (lpr l1) (next_lpr l1) l;
  up_old_link : forall r, r ∈ lrc l -> linked (lpr_id q) r = true ->
    lrc_provider_id r = g_provider g;
}.

Lemma linked_next l r :
  ledger_ok l -> r ∈ lrc l -> linked (next_lpr l) r = false.
Proof.
  intros Hok Hr. unfold linked. destruct (lrc_settled r) eqn:E; [|done]. simpl.
  destruct (ok_links _ Hok r Hr E) as (i & -> & Hi).
  apply bool_decide_eq_false_2. intros [= ->]. lia.
Qed.

Lemma find_update_where_key key (f : PayoutRow -> PayoutRow) (rows : list PayoutRow) p :
  (forall r, lpr_idempotency_key (f r) = lpr_idempotency_key r) ->
  List.find (fun p => String.eqb (lpr_idempotency_key p) key) rows = Some p ->
  List.find (fun p => String.eqb (lpr_idempotency_key p) key)
    (update_where (fun p => String.eqb (lpr_idempotency_key p) key) f rows) = Some (f p).
Proof.
  intros Hf. induction rows as [|r rows IH]; simpl; [done|].
  destruct (String.eqb (lpr_idempotency_key r) key) eqn:E.
  - intros [= ->]. by rewrite Hf, E.
  - rewrite E. done.
Qed.

Lemma upsert_existing cfg ws we now g l l1 p :
  ledger_ok l -> time_text ws -> time_text we ->
  List.find (fun p => String.eqb (lpr_idempotency_key p)
                        (idempotencyKey (g_provider g) ws we)) (lpr l) = Some p ->
  lpr_status p = ready ->
  upsert_payout cfg ws we now g l = Some (l1, 1) ->
  upserted g (idempotencyKey (g_provider g) ws we) l l1 (add_group g p).
Proof.
  intros Hok Hws Hwe Hf Hr. unfold upsert_payout. rewrite Hf.
  destruct (negb _); [done|]. rewrite bool_decide_eq_true_2 by done.
  destruct (payout_checks (add_group g p)) eqn:Hchk; [|done]. intros [= <-].
  pose proof Hf as Hf'. apply find_Some_elem in Hf' as [Hin Hkey]. bool_hyps.
  destruct (ok_key_shape _ Hok p Hin) as (Hshape & Hs & He).
  pose proof Hkey as Hk0. rewrite Hshape in Hkey. apply idempotencyKey_inj in Hkey as (Hprov & _ & _); [|done..].
  assert (forall x, x ∈ update_where (fun p => String.eqb (lpr_idempotency_key p)
            (idempotencyKey (g_provider g) ws we)) (add_group g) (lpr l) ->
          x = add_group g p \/ (x ∈ lpr l /\ lpr_id x <> lpr_id p)) as Hoth.
  { intros x (r & Hin' & ->)%elem_of_update_where.
    destruct (String.eqb (lpr_idempotency_key r) _) eqn:E; bool_hyps.
    - left. f_equal. apply (NoDup_map_inj lpr_idempotency_key (lpr l));
        [apply Hok|done..|congruence].
    - right. split; [done|]. intros Hid. apply E.
      assert (r = p) as ->; [|congruence].
      apply (NoDup_map_inj lpr_id (lpr l)); [apply Hok|done..]. }
  split; simpl.
  - by apply find_update_where_key.
  - done.
  - done.
  - rewrite map_update_where by done. apply Hok.
  - rewrite map_update_where by done. apply Hok.
  - intros x (r & Hin' & ->)%elem_of_update_where.
    destruct (String.eqb _ _); by apply (ok_payout_fresh _ Hok r).
  - lia.
  - exact Hoth.
  - destruct (ok_totals _ Hok p Hin) as (T1 & T2 & T3 & T4); [congruence|].
    unfold totals_plus; simpl. by rewrite T1, T2, T3, T4.
  - intros x (r & Hin' & ->)%elem_of_update_where.
    destruct (String.eqb _ _); by apply (ok_key_shape _ Hok r).
  - intros x Hx. destruct (Hoth x Hx) as [->|[Hin' _]]; [done|by apply (ok_payout_checks _ Hok)].
  - done.
  - intros r Hr' Hl. rewrite <- Hprov. by apply (ok_link_provider _ Hok).
Qed.

Lemma upsert_fresh cfg ws we now g l l1 :
  ledger_ok l -> time_text ws -> time_text we ->
  List.find (fun p => String.eqb (lpr_idempotency_key p)
                        (idempotencyKey (g_provider g) ws we)) (lpr l) = None ->
  upsert_payout cfg ws we now g l = Some (l1, 1) ->
  exists q, upserted g (idempotencyKey (g_provider g) ws we) l l1 q.
Proof.
  intros Hok Hws Hwe Hf. unfold upsert_payout. rewrite Hf.
  destruct (negb _) eqn:Hchk; [done|]. destruct (existsb _ _); [done|]. intros [= <-].
  eexists (mkPayoutRow (next_lpr l) _ _ _ _ _ _ _ _ _ _ _ _ _ _).
  assert (forall p, p ∈ lpr l -> lpr_id p <> next_lpr l) as Hnew.
  { intros p Hp He. pose proof (ok_payout_fresh _ Hok p Hp). lia. }
  split; simpl.
  - rewrite find_app, Hf. simpl. by rewrite String.eqb_refl.
  - done.
  - done.
  - rewrite map_app. apply NoDup_app; split_and!; [apply Hok| |apply NoDup_singleton].
    intros x (p & Hp & ->)%elem_of_map. simpl. rewrite list_elem_of_singleton.
    by apply Hnew.
  - rewrite map_app. apply NoDup_app; split_and!; [apply Hok| |apply NoDup_singleton].
    intros x (p & Hp & ->)%elem_of_map. simpl. rewrite list_elem_of_singleton.
    pose proof (find_None_elem _ _ p Hf Hp) as Hk. simpl in Hk. by apply String.eqb_neq in Hk.
  - intros p [Hp| ->%list_elem_of_singleton]%elem_of_app; simpl; [|lia].
    pose proof (ok_payout_fresh _ Hok p Hp). lia.
  - lia.
  - intros p [Hp| ->%list_elem_of_singleton]%elem_of_app; [right; split; auto|by left].
  - unfold totals_plus. simpl.
    rewrite !linked_sum_fresh by (intros; by apply linked_next). done.
  - intros p [Hp| ->%list_elem_of_singleton]%elem_of_app; [by apply (ok_key_shape _ Hok)|done].
  - intros p [Hp| ->%list_elem_of_singleton]%elem_of_app;
      [by apply (ok_payout_checks _ Hok)|by apply negb_false_iff in Hchk].
  - done.
  - intros r Hr. rewrite linked_next by done. done.
Qed.

(** The two outcomes of the upsert. *)
Lemma upsert_payout_cases cfg ws we now g l l1 n :
  ledger_ok l -> time_text ws -> time_text we ->
  upsert_payout cfg ws we now g l = Some (l1, n) ->
  (n = 0 /\ l1 = l)
  \/ (n = 1 /\ exists q, upserted g (idempotencyKey (g_provider g) ws we) l l1 q).
Proof.
  intros Hok Hws Hwe H. pose proof H as H'. unfold upsert_payout in H.
  destruct (negb _); [done|].
  destruct (List.find _ _) as [p|] eqn:Hf.
  - case_bool_decide as Hr; [|simplify_eq; by left].
    destruct (payout_checks _); [|done].
    injection H as _ <-. right. split; [done|]. eexists. by eapply upsert_existing.
  - destruct (existsb _ _); [done|].
    injection H as _ <-. right. split; [done|]. by eapply upsert_fresh.
Qed.

(** *** One group *)

(** The group's totals are the sums over the rows its link statement selects, and
    none of those rows is settled yet. *)
Definition group_pending (elig : list (Z * string)) (rows : list CreditRow) (g : Group)
    : Prop :=
  let t := link_target elig (g_provider g) in
  g_count g = sum_if t (fun _ => 1) rows
  /\ g_gross g = sum_if t lrc_gross_credits rows
  /\ g_provider_credits g = sum_if t lrc_provider_credits rows
  /\ g_operator_credits g = sum_if t operator_part rows
  /\ (forall r, r ∈ rows -> t r = true -> lrc_settled r = false).

Lemma totals_after_link rows g q t now :
  totals_plus rows g q ->
  g_count g = sum_if t (fun _ => 1) rows ->
  g_gross g = sum_if t lrc_gross_credits rows ->
  g_provider_credits g = sum_if t lrc_provider_credits rows ->
  g_operator_credits g = sum_if t operator_part rows ->
  (forall r, r ∈ rows -> t r = true -> lrc_settled r = false) ->
  totals_match (update_where t (link_row (lpr_id q) now) rows) q.
Proof.
  intros (H1 & H2 & H3 & H4) E1 E2 E3 E4 Hun. unfold totals_match.
  rewrite !linked_sum_link by (apply _ || done). rewrite Z.eqb_refl. by repeat split; lia.
Qed.

Lemma linked_link_row id sid now r :
  linked id (link_row sid now r) = (sid =? id).
Proof.
  unfold linked, link_row; simpl. destruct (Z.eqb_spec sid id) as [->|].
  - by apply bool_decide_eq_true_2.
  - apply bool_decide_eq_false_2. congruence.
Qed.

Lemma link_upserted_ok elig g key now l l1 q :
  ledger_ok l -> upserted g key l l1 q -> group_pending elig (lrc l) g ->
  ledger_ok (with_lrc (update_where (link_target elig (g_provider g))
                         (link_row (lpr_id q) now) (lrc l)) l1).
Proof.
  intros Hok Hup (Hc & Hg & Hp & Ho & Hun). destruct Hup as [Hfind Hready Hprov Hids Hkeys
    Hfresh Hnext Hothers Htot Hshape Hchk Hrest Hold].
  rewrite Hrest in *. clear Hrest. simpl in *.
  set (t := link_target elig (g_provider g)) in *.
  apply find_Some_elem in Hfind as [Hq _].
  split; simpl; try done.
  - rewrite map_update_where by done. apply Hok.
  - intros r (r0 & Hr0 & ->)%elem_of_update_where.
    destruct (t r0); by apply (ok_credit_fresh _ Hok r0).
  - intros r (r0 & Hr0 & ->)%elem_of_update_where. destruct (t r0); simpl.
    + intros _. exists (lpr_id q). split; [done|]. by apply Hfresh.
    + intros Hs. destruct (ok_links _ Hok r0 Hr0 Hs) as (i & ? & ?).
      exists i. split; [done|lia].
  - intros p Hpin Hv. destruct (Hothers p Hpin) as [->|[Hin Hne]].
    + by apply (totals_after_link _ g).
    + unfold totals_match. rewrite !linked_sum_link by (apply _ || done).
      destruct (Z.eqb_spec (lpr_id p) (lpr_id q)); [done|].
      rewrite !Z.add_0_r. by apply (ok_totals _ Hok).
  - intros r (r0 & Hr0 & ->)%elem_of_update_where.
    destruct (t r0); by apply (ok_amounts _ Hok r0).
  - intros r p (r0 & Hr0 & ->)%elem_of_update_where Hpin.
    destruct (t r0) eqn:Et.
    + rewrite linked_link_row. intros Heq.
      assert (p = q) as -> by (apply (NoDup_map_inj lpr_id (lpr l1)); done || lia).
      unfold t, link_target in Et. bool_hyps. simpl. congruence.
    + intros Hl. destruct (Hothers p Hpin) as [->|[Hin _]].
      * rewrite Hprov. by apply Hold.
      * by apply (ok_link_provider _ Hok).
Qed.

Lemma settle_group_ok cfg ws we now elig g l l' :
  ledger_ok l -> time_text ws -> time_text we -> group_pending elig (lrc l) g ->
  settle_group cfg ws we now elig g l = Some l' ->
  ledger_ok l'
  /\ (lrc l' = lrc l
      \/ exists sid, lrc l' = update_where (link_target elig (g_provider g))
                                (link_row sid now) (lrc l)).
Proof.
  intros Hok Hws Hwe Hpend. unfold settle_group.
  destruct (upsert_payout _ _ _ _ _ _) as [[l1 n]|] eqn:Eu; [|done]. simpl.
  destruct (upsert_payout_cases _ _ _ _ _ _ _ _ Hok Hws Hwe Eu)
    as [[-> ->]|[-> [q Hup]]].
  - destruct (List.find _ _) as [p|]; [|done]. simpl.
    destruct (negb _); intros [= <-]; auto.
  - rewrite (up_find _ _ _ _ _ Hup). simpl.
    rewrite bool_decide_eq_true_2 by apply Hup. simpl.
    assert (lrc l1 = lrc l) as -> by (rewrite (up_rest _ _ _ _ _ Hup); done).
    destruct (update_links _ _ _) as [rows|] eqn:El; [|done]. simpl.
    apply update_links_Some in El as ->. intros [= <-].
    split; [by eapply link_upserted_ok|]. right. by eexists.
Qed.

(** *** The loop over the groups *)

Lemma link_target_disjoint elig p1 p2 r :
  link_target elig p1 r = true -> link_target elig p2 r = true -> p1 = p2.
Proof. unfold link_target. intros. bool_hyps. congruence. Qed.

Lemma group_pending_other elig p sid now rows g :
  g_provider g <> p -> group_pending elig rows g ->
  group_pending elig (update_where (link_target elig p) (link_row sid now) rows) g.
Proof.
  intros Hne (H1 & H2 & H3 & H4 & Hun).
  assert (forall f, MoneyField f ->
    sum_if (link_target elig (g_provider g)) f
      (update_where (link_target elig p) (link_row sid now) rows)
    = sum_if (link_target elig (g_provider g)) f rows) as Hs.
  { intros f Hf. unfold sum_if. rewrite sumZ_update_where. apply sumZ_ext.
    intros r _. destruct (link_target elig p r); [|done].
    unfold link_row. by rewrite money_keep. }
  unfold group_pending. rewrite !Hs by apply _. split_and!; try done.
  intros r (r0 & Hr0 & ->)%elem_of_update_where.
  destruct (link_target elig p r0) eqn:E; [|by apply Hun].
  change (link_target elig (g_provider g) (link_row sid now r0))
    with (link_target elig (g_provider g) r0).
  intros E'. by destruct (Hne (link_target_disjoint _ _ _ _ E' E)).
Qed.

(** How a credit row may change during the loop: not at all, or from unsettled and
    selected by the eligible table to settled. *)
Definition row_settles (elig : list (Z * string)) (now : string) (r r' : CreditRow) : Prop :=
  r' = r
  \/ lrc_settled r = false
     /\ (exists p, link_target elig p r = true)
     /\ exists sid, r' = link_row sid now r.

Lemma row_settles_trans elig now r1 r2 r3 :
  row_settles elig now r1 r2 -> row_settles elig now r2 r3 -> row_settles elig now r1 r3.
Proof.
  intros [->|(Hs & Ht & sid & ->)]; [done|].
  intros [->|(Hs' & _)]; [by right; eauto|done].
Qed.

Lemma settle_groups_ok cfg ws we now elig gs l l' :
  ledger_ok l -> time_text ws -> time_text we ->
  NoDup (map g_provider gs) ->
  (forall g, g ∈ gs -> group_pending elig (lrc l) g) ->
  settle_groups cfg ws we now elig gs l = Some l' ->
  ledger_ok l' /\ Forall2 (row_settles elig now) (lrc l) (lrc l').
Proof.
  intros Hok Hws Hwe. revert l Hok. induction gs as [|g gs IH]; intros l Hok Hnd Hp; simpl.
  { intros [= <-]. split; [done|]. apply Forall2_refl_on. by left. }
  destruct (settle_group _ _ _ _ _ _ _) as [l1|] eqn:E; [|done]. simpl.
  pose proof (Hp g ltac:(set_solver)) as Hpg.
  destruct (settle_group_ok _ _ _ _ _ _ _ _ Hok Hws Hwe Hpg E) as [Hok1 Hrows].
  simpl in Hnd. apply NoDup_cons in Hnd as [Hnin Hnd].
  assert (forall g', g' ∈ gs -> group_pending elig (lrc l1) g') as Hp1.
  { intros g' Hg'. pose proof (Hp g' ltac:(set_solver)).
    destruct Hrows as [->|[sid ->]]; [done|]. apply group_pending_other; [|done].
    intros He. apply Hnin. rewrite <- He. apply elem_of_map. eauto. }
  intros Hrest. destruct (IH l1 Hok1 Hnd Hp1 Hrest) as [Hok' Hf].
  split; [done|].
  assert (Forall2 (row_settles elig now) (lrc l) (lrc l1)) as Hf1.
  { destruct Hrows as [->|[sid ->]].
    - apply Forall2_refl_on. by left.
    - apply Forall2_update_where. intros r Hr.
      destruct (link_target elig (g_provider g) r) eqn:Et; [|by left].
      right. split; [by apply Hpg|]. eauto. }
  eapply Forall2_compose; [apply row_settles_trans|exact Hf1|exact Hf].
Qed.

(** *** The aggregate query *)

Lemma eligible_table_elem l ws we now e :
  e ∈ eligible_table l ws we now <->
  exists r, r ∈ lrc l /\ settlement_eligible l ws we now r = true
            /\ e = (lrc_id r, lrc_provider_id r).
Proof.
  unfold eligible_table. rewrite elem_of_map.
  setoid_rewrite elem_of_List_filter. naive_solver.
Qed.

(** A credit the eligible table selects is itself eligible. *)
Lemma link_target_eligible l ws we now p r :
  NoDup (map lrc_id (lrc l)) -> r ∈ lrc l ->
  link_target (eligible_table l ws we now) p r = true ->
  settlement_eligible l ws we now r = true /\ lrc_provider_id r = p.
Proof.
  intros Hnd Hr. unfold link_target. intros H. bool_hyps.
  apply existsb_elem in H0 as (e & He & Hm). bool_hyps.
  apply eligible_table_elem in He as (r' & Hr' & Hel & ->). simpl in *.
  assert (r' = r) as -> by (apply (NoDup_map_inj lrc_id (lrc l)); done || lia).
  done.
Qed.

Lemma group_match_link_target l ws we now p r :
  NoDup (map lrc_id (lrc l)) -> r ∈ lrc l ->
  String.eqb (lrc_provider_id r) p
    && existsb (fun e => fst e =? lrc_id r) (eligible_table l ws we now)
  = link_target (eligible_table l ws we now) p r.
Proof.
  intros Hnd Hr. unfold link_target.
  destruct (String.eqb (lrc_provider_id r) p) eqn:E; [|done]. simpl. bool_hyps.
  apply Bool.eq_iff_eq_true. rewrite !existsb_elem.
  split; intros (e & He & Hm); exists e; bool_hyps; [|done].
  apply eligible_table_elem in He as (r' & Hr' & Hel & ->). simpl in *.
  assert (r' = r) as -> by (apply (NoDup_map_inj lrc_id (lrc l)); done || lia).
  split; [apply eligible_table_elem; eauto|]. rewrite Hm, E. simpl. apply String.eqb_refl.
Qed.

Lemma settlement_eligible_unsettled l ws we now r :
  settlement_eligible l ws we now r = true -> lrc_settled r = false.
Proof. unfold settlement_eligible. intros. by bool_hyps. Qed.

Lemma group_of_pending l ws we now p :
  NoDup (map lrc_id (lrc l)) ->
  let elig := eligible_table l ws we now in
  group_pending elig (lrc l) (group_of elig (lrc l) p).
Proof.
  intros Hnd elig.
  assert (forall f, sumZ f (group_rows elig (lrc l) p)
                    = sum_if (link_target elig p) f (lrc l)) as Hs.
  { intros f. unfold group_rows. rewrite <- sum_if_filter. unfold sum_if.
    apply sumZ_ext. intros r Hr. unfold elig. by rewrite group_match_link_target. }
  unfold group_pending, group_of; simpl. rewrite !Hs. split_and!; try done.
  intros r Hr Ht. apply link_target_eligible in Ht as [Ht _]; [|done..].
  by eapply settlement_eligible_unsettled.
Qed.

(** *** The quarantine statements *)

Lemma quarantine_update_ok p reason now l :
  ledger_ok l ->
  ledger_ok (with_lrc (update_where p (quarantine_row reason now) (lrc l)) l).
Proof.
  intros Hok. split; simpl; try apply Hok.
  - rewrite map_update_where by done. apply Hok.
  - intros r (r0 & Hr0 & ->)%elem_of_update_where.
    destruct (p r0); by apply (ok_credit_fresh _ Hok r0).
  - intros r (r0 & Hr0 & ->)%elem_of_update_where.
    destruct (p r0); by apply (ok_links _ Hok r0).
  - intros q Hq Hv. unfold totals_match, quarantine_row.
    rewrite !linked_sum_update by apply _. by apply (ok_totals _ Hok).
  - intros r (r0 & Hr0 & ->)%elem_of_update_where.
    destruct (p r0); by apply (ok_amounts _ Hok r0).
  - intros r q (r0 & Hr0 & ->)%elem_of_update_where Hq.
    destruct (p r0); by apply (ok_link_provider _ Hok r0).
Qed.

Lemma quarantine_pass_ok we now l : ledger_ok l -> ledger_ok (quarantine_pass we now l).
Proof. intros Hok. by apply quarantine_update_ok, quarantine_update_ok. Qed.

(** *** A run always completes *)

Definition group_positive (g : Group) : Prop :=
  0 < g_count g /\ 0 <= g_gross g /\ 0 <= g_provider_credits g /\ 0 <= g_operator_credits g.

Lemma upsert_payout_total cfg ws we now g l :
  ledger_ok l -> time_text ws -> time_text we ->
  0 < CadenceDays cfg -> 0 <= MinPayoutCredits cfg -> group_positive g ->
  is_Some (upsert_payout cfg ws we now g l).
Proof.
  intros Hok Hws Hwe Hc Hm (H1 & H2 & H3 & H4). unfold upsert_payout.
  match goal with |- context [payout_checks (mkPayoutRow ?a _ _ _ _ _ _ _ _ _ _ _ _ _ _)] =>
    assert (forall k, payout_checks (mkPayoutRow a (g_provider g) ws we (CadenceDays cfg)
      (g_count g) (g_gross g) (g_provider_credits g) (g_operator_credits g)
      (MinPayoutCredits cfg) None None ready k now) = true) as Hchk
      by (intros; unfold payout_checks; simpl; lia)
  end.
  rewrite Hchk. simpl.
  destruct (List.find _ _) as [p|] eqn:Hf.
  - apply find_Some_elem in Hf as [Hp _]. case_bool_decide; [|done].
    pose proof (ok_payout_checks _ Hok p Hp) as Hpc.
    assert (payout_checks (add_group g p) = true) as ->; [|done].
    unfold payout_checks, add_group in *. simpl. lia.
  - destruct (existsb _ _) eqn:E; [|done].
    apply existsb_elem in E as (p & Hp & E). bool_hyps. subst.
    pose proof (find_None_elem _ _ p Hf Hp) as Hk. simpl in Hk.
    destruct (ok_key_shape _ Hok p Hp) as [Hs _]. rewrite Hs in Hk.
    rewrite H in Hk. by rewrite String.eqb_refl in Hk.
Qed.

Lemma settle_group_total cfg ws we now elig g l :
  ledger_ok l -> time_text ws -> time_text we ->
  0 < CadenceDays cfg -> 0 <= MinPayoutCredits cfg -> group_positive g ->
  group_pending elig (lrc l) g ->
  is_Some (settle_group cfg ws we now elig g l).
Proof.
  intros Hok Hws Hwe Hc Hm Hg Hpend. unfold settle_group.
  destruct (upsert_payout_total cfg ws we now g l Hok Hws Hwe Hc Hm Hg) as [[l1 n] Eu].
  rewrite Eu. simpl.
  destruct (upsert_payout_cases _ _ _ _ _ _ _ _ Hok Hws Hwe Eu) as [[-> ->]|[-> [q Hup]]].
  - unfold upsert_payout in Eu. destruct (negb _); [done|].
    destruct (List.find _ _) as [p|]; [simpl; by destruct (negb _)|].
    by destruct (existsb _ _).
  - rewrite (up_find _ _ _ _ _ Hup). simpl.
    rewrite bool_decide_eq_true_2 by apply Hup. simpl.
    assert (lrc l1 = lrc l) as -> by (rewrite (up_rest _ _ _ _ _ Hup); done).
    rewrite update_links_unsettled by apply Hpend. done.
Qed.

Lemma settle_groups_total cfg ws we now elig gs l :
  ledger_ok l -> time_text ws -> time_text we ->
  0 < CadenceDays cfg -> 0 <= MinPayoutCredits cfg ->
  NoDup (map g_provider gs) ->
  (forall g, g ∈ gs -> group_positive g /\ group_pending elig (lrc l) g) ->
  is_Some (settle_groups cfg ws we now elig gs l).
Proof.
  intros Hok Hws Hwe Hc Hm. revert l Hok.
  induction gs as [|g gs IH]; intros l Hok Hnd Hp; simpl; [done|].
  apply NoDup_cons in Hnd as [Hnin Hnd].
  destruct (Hp g (list_elem_of_here _ _)) as [Hpos Hpend].
  destruct (settle_group_total cfg ws we now elig g l) as [l1 E]; [done..|].
  rewrite E. simpl.
  destruct (settle_group_ok _ _ _ _ _ _ _ _ Hok Hws Hwe Hpend E) as [Hok1 Hrows].
  apply IH; [done..|]. intros g' Hg'.
  destruct (Hp g' (list_elem_of_further _ _ _ Hg')) as [Hpos' Hpend'].
  split; [done|]. destruct Hrows as [->|[sid ->]]; [done|].
  apply group_pending_other; [|done].
  intros He. apply Hnin. rewrite <- He. apply elem_of_map. eauto.
Qed.

Section RunSettlementFacts.
Context (group_order : list string -> list string)
  (group_order_perm : forall ps, group_order ps ≡ₚ remove_dups ps).

Lemma groups_elem cfg elig l g :
  g ∈ groups group_order cfg elig l ->
  exists p, g = group_of elig (lrc l) p /\ group_rows elig (lrc l) p <> []
            /\ MinPayoutCredits cfg <= g_provider_credits g.
Proof.
  unfold groups. intros [Hg Hmin]%elem_of_List_filter.
  apply elem_of_map in Hg as (p & Hp & ->).
  rewrite group_order_perm, elem_of_remove_dups in Hp.
  apply elem_of_map in Hp as (r & [Hr He]%elem_of_List_filter & ->).
  exists (lrc_provider_id r). split_and!; [done| |lia].
  assert (r ∈ group_rows elig (lrc l) (lrc_provider_id r)) as Hin.
  { apply elem_of_List_filter. rewrite String.eqb_refl, He. done. }
  destruct (group_rows _ _ _); set_solver.
Qed.

Lemma groups_providers_NoDup cfg elig l :
  NoDup (map g_provider (groups group_order cfg elig l)).
Proof.
  unfold groups. set (ps := map lrc_provider_id _).
  assert (NoDup (group_order ps)) as Hnd
    by (rewrite group_order_perm; apply NoDup_remove_dups).
  clear group_order_perm. induction Hnd as [|p qs Hp Hqs IH]; simpl; [constructor|].
  destruct (_ <=? _); simpl; [|done]. constructor; [|done].
  intros (g & [Hg _]%elem_of_List_filter & ->)%elem_of_map.
  apply elem_of_map in Hg as (p' & Hp' & ->). done.
Qed.

Lemma group_of_positive l elig p :
  (forall r, r ∈ lrc l -> 0 <= lrc_provider_credits r <= lrc_gross_credits r) ->
  group_rows elig (lrc l) p <> [] -> group_positive (group_of elig (lrc l) p).
Proof.
  intros Ham Hne. unfold group_positive, group_of; simpl.
  assert (forall r, r ∈ group_rows elig (lrc l) p ->
            0 <= lrc_provider_credits r <= lrc_gross_credits r) as Ham'.
  { intros r [Hr _]%elem_of_List_filter. by apply Ham. }
  split_and!.
  - destruct (group_rows _ _ _) as [|r rs]; [done|]. simpl.
    pose proof (sumZ_nonneg (fun _ : CreditRow => 1) rs (fun _ _ => Z.le_0_1)). lia.
  - apply sumZ_nonneg. intros r Hr. pose proof (Ham' r Hr). lia.
  - apply sumZ_nonneg. intros r Hr. pose proof (Ham' r Hr). lia.
  - apply sumZ_nonneg. intros r Hr. pose proof (Ham' r Hr). unfold operator_part. lia.
Qed.

Lemma RunSettlement_ok cfg ws we now l l' :
  ledger_ok l -> time_text ws -> time_text we ->
  RunSettlement group_order cfg ws we now l = Some l' ->
  ledger_ok l'
  /\ Forall2 (row_settles (eligible_table (quarantine_pass we now l) ws we now) now)
       (lrc (quarantine_pass we now l)) (lrc l').
Proof.
  intros Hok Hws Hwe. unfold RunSettlement. destruct (forallb _ _); [|done].
  pose proof (quarantine_pass_ok we now l Hok) as Hok1.
  apply settle_groups_ok; [done..|apply groups_providers_NoDup|].
  intros g Hg. apply groups_elem in Hg as (p & -> & _).
  apply group_of_pending, Hok1.
Qed.
End RunSettlementFacts.

(** *** Payout claims keep the invariant *)

Lemma with_runs_ok rs l : ledger_ok l -> ledger_ok (with_runs rs l).
Proof. intros [??????????]. by split. Qed.

(** A payout update that only moves the status, never away from [voided]. *)
Lemma payout_status_ok pr f l :
  (forall q, lpr_id (f q) = lpr_id q /\ lpr_idempotency_key (f q) = lpr_idempotency_key q
    /\ lpr_provider_id (f q) = lpr_provider_id q
    /\ lpr_window_start_utc (f q) = lpr_window_start_utc q
    /\ lpr_window_end_utc (f q) = lpr_window_end_utc q) ->
  (forall q, q ∈ lpr l -> pr q = true -> payout_checks (f q) = true) ->
  (forall q, q ∈ lpr l -> pr q = true -> lpr_status (f q) <> voided ->
    totals_match (lrc l) (f q)) ->
  ledger_ok l -> ledger_ok (with_lpr (update_where pr f (lpr l)) (next_lpr l) l).
Proof.
  intros Hf Hchk Htot Hok. split; simpl; try apply Hok.
  - rewrite map_update_where by (intros; apply Hf). apply Hok.
  - rewrite map_update_where by (intros; apply Hf). apply Hok.
  - intros q (q0 & Hq & ->)%elem_of_update_where.
    pose proof (ok_payout_fresh _ Hok q0 Hq). destruct (pr q0); [|done].
    by destruct (Hf q0) as [-> _].
  - intros q (q0 & Hq & ->)%elem_of_update_where. destruct (pr q0) eqn:E; [by apply Htot|].
    by apply (ok_totals _ Hok).
  - intros q (q0 & Hq & ->)%elem_of_update_where. destruct (pr q0); [|by apply (ok_key_shape _ Hok)].
    destruct (Hf q0) as (_ & -> & -> & -> & ->). by apply (ok_key_shape _ Hok).
  - intros q (q0 & Hq & ->)%elem_of_update_where. destruct (pr q0) eqn:E; [by apply Hchk|].
    by apply (ok_payout_checks _ Hok).
  - intros r q Hr (q0 & Hq & ->)%elem_of_update_where.
    destruct (pr q0); [|by apply (ok_link_provider _ Hok)].
    destruct (Hf q0) as (-> & _ & -> & _). by apply (ok_link_provider _ Hok).
Qed.

(** Releasing rows that were never settled changes no linked sum. *)
Lemma release_ok p now l :
  (forall r, r ∈ lrc l -> p r = true -> lrc_settled r = false) ->
  ledger_ok l -> ledger_ok (with_lrc (update_where p (release_row now) (lrc l)) l).
Proof.
  intros Hun Hok.
  assert (forall id f, MoneyField f ->
    linked_sum id f (update_where p (release_row now) (lrc l)) = linked_sum id f (lrc l)) as Hs.
  { intros id f Hf. unfold linked_sum, sum_if. rewrite sumZ_update_where. apply sumZ_ext.
    intros r Hr. destruct (p r) eqn:E; [|done]. unfold linked. by rewrite (Hun r Hr E). }
  split; simpl; try apply Hok.
  - rewrite map_update_where by done. apply Hok.
  - intros r (r0 & Hr0 & ->)%elem_of_update_where.
    destruct (p r0); by apply (ok_credit_fresh _ Hok r0).
  - intros r (r0 & Hr0 & ->)%elem_of_update_where.
    destruct (p r0); [done|by apply (ok_links _ Hok r0)].
  - intros q Hq Hv. unfold totals_match. rewrite !Hs by apply _. by apply (ok_totals _ Hok).
  - intros r (r0 & Hr0 & ->)%elem_of_update_where.
    destruct (p r0); by apply (ok_amounts _ Hok r0).
  - intros r q (r0 & Hr0 & ->)%elem_of_update_where Hq.
    destruct (p r0); [done|by apply (ok_link_provider _ Hok r0)].
Qed.

(** When as many credits are payable as are linked, the payable credits are the
    linked ones, and every credit that names the payout is payable. *)
Lemma payable_sources l vn p :
  length (List.filter (fun r => bool_decide (lrc_settlement_id r = Some (lpr_id p))) (lrc l))
    = length (List.filter (payable_source l vn p) (lrc l)) ->
  (forall r, r ∈ lrc l -> lrc_settlement_id r = Some (lpr_id p) ->
     payable_source l vn p r = true)
  /\ (forall f, sumZ f (List.filter (payable_source l vn p) (lrc l))
                = linked_sum (lpr_id p) f (lrc l)).
Proof.
  intros Hlen.
  assert (forall r, r ∈ lrc l ->
    bool_decide (lrc_settlement_id r = Some (lpr_id p)) = payable_source l vn p r) as Heq.
  { apply filter_length_eq; [|done]. unfold payable_source. intros r _ H. bool_hyps.
    by apply bool_decide_eq_true_2. }
  split.
  - intros r Hr Hid. rewrite <- Heq by done. by apply bool_decide_eq_true_2.
  - intros f. rewrite <- sum_if_filter. unfold linked_sum, sum_if. apply sumZ_ext.
    intros r Hr. rewrite <- Heq by done. unfold linked.
    case_bool_decide as Hid; [|by rewrite andb_false_r].
    assert (payable_source l vn p r = true) as Hp
      by (rewrite <- Heq by done; by apply bool_decide_eq_true_2).
    unfold payable_source in Hp. bool_hyps.
    match goal with H : lrc_settled r = true |- _ => by rewrite H end.
Qed.

Lemma sumZ_length {A} (l : list A) : sumZ (fun _ => 1) l = Z.of_nat (length l).
Proof. induction l; simpl; lia. Qed.

Lemma consume_payout_ok id g ext cur now p l b l' :
  ledger_ok l -> consume_payout id g ext cur now p l = Some (b, l') -> ledger_ok l'.
Proof.
  intros Hok. unfold consume_payout. destruct (update_status _ _ _) eqn:E; [|done].
  apply update_status_Some in E as ->. intros [= <- <-].
  apply with_runs_ok, payout_status_ok; [by intros ?; split_and!|..|done].
  - intros q Hq _. by apply (ok_payout_checks _ Hok q).
  - intros q Hq Hh _. unfold ready_id in Hh. bool_hyps.
    apply (ok_totals _ Hok q Hq). congruence.
Qed.

Lemma void_payout_ok id l :
  ledger_ok l ->
  ledger_ok (with_lpr (update_where (ready_id id)
     (fun q => lpr_with_status voided (lpr_payout_external_id q) (lpr_payout_currency q) q)
     (lpr l)) (next_lpr l) l).
Proof.
  intros Hok. apply payout_status_ok; [by intros ?; split_and!|..|done].
  - intros q Hq _. by apply (ok_payout_checks _ Hok q).
  - done.
Qed.

Lemma ClaimPayoutReady_ok id g ext cur now vn l b l' :
  ledger_ok l -> ClaimPayoutReady id g ext cur now vn l = Some (b, l') -> ledger_ok l'.
Proof.
  intros Hok. unfold ClaimPayoutReady.
  destruct (List.find _ _) as [p|] eqn:Hf; [|by intros; simplify_eq].
  apply find_Some_elem in Hf as [Hp Hid]. apply Z.eqb_eq in Hid as <-.
  case_bool_decide as Hr; [|by apply consume_payout_ok].
  cbv zeta. destruct (negb (_ && _ && _)); [done|].
  destruct (negb (_ && (_ =? _))) eqn:Hset.
  { destruct (update_links _ _ _) eqn:El; [|done]. apply update_links_Some in El as ->. simpl.
    destruct (update_status _ _ _) eqn:Es; [|done]. apply update_status_Some in Es as ->.
    intros [= <- <-]. apply with_runs_ok. apply (release_ok _ _ (with_lpr _ _ l)).
    - simpl. intros r _ Ht. by bool_hyps.
    - by apply void_payout_ok. }
  destruct (negb (_ && _ && _ && _)); [|by apply consume_payout_ok].
  destruct (_ <=? _).
  - destruct (forallb _ _) eqn:Hchk; [|done]. intros [= <- <-].
    apply with_runs_ok, payout_status_ok; [by intros ?; split_and!|..|done].
    + intros q Hq Hri. rewrite forallb_forall in Hchk.
      specialize (Hchk q). rewrite Hri in Hchk. apply Hchk. by apply list_elem_of_In.
    + intros q Hq Hri _. unfold ready_id, has_id in Hri. bool_hyps.
      destruct (payable_sources l vn p) as [_ Hs]; [lia|].
      unfold totals_match; simpl. assert (lpr_id q = lpr_id p) as -> by lia.
      by rewrite <- !Hs, sumZ_length.
  - destruct (update_status _ _ _) eqn:Es; [|done]. apply update_status_Some in Es as ->.
    intros [= <- <-]. by apply with_runs_ok, void_payout_ok.
Qed.

(** A claim that succeeds: its payout and sources. *)
Lemma ClaimPayoutReady_claimed id g ext cur now vn l l' :
  ledger_ok l -> ClaimPayoutReady id g ext cur now vn l = Some (true, l') ->
  exists p, p ∈ lpr l /\ lpr_id p = id /\ lpr_status p = ready
    /\ lpr_gross_credits p = g
    /\ (forall r, r ∈ lrc l -> lrc_settlement_id r = Some id ->
          payable_source l vn p r = true)
    /\ 0 < linked_sum id (fun _ => 1) (lrc l)
    /\ lpr l' = update_where
         (fun q => ready_id id q && (lpr_gross_credits q =? g))
         (lpr_with_status consumed (nullString ext) (nullString cur)) (lpr l)
    /\ lrc l' = lrc l.
Proof.
  intros Hok. unfold ClaimPayoutReady.
  destruct (List.find _ _) as [p|] eqn:Hf; [|done].
  apply find_Some_elem in Hf as [Hp Hid]. apply Z.eqb_eq in Hid as <-.
  assert (forall l', consume_payout (lpr_id p) g ext cur now p l = Some (true, l') ->
    lpr_status p = ready /\ lpr_gross_credits p = g
    /\ lpr l' = update_where (fun q => ready_id (lpr_id p) q && (lpr_gross_credits q =? g))
         (lpr_with_status consumed (nullString ext) (nullString cur)) (lpr l)
    /\ lrc l' = lrc l) as Hcons.
  { intros l1. unfold consume_payout. destruct (update_status _ _ _) eqn:E; [|done].
    apply update_status_Some in E as ->. simpl. intros [= Hc <-].
    apply existsb_elem in Hc as (q & Hq & Hh). unfold ready_id, has_id in Hh. bool_hyps.
    assert (q = p) as -> by (apply (NoDup_map_inj lpr_id (lpr l)); [apply Hok|done..|lia]).
    split_and!; [done|lia|done|done]. }
  case_bool_decide as Hr; [|intros Hc; by destruct (Hcons _ Hc)].
  cbv zeta. destruct (negb (_ && _ && _)); [done|].
  destruct (negb (_ && (_ =? _))) eqn:Hset.
  { destruct (update_links _ _ _); [|done]. simpl. by destruct (update_status _ _ _). }
  destruct (negb (_ && _ && _ && _)).
  { destruct (_ <=? _); [by destruct (forallb _ _)|by destruct (update_status _ _ _)]. }
  intros Hc. destruct (Hcons _ Hc) as (_ & Hg & Hl & Hrows). bool_hyps.
  destruct (payable_sources l vn p) as [Hall Hs]; [lia|].
  exists p. split_and!; try done. rewrite <- Hs, sumZ_length. lia.
Qed.

(** ** Executions

    The statements that change the money tables, in any order: hot-path credits,
    quarantined hot-path rows, resyncs with a verified receipt, settlement runs and
    payout claims (that commit). Between them the receipt, route-snapshot, output and resolution
    tables, which other components own, may change arbitrarily. *)
Inductive LedgerEvent :=
| EvCredit (i : HotPathInput) (now : string)
| EvQuarantined (i : HotPathInput) (now reason : string)
| EvSettle (cfg : SettlementConfig) (ws we now : string)
| EvClaim (id gross : Z) (ext cur now view_now : string) (claimed : bool)
| EvSync (req : string) (att : Z) (prov now why : string)
| EvOther.

Definition quarantinedAttemptTx (i : HotPathInput) (now reason : string) (l : Ledger)
    : option Ledger :=
  let result := zeroCredits (ComputeCredits (hp_PromptTokens i) (hp_CompletionTokens i)
    (hp_EstimatedCompTokens i) (usageFor (hp_ErrorCode i) (hp_EstimatedCompTokens i))
    (hp_FaultFlag i) (hp_RateEntry i) (hp_MultiplierPPM i) (hp_ProviderShareBps i)) in
  snd <$> insertRequestCreditTx i result "hot_path" now true reason l.

Inductive ledger_step {JC : JsonColumns} (group_order : list string -> list string)
    : Ledger -> LedgerEvent -> Ledger -> Prop :=
| step_credit l i now l' :
    creditAttemptTx i now l = Some l' ->
    ledger_step group_order l (EvCredit i now) l'
| step_quarantined l i now reason l' :
    quarantinedAttemptTx i now reason l = Some l' ->
    ledger_step group_order l (EvQuarantined i now reason) l'
| step_settle l cfg ws we now l' :
    time_text ws -> time_text we ->
    RunSettlement group_order cfg ws we now l = Some l' ->
    ledger_step group_order l (EvSettle cfg ws we now) l'
| step_claim l id g ext cur now vn b l' :
    ClaimPayoutReady id g ext cur now vn l = Some (b, l') ->
    ledger_step group_order l (EvClaim id g ext cur now vn b) l'
| step_sync l req att prov now why l' :
    syncVerifiedReceiptLedgerCreditForAttemptTx req att prov now l = Some (l', why) ->
    ledger_step group_order l (EvSync req att prov now why) l'
| step_other l l' :
    lrc l' = lrc l -> loc l' = loc l -> lpr l' = lpr l -> next_lrc l' = next_lrc l ->
    next_lpr l' = next_lpr l ->
    ledger_step group_order l EvOther l'.

Inductive ledger_exec {JC : JsonColumns} (group_order : list string -> list string) (l0 : Ledger)
    : list LedgerEvent -> Ledger -> Prop :=
| exec_nil : ledger_exec group_order l0 [] l0
| exec_snoc evs l1 e l2 :
    ledger_exec group_order l0 evs l1 -> ledger_step group_order l1 e l2 ->
    ledger_exec group_order l0 (evs ++ [e]) l2.

Definition empty_ledger : Ledger := mkLedger [] [] [] [] [] [] [] [] 1 1 1 [] 1 [].

Lemma empty_ledger_ok : ledger_ok empty_ledger.
Proof. split; simpl; try constructor; set_solver. Qed.

Lemma insertRequestCreditTx_ok i result source now quar why l id l' :
  0 <= ProviderCredits result <= GrossCredits result ->
  insertRequestCreditTx i result source now quar why l = Some (id, l') ->
  ledger_ok l -> ledger_ok l'.
Proof.
  intros Ham. unfold insertRequestCreditTx. set (row := hot_path_row _ _ _ _ _ _ _).
  destruct (_ && _); [|done]. intros [= <- <-] Hok.
  assert (forall k, linked k row = false) as Hrow by done.
  assert (forall k f, linked_sum k f (lrc l ++ [row]) = linked_sum k f (lrc l)) as Hs.
  { intros k f. unfold linked_sum, sum_if. rewrite sumZ_app.
    cbn [sumZ]. rewrite Hrow. lia. }
  assert (forall (P : CreditRow -> Prop), (forall r, r ∈ lrc l -> P r) -> P row ->
            forall r, r ∈ lrc l ++ [row] -> P r) as Hall.
  { intros P H1 H2 r [Hr| ->%list_elem_of_singleton]%elem_of_app; auto. }
  split; simpl; try apply Hok.
  - rewrite map_app. apply NoDup_app; split_and!; [apply Hok| |apply NoDup_singleton].
    intros x (r & Hr & ->)%elem_of_map. simpl. rewrite list_elem_of_singleton.
    pose proof (ok_credit_fresh _ Hok r Hr). lia.
  - refine (Hall (fun r => lrc_id r < _) _ _); [|simpl; lia].
    intros r Hr. pose proof (ok_credit_fresh _ Hok r Hr). lia.
  - by refine (Hall (fun r => lrc_settled r = true -> _) (ok_links _ Hok) _).
  - intros p Hp Hv. unfold totals_match. rewrite !Hs. by apply (ok_totals _ Hok).
  - by refine (Hall (fun r => _ <= _ r <= _ r) (ok_amounts _ Hok) _).
  - intros r p Hr Hp.
    refine (Hall (fun r => linked (lpr_id p) r = true -> _ r = _) _ _ r Hr); [|done].
    intros r' Hr'. by apply (ok_link_provider _ Hok).
Qed.

Lemma creditAttemptTx_ok i now l l' :
  creditAttemptTx i now l = Some l' -> ledger_ok l -> ledger_ok l'.
Proof.
  unfold creditAttemptTx. set (result := ComputeCreditsWithCache _ _ _ _ _ _ _ _ _).
  destruct (insertRequestCreditTx _ _ _ _ _ _ _) as [[id l1]|] eqn:E; [|done]. simpl.
  intros H Hok. assert (ledger_ok l1) as Hok1.
  { eapply insertRequestCreditTx_ok; [|exact E|done].
    unfold insertRequestCreditTx in E. destruct (_ && _) eqn:Ec; [|done].
    unfold credit_row_checks in Ec. bool_hyps.
    match goal with H : (lrc_provider_share_bps _ <=? 10000) = true |- _ =>
      simpl in H; unfold result in H; rewrite ComputeCreditsWithCache_share in H end.
    apply ComputeCreditsWithCache_split. lia. }
  unfold insertOperatorCreditTx in H. destruct (_ && _) in H; [|done].
  injection H as <-. destruct Hok1. by split.
Qed.

Lemma quarantinedAttemptTx_ok i now why l l' :
  quarantinedAttemptTx i now why l = Some l' -> ledger_ok l -> ledger_ok l'.
Proof.
  unfold quarantinedAttemptTx.
  destruct (insertRequestCreditTx _ _ _ _ _ _ _) as [[id l1]|] eqn:E; [|done].
  simpl. intros [= <-]. eapply insertRequestCreditTx_ok; [|exact E].
  unfold zeroCredits. by destruct (String.eqb _ _).
Qed.

(** A resync rewrites unsettled credits only, so payouts keep their totals. *)
Lemma credit_rewrite_ok id f g l l' :
  credit_rewrite id f g l l' -> ledger_ok l -> ledger_ok l'.
Proof.
  intros [Hlrc _ (Hlpr & _ & Hn1 & Hn2) Hk _ (c & Hc & Hcid & Hcs & _) Ham _] Hok.
  assert (forall r, r ∈ lrc l -> (lrc_id r =? id) = true -> lrc_settled r = false) as Hun.
  { intros r Hr Hid. assert (r = c) as ->; [|done].
    apply (NoDup_map_inj lrc_id (lrc l)); [apply Hok|done..|lia]. }
  assert (forall k h, linked_sum k h (lrc l') = linked_sum k h (lrc l)) as Hsum.
  { intros k h. unfold linked_sum, sum_if. rewrite Hlrc, sumZ_update_where.
    apply sumZ_ext. intros r Hr. destruct (lrc_id r =? id) eqn:E; [|done].
    unfold linked. destruct (Hk r) as (_ & _ & -> & ->). by rewrite (Hun r Hr E). }
  assert (forall r', r' ∈ lrc l' -> exists r, r ∈ lrc l /\ lrc_id r' = lrc_id r
    /\ lrc_provider_id r' = lrc_provider_id r /\ lrc_settled r' = lrc_settled r
    /\ lrc_settlement_id r' = lrc_settlement_id r) as Hrow.
  { rewrite Hlrc. intros r' (r & Hr & ->)%elem_of_update_where. exists r.
    destruct (_ =? id); [destruct (Hk r) as (? & ? & ? & ?)|]; done. }
  split; rewrite ?Hlpr, ?Hn1, ?Hn2; try apply Hok.
  - rewrite Hlrc, map_update_where; [apply Hok|]. intros r _. apply Hk.
  - intros r' (r & Hr & -> & _)%Hrow. by apply Hok.
  - intros r' (r & Hr & _ & _ & -> & ->)%Hrow. by apply Hok.
  - intros p Hp Hv. unfold totals_match. rewrite !Hsum. by apply (ok_totals _ Hok).
  - rewrite Hlrc. intros r' (r & Hr & ->)%elem_of_update_where.
    destruct (lrc_id r =? id) eqn:E; [apply Ham; [done|lia]|by apply Hok].
  - intros r' p (r & Hr & _ & -> & Es & Ei)%Hrow Hp. unfold linked. rewrite Es, Ei.
    by apply (ok_link_provider _ Hok).
Qed.

Section Executions.
Context {JC : JsonColumns} (group_order : list string -> list string)
  (group_order_perm : forall ps, group_order ps ≡ₚ remove_dups ps).

Lemma ledger_step_ok l e l' :
  ledger_step group_order l e l' -> ledger_ok l -> ledger_ok l'.
Proof.
  destruct 1 as [|? ? ? ? ? Hx|? ? ? ? ? ? Hws Hwe Hx|? ? ? ? ? ? ? ? ? Hx
                |? ? ? ? ? ? ? Hx|l l' E1 E2 E3 E4 E5];
    intros Hok.
  - eapply creditAttemptTx_ok; eassumption.
  - eapply quarantinedAttemptTx_ok; eassumption.
  - exact (proj1 (RunSettlement_ok _ group_order_perm _ _ _ _ _ _ Hok Hws Hwe Hx)).
  - eapply ClaimPayoutReady_ok; eassumption.
  - apply sync_frame in Hx as [->|(id & f & g & Hc)]; [done|by eapply credit_rewrite_ok].
  - destruct Hok. split; by rewrite ?E1, ?E2, ?E3, ?E4, ?E5.
Qed.

Lemma ledger_exec_ok evs l :
  ledger_exec group_order empty_ledger evs l -> ledger_ok l.
Proof.
  induction 1; [apply empty_ledger_ok|eapply ledger_step_ok; eassumption].
Qed.
End Executions.

(** *** What a run does to one credit *)

(** The row after the two quarantine statements. *)
Definition quarantined_version (we now : string) (l : Ledger) (r : CreditRow) : CreditRow :=
  let r1 := if conflicting_link we r then quarantine_row "conflicting_settlement_id" now r
            else r in
  if split_mismatch l we r1 then quarantine_row "operator_split_mismatch" now r1 else r1.

Lemma quarantine_pass_lrc we now l :
  lrc (quarantine_pass we now l) = map (quarantined_version we now l) (lrc l).
Proof. unfold quarantine_pass, update_where. simpl. by rewrite map_map. Qed.

Lemma quarantined_version_settled we now l r :
  lrc_settled r = true -> quarantined_version we now l r = r.
Proof.
  intros Hs. unfold quarantined_version, conflicting_link, split_mismatch.
  rewrite Hs, !andb_false_r. simpl. rewrite Hs, !andb_false_r. done.
Qed.

(** The columns the quarantine statements leave alone. *)
Lemma quarantined_version_keeps we now l r :
  let r' := quarantined_version we now l r in
  lrc_settled r' = lrc_settled r /\ lrc_settlement_id r' = lrc_settlement_id r
  /\ lrc_ts_utc r' = lrc_ts_utc r /\ lrc_id r' = lrc_id r
  /\ lrc_gross_credits r' = lrc_gross_credits r
  /\ lrc_provider_credits r' = lrc_provider_credits r
  /\ policy_allows (quarantine_pass we now l) r' = policy_allows l r.
Proof. unfold quarantined_version. by do 2 case_match. Qed.

Lemma quarantined_version_split we now l r :
  let r' := quarantined_version we now l r in
  String.ltb (lrc_ts_utc r') we = true -> lrc_settled r' = false ->
  lrc_settlement_id r' = None -> lrc_quarantined r' = false ->
  length (operator_rows l r) = 1%nat
  /\ sumZ loc_operator_credits (operator_rows l r) + lrc_provider_credits r
     = lrc_gross_credits r.
Proof.
  intros r' Ht Hs Hi Hq. subst r'. unfold quarantined_version in *.
  destruct (conflicting_link we r); [by case_match|].
  destruct (split_mismatch l we r) eqn:Em; [done|].
  unfold split_mismatch in Em. rewrite Ht, Hs, Hi, Hq in Em. simpl in Em. bool_hyps.
  split; [by apply Nat.eqb_eq|lia].
Qed.

(** What [RunSettlement] guarantees of one credit row, before and after. *)
Definition credit_settled_soundly (l : Ledger) (we now : string) (r r' : CreditRow) : Prop :=
  (lrc_settled r = true -> r' = r)
  /\ lrc_gross_credits r' = lrc_gross_credits r
  /\ lrc_provider_credits r' = lrc_provider_credits r
  /\ (lrc_settled r = false -> lrc_settled r' = true ->
      lrc_settlement_id r = None
      /\ String.ltb (lrc_ts_utc r) we = true
      /\ policy_allows l r = true
      /\ quarantine_allows l now r' = true
      /\ (lrc_quarantined r' = false ->
          length (operator_rows l r) = 1%nat
          /\ sumZ loc_operator_credits (operator_rows l r) + lrc_provider_credits r
             = lrc_gross_credits r)).

Lemma row_settles_sound ws we now l r r' :
  NoDup (map lrc_id (lrc (quarantine_pass we now l))) ->
  quarantined_version we now l r ∈ lrc (quarantine_pass we now l) ->
  row_settles (eligible_table (quarantine_pass we now l) ws we now) now
    (quarantined_version we now l r) r' ->
  credit_settled_soundly l we now r r'.
Proof.
  intros Hnd Hin Hs.
  destruct (quarantined_version_keeps we now l r) as (Ks & Ki & Kt & Kid & Kg & Kp & Kpol).
  unfold credit_settled_soundly.
  destruct Hs as [->|(Hun & [p Ht] & sid & ->)].
  { split_and!; [by apply quarantined_version_settled|done|done|].
    intros H1 H2. congruence. }
  apply link_target_eligible in Ht as [He _]; [|done..].
  unfold settlement_eligible in He. bool_hyps.
  destruct (lrc_settlement_id (quarantined_version we now l r)) eqn:Esid; [done|].
  split_and!; [congruence|done|done|]. intros _ _.
  split_and!; [congruence|congruence|congruence| |].
  - assumption.
  - intros Hq. by apply (quarantined_version_split we now l r).
Qed.

Lemma sumZ_filter_le {A} (f : A -> Z) (p : A -> bool) l :
  (forall x, x ∈ l -> 0 <= f x) -> 0 <= sumZ f (List.filter p l) <= sumZ f l.
Proof.
  induction l as [|x l IH]; intros H; simpl; [lia|].
  pose proof (H x (list_elem_of_here _ _)).
  pose proof (IH (fun y Hy => H y (list_elem_of_further _ _ _ Hy))).
  destruct (p x); simpl; lia.
Qed.

(** The sums of every group fit when the total gross does. *)
Lemma group_sums_fit group_order
    (group_order_perm : forall ps, group_order ps ≡ₚ remove_dups ps) cfg elig we now l :
  ledger_ok l -> sumZ lrc_gross_credits (lrc l) <= Int64.max ->
  forallb sum_fits (groups group_order cfg elig (quarantine_pass we now l)) = true.
Proof.
  intros Hok Hsum. apply forallb_forall. intros g Hg. apply list_elem_of_In in Hg.
  apply groups_elem in Hg as (p & -> & _); [|done].
  pose proof (quarantine_pass_ok we now l Hok) as Hok1.
  assert (sumZ lrc_gross_credits (lrc (quarantine_pass we now l))
          = sumZ lrc_gross_credits (lrc l)) as Hq.
  { rewrite quarantine_pass_lrc, sumZ_map. apply sumZ_ext. intros r _.
    apply quarantined_version_keeps. }
  set (rows := lrc (quarantine_pass we now l)) in *.
  assert (forall f, (forall r, r ∈ rows -> 0 <= f r <= lrc_gross_credits r) ->
    Int64.in_range (sumZ f (group_rows elig rows p))) as Hf.
  { intros f Hb. unfold group_rows.
    pose proof (sumZ_filter_le f (fun r => String.eqb (lrc_provider_id r) p
      && existsb (fun e => fst e =? lrc_id r) elig) rows ltac:(intros; by apply Hb)).
    assert (sumZ f rows <= sumZ lrc_gross_credits rows).
    { clear -Hb. induction rows as [|r rs IH]; simpl; [lia|].
      pose proof (Hb r (list_elem_of_here _ _)).
      pose proof (IH (fun y Hy => Hb y (list_elem_of_further _ _ _ Hy))). lia. }
    i64. lia. }
  unfold sum_fits, group_of; simpl.
  rewrite !bool_decide_eq_true_2; [done|apply Hf..]; intros r Hr;
    pose proof (ok_amounts _ Hok1 r Hr); unfold operator_part; lia.
Qed.

(** *** Consumed payouts stay *)

Definition is_consumed (id : Z) (l : Ledger) : Prop :=
  exists p, p ∈ lpr l /\ lpr_id p = id /\ lpr_status p = consumed.

Lemma settle_group_keeps cfg ws we now elig g l l' p :
  ledger_ok l -> settle_group cfg ws we now elig g l = Some l' ->
  p ∈ lpr l -> lpr_status p <> ready -> p ∈ lpr l'.
Proof.
  intros Hok. unfold settle_group, upsert_payout.
  destruct (negb _); [done|].
  destruct (List.find _ _) as [q|] eqn:Hf.
  - apply find_Some_elem in Hf as [Hq Hk].
    case_bool_decide as Hr; [destruct (payout_checks _); [|done]|].
    + simpl. intros H Hp Hpr.
      assert (p ∈ update_where (fun p0 => String.eqb (lpr_idempotency_key p0)
                (idempotencyKey (g_provider g) ws we)) (add_group g) (lpr l)) as Hin.
      { apply elem_of_update_where. exists p. split; [done|].
        destruct (String.eqb (lpr_idempotency_key p) _) eqn:E; [|done]. bool_hyps.
        assert (p = q) as ->; [|done].
        apply (NoDup_map_inj lpr_idempotency_key (lpr l)); [apply Hok|done..|congruence]. }
      destruct (List.find _ _); [|done]. simpl in H.
      destruct (negb _); [by simplify_eq|].
      destruct (update_links _ _ _); [|done]. simpl in H. by simplify_eq.
    + simpl. intros H Hp Hpr. destruct (List.find _ _); [|done]. simpl in H.
      destruct (negb _); by simplify_eq.
  - clear Hf. destruct (existsb _ _); [done|]. simpl. intros H Hp Hpr.
    destruct (List.find _ _); [|done]. simpl in H.
    destruct (negb _); [simplify_eq; set_solver|].
    destruct (update_links _ _ _); [|done]. simpl in H. simplify_eq. simpl. set_solver.
Qed.

Lemma settle_groups_keeps cfg ws we now elig gs l l' p :
  ledger_ok l -> time_text ws -> time_text we -> NoDup (map g_provider gs) ->
  (forall g, g ∈ gs -> group_pending elig (lrc l) g) ->
  settle_groups cfg ws we now elig gs l = Some l' ->
  p ∈ lpr l -> lpr_status p <> ready -> p ∈ lpr l'.
Proof.
  intros Hok Hws Hwe. revert l Hok.
  induction gs as [|g gs IH]; intros l Hok Hnd Hp; simpl; [by intros; simplify_eq|].
  destruct (settle_group _ _ _ _ _ _ _) as [l1|] eqn:E; [|done]. simpl.
  apply NoDup_cons in Hnd as [Hnin Hnd]. intros Hrest Hpin Hpr.
  pose proof (Hp g (list_elem_of_here _ _)) as Hpg.
  destruct (settle_group_ok _ _ _ _ _ _ _ _ Hok Hws Hwe Hpg E) as [Hok1 Hrows].
  apply (IH l1); try done; [|eapply settle_group_keeps; [exact Hok|exact E|done..]].
  intros g' Hg'. pose proof (Hp g' (list_elem_of_further _ _ _ Hg')).
  destruct Hrows as [->|[sid ->]]; [done|]. apply group_pending_other; [|done].
  intros He. apply Hnin. rewrite <- He. apply elem_of_map. eauto.
Qed.

Section ExecutionFacts.
Context {JC : JsonColumns} (group_order : list string -> list string)
  (group_order_perm : forall ps, group_order ps ≡ₚ remove_dups ps).

Lemma RunSettlement_keeps cfg ws we now l l' p :
  ledger_ok l -> time_text ws -> time_text we ->
  RunSettlement group_order cfg ws we now l = Some l' ->
  p ∈ lpr l -> lpr_status p <> ready -> p ∈ lpr l'.
Proof.
  intros Hok Hws Hwe. unfold RunSettlement. destruct (forallb _ _); [|done].
  pose proof (quarantine_pass_ok we now l Hok) as Hok1. intros H Hp Hpr.
  refine (settle_groups_keeps _ _ _ _ _ _ _ _ _ Hok1 Hws Hwe _ _ H Hp Hpr).
  - by apply groups_providers_NoDup.
  - intros g Hg. apply groups_elem in Hg as (q & -> & _); [|done].
    apply group_of_pending, Hok1.
Qed.

(** Claims never touch a payout that is not ready. *)
Lemma ClaimPayoutReady_keeps id g ext cur now vn l b l' p :
  ledger_ok l -> ClaimPayoutReady id g ext cur now vn l = Some (b, l') ->
  p ∈ lpr l -> lpr_status p <> ready -> p ∈ lpr l'.
Proof.
  intros Hok H Hp Hpr.
  assert (forall pr f, (forall q, pr q = true -> ready_id id q = true) ->
            p ∈ update_where pr f (lpr l)) as Hkeep.
  { intros pr f Hpr'. apply elem_of_update_where. exists p. split; [done|].
    destruct (pr p) eqn:E; [|done]. apply Hpr' in E. unfold ready_id in E. by bool_hyps. }
  assert (forall p0, consume_payout id g ext cur now p0 l = Some (b, l') -> p ∈ lpr l') as Hc.
  { intros p0. unfold consume_payout. destruct (update_status _ _ _) eqn:E; [|done].
    apply update_status_Some in E as ->. intros [= <- <-]. apply Hkeep.
    intros q Hq. by bool_hyps. }
  unfold ClaimPayoutReady in H. destruct (List.find _ _); [|by simplify_eq].
  case_bool_decide; [|by eapply Hc]. cbv zeta in H.
  destruct (negb (_ && _ && _)); [done|]. destruct (negb (_ && (_ =? _))).
  { destruct (update_links _ _ _); [|done]. simpl in H.
    destruct (update_status _ _ _) eqn:Es; [|done]. apply update_status_Some in Es as ->.
    simpl in H. simplify_eq. by apply Hkeep. }
  destruct (negb (_ && _ && _ && _)); [|by eapply Hc]. destruct (_ <=? _).
  - destruct (forallb _ _); [|done]. simpl in H. simplify_eq. by apply Hkeep.
  - destruct (update_status _ _ _) eqn:Es; [|done]. apply update_status_Some in Es as ->.
    simpl in H. simplify_eq. by apply Hkeep.
Qed.

Lemma ledger_step_keeps l e l' p :
  ledger_ok l -> ledger_step group_order l e l' ->
  p ∈ lpr l -> lpr_status p <> ready -> p ∈ lpr l'.
Proof.
  intros Hok Hs Hp Hpr.
  destruct Hs as [l i now l' Hx|l i now why l' Hx|l cfg ws we now l' Hws Hwe Hx
                 |l id g ext cur now vn b l' Hx|l req att prov now why l' Hx|l l' _ _ E _ _].
  - unfold creditAttemptTx, insertRequestCreditTx in Hx.
    destruct (_ && _) in Hx; [|done]. simpl in Hx. unfold insertOperatorCreditTx in Hx.
    destruct (_ && _) in Hx; [|done]. by simplify_eq.
  - unfold quarantinedAttemptTx, insertRequestCreditTx in Hx.
    destruct (_ && _) in Hx; [|done]. simpl in Hx. by simplify_eq.
  - exact (RunSettlement_keeps _ _ _ _ _ _ _ Hok Hws Hwe Hx Hp Hpr).
  - exact (ClaimPayoutReady_keeps _ _ _ _ _ _ _ _ _ _ Hok Hx Hp Hpr).
  - apply sync_frame in Hx as [->|(id & f & g & Hc)]; [done|].
    by destruct (cr_frame _ _ _ _ _ Hc) as (-> & _).
  - by rewrite E.
Qed.

Definition claims_payout (id : Z) (e : LedgerEvent) : bool :=
  match e with
  | EvClaim id' _ _ _ _ _ claimed => (id' =? id) && claimed
  | _ => false
  end.

Lemma step_claims l e l' id :
  ledger_ok l -> ledger_step group_order l e l' -> claims_payout id e = true ->
  ~ is_consumed id l /\ is_consumed id l'.
Proof.
  intros Hok Hs He.
  destruct Hs as [| | |l id' g ext cur now vn b l' Hx| |]; try done.
  unfold claims_payout in He. bool_hyps. subst b.
  match goal with E : (id' =? id) = true |- _ => apply Z.eqb_eq in E as -> end.
  destruct (ClaimPayoutReady_claimed _ _ _ _ _ _ _ _ Hok Hx)
    as (p & Hp & Hid & Hr & Hg & _ & _ & Hlpr & _).
  split.
  - intros (q & Hq & Hqid & Hqs).
    assert (q = p) as ->; [|congruence].
    apply (NoDup_map_inj lpr_id (lpr l)); [apply Hok|done..|congruence].
  - exists (lpr_with_status consumed (nullString ext) (nullString cur) p).
    split_and!; [|done|done]. rewrite Hlpr. apply elem_of_update_where. exists p.
    split; [done|]. unfold ready_id, has_id.
    rewrite bool_decide_eq_true_2 by done. subst. by rewrite !Z.eqb_refl.
Qed.

(** After [n] successful claims of [id]: none, or one and the payout is consumed. *)
Lemma exec_claims evs l id :
  ledger_exec group_order empty_ledger evs l ->
  (List.filter (claims_payout id) evs = [])
  \/ (length (List.filter (claims_payout id) evs) = 1%nat /\ is_consumed id l).
Proof.
  induction 1 as [|evs l1 e l2 Hex IH Hst]; [by left|].
  pose proof (ledger_exec_ok group_order group_order_perm _ _ Hex) as Hok.
  rewrite List.filter_app. simpl.
  destruct (claims_payout id e) eqn:Ec.
  - destruct (step_claims _ _ _ _ Hok Hst Ec) as [Hn Hc]. right.
    destruct IH as [->|[_ IH]]; [done|contradiction].
  - rewrite app_nil_r. destruct IH as [->|[Hl (p & Hp & Hid & Hps)]]; [by left|right].
    split; [done|]. exists p. split; [|done].
    eapply ledger_step_keeps; [exact Hok|exact Hst|done|congruence].
Qed.
End ExecutionFacts.

(** A run settles soundly the credit at every position. *)
Lemma run_settles_soundly group_order cfg ws we now l l' i r r' :
  (forall ps, group_order ps ≡ₚ remove_dups ps) ->
  ledger_ok l -> time_text ws -> time_text we ->
  RunSettlement group_order cfg ws we now l = Some l' ->
  lrc l !! i = Some r -> lrc l' !! i = Some r' ->
  credit_settled_soundly l we now r r'.
Proof.
  intros Hperm Hok Hws Hwe Hrun Hr Hr'.
  destruct (RunSettlement_ok group_order Hperm _ _ _ _ _ _ Hok Hws Hwe Hrun) as [_ Hrows].
  pose proof (ok_credit_ids _ (quarantine_pass_ok we now l Hok)) as Hnd.
  assert (lrc (quarantine_pass we now l) !! i = Some (quarantined_version we now l r)) as Hq.
  { rewrite quarantine_pass_lrc. change (map ?f ?l) with (f <$> l).
    by rewrite list_lookup_fmap, Hr. }
  apply (row_settles_sound ws); [done|by eapply list_elem_of_lookup_2|].
  exact (Forall2_lookup_lr _ _ _ _ _ _ Hrows Hq Hr').
Qed.

(** ** Theorems *)

(** A small execution for the witnesses: two credited attempts of two providers, a
    settlement run, a claim. *)
#[local] Existing Instance ResyncSample.columns.

Module Sample.
Definition input (req provider ts : string) (completion : Z) : HotPathInput :=
  mkHotPathInput req 0 "assigned-1" provider "qwen3-8b" 200 true ts (Some 1000) None
    (Some 1000) None (Some completion) None "" "none" "" "" 1 sample_rate 1000000 8500
    "" "legacy" "".
Definition cfg : SettlementConfig := mkSettlementConfig 7 100 24 7 60 900 "observe" true.
Definition ws : string := "2026-07-13T00:00:00.000000000Z".
Definition we : string := "2026-07-20T00:00:00.000000000Z".
Definition now : string := "2026-07-20T00:00:01.000000000Z".
Definition i1 := input "req-1" "alice" "2026-07-14T10:00:00.000000000Z" 4000.
Definition i2 := input "req-2" "bob" "2026-07-15T10:00:00.000000000Z" 2000.
Definition credited : Ledger :=
  default empty_ledger (creditAttemptTx i1 now empty_ledger ≫= creditAttemptTx i2 now).
Definition settled : Ledger :=
  default empty_ledger (RunSettlement remove_dups cfg ws we now credited).
Definition claimed : Ledger :=
  default empty_ledger
    (snd <$> ClaimPayoutReady 1 6500 "ext-1" "USDC" now now settled).
Definition events : list LedgerEvent :=
  [EvCredit i1 now; EvCredit i2 now; EvSettle cfg ws we now;
   EvClaim 1 6500 "ext-1" "USDC" now now true].
Lemma credited_exec :
  ledger_exec remove_dups empty_ledger [EvCredit i1 now; EvCredit i2 now] credited.
Proof.
  apply (exec_snoc _ _ [EvCredit i1 now]
           (default empty_ledger (creditAttemptTx i1 now empty_ledger)));
    [|constructor; vm_compute; reflexivity].
  apply (exec_snoc _ _ [] empty_ledger); [|constructor; vm_compute; reflexivity].
  constructor.
Defined.

Lemma settled_exec :
  ledger_exec remove_dups empty_ledger
    [EvCredit i1 now; EvCredit i2 now; EvSettle cfg ws we now] settled.
Proof.
  apply (exec_snoc _ _ [EvCredit i1 now; EvCredit i2 now] credited); [apply credited_exec|].
  constructor; vm_compute; reflexivity.
Defined.
End Sample.

(** C6. In every ledger reachable from the empty one by credits, resyncs, settlement runs
    and claims in any order, each payout that is not voided carries exactly the count and
    the gross, provider and operator sums of the credits settled into it, and every
    settled credit is linked to a payout id and, when that payout is in the table, to
    one of its own provider. So no credit is paid twice and none is paid to another
    provider. *)
Theorem payout_totals_sound {JC : JsonColumns} group_order evs l :
  (forall ps, group_order ps ≡ₚ remove_dups ps) ->
  ledger_exec group_order empty_ledger evs l ->
  (forall p, p ∈ lpr l -> lpr_status p <> voided -> totals_match (lrc l) p)
  /\ (forall r, r ∈ lrc l -> lrc_settled r = true -> is_Some (lrc_settlement_id r))
  /\ (forall r p, r ∈ lrc l -> p ∈ lpr l -> linked (lpr_id p) r = true ->
        lrc_provider_id r = lpr_provider_id p).
Proof.
  intros Hperm Hex. pose proof (ledger_exec_ok group_order Hperm _ _ Hex) as Hok.
  split_and!; [apply Hok| |apply Hok].
  intros r Hr Hs. destruct (ok_links _ Hok r Hr Hs) as (i & -> & _). done.
Qed.

Lemma payout_totals_sound_witness :
  map lpr_gross_credits (lpr Sample.settled) = [6500; 3500]
  /\ (forall p, p ∈ lpr Sample.settled -> lpr_status p <> voided ->
        totals_match (lrc Sample.settled) p).
Proof.
  split; [vm_compute; reflexivity|].
  apply (payout_totals_sound remove_dups
           [EvCredit Sample.i1 Sample.now; EvCredit Sample.i2 Sample.now;
            EvSettle Sample.cfg Sample.ws Sample.we Sample.now]).
  - reflexivity.
  - apply Sample.settled_exec.
Defined.

(** C7. A settlement run never changes a settled credit in any column, never changes
    the amounts of any credit, and settles a credit only when it was unlinked, older
    than the window end, allowed by its settlement policy (an enforced credit needs a
    closed verified receipt for a non-overlapping output), and either not quarantined
    with exactly one operator row that completes its gross, or released by a matured
    force credit. *)
Theorem settlement_settles_only_eligible group_order cfg ws we now l l' i r r' :
  (forall ps, group_order ps ≡ₚ remove_dups ps) ->
  ledger_ok l -> time_text ws -> time_text we ->
  RunSettlement group_order cfg ws we now l = Some l' ->
  lrc l !! i = Some r -> lrc l' !! i = Some r' ->
  credit_settled_soundly l we now r r'.
Proof. apply run_settles_soundly. Qed.

Lemma settlement_settles_only_eligible_witness :
  exists r r', lrc Sample.credited !! 0%nat = Some r /\ lrc Sample.settled !! 0%nat = Some r'
    /\ lrc_settled r = false /\ lrc_settled r' = true
    /\ credit_settled_soundly Sample.credited Sample.we Sample.now r r'.
Proof.
  eexists _, _. split; [vm_compute; reflexivity|]. split; [vm_compute; reflexivity|].
  split; [reflexivity|]. split; [reflexivity|].
  apply (settlement_settles_only_eligible remove_dups Sample.cfg Sample.ws Sample.we
           Sample.now Sample.credited Sample.settled 0).
  - reflexivity.
  - apply (ledger_exec_ok remove_dups (fun _ => reflexivity _) _ _ Sample.credited_exec).
  - vm_compute; reflexivity.
  - vm_compute; reflexivity.
  - vm_compute; reflexivity.
  - vm_compute; reflexivity.
  - vm_compute; reflexivity.
Defined.

(** C8. In a well-formed ledger a settlement run with a positive cadence and a
    non-negative minimum always commits when the group sums fit in 64 bits: no CHECK
    or UNIQUE constraint of the payout table and no immutability trigger of the credit
    table can abort it. *)
Theorem settlement_run_completes group_order cfg ws we now l :
  (forall ps, group_order ps ≡ₚ remove_dups ps) ->
  ledger_ok l -> time_text ws -> time_text we ->
  0 < CadenceDays cfg -> 0 <= MinPayoutCredits cfg ->
  sumZ lrc_gross_credits (lrc l) <= Int64.max ->
  exists l', RunSettlement group_order cfg ws we now l = Some l' /\ ledger_ok l'.
Proof.
  intros Hperm Hok Hws Hwe Hc Hm Hsum.
  pose proof (quarantine_pass_ok we now l Hok) as Hok1.
  assert (is_Some (RunSettlement group_order cfg ws we now l)) as [l' H].
  { unfold RunSettlement. rewrite (group_sums_fit group_order Hperm) by done.
    apply settle_groups_total; [done..|by apply groups_providers_NoDup|].
    intros g Hg. apply groups_elem in Hg as (p & -> & Hne & _); [|done].
    split; [apply group_of_positive; [apply Hok1|done]|apply group_of_pending, Hok1]. }
  exists l'. split; [done|]. exact (proj1 (RunSettlement_ok _ Hperm _ _ _ _ _ _ Hok Hws Hwe H)).
Qed.

Lemma settlement_run_completes_witness :
  exists l', RunSettlement remove_dups Sample.cfg Sample.ws Sample.we Sample.now
               Sample.credited = Some l' /\ ledger_ok l'.
Proof.
  apply settlement_run_completes.
  - reflexivity.
  - apply (ledger_exec_ok remove_dups (fun _ => reflexivity _) _ _ Sample.credited_exec).
  - vm_compute; reflexivity.
  - vm_compute; reflexivity.
  - vm_compute; reflexivity.
  - vm_compute; congruence.
  - vm_compute; congruence.
Defined.

(** What a claim needs: a ready payout of this id whose gross is the expected amount;
    credits that name it, every one of them settled, of its provider, inside its window
    and payable now; and amounts, of the payout row, that are the count and the three
    sums over these credits, in 64 bits. *)
Definition claimable (l : Ledger) (view_now : string) (id g : Z) (p : PayoutRow) : Prop :=
  p ∈ lpr l /\ lpr_id p = id /\ lpr_status p = ready /\ lpr_gross_credits p = g
  /\ (forall r, r ∈ lrc l -> lrc_settlement_id r = Some id -> payable_source l view_now p r = true)
  /\ 0 < lpr_source_credit_count p
  /\ totals_match (lrc l) p
  /\ Int64.in_range (lpr_gross_credits p) /\ Int64.in_range (lpr_provider_credits p)
  /\ Int64.in_range (lpr_operator_credits p).

(** The ledger after a claim: the payout is consumed, the audit row is written. *)
Definition claimed_ledger (id : Z) (ext cur now : string) (p : PayoutRow) (l : Ledger) : Ledger :=
  recordClaimAudit p now "complete" false
    (with_lpr (update_where (has_id id)
       (lpr_with_status consumed (nullString ext) (nullString cur)) (lpr l)) (next_lpr l) l).

Lemma find_by_id l p : NoDup (map lpr_id (lpr l)) -> p ∈ lpr l ->
  List.find (has_id (lpr_id p)) (lpr l) = Some p.
Proof.
  intros Hnd Hp. destruct (List.find _ _) as [q|] eqn:E.
  - apply find_Some_elem in E as [Hq Hid]. apply Z.eqb_eq in Hid. f_equal.
    by apply (NoDup_map_inj lpr_id (lpr l)).
  - apply list_elem_of_In in Hp. pose proof (find_none _ _ E _ Hp) as Hn.
    unfold has_id in Hn. by rewrite Z.eqb_refl in Hn.
Qed.

(** The rows a claim consumes are those with its id. *)
Lemma consumed_rows l p q :
  NoDup (map lpr_id (lpr l)) -> p ∈ lpr l -> lpr_status p = ready -> q ∈ lpr l ->
  ready_id (lpr_id p) q && (lpr_gross_credits q =? lpr_gross_credits p) = has_id (lpr_id p) q.
Proof.
  intros Hnd Hp Hr Hq. unfold ready_id. destruct (has_id (lpr_id p) q) eqn:E; [|done].
  apply Z.eqb_eq in E. assert (q = p) as -> by (by apply (NoDup_map_inj lpr_id (lpr l))).
  rewrite bool_decide_eq_true_2 by done. by rewrite Z.eqb_refl.
Qed.

Lemma update_where_ext {A} (p q : A -> bool) f (l : list A) :
  (forall x, x ∈ l -> p x = q x) -> update_where p f l = update_where q f l.
Proof. intros H. apply map_ext_in. intros x Hx. rewrite H; [done|by apply list_elem_of_In]. Qed.

(** The guarded update consumes the payout exactly when it is ready with this gross. *)
Lemma consume_payout_claims ext cur now g p l l' :
  NoDup (map lpr_id (lpr l)) -> p ∈ lpr l ->
  consume_payout (lpr_id p) g ext cur now p l = Some (true, l') <->
  lpr_status p = ready /\ lpr_gross_credits p = g /\ l' = claimed_ledger (lpr_id p) ext cur now p l.
Proof.
  intros Hnd Hp. unfold consume_payout. split.
  - destruct (update_status _ _ _) eqn:E; [|done]. apply update_status_Some in E as ->. simpl.
    intros [= Hc Hl]. rewrite Hc in Hl. apply existsb_elem in Hc as (q & Hq & Hh).
    unfold ready_id, has_id in Hh. bool_hyps.
    assert (q = p) as -> by (apply (NoDup_map_inj lpr_id (lpr l)); [done..|lia]).
    assert (lpr_gross_credits p = g) as <- by lia. split_and!; [done|done|].
    rewrite <- Hl. unfold claimed_ledger. do 2 f_equal. apply update_where_ext. intros q' Hq'. by apply (consumed_rows l).
  - intros (Hr & <- & ->). unfold update_status.
    assert (forallb (fun r => negb (ready_id (lpr_id p) r && (lpr_gross_credits r =? lpr_gross_credits p))
      || bool_decide (lpr_status r = ready) || bool_decide (lpr_status
         (lpr_with_status consumed (nullString ext) (nullString cur) r) = lpr_status r)) (lpr l) = true) as ->.
    { apply forallb_forall. intros q _. unfold ready_id. case_bool_decide; [|by rewrite andb_false_r]. by rewrite orb_true_r. }
    simpl. assert (existsb (fun q => ready_id (lpr_id p) q && (lpr_gross_credits q =? lpr_gross_credits p)) (lpr l) = true) as ->.
    { apply existsb_exists. exists p. split; [by apply list_elem_of_In|]. unfold ready_id, has_id.
      rewrite bool_decide_eq_true_2 by done. by rewrite !Z.eqb_refl. }
    unfold claimed_ledger. do 3 f_equal. f_equal. apply update_where_ext. intros q Hq. by apply (consumed_rows l).
Qed.

(** The counts agree when every credit that names the payout is payable. *)
Lemma all_payable_length l vn p :
  (forall r, r ∈ lrc l -> lrc_settlement_id r = Some (lpr_id p) -> payable_source l vn p r = true) ->
  length (List.filter (fun r => bool_decide (lrc_settlement_id r = Some (lpr_id p))) (lrc l))
    = length (List.filter (payable_source l vn p) (lrc l)).
Proof.
  intros H. f_equal. apply filter_ext_in. intros r Hr%list_elem_of_In. case_bool_decide as E.
  - symmetry. by apply H.
  - unfold payable_source. by rewrite bool_decide_eq_false_2.
Qed.


(** The audit of a payout whose stored gross is inflated: the sources are intact, so that
    only the comparison of the totals keeps the claim from paying it. *)
Example inflated_payout_is_not_claimed :
  let l := with_lpr (update_where (has_id 1) (fun p => lpr_with_totals (lpr_source_credit_count p) 9000
             (lpr_provider_credits p) (lpr_operator_credits p) p) (lpr Sample.settled)) 2 Sample.settled in
  fst <$> ClaimPayoutReady 1 9000 "ext-1" "USDC" Sample.now Sample.now l = Some false.
Proof. vm_compute. reflexivity. Qed.


(** C10. In every execution, whatever credits, resyncs, settlement runs and claims
    interleave,
    at most one claim of a given payout returns true. *)
Theorem payout_claimed_at_most_once {JC : JsonColumns} group_order evs l id :
  (forall ps, group_order ps ≡ₚ remove_dups ps) ->
  ledger_exec group_order empty_ledger evs l ->
  (length (List.filter (claims_payout id) evs) <= 1)%nat.
Proof.
  intros Hperm Hex. destruct (exec_claims group_order Hperm evs l id Hex) as [->|[-> _]];
    simpl; lia.
Qed.

Lemma payout_claimed_at_most_once_witness :
  (length (List.filter (claims_payout 1) Sample.events) <= 1)%nat.
Proof.
  apply (payout_claimed_at_most_once remove_dups Sample.events Sample.claimed 1).
  - reflexivity.
  - apply (exec_snoc _ _ [EvCredit Sample.i1 Sample.now; EvCredit Sample.i2 Sample.now;
             EvSettle Sample.cfg Sample.ws Sample.we Sample.now] Sample.settled).
    + apply Sample.settled_exec.
    + constructor. vm_compute; reflexivity.
Defined.
