(* ===== verification/Split.v ===== *)
(** * The provider/operator split of every credit

    Each credit of [ledger_request_credits] is split between the provider, in the
    row itself, and the operator, in a row of [ledger_operator_credits]. The
    second statement of [RunSettlement] quarantines credits whose split does not
    add up ([operator_split_mismatch]). Shown here: no interleaving of hot-path
    writes, resyncs, settlement runs and payout claims ever produces such a
    credit, so that statement never fires. *)

From S2P Require Import Prelude Formula Ledger Resync Settlement.

(** The credit has one operator row and the two parts add up to the gross. *)
Definition split_exact (l : Ledger) (r : CreditRow) : Prop :=
  exists o, operator_rows l r = [o]
    /\ loc_operator_credits o + lrc_provider_credits r = lrc_gross_credits r.

Record split_ok (l : Ledger) : Prop := mkSplitOk {
  so_fresh : forall o, o ∈ loc l -> loc_request_credit_id o < next_lrc l;
  so_split : forall r, r ∈ lrc l -> lrc_quarantined r = false -> split_exact l r;
}.

(** A ledger with the same operator rows keeps exact splits, as long as its
    unquarantined credits are old ones with old amounts. *)
Lemma split_ok_rows l l' :
  loc l' = loc l -> next_lrc l <= next_lrc l' ->
  (forall r', r' ∈ lrc l' -> lrc_quarantined r' = false ->
   exists r, r ∈ lrc l /\ lrc_quarantined r = false /\ lrc_id r' = lrc_id r
     /\ lrc_gross_credits r' = lrc_gross_credits r
     /\ lrc_provider_credits r' = lrc_provider_credits r) ->
  split_ok l -> split_ok l'.
Proof.
  intros Eloc Hn Hrows [Hf Hs]. split.
  - rewrite Eloc. intros o Ho. specialize (Hf o Ho). lia.
  - intros r' Hr' Hq. destruct (Hrows r' Hr' Hq) as (r & Hr & Hrq & Eid & Eg & Ep).
    destruct (Hs r Hr Hrq) as (o & Ho & Hsum). exists o. unfold operator_rows.
    by rewrite Eloc, Eid, Eg, Ep.
Qed.

Lemma operator_rows_app l l' r o :
  loc l' = loc l ++ [o] ->
  operator_rows l' r
  = operator_rows l r ++ (if loc_request_credit_id o =? lrc_id r then [o] else []).
Proof. intros E. unfold operator_rows. rewrite E, List.filter_app. simpl. by case_match. Qed.

Lemma operator_rows_fresh l r :
  split_ok l -> lrc_id r = next_lrc l -> operator_rows l r = [].
Proof.
  intros [Hf _] Hid. unfold operator_rows. induction (loc l) as [|o rows IH]; [done|]. simpl.
  destruct (_ =? _) eqn:E; [|apply IH; set_solver].
  specialize (Hf o ltac:(set_solver)). lia.
Qed.

Lemma credit_split_ok i now l l' :
  creditAttemptTx i now l = Some l' -> ledger_ok l -> split_ok l -> split_ok l'.
Proof.
  unfold creditAttemptTx. set (result := ComputeCreditsWithCache _ _ _ _ _ _ _ _ _).
  unfold insertRequestCreditTx. set (row := hot_path_row _ _ _ _ _ _ _).
  destruct (_ && _) eqn:Ec; [|done]. cbn [mbind option_bind].
  unfold insertOperatorCreditTx. destruct (_ && _) in |- *; [|done]. intros [= <-] Hok Hs.
  assert (lrc_provider_share_bps row <= 10000) as Hshare.
  { unfold credit_row_checks in Ec. bool_hyps. lia. }
  assert (ProviderShareBps result = hp_ProviderShareBps i) as Hps
    by apply ComputeCreditsWithCache_share.
  assert (GrossCredits result = ProviderCredits result + OperatorCredits result) as Hg.
  { apply ComputeCreditsWithCache_split. simpl in Hshare. lia. }
  split.
  - simpl. intros o [Ho| ->%list_elem_of_singleton]%elem_of_app; [|simpl; lia].
    pose proof (so_fresh _ Hs o Ho). lia.
  - intros r [Hr| ->%list_elem_of_singleton]%elem_of_app Hq.
    + destruct (so_split _ Hs r Hr Hq) as (o & Ho & Hsum). exists o. split; [|done].
      erewrite (operator_rows_app l) by reflexivity. rewrite Ho. simpl.
      pose proof (ok_credit_fresh _ Hok r Hr). by rewrite (proj2 (Z.eqb_neq _ _)) by lia.
    + eexists. split.
      * erewrite (operator_rows_app l) by reflexivity.
        rewrite operator_rows_fresh by done. simpl. by rewrite Z.eqb_refl.
      * simpl. lia.
Qed.

Lemma quarantined_split_ok i now why l l' :
  quarantinedAttemptTx i now why l = Some l' -> split_ok l -> split_ok l'.
Proof.
  unfold quarantinedAttemptTx, insertRequestCreditTx. destruct (_ && _); [|done].
  simpl. intros [= <-]. apply split_ok_rows; [done|simpl; lia|].
  intros r' [Hr| ->%list_elem_of_singleton]%elem_of_app Hq; [by exists r'|done].
Qed.

(** A resync rewrites both sides of the split together. *)
Lemma operator_rows_rewrite id f g l l' r :
  credit_rewrite id f g l l' ->
  operator_rows l' r
  = update_where (fun o => loc_request_credit_id o =? id) g (operator_rows l r).
Proof.
  intros Hc. unfold operator_rows. rewrite (cr_loc _ _ _ _ _ Hc). unfold update_where.
  induction (loc l) as [|o rows IH]; [done|]. simpl.
  assert (loc_request_credit_id (if loc_request_credit_id o =? id then g o else o)
          = loc_request_credit_id o) as -> by (case_match; [apply Hc|done]).
  destruct (_ =? lrc_id r); simpl; by rewrite IH.
Qed.

Lemma operator_rows_id l r o : o ∈ operator_rows l r -> loc_request_credit_id o = lrc_id r.
Proof. unfold operator_rows. intros [_ H]%list_elem_of_In%filter_In. lia. Qed.

Lemma rewrite_split_ok id f g l l' :
  credit_rewrite id f g l l' -> ledger_ok l -> split_ok l -> split_ok l'.
Proof.
  intros Hc Hlok [Hf Hs]. destruct (cr_frame _ _ _ _ _ Hc) as (_ & _ & Hn & _). split.
  - rewrite (cr_loc _ _ _ _ _ Hc), Hn. intros x (o & Ho & ->)%elem_of_update_where.
    specialize (Hf o Ho). case_match; [by rewrite (cr_operator_keys _ _ _ _ _ Hc)|done].
  - rewrite (cr_lrc _ _ _ _ _ Hc). intros r' (r & Hr & ->)%elem_of_update_where Hq.
    destruct (cr_open _ _ _ _ _ Hc) as (c & Hcin & Hcid & _ & Hcq).
    assert (lrc_quarantined r = false) as Hrq.
    { destruct (lrc_id r =? id) eqn:E; [|done]. assert (r = c) as ->; [|done].
      apply (NoDup_map_inj lrc_id (lrc l)); [apply Hlok|done..|lia]. }
    destruct (Hs r Hr Hrq) as (o & Ho & Hsum).
    assert (loc_request_credit_id o = lrc_id r) as Hoid.
    { apply (operator_rows_id l). rewrite Ho. left. }
    exists (if lrc_id r =? id then g o else o).
    rewrite (operator_rows_rewrite _ _ _ _ _ _ Hc). destruct (lrc_id r =? id) eqn:E.
    + destruct (cr_keys _ _ _ _ _ Hc r) as (Hid & _).
      assert (operator_rows l (f r) = operator_rows l r) as -> by (unfold operator_rows; by rewrite Hid).
      rewrite Ho. simpl. rewrite Hoid, E. split; [done|].
      destruct (cr_split _ _ _ _ _ Hc r o Hr) as [Hx|Hx]; [lia|congruence|done].
    + rewrite Ho. simpl. rewrite Hoid, E. done.
Qed.

(** ** Settlement runs and claims leave the operator rows alone *)

Lemma settle_group_loc cfg ws we now elig g l l' :
  settle_group cfg ws we now elig g l = Some l' -> loc l' = loc l /\ next_lrc l' = next_lrc l.
Proof.
  unfold settle_group. destruct (upsert_payout _ _ _ _ _ _) as [[l1 n]|] eqn:Eu; [|done].
  assert (loc l1 = loc l /\ next_lrc l1 = next_lrc l) as [E1 E2].
  { unfold upsert_payout in Eu. repeat case_match; by simplify_eq. }
  cbn [mbind option_bind]. destruct (List.find _ _); [|done]. cbn [mbind option_bind].
  destruct (negb _); [by intros [= <-]|]. destruct (n =? 0); [by intros [= <-]|].
  destruct (update_links _ _ _); [|done]. by intros [= <-].
Qed.

Lemma settle_groups_loc cfg ws we now elig gs l l' :
  settle_groups cfg ws we now elig gs l = Some l' -> loc l' = loc l /\ next_lrc l' = next_lrc l.
Proof.
  revert l. induction gs as [|g gs IH]; intros l; [by intros [= <-]|]. simpl.
  destruct (settle_group _ _ _ _ _ _ _) as [l1|] eqn:E; [|done]. simpl.
  apply settle_group_loc in E as [<- <-]. apply IH.
Qed.

Section Runs.
Context (group_order : list string -> list string)
  (group_order_perm : forall ps, group_order ps ≡ₚ remove_dups ps).

Lemma run_split_ok cfg ws we now l l' :
  ledger_ok l -> time_text ws -> time_text we ->
  RunSettlement group_order cfg ws we now l = Some l' -> split_ok l -> split_ok l'.
Proof.
  intros Hok Hws Hwe Hrun.
  pose proof (proj2 (RunSettlement_ok group_order group_order_perm _ _ _ _ _ _ Hok Hws Hwe Hrun)) as Hrows.
  unfold RunSettlement in Hrun. destruct (forallb _ _); [|done].
  apply settle_groups_loc in Hrun as [Eloc Enext].
  apply split_ok_rows; [done|rewrite Enext; simpl; lia|].
  rewrite quarantine_pass_lrc in Hrows. intros r' Hr' Hq.
  apply list_elem_of_lookup in Hr' as [k Hk].
  destruct (Forall2_lookup_r _ _ _ _ _ Hrows Hk) as (r1 & Hr1 & Hst).
  change (map ?f ?x) with (f <$> x) in Hr1. rewrite list_lookup_fmap in Hr1.
  destruct (lrc l !! k) as [r|] eqn:Er; [|done]. injection Hr1 as <-.
  exists r. split; [by eapply list_elem_of_lookup_2|].
  destruct (quarantined_version_keeps we now l r) as (_ & _ & _ & H4 & H5 & H6 & _).
  assert (lrc_quarantined (quarantined_version we now l r) = false) as Hv.
  { destruct Hst as [->|(_ & _ & sid & ->)]; done. }
  split; [|destruct Hst as [->|(_ & _ & sid & ->)]; simpl; by rewrite H4, H5, H6].
  unfold quarantined_version in Hv. by repeat case_match.
Qed.

Lemma claim_split_ok id g ext cur now vn l b l' :
  ClaimPayoutReady id g ext cur now vn l = Some (b, l') -> split_ok l -> split_ok l'.
Proof.
  intros H.
  assert (loc l' = loc l /\ next_lrc l' = next_lrc l /\
    (lrc l' = lrc l \/ exists p, lrc l' = update_where p (release_row now) (lrc l))) as (E1 & E2 & E3).
  { assert (forall p0, consume_payout id g ext cur now p0 l = Some (b, l') ->
      loc l' = loc l /\ next_lrc l' = next_lrc l /\ lrc l' = lrc l) as Hc.
    { intros p0. unfold consume_payout. destruct (update_status _ _ _); [|done].
      by intros [= <- <-]. }
    unfold ClaimPayoutReady in H. destruct (List.find _ _); [|simplify_eq; auto].
    case_bool_decide; [|destruct (Hc _ H) as (? & ? & ?); auto]. cbv zeta in H.
    destruct (negb (_ && _ && _)); [done|]. destruct (negb (_ && (_ =? _))).
    { destruct (update_links _ _ _) eqn:El; [|done]. apply update_links_Some in El as ->.
      simpl in H. destruct (update_status _ _ _); [|done]. simpl in H. simplify_eq.
      split; [done|]. split; [done|]. right. eexists. reflexivity. }
    destruct (negb (_ && _ && _ && _)); [|destruct (Hc _ H) as (? & ? & ?); auto].
    destruct (if _ <=? _ then _ else _); [|done]. simpl in H. simplify_eq. auto. }
  apply split_ok_rows; [done|lia|]. intros r' Hr' Hq.
  destruct E3 as [E3|[p E3]]; rewrite E3 in Hr'; [by exists r'|].
  apply elem_of_update_where in Hr' as (r & Hr & ->). exists r. by case_match.
Qed.

Lemma step_split_ok {JC : JsonColumns} l e l' :
  ledger_step group_order l e l' -> ledger_ok l -> split_ok l -> split_ok l'.
Proof.
  intros Hs Hok. destruct Hs as [l i now l' Hx|l i now why l' Hx|l cfg ws we now l' Hws Hwe Hx
    |l id g ext cur now vn b l' Hx|l req att prov now why l' Hx|l l' E1 E2 E3 E4 E5].
  - exact (credit_split_ok _ _ _ _ Hx Hok).
  - exact (quarantined_split_ok _ _ _ _ _ Hx).
  - exact (run_split_ok _ _ _ _ _ _ Hok Hws Hwe Hx).
  - exact (claim_split_ok _ _ _ _ _ _ _ _ _ Hx).
  - apply sync_frame in Hx as [->|(id & f & g & Hc)]; [done|].
    exact (rewrite_split_ok _ _ _ _ _ Hc Hok).
  - apply split_ok_rows; [done|lia|]. rewrite E1. intros r' Hr' Hq. by exists r'.
Qed.

Lemma exec_split_ok {JC : JsonColumns} evs l :
  ledger_exec group_order empty_ledger evs l -> split_ok l.
Proof.
  induction 1 as [|evs l1 e l2 Hex IH Hst].
  - split; simpl; set_solver.
  - exact (step_split_ok _ _ _ Hst (ledger_exec_ok group_order group_order_perm _ _ Hex) IH).
Qed.
End Runs.

(** Claim C36. In every ledger reachable from the empty one by hot-path credits,
    resyncs, settlement runs and claims in any order, each credit that is not
    quarantined has exactly one operator row, and provider and operator credits add
    up to the gross. So the split check of a settlement run never quarantines a
    credit. *)
Theorem reachable_split_exact {JC : JsonColumns} group_order evs l :
  (forall ps, group_order ps ≡ₚ remove_dups ps) ->
  ledger_exec group_order empty_ledger evs l ->
  (forall r, r ∈ lrc l -> lrc_quarantined r = false -> split_exact l r)
  /\ forall we r, r ∈ lrc l -> split_mismatch l we r = false.
Proof.
  intros Hperm Hex. pose proof (exec_split_ok group_order Hperm evs l Hex) as [_ Hs].
  split; [done|]. intros we r Hr. unfold split_mismatch.
  destruct (lrc_quarantined r) eqn:Hq; [by rewrite !andb_false_r|].
  destruct (Hs r Hr Hq) as (o & -> & Hsum). simpl.
  assert ((loc_operator_credits o + 0 + lrc_provider_credits r =? lrc_gross_credits r) = true) as ->
    by lia.
  by rewrite andb_false_r.
Qed.

#[local] Existing Instance ResyncSample.columns.

Lemma reachable_split_exact_witness :
  map lrc_gross_credits (lrc Sample.settled) = [6500; 3500]
  /\ forall r, r ∈ lrc Sample.settled -> split_mismatch Sample.settled Sample.we r = false.
Proof.
  split; [vm_compute; reflexivity|].
  apply (reachable_split_exact remove_dups
           [EvCredit Sample.i1 Sample.now; EvCredit Sample.i2 Sample.now;
            EvSettle Sample.cfg Sample.ws Sample.we Sample.now]).
  - reflexivity.
  - apply Sample.settled_exec.
Defined.
