(* ===== verification/Verdict.v ===== *)
(** * Settlement receipt verdicts

    Models the verdict store of
    [phase4-coordinator/internal/billing/settlement_receipts.go]: one row per
    attempt, opened when a receipt arrives or is found missing, updated while it
    is pending and closed by the first terminal outcome. A call is one SQL
    transaction: an error returns [None] and leaves the store unchanged.

    The other tables of the database are reached through the class
    [BillingTables]: the recorded evidence of an attempt (route snapshot and
    output, [loadSettlementEvidenceConn]) and the resync of its credit
    ([syncVerifiedReceiptLedgerCreditForAttemptTx]), with the one law the verdicts
    rely on: a resync quarantines closed verified verdicts only. The file Billing
    implements the class on the ledger. *)

From S2P Require Import Prelude Receipt.

Record SettlementReceiptIdentity := mkId {
  id_AccountScope : string;
  id_RequestID : string;
  id_AttemptN : Z;
  id_ProviderID : string;
}.

#[global] Instance identity_eq_dec : EqDecision SettlementReceiptIdentity.
Proof. solve_decision. Defined.

(** [SettlementReceiptIdentity.validate] *)
Definition id_validate (id : SettlementReceiptIdentity) : bool :=
  (negb (String.eqb id.(id_AccountScope) "") && negb (String.eqb id.(id_RequestID) "")
   && (0 <=? id.(id_AttemptN)) && negb (String.eqb id.(id_ProviderID) ""))%bool.

Record settlementAttemptEvidence := mkAttempt {
  at_TerminalState : string;
  at_TerminalStateTSUnixMS : Z;
  at_OutputAvailable : bool;
  at_OutputPrefixStartByte : Z;
  at_OutputPrefixEndByte : Z;
  at_OutputHash : string;
  at_UsageHash : string;
  at_Usage : SettlementUsage;
  at_UsageSource : string;
  at_OverlappingOrDuplicate : bool;
}.

Record settlementEvidence := mkEvidence {
  ev_route : RouteSnapshot;
  ev_routeHash : string;
  ev_attempt : settlementAttemptEvidence;
  ev_deadlineMS : Z;
}.

(** A verdict row. The columns copied from the evidence (policy version, mode,
    hashes, catalog and model identity, ...) are kept as the evidence itself. *)
Record SettlementReceiptState := mkState {
  st_id : SettlementReceiptIdentity;
  st_ReceiptPresent : bool;
  st_ReceiptVersion : string;
  st_ReceiptResult : string;
  st_Outcome : string;
  st_Reason : string;
  st_IdempotencyStatus : string;
  st_Closed : bool;
  st_PendingDeadlineUnixMS : Z;
  st_ReceivedAtUnixMS : Z;
  st_evidence : settlementEvidence;
  st_TupleCanonicalSHA256 : string;
  st_Checks : SettlementVerificationChecks;
}.

Definition settlementOutcomeTerminal (outcome : string) : bool :=
  (String.eqb outcome SettlementOutcomeVerified
   || String.eqb outcome SettlementOutcomeQuarantined
   || String.eqb outcome SettlementOutcomeZeroSettled)%bool.

Definition settlementReceiptStateFromResult (id : SettlementReceiptIdentity)
    (e : settlementEvidence) (r : SettlementVerifyResult) (receiptPresent : bool)
    (receivedAt : Z) (updatingPending : bool) : option SettlementReceiptState :=
  let closed := settlementOutcomeTerminal (Outcome r) in
  let status :=
    if updatingPending && negb closed then "pending_updated"
    else if updatingPending && closed then "terminal_after_pending"
    else if closed then "first_terminal" else "pending" in
  let '(version, tuple_sha) :=
    match Facts r with
    | Some f => (fa_ReceiptVersion f, fa_TupleCanonicalSHA256 f)
    | None => (ReceiptVersion r, "")
    end in
  if String.eqb (ReceiptResult r) "" || String.eqb (Outcome r) "" || String.eqb (Reason r) ""
  then None
  else Some (mkState id receiptPresent version (ReceiptResult r) (Outcome r) (Reason r) status
               closed e.(ev_deadlineMS) receivedAt e tuple_sha (Checks r))%bool.

(** The CHECK constraints of [settlement_receipt_verdicts] a row can fail. *)
Definition null_or_hex64 (s : string) : bool := (String.eqb s "" || hex64Pattern s)%bool.

Definition verdict_row_checks (s : SettlementReceiptState) : bool :=
  let e := s.(st_evidence) in
  let r := e.(ev_route) in
  let a := e.(ev_attempt) in
  (existsb (String.eqb a.(at_TerminalState)) settlementTerminalStates
   && (0 <? a.(at_TerminalStateTSUnixMS)) && (0 <? s.(st_PendingDeadlineUnixMS))
   && (0 <? s.(st_ReceivedAtUnixMS)) && (0 <=? s.(st_id).(id_AttemptN))
   && hex64Pattern e.(ev_routeHash)
   && (String.eqb r.(rs_Mode) RouteSnapshotModeObserve || String.eqb r.(rs_Mode) RouteSnapshotModeEnforce)
   && hex64Pattern r.(rs_ProviderReportedModelHash)
   && receiptKeyIDPattern r.(rs_ProviderReceiptKeyID)
   && hex64Pattern r.(rs_CatalogBodyDigest) && hex64Pattern r.(rs_ExpectedCatalogModelHash)
   && hex64Pattern r.(rs_PromptHash)
   && null_or_hex64 a.(at_OutputHash) && null_or_hex64 a.(at_UsageHash)
   && null_or_hex64 s.(st_TupleCanonicalSHA256))%bool.

(** ** The store *)

Section Store.
Context `{GoLib}.

(** Rows are keyed by the hashed account scope, as the table is. *)
Definition SettlementAccountScopeHash (accountScope : string) : string :=
  sha256_hex ("settlement_receipt_account_scope_v1:" +:+ accountScope).

Definition AccountScopeForSettlement (accountID : string) : string :=
  let accountID := GoStr.TrimSpace accountID in
  if String.eqb accountID "" then "legacy_direct"
  else "acct_sha256:" +:+ sha256_hex ("spec015-account-scope-v1:" +:+ accountID).

Definition SettlementAccountScopeHashForAccountID (accountID : string) : string :=
  SettlementAccountScopeHash (AccountScopeForSettlement accountID).

Definition vkey : Type := string * string * Z * string.
Definition key_of (id : SettlementReceiptIdentity) : vkey :=
  (SettlementAccountScopeHash id.(id_AccountScope), id.(id_RequestID), id.(id_AttemptN),
   id.(id_ProviderID)).

(** Rows in the order of their ids. *)
Definition verdict_table : Type := list SettlementReceiptState.

Definition row_is (k : vkey) (s : SettlementReceiptState) : bool := bool_decide (key_of s.(st_id) = k).

Inductive AuditEvent :=
| settlement_receipt_ingested (s : SettlementReceiptState)
| settlement_receipt_verdict (s : SettlementReceiptState)
    (checks : option SettlementVerificationChecks) (attemptedReceivedAt : Z).

(** The database: the verdicts, the other tables and the audit log. *)
Record Store {L : Type} := mkStore { verdicts : verdict_table; ledger : L; audit : list AuditEvent }.
#[global] Arguments mkStore {L} _ _ _.

(** What the verdict store uses of the other tables [L]. *)
Class BillingTables (L : Type) := {
  (** [loadSettlementEvidenceConn]; [None] is an error *)
  evidence_for : L -> SettlementReceiptIdentity -> option settlementEvidence;
  (** [syncVerifiedReceiptLedgerCreditForAttemptTx] at a clock, for a request,
      attempt and provider: the tables afterwards and, when it quarantines, the
      scope hash and the reason it marks the verdict row with *)
  sync_attempt : Z -> verdict_table -> L -> string -> Z -> string ->
    option (L * option (string * string));
  sync_marks_verified : forall clock t l req att prov l' hash why,
    sync_attempt clock t l req att prov = Some (l', Some (hash, why)) ->
    why <> "" /\ exists s, s ∈ t /\ key_of s.(st_id) = (hash, req, att, prov)
      /\ s.(st_Closed) = true /\ s.(st_Outcome) = SettlementOutcomeVerified;
}.

Context {L : Type} {BT : BillingTables L}.
Implicit Types st : Store (L := L).

Definition loadSettlementReceiptState (t : verdict_table) (id : SettlementReceiptIdentity)
    : option SettlementReceiptState := List.find (row_is (key_of id)) t.

Definition insertSettlementReceiptState (t : verdict_table) (s : SettlementReceiptState)
    : option verdict_table :=
  if (negb (existsb (row_is (key_of s.(st_id))) t) && verdict_row_checks s)%bool
  then Some (t ++ [s]) else None.

(** [... WHERE key AND closed = 0] *)
Definition updateSettlementReceiptState (t : verdict_table) (s : SettlementReceiptState)
    : option verdict_table :=
  if verdict_row_checks s
  then Some (map (fun r => if (row_is (key_of s.(st_id)) r && negb r.(st_Closed))%bool then s else r) t)
  else None.

Definition quarantine_state (s : SettlementReceiptState) (reason : string) : SettlementReceiptState :=
  mkState s.(st_id) s.(st_ReceiptPresent) s.(st_ReceiptVersion) SettlementReceiptResultInvalid
    SettlementOutcomeQuarantined reason s.(st_IdempotencyStatus) true s.(st_PendingDeadlineUnixMS)
    s.(st_ReceivedAtUnixMS) s.(st_evidence) s.(st_TupleCanonicalSHA256) s.(st_Checks).

Definition markSettlementReceiptCacheQuarantined (t : verdict_table) (k : vkey)
    (reason : string) : verdict_table :=
  map (fun r => if row_is k r then quarantine_state r reason else r) t.

(** The verdict rows after a resync. *)
Definition mark_synced (t : verdict_table) (req : string) (att : Z) (prov : string)
    (mark : option (string * string)) : verdict_table :=
  match mark with
  | Some (hash, reason) => markSettlementReceiptCacheQuarantined t (hash, req, att, prov) reason
  | None => t
  end.

Definition with_status (s : SettlementReceiptState) (status : string) : SettlementReceiptState :=
  mkState s.(st_id) s.(st_ReceiptPresent) s.(st_ReceiptVersion) s.(st_ReceiptResult) s.(st_Outcome)
    s.(st_Reason) status s.(st_Closed) s.(st_PendingDeadlineUnixMS) s.(st_ReceivedAtUnixMS)
    s.(st_evidence) s.(st_TupleCanonicalSHA256) s.(st_Checks).

Definition closed_row (existing : option SettlementReceiptState) : option SettlementReceiptState :=
  s ← existing; if s.(st_Closed) then Some s else None.

Definition applySettlementReceiptVerdict st (id : SettlementReceiptIdentity)
    (receiptPresent : bool) (receivedAt clock : Z)
    (verify : settlementEvidence -> bool -> SettlementVerifyResult)
    : option (Store (L := L) * SettlementReceiptState) :=
  let existing := loadSettlementReceiptState st.(verdicts) id in
  match closed_row existing with
  | Some s =>
      let s := with_status s "terminal_noop" in
      Some (mkStore st.(verdicts) st.(ledger)
              (st.(audit) ++ [settlement_receipt_verdict s None receivedAt]), s)
  | None =>
      evidence ← evidence_for st.(ledger) id;
      let found := match existing with Some _ => true | None => false end in
      let result := verify evidence false in
      state ← settlementReceiptStateFromResult id evidence result receiptPresent receivedAt found;
      table ← (if found then updateSettlementReceiptState st.(verdicts) state
               else insertSettlementReceiptState st.(verdicts) state);
      '(ledger', mark) ← sync_attempt clock table st.(ledger) state.(st_id).(id_RequestID)
                           state.(st_id).(id_AttemptN) state.(st_id).(id_ProviderID);
      let synced := mark_synced table state.(st_id).(id_RequestID) state.(st_id).(id_AttemptN)
                      state.(st_id).(id_ProviderID) mark in
      let '(state', table') :=
        match mark with
        | Some (_, reason) =>
            (quarantine_state state reason,
             markSettlementReceiptCacheQuarantined synced (key_of state.(st_id)) reason)
        | None => (state, synced)
        end in
      let audits := (if receiptPresent then [settlement_receipt_ingested state'] else [])
                    ++ [settlement_receipt_verdict state' (Some (Checks result)) receivedAt] in
      Some (mkStore table' ledger' (st.(audit) ++ audits), state')
  end.

(** The verifier input both entry points build from the evidence. *)
Definition verify_input (id : SettlementReceiptIdentity) (header pubkey : string) (missing : bool)
    (now : Z) (e : settlementEvidence) (alreadyTerminal : bool) : SettlementVerifyInput :=
  let a := e.(ev_attempt) in
  mkInput header pubkey e.(ev_route) id.(id_AccountScope) id.(id_RequestID) id.(id_AttemptN)
    id.(id_ProviderID) e.(ev_route).(rs_ProviderReceiptKeyID) a.(at_TerminalState)
    a.(at_TerminalStateTSUnixMS) a.(at_OutputHash) a.(at_OutputPrefixStartByte)
    a.(at_OutputPrefixEndByte) a.(at_Usage) a.(at_UsageSource)
    (String.eqb a.(at_UsageSource) UsageSourceCoordinatorObserved) a.(at_OverlappingOrDuplicate)
    now now missing false (a.(at_OutputAvailable) && negb (String.eqb a.(at_OutputHash) ""))%bool
    false alreadyTerminal.

(** [clock] is the coordinator's clock, read when no time is given. *)
Definition IngestSettlementReceipt st (id : SettlementReceiptIdentity)
    (header pubkey : string) (receivedAt clock : Z)
    : option (Store (L := L) * SettlementReceiptState) :=
  if negb (id_validate id) then None
  else if (String.eqb header "" || String.eqb pubkey "")%bool then None
  else
    let receivedAt := if receivedAt =? 0 then clock else receivedAt in
    applySettlementReceiptVerdict st id true receivedAt clock
      (fun e alreadyTerminal =>
         VerifySettlementReceipt (verify_input id header pubkey false receivedAt e alreadyTerminal)).

Definition RecordMissingSettlementReceipt st (id : SettlementReceiptIdentity)
    (now clock : Z) : option (Store (L := L) * SettlementReceiptState) :=
  if negb (id_validate id) then None
  else
    let now := if now =? 0 then clock else now in
    applySettlementReceiptVerdict st id false now clock
      (fun e alreadyTerminal =>
         VerifySettlementReceipt (verify_input id "" "" true now e alreadyTerminal)).

(** ** Executions *)

(** The operations on the verdicts. [OpResync] is the resync of a hot-path write,
    on the tables [l] as that write left them. *)
Inductive VerdictOp :=
| OpIngest (id : SettlementReceiptIdentity) (header pubkey : string) (receivedAt clock : Z)
| OpMissing (id : SettlementReceiptIdentity) (now clock : Z)
| OpResync (l : L) (req : string) (att : Z) (prov : string) (clock : Z).

(** A failed call rolls back. *)
Definition verdict_step st (op : VerdictOp) : Store (L := L) :=
  match op with
  | OpIngest id h pk t c => from_option fst st (IngestSettlementReceipt st id h pk t c)
  | OpMissing id now c => from_option fst st (RecordMissingSettlementReceipt st id now c)
  | OpResync l req att prov c =>
      match sync_attempt c st.(verdicts) l req att prov with
      | Some (l', mark) => mkStore (mark_synced st.(verdicts) req att prov mark) l' st.(audit)
      | None => st
      end
  end.

Definition verdict_exec st (ops : list VerdictOp) : Store (L := L) := fold_left verdict_step ops st.
End Store.

(** ** Tables with one row per key *)

Section TableFacts.
Context `{GoLib}.

Definition keys (t : verdict_table) : list vkey := map (fun s => key_of s.(st_id)) t.

Lemma row_is_true k s : row_is k s = true <-> key_of s.(st_id) = k.
Proof. unfold row_is. apply bool_decide_eq_true. Qed.

(** [t'] is [t] with its row for the key of [s], if any, replaced by [s]. *)
Definition sets_row (t : verdict_table) (s : SettlementReceiptState) (t' : verdict_table) : Prop :=
  forall r, r ∈ t' <-> r = s \/ (r ∈ t /\ key_of r.(st_id) <> key_of s.(st_id)).

Lemma replace_row t k (f : SettlementReceiptState -> SettlementReceiptState) s0 :
  NoDup (keys t) -> s0 ∈ t -> key_of s0.(st_id) = k -> key_of (f s0).(st_id) = k ->
  let t' := map (fun r => if row_is k r then f r else r) t in
  sets_row t (f s0) t' /\ keys t' = keys t.
Proof.
  intros Hd Hin Hk Hf. cbv zeta.
  assert (forall r, r ∈ t -> row_is k r = true -> r = s0) as Hu.
  { intros r Hr Hrk%row_is_true. apply (NoDup_map_inj (fun s => key_of s.(st_id)) t); auto. congruence. }
  split.
  - intros r. rewrite elem_of_map, Hf. split.
    + intros (x & Hx & ->). destruct (row_is k x) eqn:E.
      * left. by rewrite (Hu x Hx E).
      * right. split; [done|]. intros He. apply row_is_true in He. congruence.
    + intros [->|[Hr Hne]].
      * exists s0. apply row_is_true in Hk. by rewrite Hk.
      * exists r. split; [done|]. destruct (row_is k r) eqn:E; [|done].
        apply row_is_true in E. congruence.
  - unfold keys. rewrite map_map. apply map_ext_in. intros r Hr. apply list_elem_of_In in Hr.
    destruct (row_is k r) eqn:E; [|done]. rewrite (Hu r Hr E). congruence.
Qed.

Lemma state_id id e r rp t u s :
  settlementReceiptStateFromResult id e r rp t u = Some s ->
  st_id s = id /\ st_Outcome s = Outcome r /\ st_ReceiptResult s = ReceiptResult r /\
  st_Closed s = settlementOutcomeTerminal (Outcome r) /\ st_evidence s = e /\
  st_ReceiptPresent s = rp /\ st_ReceivedAtUnixMS s = t /\ st_PendingDeadlineUnixMS s = ev_deadlineMS e.
Proof.
  unfold settlementReceiptStateFromResult. destruct (Facts r); cbv zeta;
    (destruct (_ || _ || _)%bool; [done|]); intros [= <-]; by repeat split.
Qed.

(** A quarantine mark keeps the keys and changes the row of its key only. *)
Lemma mark_keys t k why : keys (markSettlementReceiptCacheQuarantined t k why) = keys t.
Proof.
  unfold keys, markSettlementReceiptCacheQuarantined. rewrite map_map. apply map_ext.
  intros r. by destruct (row_is k r).
Qed.

Lemma mark_elem t k why r' :
  r' ∈ markSettlementReceiptCacheQuarantined t k why <->
  exists r, r ∈ t /\ r' = if row_is k r then quarantine_state r why else r.
Proof. apply elem_of_map. Qed.

Context {L : Type} {BT : BillingTables L}.
Implicit Types st : Store (L := L).

(** The table with the row of an open or new attempt written. *)
Lemma write_spec st id state table :
  NoDup (keys st.(verdicts)) -> st_id state = id ->
  closed_row (loadSettlementReceiptState st.(verdicts) id) = None ->
  (if match loadSettlementReceiptState (verdicts st) id with Some _ => true | None => false end
   then updateSettlementReceiptState (verdicts st) state
   else insertSettlementReceiptState (verdicts st) state) = Some table ->
  sets_row (verdicts st) state table /\ NoDup (keys table) /\
  forall r, r ∈ verdicts st -> key_of (st_id r) = key_of id -> st_Closed r = false.
Proof.
  intros Hd Hid Hc Ht. unfold closed_row, loadSettlementReceiptState in *.
  destruct (List.find _ (verdicts st)) as [s0|] eqn:Hf.
  - apply find_Some_elem in Hf as [Hin Hk%row_is_true]. simpl in Hc.
    destruct (st_Closed s0) eqn:Hcl; [done|].
    assert (forall r, r ∈ verdicts st -> key_of (st_id r) = key_of id -> r = s0) as Hu.
    { intros r Hr Hrk. apply (NoDup_map_inj (fun s => key_of s.(st_id)) (verdicts st)); auto. congruence. }
    unfold updateSettlementReceiptState in Ht. destruct (verdict_row_checks state); [|done].
    injection Ht as <-. rewrite Hid.
    rewrite (map_ext_in _ (fun r => if row_is (key_of id) r then state else r)).
    2:{ intros r Hr%list_elem_of_In. destruct (row_is (key_of id) r) eqn:E; [|done].
        apply row_is_true in E. by rewrite (Hu r Hr E), Hcl. }
    destruct (replace_row (verdicts st) (key_of id) (fun _ => state) s0) as [H1 H2];
      auto; [by rewrite Hid|].
    split; [done|]. split; [by rewrite H2|]. intros r Hr Hrk. by rewrite (Hu r Hr Hrk).
  - unfold insertSettlementReceiptState in Ht. rewrite Hid in Ht.
    destruct (existsb _ _) eqn:Hex; [done|]. destruct (verdict_row_checks state); [|done].
    injection Ht as <-.
    assert (forall r, r ∈ verdicts st -> key_of (st_id r) <> key_of id) as Hno.
    { intros r Hr Hrk. apply (find_None_elem _ _ r) in Hf; [|done].
      apply row_is_true in Hrk. congruence. }
    split; [|split].
    + intros r. rewrite elem_of_app, list_elem_of_singleton, Hid. naive_solver.
    + unfold keys. rewrite map_app. apply NoDup_app. split; [done|]. split; [|apply NoDup_singleton].
      intros x (r & Hr & ->)%elem_of_map Hx%list_elem_of_singleton. rewrite Hid in Hx. by apply (Hno r).
    + intros r Hr Hrk. by destruct (Hno r Hr).
Qed.

(** How a closed row may end: unchanged, or a verified one quarantined. *)
Definition falls (r r' : SettlementReceiptState) : Prop :=
  r' = r \/ st_Outcome r = SettlementOutcomeVerified /\ exists why, r' = quarantine_state r why.

Lemma falls_closed r r' : falls r r' -> st_Closed r = true -> st_Closed r' = true.
Proof. by intros [->|(_ & why & ->)]. Qed.

Lemma falls_trans r1 r2 r3 : falls r1 r2 -> falls r2 r3 -> falls r1 r3.
Proof. intros [->|(Hv & why & ->)] [->|(Hv' & why' & ->)]; unfold falls; naive_solver. Qed.

(** What a step may do to a table: keys stay unique, closed rows fall at most,
    and every row is an old one, a quarantined one, or satisfies [P]. *)
Record table_step (P : SettlementReceiptState -> Prop) (t t' : verdict_table) : Prop := mkTableStep {
  ts_keys : NoDup (keys t) -> NoDup (keys t');
  ts_closed : NoDup (keys t) -> forall r, r ∈ t -> st_Closed r = true -> exists r', r' ∈ t' /\ falls r r';
  ts_rows : NoDup (keys t) -> forall r', r' ∈ t' ->
    r' ∈ t \/ (exists r why, r' = quarantine_state r why) \/ P r';
}.

Lemma table_step_refl P t : table_step P t t.
Proof. split; [done| |by left]. intros _ r Hr _. exists r. split; [done|by left]. Qed.

(** A resync marks at most a verified row. *)
Lemma sync_table_step P clock t l req att prov l' mark :
  sync_attempt clock t l req att prov = Some (l', mark) ->
  table_step P t (mark_synced t req att prov mark).
Proof.
  intros Hs. destruct mark as [[hash why]|]; [|apply table_step_refl].
  destruct (sync_marks_verified _ _ _ _ _ _ _ _ _ Hs) as (_ & v & Hv & Hvk & _ & Hvo).
  split; unfold mark_synced.
  - by rewrite mark_keys.
  - intros Hd r Hr Hc. eexists. split; [apply mark_elem; by exists r|].
    destruct (row_is _ r) eqn:E; [|by left]. apply row_is_true in E. right.
    assert (r = v) as -> by (apply (NoDup_map_inj (fun s => key_of s.(st_id)) t); auto; congruence).
    split; [done|by exists why].
  - intros _ r' (r & Hr & ->)%mark_elem. destruct (row_is _ r); [right; left; by exists r, why|by left].
Qed.

(** A verdict call writes the row of its attempt, which was not closed. *)
Lemma apply_table_step st st' id rp t clock verify s' :
  applySettlementReceiptVerdict st id rp t clock verify = Some (st', s') ->
  table_step (fun r => exists e found, evidence_for (ledger st) id = Some e /\
      settlementReceiptStateFromResult id e (verify e false) rp t found = Some r)
    (verdicts st) (verdicts st').
Proof.
  unfold applySettlementReceiptVerdict. cbv zeta. intros Ha.
  destruct (closed_row _) as [s|] eqn:Hc; [simplify_eq; apply table_step_refl|].
  destruct (evidence_for (ledger st) id) as [e|] eqn:He; [|done]. cbn [mbind option_bind] in Ha.
  destruct (settlementReceiptStateFromResult _ _ _ _ _ _) as [state|] eqn:Hs; [|done].
  cbn [mbind option_bind] in Ha.
  destruct (if match _ with Some _ => true | None => false end then _ else _) as [table|] eqn:Ht;
    [|done]. cbn [mbind option_bind] in Ha.
  destruct (sync_attempt _ _ _ _ _ _) as [[l' mark]|] eqn:Hy; [|done]. cbn [mbind option_bind] in Ha.
  pose proof (state_id _ _ _ _ _ _ _ Hs) as (Hid & _).
  pose proof (fun Hd => write_spec st id state table Hd Hid Hc Ht) as Hw.
  set (synced := mark_synced _ _ _ _ _) in Ha.
  pose proof (sync_table_step (fun _ => False) _ _ _ _ _ _ _ _ Hy) as [Y1 Y2 Y3]. fold synced in Y1, Y2, Y3.
  assert (exists why, verdicts st' = synced \/ verdicts st'
    = markSettlementReceiptCacheQuarantined synced (key_of id) why) as [why Hv].
  { rewrite <- Hid. destruct mark as [[h why]|]; simplify_eq; simpl; [exists why; by right|exists ""; by left]. }
  clear Ha Hy. split.
  - intros Hd. destruct (Hw Hd) as (_ & Hn & _). apply Y1 in Hn.
    destruct Hv as [->| ->]; [|rewrite mark_keys]; done.
  - intros Hd r Hr Hcl. destruct (Hw Hd) as (Hset & Hn & Hopen).
    assert (key_of (st_id r) <> key_of id) as Hk.
    { intros Hk. by rewrite (Hopen r Hr Hk) in Hcl. }
    destruct (Y2 Hn r) as (r' & Hr' & Hfall); [apply Hset; right; by rewrite Hid|done|].
    exists r'. split; [|done]. destruct Hv as [->| ->]; [done|]. apply mark_elem. exists r'.
    split; [done|]. assert (row_is (key_of id) r' = false) as ->; [|done].
    unfold row_is. apply bool_decide_eq_false. by destruct Hfall as [->|(_ & w & ->)].
  - intros Hd r' Hr'. destruct (Hw Hd) as (Hset & Hn & _).
    assert (forall x, x ∈ synced -> x ∈ verdicts st \/ (exists r why, x = quarantine_state r why)
      \/ exists e0 found, Some e = Some e0 /\
        settlementReceiptStateFromResult id e0 (verify e0 false) rp t found = Some x) as Hx.
    { intros x Hx. destruct (Y3 Hn x Hx) as [[->|[Hin _]]%Hset|[Hq|[]]]; [right; right; eauto|by left|by right; left]. }
    destruct Hv as [Hv|Hv]; rewrite Hv in Hr'; [by apply Hx|].
    apply mark_elem in Hr' as (r & Hr & ->).
    destruct (row_is _ r); [right; left; by exists r, why|by apply Hx].
Qed.
End TableFacts.

(** ** Verdicts are final and sound *)

Section VerdictFacts.
Context {GL : GoLib} {L : Type} {BT : BillingTables L}.
Implicit Types st : Store (L := L).

(** A row of a reachable table: it is closed exactly when its outcome is
    terminal, and a settled one rests on a receipt that was present and genuine
    for the evidence the row carries, received by the deadline. *)
Definition row_sound (s : SettlementReceiptState) : Prop :=
  st_Closed s = settlementOutcomeTerminal (st_Outcome s) /\
  (st_Outcome s = SettlementOutcomeVerified \/ st_Outcome s = SettlementOutcomeZeroSettled ->
   st_ReceiptPresent s = true /\
   exists header pubkey t,
     genuine (verify_input (st_id s) header pubkey false (st_ReceivedAtUnixMS s) (st_evidence s) false) t /\
     st_Outcome s = settled_outcome t).

Lemma state_sound id header pubkey missing t found e s :
  settlementReceiptStateFromResult id e
    (VerifySettlementReceipt (verify_input id header pubkey missing t e false)) (negb missing) t found
  = Some s ->
  row_sound s.
Proof.
  intros Hs. apply state_id in Hs as (H1 & H2 & H3 & H4 & H5 & H6 & H7 & _).
  split; [by rewrite H4, H2|]. rewrite H2. intros Ho.
  apply settled_is_valid in Ho as [tu Hg]%verify_valid_genuine.
  assert (missing = false) as -> by (by destruct (ge_open _ _ Hg) as (_ & _ & ? & _)).
  rewrite H1, H5, H6, H7. split; [done|]. exists header, pubkey, tu.
  split; [done|]. by apply genuine_verify in Hg as (-> & _).
Qed.

Lemma quarantine_sound s reason : row_sound (quarantine_state s reason).
Proof. split; [done|]. by intros [?|?]. Qed.

(** Every operation is a table step that adds sound rows. *)
Lemma step_table st op : table_step row_sound (verdicts st) (verdicts (verdict_step st op)).
Proof.
  assert (forall id header pubkey missing t clock st' s',
    applySettlementReceiptVerdict st id (negb missing) t clock
      (fun e a => VerifySettlementReceipt (verify_input id header pubkey missing t e a)) = Some (st', s') ->
    table_step row_sound (verdicts st) (verdicts st')) as Hmain.
  { intros id header pubkey missing t clock st' s' [H1 H2 H3]%apply_table_step. split; [done|done|].
    intros Hd r' Hr'. destruct (H3 Hd r' Hr') as [|[|(e & found & _ & Hs)]]; [by left|by right; left|].
    right; right. by eapply state_sound. }
  destruct op as [id h pk t c|id now c|l req att prov c]; simpl.
  - unfold IngestSettlementReceipt. destruct (negb (id_validate id)); [apply table_step_refl|].
    destruct (String.eqb h "" || String.eqb pk "")%bool; [apply table_step_refl|]. cbv zeta.
    destruct (applySettlementReceiptVerdict _ _ _ _ _ _) as [[st' s']|] eqn:Ha; [|apply table_step_refl].
    exact (Hmain id h pk false _ _ st' s' Ha).
  - unfold RecordMissingSettlementReceipt. destruct (negb (id_validate id)); [apply table_step_refl|].
    cbv zeta.
    destruct (applySettlementReceiptVerdict _ _ _ _ _ _) as [[st' s']|] eqn:Ha; [|apply table_step_refl].
    exact (Hmain id "" "" true _ _ st' s' Ha).
  - destruct (sync_attempt _ _ _ _ _ _) as [[l' mark]|] eqn:Hy; [|apply table_step_refl].
    exact (sync_table_step _ _ _ _ _ _ _ _ _ Hy).
Qed.

Lemma exec_table st ops :
  NoDup (keys (verdicts st)) ->
  let st' := verdict_exec st ops in
  NoDup (keys (verdicts st')) /\
  (forall s, s ∈ verdicts st -> st_Closed s = true -> exists s', s' ∈ verdicts st' /\ falls s s') /\
  (Forall row_sound (verdicts st) -> Forall row_sound (verdicts st')).
Proof.
  unfold verdict_exec. revert st. induction ops as [|op ops IH]; intros st Hd; simpl.
  { split; [done|]. split; [|done]. intros s Hs _. exists s. split; [done|by left]. }
  destruct (step_table st op) as [H1 H2 H3]. destruct (IH _ (H1 Hd)) as (H4 & H5 & H6).
  split; [done|]. split.
  - intros s Hs Hc. destruct (H2 Hd s Hs Hc) as (s1 & Hs1 & F1).
    destruct (H5 s1 Hs1 (falls_closed _ _ F1 Hc)) as (s2 & Hs2 & F2).
    exists s2. split; [done|by eapply falls_trans].
  - intros Hall. apply H6, Forall_forall. intros r Hr. rewrite Forall_forall in Hall.
    destruct (H3 Hd r Hr) as [|[(r0 & why & ->)|]]; [by apply Hall|apply quarantine_sound|done].
Qed.
End VerdictFacts.

(** A closed verdict is final: in any interleaving of receipts, expiries
    and hot-path resyncs, a closed row keeps every column, except that a verified one
    can fall to quarantined, closed all the same, when a resync cannot reproduce the
    price of its cached tokens. A quarantined or zero-settled row never changes, and no
    late receipt turns a closed verdict into a payable one. *)
Theorem closed_verdict_final {GL : GoLib} {L : Type} {BT : BillingTables L}
    (st : Store (L := L)) (ops : list VerdictOp) (s : SettlementReceiptState) :
  NoDup (keys (verdicts st)) -> s ∈ verdicts st -> st_Closed s = true ->
  exists s', s' ∈ verdicts (verdict_exec st ops) /\ st_Closed s' = true /\
    (s' = s \/ st_Outcome s = SettlementOutcomeVerified /\ exists why, s' = quarantine_state s why).
Proof.
  intros Hd Hs Hc. destruct (exec_table st ops Hd) as (_ & H2 & _).
  destruct (H2 s Hs Hc) as (s' & Hs' & Hf). exists s'. split; [done|].
  split; [by eapply falls_closed|done].
Qed.

(** Claim C31. A settled verdict is earned: in every execution from an empty
    table, a row that is verified or zero-settled is closed, was written for a
    receipt that was present, and that receipt was genuine for the evidence
    recorded with the row; attempts are never counted twice, since each has one
    row. *)
Theorem settled_verdict_earned {GL : GoLib} {L : Type} {BT : BillingTables L}
    (l : L) (ops : list VerdictOp) :
  let t := verdicts (verdict_exec (mkStore [] l []) ops) in
  NoDup (keys t) /\ Forall row_sound t.
Proof.
  cbv zeta. destruct (exec_table (mkStore [] l []) ops) as (H1 & _ & H3);
    [constructor|]. split; [done|]. by apply H3.
Qed.

(** ** A verdict that closes *)

Module VerdictSample.
Definition id : SettlementReceiptIdentity := mkId "acct" "req" 0 "prov".
Definition evidence : settlementEvidence :=
  mkEvidence ReceiptSample.route ReceiptSample.hash64
    (mkAttempt "normal_done" 1001000 true 0 5 ReceiptSample.hash64 ReceiptSample.hash64
       ReceiptSample.usage UsageSourceCoordinatorObserved false) 1301000.
#[local] Existing Instance ReceiptSample.sample_lib.
Definition sync (_ : Z) (_ : verdict_table) (l : unit) (_ : string) (_ : Z) (_ : string)
  : option (unit * option (string * string)) := Some (l, None).
#[refine] Instance tables : BillingTables unit := {|
  evidence_for _ _ := Some evidence;
  sync_attempt := sync;
|}.
Proof. discriminate. Defined.
End VerdictSample.

#[local] Existing Instance ReceiptSample.sample_lib.
#[local] Existing Instance VerdictSample.tables.

Definition sample_verdicts : Store (L := unit) :=
  verdict_exec (mkStore [] tt [])
    [OpMissing VerdictSample.id 1001500 0;
     OpIngest VerdictSample.id ReceiptSample.header ReceiptSample.pubkey 1002000 0].

Lemma closed_verdict_final_witness :
  map st_Outcome (verdicts sample_verdicts) = [SettlementOutcomeVerified] /\
  forall s, s ∈ verdicts sample_verdicts ->
    exists s', s' ∈ verdicts (verdict_exec sample_verdicts [OpMissing VerdictSample.id 1400000 0])
      /\ st_Closed s' = true.
Proof.
  split; [vm_compute; reflexivity|]. intros s Hs.
  destruct (closed_verdict_final sample_verdicts [OpMissing VerdictSample.id 1400000 0] s)
    as (s' & H1 & H2 & _).
  - apply (bool_decide_eq_true_1 (NoDup (keys (verdicts sample_verdicts)))). vm_compute. reflexivity.
  - exact Hs.
  - assert (forallb st_Closed (verdicts sample_verdicts) = true) as Hc by (vm_compute; reflexivity).
    apply Forall_forallb in Hc. rewrite Forall_forall in Hc. by apply Hc.
  - by exists s'.
Defined.
