(* ===== verification/HotPath.v ===== *)
(** * The hot path

    Models [writeHotPath] of [phase4-coordinator/internal/billing/hotpath.go], the
    transaction that records a finished attempt: the request-log row with its
    attempt ordinal ([insert] of [internal/requestlog/store.go]), the credit, its
    operator row, the identity snapshot, and the resync with a receipt that
    arrived first. Shown: the transaction refines the ledger steps of Settlement,
    so their theorems hold of it; it never charges more prompt tokens than the
    independent bound; and the ordinals of a request are consecutive.

    A zero [time.Time] is the empty text. [now] and [ts_now] are the clock in the
    two formats the code writes. Log lines and the routing callback have no effect
    on the tables and are left out. *)

From S2P Require Import Prelude Receipt Verdict Formula Ledger Resync Settlement.

(** ** The request log *)

(** [requestlog.Row] without the telemetry columns nothing reads back here; the
    stored row carries its ordinal and the total. *)
Record LogRecord := mkLogRecord {
  rl_TSUtc : string;
  rl_RequestID : string;
  rl_ExternalRequestID : string;
  rl_AccountID : string;
  rl_Model : string;
  rl_ProviderAssignedID : string;
  rl_PromptTokens : option Z;
  rl_CachedPromptTokens : option Z;
  rl_CompletionTokens : option Z;
  rl_EstimatedCompTokens : option Z;
  rl_TotalTokens : option Z;
  rl_Status : Z;
  rl_Stream : bool;
  rl_ErrorCode : string;
  rl_CacheQuarantineReason : string;
  rl_Retried : Z;
  rl_AttemptN : option Z;
}.

Definition rl_with_tokens (prompt cached : option Z) (r : LogRecord) : LogRecord :=
  mkLogRecord (rl_TSUtc r) (rl_RequestID r) (rl_ExternalRequestID r) (rl_AccountID r) (rl_Model r)
    (rl_ProviderAssignedID r) prompt cached (rl_CompletionTokens r) (rl_EstimatedCompTokens r)
    (rl_TotalTokens r) (rl_Status r) (rl_Stream r) (rl_ErrorCode r) (rl_CacheQuarantineReason r)
    (rl_Retried r) (rl_AttemptN r).

Definition rl_with_account (account : string) (r : LogRecord) : LogRecord :=
  mkLogRecord (rl_TSUtc r) (rl_RequestID r) (rl_ExternalRequestID r) account (rl_Model r)
    (rl_ProviderAssignedID r) (rl_PromptTokens r) (rl_CachedPromptTokens r) (rl_CompletionTokens r)
    (rl_EstimatedCompTokens r) (rl_TotalTokens r) (rl_Status r) (rl_Stream r) (rl_ErrorCode r)
    (rl_CacheQuarantineReason r) (rl_Retried r) (rl_AttemptN r).

Definition rl_stored (total : option Z) (attemptN : Z) (r : LogRecord) : LogRecord :=
  mkLogRecord (rl_TSUtc r) (rl_RequestID r) (rl_ExternalRequestID r) (rl_AccountID r) (rl_Model r)
    (rl_ProviderAssignedID r) (rl_PromptTokens r) (rl_CachedPromptTokens r) (rl_CompletionTokens r)
    (rl_EstimatedCompTokens r) total (rl_Status r) (rl_Stream r) (rl_ErrorCode r)
    (rl_CacheQuarantineReason r) (rl_Retried r) (Some attemptN).

(** [account_id IS ? AND request_id = ?]; an empty account is stored as NULL and
    matched as NULL. *)
Definition same_request (account request : string) (r : LogRecord) : bool :=
  String.eqb (rl_AccountID r) account && String.eqb (rl_RequestID r) request.

Definition count_requests (log : list LogRecord) (account request : string) : Z :=
  Z.of_nat (length (List.filter (same_request account request) log)).

Definition total_tokens (r : LogRecord) : option Z :=
  match rl_PromptTokens r, rl_CompletionTokens r with
  | Some p, Some c =>
      if (0 <=? p) && (0 <=? c) && (p <=? Int64.sub Int64.max c) then Some (Int64.add p c) else None
  | _, _ => None
  end.

(** [insert] of requestlog/store.go. *)
Definition insert_log (r : LogRecord) (log : list LogRecord) : list LogRecord :=
  let attemptN := match rl_AttemptN r with
                  | Some n => n
                  | None => count_requests log (rl_AccountID r) (rl_RequestID r)
                  end in
  log ++ [rl_stored (total_tokens r) attemptN r].

Definition requestLogRowWithBoundedPrompt (r : LogRecord) (i : HotPathInput) : LogRecord :=
  match rl_PromptTokens r, hp_PromptTokenUpperBound i with
  | Some reported, Some bound =>
      let bound := if bound <? 0 then 0 else bound in
      if reported <=? bound then r
      else rl_with_tokens (Some bound)
             (match rl_CachedPromptTokens r with
              | Some c => if bound <? c then None else Some c
              | None => None
              end) r
  | _, _ => r
  end.

(** ** The transaction *)

Record HotDB := mkHotDB { hd_ledger : Ledger; hd_log : list LogRecord }.

(** The defaults the transaction fills in. *)
Definition hp_with_defaults (attemptN : Z) (ts fault scopeHash mode : string) (i : HotPathInput)
    : HotPathInput :=
  mkHotPathInput (hp_RequestID i) attemptN (hp_ProviderAssignedID i)
    (hp_ProviderID i) (hp_Model i) (hp_Status i) (hp_Stream i) ts (hp_PromptTokens i)
    (hp_PromptTokenUpperBound i) (hp_ProviderReportedPromptTokens i) (hp_CachedPromptTokens i)
    (hp_CompletionTokens i) (hp_EstimatedCompTokens i) (hp_ErrorCode i) fault (hp_StickyResult i)
    (hp_StickyMissReason i) (hp_ConfigSnapshotID i) (hp_RateEntry i)
    (hp_MultiplierPPM i) (hp_ProviderShareBps i) scopeHash mode (hp_SettlementPolicyVersion i).

Definition nullPositiveInt64 (v : Z) : option Z := if v <=? 0 then None else Some v.

(** [ON CONFLICT(request_id, attempt_n, provider_assigned_id) DO NOTHING]; the
    CHECK constraints still apply. *)
Definition insertProviderIdentitySnapshotTx (i : HotPathInput) (now : string) (l : Ledger)
    : option Ledger :=
  let row := mkIdentityRow (next_lpis l) (hp_RequestID i) (hp_AttemptN i) (hp_ProviderAssignedID i)
    (hp_ProviderID i) (nullPositiveInt64 (hp_ConfigSnapshotID i))
    (hp_ProviderReportedPromptTokens i) now in
  if negb ((0 <=? lpis_attempt_n row) && null_or_nonneg (lpis_provider_reported_prompt_tokens row))
  then None
  else if existsb (fun x => String.eqb (lpis_request_id x) (lpis_request_id row)
                            && (lpis_attempt_n x =? lpis_attempt_n row)
                            && String.eqb (lpis_provider_assigned_id x) (lpis_provider_assigned_id row))
            (lpis l)
  then Some l
  else Some (with_lpis (lpis l ++ [row]) (next_lpis l + 1) l).

(** A quarantined row and its identity snapshot. *)
Definition quarantine_attempt (i : HotPathInput) (now reason : string) (l : Ledger) : option Ledger :=
  l ← quarantinedAttemptTx i now reason l;
  insertProviderIdentitySnapshotTx i now l.

Section HotPath.
Context {GL : GoLib} {JC : JsonColumns}.

(** The money part: everything after the request-log row, once the input has its
    defaults. [count] is the number of log rows of the request, the new one
    included, and [retried] the marker of the new one. *)
Definition bill_attempt (i : HotPathInput) (count retried : Z) (now : string) (l : Ledger)
    : option Ledger :=
  let derived := count - 1 in
  if (0 <? count) && (hp_AttemptN i <? derived) then
    quarantine_attempt (hp_with_defaults derived (hp_TSUtc i) (hp_FaultFlag i)
        (hp_SettlementAccountScopeHash i) (hp_SettlementPolicyMode i) i)
      now "ambiguous_attempt_n" l
  else
    let '(i, cacheQuarantineReason) := normalizeCachedPromptTokens i in
    if (hp_AttemptN i =? 1) && (retried =? 0) then
      quarantine_attempt i now "ambiguous_attempt_n" l
    else if negb (String.eqb cacheQuarantineReason "") then
      quarantine_attempt i now cacheQuarantineReason l
    else
      l ← creditAttemptTx i now l;
      l ← insertProviderIdentitySnapshotTx i now l;
      '(l, _) ← syncVerifiedReceiptLedgerCreditForAttemptTx (hp_RequestID i) (hp_AttemptN i)
                  (hp_ProviderID i) now l;
      Some l.

Definition writeHotPath (account : option string) (reqRow : LogRecord) (i : HotPathInput)
    (now ts_now : string) (db : HotDB) : option HotDB :=
  let i := boundProviderReportedPromptTokens i in
  let reqRow := requestLogRowWithBoundedPrompt reqRow i in
  let reqRow := match account with Some a => rl_with_account a reqRow | None => reqRow end in
  let log := insert_log reqRow (hd_log db) in
  if String.eqb (hp_ProviderAssignedID i) "" then Some (mkHotDB (hd_ledger db) log)
  else
    let i := hp_with_defaults (hp_AttemptN i)
      (if String.eqb (hp_TSUtc i) "" then ts_now else hp_TSUtc i)
      (if String.eqb (hp_FaultFlag i) "" then FaultNone else hp_FaultFlag i)
      (if String.eqb (hp_SettlementAccountScopeHash i) ""
       then SettlementAccountScopeHashForAccountID (rl_AccountID reqRow)
       else hp_SettlementAccountScopeHash i)
      (if String.eqb (hp_SettlementPolicyMode i) "" then "legacy" else hp_SettlementPolicyMode i) i in
    l ← bill_attempt i (count_requests log (rl_AccountID reqRow) (hp_RequestID i)) (rl_Retried reqRow)
          now (hd_ledger db);
    Some (mkHotDB l log).

(** [writeRequestLogWithIdentity]: the fallback without a credit. *)
Definition writeRequestLogWithIdentity (account : option string) (reqRow : LogRecord)
    (i : HotPathInput) (now : string) (db : HotDB) : option HotDB :=
  let reported := match hp_ProviderReportedPromptTokens i with
                  | Some v => Some v
                  | None => match hp_PromptTokens i with
                            | Some v => Some v | None => rl_PromptTokens reqRow end
                  end in
  let i := hp_with_tokens (hp_PromptTokens i) reported (hp_CachedPromptTokens i) i in
  let reqRow := requestLogRowWithBoundedPrompt reqRow i in
  let reqRow := match account with Some a => rl_with_account a reqRow | None => reqRow end in
  let log := insert_log reqRow (hd_log db) in
  if negb (String.eqb (hp_ProviderAssignedID i) "") && negb (String.eqb (hp_ProviderID i) "")
  then l ← insertProviderIdentitySnapshotTx i now (hd_ledger db); Some (mkHotDB l log)
  else Some (mkHotDB (hd_ledger db) log).
End HotPath.

(** ** What a hot-path write does *)

(** The prompt tokens that are charged: the reported ones, never above the independent
    bound. *)
Definition bounded_prompt (i : HotPathInput) : option Z :=
  match hp_PromptTokens i, hp_PromptTokenUpperBound i with
  | Some p, Some bound => Some (Z.min p (Z.max 0 bound))
  | p, _ => p
  end.

(** The cached tokens that count as a discount, or why the attempt is quarantined. They
    must be within the charged prompt; a retry gets no discount, and neither does an
    attempt that was not routed to the provider of its conversation. *)
Inductive cache_use (i : HotPathInput) : string + option Z -> Prop :=
| cache_absent : hp_CachedPromptTokens i = None -> cache_use i (inr None)
| cache_invalid c :
    hp_CachedPromptTokens i = Some c -> c < 0 \/ (forall p, bounded_prompt i = Some p -> p < c) ->
    cache_use i (inl "invalid_cached_prompt_tokens")
| cache_retry c p :
    hp_CachedPromptTokens i = Some c -> bounded_prompt i = Some p -> 0 <= c <= p -> 0 < hp_AttemptN i ->
    cache_use i (inr None)
| cache_cold c p :
    hp_CachedPromptTokens i = Some c -> bounded_prompt i = Some p -> 0 <= c <= p -> hp_AttemptN i <= 0 ->
    hp_StickyResult i <> "hit" -> cache_use i (if 0 <? c then inl "ambiguous_cache" else inr None)
| cache_hit c p :
    hp_CachedPromptTokens i = Some c -> bounded_prompt i = Some p -> 0 <= c <= p -> hp_AttemptN i <= 0 ->
    hp_StickyResult i = "hit" -> cache_use i (inr (Some c)).

(** Whether the attempt is credited, with which cached tokens, or quarantined, under which
    number and why; [n] rows of the request were logged before, and [retried] is the marker
    of the new one. *)
Inductive attempt_verdict (n retried : Z) (i : HotPathInput) : Z -> string + option Z -> Prop :=
| verdict_behind : 0 <= n -> hp_AttemptN i < n -> attempt_verdict n retried i n (inl "ambiguous_attempt_n")
| verdict_unmarked :
    ~ (0 <= n /\ hp_AttemptN i < n) -> hp_AttemptN i = 1 -> retried = 0 ->
    attempt_verdict n retried i (hp_AttemptN i) (inl "ambiguous_attempt_n")
| verdict_cache use :
    ~ (0 <= n /\ hp_AttemptN i < n) -> ~ (hp_AttemptN i = 1 /\ retried = 0) -> cache_use i use ->
    attempt_verdict n retried i (hp_AttemptN i) use.

(** The amounts of a credited attempt: the exact formula, at the rate entry, multiplier and
    share of the input. *)
Definition attempt_amounts (i : HotPathInput) (cached : option Z) : Z * Z * Z :=
  default (0, 0, 0) (reference_credits (bounded_prompt i) cached (hp_CompletionTokens i) (hp_EstimatedCompTokens i)
    (usageFor (hp_ErrorCode i) (hp_EstimatedCompTokens i)) (hp_FaultFlag i) (hp_RateEntry i) (hp_MultiplierPPM i)
    (hp_ProviderShareBps i)).

(** The credit row of the attempt. *)
Record credit_of (scope : string) (i : HotPathInput) (attempt : Z) (reason : string) (amounts : Z * Z * Z) (r : CreditRow) : Prop :=
  mkCreditOf {
  co_key : lrc_request_id r = hp_RequestID i /\ lrc_attempt_n r = attempt /\ lrc_provider_id r = hp_ProviderID i;
  co_open : lrc_settled r = false /\ lrc_settlement_id r = None;
  co_quarantine : lrc_quarantined r = negb (String.eqb reason "") /\ lrc_quarantine_reason r = nullString reason;
  co_amounts : lrc_gross_credits r = amounts.1.1 /\ lrc_provider_credits r = amounts.1.2;
  co_prompt : lrc_provider_reported_prompt_tokens r = hp_PromptTokens i
    /\ forall p, lrc_charged_prompt_tokens r = Some p -> bounded_prompt i = Some p;
  co_rates : lrc_model r = hp_Model i /\ lrc_global_multiplier_ppm r = hp_MultiplierPPM i
    /\ lrc_provider_share_bps r = hp_ProviderShareBps i
    /\ lrc_prompt_rate_per_mtok r = PromptCreditsPerMtok (hp_RateEntry i)
    /\ lrc_completion_rate_per_mtok r = CompletionCreditsPerMtok (hp_RateEntry i);
  co_policy : lrc_settlement_account_scope_hash r = nullString scope
    /\ lrc_settlement_policy_mode r = settlementPolicyModeOrLegacy (hp_SettlementPolicyMode i)
    /\ lrc_settlement_policy_version r = nullString (hp_SettlementPolicyVersion i);
}.

(** The tables the write leaves alone before the resync. *)
Definition kept (l l' : Ledger) : Prop :=
  lpr l' = lpr l /\ lqr l' = lqr l /\ srs l' = srs l /\ srv l' = srv l /\ sao l' = sao l /\ lcs l' = lcs l.

(** What the write of attempt [i] does to the ledger. [i'] is the input the ledger steps
    of Settlement take. *)
Inductive hot_path_effect {JC : JsonColumns} (scope : string) (n retried : Z) (i i' : HotPathInput) (now : string) (l : Ledger)
    : list LedgerEvent -> Ledger -> Prop :=
| hot_quarantined attempt reason r l' :
    attempt_verdict n retried i attempt (inl reason) ->
    lrc l' = lrc l ++ [r] -> credit_of scope i attempt reason (0, 0, 0) r -> loc l' = loc l -> kept l l' ->
    hot_path_effect scope n retried i i' now l [EvQuarantined i' now reason; EvOther] l'
| hot_credited attempt cached r o l1 l' why :
    attempt_verdict n retried i attempt (inr cached) ->
    lrc l1 = lrc l ++ [r] -> credit_of scope i attempt "" (attempt_amounts i cached) r ->
    loc l1 = loc l ++ [o] -> loc_request_credit_id o = lrc_id r -> loc_gross_credits o = (attempt_amounts i cached).1.1 ->
    loc_operator_credits o = (attempt_amounts i cached).2 -> kept l l1 ->
    syncVerifiedReceiptLedgerCreditForAttemptTx (hp_RequestID i) attempt (hp_ProviderID i) now l1 = Some (l', why) ->
    hot_path_effect scope n retried i i' now l
      [EvCredit i' now; EvOther; EvSync (hp_RequestID i) attempt (hp_ProviderID i) now why] l'.

Lemma identity_other i now l l' :
  insertProviderIdentitySnapshotTx i now l = Some l' ->
  lrc l' = lrc l /\ loc l' = loc l /\ next_lrc l' = next_lrc l /\ next_lpr l' = next_lpr l /\ kept l l'.
Proof.
  unfold insertProviderIdentitySnapshotTx. repeat case_match; try done; by intros [= <-].
Qed.

(** *** The rows *)

Lemma bounded_prompt_ok i : hp_PromptTokens (boundProviderReportedPromptTokens i) = bounded_prompt i
  /\ hp_ProviderReportedPromptTokens (boundProviderReportedPromptTokens i) = hp_PromptTokens i.
Proof.
  unfold boundProviderReportedPromptTokens, bounded_prompt.
  destruct (hp_PromptTokens i) as [p|], (hp_PromptTokenUpperBound i) as [b|]; try (by cbn).
  cbv zeta. destruct (b <? 0) eqn:E1; cbv iota; case_match; cbn; (split; [f_equal; lia|done]).
Qed.

(** [i'] is the input [i] with its prompt bounded and its defaults filled in. *)
Record prepared (scope : string) (i i' : HotPathInput) : Prop := mkPrepared {
  pr_key : hp_RequestID i' = hp_RequestID i /\ hp_ProviderID i' = hp_ProviderID i /\ hp_AttemptN i' = hp_AttemptN i;
  pr_prompt : hp_PromptTokens i' = bounded_prompt i /\ hp_ProviderReportedPromptTokens i' = hp_PromptTokens i;
  pr_usage : hp_CachedPromptTokens i' = hp_CachedPromptTokens i /\ hp_CompletionTokens i' = hp_CompletionTokens i
    /\ hp_EstimatedCompTokens i' = hp_EstimatedCompTokens i /\ hp_ErrorCode i' = hp_ErrorCode i /\ hp_StickyResult i' = hp_StickyResult i;
  pr_rates : hp_Model i' = hp_Model i /\ hp_RateEntry i' = hp_RateEntry i /\ hp_MultiplierPPM i' = hp_MultiplierPPM i
    /\ hp_ProviderShareBps i' = hp_ProviderShareBps i;
  pr_fault : hp_FaultFlag i' = if String.eqb (hp_FaultFlag i) "" then FaultNone else hp_FaultFlag i;
  pr_policy : hp_SettlementAccountScopeHash i' = scope
    /\ settlementPolicyModeOrLegacy (hp_SettlementPolicyMode i') = settlementPolicyModeOrLegacy (hp_SettlementPolicyMode i)
    /\ hp_SettlementPolicyVersion i' = hp_SettlementPolicyVersion i;
}.

(** The normalized input. *)
Lemma normalize_spec scope i i' i2 why : prepared scope i i' -> normalizeCachedPromptTokens i' = (i2, why) ->
  cache_use i (if String.eqb why "" then inr (hp_CachedPromptTokens i2) else inl why)
  /\ exists cached, i2 = hp_with_tokens (hp_PromptTokens i') (hp_ProviderReportedPromptTokens i') cached i'.
Proof.
  intros [[_ [_ Ka]] [Kp _] (Kc & _ & _ & _ & Ks) _ _ _]. unfold normalizeCachedPromptTokens. rewrite Kc, Kp, Ka, Ks.
  destruct (hp_CachedPromptTokens i) as [c|] eqn:Ec.
  2:{ intros [= <- <-]. rewrite Kc. split; [by apply cache_absent|]. exists (hp_CachedPromptTokens i'). destruct i'; simpl in *; by subst. }
  destruct (_ || _) eqn:E1.
  { intros [= <- <-]. split; [|by exists None]. apply (cache_invalid i c); [done|].
    apply orb_true_iff in E1 as [E1|E1]; [left; lia|right]. intros p Hp. rewrite Hp in E1. lia. }
  apply orb_false_iff in E1 as [E1 E2]. destruct (bounded_prompt i) as [p|] eqn:Ep; [|done].
  destruct (0 <? hp_AttemptN i) eqn:E3.
  { intros [= <- <-]. split; [|by exists None]. apply (cache_retry i c p); [done|done|lia|lia]. }
  destruct (String.eqb (hp_StickyResult i) "hit") eqn:E4; cbn [negb].
  { intros [= <- <-]. rewrite Kc. apply String.eqb_eq in E4. split; [apply (cache_hit i c p); [done|done|lia|lia|done]|].
    exists (hp_CachedPromptTokens i'). destruct i'; simpl in *; by subst. }
  apply String.eqb_neq in E4. pose proof (cache_cold i c p Ec Ep ltac:(lia) ltac:(lia) E4) as Hc.
  destruct (0 <? c); intros [= <- <-]; (split; [exact Hc|by exists None]).
Qed.

Lemma insert_credit_row i result source now quar why l id l' :
  insertRequestCreditTx i result source now quar why l = Some (id, l') ->
  let row := hot_path_row (next_lrc l) i result source now quar why in
  id = next_lrc l /\ lrc l' = lrc l ++ [row] /\ loc l' = loc l /\ kept l l'
  /\ 0 <= hp_AttemptN i /\ (forall r, r ∈ lrc l -> same_attempt row r = false).
Proof.
  unfold insertRequestCreditTx. destruct (_ && _) eqn:E; [|done]. intros [= <- <-].
  apply andb_prop in E as [E1 E2]. split_and!; try done.
  - unfold credit_row_checks in E1. simpl in E1. bool_hyps. lia.
  - intros r Hr. destruct (same_attempt _ r) eqn:Es; [|done].
    rewrite (proj2 (existsb_elem _ _)) in E2; [done|by exists r].
Qed.

Lemma reference_fault_default prompt cached completion estimated usage fault e mult bps :
  reference_credits prompt cached completion estimated usage (if String.eqb fault "" then FaultNone else fault) e mult bps
  = reference_credits prompt cached completion estimated usage fault e mult bps.
Proof. unfold reference_credits. destruct (String.eqb fault "") eqn:E; [|done]. apply String.eqb_eq in E as ->. done. Qed.

(** The columns of a bill that are copied. *)
Definition copies (prompt : option Z) (e : RateCardEntry) (mult bps : Z) (row : BilledRow) : Prop :=
  (PromptTokens row = None \/ PromptTokens row = prompt)
  /\ PromptRatePerMtok row = PromptCreditsPerMtok e /\ CompletionRatePerMtok row = CompletionCreditsPerMtok e
  /\ GlobalMultiplierPPM row = mult /\ ProviderShareBps row = bps.

Lemma null_copies prompt e mult bps row : copies prompt e mult bps row -> copies prompt e mult bps (nullUsage row).
Proof. intros (_ & H). split; [by left|exact H]. Qed.

Lemma bill_columns prompt cached completion estimated usage fault e mult bps :
  copies prompt e mult bps (ComputeCreditsWithCache prompt cached completion estimated usage fault e mult bps).
Proof.
  unfold ComputeCreditsWithCache. cbv zeta. set (row := mkBilledRow _ _ _ _ _ _ _ _ _ _ _ _ _ _).
  assert (copies prompt e mult bps row) as H by (split; [by right|done]). clearbody row.
  destruct (String.eqb (FaultFlag row) _); [done|]. destruct (String.eqb (UsageSource row) UsageNullError); [exact H|].
  destruct (billableCompletion _ _ _) as [[c clamp]|]; [|by apply null_copies].
  set (row1 := if String.eqb _ UsageByteEstimated then _ else _).
  assert (copies prompt e mult bps row1) as H1 by (subst row1; repeat case_match; exact H). clearbody row1.
  destruct (_ || _); [by apply null_copies|]. destruct (rateScaledNumerator _ _ _ _ _); [|by apply null_copies].
  destruct (checkedMul _ _); [exact H1|by apply null_copies].
Qed.

Lemma zero_columns row :
  (PromptTokens (zeroCredits row) = None \/ PromptTokens (zeroCredits row) = PromptTokens row)
  /\ PromptRatePerMtok (zeroCredits row) = PromptRatePerMtok row /\ CompletionRatePerMtok (zeroCredits row) = CompletionRatePerMtok row
  /\ GlobalMultiplierPPM (zeroCredits row) = GlobalMultiplierPPM row /\ ProviderShareBps (zeroCredits row) = ProviderShareBps row
  /\ GrossCredits (zeroCredits row) = 0 /\ ProviderCredits (zeroCredits row) = 0.
Proof. unfold zeroCredits. case_match; simpl; split_and!; auto. Qed.

(** A row written for a prepared input. *)
Lemma row_credit_of scope i i' attempt result id now quar reason amounts :
  prepared scope i i' -> quar = negb (String.eqb reason "") ->
  (PromptTokens result = None \/ PromptTokens result = bounded_prompt i)
  /\ PromptRatePerMtok result = PromptCreditsPerMtok (hp_RateEntry i) /\ CompletionRatePerMtok result = CompletionCreditsPerMtok (hp_RateEntry i)
  /\ GlobalMultiplierPPM result = hp_MultiplierPPM i /\ ProviderShareBps result = hp_ProviderShareBps i ->
  GrossCredits result = amounts.1.1 -> ProviderCredits result = amounts.1.2 ->
  forall i2, hp_AttemptN i2 = attempt ->
    (hp_RequestID i2, hp_ProviderID i2, hp_Model i2, hp_ProviderReportedPromptTokens i2, hp_SettlementAccountScopeHash i2,
     hp_SettlementPolicyMode i2, hp_SettlementPolicyVersion i2)
    = (hp_RequestID i', hp_ProviderID i', hp_Model i', hp_ProviderReportedPromptTokens i', hp_SettlementAccountScopeHash i',
       hp_SettlementPolicyMode i', hp_SettlementPolicyVersion i') ->
  credit_of scope i attempt reason amounts (hot_path_row id i2 result "hot_path" now quar reason).
Proof.
  intros [(K1 & K2 & _) (_ & K3) _ (K4 & _) _ (K5 & K6 & K7)] Hquar (H1 & H2 & H3 & H4 & H5) Hg Hp i2 Ha [= E1 E2 E3 E4 E5 E6 E7].
  split; simpl; [split_and!; congruence|done|done|done| |split_and!; congruence|split_and!; congruence].
  split; [congruence|]. intros p Hpt. destruct H1; congruence.
Qed.

Section Effect.
Context {JC : JsonColumns}.

Lemma quarantine_attempt_rows i now reason l l' :
  quarantine_attempt i now reason l = Some l' ->
  lrc l' = lrc l ++ [hot_path_row (next_lrc l) i (zeroCredits (ComputeCredits (hp_PromptTokens i) (hp_CompletionTokens i)
      (hp_EstimatedCompTokens i) (usageFor (hp_ErrorCode i) (hp_EstimatedCompTokens i)) (hp_FaultFlag i) (hp_RateEntry i)
      (hp_MultiplierPPM i) (hp_ProviderShareBps i))) "hot_path" now true reason]
  /\ loc l' = loc l /\ kept l l'.
Proof.
  unfold quarantine_attempt, quarantinedAttemptTx.
  destruct (insertRequestCreditTx _ _ _ _ _ _ _) as [[id l1]|] eqn:E; [|done]. simpl.
  intros (E1 & E2 & _ & _ & K)%identity_other. apply insert_credit_row in E as (_ & F1 & F2 & K1 & _).
  rewrite E1, E2, F1, F2. split_and!; [done|done|]. unfold kept in *. destruct_and!. split_and!; congruence.
Qed.

Lemma quarantine_effect scope n retried i i' i2 now reason l l' :
  prepared scope i i' -> reason <> "" ->
  attempt_verdict n retried i (hp_AttemptN i2) (inl reason) ->
  (exists attempt cached, i2 = hp_with_defaults attempt (hp_TSUtc i') (hp_FaultFlag i') (hp_SettlementAccountScopeHash i')
     (hp_SettlementPolicyMode i') (hp_with_tokens (hp_PromptTokens i') (hp_ProviderReportedPromptTokens i') cached i')) ->
  quarantine_attempt i2 now reason l = Some l' ->
  hot_path_effect scope n retried i i2 now l [EvQuarantined i2 now reason; EvOther] l'.
Proof.
  intros Hp Hr Hv (attempt & cached & ->) (E1 & E2 & K)%quarantine_attempt_rows. set (result := zeroCredits _) in E1.
  pose proof Hp as [_ (P1 & _) (_ & P2 & P3 & P4 & _) (_ & P5 & P6 & P7) _ _].
  apply String.eqb_neq in Hr. eapply hot_quarantined; [exact Hv|exact E1| |done|done].
  assert ((PromptTokens result = None \/ PromptTokens result = bounded_prompt i)
    /\ PromptRatePerMtok result = PromptCreditsPerMtok (hp_RateEntry i) /\ CompletionRatePerMtok result = CompletionCreditsPerMtok (hp_RateEntry i)
    /\ GlobalMultiplierPPM result = hp_MultiplierPPM i /\ ProviderShareBps result = hp_ProviderShareBps i
    /\ GrossCredits result = 0 /\ ProviderCredits result = 0) as (C1 & C2 & C3 & C4 & C5 & C6 & C7).
  { subst result. cbn [hp_PromptTokens hp_CompletionTokens hp_EstimatedCompTokens hp_ErrorCode hp_FaultFlag hp_RateEntry hp_MultiplierPPM
      hp_ProviderShareBps hp_with_defaults hp_with_tokens]. unfold ComputeCredits.
    match goal with |- context [zeroCredits ?x] => destruct (zero_columns x) as (Z1 & -> & -> & -> & -> & Z6 & Z7) end.
    match type of Z1 with context [ComputeCreditsWithCache ?a ?b ?c ?d ?e ?f ?g ?h ?k] => destruct (bill_columns a b c d e f g h k) as (B1 & -> & -> & -> & ->) end.
    split; [|split_and!; first [exact Z6|exact Z7|congruence]]. rewrite <- P1. destruct Z1 as [Z1|Z1]; [by left|]. rewrite Z1. destruct B1 as [->|B1]; [by left|by right]. }
  eapply row_credit_of; [exact Hp|by rewrite Hr|by split_and!|exact C6|exact C7|done|done].
Qed.
End Effect.

(** ** Refinement of the ledger steps *)

Section Refinement.
Context {GL : GoLib} {JC : JsonColumns}.

(** The ledgers are reached one from the other by these steps, whatever came before. *)
Definition refines (evs : list LedgerEvent) (l l' : Ledger) : Prop :=
  forall group_order l0 evs0, ledger_exec group_order l0 evs0 l -> ledger_exec group_order l0 (evs0 ++ evs) l'.

Lemma exec_snoc_other group_order l0 evs l l' :
  ledger_exec group_order l0 evs l ->
  lrc l' = lrc l -> loc l' = loc l -> lpr l' = lpr l -> next_lrc l' = next_lrc l ->
  next_lpr l' = next_lpr l ->
  ledger_exec group_order l0 (evs ++ [EvOther]) l'.
Proof. intros. eapply exec_snoc; [eassumption|by apply step_other]. Qed.

Lemma quarantine_attempt_refines i now reason l l' :
  quarantine_attempt i now reason l = Some l' -> refines [EvQuarantined i now reason; EvOther] l l'.
Proof.
  unfold quarantine_attempt. intros H group_order l0 evs Hex.
  destruct (quarantinedAttemptTx i now reason l) as [l1|] eqn:E; [|done]. simpl in H.
  apply identity_other in H as (E1 & E2 & E4 & E5 & E3 & _).
  change [EvQuarantined i now reason; EvOther] with ([EvQuarantined i now reason] ++ [EvOther]).
  rewrite app_assoc. eapply exec_snoc_other; [|done..].
  eapply exec_snoc; [exact Hex|]. by apply step_quarantined.
Qed.

Lemma credit_attempt_rows i now l l1 :
  creditAttemptTx i now l = Some l1 ->
  let result := ComputeCreditsWithCache (hp_PromptTokens i) (hp_CachedPromptTokens i) (hp_CompletionTokens i) (hp_EstimatedCompTokens i)
    (usageFor (hp_ErrorCode i) (hp_EstimatedCompTokens i)) (hp_FaultFlag i) (hp_RateEntry i) (hp_MultiplierPPM i) (hp_ProviderShareBps i) in
  lrc l1 = lrc l ++ [hot_path_row (next_lrc l) i result "hot_path" now false ""] /\ kept l l1
  /\ exists o, loc l1 = loc l ++ [o] /\ loc_request_credit_id o = next_lrc l
     /\ loc_gross_credits o = GrossCredits result /\ loc_operator_credits o = OperatorCredits result.
Proof.
  unfold creditAttemptTx. destruct (insertRequestCreditTx _ _ _ _ _ _ _) as [[id l2]|] eqn:E; [|done]. simpl.
  apply insert_credit_row in E as (-> & F1 & F2 & K & _). unfold insertOperatorCreditTx. destruct (_ && _) in |- *; [|done].
  intros [= <-]. simpl. rewrite F1, F2. split; [done|]. split; [done|]. eexists. split; [done|]. done.
Qed.

Lemma credit_effect scope n retried i i' i2 now l l1 l2 l' why :
  prepared scope i i' ->
  attempt_verdict n retried i (hp_AttemptN i) (inr (hp_CachedPromptTokens i2)) ->
  (exists cached, i2 = hp_with_tokens (hp_PromptTokens i') (hp_ProviderReportedPromptTokens i') cached i') ->
  creditAttemptTx i2 now l = Some l1 -> insertProviderIdentitySnapshotTx i2 now l1 = Some l2 ->
  syncVerifiedReceiptLedgerCreditForAttemptTx (hp_RequestID i2) (hp_AttemptN i2) (hp_ProviderID i2) now l2 = Some (l', why) ->
  hot_path_effect scope n retried i i2 now l
    [EvCredit i2 now; EvOther; EvSync (hp_RequestID i2) (hp_AttemptN i2) (hp_ProviderID i2) now why] l'
  /\ refines [EvCredit i2 now; EvOther; EvSync (hp_RequestID i2) (hp_AttemptN i2) (hp_ProviderID i2) now why] l l'.
Proof.
  intros Hp Hv (cached & ->) Hc Hi Hs. pose proof (credit_attempt_rows _ _ _ _ Hc) as (F1 & K1 & o & F2 & F3 & F4 & F5).
  pose proof (identity_other _ _ _ _ Hi) as (G1 & G2 & G3 & G4 & K2).
  pose proof Hp as [(Q1 & Q2 & Q3) (P1 & _) (_ & P2 & P3 & P4 & _) (_ & P5 & P6 & P7) Pf _]. split.
  - set (result := ComputeCreditsWithCache _ _ _ _ _ _ _ _ _) in *.
    assert (credits result = attempt_amounts i cached) as Ham.
    { subst result. cbn [hp_PromptTokens hp_CachedPromptTokens hp_CompletionTokens hp_EstimatedCompTokens hp_ErrorCode hp_FaultFlag hp_RateEntry
        hp_MultiplierPPM hp_ProviderShareBps hp_with_tokens]. rewrite (proj1 (ComputeCreditsWithCache_spec _ _ _ _ _ _ _ _ _)).
      rewrite P1, P2, P3, P4, P5, P6, P7, Pf, reference_fault_default. done. }
    unfold credits in Ham. cbn [hp_RequestID hp_ProviderID hp_AttemptN hp_with_tokens] in *.
    cbn [hp_CachedPromptTokens hp_with_tokens] in Hv. rewrite Q1, Q2, Q3 in *.
    eapply (hot_credited _ _ _ _ _ _ _ _ cached); [exact Hv|by rewrite G1| |by rewrite G2|by rewrite F3| | | |exact Hs].
    + eapply (row_credit_of scope i i' _ _ _ _ false ""); [exact Hp|done| |by rewrite <- Ham|by rewrite <- Ham|exact Q3|done].
      subst result. match goal with |- context [ComputeCreditsWithCache ?a ?b ?c ?d ?e ?f ?g ?h ?k] =>
        destruct (bill_columns a b c d e f g h k) as (B1 & -> & -> & -> & ->) end.
      cbn [hp_RateEntry hp_MultiplierPPM hp_ProviderShareBps hp_with_tokens]. cbn [hp_PromptTokens hp_with_tokens] in B1.
      split; [destruct B1 as [B1|B1]; [by left|right; exact (eq_trans B1 P1)]|split_and!; congruence].
    + by rewrite F4, <- Ham.
    + by rewrite F5, <- Ham.
    + unfold kept in *. destruct_and!. split_and!; congruence.
  - intros group_order l0 evs Hex. set (i2 := hp_with_tokens _ _ _ _) in *.
    change (evs ++ [EvCredit i2 now; EvOther; EvSync (hp_RequestID i2) (hp_AttemptN i2) (hp_ProviderID i2) now why])
      with (evs ++ [EvCredit i2 now] ++ [EvOther] ++ [EvSync (hp_RequestID i2) (hp_AttemptN i2) (hp_ProviderID i2) now why]).
    rewrite !app_assoc. eapply exec_snoc; [|by apply step_sync]. destruct K2 as [K2 _]. eapply exec_snoc_other; [|done..].
    eapply exec_snoc; [exact Hex|by apply step_credit].
Qed.

Lemma bill_attempt_effect scope i i' count retried now l l' :
  prepared scope i i' -> bill_attempt i' count retried now l = Some l' ->
  exists i2 evs, hot_path_effect scope (count - 1) retried i i2 now l evs l' /\ refines evs l l'.
Proof.
  intros Hp. pose proof Hp as [(Q1 & Q2 & Q3) _ _ _ _ _]. unfold bill_attempt. cbv zeta.
  destruct ((0 <? count) && (hp_AttemptN i' <? count - 1)) eqn:E1.
  { intros Hq. eexists _, _. split; [|by eapply quarantine_attempt_refines]. eapply quarantine_effect; [exact Hp|done| |by eexists _, (hp_CachedPromptTokens i')|exact Hq].
    apply andb_true_iff in E1 as [E1%Z.ltb_lt E2%Z.ltb_lt]. rewrite Q3 in E2. apply verdict_behind; simpl; lia. }
  destruct (normalizeCachedPromptTokens i') as [i2 why] eqn:En.
  destruct (normalize_spec _ _ _ _ _ Hp En) as [Hcache (cached & Hi2)].
  assert (hp_AttemptN i2 = hp_AttemptN i) as Hat by (subst i2; exact Q3). rewrite Hat. rewrite Q3 in E1.
  assert (forall reason, reason <> "" -> attempt_verdict (count - 1) retried i (hp_AttemptN i) (inl reason) ->
    quarantine_attempt i2 now reason l = Some l' ->
    exists i2 evs, hot_path_effect scope (count - 1) retried i i2 now l evs l' /\ refines evs l l') as Hquar.
  { intros reason Hr Hv Hq. exists i2. eexists. split; [|by eapply quarantine_attempt_refines].
    eapply quarantine_effect; [exact Hp|done|by rewrite Hat| |exact Hq]. exists (hp_AttemptN i'), cached. by subst i2. }
  destruct ((hp_AttemptN i =? 1) && (retried =? 0)) eqn:E2.
  { apply Hquar; [done|]. apply verdict_unmarked; lia. }
  destruct (String.eqb why "") eqn:E3; cbn [negb].
  2:{ apply Hquar; [by apply String.eqb_neq|]. apply verdict_cache; [lia|lia|done]. }
  destruct (creditAttemptTx i2 now l) as [l1|] eqn:Ec; [|done]. cbn [mbind option_bind].
  destruct (insertProviderIdentitySnapshotTx i2 now l1) as [l2|] eqn:Ei; [|done]. cbn [mbind option_bind].
  destruct (syncVerifiedReceiptLedgerCreditForAttemptTx _ _ _ _ _) as [[l3 w]|] eqn:Es; [|done].
  cbn [mbind option_bind]. intros [= <-]. exists i2. eexists. rewrite <- Hat in Es. eapply credit_effect; [exact Hp| |by eauto|exact Ec|exact Ei|exact Es].
  apply verdict_cache; [lia|lia|done].
Qed.

(** The scope hash of the row: the one given, or the hash of the account. *)
Definition scope_of (account : string) (i : HotPathInput) : string :=
  if String.eqb (hp_SettlementAccountScopeHash i) "" then SettlementAccountScopeHashForAccountID account else hp_SettlementAccountScopeHash i.

Lemma defaults_prepared account i ts_now :
  let i1 := boundProviderReportedPromptTokens i in
  prepared (scope_of account i) i (hp_with_defaults (hp_AttemptN i1) (if String.eqb (hp_TSUtc i1) "" then ts_now else hp_TSUtc i1)
    (if String.eqb (hp_FaultFlag i1) "" then FaultNone else hp_FaultFlag i1)
    (if String.eqb (hp_SettlementAccountScopeHash i1) "" then SettlementAccountScopeHashForAccountID account else hp_SettlementAccountScopeHash i1)
    (if String.eqb (hp_SettlementPolicyMode i1) "" then "legacy" else hp_SettlementPolicyMode i1) i1).
Proof.
  intros i1. destruct (bounded_prompt_ok i) as [P1 P2].
  assert (exists prompt, i1 = hp_with_tokens prompt (hp_PromptTokens i) (hp_CachedPromptTokens i) i) as [prompt E].
  { subst i1. unfold boundProviderReportedPromptTokens. repeat case_match; by eauto. }
  split; simpl; [by rewrite E|done|by rewrite E|by rewrite E|by rewrite E|]. rewrite E. simpl. split_and!; [done| |done].
  destruct (String.eqb (hp_SettlementPolicyMode i) "") eqn:Em; [|done]. by apply String.eqb_eq in Em as ->.
Qed.
End Refinement.

(** Claim C37. What a committed hot-path write does, on every branch. The request gets one
    more row in the log. Without a provider session the ledger is unchanged. Otherwise one
    credit row is added. It is quarantined with zero credits when the attempt number is
    behind the rows of the request logged before (under the number of the log), when it is
    a second attempt without a retry marker, or when its cached tokens are out of range or
    not explained by the route; and only then. In every other case it holds the amounts of
    the exact formula, on the prompt tokens bounded by the independent count, the cached
    tokens of a first attempt routed by affinity, and the rate, multiplier and share of the
    input, with an operator row of the same bill, and then the resync of this attempt runs.
    The change is the ledger steps of one quarantined row, or of one credit and its resync,
    so that the theorems on reachable ledgers hold of the transaction. *)
Theorem hot_path_refines_ledger {GL : GoLib} {JC : JsonColumns} group_order evs
    (account : option string) (row : LogRecord) (i : HotPathInput) (now ts_now : string)
    (db db' : HotDB) :
  ledger_exec group_order empty_ledger evs (hd_ledger db) ->
  writeHotPath account row i now ts_now db = Some db' ->
  let acct := default (rl_AccountID row) account in
  let n := count_requests (hd_log db') acct (hp_RequestID i) - 1 in
  (exists r, hd_log db' = hd_log db ++ [r] /\ rl_RequestID r = rl_RequestID row /\ rl_AccountID r = acct)
  /\ if String.eqb (hp_ProviderAssignedID i) "" then hd_ledger db' = hd_ledger db
     else exists i' evs', hot_path_effect (scope_of acct i) n (rl_Retried row) i i' now (hd_ledger db) evs' (hd_ledger db')
            /\ ledger_exec group_order empty_ledger (evs ++ evs') (hd_ledger db').
Proof.
  intros Hex. unfold writeHotPath. set (ib := boundProviderReportedPromptTokens i).
  assert (hp_RequestID ib = hp_RequestID i /\ hp_ProviderAssignedID ib = hp_ProviderAssignedID i) as [Eid Eas].
  { subst ib. unfold boundProviderReportedPromptTokens. by repeat case_match. }
  set (rb := requestLogRowWithBoundedPrompt row ib).
  set (ra := match account with Some a => rl_with_account a rb | None => rb end).
  assert (rl_AccountID ra = default (rl_AccountID row) account /\ rl_Retried ra = rl_Retried row /\ rl_RequestID ra = rl_RequestID row)
    as (Ea & Er & Eq).
  { subst ra rb. unfold requestLogRowWithBoundedPrompt. destruct account; by repeat case_match. }
  rewrite Eas. destruct (String.eqb (hp_ProviderAssignedID i) "").
  { intros [= <-]. split; [|done]. eexists. split; [done|]. by split. }
  destruct (bill_attempt _ _ _ _ _) as [l'|] eqn:Eb; [|done]. cbn [mbind option_bind]. intros [= <-]. cbn [hd_log hd_ledger].
  split; [eexists; split; [done|]; by split|].
  rewrite Ea, Er in Eb. apply (bill_attempt_effect (scope_of (default (rl_AccountID row) account) i) i) in Eb as (i2 & evs2 & He & Hr); [|apply defaults_prepared].
  cbn [hp_RequestID hp_with_defaults] in He. rewrite Eid in He. exists i2, evs2. split; [exact He|by apply Hr].
Qed.

(** The transaction keeps the ledger invariant. *)
Lemma writeHotPath_ok {GL : GoLib} {JC : JsonColumns} account row i now ts_now db db' :
  writeHotPath account row i now ts_now db = Some db' ->
  ledger_ok (hd_ledger db) -> ledger_ok (hd_ledger db').
Proof.
  unfold writeHotPath. destruct (String.eqb _ ""); [by intros [= <-]|].
  destruct (bill_attempt _ _ _ _ _) as [l'|] eqn:Eb; [|done]. cbn [mbind option_bind].
  intros [= <-] Hok. simpl.
  eapply bill_attempt_effect in Eb as (_ & evs & _ & Hr); [|apply defaults_prepared].
  pose proof (Hr remove_dups _ [] (exec_nil _ _)) as Hex. clear Hr. simpl in Hex.
  induction Hex as [|evs l1 e l2 _ IH Hst]; [done|].
  exact (ledger_step_ok remove_dups (fun _ => reflexivity _) _ _ _ Hst IH).
Qed.

(** ** Samples *)

#[local] Existing Instance ReceiptSample.sample_lib.
#[local] Existing Instance ResyncSample.columns.

Module HotPathSample.
Definition row (retried : Z) : LogRecord :=
  mkLogRecord "2026-07-14T10:00:00.000000000Z" "req-1" "ext-1" "acct" "qwen3-8b" "assigned-1"
    (Some 1000) None (Some 4000) None None 200 true "" "" retried None.
Definition input (attempt : Z) : HotPathInput :=
  mkHotPathInput "req-1" attempt "assigned-1" "alice" "qwen3-8b" 200 true
    "2026-07-14T10:00:00.000000000Z" (Some 1000) (Some 800) None None (Some 4000) None "" ""
    "" "" 1 sample_rate 1000000 8500 "" "" "".
Definition empty : HotDB := mkHotDB empty_ledger [].
Definition first : HotDB :=
  default empty (writeHotPath None (row 0) (input 0) Sample.now Sample.now empty).
Definition second (attempt retried : Z) : HotDB :=
  default empty (writeHotPath None (row retried) (input attempt) Sample.now Sample.now first).
End HotPathSample.

Lemma hot_path_refines_ledger_witness :
  map lrc_charged_prompt_tokens (lrc (hd_ledger HotPathSample.first)) = [Some 800]
  /\ exists i' evs', hot_path_effect (scope_of "acct" (HotPathSample.input 0)) 0 0 (HotPathSample.input 0) i' Sample.now
       empty_ledger evs' (hd_ledger HotPathSample.first)
     /\ ledger_exec remove_dups empty_ledger ([] ++ evs') (hd_ledger HotPathSample.first).
Proof.
  split; [vm_compute; reflexivity|].
  destruct (hot_path_refines_ledger remove_dups [] None (HotPathSample.row 0) (HotPathSample.input 0)
           Sample.now Sample.now HotPathSample.empty HotPathSample.first) as [_ H].
  - constructor.
  - vm_compute. reflexivity.
  - cbn [default option_map] in H.
    assert (count_requests (hd_log HotPathSample.first) "acct" "req-1" - 1 = 0) as E by (vm_compute; reflexivity).
    change (rl_AccountID (HotPathSample.row 0)) with "acct" in H. change (hp_RequestID (HotPathSample.input 0)) with "req-1" in H.
    cbn [default from_option id] in H. rewrite E in H. exact H.
Defined.

(** ** Which attempts are paid *)

(** The row a transaction adds: its quarantine flag, its key, its amounts. *)
Definition added_row (l : Ledger) (i : HotPathInput) (quar : bool) (r : CreditRow) : Prop :=
  lrc_quarantined r = quar /\ (quar = true -> lrc_gross_credits r = 0 /\ lrc_provider_credits r = 0)
  /\ 0 <= hp_AttemptN i /\ forall r0, r0 ∈ lrc l -> same_attempt r r0 = false.

Lemma quarantine_attempt_row i now reason l l' :
  quarantine_attempt i now reason l = Some l' ->
  exists r, lrc l' = lrc l ++ [r] /\ added_row l i true r.
Proof.
  unfold quarantine_attempt, quarantinedAttemptTx.
  destruct (insertRequestCreditTx _ _ _ _ _ _ _) as [[id l1]|] eqn:E; [|done]. simpl.
  intros (E1 & _)%identity_other. apply insert_credit_row in E as (_ & E2 & _ & _ & Hat & Hno).
  eexists. rewrite E1, E2. split; [reflexivity|]. split; [done|]. split; [|done].
  intros _. unfold zeroCredits. simpl. by case_match.
Qed.

Lemma creditAttemptTx_row i now l l' :
  creditAttemptTx i now l = Some l' ->
  exists r, lrc l' = lrc l ++ [r] /\ added_row l i false r.
Proof.
  unfold creditAttemptTx.
  destruct (insertRequestCreditTx _ _ _ _ _ _ _) as [[id l1]|] eqn:E; [|done]. simpl.
  unfold insertOperatorCreditTx. destruct (_ && _) in |- *; [|done]. intros [= <-].
  apply insert_credit_row in E as (_ & E2 & _ & _ & Hat & Hno). eexists. simpl. rewrite E2. split; [reflexivity|].
  by split_and!.
Qed.

Lemma same_attempt_key r r' r0 :
  lrc_request_id r' = lrc_request_id r -> lrc_attempt_n r' = lrc_attempt_n r ->
  lrc_provider_id r' = lrc_provider_id r -> same_attempt r' r0 = same_attempt r r0.
Proof. unfold same_attempt. by intros -> -> ->. Qed.

Lemma bill_attempt_row {JC : JsonColumns} i count retried now l l' r :
  ledger_ok l -> bill_attempt i count retried now l = Some l' ->
  lrc l' !! length (lrc l) = Some r ->
  exists quar,
    lrc_quarantined r = quar /\ (quar = true -> lrc_gross_credits r = 0 /\ lrc_provider_credits r = 0)
    /\ (forall r0, r0 ∈ lrc l -> same_attempt r r0 = false)
    /\ (quar = false -> count - 1 <= hp_AttemptN i /\ ~ (hp_AttemptN i = 1 /\ retried = 0)).
Proof.
  intros Hok. unfold bill_attempt.
  assert (forall i' why l', quarantine_attempt i' now why l = Some l' ->
    lrc l' !! length (lrc l) = Some r -> exists quar,
    lrc_quarantined r = quar /\ (quar = true -> lrc_gross_credits r = 0 /\ lrc_provider_credits r = 0)
    /\ (forall r0, r0 ∈ lrc l -> same_attempt r r0 = false)
    /\ (quar = false -> count - 1 <= hp_AttemptN i /\ ~ (hp_AttemptN i = 1 /\ retried = 0))) as Hq.
  { intros i' why l0 (r1 & E & H1 & H2 & _ & H4)%quarantine_attempt_row Hr. exists true.
    rewrite E, list_lookup_middle in Hr by done. injection Hr as <-. by split_and!. }
  destruct ((0 <? count) && (hp_AttemptN i <? count - 1)) eqn:E1; [by apply Hq|].
  destruct (normalizeCachedPromptTokens i) as [i' why] eqn:En.
  assert (hp_AttemptN i' = hp_AttemptN i) as Hat.
  { unfold normalizeCachedPromptTokens in En. repeat case_match; by simplify_eq. }
  destruct ((hp_AttemptN i' =? 1) && (retried =? 0)) eqn:E2; [by apply Hq|].
  destruct (negb (String.eqb why "")); [by apply Hq|].
  destruct (creditAttemptTx i' now l) as [l1|] eqn:Ec; [|done]. cbn [mbind option_bind].
  destruct (insertProviderIdentitySnapshotTx i' now l1) as [l2|] eqn:Ei; [|done].
  cbn [mbind option_bind].
  destruct (syncVerifiedReceiptLedgerCreditForAttemptTx _ _ _ _ _) as [[l3 w]|] eqn:Es; [|done].
  cbn [mbind option_bind]. intros [= <-] Hr.
  destruct (creditAttemptTx_row _ _ _ _ Ec) as (r1 & El & Hq1 & _ & Hatt & Hno).
  apply identity_other in Ei as (F1 & _).
  assert (lrc l2 !! length (lrc l) = Some r1) as Hr1 by (rewrite F1, El; by apply list_lookup_middle).
  assert (count - 1 <= hp_AttemptN i /\ ~ (hp_AttemptN i = 1 /\ retried = 0)) as Hamb by lia.
  pose proof (resync_row_change _ _ _ _ _ _ _ _ _ _ ltac:(rewrite F1; apply (creditAttemptTx_ok _ _ _ _ Ec Hok)) Es Hr1 Hr)
    as [_ ->|u usage cached rate _ _ _ _ -> _ _|u usage _ _ _ -> _].
  - exists false. by split_and!.
  - exists false. split_and!; [done..| |done]. intros r0 Hr0. by apply Hno.
  - exists true. split_and!; [done..| |done]. intros r0 Hr0. by apply Hno.
Qed.

(** A hot-path write pays only unambiguous attempts: the credit it adds has
    an attempt key no other credit has; if it is not quarantined, its attempt number is
    not behind the ordinal of the request log and it is not a second attempt without a
    retry marker; and if it is quarantined, it carries no credits. *)
Theorem hot_path_pays_unambiguous {GL : GoLib} {JC : JsonColumns}
    (account : option string) (row : LogRecord) (i : HotPathInput) (now ts_now : string)
    (db db' : HotDB) (r : CreditRow) :
  ledger_ok (hd_ledger db) ->
  writeHotPath account row i now ts_now db = Some db' ->
  lrc (hd_ledger db') !! length (lrc (hd_ledger db)) = Some r ->
  (forall r0, r0 ∈ lrc (hd_ledger db) -> same_attempt r r0 = false)
  /\ (lrc_quarantined r = false ->
      count_requests (hd_log db') (default (rl_AccountID row) account) (hp_RequestID i) - 1
        <= hp_AttemptN i
      /\ ~ (hp_AttemptN i = 1 /\ rl_Retried row = 0))
  /\ (lrc_quarantined r = true -> lrc_gross_credits r = 0 /\ lrc_provider_credits r = 0).
Proof.
  intros Hok. unfold writeHotPath.
  set (ib := boundProviderReportedPromptTokens i).
  assert (hp_RequestID ib = hp_RequestID i /\ hp_AttemptN ib = hp_AttemptN i) as [Eid Eat].
  { subst ib. unfold boundProviderReportedPromptTokens. by repeat case_match. }
  set (rb := requestLogRowWithBoundedPrompt row ib).
  set (ra := match account with Some a => rl_with_account a rb | None => rb end).
  assert (rl_AccountID ra = default (rl_AccountID row) account /\ rl_Retried ra = rl_Retried row)
    as [Ea Er].
  { subst ra rb. unfold requestLogRowWithBoundedPrompt. destruct account; by repeat case_match. }
  destruct (String.eqb (hp_ProviderAssignedID ib) "").
  { intros [= <-] Hr. apply lookup_lt_Some in Hr. simpl in Hr. lia. }
  destruct (bill_attempt _ _ _ _ _) as [l'|] eqn:Eb; [|done]. cbn [mbind option_bind].
  intros [= <-] Hr. simpl in Hr |- *.
  destruct (bill_attempt_row _ _ _ _ _ _ _ Hok Eb Hr) as (quar & <- & H1 & H2 & H3).
  cbn [hp_AttemptN hp_RequestID hp_with_defaults] in H3. rewrite Ea, Er, Eid, Eat in H3.
  split_and!; [done| |done]. exact H3.
Qed.

Lemma hot_path_pays_unambiguous_witness :
  exists r, lrc (hd_ledger (HotPathSample.second 1 0)) !! 1%nat = Some r
    /\ lrc_quarantined r = true /\ lrc_gross_credits r = 0.
Proof.
  eexists. split; [vm_compute; reflexivity|]. split; [reflexivity|].
  apply (hot_path_pays_unambiguous None (HotPathSample.row 0) (HotPathSample.input 1) Sample.now
           Sample.now HotPathSample.first (HotPathSample.second 1 0)).
  - apply (writeHotPath_ok None (HotPathSample.row 0) (HotPathSample.input 0) Sample.now Sample.now
             HotPathSample.empty); [vm_compute; reflexivity|apply empty_ledger_ok].
  - vm_compute. reflexivity.
  - vm_compute. reflexivity.
  - reflexivity.
Defined.

(** ** Attempt ordinals *)

(** The committed writes of an execution: (account, row, input, clocks), with a flag
    for the fallback write. *)
Inductive log_step {GL : GoLib} {JC : JsonColumns} : HotDB -> HotDB -> Prop :=
| log_hot account row i now ts_now db db' :
    rl_AttemptN row = None -> writeHotPath account row i now ts_now db = Some db' -> log_step db db'
| log_fallback account row i now db db' :
    rl_AttemptN row = None -> writeRequestLogWithIdentity account row i now db = Some db' ->
    log_step db db'.

(** The rows of each request carry the ordinals 0, 1, 2, ... in table order. *)
Definition ordinals_ok (log : list LogRecord) : Prop :=
  forall account request,
    map rl_AttemptN (List.filter (same_request account request) log)
    = map (fun n => Some (Z.of_nat n)) (seq 0 (length (List.filter (same_request account request) log))).

Lemma insert_log_ordinals r log :
  rl_AttemptN r = None -> ordinals_ok log -> ordinals_ok (insert_log r log).
Proof.
  intros Hn Hok account request. unfold insert_log. rewrite Hn. set (r' := rl_stored _ _ _).
  rewrite List.filter_app, map_app, length_app, Hok. cbn [List.filter].
  change (same_request account request r') with (same_request account request r).
  destruct (same_request account request r) eqn:E; [|by rewrite Nat.add_0_r, app_nil_r].
  rewrite seq_app, map_app. simpl. do 2 f_equal. unfold same_request in E. bool_hyps.
  unfold r', count_requests. simpl. by subst.
Qed.

Lemma log_step_ordinals {GL : GoLib} {JC : JsonColumns} db db' :
  log_step db db' -> ordinals_ok (hd_log db) -> ordinals_ok (hd_log db').
Proof.
  assert (forall account row i, rl_AttemptN row = None ->
    rl_AttemptN (match account with
                 | Some a => rl_with_account a (requestLogRowWithBoundedPrompt row i)
                 | None => requestLogRowWithBoundedPrompt row i end) = None) as Hrow.
  { intros account row i Hn. unfold requestLogRowWithBoundedPrompt.
    destruct account; by repeat case_match. }
  intros [account row i now ts_now db1 db2 Hn H|account row i now db1 db2 Hn H] Hok.
  - unfold writeHotPath in H. destruct (String.eqb _ "").
    + injection H as <-. simpl. apply insert_log_ordinals; [by apply Hrow|done].
    + destruct (bill_attempt _ _ _ _ _); [|done]. injection H as <-.
      apply insert_log_ordinals; [by apply Hrow|done].
  - unfold writeRequestLogWithIdentity in H. cbv zeta in H.
    destruct (_ && _); [destruct (insertProviderIdentitySnapshotTx _ _ _); [|done]|];
      injection H as <-; (apply insert_log_ordinals; [by apply Hrow|done]).
Qed.

(** The attempt ordinals of every request are consecutive: from an empty
    log, after any sequence of committed writes, hot path or fallback, the rows of
    each account and request carry 0, 1, 2, ... in the order they were written, so no
    two attempts of a request share an ordinal. *)
Theorem attempt_ordinals_consecutive {GL : GoLib} {JC : JsonColumns} (l : Ledger) (db : HotDB) :
  rtc log_step (mkHotDB l []) db -> ordinals_ok (hd_log db).
Proof.
  intros Hs. remember (mkHotDB l []) as db0 eqn:E.
  assert (ordinals_ok (hd_log db0)) as Hok by (subst; intros a q; done).
  clear E. induction Hs as [|db1 db2 db3 H1 _ IH]; [done|]. by eapply IH, log_step_ordinals.
Qed.

Lemma attempt_ordinals_consecutive_witness :
  map rl_AttemptN (hd_log (HotPathSample.second 1 1)) = [Some 0; Some 1]
  /\ ordinals_ok (hd_log (HotPathSample.second 1 1)).
Proof.
  split; [vm_compute; reflexivity|].
  apply (attempt_ordinals_consecutive empty_ledger).
  apply (rtc_l _ _ HotPathSample.first).
  - apply (log_hot None (HotPathSample.row 0) (HotPathSample.input 0) Sample.now Sample.now);
      [reflexivity|vm_compute; reflexivity].
  - apply rtc_once.
    apply (log_hot None (HotPathSample.row 1) (HotPathSample.input 1) Sample.now Sample.now);
      [reflexivity|vm_compute; reflexivity].
Defined.
