(* ===== verification/Billing.v ===== *)
(** * The billing database

    Puts the components together: the verdict store of Verdict over the ledger of
    Ledger, with the evidence tables ([settlement_route_snapshots],
    [settlement_attempt_outputs]) both read. Models the evidence loaders of
    [phase4-coordinator/internal/billing/settlement_receipts.go], discharges the
    interface [BillingTables] with the resync of Resync, and proves the end-to-end
    property of the settlement pipeline. *)

From S2P Require Import Prelude Receipt Verdict Formula Ledger Resync Settlement.

(** ** Evidence tables *)

(** A row of [settlement_route_snapshots]: the snapshot as it is decoded from its
    columns, and the stored digest. *)
Record SnapshotRow := mkSnapshotRow { sn_snapshot : RouteSnapshot; sn_digest : string }.

(** A row of [settlement_attempt_outputs]. *)
Record OutputRow := mkOutputRow {
  ou_id : SettlementReceiptIdentity;
  ou_terminal_state : string;
  ou_terminal_state_ts_unix_ms : Z;
  ou_output_available : bool;
  ou_output_prefix_start_byte : Z;
  ou_output_prefix_end_byte : Z;
  ou_output_hash : option string;
  ou_usage_hash : string;
  ou_usage_canonical_json : string;
  ou_usage_source : string;
  ou_overlapping_or_duplicate : bool;
}.

(** The tables beside the verdicts. The three copies the ledger queries join on
    are views of the tables here. *)
Record Tables := mkTables {
  tb_ledger : Ledger;
  tb_snapshots : list SnapshotRow;
  tb_outputs : list OutputRow;
}.

Section Billing.
Context {GL : GoLib} {JC : JsonColumns}.

Definition snapshot_id (r : RouteSnapshot) : SettlementReceiptIdentity :=
  mkId (rs_AccountScope r) (rs_RequestID r) (rs_AttemptN r) (rs_ProviderID r).

(** The stored digest must be the recomputed one. *)
Definition loadSettlementRouteSnapshotConn (rows : list SnapshotRow)
    (id : SettlementReceiptIdentity) : option (RouteSnapshot * string) :=
  row ← List.find (fun x => bool_decide (snapshot_id (sn_snapshot x) = id)) rows;
  '(computed, _) ← snapshot_Digest (sn_snapshot row);
  if String.eqb (sn_digest row) computed then Some (sn_snapshot row, computed) else None.

Definition loadSettlementAttemptOutputConn (rows : list OutputRow)
    (id : SettlementReceiptIdentity) : option settlementAttemptEvidence :=
  row ← List.find (fun x => bool_decide (ou_id x = id)) rows;
  usage ← json_usage (ou_usage_canonical_json row);
  Some (mkAttempt (ou_terminal_state row) (ou_terminal_state_ts_unix_ms row)
    (ou_output_available row) (ou_output_prefix_start_byte row) (ou_output_prefix_end_byte row)
    (default "" (ou_output_hash row)) (ou_usage_hash row) usage (ou_usage_source row)
    (ou_overlapping_or_duplicate row)).

Definition loadSettlementEvidenceConn (tb : Tables) (id : SettlementReceiptIdentity)
    : option settlementEvidence :=
  '(route, routeHash) ← loadSettlementRouteSnapshotConn (tb_snapshots tb) id;
  attempt ← loadSettlementAttemptOutputConn (tb_outputs tb) id;
  Some (mkEvidence route routeHash attempt
    (Int64.add (at_TerminalStateTSUnixMS attempt)
       (Int64.mul (rs_PendingDeadlineSeconds route) 1000))).

(** ** The joined views *)

Definition srv_row (s : SettlementReceiptState) : VerdictRow :=
  let r := ev_route (st_evidence s) in
  mkVerdictRow (SettlementAccountScopeHash (id_AccountScope (st_id s))) (id_RequestID (st_id s))
    (id_AttemptN (st_id s)) (id_ProviderID (st_id s)) (ev_routeHash (st_evidence s)) (rs_Mode r)
    (rs_PolicyVersion r) (st_ReceiptResult s) (st_Closed s) (st_Outcome s) (st_Reason s).

Definition srs_row (x : SnapshotRow) : RouteSnapshotRow :=
  let r := sn_snapshot x in
  mkRouteSnapshotRow (rs_AccountScope r) (rs_RequestID r) (rs_AttemptN r) (rs_ProviderID r)
    (sn_digest x) (rs_Mode r) (rs_PolicyVersion r).

Definition sao_row (x : OutputRow) : AttemptOutputRow :=
  mkAttemptOutputRow (id_AccountScope (ou_id x)) (id_RequestID (ou_id x)) (id_AttemptN (ou_id x))
    (id_ProviderID (ou_id x)) (ou_usage_canonical_json x) (ou_overlapping_or_duplicate x).

(** The ledger as the queries see it. *)
Definition view (t : verdict_table) (tb : Tables) : Ledger :=
  let l := tb_ledger tb in
  mkLedger (lrc l) (loc l) (lpr l) (lqr l) (map srs_row (tb_snapshots tb)) (map srv_row t)
    (map sao_row (tb_outputs tb)) (runs l) (next_lrc l) (next_loc l) (next_lpr l) (lpis l)
    (next_lpis l) (lcs l).

Definition with_ledger (l : Ledger) (tb : Tables) : Tables :=
  mkTables l (tb_snapshots tb) (tb_outputs tb).

(** [time.Now().UTC().Format(time.RFC3339Nano)] of a clock reading. *)
Variable format_time : Z -> string.

(** The resync over these tables: the ledger part is written back, the mark on the
    verdict row is returned. *)
Definition sync_tables (clock : Z) (t : verdict_table) (tb : Tables) (req : string) (att : Z)
    (prov : string) : option (Tables * option (string * string)) :=
  let l := view t tb in
  decision ← sync_decision l req att prov;
  match decision with
  | SyncNone => Some (with_ledger l tb, None)
  | SyncBill requestCreditID result =>
      l' ← sync_bill requestCreditID result (format_time clock) l;
      Some (with_ledger l' tb, None)
  | SyncQuarantine requestCreditID accountScopeHash reason =>
      l' ← markVerifiedReceiptCacheQuarantinedTx requestCreditID reason (format_time clock) l;
      Some (with_ledger l' tb, Some (accountScopeHash, reason))
  end.

(** ** The interface is discharged *)

Lemma mark_srv_rows t req att prov hash why :
  map srv_row (markSettlementReceiptCacheQuarantined t (hash, req, att, prov) why)
  = update_where (fun v => String.eqb (srv_account_scope_hash v) hash
      && String.eqb (srv_request_id v) req && (srv_attempt_n v =? att)
      && String.eqb (srv_provider_id v) prov)
    (fun v => mkVerdictRow (srv_account_scope_hash v) (srv_request_id v) (srv_attempt_n v)
       (srv_provider_id v) (srv_route_snapshot_digest v) (srv_route_snapshot_mode v)
       (srv_route_snapshot_policy_version v) SettlementReceiptResultInvalid true
       SettlementOutcomeQuarantined why) (map srv_row t).
Proof.
  unfold markSettlementReceiptCacheQuarantined, update_where. rewrite !map_map. apply map_ext.
  intros s. unfold row_is.
  assert (bool_decide (key_of (st_id s) = (hash, req, att, prov))
    = (String.eqb (srv_account_scope_hash (srv_row s)) hash
       && String.eqb (srv_request_id (srv_row s)) req && (srv_attempt_n (srv_row s) =? att)
       && String.eqb (srv_provider_id (srv_row s)) prov)) as ->.
  { unfold key_of. simpl. case_bool_decide as E.
    - injection E as <- <- <- <-. by rewrite !String.eqb_refl, Z.eqb_refl.
    - symmetry. apply not_true_is_false. intros Hb. bool_hyps. apply E.
      repeat match goal with H : String.eqb _ _ = true |- _ => apply String.eqb_eq in H end.
      f_equal; [f_equal; [f_equal|]|]; [done|done|lia|done]. }
  by destruct (_ && _ && _ && _).
Qed.

(** The resync over the tables is the resync of the joined view: the same ledger,
    and the verdict rows marked alike. *)
Lemma sync_tables_view clock t tb req att prov tb' mark :
  sync_tables clock t tb req att prov = Some (tb', mark) ->
  syncVerifiedReceiptLedgerCreditForAttemptTx req att prov (format_time clock) (view t tb)
  = Some (view (mark_synced t req att prov mark) tb', default "" (snd <$> mark)).
Proof.
  unfold sync_tables, syncVerifiedReceiptLedgerCreditForAttemptTx. cbv zeta.
  destruct (sync_decision _ _ _ _) as [[|id result|id hash why]|]; [..|done]; cbn [mbind option_bind].
  - by intros [= <- <-].
  - destruct (sync_bill _ _ _ _) as [l'|] eqn:E; [|done]. cbn [mbind option_bind]. intros [= <- <-].
    unfold sync_bill in E. destruct (update_money _ _ _); [|done]. simpl in E.
    destruct (update_operator _ _ _); [|done]. by injection E as <-.
  - destruct (markVerifiedReceiptCacheQuarantinedTx _ _ _ _) as [l'|] eqn:E; [|done].
    cbn [mbind option_bind]. intros [= <- <-].
    unfold markVerifiedReceiptCacheQuarantinedTx in E. destruct (update_money _ _ _); [|done].
    simpl in E. destruct (update_operator _ _ _); [|done]. injection E as <-.
    unfold markSettlementReceiptCacheQuarantinedTx, mark_synced, view. simpl.
    by rewrite mark_srv_rows.
Qed.

Lemma sync_tables_marks clock t tb req att prov tb' hash why :
  sync_tables clock t tb req att prov = Some (tb', Some (hash, why)) ->
  why <> "" /\ exists s, s ∈ t /\ key_of (st_id s) = (hash, req, att, prov)
    /\ st_Closed s = true /\ st_Outcome s = SettlementOutcomeVerified.
Proof.
  unfold sync_tables, sync_decision. cbv zeta.
  destruct (sync_rows _ _ _ _) as [|[[c h] u] tl] eqn:Er; [done|].
  destruct (json_usage u) as [usage|]; [|done]. cbn [mbind option_bind].
  destruct (sync_rates _ _ _) as [[reason|[cached rate]]|] eqn:Es; [..|done]; cbn [mbind option_bind].
  2:{ by destruct (sync_bill _ _ _ _). }
  destruct (markVerifiedReceiptCacheQuarantinedTx _ _ _ _); [|done]. intros [= _ <- <-].
  split; [apply sync_rates_reason in Es as [Hin _]; set_solver|].
  destruct (sync_rows_elem (view t tb) req att prov c h u) as (_ & Hc & _ & version & v & _ & _ & _ & Hv & Hvv & _);
    [rewrite Er; left|].
  apply elem_of_map in Hv as (s & Hs & ->). exists s. split; [done|].
  unfold sync_verdict, sync_credit in Hvv, Hc. simpl in Hvv. bool_hyps.
  repeat match goal with H : String.eqb _ _ = true |- _ => apply String.eqb_eq in H end.
  split; [|done]. unfold key_of. f_equal; [f_equal; [f_equal|]|]; [done|congruence|lia|congruence].
Qed.

#[global] Instance billing_tables : BillingTables Tables := {|
  evidence_for := loadSettlementEvidenceConn;
  sync_attempt := sync_tables;
  sync_marks_verified := sync_tables_marks;
|}.
End Billing.

(** The ledger invariant does not look at the joined views. *)
Lemma view_ok {GL : GoLib} t tb : ledger_ok (tb_ledger tb) -> ledger_ok (view t tb).
Proof. intros []. by split. Qed.

(** ** From a settled credit back to a genuine receipt *)

Lemma verified_attempt_inv l r :
  verified_attempt l r = true ->
  exists hash v, lrc_settlement_account_scope_hash r = Some hash /\ v ∈ srv l
    /\ srv_account_scope_hash v = hash /\ srv_request_id v = lrc_request_id r
    /\ srv_attempt_n v = lrc_attempt_n r /\ srv_provider_id v = lrc_provider_id r
    /\ srv_closed v = true /\ srv_settlement_outcome v = SettlementOutcomeVerified.
Proof.
  unfold verified_attempt. destruct (lrc_settlement_account_scope_hash r) as [hash|]; [|done].
  destruct (lrc_settlement_policy_version r) as [version|]; [|done].
  rewrite existsb_elem. intros (s & _ & Hs). apply existsb_elem in Hs as (v & Hv & Hs).
  apply existsb_elem in Hs as (o & _ & Hs). bool_hyps.
  repeat match goal with H : String.eqb _ _ = true |- _ => apply String.eqb_eq in H end.
  exists hash, v. split_and!; [done|done|done|congruence|lia|congruence|done|done].
Qed.

(** Claim C40. No enforced credit is settled without a genuine receipt. Take any
    interleaving of receipt ingestions, expiries and hot-path writes from an empty
    verdict table, and a settlement run on the database it leaves. If the run settles
    a credit whose policy mode is enforce, then the verdict table holds a closed
    verified row for the credit's account scope hash, request, attempt and provider,
    and that row rests on a receipt that was genuine (well formed, canonical, signed by
    the key of the recorded route snapshot, in time, matching the recorded output and
    usage) for the evidence recorded with the row. *)
Theorem enforced_settlement_needs_genuine_receipt {GL : GoLib} {JC : JsonColumns}
    (format_time : Z -> string) (group_order : list string -> list string)
    (cfg : SettlementConfig) (ws we now : string) (tb0 : Tables) (ops : list VerdictOp)
    (l' : Ledger) (i : nat) (r r' : CreditRow) :
  let st := verdict_exec (BT := billing_tables format_time) (mkStore [] tb0 []) ops in
  let l := view (verdicts st) (ledger st) in
  (forall ps, group_order ps ≡ₚ remove_dups ps) ->
  ledger_ok l -> time_text ws -> time_text we ->
  RunSettlement group_order cfg ws we now l = Some l' ->
  lrc l !! i = Some r -> lrc l' !! i = Some r' ->
  lrc_settled r = false -> lrc_settled r' = true -> lrc_settlement_policy_mode r = "enforce" ->
  exists s header pubkey t, s ∈ verdicts st
    /\ lrc_settlement_account_scope_hash r = Some (SettlementAccountScopeHash (id_AccountScope (st_id s)))
    /\ id_RequestID (st_id s) = lrc_request_id r /\ id_AttemptN (st_id s) = lrc_attempt_n r
    /\ id_ProviderID (st_id s) = lrc_provider_id r
    /\ st_Closed s = true /\ st_Outcome s = SettlementOutcomeVerified
    /\ genuine (verify_input (st_id s) header pubkey false (st_ReceivedAtUnixMS s) (st_evidence s) false) t.
Proof.
  intros st l Hperm Hok Hws Hwe Hrun Hr Hr' Hs Hs' Hm.
  destruct (run_settles_soundly group_order cfg ws we now l l' i r r' Hperm Hok Hws Hwe Hrun Hr Hr')
    as (_ & _ & _ & Hsound).
  destruct (Hsound Hs Hs') as (_ & _ & Hpol & _).
  unfold policy_allows in Hpol. rewrite Hm in Hpol. simpl in Hpol.
  apply verified_attempt_inv in Hpol as (hash & v & Hh & Hv & E1 & E2 & E3 & E4 & Hc & Ho).
  apply elem_of_map in Hv as (s & Hin & ->).
  destruct (exec_table (BT := billing_tables format_time) (mkStore [] tb0 []) ops) as (_ & _ & Hsnd);
    [constructor|]. specialize (Hsnd (Forall_nil_2 _)). rewrite Forall_forall in Hsnd.
  destruct (Hsnd s Hin) as [_ Hgen]. destruct (Hgen (or_introl Ho)) as (_ & header & pubkey & t & Hg & _).
  exists s, header, pubkey, t. simpl in *. split_and!; try done. by rewrite Hh, E1.
Qed.

(** ** An enforced attempt, from its receipt to its settlement *)

#[local] Existing Instance ReceiptSample.sample_lib.

Module BillingSample.
Definition columns : JsonColumns := {|
  json_usage s := if String.eqb s "{usage}" then Some ReceiptSample.usage else None;
  json_rate_card _ := None;
|}.
#[local] Existing Instance columns.
Definition fmt (_ : Z) : string := Sample.now.
Definition credit : HotPathInput :=
  mkHotPathInput "req" 0 "assigned-1" "prov" "llama" 200 true "2026-07-14T10:00:00.000000000Z"
    (Some 12) None (Some 12) None (Some 40) None "" "none" "" "" 1
    (mkRateCardEntry 500000000 0 1500000000 false) 1000000 8500 ReceiptSample.hash64 "enforce" "v1".
Definition tables : Tables :=
  mkTables (default empty_ledger (creditAttemptTx credit Sample.now empty_ledger))
    [mkSnapshotRow ReceiptSample.route ReceiptSample.hash64]
    [mkOutputRow VerdictSample.id "normal_done" 1001000 true 0 5 (Some ReceiptSample.hash64)
       ReceiptSample.hash64 "{usage}" UsageSourceCoordinatorObserved false].
Definition ops : list (VerdictOp (L := Tables)) :=
  [OpMissing VerdictSample.id 1001500 0;
   OpIngest VerdictSample.id ReceiptSample.header ReceiptSample.pubkey 1002000 0].
Abbreviation st := (verdict_exec (BT := billing_tables fmt) (mkStore [] tables []) ops).
Abbreviation ledger := (view (verdicts st) (Verdict.ledger st)).
Definition settled : Ledger :=
  default empty_ledger (RunSettlement remove_dups Sample.cfg Sample.ws Sample.we Sample.now ledger).
End BillingSample.

#[local] Existing Instance BillingSample.columns.

Lemma billing_sample_ok : ledger_ok BillingSample.ledger.
Proof.
  assert (ledger_ok (tb_ledger BillingSample.tables)) as Hok.
  { apply (creditAttemptTx_ok BillingSample.credit Sample.now empty_ledger);
      [vm_compute; reflexivity|apply empty_ledger_ok]. }
  assert (exists why, syncVerifiedReceiptLedgerCreditForAttemptTx "req" 0 "prov" Sample.now
    (view (verdicts BillingSample.st) BillingSample.tables) = Some (BillingSample.ledger, why))
    as [why [E|(id & f & g & Hc)]%sync_frame]; [eexists; vm_compute; reflexivity|..].
  - rewrite E. apply view_ok, Hok.
  - apply (credit_rewrite_ok _ _ _ _ _ Hc). apply view_ok, Hok.
Qed.

Lemma enforced_settlement_needs_genuine_receipt_witness :
  map lrc_gross_credits (lrc BillingSample.ledger) = [57000]
  /\ exists s header pubkey t, s ∈ verdicts BillingSample.st /\ st_Outcome s = SettlementOutcomeVerified
     /\ genuine (verify_input (st_id s) header pubkey false (st_ReceivedAtUnixMS s) (st_evidence s) false) t.
Proof.
  split; [vm_compute; reflexivity|]. pose proof billing_sample_ok as Hok.
  assert (exists r, lrc BillingSample.ledger !! 0%nat = Some r /\ lrc_settled r = false
    /\ lrc_settlement_policy_mode r = "enforce") as (r & Hr & Hrs & Hrm).
  { eexists. split; [vm_compute; reflexivity|]. split; reflexivity. }
  assert (exists r', lrc BillingSample.settled !! 0%nat = Some r' /\ lrc_settled r' = true)
    as (r' & Hr' & Hrs').
  { eexists. split; [vm_compute; reflexivity|]. reflexivity. }
  destruct (enforced_settlement_needs_genuine_receipt BillingSample.fmt remove_dups Sample.cfg Sample.ws
    Sample.we Sample.now BillingSample.tables BillingSample.ops BillingSample.settled 0 r r')
    as (s & header & pubkey & t & H1 & _ & _ & _ & _ & _ & H2 & H3).
  - reflexivity.
  - exact Hok.
  - vm_compute. reflexivity.
  - vm_compute. reflexivity.
  - vm_compute. reflexivity.
  - exact Hr.
  - exact Hr'.
  - exact Hrs.
  - exact Hrs'.
  - exact Hrm.
  - exists s, header, pubkey, t. exact (conj H1 (conj H2 H3)).
Defined.
