(* ===== verification/Finality.v ===== *)
(** * Settlement finality of a request

    Models [phase4-coordinator/internal/billing/settlement_finality.go]: the
    answer the gateway polls for, folding the verdicts of a request's attempts
    into one outcome, and combining several internal requests of one external
    request id. Expired pending verdicts are closed on the way
    ([RecordMissingSettlementReceipt], one transaction each).

    The usage join of [requestSettlementUsage] (attempt outputs with ledger
    credits) is an argument: the joined row, or none. *)

From S2P Require Import Prelude Receipt Verdict.

Definition SettlementOutcomeOverlapBlockedTerminal : string := "overlap_blocked_terminal".
Definition externalRequestFinalityLookupSkewMS : Z := 300000.

Record RequestSettlementFinality := mkFinality {
  fi_RequestID : string;
  fi_PolicyVersion : string;
  fi_Mode : string;
  fi_Outcome : string;
  fi_ReceiptResult : string;
  fi_Reason : string;
  fi_Closed : bool;
  fi_PendingDeadlineUnixMS : Z;
  fi_PromptTokens : Z;
  fi_CompletionTokens : Z;
  fi_TotalTokens : Z;
  fi_TokenSource : string;
  fi_VerifiedAttempts : Z;
  fi_PendingAttempts : Z;
  fi_QuarantinedAttempts : Z;
  fi_ZeroSettledAttempts : Z;
  fi_OverlappingBlockedTokens : Z;
}.

Record requestSettlementVerdictRow := mkVRow {
  vr_attemptN : Z;
  vr_providerID : string;
  vr_receiptResult : string;
  vr_outcome : string;
  vr_reason : string;
  vr_closed : bool;
  vr_deadline : Z;
  vr_policyVersion : string;
  vr_mode : string;
}.

Definition minPositiveDeadline (current candidate : Z) : Z :=
  if candidate <=? 0 then current
  else if (current <=? 0) || (candidate <? current) then candidate
  else current%bool.

(** ** Usage of a verified attempt *)

(** One row of the join of [settlement_attempt_outputs] and
    [ledger_request_credits]; [uj_usage] is the decoded usage JSON. *)
Record UsageJoin := mkJoin {
  uj_usage : option SettlementUsage;
  uj_overlap : bool;
  uj_prompt : option Z;
  uj_chargedPrompt : option Z;
  uj_completion : option Z;
}.

Definition int64FromNull (v : option Z) : Z := default 0 v.
Definition chargedPromptTokensFromLedger (charged prompt : option Z) : Z :=
  match charged with Some c => c | None => int64FromNull prompt end.

(** [SettlementUsage.Validate] *)
Definition usage_Validate (u : SettlementUsage) : bool :=
  forallb (fun v => 0 <=? v)
    [BillableInputTokens u; BillableOutputTokens u; DeliveredOutputBytes u;
     ObservedInputTokens u; ObservedOutputTokens u].

Definition requestSettlementUsage (joined : option UsageJoin) : option (SettlementUsage * bool) :=
  j ← joined;
  usage ← j.(uj_usage);
  let out := mkUsage (chargedPromptTokensFromLedger j.(uj_chargedPrompt) j.(uj_prompt))
               (int64FromNull j.(uj_completion)) (DeliveredOutputBytes usage)
               (ObservedInputTokens usage) (ObservedOutputTokens usage) in
  if usage_Validate out then Some (out, j.(uj_overlap)) else None.

(** ** The fold over the attempts *)

(** The counters of the finality while the loop runs, and the first terminal
    refund. *)
Record Tally := mkTally {
  ta_deadline : Z;
  ta_prompt : Z;
  ta_completion : Z;
  ta_verified : Z;
  ta_pending : Z;
  ta_quarantined : Z;
  ta_zero : Z;
  ta_overlap : Z;
  ta_refund : option (string * string * string); (* outcome, receipt result, reason *)
}.

Definition tally0 : Tally := mkTally 0 0 0 0 0 0 0 0 None.

Definition tally_pending (t : Tally) (deadline : Z) : Tally :=
  mkTally (minPositiveDeadline t.(ta_deadline) deadline) t.(ta_prompt) t.(ta_completion)
    t.(ta_verified) (Int64.add t.(ta_pending) 1) t.(ta_quarantined) t.(ta_zero) t.(ta_overlap)
    t.(ta_refund).

Definition refund_or (t : Tally) (row : requestSettlementVerdictRow)
    : option (string * string * string) :=
  match t.(ta_refund) with
  | Some r => Some r
  | None => Some (row.(vr_outcome), row.(vr_receiptResult), row.(vr_reason))
  end.

Definition finality_with (requestID pv mode outcome result reason : string) (closed : bool)
    (total : Z) (source : string) (t : Tally) : RequestSettlementFinality :=
  mkFinality requestID pv mode outcome result reason closed t.(ta_deadline) t.(ta_prompt)
    t.(ta_completion) total source t.(ta_verified) t.(ta_pending) t.(ta_quarantined) t.(ta_zero)
    t.(ta_overlap).

Section Fold.
Context `{GoLib}.

(** [usage_of attempt provider] is the joined usage row of the attempt. *)
Variable usage_of : Z -> string -> option UsageJoin.

(** One iteration of the loop; [None] is an error. *)
Definition tally_row (t : Tally) (row : requestSettlementVerdictRow) : option Tally :=
  let o := row.(vr_outcome) in
  if String.eqb o SettlementOutcomePending then Some (tally_pending t row.(vr_deadline))
  else if String.eqb o SettlementOutcomeVerified then
    if (row.(vr_closed) && String.eqb row.(vr_receiptResult) SettlementReceiptResultValid)%bool then
      '(u, blocked) ← requestSettlementUsage (usage_of row.(vr_attemptN) row.(vr_providerID));
      if blocked : bool then
        Some (mkTally t.(ta_deadline) t.(ta_prompt) t.(ta_completion) t.(ta_verified) t.(ta_pending)
                t.(ta_quarantined) t.(ta_zero)
                (Int64.add t.(ta_overlap) (Int64.add (BillableInputTokens u) (BillableOutputTokens u)))
                t.(ta_refund))
      else
        Some (mkTally t.(ta_deadline) (Int64.add t.(ta_prompt) (BillableInputTokens u))
                (Int64.add t.(ta_completion) (BillableOutputTokens u))
                (Int64.add t.(ta_verified) 1) t.(ta_pending) t.(ta_quarantined) t.(ta_zero)
                t.(ta_overlap) t.(ta_refund))
    else Some (tally_pending t row.(vr_deadline))
  else if String.eqb o SettlementOutcomeQuarantined then
    Some (mkTally t.(ta_deadline) t.(ta_prompt) t.(ta_completion) t.(ta_verified) t.(ta_pending)
            (Int64.add t.(ta_quarantined) 1) t.(ta_zero) t.(ta_overlap) (refund_or t row))
  else if String.eqb o SettlementOutcomeZeroSettled then
    Some (mkTally t.(ta_deadline) t.(ta_prompt) t.(ta_completion) t.(ta_verified) t.(ta_pending)
            t.(ta_quarantined) (Int64.add t.(ta_zero) 1) t.(ta_overlap) (refund_or t row))
  else Some (tally_pending t row.(vr_deadline)).

(** The loop: [inl] after the last row, [inr] on the early return for a row of
    another policy snapshot. *)
Fixpoint tally_rows (pv mode : string) (rows : list requestSettlementVerdictRow) (t : Tally)
    : option (Tally + Tally) :=
  match rows with
  | [] => Some (inl t)
  | row :: rows =>
      if (negb (String.eqb row.(vr_policyVersion) pv) || negb (String.eqb row.(vr_mode) mode))%bool
      then Some (inr (tally_pending t row.(vr_deadline)))
      else t' ← tally_row t row; tally_rows pv mode rows t'
  end.

(** What follows the loop. *)
Definition conclude (requestID pv mode : string) (t : Tally) : RequestSettlementFinality :=
  let fin := finality_with requestID pv mode in
  if 0 <? t.(ta_pending) then
    fin SettlementOutcomePending SettlementReceiptResultInconclusive "receipt_verdict_pending"
      false 0 "" t
  else if 0 <? t.(ta_verified) then
    fin SettlementOutcomeVerified SettlementReceiptResultValid "verified_settlement" true
      (Int64.add t.(ta_prompt) t.(ta_completion)) UsageSourceCoordinatorObserved t
  else
  match t.(ta_refund) with
  | Some (outcome, result, reason) => fin outcome result reason true 0 "" t
  | None =>
      if 0 <? t.(ta_overlap) then
        fin SettlementOutcomeOverlapBlockedTerminal SettlementReceiptResultValid
          "overlap_blocked_terminal" true 0 UsageSourceCoordinatorObserved t
      else
        fin SettlementOutcomePending SettlementReceiptResultInconclusive "no_settlement_candidate"
          false 0 "" t
  end.

Definition mixed_policy (requestID pv mode : string) (t : Tally) : RequestSettlementFinality :=
  finality_with requestID pv mode SettlementOutcomePending SettlementReceiptResultInconclusive
    "mixed_settlement_policy_snapshot" false 0 "" t.

(** The fold of non-empty verdict rows into a finality; [None] is an error. *)
Definition fold_finality (requestID : string) (rows : list requestSettlementVerdictRow)
    : option RequestSettlementFinality :=
  match rows with
  | [] => None
  | first :: _ =>
      let pv := first.(vr_policyVersion) in
      let mode := first.(vr_mode) in
      r ← tally_rows pv mode rows tally0;
      Some (match r with
            | inl t => conclude requestID pv mode t
            | inr t => mixed_policy requestID pv mode t
            end)
  end.
End Fold.

(** ** One request *)

Section Request.
Context {GL : GoLib} {L : Type} {BT : BillingTables L}.

(** The usage join over the ledger: scope, request, attempt, provider. *)
Variable usage_join : L -> string -> string -> Z -> string -> option UsageJoin.

Definition vrow_of (s : SettlementReceiptState) : requestSettlementVerdictRow :=
  mkVRow s.(st_id).(id_AttemptN) s.(st_id).(id_ProviderID) s.(st_ReceiptResult) s.(st_Outcome)
    s.(st_Reason) s.(st_Closed) s.(st_PendingDeadlineUnixMS)
    s.(st_evidence).(ev_route).(rs_PolicyVersion) s.(st_evidence).(ev_route).(rs_Mode).

(** [ORDER BY attempt_n ASC, id ASC]: a stable insertion by attempt. *)
Fixpoint insert_by_attempt (r : requestSettlementVerdictRow) (l : list requestSettlementVerdictRow)
    : list requestSettlementVerdictRow :=
  match l with
  | [] => [r]
  | x :: l' => if r.(vr_attemptN) <? x.(vr_attemptN) then r :: l else x :: insert_by_attempt r l'
  end.

Definition requestSettlementVerdicts (t : verdict_table) (accountScope requestID : string)
    : list requestSettlementVerdictRow :=
  fold_left (fun acc r => insert_by_attempt r acc)
    (map vrow_of (List.filter (fun s =>
       bool_decide (SettlementAccountScopeHash s.(st_id).(id_AccountScope)
                    = SettlementAccountScopeHash accountScope)
       && String.eqb s.(st_id).(id_RequestID) requestID)%bool t)) [].

Definition expired_row (now : Z) (row : requestSettlementVerdictRow) : bool :=
  (String.eqb row.(vr_outcome) SettlementOutcomePending && negb row.(vr_closed)
   && (0 <? row.(vr_deadline)) && (row.(vr_deadline) <=? now))%bool.

(** The expiry loop: the store after the transactions that committed, whether
    one failed, and whether any ran. *)
Fixpoint expire_rows (st : Store (L := L)) (accountScope requestID : string) (now clock : Z)
    (rows : list requestSettlementVerdictRow) (changed : bool) : Store (L := L) * option bool :=
  match rows with
  | [] => (st, Some changed)
  | row :: rows =>
      if expired_row now row then
        match RecordMissingSettlementReceipt st
                (mkId accountScope requestID row.(vr_attemptN) row.(vr_providerID)) now clock with
        | None => (st, None)
        | Some (st', _) => expire_rows st' accountScope requestID now clock rows true
        end
      else expire_rows st accountScope requestID now clock rows changed
  end.

(** [Some (Some f)] is found, [Some None] not found, [None] an error. *)
Definition RequestSettlementFinality_for (st : Store (L := L)) (accountScope requestID : string)
    (nowUnixMS clock : Z) : Store (L := L) * option (option RequestSettlementFinality) :=
  if (String.eqb accountScope "" || String.eqb requestID "")%bool then (st, None)
  else
    let now := if nowUnixMS =? 0 then clock else nowUnixMS in
    match requestSettlementVerdicts st.(verdicts) accountScope requestID with
    | [] => (st, Some None)
    | rows =>
        match expire_rows st accountScope requestID now clock rows false with
        | (st', None) => (st', None)
        | (st', Some changed) =>
            let rows := if changed : bool
                        then requestSettlementVerdicts st'.(verdicts) accountScope requestID
                        else rows in
            match rows with
            | [] => (st', Some None)
            | _ => (st', Some <$> fold_finality (usage_join st'.(ledger) accountScope requestID)
                                     requestID rows)
            end
        end
    end.
End Request.

(** ** External requests *)

Definition has_terminal_refund (f : RequestSettlementFinality) : bool :=
  (f.(fi_Closed) && negb (String.eqb f.(fi_Outcome) SettlementOutcomeVerified)
   && ((0 <? f.(fi_QuarantinedAttempts)) || (0 <? f.(fi_ZeroSettledAttempts))))%bool.

(** One iteration of the aggregation loop; the second component is the running
    total of tokens. *)
Definition add_finality (acc : Tally * Z) (f : RequestSettlementFinality) : Tally * Z :=
  let '(t, total) := acc in
  (mkTally (minPositiveDeadline t.(ta_deadline) f.(fi_PendingDeadlineUnixMS))
     (Int64.add t.(ta_prompt) f.(fi_PromptTokens))
     (Int64.add t.(ta_completion) f.(fi_CompletionTokens))
     (Int64.add t.(ta_verified) f.(fi_VerifiedAttempts))
     (Int64.add t.(ta_pending) f.(fi_PendingAttempts))
     (Int64.add t.(ta_quarantined) f.(fi_QuarantinedAttempts))
     (Int64.add t.(ta_zero) f.(fi_ZeroSettledAttempts))
     (Int64.add t.(ta_overlap) f.(fi_OverlappingBlockedTokens))
     (match t.(ta_refund) with
      | Some r => Some r
      | None => if has_terminal_refund f
                then Some (f.(fi_Outcome), f.(fi_ReceiptResult), f.(fi_Reason)) else None
      end),
   Int64.add total f.(fi_TotalTokens)).

Fixpoint add_finalities (pv mode : string) (fs : list RequestSettlementFinality) (acc : Tally * Z)
    : (Tally * Z) + (Tally * Z) :=
  match fs with
  | [] => inl acc
  | f :: fs =>
      if (negb (String.eqb f.(fi_PolicyVersion) pv) || negb (String.eqb f.(fi_Mode) mode))%bool
      then inr (tally_pending acc.1 f.(fi_PendingDeadlineUnixMS), acc.2)
      else add_finalities pv mode fs (add_finality acc f)
  end.

Definition conclude_external (requestID pv mode : string) (acc : Tally * Z)
    : RequestSettlementFinality :=
  let '(t, total) := acc in
  let fin := finality_with requestID pv mode in
  if 0 <? t.(ta_pending) then
    fin SettlementOutcomePending SettlementReceiptResultInconclusive "receipt_verdict_pending"
      false total "" t
  else if 0 <? t.(ta_verified) then
    fin SettlementOutcomeVerified SettlementReceiptResultValid "verified_settlement" true
      total UsageSourceCoordinatorObserved t
  else
  match t.(ta_refund) with
  | Some (outcome, result, reason) => fin outcome result reason true total "" t
  | None =>
      if 0 <? t.(ta_overlap) then
        fin SettlementOutcomeOverlapBlockedTerminal SettlementReceiptResultValid
          "overlap_blocked_terminal" true 0 UsageSourceCoordinatorObserved t
      else
        fin SettlementOutcomePending SettlementReceiptResultInconclusive "no_settlement_candidate"
          false total "" t
  end.

(** [aggregateExternalRequestFinality]; the Go function indexes [finalities[0]],
    so it is called on a non-empty slice. *)
Definition aggregateExternalRequestFinality (externalRequestID : string)
    (fs : list RequestSettlementFinality) : option RequestSettlementFinality :=
  match fs with
  | [] => None
  | first :: _ =>
      let pv := first.(fi_PolicyVersion) in
      let mode := first.(fi_Mode) in
      Some (match add_finalities pv mode fs (tally0, 0) with
            | inl acc => conclude_external externalRequestID pv mode acc
            | inr (t, total) =>
                finality_with externalRequestID pv mode SettlementOutcomePending
                  SettlementReceiptResultInconclusive "mixed_settlement_policy_snapshot" false
                  total "" t
            end)
  end.

(** The downgrade of a closed verified answer when one internal request has no
    verdict yet. *)
Definition demote_missing (f : RequestSettlementFinality) : RequestSettlementFinality :=
  if (String.eqb f.(fi_Outcome) SettlementOutcomeVerified && f.(fi_Closed))%bool then
    mkFinality f.(fi_RequestID) f.(fi_PolicyVersion) f.(fi_Mode) SettlementOutcomePending
      SettlementReceiptResultInconclusive "missing_current_settlement_finality" false
      f.(fi_PendingDeadlineUnixMS) 0 0 0 "" f.(fi_VerifiedAttempts)
      (Int64.add f.(fi_PendingAttempts) 1) f.(fi_QuarantinedAttempts) f.(fi_ZeroSettledAttempts)
      f.(fi_OverlappingBlockedTokens)
  else f.

(** A [request_log] row, in id order; [lg_request] is NULL or the request id. *)
Record LogRow := mkLog {
  lg_account : string;
  lg_request : option string;
  lg_external : string;
  lg_ts : Z;
}.

Definition lookup_floor (notBefore : Z) : Z :=
  let x := Int64.sub notBefore externalRequestFinalityLookupSkewMS in if x <? 0 then 0 else x.

Definition directRequestIDWithinReservationWindow (log : list LogRow)
    (accountID requestID : string) (notBefore : Z) : bool :=
  if notBefore <=? 0 then true
  else existsb (fun r => String.eqb r.(lg_account) accountID
                         && bool_decide (r.(lg_request) = Some requestID)
                         && (lookup_floor notBefore <=? r.(lg_ts)))%bool log.

(** Distinct request ids in the order of their first row. *)
Definition requestIDsForExternalRequest (log : list LogRow) (accountID externalID : string)
    (notBefore : Z) : list string :=
  let hits := List.filter (fun r =>
    String.eqb r.(lg_account) accountID && String.eqb r.(lg_external) externalID
    && match r.(lg_request) with Some q => negb (String.eqb q "") | None => false end
    && ((notBefore <=? 0) || (lookup_floor notBefore <=? r.(lg_ts))))%bool log in
  fold_left (fun acc r => match r.(lg_request) with
    | Some q => if existsb (String.eqb q) acc then acc else acc ++ [q]
    | None => acc
    end) hits [].

Section Account.
Context {GL : GoLib} {L : Type} {BT : BillingTables L}
  (usage_join : L -> string -> string -> Z -> string -> option UsageJoin).

(** The loop over the internal requests: the finalities found and whether one
    is missing; [None] is an error. *)
Fixpoint resolve_internal (st : Store (L := L)) (scope : string) (now clock : Z)
    (ids : list string) (fs : list RequestSettlementFinality) (missing : bool)
    : Store (L := L) * option (list RequestSettlementFinality * bool) :=
  match ids with
  | [] => (st, Some (fs, missing))
  | q :: ids =>
      match RequestSettlementFinality_for usage_join st scope q now clock with
      | (st', None) => (st', None)
      | (st', Some (Some f)) => resolve_internal st' scope now clock ids (fs ++ [f]) missing
      | (st', Some None) => resolve_internal st' scope now clock ids fs true
      end
  end.

Definition RequestSettlementFinalityForAccount (st : Store (L := L)) (log : list LogRow)
    (accountID requestID : string) (now clock notBefore : Z)
    : Store (L := L) * option (option RequestSettlementFinality) :=
  let scope := AccountScopeForSettlement accountID in
  let direct := if 0 <? notBefore
                then directRequestIDWithinReservationWindow log accountID requestID notBefore
                else true in
  let external st :=
    match requestIDsForExternalRequest log accountID requestID notBefore with
    | [] => (st, Some None)
    | ids =>
        match resolve_internal st scope now clock ids [] false with
        | (st', None) => (st', None)
        | (st', Some ([], _)) => (st', Some None)
        | (st', Some (fs, missing)) =>
            (st', (fun f => Some (if missing : bool then demote_missing f else f))
                  <$> aggregateExternalRequestFinality requestID fs)
        end
    end in
  if direct : bool then
    match RequestSettlementFinality_for usage_join st scope requestID now clock with
    | (st', Some None) => external st'
    | other => other
    end
  else external st.
End Account.

(** ** Tallies combine

    The tally of a list of attempts is the combination of the tallies of its
    parts, at the 64-bit width of the counters. *)

Definition combine (a b : Tally) : Tally :=
  mkTally (minPositiveDeadline a.(ta_deadline) b.(ta_deadline))
    (Int64.add a.(ta_prompt) b.(ta_prompt)) (Int64.add a.(ta_completion) b.(ta_completion))
    (Int64.add a.(ta_verified) b.(ta_verified)) (Int64.add a.(ta_pending) b.(ta_pending))
    (Int64.add a.(ta_quarantined) b.(ta_quarantined)) (Int64.add a.(ta_zero) b.(ta_zero))
    (Int64.add a.(ta_overlap) b.(ta_overlap))
    (match a.(ta_refund) with Some r => Some r | None => b.(ta_refund) end).

Lemma minPositive_assoc a b c :
  minPositiveDeadline (minPositiveDeadline a b) c = minPositiveDeadline a (minPositiveDeadline b c).
Proof. unfold minPositiveDeadline. split_ifs; lia. Qed.

Lemma combine_assoc a b c : combine (combine a b) c = combine a (combine b c).
Proof.
  unfold combine. simpl. rewrite !Int64.add_assoc, minPositive_assoc.
  by destruct (ta_refund a), (ta_refund b).
Qed.

(** Counters within the 64-bit range. *)
Definition normal (t : Tally) : Prop :=
  Int64.in_range t.(ta_prompt) /\ Int64.in_range t.(ta_completion) /\
  Int64.in_range t.(ta_verified) /\ Int64.in_range t.(ta_pending) /\
  Int64.in_range t.(ta_quarantined) /\ Int64.in_range t.(ta_zero) /\ Int64.in_range t.(ta_overlap).

Lemma combine_normal a b : normal (combine a b).
Proof. repeat split; apply Int64.wrap_range. Qed.

Lemma tally0_normal : normal tally0.
Proof. repeat split; unfold Int64.min, Int64.max; simpl; lia. Qed.

Lemma combine_tally0_r t : normal t -> combine t tally0 = t.
Proof.
  intros (? & ? & ? & ? & ? & ? & ?). unfold combine. simpl. rewrite !Int64.add_zero_r by done.
  destruct t as [? ? ? ? ? ? ? ? []]; done.
Qed.

Lemma minPositive_zero a b : minPositiveDeadline a (minPositiveDeadline 0 b) = minPositiveDeadline a b.
Proof. unfold minPositiveDeadline. split_ifs; lia. Qed.

Section TallyFacts.
Context (usage_of : Z -> string -> option UsageJoin).

(** What one row adds does not depend on the tally it is added to. *)
Lemma tally_row_combine t row :
  normal t -> tally_row usage_of t row = combine t <$> tally_row usage_of tally0 row.
Proof.
  intros (Hp & Hc & Hv & Hpe & Hq & Hz & Ho). unfold tally_row. cbv zeta.
  repeat match goal with
  | |- context [if ?b then _ else _] => lazymatch type of b with bool => destruct b end
  | |- context [requestSettlementUsage ?j] => destruct (requestSettlementUsage j) as [[? []]|]
  end; simpl; try done; f_equal; unfold combine, tally_pending, refund_or; simpl;
    rewrite ?Int64.add_zero_l_r, ?Int64.add_zero_r, ?minPositive_zero by done; try done;
    by destruct (ta_refund t).
Qed.

Lemma tally_row_normal t row t' : normal t -> tally_row usage_of t row = Some t' -> normal t'.
Proof.
  intros Hn. rewrite (tally_row_combine t row Hn).
  destruct (tally_row usage_of tally0 row); simpl; [|done]. intros [= <-]. apply combine_normal.
Qed.

(** All rows carry the policy version and mode of the finality. *)
Definition uniform (pv mode : string) (rows : list requestSettlementVerdictRow) : Prop :=
  Forall (fun r => r.(vr_policyVersion) = pv /\ r.(vr_mode) = mode) rows.

Lemma tally_rows_cons pv mode row rows t :
  vr_policyVersion row = pv -> vr_mode row = mode ->
  tally_rows usage_of pv mode (row :: rows) t
  = t' ← tally_row usage_of t row; tally_rows usage_of pv mode rows t'.
Proof. intros <- <-. simpl. by rewrite !String.eqb_refl. Qed.

Lemma tally_rows_combine pv mode rows t :
  uniform pv mode rows -> normal t ->
  tally_rows usage_of pv mode rows t
  = r ← tally_rows usage_of pv mode rows tally0;
    match r with inl t' => Some (inl (combine t t')) | inr t' => Some (inr t') end.
Proof.
  intros Hu. revert t. induction Hu as [|row rows [Hpv Hm] Hu IH]; intros t Hn.
  { simpl. by rewrite combine_tally0_r. }
  rewrite !tally_rows_cons by done. rewrite (tally_row_combine t row Hn).
  destruct (tally_row usage_of tally0 row) as [tr|] eqn:Hr; simpl; [|done].
  rewrite (IH (combine t tr)) by apply combine_normal.
  rewrite (IH tr) by (eapply tally_row_normal; [apply tally0_normal|done]).
  destruct (tally_rows _ _ _ rows tally0) as [[t'|t']|]; simpl; [|done|done].
  by rewrite combine_assoc.
Qed.
End TallyFacts.

(** ** What the fold computes *)

Definition row_counts (r : requestSettlementVerdictRow) : bool :=
  (String.eqb r.(vr_outcome) SettlementOutcomeVerified && r.(vr_closed)
   && String.eqb r.(vr_receiptResult) SettlementReceiptResultValid)%bool.
Definition row_quarantined (r : requestSettlementVerdictRow) : bool :=
  String.eqb r.(vr_outcome) SettlementOutcomeQuarantined.
Definition row_zero (r : requestSettlementVerdictRow) : bool :=
  String.eqb r.(vr_outcome) SettlementOutcomeZeroSettled.
(** Every other row is pending: open verdicts, and outcomes it does not know. *)
Definition row_pending (r : requestSettlementVerdictRow) : bool :=
  negb (row_counts r || row_quarantined r || row_zero r)%bool.

Section Exact.
Context (usage_of : Z -> string -> option UsageJoin).

(** The usage of a counted row, if it can be read. *)
Definition row_usage (r : requestSettlementVerdictRow) : option (SettlementUsage * bool) :=
  requestSettlementUsage (usage_of r.(vr_attemptN) r.(vr_providerID)).
Definition row_paid (r : requestSettlementVerdictRow) : bool :=
  (row_counts r && match row_usage r with Some (_, false) => true | _ => false end)%bool.
Definition row_blocked (r : requestSettlementVerdictRow) : bool :=
  (row_counts r && match row_usage r with Some (_, true) => true | _ => false end)%bool.
Definition row_prompt (r : requestSettlementVerdictRow) : Z :=
  match row_usage r with Some (u, _) => BillableInputTokens u | None => 0 end.
Definition row_completion (r : requestSettlementVerdictRow) : Z :=
  match row_usage r with Some (u, _) => BillableOutputTokens u | None => 0 end.
Definition row_refund (r : requestSettlementVerdictRow) : option (string * string * string) :=
  if (row_quarantined r || row_zero r)%bool
  then Some (r.(vr_outcome), r.(vr_receiptResult), r.(vr_reason)) else None.

(** The tally a single row contributes. *)
Definition contribution (r : requestSettlementVerdictRow) : Tally :=
  let b2z (b : bool) := if b then 1 else 0 in
  mkTally (if row_pending r then minPositiveDeadline 0 r.(vr_deadline) else 0)
    (if row_paid r then Int64.wrap (row_prompt r) else 0)
    (if row_paid r then Int64.wrap (row_completion r) else 0)
    (b2z (row_paid r)) (b2z (row_pending r)) (b2z (row_quarantined r)) (b2z (row_zero r))
    (if row_blocked r then Int64.wrap (row_prompt r + row_completion r) else 0)
    (row_refund r).

Lemma outcome_cases o :
  (String.eqb o SettlementOutcomePending = true /\ String.eqb o SettlementOutcomeVerified = false /\
   String.eqb o SettlementOutcomeQuarantined = false /\ String.eqb o SettlementOutcomeZeroSettled = false) \/
  String.eqb o SettlementOutcomePending = false.
Proof.
  destruct (String.eqb o SettlementOutcomePending) eqn:E; [left|by right]. bool_hyps. by subst.
Qed.

Lemma verified_not_refund o :
  String.eqb o SettlementOutcomeVerified = true ->
  String.eqb o SettlementOutcomeQuarantined = false /\ String.eqb o SettlementOutcomeZeroSettled = false.
Proof. intros E. bool_hyps. by subst. Qed.

Lemma quarantined_not_zero o :
  String.eqb o SettlementOutcomeQuarantined = true -> String.eqb o SettlementOutcomeZeroSettled = false.
Proof. intros E. bool_hyps. by subst. Qed.

Lemma tally_row_contribution row t :
  tally_row usage_of tally0 row = Some t -> t = contribution row.
Proof.
  unfold tally_row, contribution, row_paid, row_blocked, row_prompt, row_completion, row_refund,
    row_pending, row_counts, row_quarantined, row_zero, row_usage. cbv zeta.
  set (usage := requestSettlementUsage _).
  destruct (outcome_cases (vr_outcome row)) as [(-> & -> & -> & ->)| ->].
  { intros [= <-]. reflexivity. }
  destruct (String.eqb (vr_outcome row) SettlementOutcomeVerified) eqn:Ev.
  { destruct (verified_not_refund _ Ev) as [-> ->]. cbn [andb].
    destruct (vr_closed row && _)%bool; simpl.
    - destruct usage as [[u []]|]; simpl; [|intros [= <-]; reflexivity|done].
      intros [= <-]. f_equal. apply Int64.wrap_wrap.
    - intros [= <-]. reflexivity. }
  simpl. destruct (String.eqb (vr_outcome row) SettlementOutcomeQuarantined) eqn:Eq.
  { rewrite (quarantined_not_zero _ Eq). intros [= <-]. reflexivity. }
  destruct (String.eqb (vr_outcome row) SettlementOutcomeZeroSettled); intros [= <-]; reflexivity.
Qed.

(** The tally of all rows, as sums. *)
Record tally_is (rows : list requestSettlementVerdictRow) (t : Tally) : Prop := {
  ti_pending : ta_pending t = Int64.wrap (count row_pending rows);
  ti_verified : ta_verified t = Int64.wrap (count row_paid rows);
  ti_quarantined : ta_quarantined t = Int64.wrap (count row_quarantined rows);
  ti_zero : ta_zero t = Int64.wrap (count row_zero rows);
  ti_prompt : ta_prompt t = Int64.wrap (sum_if row_paid row_prompt rows);
  ti_completion : ta_completion t = Int64.wrap (sum_if row_paid row_completion rows);
  ti_overlap : ta_overlap t
    = Int64.wrap (sum_if row_blocked (fun r => row_prompt r + row_completion r) rows);
  ti_refund : ta_refund t = head (omap row_refund rows);
  ti_deadline : (ta_deadline t = 0 \/ exists r, r ∈ rows /\ row_pending r = true /\
                  ta_deadline t = vr_deadline r) /\
                forall r, r ∈ rows -> row_pending r = true -> 0 < vr_deadline r ->
                  0 < ta_deadline t <= vr_deadline r;
}.

Lemma minPositive_cases a b :
  (minPositiveDeadline a b = a /\ (b <= 0 \/ 0 < a <= b)) \/
  (minPositiveDeadline a b = b /\ 0 < b /\ (a <= 0 \/ b < a)).
Proof. unfold minPositiveDeadline. split_ifs; bool_hyps; try (left; lia); right; lia. Qed.

Lemma tally_is_combine row rows t :
  tally_is rows t -> tally_is (row :: rows) (combine (contribution row) t).
Proof.
  intros [H1 H2 H3 H4 H5 H6 H7 H8 [H9 H10]]. constructor; simpl.
  1-7: rewrite ?count_cons, ?sum_if_cons, ?H1, ?H2, ?H3, ?H4, ?H5, ?H6, ?H7, Int64.add_wrap_r.
  1-4: reflexivity.
  1-3: destruct (_ row); [apply Int64.add_wrap_l|reflexivity].
  - rewrite H8. by destruct (row_refund row).
  - set (d := if row_pending row then _ else 0).
    assert (d = 0 \/ (row_pending row = true /\ d = vr_deadline row /\ 0 < d)) as Hd.
    { subst d. destruct (row_pending row); [|by left].
      destruct (minPositive_cases 0 (vr_deadline row)) as [[-> ?]|[-> ?]]; [by left|right; lia]. }
    assert (row_pending row = true -> 0 < vr_deadline row -> d = vr_deadline row) as Hd'.
    { subst d. intros -> ?. destruct (minPositive_cases 0 (vr_deadline row)) as [[-> ?]|[-> ?]]; lia. }
    clearbody d. destruct (minPositive_cases d (ta_deadline t)) as [[-> ?]|[-> ?]].
    + split.
      * destruct Hd as [?|(? & ? & ?)]; [by left|]. right. exists row. split; [by left|auto].
      * intros r [->|Hr]%elem_of_cons Hp Hpos; [specialize (Hd' Hp Hpos); lia|].
        specialize (H10 r Hr Hp Hpos). lia.
    + split.
      * destruct H9 as [?|(r & ? & ? & ?)]; [lia|]. right. exists r. split; [by right|auto].
      * intros r [->|Hr]%elem_of_cons Hp Hpos; [specialize (Hd' Hp Hpos); lia|].
        specialize (H10 r Hr Hp Hpos). lia.
Qed.

Lemma tally_is_nil : tally_is [] tally0.
Proof. constructor; try reflexivity. split; [by left|]. intros r Hr. by apply not_elem_of_nil in Hr. Qed.

Lemma tally_rows_exact pv mode rows t :
  uniform pv mode rows -> tally_rows usage_of pv mode rows tally0 = Some (inl t) -> tally_is rows t.
Proof.
  intros Hu. revert t. induction Hu as [|row rows [Hpv Hm] Hu IH]; intros t Ht.
  { simpl in Ht. simplify_eq. apply tally_is_nil. }
  rewrite tally_rows_cons in Ht by done.
  destruct (tally_row usage_of tally0 row) as [tr|] eqn:Hr; [|done]. simpl in Ht.
  rewrite (tally_rows_combine usage_of pv mode rows tr) in Ht;
    [|done|by eapply tally_row_normal; [apply tally0_normal|]].
  destruct (tally_rows usage_of pv mode rows tally0) as [[t'|]|] eqn:Htl; simplify_eq/=.
  rewrite (tally_row_contribution _ _ Hr). by apply tally_is_combine, IH.
Qed.

(** The loop over rows of one policy reaches the end or fails. *)
Lemma tally_rows_uniform pv mode rows t r :
  uniform pv mode rows -> tally_rows usage_of pv mode rows t = Some r -> exists t', r = inl t'.
Proof.
  intros Hu. revert t. induction Hu as [|row rows [Hpv Hm] Hu IH]; intros t Ht.
  { simpl in Ht. simplify_eq. eauto. }
  rewrite tally_rows_cons in Ht by done.
  destruct (tally_row usage_of t row); simplify_eq/=. eauto.
Qed.

Lemma tally_rows_not_uniform pv mode rows t t' :
  tally_rows usage_of pv mode rows t = Some (inl t') -> uniform pv mode rows.
Proof.
  revert t. induction rows as [|row rows IH]; intros t Ht; [constructor|]. simpl in Ht.
  destruct (negb _ || negb _)%bool eqn:E; [done|]. bool_hyps.
  destruct (tally_row usage_of t row); simplify_eq/=. constructor; [done|]. by eapply IH.
Qed.
End Exact.

(** The refund a tally reports is the verdict of one of its rows. *)
Lemma refund_of_row rows o res reason :
  head (omap row_refund rows) = Some (o, res, reason) ->
  o = SettlementOutcomeQuarantined \/ o = SettlementOutcomeZeroSettled.
Proof.
  induction rows as [|row rows IH]; [done|]. simpl.
  destruct (row_refund row) as [[[o' res'] reason']|] eqn:Hr; [|apply IH].
  intros [= -> -> ->]. unfold row_refund, row_quarantined, row_zero in Hr.
  destruct (_ || _)%bool eqn:E; [|done]. simplify_eq.
  apply orb_true_iff in E as [?|?]; bool_hyps; auto.
Qed.

Lemma refund_exists rows :
  is_Some (head (omap row_refund rows))
  <-> existsb (fun r => row_quarantined r || row_zero r)%bool rows = true.
Proof.
  induction rows as [|row rows IH]; [split; [by intros []|done]|]. simpl. unfold row_refund at 1.
  destruct (row_quarantined row || row_zero row)%bool; simpl; [|exact IH]. split; eauto.
Qed.

(** A row that was refunded. *)
Definition row_refunded (r : requestSettlementVerdictRow) : bool := row_quarantined r || row_zero r.

Lemma first_refund rows :
  head (omap row_refund rows)
  = (fun r => (vr_outcome r, vr_receiptResult r, vr_reason r)) <$> List.find row_refunded rows.
Proof.
  induction rows as [|row rows IH]; [done|]. simpl. unfold row_refund at 1. unfold row_refunded at 1.
  by destruct (row_quarantined row || row_zero row)%bool.
Qed.

(** All attempts carry one policy snapshot. *)
Definition one_policy (rows : list requestSettlementVerdictRow) : Prop :=
  forall r r', r ∈ rows -> r' ∈ rows -> vr_policyVersion r = vr_policyVersion r' /\ vr_mode r = vr_mode r'.

Lemma one_policy_uniform first rest :
  one_policy (first :: rest) <-> uniform (vr_policyVersion first) (vr_mode first) (first :: rest).
Proof.
  unfold one_policy, uniform. rewrite Forall_forall. split.
  - intros H r Hr. apply H; [done|left].
  - intros H r r' Hr Hr'. destruct (H r Hr), (H r' Hr'). split; congruence.
Qed.

(** What the answer says. *)
Definition answers (f : RequestSettlementFinality) (outcome result reason : string) (closed : bool) : Prop :=
  fi_Outcome f = outcome /\ fi_ReceiptResult f = result /\ fi_Reason f = reason /\ fi_Closed f = closed.

(** The documented answer for attempts of one policy: pending while one is; verified, with
    the sums over the paid attempts, when one is paid; otherwise the verdict of the first
    refunded attempt; otherwise, with tokens blocked as overlapping, that; otherwise
    nothing to settle. *)
Definition documented (usage_of : Z -> string -> option UsageJoin) (rows : list requestSettlementVerdictRow)
    (f : RequestSettlementFinality) : Prop :=
  if existsb row_pending rows then
    answers f SettlementOutcomePending SettlementReceiptResultInconclusive "receipt_verdict_pending" false /\ fi_TotalTokens f = 0
  else if existsb (row_paid usage_of) rows then
    answers f SettlementOutcomeVerified SettlementReceiptResultValid "verified_settlement" true
    /\ fi_VerifiedAttempts f = count (row_paid usage_of) rows
    /\ fi_PromptTokens f = Int64.wrap (sum_if (row_paid usage_of) (row_prompt usage_of) rows)
    /\ fi_CompletionTokens f = Int64.wrap (sum_if (row_paid usage_of) (row_completion usage_of) rows)
    /\ fi_TotalTokens f = Int64.add (fi_PromptTokens f) (fi_CompletionTokens f)
  else match List.find row_refunded rows with
  | Some r => answers f (vr_outcome r) (vr_receiptResult r) (vr_reason r) true /\ fi_TotalTokens f = 0
  | None =>
      if 0 <? Int64.wrap (sum_if (row_blocked usage_of) (fun r => row_prompt usage_of r + row_completion usage_of r) rows) then
        answers f SettlementOutcomeOverlapBlockedTerminal SettlementReceiptResultValid "overlap_blocked_terminal" true
        /\ fi_TotalTokens f = 0
      else answers f SettlementOutcomePending SettlementReceiptResultInconclusive "no_settlement_candidate" false
           /\ fi_TotalTokens f = 0
  end.

Lemma count_positive {A} (p : A -> bool) (l : list A) :
  Z.of_nat (length l) <= Int64.max -> (0 <? Int64.wrap (count p l)) = existsb p l.
Proof.
  intros Hl. rewrite count_wrap by done. rewrite count_zero_existsb. pose proof (count_nonneg p l).
  destruct (count p l =? 0) eqn:E; simpl; lia.
Qed.

Lemma conclude_documented usage_of rows id pv mode t :
  Z.of_nat (length rows) <= Int64.max -> tally_is usage_of rows t -> documented usage_of rows (conclude id pv mode t).
Proof.
  intros Hl Ht. unfold conclude, documented. cbv zeta.
  rewrite (ti_pending _ _ _ Ht), count_positive by done. destruct (existsb row_pending rows); [done|].
  rewrite (ti_verified _ _ _ Ht), count_positive by done. destruct (existsb (row_paid usage_of) rows).
  { simpl. rewrite (ti_prompt _ _ _ Ht), (ti_completion _ _ _ Ht), (ti_verified _ _ _ Ht), count_wrap by done. done. }
  rewrite (ti_refund _ _ _ Ht), first_refund. destruct (List.find row_refunded rows) as [r|]; [done|]. simpl.
  rewrite (ti_overlap _ _ _ Ht). by destruct (0 <? _).
Qed.

(** The fold fails only on a usage it cannot read. *)
Lemma tally_rows_total usage_of pv mode rows t :
  (forall r, r ∈ rows -> row_counts r = true -> is_Some (row_usage usage_of r)) ->
  is_Some (tally_rows usage_of pv mode rows t).
Proof.
  revert t. induction rows as [|row rows IH]; intros t Hr; [by eexists|]. simpl. destruct (negb _ || negb _)%bool; [by eexists|].
  assert (is_Some (tally_row usage_of t row)) as [t' ->].
  { specialize (Hr row (list_elem_of_here _ _)). unfold tally_row, row_counts, row_usage in *. cbv zeta.
    destruct (String.eqb _ SettlementOutcomePending); [by eexists|]. destruct (String.eqb _ SettlementOutcomeVerified); [|by repeat case_match; eexists].
    cbn [andb] in Hr. destruct (vr_closed row && _)%bool; [|by eexists]. destruct (Hr eq_refl) as [[u []] ->]; by eexists. }
  simpl. apply IH. intros r Hin. apply Hr. by right.
Qed.

(** Claim C32. The finality of a request is the documented function of its attempts. When
    they carry different policy snapshots it stays open, with that reason. Otherwise, of
    policy and mode that they share, it is pending exactly while an attempt is; else
    verified, with the tokens summed over the verified attempts that do not overlap, when
    there is one; else closed with outcome, result and reason of the first attempt that was
    quarantined or settled to zero; else closed as blocked by overlap when tokens were; else
    open without a candidate. An answer is given whenever the usage of every counted attempt
    can be read. *)
Theorem finality_fold_exact (usage_of : Z -> string -> option UsageJoin) (id : string)
    (rows : list requestSettlementVerdictRow) :
  rows <> [] -> Z.of_nat (length rows) <= Int64.max ->
  ((forall r, r ∈ rows -> row_counts r = true -> is_Some (row_usage usage_of r)) -> is_Some (fold_finality usage_of id rows))
  /\ forall f, fold_finality usage_of id rows = Some f ->
     (~ one_policy rows ->
        answers f SettlementOutcomePending SettlementReceiptResultInconclusive "mixed_settlement_policy_snapshot" false
        /\ fi_TotalTokens f = 0)
     /\ (one_policy rows ->
          documented usage_of rows f
          /\ forall r, r ∈ rows -> vr_policyVersion r = fi_PolicyVersion f /\ vr_mode r = fi_Mode f).
Proof.
  intros Hne Hlen. unfold fold_finality. destruct rows as [|first rest] eqn:Hrows; [done|]. clear Hne.
  pose proof (one_policy_uniform first rest) as Hop. rewrite <- Hrows in *. clear rest Hrows. cbv zeta.
  set (pv := vr_policyVersion first) in *. set (mode := vr_mode first) in *. split.
  { intros Hr. destruct (tally_rows_total usage_of pv mode rows tally0 Hr) as [r ->]. by eexists. }
  intros f. rewrite Hop. clear Hop. destruct (tally_rows _ _ _ _ _) as [[t|t]|] eqn:Ht; simpl; [| |done]; intros [= <-].
  - pose proof (tally_rows_not_uniform _ _ _ _ _ _ Ht) as Hu. split; [done|]. intros _.
    pose proof (tally_rows_exact _ _ _ _ _ Hu Ht) as Hti. split; [by apply conclude_documented|].
    assert (fi_PolicyVersion (conclude id pv mode t) = pv /\ fi_Mode (conclude id pv mode t) = mode)
      as [-> ->] by (unfold conclude; cbv zeta; repeat case_match; done).
    unfold uniform in Hu. by rewrite Forall_forall in Hu.
  - split; [done|]. intros Hu. destruct (tally_rows_uniform _ _ _ _ _ _ Hu Ht) as [t' E]. done.
Qed.

(** Two attempts of one policy: one verified, one quarantined. *)
Definition sample_join (_ : Z) (_ : string) : option UsageJoin :=
  Some (mkJoin (Some (mkUsage 0 0 5 12 34)) false (Some 12) None (Some 34)).
Definition sample_rows : list requestSettlementVerdictRow :=
  [mkVRow 0 "p1" "invalid" "quarantined" "signature_verify_failed" true 100 "v1" "enforce";
   mkVRow 1 "p2" "valid" "verified" "verified_settlement" true 100 "v1" "enforce"].

Lemma finality_fold_exact_witness :
  exists f, fold_finality sample_join "req" sample_rows = Some f /\ documented sample_join sample_rows f.
Proof.
  destruct (finality_fold_exact sample_join "req" sample_rows) as [_ H]; [discriminate|vm_compute; discriminate|].
  destruct (fold_finality sample_join "req" sample_rows) as [f|] eqn:Hf; [|discriminate].
  exists f. split; [reflexivity|]. apply (H f eq_refl). intros r r' Hr Hr'.
  unfold sample_rows in Hr, Hr'. rewrite !elem_of_cons, elem_of_nil in Hr, Hr'.
  destruct Hr as [->|[->|[]]], Hr' as [->|[->|[]]]; split; reflexivity.
Defined.

(** Two refunds: the answer carries the first. *)
Example first_refund_is_reported :
  let refused n reason := mkVRow n "p" "invalid" "quarantined" reason true 100 "v1" "enforce" in
  option_map (fun f => (fi_Reason f, fi_Closed f)) (fold_finality sample_join "req" [refused 0 "bad_signature"; refused 1 "late"])
  = Some ("bad_signature", true).
Proof. reflexivity. Qed.

(** ** Aggregation over internal requests *)

(** Facts of a tally over at most [n] rows. *)
Record tally_wf (n : Z) (t : Tally) : Prop := {
  tw_normal : normal t;
  tw_counts : 0 <= ta_pending t /\ 0 <= ta_verified t /\ 0 <= ta_quarantined t /\ 0 <= ta_zero t;
  tw_bound : ta_pending t + ta_verified t <= n;
  tw_refund : is_Some (ta_refund t) <-> 0 < ta_quarantined t \/ 0 < ta_zero t;
  tw_outcome : forall o res reason, ta_refund t = Some (o, res, reason) ->
    o = SettlementOutcomeQuarantined \/ o = SettlementOutcomeZeroSettled;
  tw_unpaid : ta_verified t = 0 -> ta_prompt t = 0 /\ ta_completion t = 0;
}.

Lemma count_disjoint {A} (p q : A -> bool) l :
  (forall x, p x = true -> q x = false) -> count p l + count q l <= Z.of_nat (length l).
Proof.
  intros Hpq. induction l as [|x l IH]; [done|]. rewrite !count_cons. simpl.
  pose proof (Hpq x). destruct (p x), (q x); try lia; by specialize (H eq_refl).
Qed.

Lemma sum_if_none {A} (p : A -> bool) (f : A -> Z) l : count p l = 0 -> sum_if p f l = 0.
Proof.
  induction l as [|x l IH]; [done|]. rewrite count_cons, sum_if_cons.
  pose proof (count_nonneg p l). destruct (p x); [lia|]. intros ?. rewrite IH; lia.
Qed.

Lemma tally_is_wf usage_of rows t :
  tally_is usage_of rows t -> Z.of_nat (length rows) <= Int64.max ->
  tally_wf (Z.of_nat (length rows)) t.
Proof.
  intros [H1 H2 H3 H4 H5 H6 H7 H8 _] Hl. rewrite count_wrap in H1, H2, H3, H4 by done.
  constructor.
  - unfold normal. rewrite H5, H6, H7. repeat split; try apply Int64.wrap_range.
    all: rewrite ?H1, ?H2, ?H3, ?H4; i64;
      match goal with |- context [count ?p ?l] =>
        pose proof (count_nonneg p l); pose proof (count_le_length p l); lia end.
  - rewrite H1, H2, H3, H4. auto using count_nonneg.
  - rewrite H1, H2. apply count_disjoint. unfold row_pending, row_paid. intros r Hr. bool_hyps.
    by match goal with H : row_counts r = false |- _ => rewrite H end.
  - rewrite H8, refund_exists, H3, H4.
    pose proof (count_zero_existsb row_quarantined rows).
    pose proof (count_zero_existsb row_zero rows).
    pose proof (count_nonneg row_quarantined rows). pose proof (count_nonneg row_zero rows).
    assert (existsb (fun r => row_quarantined r || row_zero r)%bool rows
      = (existsb row_quarantined rows || existsb row_zero rows)%bool) as ->.
    { clear. induction rows as [|r rows IH]; [done|]. simpl. rewrite IH.
      by destruct (row_quarantined r), (row_zero r), (existsb row_quarantined rows). }
    rewrite orb_true_iff. rewrite H, H0, !negb_true_iff, !Z.eqb_neq. lia.
  - intros o res reason. rewrite H8. apply refund_of_row.
  - intros Hv. rewrite H2 in Hv. rewrite H5, H6, !sum_if_none by done. done.
Qed.

(** The accumulator [acc] of the aggregation follows the combined tally [a]: the
    counters agree; the refund agrees once it matters; and while nothing is
    pending the running total is the sum of both token counts. *)
Record tracks (a : Tally) (acc : Tally * Z) : Prop := {
  tr_counters : acc.1 = mkTally (ta_deadline a) (ta_prompt a) (ta_completion a) (ta_verified a)
    (ta_pending a) (ta_quarantined a) (ta_zero a) (ta_overlap a) (ta_refund acc.1);
  tr_refund : ta_pending a = 0 -> ta_verified a = 0 -> ta_refund acc.1 = ta_refund a;
  tr_total : ta_pending a = 0 -> acc.2 = Int64.add (ta_prompt a) (ta_completion a);
  tr_counts : 0 <= ta_pending a /\ 0 <= ta_verified a;
  tr_unpaid : ta_verified a = 0 -> ta_prompt a = 0 /\ ta_completion a = 0;
}.

Lemma tracks_start : tracks tally0 (tally0, 0).
Proof. by constructor. Qed.

(** The finality of one request carries its tally. *)
Lemma conclude_fields id pv mode t :
  let f := conclude id pv mode t in
  fi_PolicyVersion f = pv /\ fi_Mode f = mode /\ fi_PendingDeadlineUnixMS f = ta_deadline t /\
  fi_PromptTokens f = ta_prompt t /\ fi_CompletionTokens f = ta_completion t /\
  fi_VerifiedAttempts f = ta_verified t /\ fi_PendingAttempts f = ta_pending t /\
  fi_QuarantinedAttempts f = ta_quarantined t /\ fi_ZeroSettledAttempts f = ta_zero t /\
  fi_OverlappingBlockedTokens f = ta_overlap t.
Proof. cbv zeta. unfold conclude. cbv zeta. by repeat case_match. Qed.

Lemma conclude_refund n id pv mode t :
  tally_wf n t -> ta_pending t = 0 -> ta_verified t = 0 ->
  (if has_terminal_refund (conclude id pv mode t)
   then Some (fi_Outcome (conclude id pv mode t), fi_ReceiptResult (conclude id pv mode t),
              fi_Reason (conclude id pv mode t)) else None) = ta_refund t.
Proof.
  intros [_ (_ & _ & Hq & Hz) _ Hr Ho _] Hp Hv.
  destruct (conclude_fields id pv mode t) as (_ & _ & _ & _ & _ & _ & _ & Eq & Ez & _).
  unfold has_terminal_refund. rewrite Eq, Ez. unfold conclude. cbv zeta. rewrite Hp, Hv. simpl.
  destruct (ta_refund t) as [[[o res] reason]|] eqn:Hrf.
  - destruct Hr as [Hr _]. specialize (Hr ltac:(eauto)). simpl.
    assert (String.eqb o SettlementOutcomeVerified = false) as ->.
    { destruct (Ho o res reason eq_refl) as [->| ->]; reflexivity. }
    replace ((0 <? ta_quarantined t) || (0 <? ta_zero t))%bool with true by lia. done.
  - assert (ta_quarantined t = 0 /\ ta_zero t = 0) as [-> ->].
    { destruct Hr as [_ Hr].
      destruct (Z.eq_dec (ta_quarantined t) 0), (Z.eq_dec (ta_zero t) 0); try done;
        destruct Hr as [? ?]; try lia; done. }
    destruct (0 <? ta_overlap t); simpl; by rewrite ?andb_false_r.
Qed.

Lemma conclude_total n id pv mode t :
  tally_wf n t -> ta_pending t = 0 ->
  fi_TotalTokens (conclude id pv mode t) = Int64.add (ta_prompt t) (ta_completion t).
Proof.
  intros [_ (_ & Hv0 & _) _ _ _ Hu] Hp. unfold conclude. cbv zeta. rewrite Hp. simpl.
  destruct (0 <? ta_verified t) eqn:Hv; [done|].
  destruct Hu as [-> ->]; [lia|]. by repeat case_match.
Qed.

Lemma add_finality_tracks a acc n m id pv mode t :
  tracks a acc -> tally_wf n t -> ta_pending a + ta_verified a <= m -> m + n <= Int64.max ->
  tracks (combine a t) (add_finality acc (conclude id pv mode t)) /\
  ta_pending (combine a t) + ta_verified (combine a t) <= m + n.
Proof.
  intros [Hc Hr Ht [Ha1 Ha2] Hu] Hw Hm Hmn.
  pose proof (conclude_fields id pv mode t) as (_ & _ & Ed & Ep & Ec & Ev & Epe & Eq & Ez & Eo).
  pose proof (tw_counts n t Hw) as (Hp1 & Hv1 & _ & _). pose proof (tw_bound n t Hw) as Hb.
  assert (ta_pending (combine a t) = ta_pending a + ta_pending t) as Ep2
    by (simpl; apply Int64.add_exact; i64; lia).
  assert (ta_verified (combine a t) = ta_verified a + ta_verified t) as Ev2
    by (simpl; apply Int64.add_exact; i64; lia).
  split; [|rewrite Ep2, Ev2; lia].
  destruct acc as [ta total]. simpl in Hc, Hr, Ht. constructor.
  - unfold add_finality. rewrite Ed, Ep, Ec, Ev, Epe, Eq, Ez, Eo. rewrite Hc at 1 2 3 4 5 6 7 8.
    reflexivity.
  - rewrite Ep2, Ev2. intros ? ?. simpl. rewrite Hr by lia. destruct (ta_refund a); [done|].
    apply (conclude_refund n); [done|lia|lia].
  - rewrite Ep2. intros ?. simpl. rewrite Ht, (conclude_total n) by (done || lia).
    rewrite !Int64.add_assoc. f_equal. rewrite <- !Int64.add_assoc. f_equal. apply Int64.add_comm.
  - rewrite Ep2, Ev2. lia.
  - rewrite Ev2. intros ?. destruct (Hu ltac:(lia)) as [Hua Huc].
    destruct (tw_unpaid n t Hw ltac:(lia)) as [Hta Htc]. simpl. by rewrite Hua, Huc, Hta, Htc.
Qed.

(** The loop over finalities of one policy snapshot. *)
Lemma add_finalities_tracks pv mode (ts : list (string * Z * Tally)) a acc m :
  tracks a acc -> Forall (fun q => tally_wf q.1.2 q.2) ts ->
  ta_pending a + ta_verified a <= m -> m + sumZ (fun q => q.1.2) ts <= Int64.max ->
  Forall (fun q => 0 <= q.1.2) ts ->
  exists acc', add_finalities pv mode (map (fun q => conclude q.1.1 pv mode q.2) ts) acc = inl acc' /\
    tracks (fold_left combine (map snd ts) a) acc'.
Proof.
  intros Htr Hw. revert a acc m Htr.
  induction Hw as [|[[id n] t] ts Hwt Hw IH]; intros a acc m Htr Hm Hsum Hn; simpl in *.
  { eauto. }
  apply Forall_cons_1 in Hn as [Hn0 Hn]. simpl in Hn0.
  pose proof (sumZ_nonneg (fun q : string * Z * Tally => q.1.2) ts) as Hpos.
  rewrite Forall_forall in Hn. specialize (Hpos Hn).
  destruct (conclude_fields id pv mode t) as (-> & -> & _). rewrite !String.eqb_refl. simpl.
  destruct (add_finality_tracks a acc n m id pv mode t Htr Hwt Hm) as [Htr' Hm']; [lia|].
  apply (IH _ _ (m + n)); [done|done|lia|]. by apply Forall_forall.
Qed.

(** All fields agree but the token total. *)
Definition same_but_total (f g : RequestSettlementFinality) : Prop :=
  f = mkFinality (fi_RequestID g) (fi_PolicyVersion g) (fi_Mode g) (fi_Outcome g)
        (fi_ReceiptResult g) (fi_Reason g) (fi_Closed g) (fi_PendingDeadlineUnixMS g)
        (fi_PromptTokens g) (fi_CompletionTokens g) (fi_TotalTokens f) (fi_TokenSource g)
        (fi_VerifiedAttempts g) (fi_PendingAttempts g) (fi_QuarantinedAttempts g)
        (fi_ZeroSettledAttempts g) (fi_OverlappingBlockedTokens g).

Lemma conclude_external_tracks ext pv mode a acc :
  tracks a acc ->
  same_but_total (conclude_external ext pv mode acc) (conclude ext pv mode a) /\
  (fi_Closed (conclude ext pv mode a) = true ->
   conclude_external ext pv mode acc = conclude ext pv mode a).
Proof.
  intros [Hc Hr Ht [Hp Hv] Hu]. destruct acc as [t total]. simpl in *. rewrite Hc.
  unfold conclude_external, conclude, finality_with, same_but_total. simpl.
  destruct (0 <? ta_pending a) eqn:Ep; [done|]. rewrite Ht by lia.
  destruct (0 <? ta_verified a) eqn:Ev; [done|]. rewrite Hr by lia.
  destruct Hu as [-> ->]; [lia|].
  destruct (ta_refund a) as [[[o res] reason]|]; [done|]. by destruct (0 <? ta_overlap a).
Qed.

(** An internal request: its id, the usage of its attempts and its verdicts. *)
Definition InternalRequest : Type :=
  string * (Z -> string -> option UsageJoin) * list requestSettlementVerdictRow.

Lemma fold_finality_uniform usage_of id pv mode rows f :
  rows <> [] -> uniform pv mode rows -> fold_finality usage_of id rows = Some f ->
  exists t, tally_rows usage_of pv mode rows tally0 = Some (inl t) /\ f = conclude id pv mode t.
Proof.
  intros Hne Hu Hf. destruct rows as [|r rows]; [done|]. unfold fold_finality in Hf.
  pose proof Hu as Hu'. apply Forall_cons_1 in Hu' as [[Hpv Hm] _]. rewrite Hpv, Hm in Hf.
  cbv zeta in Hf. destruct (tally_rows _ _ _ _ _) as [res|] eqn:Ht; [|done]. simpl in Hf.
  destruct (tally_rows_uniform _ _ _ _ _ _ Hu Ht) as [t ->]. simplify_eq. eauto.
Qed.

(** Requests that share a usage function fold like one request. *)
Lemma tally_rows_concat usage_of pv mode (reqs : list InternalRequest) ts a :
  normal a ->
  Forall2 (fun (q : InternalRequest) t => q.1.2 = usage_of /\ uniform pv mode q.2 /\
    tally_rows q.1.2 pv mode q.2 tally0 = Some (inl t)) reqs ts ->
  tally_rows usage_of pv mode (concat (map snd reqs)) a = Some (inl (fold_left combine ts a)).
Proof.
  intros Ha Hf. revert a Ha. induction Hf as [|q t reqs ts (Hus & Hu & Ht) Hf IH]; intros a Ha; [done|].
  simpl. rewrite Hus in Ht.
  assert (forall l1 l2 a, tally_rows usage_of pv mode (l1 ++ l2) a
    = r ← tally_rows usage_of pv mode l1 a;
      match r with inl t' => tally_rows usage_of pv mode l2 t' | inr t' => Some (inr t') end) as Happ.
  { induction l1 as [|x l1 IH1]; intros l2 a0; [done|]. simpl.
    destruct (_ || _)%bool; [done|]. destruct (tally_row usage_of a0 x); simpl; [apply IH1|done]. }
  rewrite Happ, (tally_rows_combine usage_of pv mode q.2 a Hu Ha), Ht. simpl.
  apply IH, combine_normal.
Qed.

(** A request in the form the aggregation loop sees it: id, size and tally. *)
Definition sized (q : InternalRequest) (t : Tally) : string * Z * Tally :=
  (q.1.1, Z.of_nat (length q.2), t).

(** The finalities of uniform requests come from well-formed tallies. *)
Lemma internal_tallies pv mode usage_of (reqs : list InternalRequest) fs :
  Forall2 (fun (q : InternalRequest) f => q.1.2 = usage_of /\ q.2 <> [] /\ uniform pv mode q.2 /\
    fold_finality q.1.2 q.1.1 q.2 = Some f) reqs fs ->
  sumZ (fun q => Z.of_nat (length q.2)) reqs <= Int64.max ->
  exists ts, Forall2 (fun (q : InternalRequest) t => q.1.2 = usage_of /\ uniform pv mode q.2 /\
      tally_rows q.1.2 pv mode q.2 tally0 = Some (inl t)) reqs ts /\
    fs = map (fun q => conclude q.1.1 pv mode q.2) (zip_with sized reqs ts) /\
    Forall (fun q => tally_wf q.1.2 q.2) (zip_with sized reqs ts).
Proof.
  intros Hf Hlen. induction Hf as [|q f reqs fs (Hus & Hq & Hu & Hff) Hf IH].
  { exists []. by repeat constructor. }
  assert (0 <= sumZ (fun q : InternalRequest => Z.of_nat (length q.2)) reqs)
    by (apply sumZ_nonneg; intros; lia).
  cbn [sumZ] in Hlen.
  destruct IH as (ts & Hts & -> & Hwf); [lia|].
  destruct (fold_finality_uniform _ _ _ _ _ _ Hq Hu Hff) as (t & Ht & ->).
  exists (t :: ts). split; [by constructor|]. split; [done|]. constructor; [|done]. simpl.
  apply (tally_is_wf q.1.2); [by eapply tally_rows_exact|].
  eapply Z.le_trans; [|exact Hlen]. apply Z.le_sub_le_add_l. rewrite Z.sub_diag. assumption.
Qed.

Lemma zip_sized {P} (reqs : list InternalRequest) ts :
  Forall2 P reqs ts ->
  map snd (zip_with sized reqs ts) = ts /\
  sumZ (fun q => q.1.2) (zip_with sized reqs ts) = sumZ (fun q => Z.of_nat (length q.2)) reqs /\
  Forall (fun q => 0 <= q.1.2) (zip_with sized reqs ts).
Proof.
  induction 1 as [|q t reqs ts _ _ (H1 & H2 & H3)]; [by repeat constructor|]. simpl.
  rewrite H1, H2. split; [done|]. split; [done|]. constructor; [simpl; lia|done].
Qed.

Lemma aggregate_concluded ext pv mode (zs : list (string * Z * Tally)) acc :
  zs <> [] ->
  add_finalities pv mode (map (fun q => conclude q.1.1 pv mode q.2) zs) (tally0, 0) = inl acc ->
  aggregateExternalRequestFinality ext (map (fun q => conclude q.1.1 pv mode q.2) zs)
  = Some (conclude_external ext pv mode acc).
Proof.
  intros Hne Hacc. unfold aggregateExternalRequestFinality.
  destruct zs as [|[[id n] t] zs]; [done|].
  destruct (conclude_fields id pv mode t) as (Epv & Em & _). cbn [map fst snd] in Hacc |- *.
  rewrite Epv, Em. cbv zeta. by rewrite Hacc.
Qed.

(** Aggregation over the internal requests of an external request is
    the fold of all their attempts together: the outcome, reason, closing,
    deadline, counters and token counts are those of one request holding every
    attempt, and once the answer is closed so is the token total. *)
Theorem external_finality_merges (ext pv mode : string)
    (usage_of : Z -> string -> option UsageJoin) (reqs : list InternalRequest)
    (fs : list RequestSettlementFinality) :
  reqs <> [] ->
  Forall2 (fun (q : InternalRequest) f => q.1.2 = usage_of /\ q.2 <> [] /\ uniform pv mode q.2 /\
    fold_finality q.1.2 q.1.1 q.2 = Some f) reqs fs ->
  sumZ (fun q => Z.of_nat (length q.2)) reqs <= Int64.max ->
  exists fa fm, aggregateExternalRequestFinality ext fs = Some fa /\
    fold_finality usage_of ext (concat (map snd reqs)) = Some fm /\
    same_but_total fa fm /\ (fi_Closed fm = true -> fa = fm).
Proof.
  intros Hne Hf Hlen. destruct (internal_tallies _ _ _ _ _ Hf Hlen) as (ts & Hts & -> & Hwf).
  destruct (zip_sized _ _ Hts) as (Hsnd & Hsum & Hpos).
  assert (zip_with sized reqs ts <> []) as Hzne by (inversion Hts; by subst).
  destruct (add_finalities_tracks pv mode (zip_with sized reqs ts) tally0 (tally0, 0) 0)
    as (acc & Hacc & Htr); [apply tracks_start|done|done|lia|done|].
  rewrite Hsnd in Htr. destruct (conclude_external_tracks ext pv mode _ _ Htr) as [Hsame Hclosed].
  exists (conclude_external ext pv mode acc), (conclude ext pv mode (fold_left combine ts tally0)).
  split; [by apply aggregate_concluded|]. split; [|done].
  pose proof (tally_rows_concat usage_of pv mode reqs ts tally0 tally0_normal Hts) as Hcat.
  destruct reqs as [|q reqs]; [done|]. inversion Hf as [|? ? ? ? (_ & Hqne & Hqu & _)]; subst.
  cbn [map concat] in Hcat |- *. destruct q.2 as [|r rows] eqn:Hq; [done|].
  apply Forall_cons_1 in Hqu as [[Er1 Er2] _]. unfold fold_finality. cbn [app] in Hcat |- *.
  cbv zeta. rewrite Er1, Er2, Hcat. done.
Qed.

Lemma external_finality_merges_witness :
  exists fa fm, aggregateExternalRequestFinality "ext"
      [conclude "req" "v1" "enforce" (mkTally 0 12 34 1 0 1 0 0 (row_refund (mkVRow 0 "p1" "invalid"
        "quarantined" "signature_verify_failed" true 100 "v1" "enforce")))] = Some fa /\
    fold_finality sample_join "ext" (concat [sample_rows]) = Some fm /\ fa = fm.
Proof.
  destruct (external_finality_merges "ext" "v1" "enforce" sample_join
    [("req", sample_join, sample_rows)]
    [conclude "req" "v1" "enforce" (mkTally 0 12 34 1 0 1 0 0 (row_refund (mkVRow 0 "p1" "invalid"
        "quarantined" "signature_verify_failed" true 100 "v1" "enforce")))])
    as (fa & fm & H1 & H2 & _ & H4).
  - discriminate.
  - constructor; [|constructor]. split; [reflexivity|]. split; [discriminate|].
    split; [repeat constructor|vm_compute; reflexivity].
  - vm_compute. discriminate.
  - exists fa, fm. split; [exact H1|]. split; [exact H2|]. apply H4.
    vm_compute in H2. injection H2 as <-. reflexivity.
Defined.
