(* ===== verification/Outputs.v ===== *)
(** * Recorded outputs of attempts

    Models [phase4-coordinator/internal/billing/settlement_output.go]: what an attempt
    delivered is validated, hashed and inserted once; outputs of one request that
    overlap, repeat each other or run backwards are marked, and a marked output is
    never payable. *)

From S2P Require Import Prelude Jcs JsonText Receipt Verdict Formula Ledger Resync Settlement Billing Finality.
#[local] Open Scope Z_scope.

Definition TerminalStateNormalDone : string := "normal_done".
Definition TerminalStateProviderError : string := "provider_error".
Definition TerminalStateBuyerCancel : string := "buyer_cancel".
Definition TerminalStateGatewayTimeout : string := "gateway_timeout".
Definition TerminalStateUpstreamTransportDisconnect : string := "upstream_transport_disconnect".

Definition terminalStatePattern (s : string) : bool :=
  existsb (String.eqb s) [TerminalStateNormalDone; TerminalStateProviderError; TerminalStateBuyerCancel;
    TerminalStateGatewayTimeout; TerminalStateUpstreamTransportDisconnect].

Record SettlementToolCall := mkToolCall {
  tc_ID : string;
  tc_Type : string;
  tc_Name : string;
  tc_Arguments : string;
}.

Record SettlementOutput := mkOutput {
  so_Content : string;
  so_FinishReason : option string;
  so_Available : bool;
  so_OutputPrefixStartByte : Z;
  so_OutputPrefixEndByte : Z;
  so_TerminalState : string;
  so_TerminalStateTSUnixMS : Z;
  so_ToolCalls : list SettlementToolCall;
}.

Record SettlementAttemptOutput := mkAttemptOutput {
  ao_id : SettlementReceiptIdentity;
  ao_Output : SettlementOutput;
  ao_OutputAvailable : bool;
  ao_Usage : SettlementUsage;
  ao_UsageSource : string;
  ao_TerminalStateTSUnixMS : Z;
  ao_OverlappingOrDuplicate : bool;
}.

(** ** Digests *)

Definition cr : ascii := ascii_of_N 13.
Definition lf : ascii := ascii_of_N 10.

(** [ReplaceAll "\r\n" "\n"], then ["\r"]. *)
Fixpoint replace_crlf (l : list ascii) : list ascii :=
  match l with
  | [] => []
  | c :: l' => match l' with
               | d :: l'' => if (Ascii.eqb c cr && Ascii.eqb d lf)%bool then lf :: replace_crlf l'' else c :: replace_crlf l'
               | [] => [c]
               end
  end.
Definition normalize_newlines (l : list ascii) : list ascii :=
  map (fun c => if Ascii.eqb c cr then lf else c) (replace_crlf l).

Section Outputs.
Context {GL : GoLib}.

Definition SettlementDeliveredOutputBytes (content : string) : Z :=
  Z.of_nat (length (GoStr.chars (nfc (GoStr.of_chars (normalize_newlines (GoStr.chars content)))))).

Definition settlementToolCallsValue (calls : list SettlementToolCall) : list JsonValue :=
  map (fun c => JsonObject [("id", JsonString c.(tc_ID)); ("type", JsonString c.(tc_Type));
    ("function", JsonObject [("name", JsonString c.(tc_Name)); ("arguments", JsonRawString c.(tc_Arguments))])]) calls.

Definition output_Value (o : SettlementOutput) : JsonValue :=
  JsonObject
    [("content", JsonString o.(so_Content));
     ("finish_reason", match o.(so_FinishReason) with Some f => JsonString f | None => JsonNull end);
     ("output_prefix_end_byte", JsonInt o.(so_OutputPrefixEndByte));
     ("output_prefix_start_byte", JsonInt o.(so_OutputPrefixStartByte));
     ("terminal_state", JsonString o.(so_TerminalState));
     ("tool_calls", match o.(so_ToolCalls) with [] => JsonNull | calls => JsonArray (settlementToolCallsValue calls) end)].

Definition tool_call_ok (c : SettlementToolCall) : bool :=
  negb (String.eqb c.(tc_ID) "" || negb (String.eqb c.(tc_Type) "function") || String.eqb c.(tc_Name) "")
  && json_Valid c.(tc_Arguments).

Definition output_Validate (o : SettlementOutput) : bool :=
  terminalStatePattern o.(so_TerminalState)
  && negb ((o.(so_OutputPrefixStartByte) <? 0) || (o.(so_OutputPrefixEndByte) <? o.(so_OutputPrefixStartByte)))
  && (SettlementDeliveredOutputBytes o.(so_Content)
      =? Int64.sub o.(so_OutputPrefixEndByte) o.(so_OutputPrefixStartByte))
  && forallb tool_call_ok o.(so_ToolCalls).

Definition output_Digest (o : SettlementOutput) : option (string * string) :=
  if output_Validate o then
    canonical ← CanonicalJSON (output_Value o); Some (sha256_hex canonical, canonical)
  else None.

Definition usage_Digest (u : SettlementUsage) : option (string * string) :=
  if usage_Validate u then CanonicalSHA256Hex (usage_Value u) else None.

Definition validUsageSource (s : string) : bool :=
  String.eqb s UsageSourceCoordinatorObserved || String.eqb s "byte_estimated".

Definition attempt_Validate (a : SettlementAttemptOutput) : bool :=
  let o := a.(ao_Output) in
  negb (String.eqb (id_AccountScope a.(ao_id)) "") && negb (String.eqb (id_RequestID a.(ao_id)) "")
  && (0 <=? id_AttemptN a.(ao_id)) && negb (String.eqb (id_ProviderID a.(ao_id)) "")
  && validUsageSource a.(ao_UsageSource) && (0 <? a.(ao_TerminalStateTSUnixMS))
  && (if negb a.(ao_OutputAvailable) then
        terminalStatePattern o.(so_TerminalState)
        && (o.(so_OutputPrefixStartByte) =? 0) && (o.(so_OutputPrefixEndByte) =? 0)
        && usage_Validate a.(ao_Usage) && (DeliveredOutputBytes a.(ao_Usage) =? 0)
      else
        output_Validate o && usage_Validate a.(ao_Usage)
        && (DeliveredOutputBytes a.(ao_Usage)
            =? Int64.sub o.(so_OutputPrefixEndByte) o.(so_OutputPrefixStartByte))).

(** ** The insert *)

(** The condition of the count and of the update: another attempt of the request whose
    range overlaps, whose output is the same, or whose order against the range is
    the wrong way round. A NULL hash equals nothing. *)
Definition conflicting (id : SettlementReceiptIdentity) (start end_ : Z) (hash : string) (x : OutputRow) : bool :=
  String.eqb (id_AccountScope (ou_id x)) (id_AccountScope id) && String.eqb (id_RequestID (ou_id x)) (id_RequestID id)
  && negb ((id_AttemptN (ou_id x) =? id_AttemptN id) && String.eqb (id_ProviderID (ou_id x)) (id_ProviderID id))
  && (negb ((ou_output_prefix_end_byte x <=? start) || (end_ <=? ou_output_prefix_start_byte x))
      || match ou_output_hash x with Some h => String.eqb h hash | None => false end
      || ((id_AttemptN (ou_id x) <? id_AttemptN id) && (start <? ou_output_prefix_start_byte x))
      || ((id_AttemptN id <? id_AttemptN (ou_id x)) && (ou_output_prefix_start_byte x <? start))).

Definition mark_overlap (x : OutputRow) : OutputRow :=
  mkOutputRow (ou_id x) (ou_terminal_state x) (ou_terminal_state_ts_unix_ms x) (ou_output_available x)
    (ou_output_prefix_start_byte x) (ou_output_prefix_end_byte x) (ou_output_hash x) (ou_usage_hash x)
    (ou_usage_canonical_json x) (ou_usage_source x) true.

(** The CHECK constraints of [settlement_attempt_outputs]. *)
Definition output_row_checks (x : OutputRow) : bool :=
  (0 <=? id_AttemptN (ou_id x)) && terminalStatePattern (ou_terminal_state x)
  && (0 <? ou_terminal_state_ts_unix_ms x) && (0 <=? ou_output_prefix_start_byte x)
  && (ou_output_prefix_start_byte x <=? ou_output_prefix_end_byte x)
  && match ou_output_hash x with Some h => hex64Pattern h | None => true end
  && hex64Pattern (ou_usage_hash x) && validUsageSource (ou_usage_source x).

Definition find_output (id : SettlementReceiptIdentity) (rows : list OutputRow) : option OutputRow :=
  find (fun x => bool_decide (ou_id x = id)) rows.

(** The columns a repeated insert must agree with. *)
Definition same_output (row x : OutputRow) : bool :=
  String.eqb (ou_terminal_state x) (ou_terminal_state row)
  && (ou_terminal_state_ts_unix_ms x =? ou_terminal_state_ts_unix_ms row)
  && Bool.eqb (ou_output_available x) (ou_output_available row)
  && (ou_output_prefix_start_byte x =? ou_output_prefix_start_byte row)
  && (ou_output_prefix_end_byte x =? ou_output_prefix_end_byte row)
  && Bool.eqb (match ou_output_hash x with Some _ => true | None => false end) (ou_output_available row)
  && String.eqb (default "" (ou_output_hash x)) (default "" (ou_output_hash row))
  && String.eqb (ou_usage_hash x) (ou_usage_hash row)
  && String.eqb (ou_usage_canonical_json x) (ou_usage_canonical_json row)
  && String.eqb (ou_usage_source x) (ou_usage_source row)
  && Bool.eqb (ou_overlapping_or_duplicate x) (ou_overlapping_or_duplicate row).

(** The row of an attempt with its hashes. *)
Definition attempt_row (a : SettlementAttemptOutput) (outputHash usageHash usageCanonical : string) (overlap : bool)
    : OutputRow :=
  let o := a.(ao_Output) in
  mkOutputRow a.(ao_id) o.(so_TerminalState) a.(ao_TerminalStateTSUnixMS) a.(ao_OutputAvailable)
    o.(so_OutputPrefixStartByte) o.(so_OutputPrefixEndByte)
    (if a.(ao_OutputAvailable) then Some outputHash else None) usageHash usageCanonical a.(ao_UsageSource) overlap.

(** [InsertSettlementAttemptOutput]: the new table and the output hash; [None] is an
    error, after which the table is unchanged. *)
Definition InsertSettlementAttemptOutput (rows : list OutputRow) (a : SettlementAttemptOutput)
    : option (list OutputRow * string) :=
  if negb (attempt_Validate a) then None
  else
  outputHash ← (if a.(ao_OutputAvailable) then fst <$> output_Digest a.(ao_Output) else Some "");
  '(usageHash, usageCanonical) ← usage_Digest a.(ao_Usage);
  let o := a.(ao_Output) in
  let clash := conflicting a.(ao_id) o.(so_OutputPrefixStartByte) o.(so_OutputPrefixEndByte) outputHash in
  let overlapCount := if a.(ao_OutputAvailable) then count clash rows else 0 in
  let overlap := (a.(ao_OverlappingOrDuplicate) || (0 <? overlapCount))%bool in
  let row := attempt_row a outputHash usageHash usageCanonical overlap in
  let marked := if overlap then update_where (fun x => ou_output_available x && clash x) mark_overlap rows else rows in
  if negb (output_row_checks row) then None
  else match find_output a.(ao_id) rows with
  | None => Some (marked ++ [row], outputHash)
  | Some x => if same_output row x then Some (marked, outputHash) else None
  end.

Fixpoint insert_outputs (rows : list OutputRow) (l : list SettlementAttemptOutput) : list OutputRow :=
  match l with
  | [] => rows
  | a :: l => insert_outputs (match InsertSettlementAttemptOutput rows a with Some (rows', _) => rows' | None => rows end) l
  end.
End Outputs.

(** ** Unmarked outputs do not overlap *)

Definition same_request (x y : OutputRow) : Prop :=
  id_AccountScope (ou_id x) = id_AccountScope (ou_id y) /\ id_RequestID (ou_id x) = id_RequestID (ou_id y).

(** Two outputs of a request that may both be paid: their ranges are disjoint, their
    output hashes differ, and they come in the order of the attempts. The hash is that of the
    text with its byte range, finish reason, terminal state and tool calls, so that equal texts
    at different ranges have different hashes. *)
Definition compatible (x y : OutputRow) : Prop :=
  (ou_output_prefix_end_byte x <= ou_output_prefix_start_byte y
   \/ ou_output_prefix_end_byte y <= ou_output_prefix_start_byte x)
  /\ ou_output_hash x <> ou_output_hash y
  /\ (id_AttemptN (ou_id x) < id_AttemptN (ou_id y) -> ou_output_prefix_start_byte x <= ou_output_prefix_start_byte y).

Definition payable_output (x : OutputRow) : Prop :=
  ou_output_available x = true /\ ou_overlapping_or_duplicate x = false.

Record outputs_ok (rows : list OutputRow) : Prop := mkOutputsOk {
  oo_nodup : NoDup (map ou_id rows);
  oo_range : forall x, x ∈ rows -> 0 <= ou_output_prefix_start_byte x <= ou_output_prefix_end_byte x;
  oo_hash : forall x, x ∈ rows -> ou_output_available x = true -> is_Some (ou_output_hash x);
  oo_pairs : forall x y, x ∈ rows -> y ∈ rows -> ou_id x <> ou_id y -> same_request x y ->
    payable_output x -> payable_output y -> compatible x y;
}.

Lemma outputs_ok_nil : outputs_ok [].
Proof. split; [apply NoDup_nil_2|intros x H|intros x H|intros x y H]; by apply not_elem_of_nil in H. Qed.

(** Marking rows keeps the table. *)
Lemma marked_elem p rows x :
  x ∈ update_where p mark_overlap rows -> exists x0, x0 ∈ rows /\ (x = x0 \/ x = mark_overlap x0).
Proof.
  unfold update_where. intros (x0 & -> & H)%list_elem_of_fmap. exists x0. split; [done|]. destruct (p x0); auto.
Qed.

Lemma mark_unmarked p rows x :
  x ∈ update_where p mark_overlap rows -> payable_output x -> x ∈ rows /\ p x = false.
Proof.
  unfold update_where. intros (x0 & -> & H)%list_elem_of_fmap [_ Hm]. destruct (p x0) eqn:E; [done|]. by rewrite E.
Qed.

Lemma outputs_ok_mark p rows : outputs_ok rows -> outputs_ok (update_where p mark_overlap rows).
Proof.
  intros [H1 H2 H3 H4]. split.
  - unfold update_where. rewrite map_map. erewrite map_ext; [exact H1|]. intros x. by destruct (p x).
  - intros x (x0 & Hx & [-> | ->])%marked_elem; by apply (H2 x0).
  - intros x (x0 & Hx & [-> | ->])%marked_elem; by apply (H3 x0).
  - intros x y Hx Hy Hn Hs Px Py. apply mark_unmarked in Hx as [Hx _]; [|done]. apply mark_unmarked in Hy as [Hy _]; [|done].
    by apply H4.
Qed.

Lemma conflicting_compatible (id : SettlementReceiptIdentity) s e h x :
  conflicting id s e h x = false -> id_AccountScope (ou_id x) = id_AccountScope id ->
  id_RequestID (ou_id x) = id_RequestID id -> ou_id x <> id ->
  (ou_output_prefix_end_byte x <= s \/ e <= ou_output_prefix_start_byte x) /\ ou_output_hash x <> Some h
  /\ (id_AttemptN (ou_id x) < id_AttemptN id -> ou_output_prefix_start_byte x <= s)
  /\ (id_AttemptN id < id_AttemptN (ou_id x) -> s <= ou_output_prefix_start_byte x).
Proof.
  unfold conflicting. intros H E1 E2 Hn. rewrite E1, E2, !String.eqb_refl in H. simpl in H.
  assert ((id_AttemptN (ou_id x) =? id_AttemptN id) && String.eqb (id_ProviderID (ou_id x)) (id_ProviderID id) = false) as Hid.
  { apply not_true_is_false. intros Hb. bool_hyps. apply Hn. destruct (ou_id x), id. simpl in *. f_equal; [done|done|lia|done]. }
  rewrite Hid in H. simpl in H. rewrite !orb_false_iff in H. destruct H as [[[Ha Hb] Hc] Hd].
  apply negb_false_iff, orb_true_iff in Ha. apply andb_false_iff in Hc, Hd. split_and!; [lia| |lia|lia].
  intros Eh. rewrite Eh, String.eqb_refl in Hb. done.
Qed.

Section Invariant.
Context {GL : GoLib}.

Lemma attempt_ranges a : attempt_Validate a = true ->
  0 <= so_OutputPrefixStartByte (ao_Output a) <= so_OutputPrefixEndByte (ao_Output a).
Proof.
  unfold attempt_Validate. cbv zeta. intros H. apply andb_true_iff in H as [_ H].
  destruct (ao_OutputAvailable a); cbn [negb] in H; bool_hyps; [|lia].
  match goal with H : output_Validate _ = true |- _ => unfold output_Validate in H end. bool_hyps. lia.
Qed.

Lemma count_zero {A} (p : A -> bool) rows x : (0 <? count p rows) = false -> x ∈ rows -> p x = false.
Proof.
  unfold count. intros H Hx. apply not_true_is_false. intros Hp.
  assert (In x (List.filter p rows)) as Hi by (apply filter_In; split; [by apply list_elem_of_In|done]).
  apply Z.ltb_ge in H. destruct (List.filter p rows) as [|y l]; [done|]. simpl in H. lia.
Qed.

Lemma insert_ok rows a rows' h :
  outputs_ok rows -> InsertSettlementAttemptOutput rows a = Some (rows', h) -> outputs_ok rows'.
Proof.
  intros Hok H. unfold InsertSettlementAttemptOutput in H. destruct (attempt_Validate a) eqn:Hv; [simpl in H|done].
  destruct (if ao_OutputAvailable a then _ else _) as [oh|] eqn:Hoh; [|done]. simpl in H.
  destruct (usage_Digest (ao_Usage a)) as [[uh uc]|]; [|done]. simpl in H.
  set (clash := conflicting _ _ _ _) in H. set (overlap := (_ || _)%bool) in H.
  set (row := attempt_row _ _ _ _ _) in H. set (marked := if overlap then _ else _) in H.
  assert (outputs_ok marked) as Hm by (unfold marked; destruct overlap; [by apply outputs_ok_mark|done]).
  destruct (negb (output_row_checks row)); [done|].
  destruct (find_output (ao_id a) rows) as [x|] eqn:Hf; [by destruct (same_output row x); simplify_eq|].
  injection H as <- _.
  assert (forall x, x ∈ marked -> ou_id x <> ao_id a) as Hnew.
  { intros x Hx. assert (exists x0, x0 ∈ rows /\ ou_id x = ou_id x0) as (x0 & Hx0 & ->).
    { unfold marked in Hx. destruct overlap; [|by exists x]. apply marked_elem in Hx as (x0 & ? & [E|E]); exists x0; subst x; done. }
    unfold find_output in Hf. apply list_elem_of_In in Hx0. pose proof (find_none _ _ Hf _ Hx0) as Hn. cbv beta in Hn. by apply bool_decide_eq_false_1 in Hn. }
  assert (forall x, x ∈ marked -> same_request x row -> payable_output x -> payable_output row ->
    compatible x row /\ compatible row x) as Hpair.
  { intros x Hx [Es1 Es2] Px [Ha Hov]. simpl in Ha, Hov. unfold overlap in Hov. apply orb_false_iff in Hov as [_ Hc].
    rewrite Ha in Hc, Hoh. assert (x ∈ rows) as Hxr.
    { unfold marked in Hx. destruct overlap; [by apply mark_unmarked in Hx as [? _]|done]. }
    pose proof (count_zero _ _ _ Hc Hxr) as Hcl.
    apply conflicting_compatible in Hcl as (C1 & C2 & C3 & C4); [|done|done|by apply Hnew].
    unfold compatible, row. simpl. rewrite Ha. split; split_and!; first [done|tauto|by intros E]. }
  destruct Hm as [M1 M2 M3 M4]. split.
  - rewrite map_app. apply NoDup_app. split_and!; [done| |apply NoDup_singleton].
    intros i (x & -> & Hx)%list_elem_of_fmap Hr. apply list_elem_of_singleton in Hr. by apply (Hnew x).
  - intros x [Hx| ->%list_elem_of_singleton]%elem_of_app; [by apply M2|]. by apply attempt_ranges.
  - intros x [Hx| ->%list_elem_of_singleton]%elem_of_app; [by apply M3|]. simpl. intros ->. done.
  - intros x y [Hx| ->%list_elem_of_singleton]%elem_of_app [Hy| ->%list_elem_of_singleton]%elem_of_app Hn Hs Px Py.
    + by apply M4.
    + by apply Hpair.
    + destruct Hs as [Es1 Es2]. by apply Hpair.
    + done.
Qed.

Lemma insert_outputs_ok l : forall rows, outputs_ok rows -> outputs_ok (insert_outputs rows l).
Proof.
  induction l as [|a l IH]; intros rows Hok; simpl; [done|]. apply IH.
  destruct (InsertSettlementAttemptOutput rows a) as [[rows' h]|] eqn:E; [by eapply insert_ok|done].
Qed.
End Invariant.

(** ** No byte is paid twice *)

Section Intervals.
Context {A K : Type} (key : A -> K) (start stop : A -> Z).

Definition starts_last (m y : A) : Prop := start y < start m \/ (start y = start m /\ stop y <= stop m).

Lemma exists_last (a : A) l : exists m, m ∈ a :: l /\ forall y, y ∈ a :: l -> starts_last m y.
Proof.
  revert a. induction l as [|b l IH]; intros a.
  - exists a. split; [by left|]. intros y ->%list_elem_of_singleton. right. lia.
  - destruct (IH b) as (m & Hm & Hmax). unfold starts_last in *.
    assert ((start a < start m \/ (start a = start m /\ stop a <= stop m))
            \/ (start m < start a \/ (start m = start a /\ stop m <= stop a))) as [H|H] by lia.
    + exists m. split; [by right|]. intros y [->|Hy]%elem_of_cons; [done|by apply Hmax].
    + exists a. split; [by left|]. intros y [->|Hy]%elem_of_cons; [lia|]. specialize (Hmax y Hy). lia.
Qed.

(** Disjoint intervals in [[0, M)] have a total length of at most [M]. *)
Lemma disjoint_total (n : nat) (l : list A) (M : Z) :
  (length l <= n)%nat -> 0 <= M -> NoDup (map key l) ->
  (forall x, x ∈ l -> 0 <= start x <= stop x /\ stop x <= M) ->
  (forall x y, x ∈ l -> y ∈ l -> key x <> key y -> stop x <= start y \/ stop y <= start x) ->
  sumZ (fun x => stop x - start x) l <= M.
Proof.
  revert l M. induction n as [|n IH]; intros l M Hlen HM Hnd Hr Hd; [destruct l; simpl in *; lia|].
  destruct l as [|a l]; [simpl; lia|]. destruct (exists_last a l) as (m & Hm & Hmax).
  apply elem_of_Permutation in Hm as Hp. destruct Hp as [l' Hp].
  assert (forall y, y ∈ l' -> y ∈ a :: l) as Hsub by (intros y Hy; rewrite Hp; by right).
  assert (NoDup (map key (m :: l'))) as Hnd' by (by rewrite <- Hp).
  simpl map in Hnd'. apply NoDup_cons in Hnd' as [Hk Hnd']. destruct (Hr m Hm) as [Hm1 Hm2].
  rewrite (sumZ_perm _ _ _ Hp). simpl. enough (sumZ (fun x => stop x - start x) l' <= start m) by lia.
  apply IH; [apply Permutation_length in Hp; simpl in *; lia|lia|done| |].
  - intros y Hy. destruct (Hr y (Hsub y Hy)) as [? _]. split; [done|].
    assert (key m <> key y) as Hkey by (intros E; apply Hk; rewrite E; by apply list_elem_of_fmap_2).
    destruct (Hd m y Hm (Hsub y Hy) Hkey); [|done]. specialize (Hmax y (Hsub y Hy)). unfold starts_last in Hmax. lia.
  - intros x y Hx Hy. apply Hd; auto.
Qed.
End Intervals.

(** The payable outputs of a request. *)
Definition payable_outputs (rows : list OutputRow) (account request : string) : list OutputRow :=
  List.filter (fun x => ou_output_available x && negb (ou_overlapping_or_duplicate x)
    && String.eqb (id_AccountScope (ou_id x)) account && String.eqb (id_RequestID (ou_id x)) request) rows.

Definition delivered (x : OutputRow) : Z := ou_output_prefix_end_byte x - ou_output_prefix_start_byte x.

Lemma payable_outputs_elem rows account request x :
  x ∈ payable_outputs rows account request <->
  x ∈ rows /\ payable_output x /\ id_AccountScope (ou_id x) = account /\ id_RequestID (ou_id x) = request.
Proof.
  unfold payable_outputs, payable_output. rewrite list_elem_of_In, filter_In, <- list_elem_of_In.
  rewrite !andb_true_iff, negb_true_iff, !String.eqb_eq. tauto.
Qed.

Lemma nodup_filter_map {A B} (f : A -> B) (p : A -> bool) l : NoDup (map f l) -> NoDup (map f (List.filter p l)).
Proof.
  induction l as [|x l IH]; simpl; [done|]. rewrite NoDup_cons. intros [Hn Hl]. destruct (p x); [|by apply IH].
  simpl. apply NoDup_cons. split; [|by apply IH]. intros (y & E & Hy)%list_elem_of_fmap.
  apply Hn. rewrite E. apply list_elem_of_fmap_2. apply list_elem_of_In, filter_In in Hy as [Hy _].
  by apply list_elem_of_In.
Qed.

(** Claim C26. No byte range of a response is paid twice. However attempts report what they
    delivered, repeated, out of order or claiming each other's ranges, the outputs of a
    request that stay payable have disjoint byte ranges, different output hashes (the
    text may repeat: the hash covers the range too), and the order of their attempts;
    together they are no longer than the furthest byte one of them
    reached. *)
Theorem paid_outputs_disjoint {GL : GoLib} (l : list SettlementAttemptOutput) (account request : string) (M : Z) :
  let paid := payable_outputs (insert_outputs [] l) account request in
  (forall x, x ∈ paid -> ou_output_prefix_end_byte x <= M) -> 0 <= M ->
  (forall x y, x ∈ paid -> y ∈ paid -> ou_id x <> ou_id y -> compatible x y)
  /\ sumZ delivered paid <= M.
Proof.
  intros paid HM H0. destruct (insert_outputs_ok l [] outputs_ok_nil) as [H1 H2 _ H4].
  assert (forall x y, x ∈ paid -> y ∈ paid -> ou_id x <> ou_id y -> compatible x y) as Hc.
  { intros x y (Hx & Px & Ex1 & Ex2)%payable_outputs_elem (Hy & Py & Ey1 & Ey2)%payable_outputs_elem Hn.
    apply H4; [done..| |done|done]. split; congruence. }
  split; [done|]. apply (disjoint_total ou_id ou_output_prefix_start_byte ou_output_prefix_end_byte (length paid)); [done|done| | |].
  - by apply nodup_filter_map.
  - intros x Hx. split; [|by apply HM]. apply payable_outputs_elem in Hx as [Hx _]. by apply H2.
  - intros x y Hx Hy Hn. by apply (Hc x y Hx Hy Hn).
Qed.

(** ** Concrete outputs *)

Module OutputSample.
(** A stand-in for SHA-256: sixty-four lower-case digits that depend on the text. *)
Definition checksum (s : string) : N := fold_left (fun n c => (n * 31 + N_of_ascii c) mod 1000003)%N (GoStr.chars s) 7%N.
Definition digits (n : N) : list ascii :=
  map (fun i => ascii_of_N (48 + (n / 10 ^ N.of_nat i) mod 10)) (seq 0 64).
Definition lib : GoLib := {|
  sha256_hex := fun s => GoStr.of_chars (digits (checksum s));
  ed25519_Verify := fun _ _ _ => true;
  base64_decode := Some;
  json_raw_object := fun _ => None;
  json_string := fun s => s;
  json_tuple := fun _ => None;
  text_lib := JcsSample.lib;
  json_any := fun _ => Some JsonNull;
  range_order := fun l => l;
  range_order_perm := fun l => Permutation_refl l;
|}.

Definition ident (n : Z) : SettlementReceiptIdentity := mkId "acct" "req" n "prov".
Definition available (n start : Z) (text : string) : SettlementAttemptOutput :=
  let len := Z.of_nat (String.length text) in
  mkAttemptOutput (ident n) (mkOutput text None true start (start + len) TerminalStateNormalDone 5 []) true
    (mkUsage 1 1 len 1 1) UsageSourceCoordinatorObserved 5 false.
Definition unavailable (n : Z) : SettlementAttemptOutput :=
  mkAttemptOutput (ident n) (mkOutput "" None false 0 0 TerminalStateProviderError 6 []) false
    (mkUsage 1 0 0 1 0) UsageSourceCoordinatorObserved 6 false.
End OutputSample.

#[local] Existing Instance OutputSample.lib.

Lemma paid_outputs_disjoint_witness :
  sumZ delivered (payable_outputs
    (insert_outputs [] [OutputSample.available 0 0 "abc"; OutputSample.available 1 3 "defg"; OutputSample.available 2 5 "xy"])
    "acct" "req") = 3 /\ 3 <= 7.
Proof.
  set (l := [_; _; _]).
  destruct (paid_outputs_disjoint l "acct" "req" 7) as [_ H]; [|lia|].
  - intros x Hx. apply list_elem_of_In in Hx. vm_compute in Hx. destruct Hx as [<- | []]. vm_compute. discriminate.
  - split; [vm_compute; reflexivity|]. etransitivity; [|exact H]. vm_compute. discriminate.
Defined.

(** The count that decides whether an output overlaps has no [output_available = 1], as
    the update that marks the others has. A later attempt without an output, whose range
    is [[0, 0)], makes a repetition of an earlier insert, the very same attempt, an
    immutable conflict. *)
Example repeated_output_refused_after_unavailable :
  let a := OutputSample.available 1 3 "defg" in
  (is_Some (InsertSettlementAttemptOutput (insert_outputs [] [a]) a))
  /\ InsertSettlementAttemptOutput (insert_outputs [] [a; OutputSample.unavailable 2]) a = None.
Proof. split; [eexists|]; vm_compute; reflexivity. Qed.

(** The order in which two attempts are recorded decides whether the output is paid. *)
Example unavailable_order_decides_payment :
  let a := OutputSample.available 1 3 "defg" in
  let b := OutputSample.unavailable 2 in
  length (payable_outputs (insert_outputs [] [a; b]) "acct" "req") = 1%nat
  /\ payable_outputs (insert_outputs [] [b; a]) "acct" "req" = [].
Proof. split; vm_compute; reflexivity. Qed.

(** The hash of an output covers its byte range, so that the same text delivered again
    behind the first is another output: both stay payable. *)
Example same_text_at_another_range_is_paid :
  map (fun x => (ou_output_prefix_start_byte x, ou_output_prefix_end_byte x)) (payable_outputs
    (insert_outputs [] [OutputSample.available 0 0 "abc"; OutputSample.available 1 3 "abc"]) "acct" "req")
  = [(0, 3); (3, 6)].
Proof. vm_compute. reflexivity. Qed.
