(* ===== verification/VersionFloor.v ===== *)
(** * Binary version floors

    Models [phase4-coordinator/internal/versionfloor/versionfloor.go]: the one
    comparator of binary versions and the per-model floor gate, together with
    the load-time validation of [config.validateAdvertisedVersions].

    A version string is parsed to three 64-bit components; the comparator is
    the lexicographic order on them. The floors are a Go map; Go leaves the
    iteration order of a map unspecified, so [lookup] takes the order in which
    the map is enumerated as an argument, and the theorems quantify over it. *)

From S2P Require Import Prelude.

(** ** Parsing *)

Definition is_v (c : ascii) : bool := (Ascii.eqb c "v" || Ascii.eqb c "V")%bool.

(** One dotted field: trimmed, non-empty, decimal digits only, within [int]. *)
Definition parse_field (field : string) : option Z :=
  let field := GoStr.TrimSpace field in
  if String.eqb field "" then None
  else if negb (forallb GoStr.is_digit (GoStr.chars field)) then None
  else GoStr.Atoi field.

Fixpoint parse_fields (fields : list (list ascii)) : option (list Z) :=
  match fields with
  | [] => Some []
  | f :: fs =>
      n ← parse_field (GoStr.of_chars f);
      ns ← parse_fields fs;
      Some (n :: ns)
  end.

(** The padding loop [for len(out) < 3]. *)
Definition pad3 (out : list Z) : list Z := out ++ replicate (3 - length out) 0.

Definition parts (value : string) : option (list Z) :=
  let value := GoStr.TrimLeftFunc is_v (GoStr.TrimSpace value) in
  if String.eqb value "" then None
  else
    let fields := GoStr.split_on "." (GoStr.chars value) in
    if (3 <? length fields)%nat then None
    else out ← parse_fields fields; Some (pad3 out).

Definition Valid (value : string) : bool :=
  match parts value with Some _ => true | None => false end.

(** ** Comparison *)

(** The component loop of [Compare]; a missing component reads as zero. *)
Fixpoint compare_from (n i : nat) (lv rv : list Z) : Z :=
  match n with
  | O => 0
  | S n' =>
      let l := default 0 (lv !! i) in
      let r := default 0 (rv !! i) in
      if l <? r then -1 else if r <? l then 1 else compare_from n' (S i) lv rv
  end.

Definition Compare (lhs rhs : string) : Z * bool :=
  match parts lhs, parts rhs with
  | Some lv, Some rv =>
      (compare_from (Nat.max (length lv) (length rv)) 0 lv rv, true)
  | _, _ => (0, false)
  end.

(** ** The gate *)

Record Result := mkResult { Allowed : bool; Floor : string; Malformed : bool }.

Section Floors.
(** [order m] is the order in which one [range] over [m] visits the entries. *)
Variable order : gmap string string -> list (string * string).

Definition lookup (floors : gmap string string) (modelID : string) : string :=
  match floors !! modelID with
  | Some v => GoStr.TrimSpace v
  | None =>
      let target := GoStr.ToLower (GoStr.TrimSpace modelID) in
      if String.eqb target "" then ""
      else
        match List.find
                (fun kv => String.eqb (GoStr.ToLower (GoStr.TrimSpace kv.1)) target)
                (order floors) with
        | Some kv => GoStr.TrimSpace kv.2
        | None => ""
        end
  end.

Definition Check (floors : gmap string string) (modelID binaryVersion : string) : Result :=
  if (size floors =? 0)%nat then mkResult true "" false
  else
    let floor := lookup floors modelID in
    if String.eqb floor "" then mkResult true "" false
    else
      match Compare binaryVersion floor with
      | (_, false) => mkResult false floor true
      | (cmp, true) =>
          if cmp <? 0 then mkResult false floor false else mkResult true floor false
      end.
End Floors.

(** [config.validateAdvertisedVersions], its per-model loop: every key is
    non-blank and every floor parses. *)
Definition validatePerModelFloors (floors : gmap string string) : bool :=
  forallb (fun kv => (negb (String.eqb (GoStr.TrimSpace kv.1) "") && Valid kv.2)%bool)
    (map_to_list floors).

(** ** Facts about parsing *)

Lemma split_on_nonempty sep l : GoStr.split_on sep l <> [].
Proof. destruct l as [|x l]; simpl; [done|]. by repeat case_match. Qed.

Lemma parse_fields_length fs ns : parse_fields fs = Some ns -> length ns = length fs.
Proof.
  revert ns. induction fs as [|f fs IH]; intros ns H; simplify_option_eq; [done|].
  simpl. f_equal. by apply IH.
Qed.

Lemma parts_length v l : parts v = Some l -> length l = 3%nat.
Proof.
  unfold parts. intros H. split_ifs; [done|done|]. simplify_option_eq.
  match goal with H : parse_fields _ = _ |- _ => apply parse_fields_length in H end.
  unfold pad3. rewrite length_app, length_replicate.
  match goal with H : (_ <? _)%nat = false |- _ => apply Nat.ltb_ge in H end. lia.
Qed.

(** Every parsed version is a triple. *)
Lemma parts_triple v l : parts v = Some l -> exists x y z, l = [x; y; z].
Proof.
  intros H%parts_length. destruct l as [|x [|y [|z [|? ?]]]]; simplify_eq/=. eauto.
Qed.

Lemma parts_trim v : parts (GoStr.TrimSpace v) = parts v.
Proof. unfold parts. by rewrite GoStr.TrimSpace_idem. Qed.

Lemma Valid_trim v : Valid (GoStr.TrimSpace v) = Valid v.
Proof. unfold Valid. by rewrite parts_trim. Qed.

Lemma Valid_nonblank v : Valid v = true -> GoStr.TrimSpace v <> "".
Proof. unfold Valid, parts. intros H Hv. by rewrite Hv in H. Qed.

Lemma Compare_trim_r a b : Compare a (GoStr.TrimSpace b) = Compare a b.
Proof. unfold Compare. by rewrite parts_trim. Qed.

(** ** The comparator as the lexicographic order on triples *)

Definition triple_cmp (a b : Z * Z * Z) : Z :=
  let '(a1, a2, a3) := a in let '(b1, b2, b3) := b in
  if a1 <? b1 then -1 else if b1 <? a1 then 1
  else if a2 <? b2 then -1 else if b2 <? a2 then 1
  else if a3 <? b3 then -1 else if b3 <? a3 then 1 else 0.

Definition version (v : string) : option (Z * Z * Z) :=
  match parts v with Some [x; y; z] => Some (x, y, z) | _ => None end.

Lemma Compare_version a b :
  Compare a b = match version a, version b with
                | Some x, Some y => (triple_cmp x y, true)
                | _, _ => (0, false)
                end.
Proof.
  unfold Compare, version.
  destruct (parts a) as [la|] eqn:Ha; [|done].
  destruct (parts_triple _ _ Ha) as (x & y & z & ->).
  destruct (parts b) as [lb|] eqn:Hb; [|done].
  by destruct (parts_triple _ _ Hb) as (x' & y' & z' & ->).
Qed.

Lemma Valid_version v : Valid v = bool_decide (is_Some (version v)).
Proof.
  unfold Valid, version. destruct (parts v) as [l|] eqn:H; [|done].
  by destruct (parts_triple _ _ H) as (x & y & z & ->).
Qed.

Lemma Compare_valid a b : snd (Compare a b) = (Valid a && Valid b)%bool.
Proof.
  rewrite Compare_version, !Valid_version.
  by destruct (version a), (version b).
Qed.

Lemma triple_cmp_antisym a b : triple_cmp b a = - triple_cmp a b.
Proof. destruct a as [[??]?], b as [[??]?]. simpl. split_ifs; lia. Qed.

Lemma triple_cmp_trans a b c :
  triple_cmp a b <= 0 -> triple_cmp b c <= 0 -> triple_cmp a c <= 0.
Proof.
  destruct a as [[??]?], b as [[??]?], c as [[??]?]. simpl. split_ifs; lia.
Qed.

Lemma triple_cmp_eq a b : triple_cmp a b = 0 <-> a = b.
Proof.
  destruct a as [[a1 a2] a3], b as [[b1 b2] b3]. simpl. split.
  - split_ifs; intros; try lia. repeat f_equal; lia.
  - intros [= -> -> ->]. by rewrite !Z.ltb_irrefl.
Qed.

(** The version comparator is a total preorder on version strings:
    the validity flag is set exactly when both sides parse; swapping the
    arguments negates the verdict; "not newer" is transitive; and equality is
    equality of the three parsed components. *)
Theorem compare_total_order (a b c : string) :
  snd (Compare a b) = (Valid a && Valid b)%bool /\
  Compare b a = (- fst (Compare a b), snd (Compare a b)) /\
  (Valid a && Valid b && Valid c = true ->
    fst (Compare a b) <= 0 -> fst (Compare b c) <= 0 -> fst (Compare a c) <= 0)%bool /\
  (Valid a && Valid b = true -> (fst (Compare a b) = 0 <-> parts a = parts b))%bool.
Proof.
  rewrite !Compare_version, !Valid_version.
  assert (forall v w, is_Some (version v) -> is_Some (version w) ->
    (version v = version w <-> parts v = parts w)) as Hp.
  { intros v w [x Hx] [y Hy]. unfold version in *.
    split; [|by intros ->].
    destruct (parts v) as [[|? [|? [|? [|]]]]|], (parts w) as [[|? [|? [|? [|]]]]|];
      simplify_eq; naive_solver. }
  destruct (version a) as [x|] eqn:Ha, (version b) as [y|] eqn:Hb; simpl.
  2-4: repeat split; try done; intros; destruct (version c); simpl in *; done.
  split; [done|]. split; [by rewrite triple_cmp_antisym|]. split.
  - destruct (version c) as [z|]; [|done]. simpl. eauto using triple_cmp_trans.
  - intros _. rewrite triple_cmp_eq, <- Hp, Ha, Hb by (rewrite ?Ha, ?Hb; eauto). naive_solver.
Qed.

(** ** The gate *)

(** The key [k] names the model [m] up to case and surrounding blanks. *)
Definition names_model (k m : string) : bool :=
  String.eqb (GoStr.ToLower (GoStr.TrimSpace k)) (GoStr.ToLower (GoStr.TrimSpace m)).

Lemma validated_entry floors k f :
  validatePerModelFloors floors = true -> floors !! k = Some f ->
  GoStr.TrimSpace k <> "" /\ Valid f = true.
Proof.
  unfold validatePerModelFloors. intros H Hk.
  apply Forall_forallb, Forall_forall with (x := (k, f)) in H;
    [|by apply elem_of_map_to_list].
  bool_hyps. done.
Qed.

Lemma names_model_blank k m :
  GoStr.TrimSpace k <> "" -> names_model k m = true ->
  GoStr.ToLower (GoStr.TrimSpace m) <> "".
Proof.
  unfold names_model. intros Hk Hn He. bool_hyps. rewrite He in Hn.
  by apply GoStr.ToLower_empty in Hn.
Qed.

(** A lookup returns the trimmed floor of a key that names the model, or the
    empty string when there is none. *)
Lemma lookup_spec order floors m :
  enumerates order -> validatePerModelFloors floors = true ->
  (exists k f, floors !! k = Some f /\ names_model k m = true /\
     lookup order floors m = GoStr.TrimSpace f /\ Valid f = true) \/
  (lookup order floors m = "" /\
   forall k, is_Some (floors !! k) -> names_model k m = false).
Proof.
  intros Ho Hv. pose proof (Ho floors) as Hp. unfold lookup. destruct (floors !! m) as [f|] eqn:Hm.
  { left. exists m, f. unfold names_model. rewrite String.eqb_refl.
    repeat split; auto. by eapply validated_entry. }
  split_ifs; bool_hyps.
  { right. split; [done|]. intros k [f Hk].
    destruct (names_model k m) eqn:Hn; [|done].
    eapply names_model_blank in Hn; [done|]. by eapply validated_entry. }
  destruct (List.find _ _) as [[k f]|] eqn:Hf.
  - left. apply find_Some_elem in Hf as [Hin Hn]. rewrite Hp in Hin.
    apply elem_of_map_to_list in Hin. exists k, f. repeat split; auto.
    by eapply validated_entry.
  - right. split; [done|]. intros k [f Hk].
    apply (find_None_elem _ _ (k, f)) in Hf; [done|].
    rewrite Hp. by apply elem_of_map_to_list.
Qed.

Lemma Check_lookup order floors m v :
  validatePerModelFloors floors = true -> enumerates order ->
  Check order floors m v =
    let f := lookup order floors m in
    if String.eqb f "" then mkResult true "" false
    else mkResult (Valid v && Valid f && (0 <=? fst (Compare v f)))%bool f
           (negb (Valid v && Valid f)%bool).
Proof.
  intros Hv Ho. unfold Check. cbv zeta. split_ifs; bool_hyps; try done.
  - destruct (lookup_spec order floors m Ho Hv) as [(k & f & Hk & _)|[? _]]; [|done].
    match goal with H : (size _ =? 0)%nat = true |- _ =>
      apply Nat.eqb_eq, map_size_empty_inv in H; subst floors end.
    by rewrite lookup_empty in Hk.
  - pose proof (Compare_valid v (lookup order floors m)) as Hc.
    destruct (Compare v _) as [c ok]. simpl in Hc |- *. subst ok.
    destruct (_ && _)%bool; simpl; [|done].
    split_ifs; f_equal; symmetry; lia.
Qed.

(** With floors that passed the load-time validation, the gate
    decides exactly as documented, for any map order: a model that no key names
    is allowed without a floor; otherwise the verdict is against the floor [f]
    of some key naming the model, the version is admitted exactly when it
    parses and is not older than [f], and it is reported malformed exactly
    when it does not parse. *)
Theorem check_verdict (order : gmap string string -> list (string * string))
    (floors : gmap string string) (m v : string) :
  enumerates order -> validatePerModelFloors floors = true ->
  let r := Check order floors m v in
  ((forall k, is_Some (floors !! k) -> names_model k m = false) /\
     r = mkResult true "" false) \/
  (exists k f, floors !! k = Some f /\ names_model k m = true /\
     Floor r = GoStr.TrimSpace f /\
     (Allowed r = true <-> Valid v = true /\ 0 <= fst (Compare v f)) /\
     (Malformed r = true <-> Valid v = false)).
Proof.
  intros Ho Hv. cbv zeta. rewrite (Check_lookup _ _ _ _ Hv Ho). cbv zeta.
  destruct (lookup_spec order floors m Ho Hv) as [(k & f & Hk & Hn & -> & Hf)|[-> H]]; [|auto].
  right. exists k, f. rewrite Compare_trim_r, Valid_trim, Hf.
  pose proof (Valid_nonblank f Hf) as Hb%String.eqb_neq. rewrite Hb. simpl.
  rewrite !andb_true_r, andb_true_iff, negb_true_iff, Z.leb_le. naive_solver.
Qed.

(** The floors of the examples: one lower-case key. *)
Definition sample_floors : gmap string string := {[ "mlx/llama" := " v1.8.33 " ]}.

Lemma check_verdict_witness :
  enumerates (A := string) map_to_list /\ validatePerModelFloors sample_floors = true /\
  (let r := Check map_to_list sample_floors "MLX/Llama" "1.8" in
  ((forall k, is_Some (sample_floors !! k) -> names_model k "MLX/Llama" = false) /\
     r = mkResult true "" false) \/
  (exists k f, sample_floors !! k = Some f /\ names_model k "MLX/Llama" = true /\
     Floor r = GoStr.TrimSpace f /\
     (Allowed r = true <-> Valid "1.8" = true /\ 0 <= fst (Compare "1.8" f)) /\
     (Malformed r = true <-> Valid "1.8" = false))).
Proof.
  split; [exact enumerates_map_to_list|]. split; [vm_compute; reflexivity|].
  apply (check_verdict map_to_list sample_floors "MLX/Llama" "1.8").
  - exact enumerates_map_to_list.
  - vm_compute; reflexivity.
Defined.

(** Two keys that name the same model are the same key. *)
Definition fold_distinct (floors : gmap string string) : Prop :=
  forall k1 k2, is_Some (floors !! k1) -> is_Some (floors !! k2) ->
    names_model k1 k2 = true -> k1 = k2.

Lemma names_model_join k1 k2 m :
  names_model k1 m = true -> names_model k2 m = true -> names_model k1 k2 = true.
Proof. unfold names_model. rewrite !String.eqb_eq. congruence. Qed.

Lemma names_model_refl m : names_model m m = true.
Proof. apply String.eqb_refl. Qed.

(** When no two keys of the validated floors name the same model,
    the verdict does not depend on the map order: every gate of the coordinator
    reaches the same verdict on the same provider. A provider is moreover never
    fenced by an upgrade: a version not older than an admitted one is
    admitted. *)
Theorem check_order_irrelevant
    (order1 order2 : gmap string string -> list (string * string))
    (floors : gmap string string) (m v v' : string) :
  enumerates order1 -> enumerates order2 ->
  validatePerModelFloors floors = true -> fold_distinct floors ->
  Check order1 floors m v = Check order2 floors m v /\
  (Allowed (Check order1 floors m v) = true -> Valid v' = true ->
   fst (Compare v v') <= 0 -> Allowed (Check order2 floors m v') = true).
Proof.
  intros H1 H2 Hv Hd.
  assert (lookup order1 floors m = lookup order2 floors m) as He.
  { destruct (lookup_spec order1 floors m H1 Hv) as [(k1 & f1 & Hk1 & Hn1 & -> & _)|[-> Hn1]],
      (lookup_spec order2 floors m H2 Hv) as [(k2 & f2 & Hk2 & Hn2 & -> & _)|[-> Hn2]]; auto.
    - assert (k1 = k2) as -> by (apply Hd; eauto using names_model_join). congruence.
    - by rewrite Hn2 in Hn1.
    - by rewrite Hn1 in Hn2. }
  rewrite !Check_lookup, He by done. split; [done|]. cbv zeta.
  destruct (String.eqb _ "") eqn:Hb; simpl; [done|].
  set (f := lookup order2 floors m). rewrite !andb_true_iff, !Z.leb_le.
  intros [[Hvv Hf] Hc] Hv' Hle. repeat split; auto.
  rewrite !Valid_version, !bool_decide_eq_true in *. rewrite Compare_version in *.
  destruct (version v) as [x|], (version v') as [y|], (version f) as [z|];
    try by (destruct Hvv, Hv', Hf).
  simpl in *. rewrite triple_cmp_antisym. rewrite triple_cmp_antisym in Hc.
  pose proof (triple_cmp_trans z x y). lia.
Qed.

Lemma check_order_irrelevant_witness :
  fold_distinct sample_floors /\
  Check map_to_list sample_floors "mlx/LLAMA" "1.8.40"
  = Check (fun m => rev (map_to_list m)) sample_floors "mlx/LLAMA" "1.8.40" /\
  Allowed (Check (fun m => rev (map_to_list m)) sample_floors "mlx/LLAMA" "v2") = true.
Proof.
  assert (fold_distinct sample_floors) as Hd.
  { intros k1 k2 [f1 H1] [f2 H2] _. unfold sample_floors in *.
    apply lookup_singleton_Some in H1 as [<- _], H2 as [<- _]. reflexivity. }
  assert (enumerates (A := string) (fun m => rev (map_to_list m))) as Hr.
  { intros m. rewrite <- Permutation_rev. reflexivity. }
  destruct (check_order_irrelevant map_to_list (fun m => rev (map_to_list m))
    sample_floors "mlx/LLAMA" "1.8.40" "v2" enumerates_map_to_list Hr
    ltac:(vm_compute; reflexivity) Hd) as [He Hu].
  split; [exact Hd|]. split; [exact He|].
  apply Hu; vm_compute; (reflexivity || discriminate).
Defined.

(** Without that condition the verdict is not determined: two keys that differ
    only in case pass the validation, and the gate admits or fences the same
    provider depending on the map order. *)
Example floor_verdict_depends_on_map_order :
  let floors : gmap string string :=
    <[ "Mlx/Llama" := "1.0" ]> {[ "MLX/Llama" := "2.0" ]} in
  validatePerModelFloors floors = true /\
  Allowed (Check map_to_list floors "mlx/llama" "1.5")
  <> Allowed (Check (fun m => rev (map_to_list m)) floors "mlx/llama" "1.5").
Proof. vm_compute. split; [reflexivity|discriminate]. Qed.
