(* ===== verification/GoFloat.v ===== *)
(** * Go's [float64]

    Binary floating point of IEEE 754 with 53 bits of precision, rounding to nearest
    even, on the Standard Library's specification of such numbers. Go lets a compiler
    fuse a product and a sum into one rounding; the operations here round each time, as
    the services' amd64 target does. *)

From Stdlib Require Export SpecFloat.
From S2P Require Import Prelude.
#[local] Open Scope Z_scope.

Definition float64 : Type := spec_float.

Module F64.
Definition prec : Z := 53.
Definition emax : Z := 1024.
Definition add : float64 -> float64 -> float64 := SFadd prec emax.
Definition sub : float64 -> float64 -> float64 := SFsub prec emax.
Definition mul : float64 -> float64 -> float64 := SFmul prec emax.
Definition div : float64 -> float64 -> float64 := SFdiv prec emax.
Definition abs : float64 -> float64 := SFabs.
Definition eqb : float64 -> float64 -> bool := SFeqb.
Definition ltb : float64 -> float64 -> bool := SFltb.
Definition leb : float64 -> float64 -> bool := SFleb.

(** The conversion of an integer. *)
Definition of_Z (n : Z) : float64 := binary_normalize prec emax n 0 false.
Definition zero : float64 := S754_zero false.
Definition one : float64 := of_Z 1.
(** The constant [n / d], rounded once. *)
Definition ratio (n d : Z) : float64 := div (of_Z n) (of_Z d).

Definition IsNaN (x : float64) : bool := match x with S754_nan => true | _ => false end.
Definition IsInf (x : float64) : bool := match x with S754_infinity _ => true | _ => false end.

(** The conversion to an integer truncates; what does not fit gives the smallest
    integer, as on amd64. *)
Definition to_int (x : float64) : Z :=
  match x with
  | S754_zero _ => 0
  | S754_finite s m e =>
      let a := if 0 <=? e then Z.pos m * 2 ^ e else Z.pos m / 2 ^ (- e) in
      let n := if s then - a else a in
      if (Int64.min <=? n) && (n <=? Int64.max) then n else Int64.min
  | _ => Int64.min
  end.

(** A number, not a NaN. *)
Definition number (x : float64) : Prop := x <> S754_nan.
(** A number JSON can carry. *)
Definition finite (x : float64) : bool := match x with S754_zero _ | S754_finite _ _ _ => true | _ => false end.
End F64.

(** ** Order

    Without NaNs the comparison is a total preorder: [-0] and [+0] are equal, every
    other number only to itself. *)

(** A key whose lexicographic order is the order of the numbers: sign and class, then
    exponent, then mantissa. *)
Definition float_key (x : float64) : Z * Z * Z :=
  match x with
  | S754_nan => (0, 0, 0)
  | S754_zero _ => (0, 0, 0)
  | S754_infinity s => (if s then -2 else 2, 0, 0)
  | S754_finite s m e => if s then (-1, - e, - Z.pos m) else (1, e, Z.pos m)
  end.

Definition key_compare (a b : Z * Z * Z) : comparison :=
  match a.1.1 ?= b.1.1 with
  | Eq => match a.1.2 ?= b.1.2 with Eq => a.2 ?= b.2 | c => c end
  | c => c
  end.

Lemma key_compare_spec a b :
  match key_compare a b with
  | Eq => a = b
  | Lt => a.1.1 < b.1.1 \/ (a.1.1 = b.1.1 /\ (a.1.2 < b.1.2 \/ (a.1.2 = b.1.2 /\ a.2 < b.2)))
  | Gt => b.1.1 < a.1.1 \/ (b.1.1 = a.1.1 /\ (b.1.2 < a.1.2 \/ (b.1.2 = a.1.2 /\ b.2 < a.2)))
  end.
Proof.
  destruct a as [[a1 a2] a3], b as [[b1 b2] b3]. unfold key_compare. simpl.
  destruct (Z.compare_spec a1 b1); [|lia|lia]. destruct (Z.compare_spec a2 b2); [|lia|lia].
  destruct (Z.compare_spec a3 b3); [|lia|lia]. congruence.
Qed.

Lemma SFcompare_key x y : F64.number x -> F64.number y -> SFcompare x y = Some (key_compare (float_key x) (float_key y)).
Proof.
  unfold F64.number. intros Hx Hy.
  destruct x as [[]|[]| |[] m e], y as [[]|[]| |[] m' e']; try done; unfold key_compare; simpl; try done.
  - rewrite (Z.compare_opp e e'), (Z.compare_antisym e e').
    pose proof (Pos.compare_antisym m m'). unfold Pos.compare in *. destruct (e ?= e'); [simpl|done..]. congruence.
Qed.

Lemma F64_ltb_key x y : F64.number x -> F64.number y ->
  F64.ltb x y = true <-> key_compare (float_key x) (float_key y) = Lt.
Proof.
  intros Hx Hy. unfold F64.ltb, SFltb. rewrite SFcompare_key by done.
  by destruct (key_compare (float_key x) (float_key y)).
Qed.

Lemma F64_eqb_key x y : F64.number x -> F64.number y -> F64.eqb x y = true <-> float_key x = float_key y.
Proof.
  intros Hx Hy. unfold F64.eqb, SFeqb. rewrite SFcompare_key by done.
  pose proof (key_compare_spec (float_key x) (float_key y)) as Hk.
  destruct (key_compare (float_key x) (float_key y)); split; try done; intros E; rewrite E in Hk; lia.
Qed.

(** ** Products

    A product of finite numbers may overflow to an infinity, but is never a NaN. *)

Lemma shr_1_nonneg mrs : 0 <= shr_m mrs -> 0 <= shr_m (shr_1 mrs).
Proof. destruct mrs as [m b1 b2]. destruct m as [|[p|p|]|p]; simpl; lia. Qed.

Lemma shr_nonneg mrs e n : 0 <= shr_m mrs -> 0 <= shr_m (shr mrs e n).1.
Proof.
  intros H. unfold shr. destruct n as [|p|p]; [done| |done]. simpl. revert mrs H.
  induction p as [p IH|p IH|]; intros mrs H; simpl; [|by apply IH, IH|by apply shr_1_nonneg].
  by apply IH, IH, shr_1_nonneg.
Qed.

Lemma shr_fexp_nonneg m e l : 0 <= m -> 0 <= shr_m (shr_fexp F64.prec F64.emax m e l).1.
Proof. intros H. unfold shr_fexp. apply shr_nonneg. by destruct l as [|[]]. Qed.

Lemma round_nearest_even_nonneg m l : 0 <= m -> 0 <= round_nearest_even m l.
Proof. intros H. destruct l as [|[]]; simpl; try lia; destruct (Z.even m); lia. Qed.

Lemma binary_round_aux_number s m e l : 0 <= m -> F64.number (binary_round_aux F64.prec F64.emax s m e l).
Proof.
  intros H. unfold binary_round_aux, F64.number. pose proof (shr_fexp_nonneg m e l H) as H1.
  destruct (shr_fexp _ _ m e l) as [mrs e1]. cbn [fst] in H1.
  assert (0 <= round_nearest_even (shr_m mrs) (loc_of_shr_record mrs)) as H2 by (by apply round_nearest_even_nonneg).
  pose proof (shr_fexp_nonneg _ e1 loc_Exact H2) as H3. destruct (shr_fexp _ _ _ e1 loc_Exact) as [mrs2 e2]. cbn [fst] in H3.
  destruct (shr_m mrs2); [done| |lia]. by destruct (e2 <=? _).
Qed.

Lemma F64_mul_number x y : F64.finite x = true -> F64.finite y = true -> F64.number (F64.mul x y).
Proof.
  intros Hx Hy. destruct x as [| | |sx mx ex], y as [| | |sy my ey]; try done. unfold F64.mul. simpl.
  by apply binary_round_aux_number.
Qed.

Lemma F64_finite_number x : F64.finite x = true -> F64.number x.
Proof. intros H ->. done. Qed.

(** ** The order as a weak order *)

Lemma key_compare_opp a b : key_compare b a = CompOpp (key_compare a b).
Proof.
  unfold key_compare. rewrite (Z.compare_antisym a.1.1 b.1.1), (Z.compare_antisym a.1.2 b.1.2), (Z.compare_antisym a.2 b.2).
  destruct (a.1.1 ?= b.1.1); [|done..]. simpl. by destruct (a.1.2 ?= b.1.2).
Qed.

(** The numbers compare as integers do: [rank] of a finite set of them would be the same. *)
Lemma key_compare_trans a b c : key_compare a b <> Lt -> key_compare b c <> Lt -> key_compare a c <> Lt.
Proof.
  pose proof (key_compare_spec a b). pose proof (key_compare_spec b c). pose proof (key_compare_spec a c).
  destruct (key_compare a b), (key_compare b c), (key_compare a c); subst; try done; lia.
Qed.
