(* ===== verification/GoSort.v ===== *)
(** * [sort.SliceStable]

    Go's stable sort of a slice by a comparison [less]. Slices of at most twenty elements
    are sorted by insertion, longer ones by merging such blocks; for a strict weak order
    there is only one stable result, so the insertion sort stands for both. *)

From S2P Require Import Prelude.
#[local] Open Scope Z_scope.

(** ** The sort *)

Section Sort.
Context {A : Type} (less : A -> A -> bool).

(** The element [x] moves left past the elements it is less than; the prefix is given
    from its end. *)
Fixpoint sift (x : A) (prefix : list A) : list A :=
  match prefix with
  | [] => [x]
  | y :: prefix' => if less x y then y :: sift x prefix' else x :: prefix
  end.

Definition SliceStable (l : list A) : list A := rev (fold_left (fun prefix x => sift x prefix) l []).

(** ** Stable orders *)

Definition same (x y : A) : bool := negb (less x y) && negb (less y x).
Definition in_order : A -> A -> Prop := fun x y => less y x = false.

Lemma sift_perm x r : sift x r ≡ₚ x :: r.
Proof.
  induction r as [|y r IH]; simpl; [done|]. destruct (less x y); [|done]. rewrite IH. apply Permutation_swap.
Qed.

Lemma sifts_perm l : forall r, fold_left (fun prefix x => sift x prefix) l r ≡ₚ l ++ r.
Proof.
  induction l as [|x l IH]; intros r; simpl; [done|]. rewrite IH, sift_perm. by rewrite Permutation_middle.
Qed.

Lemma SliceStable_perm l : SliceStable l ≡ₚ l.
Proof. unfold SliceStable. rewrite <- Permutation_rev, sifts_perm. by rewrite app_nil_r. Qed.
End Sort.

(** A comparison that is a strict weak order on the elements in [P]. *)
Class WeakOrder {A} (less : A -> A -> bool) (P : A -> Prop) : Prop := {
  less_asym : forall x y, P x -> P y -> less x y = true -> less y x = false;
  order_trans : forall x y z, P x -> P y -> P z -> in_order less x y -> in_order less y z -> in_order less x z;
}.

Section Stable.
Context {A : Type} (less : A -> A -> bool) (P : A -> Prop) `{!WeakOrder less P}.
Abbreviation same := (same less).
Abbreviation in_order := (in_order less).

Lemma same_spec x y : same x y = true <-> in_order x y /\ in_order y x.
Proof. unfold GoSort.same, GoSort.in_order. rewrite andb_true_iff, !negb_true_iff. tauto. Qed.

Lemma same_sym x y : same x y = same y x.
Proof. unfold GoSort.same. apply andb_comm. Qed.

Lemma order_refl x : P x -> in_order x x.
Proof.
  intros Hx. unfold GoSort.in_order. destruct (less x x) eqn:E; [|done]. pose proof (less_asym x x Hx Hx E). congruence.
Qed.

Lemma same_refl x : P x -> same x x = true.
Proof. intros Hx. apply same_spec. split; by apply order_refl. Qed.

Lemma same_not_less z x y : P x -> P y -> P z -> same z x = true -> same z y = true -> less x y = false.
Proof.
  intros Hx Hy Hz [H1 H2]%same_spec [H3 H4]%same_spec. change (in_order y x). by apply (order_trans y z x).
Qed.

(** ** The result is in order *)

Lemma sift_order x r : P x -> Forall P r -> StronglySorted (flip in_order) r -> StronglySorted (flip in_order) (sift less x r).
Proof.
  intros Hx HP Hs. induction Hs as [|y r Hs IH Hy]; simpl; [repeat constructor|]. apply Forall_cons in HP as [HPy HP].
  destruct (less x y) eqn:E.
  - constructor; [by apply IH|]. rewrite (sift_perm less x r). constructor; [|done]. unfold flip, GoSort.in_order. by apply less_asym.
  - constructor; [by constructor|]. constructor; [done|]. rewrite Forall_forall in Hy, HP |- *.
    intros z Hz. unfold flip in *. apply (order_trans z y x); auto.
Qed.

Lemma sifts_order l : forall r, Forall P l -> Forall P r -> StronglySorted (flip in_order) r ->
  StronglySorted (flip in_order) (fold_left (fun prefix x => sift less x prefix) l r).
Proof.
  induction l as [|x l IH]; intros r Hl Hr Hs; simpl; [done|]. apply Forall_cons in Hl as [Hx Hl].
  apply IH; [done| |by apply sift_order]. rewrite sift_perm. by constructor.
Qed.

Lemma StronglySorted_rev {B} (R : B -> B -> Prop) l : StronglySorted (flip R) l -> StronglySorted R (rev l).
Proof.
  induction 1 as [|x l Hs IH Hx]; simpl; [constructor|]. apply StronglySorted_app_2; [|done|repeat constructor].
  intros y z Hy Hz. apply list_elem_of_singleton in Hz as ->. rewrite Forall_forall in Hx. apply (Hx y).
  by rewrite <- (elem_of_Permutation_proper y _ _ (Permutation_rev l)) in Hy.
Qed.

(** ** The result is stable *)

Lemma sift_filter z x r : P z -> P x -> Forall P r ->
  List.filter (same z) (sift less x r) = List.filter (same z) (x :: r).
Proof.
  intros Hz Hx HP. induction r as [|y r IH]; [done|]. apply Forall_cons in HP as [HPy HP]. simpl sift.
  destruct (less x y) eqn:E; [|done]. cbn [List.filter]. rewrite IH by done. cbn [List.filter].
  destruct (same z x) eqn:Ex, (same z y) eqn:Ey; try done. rewrite (same_not_less z x y) in E by done. done.
Qed.

Lemma sifts_filter z l : forall r, P z -> Forall P l -> Forall P r ->
  List.filter (same z) (fold_left (fun prefix x => sift less x prefix) l r)
  = rev (List.filter (same z) l) ++ List.filter (same z) r.
Proof.
  induction l as [|x l IH]; intros r Hz Hl Hr; [done|]. apply Forall_cons in Hl as [Hx Hl]. cbn [fold_left].
  rewrite IH; [|done|done|rewrite sift_perm; by constructor]. rewrite sift_filter by done. cbn [List.filter].
  destruct (same z x); [|done]. simpl. by rewrite <- app_assoc.
Qed.

Lemma filter_rev_list {B} (p : B -> bool) l : List.filter p (rev l) = rev (List.filter p l).
Proof. induction l as [|x l IH]; [done|]. simpl. rewrite List.filter_app, IH. simpl. by destruct (p x); rewrite ?app_nil_r. Qed.

End Stable.

(** Outside [P] a class need not be defined; on a list in [P] the sort is stable for the
    class of every element in [P]. *)
Record stable_sort_in {A} (less : A -> A -> bool) (P : A -> Prop) (l l' : list A) : Prop := mkStableSortIn {
  sti_perm : l' ≡ₚ l;
  sti_order : StronglySorted (in_order less) l';
  sti_stable : forall x, P x -> List.filter (same less x) l' = List.filter (same less x) l;
}.

Section Spec.
Context {A : Type} (less : A -> A -> bool) (P : A -> Prop) `{!WeakOrder less P}.

Lemma SliceStable_spec l : Forall P l -> stable_sort_in less P l (SliceStable less l).
Proof.
  intros HP. split; [apply SliceStable_perm| |].
  - apply StronglySorted_rev. apply (sifts_order less P); [done|constructor|constructor].
  - intros x Hx. unfold SliceStable. rewrite filter_rev_list, (sifts_filter less P) by (done || constructor).
    simpl. by rewrite app_nil_r, rev_involutive.
Qed.

(** Stable sorts agree. *)
Lemma stable_unique_filters (l1 l2 : list A) : Forall P l1 -> Forall P l2 ->
  StronglySorted (in_order less) l1 -> StronglySorted (in_order less) l2 ->
  (forall x, P x -> List.filter (same less x) l1 = List.filter (same less x) l2) -> l1 = l2.
Proof.
  intros HP1. revert l2. induction l1 as [|x l1 IH]; intros l2 HP2 Hs1 Hs2 Hf.
  - destruct l2 as [|y l2]; [done|]. apply Forall_cons in HP2 as [HPy _]. specialize (Hf y HPy). simpl in Hf.
    by rewrite (same_refl less P y HPy) in Hf.
  - apply Forall_cons in HP1 as [HPx HP1]. destruct l2 as [|y l2].
    { specialize (Hf x HPx). simpl in Hf. by rewrite (same_refl less P x HPx) in Hf. }
    apply Forall_cons in HP2 as [HPy HP2].
    assert (x ∈ y :: l2 /\ y ∈ x :: l1) as [Hx Hy].
    { split.
      - assert (x ∈ List.filter (same less x) (y :: l2)) as H by (rewrite <- (Hf x HPx); simpl; rewrite (same_refl less P x HPx); left).
        by apply elem_of_List_filter in H as [H _].
      - assert (y ∈ List.filter (same less y) (x :: l1)) as H by (rewrite (Hf y HPy); simpl; rewrite (same_refl less P y HPy); left).
        by apply elem_of_List_filter in H as [H _]. }
    apply StronglySorted_cons in Hs1 as [Ho1 Hs1]. apply StronglySorted_cons in Hs2 as [Ho2 Hs2].
    rewrite Forall_forall in Ho1, Ho2.
    assert (in_order less x y) as Hxy by (apply elem_of_cons in Hy as [->|Hy]; [by apply (order_refl less P)|by apply Ho1]).
    assert (in_order less y x) as Hyx by (apply elem_of_cons in Hx as [->|Hx]; [by apply (order_refl less P)|by apply Ho2]).
    assert (same less x y = true) as Hsame by (by apply same_spec).
    assert (x = y) as <-.
    { specialize (Hf x HPx). simpl in Hf. rewrite (same_refl less P x HPx), Hsame in Hf. congruence. }
    f_equal. apply IH; [done..|]. intros z Hz. specialize (Hf z Hz). simpl in Hf. destruct (same less z x); congruence.
Qed.

(** The sort is the only stable one, whatever algorithm computes it. *)
Lemma SliceStable_unique l l' : Forall P l -> stable_sort_in less P l l' -> l' = SliceStable less l.
Proof.
  intros HP [Hp Ho Hs]. destruct (SliceStable_spec l HP) as [Hp' Ho' Hs'].
  apply stable_unique_filters; [by rewrite Hp|by rewrite Hp'|done|done|].
  intros x Hx. by rewrite Hs, Hs'.
Qed.

(** The first element is minimal. *)
Lemma SliceStable_head l x l' : Forall P l -> SliceStable less l = x :: l' -> x ∈ l /\ Forall (fun y => less y x = false) l.
Proof.
  intros HP E. destruct (SliceStable_spec l HP) as [Hp Ho _]. rewrite E in Hp, Ho. split; [rewrite <- Hp; left|].
  rewrite <- Hp. apply StronglySorted_cons in Ho as [Ho _]. constructor; [|done]. apply (order_refl less P).
  rewrite <- Hp in HP. by apply Forall_cons in HP as [? _].
Qed.
End Spec.

(** ** Building weak orders *)

Section Combine.
Context {A : Type} (P : A -> Prop).

(** [less1] first, and [less2] where it does not tell. *)
Definition lex (less1 less2 : A -> A -> bool) (x y : A) : bool := if same less1 x y then less2 x y else less1 x y.

Lemma lex_in_order less1 less2 x y : WeakOrder less1 P -> P x -> P y ->
  in_order (lex less1 less2) x y <-> in_order less1 x y /\ (in_order less1 y x -> in_order less2 x y).
Proof.
  intros HW Hx Hy. unfold in_order at 1. unfold lex, same. destruct (less1 y x) eqn:E1; simpl.
  - split; [done|]. intros [H _]. unfold in_order in H. congruence.
  - destruct (less1 x y) eqn:E2; simpl.
    + split; [|done]. intros _. split; [done|]. intros H. unfold in_order in H. congruence.
    + split; [by intros H|]. intros [_ H]. by apply H.
Qed.

#[global] Instance lex_weak less1 less2 : WeakOrder less1 P -> WeakOrder less2 P -> WeakOrder (lex less1 less2) P.
Proof.
  intros H1 H2. split.
  - intros x y Hx Hy. unfold lex. rewrite (same_sym less1 y x). destruct (same less1 x y); [by apply less_asym|by apply less_asym].
  - intros x y z Hx Hy Hz. rewrite !lex_in_order by done. intros [A1 A2] [B1 B2]. split; [by apply (order_trans x y z)|].
    intros Hzx. apply (order_trans x y z); [done..| |].
    + apply A2. by apply (order_trans y z x).
    + apply B2. by apply (order_trans z x y).
Qed.

Lemma weak_ext less less' : (forall x y, P x -> P y -> less' x y = less x y) -> WeakOrder less P -> WeakOrder less' P.
Proof.
  intros E HW. split.
  - intros x y Hx Hy. rewrite !E by done. by apply less_asym.
  - intros x y z Hx Hy Hz. unfold in_order. rewrite !E by done. by apply (order_trans x y z).
Qed.

#[global] Instance ascending_weak (f : A -> Z) : WeakOrder (fun x y => f x <? f y) P.
Proof. split; unfold in_order; intros; lia. Qed.
End Combine.
