(* ===== verification/Pool.v ===== *)
(** * The provider pool

    Models [phase4-coordinator/internal/pool/provider.go]: the registry of connected
    providers with its recovery holds, canary sanctions, circuit breaker, receipt-key
    rotation and the bounded memory of model names. Every method runs under the
    registry's mutex, so it is one step here. The two maps of pointers, by provider and by
    session, share their objects, so the registry keeps a heap. *)

From S2P Require Import Prelude Jcs GoTime GoFloat.
#[local] Open Scope Z_scope.

(** ** Constants *)

Definition StateReady : string := "ready".
Definition StateBusy : string := "busy".
Definition StateDegraded : string := "degraded".
Definition StateDraining : string := "draining".
Definition StateUnavailable : string := "unavailable".

Definition TierPinned : string := "pinned".
Definition TierProvisional : string := "provisional".

Definition InferencePathHTTPForwarding : string := "http_forwarding".
Definition InferencePathWSTunneled : string := "ws_tunneled".

Definition RecoveryReasonBreaker : string := "breaker".
Definition RecoveryReasonProviderFailure : string := "provider_failure".
Definition RecoveryReasonCanary : string := "canary".
Definition RecoveryReasonOperatorClear : string := "operator_clear".

Definition HashStatusVerified : string := "hash_verified".
Definition HashStatusMismatch : string := "hash_mismatch".
Definition HashStatusInvalid : string := "hash_invalid".
Definition HashStatusUncatalogued : string := "uncatalogued".
Definition HashStatusCatalogUnavailable : string := "catalog_unavailable".

Definition AttestationStatusAttested : string := "attested".
Definition AttestationStatusStale : string := "attestation_stale".

Definition AuthBearerValidated : string := "bearer_validated".
Definition AuthSelfMinted : string := "self_minted".
Definition AuthSelfMintedVerified : string := "self_minted_verified".
Definition AuthBearerlessDuplicate : string := "bearerless_duplicate".

(** ** Providers *)

Record ReceiptPubkeyPrevious := mkPrevious {
  prev_Pubkey : string;
  prev_RotatedAt : Z;
  prev_ExpiresAt : Z;
}.

Record ProviderHardwareCapacity := mkHardware {
  hw_Chip : string;
  hw_BandwidthGBPerSec : Z;
  hw_NetworkPowerKW : float64;
  hw_GPUCoresTotal : Z;
  hw_CPUCoresTotal : Z;
}.

Record Tier2Session := mkTier2 {
  t2_AEADSuite : string;
  t2_ResponseChunkPlaintextEnvelope : bool;
  t2_InBandAEADRekeyV1 : bool;
  t2_C2PKey : string;
  t2_P2CKey : string;
  t2_C2PNonceBase : string;
  t2_P2CNonceBase : string;
  t2_C2PCounter : Z;
  t2_P2CCounter : Z;
  t2_P2CSeen : gset Z;
  t2_RequestsDispatched : Z;
  t2_KeyID : string;
  t2_StartedAt : Z;
}.

Record ProviderSafetyTelemetry := mkTelemetry {
  t_SchemaVersion : Z;
  t_ProviderID : string;
  t_ModelID : string;
  t_ModelLoaded : bool;
  t_RuntimeState : string;
  t_HardwareTier : string;
  t_RequestsInFlight : Z;
  t_RequestsQueued : Z;
  t_MemoryRSSMB : Z;
  t_MemoryCapacityMB : Z;
  t_MemoryPressure : string;
  t_ThermalState : string;
  t_ThermallyThrottled : bool;
  t_RestartCount : Z;
  t_UptimeS : Z;
  t_CoordinatorConnected : bool;
  t_CoordinatorSessionID : string;
  t_CPUUtilizationPct : option float64;
  t_GPUUtilizationPct : option float64;
  t_GPUUtilizationScope : string;
  t_PowerSource : string;
  t_BinaryVersion : string;
  t_CompatibilitySetID : string;
  t_ModelHash : string;
  t_ModelHashAlgorithm : string;
  t_WeightsManifestSHA256 : string;
  t_WeightsHashAlgorithm : string;
  t_ObservationID : string;
  t_ObservedAt : string;
  t_ValidForMS : Z;
}.
#[export] Instance ProviderSafetyTelemetry_rebuild : Rebuild ProviderSafetyTelemetry := fun r =>
  mkTelemetry r.(t_SchemaVersion) r.(t_ProviderID) r.(t_ModelID) r.(t_ModelLoaded) r.(t_RuntimeState)
    r.(t_HardwareTier) r.(t_RequestsInFlight) r.(t_RequestsQueued) r.(t_MemoryRSSMB) r.(t_MemoryCapacityMB)
    r.(t_MemoryPressure) r.(t_ThermalState) r.(t_ThermallyThrottled) r.(t_RestartCount) r.(t_UptimeS)
    r.(t_CoordinatorConnected) r.(t_CoordinatorSessionID) r.(t_CPUUtilizationPct) r.(t_GPUUtilizationPct)
    r.(t_GPUUtilizationScope) r.(t_PowerSource) r.(t_BinaryVersion) r.(t_CompatibilitySetID) r.(t_ModelHash)
    r.(t_ModelHashAlgorithm) r.(t_WeightsManifestSHA256) r.(t_WeightsHashAlgorithm) r.(t_ObservationID)
    r.(t_ObservedAt) r.(t_ValidForMS).

(** The fields of a session. A byte slice is a string, empty when nil; a connection is
    its handle. Fields no method of the pool or of the routing reads or writes (display
    and catalog metadata) are left out. *)
Record Provider := mkProvider {
  p_ProviderID : string;
  p_AssignedID : string;
  p_Hostname : string;
  p_ModelID : string;
  p_ModelParamsB : float64;
  p_RAMGB : Z;
  p_MaxContextTokens : Z;
  p_MaxConcurrency : Z;
  p_SlotsFree : Z;
  p_SlotsTotal : Z;
  p_ThroughputTPSEstimate : float64;
  p_RequestsServedSinceLast : Z;
  p_ThroughputTPSSinceLast : float64;
  p_EndpointURL : string;
  p_Tier : string;
  p_AuthState : string;
  p_InferencePath : string;
  p_HTTPForwardingOnly : bool;
  p_State : string;
  p_LastHeartbeatAt : Z;
  p_LastActivityAt : Z;
  p_ConnectedAt : Z;
  p_BinaryVersion : string;
  p_ModelHash : string;
  p_ModelHashAlgorithm : string;
  p_WeightsManifestSHA256 : string;
  p_WeightsHashAlgorithm : string;
  p_ExpectedModelHash : string;
  p_HashStatus : string;
  p_EncryptedLeg : bool;
  p_CatalogAdmissionMode : string;
  p_ReceiptPubkey : string;
  p_ReceiptPubkeyPrev : option ReceiptPubkeyPrevious;
  p_PendingReceiptPubkey : string;
  p_AttestationStatus : string;
  p_CanaryFailCount : Z;
  p_CanaryLastCheckedAt : option Z;
  p_CanaryLastFailedAt : option Z;
  p_CanaryLastTTFTMS : Z;
  p_CanaryLastSustainedTPS : float64;
  p_BenchmarkQuarantined : bool;
  p_LastBuyerSuccessAt : option Z;
  p_LastAutoupdateEvent : string;
  p_HardwareCapacity : option ProviderHardwareCapacity;
  p_SafetyTelemetry : option ProviderSafetyTelemetry;
  p_AdmissionCeilingExcluded : bool;
  p_AdmissionEvidenceStale : bool;
  p_AdmissionSandboxed : bool;
  p_AdmissionSandboxCredentialBypassed : bool;
  p_ModelClassOPoIPass : option bool;
  p_SEPublicKey : string;
  p_AttestationTier : string;
  p_LastSELivenessAt : option Z;
  p_SELivenessFailCount : Z;
  p_SupportedModels : list string;
  p_LastLoadingState : bool;
  p_LoadingStartedAt : Z;
  p_Tier2Session : option Tier2Session;
  p_conn : option Z;
}.
#[export] Instance Provider_rebuild : Rebuild Provider := fun r =>
  mkProvider r.(p_ProviderID) r.(p_AssignedID) r.(p_Hostname) r.(p_ModelID) r.(p_ModelParamsB) r.(p_RAMGB)
    r.(p_MaxContextTokens) r.(p_MaxConcurrency) r.(p_SlotsFree) r.(p_SlotsTotal) r.(p_ThroughputTPSEstimate)
    r.(p_RequestsServedSinceLast) r.(p_ThroughputTPSSinceLast) r.(p_EndpointURL) r.(p_Tier) r.(p_AuthState)
    r.(p_InferencePath) r.(p_HTTPForwardingOnly) r.(p_State) r.(p_LastHeartbeatAt) r.(p_LastActivityAt)
    r.(p_ConnectedAt) r.(p_BinaryVersion) r.(p_ModelHash) r.(p_ModelHashAlgorithm) r.(p_WeightsManifestSHA256)
    r.(p_WeightsHashAlgorithm) r.(p_ExpectedModelHash) r.(p_HashStatus) r.(p_EncryptedLeg)
    r.(p_CatalogAdmissionMode) r.(p_ReceiptPubkey) r.(p_ReceiptPubkeyPrev) r.(p_PendingReceiptPubkey)
    r.(p_AttestationStatus) r.(p_CanaryFailCount) r.(p_CanaryLastCheckedAt) r.(p_CanaryLastFailedAt)
    r.(p_CanaryLastTTFTMS) r.(p_CanaryLastSustainedTPS) r.(p_BenchmarkQuarantined) r.(p_LastBuyerSuccessAt)
    r.(p_LastAutoupdateEvent) r.(p_HardwareCapacity) r.(p_SafetyTelemetry) r.(p_AdmissionCeilingExcluded)
    r.(p_AdmissionEvidenceStale) r.(p_AdmissionSandboxed) r.(p_AdmissionSandboxCredentialBypassed)
    r.(p_ModelClassOPoIPass) r.(p_SEPublicKey) r.(p_AttestationTier) r.(p_LastSELivenessAt)
    r.(p_SELivenessFailCount) r.(p_SupportedModels) r.(p_LastLoadingState) r.(p_LoadingStartedAt) r.(p_Tier2Session)
    r.(p_conn).

Definition isReady (p : Provider) : bool := String.eqb p.(p_State) StateReady.

(** The exclusions [RoutingEligible] and [ServingCapable] share. *)
Definition excluded_session (p : Provider) : bool :=
  String.eqb p.(p_AuthState) AuthBearerlessDuplicate || String.eqb p.(p_AuthState) AuthSelfMinted
  || String.eqb p.(p_CatalogAdmissionMode) "legacy" || String.eqb p.(p_CatalogAdmissionMode) "update_bridge"
  || negb (String.eqb p.(p_PendingReceiptPubkey) "") || p.(p_BenchmarkQuarantined)
  || (p.(p_AdmissionCeilingExcluded) || p.(p_AdmissionEvidenceStale) || p.(p_AdmissionSandboxed)).

Definition RoutingEligible (p : Provider) : bool :=
  negb (excluded_session p) && (isReady p && (0 <? p.(p_SlotsFree))).
Definition ServingCapable (p : Provider) : bool :=
  negb (excluded_session p) && (isReady p || String.eqb p.(p_State) StateBusy).
Definition CapacityEligible (p : Provider) : bool := ServingCapable p.
Definition IsWSTunneled (p : Provider) : bool :=
  String.eqb p.(p_InferencePath) InferencePathWSTunneled && negb p.(p_HTTPForwardingOnly).
Definition SortKey (p : Provider) : string := p.(p_ProviderID) +:+ "/" +:+ p.(p_AssignedID).

(** ** The registry *)

Record ProviderConfig := mkProviderConfig {
  pc_ProviderID : string;
  pc_EndpointURL : string;
  pc_DisplayName : string;
}.

Record recoveryHold := mkHold { rh_assignedID : string; rh_reason : string }.

Record canarySanction := mkSanction {
  cs_failCount : Z;
  cs_lastCheckedAt : option Z;
  cs_lastFailedAt : option Z;
}.

Record Registry := mkRegistry {
  objects : gmap positive Provider;
  providers : gmap string positive;
  sessions : gmap string positive;
  endpoints : gmap string ProviderConfig;
  buyerServing : option (Provider -> bool);
  seenModelsByProvider : gmap string (gset string);
  seenModelsLifetime : gset string;
  lifetimeContribByProvider : gmap string Z;
  lifetimeCapWarnedOnce : bool;
  lifetimeCapDroppedCount : Z;
  breakerFaults : gmap string (list Z);
  recoveryHolds : gmap string recoveryHold;
  canarySanctions : gmap string canarySanction;
  lastBreakerRecoveries : gmap string Z;
  hashVerifier : option (string -> string -> string);
  modelIdentityVerifier : option (string -> string -> string -> string -> string);
}.
#[export] Instance Registry_rebuild : Rebuild Registry := fun r =>
  mkRegistry r.(objects) r.(providers) r.(sessions) r.(endpoints) r.(buyerServing) r.(seenModelsByProvider)
    r.(seenModelsLifetime) r.(lifetimeContribByProvider) r.(lifetimeCapWarnedOnce) r.(lifetimeCapDroppedCount)
    r.(breakerFaults) r.(recoveryHolds) r.(canarySanctions) r.(lastBreakerRecoveries) r.(hashVerifier)
    r.(modelIdentityVerifier).

Definition maxSeenModelsPerProvider : Z := 32.
Definition maxSeenModelsLifetime : Z := 4096.
Definition maxModelIDByteLen : Z := 256.
Definition maxLifetimeContribPerProvider : Z := 128.
Definition ReceiptRotationGrace : Z := 7 * 24 * 3600 * 1000000000.

Definition NewRegistry (configs : list ProviderConfig) (hashV : option (string -> string -> string))
    (identityV : option (string -> string -> string -> string -> string)) : Registry :=
  mkRegistry ∅ ∅ ∅ (fold_left (fun m c => <[pc_ProviderID c := c]> m) configs ∅) None ∅ ∅ ∅ false 0 ∅ ∅ ∅ ∅ hashV identityV.

(** The object of a provider, and the object of a session that is still current. *)
Definition provider_at (r : Registry) (ptr : positive) : option (positive * Provider) :=
  p ← r.(objects) !! ptr; Some (ptr, p).
Definition find_provider (r : Registry) (providerID : string) : option (positive * Provider) :=
  ptr ← r.(providers) !! providerID; provider_at r ptr.
Definition find_session (r : Registry) (providerID assignedID : string) : option (positive * Provider) :=
  '(ptr, p) ← find_provider r providerID;
  if String.eqb p.(p_AssignedID) assignedID then Some (ptr, p) else None.

Definition put (r : Registry) (ptr : positive) (p : Provider) : Registry :=
  r <| objects := <[ptr := p]> r.(objects) |>.

(** Runs [f] on the object of the current session; [d] is the answer when there is none. *)
Definition with_session {A} (r : Registry) (providerID assignedID : string) (d : A)
    (f : positive -> Provider -> Registry * A) : Registry * A :=
  match find_session r providerID assignedID with
  | Some (ptr, p) => f ptr p
  | None => (r, d)
  end.

(** Runs [f] on every registered provider; the order does not matter, as each call sees
    only its own object. *)
Definition for_providers (r : Registry) (f : Provider -> Provider) : Registry :=
  r <| objects := foldr (fun (kv : string * positive) objs => alter f kv.2 objs) r.(objects) (map_to_list r.(providers)) |>.
Definition registered (r : Registry) : list Provider :=
  omap (fun kv : string * positive => r.(objects) !! kv.2) (map_to_list r.(providers)).
Definition count_providers (r : Registry) (test : Provider -> bool) : Z :=
  Z.of_nat (length (List.filter test (registered r))).

(** ** Eligibility of buyers, model names *)

Definition providerServesActiveModel (p : Provider) (modelID : string) : bool :=
  GoStr.EqualFold p.(p_ModelID) modelID.

Definition isBuyerServing (r : Registry) (p : Provider) : bool :=
  match r.(buyerServing) with
  | Some fn => fn p
  | None => RoutingEligible p && (0 <? p.(p_MaxContextTokens))
  end.

Definition hasOtherBuyerServingForModel (r : Registry) (excludeID modelID : string) : bool :=
  existsb (fun kv : string * positive =>
    negb (String.eqb kv.1 excludeID)
    && match r.(objects) !! kv.2 with
       | Some p => providerServesActiveModel p modelID && isBuyerServing r p
       | None => false
       end) (map_to_list r.(providers)).

Definition BuyerServingCountForModel (r : Registry) (modelID : string) : Z :=
  count_providers r (fun p => providerServesActiveModel p modelID && isBuyerServing r p).

Definition uint64_incr (n : Z) : Z := (n + 1) mod Int64.modulus.
Definition byte_len (s : string) : Z := Z.of_nat (String.length s).

Definition recordSeenModelLocked (r : Registry) (providerID modelID : string) : Registry :=
  if String.eqb providerID "" || String.eqb modelID "" then r
  else if maxModelIDByteLen <? byte_len modelID then r
  else
  let seen := default ∅ (r.(seenModelsByProvider) !! providerID) in
  let seen' := if negb (bool_decide (modelID ∈ seen)) && (Z.of_nat (size seen) <? maxSeenModelsPerProvider)
               then {[modelID]} ∪ seen else seen in
  let r := r <| seenModelsByProvider := <[providerID := seen']> r.(seenModelsByProvider) |> in
  let canonical := GoStr.ToLower modelID in
  let contributed := default 0 (r.(lifetimeContribByProvider) !! providerID) in
  if bool_decide (canonical ∈ r.(seenModelsLifetime)) then r
  else if maxLifetimeContribPerProvider <=? contributed then
    r <| lifetimeCapDroppedCount := uint64_incr r.(lifetimeCapDroppedCount) |>
  else if maxSeenModelsLifetime <=? Z.of_nat (size r.(seenModelsLifetime)) then
    r <| lifetimeCapDroppedCount := uint64_incr r.(lifetimeCapDroppedCount) |> <| lifetimeCapWarnedOnce := true |>
  else
    r <| seenModelsLifetime := {[canonical]} ∪ r.(seenModelsLifetime) |>
      <| lifetimeContribByProvider := <[providerID := Int64.add contributed 1]> r.(lifetimeContribByProvider) |>.

Definition recordSeenModelsUnionLocked (r : Registry) (providerID modelID : string) (supported : list string) : Registry :=
  fold_left (fun r m => recordSeenModelLocked r providerID m) supported (recordSeenModelLocked r providerID modelID).

(** [ModelKnown]: the fast lookup first, then the scans of the four indexes. *)
Definition ModelKnown (r : Registry) (modelID : string) : bool :=
  negb (String.eqb modelID "")
  && (bool_decide (GoStr.ToLower modelID ∈ r.(seenModelsLifetime))
      || existsb (fun stored => GoStr.EqualFold stored modelID) (elements r.(seenModelsLifetime))
      || existsb (fun p => GoStr.EqualFold p.(p_ModelID) modelID) (registered r)
      || existsb (fun p => existsb (fun m => GoStr.EqualFold m modelID) p.(p_SupportedModels)) (registered r)
      || existsb (fun kv : string * gset string =>
           bool_decide (modelID ∈ kv.2) || existsb (fun stored => GoStr.EqualFold stored modelID) (elements kv.2))
         (map_to_list r.(seenModelsByProvider))).

(** ** State changes *)

Definition clearBreakerStateLocked (r : Registry) (providerID : string) : Registry :=
  r <| breakerFaults := delete providerID r.(breakerFaults) |>
    <| recoveryHolds := delete providerID r.(recoveryHolds) |>
    <| lastBreakerRecoveries := delete providerID r.(lastBreakerRecoveries) |>.

Definition applyStateCleanupLocked (r : Registry) (providerID next : string) : Registry :=
  if String.eqb next StateUnavailable then clearBreakerStateLocked r providerID else r.

Definition setStateLocked (r : Registry) (ptr : positive) (p : Provider) (next : string) : Registry :=
  applyStateCleanupLocked (put r ptr (p <| p_State := next |>)) p.(p_ProviderID) next.

(** The hold of a provider, if it is on this session. *)
Definition session_hold (r : Registry) (p : Provider) : option recoveryHold :=
  match r.(recoveryHolds) !! p.(p_ProviderID) with
  | Some hold => if String.eqb hold.(rh_assignedID) p.(p_AssignedID) then Some hold else None
  | None => None
  end.

Definition canSetCoordinatorStateLocked (r : Registry) (p : Provider) (next : string) : bool :=
  if negb (String.eqb next StateReady) then true
  else match session_hold r p with
  | Some _ => false
  | None => negb (String.eqb p.(p_State) StateUnavailable)
  end.

Definition canApplyProviderStateLocked (r : Registry) (p : Provider) (next : string) : bool :=
  match session_hold r p with
  | Some _ => String.eqb next StateDegraded
  | None => if negb (String.eqb next StateReady) then true else negb (String.eqb p.(p_State) StateUnavailable)
  end.

Definition MarkState (r : Registry) (providerID assignedID state : string) : Registry * bool :=
  with_session r providerID assignedID false (fun ptr p =>
    if canSetCoordinatorStateLocked r p state then (setStateLocked r ptr p state, true) else (r, false)).

Definition hold_is (hold : option recoveryHold) (assignedID reason : string) : bool :=
  match hold with
  | Some h => String.eqb h.(rh_assignedID) assignedID && String.eqb h.(rh_reason) reason
  | None => false
  end.

Definition MarkDegradedForRecovery (r : Registry) (providerID assignedID reason : string) : Registry * bool :=
  with_session r providerID assignedID false (fun ptr p =>
    if hold_is (r.(recoveryHolds) !! providerID) assignedID RecoveryReasonCanary then (r, false)
    else
      let r := setStateLocked r ptr p StateDegraded in
      (r <| recoveryHolds := <[providerID := mkHold assignedID reason]> r.(recoveryHolds) |>, true)).

Definition MarkRecovered (r : Registry) (now : Z) (providerID assignedID : string) (at_ : Z) : Registry * bool :=
  let at_ := or_now at_ now in
  with_session r providerID assignedID false (fun ptr p =>
    match r.(recoveryHolds) !! providerID with
    | None => (r, false)
    | Some hold =>
        if negb (String.eqb hold.(rh_assignedID) assignedID) then (r, false)
        else if String.eqb hold.(rh_reason) RecoveryReasonCanary then (r, false)
        else
          let r := setStateLocked r ptr p StateReady in
          let r := r <| breakerFaults := delete providerID r.(breakerFaults) |>
                     <| recoveryHolds := delete providerID r.(recoveryHolds) |> in
          (if String.eqb hold.(rh_reason) RecoveryReasonBreaker
           then r <| lastBreakerRecoveries := <[providerID := at_]> r.(lastBreakerRecoveries) |> else r, true)
    end).

Definition CanaryRecoveryEligible (r : Registry) (providerID assignedID : string) : bool :=
  hold_is (r.(recoveryHolds) !! providerID) assignedID RecoveryReasonCanary.

(** ** The circuit breaker *)

Definition BreakerTripNone : string := "".
Definition BreakerTripDegraded : string := "degraded".
Definition BreakerTripUnavailable : string := "unavailable".

Record BreakerFaultResult := mkBreakerFault { bf_Count : Z; bf_Threshold : Z; bf_Tripped : string }.

Definition RecordBreakerFault (r : Registry) (now : Z) (providerID assignedID : string) (at_ threshold window : Z)
    : Registry * BreakerFaultResult :=
  let threshold := if threshold <=? 0 then 2 else threshold in
  let window := if window <=? 0 then 120 * second else window in
  let at_ := or_now at_ now in
  with_session r providerID assignedID (mkBreakerFault 0 threshold BreakerTripNone) (fun ptr p =>
    if negb (isReady p) && negb (String.eqb p.(p_State) StateBusy) then (r, mkBreakerFault 0 threshold BreakerTripNone)
    else
    let kept := List.filter (fun faultAt => negb (faultAt <? at_ - window)) (default [] (r.(breakerFaults) !! providerID)) ++ [at_] in
    let r := r <| breakerFaults := <[providerID := kept]> r.(breakerFaults) |> in
    let n := Z.of_nat (length kept) in
    if n <? threshold then (r, mkBreakerFault n threshold BreakerTripNone)
    else
    let recoveredAt := default zero_time (r.(lastBreakerRecoveries) !! providerID) in
    if negb (IsZero recoveredAt) && (time_sub at_ recoveredAt <=? window) then
      (setStateLocked r ptr p StateUnavailable, mkBreakerFault n threshold BreakerTripUnavailable)
    else
      let r := setStateLocked r ptr p StateDegraded in
      (r <| recoveryHolds := <[providerID := mkHold assignedID RecoveryReasonBreaker]> r.(recoveryHolds) |>,
       mkBreakerFault n threshold BreakerTripDegraded)).

(** ** Canaries *)

Definition CanaryTripNone : string := "".
Definition CanaryTripDegraded : string := "degraded".
Definition CanaryTripUnavailable : string := "unavailable".
Definition CanaryTripFloorHeld : string := "floor_held".

Record CanaryResult := mkCanary {
  cr_Current : bool;
  cr_Passed : bool;
  cr_Count : Z;
  cr_Threshold : Z;
  cr_Tier : string;
  cr_Tripped : string;
  cr_SanctionCleared : bool;
}.

Definition canary_passed (r : Registry) (ptr : positive) (p : Provider) (providerID assignedID : string) (threshold : Z)
    : Registry * CanaryResult :=
  let p := p <| p_CanaryFailCount := 0 |> in
  let sanctioned := bool_decide (is_Some (r.(canarySanctions) !! providerID)) in
  let r := (put r ptr p) <| canarySanctions := delete providerID r.(canarySanctions) |> in
  let held := hold_is (r.(recoveryHolds) !! providerID) assignedID RecoveryReasonCanary in
  let r := if held
           then setStateLocked (r <| recoveryHolds := delete providerID r.(recoveryHolds) |>) ptr p StateReady
           else r in
  (r, mkCanary true true 0 threshold p.(p_Tier) CanaryTripNone (sanctioned || held)).

Definition canary_failed (r : Registry) (ptr : positive) (p : Provider) (providerID assignedID : string)
    (at_ threshold : Z) (forceFloorHeld : bool) : Registry * CanaryResult :=
  let p := p <| p_CanaryFailCount := Int64.add p.(p_CanaryFailCount) 1 |> <| p_CanaryLastFailedAt := Some at_ |> in
  let n := p.(p_CanaryFailCount) in
  let r := put r ptr p in
  let result tripped := mkCanary true false n threshold p.(p_Tier) tripped false in
  if n <? threshold then (r, result CanaryTripNone)
  else if forceFloorHeld || (isBuyerServing r p && negb (hasOtherBuyerServingForModel r providerID p.(p_ModelID)))
  then (r, result CanaryTripFloorHeld)
  else if String.eqb p.(p_Tier) TierProvisional then (setStateLocked r ptr p StateUnavailable, result CanaryTripUnavailable)
  else
    let r := setStateLocked r ptr p StateDegraded in
    (r <| recoveryHolds := <[providerID := mkHold assignedID RecoveryReasonCanary]> r.(recoveryHolds) |>
       <| canarySanctions := <[providerID := mkSanction n p.(p_CanaryLastCheckedAt) p.(p_CanaryLastFailedAt)]> r.(canarySanctions) |>,
     result CanaryTripDegraded).

Definition recordCanaryResult (r : Registry) (now : Z) (providerID assignedID : string) (passed : bool)
    (at_ threshold : Z) (forceFloorHeld : bool) : Registry * CanaryResult :=
  let threshold := if threshold <=? 0 then 3 else threshold in
  let at_ := or_now at_ now in
  with_session r providerID assignedID (mkCanary false false 0 threshold "" CanaryTripNone false) (fun ptr p =>
    let ignored := mkCanary true passed 0 threshold p.(p_Tier) CanaryTripNone false in
    if String.eqb p.(p_State) StateDraining || String.eqb p.(p_State) StateUnavailable then (r, ignored)
    else if hold_is (r.(recoveryHolds) !! providerID) assignedID RecoveryReasonCanary
            && negb (String.eqb p.(p_State) StateDegraded) then (r, ignored)
    else
    let p := p <| p_CanaryLastCheckedAt := Some at_ |> in
    if passed then canary_passed r ptr p providerID assignedID threshold
    else canary_failed r ptr p providerID assignedID at_ threshold forceFloorHeld).

Definition RecordCanaryResult (r : Registry) (now : Z) (providerID assignedID : string) (passed : bool) (at_ threshold : Z)
    : Registry * CanaryResult :=
  recordCanaryResult r now providerID assignedID passed at_ threshold false.
Definition RecordCanaryResultForceFloorHeld (r : Registry) (now : Z) (providerID assignedID : string) (passed : bool)
    (at_ threshold : Z) : Registry * CanaryResult :=
  recordCanaryResult r now providerID assignedID passed at_ threshold true.

Record CanarySanctionSnapshot := mkSanctionSnapshot {
  ss_ProviderID : string;
  ss_FailCount : Z;
  ss_LastCheckedAt : option Z;
  ss_LastFailedAt : option Z;
}.

Definition LoadCanarySanctions (r : Registry) (snapshots : list CanarySanctionSnapshot) : Registry :=
  fold_left (fun r s =>
    if String.eqb (GoStr.TrimSpace s.(ss_ProviderID)) "" || (s.(ss_FailCount) <=? 0) then r
    else r <| canarySanctions := <[s.(ss_ProviderID) :=
      mkSanction s.(ss_FailCount) s.(ss_LastCheckedAt) s.(ss_LastFailedAt)]> r.(canarySanctions) |>) snapshots r.

Definition ClearCanarySanction (r : Registry) (providerID : string) : Registry * bool :=
  let hadPersisted := bool_decide (is_Some (r.(canarySanctions) !! providerID)) in
  let r := r <| canarySanctions := delete providerID r.(canarySanctions) |> in
  let found := find_provider r providerID in
  let hadRuntime := match found with
    | Some (_, p) => (0 <? p.(p_CanaryFailCount)) || bool_decide (is_Some p.(p_CanaryLastFailedAt))
    | None => false end in
  let r := match found with
    | Some (ptr, p) => put r ptr (p <| p_CanaryFailCount := 0 |> <| p_CanaryLastFailedAt := None |>)
    | None => r end in
  match r.(recoveryHolds) !! providerID with
  | Some hold =>
      if String.eqb hold.(rh_reason) RecoveryReasonCanary then
        let keep := match found with
          | Some (_, p) => String.eqb p.(p_AssignedID) hold.(rh_assignedID) && String.eqb p.(p_State) StateDegraded
          | None => false end in
        (if keep
         then r <| recoveryHolds := <[providerID := mkHold hold.(rh_assignedID) RecoveryReasonOperatorClear]> r.(recoveryHolds) |>
         else r <| recoveryHolds := delete providerID r.(recoveryHolds) |>, true)
      else (r, hadPersisted || hadRuntime)
  | None => (r, hadPersisted || hadRuntime)
  end.

Definition applyCanarySanctionLocked (r : Registry) (ptr : positive) (p : Provider) : Registry :=
  match r.(canarySanctions) !! p.(p_ProviderID) with
  | Some sanction =>
      if negb (String.eqb p.(p_Tier) TierPinned) then r
      else
        let p := p <| p_CanaryFailCount := sanction.(cs_failCount) |>
                   <| p_CanaryLastCheckedAt := sanction.(cs_lastCheckedAt) |>
                   <| p_CanaryLastFailedAt := sanction.(cs_lastFailedAt) |> in
        let r := setStateLocked r ptr p StateDegraded in
        r <| recoveryHolds := <[p.(p_ProviderID) := mkHold p.(p_AssignedID) RecoveryReasonCanary]> r.(recoveryHolds) |>
  | None => r
  end.

(** ** Receipt keys *)

Definition activeReceiptPubkeyPrev (p : Provider) (now : Z) : option ReceiptPubkeyPrevious :=
  match p.(p_ReceiptPubkeyPrev) with
  | Some prev => if negb (now <? prev.(prev_ExpiresAt)) then None else Some prev
  | None => None
  end.

Definition RegisterRefusalNone : string := "".
Definition RegisterRefusalBearerlessDuplicate : string := "bearerless_duplicate".
Definition RegisterRefusalBearerDowngrade : string := "bearer_downgrade".
Definition RegisterRefusalSandboxCredentialBypass : string := "sandbox_credential_bypass".
Definition RegisterRefusalReceiptRotationGraceActive : string := "receipt_rotation_grace_active".

Definition present (key : string) : bool := negb (String.eqb key "").

(** [stageReceiptPublicationLocked]: the refusal, and the incoming session with its keys. *)
Definition stageReceiptPublicationLocked (existing : option Provider) (incoming : Provider) (now : Z) : string * Provider :=
  let incomingKey := incoming.(p_ReceiptPubkey) in
  let incomingPrev := activeReceiptPubkeyPrev incoming now in
  let incoming := incoming <| p_ReceiptPubkey := "" |> <| p_PendingReceiptPubkey := "" |> <| p_ReceiptPubkeyPrev := None |> in
  match existing with
  | None =>
      match incomingPrev with
      | Some prev => (RegisterRefusalNone, incoming <| p_ReceiptPubkey := incomingKey |> <| p_ReceiptPubkeyPrev := Some prev |>)
      | None => (RegisterRefusalNone, incoming <| p_PendingReceiptPubkey := incomingKey |>)
      end
  | Some existing =>
      let activePrev := activeReceiptPubkeyPrev existing now in
      let pending := existing.(p_PendingReceiptPubkey) in
      if negb (present incomingKey) then (RegisterRefusalNone, incoming)
      else if negb (present existing.(p_ReceiptPubkey)) then
        if present pending then
          if String.eqb pending incomingKey then (RegisterRefusalNone, incoming <| p_PendingReceiptPubkey := pending |>)
          else (RegisterRefusalReceiptRotationGraceActive, incoming)
        else (RegisterRefusalNone, incoming <| p_PendingReceiptPubkey := incomingKey |>)
      else if String.eqb existing.(p_ReceiptPubkey) incomingKey then
        (RegisterRefusalNone, incoming <| p_ReceiptPubkey := existing.(p_ReceiptPubkey) |> <| p_ReceiptPubkeyPrev := activePrev |>)
      else if present pending then
        if String.eqb pending incomingKey then
          (RegisterRefusalNone, incoming <| p_ReceiptPubkey := existing.(p_ReceiptPubkey) |> <| p_ReceiptPubkeyPrev := activePrev |>
             <| p_PendingReceiptPubkey := pending |>)
        else (RegisterRefusalReceiptRotationGraceActive, incoming)
      else match activePrev with
      | Some _ => (RegisterRefusalReceiptRotationGraceActive, incoming)
      | None => (RegisterRefusalNone, incoming <| p_PendingReceiptPubkey := incomingKey |> <| p_ReceiptPubkey := existing.(p_ReceiptPubkey) |>)
      end
  end.

Record ReceiptRotationEvent := mkRotation {
  re_ProviderID : string;
  re_OldPubkey : string;
  re_NewPubkey : string;
  re_RotatedAt : Z;
}.

Definition commitPendingReceiptPubkeyLocked (p : Provider) (now : Z) : Provider * option ReceiptRotationEvent :=
  let p := match p.(p_ReceiptPubkeyPrev) with
    | Some prev => if negb (now <? prev.(prev_ExpiresAt)) then p <| p_ReceiptPubkeyPrev := None |> else p
    | None => p end in
  let pending := p.(p_PendingReceiptPubkey) in
  if negb (present pending) then (p, None)
  else
  let old := p.(p_ReceiptPubkey) in
  let rotates := present old && negb (String.eqb old pending) in
  let p := if rotates then p <| p_ReceiptPubkeyPrev := Some (mkPrevious old now (now + ReceiptRotationGrace)) |> else p in
  (p <| p_ReceiptPubkey := pending |> <| p_PendingReceiptPubkey := "" |>,
   if rotates then Some (mkRotation p.(p_ProviderID) old pending now) else None).

(** ** Registration *)

Definition providerCredentialBearing (auth : string) : bool :=
  String.eqb auth AuthBearerValidated || String.eqb auth AuthSelfMinted || String.eqb auth AuthSelfMintedVerified.

Definition validated (p : Provider) : bool := String.eqb p.(p_AuthState) AuthBearerValidated.

(** The refusals that depend on the session in place. *)
Definition register_refusal (existing p : Provider) : option string :=
  if String.eqb p.(p_AuthState) AuthBearerlessDuplicate then Some RegisterRefusalBearerlessDuplicate
  else if p.(p_AdmissionSandboxCredentialBypassed) && negb (validated p) && providerCredentialBearing existing.(p_AuthState)
  then Some RegisterRefusalSandboxCredentialBypass
  else if validated existing && RoutingEligible existing && negb (validated p) then Some RegisterRefusalBearerDowngrade
  else None.

(** The installation of a session whose keys are staged, at the address [ptr] of its object. *)
Definition install (r : Registry) (ptr : positive) (p : Provider) (c : option Z) : Registry :=
  let p := p <| p_conn := c |> in
  let p := if String.eqb p.(p_Tier) "" then p <| p_Tier := TierPinned |> else p in
  let p := if String.eqb p.(p_InferencePath) "" then
             p <| p_InferencePath := if negb (String.eqb p.(p_EndpointURL) "") then InferencePathHTTPForwarding
                                     else InferencePathWSTunneled |>
           else p in
  let id := p.(p_ProviderID) in
  let r := put r ptr p in
  let r := r <| providers := <[id := ptr]> r.(providers) |> <| sessions := <[p.(p_AssignedID) := ptr]> r.(sessions) |> in
  let r := recordSeenModelsUnionLocked r id p.(p_ModelID) p.(p_SupportedModels) in
  let r := r <| breakerFaults := delete id r.(breakerFaults) |> <| recoveryHolds := delete id r.(recoveryHolds) |>
             <| lastBreakerRecoveries := delete id r.(lastBreakerRecoveries) |> in
  applyCanarySanctionLocked r ptr p.

(** [RegisterAtDetailed]: the connection it displaces, whether it registered, the refusal. *)
Definition RegisterAtDetailed (r : Registry) (ptr : positive) (p : Provider) (c : option Z) (now : Z)
    : Registry * (option Z * bool * string) :=
  match find_provider r p.(p_ProviderID) with
  | Some (_, existing) =>
      match register_refusal existing p with
      | Some refusal => (r, (None, false, refusal))
      | None =>
          let '(refusal, p) := stageReceiptPublicationLocked (Some existing) p now in
          if String.eqb refusal RegisterRefusalReceiptRotationGraceActive then (r, (None, false, refusal))
          else
          let r := r <| sessions := delete existing.(p_AssignedID) r.(sessions) |>
                     <| seenModelsByProvider := delete p.(p_ProviderID) r.(seenModelsByProvider) |> in
          (install r ptr p c, (existing.(p_conn), true, RegisterRefusalNone))
      end
  | None =>
      let '(refusal, p) := stageReceiptPublicationLocked None p now in
      if String.eqb refusal RegisterRefusalReceiptRotationGraceActive then (r, (None, false, refusal))
      else (install r ptr p c, (None, true, RegisterRefusalNone))
  end.

Definition remove (r : Registry) (providerID assignedID : string) : Registry :=
  clearBreakerStateLocked
    (r <| providers := delete providerID r.(providers) |> <| sessions := delete assignedID r.(sessions) |>
       <| seenModelsByProvider := delete providerID r.(seenModelsByProvider) |>) providerID.

Definition RemoveIfSession (r : Registry) (providerID assignedID : string) : Registry * bool :=
  with_session r providerID assignedID false (fun _ _ => (remove r providerID assignedID, true)).

Definition RemoveIfSessionState (r : Registry) (providerID assignedID state : string) : Registry * bool :=
  with_session r providerID assignedID false (fun _ p =>
    if String.eqb p.(p_State) state then (remove r providerID assignedID, true) else (r, false)).

(** ** Heartbeats and state updates *)

Definition MaxProviderHardwareChipBytes : Z := 120.
Definition MaxProviderHardwareBandwidthGBPerSec : Z := 10000.
Definition MaxProviderHardwareNetworkPowerKW : float64 := F64.of_Z 10.
Definition MaxProviderHardwareGPUCoresTotal : Z := 4096.
Definition MaxProviderHardwareCPUCoresTotal : Z := 1024.

(** The width of the first rune; an invalid byte has width one. *)
Definition rune_width (l : list Z) : nat :=
  match l with
  | b0 :: l1 =>
      if b0 <? 128 then 1%nat
      else match l1 with
      | b1 :: l2 =>
          if pair_ok b0 b1 then 2%nat
          else match l2 with
          | b2 :: l3 =>
              if triple_ok b0 b1 b2 then 3%nat
              else match l3 with b3 :: _ => if quad_ok b0 b1 b2 b3 then 4%nat else 1%nat | [] => 1%nat end
          | [] => 1%nat
          end
      | [] => 1%nat
      end
  | [] => 1%nat
  end.

(** The loop [for i := range s]: the last rune start that is not past [maxBytes]. *)
Fixpoint last_rune_start (fuel : nat) (i : nat) (last maxBytes : Z) (l : list Z) : Z :=
  match fuel, l with
  | S fuel, _ :: _ =>
      if maxBytes <? Z.of_nat i then last
      else last_rune_start fuel (i + rune_width l) (Z.of_nat i) maxBytes (drop (rune_width l) l)
  | _, _ => last
  end.

Definition truncateUTF8Bytes (s : string) (maxBytes : Z) : string :=
  if (maxBytes <=? 0) || (byte_len s <=? maxBytes) then s
  else
  let last := last_rune_start (String.length s) 0 0 maxBytes (codes (GoStr.chars s)) in
  if last =? 0 then "" else GoStr.of_chars (take (Z.to_nat last) (GoStr.chars s)).

Definition clamp_to (max n : Z) : Z := if n <? 0 then 0 else if max <? n then max else n.

Definition sanitizeProviderHardwareCapacity (out : ProviderHardwareCapacity) : option ProviderHardwareCapacity :=
  let chip := GoStr.TrimSpace out.(hw_Chip) in
  let chip := if MaxProviderHardwareChipBytes <? byte_len chip then truncateUTF8Bytes chip MaxProviderHardwareChipBytes else chip in
  let power := out.(hw_NetworkPowerKW) in
  let power := if F64.ltb power F64.zero || F64.IsNaN power || F64.IsInf power then F64.zero
               else if F64.ltb MaxProviderHardwareNetworkPowerKW power then MaxProviderHardwareNetworkPowerKW else power in
  let bandwidth := clamp_to MaxProviderHardwareBandwidthGBPerSec out.(hw_BandwidthGBPerSec) in
  let gpu := clamp_to MaxProviderHardwareGPUCoresTotal out.(hw_GPUCoresTotal) in
  let cpu := clamp_to MaxProviderHardwareCPUCoresTotal out.(hw_CPUCoresTotal) in
  if String.eqb chip "" && (bandwidth =? 0) && F64.eqb power F64.zero && (gpu =? 0) && (cpu =? 0) then None
  else Some (mkHardware chip bandwidth power gpu cpu).

Record HeartbeatUpdate := mkHeartbeat {
  hb_Status : string;
  hb_ModelID : string;
  hb_ModelParamsB : float64;
  hb_RAMGB : Z;
  hb_MaxContextTokens : Z;
  hb_MaxConcurrency : Z;
  hb_SlotsFree : Z;
  hb_SlotsTotal : Z;
  hb_ThroughputTPSEstimate : float64;
  hb_RequestsServedSinceLast : Z;
  hb_ThroughputTPSSinceLast : float64;
  hb_ModelHash : string;
  hb_ModelHashPresent : bool;
  hb_ModelHashAlgorithm : string;
  hb_WeightsManifestSHA256 : string;
  hb_WeightsHashAlgorithm : string;
  hb_ExpectedModelHash : string;
  hb_Loading : bool;
  hb_LoadingPresent : bool;
  hb_LastAutoupdateEvent : string;
  hb_HardwareCapacity : option ProviderHardwareCapacity;
  hb_SafetyTelemetry : option ProviderSafetyTelemetry;
  hb_At : Z;
}.

Record SwapEvent := mkSwap {
  se_ProviderID : string;
  se_AssignedID : string;
  se_FromModelID : string;
  se_FromModelHash : string;
  se_ToModelID : string;
  se_ToModelHash : string;
  se_HashVerificationResult : string;
  se_LoadingStartedAt : Z;
  se_CompletedAt : Z;
}.

(** The identity the heartbeat claims, and what the verifiers make of it. *)
Definition heartbeat_identity (r : Registry) (p : Provider) (hb : HeartbeatUpdate) : Provider :=
  let p :=
    if negb hb.(hb_ModelHashPresent) then
      p <| p_ModelHash := "" |> <| p_ModelHashAlgorithm := "" |> <| p_WeightsManifestSHA256 := "" |>
        <| p_WeightsHashAlgorithm := "" |> <| p_HashStatus := HashStatusUncatalogued |>
    else
      p <| p_ModelHash := hb.(hb_ModelHash) |> <| p_ModelHashAlgorithm := hb.(hb_ModelHashAlgorithm) |>
        <| p_WeightsManifestSHA256 := hb.(hb_WeightsManifestSHA256) |> <| p_WeightsHashAlgorithm := hb.(hb_WeightsHashAlgorithm) |>
        <| p_HashStatus := match r.(modelIdentityVerifier), r.(hashVerifier) with
             | Some verify, _ => verify hb.(hb_ModelID) hb.(hb_ExpectedModelHash) hb.(hb_ModelHash) hb.(hb_ModelHashAlgorithm)
             | None, Some verify => verify hb.(hb_ModelID) hb.(hb_ModelHash)
             | None, None => HashStatusUncatalogued
             end |> in
  let p := if negb (String.eqb hb.(hb_WeightsManifestSHA256) "") then
             p <| p_WeightsManifestSHA256 := hb.(hb_WeightsManifestSHA256) |> <| p_WeightsHashAlgorithm := hb.(hb_WeightsHashAlgorithm) |>
           else p in
  p <| p_ExpectedModelHash := hb.(hb_ExpectedModelHash) |>.

(** The metrics of the heartbeat. *)
Definition heartbeat_metrics (p : Provider) (hb : HeartbeatUpdate) : Provider :=
  let p := p <| p_ModelID := hb.(hb_ModelID) |> <| p_ModelParamsB := hb.(hb_ModelParamsB) |> <| p_RAMGB := hb.(hb_RAMGB) |>
    <| p_MaxContextTokens := hb.(hb_MaxContextTokens) |> <| p_MaxConcurrency := hb.(hb_MaxConcurrency) |>
    <| p_SlotsFree := hb.(hb_SlotsFree) |> <| p_SlotsTotal := hb.(hb_SlotsTotal) |>
    <| p_ThroughputTPSEstimate := hb.(hb_ThroughputTPSEstimate) |>
    <| p_RequestsServedSinceLast := hb.(hb_RequestsServedSinceLast) |>
    <| p_ThroughputTPSSinceLast := hb.(hb_ThroughputTPSSinceLast) |> in
  let p := if present hb.(hb_LastAutoupdateEvent) then p <| p_LastAutoupdateEvent := hb.(hb_LastAutoupdateEvent) |> else p in
  let p := match hb.(hb_HardwareCapacity) with
    | Some hw => p <| p_HardwareCapacity := sanitizeProviderHardwareCapacity hw |>
    | None => p end in
  p <| p_SafetyTelemetry := match hb.(hb_SafetyTelemetry) with
    | Some t => Some (t <| t_ObservedAt := rfc3339NanoText hb.(hb_At) |>)
    | None => None end |>.

Definition heartbeat_loading (p : Provider) (hb : HeartbeatUpdate) : Provider :=
  if hb.(hb_LoadingPresent) then
    (if negb p.(p_LastLoadingState) && hb.(hb_Loading) then p <| p_LoadingStartedAt := hb.(hb_At) |> else p)
      <| p_LastLoadingState := hb.(hb_Loading) |>
  else p.

Record HeartbeatResult := mkHeartbeatResult {
  hr_Provider : option Provider;
  hr_Gap : Z;
  hr_OK : bool;
  hr_ModelIDChanged : bool;
  hr_PriorModelID : string;
}.

(** [ApplyHeartbeatDetailed]: the answer, and the swap event it emits. *)
Definition ApplyHeartbeatDetailed (r : Registry) (providerID assignedID : string) (hb : HeartbeatUpdate)
    : Registry * (HeartbeatResult * option SwapEvent) :=
  with_session r providerID assignedID (mkHeartbeatResult None 0 false false "", None) (fun ptr old =>
    let changed := negb (GoStr.EqualFold old.(p_ModelID) hb.(hb_ModelID)) in
    let p := heartbeat_metrics (heartbeat_identity r (old <| p_LastHeartbeatAt := hb.(hb_At) |>) hb) hb in
    let r := recordSeenModelsUnionLocked (put r ptr p) p.(p_ProviderID) hb.(hb_ModelID) p.(p_SupportedModels) in
    let '(r, p) :=
      if negb (String.eqb hb.(hb_Status) "") && negb (String.eqb hb.(hb_Status) p.(p_State))
         && canApplyProviderStateLocked r p hb.(hb_Status)
      then (setStateLocked r ptr p hb.(hb_Status), p <| p_State := hb.(hb_Status) |>)
      else (r, p) in
    let p := heartbeat_loading p hb in
    let swapped := hb.(hb_ModelHashPresent) && old.(p_LastLoadingState) && hb.(hb_LoadingPresent) && negb hb.(hb_Loading) && changed in
    let gap := if negb (IsZero old.(p_LastHeartbeatAt)) then time_sub hb.(hb_At) old.(p_LastHeartbeatAt) else 0 in
    (put r ptr p,
     (mkHeartbeatResult (Some p) gap true changed old.(p_ModelID),
      if swapped then
        Some (mkSwap p.(p_ProviderID) p.(p_AssignedID) old.(p_ModelID) old.(p_ModelHash) p.(p_ModelID) p.(p_ModelHash)
          p.(p_HashStatus) old.(p_LoadingStartedAt) hb.(hb_At))
      else None))).

Record StateUpdate := mkStateUpdate {
  su_State : string;
  su_SlotsFree : option Z;
  su_SlotsTotal : option Z;
  su_LastAutoupdateEvent : string;
  su_At : Z;
}.

(** [ApplyStateUpdate]: the provider, and the rotation event it emits. *)
Definition ApplyStateUpdate (r : Registry) (now : Z) (providerID assignedID : string) (update : StateUpdate)
    : Registry * option (Provider * option ReceiptRotationEvent) :=
  with_session r providerID assignedID None (fun ptr p =>
    let '(r, p) :=
      if canApplyProviderStateLocked r p update.(su_State)
      then (setStateLocked r ptr p update.(su_State), p <| p_State := update.(su_State) |>)
      else (r, p) in
    let p := match update.(su_SlotsFree) with Some n => p <| p_SlotsFree := n |> | None => p end in
    let p := match update.(su_SlotsTotal) with Some n => p <| p_SlotsTotal := n |> | None => p end in
    let p := if present update.(su_LastAutoupdateEvent) then p <| p_LastAutoupdateEvent := update.(su_LastAutoupdateEvent) |> else p in
    let '(p, event) := commitPendingReceiptPubkeyLocked p (or_now update.(su_At) now) in
    (put r ptr p, Some (p, event))).

(** A frame of any kind resets the liveness clock. *)
Definition Touch (r : Registry) (providerID assignedID : string) (at_ : Z) : Registry :=
  let found := if negb (String.eqb providerID "") then find_provider r providerID
               else if negb (String.eqb assignedID "") then ptr ← r.(sessions) !! assignedID; provider_at r ptr
               else None in
  match found with
  | Some (ptr, p) =>
      if String.eqb assignedID "" || String.eqb p.(p_AssignedID) assignedID then put r ptr (p <| p_LastActivityAt := at_ |>) else r
  | None => r
  end.

(** ** Other methods *)

Definition update_session (r : Registry) (providerID assignedID : string) (f : Provider -> Provider) : Registry * bool :=
  with_session r providerID assignedID false (fun ptr p => (put r ptr (f p), true)).

Definition SetTier (r : Registry) (providerID tier : string) : Registry * option Provider :=
  match find_provider r providerID with
  | Some (ptr, p) => let p := p <| p_Tier := tier |> in (put r ptr p, Some (p <| p_conn := None |>))
  | None => (r, None)
  end.

Definition UpdateHashStatuses (r : Registry) (statusFor : Provider -> string) : Registry * Z :=
  let next p := statusFor (p <| p_conn := None |>) in
  (for_providers r (fun p => p <| p_HashStatus := next p |>),
   count_providers r (fun p => negb (String.eqb p.(p_HashStatus) (next p)))).

Definition ExpireLegacyBridgeAdmissions (r : Registry) : Registry * Z :=
  let legacy p := String.eqb p.(p_CatalogAdmissionMode) "legacy_bridge" in
  (for_providers r (fun p => if legacy p then p <| p_CatalogAdmissionMode := "legacy" |> else p), count_providers r legacy).

Definition ExpireLegacyModelHashAdmissions (r : Registry) : Registry * list Provider :=
  let expires p := String.eqb (GoStr.TrimSpace p.(p_ModelHashAlgorithm)) "" in
  (for_providers r (fun p => if expires p then p <| p_HashStatus := HashStatusInvalid |> else p),
   map (fun p => p <| p_conn := None |>) (List.filter expires (registered r))).

Definition MarkHashStatusIfSession (r : Registry) (providerID assignedID status : string) : Registry * bool :=
  update_session r providerID assignedID (fun p => p <| p_HashStatus := status |>).

Definition MarkHTTPForwardingOnly (r : Registry) (providerID assignedID : string) : Registry * bool :=
  update_session r providerID assignedID (fun p => p <| p_HTTPForwardingOnly := true |>).

Definition NoteBuyerSuccess (r : Registry) (now : Z) (providerID : string) (at_ : Z) : Registry :=
  if String.eqb (GoStr.TrimSpace providerID) "" then r
  else match find_provider r providerID with
  | Some (ptr, p) => put r ptr (p <| p_LastBuyerSuccessAt := Some (or_now at_ now) |>)
  | None => r
  end.

Record SELivenessResult := mkLiveness { sl_Current : bool; sl_Passed : bool; sl_FailCount : Z; sl_Stale : bool }.

Definition RecordSELivenessResult (r : Registry) (now : Z) (providerID assignedID : string) (passed : bool)
    (at_ maxFailures : Z) : Registry * SELivenessResult :=
  let maxFailures := if maxFailures <=? 0 then 3 else maxFailures in
  let at_ := or_now at_ now in
  with_session r providerID assignedID (mkLiveness false false 0 false) (fun ptr p =>
    if passed then
      (put r ptr (p <| p_SELivenessFailCount := 0 |> <| p_LastSELivenessAt := Some at_ |>), mkLiveness true true 0 false)
    else
    let n := Int64.add p.(p_SELivenessFailCount) 1 in
    let p := p <| p_SELivenessFailCount := n |> in
    if maxFailures <=? n then
      (put r ptr (p <| p_AttestationStatus := AttestationStatusStale |>), mkLiveness true false n true)
    else (put r ptr p, mkLiveness true false n false)).

Definition SetSEPublicKey (r : Registry) (providerID assignedID pubkey tier : string) : Registry * bool :=
  update_session r providerID assignedID (fun p => p <| p_SEPublicKey := pubkey |> <| p_AttestationTier := tier |>).

Definition SetModelClassOPoIPass (r : Registry) (providerID assignedID : string) (pass : option bool) : Registry :=
  (update_session r providerID assignedID (fun p => p <| p_ModelClassOPoIPass := pass |>)).1.

Definition RecordCanaryLatency (r : Registry) (providerID assignedID : string) (ttftMS : Z) (sustainedTPS : float64) : Registry :=
  if ttftMS <=? 0 then r
  else (update_session r providerID assignedID (fun p =>
    let p := p <| p_CanaryLastTTFTMS := ttftMS |> in
    if F64.ltb F64.zero sustainedTPS && negb (F64.IsNaN sustainedTPS) && negb (F64.IsInf sustainedTPS)
    then p <| p_CanaryLastSustainedTPS := sustainedTPS |> else p)).1.

(** The setters of the exclusion flags answer whether the flag changed. *)
Definition set_flag (r : Registry) (providerID assignedID : string) (get : Provider -> bool) (set : Provider -> Provider)
    (value : bool) : Registry * bool :=
  with_session r providerID assignedID false (fun ptr p =>
    if Bool.eqb (get p) value then (r, false) else (put r ptr (set p), true)).

Definition SetBenchmarkQuarantine (r : Registry) (providerID assignedID : string) (quarantined : bool) : Registry * bool :=
  set_flag r providerID assignedID p_BenchmarkQuarantined (fun p => p <| p_BenchmarkQuarantined := quarantined |>) quarantined.
Definition SetAdmissionCeilingExcluded (r : Registry) (providerID assignedID : string) (excluded : bool) : Registry * bool :=
  set_flag r providerID assignedID p_AdmissionCeilingExcluded (fun p => p <| p_AdmissionCeilingExcluded := excluded |>) excluded.
Definition SetAdmissionEvidenceStale (r : Registry) (providerID assignedID : string) (stale : bool) : Registry * bool :=
  set_flag r providerID assignedID p_AdmissionEvidenceStale (fun p => p <| p_AdmissionEvidenceStale := stale |>) stale.
Definition set_sandboxed (sandboxed : bool) (p : Provider) : Provider :=
  let p := p <| p_AdmissionSandboxed := sandboxed |> in
  if negb sandboxed then p <| p_AdmissionSandboxCredentialBypassed := false |> else p.
Definition SetAdmissionSandboxed (r : Registry) (providerID assignedID : string) (sandboxed : bool) : Registry * bool :=
  set_flag r providerID assignedID p_AdmissionSandboxed (set_sandboxed sandboxed) sandboxed.

Record AdmissionGateFlags := mkGateFlags { gf_CeilingExcluded : bool; gf_EvidenceStale : bool; gf_Sandboxed : bool }.
#[global] Instance gate_flags_eq_dec : EqDecision AdmissionGateFlags.
Proof. solve_decision. Defined.

Definition SetAdmissionGateFlags (r : Registry) (providerID assignedID : string) (flags : AdmissionGateFlags)
    : Registry * (AdmissionGateFlags * bool * bool) :=
  with_session r providerID assignedID (mkGateFlags false false false, false, false) (fun ptr p =>
    let prior := mkGateFlags p.(p_AdmissionCeilingExcluded) p.(p_AdmissionEvidenceStale) p.(p_AdmissionSandboxed) in
    (put r ptr (set_sandboxed flags.(gf_Sandboxed)
       (p <| p_AdmissionCeilingExcluded := flags.(gf_CeilingExcluded) |> <| p_AdmissionEvidenceStale := flags.(gf_EvidenceStale) |>)),
     (prior, negb (bool_decide (prior = flags)), true))).

Definition QuarantineForProofOfWeightsReload (r : Registry) : Registry * Z :=
  (for_providers r (fun p => if negb p.(p_AdmissionEvidenceStale) then p <| p_AdmissionEvidenceStale := true |> else p),
   count_providers r (fun p => negb p.(p_AdmissionEvidenceStale))).

Definition ClearBenchmarkQuarantines (r : Registry) : Registry * Z :=
  (for_providers r (fun p => if p.(p_BenchmarkQuarantined) then p <| p_BenchmarkQuarantined := false |> else p),
   count_providers r p_BenchmarkQuarantined).

(** The encrypted session moves to the next key only from the key it was asked to leave. *)
Definition ReplaceTier2Session (r : Registry) (providerID assignedID expectedKID : string) (next : option Tier2Session)
    : Registry * bool :=
  match next with
  | Some n =>
      if String.eqb n.(t2_KeyID) "" || String.eqb n.(t2_KeyID) expectedKID || negb (byte_len n.(t2_C2PKey) =? 32)
         || negb (byte_len n.(t2_P2CKey) =? 32) || negb (byte_len n.(t2_C2PNonceBase) =? 4) || negb (byte_len n.(t2_P2CNonceBase) =? 4)
      then (r, false)
      else with_session r providerID assignedID false (fun ptr p =>
        if bool_decide (r.(sessions) !! assignedID = Some ptr) then
          match p.(p_Tier2Session) with
          | Some t => if String.eqb t.(t2_KeyID) expectedKID then (put r ptr (p <| p_Tier2Session := Some n |>), true) else (r, false)
          | None => (r, false)
          end
        else (r, false))
  | None => (r, false)
  end.

Definition SetBuyerServingPredicate (r : Registry) (fn : option (Provider -> bool)) : Registry := r <| buyerServing := fn |>.

(** ** Queries *)

Definition Resolve (r : Registry) (providerID assignedID : string) : option Provider :=
  let found := if negb (String.eqb providerID "") then find_provider r providerID
               else if negb (String.eqb assignedID "") then ptr ← r.(sessions) !! assignedID; provider_at r ptr
               else None in
  '(_, p) ← found;
  if negb (String.eqb assignedID "") && negb (String.eqb p.(p_AssignedID) assignedID) then None
  else Some (p <| p_conn := None |>).

Definition Conn (r : Registry) (providerID assignedID : string) : option Z :=
  '(_, p) ← find_session r providerID assignedID; p.(p_conn).

Definition CurrentMaxConcurrency (r : Registry) (providerID : string) : option Z :=
  '(_, p) ← find_provider r providerID; Some p.(p_MaxConcurrency).

Definition Endpoint (r : Registry) (providerID : string) : option ProviderConfig := r.(endpoints) !! providerID.
Definition Count (r : Registry) : Z := Z.of_nat (size r.(providers)).
Definition LifetimeCapStats (r : Registry) : Z * Z := (Z.of_nat (size r.(seenModelsLifetime)), r.(lifetimeCapDroppedCount)).

(** [Snapshot], in the order the map is ranged over. *)
Definition snapshot_copy (p : Provider) : Provider :=
  p <| p_conn := None |> <| p_HardwareCapacity := p.(p_HardwareCapacity) ≫= sanitizeProviderHardwareCapacity |>.
Definition Snapshot (r : Registry) (order : list (string * positive)) : list Provider :=
  omap (fun kv : string * positive => snapshot_copy <$> r.(objects) !! kv.2) order.

(** The lists and sets the operator endpoints read, in the order the map is ranged over. *)
Definition BuyerServingProviderIDsForModel (r : Registry) (modelID : string) (order : list (string * positive)) : list string :=
  omap (fun kv : string * positive =>
    p ← r.(objects) !! kv.2; if providerServesActiveModel p modelID && isBuyerServing r p then Some kv.1 else None) order.
Definition CanarySanctions (order : list (string * canarySanction)) : list CanarySanctionSnapshot :=
  (fun kv : string * canarySanction =>
     mkSanctionSnapshot kv.1 kv.2.(cs_failCount) kv.2.(cs_lastCheckedAt) kv.2.(cs_lastFailedAt)) <$> order.

Definition LastBuyerSuccessAt (r : Registry) (providerID : string) : Z :=
  match find_provider r providerID with Some (_, p) => default zero_time p.(p_LastBuyerSuccessAt) | None => zero_time end.

(** ** Runs *)

(** The methods that change the registry, with their arguments; a registration brings
    the address of the object it installs. *)
Inductive pool_op :=
  | OpRegister (ptr : positive) (p : Provider) (c : option Z) (now : Z)
  | OpRemove (providerID assignedID : string)
  | OpRemoveState (providerID assignedID state : string)
  | OpHeartbeat (providerID assignedID : string) (hb : HeartbeatUpdate)
  | OpStateUpdate (now : Z) (providerID assignedID : string) (update : StateUpdate)
  | OpTouch (providerID assignedID : string) (at_ : Z)
  | OpMarkState (providerID assignedID state : string)
  | OpMarkDegraded (providerID assignedID reason : string)
  | OpMarkRecovered (now : Z) (providerID assignedID : string) (at_ : Z)
  | OpBreakerFault (now : Z) (providerID assignedID : string) (at_ threshold window : Z)
  | OpCanary (now : Z) (providerID assignedID : string) (passed : bool) (at_ threshold : Z) (forceFloorHeld : bool)
  | OpLoadSanctions (snapshots : list CanarySanctionSnapshot)
  | OpClearSanction (providerID : string)
  | OpSetTier (providerID tier : string)
  | OpUpdateHashStatuses (statusFor : Provider -> string)
  | OpExpireBridges
  | OpExpireModelHashes
  | OpMarkHashStatus (providerID assignedID status : string)
  | OpMarkHTTPOnly (providerID assignedID : string)
  | OpNoteSuccess (now : Z) (providerID : string) (at_ : Z)
  | OpSELiveness (now : Z) (providerID assignedID : string) (passed : bool) (at_ maxFailures : Z)
  | OpSetSEKey (providerID assignedID pubkey tier : string)
  | OpSetOPoI (providerID assignedID : string) (pass : option bool)
  | OpCanaryLatency (providerID assignedID : string) (ttftMS : Z) (tps : float64)
  | OpSetBenchmark (providerID assignedID : string) (flag : bool)
  | OpSetCeiling (providerID assignedID : string) (flag : bool)
  | OpSetStale (providerID assignedID : string) (flag : bool)
  | OpSetSandboxed (providerID assignedID : string) (flag : bool)
  | OpSetGateFlags (providerID assignedID : string) (flags : AdmissionGateFlags)
  | OpReloadQuarantine
  | OpClearBenchmarks
  | OpReplaceTier2 (providerID assignedID expectedKID : string) (next : option Tier2Session)
  | OpSetPredicate (fn : option (Provider -> bool)).

Definition pool_step (r : Registry) (op : pool_op) : Registry :=
  match op with
  | OpRegister ptr p c now => (RegisterAtDetailed r ptr p c now).1
  | OpRemove pid aid => (RemoveIfSession r pid aid).1
  | OpRemoveState pid aid state => (RemoveIfSessionState r pid aid state).1
  | OpHeartbeat pid aid hb => (ApplyHeartbeatDetailed r pid aid hb).1
  | OpStateUpdate now pid aid update => (ApplyStateUpdate r now pid aid update).1
  | OpTouch pid aid at_ => Touch r pid aid at_
  | OpMarkState pid aid state => (MarkState r pid aid state).1
  | OpMarkDegraded pid aid reason => (MarkDegradedForRecovery r pid aid reason).1
  | OpMarkRecovered now pid aid at_ => (MarkRecovered r now pid aid at_).1
  | OpBreakerFault now pid aid at_ threshold window => (RecordBreakerFault r now pid aid at_ threshold window).1
  | OpCanary now pid aid passed at_ threshold force => (recordCanaryResult r now pid aid passed at_ threshold force).1
  | OpLoadSanctions snapshots => LoadCanarySanctions r snapshots
  | OpClearSanction pid => (ClearCanarySanction r pid).1
  | OpSetTier pid tier => (SetTier r pid tier).1
  | OpUpdateHashStatuses statusFor => (UpdateHashStatuses r statusFor).1
  | OpExpireBridges => (ExpireLegacyBridgeAdmissions r).1
  | OpExpireModelHashes => (ExpireLegacyModelHashAdmissions r).1
  | OpMarkHashStatus pid aid status => (MarkHashStatusIfSession r pid aid status).1
  | OpMarkHTTPOnly pid aid => (MarkHTTPForwardingOnly r pid aid).1
  | OpNoteSuccess now pid at_ => NoteBuyerSuccess r now pid at_
  | OpSELiveness now pid aid passed at_ max => (RecordSELivenessResult r now pid aid passed at_ max).1
  | OpSetSEKey pid aid pubkey tier => (SetSEPublicKey r pid aid pubkey tier).1
  | OpSetOPoI pid aid pass => SetModelClassOPoIPass r pid aid pass
  | OpCanaryLatency pid aid ttft tps => RecordCanaryLatency r pid aid ttft tps
  | OpSetBenchmark pid aid flag => (SetBenchmarkQuarantine r pid aid flag).1
  | OpSetCeiling pid aid flag => (SetAdmissionCeilingExcluded r pid aid flag).1
  | OpSetStale pid aid flag => (SetAdmissionEvidenceStale r pid aid flag).1
  | OpSetSandboxed pid aid flag => (SetAdmissionSandboxed r pid aid flag).1
  | OpSetGateFlags pid aid flags => (SetAdmissionGateFlags r pid aid flags).1
  | OpReloadQuarantine => (QuarantineForProofOfWeightsReload r).1
  | OpClearBenchmarks => (ClearBenchmarkQuarantines r).1
  | OpReplaceTier2 pid aid kid next => (ReplaceTier2Session r pid aid kid next).1
  | OpSetPredicate fn => SetBuyerServingPredicate r fn
  end.

Definition pool_run (r : Registry) (ops : list pool_op) : Registry := fold_left pool_step ops r.
