(* ===== verification/PoolHolds.v ===== *)
(** * Invariants of the provider pool

    What holds of every registry the methods of Pool can reach: the two indexes agree,
    a session under a recovery hold is out of the routing, and the memory of model names
    is bounded. *)

From S2P Require Import Prelude Jcs GoTime GoFloat Pool.
#[local] Open Scope Z_scope.

(** ** Well-formed registries *)

Definition same_session (p p' : Provider) : Prop :=
  p_ProviderID p' = p_ProviderID p /\ p_AssignedID p' = p_AssignedID p.

(** States in which a held session may be. *)
Definition off_duty (s : string) : Prop := s <> StateReady /\ s <> StateUnavailable.

Definition sum_contrib (m : gmap string Z) : Z := sum_map (fun _ n => n) m.

Record names_ok (r : Registry) : Prop := mkNamesOk {
  no_seen : forall pid seen, seenModelsByProvider r !! pid = Some seen ->
    is_Some (providers r !! pid) /\ Z.of_nat (size seen) <= maxSeenModelsPerProvider;
  no_contrib : forall pid n, lifetimeContribByProvider r !! pid = Some n -> 0 <= n <= maxLifetimeContribPerProvider;
  no_lifetime : Z.of_nat (size (seenModelsLifetime r)) = sum_contrib (lifetimeContribByProvider r)
    /\ Z.of_nat (size (seenModelsLifetime r)) <= maxSeenModelsLifetime;
}.

Record registry_ok (r : Registry) : Prop := mkRegistryOk {
  ro_provider : forall pid ptr, providers r !! pid = Some ptr -> exists p,
    objects r !! ptr = Some p /\ p_ProviderID p = pid /\ sessions r !! p_AssignedID p = Some ptr;
  ro_session : forall aid ptr, sessions r !! aid = Some ptr -> exists p,
    objects r !! ptr = Some p /\ p_AssignedID p = aid /\ providers r !! p_ProviderID p = Some ptr;
  ro_hold : forall pid hold, recoveryHolds r !! pid = Some hold -> exists ptr p,
    providers r !! pid = Some ptr /\ objects r !! ptr = Some p
    /\ p_AssignedID p = rh_assignedID hold /\ off_duty (p_State p);
  ro_faults : forall pid, is_Some (breakerFaults r !! pid) -> is_Some (providers r !! pid);
  ro_names : names_ok r;
}.

(** ** Updates that leave sessions and states alone *)

Definition kept_object (o o' : option Provider) : Prop :=
  match o, o' with
  | Some p, Some p' => same_session p p' /\ p_State p' = p_State p
  | None, None => True
  | _, _ => False
  end.

Record quiet (r r' : Registry) : Prop := mkQuiet {
  q_objects : forall ptr, kept_object (objects r !! ptr) (objects r' !! ptr);
  q_providers : providers r' = providers r;
  q_sessions : sessions r' = sessions r;
  q_holds : recoveryHolds r' = recoveryHolds r;
  q_faults : breakerFaults r' = breakerFaults r;
  q_seen : seenModelsByProvider r' = seenModelsByProvider r;
  q_contrib : lifetimeContribByProvider r' = lifetimeContribByProvider r;
  q_lifetime : seenModelsLifetime r' = seenModelsLifetime r;
}.

Lemma kept_object_refl o : kept_object o o.
Proof. destruct o; simpl; [|done]. by repeat split. Qed.

Lemma kept_object_trans o1 o2 o3 : kept_object o1 o2 -> kept_object o2 o3 -> kept_object o1 o3.
Proof.
  destruct o1, o2, o3; simpl; try done. intros [[? ?] ?] [[? ?] ?]. repeat split; congruence.
Qed.

#[global] Instance quiet_preorder : PreOrder quiet.
Proof.
  split.
  - intros r. split; try done. intros ptr. apply kept_object_refl.
  - intros r1 r2 r3 [] []. split; try congruence. intros ptr. eapply kept_object_trans; eauto.
Qed.

Lemma quiet_some r r' ptr p : quiet r r' -> objects r !! ptr = Some p ->
  exists p', objects r' !! ptr = Some p' /\ same_session p p' /\ p_State p' = p_State p.
Proof.
  intros H E. pose proof (q_objects _ _ H ptr) as Hk. rewrite E in Hk.
  destruct (objects r' !! ptr) as [p'|]; simpl in Hk; [|done]. exists p'. tauto.
Qed.

Lemma quiet_ok r r' : quiet r r' -> registry_ok r -> registry_ok r'.
Proof.
  intros Hq' [H1 H2 H3 H4 H5]. pose proof Hq' as [? Ep Es Eh Ef Em Ec El]. split; rewrite ?Ep, ?Es, ?Eh, ?Ef; auto.
  - intros pid ptr (p & Hp & <- & Hs)%H1. destruct (quiet_some _ _ _ _ Hq' Hp) as (p' & ? & [E1 E2] & _).
    exists p'. by rewrite E1, E2.
  - intros aid ptr (p & Hp & <- & Hs)%H2. destruct (quiet_some _ _ _ _ Hq' Hp) as (p' & ? & [E1 E2] & _).
    exists p'. by rewrite E1, E2.
  - intros pid hold (ptr & p & Hpid & Hp & Ha & Hs)%H3. destruct (quiet_some _ _ _ _ Hq' Hp) as (p' & ? & [E1 E2] & E3).
    exists ptr, p'. by rewrite E2, E3.
  - destruct H5. by split; rewrite ?Ep, ?Em, ?Ec, ?El.
Qed.

Lemma quiet_put r ptr p p' : objects r !! ptr = Some p -> same_session p p' -> p_State p' = p_State p -> quiet r (put r ptr p').
Proof.
  intros E Hs Hst. split; try done. intros ptr'. simpl. destruct (decide (ptr' = ptr)) as [->|Hn].
  - rewrite E, lookup_insert_eq. simpl. tauto.
  - rewrite lookup_insert_ne by done. apply kept_object_refl.
Qed.

(** A registry whose objects alone changed, each by [f] or not. *)
Lemma quiet_objects r objs : (forall ptr, kept_object (objects r !! ptr) (objs !! ptr)) -> quiet r (r <| objects := objs |>).
Proof. by split. Qed.

Lemma quiet_for_providers r f : (forall p, same_session p (f p) /\ p_State (f p) = p_State p) -> quiet r (for_providers r f).
Proof.
  intros Hf. apply quiet_objects. intros ptr. induction (map_to_list (providers r)) as [|[k q] l IH]; simpl; [apply kept_object_refl|].
  eapply kept_object_trans; [exact IH|]. set (m := foldr _ _ _).
  destruct (decide (ptr = q)) as [->|Hn].
  - rewrite lookup_alter_eq. destruct (m !! q); simpl; [apply Hf|done].
  - rewrite lookup_alter_ne by done. apply kept_object_refl.
Qed.

Lemma provider_at_Some r q ptr p : provider_at r q = Some (ptr, p) -> ptr = q /\ objects r !! q = Some p.
Proof. unfold provider_at. intros (p' & H & [= -> ->])%bind_Some. done. Qed.

Lemma find_provider_Some r pid ptr p :
  find_provider r pid = Some (ptr, p) <-> providers r !! pid = Some ptr /\ objects r !! ptr = Some p.
Proof.
  unfold find_provider, provider_at. split.
  - intros H. apply bind_Some in H as (q & H1 & H2). apply bind_Some in H2 as (p' & H2 & [= -> ->]). done.
  - intros [-> H]. simpl. by rewrite H.
Qed.

Lemma find_session_Some r pid aid ptr p :
  find_session r pid aid = Some (ptr, p) <-> find_provider r pid = Some (ptr, p) /\ p_AssignedID p = aid.
Proof.
  unfold find_session. split.
  - intros H. apply bind_Some in H as ([q p'] & H1 & H2). destruct (String.eqb _ _) eqn:E; [|done].
    injection H2 as -> ->. apply String.eqb_eq in E. done.
  - intros [-> H]. simpl. by rewrite H, String.eqb_refl.
Qed.

(** The object of a session has the identity it was looked up by. *)
Lemma session_object r pid aid ptr p : registry_ok r -> find_session r pid aid = Some (ptr, p) ->
  providers r !! pid = Some ptr /\ objects r !! ptr = Some p /\ p_ProviderID p = pid /\ p_AssignedID p = aid.
Proof.
  intros Hok [[Hp Ho]%find_provider_Some Ha]%find_session_Some.
  destruct (ro_provider _ Hok _ _ Hp) as (p' & Ho' & Hid & _). by assert (p' = p) as -> by congruence.
Qed.

Lemma quiet_session {A} r pid aid (d : A) f :
  (forall ptr p, objects r !! ptr = Some p -> quiet r (f ptr p).1) -> quiet r (with_session r pid aid d f).1.
Proof.
  intros H. unfold with_session. destruct (find_session r pid aid) as [[ptr p]|] eqn:E; [|done].
  apply find_session_Some in E as [[_ E]%find_provider_Some _]. by apply H.
Qed.

(** The methods that only write fields of sessions other than their state. *)
Definition quiet_op (op : pool_op) : bool :=
  match op with
  | OpTouch _ _ _ | OpLoadSanctions _ | OpSetTier _ _ | OpUpdateHashStatuses _ | OpExpireBridges | OpExpireModelHashes
  | OpMarkHashStatus _ _ _ | OpMarkHTTPOnly _ _ | OpNoteSuccess _ _ _ | OpSELiveness _ _ _ _ _ _ | OpSetSEKey _ _ _ _
  | OpSetOPoI _ _ _ | OpCanaryLatency _ _ _ _ | OpSetBenchmark _ _ _ | OpSetCeiling _ _ _ | OpSetStale _ _ _
  | OpSetSandboxed _ _ _ | OpSetGateFlags _ _ _ | OpReloadQuarantine | OpClearBenchmarks | OpReplaceTier2 _ _ _ _
  | OpSetPredicate _ => true
  | _ => false
  end.

(** A change of fields that [quiet] does not mention. *)
Ltac quiet_other := split; try done; intros; apply kept_object_refl.

Ltac quiet_step :=
  repeat first
    [ progress simpl
    | reflexivity
    | apply quiet_session; intros
    | apply quiet_for_providers; intros; repeat case_match; done
    | match goal with
      | |- quiet _ (match find_provider ?r ?pid with _ => _ end).1 =>
          destruct (find_provider r pid) as [[? ?]|] eqn:?; [|reflexivity]
      | |- quiet _ (match find_provider ?r ?pid with _ => _ end) =>
          destruct (find_provider r pid) as [[? ?]|] eqn:?; [|reflexivity]
      | H : find_provider _ _ = Some _ |- _ => apply find_provider_Some in H as [? ?]
      end
    | eapply quiet_put; [eassumption|by repeat case_match|by repeat case_match]
    | case_match ].

Lemma pool_quiet_op r op : quiet_op op = true -> quiet r (pool_step r op).
Proof.
  destruct op; intros Hop; try discriminate Hop; clear Hop; unfold pool_step.
  - unfold Touch. set (found := if negb _ then _ else _).
    assert (match found with Some (ptr, p) => objects r !! ptr = Some p | None => True end) as Hf.
    { destruct found as [[ptr p]|] eqn:Hf; [|done]. subst found. destruct (negb (String.eqb providerID "")).
      - by apply find_provider_Some in Hf as [_ ?].
      - destruct (negb (String.eqb assignedID "")); [|done]. apply bind_Some in Hf as (q & _ & Hf).
        by apply provider_at_Some in Hf as [-> ?]. }
    clearbody found. destruct found as [[ptr p]|]; [|reflexivity]. case_match; [by eapply quiet_put|reflexivity].
  - unfold LoadCanarySanctions. revert r. induction snapshots as [|x l IH]; intros r; simpl; [done|].
    etransitivity; [|apply IH]. case_match; [reflexivity|quiet_other].
  - unfold SetTier. quiet_step.
  - quiet_step.
  - quiet_step.
  - quiet_step.
  - quiet_step.
  - quiet_step.
  - unfold NoteBuyerSuccess. quiet_step.
  - unfold RecordSELivenessResult. quiet_step.
  - quiet_step.
  - quiet_step.
  - unfold RecordCanaryLatency. quiet_step.
  - unfold SetBenchmarkQuarantine, set_flag. quiet_step.
  - unfold SetAdmissionCeilingExcluded, set_flag. quiet_step.
  - unfold SetAdmissionEvidenceStale, set_flag. quiet_step.
  - unfold SetAdmissionSandboxed, set_flag, set_sandboxed. quiet_step.
  - unfold SetAdmissionGateFlags, set_sandboxed. quiet_step.
  - quiet_step.
  - quiet_step.
  - unfold ReplaceTier2Session. quiet_step.
  - quiet_other.
Qed.

(** ** Writes of one session *)

Definition registered_at (r : Registry) (ptr : positive) (p : Provider) : Prop :=
  providers r !! p_ProviderID p = Some ptr /\ objects r !! ptr = Some p.

Lemma session_registered r pid aid ptr p : registry_ok r -> find_session r pid aid = Some (ptr, p) ->
  registered_at r ptr p /\ p_ProviderID p = pid /\ p_AssignedID p = aid.
Proof. intros Hok (H1 & H2 & H3 & H4)%session_object; [|done]. unfold registered_at. by rewrite H3. Qed.

Lemma update_ok r ptr p p' :
  registry_ok r -> registered_at r ptr p -> same_session p p' ->
  (is_Some (recoveryHolds r !! p_ProviderID p) -> off_duty (p_State p')) -> registry_ok (put r ptr p').
Proof.
  intros [H1 H2 H3 H4 H5] [Hp Ho] [E1 E2] Hs. split; simpl; auto; try (by destruct H5).
  - intros pid q (x & Hx & Hid & Hse)%H1. destruct (decide (q = ptr)) as [->|Hn].
    + assert (x = p) as -> by congruence. exists p'. by rewrite lookup_insert_eq, E1, E2.
    + exists x. by rewrite lookup_insert_ne by done.
  - intros aid q (x & Hx & Hid & Hse)%H2. destruct (decide (q = ptr)) as [->|Hn].
    + assert (x = p) as -> by congruence. exists p'. by rewrite lookup_insert_eq, E1, E2.
    + exists x. by rewrite lookup_insert_ne by done.
  - intros pid hold Hh. destruct (H3 _ _ Hh) as (q & x & Hpid & Hx & Ha & Hst). destruct (decide (q = ptr)) as [->|Hn].
    + assert (x = p) as -> by congruence. exists ptr, p'. rewrite lookup_insert_eq, E2. split_and!; try done.
      destruct (H1 _ _ Hpid) as (y & Hy & <- & _). assert (y = p) as -> by congruence. apply Hs. by eexists.
    + exists q, x. by rewrite lookup_insert_ne by done.
Qed.

Lemma update_registered r ptr p p' : registered_at r ptr p -> same_session p p' -> registered_at (put r ptr p') ptr p'.
Proof. intros [H _] [E _]. unfold registered_at. simpl. by rewrite E, lookup_insert_eq. Qed.

Lemma clear_ok r pid : registry_ok r -> registry_ok (clearBreakerStateLocked r pid).
Proof.
  intros [H1 H2 H3 H4 H5]. split; simpl; auto; try (by destruct H5).
  - intros pid' hold [_ Hh]%lookup_delete_Some. by apply H3.
  - intros pid' [x [_ Hx]%lookup_delete_Some]. apply H4. by eexists.
Qed.

Lemma setState_ok r ptr p p' next :
  registry_ok r -> registered_at r ptr p -> same_session p p' ->
  (next = StateUnavailable \/ off_duty next \/ recoveryHolds r !! p_ProviderID p = None) ->
  registry_ok (setStateLocked r ptr p' next).
Proof.
  intros Hok Hr Hs Hn. unfold setStateLocked, applyStateCleanupLocked.
  destruct (String.eqb next StateUnavailable) eqn:E.
  - change (registry_ok (put (clearBreakerStateLocked r (p_ProviderID p')) ptr (p' <| p_State := next |>))).
    apply (update_ok _ _ p); [by apply clear_ok|by destruct Hr|done|]. destruct Hs as [-> _]. simpl.
    rewrite lookup_delete_eq. by intros [? ?].
  - apply String.eqb_neq in E. apply (update_ok _ _ p); [done..|]. simpl. intros [h Hh]. destruct Hn as [?|[?|?]]; [done|done|congruence].
Qed.

Lemma setState_registered r ptr p p' next :
  registered_at r ptr p -> same_session p p' -> registered_at (setStateLocked r ptr p' next) ptr (p' <| p_State := next |>).
Proof.
  intros [H _] [E _]. unfold setStateLocked, applyStateCleanupLocked, registered_at.
  destruct (String.eqb next StateUnavailable); simpl; by rewrite E, lookup_insert_eq.
Qed.

Lemma hold_ok r ptr p pid aid reason :
  registry_ok r -> registered_at r ptr p -> p_ProviderID p = pid -> p_AssignedID p = aid -> off_duty (p_State p) ->
  registry_ok (r <| recoveryHolds := <[pid := mkHold aid reason]> (recoveryHolds r) |>).
Proof.
  intros Hok Hr <- <-. revert Hok Hr. intros [H1 H2 H3 H4 H5] [Hp Ho] Hs. split; simpl; auto; try (by destruct H5).
  intros pid hold [[<- <-]|[_ Hh]]%lookup_insert_Some; [|by apply H3]. by exists ptr, p.
Qed.

(** Degrading a session and holding it, as every trip does. *)
Definition degraded_hold (r : Registry) (ptr : positive) (p : Provider) (pid aid reason : string) : Registry :=
  let r := setStateLocked r ptr p StateDegraded in
  r <| recoveryHolds := <[pid := mkHold aid reason]> (recoveryHolds r) |>.

Lemma off_duty_degraded : off_duty StateDegraded.
Proof. by split. Qed.

Lemma degraded_hold_ok r ptr p p' pid aid reason :
  registry_ok r -> registered_at r ptr p -> same_session p p' -> p_ProviderID p = pid -> p_AssignedID p = aid ->
  registry_ok (degraded_hold r ptr p' pid aid reason).
Proof.
  intros Hok Hr Hs Hpid Haid. apply (hold_ok _ ptr (p' <| p_State := StateDegraded |>)).
  - apply (setState_ok _ _ p); [done|done|done|]. right. left. apply off_duty_degraded.
  - by apply (setState_registered _ _ p).
  - simpl. destruct Hs. congruence.
  - simpl. destruct Hs. congruence.
  - apply off_duty_degraded.
Qed.

Lemma unhold_ok r pid : registry_ok r -> registry_ok (r <| recoveryHolds := delete pid (recoveryHolds r) |>).
Proof. intros [H1 H2 H3 H4 H5]. split; simpl; auto; try (by destruct H5). intros pid' hold [_ Hh]%lookup_delete_Some. by apply H3. Qed.

Lemma session_hold_spec r ptr p : registry_ok r -> registered_at r ptr p ->
  session_hold r p = recoveryHolds r !! p_ProviderID p.
Proof.
  intros Hok [Hp Ho]. unfold session_hold. destruct (recoveryHolds r !! p_ProviderID p) as [h|] eqn:E; [|done].
  destruct (ro_hold _ Hok _ _ E) as (q & x & Hq & Hx & Ha & _). assert (x = p) as -> by congruence.
  by rewrite Ha, String.eqb_refl.
Qed.

Lemma provider_state_ok r ptr p next : registry_ok r -> registered_at r ptr p -> canApplyProviderStateLocked r p next = true ->
  next = StateUnavailable \/ off_duty next \/ recoveryHolds r !! p_ProviderID p = None.
Proof.
  intros Hok Hr. unfold canApplyProviderStateLocked. rewrite (session_hold_spec _ _ _ Hok Hr).
  destruct (recoveryHolds r !! p_ProviderID p); [|tauto]. intros ->%String.eqb_eq. right. left. apply off_duty_degraded.
Qed.

Lemma coordinator_state_ok r ptr p next : registry_ok r -> registered_at r ptr p -> canSetCoordinatorStateLocked r p next = true ->
  next = StateUnavailable \/ off_duty next \/ recoveryHolds r !! p_ProviderID p = None.
Proof.
  intros Hok Hr. unfold canSetCoordinatorStateLocked. rewrite (session_hold_spec _ _ _ Hok Hr).
  destruct (String.eqb next StateReady) eqn:E; simpl.
  - destruct (recoveryHolds r !! p_ProviderID p); [done|tauto].
  - intros _. apply String.eqb_neq in E. destruct (decide (next = StateUnavailable)); [tauto|]. right. left. by split.
Qed.

(** ** The memory of model names *)

(** Everything but the model names. *)
Record same_core (r r' : Registry) : Prop := mkSameCore {
  sc_objects : objects r' = objects r;
  sc_providers : providers r' = providers r;
  sc_sessions : sessions r' = sessions r;
  sc_holds : recoveryHolds r' = recoveryHolds r;
  sc_faults : breakerFaults r' = breakerFaults r;
  sc_sanctions : canarySanctions r' = canarySanctions r;
  sc_serving : buyerServing r' = buyerServing r;
}.

#[global] Instance same_core_preorder : PreOrder same_core.
Proof. split; [done|]. intros r1 r2 r3 [] []. split; congruence. Qed.

Lemma record_core r pid m : same_core r (recordSeenModelLocked r pid m).
Proof. unfold recordSeenModelLocked. repeat case_match; done. Qed.

Lemma record_union_core r pid m l : same_core r (recordSeenModelsUnionLocked r pid m l).
Proof.
  unfold recordSeenModelsUnionLocked. transitivity (recordSeenModelLocked r pid m); [apply record_core|].
  generalize (recordSeenModelLocked r pid m). clear r.
  induction l as [|x l IH]; intros r; simpl; [done|]. transitivity (recordSeenModelLocked r pid x); [apply record_core|apply IH].
Qed.

Lemma contrib_incr (m : gmap string Z) pid : sum_contrib (<[pid := default 0 (m !! pid) + 1]> m) = sum_contrib m + 1.
Proof.
  unfold sum_contrib. destruct (m !! pid) as [n|] eqn:E; simpl.
  - rewrite (sum_map_update _ _ _ _ _ E). lia.
  - rewrite sum_map_insert by done. lia.
Qed.

Lemma size_add (x : string) (s : gset string) : x ∉ s -> Z.of_nat (size ({[x]} ∪ s)) = Z.of_nat (size s) + 1.
Proof. intros H. rewrite size_union by set_solver. rewrite size_singleton. lia. Qed.

Lemma record_names r pid m : names_ok r -> is_Some (providers r !! pid) -> names_ok (recordSeenModelLocked r pid m).
Proof.
  intros [H5 H6 H7] Hp. unfold recordSeenModelLocked. set (seen' := if negb _ && _ then _ else _).
  assert (Z.of_nat (size seen') <= maxSeenModelsPerProvider) as Hseen.
  { unfold seen'. assert (Z.of_nat (size (default ∅ (seenModelsByProvider r !! pid))) <= maxSeenModelsPerProvider) as Hs.
    { destruct (seenModelsByProvider r !! pid) as [s|] eqn:E; [by apply (H5 pid)|]. vm_compute. discriminate. }
    destruct (negb _) eqn:Em; simpl; [|done]. bool_hyps. destruct (_ <? _) eqn:El; [|done]. rewrite size_add by done. lia. }
  assert (forall pid' s, <[pid := seen']> (seenModelsByProvider r) !! pid' = Some s ->
    is_Some (providers r !! pid') /\ Z.of_nat (size s) <= maxSeenModelsPerProvider) as Hseen'.
  { intros pid' s [[<- <-]|[_ Hs]]%lookup_insert_Some; [done|by apply H5]. }
  assert (0 <= default 0 (lifetimeContribByProvider r !! pid) <= maxLifetimeContribPerProvider) as Hc.
  { destruct (lifetimeContribByProvider r !! pid) as [n|] eqn:E; simpl; [by apply (H6 pid)|unfold maxLifetimeContribPerProvider; lia]. }
  repeat case_match; simpl in *; split; simpl; auto.
  - intros pid' n [[<- <-]|[_ Hn]]%lookup_insert_Some; [|by apply (H6 pid')]. unfold maxLifetimeContribPerProvider in *.
    rewrite Int64.add_exact by (i64; lia). lia.
  - bool_hyps. rewrite size_add by done. unfold maxLifetimeContribPerProvider, maxSeenModelsLifetime in *.
    rewrite Int64.add_exact by (i64; lia). rewrite contrib_incr. lia.
Qed.

Lemma record_union_names r pid m l :
  names_ok r -> is_Some (providers r !! pid) -> names_ok (recordSeenModelsUnionLocked r pid m l).
Proof.
  intros Hok Hp. unfold recordSeenModelsUnionLocked.
  assert (names_ok (recordSeenModelLocked r pid m) /\ is_Some (providers (recordSeenModelLocked r pid m) !! pid)) as [H1 H2].
  { split; [by apply record_names|]. by rewrite (sc_providers _ _ (record_core r pid m)). }
  revert H1 H2. generalize (recordSeenModelLocked r pid m). clear. induction l as [|x l IH]; intros r H1 H2; simpl; [done|].
  apply IH; [by apply record_names|]. by rewrite (sc_providers _ _ (record_core r pid x)).
Qed.

Lemma core_ok r r' : same_core r r' -> names_ok r' -> registry_ok r -> registry_ok r'.
Proof. intros [E1 E2 E3 E4 E5 E6 E7] Hn [H1 H2 H3 H4 H5]. split; rewrite ?E1, ?E2, ?E3, ?E4, ?E5; auto. Qed.

Lemma record_union_ok r pid m l :
  registry_ok r -> is_Some (providers r !! pid) -> registry_ok (recordSeenModelsUnionLocked r pid m l).
Proof.
  intros Hok Hp. apply (core_ok r); [apply record_union_core| |done]. apply record_union_names; [by destruct Hok|done].
Qed.

(** ** Registration *)

(** A registry in which the provider [pid] may be installed at the fresh address [ptr]
    under the fresh session [aid]: nothing points at a session of [pid] any more but
    the entries the installation overwrites. *)
Record vacated (r : Registry) (pid aid : string) (ptr : positive) : Prop := mkVacated {
  va_fresh : objects r !! ptr = None;
  va_provider : forall pid' q, pid' <> pid -> providers r !! pid' = Some q -> exists x,
    objects r !! q = Some x /\ p_ProviderID x = pid' /\ sessions r !! p_AssignedID x = Some q;
  va_session : forall aid' q, sessions r !! aid' = Some q -> exists x,
    objects r !! q = Some x /\ p_AssignedID x = aid' /\ p_ProviderID x <> pid /\ providers r !! p_ProviderID x = Some q;
  va_new : sessions r !! aid = None;
  va_hold : forall pid' hold, pid' <> pid -> recoveryHolds r !! pid' = Some hold -> exists q x,
    providers r !! pid' = Some q /\ objects r !! q = Some x /\ p_AssignedID x = rh_assignedID hold /\ off_duty (p_State x);
  va_faults : forall pid', pid' <> pid -> is_Some (breakerFaults r !! pid') -> is_Some (providers r !! pid');
  va_names : names_ok r;
}.

Lemma placed_ok r r' ptr p :
  vacated r (p_ProviderID p) (p_AssignedID p) ptr ->
  objects r' = <[ptr := p]> (objects r) -> providers r' = <[p_ProviderID p := ptr]> (providers r) ->
  sessions r' = <[p_AssignedID p := ptr]> (sessions r) -> recoveryHolds r' = delete (p_ProviderID p) (recoveryHolds r) ->
  breakerFaults r' = delete (p_ProviderID p) (breakerFaults r) -> names_ok r' -> registry_ok r'.
Proof.
  intros [V1 V2 V3 V4 V5 V6 V7] E1 E2 E3 E4 E5 Hn.
  assert (forall q x, objects r !! q = Some x -> objects r' !! q = Some x) as Hold.
  { intros q x Hx. rewrite E1, lookup_insert_ne; [done|]. intros ->. congruence. }
  split; rewrite ?E2, ?E3, ?E4, ?E5; auto.
  - intros pid q [[<- <-]|[Hne Hq]]%lookup_insert_Some; [exists p; by rewrite E1, !lookup_insert_eq|].
    destruct (V2 _ _ ltac:(done) Hq) as (x & Hx & Hid & Hs). exists x. rewrite lookup_insert_ne; [auto|]. intros Ha. congruence.
  - intros aid q [[<- <-]|[Hne Hq]]%lookup_insert_Some; [exists p; by rewrite E1, !lookup_insert_eq|].
    destruct (V3 _ _ Hq) as (x & Hx & Hid & Hp & Hs). exists x. rewrite lookup_insert_ne by done. auto.
  - intros pid hold [Hne Hh]%lookup_delete_Some. destruct (V5 _ _ ltac:(done) Hh) as (q & x & Hq & Hx & Ha & Hs).
    exists q, x. rewrite lookup_insert_ne by done. auto.
  - intros pid [x [Hne Hx]%lookup_delete_Some]. rewrite lookup_insert_ne by done. apply V6; [done|by eexists].
Qed.

Lemma sanction_ok r ptr p :
  registry_ok r -> registered_at r ptr p -> registry_ok (applyCanarySanctionLocked r ptr p).
Proof.
  intros Hok Hr. unfold applyCanarySanctionLocked. destruct (canarySanctions r !! _) as [sanction|]; [|done].
  case_match; [done|]. by apply (degraded_hold_ok r ptr p).
Qed.

Lemma install_ok r ptr p c : vacated r (p_ProviderID p) (p_AssignedID p) ptr -> registry_ok (install r ptr p c).
Proof.
  intros Hv. unfold install. cbv zeta. set (p1 := if String.eqb (p_Tier _) "" then _ else _).
  set (p2 := if String.eqb (p_InferencePath p1) "" then _ else _).
  assert (same_session p p2) as [E1 E2] by (unfold p2, p1; repeat case_match; done). clearbody p2. clear p1.
  rewrite <- E1, <- E2 in Hv. set (r1 := (put r ptr p2) <| providers := _ |> <| sessions := _ |>).
  pose proof (record_union_core r1 (p_ProviderID p2) (p_ModelID p2) (p_SupportedModels p2)) as [C1 C2 C3 C4 C5 C6 C7].
  assert (names_ok (recordSeenModelsUnionLocked r1 (p_ProviderID p2) (p_ModelID p2) (p_SupportedModels p2))) as Hn.
  { apply record_union_names; [|simpl; rewrite lookup_insert_eq; by eexists]. destruct (va_names _ _ _ _ Hv) as [N1 N2 N3].
    split; simpl; [|done..]. intros pid seen Hs. destruct (N1 _ _ Hs) as [Hp ?]. split; [|done].
    destruct (decide (pid = p_ProviderID p2)) as [->|]; [rewrite lookup_insert_eq; by eexists|by rewrite lookup_insert_ne]. }
  set (r2 := recordSeenModelsUnionLocked _ _ _ _) in *.
  apply sanction_ok.
  - apply (placed_ok r _ ptr p2); simpl; [done|by rewrite C1|by rewrite C2|by rewrite C3|by rewrite C4|by rewrite C5|].
    destruct Hn. by split.
  - split; simpl; [rewrite C2|rewrite C1]; simpl; by rewrite lookup_insert_eq.
Qed.

Lemma vacated_new r pid aid ptr :
  registry_ok r -> objects r !! ptr = None -> sessions r !! aid = None -> find_provider r pid = None -> vacated r pid aid ptr.
Proof.
  intros [H1 H2 H3 H4 H5] Hf Hn Hp.
  assert (providers r !! pid = None) as Hnone.
  { destruct (providers r !! pid) as [q|] eqn:E; [|done]. destruct (H1 _ _ E) as (x & Hx & _ & _).
    by rewrite (proj2 (find_provider_Some r pid q x) (conj E Hx)) in Hp. }
  split; auto.
  intros aid' q Hq. destruct (H2 _ _ Hq) as (x & Hx & Ha & Hpx). exists x. split_and!; try done. intros E. congruence.
Qed.

Lemma vacated_replaced r pid aid ptr q old :
  registry_ok r -> objects r !! ptr = None -> sessions r !! aid = None -> find_provider r pid = Some (q, old) ->
  vacated (r <| sessions := delete (p_AssignedID old) (sessions r) |>
             <| seenModelsByProvider := delete pid (seenModelsByProvider r) |>) pid aid ptr.
Proof.
  intros [H1 H2 H3 H4 H5] Hf Hn [Hq Ho]%find_provider_Some.
  destruct (H1 _ _ Hq) as (x & Hx & Hid & Hs). assert (x = old) as -> by congruence.
  split; simpl; auto.
  - intros pid' q' Hne Hq'. destruct (H1 _ _ Hq') as (x & Hx' & Hid' & Hs'). exists x. split_and!; try done.
    rewrite lookup_delete_ne; [done|]. intros E. congruence.
  - intros aid' q' [Hne Hq']%lookup_delete_Some. destruct (H2 _ _ Hq') as (x & Hx' & Ha' & Hp'). exists x.
    split_and!; try done. intros E. congruence.
  - rewrite lookup_delete_ne; [done|]. intros E. congruence.
  - destruct H5 as [N1 N2 N3]. split; simpl; try done. intros pid' seen [_ Hs']%lookup_delete_Some. by apply N1.
Qed.

Lemma stage_session existing p now : same_session p (stageReceiptPublicationLocked existing p now).2.
Proof. unfold stageReceiptPublicationLocked. repeat case_match; done. Qed.

Lemma register_ok r ptr p c now :
  registry_ok r -> objects r !! ptr = None -> sessions r !! p_AssignedID p = None ->
  registry_ok (RegisterAtDetailed r ptr p c now).1.
Proof.
  intros Hok Hf Hn. unfold RegisterAtDetailed. destruct (find_provider r (p_ProviderID p)) as [[q old]|] eqn:E.
  - destruct (register_refusal old p); [done|]. pose proof (stage_session (Some old) p now) as [S1 S2].
    destruct (stageReceiptPublicationLocked (Some old) p now) as [refusal p']. simpl in *.
    case_match; [done|]. apply install_ok. rewrite S1, S2. by eapply vacated_replaced.
  - pose proof (stage_session None p now) as [S1 S2]. destruct (stageReceiptPublicationLocked None p now) as [refusal p']. simpl in *.
    case_match; [done|]. apply install_ok. rewrite S1, S2. by apply vacated_new.
Qed.

Lemma remove_ok r pid aid ptr p : registry_ok r -> find_session r pid aid = Some (ptr, p) -> registry_ok (remove r pid aid).
Proof.
  intros Hok Hf. destruct (session_object _ _ _ _ _ Hok Hf) as (Hp & Ho & Hid & Ha).
  destruct Hok as [H1 H2 H3 H4 H5]. split; simpl.
  - intros pid' q [Hne Hq]%lookup_delete_Some. destruct (H1 _ _ Hq) as (x & Hx & Hid' & Hs). exists x. split_and!; try done.
    rewrite lookup_delete_ne; [done|]. intros E. rewrite <- E in Hs. destruct (H2 _ _ Hs) as (y & Hy & Ha' & Hp').
    destruct (H1 _ _ Hp) as (z & Hz & Hidz & Hsz). congruence.
  - intros aid' q [Hne Hq]%lookup_delete_Some. destruct (H2 _ _ Hq) as (x & Hx & Ha' & Hp'). exists x. split_and!; try done.
    rewrite lookup_delete_ne; [done|]. intros E. rewrite <- E in Hp'. congruence.
  - intros pid' hold [Hne Hh]%lookup_delete_Some. destruct (H3 _ _ Hh) as (q & x & Hq & Hx & ? & ?).
    exists q, x. by rewrite lookup_delete_ne.
  - intros pid' [x [Hne Hx]%lookup_delete_Some]. rewrite lookup_delete_ne by done. apply H4. by eexists.
  - destruct H5 as [N1 N2 N3]. split; simpl; try done. intros pid' seen [Hne Hs]%lookup_delete_Some.
    destruct (N1 _ _ Hs). by rewrite lookup_delete_ne.
Qed.

(** ** Messages of the provider *)

Lemma identity_kept r p hb p' : p' = heartbeat_identity r p hb -> same_session p p' /\ p_State p' = p_State p.
Proof. intros ->. unfold heartbeat_identity. repeat case_match; done. Qed.

Lemma metrics_kept p hb : same_session p (heartbeat_metrics p hb) /\ p_State (heartbeat_metrics p hb) = p_State p.
Proof. unfold heartbeat_metrics. repeat case_match; done. Qed.

Lemma loading_kept p hb : same_session p (heartbeat_loading p hb) /\ p_State (heartbeat_loading p hb) = p_State p.
Proof. unfold heartbeat_loading. repeat case_match; done. Qed.

Lemma commit_kept p now : same_session p (commitPendingReceiptPubkeyLocked p now).1
  /\ p_State (commitPendingReceiptPubkeyLocked p now).1 = p_State p.
Proof. unfold commitPendingReceiptPubkeyLocked. repeat case_match; done. Qed.

(** What a method does to the holds: it leaves those of other providers alone, and
    gives [f] of the provider's own. *)
Definition holds_become (r r' : Registry) (pid : string) (h : option recoveryHold) : Prop :=
  recoveryHolds r' !! pid = h /\ forall pid', pid' <> pid -> recoveryHolds r' !! pid' = recoveryHolds r !! pid'.

Lemma setState_holds r ptr p next pid : p_ProviderID p = pid ->
  holds_become r (setStateLocked r ptr p next) pid
    (if String.eqb next StateUnavailable then None else recoveryHolds r !! pid).
Proof.
  intros <-. unfold setStateLocked, applyStateCleanupLocked. destruct (String.eqb next StateUnavailable); simpl; [|done].
  split; [apply lookup_delete_eq|]. intros pid' Hn. by apply lookup_delete_ne.
Qed.

(** A message that may change the state of the session, with other fields: [p'] is
    the session before the change and [p''] after all of it. *)
Lemma message_ok r r1 ptr p' p'' next (applies : bool) :
  registry_ok r1 -> registered_at r1 ptr p' -> recoveryHolds r1 = recoveryHolds r ->
  (applies = true -> canApplyProviderStateLocked r1 p' next = true) ->
  same_session p' p'' -> p_State p'' = (if applies then next else p_State p') ->
  let r' := put (if applies then setStateLocked r1 ptr p' next else r1) ptr p'' in
  registry_ok r' /\ (recoveryHolds r' = recoveryHolds r
    \/ (recoveryHolds r !! p_ProviderID p' = None /\ holds_become r r' (p_ProviderID p') None)).
Proof.
  intros Hok Hr Eh Hcan Hs Hst r'. subst r'. destruct applies.
  - specialize (Hcan eq_refl). pose proof (provider_state_ok _ _ _ _ Hok Hr Hcan) as Hcases.
    assert (registry_ok (setStateLocked r1 ptr p' next)) as Hok2 by (by apply (setState_ok _ _ p')).
    split; [apply (quiet_ok (setStateLocked r1 ptr p' next)); [|done]|].
    + eapply quiet_put; [by apply (setState_registered r1 ptr p' p' next)|done|done].
    + destruct (setState_holds r1 ptr p' next _ eq_refl) as [H1 H2]. unfold canApplyProviderStateLocked in Hcan.
      rewrite (session_hold_spec _ _ _ Hok Hr) in Hcan. unfold setStateLocked, applyStateCleanupLocked in *.
      destruct (String.eqb next StateUnavailable) eqn:E; [|by left]. apply String.eqb_eq in E.
      destruct (recoveryHolds r1 !! p_ProviderID p') eqn:E'; [rewrite E in Hcan; discriminate Hcan|]. right. unfold holds_become. by rewrite <- Eh.
  - split; [|by left]. apply (quiet_ok r1); [|done]. eapply quiet_put; [by destruct Hr|done|done].
Qed.

Lemma heartbeat_ok r pid aid hb : registry_ok r ->
  let r' := (ApplyHeartbeatDetailed r pid aid hb).1 in
  registry_ok r' /\ (recoveryHolds r' = recoveryHolds r \/ (recoveryHolds r !! pid = None /\ holds_become r r' pid None)).
Proof.
  intros Hok. unfold ApplyHeartbeatDetailed, with_session. destruct (find_session r pid aid) as [[ptr old]|] eqn:E; [|by split; [|left]].
  destruct (session_registered _ _ _ _ _ Hok E) as (Hr & Hid & Haid). cbv zeta.
  set (p0 := heartbeat_identity _ _ hb). set (p1 := heartbeat_metrics p0 hb). set (r1 := recordSeenModelsUnionLocked _ _ _ _).
  assert (same_session old p1 /\ p_State p1 = p_State old) as [S1 S2].
  { destruct (metrics_kept p0 hb) as [[M1 M2] M3]. fold p1 in M1, M2, M3.
    destruct (identity_kept _ _ hb p0 eq_refl) as [[I1 I2] I3]. unfold same_session. rewrite M1, M2, M3, I1, I2, I3. done. }
  assert (registry_ok (put r ptr p1)) as Hok0.
  { apply (quiet_ok r); [|done]. eapply quiet_put; [by destruct Hr|done|done]. }
  pose proof (update_registered _ _ _ _ Hr S1) as Hr0.
  destruct (record_union_core (put r ptr p1) (p_ProviderID p1) (hb_ModelID hb) (p_SupportedModels p1)) as [C1 C2 C3 C4 C5 C6 C7].
  fold r1 in C1, C2, C3, C4, C5.
  assert (registry_ok r1) as Hok1.
  { apply record_union_ok; [done|]. destruct Hr0 as [-> _]. by eexists. }
  assert (registered_at r1 ptr p1) as Hr1 by (unfold registered_at; rewrite C1, C2; exact Hr0).
  clearbody r1. clearbody p1. clear p0. set (applies := negb _ && _ && _).
  assert (applies = true -> canApplyProviderStateLocked r1 p1 (hb_Status hb) = true) as Ha by (unfold applies; intros Ea; by bool_hyps).
  clearbody applies. assert (p_ProviderID p1 = pid) as Hpid by (destruct S1 as [-> _]; done).
  set (p2 := if applies then p1 <| p_State := hb_Status hb |> else p1).
  destruct (loading_kept p2 hb) as [L1 L3].
  pose proof (message_ok r r1 ptr p1 (heartbeat_loading p2 hb) (hb_Status hb) applies Hok1 Hr1 C4 Ha) as Hm.
  rewrite Hpid in Hm. unfold p2 in *. destruct applies; apply Hm; try done.
Qed.

Lemma state_update_ok r now pid aid update : registry_ok r ->
  let r' := (ApplyStateUpdate r now pid aid update).1 in
  registry_ok r' /\ (recoveryHolds r' = recoveryHolds r \/ (recoveryHolds r !! pid = None /\ holds_become r r' pid None)).
Proof.
  intros Hok. unfold ApplyStateUpdate, with_session. destruct (find_session r pid aid) as [[ptr p]|] eqn:E; [|by split; [|left]].
  destruct (session_registered _ _ _ _ _ Hok E) as (Hr & Hid & Haid). cbv zeta.
  set (applies := canApplyProviderStateLocked r p (su_State update)).
  assert (applies = true -> canApplyProviderStateLocked r p (su_State update) = true) as Ha by done. clearbody applies.
  rewrite <- Hid. clear E Hid Haid pid aid.
  destruct applies.
  - set (p3 := if present _ then _ else _).
    assert (same_session p p3 /\ p_State p3 = su_State update) as [S1 S2] by (unfold p3; repeat case_match; done). clearbody p3.
    destruct (commit_kept p3 (or_now (su_At update) now)) as [[K1 K2] K3].
    destruct (commitPendingReceiptPubkeyLocked p3 _) as [p4 event]. simpl in K1, K2, K3.
    apply (message_ok r r ptr p p4 (su_State update) true); [done..| |by rewrite K3]. destruct S1. unfold same_session. by rewrite K1, K2.
  - set (p3 := if present _ then _ else _).
    assert (same_session p p3 /\ p_State p3 = p_State p) as [S1 S2] by (unfold p3; repeat case_match; done). clearbody p3.
    destruct (commit_kept p3 (or_now (su_At update) now)) as [[K1 K2] K3].
    destruct (commitPendingReceiptPubkeyLocked p3 _) as [p4 event]. simpl in K1, K2, K3.
    apply (message_ok r r ptr p p4 (su_State update) false); [done..| |by rewrite K3]. destruct S1. unfold same_session. by rewrite K1, K2.
Qed.

(** ** Decisions of the coordinator *)

Lemma mark_state_ok r pid aid state : registry_ok r ->
  let r' := (MarkState r pid aid state).1 in
  registry_ok r' /\ (state <> StateUnavailable -> recoveryHolds r' = recoveryHolds r)
  /\ forall pid', pid' <> pid -> recoveryHolds r' !! pid' = recoveryHolds r !! pid'.
Proof.
  intros Hok. unfold MarkState, with_session. destruct (find_session r pid aid) as [[ptr p]|] eqn:E; [|by split_and!].
  destruct (session_registered _ _ _ _ _ Hok E) as (Hr & Hid & Haid).
  destruct (canSetCoordinatorStateLocked r p state) eqn:Hc; [|by split_and!].
  cbn [fst]. split_and!.
  - apply (setState_ok _ _ p); [done..|]. by eapply coordinator_state_ok.
  - intros Hn%String.eqb_neq. unfold setStateLocked, applyStateCleanupLocked. by rewrite Hn.
  - by apply (setState_holds r ptr p state).
Qed.

Lemma degraded_hold_holds r ptr p pid aid reason :
  p_ProviderID p = pid -> holds_become r (degraded_hold r ptr p pid aid reason) pid (Some (mkHold aid reason)).
Proof.
  intros <-. unfold degraded_hold. cbv zeta. split; simpl; [apply lookup_insert_eq|].
  intros pid' Hn. by rewrite lookup_insert_ne.
Qed.

Lemma mark_degraded_ok r pid aid reason : registry_ok r ->
  let r' := (MarkDegradedForRecovery r pid aid reason).1 in
  registry_ok r' /\ (recoveryHolds r' = recoveryHolds r \/ holds_become r r' pid (Some (mkHold aid reason)))
  /\ (hold_is (recoveryHolds r !! pid) aid RecoveryReasonCanary = true -> recoveryHolds r' = recoveryHolds r).
Proof.
  intros Hok. unfold MarkDegradedForRecovery, with_session. destruct (find_session r pid aid) as [[ptr p]|] eqn:E; [|by split_and!; [|left|]].
  destruct (session_registered _ _ _ _ _ Hok E) as (Hr & Hid & Haid).
  destruct (hold_is _ _ _); [by split_and!; [|left|]|]. split_and!; [|right|done].
  - by apply (degraded_hold_ok r ptr p).
  - by apply degraded_hold_holds.
Qed.

Lemma mark_recovered_ok r now pid aid at_ : registry_ok r ->
  let r' := (MarkRecovered r now pid aid at_).1 in
  registry_ok r' /\ (recoveryHolds r' = recoveryHolds r
    \/ (exists hold, recoveryHolds r !! pid = Some hold /\ rh_assignedID hold = aid /\ rh_reason hold <> RecoveryReasonCanary
        /\ holds_become r r' pid None)).
Proof.
  intros Hok. unfold MarkRecovered, with_session. destruct (find_session r pid aid) as [[ptr p]|] eqn:E; [|by split; [|left]].
  destruct (session_registered _ _ _ _ _ Hok E) as (Hr & Hid & Haid).
  destruct (recoveryHolds r !! pid) as [hold|] eqn:Eh; [|by split; [|left]].
  destruct (negb _) eqn:E1; [by split; [|left]|]. destruct (String.eqb (rh_reason hold) _) eqn:E2; [by split; [|left]|].
  bool_hyps. cbv zeta. cbn [fst]. split.
  - set (r0 := r <| recoveryHolds := delete pid (recoveryHolds r) |>).
    assert (registry_ok (setStateLocked r0 ptr p StateReady)) as [K1 K2 K3 K4 [K5 K6 K7]].
    { apply (setState_ok _ _ p); [by apply unhold_ok|done|done|]. right. right. simpl. rewrite Hid. apply lookup_delete_eq. }
    case_match; split; simpl in *; auto; try (by split);
      intros pid' [x [_ Hx]%lookup_delete_Some]; apply K4; by eexists.
  - right. exists hold. split_and!; try done. split; [|intros pid' Hn]; case_match; simpl; by rewrite ?lookup_delete_eq, ?lookup_delete_ne.
Qed.

Lemma faults_ok r pid l : registry_ok r -> is_Some (providers r !! pid) ->
  registry_ok (r <| breakerFaults := <[pid := l]> (breakerFaults r) |>).
Proof.
  intros [H1 H2 H3 H4 [N1 N2 N3]] Hp. split; simpl; auto; [|by split].
  intros pid' [x [[<- <-]|[_ Hx]]%lookup_insert_Some]; [done|]. apply H4. by eexists.
Qed.

Lemma breaker_ok r now pid aid at_ threshold window : registry_ok r ->
  let out := RecordBreakerFault r now pid aid at_ threshold window in
  registry_ok out.1 /\ (recoveryHolds out.1 = recoveryHolds r
    \/ holds_become r out.1 pid (Some (mkHold aid RecoveryReasonBreaker))
    \/ (bf_Tripped out.2 = BreakerTripUnavailable /\ holds_become r out.1 pid None)).
Proof.
  intros Hok. unfold RecordBreakerFault, with_session. destruct (find_session r pid aid) as [[ptr p]|] eqn:E; [|by split; [|left]].
  destruct (session_registered _ _ _ _ _ Hok E) as (Hr & Hid & Haid).
  destruct (negb _ && _); [by split; [|left]|]. cbv zeta.
  set (r1 := r <| breakerFaults := _ |>).
  assert (registry_ok r1) as Hok1 by (apply faults_ok; [done|]; destruct Hr as [H _]; rewrite Hid in H; by eexists).
  assert (registered_at r1 ptr p) as Hr1 by done.
  destruct (_ <? _); [by split; [|left]|]. destruct (negb _ && _); cbn [fst snd].
  - split; [apply (setState_ok _ _ p); [done..|by left]|]. right. right. split; [done|].
    exact (setState_holds r1 ptr p StateUnavailable pid Hid).
  - split; [by apply (degraded_hold_ok r1 ptr p)|]. right. left. by apply (degraded_hold_holds r1).
Qed.

Lemma sanctions_quiet r m : quiet r (r <| canarySanctions := m |>).
Proof. quiet_other. Qed.

Lemma canary_passed_ok r ptr p0 p pid aid threshold :
  registry_ok r -> registered_at r ptr p0 -> same_session p0 p -> p_State p = p_State p0 ->
  p_ProviderID p = pid -> p_AssignedID p = aid ->
  let r' := (canary_passed r ptr p pid aid threshold).1 in
  registry_ok r' /\ (recoveryHolds r' = recoveryHolds r
    \/ (hold_is (recoveryHolds r !! pid) aid RecoveryReasonCanary = true /\ holds_become r r' pid None)).
Proof.
  intros Hok Hr Hs Hst Hid Haid. unfold canary_passed. cbv zeta. set (p' := p <| p_CanaryFailCount := 0 |>).
  set (r1 := (put r ptr p') <| canarySanctions := _ |>).
  assert (quiet r r1) as Hq.
  { transitivity (put r ptr p'); [|apply sanctions_quiet]. by apply (quiet_put _ _ p0); [destruct Hr|..]. }
  pose proof (quiet_ok _ _ Hq Hok) as Hok1. pose proof (update_registered r ptr p0 p' Hr Hs) as Hr1.
  assert (recoveryHolds r1 = recoveryHolds r) as Eh by done. cbn [fst].
  destruct (hold_is (recoveryHolds r1 !! pid) aid RecoveryReasonCanary) eqn:Eheld; [|by split; [|left]].
  set (r2 := r1 <| recoveryHolds := delete pid (recoveryHolds r1) |>).
  assert (recoveryHolds r2 !! pid = None) as Hnone by apply lookup_delete_eq.
  split.
  - apply (setState_ok _ _ p'); [by apply unhold_ok|exact Hr1|done|]. right. right. by rewrite <- Hid in Hnone.
  - right. split; [by rewrite <- Eh|]. destruct (setState_holds r2 ptr p' StateReady pid Hid) as [H1 H2].
    split; [rewrite H1; exact Hnone|]. intros pid' Hn. rewrite H2 by done. by apply lookup_delete_ne.
Qed.

Lemma canary_failed_ok r ptr p0 p pid aid at_ threshold force :
  registry_ok r -> registered_at r ptr p0 -> same_session p0 p -> p_State p = p_State p0 ->
  p_ProviderID p = pid -> p_AssignedID p = aid ->
  let out := canary_failed r ptr p pid aid at_ threshold force in
  registry_ok out.1 /\ (recoveryHolds out.1 = recoveryHolds r
    \/ holds_become r out.1 pid (Some (mkHold aid RecoveryReasonCanary))
    \/ (cr_Tripped out.2 = CanaryTripUnavailable /\ holds_become r out.1 pid None)).
Proof.
  intros Hok Hr Hs Hst Hid Haid. unfold canary_failed. cbv zeta.
  set (p' := p <| p_CanaryFailCount := _ |> <| p_CanaryLastFailedAt := _ |>).
  pose proof (quiet_put r ptr p0 p' (proj2 Hr) Hs Hst) as Hq. pose proof (quiet_ok _ _ Hq Hok) as Hok1.
  pose proof (update_registered r ptr p0 p' Hr Hs) as Hr1.
  destruct (_ <? _); [by split; [|left]|]. destruct (force || _); [by split; [|left]|].
  destruct (String.eqb _ TierProvisional); cbn [fst snd].
  - split; [apply (setState_ok _ _ p'); [done..|by left]|]. right. right. split; [done|].
    exact (setState_holds (put r ptr p') ptr p' StateUnavailable pid Hid).
  - split; [|right; left].
    + eapply quiet_ok; [apply sanctions_quiet|]. by apply (degraded_hold_ok (put r ptr p') ptr p').
    + apply (degraded_hold_holds (put r ptr p') ptr p' pid aid RecoveryReasonCanary Hid).
Qed.

Lemma canary_ok r now pid aid passed at_ threshold force : registry_ok r ->
  let out := recordCanaryResult r now pid aid passed at_ threshold force in
  registry_ok out.1 /\ (recoveryHolds out.1 = recoveryHolds r
    \/ holds_become r out.1 pid (Some (mkHold aid RecoveryReasonCanary))
    \/ (holds_become r out.1 pid None
        /\ ((passed = true /\ hold_is (recoveryHolds r !! pid) aid RecoveryReasonCanary = true)
            \/ cr_Tripped out.2 = CanaryTripUnavailable))).
Proof.
  intros Hok. unfold recordCanaryResult, with_session. destruct (find_session r pid aid) as [[ptr p]|] eqn:E; [|by split; [|left]].
  destruct (session_registered _ _ _ _ _ Hok E) as (Hr & Hid & Haid). cbv zeta.
  destruct (_ || _); [by split; [|left]|]. destruct (_ && _); [by split; [|left]|].
  set (p' := p <| p_CanaryLastCheckedAt := _ |>). destruct passed.
  - destruct (canary_passed_ok r ptr p p' pid aid (if threshold <=? 0 then 3 else threshold)) as [H1 H2]; [done..|].
    split; [done|]. destruct H2 as [?|[? ?]]; [by left|]. right. right. split; [done|by left].
  - destruct (canary_failed_ok r ptr p p' pid aid (or_now at_ now) (if threshold <=? 0 then 3 else threshold) force) as [H1 H2]; [done..|].
    split; [done|]. destruct H2 as [?|[?|[? ?]]]; [by left|by right; left|]. right. right. split; [done|by right].
Qed.

Lemma clear_sanction_ok r pid : registry_ok r ->
  let r' := (ClearCanarySanction r pid).1 in
  registry_ok r' /\ (recoveryHolds r' = recoveryHolds r
    \/ (exists hold, recoveryHolds r !! pid = Some hold /\ rh_reason hold = RecoveryReasonCanary
        /\ (holds_become r r' pid (Some (mkHold (rh_assignedID hold) RecoveryReasonOperatorClear))
            \/ (holds_become r r' pid None /\ forall ptr p, find_provider r pid = Some (ptr, p) -> p_State p <> StateDegraded)))).
Proof.
  intros Hok. unfold ClearCanarySanction. cbv zeta. set (r1 := r <| canarySanctions := _ |>).
  change (find_provider r1 pid) with (find_provider r pid).
  set (r2 := match find_provider r pid with Some (ptr, p) => put r1 ptr _ | None => r1 end).
  assert (quiet r r2) as Hq.
  { transitivity r1; [apply sanctions_quiet|]. unfold r2. destruct (find_provider r pid) as [[ptr p]|] eqn:E; [|done].
    apply find_provider_Some in E as [_ E]. by apply (quiet_put _ _ p). }
  pose proof (quiet_ok _ _ Hq Hok) as Hok2. pose proof (q_holds _ _ Hq) as Eh. rewrite Eh.
  destruct (recoveryHolds r !! pid) as [hold|] eqn:Ehold; [|by split; [|left]].
  destruct (String.eqb (rh_reason hold) RecoveryReasonCanary) eqn:Er; [|by split; [|left]]. apply String.eqb_eq in Er.
  destruct (ro_hold _ Hok _ _ Ehold) as (ptr & p & Hp & Ho & Ha & Hs).
  assert (find_provider r pid = Some (ptr, p)) as Ef by (by apply find_provider_Some).
  assert (exists p2, registered_at r2 ptr p2 /\ p_ProviderID p2 = pid /\ p_AssignedID p2 = rh_assignedID hold /\ off_duty (p_State p2)) as (p2 & Hr2 & Hid2 & Ha2 & Hs2).
  { destruct (quiet_some _ _ _ _ Hq Ho) as (p2 & Ho2 & [E1 E2] & E3). exists p2. rewrite E2, E3.
    destruct (ro_provider _ Hok _ _ Hp) as (x & Hx & Hidx & _). assert (x = p) as -> by congruence.
    unfold registered_at. rewrite E1, Hidx, (q_providers _ _ Hq). done. }
  rewrite Ef, Ha, String.eqb_refl. cbn [andb fst]. destruct (String.eqb (p_State p) StateDegraded) eqn:Ed; split.
  - rewrite <- Hid2, <- Ha2. rewrite <- Eh. by apply (hold_ok r2 ptr p2).
  - right. exists hold. split_and!; [done..|left]. split; simpl; [apply lookup_insert_eq|]. intros pid' Hn. by rewrite lookup_insert_ne.
  - rewrite <- Eh. by apply unhold_ok.
  - right. exists hold. split_and!; [done..|right]. split.
    + split; simpl; [apply lookup_delete_eq|]. intros pid' Hn. by rewrite lookup_delete_ne.
    + intros ptr' p' Ef'. assert (p' = p) as -> by congruence. by apply String.eqb_neq.
Qed.

(** ** Runs *)

(** The object and the session identifier a registration brings are new: the one is
    freshly allocated, the other a fresh UUID. *)
Definition fresh_op (r : Registry) (op : pool_op) : Prop :=
  match op with
  | OpRegister ptr p _ _ => objects r !! ptr = None /\ sessions r !! p_AssignedID p = None
  | _ => True
  end.
Fixpoint fresh_run (r : Registry) (ops : list pool_op) : Prop :=
  match ops with
  | [] => True
  | op :: ops => fresh_op r op /\ fresh_run (pool_step r op) ops
  end.

Lemma with_session_remove r pid aid (ok : Provider -> bool) :
  registry_ok r ->
  registry_ok (with_session r pid aid false (fun _ p => if ok p then (remove r pid aid, true) else (r, false))).1.
Proof.
  intros Hok. unfold with_session. destruct (find_session r pid aid) as [[ptr p]|] eqn:E; [|done].
  destruct (ok p); [by eapply remove_ok|done].
Qed.

Lemma step_ok r op : registry_ok r -> fresh_op r op -> registry_ok (pool_step r op).
Proof.
  intros Hok Hf. destruct (quiet_op op) eqn:Eq; [by eapply quiet_ok; [apply pool_quiet_op|]|].
  destruct op; try discriminate Eq; unfold pool_step.
  - destruct Hf. by apply register_ok.
  - by apply (with_session_remove r _ _ (fun _ => true)).
  - by apply with_session_remove.
  - by apply heartbeat_ok.
  - by apply state_update_ok.
  - by apply mark_state_ok.
  - by apply mark_degraded_ok.
  - by apply mark_recovered_ok.
  - by apply breaker_ok.
  - by apply canary_ok.
  - by apply clear_sanction_ok.
Qed.

Lemma run_ok ops : forall r, registry_ok r -> fresh_run r ops -> registry_ok (pool_run r ops).
Proof.
  induction ops as [|op ops IH]; intros r Hok Hf; simpl; [done|]. destruct Hf as [Hf1 Hf2].
  apply IH; [by apply step_ok|done].
Qed.

Lemma new_registry_ok configs hv iv : registry_ok (NewRegistry configs hv iv).
Proof.
  split; simpl; try (intros ? ? H; by rewrite lookup_empty in H).
  - intros pid [x H]. by rewrite lookup_empty in H.
  - split; simpl; try (intros ? ? H; by rewrite lookup_empty in H). by vm_compute.
Qed.

(** ** Held sessions *)

Definition session_held (r : Registry) (pid aid : string) : bool :=
  match recoveryHolds r !! pid with Some hold => String.eqb (rh_assignedID hold) aid | None => false end.

(** The coordinator's own ways to lift a hold of the session: a newer session, its
    removal, the recovery probe for a hold that is not a canary's, a passed canary or an
    operator for one that is, or the ban that replaces it. *)
Definition releases (r : Registry) (pid aid : string) (op : pool_op) : bool :=
  let here pid' aid' := String.eqb pid' pid && String.eqb aid' aid in
  let canary := hold_is (recoveryHolds r !! pid) aid RecoveryReasonCanary in
  match op with
  | OpRegister ptr p c now => String.eqb (p_ProviderID p) pid && (RegisterAtDetailed r ptr p c now).2.1.2
  | OpRemove pid' aid' => here pid' aid'
  | OpRemoveState pid' aid' state => here pid' aid' && (RemoveIfSessionState r pid' aid' state).2
  | OpMarkState pid' aid' state => here pid' aid' && String.eqb state StateUnavailable
  | OpMarkRecovered _ pid' aid' _ => here pid' aid' && negb canary
  | OpBreakerFault now pid' aid' at_ threshold window =>
      here pid' aid' && String.eqb (bf_Tripped (RecordBreakerFault r now pid' aid' at_ threshold window).2) BreakerTripUnavailable
  | OpCanary now pid' aid' passed at_ threshold force =>
      here pid' aid' && (passed && canary
        || String.eqb (cr_Tripped (recordCanaryResult r now pid' aid' passed at_ threshold force).2) CanaryTripUnavailable)
  | OpClearSanction pid' =>
      String.eqb pid' pid && canary
      && match find_provider r pid with Some (_, p) => negb (String.eqb (p_State p) StateDegraded) | None => false end
  | _ => false
  end.

Fixpoint unreleased (r : Registry) (pid aid : string) (ops : list pool_op) : Prop :=
  match ops with
  | [] => True
  | op :: ops => releases r pid aid op = false /\ unreleased (pool_step r op) pid aid ops
  end.

Lemma held_by r r' pid aid : recoveryHolds r' !! pid = recoveryHolds r !! pid -> session_held r pid aid = true -> session_held r' pid aid = true.
Proof. unfold session_held. by intros ->. Qed.

Lemma held_some r pid aid : session_held r pid aid = true ->
  exists hold, recoveryHolds r !! pid = Some hold /\ rh_assignedID hold = aid.
Proof.
  unfold session_held. destruct (recoveryHolds r !! pid) as [hold|]; [|done]. intros E%String.eqb_eq. by exists hold.
Qed.

(** A held session is the current one of its provider. *)
Lemma held_session r pid aid : registry_ok r -> session_held r pid aid = true ->
  exists ptr p, find_session r pid aid = Some (ptr, p) /\ off_duty (p_State p).
Proof.
  intros Hok (hold & Hh & Ha)%held_some. destruct (ro_hold _ Hok _ _ Hh) as (ptr & p & Hp & Ho & Hpa & Hs).
  exists ptr, p. split; [|done]. rewrite find_session_Some, find_provider_Some. by rewrite Hpa.
Qed.

Lemma held_other r pid aid aid' : registry_ok r -> session_held r pid aid = true -> aid' <> aid -> find_session r pid aid' = None.
Proof.
  intros Hok Hh Hn. destruct (held_session _ _ _ Hok Hh) as (ptr & p & [Hf Ha]%find_session_Some & _).
  destruct (find_session r pid aid') as [[ptr' p']|] eqn:E; [|done]. apply find_session_Some in E as [Hf' Ha']. congruence.
Qed.

Lemma here_false pid aid pid' aid' : String.eqb pid' pid && String.eqb aid' aid = false -> pid' = pid -> aid' <> aid.
Proof. intros H -> ->. by rewrite !String.eqb_refl in H. Qed.

(** A provider's messages, whatever they say, keep every hold. *)
Lemma message_holds r r' pid pid' :
  recoveryHolds r' = recoveryHolds r \/ (recoveryHolds r !! pid' = None /\ holds_become r r' pid' None) ->
  is_Some (recoveryHolds r !! pid) -> recoveryHolds r' !! pid = recoveryHolds r !! pid.
Proof.
  intros [->|[Hn [_ Hb]]] [h Hh]; [done|]. apply Hb. congruence.
Qed.

Lemma install_holds r ptr p c pid : pid <> p_ProviderID p -> recoveryHolds (install r ptr p c) !! pid = recoveryHolds r !! pid.
Proof.
  intros Hn. unfold install. cbv zeta. set (p1 := if String.eqb (p_Tier _) "" then _ else _).
  set (p2 := if String.eqb (p_InferencePath p1) "" then _ else _).
  assert (p_ProviderID p2 = p_ProviderID p) as E by (unfold p2, p1; repeat case_match; done). clearbody p2. clear p1.
  rewrite <- E in Hn. set (r1 := (put r ptr p2) <| providers := _ |> <| sessions := _ |>).
  pose proof (sc_holds _ _ (record_union_core r1 (p_ProviderID p2) (p_ModelID p2) (p_SupportedModels p2))) as C.
  set (r2 := recordSeenModelsUnionLocked _ _ _ _) in *.
  assert (recoveryHolds r2 = recoveryHolds r) as C' by (rewrite C; done). clearbody r2.
  unfold applyCanarySanctionLocked. destruct (canarySanctions _ !! _); [case_match|]; simpl.
  - rewrite lookup_delete_ne by done. by rewrite C'.
  - rewrite lookup_insert_ne by done. rewrite lookup_delete_ne by done. by rewrite C'.
  - rewrite lookup_delete_ne by done. by rewrite C'.
Qed.

Lemma register_holds r ptr p c now pid :
  (String.eqb (p_ProviderID p) pid && (RegisterAtDetailed r ptr p c now).2.1.2 = false) ->
  recoveryHolds (RegisterAtDetailed r ptr p c now).1 !! pid = recoveryHolds r !! pid.
Proof.
  unfold RegisterAtDetailed. destruct (find_provider r (p_ProviderID p)) as [[q old]|].
  - destruct (register_refusal old p); [done|]. pose proof (stage_session (Some old) p now) as [S1 _].
    destruct (stageReceiptPublicationLocked (Some old) p now) as [refusal p']. simpl in *.
    case_match; [done|]. simpl. rewrite andb_true_r. intros Hn%String.eqb_neq. rewrite install_holds by congruence. done.
  - pose proof (stage_session None p now) as [S1 _]. destruct (stageReceiptPublicationLocked None p now) as [refusal p']. simpl in *.
    case_match; [done|]. simpl. rewrite andb_true_r. intros Hn%String.eqb_neq. rewrite install_holds by congruence. done.
Qed.

Lemma remove_holds r pid aid pid' aid' (ok : Provider -> bool) :
  let out := with_session r pid' aid' false (fun _ p => if ok p then (remove r pid' aid', true) else (r, false)) in
  registry_ok r -> session_held r pid aid = true -> String.eqb pid' pid && String.eqb aid' aid && out.2 = false ->
  recoveryHolds out.1 !! pid = recoveryHolds r !! pid.
Proof.
  intros out Hok Hh Hn. subst out. destruct (decide (pid' = pid)) as [->|Hne].
  - destruct (decide (aid' = aid)) as [->|Hna].
    + rewrite !String.eqb_refl in Hn. simpl in Hn. unfold with_session in *. repeat case_match; simplify_eq; done.
    + unfold with_session. by rewrite (held_other _ _ _ _ Hok Hh Hna).
  - unfold with_session. repeat case_match; simpl; [by rewrite lookup_delete_ne|done..].
Qed.

(** No method lifts a hold but a release. *)
Lemma step_held r op pid aid :
  registry_ok r -> session_held r pid aid = true -> releases r pid aid op = false -> session_held (pool_step r op) pid aid = true.
Proof.
  intros Hok Hh Hn. pose proof (held_some _ _ _ Hh) as (hold & Ehold & Ea).
  assert (is_Some (recoveryHolds r !! pid)) as Hsome by (by exists hold).
  destruct (quiet_op op) eqn:Eq.
  { eapply held_by; [|exact Hh]. by rewrite (q_holds _ _ (pool_quiet_op r op Eq)). }
  destruct op; try discriminate Eq; unfold pool_step; simpl in Hn.
  - eapply held_by; [|exact Hh]. by apply register_holds.
  - eapply held_by; [|exact Hh]. apply (remove_holds r pid aid _ _ (fun _ => true)); [done..|]. rewrite Hn. done.
  - eapply held_by; [|exact Hh]. by apply (remove_holds r pid aid _ _ (fun p => String.eqb (p_State p) state)).
  - eapply held_by; [|exact Hh]. eapply message_holds; [by apply heartbeat_ok|done].
  - eapply held_by; [|exact Hh]. eapply message_holds; [by apply state_update_ok|done].
  - destruct (mark_state_ok r providerID assignedID state Hok) as (_ & H1 & H2).
    destruct (decide (providerID = pid)) as [->|Hne]; [|eapply held_by; [by apply H2|done]].
    destruct (decide (assignedID = aid)) as [->|Hna].
    + rewrite !String.eqb_refl in Hn. apply String.eqb_neq in Hn. eapply held_by; [by rewrite H1|done].
    + unfold MarkState, with_session. by rewrite (held_other _ _ _ _ Hok Hh Hna).
  - destruct (mark_degraded_ok r providerID assignedID reason Hok) as (_ & [H|[H1 H2]] & _); [by eapply held_by; [rewrite H|]|].
    destruct (decide (providerID = pid)) as [->|Hne]; [|eapply held_by; [by apply H2|done]].
    destruct (decide (assignedID = aid)) as [->|Hna].
    + unfold session_held. rewrite H1. simpl. apply String.eqb_refl.
    + unfold MarkDegradedForRecovery, with_session. by rewrite (held_other _ _ _ _ Hok Hh Hna).
  - destruct (mark_recovered_ok r now providerID assignedID at_ Hok) as (_ & [H|(h & E1 & E2 & E3 & H1 & H2)]); [by eapply held_by; [rewrite H|]|].
    destruct (decide (providerID = pid)) as [->|Hne]; [|eapply held_by; [by apply H2|done]].
    assert (h = hold) as -> by congruence. rewrite Ehold in Hn. unfold hold_is in Hn. apply String.eqb_neq in E3.
    rewrite E3, andb_false_r in Hn. rewrite <- E2, Ea, !String.eqb_refl in Hn. done.
  - destruct (breaker_ok r now providerID assignedID at_ threshold window Hok) as (_ & [H|[[H1 H2]|[Ht [H1 H2]]]]); [by eapply held_by; [rewrite H|]|..];
      (destruct (decide (providerID = pid)) as [->|Hne]; [|eapply held_by; [by apply H2|done]]);
      (destruct (decide (assignedID = aid)) as [->|Hna]; [|unfold RecordBreakerFault, with_session; by rewrite (held_other _ _ _ _ Hok Hh Hna)]).
    + unfold session_held. rewrite H1. simpl. apply String.eqb_refl.
    + by rewrite Ht, !String.eqb_refl in Hn.
  - destruct (canary_ok r now providerID assignedID passed at_ threshold forceFloorHeld Hok) as (_ & [H|[[H1 H2]|[[H1 H2] Ht]]]); [by eapply held_by; [rewrite H|]|..];
      (destruct (decide (providerID = pid)) as [->|Hne]; [|eapply held_by; [by apply H2|done]]);
      (destruct (decide (assignedID = aid)) as [->|Hna]; [|unfold recordCanaryResult, with_session; by rewrite (held_other _ _ _ _ Hok Hh Hna)]).
    + unfold session_held. rewrite H1. simpl. apply String.eqb_refl.
    + rewrite !String.eqb_refl in Hn. simpl in Hn. apply orb_false_iff in Hn as [Hn1 Hn2].
      destruct Ht as [[-> Hc]|Ht]; [by rewrite Hc in Hn1|by rewrite Ht in Hn2].
  - destruct (clear_sanction_ok r providerID Hok) as (_ & [H|(h & E1 & E2 & [[H1 H2]|[[H1 H2] Hst]])]); [by eapply held_by; [rewrite H|]|..];
      (destruct (decide (providerID = pid)) as [->|Hne]; [|eapply held_by; [by apply H2|done]]).
    + unfold session_held. rewrite H1. simpl. assert (h = hold) as -> by congruence. rewrite Ea. apply String.eqb_refl.
    + destruct (held_session _ _ _ Hok Hh) as (ptr & p & [Hf _]%find_session_Some & _).
      rewrite Hf in Hn. assert (h = hold) as -> by congruence. unfold hold_is in Hn. rewrite Ehold, Ea, E2, !String.eqb_refl in Hn.
      simpl in Hn. specialize (Hst _ _ Hf). apply String.eqb_neq in Hst. by rewrite Hst in Hn.
Qed.

Lemma run_held ops pid aid : forall r, registry_ok r -> session_held r pid aid = true -> fresh_run r ops -> unreleased r pid aid ops ->
  session_held (pool_run r ops) pid aid = true /\ registry_ok (pool_run r ops).
Proof.
  induction ops as [|op ops IH]; intros r Hok Hh Hf Hu; simpl; [done|]. destruct Hf as [Hf1 Hf2], Hu as [Hu1 Hu2].
  apply IH; [by apply step_ok|by apply step_held|done|done].
Qed.

Lemma off_duty_not_routable p : off_duty (p_State p) -> RoutingEligible p = false.
Proof.
  intros [Hs _]. unfold RoutingEligible, isReady. apply String.eqb_neq in Hs. by rewrite Hs, andb_false_r.
Qed.

(** Claim C11. Every registry the methods can reach is well formed. The provider index
    and the session index point at the same objects and nothing else; every recovery
    hold is on the current session of its provider, and that session is neither ready
    nor banned; fault histories and name sets exist for connected providers only; a
    session names at most 32 models, a provider adds at most 128 to the memory of model
    names however often it reconnects, and that memory holds exactly what was added, at
    most 4096 names. *)
Theorem registry_well_formed configs hv iv (ops : list pool_op) :
  fresh_run (NewRegistry configs hv iv) ops -> registry_ok (pool_run (NewRegistry configs hv iv) ops).
Proof. intros Hf. apply run_ok; [apply new_registry_ok|done]. Qed.

(** Claim C17. A session under a recovery hold cannot talk its way back into the
    routing. Once the breaker, a failed canary or an upstream failure has put a session
    on hold, no heartbeat, state update, drain notice or registration of others, in any
    number and order, makes it routable or lifts the hold; only the coordinator's own
    releases do, each for its kind of hold. *)
Theorem held_session_stays_out configs hv iv (history ops : list pool_op) (pid aid : string) :
  let r := pool_run (NewRegistry configs hv iv) history in
  fresh_run (NewRegistry configs hv iv) history -> session_held r pid aid = true ->
  fresh_run r ops -> unreleased r pid aid ops ->
  let r' := pool_run r ops in
  session_held r' pid aid = true
  /\ exists ptr p, find_session r' pid aid = Some (ptr, p) /\ RoutingEligible p = false /\ p_State p <> StateUnavailable.
Proof.
  intros r Hf Hh Hfr Hu r'. assert (registry_ok r) as Hok by (apply run_ok; [apply new_registry_ok|done]).
  destruct (run_held ops pid aid r Hok Hh Hfr Hu) as [Hh' Hok']. split; [done|].
  destruct (held_session _ _ _ Hok' Hh') as (ptr & p & Hp & Hs). exists ptr, p. split_and!; [done| |by destruct Hs].
  by apply off_duty_not_routable.
Qed.

(** ** Concrete sessions *)

Module PoolSample.
Definition session (pid aid : string) : Provider :=
  mkProvider pid aid "host" "m" F64.one 64 8192 2 2 2 F64.one 0 F64.zero "http://box" "" AuthBearerValidated ""
    false StateReady zero_time zero_time 0 "1.0.0" "" "" "" "" "" "" false "" "" None "" "" 0 None None 0 F64.zero false None ""
    None None false false false false None "" "" None 0 [] false zero_time None None.
Definition start : Registry := NewRegistry [] None None.
Definition register (ptr : positive) (pid aid : string) : pool_op := OpRegister ptr (session pid aid) None 0.
Definition heartbeat (aid state : string) : pool_op :=
  OpHeartbeat "p" aid (mkHeartbeat state "m" F64.one 64 8192 2 2 2 F64.one 0 F64.zero "" false "" "" "" "" false false "" None None 10).
Definition state_update (aid state : string) : pool_op := OpStateUpdate 11 "p" aid (mkStateUpdate state None None "" 11).
Definition fault (at_ : Z) : pool_op := OpBreakerFault at_ "p" "s" at_ 2 0.
Definition tripped : list pool_op := [register 1 "p" "s"; fault 1; fault 2].
Definition pleas : list pool_op :=
  [heartbeat "s" StateReady; state_update "s" StateDraining; OpMarkState "p" "s" StateDraining; heartbeat "s" StateReady;
   state_update "s" StateReady; OpMarkState "p" "s" StateReady].
Definition routable (r : Registry) : bool :=
  match find_session r "p" "s" with Some (_, p) => RoutingEligible p | None => false end.
End PoolSample.

Lemma registry_well_formed_witness :
  registry_ok (pool_run PoolSample.start PoolSample.tripped)
  /\ seenModelsLifetime (pool_run PoolSample.start PoolSample.tripped) = {["m"]}.
Proof.
  split; [|by vm_compute]. apply (registry_well_formed [] None None PoolSample.tripped). by vm_compute.
Defined.

Lemma held_session_stays_out_witness :
  PoolSample.routable (pool_run PoolSample.start [PoolSample.register 1 "p" "s"]) = true
  /\ PoolSample.routable (pool_run (pool_run PoolSample.start PoolSample.tripped) PoolSample.pleas) = false.
Proof.
  split; [by vm_compute|].
  destruct (held_session_stays_out [] None None PoolSample.tripped PoolSample.pleas "p" "s") as (_ & ptr & p & Hp & Hr & _);
    [by vm_compute..|].
  unfold PoolSample.routable, PoolSample.start. by rewrite Hp.
Defined.

(** A ban is not final: a session marked unavailable, for a second breaker trip, a failed
    canary or an upstream redirect, has no hold, and a heartbeat that reports [degraded]
    and one that reports [ready] make it routable again. *)
Example unavailable_session_returns :
  let banned := pool_run PoolSample.start [PoolSample.register 1 "p" "s"; OpMarkState "p" "s" StateUnavailable] in
  PoolSample.routable (pool_run banned [PoolSample.heartbeat "s" StateReady]) = false
  /\ PoolSample.routable (pool_run banned [PoolSample.heartbeat "s" StateDegraded; PoolSample.heartbeat "s" StateReady]) = true.
Proof. split; vm_compute; reflexivity. Qed.

(** An operator's clearing of a canary sanction keeps a degraded session out until it
    reconnects; but a session that has announced a drain meanwhile is let go. *)
Example cleared_draining_session_returns :
  let failed at_ := OpCanary 0 "p" "s" false at_ 1 false in
  let held := pool_run PoolSample.start [PoolSample.register 1 "p" "s"; PoolSample.register 2 "q" "t"; failed 5] in
  let after ops := PoolSample.routable (pool_run held (ops ++ [OpClearSanction "p"; PoolSample.heartbeat "s" StateReady])) in
  after [] = false /\ after [OpMarkState "p" "s" StateDraining] = true.
Proof. split; vm_compute; reflexivity. Qed.
