(* ===== verification/Tier2.v ===== *)
(** * Tier-2 predicates

    Models the tests of [tier2/catalog.go], [buyer/server.go] and [ws/server.go] that keep
    a provider from buyers for its model hash, its unencrypted leg or its attestation. *)

From S2P Require Import Prelude Jcs GoTime GoFloat Pool.
#[local] Open Scope Z_scope.

(** The fields of the configuration that the tests read. *)
Record Tier2Config := mkTier2Config {
  tc_ObserveEnabled : bool;
  tc_CatalogPath : string;
  tc_RequireHashVerified : bool;
  tc_RequireEncryptedLeg : bool;
  tc_RequireAttestation : bool;
}.

Definition ModelHashActive (cfg : Tier2Config) : bool :=
  cfg.(tc_ObserveEnabled) || negb (String.eqb (GoStr.TrimSpace cfg.(tc_CatalogPath)) "") || cfg.(tc_RequireHashVerified).

Definition normalizedStatus (status : string) : string := if String.eqb status "" then HashStatusUncatalogued else status.

Definition IsHashPredicateFailure (status : string) (requireHashVerified : bool) : bool :=
  let status := normalizedStatus status in
  if String.eqb status HashStatusMismatch || String.eqb status HashStatusInvalid then true
  else requireHashVerified && negb (String.eqb status HashStatusVerified).

(** ** The buyer's tests *)

Definition effectiveHashStatus (p : Provider) (cfg : Tier2Config) : string :=
  if negb (ModelHashActive cfg) then p.(p_HashStatus) else normalizedStatus p.(p_HashStatus).

Definition tier2ProviderExcludedStatus (status : string) (cfg : Tier2Config) : bool :=
  if negb (ModelHashActive cfg) then false else IsHashPredicateFailure status cfg.(tc_RequireHashVerified).

Definition missing_leg (p : Provider) (cfg : Tier2Config) : bool := cfg.(tc_RequireEncryptedLeg) && negb p.(p_EncryptedLeg).
Definition missing_attestation (p : Provider) (cfg : Tier2Config) : bool :=
  cfg.(tc_RequireAttestation) && negb (String.eqb p.(p_AttestationStatus) AttestationStatusAttested).

Definition tier2ProviderExcludedForConfig (p : Provider) (cfg : Tier2Config) : bool :=
  tier2ProviderExcludedStatus (effectiveHashStatus p cfg) cfg || missing_leg p cfg || missing_attestation p cfg.

(** ** The warm-up's test

    [verify] is the verifier of the model identity, which is asked when a session has no
    status yet. *)
Definition tier2WarmupExcluded (verify : string -> string -> string -> string -> string) (cfg : Tier2Config) (p : Provider) : bool :=
  (ModelHashActive cfg
   && (let status := if String.eqb p.(p_HashStatus) ""
                     then verify p.(p_ModelID) p.(p_ExpectedModelHash) p.(p_ModelHash) p.(p_ModelHashAlgorithm) else p.(p_HashStatus) in
       IsHashPredicateFailure status cfg.(tc_RequireHashVerified)))
  || missing_leg p cfg || missing_attestation p cfg.
