(* ===== verification/PoolServing.v ===== *)
(** * Serving capacity and receipt keys of the pool

    Two promises the registry makes to buyers: a failed canary never takes the last
    serving provider of a model away, and a receipt key stays verifiable for the grace
    period after its rotation. *)

From S2P Require Import Prelude Jcs GoTime GoFloat VersionFloor Pool PoolHolds Tier2.
#[local] Open Scope Z_scope.

(** ** The serving predicate *)

(** What the registry relies on in the predicate it is given: who serves buyers is
    routable, and the bookkeeping of canaries does not matter. *)
Class ServingPredicate (fn : Provider -> bool) := {
  serving_routable : forall p, fn p = true -> RoutingEligible p = true;
  serving_canary : forall p n checked failed,
    fn (p <| p_CanaryLastCheckedAt := checked |> <| p_CanaryFailCount := n |> <| p_CanaryLastFailedAt := failed |>) = fn p;
}.

(** The predicate of the websocket server: [open_] tells whether the session's stored
    websocket is open. *)
Definition canaryBuyerServing (open_ : string -> string -> bool) (verify : string -> string -> string -> string -> string)
    (cfg : Tier2Config) (order : gmap string string -> list (string * string)) (floors : gmap string string) (p : Provider) : bool :=
  RoutingEligible p
  && (if IsWSTunneled p then open_ p.(p_ProviderID) p.(p_AssignedID)
      else negb (String.eqb (GoStr.TrimSpace p.(p_EndpointURL)) ""))
  && (0 <? p.(p_MaxContextTokens))
  && negb (tier2WarmupExcluded verify cfg p)
  && Allowed (Check order floors p.(p_ModelID) p.(p_BinaryVersion)).

#[global] Instance canaryBuyerServing_predicate open_ verify cfg order floors :
  ServingPredicate (canaryBuyerServing open_ verify cfg order floors).
Proof.
  split; [|done]. intros p H. unfold canaryBuyerServing in H. by bool_hyps.
Qed.

(** The registry's own predicate when none is given. *)
#[global] Instance fallback_predicate : ServingPredicate (fun p => RoutingEligible p && (0 <? p_MaxContextTokens p)).
Proof. split; [|done]. intros p H. by bool_hyps. Qed.

Definition serving_predicate (r : Registry) : Provider -> bool :=
  match buyerServing r with Some fn => fn | None => fun p => RoutingEligible p && (0 <? p_MaxContextTokens p) end.

Lemma isBuyerServing_predicate r p : isBuyerServing r p = serving_predicate r p.
Proof. unfold isBuyerServing, serving_predicate. by destruct (buyerServing r). Qed.

(** ** Counting *)

Definition serves (r : Registry) (m : string) (p : Provider) : bool := providerServesActiveModel p m && isBuyerServing r p.

Lemma elem_of_registered r p : p ∈ registered r <-> exists pid ptr, providers r !! pid = Some ptr /\ objects r !! ptr = Some p.
Proof.
  unfold registered. rewrite list_elem_of_omap. split.
  - intros ([pid ptr] & Hin & Ho). apply elem_of_map_to_list in Hin. eauto.
  - intros (pid & ptr & Hp & Ho). exists (pid, ptr). by rewrite elem_of_map_to_list.
Qed.

Lemma serving_count r m : 0 < BuyerServingCountForModel r m <->
  exists pid ptr p, providers r !! pid = Some ptr /\ objects r !! ptr = Some p /\ serves r m p = true.
Proof.
  unfold BuyerServingCountForModel, count_providers. fold (serves r m).
  set (l := List.filter (serves r m) (registered r)). split.
  - intros H. destruct l as [|p l'] eqn:E; [simpl in H; lia|]. assert (p ∈ l) as Hp by (rewrite E; left).
    unfold l in Hp. apply elem_of_List_filter in Hp as [(pid & ptr & ? & ?)%elem_of_registered Hs]. eauto 6.
  - intros (pid & ptr & p & Hp & Ho & Hs). assert (p ∈ l) as Hin.
    { apply elem_of_List_filter. split; [apply elem_of_registered; eauto|done]. }
    destruct l; [by apply not_elem_of_nil in Hin|simpl; lia].
Qed.

Lemma other_serving r pid m : hasOtherBuyerServingForModel r pid m = true ->
  exists pid' ptr p, pid' <> pid /\ providers r !! pid' = Some ptr /\ objects r !! ptr = Some p /\ serves r m p = true.
Proof.
  unfold hasOtherBuyerServingForModel. rewrite existsb_elem. intros ([pid' ptr] & Hin & H). apply elem_of_map_to_list in Hin.
  simpl in H. bool_hyps. destruct (objects r !! ptr) as [p|] eqn:E; [|done]. exists pid', ptr, p. by split_and!.
Qed.

(** ** What a canary result does *)

Definition canary_fields (p : Provider) (checked : option Z) (n : Z) (failed : option Z) : Provider :=
  p <| p_CanaryLastCheckedAt := checked |> <| p_CanaryFailCount := n |> <| p_CanaryLastFailedAt := failed |>.

(** The object of the probed session becomes [p']; everything else about serving stays. *)
Record probed (r r' : Registry) (ptr : positive) (p p' : Provider) : Prop := mkProbed {
  pr_providers : providers r' = providers r;
  pr_serving : buyerServing r' = buyerServing r;
  pr_objects : objects r' = <[ptr := p']> (objects r);
  pr_model : p_ModelID p' = p_ModelID p;
}.

Lemma canary_passed_effect r ptr p pid aid at_ threshold :
  exists p', probed r (canary_passed r ptr (p <| p_CanaryLastCheckedAt := at_ |>) pid aid threshold).1 ptr p p'
  /\ (p' = canary_fields p at_ 0 (p_CanaryLastFailedAt p) \/ hold_is (recoveryHolds r !! pid) aid RecoveryReasonCanary = true).
Proof.
  unfold canary_passed. cbv zeta. cbn [fst]. set (p1 := p <| p_CanaryLastCheckedAt := at_ |> <| p_CanaryFailCount := 0 |>).
  set (r1 := (put r ptr p1) <| canarySanctions := _ |>). change (recoveryHolds r1) with (recoveryHolds r).
  destruct (hold_is _ aid RecoveryReasonCanary).
  - exists (p1 <| p_State := StateReady |>). split; [|by right]. split; try done. simpl. apply insert_insert_eq.
  - exists p1. split; [by split|left]. by destruct p.
Qed.

Lemma canary_failed_effect r ptr p pid aid checked at_ threshold force :
  exists p', probed r (canary_failed r ptr (p <| p_CanaryLastCheckedAt := checked |>) pid aid at_ threshold force).1 ptr p p'
  /\ (p' = canary_fields p checked (p_CanaryFailCount p') (Some at_)
      \/ exists n, let p1 := canary_fields p checked n (Some at_) in
         isBuyerServing (put r ptr p1) p1 = true -> hasOtherBuyerServingForModel (put r ptr p1) pid (p_ModelID p) = true).
Proof.
  unfold canary_failed. cbv zeta. set (n := Int64.add _ 1).
  set (p1 := p <| p_CanaryLastCheckedAt := checked |> <| p_CanaryFailCount := n |> <| p_CanaryLastFailedAt := Some at_ |>).
  destruct (_ <? _); [exists p1; split; [by split|by left]|]. destruct (force || _) eqn:E; [exists p1; split; [by split|by left]|].
  apply orb_false_iff in E as [_ E].
  assert (isBuyerServing (put r ptr p1) p1 = true -> hasOtherBuyerServingForModel (put r ptr p1) pid (p_ModelID p) = true) as Hother.
  { intros Hs. rewrite Hs in E. simpl in E. by apply negb_false_iff in E. }
  destruct (String.eqb _ TierProvisional).
  - exists (p1 <| p_State := StateUnavailable |>). split; [|right; by exists n]. split; try done. simpl. apply insert_insert_eq.
  - exists (p1 <| p_State := StateDegraded |>). split; [|right; by exists n]. split; try done. simpl. apply insert_insert_eq.
Qed.

Lemma equalfold_trans a b c : GoStr.EqualFold a b = true -> GoStr.EqualFold b c = true -> GoStr.EqualFold a c = true.
Proof. unfold GoStr.EqualFold. rewrite !String.eqb_eq. congruence. Qed.

Section Floor.
Context (r : Registry) (Hok : registry_ok r) `{!ServingPredicate (serving_predicate r)}.

Lemma same_predicate r' : buyerServing r' = buyerServing r -> forall p, isBuyerServing r' p = serving_predicate r p.
Proof. intros E p. rewrite isBuyerServing_predicate. unfold serving_predicate. by rewrite E. Qed.

Lemma serves_spec r' m p : buyerServing r' = buyerServing r ->
  serves r' m p = true <-> GoStr.EqualFold (p_ModelID p) m = true /\ serving_predicate r p = true.
Proof. intros E. unfold serves, providerServesActiveModel. by rewrite (same_predicate _ E), andb_true_iff. Qed.

(** A provider at another address still serves. *)
Lemma serving_elsewhere r' ptr p p' q x pidx m :
  probed r r' ptr p p' -> providers r !! pidx = Some q -> q <> ptr -> objects r !! q = Some x -> serves r m x = true ->
  0 < BuyerServingCountForModel r' m.
Proof.
  intros [E1 E2 E3 _] Hp Hq Hx Hs. apply serving_count. exists pidx, q, x. rewrite E1, E3, lookup_insert_ne by done.
  split_and!; [done..|]. rewrite serves_spec in Hs |- *; done.
Qed.

Lemma serving_here r' ptr p p' pid m :
  probed r r' ptr p p' -> providers r !! pid = Some ptr -> GoStr.EqualFold (p_ModelID p) m = true ->
  serving_predicate r p' = true -> 0 < BuyerServingCountForModel r' m.
Proof.
  intros [E1 E2 E3 E4] Hp Hm Hs. apply serving_count. exists pid, ptr, p'. rewrite E1, E3, lookup_insert_eq.
  split_and!; [done..|]. rewrite serves_spec by done. by rewrite E4.
Qed.

Lemma canary_floor now pid aid passed at_ threshold force m :
  0 < BuyerServingCountForModel r m ->
  0 < BuyerServingCountForModel (recordCanaryResult r now pid aid passed at_ threshold force).1 m.
Proof.
  intros Hm. unfold recordCanaryResult, with_session. destruct (find_session r pid aid) as [[ptr p]|] eqn:E; [|done].
  destruct (session_registered _ _ _ _ _ Hok E) as ([Hp Ho] & Hid & Haid). rewrite Hid in Hp. cbv zeta.
  destruct (_ || _); [done|]. destruct (_ && _) eqn:Eh; [done|].
  apply serving_count in Hm as (pidx & q & x & Hpx & Hx & Hs).
  assert (forall n c f, serving_predicate r (canary_fields p c n f) = serving_predicate r p) as Hlaw by (intros; apply serving_canary).
  destruct passed.
  - destruct (canary_passed_effect r ptr p pid aid (Some (or_now at_ now)) (if threshold <=? 0 then 3 else threshold)) as (p' & Hpr & Hp').
    destruct (decide (q = ptr)) as [->|Hne]; [|by eapply (serving_elsewhere _ ptr p p' q x pidx)].
    assert (x = p) as -> by congruence. apply (serves_spec r) in Hs as [Hf Hs]; [|done].
    apply (serving_here _ ptr p p' pid); [done|done|done|]. destruct Hp' as [->|Hheld]; [by rewrite Hlaw|].
    rewrite Hheld in Eh. simpl in Eh. apply negb_false_iff, String.eqb_eq in Eh.
    apply serving_routable in Hs. unfold RoutingEligible, isReady in Hs. rewrite Eh in Hs. by rewrite andb_false_r in Hs.
  - destruct (canary_failed_effect r ptr p pid aid (Some (or_now at_ now)) (or_now at_ now) (if threshold <=? 0 then 3 else threshold) force)
      as (p' & Hpr & Hp').
    destruct (decide (q = ptr)) as [->|Hne]; [|by eapply (serving_elsewhere _ ptr p p' q x pidx)].
    assert (x = p) as -> by congruence. apply (serves_spec r) in Hs as [Hf Hs]; [|done].
    destruct Hp' as [Hp'|[n Hother]].
    + apply (serving_here _ ptr p p' pid); [done|done|done|]. rewrite Hp'. by rewrite Hlaw.
    + cbv zeta in Hother. rewrite (same_predicate (put r ptr _)), Hlaw in Hother by done.
      destruct (other_serving _ _ _ (Hother ltac:(done))) as (pid' & q' & y & Hn & Hq' & Hy & Hsy).
      change (providers r !! pid' = Some q') in Hq'.
      assert (q' <> ptr) as Hqn.
      { intros ->. destruct (ro_provider _ Hok _ _ Hq') as (z & Hz & Hzid & _). congruence. }
      simpl in Hy. rewrite lookup_insert_ne in Hy by done. apply (serving_elsewhere _ ptr p p' q' y pid'); [done|done|done|done|].
      rewrite serves_spec in Hsy |- * by done. destruct Hsy. split; [by eapply equalfold_trans|done].
Qed.
End Floor.

Lemma canary_predicate r now pid aid passed at_ threshold force :
  buyerServing (recordCanaryResult r now pid aid passed at_ threshold force).1 = buyerServing r.
Proof.
  unfold recordCanaryResult, with_session. destruct (find_session r pid aid) as [[ptr p]|]; [|done]. cbv zeta.
  destruct (_ || _); [done|]. destruct (_ && _); [done|]. destruct passed.
  - by destruct (canary_passed_effect r ptr p pid aid (Some (or_now at_ now)) (if threshold <=? 0 then 3 else threshold)) as (p' & [_ ? _ _] & _).
  - by destruct (canary_failed_effect r ptr p pid aid (Some (or_now at_ now)) (or_now at_ now) (if threshold <=? 0 then 3 else threshold) force)
      as (p' & [_ ? _ _] & _).
Qed.

Definition canary_op (op : pool_op) : bool := match op with OpCanary _ _ _ _ _ _ _ => true | _ => false end.

Lemma canaries_floor ops m : forall r, registry_ok r -> ServingPredicate (serving_predicate r) -> forallb canary_op ops = true ->
  0 < BuyerServingCountForModel r m -> 0 < BuyerServingCountForModel (pool_run r ops) m.
Proof.
  induction ops as [|op ops IH]; intros r Hok Hs Hops Hm; [done|]. simpl in Hops. bool_hyps. destruct op; try done.
  apply IH; [by apply step_ok| |done|by apply canary_floor].
  unfold serving_predicate, pool_step. by rewrite canary_predicate.
Qed.

(** ** Receipt keys *)

Definition same_keys (p p' : Provider) : Prop :=
  p_ReceiptPubkey p' = p_ReceiptPubkey p /\ p_ReceiptPubkeyPrev p' = p_ReceiptPubkeyPrev p
  /\ p_PendingReceiptPubkey p' = p_PendingReceiptPubkey p.

Definition keyed_object (o o' : option Provider) : Prop :=
  match o, o' with Some p, Some p' => same_keys p p' | None, None => True | _, _ => False end.

Record keyed (r r' : Registry) : Prop := mkKeyed {
  ky_providers : providers r' = providers r;
  ky_objects : forall ptr, keyed_object (objects r !! ptr) (objects r' !! ptr);
}.

Lemma keyed_object_refl o : keyed_object o o.
Proof. by destruct o. Qed.

Lemma keyed_object_trans o1 o2 o3 : keyed_object o1 o2 -> keyed_object o2 o3 -> keyed_object o1 o3.
Proof. destruct o1, o2, o3; simpl; try done. intros (? & ? & ?) (? & ? & ?). split_and!; congruence. Qed.

#[global] Instance keyed_preorder : PreOrder keyed.
Proof.
  split.
  - intros r. split; [done|]. intros ptr. apply keyed_object_refl.
  - intros r1 r2 r3 [] []. split; [congruence|]. intros ptr. eapply keyed_object_trans; eauto.
Qed.

Lemma keyed_put r ptr p p' : objects r !! ptr = Some p -> same_keys p p' -> keyed r (put r ptr p').
Proof.
  intros E Hs. split; [done|]. intros ptr'. simpl. destruct (decide (ptr' = ptr)) as [->|Hn].
  - by rewrite E, lookup_insert_eq.
  - rewrite lookup_insert_ne by done. apply keyed_object_refl.
Qed.

(** A change of fields other than the objects and the provider index. *)
Lemma keyed_other r r' r'' : keyed r r' -> objects r'' = objects r' -> providers r'' = providers r' -> keyed r r''.
Proof. intros [H1 H2] E1 E2. split; [congruence|]. intros ptr. by rewrite E1. Qed.

Lemma keyed_setState r ptr p p' next : objects r !! ptr = Some p -> same_keys p p' -> keyed r (setStateLocked r ptr p' next).
Proof.
  intros E Hs. unfold setStateLocked, applyStateCleanupLocked.
  eapply keyed_other; [by apply (keyed_put r ptr p (p' <| p_State := next |>))|by case_match..].
Qed.

Lemma keyed_for_providers r f : (forall p, same_keys p (f p)) -> keyed r (for_providers r f).
Proof.
  intros Hf. split; [done|]. intros ptr. simpl. induction (map_to_list (providers r)) as [|[k q] l IH]; simpl; [apply keyed_object_refl|].
  eapply keyed_object_trans; [exact IH|]. set (m := foldr _ _ _).
  destruct (decide (ptr = q)) as [->|Hn].
  - rewrite lookup_alter_eq. destruct (m !! q); simpl; [apply Hf|done].
  - rewrite lookup_alter_ne by done. apply keyed_object_refl.
Qed.

Lemma keyed_session {A} r pid aid (d : A) f :
  (forall ptr p, objects r !! ptr = Some p -> keyed r (f ptr p).1) -> keyed r (with_session r pid aid d f).1.
Proof.
  intros H. unfold with_session. destruct (find_session r pid aid) as [[ptr p]|] eqn:E; [|reflexivity].
  apply find_session_Some in E as [[_ E]%find_provider_Some _]. by apply H.
Qed.

Lemma keyed_found r pid ptr p p' : find_provider r pid = Some (ptr, p) -> same_keys p p' -> keyed r (put r ptr p').
Proof. intros [_ E]%find_provider_Some. by apply keyed_put. Qed.

Lemma keyed_degraded_hold r ptr p p' pid aid reason : objects r !! ptr = Some p -> same_keys p p' -> keyed r (degraded_hold r ptr p' pid aid reason).
Proof. intros E Hs. unfold degraded_hold. cbv zeta. eapply keyed_other; [by eapply keyed_setState|done|done]. Qed.

Lemma keyed_heartbeat r pid aid hb : keyed r (ApplyHeartbeatDetailed r pid aid hb).1.
Proof.
  apply keyed_session. intros ptr old Ho. cbv zeta. set (p0 := heartbeat_identity _ _ hb). set (p1 := heartbeat_metrics p0 hb).
  assert (same_keys old p1) as S1 by (unfold p1, p0, heartbeat_metrics, heartbeat_identity; repeat case_match; done). clearbody p1. clear p0.
  set (r1 := recordSeenModelsUnionLocked _ _ _ _).
  assert (keyed r r1 /\ objects r1 !! ptr = Some p1) as [K1 O1].
  { destruct (record_union_core (put r ptr p1) (p_ProviderID p1) (hb_ModelID hb) (p_SupportedModels p1)) as [C1 C2 _ _ _ _ _].
    split; [|unfold r1; rewrite C1; apply lookup_insert_eq]. eapply keyed_other; [by eapply keyed_put|done|done]. }
  clearbody r1. set (applies := negb _ && _ && _). clearbody applies.
  set (p2 := if applies then p1 <| p_State := hb_Status hb |> else p1).
  assert (same_keys p2 (heartbeat_loading p2 hb)) as S2 by (unfold heartbeat_loading; repeat case_match; done).
  transitivity r1; [done|]. unfold p2 in *. destruct applies; cbn [fst].
  - transitivity (setStateLocked r1 ptr p1 (hb_Status hb)); [by eapply keyed_setState|]. eapply keyed_put; [|exact S2].
    unfold setStateLocked, applyStateCleanupLocked. case_match; apply lookup_insert_eq.
  - eapply keyed_put; [exact O1|exact S2].
Qed.

(** The methods that touch no key and leave the provider registered. *)
Definition key_op (op : pool_op) : bool :=
  match op with OpRegister _ _ _ _ | OpRemove _ _ | OpRemoveState _ _ _ | OpStateUpdate _ _ _ _ => true | _ => false end.

Ltac keyed_step :=
  repeat first
    [ reflexivity
    | apply keyed_session; intros; cbv zeta
    | apply keyed_for_providers; intros; repeat case_match; done
    | match goal with
      | |- context [match find_provider ?r ?pid with _ => _ end] => destruct (find_provider r pid) as [[? ?]|] eqn:?
      end
    | eapply keyed_found; [eassumption|by repeat case_match]
    | eapply keyed_put; [eassumption|by repeat case_match]
    | eapply keyed_setState; [eassumption|done]
    | eapply keyed_degraded_hold; [eassumption|done]
    | case_match; cbn [fst] ].

Lemma keyed_canary r now pid aid passed at_ threshold force : keyed r (recordCanaryResult r now pid aid passed at_ threshold force).1.
Proof.
  unfold recordCanaryResult. apply keyed_session. intros ptr p Ho. cbv zeta. case_match; [reflexivity|]. case_match; [reflexivity|].
  destruct passed.
  - unfold canary_passed. cbv zeta. cbn [fst]. set (p1 := p <| p_CanaryLastCheckedAt := _ |> <| p_CanaryFailCount := 0 |>).
    set (r1 := (put r ptr p1) <| canarySanctions := _ |>).
    assert (keyed r r1) as K1 by (eapply keyed_other; [by apply (keyed_put r ptr p p1)|done|done]).
    destruct (hold_is _ _ _); [|done]. set (r2 := r1 <| recoveryHolds := delete pid (recoveryHolds r1) |>).
    assert (objects r2 !! ptr = Some p1) as O2 by apply lookup_insert_eq.
    transitivity r2; [by eapply keyed_other|]. by apply (keyed_setState r2 ptr p1).
  - unfold canary_failed. cbv zeta. set (p1 := p <| p_CanaryLastCheckedAt := _ |> <| p_CanaryFailCount := _ |> <| p_CanaryLastFailedAt := _ |>).
    assert (keyed r (put r ptr p1)) as K1 by (by apply (keyed_put r ptr p p1)).
    assert (objects (put r ptr p1) !! ptr = Some p1) as O1 by apply lookup_insert_eq.
    destruct (_ <? _); [done|]. destruct (force || _); [done|]. transitivity (put r ptr p1); [done|].
    destruct (String.eqb _ TierProvisional); cbn [fst].
    + by apply (keyed_setState _ _ p1).
    + eapply keyed_other; [by apply (keyed_degraded_hold (put r ptr p1) ptr p1 p1 pid aid RecoveryReasonCanary)|done|done].
Qed.

Lemma keyed_touch r pid aid at_ : keyed r (Touch r pid aid at_).
Proof.
  unfold Touch. destruct (if negb _ then _ else _) as [[ptr p]|] eqn:Hf; [|reflexivity].
  destruct (_ || _); [|reflexivity]. apply (keyed_put _ _ p); [|done]. destruct (negb (String.eqb pid "")).
  - by apply find_provider_Some in Hf as [_ ?].
  - destruct (negb (String.eqb aid "")); [|done]. apply bind_Some in Hf as (q & _ & Hf). by apply provider_at_Some in Hf as [-> ?].
Qed.

Lemma keyed_breaker r now pid aid at_ threshold window : keyed r (RecordBreakerFault r now pid aid at_ threshold window).1.
Proof.
  unfold RecordBreakerFault. apply keyed_session. intros ptr p Ho. destruct (negb _ && _); [reflexivity|]. cbv zeta. set (r1 := r <| breakerFaults := _ |>).
  assert (keyed r r1) as K1 by (eapply keyed_other; [reflexivity|done|done]). assert (objects r1 !! ptr = Some p) as O1 by done.
  destruct (_ <? _); [done|]. transitivity r1; [done|]. destruct (negb _ && _); cbn [fst].
  - by apply (keyed_setState _ _ p).
  - by apply (keyed_degraded_hold r1 ptr p p).
Qed.

Lemma keyed_recovered r now pid aid at_ : keyed r (MarkRecovered r now pid aid at_).1.
Proof.
  unfold MarkRecovered. apply keyed_session. intros ptr p Ho. destruct (recoveryHolds r !! pid); [|reflexivity].
  case_match; [reflexivity|]. case_match; [reflexivity|]. cbv zeta. cbn [fst].
  eapply keyed_other; [by apply (keyed_setState r ptr p p StateReady)|by case_match..].
Qed.

Lemma keyed_clear_sanction r pid : keyed r (ClearCanarySanction r pid).1.
Proof.
  unfold ClearCanarySanction. cbv zeta. set (r1 := r <| canarySanctions := _ |>).
  change (find_provider r1 pid) with (find_provider r pid).
  set (r2 := match find_provider r pid with Some (ptr, p) => put r1 ptr _ | None => r1 end).
  assert (keyed r r2) as K2.
  { transitivity r1; [eapply keyed_other; [reflexivity|done|done]|]. unfold r2. destruct (find_provider r pid) as [[ptr p]|] eqn:E; [|reflexivity].
    apply find_provider_Some in E as [_ E]. by apply (keyed_put _ _ p). }
  clearbody r2. destruct (recoveryHolds r2 !! pid) as [hold|]; [|done]. case_match; [|done]. cbn [fst].
  eapply keyed_other; [exact K2|by case_match..].
Qed.

Lemma key_op_keyed r op : key_op op = false -> keyed r (pool_step r op).
Proof.
  destruct op; intros Hop; try discriminate Hop; clear Hop; unfold pool_step.
  - apply keyed_heartbeat.
  - apply keyed_touch.
  - unfold MarkState. keyed_step.
  - unfold MarkDegradedForRecovery. keyed_step.
  - apply keyed_recovered.
  - apply keyed_breaker.
  - apply keyed_canary.
  - unfold LoadCanarySanctions. revert r. induction snapshots as [|x l IH]; intros r; simpl; [reflexivity|].
    etransitivity; [|apply IH]. case_match; [reflexivity|]. eapply keyed_other; [reflexivity|done|done].
  - apply keyed_clear_sanction.
  - unfold SetTier. keyed_step.
  - unfold UpdateHashStatuses. keyed_step.
  - unfold ExpireLegacyBridgeAdmissions. keyed_step.
  - unfold ExpireLegacyModelHashAdmissions. keyed_step.
  - unfold MarkHashStatusIfSession, update_session. keyed_step.
  - unfold MarkHTTPForwardingOnly, update_session. keyed_step.
  - unfold NoteBuyerSuccess. keyed_step.
  - unfold RecordSELivenessResult. keyed_step.
  - unfold SetSEPublicKey, update_session. keyed_step.
  - unfold SetModelClassOPoIPass, update_session. keyed_step.
  - unfold RecordCanaryLatency, update_session. keyed_step.
  - unfold SetBenchmarkQuarantine, set_flag. keyed_step.
  - unfold SetAdmissionCeilingExcluded, set_flag. keyed_step.
  - unfold SetAdmissionEvidenceStale, set_flag. keyed_step.
  - unfold SetAdmissionSandboxed, set_flag, set_sandboxed. keyed_step.
  - unfold SetAdmissionGateFlags, set_sandboxed. keyed_step.
  - unfold QuarantineForProofOfWeightsReload. keyed_step.
  - unfold ClearBenchmarkQuarantines. keyed_step.
  - unfold ReplaceTier2Session. keyed_step.
  - eapply keyed_other; [reflexivity|done|done].
Qed.

(** ** The grace period *)

(** The keys a buyer may verify receipts with. *)
Definition verifiable (p : Provider) (now : Z) (k : string) : bool :=
  String.eqb (p_ReceiptPubkey p) k
  || match activeReceiptPubkeyPrev p now with Some prev => String.eqb (prev_Pubkey prev) k | None => false end.

(** [k] is the current key, or was rotated out with a grace that lasts until [T]. *)
Definition in_grace (p : Provider) (k : string) (T : Z) : Prop :=
  p_ReceiptPubkey p = k
  \/ (present (p_ReceiptPubkey p) = true /\ p_PendingReceiptPubkey p = ""
      /\ exists prev, p_ReceiptPubkeyPrev p = Some prev /\ prev_Pubkey prev = k /\ T <= prev_ExpiresAt prev).

Lemma in_grace_verifiable p k T now : in_grace p k T -> now < T -> verifiable p now k = true.
Proof.
  unfold in_grace, verifiable, activeReceiptPubkeyPrev. intros [->|(_ & _ & prev & -> & <- & Hx)] Hn; [by rewrite String.eqb_refl|].
  destruct (now <? prev_ExpiresAt prev) eqn:E; [|lia]. simpl. by rewrite String.eqb_refl, orb_true_r.
Qed.

Lemma in_grace_same p p' k T : same_keys p p' -> in_grace p k T -> in_grace p' k T.
Proof. unfold in_grace. by intros (-> & -> & ->). Qed.

Lemma commit_in_grace p k t now :
  present k = true -> t <= now < t + ReceiptRotationGrace -> in_grace p k (t + ReceiptRotationGrace) ->
  in_grace (commitPendingReceiptPubkeyLocked p now).1 k (t + ReceiptRotationGrace).
Proof.
  intros Hk Hn Hg. unfold commitPendingReceiptPubkeyLocked.
  set (p0 := match p_ReceiptPubkeyPrev p with Some prev => _ | None => p end).
  assert (in_grace p0 k (t + ReceiptRotationGrace) /\ p_ReceiptPubkey p0 = p_ReceiptPubkey p
          /\ p_PendingReceiptPubkey p0 = p_PendingReceiptPubkey p) as (Hg0 & E1 & E2).
  { unfold p0. destruct (p_ReceiptPubkeyPrev p) as [prev|] eqn:E; [|done]. destruct (negb (now <? prev_ExpiresAt prev)) eqn:Ex; [|done].
    split_and!; try done. destruct Hg as [Hg|(_ & _ & x & Hx & _ & HT)]; [by left|]. simplify_eq. apply negb_true_iff in Ex. lia. }
  clearbody p0. destruct (negb (present (p_PendingReceiptPubkey p0))) eqn:Ep; [done|]. apply negb_false_iff in Ep.
  destruct Hg0 as [Hcur|(_ & Hnone & _)]; [|by rewrite Hnone in Ep].
  destruct (String.eqb (p_ReceiptPubkey p0) (p_PendingReceiptPubkey p0)) eqn:Eq.
  - left. apply String.eqb_eq in Eq. destruct (present (p_ReceiptPubkey p0)); simpl; congruence.
  - rewrite Hcur, Hk. simpl. right. simpl. split_and!; [done|done|]. eexists. split_and!; [done|done|simpl; lia].
Qed.

Lemma stage_in_grace old p k t now :
  present k = true -> t <= now < t + ReceiptRotationGrace -> in_grace old k (t + ReceiptRotationGrace) ->
  present (p_ReceiptPubkey p) = true ->
  let out := stageReceiptPublicationLocked (Some old) p now in
  out.1 = RegisterRefusalReceiptRotationGraceActive \/ in_grace out.2 k (t + ReceiptRotationGrace).
Proof.
  intros Hk Hn Hg Hp. unfold stageReceiptPublicationLocked. cbv zeta. rewrite Hp. cbn [negb].
  assert (present (p_ReceiptPubkey old) = true) as Hold by (destruct Hg as [->|[? _]]; done).
  rewrite Hold. cbn [negb].
  assert (p_ReceiptPubkey old = k \/ (p_PendingReceiptPubkey old = "" /\ exists prev, activeReceiptPubkeyPrev old now = Some prev
    /\ prev_Pubkey prev = k /\ t + ReceiptRotationGrace <= prev_ExpiresAt prev)) as Hcase.
  { destruct Hg as [Hg|(_ & Hpend & prev & Eprev & Ek & HT)]; [by left|right]. split; [done|]. exists prev.
    unfold activeReceiptPubkeyPrev. rewrite Eprev. destruct (now <? prev_ExpiresAt prev) eqn:E; [done|lia]. }
  destruct (String.eqb (p_ReceiptPubkey old) (p_ReceiptPubkey p)) eqn:Eq.
  - right. destruct Hcase as [Hc|(Hpend & prev & Ea & Ek & HT)]; [by left|]. right. simpl. split_and!; [done|done|]. by exists prev.
  - destruct Hcase as [Hc|(Hpend & prev & Ea & Ek & HT)].
    + destruct (present (p_PendingReceiptPubkey old)).
      * destruct (String.eqb (p_PendingReceiptPubkey old) (p_ReceiptPubkey p)); [right; by left|by left].
      * destruct (activeReceiptPubkeyPrev old now); [by left|right; by left].
    + rewrite Hpend, Ea. simpl. by left.
Qed.

(** What an installation does to the keys: the provider is at its new address with the
    keys it was staged with, and every other object is as it was. *)
Lemma install_keyed r ptr p c : exists p', same_keys p p'
  /\ keyed (r <| objects := <[ptr := p']> (objects r) |> <| providers := <[p_ProviderID p := ptr]> (providers r) |>) (install r ptr p c).
Proof.
  unfold install. cbv zeta. set (p1 := if String.eqb (p_Tier _) "" then _ else _).
  set (p2 := if String.eqb (p_InferencePath p1) "" then _ else _).
  assert (same_keys p p2 /\ p_ProviderID p2 = p_ProviderID p) as [K E] by (unfold p2, p1; repeat case_match; done). clearbody p2. clear p1.
  exists p2. split; [done|]. rewrite <- E. set (r1 := (put r ptr p2) <| providers := _ |> <| sessions := _ |>).
  destruct (record_union_core r1 (p_ProviderID p2) (p_ModelID p2) (p_SupportedModels p2)) as [C1 C2 _ _ _ _ _].
  set (r2 := recordSeenModelsUnionLocked _ _ _ _) in *. clearbody r2.
  set (r3 := r2 <| breakerFaults := _ |> <| recoveryHolds := _ |> <| lastBreakerRecoveries := _ |>).
  transitivity r3; [eapply keyed_other; [reflexivity|exact C1|exact C2]|].
  unfold applyCanarySanctionLocked. destruct (canarySanctions r3 !! p_ProviderID p2); [|reflexivity]. case_match; [reflexivity|].
  assert (objects r3 !! ptr = Some p2) as O3 by (change (objects r3) with (objects r2); rewrite C1; apply lookup_insert_eq).
  by apply (keyed_degraded_hold r3 ptr p2).
Qed.

Lemma keyed_find r r' pid ptr p : keyed r r' -> find_provider r pid = Some (ptr, p) ->
  exists p', find_provider r' pid = Some (ptr, p') /\ same_keys p p'.
Proof.
  intros [E H] [Hp Ho]%find_provider_Some. specialize (H ptr). rewrite Ho in H. destruct (objects r' !! ptr) as [p'|] eqn:Ho'; [|done].
  exists p'. split; [|done]. apply find_provider_Some. by rewrite E.
Qed.

(** The key of a provider is in its grace at its current session. *)
Definition pool_in_grace (r : Registry) (pid k : string) (T : Z) : Prop :=
  exists ptr p, find_provider r pid = Some (ptr, p) /\ in_grace p k T.

(** Nothing in this step ends the grace of a key that was current at [t]: the provider
    stays, reconnects with a key, and its messages come before the grace is over. *)
Definition grace_op (pid : string) (t : Z) (op : pool_op) : bool :=
  let soon at_ := (t <=? at_) && (at_ <? t + ReceiptRotationGrace) in
  match op with
  | OpRegister _ p _ now => negb (String.eqb (p_ProviderID p) pid) || present (p_ReceiptPubkey p) && soon now
  | OpRemove pid' _ | OpRemoveState pid' _ _ => negb (String.eqb pid' pid)
  | OpStateUpdate now pid' _ update => negb (String.eqb pid' pid) || soon (or_now (su_At update) now)
  | _ => true
  end.

Section Grace.
Context (pid k : string) (t : Z) (Hk : present k = true).
Abbreviation T := (t + ReceiptRotationGrace).

Lemma keyed_pool_in_grace r r' : keyed r r' -> pool_in_grace r pid k T -> pool_in_grace r' pid k T.
Proof.
  intros Hy (ptr & p & Hf & Hg). destruct (keyed_find _ _ _ _ _ Hy Hf) as (p' & Hf' & Hs). exists ptr, p'. split; [done|].
  by eapply in_grace_same.
Qed.

Lemma install_other_grace r ptr p c : objects r !! ptr = None -> p_ProviderID p <> pid -> pool_in_grace r pid k T ->
  pool_in_grace (install r ptr p c) pid k T.
Proof.
  intros Hfresh Hn (q & x & [Hq Hx]%find_provider_Some & Hg). destruct (install_keyed r ptr p c) as (p' & _ & Hy).
  eapply keyed_pool_in_grace; [exact Hy|]. exists q, x. split; [|done]. apply find_provider_Some. simpl.
  rewrite !lookup_insert_ne; [done| |congruence]. intros ->. congruence.
Qed.

Lemma install_own_grace r ptr p c : p_ProviderID p = pid -> in_grace p k T -> pool_in_grace (install r ptr p c) pid k T.
Proof.
  intros Hid Hg. destruct (install_keyed r ptr p c) as (p' & Hs & Hy). eapply keyed_pool_in_grace; [exact Hy|].
  exists ptr, p'. split; [|by eapply in_grace_same]. apply find_provider_Some. simpl. rewrite Hid. by rewrite !lookup_insert_eq.
Qed.

Lemma register_grace r ptr p c now : fresh_op r (OpRegister ptr p c now) -> grace_op pid t (OpRegister ptr p c now) = true ->
  pool_in_grace r pid k T -> pool_in_grace (RegisterAtDetailed r ptr p c now).1 pid k T.
Proof.
  intros [Hfresh _] Hop Hg. unfold RegisterAtDetailed. simpl in Hop.
  destruct (find_provider r (p_ProviderID p)) as [[q old]|] eqn:E.
  - destruct (register_refusal old p); [done|]. pose proof (stage_session (Some old) p now) as [S1 _].
    pose proof (stage_in_grace old p k t now Hk) as Hst. cbv zeta in Hst.
    destruct (stageReceiptPublicationLocked (Some old) p now) as [refusal p']. simpl in *.
    destruct (String.eqb refusal _) eqn:Er; [done|]. simpl. destruct (decide (p_ProviderID p = pid)) as [Hid|Hn].
    + apply install_own_grace; [congruence|]. rewrite Hid, String.eqb_refl in Hop. simpl in Hop. bool_hyps.
      destruct Hg as (q' & x & Hx & Hg). rewrite <- Hid, E in Hx. injection Hx as -> ->.
      destruct Hst as [->|?]; [lia|done|done|by vm_compute in Er|done].
    + apply install_other_grace; [done|congruence|]. destruct Hg as (q' & x & Hx & Hg). by exists q', x.
  - pose proof (stage_session None p now) as [S1 _]. destruct (stageReceiptPublicationLocked None p now) as [refusal p']. simpl in *.
    case_match; [done|]. apply install_other_grace; [done| |done]. intros Hid. destruct Hg as (q & x & Hx & _). congruence.
Qed.

Lemma state_update_grace r now pid' aid update : grace_op pid t (OpStateUpdate now pid' aid update) = true ->
  registry_ok r -> pool_in_grace r pid k T -> pool_in_grace (ApplyStateUpdate r now pid' aid update).1 pid k T.
Proof.
  intros Hop Hok Hg. unfold ApplyStateUpdate, with_session. destruct (find_session r pid' aid) as [[ptr p]|] eqn:E; [|done].
  destruct (session_registered _ _ _ _ _ Hok E) as ([Hp Ho] & Hid & _).
  set (rp := if canApplyProviderStateLocked _ _ _ then _ else _).
  assert (keyed r rp.1 /\ same_keys p rp.2) as [K1 S1] by (unfold rp; case_match; simpl; [split; [by eapply keyed_setState|done]|done]).
  destruct rp as [r1 p1]. cbn [fst snd] in *. cbv zeta.
  set (p2 := if present (su_LastAutoupdateEvent update) then _ else _).
  assert (same_keys p p2) as S2.
  { destruct S1 as (? & ? & ?). unfold p2. repeat case_match; done. }
  clearbody p2. clear S1. destruct (commitPendingReceiptPubkeyLocked p2 _) as [p3 event] eqn:Ec. cbn [fst].
  destruct (keyed_pool_in_grace _ _ K1 Hg) as (q & x & [Hq Hx]%find_provider_Some & Hgx).
  exists q. simpl in Hop. destruct (decide (pid' = pid)) as [->|Hn].
  - rewrite String.eqb_refl in Hop. simpl in Hop. bool_hyps. exists p3.
    destruct Hg as (q0 & x0 & [Hq0 Hx0]%find_provider_Some & Hg0). rewrite Hid in Hp. rewrite (ky_providers _ _ K1) in Hq.
    assert (q = ptr) as -> by congruence. assert (q0 = ptr) as -> by congruence. assert (x0 = p) as -> by congruence.
    split; [apply find_provider_Some; simpl; rewrite (ky_providers _ _ K1), lookup_insert_eq; done|].
    replace p3 with (commitPendingReceiptPubkeyLocked p2 (or_now (su_At update) now)).1 by (by rewrite Ec).
    apply commit_in_grace; [done|lia|]. by eapply in_grace_same.
  - exists x. split; [|done]. apply find_provider_Some. simpl. split; [done|]. rewrite lookup_insert_ne; [done|].
    intros ->. destruct (ro_provider _ Hok pid q) as (z & Hz & Hidz & _); [by rewrite <- (ky_providers _ _ K1)|]. congruence.
Qed.

Lemma remove_grace r pid' aid ok : pid' <> pid -> pool_in_grace r pid k T ->
  pool_in_grace (with_session r pid' aid false (fun _ p => if (ok p : bool) then (remove r pid' aid, true) else (r, false))).1 pid k T.
Proof.
  intros Hn (q & x & [Hq Hx]%find_provider_Some & Hg). exists q, x. split; [|done]. apply find_provider_Some. unfold with_session.
  repeat case_match; simpl; by rewrite ?lookup_delete_ne.
Qed.

Lemma step_grace r op : registry_ok r -> fresh_op r op -> grace_op pid t op = true ->
  pool_in_grace r pid k T -> pool_in_grace (pool_step r op) pid k T.
Proof.
  intros Hok Hf Hop Hg. destruct (key_op op) eqn:Ek; [|by eapply keyed_pool_in_grace; [apply key_op_keyed|]].
  destruct op; try discriminate Ek; unfold pool_step.
  - by apply register_grace.
  - simpl in Hop. bool_hyps. by apply (remove_grace r _ _ (fun _ => true)).
  - simpl in Hop. bool_hyps. by apply remove_grace.
  - by apply state_update_grace.
Qed.

Lemma run_grace ops : forall r, registry_ok r -> fresh_run r ops -> forallb (grace_op pid t) ops = true ->
  pool_in_grace r pid k T -> pool_in_grace (pool_run r ops) pid k T.
Proof.
  induction ops as [|op ops IH]; intros r Hok Hf Hops Hg; simpl; [done|]. destruct Hf as [Hf1 Hf2]. simpl in Hops. bool_hyps.
  apply IH; [by apply step_ok|done|done|by apply step_grace].
Qed.
End Grace.

(** ** What buyers rely on *)

(** Claim C23. Canaries never empty a model. In any registry the methods can reach, when
    a provider serves buyers for a model, then some provider still does after any number
    of canary results, in any order and of any providers: the last one serving a model
    is not degraded or banned for failing. The predicate that tells who serves is the
    websocket server's, or any other that counts routable providers only and does not
    look at the canary bookkeeping. *)
Theorem canary_keeps_model_served configs hv iv (history canaries : list pool_op) (model : string) :
  let r := pool_run (NewRegistry configs hv iv) history in
  fresh_run (NewRegistry configs hv iv) history -> ServingPredicate (serving_predicate r) ->
  forallb canary_op canaries = true ->
  0 < BuyerServingCountForModel r model -> 0 < BuyerServingCountForModel (pool_run r canaries) model.
Proof. intros r Hf Hs Hc. apply canaries_floor; [|done|done]. apply run_ok; [apply new_registry_ok|done]. Qed.

(** A receipt key stays verifiable for the grace period. The key that is a
    provider's current one at [t] is still its current or its previous key at every
    moment before [t] plus the grace of seven days, whatever the registry does meanwhile:
    the provider may reconnect, offer other keys and publish them, as long as it is not
    removed and reconnects with a receipt key. *)
Theorem rotated_key_verifiable configs hv iv (history ops : list pool_op) (pid : string) (ptr : positive) (p : Provider) (t now : Z) :
  let r := pool_run (NewRegistry configs hv iv) history in
  fresh_run (NewRegistry configs hv iv) history -> find_provider r pid = Some (ptr, p) -> present (p_ReceiptPubkey p) = true ->
  fresh_run r ops -> forallb (grace_op pid t) ops = true -> now < t + ReceiptRotationGrace ->
  exists ptr' p', find_provider (pool_run r ops) pid = Some (ptr', p') /\ verifiable p' now (p_ReceiptPubkey p) = true.
Proof.
  intros r Hf Hp Hk Hfr Hops Hn. destruct (run_grace pid (p_ReceiptPubkey p) t Hk ops r) as (ptr' & p' & Hp' & Hg).
  - apply run_ok; [apply new_registry_ok|done].
  - done.
  - done.
  - exists ptr, p. split; [done|by left].
  - exists ptr', p'. split; [done|by eapply in_grace_verifiable].
Qed.

Module ServingSample.
Import PoolSample.
Definition with_key (pid aid key : string) : Provider := (session pid aid) <| p_ReceiptPubkey := key |>.
Definition reconnect (ptr : positive) (aid key : string) (now : Z) : pool_op := OpRegister ptr (with_key "p" aid key) None now.
Definition ready (aid : string) (at_ : Z) : pool_op := OpStateUpdate at_ "p" aid (mkStateUpdate StateReady None None "" at_).
Definition published : list pool_op := [reconnect 1 "s" "k1" 1; ready "s" 2].
Definition rotation : list pool_op := [reconnect 2 "s2" "k2" 10; ready "s2" 11; reconnect 3 "s3" "k3" 20; ready "s2" 21].
Definition two_serving : list pool_op := [register 1 "p" "s"; register 2 "q" "t"].
Definition failing : list pool_op :=
  [OpCanary 0 "p" "s" false 5 1 false; OpCanary 0 "q" "t" false 6 1 false; OpCanary 0 "q" "t" false 7 1 false].
Definition keys (r : Registry) (now : Z) (k : string) : bool :=
  match find_provider r "p" with Some (_, p) => verifiable p now k | None => false end.
End ServingSample.

Lemma canary_keeps_model_served_witness :
  BuyerServingCountForModel (pool_run PoolSample.start ServingSample.two_serving) "m" = 2
  /\ BuyerServingCountForModel (pool_run (pool_run PoolSample.start ServingSample.two_serving) ServingSample.failing) "m" = 1
  /\ 0 < BuyerServingCountForModel (pool_run (pool_run PoolSample.start ServingSample.two_serving) ServingSample.failing) "m".
Proof.
  split_and!; [by vm_compute..|].
  apply (canary_keeps_model_served [] None None ServingSample.two_serving ServingSample.failing "m"); [by vm_compute| |by vm_compute..].
  assert (buyerServing (pool_run (NewRegistry [] None None) ServingSample.two_serving) = None) as E by (by vm_compute).
  unfold serving_predicate. rewrite E. apply fallback_predicate.
Defined.

Lemma rotated_key_verifiable_witness :
  let r := pool_run (pool_run PoolSample.start ServingSample.published) ServingSample.rotation in
  ServingSample.keys r 100 "k1" = true /\ ServingSample.keys r 100 "k2" = true /\ ServingSample.keys r 100 "k3" = false.
Proof.
  assert (exists ptr p, find_provider (pool_run PoolSample.start ServingSample.published) "p" = Some (ptr, p)
    /\ p_ReceiptPubkey p = "k1") as (ptr & p & Hp & Hk) by (do 2 eexists; split; vm_compute; reflexivity).
  destruct (rotated_key_verifiable [] None None ServingSample.published ServingSample.rotation "p" ptr p 2 100)
    as (ptr' & p' & Hp' & Hv); [vm_compute; tauto|exact Hp|by rewrite Hk|vm_compute; tauto|reflexivity|reflexivity|].
  cbv zeta. split_and!; [|by vm_compute..]. unfold ServingSample.keys, PoolSample.start. rewrite Hp'. by rewrite Hk in Hv.
Defined.

(** The grace depends on the provider offering a key when it reconnects: a session that
    registers without one is published without any, and the next one may bring a new key
    at once, so that the receipts of the old one can no longer be verified. *)
Example keyless_reconnect_drops_key :
  let r := pool_run PoolSample.start ServingSample.published in
  let r' := pool_run r [ServingSample.reconnect 2 "s2" "" 10; ServingSample.reconnect 3 "s3" "k2" 11; ServingSample.ready "s3" 12] in
  ServingSample.keys r 13 "k1" = true /\ ServingSample.keys r' 13 "k1" = false /\ ServingSample.keys r' 13 "k2" = true.
Proof. by vm_compute. Qed.
