(* ===== verification/Capacity.v ===== *)
(** * Provider capacity claims

    Models [phase4-coordinator/internal/pool/capacity_clamp.go] and the
    slot clamp of the [state_update] handler,
    [internal/ws/server.go: clampStateUpdateSlots]. A provider reports
    [(max_concurrency, slots_total, slots_free)] verbatim; the clamp bounds the
    triple by the operator's ceiling before any other component sees it.
    Go's [int] subtraction wraps, so the theorems hold for adversarial claims
    whose difference overflows. *)

From S2P Require Import Prelude.

Record ClampedCapacity := mkClamped {
  MaxConcurrency : Z;
  SlotsTotal : Z;
  SlotsFree : Z;
  OverClaimed : bool;
  ReportedMax : Z;
}.

Definition ClampCapacity (maxConcurrency slotsTotal slotsFree ceiling : Z) : ClampedCapacity :=
  if ceiling <=? 0 then mkClamped maxConcurrency slotsTotal slotsFree false maxConcurrency
  else
    let over := ((ceiling <? maxConcurrency) || (ceiling <? slotsTotal)
                 || (maxConcurrency <? 1))%bool in
    let mc := if ceiling <? maxConcurrency then ceiling else maxConcurrency in
    let mc := if mc <? 1 then 1 else mc in
    let used := Int64.sub slotsTotal slotsFree in
    let used := if used <? 0 then 0 else used in
    let total := if mc <? slotsTotal then mc else slotsTotal in
    let total := if total <? 0 then 0 else total in
    let used := if total <? used then total else used in
    let free := Int64.sub total used in
    let sfree := if free <? slotsFree then free else slotsFree in
    let sfree := if sfree <? 0 then 0 else sfree in
    mkClamped mc total sfree over maxConcurrency.

(** [Server.clampStateUpdateSlots]: [live] is the pool's current
    [MaxConcurrency] of the provider; the last component of the result says
    whether the over-claim tripwire fired. *)
Definition clampStateUpdateSlots (ceiling : Z) (live : option Z)
    (slotsTotal slotsFree : option Z) : option Z * option Z * bool :=
  match ceiling <=? 0, slotsTotal, slotsFree with
  | true, _, _ | _, None, None => (slotsTotal, slotsFree, false)
  | false, _, _ =>
      let reference :=
        match live with
        | Some l => if (0 <? l) && (l <? ceiling) then l else ceiling
        | None => ceiling
        end%bool in
      let total := default reference slotsTotal in
      let free := default reference slotsFree in
      let clamped := ClampCapacity reference total free reference in
      if (SlotsTotal clamped =? total) && (SlotsFree clamped =? free)
      then (slotsTotal, slotsFree, false)
      else
        ((fun _ => SlotsTotal clamped) <$> slotsTotal,
         (fun _ => SlotsFree clamped) <$> slotsFree, true)
  end%bool.

(** ** The clamp *)

(** The bounds hold whatever the raw difference wraps to. *)
Lemma clamp_bounds mc t f ceiling :
  0 < ceiling <= Int64.max -> Int64.in_range f ->
  let c := ClampCapacity mc t f ceiling in
  1 <= MaxConcurrency c <= ceiling /\
  0 <= SlotsFree c <= SlotsTotal c /\ SlotsTotal c <= MaxConcurrency c.
Proof.
  intros Hc Hf c. subst c. unfold ClampCapacity.
  replace (ceiling <=? 0) with false by lia.
  set (d := Int64.sub t f). simpl.
  assert (forall a b, 0 <= b <= a -> a <= Int64.max -> Int64.sub a b = a - b) as He.
  { intros a b ??. apply Int64.sub_exact. i64. lia. }
  split_ifs; repeat match goal with
    | H : context [Int64.sub ?a ?b] |- _ => rewrite (He a b) in H by lia
    | |- context [Int64.sub ?a ?b] => rewrite (He a b) by lia
    end; lia.
Qed.

(** The clamp never grants more than the operator's ceiling, and its
    result is coherent: with a positive ceiling and any three 64-bit claims,
    [1 <= max <= ceiling] and [0 <= free <= total <= max]. A claim with
    [0 <= free <= total] keeps its used slots, up to the effective total, so a
    saturated provider stays saturated and an idle one idle. *)
Theorem clamp_capacity_bounds (mc t f ceiling : Z) :
  0 < ceiling <= Int64.max -> Int64.in_range mc -> Int64.in_range t -> Int64.in_range f ->
  let c := ClampCapacity mc t f ceiling in
  (1 <= MaxConcurrency c <= ceiling /\
   0 <= SlotsFree c <= SlotsTotal c /\ SlotsTotal c <= MaxConcurrency c) /\
  (0 <= f <= t -> SlotsTotal c - SlotsFree c = Z.min (t - f) (SlotsTotal c)).
Proof.
  intros Hc Hm Ht Hf c. split; [by apply clamp_bounds|]. intros Hft. subst c.
  unfold ClampCapacity. replace (ceiling <=? 0) with false by lia.
  rewrite (Int64.sub_exact t f) by (i64; lia). simpl.
  split_ifs; rewrite ?Int64.sub_exact in * by (i64; lia); lia.
Qed.

Lemma clamp_capacity_bounds_witness :
  let c := ClampCapacity 9999 9999 9998 8 in
  (1 <= MaxConcurrency c <= 8 /\
   0 <= SlotsFree c <= SlotsTotal c /\ SlotsTotal c <= MaxConcurrency c) /\
  SlotsTotal c - SlotsFree c = Z.min (9999 - 9998) (SlotsTotal c).
Proof.
  destruct (clamp_capacity_bounds 9999 9999 9998 8) as [Hb Hu];
    [i64; lia|i64; lia|i64; lia|i64; lia|].
  split; [exact Hb|]. apply Hu. lia.
Defined.

(** A coherent claim under the ceiling passes unchanged. *)
Lemma clamp_coherent mc t f ceiling :
  1 <= mc <= ceiling -> 0 <= f <= t -> t <= mc -> ceiling <= Int64.max ->
  ClampCapacity mc t f ceiling = mkClamped mc t f false mc.
Proof.
  intros. unfold ClampCapacity. replace (ceiling <=? 0) with false by lia.
  rewrite (Int64.sub_exact t f) by (i64; lia).
  split_ifs; rewrite ?Int64.sub_exact in * by (i64; lia); f_equal; lia.
Qed.

(** ** State updates *)

(** The total in force for a partial update: the one sent, or the pool's. *)
Definition reference_cap (ceiling : Z) (live : option Z) : Z :=
  match live with
  | Some l => if (0 <? l) && (l <? ceiling) then l else ceiling
  | None => ceiling
  end%bool.

Lemma clampStateUpdateSlots_spec ceiling live t f :
  0 < ceiling <= Int64.max -> (t, f) <> (None, None) ->
  clampStateUpdateSlots ceiling live t f =
    let r := reference_cap ceiling live in
    let c := ClampCapacity r (default r t) (default r f) r in
    ((fun _ => SlotsTotal c) <$> t, (fun _ => SlotsFree c) <$> f,
     negb ((SlotsTotal c =? default r t) && (SlotsFree c =? default r f))%bool).
Proof.
  intros Hc Hn. unfold clampStateUpdateSlots, reference_cap.
  replace (ceiling <=? 0) with false by lia. cbv zeta.
  set (c := ClampCapacity _ _ _ _).
  destruct t as [t|], f as [f|]; simpl in c |- *; try done;
    destruct (_ && _)%bool eqn:He; simpl; try done; bool_hyps; repeat f_equal; lia.
Qed.

(** A state update never inflates a provider's slots: whatever pair it
    carries, the values stored are between zero and the provider's live cap
    (the operator ceiling when the provider is unknown), free does not exceed
    total when both are sent, and an absent value stays absent. *)
Theorem state_update_slots_bounded (ceiling : Z) (live t f : option Z) :
  0 < ceiling <= Int64.max ->
  (forall x, f = Some x -> Int64.in_range x) ->
  let '(t', f', _) := clampStateUpdateSlots ceiling live t f in
  let cap := match live with Some l => if 0 <? l then Z.min l ceiling else ceiling
             | None => ceiling end in
  (t' = None <-> t = None) /\ (f' = None <-> f = None) /\
  (forall x, t' = Some x -> 0 <= x <= cap) /\
  (forall y, f' = Some y -> 0 <= y <= cap) /\
  (forall x y, t' = Some x -> f' = Some y -> y <= x).
Proof.
  intros Hc Hf.
  assert (reference_cap ceiling live
    = match live with Some l => if 0 <? l then Z.min l ceiling else ceiling
      | None => ceiling end) as <-.
  { unfold reference_cap. destruct live; [|done]. split_ifs; bool_hyps; lia. }
  assert (1 <= reference_cap ceiling live <= ceiling) as Hr.
  { unfold reference_cap. destruct live; [|lia]. split_ifs; bool_hyps; lia. }
  destruct (decide ((t, f) = (None, None))) as [[= -> ->]|Hn].
  { unfold clampStateUpdateSlots. destruct (ceiling <=? 0); naive_solver. }
  rewrite (clampStateUpdateSlots_spec _ _ _ _ Hc Hn). cbv zeta.
  set (r := reference_cap ceiling live) in *.
  destruct (clamp_bounds r (default r t) (default r f) r) as (? & ? & ?);
    [lia| |].
  { destruct f as [y|]; simpl; [by apply Hf|i64; lia]. }
  destruct t, f; simpl in *; repeat split; intros; simplify_eq; try done; lia.
Qed.

Lemma state_update_slots_bounded_witness :
  clampStateUpdateSlots 16 (Some 2) (Some 8) (Some 8) = (Some 2, Some 2, true) /\
  (forall x, Some 2 = Some x -> 0 <= x <= 2).
Proof.
  split; [vm_compute; reflexivity|].
  pose proof (state_update_slots_bounded 16 (Some 2) (Some 8) (Some 8)) as H.
  simpl in H. apply H; [i64; lia|]. intros x [= <-]. i64. lia.
Defined.

(** A total-only update below the live cap trips the over-claim counter although
    the claim exceeds nothing and is stored unchanged: the missing free count
    is filled with the reference cap, which the clamp then lowers. *)
Example total_only_update_trips_over_claim :
  clampStateUpdateSlots 16 (Some 4) (Some 1) None = (Some 1, None, true) /\
  OverClaimed (ClampCapacity 4 1 1 4) = false.
Proof. split; reflexivity. Qed.
