(* ===== verification/Admission.v ===== *)
(** * Admission of provisional providers

    Models [ws/admission.go] and the state [ws/admission_store.go] keeps: who may join
    without being pinned by the operator, at what rate, and how many requests an hour such
    a provider may serve. Times are nanoseconds; each method reads the clock once, and
    holds the mutex, so an execution is a sequence of operations. *)

From S2P Require Import Prelude Jcs GoTime GoFloat Pool PoolHolds.
#[local] Open Scope Z_scope.

Definition Hour : Z := 3600 * 1000000000.

Record AdmissionConfig := mkAdmissionConfig {
  ac_PinnedOnly : bool;
  ac_ProvisionalAdmissionRatePerHour : Z;
  ac_ProvisionalPoolMax : Z;
  ac_ProvisionalQuotaPerHour : Z;
}.

(** The fields of a hello that admission reads. *)
Record Hello := mkHello { hl_ProviderID : string; hl_Hostname : string; hl_ModelID : string; hl_BinaryVersion : string }.

Record ProvisionalRecord := mkRecord {
  pr_ProviderID : string;
  pr_Hostname : string;
  pr_ModelID : string;
  pr_BinaryVersion : string;
  pr_FirstSeenAt : Z;
  pr_LastSeenAt : Z;
  pr_TotalRequestsServed : Z;
  pr_TotalTokensServed : Z;
  pr_PromotedAt : option Z;
  pr_CurrentlyConnected : bool;
}.
#[global] Instance ProvisionalRecord_rebuild : Rebuild ProvisionalRecord := fun r =>
  mkRecord r.(pr_ProviderID) r.(pr_Hostname) r.(pr_ModelID) r.(pr_BinaryVersion) r.(pr_FirstSeenAt) r.(pr_LastSeenAt)
    r.(pr_TotalRequestsServed) r.(pr_TotalTokensServed) r.(pr_PromotedAt) r.(pr_CurrentlyConnected).

(** What is saved, and what a restart loads. *)
Record AdmissionState := mkState {
  as_Admissions : list Z;
  as_Records : gmap string ProvisionalRecord;
  as_Rejected : gmap string string;
  as_RequestWindows : gmap string (list Z);
}.
#[global] Instance AdmissionState_rebuild : Rebuild AdmissionState := fun s =>
  mkState s.(as_Admissions) s.(as_Records) s.(as_Rejected) s.(as_RequestWindows).

(** The manager: its state, the reservations that are only in memory, and the row of the
    store. *)
Record AdmissionManager := mkManager {
  am_cfg : AdmissionConfig;
  am_state : AdmissionState;
  am_pending : Z;
  am_saved : AdmissionState;
}.
#[global] Instance AdmissionManager_rebuild : Rebuild AdmissionManager := fun a =>
  mkManager a.(am_cfg) a.(am_state) a.(am_pending) a.(am_saved).

Definition empty_state : AdmissionState := mkState [] ∅ ∅ ∅.
Definition NewAdmissionManager (cfg : AdmissionConfig) : AdmissionManager := mkManager cfg empty_state 0 empty_state.

(** [if len(part) > 0 { a.part = part }] *)
Definition nonempty_or {K V : Type} `{Countable K} (part old : gmap K V) : gmap K V :=
  if 0 <? Z.of_nat (size part) then part else old.

(** [SetPersistence] with a store whose row is [row]; [loaded] is whether the row can be read.
    When it cannot, the error is reported, and the manager goes on with what it has: after a
    restart with nothing, and its next save overwrites the row. *)
Definition SetPersistence (row : AdmissionState) (loaded : bool) (a : AdmissionManager) : AdmissionManager :=
  let a := a <| am_saved := row |> in
  if negb loaded then a
  else
  let s := a.(am_state) in
  a <| am_state := mkState
    (if 0 <? Z.of_nat (length row.(as_Admissions)) then row.(as_Admissions) else s.(as_Admissions))
    (nonempty_or row.(as_Records) s.(as_Records))
    (nonempty_or row.(as_Rejected) s.(as_Rejected))
    (nonempty_or row.(as_RequestWindows) s.(as_RequestWindows)) |>.

Definition on_state (f : AdmissionState -> AdmissionState) (a : AdmissionManager) : AdmissionManager := a <| am_state := f a.(am_state) |>.

(** [saved] is whether the write succeeds; its error is only reported. *)
Definition persistLocked (saved : bool) (a : AdmissionManager) : AdmissionManager :=
  if saved then a <| am_saved := a.(am_state) |> else a.

Fixpoint keepAfter (in_ : list Z) (cutoff : Z) : list Z :=
  match in_ with
  | [] => []
  | t :: rest => if cutoff <? t then in_ else keepAfter rest cutoff
  end.

Definition window_of (s : AdmissionState) (providerID : string) : list Z := default [] (s.(as_RequestWindows) !! providerID).

Definition itoa (n : Z) : string := if n =? Int64.min then "-" else GoStr.of_chars (format_int n).

Definition CloseProvisionalPoolFull : Z := 4007.
Definition CloseProvisionalRateLimited : Z := 4008.
Definition CloseBanned : Z := 4009.
Definition TierRejected : string := "rejected".

(** ** Joining *)

Definition recordAdmissionLocked (hello : Hello) (now : Z) (saved : bool) (a : AdmissionManager) : AdmissionManager :=
  let id := hello.(hl_ProviderID) in
  let '(rec, admissions) := match a.(am_state).(as_Records) !! id with
    | Some rec => (rec, a.(am_state).(as_Admissions))
    | None => (mkRecord id "" "" "" now zero_time 0 0 None false, a.(am_state).(as_Admissions) ++ [now])
    end in
  let rec := rec <| pr_LastSeenAt := now |> <| pr_Hostname := hello.(hl_Hostname) |> <| pr_ModelID := hello.(hl_ModelID) |>
                 <| pr_BinaryVersion := hello.(hl_BinaryVersion) |> in
  persistLocked saved (on_state (fun s => s <| as_Admissions := admissions |> <| as_Records := <[id := rec]> s.(as_Records) |>) a).

Definition banned_reason (id : string) : string := "banned: provider " +:+ id +:+ " has been rejected by operator".

(** The tier, and the close code and reason; the code zero admits. *)
Definition evaluateAdmissionLocked (hello : Hello) (connectedProvisional : Z) (record : bool) (now : Z) (saved : bool) (a : AdmissionManager)
    : AdmissionManager * (string * Z * string) :=
  let id := hello.(hl_ProviderID) in
  if bool_decide (is_Some (a.(am_state).(as_Rejected) !! id)) then (a, (TierRejected, CloseBanned, banned_reason id))
  else if a.(am_cfg).(ac_PinnedOnly) then (a, (TierRejected, CloseBanned, banned_reason id))
  else
  let a := on_state (fun s => s <| as_Admissions := keepAfter s.(as_Admissions) (now - Hour) |>) a in
  if a.(am_cfg).(ac_ProvisionalPoolMax) <=? Int64.add connectedProvisional a.(am_pending) then
    (a, (TierProvisional, CloseProvisionalPoolFull,
      "provisional_pool_full: max " +:+ itoa a.(am_cfg).(ac_ProvisionalPoolMax) +:+ " provisional providers reached"))
  else if bool_decide (a.(am_state).(as_Records) !! id = None)
          && (a.(am_cfg).(ac_ProvisionalAdmissionRatePerHour) <=? Z.of_nat (length a.(am_state).(as_Admissions))) then
    (a, (TierProvisional, CloseProvisionalRateLimited,
      "provisional_rate_limited: max " +:+ itoa a.(am_cfg).(ac_ProvisionalAdmissionRatePerHour) +:+ " admissions per hour"))
  else if negb record then (a, (TierProvisional, 0, ""))
  else (recordAdmissionLocked hello now saved (a <| am_pending := Int64.add a.(am_pending) 1 |>), (TierProvisional, 0, "")).

Definition Admit (hello : Hello) (pinned : bool) (connectedProvisional now : Z) (saved : bool) (a : AdmissionManager)
    : AdmissionManager * (string * Z * string) :=
  if pinned then (a, (TierPinned, 0, "")) else evaluateAdmissionLocked hello connectedProvisional true now saved a.
Definition CheckAdmit (hello : Hello) (pinned : bool) (connectedProvisional now : Z) (a : AdmissionManager)
    : AdmissionManager * (string * Z * string) :=
  if pinned then (a, (TierPinned, 0, "")) else evaluateAdmissionLocked hello connectedProvisional false now false a.
Definition ReserveAdmission (hello : Hello) (pinned : bool) (connectedProvisional now : Z) (a : AdmissionManager)
    : AdmissionManager * (string * Z * string) :=
  if pinned then (a, (TierPinned, 0, ""))
  else
  let '(a, (tier, code, reason)) := evaluateAdmissionLocked hello connectedProvisional false now false a in
  (if code =? 0 then a <| am_pending := Int64.add a.(am_pending) 1 |> else a, (tier, code, reason)).
Definition CommitReservedAdmission (hello : Hello) (pinned : bool) (now : Z) (saved : bool) (a : AdmissionManager) : AdmissionManager * string :=
  if pinned then (a, TierPinned) else (recordAdmissionLocked hello now saved a, TierProvisional).
Definition ReleasePendingProvisional (a : AdmissionManager) : AdmissionManager :=
  if 0 <? a.(am_pending) then a <| am_pending := a.(am_pending) - 1 |> else a.

(** ** Requests *)

Definition set_window (id : string) (window : list Z) (s : AdmissionState) : AdmissionState :=
  s <| as_RequestWindows := <[id := window]> s.(as_RequestWindows) |>.
Definition update_record (id : string) (f : ProvisionalRecord -> ProvisionalRecord) (s : AdmissionState) : AdmissionState :=
  s <| as_Records := alter f id s.(as_Records) |>.

Definition CheckQuota (provider : Provider) (now : Z) (a : AdmissionManager) : AdmissionManager * bool :=
  if negb (String.eqb provider.(p_Tier) TierProvisional) then (a, true)
  else
  let id := provider.(p_ProviderID) in
  let window := keepAfter (window_of a.(am_state) id) (now - Hour) in
  (on_state (set_window id window) a, Z.of_nat (length window) <? a.(am_cfg).(ac_ProvisionalQuotaPerHour)).

Definition TryReserveRequest (provider : Provider) (now : Z) (saved : bool) (a : AdmissionManager) : AdmissionManager * bool :=
  if negb (String.eqb provider.(p_Tier) TierProvisional) then (a, true)
  else
  let id := provider.(p_ProviderID) in
  let window := keepAfter (window_of a.(am_state) id) (now - Hour) in
  if a.(am_cfg).(ac_ProvisionalQuotaPerHour) <=? Z.of_nat (length window) then (on_state (set_window id window) a, false)
  else
  let a := on_state (set_window id (window ++ [now])) a in
  let a := on_state (update_record id (fun rec =>
    rec <| pr_TotalRequestsServed := Int64.add rec.(pr_TotalRequestsServed) 1 |> <| pr_LastSeenAt := now |>)) a in
  (persistLocked saved a, true).

Definition RefundRequest (provider : Provider) (saved : bool) (a : AdmissionManager) : AdmissionManager :=
  if negb (String.eqb provider.(p_Tier) TierProvisional) then a
  else
  let id := provider.(p_ProviderID) in
  let window := window_of a.(am_state) id in
  let a := if 0 <? Z.of_nat (length window) then on_state (set_window id (removelast window)) a else a in
  let a := on_state (update_record id (fun rec =>
    if 0 <? rec.(pr_TotalRequestsServed) then rec <| pr_TotalRequestsServed := rec.(pr_TotalRequestsServed) - 1 |> else rec)) a in
  persistLocked saved a.

(** ** The operator *)

Definition Promote (providerID : string) (now : Z) (saved : bool) (a : AdmissionManager) : AdmissionManager * (string * bool) :=
  match a.(am_state).(as_Records) !! providerID with
  | None => (a, ("", false))
  | Some _ => (persistLocked saved (on_state (update_record providerID (fun rec => rec <| pr_PromotedAt := Some now |>)) a), (TierProvisional, true))
  end.

Definition Reject (providerID reason : string) (saved : bool) (a : AdmissionManager) : AdmissionManager :=
  persistLocked saved (on_state (fun s => s <| as_Rejected := <[providerID := reason]> s.(as_Rejected) |>) a).

(** Whether a rejection was removed; the rejection stays when it could not be saved. *)
Definition Unreject (providerID : string) (saved : bool) (a : AdmissionManager) : AdmissionManager * bool :=
  match a.(am_state).(as_Rejected) !! providerID with
  | None => (a, false)
  | Some _ =>
      if saved then (persistLocked true (on_state (fun s => s <| as_Rejected := delete providerID s.(as_Rejected) |>) a), true) else (a, false)
  end.

Definition Rejected (providerID : string) (a : AdmissionManager) : bool := bool_decide (is_Some (a.(am_state).(as_Rejected) !! providerID)).

(** Copies of the records, in an unknown order. *)
Definition Records (order : gmap string ProvisionalRecord -> list (string * ProvisionalRecord)) (connected : string -> bool) (a : AdmissionManager)
    : list ProvisionalRecord :=
  map (fun kv : string * ProvisionalRecord => kv.2 <| pr_CurrentlyConnected := connected kv.2.(pr_ProviderID) |>) (order a.(am_state).(as_Records)).

(** ** Retention *)

Definition stale (cutoff : Z) (rec : ProvisionalRecord) : bool := rec.(pr_LastSeenAt) <? cutoff.

Definition prune_windows (cutoff : Z) (records : gmap string ProvisionalRecord) (windows : gmap string (list Z)) : gmap string (list Z) :=
  map_imap (fun id window =>
    if match records !! id with Some rec => stale cutoff rec | None => false end then None
    else match keepAfter window cutoff with [] => None | pruned => Some pruned end) windows.

Definition pruned_state (cutoff : Z) (s : AdmissionState) : AdmissionState :=
  let records := filter (fun kv : string * ProvisionalRecord => stale cutoff kv.2 = false) s.(as_Records) in
  mkState (keepAfter s.(as_Admissions) cutoff) records
    (filter (fun kv : string * string => is_Some (records !! kv.1)) s.(as_Rejected))
    (prune_windows cutoff s.(as_Records) s.(as_RequestWindows)).

(** The time points the third and fourth loop drop; the windows of dropped records are
    gone by then and not counted. *)
Definition dropped_points (cutoff : Z) (s : AdmissionState) : Z :=
  sum_map (fun id window =>
    if match s.(as_Records) !! id with Some rec => stale cutoff rec | None => false end then 0
    else Z.of_nat (length window) - Z.of_nat (length (keepAfter window cutoff))) s.(as_RequestWindows)
  + (Z.of_nat (length s.(as_Admissions)) - Z.of_nat (length (keepAfter s.(as_Admissions) cutoff))).

Definition Prune (cutoff : Z) (saved : bool) (a : AdmissionManager) : AdmissionManager * (Z * Z * Z) :=
  let s := a.(am_state) in
  let s' := pruned_state cutoff s in
  let deletedRecords := Z.of_nat (size s.(as_Records)) - Z.of_nat (size s'.(as_Records)) in
  let deletedRejected := Z.of_nat (size s.(as_Rejected)) - Z.of_nat (size s'.(as_Rejected)) in
  let deletedTimePoints := dropped_points cutoff s in
  let a := a <| am_state := s' |> in
  (if (0 <? deletedRecords) || (0 <? deletedRejected) || (0 <? deletedTimePoints) then persistLocked saved a else a,
   (deletedRecords, deletedRejected, deletedTimePoints)).

(** ** Executions *)

Inductive admission_op :=
  | OpAdmit (hello : Hello) (pinned : bool) (connected : Z)
  | OpCheckAdmit (hello : Hello) (pinned : bool) (connected : Z)
  | OpReserve (hello : Hello) (pinned : bool) (connected : Z)
  | OpCommit (hello : Hello) (pinned : bool)
  | OpReleasePending
  | OpCheckQuota (provider : Provider)
  | OpTryReserve (provider : Provider)
  | OpRefund (provider : Provider)
  | OpPromote (providerID : string)
  | OpReject (providerID reason : string)
  | OpUnreject (providerID : string)
  | OpPrune (cutoff : Z)
  | OpRestart.

(** The manager, and the requests it has granted and taken back: provider and time. *)
Record Books := mkBooks { lg_manager : AdmissionManager; lg_grants : list (string * Z); lg_refunds : list (string * Z) }.

Definition provisional (p : Provider) : bool := String.eqb p.(p_Tier) TierProvisional.

Definition with_manager (l : Books) (a : AdmissionManager) : Books := mkBooks a l.(lg_grants) l.(lg_refunds).

(** An operation at time [now]; [saved] is whether its write to the store succeeds, and for
    a restart, whether the store can be read. *)
Definition admission_step (l : Books) (step : Z * bool * admission_op) : Books :=
  let '(now, saved, op) := step in
  let a := l.(lg_manager) in
  match op with
  | OpAdmit hello pinned connected => with_manager l (Admit hello pinned connected now saved a).1
  | OpCheckAdmit hello pinned connected => with_manager l (CheckAdmit hello pinned connected now a).1
  | OpReserve hello pinned connected => with_manager l (ReserveAdmission hello pinned connected now a).1
  | OpCommit hello pinned => with_manager l (CommitReservedAdmission hello pinned now saved a).1
  | OpReleasePending => with_manager l (ReleasePendingProvisional a)
  | OpCheckQuota provider => with_manager l (CheckQuota provider now a).1
  | OpTryReserve provider =>
      let '(a, granted) := TryReserveRequest provider now saved a in
      mkBooks a (l.(lg_grants) ++ if granted && provisional provider then [(provider.(p_ProviderID), now)] else []) l.(lg_refunds)
  | OpRefund provider =>
      mkBooks (RefundRequest provider saved a) l.(lg_grants) (l.(lg_refunds) ++ if provisional provider then [(provider.(p_ProviderID), now)] else [])
  | OpPromote id => with_manager l (Promote id now saved a).1
  | OpReject id reason => with_manager l (Reject id reason saved a)
  | OpUnreject id => with_manager l (Unreject id saved a).1
  | OpPrune cutoff => with_manager l (Prune cutoff saved a).1
  | OpRestart => with_manager l (SetPersistence a.(am_saved) saved (NewAdmissionManager a.(am_cfg)))
  end.

Definition admission_run (cfg : AdmissionConfig) (steps : list (Z * bool * admission_op)) : Books :=
  fold_left admission_step steps (mkBooks (NewAdmissionManager cfg) [] []).

(** ** The hourly quota *)

(** Events of a provider after [c], and within the hour that ends at [t]. *)
Definition after (id : string) (c : Z) (e : string * Z) : bool := String.eqb e.1 id && (c <? e.2).
Definition in_hour (id : string) (t : Z) (e : string * Z) : bool := String.eqb e.1 id && (t - Hour <? e.2) && (e.2 <=? t).

(** The windows know the grants of the last hour, but for those a refund has dropped; the
    times are past, and a record was seen no earlier than its last request. *)
Record windows_ok (s : AdmissionState) (grants refunds : list (string * Z)) (now : Z) : Prop := mkWindowsOk {
  wo_count : forall id c, now - Hour <= c ->
    count (after id c) grants <= count (fun t => c <? t) (window_of s id) + count (after id c) refunds;
  wo_past : forall id t, t ∈ window_of s id -> t <= now;
  wo_seen : forall id rec t, s.(as_Records) !! id = Some rec -> t ∈ window_of s id -> t <= rec.(pr_LastSeenAt);
}.

Lemma windows_later s grants refunds now now' : now <= now' -> windows_ok s grants refunds now -> windows_ok s grants refunds now'.
Proof.
  intros H [H1 H2 H3]. split; [intros id c Hc; apply H1; lia| |done]. intros id t Ht. apply H2 in Ht. lia.
Qed.

(** *** Windows *)

Lemma keep_after_elem l cutoff t : t ∈ keepAfter l cutoff -> t ∈ l.
Proof. induction l as [|x l IH]; simpl; [done|]. case_match; [done|]. intros Ht. right. auto. Qed.

Lemma keep_after_count l cutoff c : cutoff <= c -> count (fun t => c <? t) (keepAfter l cutoff) = count (fun t => c <? t) l.
Proof.
  intros H. induction l as [|x l IH]; simpl; [done|]. destruct (cutoff <? x) eqn:E; [done|]. rewrite IH, count_cons.
  destruct (c <? x) eqn:E2; lia.
Qed.

Lemma window_set s id window id' : window_of (set_window id window s) id' = if decide (id' = id) then window else window_of s id'.
Proof. unfold window_of, set_window. simpl. case_decide as E; [subst; by rewrite lookup_insert_eq|by rewrite lookup_insert_ne]. Qed.

Lemma windows_same s s' grants refunds now :
  s'.(as_RequestWindows) = s.(as_RequestWindows) ->
  (forall id rec', s'.(as_Records) !! id = Some rec' ->
     now <= rec'.(pr_LastSeenAt) \/ exists rec, s.(as_Records) !! id = Some rec /\ rec.(pr_LastSeenAt) <= rec'.(pr_LastSeenAt)) ->
  windows_ok s grants refunds now -> windows_ok s' grants refunds now.
Proof.
  intros Ew Hr [H1 H2 H3]. assert (forall id, window_of s' id = window_of s id) as E by (intros id; unfold window_of; by rewrite Ew). split.
  - intros id c. rewrite E. apply H1.
  - intros id t. rewrite E. apply H2.
  - intros id rec' t Hrec. rewrite E. intros Ht. destruct (Hr id rec' Hrec) as [Hn|(rec & Hs & Hle)]; [apply H2 in Ht; lia|].
    specialize (H3 id rec t Hs Ht). lia.
Qed.

(** A window shortened at an hour ago, or the grant it then takes. *)
Lemma windows_keep s grants refunds now id : windows_ok s grants refunds now ->
  windows_ok (set_window id (keepAfter (window_of s id) (now - Hour)) s) grants refunds now.
Proof.
  intros [H1 H2 H3]. split.
  - intros id' c Hc. rewrite window_set. case_decide as E; [|by apply H1]. subst id'. rewrite keep_after_count by lia. by apply H1.
  - intros id' t. rewrite window_set. case_decide as E; [intros Ht%keep_after_elem|]; eauto.
  - intros id' rec t Hr. rewrite window_set. case_decide as E; [intros Ht%keep_after_elem; subst|]; by eauto.
Qed.

Lemma windows_grant s grants refunds now id : windows_ok s grants refunds now -> s.(as_Records) !! id = None \/
    (exists rec, s.(as_Records) !! id = Some rec /\ rec.(pr_LastSeenAt) = now) ->
  windows_ok (set_window id (window_of s id ++ [now]) s) (grants ++ [(id, now)]) refunds now.
Proof.
  intros [H1 H2 H3] Hrec. split.
  - intros id' c Hc. rewrite count_snoc, window_set. unfold after at 2. simpl. case_decide as E.
    + subst id'. rewrite count_snoc, String.eqb_refl. specialize (H1 id c Hc). simpl. lia.
    + destruct (String.eqb id id') eqn:E2; [apply String.eqb_eq in E2; congruence|]. simpl. specialize (H1 id' c Hc). lia.
  - intros id' t. rewrite window_set. case_decide as E; [|by apply H2]. subst. intros [Ht|Ht%list_elem_of_singleton]%elem_of_app; [by apply H2 in Ht|lia].
  - intros id' rec t Hr. rewrite window_set. change (as_Records s !! id' = Some rec) in Hr. case_decide as E; [|by apply H3]. subst id'.
    destruct Hrec as [Hn|(rec0 & Hs & Hl)]; [congruence|]. assert (rec0 = rec) as -> by congruence.
    intros [Ht|Ht%list_elem_of_singleton]%elem_of_app; [apply H2 in Ht; lia|lia].
Qed.

Lemma windows_refund s s' grants refunds now id :
  (forall id', window_of s' id' = if decide (id' = id) then removelast (window_of s id) else window_of s id') ->
  (forall id' rec', s'.(as_Records) !! id' = Some rec' ->
     exists rec, s.(as_Records) !! id' = Some rec /\ rec.(pr_LastSeenAt) = rec'.(pr_LastSeenAt)) ->
  windows_ok s grants refunds now -> windows_ok s' grants (refunds ++ [(id, now)]) now.
Proof.
  intros Ew Er [H1 H2 H3].
  assert (forall id' t, t ∈ window_of s' id' -> t ∈ window_of s id') as Hsub.
  { intros id' t. rewrite Ew. case_decide as E; [subst|done]. destruct (window_of s id) as [|x l] eqn:El; [done|].
    rewrite (app_removelast_last x (l := x :: l)) at 2 by done. intros Ht. apply elem_of_app. by left. }
  split.
  - intros id' c Hc. rewrite count_snoc, Ew. unfold after at 3. simpl. specialize (H1 id' c Hc). case_decide as E.
    + subst id'. rewrite String.eqb_refl. simpl. destruct (window_of s id) as [|x l] eqn:El; [simpl in *; case_match; lia|].
      assert (exists z, x :: l = removelast (x :: l) ++ [z]) as [z Ez] by (eexists; by apply (app_removelast_last x)).
      assert (z <= now) as Hl. { apply (H2 id). rewrite El, Ez. apply elem_of_app. right. left. }
      rewrite Ez, count_snoc in H1. destruct (c <? z) eqn:E1, (c <? now) eqn:E2; lia.
    + case_match; lia.
  - intros id' t Ht%Hsub. by apply (H2 id').
  - intros id' rec' t Hr Ht%Hsub. destruct (Er id' rec' Hr) as (rec & Hs & <-). by apply (H3 id').
Qed.

Lemma prune_window_of cutoff s id :
  window_of (pruned_state cutoff s) id
  = if match s.(as_Records) !! id with Some rec => stale cutoff rec | None => false end then [] else keepAfter (window_of s id) cutoff.
Proof.
  unfold window_of, pruned_state, prune_windows. simpl. rewrite map_lookup_imap.
  destruct (as_RequestWindows s !! id) as [window|]; simpl; [|by case_match].
  destruct (match as_Records s !! id with Some rec => stale cutoff rec | None => false end); [done|]. by destruct (keepAfter window cutoff).
Qed.

Lemma windows_prune s grants refunds now cutoff : cutoff <= now - Hour ->
  windows_ok s grants refunds now -> windows_ok (pruned_state cutoff s) grants refunds now.
Proof.
  intros Hcut [H1 H2 H3].
  assert (forall id t, t ∈ window_of (pruned_state cutoff s) id -> t ∈ window_of s id) as Hsub.
  { intros id t. rewrite prune_window_of. case_match; [by intros ?%elem_of_nil|apply keep_after_elem]. }
  split.
  - intros id c Hc. specialize (H1 id c Hc). rewrite prune_window_of. case_match eqn:E; [|by rewrite keep_after_count by lia].
    destruct (as_Records s !! id) as [rec|] eqn:Er; [|done]. unfold stale in E.
    assert (count (fun t => c <? t) (window_of s id) = 0) as E0; [|change (count (fun t => c <? t) []) with 0; lia].
    assert (forall t, t ∈ window_of s id -> (c <? t) = false) as Hz by (intros t Ht; specialize (H3 id rec t Er Ht); lia).
    clear -Hz. induction (window_of s id) as [|x l IH]; [done|]. rewrite count_cons, IH, Hz; [done|left|]. intros t Ht. apply Hz. by right.
  - intros id t Ht%Hsub. by apply (H2 id).
  - intros id rec t Hr Ht%Hsub. unfold pruned_state in Hr. simpl in Hr. apply map_lookup_filter_Some in Hr as [Hr _]. by apply (H3 id).
Qed.

(** *** Steps *)

(** The windows of the manager and of the store are right, and in no hour have more
    requests been granted than the quota and the refunds of that hour. *)
Record quota_ok (l : Books) (now : Z) : Prop := mkQuotaOk {
  qo_state : windows_ok l.(lg_manager).(am_state) l.(lg_grants) l.(lg_refunds) now;
  qo_saved : windows_ok l.(lg_manager).(am_saved) l.(lg_grants) l.(lg_refunds) now;
  qo_past : Forall (fun e => e.2 <= now) (l.(lg_grants) ++ l.(lg_refunds));
  qo_hour : forall id t, count (in_hour id t) l.(lg_grants)
    <= Z.max 0 l.(lg_manager).(am_cfg).(ac_ProvisionalQuotaPerHour) + count (in_hour id t) l.(lg_refunds);
}.

Lemma quota_later l now now' : now <= now' -> quota_ok l now -> quota_ok l now'.
Proof.
  intros H [H1 H2 H3 H4]. split; [by eapply windows_later|by eapply windows_later| |done]. eapply Forall_impl; [exact H3|]. simpl. lia.
Qed.

(** A step that grants and refunds nothing keeps the quota, if it keeps the windows. *)
Lemma quota_frame l a now : quota_ok l now -> a.(am_cfg) = l.(lg_manager).(am_cfg) ->
  windows_ok a.(am_state) l.(lg_grants) l.(lg_refunds) now -> windows_ok a.(am_saved) l.(lg_grants) l.(lg_refunds) now ->
  quota_ok (with_manager l a) now.
Proof. intros [H1 H2 H3 H4] Ec Hs Hv. split; try done. simpl. by rewrite Ec. Qed.

Lemma count_mono {A} (p q : A -> bool) l : (forall x, x ∈ l -> p x = true -> q x = true) -> count p l <= count q l.
Proof.
  induction l as [|x l IH]; intros H; [done|]. rewrite !count_cons. specialize (IH (fun y Hy => H y (list_elem_of_further _ _ _ Hy))).
  specialize (H x ltac:(left)). destruct (p x); [rewrite H by done; lia|]. destruct (q x); lia.
Qed.

Lemma persist_quota l f now : quota_ok l now ->
  windows_ok (f l.(lg_manager).(am_state)) l.(lg_grants) l.(lg_refunds) now ->
  quota_ok (with_manager l (persistLocked true (on_state f l.(lg_manager)))) now.
Proof. intros H Hw. by apply quota_frame. Qed.

Lemma record_quota l hello now : quota_ok l now -> quota_ok (with_manager l (recordAdmissionLocked hello now true l.(lg_manager))) now.
Proof.
  intros H. unfold recordAdmissionLocked.
  assert (forall rec admissions, quota_ok (with_manager l (persistLocked true (on_state (fun s => s <| as_Admissions := admissions |>
    <| as_Records := <[hl_ProviderID hello := rec <| pr_LastSeenAt := now |> <| pr_Hostname := hl_Hostname hello |> <| pr_ModelID := hl_ModelID hello |>
      <| pr_BinaryVersion := hl_BinaryVersion hello |>]> s.(as_Records) |>) (lg_manager l)))) now) as Hrec.
  { intros rec admissions. apply persist_quota; [done|]. destruct H as [Hs _ _ _]. apply (windows_same (am_state (lg_manager l))); [done| |exact Hs].
    intros id rec'. simpl. intros [[<- <-]|[_ Hr]]%lookup_insert_Some; [left; simpl; lia|right; by exists rec']. }
  destruct (as_Records _ !! _) as [rec|]; apply Hrec.
Qed.

Lemma evaluate_quota l hello connected record now : quota_ok l now ->
  quota_ok (with_manager l (evaluateAdmissionLocked hello connected record now true l.(lg_manager)).1) now.
Proof.
  intros H. unfold evaluateAdmissionLocked. case_bool_decide; [by destruct l|]. destruct (ac_PinnedOnly _); [by destruct l|].
  set (a := on_state _ (lg_manager l)). assert (quota_ok (with_manager l a) now) as Ha.
  { apply quota_frame; [done..| |apply H]. destruct H as [Hs _ _ _]. apply (windows_same (am_state (lg_manager l))); [done| |exact Hs]. intros id rec' Hr. right. by exists rec'. }
  destruct (_ <=? _); [exact Ha|]. destruct (_ && _); [exact Ha|]. destruct (negb record); [exact Ha|]. cbn [fst].
  set (a' := a <| am_pending := _ |>). assert (quota_ok (with_manager l a') now) as Ha' by (by destruct Ha). exact (record_quota _ hello now Ha').
Qed.

Lemma reserve_quota l provider now : quota_ok l now -> quota_ok (admission_step l (now, true, OpTryReserve provider)) now.
Proof.
  intros H. cbn [admission_step]. unfold TryReserveRequest, provisional. destruct (String.eqb (p_Tier provider) TierProvisional); cbn [negb andb].
  2:{ rewrite app_nil_r. by destruct l. }
  set (id := p_ProviderID provider). set (a := lg_manager l). set (window := keepAfter (window_of (am_state a) id) (now - Hour)).
  destruct (_ <=? _) eqn:Eq.
  { rewrite app_nil_r. change (quota_ok (with_manager l (on_state (set_window id window) a)) now).
    apply quota_frame; [done..|by apply windows_keep, H|apply H]. }
  cbn [andb]. set (s1 := set_window id window (am_state a)).
  set (g := fun rec : ProvisionalRecord => rec <| pr_TotalRequestsServed := Int64.add rec.(pr_TotalRequestsServed) 1 |> <| pr_LastSeenAt := now |>).
  set (s2 := update_record id g s1).
  assert (windows_ok s1 (lg_grants l) (lg_refunds l) now) as W1 by (by apply windows_keep, H).
  assert (windows_ok s2 (lg_grants l) (lg_refunds l) now) as W2.
  { apply (windows_same s1); [done| |exact W1]. intros id' rec' Hr. simpl in Hr. destruct (decide (id' = id)) as [->|Hn].
    - rewrite lookup_alter_eq in Hr. apply fmap_Some in Hr as (rec & _ & ->). left. simpl. lia.
    - rewrite lookup_alter_ne in Hr by done. right. by exists rec'. }
  assert (window_of s2 id = window) as Ew by (change (window_of s1 id = window); unfold s1; rewrite window_set; by rewrite decide_True).
  assert (windows_ok (update_record id g (set_window id (window ++ [now]) (am_state a))) (lg_grants l ++ [(id, now)]) (lg_refunds l) now) as W3.
  { replace (update_record id g (set_window id (window ++ [now]) (am_state a))) with (set_window id (window_of s2 id ++ [now]) s2).
    2:{ rewrite Ew. unfold s2, s1, update_record, set_window. simpl. by rewrite insert_insert_eq. }
    apply windows_grant; [done|]. simpl. rewrite lookup_alter_eq. destruct (as_Records (am_state a) !! id) as [rec|]; [right|by left]. simpl. eauto. }
  assert (Forall (fun e => e.2 <= now) (lg_grants l ++ lg_refunds l)) as [Pg Pr]%Forall_app by apply H.
  split; [exact W3|exact W3|..]; cbn [lg_manager lg_grants lg_refunds].
  - rewrite !Forall_app. split_and!; [done|by repeat constructor|done].
  - intros id' t. rewrite count_snoc. pose proof (qo_hour l now H id' t) as Hh. fold a in Hh. unfold in_hour at 2.
    match goal with |- context [am_cfg ?x] => change (am_cfg x) with (am_cfg a) end. cbn [fst snd].
    destruct (String.eqb id id' && (t - Hour <? now) && (now <=? t)) eqn:Ein; [|lia].
    rewrite !andb_true_iff in Ein. destruct Ein as [[Ei%String.eqb_eq E1] E2]. subst id'.
    pose proof (wo_count _ _ _ _ W2 id (t - Hour) ltac:(lia)) as Hc. rewrite Ew in Hc.
    pose proof (count_le_length (fun x => t - Hour <? x) window) as Hw.
    assert (count (in_hour id t) (lg_grants l) <= count (after id (t - Hour)) (lg_grants l)).
    { apply count_mono. intros x _. unfold in_hour, after. rewrite !andb_true_iff. tauto. }
    assert (count (after id (t - Hour)) (lg_refunds l) <= count (in_hour id t) (lg_refunds l)).
    { apply count_mono. intros x Hx. unfold in_hour, after. rewrite !andb_true_iff. intros [? ?]. split_and!; [done..|].
      rewrite Forall_forall in Pr. specialize (Pr x Hx). lia. }
    lia.
Qed.

Lemma refund_quota l provider now : quota_ok l now -> quota_ok (admission_step l (now, true, OpRefund provider)) now.
Proof.
  intros H. cbn [admission_step]. unfold RefundRequest, provisional. destruct (String.eqb (p_Tier provider) TierProvisional); cbn [negb].
  2:{ rewrite app_nil_r. by destruct l. }
  set (id := p_ProviderID provider). set (a := lg_manager l).
  set (a1 := if 0 <? _ then _ else a). set (f := update_record id _).
  assert (am_cfg a1 = am_cfg a) as Ec by (unfold a1; by case_match).
  assert (windows_ok (f (am_state a1)) (lg_grants l) (lg_refunds l ++ [(id, now)]) now) as W.
  { apply (windows_refund (am_state a)); [| |apply H].
    - intros id'. change (window_of (am_state a1) id' = if decide (id' = id) then removelast (window_of (am_state a) id) else window_of (am_state a) id').
      unfold a1. destruct (window_of (am_state a) id) as [|x w] eqn:Ew; [by case_decide; subst|]. simpl length.
      rewrite (proj2 (Z.ltb_lt 0 (Z.of_nat (S (length w))))) by lia. simpl am_state. by rewrite window_set.
    - intros id' rec' Hr. assert (as_Records (am_state a1) = as_Records (am_state a)) as Er by (unfold a1; by case_match).
      unfold f, update_record in Hr. simpl in Hr. rewrite Er in Hr. destruct (decide (id' = id)) as [->|Hn].
      + rewrite lookup_alter_eq in Hr. apply fmap_Some in Hr as (rec & Hs & ->). exists rec. split; [done|]. by case_match.
      + rewrite lookup_alter_ne in Hr by done. by exists rec'. }
  destruct H as [_ _ H3 H4]. split.
  - exact W.
  - exact W.
  - simpl. rewrite app_assoc. apply Forall_app. split; [done|by repeat constructor].
  - intros id' t. cbn [lg_manager lg_grants lg_refunds]. rewrite count_snoc. specialize (H4 id' t). change (am_cfg (persistLocked true (on_state f a1))) with (am_cfg a1). rewrite Ec.
    fold a in H4. case_match; lia.
Qed.

(** An operation is regular: the clock does not go back, the write succeeds, for a restart
    the read, and a retention cutoff is at least an hour old. *)
Definition regular (before : Z) (step : Z * bool * admission_op) : Prop :=
  let '(now, saved, op) := step in
  before <= now /\ saved = true /\ match op with OpPrune cutoff => cutoff <= now - Hour | _ => True end.

Lemma nonempty_or_empty {V} (part : gmap string V) : nonempty_or part ∅ = part.
Proof.
  unfold nonempty_or. destruct (0 <? Z.of_nat (size part)) eqn:E; [done|].
  symmetry. apply map_size_empty_iff. lia.
Qed.

(** A restart that reads the store has the state saved last. *)
Lemma restart_loads cfg row : SetPersistence row true (NewAdmissionManager cfg) = mkManager cfg row 0 row.
Proof.
  destruct row as [[|x l] rec rej win]; unfold SetPersistence; simpl; by rewrite !nonempty_or_empty.
Qed.

Lemma step_quota l before step : quota_ok l before -> regular before step -> quota_ok (admission_step l step) step.1.1.
Proof.
  destruct step as [[now saved] op]. intros H (Hle & -> & Hop). cbn [fst]. apply (quota_later _ _ now Hle) in H. clear Hle before.
  destruct op as [hello pinned c|hello pinned c|hello pinned c|hello pinned| |p|p|p|id|id reason|id|cutoff|]; cbn [admission_step].
  - unfold Admit. destruct pinned; [by destruct l|by apply evaluate_quota].
  - unfold CheckAdmit. destruct pinned; [by destruct l|]. by apply (evaluate_quota l hello c false now) in H.
  - unfold ReserveAdmission. destruct pinned; [by destruct l|]. pose proof (evaluate_quota l hello c false now H) as He.
    change (evaluateAdmissionLocked hello c false now true (lg_manager l)) with (evaluateAdmissionLocked hello c false now false (lg_manager l)) in He.
    destruct (evaluateAdmissionLocked _ _ _ _ _ _) as [a [[tier code] reason]]. cbn [fst] in *. case_match; [by destruct He|exact He].
  - unfold CommitReservedAdmission. destruct pinned; [by destruct l|by apply record_quota].
  - unfold ReleasePendingProvisional. case_match; by destruct l, H.
  - unfold CheckQuota. case_match; [by destruct l|]. cbn [fst]. apply quota_frame; [done..|by apply windows_keep, H|apply H].
  - by apply reserve_quota.
  - by apply refund_quota.
  - unfold Promote. destruct (as_Records _ !! _); [|by destruct l]. apply persist_quota; [done|].
    apply (windows_same (am_state (lg_manager l))); [done| |apply H]. intros id' rec' Hr. simpl in Hr. right. destruct (decide (id' = id)) as [->|Hn].
    + rewrite lookup_alter_eq in Hr. apply fmap_Some in Hr as (rec & Hs & ->). by exists rec.
    + rewrite lookup_alter_ne in Hr by done. by exists rec'.
  - apply persist_quota; [done|]. apply (windows_same (am_state (lg_manager l))); [done| |apply H]. intros id' rec' Hr. right. by exists rec'.
  - unfold Unreject. destruct (as_Rejected _ !! _); [|by destruct l]. apply persist_quota; [done|].
    apply (windows_same (am_state (lg_manager l))); [done| |apply H]. intros id' rec' Hr. right. by exists rec'.
  - unfold Prune. cbv zeta. cbn [fst]. assert (windows_ok (pruned_state cutoff (am_state (lg_manager l))) (lg_grants l) (lg_refunds l) now) as W
      by (apply windows_prune; [done|apply H]).
    case_match; apply quota_frame; try done. apply H.
  - rewrite restart_loads. apply quota_frame; [done..|apply H|apply H].
Qed.

Fixpoint regular_run (before : Z) (steps : list (Z * bool * admission_op)) : Prop :=
  match steps with
  | [] => True
  | step :: steps => regular before step /\ regular_run step.1.1 steps
  end.

Lemma run_quota steps : forall l before, quota_ok l before -> regular_run before steps ->
  exists now, quota_ok (fold_left admission_step steps l) now.
Proof.
  induction steps as [|step steps IH]; intros l before H Hr; simpl; [by exists before|]. destruct Hr as [H1 H2].
  eapply IH; [|exact H2]. by eapply step_quota.
Qed.

Lemma run_cfg steps : forall l, (fold_left admission_step steps l).(lg_manager).(am_cfg) = l.(lg_manager).(am_cfg).
Proof.
  assert (forall hello now saved a, am_cfg (recordAdmissionLocked hello now saved a) = am_cfg a) as Hrec.
  { intros hello now saved a. unfold recordAdmissionLocked. destruct (as_Records _ !! _); by destruct saved. }
  assert (forall hello c record now saved a, am_cfg (evaluateAdmissionLocked hello c record now saved a).1 = am_cfg a) as He.
  { intros hello c record now saved a. unfold evaluateAdmissionLocked. repeat (case_match; [done|]). cbn [fst]. by rewrite Hrec. }
  induction steps as [|[[now saved] op] steps IH]; intros l; [done|]. cbn [fold_left]. rewrite IH. clear IH.
  destruct op; cbn [admission_step].
  - unfold Admit. destruct pinned; [done|]. apply He.
  - unfold CheckAdmit. destruct pinned; [done|]. apply He.
  - unfold ReserveAdmission. destruct pinned; [done|]. specialize (He hello connected false now false (lg_manager l)).
    destruct (evaluateAdmissionLocked _ _ _ _ _ _) as [a [[tier code] reason]]. cbn [fst] in *. by case_match.
  - unfold CommitReservedAdmission. destruct pinned; [done|]. apply Hrec.
  - unfold ReleasePendingProvisional. by case_match.
  - unfold CheckQuota. by case_match.
  - unfold TryReserveRequest. repeat case_match; simplify_eq; try done; by destruct saved.
  - unfold RefundRequest. repeat case_match; try done; by destruct saved.
  - unfold Promote. case_match; [by destruct saved|done].
  - by destruct saved.
  - unfold Unreject. by repeat case_match.
  - unfold Prune. cbv zeta. cbn [fst]. case_match; by destruct saved.
  - by destruct saved.
Qed.

(** ** What admission promises *)

(** Claim C18. A provisional provider serves at most its hourly quota. In every execution,
    through restarts, admissions, rejections and retention, the requests granted to a
    provider in any hour exceed those taken back in that hour by at most the quota,
    provided the clock does not go back, every write to the store and every read of it at a
    restart succeeds, and the retention is an hour or more. *)
Theorem provisional_quota_hourly (cfg : AdmissionConfig) (start : Z) (steps : list (Z * bool * admission_op)) (id : string) (t : Z) :
  regular_run start steps ->
  let l := admission_run cfg steps in
  count (in_hour id t) l.(lg_grants) <= Z.max 0 cfg.(ac_ProvisionalQuotaPerHour) + count (in_hour id t) l.(lg_refunds).
Proof.
  intros Hr l. destruct (run_quota steps (mkBooks (NewAdmissionManager cfg) [] []) start) as [now H]; [|done|].
  { assert (windows_ok empty_state [] [] start) as W.
    { split; [intros; unfold count; simpl; lia|intros ? ? Ht; by apply elem_of_nil in Ht|done]. }
    split; [exact W|exact W|constructor|]. intros id' t'. unfold count. simpl. lia. }
  pose proof (qo_hour _ _ H id t) as Hh. by rewrite run_cfg in Hh.
Qed.

Module AdmissionSample.
Definition box : Provider := (PoolHolds.PoolSample.session "p" "s") <| p_Tier := TierProvisional |>.
Definition minute : Z := Hour / 60.
Definition cfg : AdmissionConfig := mkAdmissionConfig false 1 10 2.
Definition at_ (m : Z) (op : admission_op) : Z * bool * admission_op := (m * minute, true, op).
(** Two requests, a third that is refused, a restart and a prune; an hour later two more. *)
Definition run : list (Z * bool * admission_op) :=
  [at_ 0 (OpTryReserve box); at_ 30 (OpTryReserve box); at_ 40 (OpTryReserve box); at_ 41 OpRestart; at_ 50 (OpTryReserve box);
   at_ 55 (OpPrune (-6 * Hour)); at_ 61 (OpTryReserve box); at_ 62 (OpTryReserve box)].
Definition hello (id : string) : Hello := mkHello id "host" "m" "1.0.0".
End AdmissionSample.

Lemma provisional_quota_hourly_witness :
  let l := admission_run AdmissionSample.cfg AdmissionSample.run in
  map snd l.(lg_grants) = [0; 30 * AdmissionSample.minute; 61 * AdmissionSample.minute]
  /\ count (in_hour "p" (61 * AdmissionSample.minute)) l.(lg_grants) <= 2.
Proof.
  split; [by vm_compute|].
  pose proof (provisional_quota_hourly AdmissionSample.cfg 0 AdmissionSample.run "p" (61 * AdmissionSample.minute)) as H.
  apply H. vm_compute. repeat split; discriminate.
Defined.

(** A refund takes back the last request of the window, not the one that failed: with a
    quota of two, the request of minute 50 is forgotten when that of minute 0 is refunded,
    and two more are granted at minutes 61 and 62, three in that hour that are not
    refunded. *)
Example refund_forgets_a_later_request :
  let b := AdmissionSample.box in
  let l := admission_run (mkAdmissionConfig false 1 10 2)
    [AdmissionSample.at_ 0 (OpTryReserve b); AdmissionSample.at_ 50 (OpTryReserve b); AdmissionSample.at_ 55 (OpRefund b);
     AdmissionSample.at_ 61 (OpTryReserve b); AdmissionSample.at_ 62 (OpTryReserve b)] in
  map snd l.(lg_grants) = map (fun m => m * AdmissionSample.minute) [0; 50; 61; 62].
Proof. vm_compute. reflexivity. Qed.

(** Reservations under way do not count against the hourly rate: with a rate of one, two
    new providers reserve and both are recorded. *)
Example reservations_exceed_hourly_rate :
  let h := AdmissionSample.hello in
  let l := admission_run AdmissionSample.cfg
    [AdmissionSample.at_ 0 (OpReserve (h "p") false 0); AdmissionSample.at_ 0 (OpReserve (h "q") false 0);
     AdmissionSample.at_ 1 (OpCommit (h "p") false); AdmissionSample.at_ 1 (OpCommit (h "q") false)] in
  length l.(lg_manager).(am_state).(as_Admissions) = 2%nat.
Proof. vm_compute. reflexivity. Qed.

(** A rejection of a provider without a record is gone with the next prune. *)
Example prune_lifts_fresh_rejection :
  let l := admission_run AdmissionSample.cfg [AdmissionSample.at_ 0 (OpReject "p" "abuse"); AdmissionSample.at_ 1 (OpPrune (-720 * Hour))] in
  Rejected "p" l.(lg_manager) = false.
Proof. vm_compute. reflexivity. Qed.

(** A restart that cannot read the store goes on with empty windows, and grants the quota of
    the hour again. *)
Example failed_load_grants_the_quota_again :
  let b := AdmissionSample.box in
  let l := admission_run AdmissionSample.cfg
    [AdmissionSample.at_ 0 (OpTryReserve b); AdmissionSample.at_ 1 (OpTryReserve b); AdmissionSample.at_ 2 (OpTryReserve b);
     (3 * AdmissionSample.minute, false, OpRestart);
     AdmissionSample.at_ 4 (OpTryReserve b); AdmissionSample.at_ 5 (OpTryReserve b)] in
  map snd l.(lg_grants) = map (fun m => m * AdmissionSample.minute) [0; 1; 4; 5].
Proof. vm_compute. reflexivity. Qed.
