(* ===== verification/TerminalArbiter.v ===== *)
(** * The per-request terminal arbiter

    Models [phase4-coordinator/internal/buyer/terminal_arbiter.go]: the latch
    for the first buyer-visible status of a request, the log of credited billing
    rows, and the two predicates that report a disagreement between them (a row
    credited while the buyer was told the request failed; a request served
    without a credited row).

    State is [requestTerminal], one per request, plus the process-wide counters
    and the warning log ([Telemetry]). Each method is a function on the pair.
    The receiver is one built by [newRequestTerminal]; on a nil receiver every Go
    method returns at once. The mutex makes the methods atomic, so an execution
    is a sequence of [TerminalOp]s. *)

From S2P Require Import Prelude Formula.

(** [uint64] arithmetic of the sequence number and the counters. *)
Definition u64_add (a b : Z) : Z := (a + b) mod Int64.modulus.

Definition terminalSourceBuyerWrite : string := "buyer_write".
Definition conflictCreditedWhileBuyerFailed : string := "credited_row_while_buyer_terminal_failed".
Definition conflictServedWithoutCredit : string := "served_2xx_without_credited_row".

Record terminalClaim := mkClaim {
  claim_Status : Z;
  claim_Source : string;
  claim_At : Z;
  claim_Seq : Z;
}.

Record billableRowEvent := mkRow {
  row_Status : Z;
  row_AttemptN : Z;
  row_FaultFlag : string;
  row_Seq : Z;
  row_Late : bool;
  row_Conflicted : bool;
}.

Record requestTerminal := mkTerminal {
  t_log : bool; (* a logger is attached *)
  t_requestID : string;
  t_accountID : string;
  t_seq : Z;
  t_buyer : option terminalClaim;
  t_lateBuyer : Z;
  t_dispatched : bool;
  t_rows : list billableRowEvent;
  t_conflicts : Z;
  t_endEvaluated : bool;
}.

(** The structured warnings the arbiter emits. *)
Inductive Warning :=
| buyer_terminal_late (request_id account_id : string)
    (buyer_status late_status late_writes : Z)
| terminal_conflict (request_id account_id reason : string)
    (buyer_status row_status attempt_n : Z) (fault_flag : string) (late : bool)
    (credited_rows : Z).

Record Telemetry := mkTelemetry {
  buyerTerminalConflictTotal : Z;
  buyerTerminalLateTotal : Z;
  warnings : list Warning;
}.

Definition State : Type := requestTerminal * Telemetry.

(** ** Operations *)

Definition newRequestTerminal (log : bool) (requestID accountID : string) : requestTerminal :=
  mkTerminal log requestID accountID 0 None 0 false [] 0 false.

Definition with_buyer (t : requestTerminal) (c : terminalClaim) : requestTerminal :=
  mkTerminal t.(t_log) t.(t_requestID) t.(t_accountID) t.(t_seq) (Some c)
    t.(t_lateBuyer) t.(t_dispatched) t.(t_rows) t.(t_conflicts) t.(t_endEvaluated).
Definition with_rows (t : requestTerminal) (rows : list billableRowEvent) : requestTerminal :=
  mkTerminal t.(t_log) t.(t_requestID) t.(t_accountID) t.(t_seq) t.(t_buyer)
    t.(t_lateBuyer) t.(t_dispatched) rows t.(t_conflicts) t.(t_endEvaluated).
Definition with_conflicts (t : requestTerminal) (n : Z) : requestTerminal :=
  mkTerminal t.(t_log) t.(t_requestID) t.(t_accountID) t.(t_seq) t.(t_buyer)
    t.(t_lateBuyer) t.(t_dispatched) t.(t_rows) n t.(t_endEvaluated).
Definition with_late (t : requestTerminal) (n : Z) : requestTerminal :=
  mkTerminal t.(t_log) t.(t_requestID) t.(t_accountID) t.(t_seq) t.(t_buyer)
    n t.(t_dispatched) t.(t_rows) t.(t_conflicts) t.(t_endEvaluated).
Definition with_end (t : requestTerminal) : requestTerminal :=
  mkTerminal t.(t_log) t.(t_requestID) t.(t_accountID) t.(t_seq) t.(t_buyer)
    t.(t_lateBuyer) t.(t_dispatched) t.(t_rows) t.(t_conflicts) true.

Definition setRequestID (t : requestTerminal) (requestID : string) : requestTerminal :=
  mkTerminal t.(t_log) requestID t.(t_accountID) t.(t_seq) t.(t_buyer)
    t.(t_lateBuyer) t.(t_dispatched) t.(t_rows) t.(t_conflicts) t.(t_endEvaluated).
Definition noteDispatch (t : requestTerminal) : requestTerminal :=
  mkTerminal t.(t_log) t.(t_requestID) t.(t_accountID) t.(t_seq) t.(t_buyer)
    t.(t_lateBuyer) true t.(t_rows) t.(t_conflicts) t.(t_endEvaluated).

(** [nextSeqLocked] increments the sequence number; the new value is [t_seq]
    of the result. *)
Definition nextSeqLocked (t : requestTerminal) : requestTerminal :=
  mkTerminal t.(t_log) t.(t_requestID) t.(t_accountID) (u64_add t.(t_seq) 1) t.(t_buyer)
    t.(t_lateBuyer) t.(t_dispatched) t.(t_rows) t.(t_conflicts) t.(t_endEvaluated).

Definition buyer_status (t : requestTerminal) : Z :=
  match t.(t_buyer) with Some c => c.(claim_Status) | None => 0 end.

(** [warnLocked]: a warning is written when a logger is attached. *)
Definition warnLocked (t : requestTerminal) (w : Warning) (ws : list Warning) : list Warning :=
  if t.(t_log) then ws ++ [w] else ws.

Definition noteLateBuyerWriteLocked (s : State) (code : Z) : State :=
  let '(t, g) := s in
  let t := nextSeqLocked (with_late t (Int64.add t.(t_lateBuyer) 1)) in
  (t, mkTelemetry g.(buyerTerminalConflictTotal) (u64_add g.(buyerTerminalLateTotal) 1)
        (warnLocked t (buyer_terminal_late t.(t_requestID) t.(t_accountID)
           (buyer_status t) code t.(t_lateBuyer)) g.(warnings))).

(** [claimBuyer code] at the time [now]. *)
Definition claimBuyer (s : State) (code now : Z) : State * bool :=
  let '(t, g) := s in
  match t.(t_buyer) with
  | Some _ => (noteLateBuyerWriteLocked s code, false)
  | None =>
      let t := nextSeqLocked t in
      ((with_buyer t (mkClaim code terminalSourceBuyerWrite now t.(t_seq)), g), true)
  end.

Definition rowConflictsLocked (t : requestTerminal) (row : billableRowEvent) : bool :=
  match t.(t_buyer) with
  | None => false
  | Some c =>
      if c.(claim_Status) <? 500 then false
      else if 400 <=? row.(row_Status) then false
      else negb (String.eqb row.(row_FaultFlag) FaultBreakerQualifying)
  end.

Definition recordConflictLocked (s : State) (reason : string) (row : billableRowEvent) : State :=
  let '(t, g) := s in
  let t := with_conflicts t (Int64.add t.(t_conflicts) 1) in
  (t, mkTelemetry (u64_add g.(buyerTerminalConflictTotal) 1) g.(buyerTerminalLateTotal)
        (warnLocked t (terminal_conflict t.(t_requestID) t.(t_accountID) reason
           (buyer_status t) row.(row_Status) row.(row_AttemptN) row.(row_FaultFlag)
           row.(row_Late) (Z.of_nat (length t.(t_rows)))) g.(warnings))).

Definition mark_conflicted (row : billableRowEvent) : billableRowEvent :=
  mkRow row.(row_Status) row.(row_AttemptN) row.(row_FaultFlag) row.(row_Seq) row.(row_Late) true.

Definition noteBillableRow (s : State) (status attemptN : Z) (faultFlag : string) : State :=
  let '(t, g) := s in
  let t := nextSeqLocked t in
  let late := match t.(t_buyer) with Some _ => true | None => false end in
  let row := mkRow status attemptN faultFlag t.(t_seq) late false in
  if (late && rowConflictsLocked t row)%bool then
    let row := mark_conflicted row in
    recordConflictLocked (with_rows t (t.(t_rows) ++ [row]), g)
      conflictCreditedWhileBuyerFailed row
  else (with_rows t (t.(t_rows) ++ [row]), g).

(** The I-1 sweep of [evaluateEndOfRequest]: visits [todo] with [seen] already
    swept; the slice is updated in place, so the rows in force while visiting
    are [seen ++ todo]. *)
Fixpoint sweep (s : State) (seen todo : list billableRowEvent) : State :=
  match todo with
  | [] => (with_rows s.1 seen, s.2)
  | row :: todo =>
      if row.(row_Conflicted) then sweep s (seen ++ [row]) todo
      else if rowConflictsLocked s.1 row then
        let row := mark_conflicted row in
        sweep (recordConflictLocked (with_rows s.1 (seen ++ row :: todo), s.2)
                 conflictCreditedWhileBuyerFailed row) (seen ++ [row]) todo
      else sweep s (seen ++ [row]) todo
  end.

(** A row that pays its provider. *)
Definition paying_row (row : billableRowEvent) : bool :=
  ((row.(row_Status) <? 400)
   && negb (String.eqb row.(row_FaultFlag) FaultBreakerQualifying))%bool.

Definition evaluateEndOfRequest (s : State) (billingEnabled : bool) : State :=
  let '(t, g) := s in
  if t.(t_endEvaluated) then s
  else
    let t := with_end t in
    match t.(t_buyer) with
    | None => (t, g)
    | Some c =>
        let s := sweep (t, g) [] t.(t_rows) in
        if (negb billingEnabled || negb s.1.(t_dispatched))%bool then s
        else if ((c.(claim_Status) <? 200) || (300 <=? c.(claim_Status)))%bool then s
        else if existsb paying_row s.1.(t_rows) then s
        else recordConflictLocked s conflictServedWithoutCredit
               (mkRow 0 (-1) "" 0 false false)
    end.

Definition claimedBuyer (t : requestTerminal) : option terminalClaim := t.(t_buyer).
Definition Conflicts (t : requestTerminal) : Z := t.(t_conflicts).
Definition Rows (t : requestTerminal) : list billableRowEvent := t.(t_rows).
Definition LateBuyerWrites (t : requestTerminal) : Z := t.(t_lateBuyer).

(** ** Executions *)

Inductive TerminalOp :=
| SetRequestID (id : string)
| ClaimBuyer (code now : Z)
| NoteLateBuyerWrite (code : Z)
| NoteDispatch
| NoteBillableRow (status attemptN : Z) (faultFlag : string)
| EvaluateEnd (billingEnabled : bool).

Definition terminal_step (s : State) (op : TerminalOp) : State :=
  match op with
  | SetRequestID id => (setRequestID s.1 id, s.2)
  | ClaimBuyer code now => (claimBuyer s code now).1
  | NoteLateBuyerWrite code => noteLateBuyerWriteLocked s code
  | NoteDispatch => (noteDispatch s.1, s.2)
  | NoteBillableRow st n f => noteBillableRow s st n f
  | EvaluateEnd b => evaluateEndOfRequest s b
  end.

Definition terminal_exec (s : State) (ops : list TerminalOp) : State :=
  fold_left terminal_step ops s.

(** ** What an execution should report

    Functions of the operations alone, without the arbiter's state. *)

(** The status and time of the first buyer write. *)
Fixpoint first_claim (ops : list TerminalOp) : option (Z * Z) :=
  match ops with
  | [] => None
  | ClaimBuyer code now :: _ => Some (code, now)
  | _ :: ops => first_claim ops
  end.

Definition is_claim (op : TerminalOp) : bool :=
  match op with ClaimBuyer _ _ => true | _ => false end.
Definition is_late_note (op : TerminalOp) : bool :=
  match op with NoteLateBuyerWrite _ => true | _ => false end.
Definition is_dispatch (op : TerminalOp) : bool :=
  match op with NoteDispatch => true | _ => false end.
Definition is_end (op : TerminalOp) : bool :=
  match op with EvaluateEnd _ => true | _ => false end.

(** Buyer writes after the first, and explicit late notes. *)
Definition late_writes (ops : list TerminalOp) : Z :=
  count is_late_note ops
  + match first_claim ops with Some _ => count is_claim ops - 1 | None => 0 end.

(** The operation credits a row that pays its provider. *)
Definition is_paying (op : TerminalOp) : bool :=
  match op with
  | NoteBillableRow st _ f => ((st <? 400) && negb (String.eqb f FaultBreakerQualifying))%bool
  | _ => false
  end.

(** The disagreements of a finished request: every paying row when the buyer was
    told [>= 500]; one when a dispatched request answered 2xx has no paying row. *)
Definition expected_conflicts (ops : list TerminalOp) (billingEnabled : bool) : Z :=
  match first_claim ops with
  | None => 0
  | Some (code, _) =>
      (if 500 <=? code then count is_paying ops else 0)
      + (if billingEnabled && existsb is_dispatch ops && (200 <=? code) && (code <? 300)
            && negb (existsb is_paying ops) then 1 else 0)
  end%bool.

(** ** Helper lemmas *)

Lemma wrap_zero : Int64.wrap 0 = 0.
Proof. reflexivity. Qed.

Lemma u64_add_wrap a b c : u64_add (u64_add a b) c = u64_add a (b + c).
Proof. unfold u64_add. rewrite Zplus_mod_idemp_l. f_equal. lia. Qed.

Lemma exec_snoc s ops op : terminal_exec s (ops ++ [op]) = terminal_step (terminal_exec s ops) op.
Proof. unfold terminal_exec. by rewrite fold_left_app. Qed.

Lemma first_claim_app ops1 ops2 :
  first_claim (ops1 ++ ops2)
  = match first_claim ops1 with Some c => Some c | None => first_claim ops2 end.
Proof. induction ops1 as [|[] ops1 IH]; simpl; auto. Qed.

Lemma first_claim_None ops : first_claim ops = None <-> count is_claim ops = 0.
Proof.
  induction ops as [|op ops IH]; [done|]. rewrite count_cons.
  pose proof (count_nonneg is_claim ops). destruct op; simpl; rewrite ?IH; split; (done || lia).
Qed.

(** Conflicts are the paying rows under a failed terminal. *)
Lemma rowConflicts_paying t row :
  rowConflictsLocked t row
  = match t.(t_buyer) with
    | Some c => ((500 <=? c.(claim_Status)) && paying_row row)%bool
    | None => false
    end.
Proof.
  unfold rowConflictsLocked, paying_row. destruct (t_buyer t) as [c|]; [|done].
  destruct (String.eqb _ _); split_ifs; simpl; lia || (rewrite ?andb_false_r; done) || idtac.
Qed.

(** The part of the state that recording conflicts and sweeping rows leave alone. *)
Definition frame (t : requestTerminal) : requestTerminal := with_conflicts (with_rows t []) 0.

Lemma frame_buyer t t' : frame t = frame t' -> t.(t_buyer) = t'.(t_buyer).
Proof. intros H. by apply (f_equal t_buyer) in H. Qed.

Definition newly_conflicting (t : requestTerminal) (row : billableRowEvent) : bool :=
  (negb row.(row_Conflicted) && rowConflictsLocked t row)%bool.
Definition swept (t : requestTerminal) (row : billableRowEvent) : billableRowEvent :=
  if newly_conflicting t row then mark_conflicted row else row.

Lemma rowConflicts_frame t t' row :
  t.(t_buyer) = t'.(t_buyer) -> rowConflictsLocked t row = rowConflictsLocked t' row.
Proof. unfold rowConflictsLocked. by intros ->. Qed.

Lemma swept_frame t t' l : t.(t_buyer) = t'.(t_buyer) -> map (swept t) l = map (swept t') l.
Proof.
  intros H. apply map_ext. intros r. unfold swept, newly_conflicting.
  by rewrite (rowConflicts_frame t t' r H).
Qed.

Lemma newly_frame t t' l :
  t.(t_buyer) = t'.(t_buyer) -> count (newly_conflicting t) l = count (newly_conflicting t') l.
Proof.
  intros H. unfold count. do 2 f_equal. apply List.filter_ext. intros r.
  unfold newly_conflicting. by rewrite (rowConflicts_frame t t' r H).
Qed.

(** [total] counts [n] events on top of [base], modulo 2^64. *)
Definition counted (total base n : Z) : Prop := total mod Int64.modulus = (base + n) mod Int64.modulus.

Lemma counted_incr total base n :
  counted total base n -> counted (u64_add total 1) base (n + 1).
Proof.
  unfold counted, u64_add. intros H. rewrite Zmod_mod, Z.add_mod, H, <- Z.add_mod by done.
  f_equal. lia.
Qed.

Lemma counted_ext total base n n' : counted total base n -> n = n' -> counted total base n'.
Proof. by intros ? ->. Qed.

Lemma sweep_cons s seen row todo :
  sweep s seen (row :: todo)
  = sweep (if newly_conflicting s.1 row
           then recordConflictLocked (with_rows s.1 (seen ++ mark_conflicted row :: todo), s.2)
                  conflictCreditedWhileBuyerFailed (mark_conflicted row)
           else s) (seen ++ [swept s.1 row]) todo.
Proof.
  unfold swept, newly_conflicting. simpl.
  by destruct (row_Conflicted row), (rowConflictsLocked s.1 row).
Qed.

(** What the sweep does to the rows and the counters. *)
Lemma sweep_spec s seen todo k base :
  s.1.(t_conflicts) = Int64.wrap k ->
  counted s.2.(buyerTerminalConflictTotal) base k ->
  let s' := sweep s seen todo in
  let k' := k + count (newly_conflicting s.1) todo in
  s'.1.(t_rows) = seen ++ map (swept s.1) todo /\
  s'.1.(t_conflicts) = Int64.wrap k' /\
  counted s'.2.(buyerTerminalConflictTotal) base k'.
Proof.
  revert s seen k. induction todo as [|row todo IH]; intros s seen k Hk Hg; cbv zeta.
  { simpl. rewrite app_nil_r. unfold count. simpl. rewrite Z.add_0_r. by repeat split. }
  rewrite sweep_cons, count_cons.
  match goal with |- context [sweep ?x _ todo] => set (s1 := x) end.
  set (k1 := k + if newly_conflicting s.1 row then 1 else 0).
  assert (t_buyer s1.1 = t_buyer s.1 /\ s1.1.(t_conflicts) = Int64.wrap k1 /\
    counted s1.2.(buyerTerminalConflictTotal) base k1) as (Hb & Hk1 & Hg1).
  { subst s1 k1. destruct (newly_conflicting _ _); simpl; rewrite ?Z.add_0_r; auto.
    rewrite Hk, Int64.add_wrap_l. auto using counted_incr. }
  destruct (IH s1 (seen ++ [swept s.1 row]) k1 Hk1 Hg1) as (H2 & H3 & H4).
  rewrite (swept_frame s1.1 s.1) in H2 by done. rewrite (newly_frame s1.1 s.1) in H3, H4 by done.
  rewrite <- app_assoc in H2. rewrite Z.add_assoc. auto.
Qed.

Lemma sweep_frame s seen todo :
  frame (sweep s seen todo).1 = frame s.1 /\
  (sweep s seen todo).2.(buyerTerminalLateTotal) = s.2.(buyerTerminalLateTotal).
Proof.
  revert s seen. induction todo as [|r todo IH]; intros s seen; [done|].
  rewrite sweep_cons. destruct (newly_conflicting _ _); [|apply IH].
  destruct (IH (recordConflictLocked (with_rows s.1 (seen ++ mark_conflicted r :: todo), s.2)
    conflictCreditedWhileBuyerFailed (mark_conflicted r)) (seen ++ [swept s.1 r])) as [-> ->].
  done.
Qed.

(** The end evaluation changes only the rows' marks and the conflict counts. *)
Lemma end_frame s b :
  frame (evaluateEndOfRequest s b).1 = frame (with_end s.1) /\
  (evaluateEndOfRequest s b).2.(buyerTerminalLateTotal) = s.2.(buyerTerminalLateTotal).
Proof.
  destruct s as [t g]. unfold evaluateEndOfRequest.
  destruct (t_endEvaluated t) eqn:He; [destruct t; simpl in *; by subst|].
  destruct (t_buyer (with_end t)) as [c|] eqn:Hb; [|done]. cbv zeta.
  pose proof (sweep_frame (with_end t, g) [] (t_rows (with_end t))) as Hs.
  destruct (sweep _ _ _) as [t' g']. simpl in Hs |- *. destruct Hs as [Hf Hl].
  split_ifs; simpl; auto.
Qed.

(** ** The latch *)

Definition latch (t : requestTerminal) : option (Z * Z) :=
  (fun c => (c.(claim_Status), c.(claim_At))) <$> t.(t_buyer).

(** The operation is a buyer write that loses the latch. *)
Definition loses (t : requestTerminal) (op : TerminalOp) : bool :=
  match op with
  | NoteLateBuyerWrite _ => true
  | ClaimBuyer _ _ => match latch t with Some _ => true | None => false end
  | _ => false
  end.

(** One step on the latch and on the late counters. *)
Lemma step_latch s op :
  latch (terminal_step s op).1
  = match latch s.1 with Some c => Some c | None => first_claim [op] end /\
  t_lateBuyer (terminal_step s op).1
  = (if loses s.1 op then Int64.add s.1.(t_lateBuyer) 1 else s.1.(t_lateBuyer)) /\
  buyerTerminalLateTotal (terminal_step s op).2
  = (if loses s.1 op then u64_add s.2.(buyerTerminalLateTotal) 1
     else s.2.(buyerTerminalLateTotal)).
Proof.
  destruct s as [t g]. unfold loses, latch.
  destruct op; cbn [terminal_step].
  6:{ destruct (end_frame (t, g) billingEnabled) as [Hf Hl].
      destruct (evaluateEndOfRequest _ _) as [t' g'].
      apply (f_equal t_buyer) in Hf as Hb. apply (f_equal t_lateBuyer) in Hf.
      cbn in Hf, Hb, Hl |- *. rewrite Hf, Hb, Hl. by destruct (t_buyer t). }
  5:{ unfold noteBillableRow. split_ifs; simpl; by destruct (t_buyer t). }
  all: unfold claimBuyer; destruct (t_buyer t) eqn:E; simpl; rewrite ?E; done.
Qed.

Lemma late_writes_snoc ops op (b : bool) :
  b = match op with
      | NoteLateBuyerWrite _ => true
      | ClaimBuyer _ _ => match first_claim ops with Some _ => true | None => false end
      | _ => false
      end ->
  late_writes (ops ++ [op]) = late_writes ops + if b then 1 else 0.
Proof.
  intros ->. unfold late_writes. rewrite first_claim_app, !count_app, !count_cons.
  pose proof (first_claim_None ops) as Hn.
  destruct op, (first_claim ops) as [[]|]; unfold count at 2 4; simpl;
    try (destruct Hn as [Hn _]; specialize (Hn eq_refl)); lia.
Qed.

Lemma exec_latch s0 ops :
  s0.1.(t_buyer) = None -> s0.1.(t_lateBuyer) = 0 ->
  let s := terminal_exec s0 ops in
  latch s.1 = first_claim ops /\
  t_lateBuyer s.1 = Int64.wrap (late_writes ops) /\
  counted s.2.(buyerTerminalLateTotal) s0.2.(buyerTerminalLateTotal) (late_writes ops).
Proof.
  intros Hb Hl. cbv zeta. induction ops as [|op ops (H1 & H2 & H3)] using rev_ind.
  { unfold latch, counted. simpl. by rewrite Hb, Hl, Z.add_0_r. }
  rewrite exec_snoc, first_claim_app.
  destruct (step_latch (terminal_exec s0 ops) op) as (-> & -> & ->).
  rewrite (late_writes_snoc ops op (loses (terminal_exec s0 ops).1 op))
    by (unfold loses; by rewrite H1).
  rewrite H1, H2. split; [done|].
  destruct (loses _ _); rewrite ?Z.add_0_r, ?Int64.add_wrap_l; auto using counted_incr.
Qed.

(** The buyer terminal is a latch: in every execution the claim in
    force is the first buyer write, whatever happens later; a claim succeeds
    exactly when there was none before; and every other buyer write is counted
    as late, once, on the request and on the process counter. *)
Theorem buyer_terminal_latched (log : bool) (id account : string) (g : Telemetry)
    (ops : list TerminalOp) :
  let s := terminal_exec (newRequestTerminal log id account, g) ops in
  latch s.1 = first_claim ops /\
  (forall code now, (claimBuyer s code now).2 = true <-> first_claim ops = None) /\
  LateBuyerWrites s.1 = Int64.wrap (late_writes ops) /\
  counted s.2.(buyerTerminalLateTotal) g.(buyerTerminalLateTotal) (late_writes ops).
Proof.
  cbv zeta. destruct (exec_latch (newRequestTerminal log id account, g) ops) as (H1 & H2 & H3);
    [done|done|]. split; [done|]. split; [|done].
  intros code now. rewrite <- H1. unfold latch, claimBuyer.
  destruct (terminal_exec _ _) as [t g']. simpl. by destruct (t_buyer t).
Qed.

(** ** The verdict *)

Definition no_end (ops : list TerminalOp) : bool := negb (existsb is_end ops).

(** A row marked as conflicting conflicts with the terminal in force. *)
Definition marks_sound (t : requestTerminal) : Prop :=
  Forall (fun r => row_Conflicted r = true -> rowConflictsLocked t r = true) t.(t_rows).

(** State of a request whose end was not evaluated yet. *)
Record pending (ops : list TerminalOp) (base : Z) (s : State) : Prop := {
  pe_end : s.1.(t_endEvaluated) = false;
  pe_dispatched : s.1.(t_dispatched) = existsb is_dispatch ops;
  pe_paying : count paying_row s.1.(t_rows) = count is_paying ops;
  pe_marks : marks_sound s.1;
  pe_conflicts : s.1.(t_conflicts) = Int64.wrap (count row_Conflicted s.1.(t_rows));
  pe_total : counted s.2.(buyerTerminalConflictTotal) base (count row_Conflicted s.1.(t_rows));
}.

Lemma marks_sound_claim t c :
  t.(t_buyer) = None -> marks_sound t -> marks_sound (with_buyer t c).
Proof.
  unfold marks_sound. intros Hb H. eapply Forall_impl; [exact H|].
  intros r Hr Hc. specialize (Hr Hc). unfold rowConflictsLocked in Hr. by rewrite Hb in Hr.
Qed.

Lemma pending_row ops base s st n f :
  pending ops base s -> pending (ops ++ [NoteBillableRow st n f]) base (noteBillableRow s st n f).
Proof.
  destruct s as [t g]. intros [H1 H2 H3 H4 H5 H6]. simpl in *.
  unfold noteBillableRow.
  destruct (_ && _)%bool eqn:Hc; constructor; simpl;
    rewrite ?existsb_snoc, ?count_snoc, ?H3, ?H5, ?Int64.add_wrap_l; simpl;
    rewrite ?orb_false_r, ?Z.add_0_r; auto using counted_incr.
  - apply Forall_app. split; [done|]. constructor; [|done]. intros _. bool_hyps. done.
  - apply Forall_app. split; [done|]. constructor; [|done]. done.
Qed.

Lemma pending_step ops base s op :
  is_end op = false -> pending ops base s -> pending (ops ++ [op]) base (terminal_step s op).
Proof.
  intros He Hp. destruct op; try done; [| | | |by apply pending_row];
    destruct s as [t g], Hp as [H1 H2 H3 H4 H5 H6]; simpl in *; unfold claimBuyer;
    try destruct (t_buyer t) as [c|] eqn:Hb;
    constructor; simpl; rewrite ?existsb_snoc, ?count_snoc; simpl;
    rewrite ?orb_false_r, ?orb_true_r, ?Z.add_0_r; auto.
  by apply (marks_sound_claim t).
Qed.

Lemma pending_exec log id account g ops :
  no_end ops = true ->
  pending ops g.(buyerTerminalConflictTotal)
    (terminal_exec (newRequestTerminal log id account, g) ops).
Proof.
  unfold no_end. induction ops as [|op ops IH] using rev_ind; intros H.
  { constructor; simpl; try done; [constructor|]. unfold counted. by rewrite Z.add_0_r. }
  rewrite existsb_snoc, negb_orb in H. bool_hyps. rewrite exec_snoc.
  apply pending_step; auto. apply IH. by apply negb_true_iff.
Qed.

Lemma count_split t l :
  Forall (fun r => row_Conflicted r = true -> rowConflictsLocked t r = true) l ->
  count row_Conflicted l + count (newly_conflicting t) l = count (rowConflictsLocked t) l.
Proof.
  induction 1 as [|r l Hr _ IH]; [done|]. rewrite !count_cons, <- IH.
  unfold newly_conflicting at 1.
  destruct (row_Conflicted r); simpl; [rewrite Hr by done; lia|].
  destruct (rowConflictsLocked t r); lia.
Qed.

Lemma count_conflicts t l :
  count (rowConflictsLocked t) l
  = match t.(t_buyer) with
    | Some c => if 500 <=? c.(claim_Status) then count paying_row l else 0
    | None => 0
    end.
Proof.
  induction l as [|r l IH]; [by destruct (t_buyer t); split_ifs|].
  rewrite !count_cons, IH, rowConflicts_paying.
  destruct (t_buyer t) as [c|]; [|done]. destruct (500 <=? _); [|done]. done.
Qed.

Lemma paying_swept t l : count paying_row (map (swept t) l) = count paying_row l.
Proof.
  induction l as [|r l IH]; [done|]. simpl. rewrite !count_cons, IH.
  f_equal. unfold swept. by destruct (newly_conflicting t r).
Qed.

(** The I-2 predicate over the state left by the sweep. *)
Definition served_unpaid (s : State) (c : terminalClaim) (billingEnabled : bool) : bool :=
  (billingEnabled && s.1.(t_dispatched) && (200 <=? c.(claim_Status))
   && (c.(claim_Status) <? 300) && negb (existsb paying_row s.1.(t_rows)))%bool.

Lemma evaluate_end_claimed t g c b :
  t.(t_endEvaluated) = false -> t.(t_buyer) = Some c ->
  evaluateEndOfRequest (t, g) b
  = (let s := sweep (with_end t, g) [] t.(t_rows) in
     if served_unpaid s c b
     then recordConflictLocked s conflictServedWithoutCredit (mkRow 0 (-1) "" 0 false false)
     else s).
Proof.
  intros He Hb. unfold evaluateEndOfRequest, served_unpaid. rewrite He.
  cbn [with_end t_buyer t_rows]. rewrite Hb. cbv zeta.
  set (s := sweep _ _ _). destruct b, (t_dispatched s.1); simpl; try done.
  destruct (existsb paying_row (t_rows s.1)); rewrite ?andb_false_r, ?andb_true_r; simpl;
    split_ifs; bool_hyps; try done; lia.
Qed.

(** Before the end evaluation no unclaimed request has a conflict. *)
Lemma pending_unclaimed ops base s :
  pending ops base s -> s.1.(t_buyer) = None -> count row_Conflicted s.1.(t_rows) = 0.
Proof.
  intros Hp Hb. pose proof (count_split _ _ (pe_marks _ _ _ Hp)) as Hc.
  rewrite count_conflicts, Hb in Hc.
  pose proof (count_nonneg row_Conflicted (t_rows s.1)).
  pose proof (count_nonneg (newly_conflicting s.1) (t_rows s.1)). lia.
Qed.

(** The end evaluation reports exactly the expected disagreements. *)
Lemma end_verdict ops base s b :
  pending ops base s -> latch s.1 = first_claim ops ->
  let s' := evaluateEndOfRequest s b in
  s'.1.(t_conflicts) = Int64.wrap (expected_conflicts ops b) /\
  counted s'.2.(buyerTerminalConflictTotal) base (expected_conflicts ops b).
Proof.
  destruct s as [t g]. intros Hp Hl. pose proof (pending_unclaimed _ _ _ Hp) as Hu.
  destruct Hp as [H1 H2 H3 H4 H5 H6]. unfold expected_conflicts. rewrite <- Hl.
  unfold latch in *. cbn [fst snd] in *. destruct (t_buyer t) as [c|] eqn:Hb; cbv zeta.
  2:{ specialize (Hu eq_refl). rewrite Hu in H5, H6.
      unfold evaluateEndOfRequest. rewrite H1. cbn [with_end t_buyer]. by rewrite Hb. }
  cbn [fmap option_fmap option_map].
  rewrite (evaluate_end_claimed t g c b H1 Hb). cbv zeta.
  destruct (sweep_spec (with_end t, g) [] (t_rows t) _ _ H5 H6) as (Hr & Hc & Ht).
  pose proof (f_equal t_dispatched (proj1 (sweep_frame (with_end t, g) [] (t_rows t)))) as Hd.
  rewrite (newly_frame _ t), count_split, count_conflicts, Hb, H3 in Hc, Ht by done.
  unfold served_unpaid. rewrite count_zero_existsb, Hr.
  destruct (sweep _ _ _) as [t2 g2]. simpl in Hd, Hc, Ht |- *.
  rewrite Hd, H2, paying_swept, H3, <- count_zero_existsb.
  destruct (_ && _)%bool; simpl; rewrite ?Z.add_0_r; [|done].
  rewrite Hc, Int64.add_wrap_l. auto using counted_incr.
Qed.

(** When a request ends, the arbiter reports exactly the
    disagreements of the request: one for each paying row if the buyer was told
    500 or above, and one if a dispatched request answered 2xx while billing was
    on and no row pays. The count is the same on the request and on the process
    counter, and evaluating the end again changes nothing. *)
Theorem terminal_verdict_exact (log : bool) (id account : string) (g : Telemetry)
    (ops : list TerminalOp) (b b' : bool) :
  no_end ops = true ->
  let s := terminal_exec (newRequestTerminal log id account, g) (ops ++ [EvaluateEnd b]) in
  Conflicts s.1 = Int64.wrap (expected_conflicts ops b) /\
  counted s.2.(buyerTerminalConflictTotal) g.(buyerTerminalConflictTotal)
    (expected_conflicts ops b) /\
  terminal_step s (EvaluateEnd b') = s.
Proof.
  intros Hn. cbv zeta. rewrite exec_snoc.
  pose proof (pending_exec log id account g ops Hn) as Hp.
  destruct (exec_latch (newRequestTerminal log id account, g) ops) as (Hl & _); [done|done|].
  destruct (end_verdict _ _ _ b Hp Hl) as [H1 H2]. split; [exact H1|]. split; [exact H2|].
  cbn [terminal_step].
  pose proof (f_equal t_endEvaluated
    (proj1 (end_frame (terminal_exec (newRequestTerminal log id account, g) ops) b))) as He.
  destruct (evaluateEndOfRequest _ b) as [t' g']. cbn in He. unfold evaluateEndOfRequest.
  by rewrite He.
Qed.

(** A failover: a breaker-qualifying row, then a credited row, then a 502. *)
Definition sample_ops : list TerminalOp :=
  [NoteDispatch; NoteBillableRow 502 0 FaultBreakerQualifying;
   NoteBillableRow 200 1 FaultNone; ClaimBuyer 502 7; ClaimBuyer 200 8].

Lemma terminal_verdict_exact_witness :
  no_end sample_ops = true /\ expected_conflicts sample_ops true = 1 /\
  Conflicts (terminal_exec (newRequestTerminal true "r" "a", mkTelemetry 0 0 [])
    (sample_ops ++ [EvaluateEnd true])).1 = Int64.wrap (expected_conflicts sample_ops true).
Proof.
  split; [reflexivity|]. split; [reflexivity|].
  apply (terminal_verdict_exact true "r" "a" (mkTelemetry 0 0 []) sample_ops true true).
  reflexivity.
Defined.

(** The verdict does not depend on the order in which rows were
    credited, dispatches noted and the terminal written: two executions with the
    same operations in any order and the same first buyer write report the same
    number of conflicts, so the bill-before-write and the write-before-bill
    paths are judged alike. *)
Theorem verdict_order_independent (log : bool) (id account : string) (g : Telemetry)
    (ops1 ops2 : list TerminalOp) (b : bool) :
  no_end ops1 = true -> ops1 ≡ₚ ops2 ->
  fst <$> first_claim ops1 = fst <$> first_claim ops2 ->
  Conflicts (terminal_exec (newRequestTerminal log id account, g) (ops1 ++ [EvaluateEnd b])).1
  = Conflicts (terminal_exec (newRequestTerminal log id account, g) (ops2 ++ [EvaluateEnd b])).1.
Proof.
  intros Hn Hp Hf.
  assert (no_end ops2 = true) as Hn2.
  { unfold no_end in *. rewrite count_zero_existsb in *. by rewrite <- Hp. }
  assert (expected_conflicts ops1 b = expected_conflicts ops2 b) as He.
  { unfold expected_conflicts. rewrite !count_zero_existsb.
    rewrite (count_perm is_paying _ _ Hp), (count_perm is_dispatch _ _ Hp).
    destruct (first_claim ops1) as [[]|], (first_claim ops2) as [[]|]; by simplify_eq/=. }
  rewrite !exec_snoc. unfold Conflicts.
  destruct (exec_latch (newRequestTerminal log id account, g) ops1) as (Hl1 & _); [done|done|].
  destruct (exec_latch (newRequestTerminal log id account, g) ops2) as (Hl2 & _); [done|done|].
  destruct (end_verdict _ _ _ b (pending_exec log id account g ops1 Hn) Hl1) as [H1 _].
  destruct (end_verdict _ _ _ b (pending_exec log id account g ops2 Hn2) Hl2) as [H2 _].
  cbn [terminal_step]. by rewrite H1, H2, He.
Qed.

Lemma verdict_order_independent_witness :
  Conflicts (terminal_exec (newRequestTerminal true "r" "a", mkTelemetry 0 0 [])
    ([ClaimBuyer 500 1; NoteBillableRow 200 0 FaultNone] ++ [EvaluateEnd true])).1
  = Conflicts (terminal_exec (newRequestTerminal true "r" "a", mkTelemetry 0 0 [])
    ([NoteBillableRow 200 0 FaultNone; ClaimBuyer 500 1] ++ [EvaluateEnd true])).1.
Proof.
  apply (verdict_order_independent true "r" "a" (mkTelemetry 0 0 [])
    [ClaimBuyer 500 1; NoteBillableRow 200 0 FaultNone]
    [NoteBillableRow 200 0 FaultNone; ClaimBuyer 500 1] true);
    [reflexivity|apply perm_swap|reflexivity].
Defined.

(** ** Ordering evidence *)

Lemma sweep_rows s seen todo :
  t_rows (sweep s seen todo).1 = seen ++ map (swept s.1) todo.
Proof.
  revert s seen. induction todo as [|r todo IH]; intros s seen; [by rewrite app_nil_r|].
  rewrite sweep_cons, IH, <- app_assoc. simpl. do 2 f_equal.
  apply swept_frame. by destruct (newly_conflicting _ _).
Qed.

(** What a row records about the order of events. *)
Definition row_order (r : billableRowEvent) : Z * bool := (r.(row_Seq), r.(row_Late)).

Lemma end_rows s b :
  map row_order (t_rows (evaluateEndOfRequest s b).1) = map row_order (t_rows s.1).
Proof.
  destruct s as [t g]. destruct (t_endEvaluated t) eqn:He.
  { unfold evaluateEndOfRequest. by rewrite He. }
  destruct (t_buyer t) as [c|] eqn:Hb.
  2:{ unfold evaluateEndOfRequest. rewrite He. cbn [with_end t_buyer]. by rewrite Hb. }
  rewrite (evaluate_end_claimed t g c b He Hb). cbv zeta.
  assert (map row_order (t_rows (sweep (with_end t, g) [] (t_rows t)).1)
    = map row_order (t_rows t)) as Hm.
  { rewrite sweep_rows. simpl. rewrite map_map. apply map_ext. intros r.
    unfold swept. by destruct (newly_conflicting _ _). }
  destruct (sweep _ _ _) as [t2 g2]. by destruct (served_unpaid _ _ _).
Qed.

Record ordered (n : Z) (seq : Z) (buyer : option terminalClaim) (rows : list (Z * bool)) : Prop := {
  or_seq : 0 <= seq <= n;
  or_sorted : StronglySorted Z.lt (map fst rows);
  or_rows : Forall (fun r => 0 < r.1 <= seq /\
    match buyer with
    | Some c => r.2 = (c.(claim_Seq) <? r.1) /\ c.(claim_Seq) <> r.1
    | None => r.2 = false
    end) rows;
  or_claim : forall c, buyer = Some c -> 0 < c.(claim_Seq) <= seq;
}.

Definition ordered_state (n : Z) (s : State) : Prop :=
  ordered n s.1.(t_seq) s.1.(t_buyer) (map row_order s.1.(t_rows)).

Lemma ordered_weaken n n' seq seq' buyer rows :
  n <= n' -> seq <= seq' <= n' -> ordered n seq buyer rows -> ordered n' seq' buyer rows.
Proof.
  intros Hn Hs [H1 H2 H3 H4]. constructor; [lia|done| |].
  - eapply Forall_impl; [exact H3|]. intros r [? ?]. split; [lia|done].
  - intros c Hc. specialize (H4 c Hc). lia.
Qed.

Lemma ordered_claim n seq rows c :
  ordered n seq None rows -> c.(claim_Seq) = seq + 1 -> ordered (n + 1) (seq + 1) (Some c) rows.
Proof.
  intros [H1 H2 H3 _] Hc. constructor; [lia|done| |].
  - eapply Forall_impl; [exact H3|]. intros r [? ->]. split; [lia|]. rewrite Hc. lia.
  - intros c' [= <-]. lia.
Qed.

Lemma StronglySorted_snoc (l : list Z) x :
  StronglySorted Z.lt l -> Forall (fun y => y < x) l -> StronglySorted Z.lt (l ++ [x]).
Proof.
  induction 1 as [|y l Hs IH Hy]; intros Hf; simpl; [repeat constructor|].
  inversion_clear Hf. constructor; [by apply IH|]. apply Forall_app. split; [done|].
  by repeat constructor.
Qed.

Lemma ordered_row n seq buyer rows :
  ordered n seq buyer rows ->
  ordered (n + 1) (seq + 1) buyer
    (rows ++ [(seq + 1, match buyer with Some _ => true | None => false end)]).
Proof.
  intros [H1 H2 H3 H4]. constructor; [lia| | |].
  - rewrite map_app. apply StronglySorted_snoc; [done|].
    apply Forall_map. eapply Forall_impl; [exact H3|]. intros r [? _]. simpl. lia.
  - apply Forall_app. split.
    + eapply Forall_impl; [exact H3|]. intros r [? ?]. split; [lia|done].
    + constructor; [|done]. simpl. split; [lia|].
      destruct buyer as [c|]; [|done]. specialize (H4 c eq_refl). lia.
  - intros c Hc. specialize (H4 c Hc). lia.
Qed.

Lemma u64_succ n seq : 0 <= seq <= n -> n + 1 < Int64.modulus -> u64_add seq 1 = seq + 1.
Proof. intros. apply Z.mod_small. lia. Qed.

Lemma ordered_step n s op :
  n + 1 < Int64.modulus -> ordered_state n s -> ordered_state (n + 1) (terminal_step s op).
Proof.
  unfold ordered_state. destruct s as [t g]. intros Hn H. simpl in H.
  pose proof (u64_succ n (t_seq t) (or_seq _ _ _ _ H) Hn) as Hu.
  pose proof (or_seq _ _ _ _ H) as Hs.
  destruct op; cbn [terminal_step].
  - eapply ordered_weaken; [| |exact H]; simpl; lia.
  - unfold claimBuyer. destruct (t_buyer t) as [c|] eqn:Hb; simpl; rewrite Hu.
    + rewrite Hb. eapply ordered_weaken; [| |exact H]; lia.
    + by apply ordered_claim.
  - simpl. rewrite Hu. eapply ordered_weaken; [| |exact H]; lia.
  - eapply ordered_weaken; [| |exact H]; simpl; lia.
  - pose proof (ordered_row _ _ _ _ H) as Hr.
    unfold noteBillableRow. split_ifs; simpl; rewrite map_app, Hu; exact Hr.
  - rewrite end_rows. destruct (end_frame (t, g) billingEnabled) as [Hf _].
    apply (f_equal t_seq) in Hf as Hq. apply (f_equal t_buyer) in Hf.
    destruct (evaluateEndOfRequest _ _) as [t' g']. cbn in Hq, Hf |- *. rewrite Hq, Hf.
    eapply ordered_weaken; [| |exact H]; lia.
Qed.

(** The sequence numbers are ordering evidence: in any execution of
    fewer than 2^64 operations the rows carry strictly increasing numbers, all
    distinct from the number of the buyer terminal, and a row is marked late
    exactly when its number is above the terminal's. *)
Theorem terminal_order_evidence (log : bool) (id account : string) (g : Telemetry)
    (ops : list TerminalOp) :
  Z.of_nat (length ops) < Int64.modulus ->
  let t := (terminal_exec (newRequestTerminal log id account, g) ops).1 in
  StronglySorted Z.lt (map row_Seq (Rows t)) /\
  forall r, r ∈ Rows t ->
    match claimedBuyer t with
    | Some c => row_Late r = (claim_Seq c <? row_Seq r) /\ claim_Seq c <> row_Seq r
    | None => row_Late r = false
    end.
Proof.
  intros Hn. cbv zeta.
  assert (ordered_state (Z.of_nat (length ops))
    (terminal_exec (newRequestTerminal log id account, g) ops)) as [H1 H2 H3 H4].
  { induction ops as [|op ops IH] using rev_ind.
    { by constructor; simpl; try constructor. }
    rewrite exec_snoc. rewrite length_app in *. simpl in *.
    replace (Z.of_nat (length ops + 1)) with (Z.of_nat (length ops) + 1) by lia.
    apply ordered_step; [lia|]. apply IH. lia. }
  unfold Rows, claimedBuyer. split; [by rewrite map_map in H2|].
  intros r Hr. apply Forall_forall with (x := row_order r) in H3;
    [|apply elem_of_map; eauto]. by destruct H3 as [_ ?].
Qed.

Lemma terminal_order_evidence_witness :
  let t := (terminal_exec (newRequestTerminal true "r" "a", mkTelemetry 0 0 []) sample_ops).1 in
  map row_Seq (Rows t) = [1; 2] /\ StronglySorted Z.lt (map row_Seq (Rows t)).
Proof.
  split; [reflexivity|].
  apply (terminal_order_evidence true "r" "a" (mkTelemetry 0 0 []) sample_ops). reflexivity.
Defined.
