(* ===== verification/Sticky.v ===== *)
(** * Sticky affinity

    Models [phase4-coordinator/internal/routing/sticky/sticky.go], the bounded
    TTL + LRU store of conversation affinities, and the guards of its callers in
    [internal/buyer/server.go] ([stickyStore], the guarded lookup of [applySticky],
    [purgeStickyAccount], [hasPinnedRoute]).

    The store is a Go map; the loops that range over it take the visiting order
    as an argument. Clock readings are arguments. Every method holds the mutex,
    so an execution is a sequence of [StickyOp]s. *)

From S2P Require Import Prelude.

Record Entry := mkEntry {
  ConversationKey : string;
  ProviderID : string;
  AccountID : string;
  ModelScope : string;
  CreatedAt : Z;
  LastUsedAt : Z;
}.

Record Map := mkMap {
  entries : gmap string Entry;
  ttl : Z;
  maxEntries : Z;
}.

Record LookupResult := mkLookup {
  res_Entry : option Entry;
  Hit : bool;
  MissReason : string;
}.

Definition NewMap (ttl maxEntries : Z) : Map := mkMap ∅ ttl maxEntries.

Definition with_entries (m : Map) (es : gmap string Entry) : Map :=
  mkMap es m.(ttl) m.(maxEntries).

Definition touch (e : Entry) (now : Z) : Entry :=
  mkEntry e.(ConversationKey) e.(ProviderID) e.(AccountID) e.(ModelScope) e.(CreatedAt) now.

Definition expired (now ttl : Z) (e : Entry) : bool := ttl <? time_sub now e.(LastUsedAt).

Definition Lookup (m : Map) (now : Z) (conversationKey : string) : Map * LookupResult :=
  match m.(entries) !! conversationKey with
  | None => (m, mkLookup None false "not_found")
  | Some entry =>
      if expired now m.(ttl) entry then
        (with_entries m (delete conversationKey m.(entries)), mkLookup None false "expired")
      else
        let entry := touch entry now in
        (with_entries m (<[conversationKey := entry]> m.(entries)), mkLookup (Some entry) true "")
  end.

(** The eviction scan of [Update]: pass 1 deletes expired entries and tracks the
    oldest survivor; [oldestKey] is empty while there is none. *)
Record Scan := mkScan { scan_entries : gmap string Entry; oldestKey : string; oldest : Z }.

Definition scan_visit (now ttl : Z) (s : Scan) (kv : string * Entry) : Scan :=
  if expired now ttl kv.2 then mkScan (delete kv.1 s.(scan_entries)) s.(oldestKey) s.(oldest)
  else if (String.eqb s.(oldestKey) "" || (kv.2.(LastUsedAt) <? s.(oldest)))%bool
  then mkScan s.(scan_entries) kv.1 kv.2.(LastUsedAt)
  else s.

Definition evict_scan (now ttl : Z) (visits : list (string * Entry)) (es : gmap string Entry) : Scan :=
  fold_left (scan_visit now ttl) visits (mkScan es "" 0).

(** Pass 1 and pass 2. *)
Definition evict (now : Z) (m : Map) (visits : list (string * Entry)) : gmap string Entry :=
  let s := evict_scan now m.(ttl) visits m.(entries) in
  if ((m.(maxEntries) <=? Z.of_nat (size s.(scan_entries))) && negb (String.eqb s.(oldestKey) ""))%bool
  then delete s.(oldestKey) s.(scan_entries)
  else s.(scan_entries).

Section Ops.
Variable order : gmap string Entry -> list (string * Entry).

(** [Update] returns the map and the [mismatch] flag. *)
Definition Update (m : Map) (now : Z) (conversationKey accountID providerID modelScope : string)
    : Map * bool :=
  match m.(entries) !! conversationKey with
  | Some existing =>
      if (negb (String.eqb existing.(AccountID) "") && negb (String.eqb accountID "")
          && negb (String.eqb existing.(AccountID) accountID))%bool then (m, true)
      else
        let effectiveAccountID :=
          if (String.eqb accountID "" && negb (String.eqb existing.(AccountID) ""))%bool
          then existing.(AccountID) else accountID in
        (with_entries m
           (<[conversationKey := mkEntry conversationKey providerID effectiveAccountID
                modelScope existing.(CreatedAt) now]> m.(entries)), false)
  | None =>
      let es :=
        if m.(maxEntries) <=? Z.of_nat (size m.(entries))
        then evict now m (order m.(entries)) else m.(entries) in
      (with_entries m
         (<[conversationKey := mkEntry conversationKey providerID accountID modelScope now now]> es),
       false)
  end.

Definition PurgeAccount (m : Map) (accountID : string) : Map * Z :=
  if String.eqb accountID "" then (m, 0)
  else
    let r := delete_loop (fun _ e => String.eqb e.(AccountID) accountID)
               (order m.(entries)) (m.(entries), 0) in
    (with_entries m r.1, r.2).

Definition InvalidateClass (m : Map) (className : string) : Map * Z :=
  let r := delete_loop (fun _ e => GoStr.EqualFold e.(ModelScope) className)
             (order m.(entries)) (m.(entries), 0) in
  (with_entries m r.1, r.2).

Definition Len (m : Map) : Z := Z.of_nat (size m.(entries)).

(** ** The callers' guards *)

(** The headers the sticky path reads, as [http.Header.Get] returns them. *)
Record Headers := mkHeaders {
  h_Provider : string; (* X-MacProvider-Provider *)
  h_Session : string;  (* X-MacProvider-Session *)
  h_Conv : string;     (* X-MacProvider-Internal-Conv *)
  h_Account : string;  (* X-MacProvider-Account *)
}.

Definition hasPinnedRoute (h : Headers) : bool :=
  (negb (String.eqb h.(h_Provider) "") || negb (String.eqb h.(h_Session) ""))%bool.

Definition stickyStore (stickyEnabled : bool) (m : Map) (now : Z) (h : Headers)
    (providerID modelScope : string) : Map * bool :=
  if (negb stickyEnabled || hasPinnedRoute h)%bool then (m, false)
  else
    let key := GoStr.TrimSpace h.(h_Conv) in
    if negb (GoStr.HasPrefix key "conv:") then (m, false)
    else Update m now key h.(h_Account) providerID modelScope.

(** The lookup of [applySticky] with the guards before it; [None] when a guard
    returns first. *)
Definition applySticky_lookup (stickyEnabled haveCandidates : bool) (m : Map) (now : Z)
    (h : Headers) : Map * option LookupResult :=
  if (negb stickyEnabled || hasPinnedRoute h)%bool then (m, None)
  else if negb haveCandidates then (m, None)
  else
    let key := GoStr.TrimSpace h.(h_Conv) in
    if negb (GoStr.HasPrefix key "conv:") then (m, None)
    else let '(m', r) := Lookup m now key in (m', Some r).

Definition purgeStickyAccount (m : Map) (accountID : string) : Map * Z :=
  if String.eqb accountID "" then (m, 0) else PurgeAccount m accountID.

Inductive StickyOp :=
| OpStore (enabled : bool) (now : Z) (h : Headers) (providerID modelScope : string)
| OpLookup (enabled haveCandidates : bool) (now : Z) (h : Headers)
| OpPurge (accountID : string)
| OpInvalidate (className : string).

Definition sticky_step (m : Map) (op : StickyOp) : Map :=
  match op with
  | OpStore en now h p s => (stickyStore en m now h p s).1
  | OpLookup en hc now h => (applySticky_lookup en hc m now h).1
  | OpPurge a => (purgeStickyAccount m a).1
  | OpInvalidate c => (InvalidateClass m c).1
  end.

Definition sticky_exec (m : Map) (ops : list StickyOp) : Map := fold_left sticky_step ops m.
End Ops.

(** ** The eviction scan *)

(** Facts after visiting [l]: the expired among [l] are gone, and the oldest
    survivor of [l] is recorded. *)
Definition survivors (now ttl : Z) (l : list (string * Entry)) : list (string * Entry) :=
  List.filter (fun kv => negb (expired now ttl kv.2)) l.

Lemma evict_scan_snoc now ttl l kv es :
  evict_scan now ttl (l ++ [kv]) es = scan_visit now ttl (evict_scan now ttl l es) kv.
Proof. unfold evict_scan. by rewrite fold_left_app. Qed.

Lemma scan_entries_loop now ttl l es n :
  scan_entries (evict_scan now ttl l es) = (delete_loop (fun _ e => expired now ttl e) l (es, n)).1.
Proof.
  revert n. induction l as [|kv l IH] using rev_ind; intros n; [done|].
  rewrite evict_scan_snoc. unfold delete_loop in *. rewrite fold_left_app. simpl.
  unfold scan_visit. destruct (expired _ _ _); simpl; [by rewrite (IH n)|].
  destruct (_ || _)%bool; simpl; apply IH.
Qed.

Lemma scan_oldest now ttl l es :
  Forall (fun kv => kv.1 <> "") l ->
  let s := evict_scan now ttl l es in
  match oldestKey s with
  | "" => survivors now ttl l = []
  | k => exists e, (k, e) ∈ survivors now ttl l /\ oldest s = LastUsedAt e /\
           forall k' e', (k', e') ∈ survivors now ttl l -> LastUsedAt e <= LastUsedAt e'
  end.
Proof.
  intros Hk. cbv zeta. induction l as [|[k e] l IH] using rev_ind; [done|].
  apply Forall_app in Hk as [Hk Hke]. specialize (IH Hk).
  apply Forall_cons_1 in Hke as [Hke _]. simpl in Hke.
  rewrite evict_scan_snoc. unfold survivors in *. rewrite List.filter_app. simpl.
  unfold scan_visit. simpl. destruct (expired now ttl e) eqn:He; simpl.
  { rewrite app_nil_r. exact IH. }
  destruct (oldestKey (evict_scan now ttl l es)) as [|c k0] eqn:Ho; simpl.
  - rewrite IH. simpl. destruct k as [|c k]; [done|]. exists e. split; [set_solver|].
    split; [done|]. intros k' e' [= -> ->]%list_elem_of_singleton. lia.
  - destruct IH as (e0 & Hin & Hold & Hmin).
    destruct (LastUsedAt e <? oldest _) eqn:Hlt; simpl.
    + destruct k as [|c' k]; [done|]. exists e. split; [set_solver|]. split; [done|].
      intros k' e' [Hin'|Hin']%elem_of_app; [specialize (Hmin _ _ Hin'); lia|].
      apply list_elem_of_singleton in Hin' as [= -> ->]. lia.
    + rewrite Ho. exists e0. split; [set_solver|]. split; [done|].
      intros k' e' [Hin'|Hin']%elem_of_app; [by eapply Hmin|].
      apply list_elem_of_singleton in Hin' as [= -> ->]. lia.
Qed.

(** ** Eviction on maps *)

Definition keys_ok (es : gmap string Entry) : Prop := forall k, is_Some (es !! k) -> k <> "".

(** The entries of [es] that are not expired at [now]. *)
Definition live (now ttl : Z) (es : gmap string Entry) : gmap string Entry :=
  filter (fun kv => expired now ttl kv.2 = false) es.

Lemma live_lookup now ttl es k e :
  live now ttl es !! k = Some e <-> es !! k = Some e /\ expired now ttl e = false.
Proof. unfold live. by rewrite map_lookup_filter_Some. Qed.

Section Facts.
Context (order : gmap string Entry -> list (string * Entry)) (Hord : enumerates order).

Lemma survivors_live now ttl es k e :
  (k, e) ∈ survivors now ttl (order es) <-> live now ttl es !! k = Some e.
Proof.
  pose proof (Hord es) as Hp. unfold survivors.
  rewrite elem_of_List_filter, Hp, elem_of_map_to_list, live_lookup. simpl.
  by rewrite negb_true_iff.
Qed.

(** Eviction keeps the live entries, except one least recently used entry when
    they still fill the map. *)
Lemma evict_spec now m :
  keys_ok m.(entries) ->
  let l := live now m.(ttl) m.(entries) in
  (evict now m (order m.(entries)) = l /\ (Z.of_nat (size l) < m.(maxEntries) \/ l = ∅)) \/
  (m.(maxEntries) <= Z.of_nat (size l) /\
   exists k e, l !! k = Some e /\
     (forall k' e', l !! k' = Some e' -> LastUsedAt e <= LastUsedAt e') /\
     evict now m (order m.(entries)) = delete k l).
Proof.
  intros Hk. cbv zeta. set (l := live _ _ _). unfold evict.
  assert (scan_entries (evict_scan now (ttl m) (order (entries m)) (entries m)) = l) as ->.
  { rewrite (scan_entries_loop _ _ _ _ 0). by apply (delete_loop_filter (fun _ e => expired _ _ e)). }
  pose proof (scan_oldest now m.(ttl) (order m.(entries)) m.(entries)) as Hs. cbv zeta in Hs.
  destruct (oldestKey _) as [|c k]; simpl.
  - rewrite andb_false_r. left. split; [done|]. right. apply map_empty. intros k.
    apply eq_None_not_Some. intros [e He]. apply survivors_live in He. rewrite Hs in He.
    { set_solver. }
    apply Forall_forall. intros [k' e'] Hin. apply Hk. rewrite (Hord _) in Hin.
    apply elem_of_map_to_list in Hin. simpl. eauto.
  - rewrite andb_true_r. destruct (_ <=? _) eqn:Hle; [|left; split; [done|left; lia]].
    right. split; [lia|]. destruct Hs as (e & Hin & _ & Hmin).
    { apply Forall_forall. intros [k' e'] Hin. apply Hk. rewrite (Hord _) in Hin.
      apply elem_of_map_to_list in Hin. simpl. eauto. }
    exists (String c k), e. rewrite survivors_live in Hin. split; [done|]. split; [|done].
    intros k' e' He'. eapply Hmin. by apply survivors_live.
Qed.

(** ** The invariant of a reachable store *)

Record sticky_ok (m : Map) : Prop := {
  so_bound : Z.of_nat (size m.(entries)) <= m.(maxEntries);
  so_keys : keys_ok m.(entries);
  so_self : forall k e, m.(entries) !! k = Some e -> e.(ConversationKey) = k;
}.

Lemma live_size now ttl es : (size (live now ttl es) <= size es)%nat.
Proof. apply map_subseteq_size, map_filter_subseteq. Qed.

Lemma evict_room now m :
  sticky_ok m -> 0 < m.(maxEntries) ->
  Z.of_nat (size (evict now m (order m.(entries)))) < m.(maxEntries) /\
  evict now m (order m.(entries)) ⊆ m.(entries).
Proof.
  intros [Hb Hk _] Hmax.
  assert (live now (ttl m) (entries m) ⊆ entries m) as Hsub by apply map_filter_subseteq.
  pose proof (live_size now (ttl m) (entries m)).
  destruct (evict_spec now m Hk) as [[-> [?| ->]]|(Hfull & k & e & Hl & _ & ->)].
  - done.
  - rewrite map_size_empty. split; [lia|apply map_empty_subseteq].
  - rewrite map_size_delete, Hl. simpl. split; [lia|].
    etrans; [apply delete_subseteq|done].
Qed.

Lemma sticky_ok_sub m es :
  sticky_ok m -> es ⊆ m.(entries) -> sticky_ok (with_entries m es).
Proof.
  intros [Hb Hk Hs] Hsub. constructor; simpl.
  - apply map_subseteq_size in Hsub. lia.
  - intros k [e He]. apply Hk. exists e. by eapply lookup_weaken.
  - intros k e He. apply Hs. by eapply lookup_weaken.
Qed.

Lemma sticky_ok_insert m k e :
  sticky_ok m -> k <> "" -> ConversationKey e = k ->
  (is_Some (m.(entries) !! k) \/ Z.of_nat (size m.(entries)) < m.(maxEntries)) ->
  sticky_ok (with_entries m (<[k := e]> m.(entries))).
Proof.
  intros [Hb Hk Hs] Hne He Hroom. constructor; simpl.
  - rewrite map_size_insert. destruct Hroom as [[e0 ->]|?]; simpl; [done|].
    destruct (_ !! _); simpl; lia.
  - intros k' Hi. destruct (decide (k' = k)) as [->|Hn]; [done|].
    rewrite lookup_insert_ne in Hi by done. by apply Hk.
  - intros k' e' Hi. destruct (decide (k = k')) as [->|Hn].
    + rewrite lookup_insert_eq in Hi. by simplify_eq.
    + rewrite lookup_insert_ne in Hi by done. by apply Hs.
Qed.

Lemma conv_nonempty key : GoStr.HasPrefix key "conv:" = true -> key <> "".
Proof. by intros H ->. Qed.

Lemma Update_ok m now k a p s :
  sticky_ok m -> 0 < m.(maxEntries) -> k <> "" -> sticky_ok (Update order m now k a p s).1.
Proof.
  intros Hm Hmax Hk. unfold Update. destruct (entries m !! k) as [e|] eqn:He.
  { destruct (_ && _ && _)%bool; [done|]. apply sticky_ok_insert; simpl; eauto. }
  destruct (_ <=? _) eqn:Hfull; simpl.
  - destruct (evict_room now m Hm Hmax) as [Hsz Hsub].
    apply (sticky_ok_insert (with_entries m _)); simpl; auto. by apply sticky_ok_sub.
  - apply sticky_ok_insert; simpl; auto. right. lia.
Qed.

Lemma Lookup_ok m now k : sticky_ok m -> sticky_ok (Lookup m now k).1.
Proof.
  intros Hm. unfold Lookup. destruct (entries m !! k) as [e|] eqn:He; [|done].
  destruct (expired _ _ _); simpl.
  - apply sticky_ok_sub; [done|]. apply delete_subseteq.
  - apply sticky_ok_insert; simpl; eauto.
    + apply (so_keys m Hm). eauto.
    + by apply (so_self m Hm).
Qed.

Lemma delete_loop_ok m p :
  sticky_ok m ->
  sticky_ok (with_entries m (delete_loop p (order m.(entries)) (m.(entries), 0)).1).
Proof.
  intros Hm. apply sticky_ok_sub; [done|]. rewrite delete_loop_filter by done.
  apply map_filter_subseteq.
Qed.

Lemma sticky_step_ok m op :
  sticky_ok m -> 0 < m.(maxEntries) -> sticky_ok (sticky_step order m op).
Proof.
  intros Hm Hmax. destruct op; simpl.
  - unfold stickyStore. split_ifs; simpl; auto. apply Update_ok; auto. bool_hyps.
    by apply conv_nonempty.
  - unfold applySticky_lookup. split_ifs; simpl; auto.
    pose proof (Lookup_ok m now (GoStr.TrimSpace (h_Conv h)) Hm). by destruct (Lookup _ _ _).
  - unfold purgeStickyAccount, PurgeAccount. split_ifs; simpl; auto. by apply delete_loop_ok.
  - by apply delete_loop_ok.
Qed.

Lemma sticky_step_config m op :
  maxEntries (sticky_step order m op) = maxEntries m /\ ttl (sticky_step order m op) = ttl m.
Proof.
  destruct op; simpl; unfold stickyStore, applySticky_lookup, purgeStickyAccount, PurgeAccount,
    InvalidateClass, Update, Lookup; repeat case_match; simplify_eq/=; auto.
Qed.
End Facts.

Lemma sticky_exec_ok order m ops :
  enumerates order -> sticky_ok m -> 0 < m.(maxEntries) ->
  sticky_ok (sticky_exec order m ops) /\ maxEntries (sticky_exec order m ops) = maxEntries m.
Proof.
  intros Ho. unfold sticky_exec. revert m. induction ops as [|op ops IH]; intros m Hm Hmax; [done|].
  simpl. destruct (sticky_step_config order m op) as [Hc _]. rewrite <- Hc.
  apply IH; [by apply sticky_step_ok|lia].
Qed.

Lemma NewMap_ok ttl0 max : 0 < max -> sticky_ok (NewMap ttl0 max).
Proof.
  intros Hmax. constructor; simpl.
  - rewrite map_size_empty. lia.
  - intros k [e He]. by rewrite lookup_empty in He.
  - intros k e He. by rewrite lookup_empty in He.
Qed.

(** The capacity bound of the sticky store holds in every execution:
    whatever requests, lookups, purges and reconfigurations arrive, and in
    whatever order the map is visited, the store never holds more than
    [maxEntries] entries, and every entry sits under its own non-empty
    conversation key. *)
Theorem sticky_capacity_bounded (order : gmap string Entry -> list (string * Entry))
    (ttl0 max : Z) (ops : list StickyOp) :
  enumerates order -> 0 < max ->
  let m := sticky_exec order (NewMap ttl0 max) ops in
  Len m <= max /\
  forall k e, m.(entries) !! k = Some e -> e.(ConversationKey) = k /\ k <> "".
Proof.
  intros Ho Hmax. cbv zeta.
  destruct (sticky_exec_ok order (NewMap ttl0 max) ops Ho) as [[Hb Hk Hs] Hc];
    [by apply NewMap_ok|done|].
  split; [unfold Len; by rewrite Hc in Hb|]. intros k e He. split; [by apply Hs|].
  apply Hk. eauto.
Qed.

Definition sample_headers (conv account : string) : Headers := mkHeaders "" "" conv account.
Definition sample_sticky_ops : list StickyOp :=
  [OpStore true 10 (sample_headers "conv:a" "acct1") "p1" "m";
   OpStore true 20 (sample_headers "conv:b" "acct1") "p2" "m";
   OpLookup true true 30 (sample_headers "conv:a" "acct1");
   OpStore true 40 (sample_headers "conv:c" "acct2") "p3" "m"].

Lemma sticky_capacity_bounded_witness :
  let m := sticky_exec map_to_list (NewMap 100 2) sample_sticky_ops in
  Len m = 2 /\ Len m <= 2.
Proof.
  split; [vm_compute; reflexivity|].
  apply (sticky_capacity_bounded map_to_list 100 2 sample_sticky_ops);
    [exact enumerates_map_to_list|lia].
Defined.

(** Storing a new conversation evicts no more than it must: below
    capacity nothing is evicted; at capacity an evicted entry is expired, or it
    is a least recently used live entry, and then no expired entry was there
    and it is the only one evicted. The other entries are untouched and the new
    conversation is stored. *)
Theorem update_evicts_minimally (order : gmap string Entry -> list (string * Entry))
    (m : Map) (now : Z) (k a p s : string) :
  enumerates order -> sticky_ok m -> 0 < m.(maxEntries) -> m.(entries) !! k = None ->
  let es := (Update order m now k a p s).1.(entries) in
  es !! k = Some (mkEntry k p a s now now) /\
  (forall k' e', k' <> k -> es !! k' = Some e' -> m.(entries) !! k' = Some e') /\
  (forall k' e', m.(entries) !! k' = Some e' -> es !! k' = None ->
     Len m = m.(maxEntries) /\
     (expired now m.(ttl) e' = true \/
      forall k2 e2, m.(entries) !! k2 = Some e2 ->
        expired now m.(ttl) e2 = false /\ LastUsedAt e' <= LastUsedAt e2 /\
        (k2 <> k' -> es !! k2 = Some e2))).
Proof.
  intros Ho Hm Hmax Hk. pose proof (so_bound m Hm) as Hb. cbv zeta. unfold Update, Len.
  rewrite Hk. simpl. rewrite lookup_insert_eq. split; [done|].
  destruct (_ <=? _) eqn:Hfull.
  2:{ split; intros k' e' H1 H2; [by rewrite lookup_insert_ne in H2|].
      destruct (decide (k = k')) as [->|]; [congruence|].
      rewrite lookup_insert_ne in H2 by done. congruence. }
  destruct (evict_room order Ho now m Hm Hmax) as [_ Hsub]. split.
  { intros k' e' H1 H2. rewrite lookup_insert_ne in H2 by done. by eapply lookup_weaken. }
  intros k' e' H1 H2. destruct (decide (k = k')) as [->|Hn]; [congruence|].
  rewrite lookup_insert_ne in H2 by done. split; [lia|].
  destruct (expired now (ttl m) e') eqn:Hex; [by left|right].
  assert (live now (ttl m) (entries m) !! k' = Some e') as Hl by by apply live_lookup.
  destruct (evict_spec order Ho now m (so_keys m Hm))
    as [[He _]|(Hsz & k0 & e0 & Hl0 & Hmin & He)]; rewrite He in *; [congruence|].
  assert (k0 = k') as ->.
  { destruct (decide (k0 = k')) as [->|]; [done|]. rewrite lookup_delete_ne in H2 by done. congruence. }
  assert (e0 = e') as -> by congruence.
  assert (live now (ttl m) (entries m) = entries m) as Hall.
  { apply map_subseteq_size_eq; [|lia]. apply map_filter_subseteq. }
  intros k2 e2 H3. rewrite <- Hall in H3. split; [by apply live_lookup in H3 as [_ ?]|].
  split; [by eapply Hmin|]. intros Hk2.
  assert (k2 <> k) by (intros ->; rewrite Hall in H3; congruence).
  rewrite lookup_insert_ne, lookup_delete_ne by done. done.
Qed.

Lemma update_evicts_minimally_witness :
  let m := sticky_exec map_to_list (NewMap 100 2) (firstn 3 sample_sticky_ops) in
  let es := (Update map_to_list m 40 "conv:c" "acct2" "p3" "m").1.(entries) in
  m.(entries) !! "conv:c" = None /\ es !! "conv:b" = None /\
  es !! "conv:c" = Some (mkEntry "conv:c" "p3" "acct2" "m" 40 40).
Proof.
  cbv zeta. set (m := sticky_exec _ _ _).
  assert (m.(entries) !! "conv:c" = None) as Hk by (vm_compute; reflexivity).
  assert (sticky_ok m) as Hm.
  { apply sticky_exec_ok; [exact enumerates_map_to_list|apply NewMap_ok; lia|simpl; lia]. }
  assert (0 < m.(maxEntries)) as Hmax by (vm_compute; reflexivity).
  split; [exact Hk|]. split; [vm_compute; reflexivity|].
  destruct (update_evicts_minimally map_to_list m 40 "conv:c" "acct2" "p3" "m"
    enumerates_map_to_list Hm Hmax Hk) as [H _]. exact H.
Defined.

(** ** Attribution *)

(** [es'] keeps the attribution of [es]: an entry that is still there and had an
    account still has it. *)
Definition keeps_accounts (es es' : gmap string Entry) : Prop :=
  forall k e e', es !! k = Some e -> es' !! k = Some e' ->
    e.(AccountID) <> "" -> e'.(AccountID) = e.(AccountID).

Lemma keeps_accounts_sub es es' : es' ⊆ es -> keeps_accounts es es'.
Proof.
  intros Hs k e e' H1 H2 _. eapply lookup_weaken in H2; [|done]. congruence.
Qed.

Lemma keeps_accounts_insert es k e0 :
  (forall e, es !! k = Some e -> e.(AccountID) <> "" -> e0.(AccountID) = e.(AccountID)) ->
  keeps_accounts es (<[k := e0]> es).
Proof.
  intros H k' e e' H1 H2 Ha. destruct (decide (k = k')) as [->|].
  - rewrite lookup_insert_eq in H2. simplify_eq. by apply H.
  - rewrite lookup_insert_ne in H2 by done. congruence.
Qed.

Lemma Update_accounts order m now k a p s :
  enumerates order -> keys_ok m.(entries) ->
  keeps_accounts m.(entries) (Update order m now k a p s).1.(entries).
Proof.
  intros Ho Hk. unfold Update. destruct (entries m !! k) as [e|] eqn:He.
  { split_ifs; bool_hyps; try by apply keeps_accounts_sub.
    - apply keeps_accounts_insert. intros e' He' Ha. simplify_eq/=. done.
    - apply keeps_accounts_insert. intros e' He' Ha. simplify_eq/=.
      apply String.eqb_neq in Ha. rewrite Ha in *. simpl in *.
      rewrite andb_true_r in *. destruct (String.eqb a ""); simpl in *; [done|]. bool_hyps. done. }
  intros k' e' e2 H1 H2 _. destruct (decide (k = k')) as [->|Hn]; [congruence|].
  simpl in H2. rewrite lookup_insert_ne in H2 by done.
  destruct (_ <=? _) in H2; [|congruence].
  assert (evict now m (order (entries m)) ⊆ entries m) as Hsub.
  { destruct (evict_spec order Ho now m Hk) as [[-> _]|(_ & k0 & e0 & _ & _ & ->)].
    - apply map_filter_subseteq.
    - etrans; [apply delete_subseteq|apply map_filter_subseteq]. }
  eapply lookup_weaken in H2; [|done]. congruence.
Qed.

Lemma step_accounts order m op :
  enumerates order -> keys_ok m.(entries) ->
  keeps_accounts m.(entries) (sticky_step order m op).(entries).
Proof.
  intros Ho Hk.
  assert (forall p n, (delete_loop p (order (entries m)) (entries m, n)).1 ⊆ entries m) as Hl.
  { intros p n. rewrite delete_loop_filter by done. apply map_filter_subseteq. }
  destruct op; simpl.
  - unfold stickyStore. split_ifs; try by apply keeps_accounts_sub. by apply Update_accounts.
  - unfold applySticky_lookup, Lookup. split_ifs; try by apply keeps_accounts_sub.
    destruct (entries m !! _) as [e|] eqn:He; [|by apply keeps_accounts_sub].
    destruct (expired _ _ _); simpl; [apply keeps_accounts_sub, delete_subseteq|].
    apply keeps_accounts_insert. intros e' He' _. by simplify_eq.
  - unfold purgeStickyAccount, PurgeAccount. split_ifs; simpl; by apply keeps_accounts_sub.
  - by apply keeps_accounts_sub.
Qed.

(** Cross-account isolation: a store by an account that does not own
    the conversation is refused and changes nothing; and no operation of any
    execution re-attributes or erases the account of a stored conversation. *)
Theorem sticky_account_isolation (order : gmap string Entry -> list (string * Entry))
    (ttl0 max : Z) (ops : list StickyOp) :
  enumerates order -> 0 < max ->
  let m := sticky_exec order (NewMap ttl0 max) ops in
  (forall op, keeps_accounts m.(entries) (sticky_step order m op).(entries)) /\
  (forall now k a p s e, m.(entries) !! k = Some e ->
     ((Update order m now k a p s).2 = true
      <-> e.(AccountID) <> "" /\ a <> "" /\ a <> e.(AccountID)) /\
     ((Update order m now k a p s).2 = true -> (Update order m now k a p s).1 = m)).
Proof.
  intros Ho Hmax. cbv zeta.
  destruct (sticky_exec_ok order (NewMap ttl0 max) ops Ho) as [Hok _];
    [by apply NewMap_ok|done|].
  split; [intros op; by apply step_accounts, so_keys|].
  intros now k a p s e He. unfold Update. rewrite He.
  destruct (_ && _ && _)%bool eqn:Hc; simpl.
  - bool_hyps. split; [|done]. split; auto.
  - split; [|done]. split; [done|]. intros (H1 & H2 & H3).
    apply String.eqb_neq in H1, H2. apply not_eq_sym, String.eqb_neq in H3.
    by rewrite H1, H2, H3 in Hc.
Qed.

Lemma sticky_account_isolation_witness :
  let m := sticky_exec map_to_list (NewMap 100 2) sample_sticky_ops in
  (Update map_to_list m 50 "conv:a" "acct2" "p9" "m").2 = true /\
  (Update map_to_list m 50 "conv:a" "acct2" "p9" "m").1 = m.
Proof.
  cbv zeta. split; [vm_compute; reflexivity|].
  destruct (sticky_account_isolation map_to_list 100 2 sample_sticky_ops
    enumerates_map_to_list ltac:(lia)) as [_ H].
  eapply H; vm_compute; reflexivity.
Defined.

(** A purge is exact: purging an account removes its conversations
    and only those, reports how many, and an empty account removes nothing; a
    class invalidation removes exactly the entries of the class, compared
    without case. *)
Theorem purge_exact (order : gmap string Entry -> list (string * Entry)) (m : Map) :
  enumerates order ->
  (forall a, (PurgeAccount order m a).1.(entries)
     = (if String.eqb a "" then m.(entries)
        else filter (fun kv => String.eqb kv.2.(AccountID) a = false) m.(entries)) /\
     (PurgeAccount order m a).2
     = Len m - Len (PurgeAccount order m a).1) /\
  (forall c, (InvalidateClass order m c).1.(entries)
     = filter (fun kv => GoStr.EqualFold kv.2.(ModelScope) c = false) m.(entries) /\
     (InvalidateClass order m c).2 = Len m - Len (InvalidateClass order m c).1).
Proof.
  intros Ho.
  split; intros x; [unfold PurgeAccount|unfold InvalidateClass].
  - destruct (String.eqb x ""); simpl; [split; [done|lia]|].
    rewrite delete_loop_removed, delete_loop_filter by done. done.
  - simpl. rewrite delete_loop_removed, delete_loop_filter by done. done.
Qed.

Lemma purge_exact_witness :
  let m := sticky_exec map_to_list (NewMap 100 2) sample_sticky_ops in
  (PurgeAccount map_to_list m "acct1").2 = 1 /\
  (PurgeAccount map_to_list m "acct1").2 = Len m - Len (PurgeAccount map_to_list m "acct1").1.
Proof.
  cbv zeta. split; [vm_compute; reflexivity|].
  destruct (purge_exact map_to_list
    (sticky_exec map_to_list (NewMap 100 2) sample_sticky_ops) enumerates_map_to_list) as [H _].
  exact (proj2 (H "acct1")).
Defined.

(** A stored affinity is found again: after an accepted store, a
    lookup of the conversation within the TTL hits the stored provider and
    scope, and refreshes the entry so that the TTL runs from the lookup; after
    the TTL it misses and the entry is gone. *)
Theorem store_lookup_roundtrip (order : gmap string Entry -> list (string * Entry))
    (m : Map) (now later : Z) (k a p s : string) :
  let m1 := (Update order m now k a p s).1 in
  (Update order m now k a p s).2 = false ->
  let '(m2, r) := Lookup m1 later k in
  if m.(ttl) <? time_sub later now
  then r = mkLookup None false "expired" /\ m2.(entries) !! k = None
  else exists e, r = mkLookup (Some e) true "" /\ e.(ProviderID) = p /\ e.(ModelScope) = s /\
         e.(LastUsedAt) = later /\ m2.(entries) !! k = Some e /\ (a <> "" -> e.(AccountID) = a).
Proof.
  intros m1 Hacc.
  assert (exists e, m1.(entries) !! k = Some e /\ e.(ProviderID) = p /\ e.(ModelScope) = s /\
    e.(LastUsedAt) = now /\ (a <> "" -> e.(AccountID) = a)) as (e & He & Hp & Hs & Hl & Ha).
  { subst m1. unfold Update in *. destruct (entries m !! k) as [e0|].
    - destruct (_ && _ && _)%bool; [done|]. simpl. rewrite lookup_insert_eq.
      eexists. split; [done|]. repeat split. simpl. intros Hne%String.eqb_neq. by rewrite Hne.
    - simpl. rewrite lookup_insert_eq. eexists. split; [done|]. by repeat split. }
  assert (ttl m1 = ttl m) as Ht.
  { subst m1. unfold Update. destruct (entries m !! k); [by destruct (_ && _ && _)%bool|done]. }
  unfold Lookup. rewrite He. unfold expired. rewrite Hl, Ht.
  destruct (_ <? _); simpl.
  - by rewrite lookup_delete_eq.
  - exists (touch e later). rewrite lookup_insert_eq. by repeat split.
Qed.

Lemma store_lookup_roundtrip_witness :
  let m := NewMap 100 2 in
  (Update map_to_list m 10 "conv:a" "acct" "p1" "llama").2 = false /\
  let '(m2, r) := Lookup (Update map_to_list m 10 "conv:a" "acct" "p1" "llama").1 60 "conv:a" in
  exists e, r = mkLookup (Some e) true "" /\ e.(ProviderID) = "p1" /\ e.(ModelScope) = "llama" /\
    e.(LastUsedAt) = 60 /\ m2.(entries) !! "conv:a" = Some e /\ ("acct" <> "" -> e.(AccountID) = "acct").
Proof.
  split; [vm_compute; reflexivity|].
  exact (store_lookup_roundtrip map_to_list (NewMap 100 2) 10 60 "conv:a" "acct" "p1" "llama"
    ltac:(vm_compute; reflexivity)).
Defined.

(** An unguarded empty key defeats the eviction scan, which uses the empty
    string for "no survivor yet": a store filled with it grows past its bound.
    The callers' ["conv:"] guard rules this out. *)
Example empty_key_overflows_unguarded :
  let m := (Update map_to_list (NewMap 100 1) 10 "" "" "p1" "m").1 in
  Len (Update map_to_list m 20 "conv:a" "" "p2" "m").1 = 2.
Proof. vm_compute. reflexivity. Qed.
