(* ===== verification/Routing.v ===== *)
(** * Request routing

    Models [routing/]: the gates a provider passes to be a candidate, the ranking of the
    candidates by an objective, the cohort of equally good ones, and the retry policy. *)

From S2P Require Import Prelude Jcs GoTime GoFloat GoSort Pool.
#[local] Open Scope Z_scope.

(** ** [exclusion.go] *)

(** The keys of the providers a request must not use again; [None] is the zero value,
    whose map is nil and takes no keys. *)
Definition Excluded : Type := option (gset string).
Definition NewExcluded : Excluded := Some ∅.
Definition AddKey (e : Excluded) (key : string) : Excluded := keys ← e; Some ({[key]} ∪ keys).
Definition Add (e : Excluded) (p : Provider) (keyer : Provider -> string) : Excluded := AddKey e (keyer p).
Definition Has (e : Excluded) (key : string) : bool := match e with Some keys => bool_decide (key ∈ keys) | None => false end.
Definition Len (e : Excluded) : Z := match e with Some keys => Z.of_nat (size keys) | None => 0 end.

(** ** [filter.go] *)

Inductive RejectionReason :=
  | ReasonExcluded | ReasonModelMismatch | ReasonContextTooSmall | ReasonTier2HashMismatch | ReasonTier2HashRequired
  | ReasonTier2EncryptedLeg | ReasonTier2Attestation | ReasonQuotaBlocked | ReasonModelVersionFloor.

Definition reason_code (r : RejectionReason) : Z :=
  match r with
  | ReasonExcluded => 1 | ReasonModelMismatch => 2 | ReasonContextTooSmall => 3 | ReasonTier2HashMismatch => 4
  | ReasonTier2HashRequired => 5 | ReasonTier2EncryptedLeg => 6 | ReasonTier2Attestation => 7 | ReasonQuotaBlocked => 8
  | ReasonModelVersionFloor => 9
  end.
Definition all_reasons : list RejectionReason :=
  [ReasonExcluded; ReasonModelMismatch; ReasonContextTooSmall; ReasonTier2HashMismatch; ReasonTier2HashRequired;
   ReasonTier2EncryptedLeg; ReasonTier2Attestation; ReasonQuotaBlocked; ReasonModelVersionFloor].

#[global] Instance reason_eq_dec : EqDecision RejectionReason.
Proof. solve_decision. Defined.
#[global] Program Instance reason_countable : Countable RejectionReason :=
  inj_countable reason_code (fun c => find (fun r => reason_code r =? c) all_reasons) _.
Next Obligation. by intros []. Qed.

(** What the filter asks of the server; [Tier2Decision] is the reason to reject, if any,
    and the hash status it saw. *)
Record EligibilityChecker := mkChecker {
  ProviderMatchesRequest : Provider -> bool;
  ProviderMeetsModelVersionFloor : Provider -> bool;
  ProviderContextSufficient : Provider -> bool;
  Tier2Decision : Provider -> option RejectionReason * string;
  QuotaPermits : Provider -> bool;
}.

Record RejectedProvider := mkRejected {
  rj_Provider : Provider;
  rj_Reason : RejectionReason;
  rj_HashStatus : string;
}.

Record FilterResult := mkFilterResult {
  Eligible : list Provider;
  Counts : gmap RejectionReason Z;
  HashMismatches : list RejectedProvider;
  PreQuotaCount : Z;
}.
#[global] Instance FilterResult_rebuild : Rebuild FilterResult :=
  fun r => mkFilterResult r.(Eligible) r.(Counts) r.(HashMismatches) r.(PreQuotaCount).

Definition count_of (counts : gmap RejectionReason Z) (reason : RejectionReason) : Z := default 0 (counts !! reason).
Definition count_up (res : FilterResult) (reason : RejectionReason) : FilterResult :=
  res <| Counts := <[reason := Int64.add (count_of res.(Counts) reason) 1]> res.(Counts) |>.

Section Filter.
Context (excluded : Excluded) (keyer : Provider -> string) (checker : EligibilityChecker).

(** One round of the first loop: the state, model, context and tier 2 gates. *)
Definition first_gates (acc : FilterResult * list Provider) (p : Provider) : FilterResult * list Provider :=
  let '(res, preQuota) := acc in
  if Has excluded (keyer p) then (count_up res ReasonExcluded, preQuota)
  else if negb (checker.(ProviderMatchesRequest) p) then (count_up res ReasonModelMismatch, preQuota)
  else if negb (checker.(ProviderMeetsModelVersionFloor) p) then (count_up res ReasonModelVersionFloor, preQuota)
  else if negb (checker.(ProviderContextSufficient) p) then (count_up res ReasonContextTooSmall, preQuota)
  else match checker.(Tier2Decision) p with
  | (Some reason, hashStatus) =>
      let res := count_up res reason in
      (if bool_decide (reason = ReasonTier2HashMismatch) then
         res <| HashMismatches := res.(HashMismatches) ++ [mkRejected (p <| p_HashStatus := hashStatus |>) reason hashStatus] |>
       else res, preQuota)
  | (None, _) => (res, preQuota ++ [p])
  end.

(** One round of the second loop: the quota gate. *)
Definition quota_gate (res : FilterResult) (p : Provider) : FilterResult :=
  if checker.(QuotaPermits) p then res <| Eligible := res.(Eligible) ++ [p] |> else count_up res ReasonQuotaBlocked.

Definition EligibleCandidates (providers : list Provider) : FilterResult :=
  let '(res, preQuota) := fold_left first_gates providers (mkFilterResult [] ∅ [] 0, []) in
  fold_left quota_gate preQuota (res <| PreQuotaCount := Z.of_nat (length preQuota) |>).
End Filter.

(** ** [candidate.go], [class.go] *)

Record Weights := mkWeights { w_Pinned : float64; w_Provisional : float64 }.
Definition DefaultWeights : Weights := mkWeights F64.one (F64.ratio 3 10).

Definition EffectiveThroughput (p : Provider) (w : Weights) : float64 :=
  F64.mul p.(p_ThroughputTPSEstimate) (if String.eqb p.(p_Tier) TierProvisional then w.(w_Provisional) else w.(w_Pinned)).

Definition minMaxNorm (values : list float64) (idx : nat) : float64 :=
  match values with
  | [] => F64.one
  | v0 :: rest =>
      let '(minV, maxV) := fold_left (fun acc v =>
        let '(minV, maxV) := acc in
        (if F64.ltb v minV then v else minV, if F64.ltb maxV v then v else maxV)) rest (v0, v0) in
      if F64.eqb maxV minV then F64.one
      else F64.div (F64.sub (nth idx values F64.zero) minV) (F64.sub maxV minV)
  end.

Definition slot_share (p : Provider) : float64 :=
  if 0 <? p.(p_SlotsTotal) then F64.div (F64.of_Z p.(p_SlotsFree)) (F64.of_Z p.(p_SlotsTotal)) else F64.zero.

Definition BalancedScores (candidates : list Provider) : list float64 :=
  let tps := map p_ThroughputTPSEstimate candidates in
  let params := map p_ModelParamsB candidates in
  let ctx := map (fun p => F64.of_Z p.(p_MaxContextTokens)) candidates in
  let slots := map slot_share candidates in
  map (fun i =>
    F64.add (F64.add (F64.add (F64.mul (F64.ratio 4 10) (minMaxNorm tps i)) (F64.mul (F64.ratio 3 10) (minMaxNorm params i)))
                     (F64.mul (F64.ratio 2 10) (minMaxNorm ctx i)))
            (F64.mul (F64.ratio 1 10) (minMaxNorm slots i))) (seq 0 (length candidates)).

(** ** [objective.go] *)

Definition ObjectiveDefault : string := "default".
Definition ObjectiveFast : string := "fast".
Definition ObjectiveAccurate : string := "accurate".
Definition ObjectiveBalanced : string := "balanced".

Definition Scores : Type := gmap string float64.
(** Indexing the map: a key that is not there reads as zero. *)
Definition score_of (scores : Scores) (p : Provider) : float64 := default F64.zero (scores !! SortKey p).

Definition KeyedBalancedScores (candidates : list Provider) : Scores :=
  fold_left (fun out (ps : Provider * float64) => <[SortKey ps.1 := ps.2]> out)
    (combine candidates (BalancedScores candidates)) ∅.

Definition less_fast (w : Weights) (a b : Provider) : bool :=
  let ta := EffectiveThroughput a w in let tb := EffectiveThroughput b w in
  if F64.eqb ta tb then a.(p_SlotsFree) <? b.(p_SlotsFree) else F64.ltb tb ta.
Definition less_accurate (w : Weights) (a b : Provider) : bool :=
  if F64.eqb a.(p_ModelParamsB) b.(p_ModelParamsB) then
    let ta := EffectiveThroughput a w in let tb := EffectiveThroughput b w in
    if negb (F64.eqb ta tb) then F64.ltb tb ta else a.(p_SlotsFree) <? b.(p_SlotsFree)
  else F64.ltb b.(p_ModelParamsB) a.(p_ModelParamsB).
Definition less_balanced (scores : Scores) (a b : Provider) : bool :=
  let sa := score_of scores a in let sb := score_of scores b in
  if F64.eqb sa sb then a.(p_SlotsFree) <? b.(p_SlotsFree) else F64.ltb sb sa.
Definition less_default (w : Weights) (a b : Provider) : bool :=
  if a.(p_SlotsFree) =? b.(p_SlotsFree) then F64.ltb (EffectiveThroughput b w) (EffectiveThroughput a w)
  else a.(p_SlotsFree) <? b.(p_SlotsFree).

(** The comparison an objective sorts by. *)
Definition objective_less (objective : string) (w : Weights) (scores : Scores) : Provider -> Provider -> bool :=
  if String.eqb objective ObjectiveFast then less_fast w
  else if String.eqb objective ObjectiveAccurate then less_accurate w
  else if String.eqb objective ObjectiveBalanced then less_balanced scores
  else less_default w.

(** The sorted slice, and the scores of the balanced objective. *)
Definition SortCandidatesWithScores (candidates : list Provider) (objective : string) (w : Weights) (cache : option Scores)
    : list Provider * option Scores :=
  if String.eqb objective ObjectiveBalanced then
    let scores := match cache with Some scores => scores | None => KeyedBalancedScores candidates end in
    (SliceStable (less_balanced scores) candidates, Some scores)
  else (SliceStable (objective_less objective w ∅) candidates, None).
Definition SortCandidates (candidates : list Provider) (objective : string) (w : Weights) : list Provider :=
  (SortCandidatesWithScores candidates objective w None).1.

Definition ObjectiveScoresWithCache (candidates : list Provider) (objective : string) (w : Weights) (cache : option Scores) : Scores :=
  if String.eqb objective ObjectiveBalanced then
    match cache with Some scores => scores | None => KeyedBalancedScores candidates end
  else fold_left (fun out p =>
    <[SortKey p := if String.eqb objective ObjectiveAccurate then p.(p_ModelParamsB) else EffectiveThroughput p w]> out) candidates ∅.
Definition ObjectiveScores (candidates : list Provider) (objective : string) (w : Weights) : Scores :=
  ObjectiveScoresWithCache candidates objective w None.

(** ** [epsilon.go] *)

Definition WithinRelativeEpsilon (top candidate epsilon : float64) : bool :=
  if F64.IsNaN top || F64.IsNaN candidate || F64.IsNaN epsilon || F64.IsInf top || F64.IsInf candidate || F64.IsInf epsilon then false
  else if F64.eqb top candidate then true
  else if F64.leb epsilon F64.zero then false
  else
    let denom := F64.abs top in
    if F64.eqb denom F64.zero then F64.leb (F64.abs candidate) epsilon
    else F64.leb (F64.abs (F64.sub top candidate)) (F64.mul denom epsilon).

Definition InEpsilonCohort (top candidate : Provider) (objective : string) (epsilon : float64) (w : Weights)
    (balancedScore : option (Provider -> float64)) : bool :=
  let throughput := WithinRelativeEpsilon (EffectiveThroughput top w) (EffectiveThroughput candidate w) epsilon in
  if String.eqb objective ObjectiveAccurate then WithinRelativeEpsilon top.(p_ModelParamsB) candidate.(p_ModelParamsB) epsilon
  else if String.eqb objective ObjectiveBalanced then
    match balancedScore with Some f => WithinRelativeEpsilon (f top) (f candidate) epsilon | None => false end
  else if String.eqb objective ObjectiveFast then throughput
  else if negb (top.(p_SlotsFree) =? candidate.(p_SlotsFree)) then false else throughput.

(** ** [retry.go] *)

Definition RetryHeaderLimit (value : string) : Z :=
  let value := GoStr.TrimSpace value in
  if String.eqb value "" then 0
  else if GoStr.EqualFold value "true" then Int64.max
  else match GoStr.Atoi value with Some n => if n <=? 0 then 0 else n | None => 0 end.

Record ShouldRetryInput := mkRetryInput {
  MaxRetries : Z;
  RequestedRetries : Z;
  HasPinnedRoute : bool;
  ContextErr : option string;
  ExplicitRetries : Z;
  FaultedProviders : Z;
  MaxFaultedPerRequest : Z;
  Now : Z;
  StartedAt : Z;
  RequestTimeout : Z;
  RetryPerAttemptTimeout : Z;
  Status : Z;
  Err : option string;
}.

Definition ShouldRetry (in_ : ShouldRetryInput) : bool :=
  if (in_.(MaxRetries) <=? 0) || (in_.(RequestedRetries) <=? 0) || in_.(HasPinnedRoute) then false
  else if bool_decide (is_Some in_.(ContextErr)) then false
  else
  let cap := if in_.(RequestedRetries) <? in_.(MaxRetries) then in_.(RequestedRetries) else in_.(MaxRetries) in
  if cap <=? in_.(ExplicitRetries) then false
  else if (0 <? in_.(MaxFaultedPerRequest)) && (in_.(MaxFaultedPerRequest) <=? in_.(FaultedProviders)) then false
  else if (0 <? in_.(RequestTimeout))
          && (in_.(RequestTimeout) <? Int64.add (time_sub in_.(Now) in_.(StartedAt)) in_.(RetryPerAttemptTimeout)) then false
  else if bool_decide (is_Some in_.(Err)) then true
  else (in_.(Status) =? 502) || (in_.(Status) =? 504).

(** ** The gates, one by one *)

Section FilterSpec.
Context (excluded : Excluded) (keyer : Provider -> string) (checker : EligibilityChecker).

(** The first gate a provider fails, with the quota last. *)
Definition first_gate (p : Provider) : option RejectionReason :=
  if Has excluded (keyer p) then Some ReasonExcluded
  else if negb (checker.(ProviderMatchesRequest) p) then Some ReasonModelMismatch
  else if negb (checker.(ProviderMeetsModelVersionFloor) p) then Some ReasonModelVersionFloor
  else if negb (checker.(ProviderContextSufficient) p) then Some ReasonContextTooSmall
  else (checker.(Tier2Decision) p).1.
Definition gate (p : Provider) : option RejectionReason :=
  match first_gate p with
  | Some reason => Some reason
  | None => if checker.(QuotaPermits) p then None else Some ReasonQuotaBlocked
  end.

Definition fails (reason : RejectionReason) (p : Provider) : bool := bool_decide (gate p = Some reason).
Definition stamped (p : Provider) : RejectedProvider :=
  let hashStatus := (checker.(Tier2Decision) p).2 in mkRejected (p <| p_HashStatus := hashStatus |>) ReasonTier2HashMismatch hashStatus.

Definition fails_first (reason : RejectionReason) (p : Provider) : bool := bool_decide (first_gate p = Some reason).
Definition passes_first (p : Provider) : bool := bool_decide (first_gate p = None).

Lemma count_up_of res reason reason' :
  count_of (count_up res reason).(Counts) reason'
  = if bool_decide (reason = reason') then Int64.add (count_of res.(Counts) reason) 1 else count_of res.(Counts) reason'.
Proof.
  unfold count_of, count_up. simpl. case_bool_decide as E; [subst; by rewrite lookup_insert_eq|by rewrite lookup_insert_ne].
Qed.

(** What the first loop has collected after the providers [l]. *)
Record first_pass (l : list Provider) (acc : FilterResult * list Provider) : Prop := mkFirstPass {
  fp_counts : forall reason, count_of acc.1.(Counts) reason = Int64.wrap (count (fails_first reason) l);
  fp_eligible : acc.1.(Eligible) = [];
  fp_mismatches : acc.1.(HashMismatches) = map (stamped) (List.filter (fails_first ReasonTier2HashMismatch) l);
  fp_prequota : acc.2 = List.filter passes_first l;
}.

(** A provider is dropped under its first failing gate. *)
Lemma first_gates_step acc p :
  first_gates excluded keyer checker acc p
  = match first_gate p with
    | None => (acc.1, acc.2 ++ [p])
    | Some reason =>
        (let res := count_up acc.1 reason in
         if bool_decide (reason = ReasonTier2HashMismatch) && bool_decide ((checker.(Tier2Decision) p).1 = Some reason)
            && negb (Has excluded (keyer p)) && checker.(ProviderMatchesRequest) p
            && checker.(ProviderMeetsModelVersionFloor) p && checker.(ProviderContextSufficient) p
         then res <| HashMismatches := res.(HashMismatches) ++ [stamped p] |> else res, acc.2)
    end.
Proof.
  destruct acc as [res pre]. unfold first_gates, first_gate, stamped. destruct (Has _ _); [done|].
  destruct (ProviderMatchesRequest _ _); [|done]. destruct (ProviderMeetsModelVersionFloor _ _); [|done].
  destruct (ProviderContextSufficient _ _); [|done]. cbn [negb]. destruct (Tier2Decision checker p) as [[reason|] h]; [|done]. simpl.
  by case_bool_decide as E; [subst reason|].
Qed.

Lemma first_gate_mismatch p : first_gate p = Some ReasonTier2HashMismatch ->
  bool_decide ((checker.(Tier2Decision) p).1 = Some ReasonTier2HashMismatch) && negb (Has excluded (keyer p))
  && checker.(ProviderMatchesRequest) p && checker.(ProviderMeetsModelVersionFloor) p && checker.(ProviderContextSufficient) p = true.
Proof.
  unfold first_gate. repeat (case_match; [discriminate|]). intros E. rewrite bool_decide_eq_true_2 by done.
  by repeat match goal with H : negb _ = false |- _ => apply negb_false_iff in H; rewrite H end.
Qed.

Lemma first_pass_step l acc p : first_pass l acc -> first_pass (l ++ [p]) (first_gates excluded keyer checker acc p).
Proof.
  intros [H1 H2 H3 H4]. rewrite first_gates_step. unfold fails_first, passes_first in *.
  destruct (first_gate p) as [reason|] eqn:E.
  - set (extra := bool_decide _ && _ && _ && _ && _ && _).
    assert (extra = bool_decide (reason = ReasonTier2HashMismatch)) as ->.
    { unfold extra. case_bool_decide as Er; [|done]. subst reason. simpl. by apply first_gate_mismatch. }
    split; unfold fails_first, passes_first; cbn [fst snd].
    + intros reason'. assert (count_of (count_up acc.1 reason).(Counts) reason'
        = Int64.wrap (count (fun p => bool_decide (first_gate p = Some reason')) (l ++ [p]))) as Hc.
      { rewrite count_up_of, !H1, count_snoc, E. case_bool_decide as Er.
        - subst reason'. rewrite bool_decide_eq_true_2 by done. by rewrite Int64.add_wrap_l.
        - rewrite bool_decide_eq_false_2 by congruence. by rewrite Z.add_0_r. }
      by case_match.
    + by case_match.
    + rewrite List.filter_app, map_app, <- H3. simpl. rewrite E. case_bool_decide as Er.
      * subst reason. rewrite bool_decide_eq_true_2 by done. done.
      * rewrite bool_decide_eq_false_2 by congruence. by rewrite app_nil_r.
    + rewrite List.filter_app, <- H4. simpl. rewrite E. rewrite bool_decide_eq_false_2 by done. by rewrite app_nil_r.
  - split; unfold fails_first, passes_first; cbn [fst snd].
    + intros reason. rewrite H1, count_snoc, E. rewrite bool_decide_eq_false_2 by done. by rewrite Z.add_0_r.
    + done.
    + rewrite List.filter_app, H3. simpl. rewrite E, (bool_decide_eq_false_2 (None = _)) by done. by rewrite app_nil_r.
    + rewrite List.filter_app, H4. simpl. rewrite E. by rewrite bool_decide_eq_true_2.
Qed.

Lemma first_pass_all l : first_pass l (fold_left (first_gates excluded keyer checker) l (mkFilterResult [] ∅ [] 0, [])).
Proof.
  induction l as [|p l IH] using rev_ind; [by split|]. rewrite fold_left_app. by apply first_pass_step.
Qed.

Lemma quota_pass res f l :
  (forall reason, count_of res.(Counts) reason = Int64.wrap (f reason)) ->
  let res' := fold_left (quota_gate checker) l res in
  res'.(Eligible) = res.(Eligible) ++ List.filter checker.(QuotaPermits) l
  /\ res'.(HashMismatches) = res.(HashMismatches) /\ res'.(PreQuotaCount) = res.(PreQuotaCount)
  /\ forall reason, count_of res'.(Counts) reason
       = Int64.wrap (f reason + if bool_decide (reason = ReasonQuotaBlocked) then count (fun p => negb (checker.(QuotaPermits) p)) l else 0).
Proof.
  intros Hf. induction l as [|p l IH] using rev_ind; cbv zeta.
  - simpl. rewrite app_nil_r. split_and!; [done..|]. intros reason. rewrite Hf. case_bool_decide; by rewrite Z.add_0_r.
  - rewrite fold_left_app. cbv zeta in IH. destruct IH as (I1 & I2 & I3 & I4). simpl. set (r := fold_left _ l res) in *. clearbody r.
    unfold quota_gate. rewrite List.filter_app. simpl. destruct (QuotaPermits checker p) eqn:Eq; simpl.
    + rewrite I1, app_assoc. split_and!; [done..|]. intros reason. rewrite I4, count_snoc, Eq. simpl. by rewrite Z.add_0_r.
    + rewrite I1, app_nil_r. split_and!; [done..|]. intros reason.
      change (count_of (count_up r ReasonQuotaBlocked).(Counts) reason
        = Int64.wrap (f reason + (if bool_decide (reason = ReasonQuotaBlocked) then count (fun p => negb (QuotaPermits checker p)) (l ++ [p]) else 0))).
      rewrite count_up_of, !I4, count_snoc, Eq. simpl. rewrite (bool_decide_ext (ReasonQuotaBlocked = reason) (reason = ReasonQuotaBlocked)) by done.
      case_bool_decide as E; [|done]. subst reason. rewrite Int64.add_wrap_l. unfold Int64.add. f_equal. lia.
Qed.

(** The two loops drop each provider under its first failing gate, and keep the others in order. *)
Lemma eligible_candidates_spec l :
  let res := EligibleCandidates excluded keyer checker l in
  res.(Eligible) = List.filter (fun p => bool_decide (gate p = None)) l
  /\ res.(HashMismatches) = map stamped (List.filter (fails ReasonTier2HashMismatch) l)
  /\ res.(PreQuotaCount) = count passes_first l
  /\ (forall reason, count_of res.(Counts) reason = Int64.wrap (count (fails reason) l)).
Proof.
  cbv zeta. unfold EligibleCandidates. destruct (first_pass_all l) as [F1 F2 F3 F4].
  destruct (fold_left (first_gates _ _ _) l _) as [res pre]. cbn [fst snd] in *. subst pre.
  set (r0 := res <| PreQuotaCount := _ |>).
  destruct (quota_pass r0 (fun reason => count (fails_first reason) l) (List.filter passes_first l) F1) as (Q1 & Q2 & Q3 & Q4). cbv zeta in *.
  rewrite Q1, Q2, Q3. change (Eligible r0) with (Eligible res). change (HashMismatches r0) with (HashMismatches res).
  change (PreQuotaCount r0) with (count passes_first l). rewrite F2, F3. clear Q1 Q2 Q3.
  assert (forall (q : Provider -> bool) (l : list Provider), List.filter q (List.filter passes_first l) = List.filter (fun p => passes_first p && q p) l) as Hff.
  { intros q l0. induction l0 as [|x l0 IH]; simpl; [done|]. destruct (passes_first x); simpl; [|done]. by destruct (q x); rewrite IH. }
  split_and!.
  - rewrite app_nil_l, Hff. apply filter_ext. intros p. unfold passes_first, gate. destruct (first_gate p) as [reason|]; [done|].
    rewrite (bool_decide_eq_true_2 (None = None)) by done. simpl. by destruct (QuotaPermits checker p).
  - f_equal. apply filter_ext. intros p. unfold fails_first, fails, gate. destruct (first_gate p) as [reason|]; [done|].
    by destruct (QuotaPermits checker p).
  - done.
  - intros reason. rewrite Q4. f_equal. unfold count at 2. rewrite Hff. fold (count (fun p => passes_first p && negb (QuotaPermits checker p)) l).
    clear. unfold fails_first, fails, passes_first, gate. induction l as [|p l IH]; [by case_bool_decide|].
    rewrite !count_cons. destruct (first_gate p) as [r|]; simpl.
    + case_bool_decide; rewrite <- IH; lia.
    + destruct (QuotaPermits checker p); simpl; rewrite <- IH; clear IH; repeat case_bool_decide; simplify_eq; simpl; lia.
Qed.
End FilterSpec.

Lemma gates_partition excluded keyer checker l :
  Z.of_nat (length l) = count (fun p => bool_decide (gate excluded keyer checker p = None)) l
    + sumZ (fun reason => count (fails excluded keyer checker reason) l) all_reasons.
Proof.
  induction l as [|p l IH]; [done|]. rewrite length_cons, count_cons.
  assert (sumZ (fun reason => count (fails excluded keyer checker reason) (p :: l)) all_reasons
    = sumZ (fun reason => count (fails excluded keyer checker reason) l) all_reasons
      + sumZ (fun reason => if fails excluded keyer checker reason p then 1 else 0) all_reasons) as ->.
  { rewrite <- sumZ_plus. apply sumZ_ext. intros reason _. rewrite count_cons. lia. }
  assert (sumZ (fun reason => if fails excluded keyer checker reason p then 1 else 0) all_reasons
    = if bool_decide (gate excluded keyer checker p = None) then 0 else 1) as ->.
  { unfold fails. by destruct (gate excluded keyer checker p) as [[]|]. }
  case_bool_decide; lia.
Qed.

(** ** The ranking *)

(** Every metric of the provider is a number. *)
Definition rankable (w : Weights) (scores : Scores) (p : Provider) : Prop :=
  F64.number (EffectiveThroughput p w) /\ F64.number p.(p_ModelParamsB) /\ F64.number (score_of scores p).

Definition descending (f : Provider -> float64) (a b : Provider) : bool := F64.ltb (f b) (f a).

Section Ranking.
Context (P : Provider -> Prop).

Lemma descending_order f a b : (forall p, P p -> F64.number (f p)) -> P a -> P b ->
  in_order (descending f) a b <-> key_compare (float_key (f a)) (float_key (f b)) <> Lt.
Proof.
  intros Hf Ha Hb. unfold in_order, descending. rewrite <- F64_ltb_key by auto. by destruct (F64.ltb _ _).
Qed.

Lemma descending_weak f : (forall p, P p -> F64.number (f p)) -> WeakOrder (descending f) P.
Proof.
  intros Hf. split.
  - intros a b Ha Hb H. unfold descending in *. destruct (F64.ltb (f a) (f b)) eqn:E; [|done].
    apply F64_ltb_key in E; [|auto..]. apply F64_ltb_key in H; [|auto..]. rewrite key_compare_opp, E in H. done.
  - intros a b c Ha Hb Hc. rewrite !descending_order by auto. apply key_compare_trans.
Qed.

Lemma descending_same f a b : (forall p, P p -> F64.number (f p)) -> P a -> P b ->
  same (descending f) a b = F64.eqb (f a) (f b).
Proof.
  intros Hf Ha Hb. apply eq_bool_prop_intro. rewrite !Is_true_true, same_spec, !descending_order, F64_eqb_key by auto.
  rewrite (key_compare_opp (float_key (f a))). pose proof (key_compare_spec (float_key (f a)) (float_key (f b))) as Hk.
  destruct (key_compare _ _); simpl; [done|split; [by intros []|]; intros E; rewrite E in Hk; lia..].
Qed.
End Ranking.

Section Objectives.
Context (w : Weights) (scores : Scores).
Abbreviation P := (rankable w scores).
Abbreviation slots := (fun a b : Provider => p_SlotsFree a <? p_SlotsFree b).
Abbreviation tps := (descending (fun p => EffectiveThroughput p w)).
Abbreviation params := (descending p_ModelParamsB).
Abbreviation score := (descending (score_of scores)).

Lemma tps_numbers p : P p -> F64.number (EffectiveThroughput p w).
Proof. by intros [? _]. Qed.
Lemma params_numbers p : P p -> F64.number (p_ModelParamsB p).
Proof. by intros (_ & ? & _). Qed.
Lemma score_numbers p : P p -> F64.number (score_of scores p).
Proof. by intros (_ & _ & ?). Qed.

#[local] Instance tps_weak : WeakOrder tps P := descending_weak P _ tps_numbers.
#[local] Instance params_weak : WeakOrder params P := descending_weak P _ params_numbers.
#[local] Instance score_weak : WeakOrder score P := descending_weak P _ score_numbers.

Lemma less_fast_lex a b : P a -> P b -> less_fast w a b = lex tps slots a b.
Proof. intros Ha Hb. unfold less_fast, lex. by rewrite (descending_same P _ a b tps_numbers Ha Hb). Qed.

Lemma less_accurate_lex a b : P a -> P b -> less_accurate w a b = lex params (lex tps slots) a b.
Proof.
  intros Ha Hb. unfold less_accurate, lex. rewrite (descending_same P _ a b params_numbers Ha Hb), (descending_same P _ a b tps_numbers Ha Hb).
  by destruct (F64.eqb (EffectiveThroughput a w) _).
Qed.

Lemma less_balanced_lex a b : P a -> P b -> less_balanced scores a b = lex score slots a b.
Proof. intros Ha Hb. unfold less_balanced, lex. by rewrite (descending_same P _ a b score_numbers Ha Hb). Qed.

Lemma less_default_lex a b : less_default w a b = lex slots tps a b.
Proof. unfold less_default, lex, same, descending. split_ifs; simpl in *; try done; lia. Qed.

#[global] Instance objective_weak objective : WeakOrder (objective_less objective w scores) P.
Proof.
  unfold objective_less. repeat case_match.
  - apply (weak_ext P (lex tps slots)); [apply less_fast_lex|apply _].
  - apply (weak_ext P (lex params (lex tps slots))); [apply less_accurate_lex|apply _].
  - apply (weak_ext P (lex score slots)); [apply less_balanced_lex|apply _].
  - apply (weak_ext P (lex slots tps)); [intros; apply less_default_lex|apply _].
Qed.
End Objectives.

Lemma sorted_by candidates objective w cache :
  let out := SortCandidatesWithScores candidates objective w cache in
  out.1 = SliceStable (objective_less objective w (default ∅ out.2)) candidates.
Proof.
  cbv zeta. unfold SortCandidatesWithScores. destruct (String.eqb objective ObjectiveBalanced) eqn:E; [|done].
  apply String.eqb_eq in E as ->. done.
Qed.

(** Finite metrics rank a provider for every objective but the balanced one. *)
Lemma finite_rankable w p :
  F64.finite w.(w_Pinned) = true -> F64.finite w.(w_Provisional) = true ->
  F64.finite p.(p_ThroughputTPSEstimate) = true -> F64.finite p.(p_ModelParamsB) = true -> rankable w ∅ p.
Proof.
  intros H1 H2 H3 H4. split_and!; [|by apply F64_finite_number|done]. apply F64_mul_number; [done|]. by case_match.
Qed.
