(* ===== verification/SlotQueue.v ===== *)
(** * The slot queue

    Models [buyer/slot_queue.go], and the calls [trySelectQueuedProvider] and
    [releaseQueuedSlotReservation] of [buyer/server.go] make to it for many requests at
    once. A request that finds every slot taken waits in the queue of one provider; the
    head of a queue reserves a slot that has become free, and gives it back when it
    leaves the route. *)

From S2P Require Import Prelude.
#[local] Open Scope Z_scope.

(** ** The queue *)

(** A waiter; the address of the object tells two of them apart. *)
Record slotWaiter := mkWaiter { sw_ptr : positive; sw_providerID : string }.
#[global] Instance slotWaiter_eq_dec : EqDecision slotWaiter.
Proof. solve_decision. Defined.

Record slotQueue := mkSlotQueue {
  maxPending : Z;
  queues : gmap string (list slotWaiter);
  reserved : gmap string Z;
}.
#[global] Instance slotQueue_rebuild : Rebuild slotQueue := fun q => mkSlotQueue q.(maxPending) q.(queues) q.(reserved).

Definition newSlotQueue (max : Z) : slotQueue := mkSlotQueue (if max <=? 0 then 1 else max) ∅ ∅.

(** Indexing the maps: a provider without an entry has an empty queue and no reservation. *)
Definition queue_of (q : slotQueue) (providerID : string) : list slotWaiter := default [] (q.(queues) !! providerID).
Definition reserved_of (q : slotQueue) (providerID : string) : Z := default 0 (q.(reserved) !! providerID).
Definition len (l : list slotWaiter) : Z := Z.of_nat (length l).

Definition push (q : slotQueue) (waiter : slotWaiter) : slotQueue :=
  q <| queues := <[waiter.(sw_providerID) := queue_of q waiter.(sw_providerID) ++ [waiter]]> q.(queues) |>.

Definition enter (q : slotQueue) (ptr : positive) (providerID : string) : slotQueue * option slotWaiter :=
  if q.(maxPending) <=? len (queue_of q providerID) then (q, None)
  else let waiter := mkWaiter ptr providerID in (push q waiter, Some waiter).

(** The shortest queue that has room among the candidates not tried yet, the first of
    several; [bestLen] means nothing while [bestProviderID] is empty. *)
Definition best_step (q : slotQueue) (tried : gset string) (best : string * Z) (providerID : string) : string * Z :=
  let '(bestProviderID, bestLen) := best in
  if bool_decide (providerID ∈ tried) then best
  else
  let queueLen := len (queue_of q providerID) in
  if q.(maxPending) <=? queueLen then best
  else if String.eqb bestProviderID "" || (queueLen <? bestLen) then (providerID, queueLen) else best.

Definition enterBest (q : slotQueue) (ptr : positive) (candidates : list string) (tried : gset string)
    : slotQueue * option slotWaiter :=
  let bestProviderID := (fold_left (best_step q tried) candidates ("", 0)).1 in
  if String.eqb bestProviderID "" then (q, None)
  else let waiter := mkWaiter ptr bestProviderID in (push q waiter, Some waiter).

(** The queue without the first occurrence of the waiter. *)
Fixpoint remove_waiter (waiter : slotWaiter) (queue : list slotWaiter) : option (list slotWaiter) :=
  match queue with
  | [] => None
  | w :: queue => if bool_decide (w.(sw_ptr) = waiter.(sw_ptr)) then Some queue else rest ← remove_waiter waiter queue; Some (w :: rest)
  end.

Definition leave (q : slotQueue) (waiter : slotWaiter) : slotQueue :=
  match remove_waiter waiter (queue_of q waiter.(sw_providerID)) with
  | Some [] => q <| queues := delete waiter.(sw_providerID) q.(queues) |>
  | Some queue => q <| queues := <[waiter.(sw_providerID) := queue]> q.(queues) |>
  | None => q
  end.

Definition head (q : slotQueue) (waiter : slotWaiter) : bool :=
  match queue_of q waiter.(sw_providerID) with w :: _ => bool_decide (w.(sw_ptr) = waiter.(sw_ptr)) | [] => false end.

Definition blocksProvider (q : slotQueue) (providerID : string) (slotsFree : Z) : bool :=
  slotsFree <=? Int64.add (len (queue_of q providerID)) (reserved_of q providerID).

Definition reserveHead (q : slotQueue) (waiter : slotWaiter) (slotsFree : Z) : slotQueue * bool :=
  if negb (head q waiter) then (q, false)
  else if Int64.sub slotsFree (reserved_of q waiter.(sw_providerID)) <=? 0 then (q, false)
  else (q <| reserved := <[waiter.(sw_providerID) := Int64.add (reserved_of q waiter.(sw_providerID)) 1]> q.(reserved) |>, true).

Definition releaseReservation (q : slotQueue) (providerID : string) : slotQueue :=
  if String.eqb providerID "" then q
  else if reserved_of q providerID <=? 1 then q <| reserved := delete providerID q.(reserved) |>
  else q <| reserved := <[providerID := Int64.sub (reserved_of q providerID) 1]> q.(reserved) |>.

(** ** Requests *)

(** Where a request is: it has no waiter and no slot; it waits; it has reserved a slot
    and is about to leave the queue; it has the slot, while the preflight runs and while
    the request is on the route. *)
Inductive RequestState :=
  | Outside
  | Waiting (waiter : slotWaiter)
  | Reserved (waiter : slotWaiter)
  | Holding (providerID : string).

Record System := mkSystem {
  sys_queue : slotQueue;
  sys_requests : gmap positive RequestState;
  sys_next : positive;
}.

(** The calls of the requests, in the order in which they take the queue's lock:
    [EvEnter], one round of the candidates; [EvPoll], the head takes a slot of the
    provider if its snapshot has one; [EvLeave], when the poll found a slot, when the
    provider is gone, or at the deadline; [EvRelease], when the preflight refuses, when
    the request advances to another provider, and when it ends. *)
Inductive queue_event :=
  | EvEnter (request : positive) (candidates : list string) (tried : gset string)
  | EvPoll (request : positive) (slotsFree : Z)
  | EvLeave (request : positive)
  | EvRelease (request : positive).

Definition state_of (s : System) (request : positive) : RequestState := default Outside (s.(sys_requests) !! request).
Definition become (s : System) (q : slotQueue) (request : positive) (st : RequestState) : System :=
  mkSystem q (<[request := st]> s.(sys_requests)) s.(sys_next).

Definition queue_step (s : System) (ev : queue_event) : System :=
  let q := s.(sys_queue) in
  match ev with
  | EvEnter request candidates tried =>
      match state_of s request with
      | Outside =>
          match enterBest q s.(sys_next) candidates tried with
          | (q', Some waiter) => mkSystem q' (<[request := Waiting waiter]> s.(sys_requests)) (Pos.succ s.(sys_next))
          | (_, None) => s
          end
      | _ => s
      end
  | EvPoll request slotsFree =>
      match state_of s request with
      | Waiting waiter =>
          if slotsFree <=? 0 then s
          else match reserveHead q waiter slotsFree with
          | (q', true) => become s q' request (Reserved waiter)
          | (_, false) => s
          end
      | _ => s
      end
  | EvLeave request =>
      match state_of s request with
      | Waiting waiter => become s (leave q waiter) request Outside
      | Reserved waiter => become s (leave q waiter) request (Holding waiter.(sw_providerID))
      | _ => s
      end
  | EvRelease request =>
      match state_of s request with
      | Holding providerID => become s (releaseReservation q providerID) request Outside
      | _ => s
      end
  end.

Definition queue_run (s : System) (events : list queue_event) : System := fold_left queue_step events s.
Definition new_system (max : Z) : System := mkSystem (newSlotQueue max) ∅ 1.

(** ** The invariant *)

Definition queued (st : RequestState) : option slotWaiter := match st with Waiting w | Reserved w => Some w | _ => None end.
Definition holds (st : RequestState) (providerID : string) : bool :=
  match st with Reserved w => String.eqb w.(sw_providerID) providerID | Holding p => String.eqb p providerID | _ => false end.
Definition holders (m : gmap positive RequestState) (providerID : string) : Z :=
  sum_map (fun _ st => if holds st providerID then 1 else 0) m.

Record system_ok (s : System) : Prop := mkSystemOk {
  so_reserved : forall p, reserved_of s.(sys_queue) p = holders s.(sys_requests) p;
  so_positive : forall p n, s.(sys_queue).(reserved) !! p = Some n -> 0 < n <= Int64.max;
  so_queued : forall w p, w ∈ queue_of s.(sys_queue) p <-> w.(sw_providerID) = p /\ exists rq, queued (state_of s rq) = Some w;
  so_owner : forall rq rq' w w', queued (state_of s rq) = Some w -> queued (state_of s rq') = Some w' -> w.(sw_ptr) = w'.(sw_ptr) -> rq = rq';
  so_fresh : forall rq w, queued (state_of s rq) = Some w -> (w.(sw_ptr) < s.(sys_next))%positive;
  so_nodup : forall p, NoDup (map sw_ptr (queue_of s.(sys_queue) p));
  so_bound : forall p, len (queue_of s.(sys_queue) p) <= s.(sys_queue).(maxPending);
  so_nonempty : forall p, s.(sys_queue).(queues) !! p <> Some [];
  so_head : forall rq w, state_of s rq = Reserved w -> head s.(sys_queue) w = true;
  so_named : forall rq w, queued (state_of s rq) = Some w -> w.(sw_providerID) <> "";
  so_held_named : forall rq p, state_of s rq = Holding p -> p <> "";
}.

(** *** Requests *)

Lemma state_of_insert q m n rq st rq' :
  state_of (mkSystem q (<[rq := st]> m) n) rq' = if decide (rq' = rq) then st else default Outside (m !! rq').
Proof. unfold state_of. simpl. case_decide as E; [subst; by rewrite lookup_insert_eq|by rewrite lookup_insert_ne]. Qed.

Lemma holders_insert m rq st p :
  holders (<[rq := st]> m) p = holders m p - (if holds (default Outside (m !! rq)) p then 1 else 0) + (if holds st p then 1 else 0).
Proof.
  unfold holders. destruct (m !! rq) as [st0|] eqn:E; simpl.
  - rewrite (sum_map_update _ _ _ _ _ E). lia.
  - rewrite sum_map_insert by done. lia.
Qed.

Lemma holders_nonneg m p : 0 <= holders m p.
Proof. apply sum_map_nonneg. intros rq st _. case_match; lia. Qed.

Lemma holders_pos m rq p : holds (default Outside (m !! rq)) p = true -> 0 < holders m p.
Proof.
  intros H. unfold holders. destruct (m !! rq) as [st|] eqn:E; [|done]. simpl in H. rewrite (sum_map_lookup _ _ _ _ E), H.
  pose proof (holders_nonneg (delete rq m) p). unfold holders in *. lia.
Qed.

(** *** The queues *)

Lemma queue_push q w p : queue_of (push q w) p = if decide (p = w.(sw_providerID)) then queue_of q p ++ [w] else queue_of q p.
Proof. unfold queue_of, push. simpl. case_decide as E; [subst; by rewrite lookup_insert_eq|by rewrite lookup_insert_ne]. Qed.

Lemma remove_waiter_spec w l : NoDup (map sw_ptr l) ->
  match remove_waiter w l with
  | Some l' => (exists x, x ∈ l /\ sw_ptr x = sw_ptr w) /\ NoDup (map sw_ptr l') /\ (length l' <= length l)%nat
               /\ forall x, x ∈ l' <-> x ∈ l /\ sw_ptr x <> sw_ptr w
  | None => forall x, x ∈ l -> sw_ptr x <> sw_ptr w
  end.
Proof.
  induction l as [|x l IH]; intros Hn; simpl; [intros ? H; by apply elem_of_nil in H|]. simpl in Hn. apply NoDup_cons in Hn as [Hx Hn].
  case_bool_decide as E.
  - split_and!; [exists x; split; [left|done]|done|lia|]. intros y. rewrite elem_of_cons. split.
    + intros Hy. split; [by right|]. intros Ey. apply Hx. rewrite E, <- Ey. apply elem_of_map. eauto.
    + intros [[->|Hy] Ey]; done.
  - specialize (IH Hn). destruct (remove_waiter w l) as [l'|]; simpl.
    + destruct IH as ((y & Hy & Ey) & Hn' & Hlen & Hin). split_and!.
      * exists y. split; [by right|done].
      * simpl. apply NoDup_cons. split; [|done]. intros (z & Hz & Ez)%elem_of_map. apply Hx. apply Hin in Hz as [Hz _].
        apply elem_of_map. eauto.
      * simpl. lia.
      * intros z. rewrite !elem_of_cons, Hin. split; [intros [->|[? ?]]; auto|intros [[->|?] ?]; auto].
    + intros y [->|Hy]%elem_of_cons; [done|by apply IH].
Qed.

Lemma queue_leave_other q w p : p <> w.(sw_providerID) -> queue_of (leave q w) p = queue_of q p.
Proof. intros H. unfold leave, queue_of. repeat case_match; simpl; by rewrite ?lookup_insert_ne, ?lookup_delete_ne. Qed.

Lemma queue_leave q w : NoDup (map sw_ptr (queue_of q w.(sw_providerID))) ->
  queue_of (leave q w) w.(sw_providerID) = default (queue_of q w.(sw_providerID)) (remove_waiter w (queue_of q w.(sw_providerID))).
Proof.
  intros _. unfold leave. destruct (remove_waiter w (queue_of q (sw_providerID w))) as [[|x l]|]; simpl; unfold queue_of; simpl.
  - by rewrite lookup_delete_eq.
  - by rewrite lookup_insert_eq.
  - done.
Qed.

(** *** Entering *)

(** A candidate with room that has not been tried. *)
Definition open_to (q : slotQueue) (tried : gset string) (providerID : string) : Prop :=
  providerID <> "" /\ ~ (providerID ∈ tried) /\ len (queue_of q providerID) < q.(maxPending).

Lemma best_chosen q tried candidates :
  let best := fold_left (best_step q tried) candidates ("", 0) in
  best.1 <> "" -> best.1 ∈ candidates /\ open_to q tried best.1 /\ best.2 = len (queue_of q best.1).
Proof.
  cbv zeta. induction candidates as [|c l IH] using rev_ind; [done|].
  rewrite fold_left_app. cbn [fold_left]. set (best := fold_left _ l _) in *. clearbody best. destruct best as [b n]. cbn [fst snd] in *.
  assert (b <> "" -> b ∈ l ++ [c] /\ open_to q tried b /\ n = len (queue_of q b)) as IH'.
  { intros Hb. destruct (IH Hb) as (? & ? & ?). split_and!; [apply elem_of_app; by left|done..]. }
  unfold best_step. case_bool_decide as Et; [done|]. destruct (_ <=? _) eqn:El; [done|]. destruct (_ || _); [|done].
  cbn [fst snd]. intros Hc. split_and!; [apply elem_of_app; right; left| |done]. split_and!; [done..|lia].
Qed.

(** Among candidates with names the chosen queue is a shortest one. *)
Lemma best_shortest q tried candidates c :
  Forall (fun x => x <> "") candidates -> c ∈ candidates -> open_to q tried c ->
  let best := fold_left (best_step q tried) candidates ("", 0) in best.1 <> "" /\ best.2 <= len (queue_of q c).
Proof.
  cbv zeta. induction candidates as [|x l IH] using rev_ind; intros HF Hc Ho; [by apply elem_of_nil in Hc|].
  apply Forall_app in HF as [HF Hx]. rewrite Forall_singleton in Hx.
  rewrite fold_left_app. cbn [fold_left]. pose proof (best_chosen q tried l) as Hb. cbv zeta in Hb.
  set (best := fold_left _ l _) in *. clearbody best. destruct best as [b n]. cbn [fst snd] in *.
  apply elem_of_app in Hc as [Hc|Hc%list_elem_of_singleton].
  - destruct (IH HF Hc Ho) as [Hbn Hle]. unfold best_step. case_bool_decide; [done|]. destruct (_ <=? _); [done|].
    destruct (String.eqb b "" || _) eqn:E; [|done]. cbn [fst snd]. split; [done|].
    apply orb_true_iff in E as [E%String.eqb_eq|E]; [done|lia].
  - subst x. destruct Ho as (_ & Hnt & Hroom). unfold best_step. rewrite bool_decide_eq_false_2 by done.
    destruct (maxPending q <=? len (queue_of q c)) eqn:El; [lia|]. destruct (String.eqb b "" || _) eqn:E; cbn [fst snd]; [split; [done|lia]|].
    apply orb_false_iff in E as [E%String.eqb_neq E2]. split; [done|lia].
Qed.

Lemma enter_ok s rq candidates tried : system_ok s -> system_ok (queue_step s (EvEnter rq candidates tried)).
Proof.
  intros Hok. unfold queue_step. destruct (state_of s rq) eqn:Est; try done. unfold enterBest.
  pose proof (best_chosen (sys_queue s) tried candidates) as Hb. cbv zeta in Hb.
  destruct (fold_left _ candidates _) as [b n]. cbn [fst snd] in *. destruct (String.eqb b "") eqn:Eb; [done|]. apply String.eqb_neq in Eb.
  destruct (Hb Eb) as (_ & (_ & _ & Hroom) & _). clear Hb. destruct Hok as [H1 H2 H3 H4 H5 H6 H7 H8 H9 H10 H11].
  set (w := mkWaiter (sys_next s) b). unfold state_of in Est.
  split; cbn [sys_queue sys_requests sys_next].
  - intros p. rewrite holders_insert, Est. simpl. rewrite Z.sub_0_r, Z.add_0_r. apply H1.
  - apply H2.
  - intros x p. rewrite queue_push. split.
    + intros Hx. case_decide as Ep; [apply elem_of_app in Hx as [Hx|Hx%list_elem_of_singleton]|]; [|subst x|].
      * apply H3 in Hx as (Hp & r & Hr). split; [done|]. exists r. rewrite state_of_insert. case_decide as Er; [|done].
        subst r. unfold state_of in Hr. by rewrite Est in Hr.
      * split; [done|]. exists rq. rewrite state_of_insert. by rewrite decide_True.
      * apply H3 in Hx as (Hp & r & Hr). split; [done|]. exists r. rewrite state_of_insert. case_decide as Er; [|done].
        subst r. unfold state_of in Hr. by rewrite Est in Hr.
    + intros (Hp & r & Hr). rewrite state_of_insert in Hr. case_decide as Er.
      * simpl in Hr. injection Hr as <-. subst p. rewrite decide_True by done. apply elem_of_app. right. left.
      * assert (x ∈ queue_of (sys_queue s) p) as Hx by (apply H3; split; [done|]; by exists r).
        case_decide; [apply elem_of_app; by left|done].
  - intros r r' x x' Hr Hr' Hxx. rewrite state_of_insert in Hr, Hr'. destruct (decide (r = rq)) as [->|Hn], (decide (r' = rq)) as [->|Hn'].
    + done.
    + cbn [queued] in Hr. injection Hr as Hr. apply H5 in Hr'. rewrite <- Hxx, <- Hr in Hr'. by apply Pos.lt_irrefl in Hr'.
    + cbn [queued] in Hr'. injection Hr' as Hr'. apply H5 in Hr. rewrite Hxx, <- Hr' in Hr. by apply Pos.lt_irrefl in Hr.
    + by apply (H4 r r' x x').
  - intros r x Hr. rewrite state_of_insert in Hr. case_decide; [simpl in Hr; injection Hr as <-; apply Pos.lt_succ_diag_r|].
    apply H5 in Hr. etransitivity; [exact Hr|apply Pos.lt_succ_diag_r].
  - intros p. rewrite queue_push. case_decide as Ep; [|apply H6]. rewrite map_app. apply NoDup_app. split_and!; [apply H6| |apply NoDup_singleton].
    intros ptr (x & Hx & ->)%elem_of_map Hptr%list_elem_of_singleton. apply H3 in Hx as (_ & r & Hr). apply H5 in Hr.
    simpl in Hptr. rewrite Hptr in Hr. by apply Pos.lt_irrefl in Hr.
  - intros p. rewrite queue_push. case_decide as Ep; [|apply H7]. subst p. unfold len in *. rewrite length_app. simpl in *. lia.
  - intros p. unfold push. cbn [queues]. simpl. destruct (decide (p = b)) as [->|Hn]; [|by rewrite lookup_insert_ne].
    rewrite lookup_insert_eq. intros [= E]. symmetry in E. by apply app_cons_not_nil in E.
  - intros r x Hr. rewrite state_of_insert in Hr. case_decide; [done|]. specialize (H9 _ _ Hr). unfold head in *. rewrite queue_push.
    case_decide; [|done]. by destruct (queue_of (sys_queue s) (sw_providerID x)).
  - intros r x Hr. rewrite state_of_insert in Hr. case_decide; [simpl in Hr; by injection Hr as <-|by apply (H10 r)].
  - intros r p Hr. rewrite state_of_insert in Hr. case_decide; [done|by apply (H11 r)].
Qed.

(** *** Reserving *)

(** The queues, and who waits in them, stay as they are. *)
Lemma same_queues_ok s rq st q' :
  system_ok s -> queued st = queued (state_of s rq) ->
  queues q' = queues s.(sys_queue) -> maxPending q' = maxPending s.(sys_queue) ->
  (forall p, reserved_of q' p = holders (<[rq := st]> s.(sys_requests)) p) ->
  (forall p n, reserved q' !! p = Some n -> 0 < n <= Int64.max) ->
  (forall w, st = Reserved w -> head s.(sys_queue) w = true) -> (forall p, st = Holding p -> p <> "") ->
  system_ok (become s q' rq st).
Proof.
  intros [H1 H2 H3 H4 H5 H6 H7 H8 H9 H10 H11] Hst Eq Em Hres Hpos Hhead Hnamed.
  assert (forall p, queue_of q' p = queue_of (sys_queue s) p) as Hq by (intros p; unfold queue_of; by rewrite Eq).
  assert (forall r, queued (state_of (become s q' rq st) r) = queued (state_of s r)) as Hs.
  { intros r. unfold become. rewrite state_of_insert. case_decide as E; [by subst|done]. }
  split; cbn [become sys_queue sys_requests sys_next]; auto.
  - intros w p. rewrite Hq, H3. split; intros [? [r Hr]]; (split; [done|]); exists r; [by rewrite Hs|by rewrite Hs in Hr].
  - intros r r' w w'. rewrite !Hs. apply H4.
  - intros r w. rewrite Hs. apply H5.
  - intros p. rewrite Hq. apply H6.
  - intros p. rewrite Hq, Em. apply H7.
  - intros p. rewrite Eq. apply H8.
  - intros r w Hr. unfold head. rewrite Hq. unfold become in Hr. rewrite state_of_insert in Hr. case_decide; [by apply Hhead|by apply (H9 r)].
  - intros r w. rewrite Hs. apply H10.
  - intros r p Hr. unfold become in Hr. rewrite state_of_insert in Hr. case_decide; [by apply Hnamed|by apply (H11 r)].
Qed.

Lemma holders_become s rq st p :
  holders (<[rq := st]> s.(sys_requests)) p
  = holders s.(sys_requests) p - (if holds (state_of s rq) p then 1 else 0) + (if holds st p then 1 else 0).
Proof. apply holders_insert. Qed.

(** A granted reservation: the waiter is first in its queue, and fewer slots are taken
    than the provider has free. *)
Lemma reserve_granted q w slotsFree q' :
  0 <= reserved_of q w.(sw_providerID) <= Int64.max -> 0 < slotsFree <= Int64.max -> reserveHead q w slotsFree = (q', true) ->
  head q w = true /\ reserved_of q w.(sw_providerID) < slotsFree
  /\ q' = q <| reserved := <[w.(sw_providerID) := reserved_of q w.(sw_providerID) + 1]> q.(reserved) |>.
Proof.
  intros Hr Hs. unfold reserveHead. destruct (head q w); [|done]. cbn [negb]. destruct (_ <=? 0) eqn:E; [done|]. intros [= <-].
  destruct (Z.le_gt_cases slotsFree (reserved_of q (sw_providerID w))) as [Hle|Hlt].
  { exfalso. rewrite Int64.sub_exact in E; i64; lia. }
  rewrite Int64.add_exact by (i64; lia). done.
Qed.

Lemma reserved_range s p : system_ok s -> 0 <= reserved_of s.(sys_queue) p <= Int64.max.
Proof.
  intros Hok. unfold reserved_of. destruct (reserved (sys_queue s) !! p) as [n|] eqn:E; simpl; [|i64; lia].
  pose proof (so_positive s Hok p n E). lia.
Qed.

Lemma poll_ok s rq slotsFree : system_ok s -> slotsFree <= Int64.max -> system_ok (queue_step s (EvPoll rq slotsFree)).
Proof.
  intros Hok Hmax. unfold queue_step. destruct (state_of s rq) as [|w|w|p] eqn:Est; try done. destruct (slotsFree <=? 0) eqn:E0; [done|].
  destruct (reserveHead (sys_queue s) w slotsFree) as [q' []] eqn:Er; [|done].
  destruct (reserve_granted (sys_queue s) w slotsFree q') as (Hh & Hlt & ->); [by apply reserved_range|lia|done|].
  pose proof (reserved_range s (sw_providerID w) Hok) as Hr.
  apply same_queues_ok; [done|by rewrite Est|done|done| | |by intros ? [= <-]|done].
  - intros p. rewrite holders_become, Est, <- (so_reserved s Hok p). unfold reserved_of. simpl.
    destruct (String.eqb (sw_providerID w) p) eqn:Ep.
    + apply String.eqb_eq in Ep. subst p. rewrite lookup_insert_eq. simpl. lia.
    + apply String.eqb_neq in Ep. rewrite lookup_insert_ne by done. lia.
  - intros p n. simpl. intros [[<- <-]|[_ Hn]]%lookup_insert_Some; [lia|by apply (so_positive s Hok p)].
Qed.

(** *** Releasing *)

Lemma release_slot_ok s rq : system_ok s -> system_ok (queue_step s (EvRelease rq)).
Proof.
  intros Hok. unfold queue_step. destruct (state_of s rq) as [|w|w|p] eqn:Est; try done.
  pose proof (so_held_named s Hok rq p Est) as Hp. unfold releaseReservation. rewrite (proj2 (String.eqb_neq p "") Hp).
  assert (0 < holders (sys_requests s) p) as Hpos.
  { apply (holders_pos _ rq). fold (state_of s rq). rewrite Est. apply String.eqb_refl. }
  rewrite <- (so_reserved s Hok p) in Hpos. pose proof (reserved_range s p Hok) as Hr.
  assert (forall p', holders (<[rq := Outside]> (sys_requests s)) p' = reserved_of (sys_queue s) p' - (if String.eqb p p' then 1 else 0)) as Hh.
  { intros p'. rewrite holders_become, Est, (so_reserved s Hok p'). simpl. lia. }
  destruct (reserved_of (sys_queue s) p <=? 1) eqn:E1.
  - apply same_queues_ok; [done|by rewrite Est|done|done| | |done|done].
    + intros p'. rewrite Hh. unfold reserved_of in *. simpl. destruct (String.eqb p p') eqn:Ep.
      * apply String.eqb_eq in Ep. subst p'. rewrite lookup_delete_eq. simpl. lia.
      * apply String.eqb_neq in Ep. rewrite lookup_delete_ne by done. lia.
    + intros p' n. simpl. intros [_ Hn]%lookup_delete_Some. by apply (so_positive s Hok p').
  - rewrite Int64.sub_exact by (i64; lia). apply same_queues_ok; [done|by rewrite Est|done|done| | |done|done].
    + intros p'. rewrite Hh. unfold reserved_of in *. simpl. destruct (String.eqb p p') eqn:Ep.
      * apply String.eqb_eq in Ep. subst p'. rewrite lookup_insert_eq. done.
      * apply String.eqb_neq in Ep. rewrite lookup_insert_ne by done. lia.
    + intros p' n. simpl. intros [[<- <-]|[_ Hn]]%lookup_insert_Some; [lia|by apply (so_positive s Hok p')].
Qed.

(** *** Leaving *)

(** The request's waiter [w] leaves, whatever the request becomes without one. *)
Lemma leave_queue_ok s rq w st :
  system_ok s -> queued (state_of s rq) = Some w -> queued st = None ->
  (forall p, holds st p = holds (state_of s rq) p) -> (forall p, st = Holding p -> p <> "") ->
  system_ok (become s (leave s.(sys_queue) w) rq st).
Proof.
  intros [H1 H2 H3 H4 H5 H6 H7 H8 H9 H10 H11] Hw Hst Hholds Hnamed. set (p0 := sw_providerID w).
  assert (reserved (leave (sys_queue s) w) = reserved (sys_queue s)) as Er by (unfold leave; by repeat case_match).
  assert (maxPending (leave (sys_queue s) w) = maxPending (sys_queue s)) as Em by (unfold leave; by repeat case_match).
  pose proof (queue_leave (sys_queue s) w (H6 _)) as Eq. pose proof (remove_waiter_spec w (queue_of (sys_queue s) p0) (H6 _)) as Hspec.
  destruct (remove_waiter w (queue_of (sys_queue s) p0)) as [l|] eqn:El.
  2:{ exfalso. apply (Hspec w); [|done]. apply H3. split; [done|by exists rq]. }
  fold p0 in Eq. rewrite El in Eq. cbn [default from_option id] in Eq. destruct Hspec as (_ & Hnd & Hlen & Hin).
  assert (forall x p, x ∈ queue_of (leave (sys_queue s) w) p <-> x ∈ queue_of (sys_queue s) p /\ sw_ptr x <> sw_ptr w) as Helem.
  { intros x p. destruct (decide (p = p0)) as [->|Hn]; [by rewrite Eq, Hin|]. rewrite queue_leave_other by done.
    split; [|tauto]. intros Hx. split; [done|]. intros Ex. apply H3 in Hx as (Hp & r & Hr).
    assert (r = rq) as -> by (by apply (H4 r rq x w)). assert (x = w) as -> by congruence. done. }
  split; cbn [become sys_queue sys_requests sys_next].
  - intros p. unfold reserved_of. rewrite Er. fold (reserved_of (sys_queue s) p). rewrite holders_become, Hholds, H1. lia.
  - intros p n. rewrite Er. apply H2.
  - intros x p. rewrite Helem, H3. unfold become. split.
    + intros [[Hp [r Hr]] Hn]. split; [done|]. exists r. rewrite state_of_insert. case_decide as E; [|done].
      subst r. congruence.
    + intros (Hp & r & Hr). rewrite state_of_insert in Hr. case_decide as E; [congruence|]. split; [split; [done|by exists r]|].
      intros Ex. apply E. by apply (H4 r rq x w).
  - intros r r' x x' Hr Hr' Hx. unfold become in *. rewrite state_of_insert in Hr, Hr'. repeat case_decide; try congruence. by apply (H4 r r' x x').
  - intros r x Hr. unfold become in Hr. rewrite state_of_insert in Hr. case_decide; [congruence|by apply (H5 r)].
  - intros p. destruct (decide (p = p0)) as [->|Hn]; [by rewrite Eq|]. rewrite queue_leave_other by done. apply H6.
  - intros p. rewrite Em. destruct (decide (p = p0)) as [->|Hn]; [|rewrite queue_leave_other by done; apply H7].
    rewrite Eq. specialize (H7 p0). unfold len in *. lia.
  - intros p. unfold leave. fold p0. rewrite El. destruct l as [|y l]; simpl.
    + intros [_ Hp]%lookup_delete_Some. by apply (H8 p).
    + intros [[_ Hp]|[_ Hp]]%lookup_insert_Some; [done|by apply (H8 p)].
  - intros r x Hr. unfold become in Hr. rewrite state_of_insert in Hr. case_decide as E; [subst st; done|]. specialize (H9 _ _ Hr).
    unfold head in *. destruct (decide (sw_providerID x = p0)) as [Ep|Hn]; [|by rewrite queue_leave_other].
    rewrite Ep in *. rewrite Eq. destruct (queue_of (sys_queue s) p0) as [|y l0] eqn:Eq0; [done|]. simpl in El.
    apply bool_decide_eq_true_1 in H9. destruct (bool_decide (sw_ptr y = sw_ptr w)) eqn:Ey.
    + apply bool_decide_eq_true_1 in Ey. exfalso. apply E. apply (H4 r rq x w); [|done|congruence]. unfold state_of. by rewrite Hr.
    + apply bind_Some in El as (rest & _ & [= <-]). by rewrite bool_decide_eq_true_2.
  - intros r x Hr. unfold become in Hr. rewrite state_of_insert in Hr. case_decide; [congruence|by apply (H10 r)].
  - intros r p Hr. unfold become in Hr. rewrite state_of_insert in Hr. case_decide; [by apply Hnamed|by apply (H11 r)].
Qed.

Lemma leave_ok s rq : system_ok s -> system_ok (queue_step s (EvLeave rq)).
Proof.
  intros Hok. unfold queue_step. destruct (state_of s rq) as [|w|w|p] eqn:Est; try done.
  - by apply leave_queue_ok; rewrite ?Est.
  - apply leave_queue_ok; rewrite ?Est; try done. intros p [= <-]. apply (so_named s Hok rq). by rewrite Est.
Qed.

(** ** Runs *)

(** What a snapshot reports as free slots is a machine integer. *)
Definition event_ok (ev : queue_event) : Prop := match ev with EvPoll _ slotsFree => slotsFree <= Int64.max | _ => True end.

Lemma queue_step_ok s ev : system_ok s -> event_ok ev -> system_ok (queue_step s ev).
Proof. intros Hok Hev. destruct ev; [by apply enter_ok|by apply poll_ok|by apply leave_ok|by apply release_slot_ok]. Qed.

Lemma queue_run_ok events : forall s, system_ok s -> Forall event_ok events -> system_ok (queue_run s events).
Proof.
  induction events as [|ev events IH]; intros s Hok Hev; simpl; [done|]. apply Forall_cons in Hev as [H1 H2].
  apply IH; [by apply queue_step_ok|done].
Qed.

Lemma new_system_ok max : system_ok (new_system max).
Proof.
  assert (forall p, queue_of (sys_queue (new_system max)) p = []) as Eq by done.
  split; try done.
  - intros w p. rewrite Eq. split; [intros H; by apply elem_of_nil in H|]. by intros (_ & rq & H).
  - intros p. rewrite Eq. constructor.
  - intros p. rewrite Eq. unfold len. simpl. case_match; lia.
Qed.

(** *** Order of arrival *)

Definition in_arrival_order (s : System) : Prop := forall p, StronglySorted Pos.lt (map sw_ptr (queue_of s.(sys_queue) p)).

Lemma remove_waiter_sorted w l l' : remove_waiter w l = Some l' -> StronglySorted Pos.lt (map sw_ptr l) -> StronglySorted Pos.lt (map sw_ptr l').
Proof.
  revert l'. induction l as [|x l IH]; intros l'; simpl; [done|]. intros H Hs. apply StronglySorted_cons in Hs as [Hx Hs].
  case_bool_decide; [by injection H as <-|]. apply bind_Some in H as (rest & H & [= <-]). simpl. apply StronglySorted_cons.
  split; [|by apply IH]. rewrite Forall_forall in Hx |- *. intros ptr (y & Hy & ->)%elem_of_map. apply Hx. apply elem_of_map. exists y.
  split; [|done]. clear -H Hy. revert rest H Hy. induction l as [|z l IH]; intros rest H Hy; simpl in H; [done|].
  case_bool_decide; [injection H as <-; by right|]. apply bind_Some in H as (rest' & H & [= <-]).
  apply elem_of_cons in Hy as [->|Hy]; [left|right; by apply (IH rest')].
Qed.

Lemma leave_sorted s w : in_arrival_order s -> forall p, StronglySorted Pos.lt (map sw_ptr (queue_of (leave s.(sys_queue) w) p)).
Proof.
  intros Hs p. destruct (decide (p = sw_providerID w)) as [->|Hn]; [|rewrite queue_leave_other by done; apply Hs].
  specialize (Hs (sw_providerID w)). unfold leave. destruct (remove_waiter w _) as [[|x l]|] eqn:E; [..|done].
  - unfold queue_of. simpl. rewrite lookup_delete_eq. constructor.
  - unfold queue_of at 1. simpl. rewrite lookup_insert_eq. by apply (remove_waiter_sorted _ _ _ E).
Qed.

Lemma step_in_order s ev : system_ok s -> in_arrival_order s -> in_arrival_order (queue_step s ev).
Proof.
  intros Hok Hs. destruct ev as [rq candidates tried|rq slotsFree|rq|rq]; unfold queue_step; destruct (state_of s rq) as [|w|w|p] eqn:Est; try done.
  - unfold enterBest. destruct (String.eqb _ ""); [done|]. set (w := mkWaiter _ _). intros p. simpl sys_queue. rewrite queue_push.
    case_decide as Ep; [|apply Hs]. rewrite map_app. apply StronglySorted_app_2; [|apply Hs|repeat constructor].
    intros x y (z & Hz & ->)%elem_of_map ->%list_elem_of_singleton. apply (so_queued s Hok) in Hz as (_ & r & Hr). by apply (so_fresh s Hok r).
  - case_match; [done|]. unfold reserveHead. by repeat case_match; simplify_eq.
  - intros p. by apply leave_sorted.
  - intros p. by apply leave_sorted.
  - unfold releaseReservation. by repeat case_match.
Qed.

Lemma run_in_order events : forall s, system_ok s -> in_arrival_order s -> Forall event_ok events -> in_arrival_order (queue_run s events).
Proof.
  induction events as [|ev events IH]; intros s Hok Hs Hev; simpl; [done|]. apply Forall_cons in Hev as [H1 H2].
  apply IH; [by apply queue_step_ok|by apply step_in_order|done].
Qed.

Lemma head_spec s w : system_ok s -> in_arrival_order s -> w ∈ queue_of s.(sys_queue) w.(sw_providerID) ->
  head s.(sys_queue) w = true <-> forall w', w' ∈ queue_of s.(sys_queue) w.(sw_providerID) -> (w.(sw_ptr) <= w'.(sw_ptr))%positive.
Proof.
  intros Hok Hs Hw. unfold head. specialize (Hs (sw_providerID w)). destruct (queue_of _ _) as [|x l]; [by apply elem_of_nil in Hw|].
  simpl in Hs. apply StronglySorted_cons in Hs as [Hx _]. rewrite Forall_forall in Hx.
  assert (forall y, y ∈ l -> (sw_ptr x < sw_ptr y)%positive) as Hlt by (intros y Hy; apply Hx, elem_of_map; eauto). split.
  - intros E%bool_decide_eq_true_1 w' [->|Hw']%elem_of_cons; rewrite <- E; [lia|]. specialize (Hlt _ Hw'). lia.
  - intros H. apply bool_decide_eq_true_2. apply elem_of_cons in Hw as [->|Hw]; [done|]. specialize (Hlt _ Hw).
    specialize (H x ltac:(left)). lia.
Qed.

Lemma run_max events : forall s, maxPending (queue_run s events).(sys_queue) = maxPending s.(sys_queue).
Proof.
  induction events as [|ev events IH]; intros s; simpl; [done|]. rewrite IH. unfold queue_step, enterBest, reserveHead, leave, releaseReservation.
  by repeat case_match; simplify_eq.
Qed.

Lemma holders_zero m p : (forall rq st, m !! rq = Some st -> st = Outside) -> holders m p = 0.
Proof.
  unfold holders. induction m as [|rq st m Hm IH] using map_ind; intros H; [apply sum_map_empty|].
  rewrite sum_map_insert by done. rewrite (H rq st) by apply lookup_insert_eq. simpl. apply IH.
  intros rq' st' Hst. apply (H rq'). rewrite lookup_insert_ne; [done|]. intros ->. congruence.
Qed.

(** ** What the queue promises *)

(** Claim C21. The queue accounts for every slot and every waiter. In any interleaving of
    any number of requests the reservations of a provider are exactly the requests that
    hold one of its slots, and no provider has more waiting requests than the limit.
    When no request waits or holds a slot, the queue is empty: nothing leaks. *)
Theorem slot_queue_accounts (max : Z) (events : list queue_event) :
  Forall event_ok events ->
  let s := queue_run (new_system max) events in
  (forall p, reserved_of s.(sys_queue) p = holders s.(sys_requests) p)
  /\ (forall p, len (queue_of s.(sys_queue) p) <= Z.max 1 max)
  /\ ((forall rq, state_of s rq = Outside) -> s.(sys_queue).(queues) = ∅ /\ s.(sys_queue).(reserved) = ∅).
Proof.
  intros Hev s. assert (system_ok s) as Hok by (apply queue_run_ok; [apply new_system_ok|done]).
  split_and!.
  - apply (so_reserved s Hok).
  - intros p. etransitivity; [apply (so_bound s Hok)|]. unfold s. rewrite run_max. simpl. case_match; lia.
  - intros Hout. split; apply map_eq; intros p; rewrite lookup_empty.
    + destruct (queues (sys_queue s) !! p) as [[|w l]|] eqn:E; [|exfalso|done].
      * by apply (so_nonempty s Hok) in E.
      * assert (w ∈ queue_of (sys_queue s) p) as Hw by (unfold queue_of; rewrite E; left).
        apply (so_queued s Hok) in Hw as (_ & rq & Hrq). by rewrite Hout in Hrq.
    + destruct (reserved (sys_queue s) !! p) as [n|] eqn:E; [exfalso|done]. pose proof (so_positive s Hok _ _ E).
      pose proof (so_reserved s Hok p) as Hr. unfold reserved_of in Hr. rewrite E in Hr. simpl in Hr.
      assert (holders (sys_requests s) p = 0); [|lia]. apply holders_zero. intros rq st Hst. specialize (Hout rq).
      unfold state_of in Hout. rewrite Hst in Hout. simpl in Hout. by subst.
Qed.

(** Slots are handed out in the order of arrival. A poll of a waiting request
    takes a slot of its provider exactly when no request that is still in that queue came
    before it and fewer slots are reserved than the provider reports free; so the
    reservations never exceed the free slots at the time they are made. *)
Theorem slot_granted_in_turn (max : Z) (events : list queue_event) (rq : positive) (w : slotWaiter) (slotsFree : Z) :
  let s := queue_run (new_system max) events in
  let s' := queue_step s (EvPoll rq slotsFree) in
  let p := w.(sw_providerID) in
  Forall event_ok events -> state_of s rq = Waiting w -> 0 < slotsFree <= Int64.max ->
  (state_of s' rq = Reserved w <->
    (forall rq' w', queued (state_of s rq') = Some w' -> w'.(sw_providerID) = p -> (w.(sw_ptr) <= w'.(sw_ptr))%positive)
    /\ holders s.(sys_requests) p < slotsFree)
  /\ (state_of s' rq = Reserved w -> holders s'.(sys_requests) p <= slotsFree).
Proof.
  intros s s' p Hev Est Hfree. assert (system_ok s) as Hok by (apply queue_run_ok; [apply new_system_ok|done]).
  assert (in_arrival_order s) as Hord by (apply run_in_order; [apply new_system_ok|intros q; constructor|done]).
  assert (w ∈ queue_of (sys_queue s) p) as Hw by (apply (so_queued s Hok); split; [done|]; exists rq; by rewrite Est).
  assert (holders (sys_requests s) p = reserved_of (sys_queue s) p) as Eh by (by rewrite (so_reserved s Hok)).
  pose proof (reserved_range s p Hok) as Hr.
  assert ((forall rq' w', queued (state_of s rq') = Some w' -> sw_providerID w' = p -> (sw_ptr w <= sw_ptr w')%positive) <-> head (sys_queue s) w = true) as Hhead.
  { rewrite (head_spec s w Hok Hord Hw). split.
    - intros H w' (Hp & r & Hr')%(so_queued s Hok). by apply (H r).
    - intros H r w' Hr' Hp. apply H. apply (so_queued s Hok). split; [done|by exists r]. }
  rewrite Hhead, Eh. unfold s', queue_step. rewrite Est. destruct (slotsFree <=? 0) eqn:E0; [lia|].
  destruct (reserveHead (sys_queue s) w slotsFree) as [q' []] eqn:Er.
  - destruct (reserve_granted (sys_queue s) w slotsFree q' Hr ltac:(lia) Er) as (Hh & Hlt & ->). split.
    + split; [done|]. intros _. unfold become. rewrite state_of_insert. by rewrite decide_True.
    + intros _. cbn [become sys_requests]. rewrite holders_become, Est. simpl. unfold p in *. rewrite String.eqb_refl. lia.
  - rewrite Est. split; [|done]. split; [done|]. intros [Hh Hlt]. unfold reserveHead in Er. rewrite Hh in Er. cbn [negb] in Er.
    fold p in Er. rewrite Int64.sub_exact in Er by (i64; lia). destruct (_ - _ <=? 0) eqn:E in Er; [lia|done].
Qed.

Module SlotSample.
Definition run1 : list queue_event := [EvEnter 1 ["a"; "b"] ∅; EvEnter 2 ["a"] ∅; EvEnter 3 ["a"; "b"] ∅; EvPoll 2 1].
Definition run2 : list queue_event := run1 ++ [EvPoll 1 1; EvLeave 1; EvPoll 2 1; EvLeave 2; EvRelease 1; EvLeave 3].
End SlotSample.

Lemma slot_queue_accounts_witness :
  let s := queue_run (new_system 2) SlotSample.run2 in
  s.(sys_queue).(queues) = ∅ /\ s.(sys_queue).(reserved) = ∅
  /\ reserved_of (queue_run (new_system 2) (SlotSample.run1 ++ [EvPoll 1 1])).(sys_queue) "a" = 1.
Proof.
  destruct (slot_queue_accounts 2 SlotSample.run2) as (_ & _ & H); [repeat constructor; vm_compute; discriminate|].
  destruct H as [H1 H2]; [|split_and!; [exact H1|exact H2|by vm_compute]].
  intros rq. destruct (decide (rq = 1%positive)) as [->|H1]; [done|]. destruct (decide (rq = 2%positive)) as [->|H2]; [done|].
  destruct (decide (rq = 3%positive)) as [->|H3]; [done|]. unfold state_of.
  replace (sys_requests (queue_run (new_system 2) SlotSample.run2))
    with ({[1%positive := Outside; 2%positive := Outside; 3%positive := Outside]} : gmap positive RequestState) by (by vm_compute).
  by rewrite !lookup_insert_ne, ?lookup_singleton_ne by done.
Defined.

Lemma slot_granted_in_turn_witness :
  let s := queue_run (new_system 2) SlotSample.run1 in
  state_of (queue_step s (EvPoll 2 1)) 2 = Waiting (mkWaiter 2 "a") /\ state_of (queue_step s (EvPoll 1 1)) 1 = Reserved (mkWaiter 1 "a")
  /\ holders (queue_step s (EvPoll 1 1)).(sys_requests) "a" <= 1.
Proof.
  split_and!; [by vm_compute..|].
  apply (slot_granted_in_turn 2 SlotSample.run1 1 (mkWaiter 1 "a") 1);
    [repeat constructor; vm_compute; discriminate|by vm_compute|split; [done|vm_compute; discriminate]|by vm_compute].
Defined.
