(* ===== verification/Selection.v ===== *)
(** * Selection of a provider

    Models how [buyer/server.go] picks the provider of a request: the pinned routes, the
    candidates of Routing under the checks of the server, the ranking, sticky affinity,
    the random choice among equals, the preflight and the slot queue. *)

From S2P Require Import Prelude Jcs GoTime GoFloat GoSort Sticky VersionFloor Pool PoolHolds Tier2 Routing SlotQueue.
#[local] Open Scope Z_scope.

(** ** Headers

    [http.Header]: the values of each field under its canonical name. *)

Definition Header : Type := gmap string (list string).

Definition token_char (c : ascii) : bool :=
  let n := N_of_ascii c in
  (((48 <=? n) && (n <=? 57)) || ((65 <=? n) && (n <=? 90)) || ((97 <=? n) && (n <=? 122)))%N
  || existsb (Ascii.eqb c) (GoStr.chars "!#$%&'*+-.^_`|~").
Definition upper_ascii (c : ascii) : ascii :=
  let n := N_of_ascii c in if ((97 <=? n) && (n <=? 122))%N then ascii_of_N (n - 32) else c.
Fixpoint canonical_chars (upper : bool) (l : list ascii) : list ascii :=
  match l with
  | [] => []
  | c :: l => (if upper then upper_ascii c else GoStr.lower_ascii c) :: canonical_chars (Ascii.eqb c "-") l
  end.
Definition CanonicalHeaderKey (name : string) : string :=
  if forallb token_char (GoStr.chars name) then GoStr.of_chars (canonical_chars true (GoStr.chars name)) else name.

Definition Get (h : Header) (name : string) : string :=
  match h !! CanonicalHeaderKey name with Some (v :: _) => v | _ => "" end.
Definition Del (h : Header) (name : string) : Header := delete (CanonicalHeaderKey name) h.

(** The fields the sticky path reads. *)
Definition sticky_headers (h : Header) : Headers :=
  mkHeaders (Get h "X-MacProvider-Provider") (Get h "X-MacProvider-Session") (Get h "X-MacProvider-Internal-Conv")
    (Get h "X-MacProvider-Account").
Definition pinned_route (h : Header) : bool := hasPinnedRoute (sticky_headers h).

Definition hasInternalRoutingHeader (h : Header) : bool :=
  existsb (fun kv : string * list string =>
    let lowerKey := GoStr.ToLower kv.1 in
    (String.eqb lowerKey "x-macprovider-account" || GoStr.HasPrefix lowerKey "x-macprovider-internal-")
    && existsb (fun value => negb (String.eqb (GoStr.TrimSpace value) "")) kv.2) (map_to_list h).

(** [auth.BearerTokenMatchesHeader]; [sha256] is the hash of the standard library. *)
Definition BearerTokenMatchesHeader (sha256 : string -> string) (h : Header) (expected : string) : bool :=
  let expected := GoStr.TrimSpace expected in
  if String.eqb expected "" then false
  else
  let auth := GoStr.TrimSpace (Get h "Authorization") in
  if negb (GoStr.HasPrefix auth "Bearer ") then false
  else String.eqb (sha256 (GoStr.TrimSpace (GoStr.TrimPrefix auth "Bearer "))) (sha256 expected).
Definition internalBearerAuthorized (sha256 : string -> string) (serviceToken : string) (h : Header) : bool :=
  negb (String.eqb serviceToken "") && BearerTokenMatchesHeader sha256 h serviceToken.

(** ** The server *)

Record ModelClassConfig := mkClass { mc_Members : list string; mc_Models : list string; mc_Objective : string }.

(** What a preflight call returns. *)
Inductive PreflightOutcome :=
  | PreflightError
  | PreflightTimeout
  | PreflightAnswer (accepted : bool) (reason : string).

Record Server := mkServer {
  s_tier2 : Tier2Config;
  s_modelVersionFloors : gmap string string;
  s_modelClasses : gmap string ModelClassConfig;
  s_gatewayServiceToken : string;
  s_provisionalWeight : float64;
  s_tiebreakRandomize : bool;
  s_tiebreakEpsilon : float64;
  s_stickyEnabled : bool;
  s_failoverEnabled : bool;
  s_preflightThreshold : Z;
  s_preflight : option (Provider -> string -> Z -> PreflightOutcome);
}.

(** What the server reads from outside: the order in which it ranges over its maps, the
    hash, the quota of the admission manager at this time, and the first draw of the
    random generator for a seed. *)
Record SelectEnv := mkEnv {
  e_floor_order : gmap string string -> list (string * string);
  e_class_order : gmap string ModelClassConfig -> list (string * ModelClassConfig);
  e_sha256 : string -> string;
  e_checkQuota : Provider -> bool;
  e_draw : Z -> float64;
  e_now : Z;
}.

Record routeError := mkRouteError { re_status : Z; re_code : string; re_message : string; re_typ : string }.
Definition plain_error (status : Z) (code message : string) : routeError := mkRouteError status code message "".

Record chatRequest := mkChatRequest { cr_Model : string; cr_Stream : bool; cr_raw : string }.

Definition estimateTokens (raw : string) : Z :=
  let n := Z.quot (Z.of_nat (String.length raw)) 4 in if n <? 1 then 1 else n.

Definition weights (s : Server) : Weights := mkWeights F64.one s.(s_provisionalWeight).

Definition modelIDEqual (a b : string) : bool := GoStr.EqualFold a b.

Definition modelClassMembers (class : option ModelClassConfig) : list string :=
  match class with
  | None => []
  | Some class => if (0 <? Z.of_nat (length class.(mc_Models))) then class.(mc_Models) else class.(mc_Members)
  end.

Section Server.
Context (s : Server) (e : SelectEnv).

Definition resolveModelClass (model : string) : option ModelClassConfig :=
  snd <$> find (fun kv : string * ModelClassConfig => GoStr.EqualFold kv.1 model) (e.(e_class_order) s.(s_modelClasses)).

Definition classForRequest (model : string) (providers : list Provider) : option ModelClassConfig :=
  if existsb (fun p => modelIDEqual p.(p_ModelID) model) providers then None else resolveModelClass model.

Definition providerMatchesRequest (p : Provider) (model : string) (class : option ModelClassConfig) : bool :=
  match class with
  | None => modelIDEqual p.(p_ModelID) model
  | Some _ => existsb (modelIDEqual p.(p_ModelID)) (modelClassMembers class)
  end.

Definition objectiveForRequest (h : Header) (class : option ModelClassConfig) : string :=
  match class with
  | Some class => class.(mc_Objective)
  | None =>
      let pref := Get h "X-MacProvider-Pref" in
      if String.eqb pref "fast" || String.eqb pref "accurate" then pref else "default"
  end.

Definition providerMeetsModelVersionFloor (p : Provider) : bool :=
  Allowed (Check e.(e_floor_order) s.(s_modelVersionFloors) p.(p_ModelID) p.(p_BinaryVersion)).
Definition modelVersionFloorFor (p : Provider) : string :=
  Floor (Check e.(e_floor_order) s.(s_modelVersionFloors) p.(p_ModelID) p.(p_BinaryVersion)).

Definition tier2ProviderExcluded (p : Provider) : bool := tier2ProviderExcludedForConfig p s.(s_tier2).

(** [eligibilityCtx.Tier2Decision]. *)
Definition tier2_decision (p : Provider) : option RejectionReason * string :=
  let cfg := s.(s_tier2) in
  let hashStatus := effectiveHashStatus p cfg in
  if tier2ProviderExcludedStatus hashStatus cfg then
    (Some (if String.eqb hashStatus HashStatusMismatch || String.eqb hashStatus HashStatusInvalid then ReasonTier2HashMismatch
           else ReasonTier2HashRequired), hashStatus)
  else if missing_leg p cfg then (Some ReasonTier2EncryptedLeg, hashStatus)
  else if missing_attestation p cfg then (Some ReasonTier2Attestation, hashStatus)
  else (None, hashStatus).

Definition eligibilityCtx (model : string) (class : option ModelClassConfig) (estimatedTokens : Z) : EligibilityChecker :=
  mkChecker (fun p => providerMatchesRequest p model class && RoutingEligible p) providerMeetsModelVersionFloor
    (fun p => estimatedTokens <=? p.(p_MaxContextTokens)) tier2_decision e.(e_checkQuota).

(** *** Ranking *)

Definition sortCandidates (candidates : list Provider) (objective : string) : list Provider * option Scores :=
  SortCandidatesWithScores candidates objective (weights s) None.

Definition inEpsilonCohort (top candidate : Provider) (objective : string) (candidates : list Provider) (cache : option Scores) : bool :=
  let scoreFn :=
    if String.eqb objective "balanced" then
      Some (score_of (match cache with Some scores => scores | None => KeyedBalancedScores candidates end))
    else None in
  InEpsilonCohort top candidate objective s.(s_tiebreakEpsilon) (weights s) scoreFn.

(** [candidates[0], candidates[i] = candidates[i], candidates[0]] *)
Definition swap_first (i : nat) (l : list Provider) : list Provider :=
  match l, l !! i with
  | x :: _, Some y => <[0%nat := y]> (<[i := x]> l)
  | _, _ => l
  end.

(** FNV-1a of 64 bits, read as a signed integer. *)
Definition fnv64a (text : string) : Z :=
  fold_left (fun h c => Z.lxor h (Z.of_N (N_of_ascii c)) * 1099511628211 mod Int64.modulus) (GoStr.chars text) 14695981039346656037.
Definition seedForRequestWithKey (requestID dailyKey : string) : Z :=
  Int64.wrap (fnv64a (dailyKey +:+ "|" +:+ requestID)).

(** The candidates behind the first that are as good: the loop that finds [cohortEnd]. *)
Fixpoint cohort_length (top : Provider) (objective : string) (candidates rest : list Provider) (cache : option Scores) : nat :=
  match rest with
  | c :: rest => if inEpsilonCohort top c objective candidates cache then S (cohort_length top objective candidates rest cache) else 0%nat
  | [] => 0%nat
  end.

(** The order, the seed, the draw and the reason; [today] is the daily key of the clock. *)
Definition applyRandomTiebreak (today requestID : string) (candidates : list Provider) (objective dailyKey : string) (cache : option Scores)
    : list Provider * (Z * float64 * string) :=
  match candidates with
  | top :: ((_ :: _) as rest) =>
      if negb s.(s_tiebreakRandomize) then (candidates, (0, F64.zero, "deterministic"))
      else
      let cohortEnd := S (cohort_length top objective candidates rest cache) in
      if (Z.of_nat cohortEnd <? 2) then (candidates, (0, F64.zero, "deterministic"))
      else
      let seed := seedForRequestWithKey requestID (if String.eqb dailyKey "" then today else dailyKey) in
      let draw := e.(e_draw) seed in
      let pick := F64.to_int (F64.mul draw (F64.of_Z (Z.of_nat cohortEnd))) in
      let pick := if Z.of_nat cohortEnd <=? pick then Z.of_nat cohortEnd - 1 else pick in
      (if negb (pick =? 0) then swap_first (Z.to_nat pick) candidates else candidates, (seed, draw, "randomized"))
  | _ => (candidates, (0, F64.zero, "deterministic"))
  end.

(** The sticky map after the lookup, the order, the result and the reason of a miss. *)
Definition applySticky (m : Map) (h : Header) (class : option ModelClassConfig) (candidates : list Provider) (cache : option Scores)
    : Map * (list Provider * string * string) :=
  if negb s.(s_stickyEnabled) || pinned_route h then (m, (candidates, "disabled", ""))
  else match candidates with
  | [] => (m, (candidates, "miss", "provider_not_candidate"))
  | top :: _ =>
      let key := GoStr.TrimSpace (Get h "X-MacProvider-Internal-Conv") in
      if negb (GoStr.HasPrefix key "conv:") then (m, (candidates, "no_key", ""))
      else
      let '(m, res) := Sticky.Lookup m e.(e_now) key in
      match res.(res_Entry) with
      | None => (m, (candidates, "miss", res.(MissReason)))
      | Some entry =>
          match list_find (fun c => p_ProviderID c = ProviderID entry) candidates with
          | Some (i, candidate) =>
              if (i =? 0)%nat then (m, (candidates, "hit", ""))
              else if negb (inEpsilonCohort top candidate (objectiveForRequest h class) candidates cache)
              then (m, (candidates, "miss", "outside_epsilon"))
              else (m, (swap_first i candidates, "hit", ""))
          | None => (m, (candidates, "miss", "provider_not_candidate"))
          end
      end
  end.

(** *** Preflight *)

Definition preflightCandidate (p : Provider) (requestID : string) (estimatedTokens : Z) : Provider + routeError :=
  match s.(s_preflight) with
  | None => inl p
  | Some preflight =>
      if estimatedTokens <=? s.(s_preflightThreshold) then inl p
      else match preflight p requestID estimatedTokens with
      | PreflightError | PreflightTimeout => inr (plain_error 503 "preflight_rejected" "Provider preflight timed out")
      | PreflightAnswer true _ => inl p
      | PreflightAnswer false reason =>
          inr (plain_error 503 "preflight_rejected"
            ("Provider rejected preflight" +:+ if String.eqb reason "" then "" else ": " +:+ reason))
      end
  end.

(** *** Pinned routes *)

Definition blocked (q : option slotQueue) (p : Provider) : bool :=
  match q with Some q => blocksProvider q p.(p_ProviderID) p.(p_SlotsFree) | None => false end.

Definition validatePinnedProviderForRequest (q : option slotQueue) (p : Provider) (model : string) (estimatedTokens : Z)
    (unavailable : string) (class : option ModelClassConfig) : Provider + routeError :=
  if negb (providerMatchesRequest p model class) then inr (plain_error 404 "model_not_found" "Pinned provider serves different model")
  else if negb (providerMeetsModelVersionFloor p) then
    inr (mkRouteError 503 "model_version_floor_unmet"
      ("Pinned provider `" +:+ p.(p_ProviderID) +:+ "` runs a binary below the minimum version required for model `"
       +:+ p.(p_ModelID) +:+ "` (>= " +:+ modelVersionFloorFor p +:+ ").") "server_error")
  else if p.(p_MaxContextTokens) <? estimatedTokens then
    inr (plain_error 413 "context_exceeds_capacity" "Request exceeds pinned provider context capacity")
  else if negb (RoutingEligible p) then inr (plain_error 503 "no_provider_available" unavailable)
  else if blocked q p then inr (plain_error 503 "no_provider_available" unavailable)
  else if tier2ProviderExcluded p then
    inr (mkRouteError 400 "tier2_hard_pin_predicate_failed"
      ("Hard-pinned provider `" +:+ p.(p_ProviderID) +:+ "` does not satisfy enabled Tier-2 predicates.") "invalid_request")
  else inl p.

(** The provider a pinned header names, once it is found. *)
Definition pinned_provider (q : option slotQueue) (p : Provider) (requestID model : string) (estimatedTokens : Z) (unavailable : string)
    (class : option ModelClassConfig) : Provider + routeError :=
  match validatePinnedProviderForRequest q p model estimatedTokens unavailable class with
  | inr err => inr err
  | inl p =>
      if negb (e.(e_checkQuota) p) then inr (plain_error 429 "provisional_quota_exceeded" "Pinned provisional provider is over request quota")
      else preflightCandidate p requestID estimatedTokens
  end.

(** *** Candidates for the queue *)

Definition providerSlotQueueEligible (p : Provider) : bool :=
  CapacityEligible p && String.eqb p.(p_State) StateReady && (0 <? p.(p_SlotsTotal)) && (p.(p_SlotsFree) =? 0).

Definition slotQueueCandidates (providers : list Provider) (excluded : Excluded) (model : string) (class : option ModelClassConfig)
    (checker : EligibilityChecker) : list Provider :=
  List.filter (fun p =>
    negb (Has excluded (SortKey p)) && providerSlotQueueEligible p && providerMatchesRequest p model class
    && checker.(ProviderContextSufficient) p && checker.(ProviderMeetsModelVersionFloor) p
    && bool_decide ((checker.(Tier2Decision) p).1 = None) && checker.(QuotaPermits) p) providers.

Definition splitQueuedCandidates (q : option slotQueue) (candidates : list Provider) : list Provider * list Provider :=
  (List.filter (fun p => negb (blocked q p)) candidates, List.filter (blocked q) candidates).

(** *** The error of an empty candidate list *)

Definition no_candidate_error (model : string) (result : FilterResult) : routeError :=
  let n := count_of result.(Counts) in
  if (0 <? result.(PreQuotaCount)) && (n ReasonQuotaBlocked =? result.(PreQuotaCount)) then
    plain_error 429 "provisional_quota_exceeded" "All otherwise eligible provisional providers are over request quota"
  else if 0 <? n ReasonContextTooSmall then plain_error 413 "context_exceeds_capacity" "Request exceeds provider context capacity"
  else if s.(s_tier2).(tc_RequireHashVerified) && ((0 <? n ReasonTier2HashRequired) || negb (bool_decide (result.(HashMismatches) = []))) then
    mkRouteError 503 "tier2_hash_verified_required" ("No hash-verified provider available for model `" +:+ model +:+ "`.") "server_error"
  else match result.(HashMismatches) with
  | r :: _ =>
      mkRouteError 503 "tier2_hash_mismatch" ("Provider `" +:+ r.(rj_Provider).(p_ProviderID) +:+ "` hash verification failed; excluded from pool.") "server_error"
  | [] =>
      if 0 <? n ReasonTier2EncryptedLeg then
        mkRouteError 503 "tier2_encrypted_leg_required" ("No encrypted provider leg available for model `" +:+ model +:+ "`.") "server_error"
      else if 0 <? n ReasonTier2Attestation then
        mkRouteError 503 "tier2_attestation_required" ("No attested provider available for model `" +:+ model +:+ "`.") "server_error"
      else if 0 <? n ReasonModelVersionFloor then
        mkRouteError 503 "model_version_floor_unmet"
          ("No provider running a new enough binary is available for model `" +:+ model +:+ "`.") "server_error"
      else plain_error 503 "no_provider_available" ("No provider available for model " +:+ model)
  end.
End Server.

(** ** Waiting for a slot *)

(** The state of a request that routing reads and writes; the sets are keyed by
    [SortKey]. *)
Record forwardState := mkForwardState {
  fs_queuedSlotProviderID : string;
  fs_explicitRetries : Z;
  fs_faultedProviders : Z;
  fs_faultedRoutes : gset string;
  fs_provider : Provider;
  fs_dailyKey : string;
  fs_stickyResult : string;
  fs_stickyMissReason : string;
}.
#[global] Instance forwardState_rebuild : Rebuild forwardState := fun st =>
  mkForwardState st.(fs_queuedSlotProviderID) st.(fs_explicitRetries) st.(fs_faultedProviders) st.(fs_faultedRoutes) st.(fs_provider)
    st.(fs_dailyKey) st.(fs_stickyResult) st.(fs_stickyMissReason).

(** What happens around a request that waits, by the number of its queue operations so
    far: what other requests do to the queue before the operation, the pool and the
    quotas a poll sees, whether the deadline is seen after it, the address of a new
    waiter. *)
Record Surroundings := mkSurroundings {
  w_others : nat -> slotQueue -> slotQueue;
  w_snapshot : nat -> list Provider;
  w_checkQuota : nat -> Provider -> bool;
  w_expired : nat -> bool;
  w_ptr : nat -> positive;
}.

Inductive queuedProviderStatus := QueuedWait | QueuedAvailable (p : Provider) | QueuedTerminal.

Inductive queue_outcome := NotQueued | QueuedFor (result : Provider + routeError).

Section Waiting.
Context (s : Server) (e : SelectEnv) (w : Surroundings) (requestID model : string) (class : option ModelClassConfig) (estimatedTokens : Z).

(** The checks of a poll on the waiter's provider. *)
Definition poll_status (t : nat) (p : Provider) : queuedProviderStatus :=
  if negb (providerMatchesRequest p model class) || (p.(p_MaxContextTokens) <? estimatedTokens) then QueuedTerminal
  else if negb (providerMeetsModelVersionFloor s e p) then QueuedTerminal
  else if negb (CapacityEligible p) || negb (String.eqb p.(p_State) StateReady) || tier2ProviderExcluded s p || negb (w.(w_checkQuota) t p)
  then QueuedTerminal
  else if p.(p_SlotsFree) <=? 0 then QueuedWait
  else if negb (RoutingEligible p) then QueuedTerminal
  else QueuedAvailable p.

Definition pollQueuedProvider (t : nat) (q : slotQueue) (waiter : slotWaiter) : slotQueue * queuedProviderStatus :=
  let q := w.(w_others) t q in
  if negb (head q waiter) then (q, QueuedWait)
  else match find (fun p => String.eqb p.(p_ProviderID) waiter.(sw_providerID)) (w.(w_snapshot) t) with
  | None => (q, QueuedTerminal)
  | Some p =>
      match poll_status t p with
      | QueuedAvailable p =>
          let '(q, granted) := reserveHead (w.(w_others) (S t) q) waiter p.(p_SlotsFree) in
          (q, if granted then QueuedAvailable p else QueuedWait)
      | status => (q, status)
      end
  end.

Definition no_slot_error : routeError := plain_error 503 "no_provider_available" ("No provider available for model " +:+ model).

(** The loop of [trySelectQueuedProvider], with the waiter once it is in a queue;
    [None] when the fuel runs out. *)
Fixpoint queue_loop (fuel t : nat) (q : slotQueue) (candidates : list string) (waiter : option slotWaiter) (tried : gset string)
    (lastPreflightErr : option routeError) : option (slotQueue * queue_outcome) :=
  match fuel with
  | O => None
  | S fuel =>
      let finish q := Some (q, QueuedFor (inr (default no_slot_error lastPreflightErr))) in
      match waiter with
      | None =>
          if Z.of_nat (size tried) <? Z.of_nat (length candidates) then
            match enterBest (w.(w_others) t q) (w.(w_ptr) t) candidates tried with
            | (q, Some waiter) => queue_loop fuel (S t) q candidates (Some waiter) tried lastPreflightErr
            | (q, None) => if (size tried =? 0)%nat then Some (q, NotQueued) else finish q
            end
          else finish q
      | Some waiter =>
          let '(q, status) := pollQueuedProvider t q waiter in
          match status with
          | QueuedAvailable p =>
              let q := leave (w.(w_others) (S (S t)) q) waiter in
              match preflightCandidate s p requestID estimatedTokens with
              | inl p => Some (q, QueuedFor (inl p))
              | inr err =>
                  let q := releaseReservation (w.(w_others) (S (S (S t))) q) p.(p_ProviderID) in
                  queue_loop fuel (S (S (S (S t)))) q candidates None ({[p.(p_ProviderID)]} ∪ tried) (Some err)
              end
          | QueuedTerminal =>
              queue_loop fuel (S (S (S t))) (leave (w.(w_others) (S (S t)) q) waiter) candidates None ({[waiter.(sw_providerID)]} ∪ tried) lastPreflightErr
          | QueuedWait =>
              if w.(w_expired) t then Some (leave (w.(w_others) (S (S t)) q) waiter, QueuedFor (inr no_slot_error))
              else queue_loop fuel (S (S t)) q candidates (Some waiter) tried lastPreflightErr
          end
      end
  end.
End Waiting.

(** ** Selection *)

(** The shared state a selection changes: the sticky map, the slot queue and the
    request's own. *)
Record SelectState := mkSelectState { ss_sticky : Map; ss_queue : option slotQueue; ss_fw : forwardState }.
#[global] Instance SelectState_rebuild : Rebuild SelectState := fun st => mkSelectState st.(ss_sticky) st.(ss_queue) st.(ss_fw).

Section Select.
Context (s : Server) (e : SelectEnv) (w : Surroundings) (fuel : nat) (today requestID : string) (req : chatRequest).

(** The order in which the candidates are tried. *)
Definition ordered_candidates (m : Map) (h : Header) (class : option ModelClassConfig) (dailyKey : string) (candidates : list Provider)
    : Map * (list Provider * string * string) :=
  let objective := objectiveForRequest h class in
  let '(candidates, cache) := sortCandidates s candidates objective in
  let '(m, (candidates, stickyResult, stickyMissReason)) := applySticky s e m h class candidates cache in
  let candidates := if String.eqb stickyResult "hit" then candidates
                    else (applyRandomTiebreak s e today requestID candidates objective dailyKey cache).1 in
  (m, (candidates, stickyResult, stickyMissReason)).

(** [trySelectQueuedProvider]; the outer [option] is the fuel. *)
Definition trySelectQueuedProvider (st : SelectState) (h : Header) (class : option ModelClassConfig) (dailyKey : string)
    (candidates : list Provider) : option (SelectState * queue_outcome) :=
  match st.(ss_queue), candidates with
  | Some q, _ :: _ =>
      let '(m, (ordered, stickyResult, stickyMissReason)) := ordered_candidates st.(ss_sticky) h class dailyKey candidates in
      '(q, out) ← queue_loop s e w requestID req.(cr_Model) class (estimateTokens req.(cr_raw)) fuel 0 q (map p_ProviderID ordered) None ∅ None;
      let fw := match out with
        | QueuedFor (inl p) => st.(ss_fw) <| fs_queuedSlotProviderID := p.(p_ProviderID) |> <| fs_stickyResult := stickyResult |>
                                 <| fs_stickyMissReason := stickyMissReason |>
        | _ => st.(ss_fw)
        end in
      Some (mkSelectState m (Some q) fw, out)
  | _, _ => Some (st, NotQueued)
  end.

(** The first candidate that passes the preflight. *)
Fixpoint preflight_loop (estimatedTokens : Z) (candidates : list Provider) : option Provider :=
  match candidates with
  | [] => None
  | c :: candidates =>
      match preflightCandidate s c requestID estimatedTokens with inl p => Some p | inr _ => preflight_loop estimatedTokens candidates end
  end.

(** The selection when some candidate has room. *)
Definition select_among (st : SelectState) (h : Header) (class : option ModelClassConfig) (dailyKey : string) (candidates : list Provider)
    : SelectState * (Provider + routeError) :=
  let '(m, (ordered, stickyResult, stickyMissReason)) := ordered_candidates st.(ss_sticky) h class dailyKey candidates in
  let st := st <| ss_sticky := m |> in
  match preflight_loop (estimateTokens req.(cr_raw)) ordered with
  | Some p =>
      let lost := match ordered with
        | top :: _ => String.eqb stickyResult "hit" && negb (String.eqb p.(p_ProviderID) top.(p_ProviderID))
        | [] => false end in
      (st <| ss_fw := st.(ss_fw) <| fs_stickyResult := if lost then "miss" else stickyResult |>
                                 <| fs_stickyMissReason := if lost then "provider_not_candidate" else stickyMissReason |> |>, inl p)
  | None => (st, inr (plain_error 503 "preflight_rejected" "All providers rejected the request"))
  end.

(** The selection without a pinned route. *)
Definition select_open (st : SelectState) (providers : list Provider) (h : Header) (excluded : gset string) (dailyKey : string)
    : option (SelectState * (Provider + routeError)) :=
  let estimatedTokens := estimateTokens req.(cr_raw) in
  let class := classForRequest s e req.(cr_Model) providers in
  let checker := eligibilityCtx s e req.(cr_Model) class estimatedTokens in
  let result := EligibleCandidates (Some excluded) SortKey checker providers in
  let '(candidates, queued) := splitQueuedCandidates st.(ss_queue) result.(Eligible) in
  match candidates with
  | _ :: _ => Some (select_among st h class dailyKey candidates)
  | [] =>
      let queued := queued ++ slotQueueCandidates providers (Some excluded) req.(cr_Model) class checker in
      '(st, out) ← trySelectQueuedProvider st h class dailyKey queued;
      Some (st, match out with
        | QueuedFor result => result
        | NotQueued => inr (no_candidate_error s req.(cr_Model) result)
        end)
  end.

Definition selectProviderExcluding (st : SelectState) (providers : list Provider) (h : Header) (excluded : gset string) (dailyKey : string)
    : option (SelectState * (Provider + routeError)) :=
  let estimatedTokens := estimateTokens req.(cr_raw) in
  let class := classForRequest s e req.(cr_Model) providers in
  let session := Get h "X-MacProvider-Session" in
  let providerID := Get h "X-MacProvider-Provider" in
  if hasInternalRoutingHeader h && negb (internalBearerAuthorized e.(e_sha256) s.(s_gatewayServiceToken) h) then
    Some (st, inr (plain_error 400 "invalid_request" "Internal routing header is not accepted on the buyer port"))
  else if negb (String.eqb session "") then
    Some (st, match find (fun p => String.eqb p.(p_AssignedID) session) providers with
      | Some p => pinned_provider s e st.(ss_queue) p requestID req.(cr_Model) estimatedTokens "Pinned session not available" class
      | None => inr (plain_error 503 "session_ended" "Pinned session has ended")
      end)
  else if negb (String.eqb providerID "") then
    Some (st, match find (fun p => String.eqb p.(p_ProviderID) providerID) providers with
      | Some p => pinned_provider s e st.(ss_queue) p requestID req.(cr_Model) estimatedTokens "Pinned provider not available" class
      | None => inr (plain_error 503 "no_provider_available" "Pinned provider not in pool")
      end)
  else select_open st providers h excluded dailyKey.

(** A provider for a request whose provider [failed], and the excluded keys with its own. *)
Definition failoverCandidate (st : SelectState) (providers : list Provider) (h : Header) (failed : Provider) (excluded : gset string) (dailyKey : string)
    : option (SelectState * gset string * option Provider) :=
  if negb s.(s_failoverEnabled) || pinned_route h then Some (st, excluded, None)
  else
  let excluded := {[SortKey failed]} ∪ excluded in
  '(st, result) ← selectProviderExcluding st providers (Del (Del h "X-MacProvider-Provider") "X-MacProvider-Session") excluded dailyKey;
  Some (st, excluded, match result with inl p => Some p | inr _ => None end).
End Select.

Definition releaseQueuedSlotReservation (st : SelectState) : SelectState :=
  match st.(ss_queue) with
  | Some q =>
      let id := st.(ss_fw).(fs_queuedSlotProviderID) in
      if String.eqb id "" then st
      else st <| ss_queue := Some (releaseReservation q id) |> <| ss_fw := st.(ss_fw) <| fs_queuedSlotProviderID := "" |> |>
  | None => st
  end.

(** ** What a selected provider satisfies *)

Lemma tier2_decision_excluded s p : (tier2_decision s p).1 = None <-> tier2ProviderExcluded s p = false.
Proof.
  unfold tier2_decision, tier2ProviderExcluded, tier2ProviderExcludedForConfig.
  destruct (tier2ProviderExcludedStatus _ _), (missing_leg _ _), (missing_attestation _ _); done.
Qed.

Lemma preflight_same s p requestID tokens p' : preflightCandidate s p requestID tokens = inl p' -> p' = p.
Proof. unfold preflightCandidate. repeat case_match; naive_solver. Qed.

Section Serves.
Context (s : Server) (e : SelectEnv) (requestID model : string) (class : option ModelClassConfig) (tokens : Z).

(** The provider, as the snapshot [providers] has it, may serve the request. *)
Record serves (providers : list Provider) (quota : Provider -> bool) (p : Provider) : Prop := mkServes {
  sv_known : p ∈ providers;
  sv_matches : providerMatchesRequest p model class = true;
  sv_eligible : RoutingEligible p = true;
  sv_floor : providerMeetsModelVersionFloor s e p = true;
  sv_context : tokens <= p.(p_MaxContextTokens);
  sv_tier2 : tier2ProviderExcluded s p = false;
  sv_quota : quota p = true;
  sv_preflight : preflightCandidate s p requestID tokens = inl p;
}.

(** The gates of the candidates are those of [serves], before the preflight. *)
Lemma gate_serves excluded p :
  gate (Some excluded) SortKey (eligibilityCtx s e model class tokens) p = None <->
  ~ (SortKey p ∈ excluded) /\ providerMatchesRequest p model class = true /\ RoutingEligible p = true
  /\ providerMeetsModelVersionFloor s e p = true /\ tokens <= p.(p_MaxContextTokens) /\ tier2ProviderExcluded s p = false
  /\ e.(e_checkQuota) p = true.
Proof.
  unfold gate, first_gate, eligibilityCtx.
  cbn [ProviderMatchesRequest ProviderMeetsModelVersionFloor ProviderContextSufficient Tier2Decision QuotaPermits].
  rewrite <- tier2_decision_excluded. cbn [Has]. case_bool_decide as Ex; [split; [done|naive_solver]|].
  destruct (providerMatchesRequest p model class), (RoutingEligible p), (providerMeetsModelVersionFloor s e p);
    cbn [andb negb]; try (split; [done|naive_solver]).
  destruct (tokens <=? p_MaxContextTokens p) eqn:Et; cbn [negb]; [|split; [done|]; intros (_ & _ & _ & _ & H & _); lia].
  destruct ((tier2_decision s p).1); [split; [done|naive_solver]|].
  destruct (e_checkQuota e p); (split; [|naive_solver]); intros; split_and!; try done; lia.
Qed.

Lemma pinned_serves q p unavailable p' providers : p ∈ providers ->
  pinned_provider s e q p requestID model tokens unavailable class = inl p' ->
  p' = p /\ serves providers e.(e_checkQuota) p /\ blocked q p = false.
Proof.
  intros Hin. unfold pinned_provider, validatePinnedProviderForRequest.
  destruct (providerMatchesRequest p model class) eqn:E1; [|done]. destruct (providerMeetsModelVersionFloor s e p) eqn:E2; [|done].
  cbn [negb]. destruct (p_MaxContextTokens p <? tokens) eqn:E3; [done|]. destruct (RoutingEligible p) eqn:E4; [|done]. cbn [negb].
  destruct (blocked q p) eqn:E5; [done|]. destruct (tier2ProviderExcluded s p) eqn:E6; [done|].
  destruct (e_checkQuota e p) eqn:E7; [|done]. cbn [negb]. intros H. pose proof (preflight_same _ _ _ _ _ H) as ->.
  split_and!; [done| |done]. split; try done. lia.
Qed.
End Serves.

(** *** Orders *)

Lemma swap_first_perm i l : swap_first i l ≡ₚ l.
Proof.
  unfold swap_first. destruct l as [|x l]; [done|]. destruct ((x :: l) !! i) as [y|] eqn:E; [|done].
  destruct i as [|i]; simpl in *; [by injection E as ->|]. rewrite <- (take_drop_middle l i y E) at 2.
  rewrite (insert_take_drop l i x) by (by eapply lookup_lt_Some). solve_Permutation.
Qed.

Lemma swap_first_head i l y : l !! i = Some y -> exists rest, swap_first i l = y :: rest.
Proof.
  intros E. unfold swap_first. destruct l as [|x l]; [done|]. rewrite E. destruct i as [|i]; simpl; eauto.
Qed.

Lemma swap_first_out i l : l !! i = None -> swap_first i l = l.
Proof. intros E. unfold swap_first. destruct l as [|x l]; [done|]. by rewrite E. Qed.

Section Ordered.
Context (s : Server) (e : SelectEnv).

(** The cohort of a sorted list is decided by the scores the sort computed. *)
Lemma cohort_cached candidates objective l l' top c :
  let cache := (sortCandidates s candidates objective).2 in
  inEpsilonCohort s top c objective l cache = inEpsilonCohort s top c objective l' cache.
Proof.
  cbv zeta. unfold inEpsilonCohort, sortCandidates, SortCandidatesWithScores, ObjectiveBalanced.
  by destruct (String.eqb objective "balanced").
Qed.

Lemma cohort_prefix top objective candidates cache rest : forall i y,
  (i < cohort_length s top objective candidates rest cache)%nat -> rest !! i = Some y ->
  inEpsilonCohort s top y objective candidates cache = true.
Proof.
  induction rest as [|c rest IH]; intros i y Hi Hy; simpl in *; [done|].
  destruct (inEpsilonCohort s top c objective candidates cache) eqn:E; [|lia].
  destruct i as [|i]; simpl in Hy; [by injection Hy as <-|]. apply (IH i); [lia|done].
Qed.

Lemma cohort_length_bound top objective candidates cache rest :
  (cohort_length s top objective candidates rest cache <= length rest)%nat.
Proof. induction rest as [|c rest IH]; simpl; [lia|]. case_match; lia. Qed.

(** The list is the sorted one with, at most, a member of the cohort of its head moved to
    the front. *)
Definition reordered (sorted : list Provider) (objective : string) (cache : option Scores) (l : list Provider) : Prop :=
  l ≡ₚ sorted /\ forall top rest, sorted = top :: rest ->
    exists first rest', l = first :: rest' /\ (first = top \/ inEpsilonCohort s top first objective sorted cache = true).

Lemma reordered_refl sorted objective cache : reordered sorted objective cache sorted.
Proof. split; [done|]. intros top rest E. exists top, rest. auto. Qed.

Lemma reordered_swap sorted objective cache i y top rest :
  sorted = top :: rest -> sorted !! i = Some y -> y = top \/ inEpsilonCohort s top y objective sorted cache = true ->
  reordered sorted objective cache (swap_first i sorted).
Proof.
  intros E Hy Hc. split; [apply swap_first_perm|]. intros top' rest' E'. destruct (swap_first_head i sorted y Hy) as [rest'' ->].
  exists y, rest''. split; [done|]. assert (top' = top) as -> by congruence. done.
Qed.

Lemma tiebreak_reordered today requestID sorted objective dailyKey cache :
  reordered sorted objective cache (applyRandomTiebreak s e today requestID sorted objective dailyKey cache).1.
Proof.
  unfold applyRandomTiebreak. destruct sorted as [|top [|c rest]] eqn:Es; [apply reordered_refl..|]. rewrite <- Es.
  destruct (s_tiebreakRandomize s); [|apply reordered_refl]. cbn [negb]. cbv zeta.
  set (n := cohort_length s top objective sorted (c :: rest) cache). destruct (_ <? 2) eqn:En; [apply reordered_refl|].
  set (pick := F64.to_int _). set (k := if _ <=? pick then _ else pick). cbn [fst]. destruct (k =? 0) eqn:Ek; [apply reordered_refl|]. cbn [negb].
  destruct (sorted !! Z.to_nat k) as [y|] eqn:Ey; [|rewrite swap_first_out by done; apply reordered_refl].
  apply (reordered_swap _ _ _ _ y top (c :: rest)); [done|done|]. rewrite Es in Ey. destruct (Z.to_nat k) as [|i] eqn:Ei; [left; by injection Ey as ->|].
  right. simpl in Ey. apply (cohort_prefix top objective sorted cache (c :: rest) i); [|done].
  fold n. unfold k in Ei. destruct (Z.of_nat (S n) <=? pick) eqn:E2 in Ei; clear Ek k; clearbody pick n; [lia|]. apply Z.leb_gt in E2. lia.
Qed.

Lemma sticky_reordered m h class sorted cache :
  reordered sorted (objectiveForRequest h class) cache (applySticky s e m h class sorted cache).2.1.1.
Proof.
  unfold applySticky. destruct (_ || _); [apply reordered_refl|]. destruct sorted as [|top rest] eqn:Es; [apply reordered_refl|]. rewrite <- Es.
  destruct (negb _); [apply reordered_refl|]. destruct (Sticky.Lookup m _ _) as [m' res]. destruct (res_Entry res) as [entry|]; [|apply reordered_refl].
  destruct (list_find _ _) as [[i c]|] eqn:Ef; [|apply reordered_refl].
  destruct (i =? 0)%nat; [apply reordered_refl|]. destruct (inEpsilonCohort _ _ _ _ _ _) eqn:Ec; [|apply reordered_refl]. cbn [negb fst snd].
  apply list_find_Some in Ef as (Ef & _). apply (reordered_swap _ _ _ _ c top rest); [done|done|by right].
Qed.

Lemma sticky_hit_or_same m h class sorted cache :
  let out := (applySticky s e m h class sorted cache).2 in out.1.2 = "hit" \/ out.1.1 = sorted.
Proof.
  cbv zeta. unfold applySticky. destruct (_ || _); [by right|]. destruct sorted as [|top rest]; [by right|]. destruct (negb _); [by right|].
  destruct (Sticky.Lookup m _ _) as [m' res]. destruct (res_Entry res); [|by right]. destruct (list_find _ _) as [[i c]|]; [|by right].
  destruct (i =? 0)%nat; [by left|]. destruct (negb _); [by right|by left].
Qed.

(** The order in which candidates are tried: sorted for the objective, with one exchange
    at most. *)
Lemma ordered_reordered today requestID m h class dailyKey candidates :
  let objective := objectiveForRequest h class in
  let sorted := sortCandidates s candidates objective in
  reordered sorted.1 objective sorted.2 (ordered_candidates s e today requestID m h class dailyKey candidates).2.1.1.
Proof.
  cbv zeta. unfold ordered_candidates. destruct (sortCandidates s candidates _) as [sorted cache]. cbn [fst snd].
  pose proof (sticky_reordered m h class sorted cache) as Hs. pose proof (sticky_hit_or_same m h class sorted cache) as Hh. cbv zeta in Hh.
  destruct (applySticky s e m h class sorted cache) as [m' [[l result] reason]]. cbn [fst snd] in *.
  destruct (String.eqb result "hit") eqn:E; [done|]. destruct Hh as [->| ->]; [done|]. apply tiebreak_reordered.
Qed.

Lemma sort_perm candidates objective : (sortCandidates s candidates objective).1 ≡ₚ candidates.
Proof. unfold sortCandidates. rewrite sorted_by. apply SliceStable_perm. Qed.

Lemma ordered_perm today requestID m h class dailyKey candidates :
  (ordered_candidates s e today requestID m h class dailyKey candidates).2.1.1 ≡ₚ candidates.
Proof. etransitivity; [apply ordered_reordered|apply sort_perm]. Qed.

(** With metrics that are numbers no candidate is better than the head of the sorted list. *)
Lemma sort_head candidates objective top rest :
  let sorted := sortCandidates s candidates objective in
  Forall (rankable (weights s) (default ∅ sorted.2)) candidates -> sorted.1 = top :: rest ->
  top ∈ candidates /\ Forall (fun y => objective_less objective (weights s) (default ∅ sorted.2) y top = false) candidates.
Proof. cbv zeta. intros Hr E. unfold sortCandidates in *. rewrite sorted_by in E. eapply SliceStable_head; [apply objective_weak|exact Hr|exact E]. Qed.
End Ordered.

(** *** The preflight *)

Lemma preflight_first s requestID tokens l p : preflight_loop s requestID tokens l = Some p ->
  exists before after, l = before ++ p :: after /\ preflightCandidate s p requestID tokens = inl p
    /\ Forall (fun c => exists err, preflightCandidate s c requestID tokens = inr err) before.
Proof.
  induction l as [|c l IH]; simpl; [done|]. destruct (preflightCandidate s c requestID tokens) as [c'|err] eqn:E.
  - intros [= <-]. pose proof (preflight_same _ _ _ _ _ E) as ->. by exists [], l.
  - intros H. destruct (IH H) as (before & after & -> & Hp & HF). exists (c :: before), after. split_and!; [done..|]. constructor; [by exists err|done].
Qed.

Lemma preflight_none s requestID tokens l : preflight_loop s requestID tokens l = None ->
  Forall (fun c => exists err, preflightCandidate s c requestID tokens = inr err) l.
Proof.
  induction l as [|c l IH]; simpl; [constructor|]. destruct (preflightCandidate s c requestID tokens) as [c'|err] eqn:E; [done|].
  intros H. constructor; [by exists err|by apply IH].
Qed.

(** *** Waiting *)

Section WaitingSpec.
Context (s : Server) (e : SelectEnv) (w : Surroundings) (requestID model : string) (class : option ModelClassConfig) (tokens : Z).

(** Where the loop can be before its operation [t], when the wait began with the queue
    [q0]: which queue this request left behind, its waiter if it has one, and the
    candidates it gave up. What other requests do to the queue in between is
    [w_others]. *)
Inductive wait_run (candidates : list string) (q0 : slotQueue) : nat -> slotQueue -> option slotWaiter -> gset string -> Prop :=
  | wait_begins : wait_run candidates q0 0 q0 None ∅
  | wait_enters t q tried q' waiter : wait_run candidates q0 t q None tried ->
      enterBest (w.(w_others) t q) (w.(w_ptr) t) candidates tried = (q', Some waiter) ->
      wait_run candidates q0 (S t) q' (Some waiter) tried
  | wait_goes_on t q waiter tried q' : wait_run candidates q0 t q (Some waiter) tried ->
      pollQueuedProvider s e w model class tokens t q waiter = (q', QueuedWait) -> w.(w_expired) t = false ->
      wait_run candidates q0 (S (S t)) q' (Some waiter) tried
  | wait_gone t q waiter tried q' : wait_run candidates q0 t q (Some waiter) tried ->
      pollQueuedProvider s e w model class tokens t q waiter = (q', QueuedTerminal) ->
      wait_run candidates q0 (S (S (S t))) (leave (w.(w_others) (S (S t)) q') waiter) None ({[waiter.(sw_providerID)]} ∪ tried)
  | wait_refused t q waiter tried q' p err : wait_run candidates q0 t q (Some waiter) tried ->
      pollQueuedProvider s e w model class tokens t q waiter = (q', QueuedAvailable p) ->
      preflightCandidate s p requestID tokens = inr err ->
      wait_run candidates q0 (S (S (S (S t))))
        (releaseReservation (w.(w_others) (S (S (S t))) (leave (w.(w_others) (S (S t)) q') waiter)) p.(p_ProviderID))
        None ({[p.(p_ProviderID)]} ∪ tried).

(** How a wait from the queue [q0] to the queue [q'] gets a slot of [p]: at some operation
    of this run the request waits for [p], which is one of the candidates; its waiter is
    the head of the queue when the poll begins and when it reserves; the snapshot of the
    poll has [p] with all checks passed; more of its slots are free than are reserved; one
    more is reserved, and the waiter leaves. *)
Definition granted_slot (candidates : list string) (q0 q' : slotQueue) (p : Provider) : Prop :=
  exists t q waiter tried, let seen := w.(w_others) t q in let reserving := w.(w_others) (S t) seen in
    let id := p.(p_ProviderID) in
    serves s e requestID model class tokens (w.(w_snapshot) t) (w.(w_checkQuota) t) p
    /\ waiter.(sw_providerID) = id /\ id ∈ candidates /\ ~ (id ∈ tried)
    /\ wait_run candidates q0 t q (Some waiter) tried
    /\ head seen waiter = true /\ head reserving waiter = true
    /\ 0 < p.(p_SlotsFree) /\ 0 < Int64.sub p.(p_SlotsFree) (reserved_of reserving id)
    /\ q' = leave (w.(w_others) (S (S t))
              (reserving <| reserved := <[id := Int64.add (reserved_of reserving id) 1]> reserving.(reserved) |>)) waiter.

Lemma poll_available t q waiter q' p :
  pollQueuedProvider s e w model class tokens t q waiter = (q', QueuedAvailable p) ->
  p ∈ w.(w_snapshot) t /\ p.(p_ProviderID) = waiter.(sw_providerID) /\ poll_status s e w model class tokens t p = QueuedAvailable p
  /\ head (w.(w_others) t q) waiter = true
  /\ reserveHead (w.(w_others) (S t) (w.(w_others) t q)) waiter p.(p_SlotsFree) = (q', true).
Proof.
  unfold pollQueuedProvider. destruct (head _ _) eqn:Eh; [cbn [negb]|done]. destruct (find _ _) as [p0|] eqn:Ef; [|done].
  destruct (poll_status s e w model class tokens t p0) as [|p1|] eqn:Ep; [done| |done].
  assert (p1 = p0) as -> by (clear -Ep; unfold poll_status in Ep; repeat case_match; naive_solver).
  destruct (reserveHead _ _ _) as [q1 granted] eqn:Er. destruct granted; [|done]. intros [= <- <-].
  apply find_some in Ef as [Ef En]. apply String.eqb_eq in En. rewrite <- list_elem_of_In in Ef. done.
Qed.

Lemma reserve_taken q waiter free q' : reserveHead q waiter free = (q', true) ->
  head q waiter = true /\ 0 < Int64.sub free (reserved_of q waiter.(sw_providerID))
  /\ q' = q <| reserved := <[waiter.(sw_providerID) := Int64.add (reserved_of q waiter.(sw_providerID)) 1]> q.(reserved) |>.
Proof.
  unfold reserveHead. destruct (head q waiter); [cbn [negb]|done]. destruct (_ <=? 0) eqn:E; [done|]. intros [= <-].
  split_and!; [done| |done]. lia.
Qed.

Lemma poll_status_checks t p : poll_status s e w model class tokens t p = QueuedAvailable p ->
  providerMatchesRequest p model class = true /\ RoutingEligible p = true /\ providerMeetsModelVersionFloor s e p = true
  /\ tokens <= p.(p_MaxContextTokens) /\ tier2ProviderExcluded s p = false /\ w.(w_checkQuota) t p = true /\ 0 < p.(p_SlotsFree).
Proof.
  unfold poll_status. destruct (providerMatchesRequest p model class); [|done]. cbn [negb orb].
  destruct (p_MaxContextTokens p <? tokens) eqn:E; [done|]. destruct (providerMeetsModelVersionFloor s e p); [|done]. cbn [negb].
  destruct (CapacityEligible p), (String.eqb (p_State p) StateReady), (tier2ProviderExcluded s p), (w_checkQuota w t p); cbn [negb orb]; try done.
  destruct (_ <=? 0) eqn:E0; [done|]. destruct (RoutingEligible p); [|done]. intros _. split_and!; try done; lia.
Qed.

Lemma enter_best_candidate q ptr candidates tried q' waiter : enterBest q ptr candidates tried = (q', Some waiter) ->
  waiter.(sw_providerID) ∈ candidates /\ ~ (waiter.(sw_providerID) ∈ tried).
Proof.
  unfold enterBest. pose proof (best_chosen q tried candidates) as Hb. cbv zeta in Hb. destruct (String.eqb _ "") eqn:E; [done|].
  intros [= _ <-]. apply String.eqb_neq in E. destruct (Hb E) as (? & (_ & ? & _) & _). done.
Qed.

Abbreviation loop := (queue_loop s e w requestID model class tokens).

Lemma queue_loop_grants fuel candidates q0 : forall t q waiter tried err q' p,
  wait_run candidates q0 t q waiter tried ->
  (forall wt, waiter = Some wt -> wt.(sw_providerID) ∈ candidates /\ ~ (wt.(sw_providerID) ∈ tried)) ->
  loop fuel t q candidates waiter tried err = Some (q', QueuedFor (inl p)) -> granted_slot candidates q0 q' p.
Proof.
  induction fuel as [|fuel IH]; intros t q waiter tried err q' p Hrun Hw; [done|]. simpl. destruct waiter as [wt|].
  - destruct (Hw wt eq_refl) as [Hc Ht]. destruct (pollQueuedProvider _ _ _ _ _ _ _ _ _) as [q1 st] eqn:Ep. destruct st as [|p1|].
    + destruct (w_expired w t) eqn:Ex; [done|]. apply IH; [by eapply wait_goes_on|by intros ? [= <-]].
    + destruct (preflightCandidate s p1 requestID tokens) as [p2|err'] eqn:Ef; [|apply IH; [by eapply wait_refused|done]].
      intros [= <- <-]. pose proof (preflight_same _ _ _ _ _ Ef) as ->.
      apply poll_available in Ep as (Hin & Hid & Hst & Hh & Hq). apply poll_status_checks in Hst as (H1 & H2 & H3 & H4 & H5 & H6 & H7).
      apply reserve_taken in Hq as (Hh' & Hfree & ->). rewrite <- Hid in *.
      exists t, q, wt, tried. cbv zeta. by split_and!.
    + apply IH; [by eapply wait_gone|done].
  - destruct (_ <? _); [|done]. destruct (enterBest _ _ _ _) as [q1 [wt|]] eqn:Ee; [|by destruct (size tried =? 0)%nat].
    apply IH; [by eapply wait_enters|]. intros ? [= <-]. by apply enter_best_candidate in Ee.
Qed.

(** Rounds the loop can still make, when the deadline is seen from operation [T] on. *)
Definition rounds (T t : nat) (candidates : list string) (waiter : option slotWaiter) (tried : gset string) : nat :=
  (T - t) + 2 * (size (list_to_set candidates ∖ tried : gset string)) + (if waiter is Some _ then 0 else 1).

Lemma tried_fewer (candidates : list string) (tried : gset string) c : c ∈ candidates -> ~ (c ∈ tried) ->
  S (size (list_to_set candidates ∖ ({[c]} ∪ tried) : gset string)) = size (list_to_set candidates ∖ tried : gset string).
Proof.
  intros Hc Ht. assert (list_to_set candidates ∖ tried ≡@{gset string} {[c]} ∪ (list_to_set candidates ∖ ({[c]} ∪ tried))) as E.
  { intros x. destruct (decide (x = c)); set_solver. }
  apply leibniz_equiv in E. rewrite E. apply Nat2Z.inj. rewrite size_add by set_solver. lia.
Qed.

Lemma names_size (l : list string) : (size (list_to_set l : gset string) <= length l)%nat.
Proof.
  induction l as [|x l IH]; simpl; [done|]. destruct (decide (x ∈ (list_to_set l : gset string))) as [Hx|Hx].
  - replace ({[x]} ∪ list_to_set l : gset string) with (list_to_set l : gset string) by set_solver. lia.
  - pose proof (size_add x (list_to_set l) Hx). lia.
Qed.

Lemma queue_loop_ends T fuel : (forall t, (T <= t)%nat -> w.(w_expired) t = true) -> forall t q candidates waiter tried err,
  (forall wt, waiter = Some wt -> wt.(sw_providerID) ∈ candidates /\ ~ (wt.(sw_providerID) ∈ tried)) ->
  (rounds T t candidates waiter tried < fuel)%nat -> is_Some (loop fuel t q candidates waiter tried err).
Proof.
  intros HT. induction fuel as [|fuel IH]; intros t q candidates waiter tried err Hw Hf; [lia|]. simpl. unfold rounds in Hf. destruct waiter as [wt|].
  - destruct (Hw wt eq_refl) as [Hc Ht]. destruct (pollQueuedProvider _ _ _ _ _ _ _ _ _) as [q1 st] eqn:Ep. destruct st as [|p1|].
    + destruct (w_expired w t) eqn:Ex; [done|]. apply IH; [by intros ? [= <-]|]. unfold rounds.
      assert (t < T)%nat by (apply Nat.lt_nge; intros Hle; by rewrite HT in Ex). lia.
    + destruct (preflightCandidate s p1 requestID tokens) as [p2|err'] eqn:Ef; [done|]. apply poll_available in Ep as (_ & Hid & _).
      apply IH; [done|]. unfold rounds. rewrite Hid. pose proof (tried_fewer candidates tried _ Hc Ht). lia.
    + apply IH; [done|]. unfold rounds. pose proof (tried_fewer candidates tried _ Hc Ht). lia.
  - destruct (_ <? _); [|done]. destruct (enterBest _ _ _ _) as [q1 [wt|]] eqn:Ee; [|by destruct (size tried =? 0)%nat].
    apply IH; [intros ? [= <-]; by apply enter_best_candidate in Ee|]. unfold rounds. lia.
Qed.
End WaitingSpec.

(** *** Selections *)

Section SelectionSpec.
Context (s : Server) (e : SelectEnv) (w : Surroundings) (today requestID : string) (req : chatRequest).
Abbreviation tokens := (estimateTokens req.(cr_raw)).
Abbreviation class_of := (classForRequest s e req.(cr_Model)).
Abbreviation may_serve := (fun class => serves s e requestID req.(cr_Model) class tokens).

(** The request may route: its internal headers, if any, come from the gateway. *)
Definition routable (h : Header) : bool :=
  negb (hasInternalRoutingHeader h) || internalBearerAuthorized e.(e_sha256) s.(s_gatewayServiceToken) h.

(** The providers a request without a pinned route chooses from at once: all gates passed,
    and not behind a queue. *)
Definition ready_candidates (q : option slotQueue) (excluded : gset string) (providers : list Provider) : list Provider :=
  List.filter (fun p => negb (blocked q p)) (List.filter (fun p =>
    bool_decide (gate (Some excluded) SortKey (eligibilityCtx s e req.(cr_Model) (class_of providers) tokens) p = None)) providers).

Lemma ready_candidates_spec q excluded providers p :
  p ∈ ready_candidates q excluded providers <->
  p ∈ providers /\ blocked q p = false
  /\ gate (Some excluded) SortKey (eligibilityCtx s e req.(cr_Model) (class_of providers) tokens) p = None.
Proof.
  unfold ready_candidates. rewrite !list_elem_of_In, !filter_In, bool_decide_eq_true, negb_true_iff. tauto.
Qed.

Lemma select_unpinned fuel st providers h excluded dailyKey : routable h = true -> pinned_route h = false ->
  selectProviderExcluding s e w fuel today requestID req st providers h excluded dailyKey
  = select_open s e w fuel today requestID req st providers h excluded dailyKey.
Proof.
  unfold routable, pinned_route, hasPinnedRoute, selectProviderExcluding. simpl. intros Hr Hp.
  assert (hasInternalRoutingHeader h && negb (internalBearerAuthorized (e_sha256 e) (s_gatewayServiceToken s) h) = false) as ->
    by (by destruct (hasInternalRoutingHeader h), (internalBearerAuthorized _ _ _)).
  destruct (String.eqb (Get h "X-MacProvider-Session") ""), (String.eqb (Get h "X-MacProvider-Provider") ""); done.
Qed.

Lemma select_open_ready fuel st providers h excluded dailyKey :
  let ready := ready_candidates st.(ss_queue) excluded providers in
  ready <> [] ->
  select_open s e w fuel today requestID req st providers h excluded dailyKey
  = Some (select_among s e today requestID req st h (class_of providers) dailyKey ready).
Proof.
  cbv zeta. intros Hn. unfold select_open, splitQueuedCandidates. rewrite (proj1 (eligible_candidates_spec _ _ _ _)).
  fold (ready_candidates (ss_queue st) excluded providers). by destruct (ready_candidates (ss_queue st) excluded providers).
Qed.

(** The queued candidates are providers of the snapshot. *)
Definition queue_candidates (q : option slotQueue) (excluded : gset string) (providers : list Provider) : list Provider :=
  let class := class_of providers in let checker := eligibilityCtx s e req.(cr_Model) class tokens in
  (splitQueuedCandidates q (EligibleCandidates (Some excluded) SortKey checker providers).(Eligible)).2
  ++ slotQueueCandidates providers (Some excluded) req.(cr_Model) class checker.

Lemma queue_candidates_known q excluded providers :
  (forall p, p ∈ queue_candidates q excluded providers -> p ∈ providers)
  /\ (length (queue_candidates q excluded providers) <= 2 * length providers)%nat.
Proof.
  unfold queue_candidates. rewrite (proj1 (eligible_candidates_spec _ _ _ _)). unfold splitQueuedCandidates, slotQueueCandidates. cbn [snd]. split.
  - intros p. rewrite elem_of_app, !list_elem_of_In, !filter_In. tauto.
  - rewrite length_app. etransitivity; [apply Nat.add_le_mono; apply List.filter_length_le|].
    pose proof (List.filter_length_le (fun p => bool_decide (gate (Some excluded) SortKey
      (eligibilityCtx s e (cr_Model req) (class_of providers) tokens) p = None)) providers). lia.
Qed.

Lemma select_open_waits fuel st providers h excluded dailyKey :
  ready_candidates st.(ss_queue) excluded providers = [] ->
  select_open s e w fuel today requestID req st providers h excluded dailyKey
  = '(st, out) ← trySelectQueuedProvider s e w fuel today requestID req st h (class_of providers) dailyKey
                   (queue_candidates st.(ss_queue) excluded providers);
    Some (st, match out with
      | QueuedFor result => result
      | NotQueued => inr (no_candidate_error s req.(cr_Model)
          (EligibleCandidates (Some excluded) SortKey (eligibilityCtx s e req.(cr_Model) (class_of providers) tokens) providers))
      end).
Proof.
  intros Hn. unfold select_open. cbv zeta. unfold queue_candidates, splitQueuedCandidates. cbn [snd].
  replace (List.filter (fun p => negb (blocked (ss_queue st) p)) _) with (ready_candidates (ss_queue st) excluded providers)
    by (unfold ready_candidates; by rewrite (proj1 (eligible_candidates_spec _ _ _ _))).
  by rewrite Hn.
Qed.

Lemma queue_candidates_allowed q excluded providers p : p ∈ queue_candidates q excluded providers -> ~ (SortKey p ∈ excluded).
Proof.
  unfold queue_candidates. rewrite (proj1 (eligible_candidates_spec _ _ _ _)). unfold splitQueuedCandidates, slotQueueCandidates. cbn [snd Has].
  rewrite elem_of_app, !list_elem_of_In, !filter_In. intros [[[_ H%bool_decide_eq_true_1] _]|[_ H]].
  - by apply gate_serves in H as [H _].
  - by case_bool_decide.
Qed.

(** A selection changes only what it says about stickiness and the slot of the request. *)
Definition same_request (fw fw' : forwardState) : Prop :=
  fw'.(fs_explicitRetries) = fw.(fs_explicitRetries) /\ fw'.(fs_faultedProviders) = fw.(fs_faultedProviders)
  /\ fw'.(fs_faultedRoutes) = fw.(fs_faultedRoutes) /\ fw'.(fs_provider) = fw.(fs_provider) /\ fw'.(fs_dailyKey) = fw.(fs_dailyKey).

Lemma select_same_request fuel st st' providers h excluded dailyKey result :
  selectProviderExcluding s e w fuel today requestID req st providers h excluded dailyKey = Some (st', result) ->
  same_request st.(ss_fw) st'.(ss_fw).
Proof.
  unfold selectProviderExcluding. destruct (_ && _); [by intros [= <- _]|]. destruct (negb _); [by intros [= <- _]|].
  destruct (negb _); [by intros [= <- _]|]. unfold select_open. destruct (splitQueuedCandidates _ _) as [[|c l] q].
  - unfold trySelectQueuedProvider. intros H. apply bind_Some in H as ([st1 out] & H & [= -> _]).
    repeat case_match; simplify_eq; try done. all: apply bind_Some in H as ([q' out'] & _ & [= <- _]); by repeat case_match.
  - unfold select_among. destruct (ordered_candidates _ _ _ _ _ _ _ _ _) as [m [[ordered r] reason]].
    by destruct (preflight_loop _ _ _ _); intros [= <- _].
Qed.

Lemma select_among_serves st providers h excluded dailyKey p st' :
  select_among s e today requestID req st h (class_of providers) dailyKey (ready_candidates st.(ss_queue) excluded providers) = (st', inl p) ->
  may_serve (class_of providers) providers e.(e_checkQuota) p /\ blocked st.(ss_queue) p = false /\ ~ (SortKey p ∈ excluded)
  /\ st'.(ss_queue) = st.(ss_queue) /\ st'.(ss_fw).(fs_queuedSlotProviderID) = st.(ss_fw).(fs_queuedSlotProviderID).
Proof.
  unfold select_among. pose proof (ordered_perm s e today requestID (ss_sticky st) h (class_of providers) dailyKey
    (ready_candidates (ss_queue st) excluded providers)) as Hp.
  destruct (ordered_candidates _ _ _ _ _ _ _ _ _) as [m [[ordered result] reason]]. cbn [fst snd] in Hp.
  destruct (preflight_loop _ _ _ _) as [p0|] eqn:El; [|done]. intros [= <- <-].
  apply preflight_first in El as (before & after & -> & Hpre & _).
  assert (p0 ∈ ready_candidates (ss_queue st) excluded providers) as Hin by (rewrite <- Hp; apply elem_of_app; right; left).
  apply ready_candidates_spec in Hin as (Hin & Hb & Hg). apply gate_serves in Hg as (H0 & H1 & H2 & H3 & H4 & H5 & H6).
  split_and!; [by split|done..].
Qed.

(** The selection waited: the request went through the slot queue from the state before to
    the state after, over the queued candidates in some order, and was granted a slot. *)
Definition waited_slot (st st' : SelectState) (excluded : gset string) (providers : list Provider) (p : Provider) : Prop :=
  exists q0 q' ordered, st.(ss_queue) = Some q0 /\ st'.(ss_queue) = Some q'
    /\ ordered ≡ₚ queue_candidates st.(ss_queue) excluded providers
    /\ granted_slot s e w requestID req.(cr_Model) (class_of providers) tokens (map p_ProviderID ordered) q0 q' p.

(** The provider of a request without a pinned route: a candidate that is ready, or one
    that has granted a slot. *)
Lemma unpinned_selected fuel st st' providers h excluded dailyKey p : routable h = true -> pinned_route h = false ->
  selectProviderExcluding s e w fuel today requestID req st providers h excluded dailyKey = Some (st', inl p) ->
  (may_serve (class_of providers) providers e.(e_checkQuota) p /\ blocked st.(ss_queue) p = false /\ ~ (SortKey p ∈ excluded)
   /\ st'.(ss_queue) = st.(ss_queue) /\ st'.(ss_fw).(fs_queuedSlotProviderID) = st.(ss_fw).(fs_queuedSlotProviderID))
  \/ (waited_slot st st' excluded providers p /\ st'.(ss_fw).(fs_queuedSlotProviderID) = p.(p_ProviderID)).
Proof.
  intros Hr Hp H. rewrite select_unpinned in H by done. destruct (ready_candidates (ss_queue st) excluded providers) as [|c l] eqn:Ec.
  2:{ left. rewrite select_open_ready in H by (by rewrite Ec). injection H as H. by apply select_among_serves in H. }
  right. rewrite select_open_waits in H by done. apply bind_Some in H as ([st1 out] & H & [= -> H2]).
  unfold trySelectQueuedProvider in H. destruct out as [|result]; [done|]. subst result.
  destruct (ss_queue st) as [q|] eqn:Eq0; [|done]. destruct (queue_candidates (Some q) excluded providers) as [|c l] eqn:Eq; [done|].
  pose proof (ordered_perm s e today requestID (ss_sticky st) h (class_of providers) dailyKey (c :: l)) as Hperm.
  destruct (ordered_candidates _ _ _ _ _ _ _ _ _) as [m [[ordered result] reason]]. cbn [fst snd] in Hperm.
  apply bind_Some in H as ([q' out'] & H & [= <- ->]). split; [|done].
  exists q, q', ordered. split_and!; [done|done|by rewrite Eq0, Eq|].
  eapply queue_loop_grants; [apply wait_begins|done|exact H].
Qed.

(** With fuel for the wait a selection returns. *)
Lemma select_returns fuel T st providers h excluded dailyKey :
  (forall t, (T <= t)%nat -> w.(w_expired) t = true) -> (T + 4 * length providers + 1 < fuel)%nat ->
  exists st' result, selectProviderExcluding s e w fuel today requestID req st providers h excluded dailyKey = Some (st', result).
Proof.
  intros HT Hf. destruct (routable h && negb (pinned_route h)) eqn:Er.
  2:{ unfold selectProviderExcluding. unfold routable, pinned_route, hasPinnedRoute in Er. cbn [sticky_headers h_Provider h_Session] in Er.
      destruct (hasInternalRoutingHeader h), (internalBearerAuthorized _ _ _), (String.eqb (Get h "X-MacProvider-Session") ""),
        (String.eqb (Get h "X-MacProvider-Provider") ""); cbn in *; by eauto. }
  apply andb_true_iff in Er as [Er Ep%negb_true_iff]. rewrite select_unpinned by done.
  destruct (ready_candidates (ss_queue st) excluded providers) as [|c l] eqn:Ec.
  2:{ rewrite select_open_ready by (by rewrite Ec). by destruct (select_among _ _ _ _ _ _ _ _ _ _); eauto. }
  rewrite select_open_waits by done. destruct (queue_candidates_known (ss_queue st) excluded providers) as [_ Hlen].
  unfold trySelectQueuedProvider. destruct (ss_queue st) as [q|]; [|simpl; eauto].
  destruct (queue_candidates (Some q) excluded providers) as [|c l] eqn:Eq; [simpl; eauto|].
  pose proof (ordered_perm s e today requestID (ss_sticky st) h (class_of providers) dailyKey (c :: l)) as Hp.
  destruct (ordered_candidates _ _ _ _ _ _ _ _ _) as [m [[ordered res] reason]]. cbn [fst snd] in Hp.
  destruct (queue_loop_ends s e w requestID (cr_Model req) (class_of providers) (estimateTokens (cr_raw req)) T fuel HT
    0 q (map p_ProviderID ordered) None ∅ None) as [[q' out] ->]; [done| |simpl; eauto].
  unfold rounds. assert (size (list_to_set (map p_ProviderID ordered) ∖ ∅ : gset string) <= length (c :: l))%nat; [|lia].
  rewrite <- Hp, <- (length_map p_ProviderID). rewrite difference_empty_L. apply names_size.
Qed.
End SelectionSpec.

(** ** What the selection promises *)

(** Claim C12. A provider that is selected may serve the request. Whatever the route, a
    hard pin, a free choice or a slot waited for, the provider is in the snapshot the
    server looked at last, serves the requested model or a member of its class, is
    eligible for routing, runs a new enough binary, has the context, satisfies the tier 2
    settings, has quota left and accepted the preflight. A pinned request gets the
    provider or session it names; a free choice is never an excluded provider, and is not
    behind a queue. When the request waited, over the queued candidates none of which is
    excluded, then in this run of the loop its waiter was the head of the provider's queue
    when the last poll began and when it reserved, more slots of the provider were free
    than reserved, and the queue afterwards has one more reservation of the provider and
    no longer this waiter. *)
Theorem selected_may_serve (s : Server) (e : SelectEnv) (w : Surroundings) (fuel : nat) (today requestID : string) (req : chatRequest)
    (st st' : SelectState) (providers : list Provider) (h : Header) (excluded : gset string) (dailyKey : string) (p : Provider) :
  selectProviderExcluding s e w fuel today requestID req st providers h excluded dailyKey = Some (st', inl p) ->
  let class := classForRequest s e req.(cr_Model) providers in
  let tokens := estimateTokens req.(cr_raw) in
  let session := Get h "X-MacProvider-Session" in
  (serves s e requestID req.(cr_Model) class tokens providers e.(e_checkQuota) p
   /\ blocked st.(ss_queue) p = false
   /\ st'.(ss_queue) = st.(ss_queue) /\ st'.(ss_fw).(fs_queuedSlotProviderID) = st.(ss_fw).(fs_queuedSlotProviderID)
   /\ if pinned_route h then
        (if String.eqb session "" then p.(p_ProviderID) = Get h "X-MacProvider-Provider" else p.(p_AssignedID) = session)
      else ~ (SortKey p ∈ excluded))
  \/ (pinned_route h = false
      /\ (exists q0 q' ordered, st.(ss_queue) = Some q0 /\ st'.(ss_queue) = Some q'
            /\ Forall (fun c => c ∈ providers /\ ~ (SortKey c ∈ excluded)) ordered
            /\ granted_slot s e w requestID req.(cr_Model) class tokens (map p_ProviderID ordered) q0 q' p)
      /\ st'.(ss_fw).(fs_queuedSlotProviderID) = p.(p_ProviderID)).
Proof.
  intros H class tokens session. subst session. destruct (routable s e h) eqn:Er.
  2:{ unfold selectProviderExcluding in H. unfold routable in Er. apply orb_false_iff in Er as [E1%negb_false_iff E2].
      by rewrite E1, E2 in H. }
  destruct (pinned_route h) eqn:Ep.
  - left. unfold selectProviderExcluding in H.
    assert (hasInternalRoutingHeader h && negb (internalBearerAuthorized (e_sha256 e) (s_gatewayServiceToken s) h) = false) as E0
      by (unfold routable in Er; by destruct (hasInternalRoutingHeader h), (internalBearerAuthorized _ _ _)).
    rewrite E0 in H. clear E0. fold class tokens in H.
    unfold pinned_route, hasPinnedRoute in Ep. cbn [sticky_headers h_Provider h_Session] in Ep.
    destruct (String.eqb (Get h "X-MacProvider-Session") ""); cbn [negb] in H.
    + destruct (String.eqb (Get h "X-MacProvider-Provider") ""); [done|]. cbn [negb] in H. injection H as <- H.
      destruct (find _ providers) as [p0|] eqn:Ef; [|done]. apply find_some in Ef as [Hin En%String.eqb_eq]. rewrite <- list_elem_of_In in Hin.
      eapply pinned_serves in H as (-> & Hs & Hb); [|exact Hin]. done.
    + injection H as <- H. destruct (find _ providers) as [p0|] eqn:Ef; [|done]. apply find_some in Ef as [Hin En%String.eqb_eq].
      rewrite <- list_elem_of_In in Hin. eapply pinned_serves in H as (-> & Hs & Hb); [|exact Hin]. done.
  - apply unpinned_selected in H as [(? & ? & ? & ? & ?)|[(q0 & q' & ordered & H1 & H2 & H3 & H4) H5]]; [by left| |done..].
    right. split_and!; [done| |done]. exists q0, q', ordered. split_and!; [done..| |done].
    apply Forall_forall. intros c. rewrite H3. intros Hc.
    split; [by eapply (queue_candidates_known s e)|by eapply (queue_candidates_allowed s e)].
Qed.

(** Claim C20. A request without a pin goes to one of the best providers. When some
    provider passes every gate and has room, the selection neither waits nor changes the
    slot queue: it tries these candidates in an order that begins with a provider no
    other beats for the objective of the request, or with one as good as that provider up
    to epsilon, and takes the first that accepts the preflight; it fails only when all of
    them refuse. *)
Theorem selection_ranked (s : Server) (e : SelectEnv) (w : Surroundings) (fuel : nat) (today requestID : string) (req : chatRequest)
    (st : SelectState) (providers : list Provider) (h : Header) (excluded : gset string) (dailyKey : string) :
  let class := classForRequest s e req.(cr_Model) providers in
  let tokens := estimateTokens req.(cr_raw) in
  let objective := objectiveForRequest h class in
  let ready := ready_candidates s e req st.(ss_queue) excluded providers in
  let cache := (sortCandidates s ready objective).2 in
  let refuses c := exists err, preflightCandidate s c requestID tokens = inr err in
  routable s e h = true -> pinned_route h = false -> ready <> [] ->
  Forall (rankable (weights s) (default ∅ cache)) ready ->
  exists st' result ordered top first rest,
    selectProviderExcluding s e w fuel today requestID req st providers h excluded dailyKey = Some (st', result)
    /\ st'.(ss_queue) = st.(ss_queue)
    /\ ordered ≡ₚ ready /\ ordered = first :: rest
    /\ top ∈ ready /\ Forall (fun c => objective_less objective (weights s) (default ∅ cache) c top = false) ready
    /\ (first = top \/ inEpsilonCohort s top first objective ready cache = true)
    /\ match result with
       | inl p => exists before after, ordered = before ++ p :: after /\ Forall refuses before
                    /\ preflightCandidate s p requestID tokens = inl p
       | inr err => err.(re_code) = "preflight_rejected" /\ Forall refuses ordered
       end.
Proof.
  intros class tokens objective ready cache refuses Hr Hp Hn Hrank.
  rewrite select_unpinned, select_open_ready by done. fold ready. unfold select_among. fold class.
  pose proof (ordered_reordered s e today requestID (ss_sticky st) h class dailyKey ready) as [Hperm Hhead]. cbv zeta in Hperm, Hhead.
  fold objective in Hperm, Hhead. destruct (ordered_candidates _ _ _ _ _ _ _ _ _) as [m [[ordered res] reason]]. cbn [fst snd] in Hperm, Hhead.
  destruct (sortCandidates s ready objective).1 as [|top rest0] eqn:Es.
  { exfalso. apply Hn. apply Permutation_nil. rewrite <- Es. apply sort_perm. }
  destruct (Hhead top rest0 eq_refl) as (first & rest & -> & Hfirst).
  destruct (sort_head s ready objective top rest0 Hrank Es) as [Hin Hbest].
  assert (first :: rest ≡ₚ ready) as Hready by (rewrite Hperm, <- Es; apply sort_perm).
  assert (first = top \/ inEpsilonCohort s top first objective ready cache = true) as Hf.
  { destruct Hfirst as [|Hc]; [by left|right]. rewrite <- Hc. apply cohort_cached. }
  destruct (preflight_loop _ _ _ _) as [p|] eqn:El.
  - apply preflight_first in El as (before & after & Eo & Hpre & HF).
    eexists _, (inl p), (first :: rest), top, first, rest. split_and!; [reflexivity|done..|]. by exists before, after.
  - eexists _, (inr _), (first :: rest), top, first, rest. split_and!; [reflexivity|done..|]. by apply preflight_none in El.
Qed.

(** Claim C19. A selection always ends. If from some operation [T] on the request sees its
    deadline, the loop over queues and polls makes at most [T] plus four rounds per
    provider plus one: it returns a provider or an error. *)
Theorem selection_completes (s : Server) (e : SelectEnv) (w : Surroundings) (fuel T : nat) (today requestID : string) (req : chatRequest)
    (st : SelectState) (providers : list Provider) (h : Header) (excluded : gset string) (dailyKey : string) :
  (forall t, (T <= t)%nat -> w.(w_expired) t = true) ->
  (T + 4 * length providers + 1 < fuel)%nat ->
  exists st' result, selectProviderExcluding s e w fuel today requestID req st providers h excluded dailyKey = Some (st', result).
Proof.
  apply select_returns.
Qed.

Module SelectSample.
Definition box (id : string) (free : Z) (tps : Z) : Provider :=
  (PoolSample.session id "s1") <| p_State := StateReady |> <| p_SlotsFree := free |> <| p_ThroughputTPSEstimate := F64.of_Z tps |>.
Definition server : Server :=
  mkServer (mkTier2Config false "" false false false) ∅ ∅ "token" F64.one true (F64.ratio 1 10) true true 100 None.
Definition env : SelectEnv :=
  mkEnv map_to_list map_to_list (fun x => x) (fun _ => true) (fun _ => F64.ratio 9 10) 0.
Definition waits : Surroundings :=
  mkSurroundings (fun _ q => q) (fun t => [box "a" 0 20; box "b" (if (t <? 4)%nat then 0 else 1) 20]) (fun _ _ => true)
    (fun t => (20 <=? t)%nat) (fun t => Pos.of_succ_nat t).
Definition request : chatRequest := mkChatRequest "m" false "{}".
Definition fw : forwardState := mkForwardState "" 0 0 ∅ (box "a" 0 20) "" "" "".
Definition state : SelectState := mkSelectState (NewMap 60 10) (Some (newSlotQueue 4)) fw.
Definition full : list Provider := [box "a" 0 5; box "b" 0 20].
Definition free : list Provider := [box "c" 2 20; box "a" 1 20; box "b" 1 19; box "d" 0 90].
End SelectSample.


Lemma selected_may_serve_witness :
  exists st' q' ordered, selectProviderExcluding SelectSample.server SelectSample.env SelectSample.waits 40 "2026-01-01" "r1" SelectSample.request
      SelectSample.state SelectSample.full ∅ ∅ "" = Some (st', inl (SelectSample.box "b" 1 20))
    /\ fs_queuedSlotProviderID (ss_fw st') = "b" /\ ss_queue st' = Some q'
    /\ granted_slot SelectSample.server SelectSample.env SelectSample.waits "r1" "m" None 1 ordered (newSlotQueue 4) q' (SelectSample.box "b" 1 20).
Proof.
  destruct (selectProviderExcluding SelectSample.server SelectSample.env SelectSample.waits 40 "2026-01-01" "r1" SelectSample.request
    SelectSample.state SelectSample.full ∅ ∅ "") as [[st' r]|] eqn:E; [|vm_compute in E; discriminate].
  exists st'. assert (r = inl (SelectSample.box "b" 1 20)) as ->.
  { apply (f_equal (fun o => match o with Some (_, r) => Some r | None => None end)) in E. vm_compute in E. injection E as <-. reflexivity. }
  apply selected_may_serve in E as [[[H _] _]|(_ & (q0 & q' & ordered & H1 & H2 & _ & H3) & H4)].
  - exfalso. unfold SelectSample.full in H. rewrite !elem_of_cons in H. destruct H as [H|[H|H]]; [..|by apply elem_of_nil in H].
    + apply (f_equal p_ProviderID) in H. vm_compute in H. discriminate.
    + apply (f_equal p_SlotsFree) in H. vm_compute in H. discriminate.
  - injection H1 as <-. exists q', (map p_ProviderID ordered). split; [exact eq_refl|]. split; [exact H4|]. split; [exact H2|exact H3].
Defined.

Lemma selection_ranked_witness :
  exists st' result, selectProviderExcluding SelectSample.server SelectSample.env SelectSample.waits 0 "2026-01-01" "r1" SelectSample.request
      SelectSample.state SelectSample.free ∅ ∅ "" = Some (st', result) /\ ss_queue st' = Some (newSlotQueue 4).
Proof.
  destruct (selection_ranked SelectSample.server SelectSample.env SelectSample.waits 0 "2026-01-01" "r1" SelectSample.request
    SelectSample.state SelectSample.free ∅ ∅ "") as (st' & result & _ & _ & _ & _ & H1 & H2 & _).
  - vm_compute. reflexivity.
  - vm_compute. reflexivity.
  - vm_compute. discriminate.
  - vm_compute. repeat constructor; discriminate.
  - exists st', result. split; [exact H1|exact H2].
Defined.

Lemma selection_completes_witness :
  exists st' result, selectProviderExcluding SelectSample.server SelectSample.env SelectSample.waits 40 "2026-01-01" "r1" SelectSample.request
    SelectSample.state SelectSample.full ∅ ∅ "" = Some (st', result).
Proof.
  apply (selection_completes SelectSample.server SelectSample.env SelectSample.waits 40 20).
  - intros t Ht. by apply Nat.leb_le.
  - simpl. lia.
Defined.
