(* ===== verification/Forwarding.v ===== *)
(** * Forwarding with failover and retries

    Models [buyer/forward_with_failover.go], [buyer/transport_result.go], the callbacks of
    the three transports, [advanceToNextProvider] and the routing tail of
    [handleChatCompletions] in [buyer/server.go]. What the network answers is an input;
    what the handler does to the log, the pool and the buyer is a trace of events. *)

From S2P Require Import Prelude Jcs GoTime GoFloat GoSort Sticky VersionFloor Pool PoolHolds Tier2 Routing SlotQueue Selection.
#[local] Open Scope Z_scope.

(** ** [transport_result.go] *)

Inductive wsForwardResult :=
  | wsForwardComplete | wsForwardTimedOut | wsForwardQueueFull | wsForwardProviderDisconnected
  | wsForwardProviderDisconnectedCommitted | wsForwardCancelled | wsForwardFailed | wsForwardUnavailable.
#[global] Instance wsForwardResult_eq_dec : EqDecision wsForwardResult.
Proof. solve_decision. Defined.

(** What an attempt reports for its row; the settlement output and receipt go on to the
    billing recorder and are not read here. *)
Record requestLogAttempt := mkAttempt {
  at_PromptTokens : option Z;
  at_CachedPromptTokens : option Z;
  at_CompletionTokens : option Z;
  at_Status : Z;
  at_Error : string;
  at_ErrorCode : string;
  at_EstimatedCompTokens : option Z;
  at_Logged : bool;
}.

Record transportResult := mkResult {
  tr_kind : option wsForwardResult;
  tr_status : Z;
  tr_attempt : requestLogAttempt;
  tr_err : option string;
  tr_retryable : bool;
  tr_failoverEligible : bool;
  tr_markBusy : bool;
  tr_committed : bool;
  tr_cancelled : bool;
}.
#[global] Instance transportResult_rebuild : Rebuild transportResult := fun r =>
  mkResult r.(tr_kind) r.(tr_status) r.(tr_attempt) r.(tr_err) r.(tr_retryable) r.(tr_failoverEligible) r.(tr_markBusy) r.(tr_committed)
    r.(tr_cancelled).

Definition statusForForwardResult (result : wsForwardResult) : Z :=
  match result with wsForwardTimedOut => 504 | wsForwardUnavailable => 503 | _ => 502 end.

Definition plain_result (result : wsForwardResult) (status : Z) (attempt : requestLogAttempt) : transportResult :=
  mkResult (Some result) status attempt None false false false false false.

Definition classifyWSResult (result : wsForwardResult) (attempt : requestLogAttempt) : transportResult :=
  let tr := plain_result result (statusForForwardResult result) attempt in
  match result with
  | wsForwardComplete => tr <| tr_status := 200 |>
  | wsForwardTimedOut => tr <| tr_retryable := true |> <| tr_status := 504 |>
  | wsForwardQueueFull => tr <| tr_markBusy := true |> <| tr_retryable := true |>
  | wsForwardProviderDisconnected => tr <| tr_failoverEligible := true |>
  | wsForwardCancelled => tr <| tr_cancelled := true |>
  | _ => tr
  end.

Definition classifyStreamResult (result : wsForwardResult) (status : Z) (attempt : requestLogAttempt) : transportResult :=
  let tr := plain_result result status attempt in
  match result with
  | wsForwardComplete => tr <| tr_status := 200 |>
  | wsForwardProviderDisconnectedCommitted => tr <| tr_committed := true |> <| tr_status := 200 |>
  | wsForwardCancelled => tr <| tr_committed := true |> <| tr_cancelled := true |> <| tr_status := 200 |>
  | wsForwardProviderDisconnected => tr <| tr_retryable := true |> <| tr_failoverEligible := true |>
  | wsForwardQueueFull => tr <| tr_markBusy := true |> <| tr_retryable := true |>
  | _ => tr <| tr_retryable := true |>
  end.

(** [resp] is the status of the response, if there is one. *)
Definition classifyHTTPResult (resp : option Z) (err : option string) (attempt : requestLogAttempt) : transportResult :=
  if bool_decide (err = None) && bool_decide (resp = Some 200) then mkResult None 200 attempt err false false false false false
  else mkResult None (default 502 resp) attempt err true false false false false.

Record dispatchedAttempt := mkDispatched {
  da_tr : transportResult;
  da_nativeResult : option wsForwardResult;
  da_success : bool;
}.

(** ** The handler *)

Inductive transport := StreamTransport | WSTransport | HTTPTransport.
#[global] Instance transport_eq_dec : EqDecision transport.
Proof. solve_decision. Defined.

(** What the handler does, in order: an attempt at a provider over a transport; a row of the request log
    and whether it was stored; a change of the provider's state in the pool; the log line
    of a lost connection; a provider remembered for the conversation; the answer. *)
Inductive forward_event :=
  | FDispatch (tx : transport) (p : Provider)
  | FRow (p : Provider) (status retried : Z) (stored : bool)
  | FRouteRow (status : Z) (message : string) (retried : Z)
  | FMark (p : Provider) (state : string)
  | FDegrade (p : Provider)
  | FClose (p : Provider) (reason : string)
  | FDied (p : Provider) (action target : string)
  | FSticky (p : Provider)
  | FAnswer (status : Z) (code : string).

Record RetryConfig := mkRetryConfig {
  rc_maxRetries : Z;
  rc_maxFaultedPerRequest : Z;
  rc_requestTimeout : Z;
  rc_retryPerAttemptTimeout : Z;
}.

(** What surrounds the handler: per attempt, what each transport answers ([None] when the
    dispatch answered the request itself), whether the row is stored, the clock and the
    request's context; per selection, the request id, the pool, the quotas and the other
    requests, and the order in which the sticky map is ranged over. *)
Record Surround := mkSurround {
  u_ws : nat -> option (wsForwardResult * requestLogAttempt);
  u_stream : nat -> option (wsForwardResult * Z * requestLogAttempt);
  u_http : nat -> option (option Z * option string * requestLogAttempt);
  u_stored : nat -> bool;
  u_now : nat -> Z;
  u_context : nat -> option string;
  u_routeID : nat -> string;
  u_snapshot : nat -> list Provider;
  u_env : nat -> SelectEnv;
  u_waiting : nat -> Surroundings;
  u_today : nat -> string;
  u_sticky_order : gmap string Entry -> list (string * Entry);
}.

(** The handler's variables: the shared state, the excluded keys, the events so far, the
    number of attempts and of selections. *)
Record Journey := mkJourney {
  j_select : SelectState;
  j_excluded : gset string;
  j_events : list forward_event;
  j_attempts : nat;
  j_selections : nat;
}.
#[global] Instance Journey_rebuild : Rebuild Journey := fun j =>
  mkJourney j.(j_select) j.(j_excluded) j.(j_events) j.(j_attempts) j.(j_selections).

Definition j_fw (j : Journey) : forwardState := j.(j_select).(ss_fw).
Definition set_fw (j : Journey) (fw : forwardState) : Journey := j <| j_select := j.(j_select) <| ss_fw := fw |> |>.
Definition emit (evs : list forward_event) (j : Journey) : Journey := j <| j_events := j.(j_events) ++ evs |>.
Definition exclude (key : string) (j : Journey) : Journey := j <| j_excluded := {[key]} ∪ j.(j_excluded) |>.
Definition set_provider (p : Provider) (j : Journey) : Journey := set_fw j ((j_fw j) <| fs_provider := p |>).

Section Handler.
Context (s : Server) (rc : RetryConfig) (u : Surround) (fuelSelect : nat) (h : Header) (req : chatRequest) (startedAt : Z).

(** The row of the attempt under way: [logAttempt] with the fallback status; an attempt
    that is already logged makes no row, and cannot fail. *)
Definition log_stored (j : Journey) (attempt : requestLogAttempt) : bool := attempt.(at_Logged) || u.(u_stored) (pred j.(j_attempts)).
Definition logAttempt (fallbackStatus : Z) (attempt : requestLogAttempt) (j : Journey) : Journey :=
  if attempt.(at_Logged) then j
  else emit [FRow (j_fw j).(fs_provider) (if attempt.(at_Status) =? 0 then fallbackStatus else attempt.(at_Status))
               (j_fw j).(fs_explicitRetries) (u.(u_stored) (pred j.(j_attempts)))] j.
Definition shouldLogAttempt (a : requestLogAttempt) : bool :=
  negb (a.(at_Status) =? 0) || bool_decide (is_Some a.(at_PromptTokens)) || bool_decide (is_Some a.(at_CachedPromptTokens))
  || bool_decide (is_Some a.(at_CompletionTokens)) || bool_decide (is_Some a.(at_EstimatedCompTokens))
  || negb (String.eqb a.(at_Error) "") || negb (String.eqb a.(at_ErrorCode) "").

(** An answer after a row, or the error when the row could not be stored. *)
Definition answer_logged (attempt : requestLogAttempt) (answer : list forward_event) (j : Journey) : Journey :=
  emit (if log_stored j attempt then answer else [FAnswer 500 "request_log_failed"]) j.

(** *** One attempt *)

Definition handleProviderFailure (p : Provider) (status : Z) : list forward_event :=
  if (status =? 502) || (status =? 504) then [FDegrade p]
  else if status =? 530 then [FMark p StateUnavailable; FClose p "http_530_observed"]
  else if (300 <=? status) && (status <? 400) then [FMark p StateUnavailable; FClose p "provider_redirect_observed"]
  else [].

(** The [dispatch] callbacks. *)
Definition dispatch (tx : transport) (j : Journey) : Journey * option dispatchedAttempt :=
  let p := (j_fw j).(fs_provider) in
  let n := j.(j_attempts) in
  let j := emit [FDispatch tx p] j <| j_attempts := S n |> in
  match tx with
  | StreamTransport =>
      let finish result tr := (j, Some (mkDispatched tr (Some result) (bool_decide (result = wsForwardComplete)))) in
      if IsWSTunneled p then
        match u.(u_ws) n with
        | Some (result, attempt) => finish result (classifyStreamResult result (statusForForwardResult result) attempt)
        | None => (j, None)
        end
      else match u.(u_stream) n with
        | Some (result, status, attempt) => finish result ((classifyStreamResult result status attempt) <| tr_failoverEligible := false |>)
        | None => (j, None)
        end
  | WSTransport =>
      match u.(u_ws) n with
      | Some (result, attempt) =>
          (j, Some (mkDispatched (classifyWSResult result attempt) (Some result) (bool_decide (result = wsForwardComplete))))
      | None => (j, None)
      end
  | HTTPTransport =>
      match u.(u_http) n with
      | Some (resp, err, attempt) =>
          (match resp with Some status => emit (handleProviderFailure p status) j | None => j end,
           Some (mkDispatched (classifyHTTPResult resp err attempt) None false))
      | None => (j, None)
      end
  end.

(** *** The callbacks *)

Definition renderCommitted (d : dispatchedAttempt) (j : Journey) : Journey :=
  let a := d.(da_tr).(tr_attempt) in
  if d.(da_tr).(tr_cancelled) then (if shouldLogAttempt a then logAttempt 200 a j else j)
  else
  let p := (j_fw j).(fs_provider) in
  let j := logAttempt 200 a j in
  if IsWSTunneled p && bool_decide (d.(da_nativeResult) = Some wsForwardProviderDisconnectedCommitted)
  then emit [FDied p "stream_terminal" ""] j else j.

Definition ws_terminal (d : dispatchedAttempt) : bool :=
  bool_decide (d.(da_nativeResult) = Some wsForwardFailed) || bool_decide (d.(da_nativeResult) = Some wsForwardUnavailable)
  || bool_decide (d.(da_nativeResult) = Some wsForwardCancelled).
Definition handleNonRetryableTerminal (d : dispatchedAttempt) (j : Journey) : Journey :=
  let a := d.(da_tr).(tr_attempt) in
  if negb (bool_decide (d.(da_nativeResult) = Some wsForwardCancelled)) || shouldLogAttempt a
  then logAttempt (statusForForwardResult (default wsForwardFailed d.(da_nativeResult))) a j else j.

(** [stickyStore] on the map, when the row is stored; streaming stores only for tunnels. *)
Definition remember (now : Z) (j : Journey) : Journey :=
  let p := (j_fw j).(fs_provider) in
  emit [FSticky p] (j <| j_select := j.(j_select)
    <| ss_sticky := (stickyStore u.(u_sticky_order) s.(s_stickyEnabled) j.(j_select).(ss_sticky) now (sticky_headers h) p.(p_ProviderID) req.(cr_Model)).1 |> |>).
Definition renderSuccess (tx : transport) (d : dispatchedAttempt) (j : Journey) : Journey :=
  match tx with
  | HTTPTransport => j
  | _ =>
      let stored := log_stored j d.(da_tr).(tr_attempt) in
      let now := u.(u_now) (pred j.(j_attempts)) in
      let keep := match tx with StreamTransport => IsWSTunneled (j_fw j).(fs_provider) | _ => true end in
      let j := logAttempt 200 d.(da_tr).(tr_attempt) j in
      if stored && keep then remember now j else j
  end.

Definition onFailoverHit (tx : transport) (d : dispatchedAttempt) (next : Provider) (j : Journey) : Journey :=
  let j := emit [FDied (j_fw j).(fs_provider) "failover" next.(p_ProviderID)] j in
  match tx with WSTransport => logAttempt 502 d.(da_tr).(tr_attempt) j | _ => j end.

(** The journey, and whether the request is answered. *)
Definition onFailoverMiss (tx : transport) (d : dispatchedAttempt) (j : Journey) : Journey * bool :=
  let a := d.(da_tr).(tr_attempt) in
  let j := emit [FDied (j_fw j).(fs_provider) "fast_fail" ""] j in
  match tx with
  | WSTransport => (answer_logged a [FAnswer 502 "provider_disconnected"] (logAttempt 502 a j), true)
  | _ => (j, false)
  end.

Definition skipRetryBudgetCheck (tx : transport) (d : dispatchedAttempt) : bool :=
  bool_decide (tx = WSTransport) && bool_decide (d.(da_nativeResult) = Some wsForwardQueueFull).

Definition writeStreamForwardError (result : option wsForwardResult) : list forward_event :=
  match result with
  | Some wsForwardTimedOut => [FAnswer 504 "provider_timeout"]
  | Some wsForwardUnavailable => [FAnswer 503 "no_provider_available"]
  | Some wsForwardProviderDisconnected => [FAnswer 502 "provider_disconnected"]
  | Some wsForwardCancelled | Some wsForwardProviderDisconnectedCommitted => []
  | _ => [FAnswer 502 "provider_error"]
  end.

Definition retryRequested : bool := (0 <? rc.(rc_maxRetries)) && (0 <? RetryHeaderLimit (Get h "X-MacProvider-Retry")).

Definition renderRetryExhausted (tx : transport) (d : dispatchedAttempt) (j : Journey) : Journey :=
  let a := d.(da_tr).(tr_attempt) in
  match tx with
  | StreamTransport => answer_logged a (writeStreamForwardError d.(da_nativeResult)) (logAttempt d.(da_tr).(tr_status) a j)
  | WSTransport => answer_logged a [FAnswer 504 "provider_timeout"] (logAttempt 504 a j)
  | HTTPTransport =>
      let timeout := retryRequested && (d.(da_tr).(tr_status) =? 504) in
      let stored := u.(u_stored) (pred j.(j_attempts)) in
      emit [FRow (j_fw j).(fs_provider) (if timeout then 504 else 502) (j_fw j).(fs_explicitRetries) stored;
            if negb stored then FAnswer 500 "request_log_failed"
            else if timeout then FAnswer 504 "provider_timeout" else FAnswer 502 "provider_error"] j
  end.

Definition logRetryAttempt (tx : transport) (d : dispatchedAttempt) (j : Journey) : Journey :=
  let a := d.(da_tr).(tr_attempt) in
  match tx with
  | StreamTransport => logAttempt d.(da_tr).(tr_status) a j
  | WSTransport => logAttempt (if bool_decide (d.(da_nativeResult) = Some wsForwardQueueFull) then 502 else 504) a j
  | HTTPTransport =>
      emit [FRow (j_fw j).(fs_provider) d.(da_tr).(tr_status) (j_fw j).(fs_explicitRetries) (u.(u_stored) (pred j.(j_attempts)))] j
  end.

(** *** Moving on *)

Definition shouldRetry (j : Journey) (status : Z) (err : option string) : bool :=
  ShouldRetry (mkRetryInput rc.(rc_maxRetries) (RetryHeaderLimit (Get h "X-MacProvider-Retry")) (pinned_route h)
    (u.(u_context) (pred j.(j_attempts))) (j_fw j).(fs_explicitRetries) (j_fw j).(fs_faultedProviders) rc.(rc_maxFaultedPerRequest)
    (u.(u_now) (pred j.(j_attempts))) startedAt rc.(rc_requestTimeout) rc.(rc_retryPerAttemptTimeout) status err).

(** The selection number [j_selections], with the fuel of its wait. *)
Definition select (j : Journey) : option (Journey * (Provider + routeError)) :=
  let k := j.(j_selections) in
  '(st, result) ← selectProviderExcluding s (u.(u_env) k) (u.(u_waiting) k) fuelSelect (u.(u_today) k) (u.(u_routeID) k) req j.(j_select)
                    (u.(u_snapshot) k) h j.(j_excluded) (j_fw j).(fs_dailyKey);
  Some (j <| j_select := st |> <| j_selections := S k |>, result).

Definition release (j : Journey) : Journey := j <| j_select := releaseQueuedSlotReservation j.(j_select) |>.

Definition failover (j : Journey) : option (Journey * option Provider) :=
  let k := j.(j_selections) in
  '(st, excluded, next) ← failoverCandidate s (u.(u_env) k) (u.(u_waiting) k) fuelSelect (u.(u_today) k) (u.(u_routeID) k) req j.(j_select)
                            (u.(u_snapshot) k) h (j_fw j).(fs_provider) j.(j_excluded) (j_fw j).(fs_dailyKey);
  Some (j <| j_select := st |> <| j_excluded := excluded |> <| j_selections := S k |>, next).

(** The next provider, or the answer when there is none. *)
Definition advanceToNextProvider (j : Journey) : option (Journey * bool) :=
  '(j, result) ← select (release j);
  Some (match result with
    | inr err => (emit [FRouteRow err.(re_status) err.(re_message) (j_fw j).(fs_explicitRetries); FAnswer err.(re_status) err.(re_code)] j, false)
    | inl p =>
        (set_fw j ((j_fw j) <| fs_explicitRetries := Int64.add (j_fw j).(fs_explicitRetries) 1 |>
           <| fs_faultedProviders := Int64.add (j_fw j).(fs_faultedProviders) 1 |> <| fs_provider := p |>), true)
    end).

(** The fault of an attempt: its session is excluded, and marked busy when its queue was full. *)
Definition mark_fault (d : dispatchedAttempt) (j : Journey) : Journey :=
  let p := (j_fw j).(fs_provider) in
  let j := exclude (SortKey p) j in
  let j := set_fw j ((j_fw j) <| fs_faultedRoutes := {[SortKey p]} ∪ (j_fw j).(fs_faultedRoutes) |>) in
  if d.(da_tr).(tr_markBusy) then emit [FMark p StateBusy] j else j.

(** What follows an attempt: the request is answered, or another attempt is made, by the
    loop ([Again], with the failover flag) or by the HTTP loop after it ([OverHTTP]). *)
Inductive turn := Answered | Again (failoverAttempted : bool) | OverHTTP.

Definition leaves_tunnel (tx : transport) (j : Journey) : bool :=
  bool_decide (tx = WSTransport) && negb (IsWSTunneled (j_fw j).(fs_provider)).

(** The retry gate and the advance. *)
Definition retry_turn (tx : transport) (failoverAttempted : bool) (d : dispatchedAttempt) (j : Journey) : option (Journey * turn) :=
  if negb (skipRetryBudgetCheck tx d) && negb (shouldRetry j d.(da_tr).(tr_status) d.(da_tr).(tr_err)) then
    Some (renderRetryExhausted tx d j, Answered)
  else
  '(j, advanced) ← advanceToNextProvider (logRetryAttempt tx d j);
  if negb advanced then Some (j, Answered)
  else
  let j := exclude (SortKey (j_fw j).(fs_provider)) j in
  Some (j, if leaves_tunnel tx j then OverHTTP else Again failoverAttempted).

(** The failover, when the attempt is eligible and none has been made. *)
Definition failover_turn (tx : transport) (failoverAttempted : bool) (d : dispatchedAttempt) (j : Journey) : option (Journey * turn) :=
  let miss j := let '(j, handled) := onFailoverMiss tx d j in if handled then Some (j, Answered) else retry_turn tx failoverAttempted d j in
  if negb failoverAttempted && negb (pinned_route h) then
    '(j', next) ← failover (release j);
    match next with
    | Some next =>
        let slot := (j_fw j').(fs_queuedSlotProviderID) in
        let j := set_fw j' ((j_fw j') <| fs_queuedSlotProviderID := "" |>) in
        let j := onFailoverHit tx d next j in
        let j := set_fw j ((j_fw j) <| fs_queuedSlotProviderID := slot |> <| fs_provider := next |>) in
        Some (j, if leaves_tunnel tx j then OverHTTP else Again true)
    | None => miss (release j')
    end
  else miss j.

(** One round of the loop. *)
Definition forward_round (tx : transport) (failoverAttempted : bool) (j : Journey) : option (Journey * turn) :=
  let '(j, dispatched) := dispatch tx j in
  match dispatched with
  | None => Some (j, Answered)
  | Some d =>
      if d.(da_tr).(tr_committed) && bool_decide (tx = StreamTransport) then Some (renderCommitted d j, Answered)
      else if bool_decide (tx = WSTransport) && ws_terminal d then Some (handleNonRetryableTerminal d j, Answered)
      else if d.(da_success) then Some (renderSuccess tx d j, Answered)
      else
      let j := mark_fault d j in
      if d.(da_tr).(tr_failoverEligible) && negb (bool_decide (tx = HTTPTransport)) then failover_turn tx failoverAttempted d j
      else retry_turn tx failoverAttempted d j
  end.

(** The loop; the result says whether the HTTP loop takes over. *)
Fixpoint forwardWithFailover (fuel : nat) (tx : transport) (failoverAttempted : bool) (j : Journey) : option (Journey * bool) :=
  match fuel with
  | O => None
  | S fuel =>
      '(j, next) ← forward_round tx failoverAttempted j;
      match next with
      | Answered => Some (j, false)
      | OverHTTP => Some (j, true)
      | Again failoverAttempted => forwardWithFailover fuel tx failoverAttempted j
      end
  end.

(** *** The routing tail of [handleChatCompletions] *)

Definition forward_sequences (fuel : nat) (j : Journey) : option Journey :=
  if req.(cr_Stream) then '(j, _) ← forwardWithFailover fuel StreamTransport false j; Some j
  else
  '(j, http) ← (if IsWSTunneled (j_fw j).(fs_provider) then forwardWithFailover fuel WSTransport false j else Some (j, true));
  if negb http then Some j
  else
  let j := j <| j_excluded := {[SortKey (j_fw j).(fs_provider)]} ∪ (j_fw j).(fs_faultedRoutes) |> in
  '(j, _) ← forwardWithFailover fuel HTTPTransport false j; Some j.

Definition route_and_forward (fuel : nat) (st : SelectState) : option Journey :=
  '(j, result) ← select (mkJourney st ∅ [] 0 0);
  match result with
  | inr err => Some (emit [FRouteRow err.(re_status) err.(re_message) 0; FAnswer err.(re_status) err.(re_code)] j)
  | inl p => j ← forward_sequences fuel (set_provider p j); Some (release j)
  end.
End Handler.

(** ** Attempts *)

(** The sessions the attempts went to. *)
Definition dispatched (evs : list forward_event) : list string :=
  omap (fun ev => match ev with FDispatch _ p => Some (SortKey p) | _ => None end) evs.
Definition quiet (evs : list forward_event) : Prop := dispatched evs = [].

(** [j'] follows [j] without another attempt: some events later, nothing forgotten. *)
Record follows (j j' : Journey) : Prop := mkFollows {
  fo_attempts : j'.(j_attempts) = j.(j_attempts);
  fo_dispatched : dispatched j'.(j_events) = dispatched j.(j_events);
  fo_excluded : j.(j_excluded) ⊆ j'.(j_excluded);
  fo_faulted : (j_fw j).(fs_faultedRoutes) ⊆ (j_fw j').(fs_faultedRoutes);
}.
(** ... and the same route and budget. *)
Record stays (j j' : Journey) : Prop := mkStays {
  sy_follows : follows j j';
  sy_provider : (j_fw j').(fs_provider) = (j_fw j).(fs_provider);
  sy_retries : (j_fw j').(fs_explicitRetries) = (j_fw j).(fs_explicitRetries);
}.

#[global] Instance follows_preorder : PreOrder follows.
Proof.
  split; [intros j; by split|]. intros j1 j2 j3 [A1 A2 A3 A4] [B1 B2 B3 B4].
  split; [congruence|congruence|by etransitivity|by etransitivity].
Qed.
#[global] Instance stays_preorder : PreOrder stays.
Proof.
  split; [intros j; by split|]. intros j1 j2 j3 [A1 A2 A3] [B1 B2 B3]. split; [by etransitivity|congruence..].
Qed.

Lemma dispatched_app a b : dispatched (a ++ b) = dispatched a ++ dispatched b.
Proof. apply omap_app. Qed.

Lemma emit_stays evs j : quiet evs -> stays j (emit evs j).
Proof.
  intros Hq. split; [|done..]. split; try done. unfold emit. simpl. rewrite dispatched_app, Hq. apply app_nil_r.
Qed.
Create HintDb journey.
#[export] Hint Resolve emit_stays : journey.
#[export] Hint Extern 1 (quiet _) => reflexivity : journey.
#[export] Hint Extern 1 (stays ?j ?j) => reflexivity : journey.

(** An attempt over a tunnel that finds the queue of its provider full. *)
Definition full_at (u : Surround) (tx : transport) (n : nat) : bool :=
  bool_decide (tx = WSTransport) && match u.(u_ws) n with Some (wsForwardQueueFull, _) => true | _ => false end.

Section Attempts.
Context (s : Server) (rc : RetryConfig) (u : Surround) (fuelSelect : nat) (h : Header) (req : chatRequest) (startedAt : Z).

Lemma logAttempt_stays status a j : stays j (logAttempt u status a j).
Proof. unfold logAttempt. case_match; auto with journey. Qed.

Lemma answer_stays a evs j : quiet evs -> stays j (answer_logged u a evs j).
Proof. intros H. unfold answer_logged. case_match; auto with journey. Qed.

Lemma release_stays j : stays j (release j).
Proof. unfold release, releaseQueuedSlotReservation. repeat case_match; by split. Qed.

Lemma retry_row_stays tx d j : stays j (logRetryAttempt u tx d j).
Proof. unfold logRetryAttempt. case_match; auto using logAttempt_stays with journey. Qed.

Lemma exhausted_stays tx d j : stays j (renderRetryExhausted rc u h tx d j).
Proof.
  unfold renderRetryExhausted. case_match.
  - etransitivity; [apply logAttempt_stays|]. apply answer_stays. unfold writeStreamForwardError. by repeat case_match.
  - etransitivity; [apply logAttempt_stays|]. by apply answer_stays.
  - apply emit_stays. by repeat case_match.
Qed.

Lemma committed_stays d j : stays j (renderCommitted u d j).
Proof.
  unfold renderCommitted. destruct (tr_cancelled _); [case_match; [apply logAttempt_stays|done]|].
  destruct (_ && _); [|apply logAttempt_stays]. etransitivity; [apply logAttempt_stays|]. auto with journey.
Qed.

Lemma terminal_stays d j : stays j (handleNonRetryableTerminal u d j).
Proof. unfold handleNonRetryableTerminal. case_match; [apply logAttempt_stays|done]. Qed.

Lemma remember_stays now j : stays j (remember s u h req now j).
Proof. unfold remember. etransitivity; [|by apply emit_stays]. by split. Qed.

Lemma success_stays tx d j : stays j (renderSuccess s u h req tx d j).
Proof.
  unfold renderSuccess. destruct tx; [..|done]; (destruct (_ && _); [etransitivity; [apply logAttempt_stays|apply remember_stays]|apply logAttempt_stays]).
Qed.

Lemma hit_stays tx d next j : stays j (onFailoverHit u tx d next j).
Proof.
  unfold onFailoverHit. destruct tx; [auto with journey| |auto with journey].
  etransitivity; [|apply logAttempt_stays]. auto with journey.
Qed.

Lemma miss_stays tx d j : stays j (onFailoverMiss u tx d j).1.
Proof.
  unfold onFailoverMiss. destruct tx; cbn [fst]; [auto with journey| |auto with journey].
  etransitivity; [|by apply answer_stays]. etransitivity; [|apply logAttempt_stays]. auto with journey.
Qed.

Lemma fault_spec d j :
  let j' := mark_fault d j in
  let key := SortKey (j_fw j).(fs_provider) in
  stays j j' /\ key ∈ j'.(j_excluded) /\ key ∈ (j_fw j').(fs_faultedRoutes).
Proof.
  cbv zeta. unfold mark_fault. set (j1 := set_fw (exclude _ j) _).
  assert (stays j j1) as H1.
  { split; [|done..]. split; try done; unfold j1; simpl; set_solver. }
  assert (SortKey (fs_provider (j_fw j)) ∈ j_excluded j1) as H2 by (unfold j1; simpl; set_solver).
  assert (SortKey (fs_provider (j_fw j)) ∈ fs_faultedRoutes (j_fw j1)) as H3 by (unfold j1; simpl; set_solver).
  destruct (tr_markBusy _); [|done]. split_and!; [|done..]. etransitivity; [exact H1|]. auto with journey.
Qed.

(** One attempt more, at the provider of the request. *)
Lemma dispatch_spec tx j :
  let j' := (dispatch u tx j).1 in
  j'.(j_attempts) = S j.(j_attempts) /\ dispatched j'.(j_events) = dispatched j.(j_events) ++ [SortKey (j_fw j).(fs_provider)]
  /\ j'.(j_excluded) = j.(j_excluded) /\ j'.(j_select) = j.(j_select).
Proof.
  cbv zeta. unfold dispatch. set (p := fs_provider (j_fw j)). set (j1 := emit [FDispatch tx p] j <| j_attempts := S (j_attempts j) |>).
  assert (dispatched (j_events j1) = dispatched (j_events j) ++ [SortKey p]) as H1 by (unfold j1; simpl; by rewrite dispatched_app).
  destruct tx; [repeat case_match; done|repeat case_match; done|].
  destruct (u_http u (j_attempts j)) as [[[resp err] a]|]; [|done]. cbn [fst]. destruct resp as [status|]; [|done].
  destruct (emit_stays (handleProviderFailure p status) j1) as [[E1 E2 _ _] _ _].
  { unfold handleProviderFailure. by repeat case_match. }
  split_and!; [by rewrite E1|by rewrite E2, H1|done..].
Qed.

Lemma dispatch_queue_full tx j j' d : dispatch u tx j = (j', Some d) -> skipRetryBudgetCheck tx d = true ->
  full_at u tx j.(j_attempts) = true.
Proof.
  unfold dispatch, skipRetryBudgetCheck, full_at. destruct tx; [done| |done]. destruct (u_ws u (j_attempts j)) as [[result a]|]; [|done].
  intros [= _ <-]. simpl. intros H%bool_decide_eq_true_1. by injection H as ->.
Qed.

Lemma dispatch_http_no_failover j j' d : dispatch u HTTPTransport j = (j', Some d) -> d.(da_tr).(tr_failoverEligible) = false.
Proof.
  unfold dispatch. destruct (u_http u (j_attempts j)) as [[[resp err] a]|]; [|done]. intros [= _ <-]. simpl. unfold classifyHTTPResult. by case_match.
Qed.
End Attempts.

(** *** Selections *)

Lemma get_del_empty h name name' : Get h name = "" -> Get (Del h name') name = "".
Proof.
  unfold Get, Del, Header in *. intros H. destruct (decide (CanonicalHeaderKey name' = CanonicalHeaderKey name)) as [->|Hn].
  - by rewrite lookup_delete_eq.
  - by rewrite lookup_delete_ne.
Qed.

Lemma pinned_del h name : pinned_route h = false -> pinned_route (Del h name) = false.
Proof.
  unfold pinned_route, hasPinnedRoute. simpl. intros H. apply orb_false_iff in H as [H1%negb_false_iff%String.eqb_eq H2%negb_false_iff%String.eqb_eq].
  by rewrite !get_del_empty.
Qed.

Lemma selected_routable s e w fuel today requestID req st st' providers h excluded dailyKey p :
  selectProviderExcluding s e w fuel today requestID req st providers h excluded dailyKey = Some (st', inl p) -> routable s e h = true.
Proof.
  unfold selectProviderExcluding, routable. by destruct (hasInternalRoutingHeader h), (internalBearerAuthorized _ _ _).
Qed.

(** No provider reconnects while the request waits for a slot in selection [k]: a session
    the wait sees under a name is the session the selection saw. *)
Definition steady (u : Surround) (k : nat) : Prop :=
  forall t p p', p ∈ w_snapshot (u.(u_waiting) k) t -> p' ∈ u.(u_snapshot) k -> p_ProviderID p = p_ProviderID p' -> SortKey p = SortKey p'.

Lemma unpinned_not_excluded s u k fuel today requestID req st st' h excluded dailyKey p :
  pinned_route h = false -> steady u k ->
  selectProviderExcluding s (u.(u_env) k) (u.(u_waiting) k) fuel today requestID req st (u.(u_snapshot) k) h excluded dailyKey = Some (st', inl p) ->
  ~ (SortKey p ∈ excluded).
Proof.
  intros Hp Hk H. pose proof (selected_routable _ _ _ _ _ _ _ _ _ _ _ _ _ _ H) as Hr.
  apply unpinned_selected in H as [(_ & _ & H & _)|[(q0 & q' & ordered & _ & _ & Hperm & t & q & waiter & tried & Hs & _ & Hin & _) _]]; [done| |done..].
  cbv zeta in Hin. apply elem_of_map in Hin as (x & Hx & Hid). rewrite Hperm in Hx. rewrite (Hk t p x); [by apply queue_candidates_allowed in Hx|by destruct Hs| |done].
  by eapply (queue_candidates_known s (u_env u k) req).
Qed.

Section Rounds.
Context (s : Server) (rc : RetryConfig) (u : Surround) (fuelSelect : nat) (h : Header) (req : chatRequest) (startedAt : Z).

Lemma same_request_stays j st k : same_request j.(j_select).(ss_fw) st.(ss_fw) -> stays j (j <| j_select := st |> <| j_selections := k |>).
Proof.
  intros (H1 & _ & H3 & H4 & _). split; unfold j_fw; simpl; [|congruence|congruence].
  split; unfold j_fw; simpl; [done..|]. by rewrite H3.
Qed.

Lemma select_spec j j' result : select s u fuelSelect h req j = Some (j', result) ->
  stays j j' /\ forall p, result = inl p -> pinned_route h = false -> steady u j.(j_selections) -> ~ (SortKey p ∈ j.(j_excluded)).
Proof.
  unfold select. intros H. apply bind_Some in H as ([st r] & H & [= <- <-]). split.
  - apply same_request_stays. by eapply select_same_request.
  - intros p -> Hp Hk. by eapply unpinned_not_excluded in H.
Qed.

Lemma failover_spec j j' next : failover s u fuelSelect h req j = Some (j', next) ->
  stays j j' /\ forall p, next = Some p -> pinned_route h = false -> steady u j.(j_selections) -> ~ (SortKey p ∈ j.(j_excluded)).
Proof.
  unfold failover, failoverCandidate. intros H. apply bind_Some in H as ([[st ex] n] & H & [= <- <-]). destruct (_ || _).
  { injection H as <- <- <-. split; [by split|done]. }
  apply bind_Some in H as ([st1 r] & H & [= <- <- <-]). split.
  - transitivity (j <| j_select := st1 |> <| j_selections := S (j_selections j) |>).
    { apply same_request_stays. by eapply select_same_request. }
    split; [|done..]. split; try done. simpl. set_solver.
  - intros p Hr Hp Hk. destruct r as [p'|]; [|done]. injection Hr as ->. eapply unpinned_not_excluded in H; [|by apply pinned_del, pinned_del|done]. set_solver.
Qed.

(** An advance: a retry more, at a session that is not excluded. *)
Lemma advance_spec j j' : advanceToNextProvider s u fuelSelect h req j = Some (j', true) ->
  follows j j' /\ (j_fw j').(fs_explicitRetries) = Int64.add (j_fw j).(fs_explicitRetries) 1
  /\ (pinned_route h = false -> steady u j.(j_selections) -> ~ (SortKey (j_fw j').(fs_provider) ∈ j.(j_excluded))).
Proof.
  unfold advanceToNextProvider. intros H. apply bind_Some in H as ([j1 r] & H & [= Hj]). apply select_spec in H as [Hs Hp].
  pose proof (release_stays j) as Hr. assert (stays j j1) as [[F1 F2 F3 F4] _ E2] by (by etransitivity).
  destruct r as [p|err]; [|done]. injection Hj as <-. split_and!.
  - by split.
  - exact (f_equal (fun n => Int64.add n 1) E2).
  - intros Hpin Hk. specialize (Hp p eq_refl Hpin Hk). done.
Qed.

Lemma advance_answers j j' b : advanceToNextProvider s u fuelSelect h req j = Some (j', b) -> follows j j'.
Proof.
  unfold advanceToNextProvider. intros H. apply bind_Some in H as ([j1 r] & H & [= Hj]). apply select_spec in H as [Hs _].
  pose proof (release_stays j) as Hr. assert (stays j j1) as [Hf _ _] by (by etransitivity). destruct r as [p|err]; injection Hj as <- _.
  - etransitivity; [exact Hf|]. by split.
  - etransitivity; [exact Hf|]. apply emit_stays. done.
Qed.
End Rounds.

(** ** Rounds *)

Section RoundSpec.
Context (s : Server) (rc : RetryConfig) (u : Surround) (fuelSelect : nat) (h : Header) (req : chatRequest) (startedAt : Z).

(** The retries the request may make. *)
Definition retry_cap : Z :=
  let requested := RetryHeaderLimit (Get h "X-MacProvider-Retry") in
  if (0 <? rc.(rc_maxRetries)) && (0 <? requested) && negb (pinned_route h) then Z.min rc.(rc_maxRetries) requested else 0.

Lemma retry_limit_max v : RetryHeaderLimit v <= Int64.max.
Proof.
  unfold RetryHeaderLimit. repeat case_match; try (i64; lia).
  match goal with H : GoStr.Atoi _ = Some _ |- _ => apply GoStr.Atoi_range in H end. i64. lia.
Qed.

Lemma retry_cap_range : 0 <= retry_cap <= Int64.max.
Proof.
  unfold retry_cap. pose proof (retry_limit_max (Get h "X-MacProvider-Retry")). destruct (_ && _) eqn:E; [|i64; lia].
  rewrite !andb_true_iff in E. lia.
Qed.

Lemma should_retry_cap j status err : shouldRetry rc u h startedAt j status err = true -> (j_fw j).(fs_explicitRetries) < retry_cap.
Proof.
  unfold shouldRetry, ShouldRetry, retry_cap. cbn. intros H.
  destruct (rc_maxRetries rc <=? 0) eqn:E1; [done|]. destruct (RetryHeaderLimit (Get h "X-MacProvider-Retry") <=? 0) eqn:E2; [done|].
  destruct (pinned_route h); [done|]. cbn in H. case_bool_decide; [done|]. destruct (_ <=? fs_explicitRetries (j_fw j)) eqn:E3; [done|].
  replace (0 <? rc_maxRetries rc) with true by lia. replace (0 <? RetryHeaderLimit _) with true by lia. cbn [andb negb].
  destruct (RetryHeaderLimit (Get h "X-MacProvider-Retry") <? rc_maxRetries rc) eqn:E4; lia.
Qed.

(** What a round leaves: an attempt more at the provider the request had. *)
Record attempted (j j' : Journey) : Prop := mkAttempted {
  ad_attempts : j'.(j_attempts) = S j.(j_attempts);
  ad_dispatched : dispatched j'.(j_events) = dispatched j.(j_events) ++ [SortKey (j_fw j).(fs_provider)];
}.
(** ... that is faulted, when another attempt follows, at a session not excluded. *)
Record moved (j j' : Journey) : Prop := mkMoved {
  mv_attempted : attempted j j';
  mv_excluded : {[SortKey (j_fw j).(fs_provider)]} ∪ j.(j_excluded) ⊆ j'.(j_excluded);
  mv_faulted : {[SortKey (j_fw j).(fs_provider)]} ∪ (j_fw j).(fs_faultedRoutes) ⊆ (j_fw j').(fs_faultedRoutes);
  mv_fresh : pinned_route h = false -> (forall k, steady u k) ->
    ~ (SortKey (j_fw j').(fs_provider) ∈ {[SortKey (j_fw j).(fs_provider)]} ∪ j.(j_excluded));
}.
(** ... for which a retry was spent, within the cap unless the queue was full, or the
    one failover. *)
Definition paid (tx : transport) (failoverAttempted failoverAttempted' : bool) (j j' : Journey) : Prop :=
  ((j_fw j').(fs_explicitRetries) = Int64.add (j_fw j).(fs_explicitRetries) 1 /\ failoverAttempted' = failoverAttempted
   /\ ((j_fw j).(fs_explicitRetries) < retry_cap \/ full_at u tx j.(j_attempts) = true))
  \/ ((j_fw j').(fs_explicitRetries) = (j_fw j).(fs_explicitRetries) /\ failoverAttempted = false /\ failoverAttempted' = true
      /\ tx <> HTTPTransport /\ pinned_route h = false).

(** The round after the fault: [j0] before the attempt, [j] after it. *)
Record faulted (j0 j : Journey) : Prop := mkFaulted {
  ft_attempted : attempted j0 j;
  ft_excluded : {[SortKey (j_fw j0).(fs_provider)]} ∪ j0.(j_excluded) ⊆ j.(j_excluded);
  ft_faulted : {[SortKey (j_fw j0).(fs_provider)]} ∪ (j_fw j0).(fs_faultedRoutes) ⊆ (j_fw j).(fs_faultedRoutes);
  ft_retries : (j_fw j).(fs_explicitRetries) = (j_fw j0).(fs_explicitRetries);
}.

Lemma attempted_follows j0 j j' : attempted j0 j -> follows j j' -> attempted j0 j'.
Proof. intros [A1 A2] [F1 F2 _ _]. split; congruence. Qed.

Lemma faulted_stays j0 j j' : faulted j0 j -> stays j j' -> faulted j0 j'.
Proof.
  intros [A1 A2 A3 A4] [F _ E]. pose proof F as [_ _ F3 F4]. split; [by eapply attempted_follows|by etransitivity|by etransitivity|congruence].
Qed.

Lemma faulted_moved j0 j j' : faulted j0 j -> follows j j' ->
  (pinned_route h = false -> (forall k, steady u k) -> ~ (SortKey (j_fw j').(fs_provider) ∈ j.(j_excluded))) -> moved j0 j'.
Proof.
  intros [A1 A2 A3 A4] F Hn. pose proof F as [_ _ F3 F4]. split; [by eapply attempted_follows|by etransitivity|by etransitivity|].
  intros Hp Hk Hin. apply (Hn Hp Hk). by apply A2.
Qed.

Definition round_spec (tx : transport) (failoverAttempted : bool) (j j' : Journey) (next : turn) : Prop :=
  match next with
  | Answered => attempted j j'
  | Again fa' => moved j j' /\ paid tx failoverAttempted fa' j j'
  | OverHTTP => tx = WSTransport /\ moved j j' /\ exists fa', paid tx failoverAttempted fa' j j'
  end.

Lemma leaves_spec tx fa fa' j j' :
  moved j j' -> paid tx fa fa' j j' -> round_spec tx fa j j' (if leaves_tunnel tx j' then OverHTTP else Again fa').
Proof.
  intros Hm Hp. unfold leaves_tunnel. destruct (bool_decide (tx = WSTransport)) eqn:E; cbn [andb]; [|done].
  apply bool_decide_eq_true_1 in E. destruct (negb _); [|done]. split_and!; [done..|]. by exists fa'.
Qed.

Lemma retry_turn_spec tx fa d j0 j j' next :
  faulted j0 j -> (skipRetryBudgetCheck tx d = true -> full_at u tx j0.(j_attempts) = true) ->
  retry_turn s rc u fuelSelect h req startedAt tx fa d j = Some (j', next) -> round_spec tx fa j0 j' next.
Proof.
  intros Hf Hq. unfold retry_turn. destruct (negb (skipRetryBudgetCheck tx d) && negb (shouldRetry _ _ _ _ _ _ _)) eqn:Eg.
  { intros [= <- <-]. destruct Hf as [A _ _ _]. eapply attempted_follows; [exact A|]. apply exhausted_stays. }
  intros H. apply bind_Some in H as ([j1 adv] & H & H').
  pose proof (retry_row_stays u tx d j) as Hr. pose proof (faulted_stays _ _ _ Hf Hr) as Hf1.
  destruct adv; cbn [negb] in H'.
  2:{ injection H' as <- <-. apply advance_answers in H. destruct Hf1 as [A _ _ _]. by eapply attempted_follows. }
  injection H' as <- <-. apply advance_spec in H as (F & E & Hn).
  set (j2 := exclude _ j1). assert (follows j1 j2) as F2 by (split; try done; unfold j2; simpl; set_solver).
  apply leaves_spec.
  - eapply faulted_moved; [exact Hf1|by etransitivity|]. intros Hp Hk. by apply Hn.
  - left. pose proof (ft_retries _ _ Hf1) as Er. split_and!; [|done|].
    + rewrite <- Er. exact E.
    + destruct (skipRetryBudgetCheck tx d) eqn:Es; [right; by apply Hq|left]. cbn [negb andb] in Eg. apply negb_false_iff in Eg.
      apply should_retry_cap in Eg. by rewrite (ft_retries _ _ Hf) in Eg.
Qed.

Lemma failover_turn_spec tx fa d j0 j j' next : tx <> HTTPTransport ->
  faulted j0 j -> (skipRetryBudgetCheck tx d = true -> full_at u tx j0.(j_attempts) = true) ->
  failover_turn s rc u fuelSelect h req startedAt tx fa d j = Some (j', next) -> round_spec tx fa j0 j' next.
Proof.
  intros Htx Hf Hq. unfold failover_turn.
  assert (forall j1, faulted j0 j1 -> (let '(j, handled) := onFailoverMiss u tx d j1 in
    if handled then Some (j, Answered) else retry_turn s rc u fuelSelect h req startedAt tx fa d j) = Some (j', next) ->
    round_spec tx fa j0 j' next) as Hmiss.
  { intros j1 Hf1. pose proof (miss_stays u tx d j1) as Hm. destruct (onFailoverMiss u tx d j1) as [j2 handled]. cbn [fst] in Hm.
    pose proof (faulted_stays _ _ _ Hf1 Hm) as Hf2. destruct handled; [|by apply retry_turn_spec].
    intros [= <- <-]. by destruct Hf2. }
  destruct (negb fa && negb (pinned_route h)) eqn:Eg; [|by apply Hmiss].
  apply andb_true_iff in Eg as [Efa%negb_true_iff Epin%negb_true_iff].
  intros H. apply bind_Some in H as ([j1 hit] & H & H'). apply failover_spec in H as [Hs Hn].
  pose proof (release_stays j) as Hr. assert (stays j j1) as Hj1 by (by etransitivity). pose proof (faulted_stays _ _ _ Hf Hj1) as Hf1.
  destruct hit as [nextp|]; [|apply Hmiss in H'; [done|]; eapply faulted_stays; [exact Hf1|apply release_stays]].
  set (j2 := set_fw j1 _) in H'. assert (stays j1 j2) as Hj2 by (by split). pose proof (hit_stays u tx d nextp j2) as Hj3.
  set (j3 := onFailoverHit u tx d nextp j2) in *. assert (stays j j3) as Hj by (etransitivity; [exact Hj1|by etransitivity]).
  injection H' as <- <-. set (j4 := set_fw j3 _). assert (follows j3 j4) as F4 by (by split). apply leaves_spec.
  - eapply faulted_moved; [exact Hf|etransitivity; [apply Hj|exact F4]|]. intros Hp Hk. by apply Hn.
  - right. split_and!; try done. change (fs_explicitRetries (j_fw j3) = fs_explicitRetries (j_fw j0)). rewrite (sy_retries _ _ Hj). apply Hf.
Qed.

Lemma forward_round_spec tx fa j j' next :
  forward_round s rc u fuelSelect h req startedAt tx fa j = Some (j', next) -> round_spec tx fa j j' next.
Proof.
  unfold forward_round. pose proof (dispatch_spec u tx j) as Hd. cbv zeta in Hd.
  destruct (dispatch u tx j) as [j1 [d|]] eqn:Ed; cbn [fst] in Hd; destruct Hd as (D1 & D2 & D3 & D4).
  2:{ intros [= <- <-]. by split. }
  assert (attempted j j1) as Ha by (by split).
  destruct (_ && _). { intros [= <- <-]. eapply attempted_follows; [exact Ha|]. apply committed_stays. }
  destruct (_ && _). { intros [= <- <-]. eapply attempted_follows; [exact Ha|]. apply terminal_stays. }
  destruct (da_success d). { intros [= <- <-]. eapply attempted_follows; [exact Ha|]. apply success_stays. }
  destruct (fault_spec d j1) as (F1 & F2 & F3).
  assert (j_fw j1 = j_fw j) as E1 by (unfold j_fw; by rewrite D4). rewrite E1 in F2, F3.
  assert (faulted j (mark_fault d j1)) as Hf.
  { destruct F1 as [F _ Er]. split; [by eapply attempted_follows| | |by rewrite Er, E1].
    - destruct F as [_ _ F _]. rewrite D3 in F. set_solver.
    - destruct F as [_ _ _ F]. rewrite E1 in F. set_solver. }
  assert (skipRetryBudgetCheck tx d = true -> full_at u tx (j_attempts j) = true) as Hq.
  { by apply (dispatch_queue_full u tx j j1). }
  destruct (_ && _) eqn:Et; [|by apply retry_turn_spec]. apply andb_true_iff in Et as [_ Et%negb_true_iff%bool_decide_eq_false_1].
  by apply failover_turn_spec.
Qed.
End RoundSpec.

(** ** The loop *)

(** The full queues among the first [n] attempts. *)
Fixpoint queue_fulls (u : Surround) (n : nat) : Z :=
  match n with O => 0 | S n => queue_fulls u n + (if full_at u WSTransport n then 1 else 0) end.

Lemma queue_fulls_nonneg u n : 0 <= queue_fulls u n.
Proof. induction n; simpl; [done|]. case_match; lia. Qed.

Lemma full_queue u tx n : full_at u tx n = true -> queue_fulls u (S n) = queue_fulls u n + 1.
Proof.
  intros H. simpl. assert (full_at u WSTransport n = true) as ->; [|done]. unfold full_at in *. by apply andb_true_iff in H as [_ ->].
Qed.

(** ** Answers *)

Definition calls (evs : list forward_event) : list (transport * Provider) :=
  omap (fun ev => match ev with FDispatch tx p => Some (tx, p) | _ => None end) evs.
Definition answers (evs : list forward_event) : list (Z * string) :=
  omap (fun ev => match ev with FAnswer status code => Some (status, code) | _ => None end) evs.

(** What the transport of attempt [n] reports leaves nothing to answer: the dispatch
    rendered an error itself, the response has been written or begun, or the buyer is
    gone; over a tunnel, without a stream, a failure is rendered by the transport too. *)
Definition concludes (u : Surround) (tx : transport) (p : Provider) (n : nat) : bool :=
  let stream := match (if IsWSTunneled p then fst <$> u.(u_ws) n else (fun x => x.1.1) <$> u.(u_stream) n) with
    | None | Some (wsForwardComplete | wsForwardProviderDisconnectedCommitted | wsForwardCancelled) => true
    | _ => false
    end in
  match tx with
  | StreamTransport => stream
  | WSTransport =>
      match u.(u_ws) n with
      | None | Some ((wsForwardComplete | wsForwardFailed | wsForwardUnavailable | wsForwardCancelled), _) => true
      | _ => false
      end
  | HTTPTransport => match u.(u_http) n with None => true | Some _ => false end
  end.

(** The request has one answer. No attempt but the last was concluded by its transport;
    if the last one was, the handler answered nothing, and otherwise the handler gave one
    answer, as the last thing it did. *)
Definition answered_once (u : Surround) (j : Journey) : Prop :=
  length (calls j.(j_events)) = j.(j_attempts)
  /\ (forall n tx p, calls j.(j_events) !! n = Some (tx, p) -> (S n < j.(j_attempts))%nat -> concludes u tx p n = false)
  /\ if (match last (calls j.(j_events)) with Some (tx, p) => concludes u tx p (pred j.(j_attempts)) | None => false end)
     then answers j.(j_events) = []
     else exists status code, last j.(j_events) = Some (FAnswer status code) /\ answers j.(j_events) = [(status, code)].

(** The attempts of a list, the first being number [n], that find a full queue. *)
Fixpoint full_from (u : Surround) (n : nat) (l : list (transport * Provider)) : Z :=
  match l with [] => 0 | x :: l => (if full_at u x.1 n then 1 else 0) + full_from u (S n) l end.

Lemma full_snoc u l x : forall n, full_from u n (l ++ [x]) = full_from u n l + (if full_at u x.1 (n + length l) then 1 else 0).
Proof.
  induction l as [|y l IH]; intros n; simpl; [rewrite Nat.add_0_r; lia|]. rewrite IH. replace (S n + length l)%nat with (n + S (length l))%nat by lia. lia.
Qed.
Lemma full_from_fulls u l : full_from u 0 l <= queue_fulls u (length l).
Proof.
  induction l as [|x l IH] using rev_ind; [done|]. rewrite full_snoc, length_app, Nat.add_1_r. cbn [queue_fulls Nat.add].
  unfold full_at at 1. destruct (bool_decide (x.1 = WSTransport)); cbn [andb]; [change (match u_ws u (length l) with
    | Some (wsForwardQueueFull, _) => true | _ => false end) with (full_at u WSTransport (length l)); lia|]. case_match; lia.
Qed.

Lemma full_from_nonneg u l : forall n, 0 <= full_from u n l.
Proof. induction l as [|x l IH]; intros n; simpl; [done|]. specialize (IH (S n)). case_match; lia. Qed.

Definition plain (ev : forward_event) : bool := match ev with FDispatch _ _ | FAnswer _ _ => false | _ => true end.

(** [j'] follows [j] by events that are neither attempts nor answers, and then [final]. *)
Definition says (j j' : Journey) (final : list forward_event) : Prop :=
  j'.(j_attempts) = j.(j_attempts) /\ exists evs, j'.(j_events) = j.(j_events) ++ evs ++ final /\ forallb plain evs = true.
Definition silent (j j' : Journey) : Prop := says j j' [].
Definition answering (j j' : Journey) : Prop := exists status code, says j j' [FAnswer status code].

Lemma silent_says j1 j2 j3 final : silent j1 j2 -> says j2 j3 final -> says j1 j3 final.
Proof.
  intros (A1 & e1 & E1 & P1) (A2 & e2 & E2 & P2). split; [congruence|]. exists (e1 ++ e2).
  rewrite E2, E1, app_nil_r, <- !app_assoc, forallb_app, P1, P2. done.
Qed.
Lemma silent_answering j1 j2 j3 : silent j1 j2 -> answering j2 j3 -> answering j1 j3.
Proof. intros H (status & code & H'). exists status, code. by eapply silent_says. Qed.
#[global] Instance silent_preorder : PreOrder silent.
Proof.
  split; [|intros j1 j2 j3; apply silent_says]. intros j. split; [done|]. exists []. by rewrite app_nil_r.
Qed.
Lemma emit_silent evs j : forallb plain evs = true -> silent j (emit evs j).
Proof. intros H. split; [done|]. exists evs. by rewrite app_nil_r. Qed.
Lemma emit_answering evs status code j : forallb plain evs = true -> answering j (emit (evs ++ [FAnswer status code]) j).
Proof. intros H. exists status, code. split; [done|]. by exists evs. Qed.

Lemma calls_app a b : calls (a ++ b) = calls a ++ calls b.
Proof. apply omap_app. Qed.
Lemma answers_app a b : answers (a ++ b) = answers a ++ answers b.
Proof. apply omap_app. Qed.
Lemma calls_plain evs : forallb plain evs = true -> calls evs = [].
Proof. induction evs as [|[] evs IH]; simpl; auto; done. Qed.
Lemma answers_plain evs : forallb plain evs = true -> answers evs = [].
Proof. induction evs as [|[] evs IH]; simpl; auto; done. Qed.

Section Answers.
Context (s : Server) (rc : RetryConfig) (u : Surround) (fuelSelect : nat) (h : Header) (req : chatRequest) (startedAt : Z).

Lemma logAttempt_silent status a j : silent j (logAttempt u status a j).
Proof. unfold logAttempt. case_match; [done|]. by apply emit_silent. Qed.
Lemma answer_logged_answers a status code j : answering j (answer_logged u a [FAnswer status code] j).
Proof. unfold answer_logged. case_match; by apply (emit_answering []). Qed.
Lemma release_silent j : silent j (release j).
Proof. split; [done|]. exists []. by rewrite !app_nil_r. Qed.
Lemma retry_row_silent tx d j : silent j (logRetryAttempt u tx d j).
Proof. unfold logRetryAttempt. case_match; [apply logAttempt_silent..|]. by apply emit_silent. Qed.
Lemma committed_silent d j : silent j (renderCommitted u d j).
Proof.
  unfold renderCommitted. destruct (tr_cancelled _); [case_match; [apply logAttempt_silent|done]|].
  destruct (_ && _); [|apply logAttempt_silent]. etransitivity; [apply logAttempt_silent|]. by apply emit_silent.
Qed.
Lemma terminal_silent d j : silent j (handleNonRetryableTerminal u d j).
Proof. unfold handleNonRetryableTerminal. case_match; [apply logAttempt_silent|done]. Qed.
Lemma remember_silent now j : silent j (remember s u h req now j).
Proof. split; [done|]. exists [FSticky (fs_provider (j_fw j))]. done. Qed.
Lemma success_silent tx d j : silent j (renderSuccess s u h req tx d j).
Proof.
  unfold renderSuccess. destruct tx; [..|done]; (destruct (_ && _); [etransitivity; [apply logAttempt_silent|apply remember_silent]|apply logAttempt_silent]).
Qed.
Lemma hit_silent tx d next j : silent j (onFailoverHit u tx d next j).
Proof. unfold onFailoverHit. destruct tx; try (by apply emit_silent). etransitivity; [|apply logAttempt_silent]. by apply emit_silent. Qed.
Lemma miss_answers tx d j j' b : onFailoverMiss u tx d j = (j', b) -> if b then answering j j' else silent j j'.
Proof.
  unfold onFailoverMiss. destruct tx; intros [= <- <-]; [by apply emit_silent| |by apply emit_silent].
  eapply silent_answering; [|apply answer_logged_answers]. etransitivity; [|apply logAttempt_silent]. by apply emit_silent.
Qed.
Lemma fault_silent d j : silent j (mark_fault d j).
Proof. unfold mark_fault. case_match; (split; [done|]); [eexists [_]|exists []]; simpl; by rewrite ?app_nil_r. Qed.
Lemma select_silent j j' r : select s u fuelSelect h req j = Some (j', r) -> silent j j'.
Proof. unfold select. intros H. apply bind_Some in H as ([st r'] & _ & [= <- <-]). split; [done|]. exists []. by rewrite !app_nil_r. Qed.
Lemma failover_silent j j' r : failover s u fuelSelect h req j = Some (j', r) -> silent j j'.
Proof. unfold failover. intros H. apply bind_Some in H as ([[st ex] n] & _ & [= <- <-]). split; [done|]. exists []. by rewrite !app_nil_r. Qed.
Lemma advance_says j j' b : advanceToNextProvider s u fuelSelect h req j = Some (j', b) -> if b then silent j j' else answering j j'.
Proof.
  unfold advanceToNextProvider. intros H. apply bind_Some in H as ([j1 r] & H & [= Hj]). apply select_silent in H.
  assert (silent j j1) as H1 by (etransitivity; [apply release_silent|done]). destruct r as [p|err]; injection Hj as <- <-.
  - etransitivity; [exact H1|]. split; [done|]. exists []. by rewrite !app_nil_r.
  - eapply silent_answering; [exact H1|]. by apply (emit_answering [_]).
Qed.

(** What a dispatch reports when the transport leaves the answer to the handler. *)
Lemma dispatch_answers tx j j1 d : dispatch u tx j = (j1, d) ->
  j1.(j_attempts) = S j.(j_attempts)
  /\ (exists evs, j1.(j_events) = j.(j_events) ++ FDispatch tx (j_fw j).(fs_provider) :: evs /\ forallb plain evs = true)
  /\ match d with
     | None => concludes u tx (j_fw j).(fs_provider) j.(j_attempts) = true
     | Some d =>
         concludes u tx (j_fw j).(fs_provider) j.(j_attempts)
         = (d.(da_tr).(tr_committed) && bool_decide (tx = StreamTransport)) || (bool_decide (tx = WSTransport) && ws_terminal d) || d.(da_success)
         /\ (concludes u tx (j_fw j).(fs_provider) j.(j_attempts) = false -> tx = StreamTransport ->
             exists status code, writeStreamForwardError d.(da_nativeResult) = [FAnswer status code])
     end.
Proof.
  unfold dispatch. set (p := fs_provider (j_fw j)). set (j2 := emit [FDispatch tx p] j <| j_attempts := S (j_attempts j) |>).
  assert (j_attempts j2 = S (j_attempts j) /\ exists evs, j_events j2 = j_events j ++ FDispatch tx p :: evs /\ forallb plain evs = true) as [D1 D2].
  { split; [done|]. by exists []. }
  destruct tx; cbn [concludes].
  - destruct (IsWSTunneled p).
    + destruct (u_ws u (j_attempts j)) as [[r a]|]; intros [= <- <-]; (split; [done|split; [done|]]); [|done].
      destruct r; cbn; (split; [done|]); intros Hf _; try discriminate Hf; eauto.
    + destruct (u_stream u (j_attempts j)) as [[[r st] a]|]; intros [= <- <-]; (split; [done|split; [done|]]); [|done].
      destruct r; cbn; (split; [done|]); intros Hf _; try discriminate Hf; eauto.
  - destruct (u_ws u (j_attempts j)) as [[r a]|]; intros [= <- <-]; (split; [done|split; [done|]]); [|done]. destruct r; cbn; by split.
  - destruct (u_http u (j_attempts j)) as [[[resp err] a]|]; intros [= <- <-]; [|split; [done|by split]]. destruct resp as [status|].
    + split_and!; [done| |simpl; by rewrite andb_false_r|done]. destruct D2 as (evs & D2 & Hp).
      exists (evs ++ handleProviderFailure p status). simpl. simpl in D2. rewrite D2, <- app_assoc, forallb_app, Hp. split; [done|].
      unfold handleProviderFailure. by repeat case_match.
    + split_and!; [done..|simpl; by rewrite andb_false_r|done].
Qed.

Lemma exhausted_answers tx d j :
  (tx = StreamTransport -> exists status code, writeStreamForwardError d.(da_nativeResult) = [FAnswer status code]) ->
  answering j (renderRetryExhausted rc u h tx d j).
Proof.
  intros Hs. unfold renderRetryExhausted. destruct tx.
  - destruct (Hs eq_refl) as (status & code & ->). eapply silent_answering; [apply logAttempt_silent|apply answer_logged_answers].
  - eapply silent_answering; [apply logAttempt_silent|apply answer_logged_answers].
  - repeat case_match; by apply (emit_answering [_]).
Qed.

Lemma retry_turn_answers tx fa d j j' next :
  (tx = StreamTransport -> exists status code, writeStreamForwardError d.(da_nativeResult) = [FAnswer status code]) ->
  retry_turn s rc u fuelSelect h req startedAt tx fa d j = Some (j', next) ->
  match next with Answered => answering j j' | _ => silent j j' end.
Proof.
  intros Hs. unfold retry_turn. destruct (_ && _). { intros [= <- <-]. by apply exhausted_answers. }
  intros H. apply bind_Some in H as ([j1 adv] & H & H'). apply advance_says in H. pose proof (retry_row_silent tx d j) as Hr.
  destruct adv; cbn [negb] in H'; injection H' as <- <-; [|by eapply silent_answering].
  assert (silent j (exclude (SortKey (fs_provider (j_fw j1))) j1)) as Hj.
  { etransitivity; [exact Hr|]. etransitivity; [exact H|]. split; [done|]. exists []. by rewrite !app_nil_r. }
  by destruct (leaves_tunnel _ _).
Qed.

Lemma failover_turn_answers tx fa d j j' next :
  (tx = StreamTransport -> exists status code, writeStreamForwardError d.(da_nativeResult) = [FAnswer status code]) ->
  failover_turn s rc u fuelSelect h req startedAt tx fa d j = Some (j', next) ->
  match next with Answered => answering j j' | _ => silent j j' end.
Proof.
  intros Hs. unfold failover_turn.
  assert (forall j1, silent j j1 -> (let '(j, handled) := onFailoverMiss u tx d j1 in
    if handled then Some (j, Answered) else retry_turn s rc u fuelSelect h req startedAt tx fa d j) = Some (j', next) ->
    match next with Answered => answering j j' | _ => silent j j' end) as Hmiss.
  { intros j1 Hj1. destruct (onFailoverMiss u tx d j1) as [j2 b] eqn:Em. apply miss_answers in Em. destruct b.
    - intros [= <- <-]. by eapply silent_answering.
    - intros H%retry_turn_answers; [|done]. assert (silent j j2) by (by etransitivity).
      destruct next; [by eapply silent_answering|by etransitivity|by etransitivity]. }
  destruct (_ && _); [|by apply Hmiss]. intros H. apply bind_Some in H as ([j1 hit] & H & H'). apply failover_silent in H.
  assert (silent j j1) as Hj1 by (etransitivity; [apply release_silent|done]).
  destruct hit as [n|]; [|apply Hmiss in H'; [done|]; etransitivity; [exact Hj1|apply release_silent]].
  injection H' as <- <-. set (j2 := set_fw j1 _). set (j3 := onFailoverHit u tx d n j2). set (j4 := set_fw j3 _).
  assert (silent j j4) as Hj.
  { etransitivity; [exact Hj1|]. transitivity j2; [split; [done|]; exists []; by rewrite !app_nil_r|].
    etransitivity; [apply (hit_silent tx d n j2)|]. split; [done|]. exists []. by rewrite !app_nil_r. }
  by destruct (leaves_tunnel _ _).
Qed.

(** The attempt of a round, what follows it, and the answer, if the round ends the
    request and the transport has not concluded it. *)
Definition round_answers (tx : transport) (j j' : Journey) (next : turn) : Prop :=
  let p := (j_fw j).(fs_provider) in
  j'.(j_attempts) = S j.(j_attempts) /\ exists evs final,
    j'.(j_events) = j.(j_events) ++ FDispatch tx p :: evs ++ final /\ forallb plain evs = true
    /\ match next with
       | Answered => if concludes u tx p j.(j_attempts) then final = [] else exists status code, final = [FAnswer status code]
       | _ => concludes u tx p j.(j_attempts) = false /\ final = []
       end.

Lemma round_answers_ok tx fa j j' next :
  forward_round s rc u fuelSelect h req startedAt tx fa j = Some (j', next) -> round_answers tx j j' next.
Proof.
  unfold forward_round. destruct (dispatch u tx j) as [j1 d] eqn:Ed.
  apply dispatch_answers in Ed as (D1 & (evs & D2 & Hp) & D3).
  assert (forall final j2, says j1 j2 final -> j2.(j_attempts) = S j.(j_attempts) /\ exists evs,
    j2.(j_events) = j.(j_events) ++ FDispatch tx (j_fw j).(fs_provider) :: evs ++ final /\ forallb plain evs = true) as Hs.
  { intros final j2 (A & evs' & E & Hp'). split; [by rewrite A|]. exists (evs ++ evs').
    rewrite E, D2, forallb_app, Hp, Hp'. split; [|done]. rewrite <- !app_assoc. by rewrite <- app_comm_cons. }
  assert (forall j2 next, concludes u tx (fs_provider (j_fw j)) (j_attempts j) = false ->
    match next with Answered => answering j1 j2 | _ => silent j1 j2 end -> round_answers tx j j2 next) as Hgo.
  { intros j2 n Ec H. unfold round_answers. cbv zeta. rewrite Ec. destruct n.
    - destruct H as (status & code & H). apply Hs in H as (A & evs2 & E & P). split; [done|]. exists evs2, [FAnswer status code]. by eauto.
    - apply Hs in H as (A & evs2 & E & P). split; [done|]. by exists evs2, [].
    - apply Hs in H as (A & evs2 & E & P). split; [done|]. by exists evs2, []. }
  assert (forall j2, concludes u tx (fs_provider (j_fw j)) (j_attempts j) = true -> silent j1 j2 -> round_answers tx j j2 Answered) as Hend.
  { intros j2 Ec H. unfold round_answers. cbv zeta. rewrite Ec. apply Hs in H as (A & evs2 & E & P). split; [done|]. by exists evs2, []. }
  destruct d as [d|]. 2:{ intros [= <- <-]. by apply Hend. }
  destruct D3 as [Ec Hw]. destruct (_ && _) eqn:E1; [intros [= <- <-]; apply Hend; [done|apply committed_silent]|].
  destruct (bool_decide (tx = WSTransport) && _) eqn:E2; [intros [= <- <-]; apply Hend; [done|apply terminal_silent]|].
  destruct (da_success d); [intros [= <- <-]; apply Hend; [done|apply success_silent]|]. cbn [orb] in Ec. specialize (Hw Ec).
  assert (forall j2, match next with Answered => answering (mark_fault d j1) j2 | _ => silent (mark_fault d j1) j2 end ->
    match next with Answered => answering j1 j2 | _ => silent j1 j2 end) as Hfault.
  { intros j2 H. pose proof (fault_silent d j1). destruct next; [by eapply silent_answering|by etransitivity|by etransitivity]. }
  destruct (tr_failoverEligible (da_tr d) && negb _); intros H.
  - apply failover_turn_answers in H; [|done]. apply Hgo; [done|]. by apply Hfault.
  - apply retry_turn_answers in H; [|done]. apply Hgo; [done|]. by apply Hfault.
Qed.
End Answers.

Lemma round_calls (j j' : list forward_event) tx p evs final : j' = j ++ FDispatch tx p :: evs ++ final -> forallb plain evs = true ->
  calls j' = calls j ++ (tx, p) :: calls final.
Proof. intros -> H. change (FDispatch tx p :: evs ++ final) with ([FDispatch tx p] ++ evs ++ final). rewrite calls_app, (calls_app [FDispatch tx p] (evs ++ final)), calls_app, (calls_plain _ H). done. Qed.
Lemma round_said (j j' : list forward_event) tx p evs final : j' = j ++ FDispatch tx p :: evs ++ final -> forallb plain evs = true ->
  answers j' = answers j ++ answers final.
Proof. intros -> H. change (FDispatch tx p :: evs ++ final) with ([FDispatch tx p] ++ evs ++ final). rewrite answers_app, (answers_app [FDispatch tx p] (evs ++ final)), answers_app, (answers_plain _ H). done. Qed.

Section Loop.
Context (s : Server) (rc : RetryConfig) (u : Surround) (fuelSelect : nat) (h : Header) (req : chatRequest) (startedAt : Z).

(** Every wait ends: in each selection the deadline is seen, and the fuel reaches it. *)
Definition waits_end : Prop :=
  forall k, exists T, (forall t, (T <= t)%nat -> w_expired (u.(u_waiting) k) t = true) /\ (T + 4 * length (u.(u_snapshot) k) + 1 < fuelSelect)%nat.

(** At most [N] of the attempts, wherever they come, find a full queue. *)
Definition queues_full_at_most (N : Z) : Prop := forall n, queue_fulls u n <= N.

Abbreviation round := (forward_round s rc u fuelSelect h req startedAt).
Abbreviation loop := (forwardWithFailover s rc u fuelSelect h req startedAt).
Abbreviation cap := (retry_cap rc h).

Section Returns.
Hypothesis Hwait : waits_end.

Lemma select_some j : exists j' result, select s u fuelSelect h req j = Some (j', result).
Proof.
  destruct (Hwait (j_selections j)) as (T & HT & Hf). unfold select.
  destruct (select_returns s (u_env u (j_selections j)) (u_waiting u (j_selections j)) (u_today u (j_selections j)) (u_routeID u (j_selections j)) req
    fuelSelect T (j_select j) (u_snapshot u (j_selections j)) h (j_excluded j) (fs_dailyKey (j_fw j)) HT Hf) as (st & r & ->). simpl. eauto.
Qed.

Lemma failover_some j : exists j' next, failover s u fuelSelect h req j = Some (j', next).
Proof.
  destruct (Hwait (j_selections j)) as (T & HT & Hf). unfold failover, failoverCandidate. destruct (_ || _); [simpl; eauto|].
  destruct (select_returns s (u_env u (j_selections j)) (u_waiting u (j_selections j)) (u_today u (j_selections j)) (u_routeID u (j_selections j)) req
    fuelSelect T (j_select j) (u_snapshot u (j_selections j)) (Del (Del h "X-MacProvider-Provider") "X-MacProvider-Session")
    ({[SortKey (fs_provider (j_fw j))]} ∪ j_excluded j) (fs_dailyKey (j_fw j)) HT Hf) as (st & r & ->). simpl. eauto.
Qed.

Lemma retry_turn_some tx fa d j : exists j' next, retry_turn s rc u fuelSelect h req startedAt tx fa d j = Some (j', next).
Proof.
  unfold retry_turn. destruct (_ && _); [eauto|]. unfold advanceToNextProvider.
  destruct (select_some (release (logRetryAttempt u tx d j))) as (j1 & r & ->). simpl. destruct r; simpl; eauto.
Qed.

Lemma round_some tx fa j : exists j' next, round tx fa j = Some (j', next).
Proof.
  assert (forall d j2, exists j' next, (let '(j, handled) := onFailoverMiss u tx d j2 in
    if handled then Some (j, Answered) else retry_turn s rc u fuelSelect h req startedAt tx fa d j) = Some (j', next)) as Hm.
  { intros d j2. destruct (onFailoverMiss u tx d j2) as [j3 []]; [eauto|apply retry_turn_some]. }
  unfold forward_round. destruct (dispatch u tx j) as [j1 [d|]]; [|eauto].
  destruct (tr_committed (da_tr d) && _); [eauto|]. destruct (_ && ws_terminal d); [eauto|]. destruct (da_success d); [eauto|].
  destruct (tr_failoverEligible (da_tr d) && _); [|apply retry_turn_some]. unfold failover_turn. destruct (_ && _); [|apply Hm].
  destruct (failover_some (release (mark_fault d j1))) as (j2 & [n|] & ->); cbn [mbind option_bind]; [eauto|apply Hm].
Qed.
End Returns.

(** *** The bound *)

Section Bound.
Context (N : Z) (HN : N + cap <= Int64.max) (Hfull : queues_full_at_most N).

(** Rounds a loop can still make after the next one. *)
Definition budget (tx : transport) (failoverAttempted : bool) (j : Journey) : Z :=
  (if failoverAttempted || bool_decide (tx = HTTPTransport) || pinned_route h then 0 else 1)
  + Z.max 0 (cap - (j_fw j).(fs_explicitRetries)) + (N - queue_fulls u j.(j_attempts)).

Definition counted (j : Journey) : Prop := 0 <= (j_fw j).(fs_explicitRetries) <= cap + queue_fulls u j.(j_attempts).

Lemma paid_budget tx fa fa' j j' : counted j -> attempted j j' -> paid rc u h tx fa fa' j j' ->
  counted j' /\ budget tx fa' j' + 1 <= budget tx fa j.
Proof.
  intros Hc [Ha _] Hp. unfold counted, budget in *. rewrite Ha. pose proof (retry_cap_range rc h) as Hcap.
  pose proof (Hfull (S (j_attempts j))) as HS. pose proof (Hfull (j_attempts j)) as H0.
  pose proof (queue_fulls_nonneg u (j_attempts j)) as Hpos.
  assert (queue_fulls u (j_attempts j) <= queue_fulls u (S (j_attempts j))) as Hmono by (simpl; case_match; lia).
  destruct Hp as [(E & -> & Hr)|(E & -> & -> & Htx & ->)].
  - destruct Hr as [Hr|Hr%full_queue].
    + rewrite E, Int64.add_exact by (i64; lia). destruct (fa || _ || _); lia.
    + rewrite E, Int64.add_exact by (i64; lia). destruct (fa || _ || _); lia.
  - rewrite E. rewrite bool_decide_eq_false_2 by done. cbn [orb]. lia.
Qed.

(** With fuel for its budget the loop returns. *)
Lemma loop_returns : waits_end -> forall fuel tx fa j, counted j -> budget tx fa j < Z.of_nat fuel ->
  exists j' b, loop fuel tx fa j = Some (j', b) /\ (b = true -> counted j').
Proof.
  intros Hwait fuel. induction fuel as [|fuel IH]; intros tx fa j Hc Hf.
  { exfalso. unfold budget in Hf. pose proof (Hfull (j_attempts j)). destruct (fa || _ || _); lia. }
  simpl. destruct (round_some Hwait tx fa j) as (j1 & next & E). rewrite E. apply forward_round_spec in E. simpl.
  destruct next as [|fa'|]; cbn [round_spec] in E.
  - by exists j1, false.
  - destruct E as [Hm Hp]. pose proof (mv_attempted _ _ _ _ Hm) as Ha. destruct (paid_budget _ _ _ _ _ Hc Ha Hp) as [Hc1 Hb1].
    apply IH; [done|lia].
  - destruct E as (_ & Hm & fa' & Hp). pose proof (mv_attempted _ _ _ _ Hm) as Ha. destruct (paid_budget _ _ _ _ _ Hc Ha Hp) as [Hc1 Hb1].
    by exists j1, true.
Qed.

Lemma budget_most tx fa j : counted j -> budget tx fa j <= 1 + cap + N.
Proof. unfold counted, budget. pose proof (queue_fulls_nonneg u (j_attempts j)). intros ?. destruct (fa || _ || _); lia. Qed.
End Bound.

(** *** Sessions *)

(** No session has been tried twice, those tried are excluded, and the next one is new. *)
Record fresh_route (j : Journey) : Prop := mkFresh {
  fr_nodup : NoDup (dispatched j.(j_events));
  fr_excluded : forall key, key ∈ dispatched j.(j_events) -> key ∈ j.(j_excluded) /\ key ∈ (j_fw j).(fs_faultedRoutes);
  fr_next : ~ (SortKey (j_fw j).(fs_provider) ∈ dispatched j.(j_events));
}.

Section Sessions.
Hypothesis Hpin : pinned_route h = false.
Hypothesis Hsteady : forall k, steady u k.

Lemma attempted_nodup j j' : fresh_route j -> attempted j j' -> NoDup (dispatched j'.(j_events)).
Proof.
  intros [H1 _ H3] [_ ->]. apply NoDup_app. split_and!; [done| |apply NoDup_singleton].
  intros x Hx ->%list_elem_of_singleton. done.
Qed.

Lemma moved_fresh j j' : fresh_route j -> moved u h j j' -> fresh_route j'.
Proof.
  intros Hf [Ha He Hr Hn]. specialize (Hn Hpin Hsteady). split; [by eapply attempted_nodup|..]; destruct Hf as [H1 H2 H3], Ha as [_ ->].
  - intros key [Hk|Hk%list_elem_of_singleton]%elem_of_app; [apply H2 in Hk as [? ?]; split; set_solver|subst; split; set_solver].
  - intros [Hk|Hk%list_elem_of_singleton]%elem_of_app; apply Hn; [apply H2 in Hk as [? _]; set_solver|rewrite Hk; set_solver].
Qed.

Lemma loop_fresh fuel : forall tx fa j j' b, fresh_route j -> loop fuel tx fa j = Some (j', b) ->
  NoDup (dispatched j'.(j_events)) /\ (b = true -> fresh_route j').
Proof.
  induction fuel as [|fuel IH]; intros tx fa j j' b Hf H; [done|]. simpl in H. apply bind_Some in H as ([j1 next] & E & H).
  apply forward_round_spec in E. destruct next as [|fa'|]; cbn [round_spec] in E.
  - injection H as <- <-. split; [by eapply attempted_nodup|done].
  - destruct E as [Hm _]. by eapply IH; [eapply moved_fresh|].
  - injection H as <- <-. destruct E as (_ & Hm & _). pose proof (moved_fresh _ _ Hf Hm) as Hf'. split; [apply Hf'|done].
Qed.
End Sessions.
End Loop.

(** ** The request *)

Section Request.
Context (s : Server) (rc : RetryConfig) (u : Surround) (fuelSelect : nat) (h : Header) (req : chatRequest) (startedAt : Z).
Abbreviation loop := (forwardWithFailover s rc u fuelSelect h req startedAt).

Lemma sequences_return N fuel j : N + retry_cap rc h <= Int64.max -> queues_full_at_most u N -> waits_end u fuelSelect ->
  counted rc u h j -> N + 1 + retry_cap rc h < Z.of_nat fuel ->
  exists j', forward_sequences s rc u fuelSelect h req startedAt fuel j = Some j'.
Proof.
  intros HN Hd Hw Hc Hf.
  assert (forall tx j, counted rc u h j -> exists j' b, loop fuel tx false j = Some (j', b) /\ (b = true -> counted rc u h j')) as Hl.
  { intros tx j1 Hc1. apply (loop_returns s rc u fuelSelect h req startedAt N HN Hd Hw); [done|].
    pose proof (budget_most rc u h N tx false j1 Hc1). lia. }
  unfold forward_sequences. destruct (cr_Stream req).
  { destruct (Hl StreamTransport j Hc) as (j' & b & -> & _). simpl. eauto. }
  assert (exists j1 b, (if IsWSTunneled (fs_provider (j_fw j)) then loop fuel WSTransport false j else Some (j, true)) = Some (j1, b)
    /\ (b = true -> counted rc u h j1)) as (j1 & b & -> & Hc1).
  { destruct (IsWSTunneled _); [apply (Hl WSTransport j Hc)|]. by exists j, true. }
  cbn [mbind option_bind]. destruct b; cbn [negb]; [|eauto].
  destruct (Hl HTTPTransport (j1 <| j_excluded := {[SortKey (fs_provider (j_fw j1))]} ∪ fs_faultedRoutes (j_fw j1) |>)) as (j3 & b & -> & _).
  - exact (Hc1 eq_refl).
  - simpl. eauto.
Qed.

(** *** The bound and the answer *)

(** The retries the operator and the request allow, pinned or not. *)
Definition retries_allowed : Z := Z.max 0 (Z.min rc.(rc_maxRetries) (RetryHeaderLimit (Get h "X-MacProvider-Retry"))).

Lemma cap_allowed : retry_cap rc h <= if pinned_route h then 0 else retries_allowed.
Proof.
  unfold retry_cap, retries_allowed. destruct (pinned_route h); cbn [negb]; [by rewrite andb_false_r|]. destruct (_ && _) eqn:E; lia.
Qed.

(** Before an attempt: the attempts so far are the retries and the failover, every retry
    is within the cap or follows a full queue, and nothing has been answered. *)
Record underway (tx : transport) (fa : bool) (j : Journey) : Prop := mkUnderway {
  uw_tally : length (calls j.(j_events)) = j.(j_attempts);
  uw_retries : 0 <= (j_fw j).(fs_explicitRetries) <= retry_cap rc h + full_from u 0 (calls j.(j_events));
  uw_attempts : exists fo, Z.of_nat j.(j_attempts) = (j_fw j).(fs_explicitRetries) + fo
    /\ 0 <= fo <= (if pinned_route h then 0 else 1) /\ (tx <> HTTPTransport -> fo = if fa then 1 else 0);
  uw_open : forall n tx p, calls j.(j_events) !! n = Some (tx, p) -> concludes u tx p n = false;
  uw_silent : answers j.(j_events) = [];
}.

Definition within_bound (j : Journey) : Prop :=
  Z.of_nat j.(j_attempts) <= 1 + full_from u 0 (calls j.(j_events)) + (if pinned_route h then 0 else 1) + retry_cap rc h.

Lemma calls_lookup (l : list (transport * Provider)) x n tx p : (l ++ [x]) !! n = Some (tx, p) ->
  l !! n = Some (tx, p) \/ n = length l /\ x = (tx, p).
Proof. intros [H|[Hn H]]%lookup_app_Some; [by left|right]. apply list_lookup_singleton_Some in H as [Hn0 ->]. split; [lia|done]. Qed.

Lemma round_end tx fa j j' : underway tx fa j -> round_answers u tx j j' Answered -> answered_once u j' /\ within_bound j'.
Proof.
  intros [H1 H2 (fo & H3 & H4 & _) H5 H6] (Ha & evs & fin & He & Hp & Hf).
  pose proof (round_said _ _ _ _ _ _ He Hp) as Hans. rewrite H6 in Hans. cbn [app] in Hans.
  assert (calls (j_events j') = calls (j_events j) ++ [(tx, fs_provider (j_fw j))]) as Hcalls.
  { rewrite (round_calls _ _ _ _ _ _ He Hp). destruct (concludes _ _ _ _); [by subst fin|by destruct Hf as (? & ? & ->)]. }
  split; [|unfold within_bound; rewrite Hcalls, full_snoc, Ha; destruct (full_at _ _ _); lia].
  unfold answered_once. rewrite Hcalls, Hans, last_snoc, Ha. cbn [pred]. split_and!; [rewrite length_app; simpl; lia| |].
  - intros n tx' p' Hn Hlt. apply (H5 n). rewrite lookup_app_l in Hn by lia. done.
  - destruct (concludes _ _ _ _); [by subst fin|]. destruct Hf as (status & code & ->). exists status, code. split; [|done].
    by rewrite He, app_comm_cons, app_assoc, last_snoc.
Qed.

Section Bounded.
Context (N : Z) (HN : N + retry_cap rc h <= Int64.max) (Hfull : queues_full_at_most u N).

Lemma round_on tx fa fa' j j' next : underway tx fa j -> round_answers u tx j j' next -> next <> Answered ->
  paid rc u h tx fa fa' j j' -> underway tx fa' j'.
Proof.
  intros [H1 H2 (fo & H3 & H4 & H7) H5 H6] (Ha & evs & fin & He & Hp & Hf) Hn Hpaid.
  assert (concludes u tx (fs_provider (j_fw j)) (j_attempts j) = false /\ fin = []) as [Ec ->] by (by destruct next).
  pose proof (round_said _ _ _ _ _ _ He Hp) as Hans. rewrite H6 in Hans. cbn [app] in Hans.
  pose proof (round_calls _ _ _ _ _ _ He Hp) as Hcalls. cbn [calls omap list_omap] in Hcalls.
  pose proof (full_from_fulls u (calls (j_events j'))) as Hle. rewrite Hcalls, full_snoc, length_app, H1 in Hle. cbn [length Nat.add fst] in Hle.
  pose proof (Hfull (j_attempts j + 1)%nat) as Hq. pose proof (retry_cap_range rc h) as Hcap.
  assert (0 <= full_from u 0 (calls (j_events j))) as H0 by apply full_from_nonneg.
  split; [rewrite Hcalls, length_app, Ha; simpl; lia| | | |done].
  - rewrite Hcalls, full_snoc, H1. cbn [fst Nat.add]. destruct Hpaid as [(E & _ & Hr)|(E & _)]; rewrite E; [|destruct (full_at _ _ _); lia].
    destruct Hr as [Hr|Hr]; [rewrite Int64.add_exact by (i64; lia); destruct (full_at _ _ _); lia|]. rewrite Hr in *. rewrite Int64.add_exact by (i64; lia). lia.
  - destruct Hpaid as [(E & -> & Hr)|(E & -> & -> & Htx & Hpin)].
    + exists fo. split_and!; [|lia|lia|done]. rewrite E, Ha. destruct Hr as [Hr|Hr]; [|rewrite Hr in *]; rewrite Int64.add_exact by (i64; lia); lia.
    + exists 1. rewrite Hpin, E, Ha. specialize (H7 Htx). split_and!; [lia|lia|lia|done].
  - intros n tx' p' Hl. rewrite Hcalls in Hl. apply calls_lookup in Hl as [Hl|[-> [= <- <-]]]; [by apply (H5 n)|]. by rewrite H1.
Qed.

Lemma loop_answers fuel : forall tx fa j j' b, underway tx fa j -> loop fuel tx fa j = Some (j', b) ->
  if b then exists fa', underway tx fa' j' else answered_once u j' /\ within_bound j'.
Proof.
  induction fuel as [|fuel IH]; intros tx fa j j' b Hu H; [done|]. simpl in H. apply bind_Some in H as ([j1 next] & E & H).
  pose proof (round_answers_ok _ _ _ _ _ _ _ _ _ _ _ _ E) as Ha. apply forward_round_spec in E.
  destruct next as [|fa'|]; cbn [round_spec] in E.
  - injection H as <- <-. by eapply round_end.
  - destruct E as [_ Hp]. eapply IH; [|exact H]. by eapply round_on.
  - injection H as <- <-. destruct E as (_ & _ & fa' & Hp). exists fa'. by eapply round_on.
Qed.

Lemma loop_leaves fuel : forall tx fa j j', tx <> WSTransport -> loop fuel tx fa j = Some (j', true) -> False.
Proof.
  induction fuel as [|fuel IH]; intros tx fa j j' Htx H; [done|]. simpl in H. apply bind_Some in H as ([j1 next] & E & H).
  apply forward_round_spec in E. destruct next as [|fa'|]; cbn [round_spec] in E; [done|by eapply IH|]. by destruct E.
Qed.

Lemma sequences_answer fuel j j' : underway HTTPTransport false j -> j.(j_attempts) = 0%nat ->
  forward_sequences s rc u fuelSelect h req startedAt fuel j = Some j' -> answered_once u j' /\ within_bound j'.
Proof.
  intros Hu H0 H. assert (forall tx, underway tx false j) as Hall.
  { intros tx. destruct Hu as [U1 U2 (fo & U3 & U4 & _) U5 U6]. split; try done. exists fo. split_and!; try done; lia. }
  unfold forward_sequences in H. destruct (cr_Stream req).
  { apply bind_Some in H as ([j1 b] & E & [= <-]). destruct b; [by apply loop_leaves in E|]. by apply loop_answers in E. }
  apply bind_Some in H as ([j1 b] & E & H). assert (if b then exists fa', underway HTTPTransport fa' j1 else answered_once u j1 /\ within_bound j1) as H1.
  { destruct (IsWSTunneled _); [|injection E as <- <-; by exists false]. apply loop_answers in E; [|done]. destruct b; [|done].
    destruct E as [fa' [U1 U2 (fo & U3 & U4 & _) U5 U6]]. exists fa'. split; try done. by exists fo. }
  destruct b; cbn [negb] in H; [|by injection H as <-]. apply bind_Some in H as ([j2 b] & E2 & [= <-]).
  destruct H1 as [fa' [U1 U2 (fo & U3 & U4 & _) U5 U6]]. destruct b; [by apply loop_leaves in E2|].
  apply loop_answers in E2; [done|]. split; try done. by exists fo.
Qed.
End Bounded.


(** A request without a pin never goes to the same session twice. Through
    failover, retries and the change from the tunnel to HTTP, the sessions its attempts go
    to are pairwise different, provided no provider reconnects while the request waits
    for one of its slots. *)
Theorem session_tried_once (fuel : nat) (st : SelectState) (j : Journey) :
  pinned_route h = false -> (forall k, steady u k) ->
  route_and_forward s rc u fuelSelect h req startedAt fuel st = Some j ->
  NoDup (dispatched j.(j_events)).
Proof.
  intros Hpin Hst H. unfold route_and_forward in H. apply bind_Some in H as ([j1 r] & E & H). apply select_spec in E as [[F _ _] _].
  destruct F as [_ F2 _ _]. change (dispatched (j_events j1) = []) in F2. destruct r as [p|err]; [|injection H as <-; simpl; rewrite dispatched_app, F2; apply NoDup_nil_2].
  apply bind_Some in H as (j2 & E & [= <-]). simpl. assert (fresh_route (set_provider p j1)) as Hf.
  { split; change (j_events (set_provider p j1)) with (j_events j1); rewrite F2.
    - apply NoDup_nil_2.
    - intros key Hk. by apply elem_of_nil in Hk.
    - intros Hk. by apply elem_of_nil in Hk. }
  clear F2. revert Hf E. generalize (set_provider p j1). clear j1 p. intros j1 Hf E. unfold forward_sequences in E.
  destruct (cr_Stream req). { apply bind_Some in E as ([j3 b] & E & [= <-]). by apply loop_fresh in E as [? _]. }
  apply bind_Some in E as ([j3 b] & E & H). assert (NoDup (dispatched (j_events j3)) /\ (b = true -> fresh_route j3)) as [Hn Hf3].
  { destruct (IsWSTunneled _); [by apply loop_fresh in E|]. injection E as <- <-. split; [apply Hf|done]. }
  destruct b; cbn [negb] in H; [|by injection H as <-]. apply bind_Some in H as ([j4 b] & E4 & [= <-]).
  apply loop_fresh in E4 as [? _]; [done..|]. destruct (Hf3 eq_refl) as [G1 G2 G3]. split; [done| |done].
  intros key Hk. apply G2 in Hk as [_ Hk]. split; [|exact Hk]. simpl. set_solver.
Qed.
End Request.

Module ForwardSample.
Definition tunnel (id : string) : Provider := (SelectSample.box id 1 20) <| p_InferencePath := InferencePathWSTunneled |>.
Definition row (status : Z) : requestLogAttempt := mkAttempt None None None status "provider" "" None false.
(** Tunnel [a] is lost, the failover to [b] finds its queue full, [c] answers. *)
Definition answers (n : nat) : option (wsForwardResult * requestLogAttempt) :=
  Some (match n with 0%nat => (wsForwardProviderDisconnected, row 502) | 1%nat => (wsForwardQueueFull, row 502) | _ => (wsForwardComplete, row 200) end).
Definition around (pool : nat -> list Provider) (ws : nat -> option (wsForwardResult * requestLogAttempt)) : Surround :=
  mkSurround ws (fun _ => None) (fun _ => None) (fun _ => true) (fun _ => 0) (fun _ => None) (fun _ => "r") pool
    (fun _ => SelectSample.env) (fun _ => SelectSample.waits) (fun _ => "2026-01-01") map_to_list.
Definition fleet : Surround := around (fun _ => [tunnel "a"; tunnel "b"; tunnel "c"]) answers.
Definition config : RetryConfig := mkRetryConfig 0 0 0 0.
Definition server : Server :=
  mkServer (mkTier2Config false "" false false false) ∅ ∅ "token" F64.one false (F64.ratio 1 10) true true 100 None.
Definition start : SelectState := mkSelectState (NewMap 60 10) None SelectSample.fw.
Definition ids (o : option Journey) : option (list string) := (fun j => dispatched j.(j_events)) <$> o.
(** One provider that reports a full queue twice and is ready again each time. *)
Definition stubborn : Surround :=
  around (fun _ => [tunnel "a"]) (fun n => Some (if (n <? 2)%nat then (wsForwardQueueFull, row 502) else (wsForwardComplete, row 200))).
Definition pin : Header := {[ "X-Macprovider-Provider" := ["a"] ]}.
Definition stream : chatRequest := mkChatRequest "m" true "{}".
Definition rows (o : option Journey) : option (list (string * Z)) :=
  (fun j => omap (fun ev => match ev with FRow p status _ _ => Some (p.(p_ProviderID), status) | _ => None end) j.(j_events)) <$> o.
End ForwardSample.

Lemma fleet_fulls n : queue_fulls ForwardSample.fleet n <= 1.
Proof.
  destruct n as [|[|n]]; [done..|]. induction n as [|n IH]; [done|].
  change (queue_fulls ForwardSample.fleet (S (S n)) + 0 <= 1). lia.
Qed.


Lemma session_tried_once_witness : NoDup ["a/s1"; "b/s1"; "c/s1"].
Proof.
  destruct (route_and_forward ForwardSample.server ForwardSample.config ForwardSample.fleet 0 ∅ SelectSample.request 0 9 ForwardSample.start)
    as [j|] eqn:E; [|vm_compute in E; discriminate].
  assert (dispatched j.(j_events) = ["a/s1"; "b/s1"; "c/s1"]) as <-.
  { apply (f_equal ForwardSample.ids) in E. vm_compute in E. injection E as E. exact (eq_sym E). }
  apply session_tried_once in E; [exact E|vm_compute; reflexivity|].
  intros k t p p' Hp Hp' Hid. change (p ∈ [SelectSample.box "a" 0 20; SelectSample.box "b" (if (t <? 4)%nat then 0 else 1) 20]) in Hp.
  change (p' ∈ [ForwardSample.tunnel "a"; ForwardSample.tunnel "b"; ForwardSample.tunnel "c"]) in Hp'.
  assert (p_AssignedID p = "s1" /\ p_AssignedID p' = "s1") as [E1 E2].
  { rewrite !elem_of_cons, elem_of_nil in Hp. rewrite !elem_of_cons, elem_of_nil in Hp'.
    split; [destruct Hp as [->|[->|[]]]|destruct Hp' as [->|[->|[->|[]]]]]; reflexivity. }
  unfold SortKey. rewrite E1, E2, Hid. reflexivity.
Defined.

(** The two places where the rows and attempts are not what the comments say. A stream
    whose first tunnel is lost leaves no row for that attempt; the same loss in a request
    that is not a stream does. *)
Example stream_failover_leaves_no_row :
  ForwardSample.rows (route_and_forward ForwardSample.server ForwardSample.config ForwardSample.fleet 0 ∅ ForwardSample.stream 0 9 ForwardSample.start)
    = Some [("b", 502)]
  /\ ForwardSample.rows (route_and_forward ForwardSample.server ForwardSample.config ForwardSample.fleet 0 ∅ SelectSample.request 0 9 ForwardSample.start)
    = Some [("a", 502); ("b", 502); ("c", 200)].
Proof. split; vm_compute; reflexivity. Qed.

(** A pinned request without retries goes to its provider again each time the queue is full. *)
Example pinned_queue_full_repeats :
  ForwardSample.ids (route_and_forward ForwardSample.server ForwardSample.config ForwardSample.stubborn 0 ForwardSample.pin SelectSample.request 0 9
    ForwardSample.start) = Some ["a/s1"; "a/s1"; "a/s1"].
Proof. vm_compute. reflexivity. Qed.
