(* ===== verification/MismatchLimiter.v ===== *)
(** * The account-mismatch warning limiter

    Models [phase4-coordinator/internal/buyer/sticky_mismatch_limiter.go]: at
    most one warning per conversation key and window, in a table bounded by
    [maxEntries]. A full table of in-window keys denies a new key, so the
    warning rate is bounded over all keys together. *)

From S2P Require Import Prelude.

Record stickyMismatchLimiter := mkLimiter {
  window : Z;
  lim_maxEntries : Z;
  lim_entries : gmap string Z;
}.

Definition minute : Z := 60000000000.

Definition newStickyMismatchLimiter (w maxEntries : Z) : stickyMismatchLimiter :=
  mkLimiter (if w <=? 0 then minute else w) (if maxEntries <=? 0 then 10000 else maxEntries) ∅.

Definition with_lim_entries (l : stickyMismatchLimiter) (es : gmap string Z) : stickyMismatchLimiter :=
  mkLimiter l.(window) l.(lim_maxEntries) es.

Section Limiter.
Variable order : gmap string Z -> list (string * Z).

Definition sweepExpiredLocked (l : stickyMismatchLimiter) (now : Z) : stickyMismatchLimiter :=
  with_lim_entries l
    (delete_loop (fun _ last => l.(window) <=? time_sub now last)
       (order l.(lim_entries)) (l.(lim_entries), 0)).1.

Definition lim_full (l : stickyMismatchLimiter) : bool :=
  l.(lim_maxEntries) <=? Z.of_nat (size l.(lim_entries)).

Definition allow (l : stickyMismatchLimiter) (now : Z) (key : string) : stickyMismatchLimiter * bool :=
  match l.(lim_entries) !! key with
  | Some last =>
      if time_sub now last <? l.(window) then (l, false)
      else (with_lim_entries l (<[key := now]> l.(lim_entries)), true)
  | None =>
      let l := if lim_full l then sweepExpiredLocked l now else l in
      if lim_full l then (l, false)
      else (with_lim_entries l (<[key := now]> l.(lim_entries)), true)
  end.

(** A sequence of calls [(now, key)] and the warnings it lets through, the
    newest first. *)
Fixpoint allow_run (l : stickyMismatchLimiter) (calls : list (Z * string))
    (warned : list (Z * string)) : stickyMismatchLimiter * list (Z * string) :=
  match calls with
  | [] => (l, warned)
  | (now, key) :: calls =>
      let '(l, ok) := allow l now key in
      allow_run l calls (if ok then (now, key) :: warned else warned)
  end.

(** ** The rate bound *)

(** The clock does not run backwards, starting at [t]. *)
Fixpoint clocked (t : Z) (calls : list (Z * string)) : bool :=
  match calls with
  | [] => true
  | (now, _) :: calls => ((t <=? now) && clocked now calls)%bool
  end.

(** Two warnings of one key are a window apart. *)
Definition spaced (w : Z) (newer older : Z * string) : Prop :=
  newer.2 = older.2 -> w <= newer.1 - older.1.

Record limiter_ok (t : Z) (l : stickyMismatchLimiter) (warned : list (Z * string)) : Prop := {
  lo_bound : Z.of_nat (size l.(lim_entries)) <= l.(lim_maxEntries);
  lo_past : Forall (fun w => w.1 <= t) warned;
  lo_table : Forall (fun w => t - w.1 < l.(window) -> l.(lim_entries) !! w.2 = Some w.1) warned;
  lo_times : forall k u, l.(lim_entries) !! k = Some u -> u <= t;
  lo_spaced : StronglySorted (spaced l.(window)) warned;
}.

Lemma time_sub_window now last w :
  0 < w <= Int64.max -> last <= now -> (time_sub now last <? w) = (now - last <? w).
Proof. unfold time_sub, Int64.min. intros. lia. Qed.

Section Facts.
Hypothesis Hord : enumerates order.

Lemma sweep_lookup l now k u :
  (sweepExpiredLocked l now).(lim_entries) !! k = Some u
  <-> l.(lim_entries) !! k = Some u /\ (l.(window) <=? time_sub now u) = false.
Proof.
  unfold sweepExpiredLocked. simpl.
  rewrite delete_loop_filter by done. by rewrite map_lookup_filter_Some.
Qed.

(** Time passing keeps the invariant. *)
Lemma limiter_ok_later t t' l warned : t <= t' -> limiter_ok t l warned -> limiter_ok t' l warned.
Proof.
  intros Ht [H1 H2 H3 H4 H5]. constructor; auto.
  - eapply Forall_impl; [exact H2|]. simpl. intros; lia.
  - eapply Forall_impl; [exact H3|]. simpl. intros w Hw ?. apply Hw. lia.
  - intros k u Hu. apply H4 in Hu. lia.
Qed.

Lemma limiter_ok_sweep now l warned :
  0 < l.(window) <= Int64.max ->
  limiter_ok now l warned -> limiter_ok now (sweepExpiredLocked l now) warned.
Proof.
  intros Hw [H1 H2 H3 H4 H5]. constructor; auto.
  - assert (lim_entries (sweepExpiredLocked l now) ⊆ lim_entries l) as Hs.
    { apply map_subseteq_spec. intros k u Hu%sweep_lookup. naive_solver. }
    apply map_subseteq_size in Hs.
    change (lim_maxEntries (sweepExpiredLocked l now)) with (lim_maxEntries l). lia.
  - apply Forall_forall. intros w Hin Hlt. rewrite Forall_forall in H2, H3.
    apply sweep_lookup. split; [by apply H3|]. specialize (H2 w Hin).
    pose proof (time_sub_window now w.1 (window l) Hw H2).
    simpl in Hlt. destruct (_ <=? _) eqn:?; [|done]. lia.
  - intros k u Hu%sweep_lookup. naive_solver.
Qed.

(** Letting a warning through keeps the invariant when the key is not warned in
    the current window and the table has room for it. *)
Lemma limiter_ok_warn now l warned key :
  limiter_ok now l warned ->
  (forall u, l.(lim_entries) !! key = Some u -> l.(window) <= now - u) ->
  (is_Some (l.(lim_entries) !! key) \/ lim_full l = false) -> 0 < l.(window) ->
  limiter_ok now (with_lim_entries l (<[key := now]> l.(lim_entries))) ((now, key) :: warned).
Proof.
  intros [H1 H2 H3 H4 H5] Hold Hroom Hw.
  assert (forall w, w ∈ warned -> w.2 = key -> window l <= now - w.1) as Hsp.
  { intros w Hin He. rewrite Forall_forall in H3.
    destruct (Z.le_gt_cases (window l) (now - w.1)); [done|].
    apply Hold. rewrite <- He. apply H3; [done|lia]. }
  constructor; simpl.
  - rewrite map_size_insert. unfold lim_full in Hroom.
    destruct Hroom as [[u ->]|?]; simpl; [done|]. destruct (_ !! _); simpl; lia.
  - constructor; [simpl; lia|done].
  - constructor; [intros _; apply lookup_insert_eq|].
    apply Forall_forall. intros w Hin Hlt. rewrite lookup_insert_ne.
    + rewrite Forall_forall in H3. by apply H3.
    + intros He. pose proof (Hsp w Hin (eq_sym He)). lia.
  - intros k u Hu. destruct (decide (key = k)) as [->|].
    + rewrite lookup_insert_eq in Hu. simplify_eq. lia.
    + rewrite lookup_insert_ne in Hu by done. by eapply H4.
  - constructor; [done|]. apply Forall_forall. intros w Hin He. simpl in *. by apply Hsp.
Qed.

Lemma allow_ok t now key l warned :
  0 < l.(window) <= Int64.max -> t <= now -> limiter_ok t l warned ->
  let '(l', ok) := allow l now key in
  limiter_ok now l' (if ok then (now, key) :: warned else warned) /\ window l' = window l.
Proof.
  intros Hw Ht H%(limiter_ok_later t now); [|done]. unfold allow.
  destruct (lim_entries l !! key) as [last|] eqn:Hk.
  - rewrite time_sub_window by (try done; by eapply lo_times).
    destruct (_ <? _) eqn:Hlt; [done|]. split; [|done].
    apply limiter_ok_warn; eauto; [|lia]. intros u ?. simplify_eq. lia.
  - set (l' := if lim_full l then sweepExpiredLocked l now else l).
    assert (limiter_ok now l' warned /\ window l' = window l /\ lim_entries l' !! key = None)
      as (H' & Hw' & Hk').
    { subst l'. destruct (lim_full l); [|done]. split; [by apply limiter_ok_sweep|].
      split; [done|]. apply eq_None_not_Some. intros [u Hu%sweep_lookup]. destruct Hu. congruence. }
    destruct (lim_full l') eqn:Hf; [done|]. split; [|done].
    apply limiter_ok_warn; auto; [|lia]. intros u Hu. congruence.
Qed.

Lemma allow_run_ok calls t t1 l warned :
  0 < l.(window) <= Int64.max -> clocked t calls = true -> limiter_ok t l warned ->
  t <= t1 -> Forall (fun c => c.1 <= t1) calls ->
  let '(l', warned') := allow_run l calls warned in
  limiter_ok t1 l' warned' /\ window l' = window l /\ lim_maxEntries l' = lim_maxEntries l.
Proof.
  revert t l warned. induction calls as [|[now key] calls IH]; intros t l warned Hw Hc H Ht Hf; simpl.
  { split; [by eapply limiter_ok_later|done]. }
  simpl in Hc. bool_hyps. apply Forall_cons_1 in Hf as [Hnow Hf]. simpl in Hnow.
  pose proof (allow_ok t now key l warned Hw) as Ha.
  assert (lim_maxEntries (allow l now key).1 = lim_maxEntries l) as Hm.
  { unfold allow. repeat case_match; done. }
  destruct (allow l now key) as [l' ok]. destruct Ha as [Ha Hwin]; [lia|done|].
  specialize (IH now l' (if ok then (now, key) :: warned else warned)). rewrite Hwin in IH.
  simpl in Hm. rewrite Hm in IH. by apply IH.
Qed.
End Facts.
End Limiter.

(** Warnings still in their window at [t] have distinct keys, all in the table. *)
Lemma in_window_bound t l warned :
  0 < l.(window) -> limiter_ok t l warned ->
  Z.of_nat (length (List.filter (fun w => t - w.1 <? l.(window)) warned)) <= l.(lim_maxEntries).
Proof.
  intros Hw [H1 H2 H3 H4 H5].
  assert (NoDup (map snd (List.filter (fun w => t - w.1 <? window l) warned)) /\
    forall k, k ∈ map snd (List.filter (fun w => t - w.1 <? window l) warned) ->
      k ∈ dom (lim_entries l)) as [Hd Hin].
  { clear H1 H4. induction H5 as [|w warned Hs IH Hsp]; simpl; [split; [constructor|set_solver]|].
    apply Forall_cons_1 in H2 as [H2w H2], H3 as [H3w H3]. destruct (IH H2 H3) as [Hd Hin].
    destruct (t - w.1 <? window l) eqn:Hlt; [|done]. simpl. split.
    - constructor; [|done]. intros (w' & Hw' & He)%elem_of_map.
      apply elem_of_List_filter in Hw' as [Hw' Hlt'].
      rewrite Forall_forall in Hsp, H3. specialize (Hsp w' Hw' He).
      specialize (H3 w' Hw' ltac:(lia)). specialize (H3w ltac:(lia)). rewrite He in H3w. simplify_eq. lia.
    - intros k [->|Hk]%elem_of_cons; [|by apply Hin]. apply elem_of_dom. eexists. apply H3w. lia. }
  rewrite <- (length_map snd).
  set (ks := map snd _) in *.
  assert (length ks <= size (dom (lim_entries l)))%nat as Hle.
  { rewrite <- (size_list_to_set (C := gset string)) by done.
    apply subseteq_size. intros k. rewrite elem_of_list_to_set. apply Hin. }
  rewrite size_dom in Hle. lia.
Qed.

(** The warning rate is bounded: in any sequence of calls under a
    clock that does not run backwards, two warnings of one key are at least a
    window apart, and at every instant [t] at most [maxEntries] warnings, over
    all keys together, are younger than the window. *)
Theorem warning_rate_bounded (order : gmap string Z -> list (string * Z))
    (w max : Z) (calls : list (Z * string)) (t0 t : Z) :
  enumerates order -> 0 < w <= Int64.max -> 0 < max ->
  clocked t0 calls = true -> Forall (fun c => c.1 <= t) calls -> t0 <= t ->
  let warned := (allow_run order (newStickyMismatchLimiter w max) calls []).2 in
  StronglySorted (spaced w) warned /\
  Z.of_nat (length (List.filter (fun x => t - x.1 <? w) warned)) <= max.
Proof.
  intros Ho Hw Hmax Hc Ht Ht0. cbv zeta.
  set (l0 := newStickyMismatchLimiter w max).
  assert (window l0 = w /\ lim_maxEntries l0 = max) as [Hw0 Hm0].
  { unfold l0, newStickyMismatchLimiter. simpl. split; split_ifs; lia. }
  assert (limiter_ok t0 l0 []) as H0.
  { constructor; try constructor.
    - rewrite Hm0. simpl. rewrite map_size_empty. lia.
    - intros k u Hu. simpl in Hu. by rewrite lookup_empty in Hu. }
  pose proof (allow_run_ok order Ho calls t0 t l0 [] ltac:(lia) Hc H0 Ht0 Ht) as Hr.
  destruct (allow_run order l0 calls []) as [l warned].
  destruct Hr as (Hok & Hwin & Hme). simpl. rewrite <- Hw0, <- Hwin, <- Hm0, <- Hme.
  split; [by apply lo_spaced in Hok|]. apply in_window_bound; [lia|done].
Qed.

(** Three calls of two keys under a table of one entry. *)
Definition sample_calls : list (Z * string) :=
  [(0, "conv:a"); (1, "conv:b"); (2, "conv:a"); (200, "conv:b")].

Lemma warning_rate_bounded_witness :
  (allow_run map_to_list (newStickyMismatchLimiter 100 1) sample_calls []).2
  = [(200, "conv:b"); (0, "conv:a")] /\
  Z.of_nat (length (List.filter (fun x => 250 - x.1 <? 100)
    (allow_run map_to_list (newStickyMismatchLimiter 100 1) sample_calls []).2)) <= 1.
Proof.
  split; [vm_compute; reflexivity|].
  assert (Forall (fun c : Z * string => c.1 <= 250) sample_calls) as Hf
    by (repeat constructor; simpl; lia).
  destruct (warning_rate_bounded map_to_list 100 1 sample_calls 0 250 enumerates_map_to_list)
    as [_ H]; [unfold Int64.max; lia|lia|reflexivity|exact Hf|lia|]. exact H.
Defined.
