(* ===== verification/Quota.v ===== *)
(** * The gateway's quota and usage store

    Models the money tables of
    [phase5-gateway/internal/storage/sqlite/store.go] and their schema in
    [migrate.go]: quota reservations, usage events, demo usage events and
    concurrency reservations. A table with a primary key is a map from the key to
    the rest of the row. Each method runs in one SQLite transaction on a database
    with one connection, so a method is a function on the whole store: on an error
    it returns the store unchanged (the deferred rollback), except where the code
    commits first. *)

From S2P Require Import Prelude GoTime.

(** ** Times as the store keeps them

    An instant is its nanoseconds since the Unix epoch. [encodeTime] writes RFC 3339 text with the
    fraction's trailing zeros removed, and SQL compares the texts. For the years 0
    to 9999 the date and time to the second have a fixed width, so texts compare by
    their seconds first; what follows is ["Z"], or a point, the digits and ["Z"]. *)
Definition fraction_text (nanos : Z) : string :=
  if nanos =? 0 then "Z"
  else "." +:+ GoStr.of_chars (rev (GoStr.drop_while (fun c => Ascii.eqb c "0") (rev (padded_digits 9 nanos))))
       +:+ "Z".

(** [encodeTime a <= encodeTime b] and [encodeTime a < encodeTime b] in SQL. *)
Definition text_leb (a b : Z) : bool :=
  if a / second <? b / second then true
  else if b / second <? a / second then false
  else String.leb (fraction_text (a mod second)) (fraction_text (b mod second)).
Definition text_ltb (a b : Z) : bool := negb (text_leb b a).

Lemma text_leb_seconds a b : text_leb a b = true -> a / second <= b / second.
Proof. unfold text_leb. split_ifs; lia. Qed.

Lemma seconds_text_leb a b : a / second < b / second -> text_leb a b = true.
Proof. unfold text_leb. intros. by replace (a / second <? b / second) with true by lia. Qed.

(** Texts order instants up to less than a second. *)
Lemma text_leb_bound a b : text_leb a b = true -> a < b + second.
Proof. intros H%text_leb_seconds. pose proof (Z.div_mod a second). pose proof (Z.div_mod b second).
  pose proof (Z.mod_pos_bound a second). pose proof (Z.mod_pos_bound b second).
  unfold second in *. lia.
Qed.

Lemma text_leb_late a b : a + second <= b -> text_leb a b = true.
Proof.
  intros H. apply seconds_text_leb. apply (Z.lt_le_trans _ ((a + second) / second)).
  - rewrite <- (Z.mul_1_l second) at 2. rewrite Z.div_add by done. lia.
  - by apply Z.div_le_mono.
Qed.

(** The reset time of a daily window. *)
Definition resetUnix (windowDate : string) : Z :=
  match parse_date windowDate with
  | Some days => 86400 * (days + 1)
  | None => 0
  end.

(** ** Tables *)

Inductive ReservationStatus := active | settled | refunded | expired | stale_held.
#[global] Instance ReservationStatus_eq_dec : EqDecision ReservationStatus.
Proof. solve_decision. Defined.

(** The key of the three money tables: account and request. *)
Abbreviation RequestKey := (string * string)%type.

(** [settled_at] is empty until the reservation is closed. *)
Record Reservation := mkReservation {
  window_date : string;
  reserved_tokens : Z;
  settled_tokens : Z;
  status : ReservationStatus;
  settlement_hold : bool;
  expires_at : Z;
  created_at : Z;
  settled_at : option Z;
}.

Record UsageRow := mkUsageRow {
  demo_identity : string;
  usage_window : string;
  prompt_tokens : Z;
  completion_tokens : Z;
  total_tokens : Z;
  token_source : string;
  outcome : string;
  usage_created : Z;
}.

Record DemoRow := mkDemoRow {
  client_ip : string;
  demo_window : string;
  demo_tokens : Z;
  demo_created : Z;
}.

Inductive SlotStatus := slot_active | slot_released | slot_expired.
#[global] Instance SlotStatus_eq_dec : EqDecision SlotStatus.
Proof. solve_decision. Defined.

Record Slot := mkSlot {
  slot_status : SlotStatus;
  slot_expires : Z;
  slot_created : Z;
  released_at : option Z;
}.

(** Demo usage is keyed by demo token hash and request. *)
Record Store := mkStore {
  quota_reservations : gmap RequestKey Reservation;
  usage_events : gmap RequestKey UsageRow;
  demo_usage_events : gmap RequestKey DemoRow;
  concurrency_reservations : gmap RequestKey Slot;
}.

Definition empty_store : Store := mkStore ∅ ∅ ∅ ∅.

Definition with_reservations (s : Store) (m : gmap RequestKey Reservation) : Store :=
  mkStore m s.(usage_events) s.(demo_usage_events) s.(concurrency_reservations).
Definition with_usage (s : Store) (m : gmap RequestKey UsageRow) : Store :=
  mkStore s.(quota_reservations) m s.(demo_usage_events) s.(concurrency_reservations).
Definition with_demo (s : Store) (m : gmap RequestKey DemoRow) : Store :=
  mkStore s.(quota_reservations) s.(usage_events) m s.(concurrency_reservations).
Definition with_slots (s : Store) (m : gmap RequestKey Slot) : Store :=
  mkStore s.(quota_reservations) s.(usage_events) s.(demo_usage_events) m.

(** ** Errors *)

Inductive StoreError :=
  | ErrQuotaExceeded | ErrReservationExists | ErrReservationNotFound
  | ErrReservationTerminal | ErrUsageEventConflict
  | ErrOther (what : string).

Inductive result (A : Type) := Ok (a : A) | Err (e : StoreError).
Arguments Ok {A} _.
Arguments Err {A} _.

Definition rbind {A B} (r : result A) (k : A -> result B) : result B :=
  match r with Ok a => k a | Err e => Err e end.
Declare Scope quota_scope.
Notation "'let?' x := r 'in' k" := (rbind r (fun x => k))
  (at level 10, x name, k at level 200) : quota_scope.
#[local] Open Scope quota_scope.

(** A guard of the code or a constraint of the schema: [e] unless [b]. *)
Definition require (b : bool) (e : StoreError) : result unit := if b then Ok tt else Err e.

(** A transaction commits its new store, or rolls back. *)
Definition commit (s : Store) (r : result Store) : Store * result unit :=
  match r with Ok s' => (s', Ok tt) | Err e => (s, Err e) end.

(** ** Schema checks *)

Definition token_sources : list string :=
  ["provider_reported"; "gateway_estimated"; "manual_fixture"; "coordinator_observed"].

Definition usage_row_checks (r : UsageRow) : bool :=
  (0 <=? r.(prompt_tokens)) && (0 <=? r.(completion_tokens)) && (0 <=? r.(total_tokens))
  && existsb (String.eqb r.(token_source)) token_sources.

Definition demo_row_checks (r : DemoRow) : bool := 0 <=? r.(demo_tokens).

(** A plain [INSERT] into [usage_events]. *)
Definition insert_usage (s : Store) (k : RequestKey) (r : UsageRow) : result Store :=
  match s.(usage_events) !! k with
  | Some _ => Err (ErrOther "UNIQUE constraint failed")
  | None =>
      if usage_row_checks r then Ok (with_usage s (<[k := r]> s.(usage_events)))
      else Err (ErrOther "CHECK constraint failed")
  end.

(** [INSERT OR IGNORE]: the number of affected rows with the store. *)
Definition insert_usage_or_ignore (s : Store) (k : RequestKey) (r : UsageRow) : Store * Z :=
  match insert_usage s k r with Ok s' => (s', 1) | Err _ => (s, 0) end.

Definition insert_demo (s : Store) (k : RequestKey) (r : DemoRow) : result Store :=
  match s.(demo_usage_events) !! k with
  | Some _ => Err (ErrOther "UNIQUE constraint failed")
  | None =>
      if demo_row_checks r then Ok (with_demo s (<[k := r]> s.(demo_usage_events)))
      else Err (ErrOther "CHECK constraint failed")
  end.

(** ** Reservations *)

Record ReservationRequest := mkReserve {
  rq_AccountID : string;
  rq_RequestID : string;
  rq_WindowDate : string;
  rq_RequestedTokens : Z;
  rq_DailyQuota : Z;
  rq_ExpiresAt : Z;
  rq_CreatedAt : Z;
}.

Record QuotaDecision := mkDecision {
  Admitted_ : bool;
  LimitTokens : Z;
  UsedTokens : Z;
  ReservedTokens : Z;
  RemainingTokens : Z;
  ResetUnix : Z;
}.
Definition no_decision : QuotaDecision := mkDecision false 0 0 0 0 0.

(** [UPDATE quota_reservations SET status = st, settled_tokens = tokens, settled_at = at]. *)
Definition close_reservation (st : ReservationStatus) (tokens at_ : Z) (r : Reservation) : Reservation :=
  mkReservation r.(window_date) r.(reserved_tokens) tokens st r.(settlement_hold) r.(expires_at)
    r.(created_at) (Some at_).
Definition set_hold (r : Reservation) : Reservation :=
  mkReservation r.(window_date) r.(reserved_tokens) r.(settled_tokens) r.(status) true r.(expires_at)
    r.(created_at) r.(settled_at).
Definition set_expiry (e : Z) (r : Reservation) : Reservation :=
  mkReservation r.(window_date) r.(reserved_tokens) r.(settled_tokens) r.(status) true e
    r.(created_at) r.(settled_at).

Definition is_active (r : Reservation) : bool := bool_decide (r.(status) = active).

(** [reapExpiredReservationsTx]. [clock] is the reading used for a zero [now]. *)
Definition reapable (now : Z) (r : Reservation) : bool :=
  is_active r && negb r.(settlement_hold) && text_leb r.(expires_at) now.
Definition reapExpiredReservationsTx (s : Store) (now clock : Z) : Store :=
  let now := or_now now clock in
  with_reservations s
    ((fun r => if reapable now r then close_reservation expired 0 now r else r) <$> s.(quota_reservations)).
Definition ReapExpiredReservations := reapExpiredReservationsTx.

(** [dailyUsageTx]: used and reserved tokens of an account's window. SQLite's
    [SUM] over integers fails when it overflows. *)
Definition used_sum (s : Store) (acct win : string) : Z :=
  sum_map (fun k r => if (String.eqb k.1 acct && String.eqb r.(usage_window) win)%bool
                      then r.(total_tokens) else 0) s.(usage_events).
Definition reserved_sum (s : Store) (acct win : string) : Z :=
  sum_map (fun k r => if (String.eqb k.1 acct && String.eqb r.(window_date) win && is_active r)%bool
                      then r.(reserved_tokens) else 0) s.(quota_reservations).
Definition checked_sum (z : Z) : result Z :=
  if z <=? Int64.max then Ok z else Err (ErrOther "integer overflow").
Definition dailyUsageTx (s : Store) (acct win : string) : result (Z * Z) :=
  let? used := checked_sum (used_sum s acct win) in
  let? reserved := checked_sum (reserved_sum s acct win) in
  Ok (used, reserved).
Definition DailyUsage := dailyUsageTx.

Definition max64 (a b : Z) : Z := if b <? a then a else b.

(** [ReserveQuota]. The reap is part of the transaction, so a refusal undoes it. *)
Definition ReserveQuota (s : Store) (req : ReservationRequest) (clock : Z)
    : Store * (QuotaDecision * option StoreError) :=
  let createdAt := or_now req.(rq_CreatedAt) clock in
  let tx := reapExpiredReservationsTx s createdAt clock in
  let key := (req.(rq_AccountID), req.(rq_RequestID)) in
  match tx.(quota_reservations) !! key with
  | Some _ => (s, (no_decision, Some ErrReservationExists))
  | None =>
  match dailyUsageTx tx req.(rq_AccountID) req.(rq_WindowDate) with
  | Err e => (s, (no_decision, Some e))
  | Ok (used, reserved) =>
  let remaining := Int64.sub (Int64.sub req.(rq_DailyQuota) used) reserved in
  let reset := resetUnix req.(rq_WindowDate) in
  if remaining <? req.(rq_RequestedTokens) then
    (s, (mkDecision false req.(rq_DailyQuota) used reserved (max64 0 remaining) reset, Some ErrQuotaExceeded))
  else
    let expiresAt := if IsZero req.(rq_ExpiresAt) then createdAt + 24 * 3600 * second else req.(rq_ExpiresAt) in
    if req.(rq_RequestedTokens) <? 0 then (s, (no_decision, Some (ErrOther "CHECK constraint failed")))
    else
      let row := mkReservation req.(rq_WindowDate) req.(rq_RequestedTokens) 0 active false expiresAt
                   createdAt None in
      (with_reservations tx (<[key := row]> tx.(quota_reservations)),
       (mkDecision true req.(rq_DailyQuota) used (Int64.add reserved req.(rq_RequestedTokens))
          (max64 0 (Int64.sub remaining req.(rq_RequestedTokens))) reset, None))
  end end.

(** ** Settlement *)

Record ReservationSettlement := mkSettlement {
  st_AccountID : string;
  st_RequestID : string;
  st_PromptTokens : Z;
  st_CompletionTokens : Z;
  st_TotalTokens : Z;
  st_MaxTotalTokens : Z;
  st_TokenSource : string;
  st_Outcome : string;
  st_SettledAt : Z;
}.

(** The total a settlement or an event stands for, or the error of its validation. *)
Definition checked_total (prompt completion total : Z) : result Z :=
  let? _ := require (negb ((prompt <? 0) || (completion <? 0) || (total <? 0)))
              (ErrOther "tokens must be non-negative") in
  let? _ := require (negb (Int64.sub Int64.max completion <? prompt))
              (ErrOther "token total overflows int64") in
  let sum := Int64.add prompt completion in
  if total =? 0 then Ok sum
  else let? _ := require (total =? sum) (ErrOther "total_tokens does not match") in Ok total.

Definition normalizeSettlementTokens (t : ReservationSettlement) : result Z :=
  let? total := checked_total t.(st_PromptTokens) t.(st_CompletionTokens) t.(st_TotalTokens) in
  let? _ := require (negb ((0 <? t.(st_MaxTotalTokens)) && (t.(st_MaxTotalTokens) <? total)))
              (ErrOther "total_tokens exceeds request maximum") in
  Ok total.

(** The reservation a settlement closes. *)
Definition active_reservation (s : Store) (k : RequestKey) : result Reservation :=
  match s.(quota_reservations) !! k with
  | None => Err ErrReservationNotFound
  | Some r => if is_active r then Ok r else Err ErrReservationTerminal
  end.

(** The common part of the two settlements: the reservation is closed and the
    usage row written; [demo] is the [demo_identity] column. *)
Definition settle_tx (s : Store) (t : ReservationSettlement) (settledAt : Z) (demo : string)
    : result (Store * (string * Z)) :=
  let k := (t.(st_AccountID), t.(st_RequestID)) in
  let? r := active_reservation s k in
  let? total := normalizeSettlementTokens t in
  let s1 := with_reservations s (<[k := close_reservation settled total settledAt r]> s.(quota_reservations)) in
  let? s2 := insert_usage s1 k (mkUsageRow demo r.(window_date) t.(st_PromptTokens) t.(st_CompletionTokens)
               total t.(st_TokenSource) t.(st_Outcome) settledAt) in
  Ok (s2, (r.(window_date), total)).

Definition SettleReservation (s : Store) (t : ReservationSettlement) (clock : Z) : Store * result unit :=
  commit s (let? x := settle_tx s t (or_now t.(st_SettledAt) clock) "" in Ok x.1).

Record DemoUsageEvent := mkDemoEvent {
  de_RequestID : string;
  de_ClientIP : string;
  de_DemoTokenHash : string;
  de_WindowDate : string;
  de_TotalTokens : Z;
  de_CreatedAt : Z;
}.

Definition SettleDemoReservation (s : Store) (t : ReservationSettlement) (d : DemoUsageEvent) (clock : Z)
    : Store * result unit :=
  let settledAt := or_now t.(st_SettledAt) clock in
  commit s (
    let? x := settle_tx s t settledAt d.(de_ClientIP) in
    insert_demo x.1 (d.(de_DemoTokenHash), d.(de_RequestID))
      (mkDemoRow d.(de_ClientIP)
         (if String.eqb d.(de_WindowDate) "" then x.2.1 else d.(de_WindowDate))
         (if d.(de_TotalTokens) =? 0 then x.2.2 else d.(de_TotalTokens))
         (or_now d.(de_CreatedAt) settledAt))).

(** The guarded single-row updates: refund, expiry, stale hold. *)
Definition update_active (s : Store) (k : RequestKey) (p : Reservation -> bool)
    (h : Reservation -> Reservation) : Store * result unit :=
  match s.(quota_reservations) !! k with
  | Some r =>
      if (is_active r && p r)%bool
      then (with_reservations s (<[k := h r]> s.(quota_reservations)), Ok tt)
      else (s, Err ErrReservationNotFound)
  | None => (s, Err ErrReservationNotFound)
  end.

(** [refundedAt] is in Unix seconds. *)
Definition RefundReservation (s : Store) (k : RequestKey) (refundedAt : Z) : Store * result unit :=
  update_active s k (fun _ => true) (close_reservation refunded 0 (refundedAt * second)).
Definition ExpireReservation (s : Store) (k : RequestKey) (expiredAt clock : Z) : Store * result unit :=
  update_active s k (fun _ => true) (close_reservation expired 0 (or_now expiredAt clock)).
Definition MarkReservationStaleHeld (s : Store) (k : RequestKey) (staleAt clock : Z) : Store * result unit :=
  update_active s k settlement_hold (fun r => set_hold (close_reservation stale_held 0 (or_now staleAt clock) r)).

Definition MarkReservationSettlementHold (s : Store) (k : RequestKey) : Store * result unit :=
  commit s (let? r := active_reservation s k in
            Ok (with_reservations s (<[k := set_hold r]> s.(quota_reservations)))).

(** [ClampReservationExpiry]: the expiry only moves earlier, and the hold is set. *)
Definition ClampReservationExpiry (s : Store) (k : RequestKey) (expiresAt : Z) : Store * result unit :=
  commit s (
    let? _ := require (negb (IsZero expiresAt)) (ErrOther "reservation expiry cannot be zero") in
    match s.(quota_reservations) !! k with
    | Some r =>
        if is_active r then
          let? _ := require (negb (IsZero r.(expires_at))) (ErrOther "reservation expiry is invalid") in
          let newExpiry := if expiresAt <? r.(expires_at) then expiresAt else r.(expires_at) in
          Ok (with_reservations s (<[k := set_expiry newExpiry r]> s.(quota_reservations)))
        else Err ErrReservationNotFound
    | None => Err ErrReservationNotFound
    end).

(** [DeleteTerminalQuotaReservations]; the empty [settled_at] sorts before every text. *)
Definition deletable (before : Z) (r : Reservation) : bool :=
  bool_decide (r.(status) = expired \/ r.(status) = settled \/ r.(status) = refunded)
  && match r.(settled_at) with Some t => text_ltb t before | None => true end.
Definition DeleteTerminalQuotaReservations (s : Store) (before : Z) : Store * result Z :=
  if IsZero before then (s, Err (ErrOther "before time must be non-zero"))
  else
    let kept := filter (fun kr => deletable before kr.2 = false) s.(quota_reservations) in
    (with_reservations s kept,
     Ok (Z.of_nat (size s.(quota_reservations)) - Z.of_nat (size kept))).

Record ActiveReservation := mkActive {
  ar_AccountID : string;
  ar_RequestID : string;
  ar_WindowDate : string;
  ar_ReservedTokens : Z;
  ar_ExpiresAt : Z;
  ar_CreatedAt : Z;
}.

Definition held (r : Reservation) : bool := is_active r && r.(settlement_hold).

(** [ORDER BY expires_at, created_at]; what SQL leaves open for equal keys is the
    order [scan] in which the rows are read. *)
Definition held_before (a b : ActiveReservation) : bool :=
  if text_ltb a.(ar_ExpiresAt) b.(ar_ExpiresAt) then true
  else text_leb a.(ar_ExpiresAt) b.(ar_ExpiresAt) && text_leb a.(ar_CreatedAt) b.(ar_CreatedAt).
Fixpoint insert_held (a : ActiveReservation) (l : list ActiveReservation) : list ActiveReservation :=
  match l with
  | [] => [a]
  | b :: l' => if held_before a b then a :: l else b :: insert_held a l'
  end.
Definition as_active (kr : RequestKey * Reservation) : ActiveReservation :=
  mkActive kr.1.1 kr.1.2 kr.2.(window_date) kr.2.(reserved_tokens) kr.2.(expires_at) kr.2.(created_at).

Definition ListSettlementHeldReservations (scan : gmap RequestKey Reservation -> list (RequestKey * Reservation))
    (s : Store) (limit : Z) : list ActiveReservation :=
  let limit := if limit <=? 0 then 100 else limit in
  let limit := if 500 <? limit then 500 else limit in
  firstn (Z.to_nat limit)
    (foldr insert_held [] (map as_active (List.filter (fun kr => held kr.2) (scan s.(quota_reservations))))).

(** ** Usage events *)

Record UsageEvent := mkUsageEvent {
  ue_RequestID : string;
  ue_AccountID : string;
  ue_DemoIdentity : string;
  ue_WindowDate : string;
  ue_PromptTokens : Z;
  ue_CompletionTokens : Z;
  ue_TotalTokens : Z;
  ue_TokenSource : string;
  ue_Outcome : string;
  ue_CreatedAt : Z;
}.

Definition event_key (e : UsageEvent) : RequestKey := (e.(ue_AccountID), e.(ue_RequestID)).
Definition event_row (e : UsageEvent) (total createdAt : Z) : UsageRow :=
  mkUsageRow e.(ue_DemoIdentity) e.(ue_WindowDate) e.(ue_PromptTokens) e.(ue_CompletionTokens) total
    e.(ue_TokenSource) e.(ue_Outcome) createdAt.

(** [insertUsageEventExec]: the store and the affected rows. *)
Definition insertUsageEventExec (s : Store) (e : UsageEvent) (idempotent : bool) (clock : Z)
    : result (Store * Z) :=
  let? total := checked_total e.(ue_PromptTokens) e.(ue_CompletionTokens) e.(ue_TotalTokens) in
  let row := event_row e total (or_now e.(ue_CreatedAt) clock) in
  if idempotent then Ok (insert_usage_or_ignore s (event_key e) row)
  else let? s' := insert_usage s (event_key e) row in Ok (s', 1).

Definition InsertUsageEvent (s : Store) (e : UsageEvent) (clock : Z) : Store * result unit :=
  commit s (let? x := insertUsageEventExec s e false clock in Ok x.1).

(** The columns [EnsureUsageEvent] compares with an existing row. *)
Definition same_payload (e : UsageEvent) (total : Z) (r : UsageRow) : bool :=
  String.eqb r.(demo_identity) e.(ue_DemoIdentity) && String.eqb r.(usage_window) e.(ue_WindowDate)
  && (r.(prompt_tokens) =? e.(ue_PromptTokens)) && (r.(completion_tokens) =? e.(ue_CompletionTokens))
  && (r.(total_tokens) =? total) && String.eqb r.(token_source) e.(ue_TokenSource)
  && String.eqb r.(outcome) e.(ue_Outcome).

Definition with_total (e : UsageEvent) (total : Z) : UsageEvent :=
  mkUsageEvent e.(ue_RequestID) e.(ue_AccountID) e.(ue_DemoIdentity) e.(ue_WindowDate) e.(ue_PromptTokens)
    e.(ue_CompletionTokens) total e.(ue_TokenSource) e.(ue_Outcome) e.(ue_CreatedAt).

Definition EnsureUsageEvent (s : Store) (e : UsageEvent) (clock : Z) : Store * result unit :=
  let e := if e.(ue_TotalTokens) =? 0
           then with_total e (Int64.add e.(ue_PromptTokens) e.(ue_CompletionTokens)) else e in
  match insertUsageEventExec s e true clock with
  | Err err => (s, Err err)
  | Ok (s', affected) =>
      if 0 <? affected then (s', Ok tt)
      else match s'.(usage_events) !! event_key e with
           | None => (s', Err (ErrOther "sql: no rows in result set"))
           | Some r => (s', if same_payload e e.(ue_TotalTokens) r then Ok tt else Err ErrUsageEventConflict)
           end
  end.

Definition EnsureDemoUsageEvent (s : Store) (d : DemoUsageEvent) (clock : Z) : Store * result unit :=
  (match insert_demo s (d.(de_DemoTokenHash), d.(de_RequestID))
           (mkDemoRow d.(de_ClientIP) d.(de_WindowDate) d.(de_TotalTokens) (or_now d.(de_CreatedAt) clock)) with
   | Ok s' => s'
   | Err _ => s
   end, Ok tt).

(** ** Concurrency slots *)

Record ConcurrencyRequest := mkConcurrency {
  cr_AccountID : string;
  cr_RequestID : string;
  cr_Limit : Z;
  cr_ExpiresAt : Z;
  cr_CreatedAt : Z;
}.
Record ConcurrencyDecision := mkConcDecision { cd_Admitted : bool; cd_Limit : Z; cd_Active : Z }.

Definition slot_live (acct : string) (now : Z) (k : RequestKey) (r : Slot) : bool :=
  String.eqb k.1 acct && bool_decide (r.(slot_status) = slot_active) && text_ltb now r.(slot_expires).

Definition expire_slots (acct : string) (now : Z) (m : gmap RequestKey Slot) : gmap RequestKey Slot :=
  map_imap (fun k r => Some (
    if (String.eqb k.1 acct && bool_decide (r.(slot_status) = slot_active) && text_leb r.(slot_expires) now)%bool
    then mkSlot slot_expired r.(slot_expires) r.(slot_created) (Some now) else r)) m.

Definition live_slots (acct : string) (now : Z) (m : gmap RequestKey Slot) : Z :=
  sum_map (fun k r => if slot_live acct now k r then 1 else 0) m.

(** [AcquireConcurrency]: a refusal commits the expiries it made. *)
Definition AcquireConcurrency (s : Store) (req : ConcurrencyRequest) (clock : Z)
    : Store * (ConcurrencyDecision * option StoreError) :=
  let createdAt := or_now req.(cr_CreatedAt) clock in
  let expiresAt := if IsZero req.(cr_ExpiresAt) then createdAt + 600 * second else req.(cr_ExpiresAt) in
  let slots := expire_slots req.(cr_AccountID) createdAt s.(concurrency_reservations) in
  let n := live_slots req.(cr_AccountID) createdAt slots in
  if req.(cr_Limit) <=? n then
    (with_slots s slots, (mkConcDecision false req.(cr_Limit) n, Some ErrQuotaExceeded))
  else
    let key := (req.(cr_AccountID), req.(cr_RequestID)) in
    match slots !! key with
    | Some _ => (s, (mkConcDecision false 0 0, Some (ErrOther "UNIQUE constraint failed")))
    | None => (with_slots s (<[key := mkSlot slot_active expiresAt createdAt None]> slots),
               (mkConcDecision true req.(cr_Limit) (n + 1), None))
    end.

Definition ReleaseConcurrency (s : Store) (k : RequestKey) (releasedAt clock : Z) : Store :=
  match s.(concurrency_reservations) !! k with
  | Some r =>
      if bool_decide (r.(slot_status) = slot_active)
      then with_slots s (<[k := mkSlot slot_released r.(slot_expires) r.(slot_created)
                                  (Some (or_now releasedAt clock))]> s.(concurrency_reservations))
      else s
  | None => s
  end.

(** ** Operations as steps *)

Inductive QuotaOp :=
  | OpReserve (req : ReservationRequest) (clock : Z)
  | OpSettle (t : ReservationSettlement) (clock : Z)
  | OpSettleDemo (t : ReservationSettlement) (d : DemoUsageEvent) (clock : Z)
  | OpRefund (k : RequestKey) (at_ : Z)
  | OpExpire (k : RequestKey) (at_ clock : Z)
  | OpStaleHeld (k : RequestKey) (at_ clock : Z)
  | OpHold (k : RequestKey)
  | OpClamp (k : RequestKey) (e : Z)
  | OpReap (now clock : Z)
  | OpDelete (before : Z)
  | OpInsertUsage (e : UsageEvent) (clock : Z)
  | OpEnsureUsage (e : UsageEvent) (clock : Z)
  | OpEnsureDemo (d : DemoUsageEvent) (clock : Z)
  | OpAcquire (req : ConcurrencyRequest) (clock : Z)
  | OpRelease (k : RequestKey) (at_ clock : Z).

Definition run_op (s : Store) (op : QuotaOp) : Store :=
  match op with
  | OpReserve req c => (ReserveQuota s req c).1
  | OpSettle t c => (SettleReservation s t c).1
  | OpSettleDemo t d c => (SettleDemoReservation s t d c).1
  | OpRefund k a => (RefundReservation s k a).1
  | OpExpire k a c => (ExpireReservation s k a c).1
  | OpStaleHeld k a c => (MarkReservationStaleHeld s k a c).1
  | OpHold k => (MarkReservationSettlementHold s k).1
  | OpClamp k e => (ClampReservationExpiry s k e).1
  | OpReap n c => ReapExpiredReservations s n c
  | OpDelete b => (DeleteTerminalQuotaReservations s b).1
  | OpInsertUsage e c => (InsertUsageEvent s e c).1
  | OpEnsureUsage e c => (EnsureUsageEvent s e c).1
  | OpEnsureDemo d c => (EnsureDemoUsageEvent s d c).1
  | OpAcquire r c => (AcquireConcurrency s r c).1
  | OpRelease k a c => ReleaseConcurrency s k a c
  end.

(** What an operation can do to the reservations and the usage rows. [touch]es keep
    an active reservation active and its tokens; a [cancel] closes it unbilled. *)
Definition touched (r r' : Reservation) : Prop :=
  r'.(window_date) = r.(window_date) /\ r'.(reserved_tokens) = r.(reserved_tokens)
  /\ r'.(settled_tokens) = r.(settled_tokens) /\ r'.(status) = r.(status).
Definition cancelled (r r' : Reservation) : Prop :=
  r'.(window_date) = r.(window_date) /\ r'.(reserved_tokens) = r.(reserved_tokens)
  /\ r'.(settled_tokens) = 0 /\ r'.(status) <> active /\ r'.(status) <> settled.

Inductive effect (s : Store) : Store -> Prop :=
  | eff_none s' : s'.(quota_reservations) = s.(quota_reservations) ->
      s'.(usage_events) = s.(usage_events) -> effect s s'
  | eff_update k r r' : s.(quota_reservations) !! k = Some r -> r.(status) = active ->
      touched r r' \/ cancelled r r' ->
      effect s (with_reservations s (<[k := r']> s.(quota_reservations)))
  | eff_reap now : effect s (reapExpiredReservationsTx s now now)
  | eff_delete before : effect s (with_reservations s
      (filter (fun kr => deletable before kr.2 = false) s.(quota_reservations)))
  | eff_reserve k r : s.(quota_reservations) !! k = None -> r.(status) = active ->
      r.(settled_tokens) = 0 -> 0 <= r.(reserved_tokens) ->
      effect s (with_reservations s (<[k := r]> s.(quota_reservations)))
  | eff_settle s' k r u at_ : s.(quota_reservations) !! k = Some r -> r.(status) = active ->
      s.(usage_events) !! k = None -> usage_row_checks u = true ->
      u.(usage_window) = r.(window_date) ->
      s'.(quota_reservations) = <[k := close_reservation settled u.(total_tokens) at_ r]> s.(quota_reservations) ->
      s'.(usage_events) = <[k := u]> s.(usage_events) -> effect s s'
  | eff_usage k u : s.(usage_events) !! k = None -> usage_row_checks u = true ->
      effect s (with_usage s (<[k := u]> s.(usage_events))).

Lemma is_active_status r : is_active r = true -> r.(status) = active.
Proof. apply bool_decide_eq_true_1. Qed.

Lemma with_reservations_id s : with_reservations s s.(quota_reservations) = s.
Proof. by destruct s. Qed.

Lemma effect_refl s : effect s s.
Proof. by apply eff_none. Qed.

Lemma update_active_effect s k p h :
  (forall r, touched r (h r) \/ cancelled r (h r)) -> effect s (update_active s k p h).1.
Proof.
  intros Hh. unfold update_active. destruct (_ !! k) as [r|] eqn:Hk; [|apply effect_refl].
  destruct (is_active r) eqn:Ha; simpl; [|apply effect_refl].
  destruct (p r); [|apply effect_refl]. eapply eff_update; eauto using is_active_status.
Qed.

Lemma insert_usage_inv s k u s' :
  insert_usage s k u = Ok s' ->
  s.(usage_events) !! k = None /\ usage_row_checks u = true /\ s' = with_usage s (<[k := u]> s.(usage_events)).
Proof.
  unfold insert_usage. destruct (_ !! k); [done|]. destruct (usage_row_checks u); [|done].
  intros [= <-]. done.
Qed.

Lemma insert_demo_frame s k r s' :
  insert_demo s k r = Ok s' ->
  s'.(quota_reservations) = s.(quota_reservations) /\ s'.(usage_events) = s.(usage_events).
Proof.
  unfold insert_demo. destruct (_ !! k); [done|]. destruct (demo_row_checks r); [|done].
  by intros [= <-].
Qed.

Lemma active_reservation_inv s k r :
  active_reservation s k = Ok r -> s.(quota_reservations) !! k = Some r /\ r.(status) = active.
Proof.
  unfold active_reservation. destruct (_ !! k) as [r'|] eqn:Hk; [|done].
  destruct (is_active r') eqn:Ha; [|done]. intros [= <-]. auto using is_active_status.
Qed.

(** What a settlement transaction that does not fail has done. *)
Lemma settle_tx_inv s t at_ demo s' win total :
  settle_tx s t at_ demo = Ok (s', (win, total)) ->
  let k := (t.(st_AccountID), t.(st_RequestID)) in
  exists r, s.(quota_reservations) !! k = Some r /\ r.(status) = active /\ win = r.(window_date)
    /\ normalizeSettlementTokens t = Ok total /\ s.(usage_events) !! k = None
    /\ let u := mkUsageRow demo win t.(st_PromptTokens) t.(st_CompletionTokens) total t.(st_TokenSource)
                  t.(st_Outcome) at_ in
       usage_row_checks u = true
       /\ s' = mkStore (<[k := close_reservation settled total at_ r]> s.(quota_reservations))
                 (<[k := u]> s.(usage_events)) s.(demo_usage_events) s.(concurrency_reservations).
Proof.
  unfold settle_tx. intros H. destruct (active_reservation _ _) as [r|] eqn:Hr; [|done]. simpl in H.
  destruct (normalizeSettlementTokens t) as [n|] eqn:Hn; [|done]. simpl in H.
  destruct (insert_usage _ _ _) as [s2|] eqn:Hi; [|done]. simpl in H. simplify_eq.
  apply active_reservation_inv in Hr as [? ?]. apply insert_usage_inv in Hi as (? & ? & ->).
  exists r. by split_and!.
Qed.

Lemma settle_tx_effect s t at_ demo x : settle_tx s t at_ demo = Ok x -> effect s x.1.
Proof.
  destruct x as [s' [win total]]. intros H. apply settle_tx_inv in H as (r & ? & ? & -> & _ & ? & ? & ->).
  simpl. by eapply eff_settle.
Qed.

Lemma commit_effect s r : (forall s', r = Ok s' -> effect s s') -> effect s (commit s r).1.
Proof. intros H. destruct r; simpl; [auto|apply effect_refl]. Qed.

Lemma or_now_id now : or_now now now = now.
Proof. unfold or_now. by destruct (IsZero now). Qed.

Lemma reap_effect s now clock : effect s (reapExpiredReservationsTx s now clock).
Proof.
  pose proof (eff_reap s (or_now now clock)) as H. unfold reapExpiredReservationsTx in *.
  by rewrite or_now_id in H.
Qed.

Lemma insertUsageEventExec_effect s e b clock x :
  insertUsageEventExec s e b clock = Ok x -> effect s x.1.
Proof.
  unfold insertUsageEventExec, insert_usage_or_ignore. intros H.
  destruct (checked_total _ _ _); [|done]. simpl in H.
  destruct (insert_usage s _ _) as [s'|] eqn:Hi; destruct b; simpl in H; simplify_eq; simpl;
    try apply effect_refl; apply insert_usage_inv in Hi as (? & ? & ->); by apply eff_usage.
Qed.

Lemma reserve_effect s req clock : rtc effect s (ReserveQuota s req clock).1.
Proof.
  unfold ReserveQuota. set (tx := reapExpiredReservationsTx _ _ _).
  destruct (quota_reservations tx !! _) eqn:Hk; [apply rtc_refl|].
  destruct (dailyUsageTx tx _ _) as [[used reserved]|]; [|apply rtc_refl].
  destruct (_ <? rq_RequestedTokens req); [apply rtc_refl|].
  destruct (rq_RequestedTokens req <? 0) eqn:Hn; [apply rtc_refl|].
  eapply rtc_l; [apply reap_effect|]. apply rtc_once. simpl. apply eff_reserve; simpl; [done..|lia].
Qed.

(** Every operation but [ReserveQuota], which reaps first, is one effect. *)
Definition is_reserve (op : QuotaOp) : bool := match op with OpReserve _ _ => true | _ => false end.

Lemma op_effect s op : is_reserve op = false -> effect s (run_op s op).
Proof.
  destruct op; simpl; intros Hop; try done; clear Hop;
    unfold SettleReservation, SettleDemoReservation, RefundReservation, ExpireReservation,
      MarkReservationStaleHeld, MarkReservationSettlementHold, ClampReservationExpiry, InsertUsageEvent.
  - apply commit_effect. intros s' H. destruct (settle_tx _ _ _ _) as [x|] eqn:Hx; simpl in H; [|done].
    injection H as <-. by eapply settle_tx_effect.
  - apply commit_effect. intros s' H. destruct (settle_tx _ _ _ _) as [[s1 [w n]]|] eqn:Hx; simpl in H; [|done].
    apply settle_tx_inv in Hx as (r & ? & ? & -> & _ & ? & ? & ->).
    apply insert_demo_frame in H as [Hr Hu]. by eapply eff_settle.
  - apply update_active_effect. intros r. right. by split_and!.
  - apply update_active_effect. intros r. right. by split_and!.
  - apply update_active_effect. intros r. right. by split_and!.
  - apply commit_effect. intros s' H. destruct (active_reservation s k) as [r|] eqn:Hr; simpl in H; [|done].
    injection H as <-. apply active_reservation_inv in Hr as [? ?]. eapply eff_update; [done..|].
    left. by split_and!.
  - apply commit_effect. intros s' H. destruct (require _ _); simpl in H; [|done].
    destruct (_ !! k) as [r|] eqn:Hk; [|done]. destruct (is_active r) eqn:Ha; [|done].
    destruct (require _ _); simpl in H; [|done]. injection H as <-.
    eapply eff_update; [done|by apply is_active_status|]. left. by split_and!.
  - apply reap_effect.
  - unfold DeleteTerminalQuotaReservations. destruct (IsZero before); [apply effect_refl|]. apply eff_delete.
  - apply commit_effect. intros s' H. destruct (insertUsageEventExec _ _ _ _) as [x|] eqn:Hx; simpl in H; [|done].
    injection H as <-. by eapply insertUsageEventExec_effect.
  - unfold EnsureUsageEvent. destruct (insertUsageEventExec _ _ _ _) as [[s' n]|] eqn:Hx; [|apply effect_refl].
    apply insertUsageEventExec_effect in Hx. destruct (0 <? n); [done|]. by destruct (_ !! _).
  - unfold EnsureDemoUsageEvent. destruct (insert_demo _ _ _) as [s'|] eqn:Hd; [|apply effect_refl].
    apply insert_demo_frame in Hd as [? ?]. by apply eff_none.
  - unfold AcquireConcurrency. destruct (_ <=? _); [by apply eff_none|]. destruct (_ !! _); by apply eff_none.
  - unfold ReleaseConcurrency. destruct (_ !! k); [|by apply eff_none]. destruct (bool_decide _); by apply eff_none.
Qed.

Lemma run_op_effect s op : rtc effect s (run_op s op).
Proof.
  destruct (is_reserve op) eqn:E; [|by apply rtc_once, op_effect].
  destruct op; try done. apply reserve_effect.
Qed.

(** ** The billing invariant *)

(** A reservation is settled exactly by the usage row of its request, for the
    tokens and the window of that row; in any other status it has billed nothing. *)
Definition reservation_ok (u : gmap RequestKey UsageRow) (k : RequestKey) (r : Reservation) : Prop :=
  0 <= r.(reserved_tokens) /\
  if bool_decide (r.(status) = settled)
  then exists row, u !! k = Some row /\ row.(total_tokens) = r.(settled_tokens)
                   /\ row.(usage_window) = r.(window_date)
  else r.(settled_tokens) = 0.

Record quota_ok (s : Store) : Prop := mkQuotaOk {
  qo_reservations : map_Forall (reservation_ok s.(usage_events)) s.(quota_reservations);
  qo_usage : map_Forall (fun _ u => usage_row_checks u = true) s.(usage_events);
}.

Lemma reservation_ok_mono u u' k r : u ⊆ u' -> reservation_ok u k r -> reservation_ok u' k r.
Proof.
  intros Hs [H1 H2]. split; [done|]. destruct (bool_decide _); [|done].
  destruct H2 as (row & ? & ?). exists row. split; [by eapply lookup_weaken|done].
Qed.

Lemma update_reservation_ok u k r r' :
  reservation_ok u k r -> r.(status) = active -> touched r r' \/ cancelled r r' -> reservation_ok u k r'.
Proof.
  unfold reservation_ok. intros [Hr Hs] Ha Hu. rewrite Ha in Hs.
  destruct Hu as [(_ & -> & -> & ->)|(_ & -> & -> & Ht & Hs')]; [by rewrite Ha|].
  by rewrite bool_decide_eq_false_2.
Qed.

Lemma reap_row_ok u k now r :
  reservation_ok u k r ->
  reservation_ok u k (if reapable now r then close_reservation expired 0 now r else r).
Proof.
  intros Hr. unfold reapable. destruct (is_active r) eqn:Ha; [simpl|done].
  destruct (_ && _)%bool; [|done].
  eapply update_reservation_ok; [done|by apply is_active_status|right; by split_and!].
Qed.

Lemma effect_ok s s' : effect s s' -> quota_ok s -> quota_ok s'.
Proof.
  intros He [Hr Hu]. destruct He as [s' E1 E2|k r r' Hk Ha Hc|now|before|k r Hk Ha Hz Hn|s' k r u at_ Hk Ha Hf Hch Hw E1 E2|k u Hf Hch].
  - split; rewrite ?E1, ?E2; done.
  - split; [|done]. apply map_Forall_insert_2; [|done]. eapply update_reservation_ok; eauto.
  - split; [|done]. intros k r' Hk. simpl in Hk. rewrite lookup_fmap in Hk.
    destruct (_ !! k) as [r|] eqn:E; simplify_eq/=. apply reap_row_ok. by apply Hr.
  - split; [|done]. intros k r Hk. simpl in Hk. apply map_lookup_filter_Some in Hk as [Hk _]. by apply Hr.
  - split; [|done]. apply map_Forall_insert_2; [|done]. split; [done|]. by rewrite Ha.
  - split; rewrite ?E1, ?E2; [|by apply map_Forall_insert_2].
    apply map_Forall_insert_2.
    + split; [apply (Hr _ _ Hk)|]. simpl. exists u. by rewrite lookup_insert_eq.
    + intros k' r' Hk'. eapply reservation_ok_mono; [by apply insert_subseteq|by apply Hr].
  - split; simpl; [|by apply map_Forall_insert_2]. intros k' r' Hk'.
    eapply reservation_ok_mono; [by apply insert_subseteq|by apply Hr].
Qed.

Lemma effects_ok s s' : rtc effect s s' -> quota_ok s -> quota_ok s'.
Proof. induction 1; eauto using effect_ok. Qed.

Lemma empty_store_ok : quota_ok empty_store.
Proof. split; apply map_Forall_empty. Qed.

Definition run_ops (s : Store) (ops : list QuotaOp) : Store := fold_left run_op ops s.

Lemma run_ops_effect s ops : rtc effect s (run_ops s ops).
Proof.
  revert s. induction ops as [|op ops IH]; intros s; simpl; [apply rtc_refl|].
  etrans; [apply run_op_effect|apply IH].
Qed.

(** Billing is append-only, and a closed reservation is final until it is deleted. *)
Lemma effect_usage s s' : effect s s' -> s.(usage_events) ⊆ s'.(usage_events).
Proof.
  intros []; simpl; try done.
  - by rewrite H0.
  - rewrite H5. by apply insert_subseteq.
  - by apply insert_subseteq.
Qed.

Lemma effects_usage s s' : rtc effect s s' -> s.(usage_events) ⊆ s'.(usage_events).
Proof. induction 1; [done|]. etrans; [by apply effect_usage|done]. Qed.

(** ** The quota *)

(** What a window of an account has used or has reserved. *)
Definition demand (s : Store) (acct win : string) : Z := used_sum s acct win + reserved_sum s acct win.

(** The reserved part of one reservation. *)
Definition counted (acct win : string) (k : RequestKey) (r : Reservation) : Z :=
  if (String.eqb k.1 acct && String.eqb r.(window_date) win && is_active r)%bool
  then r.(reserved_tokens) else 0.
Definition billed (acct win : string) (k : RequestKey) (u : UsageRow) : Z :=
  if (String.eqb k.1 acct && String.eqb u.(usage_window) win)%bool then u.(total_tokens) else 0.

Lemma counted_update acct win k r r' :
  0 <= r.(reserved_tokens) -> touched r r' \/ cancelled r r' -> counted acct win k r' <= counted acct win k r.
Proof.
  unfold counted, is_active. intros Hn [(-> & -> & _ & ->)|(-> & -> & _ & Ht & _)]; [done|].
  rewrite (bool_decide_eq_false_2 (status r' = active)) by done. rewrite andb_false_r. split_ifs; lia.
Qed.

Lemma counted_closed acct win k r : r.(status) <> active -> counted acct win k r = 0.
Proof.
  intros. unfold counted, is_active. rewrite bool_decide_eq_false_2 by done. by rewrite andb_false_r.
Qed.

(** The summand of the demand of one request. *)
Lemma demand_sums s acct win :
  demand s acct win = sum_map (billed acct win) s.(usage_events) + sum_map (counted acct win) s.(quota_reservations).
Proof. done. Qed.

Lemma counted_nonneg u acct win k r : reservation_ok u k r -> 0 <= counted acct win k r.
Proof. intros [? _]. unfold counted. split_ifs; lia. Qed.

Lemma reap_demand s now clock acct win :
  quota_ok s -> demand (reapExpiredReservationsTx s now clock) acct win <= demand s acct win.
Proof.
  intros [Hr _]. rewrite !demand_sums. simpl. apply Z.add_le_mono_l, sum_map_fmap_le.
  intros k r Hk. destruct (reapable _ r) eqn:Ha; [|done]. apply counted_update; [by apply (Hr k r)|].
  right. by split_and!.
Qed.

(** Everything but a new reservation and a new bill lowers the demand at most. *)
Definition quiet (s s' : Store) : Prop :=
  (forall k u, s'.(usage_events) !! k = Some u -> s.(usage_events) !! k = Some u)
  /\ forall k, s.(quota_reservations) !! k = None -> s'.(quota_reservations) !! k = None.

Lemma quiet_demand s s' acct win : effect s s' -> quota_ok s -> quiet s s' -> demand s' acct win <= demand s acct win.
Proof.
  intros He Hok [Hu Hq]. destruct He as [s' E1 E2|k r r' Hk Ha Hc|now|before|k r Hk Ha Hz Hn|s' k r u at_ Hk Ha Hf Hch Hw E1 E2|k u Hf Hch].
  - rewrite !demand_sums, E1, E2. done.
  - rewrite !demand_sums. simpl. rewrite (sum_map_update _ _ _ _ _ Hk).
    pose proof (counted_update acct win k r r' ltac:(by apply (qo_reservations _ Hok k r)) Hc). lia.
  - by apply reap_demand.
  - rewrite !demand_sums. simpl. apply Z.add_le_mono_l, sum_map_filter_le. intros k r Hk.
    eapply counted_nonneg. by apply (qo_reservations _ Hok).
  - specialize (Hq k Hk). simpl in Hq. by rewrite lookup_insert_eq in Hq.
  - specialize (Hu k u). rewrite E2, lookup_insert_eq in Hu. by rewrite Hu in Hf.
  - specialize (Hu k u). simpl in Hu. rewrite lookup_insert_eq in Hu. by rewrite Hu in Hf.
Qed.

(** The settlement of a request replaces its reservation by its bill. *)
Lemma settle_demand s t at_ demo x acct win r :
  settle_tx s t at_ demo = Ok x -> quota_ok s ->
  s.(quota_reservations) !! (t.(st_AccountID), t.(st_RequestID)) = Some r ->
  (t.(st_AccountID) = acct -> x.2.2 <= r.(reserved_tokens)) ->
  demand x.1 acct win <= demand s acct win.
Proof.
  destruct x as [s' [w n]]. intros Hx Hok Hr Hn.
  apply settle_tx_inv in Hx as (r' & Hr' & Ha & -> & _ & Hf & _ & ->). simpl in Hn. simplify_eq.
  rewrite !demand_sums. cbn [fst usage_events quota_reservations].
  rewrite (sum_map_update _ _ _ _ _ Hr'), sum_map_insert by done.
  rewrite (counted_closed acct win _ (close_reservation settled _ _ _)) by done.
  match goal with |- ?b + _ + (_ - ?c + 0) <= _ => enough (b <= c) by lia end.
  unfold billed, counted, is_active. rewrite Ha. simpl. rewrite andb_true_r.
  destruct (String.eqb _ acct) eqn:E; simpl; [|done]. bool_hyps. specialize (Hn E). by split_ifs.
Qed.

(** What the callers promise about account [acct] and window [win]: reservations
    are made against a quota of at most [q], and a settlement is bounded by the
    reservation it closes. The router reserves [reservationTokens] and passes the same number as the maximum of the
    settlement, as the reconciler passes the row's [ReservedTokens]. *)
Definition bounded_settlement (acct : string) (s : Store) (t : ReservationSettlement) : Prop :=
  t.(st_AccountID) = acct -> forall r,
  s.(quota_reservations) !! (t.(st_AccountID), t.(st_RequestID)) = Some r ->
  0 < t.(st_MaxTotalTokens) <= r.(reserved_tokens).

Definition disciplined (acct win : string) (q : Z) (s : Store) (op : QuotaOp) : Prop :=
  match op with
  | OpReserve req _ => req.(rq_AccountID) = acct -> req.(rq_WindowDate) = win -> 0 <= req.(rq_DailyQuota) <= q
  | OpSettle t _ | OpSettleDemo t _ _ => bounded_settlement acct s t
  | _ => True
  end.

Fixpoint disciplined_run (acct win : string) (q : Z) (s : Store) (ops : list QuotaOp) : Prop :=
  match ops with
  | [] => True
  | op :: ops => disciplined acct win q s op /\ disciplined_run acct win q (run_op s op) ops
  end.

(** What an operation bills to the window outside of a reservation: the tokens of a usage
    event whose request has no bill yet. The router writes such events for streams it could
    not settle ([chat_proxy.go]) and when it replays its journal
    ([settlement_journal_recovery.go]). *)
Definition unreserved_bill (acct win : string) (s : Store) (op : QuotaOp) : Z :=
  match op with
  | OpInsertUsage e _ | OpEnsureUsage e _ =>
      if (String.eqb e.(ue_AccountID) acct && String.eqb e.(ue_WindowDate) win)%bool then
        match s.(usage_events) !! event_key e, checked_total e.(ue_PromptTokens) e.(ue_CompletionTokens) 0 with
        | None, Ok n => Z.max 0 n
        | _, _ => 0
        end
      else 0
  | _ => 0
  end.

Fixpoint unreserved_bills (acct win : string) (s : Store) (ops : list QuotaOp) : Z :=
  match ops with
  | [] => 0
  | op :: ops => unreserved_bill acct win s op + unreserved_bills acct win (run_op s op) ops
  end.

Lemma checked_total_sum p c t n : checked_total p c t = Ok n -> checked_total p c 0 = Ok n.
Proof.
  unfold checked_total, require. intros H.
  destruct ((p <? 0) || (c <? 0) || (t <? 0))%bool eqn:E; simpl in H; [done|].
  apply orb_false_iff in E as [E _]. rewrite E. simpl.
  destruct (Int64.sub Int64.max c <? p); simpl in H |- *; [done|].
  destruct (t =? 0); [done|]. destruct (t =? _) eqn:E5; simpl in H; [|done].
  apply Z.eqb_eq in E5. congruence.
Qed.

Lemma unreserved_bill_nonneg acct win s op : 0 <= unreserved_bill acct win s op.
Proof.
  destruct op; simpl; try done; destruct (_ && _)%bool; try done;
    destruct (usage_events s !! _); try done; destruct (checked_total _ _ _); lia.
Qed.

Lemma unreserved_bills_nonneg acct win s ops : 0 <= unreserved_bills acct win s ops.
Proof.
  revert s. induction ops as [|op ops IH]; intros s; simpl; [done|].
  pose proof (unreserved_bill_nonneg acct win s op). specialize (IH (run_op s op)). lia.
Qed.

Lemma normalize_bound t total :
  normalizeSettlementTokens t = Ok total -> 0 < t.(st_MaxTotalTokens) -> total <= t.(st_MaxTotalTokens).
Proof.
  unfold normalizeSettlementTokens. intros H Hm.
  destruct (checked_total _ _ _) as [n|]; simpl in H; [|done].
  unfold require in H. destruct (negb _) eqn:Hn; simpl in H; [|done]. simplify_eq.
  apply negb_true_iff, andb_false_iff in Hn. lia.
Qed.

Lemma settle_demand_bounded s t at_ demo x acct win :
  settle_tx s t at_ demo = Ok x -> quota_ok s -> bounded_settlement acct s t ->
  demand x.1 acct win <= demand s acct win.
Proof.
  intros Hx Hok Hb. destruct x as [s' [w n]].
  destruct (settle_tx_inv _ _ _ _ _ _ _ Hx) as (r & Hr & _ & _ & Hn & _).
  eapply (settle_demand _ _ _ _ (s', (w, n))); [done..|]. intros E. simpl.
  pose proof (Hb E r Hr) as [? ?]. pose proof (normalize_bound _ _ Hn). lia.
Qed.

Lemma insert_event_demand s e b clock x acct win :
  insertUsageEventExec s e b clock = Ok x ->
  demand x.1 acct win <= demand s acct win + unreserved_bill acct win s (OpInsertUsage e clock).
Proof.
  intros H. pose proof (unreserved_bill_nonneg acct win s (OpInsertUsage e clock)) as Hp. revert H Hp.
  unfold insertUsageEventExec, insert_usage_or_ignore. simpl.
  destruct (checked_total _ _ (ue_TotalTokens e)) as [n|] eqn:Hn; [|done]. simpl.
  apply checked_total_sum in Hn as ->. intros H Hp.
  destruct (insert_usage s _ _) as [s'|] eqn:Hi; destruct b; simpl in H; simplify_eq; simpl; try lia;
    apply insert_usage_inv in Hi as (Hk & _ & ->); rewrite Hk in *; rewrite !demand_sums; simpl;
    rewrite sum_map_insert by done; unfold billed at 1; simpl in *;
    destruct (_ && _)%bool; lia.
Qed.

(** A reservation is granted within the quota only, also to a window that is above it. *)
Lemma reserve_demand s req clock acct win q b :
  quota_ok s -> demand s acct win <= b <= Int64.max -> q <= b ->
  (req.(rq_AccountID) = acct -> req.(rq_WindowDate) = win -> 0 <= req.(rq_DailyQuota) <= q) ->
  demand (ReserveQuota s req clock).1 acct win <= b.
Proof.
  intros Hok Hd Hqb Hq. unfold ReserveQuota. set (tx := reapExpiredReservationsTx _ _ _).
  assert (demand tx acct win <= demand s acct win) as Ht by by apply reap_demand.
  destruct (quota_reservations tx !! _) eqn:Hk; [simpl; lia|].
  destruct (dailyUsageTx tx _ _) as [[used reserved]|] eqn:Hu; [|simpl; lia].
  destruct (_ <? rq_RequestedTokens req) eqn:Hr; [simpl; lia|].
  destruct (rq_RequestedTokens req <? 0) eqn:Hn; [simpl; lia|]. cbn [fst].
  rewrite demand_sums. simpl. rewrite sum_map_insert by done.
  assert (demand tx acct win = sum_map (billed acct win) (usage_events tx)
    + sum_map (counted acct win) (quota_reservations tx)) as Hs by done.
  unfold counted at 1. destruct (_ && _)%bool eqn:E; [|simpl in Hs; lia].
  simpl in E. bool_hyps. subst. simpl.
  assert (quota_ok tx) as Htx by (eapply effect_ok; [apply reap_effect|done]).
  unfold dailyUsageTx, checked_sum in Hu.
  destruct (used_sum tx _ _ <=? Int64.max) eqn:E1; simpl in Hu; [|done].
  destruct (reserved_sum tx _ _ <=? Int64.max) eqn:E2; simpl in Hu; [|done]. simplify_eq.
  assert (0 <= used_sum tx (rq_AccountID req) (rq_WindowDate req)).
  { apply sum_map_nonneg. intros k u Hin. pose proof (qo_usage _ Htx k u Hin) as Hc.
    unfold usage_row_checks in Hc. bool_hyps. simpl. split_ifs; lia. }
  assert (0 <= reserved_sum tx (rq_AccountID req) (rq_WindowDate req)).
  { apply sum_map_nonneg. intros k r Hin. eapply counted_nonneg. by apply (qo_reservations _ Htx). }
  unfold demand in *. simpl in Hs. specialize (Hq eq_refl eq_refl).
  rewrite !Int64.sub_exact in Hr by (i64; rewrite ?Int64.sub_exact; i64; lia).
  change (sum_map (billed _ _) _) with (used_sum tx (rq_AccountID req) (rq_WindowDate req)).
  change (sum_map (counted _ _) _) with (reserved_sum tx (rq_AccountID req) (rq_WindowDate req)). lia.
Qed.

(** The operations that neither reserve nor bill. *)
Definition quiet_op (op : QuotaOp) : bool :=
  match op with
  | OpReserve _ _ | OpSettle _ _ | OpSettleDemo _ _ _ | OpInsertUsage _ _ | OpEnsureUsage _ _ => false
  | _ => true
  end.

Lemma update_active_quiet s k p h : quiet s (update_active s k p h).1.
Proof.
  unfold update_active. destruct (_ !! k) as [r|] eqn:Hk; [|by split].
  destruct (_ && _)%bool; [|by split]. split; [done|]. intros k' Hk'. simpl.
  rewrite lookup_insert_ne; [done|]. intros ->. by rewrite Hk in Hk'.
Qed.

Lemma commit_quiet s r :
  (forall s', r = Ok s' -> exists k x x', s.(quota_reservations) !! k = Some x
     /\ s' = with_reservations s (<[k := x']> s.(quota_reservations))) -> quiet s (commit s r).1.
Proof.
  intros H. destruct r as [s'|]; [|by split]. destruct (H _ eq_refl) as (k & x & x' & Hk & ->).
  split; [done|]. intros k' Hk'. simpl. rewrite lookup_insert_ne; [done|]. intros ->. by rewrite Hk in Hk'.
Qed.

Lemma quiet_op_quiet s op : quiet_op op = true -> quiet s (run_op s op).
Proof.
  intros Hq.
  destruct op; try done; simpl; try apply update_active_quiet.
  - apply commit_quiet. intros s' H. destruct (active_reservation s k) as [r|] eqn:Hr; simpl in H; [|done].
    injection H as <-. apply active_reservation_inv in Hr as [? ?]. eauto.
  - apply commit_quiet. intros s' H. destruct (require _ _); simpl in H; [|done].
    destruct (_ !! k) as [r|] eqn:Hk; [|done]. destruct (is_active r) eqn:Ha; [|done].
    destruct (require _ _); simpl in H; [|done]. injection H as <-. eauto.
  - split; [done|]. intros k Hk. simpl. by rewrite lookup_fmap, Hk.
  - unfold DeleteTerminalQuotaReservations. destruct (IsZero before); [by split|]. split; [done|].
    intros k Hk. simpl. apply map_lookup_filter_None_2. by left.
  - unfold EnsureDemoUsageEvent. destruct (insert_demo _ _ _) as [s'|] eqn:Hd; [|by split].
    apply insert_demo_frame in Hd as [E1 E2]. split; simpl; [by rewrite E2|by rewrite E1].
  - unfold AcquireConcurrency. destruct (_ <=? _); [by split|]. destruct (_ !! _); by split.
  - unfold ReleaseConcurrency. destruct (_ !! k); [|by split]. destruct (bool_decide _); by split.
Qed.

Lemma run_op_demand acct win q b s op :
  quota_ok s -> demand s acct win <= b <= Int64.max -> q <= b -> disciplined acct win q s op ->
  demand (run_op s op) acct win <= b + unreserved_bill acct win s op.
Proof.
  intros Hok Hd Hqb Hdis. destruct (quiet_op op) eqn:Hq.
  { pose proof (unreserved_bill_nonneg acct win s op).
    apply Z.le_trans with (demand s acct win); [|lia]. apply quiet_demand; [|done|by apply quiet_op_quiet].
    apply op_effect. by destruct op. }
  assert (forall r n, 0 <= n -> (forall s', r = Ok s' -> demand s' acct win <= demand s acct win + n) ->
    demand (commit s r).1 acct win <= b + n) as Hc.
  { intros r n Hn H. destruct r as [s'|]; simpl; [specialize (H _ eq_refl)|]; lia. }
  pose proof (unreserved_bill_nonneg acct win s op) as Hn.
  destruct op; try done; simpl in Hdis |- *.
  - rewrite Z.add_0_r. by eapply reserve_demand.
  - apply Hc; [done|]. intros s' H. destruct (settle_tx _ _ _ _) as [x|] eqn:Hx; simpl in H; [|done].
    injection H as <-. rewrite Z.add_0_r. by eapply settle_demand_bounded.
  - apply Hc; [done|]. intros s' H. destruct (settle_tx _ _ _ _) as [x|] eqn:Hx; simpl in H; [|done].
    apply insert_demo_frame in H as [E1 E2]. rewrite demand_sums, E1, E2, Z.add_0_r.
    by eapply settle_demand_bounded.
  - apply Hc; [done|]. intros s' H. destruct (insertUsageEventExec _ _ _ _) as [x|] eqn:Hx; simpl in H; [|done].
    injection H as <-. by eapply insert_event_demand in Hx.
  - simpl in Hn. unfold EnsureUsageEvent.
    destruct (insertUsageEventExec _ _ _ _) as [[s' n]|] eqn:Hx; [|simpl; lia].
    eapply (insert_event_demand _ _ _ _ _ acct win) in Hx.
    assert (demand s' acct win <= b + unreserved_bill acct win s (OpInsertUsage e clock)) as Hle.
    { unfold event_key in *. destruct (ue_TotalTokens e =? 0); simpl in Hx |- *; unfold event_key in *; simpl in Hx; lia. }
    simpl in Hle. destruct (0 <? n); [done|]. by destruct (usage_events s' !! _).
Qed.

Lemma bills_over_bound acct win q b s ops :
  quota_ok s -> demand s acct win <= b -> q <= b -> disciplined_run acct win q s ops ->
  b + unreserved_bills acct win s ops <= Int64.max ->
  demand (run_ops s ops) acct win <= b + unreserved_bills acct win s ops.
Proof.
  revert s b. induction ops as [|op ops IH]; intros s b Hok Hb Hqb Hr Hm; simpl; [lia|].
  destruct Hr as [Hop Hr]. simpl in Hm. pose proof (unreserved_bill_nonneg acct win s op).
  pose proof (unreserved_bills_nonneg acct win (run_op s op) ops).
  rewrite Z.add_assoc. apply IH; [by eapply effects_ok; [apply run_op_effect|]| |lia|done|lia].
  apply run_op_demand with q; [done|lia|done|done].
Qed.

(** Claim C16. The daily quota holds: starting from a consistent store in which a
    window of an account has used and reserved at most [q] tokens, no sequence of
    reservations against a quota of at most [q], settlements bounded by their
    reservation, refunds, expiries, holds, reaps and deletions, of usage events written
    beside the reservations, and of anything at all by other accounts, takes the used plus
    the reserved tokens above [q] and the tokens of those usage events, one bill a request
    (as long as that number is a 64-bit one, which the comparison of the code needs). *)
Theorem quota_never_exceeded (acct win : string) (q : Z) (s : Store) (ops : list QuotaOp) :
  quota_ok s -> demand s acct win <= q -> disciplined_run acct win q s ops ->
  q + unreserved_bills acct win s ops <= Int64.max ->
  demand (run_ops s ops) acct win <= q + unreserved_bills acct win s ops.
Proof.
  intros Hok Hd. apply bills_over_bound; [done|done|lia].
Qed.

(** ** Bills are final *)

(** Claim C13. In every store the operations can produce, a settled reservation has
    exactly one bill: the usage row of its request, for the settled tokens and the
    window of the reservation, and no later operation changes or removes that row;
    a reservation in any other status carries no settled tokens. *)
Theorem settled_iff_billed (ops : list QuotaOp) (k : RequestKey) (r : Reservation) :
  (run_ops empty_store ops).(quota_reservations) !! k = Some r ->
  (r.(status) = settled -> exists u, u.(total_tokens) = r.(settled_tokens)
     /\ u.(usage_window) = r.(window_date)
     /\ forall later, (run_ops (run_ops empty_store ops) later).(usage_events) !! k = Some u)
  /\ (r.(status) <> settled -> r.(settled_tokens) = 0).
Proof.
  intros Hk. assert (quota_ok (run_ops empty_store ops)) as [Hr _].
  { eapply effects_ok; [apply run_ops_effect|apply empty_store_ok]. }
  destruct (Hr _ _ Hk) as [_ H]. case_bool_decide as Hs; split; try done.
  intros _. destruct H as (u & Hu & ? & ?). exists u. split_and!; [done..|]. intros later.
  eapply lookup_weaken; [done|]. apply effects_usage, run_ops_effect.
Qed.

(** ** Concurrency *)

(** The slots of an account that are still marked active. *)
Definition account_slot (acct : string) (k : RequestKey) (r : Slot) : Z :=
  if (String.eqb k.1 acct && bool_decide (r.(slot_status) = slot_active))%bool then 1 else 0.
Definition active_slots (acct : string) (m : gmap RequestKey Slot) : Z := sum_map (account_slot acct) m.

(** What the expiry leaves active is live. *)
Lemma expire_slots_live acct now m :
  active_slots acct (expire_slots acct now m) <= live_slots acct now (expire_slots acct now m).
Proof.
  unfold active_slots, live_slots, expire_slots. rewrite !sum_map_imap. apply sum_map_mono. intros k r.
  unfold account_slot, slot_live, text_ltb.
  destruct (String.eqb k.1 acct && bool_decide (slot_status r = slot_active))%bool eqn:E; simpl.
  - destruct (text_leb (slot_expires r) now) eqn:El; simpl; [by rewrite andb_false_r|].
    by rewrite E, El.
  - by rewrite E.
Qed.

Lemma expire_slots_fewer acct acct' now m :
  active_slots acct' (expire_slots acct now m) <= active_slots acct' m.
Proof.
  unfold active_slots, expire_slots. rewrite sum_map_imap. apply sum_map_mono. intros k r.
  unfold account_slot. destruct (_ && text_leb _ _)%bool; [|done]. simpl. rewrite andb_false_r. split_ifs; lia.
Qed.

Definition slots_limited (acct : string) (limit : Z) (op : QuotaOp) : Prop :=
  match op with OpAcquire req _ => req.(cr_AccountID) = acct -> req.(cr_Limit) <= limit | _ => True end.

Lemma acquire_slots s req clock acct limit :
  (req.(cr_AccountID) = acct -> req.(cr_Limit) <= limit) ->
  active_slots acct s.(concurrency_reservations) <= limit ->
  active_slots acct (AcquireConcurrency s req clock).1.(concurrency_reservations) <= limit.
Proof.
  intros Hl Hs. unfold AcquireConcurrency. set (now := or_now _ _).
  pose proof (expire_slots_fewer (cr_AccountID req) acct now (concurrency_reservations s)).
  destruct (_ <=? _) eqn:Hn; [simpl; lia|]. destruct (_ !! _) eqn:Hk; [simpl; lia|]. simpl.
  unfold active_slots at 1. rewrite sum_map_insert by done. unfold account_slot at 1. simpl.
  rewrite andb_true_r. destruct (String.eqb _ acct) eqn:E; [bool_hyps; subst acct|unfold active_slots in *; lia].
  specialize (Hl eq_refl). pose proof (expire_slots_live (cr_AccountID req) now (concurrency_reservations s)).
  unfold active_slots in *. lia.
Qed.

Lemma settle_tx_slots s t at_ demo x :
  settle_tx s t at_ demo = Ok x -> x.1.(concurrency_reservations) = s.(concurrency_reservations).
Proof.
  destruct x as [s' [w n]]. intros H. by apply settle_tx_inv in H as (r & _ & _ & _ & _ & _ & _ & ->).
Qed.

Lemma insert_demo_slots s k r s' :
  insert_demo s k r = Ok s' -> s'.(concurrency_reservations) = s.(concurrency_reservations).
Proof.
  unfold insert_demo. destruct (_ !! k); [done|]. destruct (demo_row_checks r); [|done].
  by intros [= <-].
Qed.

Lemma insert_event_slots s e b clock x :
  insertUsageEventExec s e b clock = Ok x -> x.1.(concurrency_reservations) = s.(concurrency_reservations).
Proof.
  unfold insertUsageEventExec, insert_usage_or_ignore. intros H.
  destruct (checked_total _ _ _); [|done]. simpl in H.
  destruct (insert_usage s _ _) as [s'|] eqn:Hi; destruct b; simpl in H; simplify_eq; simpl; try done;
    by apply insert_usage_inv in Hi as (? & ? & ->).
Qed.

Lemma update_active_slots s k p h :
  (update_active s k p h).1.(concurrency_reservations) = s.(concurrency_reservations).
Proof. unfold update_active. destruct (_ !! k); [|done]. by destruct (_ && _)%bool. Qed.

Lemma commit_slots s r :
  (forall s', r = Ok s' -> s'.(concurrency_reservations) = s.(concurrency_reservations)) ->
  (commit s r).1.(concurrency_reservations) = s.(concurrency_reservations).
Proof. intros H. destruct r; simpl; auto. Qed.

Lemma other_slots s op :
  match op with OpAcquire _ _ | OpRelease _ _ _ => False | _ => True end ->
  (run_op s op).(concurrency_reservations) = s.(concurrency_reservations).
Proof.
  destruct op; intros Hop; try done; clear Hop; simpl; try apply update_active_slots;
    try (apply commit_slots; intros s' H).
  - unfold ReserveQuota. destruct (_ !! _); [done|]. destruct (dailyUsageTx _ _ _) as [[] |]; [|done].
    destruct (_ <? _); [done|]. by destruct (_ <? _).
  - destruct (settle_tx _ _ _ _) as [x|] eqn:Hx; simpl in H; [|done]. injection H as <-. by eapply settle_tx_slots.
  - destruct (settle_tx _ _ _ _) as [x|] eqn:Hx; simpl in H; [|done].
    apply insert_demo_slots in H. rewrite H. by eapply settle_tx_slots.
  - destruct (active_reservation s k); simpl in H; [|done]. by injection H as <-.
  - destruct (require _ _); simpl in H; [|done]. destruct (_ !! k); [|done]. destruct (is_active _); [|done].
    destruct (require _ _); simpl in H; [|done]. by injection H as <-.
  - unfold DeleteTerminalQuotaReservations. by destruct (IsZero before).
  - destruct (insertUsageEventExec _ _ _ _) as [x|] eqn:Hx; simpl in H; [|done]. injection H as <-.
    by eapply insert_event_slots.
  - unfold EnsureUsageEvent. destruct (insertUsageEventExec _ _ _ _) as [[s' n]|] eqn:Hx; [|done].
    apply insert_event_slots in Hx. destruct (0 <? n); [done|]. by destruct (_ !! _).
  - destruct (insert_demo _ _ _) as [s'|] eqn:Hd; [|done]. by apply insert_demo_slots in Hd.
Qed.

Lemma release_slots s k a c acct :
  active_slots acct (ReleaseConcurrency s k a c).(concurrency_reservations)
  <= active_slots acct s.(concurrency_reservations).
Proof.
  unfold ReleaseConcurrency. destruct (_ !! k) as [r|] eqn:Hk; [|done].
  destruct (bool_decide _) eqn:Ha; [|done]. simpl. unfold active_slots. rewrite (sum_map_update _ _ _ _ _ Hk).
  unfold account_slot at 2 3. simpl. rewrite andb_false_r. split_ifs; lia.
Qed.

(** The concurrency limit holds at every instant and for any clock: if
    every admission for an account asks for at most [limit] slots, the account never
    has more than [limit] slots marked active, whatever is acquired, released,
    expired and billed in between, in any order. *)
Theorem concurrency_bounded (acct : string) (limit : Z) (ops : list QuotaOp) :
  0 <= limit -> Forall (slots_limited acct limit) ops ->
  active_slots acct (run_ops empty_store ops).(concurrency_reservations) <= limit.
Proof.
  intros Hl. assert (active_slots acct empty_store.(concurrency_reservations) <= limit) as H0.
  { unfold active_slots. simpl. by rewrite sum_map_empty. }
  revert H0. generalize empty_store as s. induction ops as [|op ops IH]; intros s H0 Hops; [done|].
  apply Forall_cons in Hops as [Hop Hops]. simpl. apply IH; [|done].
  destruct op; try (rewrite other_slots; done).
  - by apply acquire_slots.
  - simpl. etrans; [apply release_slots|done].
Qed.

(** ** Reaping against the clock *)

(** A reservation is reaped at most a second early, and a held one never; past a
    second after its expiry it is always reaped. *)
Lemma reap_timing s now k r :
  s.(quota_reservations) !! k = Some r -> r.(status) = active -> IsZero now = false ->
  exists r', (ReapExpiredReservations s now now).(quota_reservations) !! k = Some r' /\
  (r'.(status) = expired -> r.(settlement_hold) = false /\ r.(expires_at) < now + second) /\
  (r.(settlement_hold) = false -> r.(expires_at) + second <= now -> r'.(status) = expired).
Proof.
  intros Hk Ha Hz. exists (if reapable now r then close_reservation expired 0 now r else r).
  unfold ReapExpiredReservations, reapExpiredReservationsTx, or_now. rewrite Hz. simpl.
  rewrite lookup_fmap, Hk. split; [done|]. unfold reapable, is_active. rewrite Ha. simpl.
  destruct (settlement_hold r); simpl; [by rewrite Ha|].
  destruct (text_leb (expires_at r) now) eqn:E; simpl.
  - split; [|done]. intros _. split; [done|]. by apply text_leb_bound.
  - split; [by rewrite Ha|]. intros _ H. by rewrite text_leb_late in E.
Qed.

(** Texts without the trailing zeros of the fraction do not sort by time: an
    expiry half a second away counts as past. *)
Example text_order_is_not_time_order :
  text_leb (1700000000 * second + 500000000) (1700000000 * second) = true.
Proof. reflexivity. Qed.

(** ** A day of one account *)
Module QuotaSample.
Definition t0 : Z := 1700000000 * second.
Definition reserve (id : string) (n : Z) : ReservationRequest :=
  mkReserve "acct" id "2023-11-14" n 100 zero_time t0.
Definition settle (id : string) (p c max : Z) : ReservationSettlement :=
  mkSettlement "acct" id p c 0 max "provider_reported" "ok" t0.
Definition ops : list QuotaOp :=
  [OpReserve (reserve "r1" 60) t0; OpReserve (reserve "r2" 60) t0; OpSettle (settle "r1" 10 20 60) t0;
   OpReserve (reserve "r3" 70) t0; OpRefund ("acct", "r3") 1700000001].
(** The day with a usage event of a request that has no reservation. *)
Definition billed_beside : list QuotaOp :=
  ops ++ [OpEnsureUsage (mkUsageEvent "r4" "acct" "" "2023-11-14" 30 70 0 "provider_reported" "ok" t0) t0].
Definition acquire (id : string) : ConcurrencyRequest := mkConcurrency "acct" id 1 zero_time t0.
End QuotaSample.

Example sample_day :
  demand (run_ops empty_store QuotaSample.ops) "acct" "2023-11-14" = 30 /\
  resetUnix "2023-11-14" = 1700006400.
Proof. vm_compute. done. Qed.

Lemma quota_never_exceeded_witness :
  demand (run_ops empty_store QuotaSample.billed_beside) "acct" "2023-11-14" = 130
  /\ unreserved_bills "acct" "2023-11-14" empty_store QuotaSample.billed_beside = 100 /\ 130 <= 100 + 100.
Proof.
  assert (unreserved_bills "acct" "2023-11-14" empty_store QuotaSample.billed_beside = 100) as Hu
    by (vm_compute; reflexivity).
  assert (demand (run_ops empty_store QuotaSample.billed_beside) "acct" "2023-11-14" = 130) as Hd
    by (vm_compute; reflexivity).
  split; [exact Hd|]. split; [exact Hu|]. rewrite <- Hd. rewrite <- Hu at 2.
  apply (quota_never_exceeded "acct" "2023-11-14" 100 empty_store QuotaSample.billed_beside).
  - apply empty_store_ok.
  - vm_compute. discriminate.
  - unfold QuotaSample.billed_beside, QuotaSample.ops. cbn [app disciplined_run disciplined]. split_and!; try exact I;
      [intros _ _; vm_compute; split; discriminate..|
       intros _ r Hr; vm_compute in Hr; injection Hr as <-; vm_compute; split; [reflexivity|discriminate]|
       intros _ _; vm_compute; split; discriminate].
  - rewrite Hu. vm_compute. discriminate.
Defined.

Lemma settled_iff_billed_witness :
  exists u, u.(total_tokens) = 30 /\
  forall later, (run_ops (run_ops empty_store QuotaSample.ops) later).(usage_events) !! ("acct", "r1") = Some u.
Proof.
  assert (exists r, (run_ops empty_store QuotaSample.ops).(quota_reservations) !! ("acct", "r1") = Some r
    /\ r.(status) = settled /\ r.(settled_tokens) = 30) as (r & Hr & Hs & Hn).
  { vm_compute. eexists. done. }
  destruct (settled_iff_billed QuotaSample.ops ("acct", "r1") r Hr) as [H _].
  destruct (H Hs) as (u & Hu & _ & Hl). exists u. split; [rewrite Hu; exact Hn|exact Hl].
Defined.

Lemma concurrency_bounded_witness :
  active_slots "acct" (run_ops empty_store
    [OpAcquire (QuotaSample.acquire "r1") 0; OpAcquire (QuotaSample.acquire "r2") 0]).(concurrency_reservations) <= 1.
Proof.
  apply (concurrency_bounded "acct" 1); [lia|]. repeat constructor; simpl; lia.
Defined.
