(* ===== verification/Journal.v ===== *)
(** * The gateway's settlement journal

    Models [phase5-gateway/internal/settlement/journal/journal.go]: an append-only
    log of money effects in segment files. An effect is written before it is
    attempted, a seal records that it reached a durable end, a quarantine that it
    cannot be driven further. A directory is a map from file names to contents; a
    method under the journal's mutex is one step, and [Prune], which runs beside the
    writers, a sequence of steps. [Scan] reduces the directory to the effects that
    still have to be driven. *)

From S2P Require Import Prelude.
From stdpp Require Import pretty.
#[local] Open Scope Z_scope.

(** ** Records *)

Definition RecordVersion : Z := 1.
Definition KindEffect : string := "effect".
Definition KindSeal : string := "seal".
Definition KindQuarantine : string := "quarantine".
Definition EffectSettle : string := "settle".
Definition SealSettled : string := "settled".
Definition SealUsageEvent : string := "usage_event".

(** Account, request and effect. *)
Abbreviation Key := (string * string * string)%type.

Record Record_ := mkRecord {
  Version : Z;
  Kind : string;
  AccountID : string;
  RequestID : string;
  Effect : string;
  WrittenAtUnixMS : Z;
  WindowDate : string;
  PromptTokens : Z;
  CompletionTokens : Z;
  TotalTokens : Z;
  MaxTotalTokens : Z;
  TokenSource : string;
  Outcome_ : string;
  DemoIdentity : string;
  DemoTokenHash : string;
  Result : string;
  Reason_ : string;
  Attempts : Z;
}.

Definition key_of (r : Record_) : Key := (r.(AccountID), r.(RequestID), r.(Effect)).

(** [WrittenAt], in nanoseconds. *)
Definition WrittenAt (r : Record_) : Z := r.(WrittenAtUnixMS) * 1000000.

Definition TokensConsistent (r : Record_) : bool :=
  if (r.(PromptTokens) <? 0) || (r.(CompletionTokens) <? 0) || (r.(TotalTokens) <? 0) then false
  else r.(TotalTokens) =? Int64.add r.(PromptTokens) r.(CompletionTokens).

(** What [append] and the writers set. *)
Definition stamp_record (nowMS : Z) (r : Record_) : Record_ :=
  mkRecord RecordVersion r.(Kind) r.(AccountID) r.(RequestID) r.(Effect)
    (if r.(WrittenAtUnixMS) =? 0 then nowMS else r.(WrittenAtUnixMS)) r.(WindowDate) r.(PromptTokens)
    r.(CompletionTokens) r.(TotalTokens) r.(MaxTotalTokens) r.(TokenSource) r.(Outcome_) r.(DemoIdentity)
    r.(DemoTokenHash) r.(Result) r.(Reason_) r.(Attempts).

Definition effect_record (r : Record_) : Record_ :=
  mkRecord r.(Version) KindEffect r.(AccountID) r.(RequestID)
    (if String.eqb r.(Effect) "" then EffectSettle else r.(Effect)) r.(WrittenAtUnixMS) r.(WindowDate)
    r.(PromptTokens) r.(CompletionTokens) r.(TotalTokens) r.(MaxTotalTokens) r.(TokenSource) r.(Outcome_)
    r.(DemoIdentity) r.(DemoTokenHash) r.(Result) r.(Reason_) r.(Attempts).

Definition seal_record (k : Key) (result : string) : Record_ :=
  mkRecord 0 KindSeal k.1.1 k.1.2 k.2 0 "" 0 0 0 0 "" "" "" "" result "" 0.
Definition quarantine_record (k : Key) (reason : string) (attempts : Z) : Record_ :=
  mkRecord 0 KindQuarantine k.1.1 k.1.2 k.2 0 "" 0 0 0 0 "" "" "" "" "" reason attempts.

(** ** The line codec

    [json.Marshal] and [json.Unmarshal] of a record. For records whose texts are
    ASCII the encoding is one line, is not blank, and decodes to the record. *)
Definition newline : ascii := ascii_of_N 10.
Definition ascii_only (s : string) : Prop := Forall (fun c => (N_of_ascii c < 128)%N) (GoStr.chars s).
Definition record_texts (r : Record_) : list string :=
  [r.(Kind); r.(AccountID); r.(RequestID); r.(Effect); r.(WindowDate); r.(TokenSource); r.(Outcome_);
   r.(DemoIdentity); r.(DemoTokenHash); r.(Result); r.(Reason_)].
Definition record_ascii (r : Record_) : Prop := Forall ascii_only (record_texts r).

Class RecordCodec := {
  marshal : Record_ -> list ascii;
  unmarshal : list ascii -> option Record_;
  marshal_line : forall r, record_ascii r ->
    (newline ∉ marshal r) /\ GoStr.TrimSpace (GoStr.of_chars (marshal r)) <> "" /\ unmarshal (marshal r) = Some r;
}.

(** ** Segments *)

Definition segmentPrefix : string := "effects-".
Definition segmentSuffix : string := ".jsonl".
Definition DefaultSegmentMaxBytes : Z := 16777216.
Definition DefaultMaxTotalBytes : Z := 536870912.

Record File := mkFile { data : list ascii; ModTime : Z }.
Abbreviation Dir := (gmap string File).

Definition segmentName_ (nowMS pid : Z) : string :=
  segmentPrefix +:+ pretty nowMS +:+ "-" +:+ pretty pid +:+ segmentSuffix.

Definition is_segment (name : string) : bool :=
  GoStr.HasPrefix name segmentPrefix && GoStr.HasSuffix name segmentSuffix.

(** The millisecond stamp of a segment name, [1<<62 - 1] when it does not parse. *)
Definition segment_stamp (name : string) : Z :=
  let trimmed := GoStr.TrimSuffix (GoStr.TrimPrefix name segmentPrefix) segmentSuffix in
  let stampRaw := match GoStr.index_byte (GoStr.chars trimmed) "-" with
                  | Some i => GoStr.of_chars (firstn i (GoStr.chars trimmed))
                  | None => trimmed
                  end in
  default (2 ^ 62 - 1) (GoStr.Atoi stampRaw).

Definition segment_before (a b : string) : bool :=
  if segment_stamp a =? segment_stamp b then String.leb a b else segment_stamp a <? segment_stamp b.
Fixpoint insert_name (a : string) (l : list string) : list string :=
  match l with
  | [] => [a]
  | b :: l' => if segment_before a b then a :: l else b :: insert_name a l'
  end.

(** [segmentNames]: oldest first. *)
Definition segmentNames (d : Dir) : list string :=
  foldr insert_name [] (List.filter is_segment (map_to_list d).*1).

Definition bytes_of (d : Dir) (name : string) : Z :=
  match d !! name with Some f => Z.of_nat (length f.(data)) | None => 0 end.
Definition dirBytes (d : Dir) : Z := sumZ (bytes_of d) (segmentNames d).

(** ** Writing *)

(** [jr_file] is the name of the open segment. *)
Record Journal := mkJournal {
  jr_dir : Dir;
  jr_segmentMaxBytes : Z;
  jr_maxTotalBytes : Z;
  jr_file : option string;
  jr_segmentName : string;
  jr_segmentBytes : Z;
  jr_totalBytes : Z;
  jr_closed : bool;
}.

Definition Open_ (d : Dir) (segmentMax maxTotal : Z) : Journal :=
  mkJournal d (if segmentMax <=? 0 then DefaultSegmentMaxBytes else segmentMax)
    (if maxTotal <=? 0 then DefaultMaxTotalBytes else maxTotal) None "" 0 (dirBytes d) false.

(** What the file system does to one append: succeed, refuse to
    create a new segment, write only the first [n] bytes and fail, or fail the
    sync after the write. *)
Inductive IoFault := IoOk | IoCreateFails | IoShort (n : nat) | IoSyncFails.
Inductive JournalError := ErrFull | ErrClosed | ErrIo.

(** [ensureSegmentLocked]; opening an existing file appends to it. *)
Definition ensureSegmentLocked (j : Journal) (need nowMS pid now : Z) : Journal :=
  if (match j.(jr_file) with Some _ => true | None => false end
      && (j.(jr_segmentBytes) + need <=? j.(jr_segmentMaxBytes)))%bool then j
  else
    let name := segmentName_ nowMS pid in
    let d := match j.(jr_dir) !! name with
             | Some _ => j.(jr_dir)
             | None => <[name := mkFile [] now]> j.(jr_dir)
             end in
    mkJournal d j.(jr_segmentMaxBytes) j.(jr_maxTotalBytes) (Some name) name (bytes_of d name)
      j.(jr_totalBytes) j.(jr_closed).

(** [j.file.Write] of the bytes that reach the disk. Bytes written to a file that has
    been unlinked are gone with it. *)
Definition write_bytes (j : Journal) (bs : list ascii) (now : Z) : Journal :=
  match j.(jr_file) with
  | None => j
  | Some name =>
      let d := match j.(jr_dir) !! name with
               | Some f => <[name := mkFile (f.(data) ++ bs) now]> j.(jr_dir)
               | None => j.(jr_dir)
               end in
      mkJournal d j.(jr_segmentMaxBytes) j.(jr_maxTotalBytes)
        j.(jr_file) j.(jr_segmentName) (j.(jr_segmentBytes) + Z.of_nat (length bs))
        (j.(jr_totalBytes) + Z.of_nat (length bs)) j.(jr_closed)
  end.

Section Codec.
Context {RC : RecordCodec}.

(** [append]: the journal and whether the caller is told it succeeded. [now] is the
    clock in nanoseconds. *)
Definition append_record (j : Journal) (r : Record_) (sync : bool) (now pid : Z) (io : IoFault)
    : Journal * (JournalError + unit) :=
  let nowMS := now / 1000000 in
  let line := marshal (stamp_record nowMS r) ++ [newline] in
  let len := Z.of_nat (length line) in
  if j.(jr_closed) then (j, inl ErrClosed)
  else if j.(jr_maxTotalBytes) <? j.(jr_totalBytes) + len then (j, inl ErrFull)
  else
    let rotates := negb (match j.(jr_file) with Some _ => true | None => false end
                         && (j.(jr_segmentBytes) + len <=? j.(jr_segmentMaxBytes)))%bool in
    match io with
    | IoCreateFails =>
        if rotates then
          (mkJournal j.(jr_dir) j.(jr_segmentMaxBytes) j.(jr_maxTotalBytes) None j.(jr_segmentName)
             j.(jr_segmentBytes) j.(jr_totalBytes) j.(jr_closed), inl ErrIo)
        else (write_bytes j line now, inr tt)
    | IoOk => (write_bytes (ensureSegmentLocked j len nowMS pid now) line now, inr tt)
    | IoShort n =>
        (write_bytes (ensureSegmentLocked j len nowMS pid now) (firstn (Nat.min n (length line - 1)) line) now, inl ErrIo)
    | IoSyncFails =>
        (write_bytes (ensureSegmentLocked j len nowMS pid now) line now, if sync then inl ErrIo else inr tt)
    end.

Definition WriteEffect (j : Journal) (fsync : bool) (r : Record_) := append_record j (effect_record r) fsync.
Definition WriteSeal (j : Journal) (k : Key) (result : string) := append_record j (seal_record k result) false.
Definition WriteQuarantine (j : Journal) (fsync : bool) (k : Key) (reason : string) (attempts : Z) :=
  append_record j (quarantine_record k reason attempts) fsync.

Definition Close_ (j : Journal) : Journal :=
  mkJournal j.(jr_dir) j.(jr_segmentMaxBytes) j.(jr_maxTotalBytes) None
    (match j.(jr_file) with Some _ => "" | None => j.(jr_segmentName) end)
    (match j.(jr_file) with Some _ => 0 | None => j.(jr_segmentBytes) end) j.(jr_totalBytes) true.

(** ** Scanning *)

Record SegmentState := mkSegment {
  sg_Name : string;
  sg_Effects : Z;
  sg_Unsealed : Z;
  sg_Quarantined : Z;
  sg_ModTime : Z;
}.

Record ScanResult := mkScan {
  Unsealed : list Record_;
  Effects : Z;
  Seals : Z;
  Quarantined : Z;
  Malformed : Z;
  TornTails : Z;
  Segments : list SegmentState;
}.

(** The variables of the reading loop; [sc_keys] are the effect keys of each
    segment, newest segment last. *)
Record ScanState := mkScanState {
  sc_sealed : gset Key;
  sc_quarantined : gset Key;
  sc_effects : gmap Key Record_;
  sc_order : list Key;
  sc_keys : list Key;
  sc_nEffects : Z;
  sc_nSeals : Z;
  sc_malformed : Z;
}.

(** One line of a segment. *)
Definition scan_record (r : Record_) (st : ScanState) : ScanState :=
  let k := key_of r in
  if String.eqb r.(Kind) KindEffect then
    mkScanState st.(sc_sealed) st.(sc_quarantined)
      (match st.(sc_effects) !! k with Some _ => st.(sc_effects) | None => <[k := r]> st.(sc_effects) end)
      (match st.(sc_effects) !! k with Some _ => st.(sc_order) | None => st.(sc_order) ++ [k] end)
      (st.(sc_keys) ++ [k]) (st.(sc_nEffects) + 1) st.(sc_nSeals) st.(sc_malformed)
  else if String.eqb r.(Kind) KindSeal then
    mkScanState ({[k]} ∪ st.(sc_sealed)) st.(sc_quarantined) st.(sc_effects) st.(sc_order) st.(sc_keys)
      st.(sc_nEffects) (st.(sc_nSeals) + 1) st.(sc_malformed)
  else if String.eqb r.(Kind) KindQuarantine then
    mkScanState st.(sc_sealed) ({[k]} ∪ st.(sc_quarantined)) st.(sc_effects) st.(sc_order) st.(sc_keys)
      st.(sc_nEffects) st.(sc_nSeals) st.(sc_malformed)
  else
    mkScanState st.(sc_sealed) st.(sc_quarantined) st.(sc_effects) st.(sc_order) st.(sc_keys)
      st.(sc_nEffects) st.(sc_nSeals) (st.(sc_malformed) + 1).

(** The record of a line of the version this build reads. *)
Definition read_line (line : list ascii) : option Record_ :=
  r ← unmarshal line; if r.(Version) =? RecordVersion then Some r else None.

Definition blank_line (line : list ascii) : bool := String.eqb (GoStr.TrimSpace (GoStr.of_chars line)) "".

Definition scan_line (st : ScanState) (line : list ascii) : ScanState :=
  if blank_line line then st
  else match read_line line with
       | Some r => scan_record r st
       | None => mkScanState st.(sc_sealed) st.(sc_quarantined) st.(sc_effects) st.(sc_order) st.(sc_keys)
                   st.(sc_nEffects) st.(sc_nSeals) (st.(sc_malformed) + 1)
       end.

(** The complete lines of a file, and whether its last line is torn. *)
Definition file_lines (bs : list ascii) : list (list ascii) := removelast (GoStr.split_on newline bs).
Definition torn (bs : list ascii) : bool :=
  match List.last (GoStr.split_on newline bs) [] with [] => false | _ => true end.

Definition start_segment (st : ScanState) : ScanState :=
  mkScanState st.(sc_sealed) st.(sc_quarantined) st.(sc_effects) st.(sc_order) [] 0 st.(sc_nSeals)
    st.(sc_malformed).

(** The loop over the segments: the state, the segments with their effect keys, and
    the totals of effects and torn tails. *)
Definition scan_segment (d : Dir) (acc : ScanState * list (SegmentState * list Key) * (Z * Z)) (name : string)
    : ScanState * list (SegmentState * list Key) * (Z * Z) :=
  let '(st, segs, (total, tails)) := acc in
  match d !! name with
  | None => acc
  | Some f =>
      let st := fold_left scan_line (file_lines f.(data)) (start_segment st) in
      (st, segs ++ [(mkSegment name st.(sc_nEffects) 0 0 f.(ModTime), st.(sc_keys))],
       (total + st.(sc_nEffects), tails + if torn f.(data) then 1 else 0))
  end.

Definition closed_key (st : ScanState) (k : Key) : bool :=
  bool_decide (k ∈ st.(sc_sealed)) || bool_decide (k ∈ st.(sc_quarantined)).

Definition count_segment (st : ScanState) (sk : SegmentState * list Key) : SegmentState :=
  mkSegment sk.1.(sg_Name) sk.1.(sg_Effects)
    (count (fun k => negb (bool_decide (k ∈ st.(sc_quarantined))) && negb (bool_decide (k ∈ st.(sc_sealed)))) sk.2)
    (count (fun k => bool_decide (k ∈ st.(sc_quarantined))) sk.2) sk.1.(sg_ModTime).

Definition scan_start : ScanState := mkScanState ∅ ∅ ∅ [] [] 0 0 0.

Definition Scan (d : Dir) : ScanResult :=
  let '(st, segs, (total, tails)) := fold_left (scan_segment d) (segmentNames d) (scan_start, [], (0, 0)) in
  mkScan
    (omap (fun k => if closed_key st k then None else st.(sc_effects) !! k) st.(sc_order))
    total st.(sc_nSeals) (Z.of_nat (size st.(sc_quarantined))) st.(sc_malformed) tails
    (map (count_segment st) segs).

(** ** Pruning *)

Definition prunable (active : string) (before : Z) (seg : SegmentState) : bool :=
  negb (String.eqb seg.(sg_Name) active || (0 <? seg.(sg_Unsealed)) || (0 <? seg.(sg_Quarantined)))
  && (seg.(sg_ModTime) <? before).

(** The conditions of the scan alone. *)
Definition removable (before : Z) (seg : SegmentState) : bool :=
  negb ((0 <? seg.(sg_Unsealed)) || (0 <? seg.(sg_Quarantined))) && (seg.(sg_ModTime) <? before).

(** One removal of [Prune]; the byte count is not below zero. *)
Definition prune_one (active : string) (before : Z) (j : Journal) (seg : SegmentState) : Journal :=
  if prunable active before seg then
    match j.(jr_dir) !! seg.(sg_Name) with
    | None => j
    | Some f =>
        mkJournal (delete seg.(sg_Name) j.(jr_dir)) j.(jr_segmentMaxBytes) j.(jr_maxTotalBytes) j.(jr_file)
          j.(jr_segmentName) j.(jr_segmentBytes)
          (Z.max 0 (j.(jr_totalBytes) - Z.of_nat (length f.(data)))) j.(jr_closed)
    end
  else j.

(** The removals after the scan; the active segment is read once, after it. *)
Definition prune_segments (j : Journal) (segs : list SegmentState) (before : Z) : Journal :=
  fold_left (prune_one j.(jr_segmentName) before) segs j.

(** [Prune] with nothing in between. *)
Definition Prune (j : Journal) (before : Z) : Journal := prune_segments j (Segments (Scan j.(jr_dir))) before.

(** [Prune] as its caller runs it, beside the writers: it holds the mutex only to read the
    active segment and to count the bytes it removed. The names are read first, then one
    segment after the other, then the active segment, and then the segments are removed one
    by one; each is a step. *)
Inductive PruneRun :=
  | PruneIdle
  | PruneScanning (before : Z) (names : list string)
      (acc : ScanState * list (SegmentState * list Key) * (Z * Z))
  | PruneScanned (before : Z) (segs : list SegmentState)
  | PruneRemoving (before : Z) (active : string) (segs : list SegmentState).

Definition prune_start (j : Journal) (before : Z) : PruneRun :=
  PruneScanning before (segmentNames j.(jr_dir)) (scan_start, [], (0, 0)).

Definition prune_next (j : Journal) (p : PruneRun) : Journal * PruneRun :=
  match p with
  | PruneIdle => (j, PruneIdle)
  | PruneScanning before (name :: names) acc => (j, PruneScanning before names (scan_segment j.(jr_dir) acc name))
  | PruneScanning before [] (st, segs, _) => (j, PruneScanned before (map (count_segment st) segs))
  | PruneScanned before segs => (j, PruneRemoving before j.(jr_segmentName) segs)
  | PruneRemoving before active (seg :: segs) => (prune_one active before j seg, PruneRemoving before active segs)
  | PruneRemoving before active [] => (j, PruneIdle)
  end.

(** ** What a scan finds *)

Definition is_effect (r : Record_) : bool := String.eqb r.(Kind) KindEffect.
Definition is_seal (r : Record_) : bool := String.eqb r.(Kind) KindSeal.
Definition is_quarantine (r : Record_) : bool := String.eqb r.(Kind) KindQuarantine.
Definition closes (k : Key) (r : Record_) : bool := (is_seal r || is_quarantine r) && bool_decide (key_of r = k).

(** The readable records of a file and of a directory. *)
Definition line_record (line : list ascii) : option Record_ := if blank_line line then None else read_line line.
Definition file_records (bs : list ascii) : list Record_ := omap line_record (file_lines bs).
Definition recorded (d : Dir) (r : Record_) : Prop :=
  exists n f, d !! n = Some f /\ is_segment n = true /\ r ∈ file_records f.(data).

Definition recorded_in (d : Dir) (n : string) (r : Record_) : Prop :=
  exists f, d !! n = Some f /\ is_segment n = true /\ r ∈ file_records f.(data).

(** The loop's variables after reading the records [rs]. *)
Record scan_inv (rs : Record_ -> Prop) (st : ScanState) : Prop := mkScanInv {
  si_sealed : forall k, k ∈ st.(sc_sealed) <-> exists r, rs r /\ is_seal r = true /\ key_of r = k;
  si_quarantined : forall k, k ∈ st.(sc_quarantined) <-> exists r, rs r /\ is_quarantine r = true /\ key_of r = k;
  si_effects : forall k r, st.(sc_effects) !! k = Some r -> rs r /\ is_effect r = true /\ key_of r = k;
  si_seen : forall r, rs r -> is_effect r = true -> is_Some (st.(sc_effects) !! key_of r);
  si_order : forall k, k ∈ st.(sc_order) <-> is_Some (st.(sc_effects) !! k);
}.

Lemma scan_inv_ext rs rs' st : (forall r, rs r <-> rs' r) -> scan_inv rs st -> scan_inv rs' st.
Proof.
  intros He [H1 H2 H3 H4 H5]. split.
  - intros k. rewrite H1. by setoid_rewrite He.
  - intros k. rewrite H2. by setoid_rewrite He.
  - intros k r Hk. rewrite <- He. by apply H3.
  - intros r Hr. apply H4. by apply He.
  - done.
Qed.

Lemma kinds_distinct r :
  (is_effect r = true -> is_seal r = false /\ is_quarantine r = false)
  /\ (is_seal r = true -> is_quarantine r = false).
Proof.
  unfold is_effect, is_seal, is_quarantine. split; [intros H|intros H]; apply String.eqb_eq in H; by rewrite H.
Qed.

(** A set of keys of read records, after one more record. *)
Lemma keys_add (S : gset Key) rs (P : Record_ -> bool) r :
  (forall k, k ∈ S <-> exists x, rs x /\ P x = true /\ key_of x = k) -> P r = true ->
  forall k, k ∈ {[key_of r]} ∪ S <-> exists x, (rs x \/ x = r) /\ P x = true /\ key_of x = k.
Proof.
  intros HS Hr k. rewrite elem_of_union, elem_of_singleton, HS. split.
  - intros [->|(x & ? & ?)]; [exists r|exists x]; auto.
  - intros (x & [Hx| ->] & ? & ?); [right; exists x|left]; auto.
Qed.

Lemma keys_skip (S : gset Key) rs (P : Record_ -> bool) r :
  (forall k, k ∈ S <-> exists x, rs x /\ P x = true /\ key_of x = k) -> P r = false ->
  forall k, k ∈ S <-> exists x, (rs x \/ x = r) /\ P x = true /\ key_of x = k.
Proof.
  intros HS Hr k. rewrite HS. split; [intros (x & ? & ?); exists x; auto|].
  intros (x & [Hx| ->] & ? & ?); [exists x; auto|congruence].
Qed.

Lemma scan_record_inv rs st r :
  scan_inv rs st -> scan_inv (fun x => rs x \/ x = r) (scan_record r st).
Proof.
  intros [H1 H2 H3 H4 H5]. destruct (kinds_distinct r) as [Ke Ks].
  unfold scan_record. fold (is_effect r) (is_seal r) (is_quarantine r).
  assert (is_effect r = false -> forall x, rs x \/ x = r -> is_effect x = true ->
    is_Some (sc_effects st !! key_of x)) as H4'.
  { intros E x [Hx| ->] Hxe; [by apply H4|congruence]. }
  assert (forall k x, sc_effects st !! k = Some x -> (rs x \/ x = r) /\ is_effect x = true /\ key_of x = k) as H3'.
  { intros k x Hx. destruct (H3 _ _ Hx) as (? & ? & ?). auto. }
  destruct (is_effect r) eqn:E1; [|destruct (is_seal r) eqn:E2; [|destruct (is_quarantine r) eqn:E3]];
    (split; simpl; [first [by apply keys_add|apply keys_skip; [done|intuition]]
                   |first [by apply keys_add|apply keys_skip; [done|intuition]]|..]); auto.
  - intros k x. destruct (sc_effects st !! key_of r) eqn:Es; [auto|].
    rewrite lookup_insert_Some. intros [[<- <-]|[_ Hx]]; auto.
  - intros x Hx Hxe. destruct (sc_effects st !! key_of r) eqn:Es.
    + destruct Hx as [Hx| ->]; [by apply H4|by rewrite Es].
    + rewrite lookup_insert_is_Some. destruct (decide (key_of r = key_of x)) as [->|Hn]; [by left|right].
      split; [done|]. destruct Hx as [Hx| ->]; [by apply H4|done].
  - intros k. destruct (sc_effects st !! key_of r) eqn:Es; [by apply H5|].
    rewrite elem_of_app, list_elem_of_singleton, H5, lookup_insert_is_Some.
    destruct (decide (key_of r = k)) as [->|Hn]; [tauto|]. split; [intros [?|?]; [auto|congruence]|].
    intros [?|[_ ?]]; [congruence|auto].
Qed.

Lemma scan_lines_inv lines rs st :
  scan_inv rs st ->
  scan_inv (fun x => rs x \/ x ∈ omap line_record lines) (fold_left scan_line lines st).
Proof.
  revert rs st. induction lines as [|l lines IH]; intros rs st H; simpl.
  { eapply scan_inv_ext; [|done]. intros r. set_solver. }
  unfold line_record at 1, scan_line at 2. destruct (blank_line l); [by apply IH|].
  destruct (read_line l) as [r|].
  - eapply scan_inv_ext; [|apply IH, scan_record_inv, H]. intros x. simpl. set_solver.
  - apply IH. by destruct H.
Qed.

(** The effect keys a segment is charged with. *)
Lemma scan_lines_keys lines st :
  sc_keys (fold_left scan_line lines st)
  = sc_keys st ++ map key_of (List.filter is_effect (omap line_record lines)).
Proof.
  revert st. induction lines as [|l lines IH]; intros st; simpl; [by rewrite app_nil_r|].
  rewrite IH. unfold line_record at 2, scan_line. destruct (blank_line l); [done|].
  destruct (read_line l) as [r|]; [|done]. simpl. unfold scan_record. fold (is_effect r).
  destruct (is_effect r); simpl; [by rewrite <- app_assoc|]. destruct (String.eqb _ _); [done|].
  by destruct (String.eqb _ _).
Qed.

Lemma insert_name_perm a l : insert_name a l ≡ₚ a :: l.
Proof.
  induction l as [|b l IH]; simpl; [done|]. destruct (segment_before a b); [done|].
  rewrite IH. apply Permutation_swap.
Qed.

Lemma segmentNames_perm d : segmentNames d ≡ₚ List.filter is_segment (map_to_list d).*1.
Proof.
  unfold segmentNames. induction (List.filter _ _) as [|a l IH]; [done|]. simpl.
  by rewrite insert_name_perm, IH.
Qed.

Lemma elem_of_segmentNames d n : n ∈ segmentNames d <-> is_Some (d !! n) /\ is_segment n = true.
Proof.
  rewrite segmentNames_perm, elem_of_List_filter, list_elem_of_fmap. split.
  - intros [([n' f] & -> & Hin) Hs]. apply elem_of_map_to_list in Hin. simpl. by rewrite Hin.
  - intros [[f Hf] Hs]. split; [|done]. exists (n, f). by rewrite elem_of_map_to_list.
Qed.

(** What the loop reads of a list of segments. *)
Definition read_from (d : Dir) (names : list string) (r : Record_) : Prop :=
  exists n f, n ∈ names /\ d !! n = Some f /\ r ∈ file_records f.(data).
Definition segment_keys (f : File) : list Key := map key_of (List.filter is_effect (file_records f.(data))).

Lemma scan_segments_inv d names rs st segs t :
  scan_inv rs st ->
  (forall sk, sk ∈ segs -> exists f, d !! sg_Name sk.1 = Some f /\ sk.2 = segment_keys f) ->
  let '(st', segs', _) := fold_left (scan_segment d) names (st, segs, t) in
  scan_inv (fun r => rs r \/ read_from d names r) st' /\
  forall sk, sk ∈ segs' -> exists f, d !! sg_Name sk.1 = Some f /\ sk.2 = segment_keys f.
Proof.
  revert rs st segs t. induction names as [|n names IH]; intros rs st segs [total tails] Hi Hs; simpl.
  { split; [|done]. eapply scan_inv_ext; [|done]. intros r. split; [auto|].
    intros [?|(n & f & Hn & _)]; [done|by apply not_elem_of_nil in Hn]. }
  destruct (d !! n) as [f|] eqn:Hn.
  - assert (scan_inv rs (start_segment st)) as Hi0 by by destruct Hi.
    apply (scan_lines_inv (file_lines f.(data))) in Hi0.
    pose proof (scan_lines_keys (file_lines f.(data)) (start_segment st)) as Hk.
    set (st1 := fold_left scan_line _ _) in *.
    specialize (IH _ st1 (segs ++ [(mkSegment n (sc_nEffects st1) 0 0 (ModTime f), sc_keys st1)])
      (total + sc_nEffects st1, tails + (if torn (data f) then 1 else 0)) Hi0).
    destruct (fold_left (scan_segment d) names _) as [[st' segs'] t'].
    destruct IH as [IH1 IH2].
    { intros sk. rewrite elem_of_app, list_elem_of_singleton. intros [Hin| ->]; [by apply Hs|].
      exists f. by rewrite Hk. }
    split; [|done]. eapply scan_inv_ext; [|done]. intros r. unfold read_from. fold (file_records (data f)).
    setoid_rewrite elem_of_cons. split.
    + intros [[?|?]|(n' & f' & ? & ? & ?)]; [auto|right; exists n, f; auto|right; exists n', f'; auto].
    + intros [?|(n' & f' & [->|?] & Hf & ?)]; [auto|left; right; congruence|right; exists n', f'; auto].
  - specialize (IH rs st segs (total, tails) Hi Hs). destruct (fold_left (scan_segment d) names _) as [[st' segs'] t'].
    destruct IH as [IH1 IH2]. split; [|done]. eapply scan_inv_ext; [|done]. intros r. unfold read_from.
    setoid_rewrite elem_of_cons. split.
    + intros [?|(n' & f' & ? & ? & ?)]; [auto|right; exists n', f'; auto].
    + intros [?|(n' & f' & [->|?] & Hf & ?)]; [auto|congruence|right; exists n', f'; auto].
Qed.

Definition open_in (d : Dir) (k : Key) : Prop := forall x, recorded d x -> closes k x = false.

Lemma closed_key_spec d st k :
  scan_inv (recorded d) st -> closed_key st k = false <-> open_in d k.
Proof.
  intros [H1 H2 _ _ _]. unfold closed_key, open_in, closes. rewrite orb_false_iff, !bool_decide_eq_false, H1, H2.
  split.
  - intros [Hs Hq] x Hx. destruct (bool_decide_reflect (key_of x = k)); [|by rewrite andb_false_r].
    rewrite andb_true_r. apply orb_false_iff. split; apply not_true_is_false; intros ?; [apply Hs|apply Hq]; eauto.
  - intros Ho. split; intros (x & Hx & Hp & He); specialize (Ho x Hx); rewrite Hp, bool_decide_eq_true_2 in Ho by done;
      rewrite ?orb_true_r in Ho; done.
Qed.

(** The re-drive queue holds, for each effect without seal or quarantine, one of its
    records; and each segment is charged with its effects that are still open. *)
Lemma scan_spec d :
  (forall r, r ∈ Unsealed (Scan d) -> recorded d r /\ is_effect r = true /\ open_in d (key_of r)) /\
  (forall r, recorded d r -> is_effect r = true -> open_in d (key_of r) ->
     exists r', r' ∈ Unsealed (Scan d) /\ key_of r' = key_of r) /\
  (forall seg, seg ∈ Segments (Scan d) -> exists f, d !! sg_Name seg = Some f /\
     forall r, r ∈ file_records f.(data) -> is_effect r = true -> open_in d (key_of r) -> 0 < sg_Unsealed seg).
Proof.
  unfold Scan. assert (scan_inv (fun _ => False) scan_start) as H0.
  { split; simpl; intros; try set_solver; try done.
    rewrite lookup_empty. split; [set_solver|]. by intros [? ?]. }
  pose proof (scan_segments_inv d (segmentNames d) _ scan_start [] (0, 0) H0) as H.
  destruct (fold_left _ _ _) as [[st segs] [total tails]]. destruct H as [Hi Hs]; [set_solver|]. simpl.
  assert (forall r, False \/ read_from d (segmentNames d) r <-> recorded d r) as Hr.
  { intros r. unfold read_from, recorded. setoid_rewrite elem_of_segmentNames. split.
    - intros [[]|(n & f & [_ ?] & ? & ?)]. exists n, f. auto.
    - intros (n & f & Hf & ? & ?). right. exists n, f. rewrite Hf. auto. }
  apply (scan_inv_ext _ _ _ Hr) in Hi. pose proof (fun k => closed_key_spec d st k Hi) as Hc.
  destruct Hi as [_ _ H3 H4 H5]. split_and!.
  - intros r Hin. apply list_elem_of_omap in Hin as (k & Hk & Hr').
    destruct (closed_key st k) eqn:E; [done|]. destruct (H3 _ _ Hr') as (? & ? & <-). split_and!; [done..|by apply Hc].
  - intros r Hrec He Ho. destruct (H4 r Hrec He) as [r' Hr']. exists r'.
    split; [|by apply (H3 _ _ Hr')]. apply list_elem_of_omap. exists (key_of r). split; [by apply H5|].
    apply Hc in Ho. by rewrite Ho.
  - intros seg Hin. apply elem_of_map in Hin as (sk & Hsk & ->). destruct (Hs _ Hsk) as (f & Hf & Ek).
    exists f. split; [done|]. intros r Hin He Ho. simpl. rewrite Ek. apply Hc in Ho.
    unfold closed_key in Ho. apply orb_false_iff in Ho as [Ho1 Ho2].
    enough (existsb (fun k => negb (bool_decide (k ∈ sc_quarantined st)) && negb (bool_decide (k ∈ sc_sealed st)))
      (segment_keys f) = true) as Hex.
    { rewrite count_zero_existsb in Hex. match goal with |- 0 < count ?p ?l => pose proof (count_nonneg p l) end.
      apply negb_true_iff in Hex. lia. }
    apply existsb_elem. exists (key_of r). rewrite Ho1, Ho2. split; [|done].
    apply elem_of_map. exists r. split; [|done]. by apply elem_of_List_filter.
Qed.

(** ** No effect is lost *)

(** Pruning keeps every record of an open effect, and adds nothing. *)
Lemma prune_segments_dir j segs before n f :
  (prune_segments j segs before).(jr_dir) !! n = Some f ->
  j.(jr_dir) !! n = Some f.
Proof.
  unfold prune_segments. generalize (jr_segmentName j) as active. intros active. revert j.
  induction segs as [|seg segs IH]; intros j; simpl; [done|]. intros H%IH. unfold prune_one in H.
  destruct (prunable _ _ seg); [|done]. destruct (jr_dir j !! _); [|done]. simpl in H.
  by apply lookup_delete_Some in H as [_ ?].
Qed.

Lemma prune_segments_kept j segs before n f :
  j.(jr_dir) !! n = Some f ->
  (forall seg, seg ∈ segs -> sg_Name seg = n -> prunable j.(jr_segmentName) before seg = false) ->
  (prune_segments j segs before).(jr_dir) !! n = Some f.
Proof.
  unfold prune_segments. generalize (jr_segmentName j) as active. intros active. revert j.
  induction segs as [|seg segs IH]; intros j Hf Hs; simpl; [done|]. apply IH.
  - unfold prune_one. destruct (prunable active before seg) eqn:Hp; [|done]. destruct (jr_dir j !! sg_Name seg) eqn:E; [|done]. simpl.
    rewrite lookup_delete_ne; [done|]. intros Hn. by rewrite (Hs seg ltac:(by left) Hn) in Hp.
  - intros seg' Hin. apply Hs. by right.
Qed.

Lemma prune_recorded j before r :
  recorded (Prune j before).(jr_dir) r -> recorded j.(jr_dir) r.
Proof. intros (n & f & Hf & ? & ?). exists n, f. split_and!; [by eapply prune_segments_dir|done..]. Qed.

(** A line added to a file without a torn tail. *)
Lemma split_on_app sep l1 l2 :
  GoStr.split_on sep (l1 ++ l2)
  = removelast (GoStr.split_on sep l1)
    ++ (List.last (GoStr.split_on sep l1) [] ++ hd [] (GoStr.split_on sep l2)) :: tl (GoStr.split_on sep l2).
Proof.
  assert (forall l, GoStr.split_on sep l = hd [] (GoStr.split_on sep l) :: tl (GoStr.split_on sep l)) as Hne.
  { intros [|x l]; simpl; [done|]. destruct (Ascii.eqb x sep); [done|]. by destruct (GoStr.split_on sep l). }
  induction l1 as [|x l1 IH]; [apply Hne|]. change ((x :: l1) ++ l2) with (x :: (l1 ++ l2)).
  simpl GoStr.split_on. rewrite IH. destruct (Ascii.eqb x sep).
  - rewrite (Hne l1). done.
  - rewrite (Hne l1) at 3 4. rewrite (Hne l1). simpl. destruct (tl (GoStr.split_on sep l1)); done.
Qed.

Lemma split_on_line sep line : sep ∉ line -> GoStr.split_on sep (line ++ [sep]) = [line; []].
Proof.
  induction line as [|x line IH]; simpl; intros Hn.
  - by rewrite Ascii.eqb_refl.
  - destruct (Ascii.eqb x sep) eqn:E; [apply Ascii.eqb_eq in E; subst; set_solver|].
    by rewrite IH by set_solver.
Qed.

Lemma append_line bs line :
  torn bs = false -> newline ∉ line ->
  file_lines (bs ++ line ++ [newline]) = file_lines bs ++ [line] /\ torn (bs ++ line ++ [newline]) = false.
Proof.
  unfold torn, file_lines. intros Ht Hl. rewrite split_on_app, split_on_line by done. simpl.
  destruct (List.last _ _); [simpl|done]. rewrite removelast_app by done. simpl. split; [done|].
  match goal with |- context [List.last (?l ++ [line; []])] =>
    change (l ++ [line; []]) with (l ++ ([line] ++ [[]])) end.
  by rewrite app_assoc, List.last_last.
Qed.

(** ** The journal's invariant *)

(** The open segment is a file of the directory, and no segment has a torn tail. *)
Record journal_ok (j : Journal) : Prop := mkJournalOk {
  jo_file : forall n, j.(jr_file) = Some n ->
    n = j.(jr_segmentName) /\ is_segment n = true /\ is_Some (j.(jr_dir) !! n);
  jo_clean : forall n f, j.(jr_dir) !! n = Some f -> is_segment n = true -> torn f.(data) = false;
}.

Lemma list_prefix_app p l : GoStr.list_prefix p (p ++ l) = true.
Proof. induction p as [|c p IH]; [done|]. simpl. by rewrite Ascii.eqb_refl. Qed.

Lemma segmentName_is_segment nowMS pid : is_segment (segmentName_ nowMS pid) = true.
Proof.
  unfold is_segment, segmentName_, GoStr.HasPrefix, GoStr.HasSuffix. apply andb_true_iff. split.
  - rewrite GoStr.chars_app. apply list_prefix_app.
  - rewrite !GoStr.chars_app, !app_assoc, rev_app_distr. apply list_prefix_app.
Qed.

Lemma ensure_segment_ok j need nowMS pid now :
  journal_ok j ->
  let j' := ensureSegmentLocked j need nowMS pid now in
  journal_ok j' /\ is_Some j'.(jr_file) /\ (forall r, recorded j'.(jr_dir) r <-> recorded j.(jr_dir) r).
Proof.
  intros [Hf Hc]. unfold ensureSegmentLocked. destruct (_ && _)%bool eqn:E.
  { split_and!; [done| |done]. destruct (jr_file j); [by eexists|done]. }
  pose proof (segmentName_is_segment nowMS pid) as Hn. set (name := segmentName_ nowMS pid) in *.
  destruct (jr_dir j !! name) as [f|] eqn:Ed; (split_and!; [|by eexists|]); simpl.
  - split; simpl; [|done]. intros n [= <-]. by rewrite Ed.
  - done.
  - split; simpl.
    + intros n [= <-]. rewrite lookup_insert_eq. by split_and!.
    + intros n f. rewrite lookup_insert_Some. intros [[<- <-]|[_ ?]]; [done|by apply Hc].
  - intros r. unfold recorded. split; intros (n & f & H1 & H2 & H3).
    + apply lookup_insert_Some in H1 as [[<- <-]|[_ ?]]; [by apply not_elem_of_nil in H3|]. by exists n, f.
    + exists n, f. rewrite lookup_insert_ne; [done|]. intros <-. congruence.
Qed.

Lemma file_records_snoc bs r :
  record_ascii r -> r.(Version) = RecordVersion -> torn bs = false ->
  file_records (bs ++ marshal r ++ [newline]) = file_records bs ++ [r]
  /\ torn (bs ++ marshal r ++ [newline]) = false.
Proof.
  intros Ha Hv Ht. destruct (marshal_line r Ha) as (Hn & Hb & Hu).
  destruct (append_line bs (marshal r) Ht Hn) as [E1 E2]. split; [|done].
  unfold file_records. rewrite E1, omap_app. f_equal. simpl. unfold line_record, blank_line, read_line.
  destruct (String.eqb _ "") eqn:E; [by apply String.eqb_eq in E|]. rewrite Hu. simpl.
  by rewrite (proj2 (Z.eqb_eq _ _) Hv).
Qed.

Lemma write_line_ok j r now :
  journal_ok j -> is_Some j.(jr_file) -> record_ascii r -> r.(Version) = RecordVersion ->
  let j' := write_bytes j (marshal r ++ [newline]) now in
  journal_ok j' /\ forall x, recorded j'.(jr_dir) x <-> recorded j.(jr_dir) x \/ x = r.
Proof.
  intros [Hf Hc] [n Hn] Ha Hv. unfold write_bytes. rewrite Hn. destruct (Hf n Hn) as (-> & Hs & [f Ed]).
  rewrite Ed. pose proof (Hc _ _ Ed Hs) as Ht. destruct (file_records_snoc (data f) r Ha Hv Ht) as [E1 E2].
  split.
  - split; simpl.
    + intros n' [= <-]. rewrite lookup_insert_eq. by split_and!.
    + intros n' f'. rewrite lookup_insert_Some. intros [[<- <-]|[_ ?]]; [done|by apply Hc].
  - intros x. unfold recorded. simpl. split.
    + intros (n' & f' & H1 & H2 & H3). apply lookup_insert_Some in H1 as [[<- <-]|[_ ?]]; [|left; by exists n', f'].
      simpl in H3. rewrite E1, elem_of_app, list_elem_of_singleton in H3.
      destruct H3 as [?| ->]; [left; by exists (jr_segmentName j), f|by right].
    + intros [(n' & f' & H1 & H2 & H3)| ->].
      * destruct (decide (jr_segmentName j = n')) as [<-|Hne].
        -- eexists _, _. rewrite lookup_insert_eq. split_and!; [done..|]. simpl. rewrite E1.
           apply elem_of_app. left. congruence.
        -- exists n', f'. by rewrite lookup_insert_ne.
      * eexists _, _. rewrite lookup_insert_eq. split_and!; [done..|]. simpl. rewrite E1.
        apply elem_of_app. right. by apply list_elem_of_singleton.
Qed.

(** One append: it may write its record, and does when it is acknowledged. *)
Definition whole (io : IoFault) : bool := match io with IoShort _ => false | _ => true end.

Lemma stamp_version nowMS r : (stamp_record nowMS r).(Version) = RecordVersion.
Proof. done. Qed.

Lemma append_ok j r sync now pid io :
  journal_ok j -> record_ascii r -> whole io = true ->
  let '(j', res) := append_record j r sync now pid io in
  journal_ok j' /\
  ((res <> inr tt /\ forall x, recorded j'.(jr_dir) x <-> recorded j.(jr_dir) x)
   \/ forall x, recorded j'.(jr_dir) x <-> recorded j.(jr_dir) x \/ x = stamp_record (now / 1000000) r).
Proof.
  intros Hj Ha Hw. unfold append_record. set (rec := stamp_record _ r).
  assert (record_ascii rec) as Har by done.
  destruct (jr_closed j); [by split; [|left]|]. destruct (_ <? _); [by split; [|left]|].
  set (len := Z.of_nat _).
  assert (let j1 := write_bytes (ensureSegmentLocked j len (now / 1000000) pid now) (marshal rec ++ [newline]) now in
    journal_ok j1 /\ forall x, recorded j1.(jr_dir) x <-> recorded j.(jr_dir) x \/ x = rec) as [H1 H2].
  { destruct (ensure_segment_ok j len (now / 1000000) pid now Hj) as (Ho & Hf & Hr).
    destruct (write_line_ok _ rec now Ho Hf Har (stamp_version _ _)) as [? Hx]. split; [done|].
    intros x. by rewrite Hx, Hr. }
  destruct io; try done.
  - split; [done|by right].
  - destruct (negb _) eqn:En.
    + split; [|by left]. destruct Hj as [Hf Hc]. by split.
    + assert (ensureSegmentLocked j len (now / 1000000) pid now = j) as E.
      { unfold ensureSegmentLocked. apply negb_false_iff in En. by rewrite En. }
      rewrite E in H1, H2. split; [done|by right].
  - split; [done|by right].
Qed.

(** ** Executions *)

Inductive JournalOp :=
  | JEffect (fsync : bool) (r : Record_) (now pid : Z) (io : IoFault)
  | JSeal (k : Key) (result : string) (now pid : Z) (io : IoFault)
  | JQuarantine (fsync : bool) (k : Key) (reason : string) (attempts now pid : Z) (io : IoFault)
  | JPrune (before : Z)
  | JPruneNext
  | JPruneFails
  | JClose
  | JRestart (segmentMax maxTotal : Z).

(** The journal and the prune under way: the passes of the recovery prune one after the
    other, and a restart ends a pass. *)
Definition journal_op (jp : Journal * PruneRun) (op : JournalOp) : Journal * PruneRun :=
  let '(j, p) := jp in
  match op with
  | JEffect fs r now pid io => ((WriteEffect j fs r now pid io).1, p)
  | JSeal k res now pid io => ((WriteSeal j k res now pid io).1, p)
  | JQuarantine fs k reason n now pid io => ((WriteQuarantine j fs k reason n now pid io).1, p)
  | JPrune before => (j, match p with PruneIdle => prune_start j before | _ => p end)
  | JPruneNext => prune_next j p
  | JPruneFails => (j, PruneIdle)
  | JClose => (Close_ j, p)
  | JRestart a b => (Open_ j.(jr_dir) a b, PruneIdle)
  end.
Definition journal_run (jp : Journal * PruneRun) (ops : list JournalOp) : Journal * PruneRun := fold_left journal_op ops jp.

(** Operations without a torn write whose texts are ASCII, and that do not seal or
    quarantine [k]. *)
Definition spares (k : Key) (op : JournalOp) : Prop :=
  match op with
  | JEffect _ r _ _ io => whole io = true /\ record_ascii (effect_record r)
  | JSeal k' res _ _ io => whole io = true /\ record_ascii (seal_record k' res) /\ k' <> k
  | JQuarantine _ k' reason n _ _ io =>
      whole io = true /\ record_ascii (quarantine_record k' reason n) /\ k' <> k
  | JPrune _ | JPruneNext | JPruneFails | JClose | JRestart _ _ => True
  end.

(** The prune under way may still remove segment [n]: it has found nothing open in it, or is
    still reading. *)
Definition endangered (n : string) (p : PruneRun) : bool :=
  match p with
  | PruneIdle => false
  | PruneScanning _ _ _ => true
  | PruneScanned before segs => existsb (fun seg => String.eqb seg.(sg_Name) n && removable before seg) segs
  | PruneRemoving before active segs => existsb (fun seg => String.eqb seg.(sg_Name) n && prunable active before seg) segs
  end.

(** The prune will not remove segment [n] as long as effect [k] in it stays open: the
    segments it has read are charged with [k]. *)
Definition harmless (k : Key) (n : string) (p : PruneRun) : Prop :=
  match p with
  | PruneScanning _ names (st, segs, _) =>
      Forall (fun m => is_segment m = true) names /\ closed_key st k = false
      /\ forall sk, sk ∈ segs -> sg_Name sk.1 = n -> k ∈ sk.2
  | _ => endangered n p = false
  end.

(** The effect [k] is open, and in segment [n]. *)
Definition pending_in (d : Dir) (n : string) (k : Key) : Prop :=
  open_in d k /\ exists r, recorded_in d n r /\ is_effect r = true /\ key_of r = k.

Lemma prune_segments_handle j segs before :
  (prune_segments j segs before).(jr_file) = j.(jr_file)
  /\ (prune_segments j segs before).(jr_segmentName) = j.(jr_segmentName).
Proof.
  unfold prune_segments. generalize (jr_segmentName j) at 1 2 as active. intros active. revert j.
  induction segs as [|seg segs IH]; intros j; simpl; [done|]. destruct (IH (prune_one active before j seg)) as [E1 E2].
  rewrite E1, E2. unfold prune_one. destruct (prunable active before seg); [|done]. by destruct (jr_dir j !! _).
Qed.

Lemma prune_ok j before : journal_ok j -> journal_ok (Prune j before).
Proof.
  intros [Hf Hc]. destruct (prune_segments_handle j (Segments (Scan (jr_dir j))) before) as [E1 E2].
  split; unfold Prune.
  - intros n. rewrite E1, E2. intros Hn. destruct (Hf n Hn) as (-> & Hs & [f Hd]). split_and!; [done..|].
    exists f. apply prune_segments_kept; [done|]. intros seg _ Hname. unfold prunable.
    by rewrite Hname, String.eqb_refl.
  - intros n f Hd. apply Hc. by eapply prune_segments_dir.
Qed.

(** What appending needs of a journal whose open segment may have been unlinked. *)
Record handle_ok (j : Journal) : Prop := mkHandleOk {
  ho_file : forall n, j.(jr_file) = Some n -> n = j.(jr_segmentName) /\ is_segment n = true;
  ho_clean : forall n f, j.(jr_dir) !! n = Some f -> is_segment n = true -> torn f.(data) = false;
}.

Lemma journal_handle j : journal_ok j -> handle_ok j.
Proof. intros [Hf Hc]. split; [|done]. intros n Hn. by destruct (Hf n Hn) as (? & ? & _). Qed.

Lemma ensure_segment_in j need nowMS pid now :
  handle_ok j ->
  let j' := ensureSegmentLocked j need nowMS pid now in
  handle_ok j' /\ forall n r, recorded_in j'.(jr_dir) n r <-> recorded_in j.(jr_dir) n r.
Proof.
  intros [Hf Hc]. unfold ensureSegmentLocked. destruct (_ && _)%bool; [done|].
  pose proof (segmentName_is_segment nowMS pid) as Hn. set (name := segmentName_ nowMS pid) in *.
  destruct (jr_dir j !! name) as [f|] eqn:Ed; (split; [split; simpl; [intros n [= <-]; done|]|]); simpl; try done.
  - intros n f. rewrite lookup_insert_Some. intros [[<- <-]|[_ ?]]; [done|by apply Hc].
  - intros n r. unfold recorded_in. split; intros (f & H1 & H2 & H3); exists f; (split_and!; [|done..]).
    + apply lookup_insert_Some in H1 as [[<- <-]|[_ ?]]; [by apply not_elem_of_nil in H3|done].
    + rewrite lookup_insert_ne; [done|]. intros <-. congruence.
Qed.

Lemma write_line_in j r now :
  handle_ok j -> record_ascii r -> r.(Version) = RecordVersion ->
  let j' := write_bytes j (marshal r ++ [newline]) now in
  handle_ok j'
  /\ (forall n x, recorded_in j.(jr_dir) n x -> recorded_in j'.(jr_dir) n x)
  /\ (forall n x, recorded_in j'.(jr_dir) n x -> recorded_in j.(jr_dir) n x \/ x = r)
  /\ (is_Some j.(jr_file) -> is_Some (j.(jr_dir) !! j.(jr_segmentName)) -> recorded_in j'.(jr_dir) j'.(jr_segmentName) r).
Proof.
  intros Hj Ha Hv. pose proof Hj as [Hf Hc]. unfold write_bytes. destruct (jr_file j) as [n|] eqn:Hn.
  2:{ split_and!; [done|auto..]. by intros [? ?]. }
  destruct (Hf n eq_refl) as [-> Hs]. destruct (jr_dir j !! jr_segmentName j) as [f|] eqn:Ed.
  2:{ split_and!; [split; simpl; [intros n [= <-]|]; done|auto..]. by intros _ [? ?]. }
  pose proof (Hc _ _ Ed Hs) as Ht. destruct (file_records_snoc (data f) r Ha Hv Ht) as [E1 E2].
  unfold recorded_in. simpl. split_and!.
  - split; simpl; [by intros n [= <-]|]. intros n' f'. rewrite lookup_insert_Some. intros [[<- <-]|[_ ?]]; [done|by apply Hc].
  - intros n x (f' & H1 & H2 & H3). destruct (decide (jr_segmentName j = n)) as [<-|Hne].
    + eexists. rewrite lookup_insert_eq. split_and!; [done..|]. simpl. rewrite E1. apply elem_of_app. left. congruence.
    + exists f'. by rewrite lookup_insert_ne.
  - intros n x (f' & H1 & H2 & H3). apply lookup_insert_Some in H1 as [[<- <-]|[_ ?]]; [|left; by exists f'].
    simpl in H3. rewrite E1, elem_of_app, list_elem_of_singleton in H3. destruct H3 as [?| ->]; [left; by exists f|by right].
  - intros _ _. eexists. rewrite lookup_insert_eq. split_and!; [done..|]. simpl. rewrite E1. set_solver.
Qed.

(** An append beside a prune: no segment loses a record, only the new one is added, and
    when it is acknowledged and the open segment is linked, it is in the open segment. *)
Lemma append_in j r sync now pid io :
  handle_ok j -> record_ascii r -> whole io = true ->
  let '(j', res) := append_record j r sync now pid io in
  handle_ok j'
  /\ (forall n x, recorded_in j.(jr_dir) n x -> recorded_in j'.(jr_dir) n x)
  /\ (forall n x, recorded_in j'.(jr_dir) n x -> recorded_in j.(jr_dir) n x \/ x = stamp_record (now / 1000000) r)
  /\ (journal_ok j -> res = inr tt -> recorded_in j'.(jr_dir) j'.(jr_segmentName) (stamp_record (now / 1000000) r)).
Proof.
  intros Hj Ha Hw. unfold append_record. set (rec := stamp_record _ r).
  assert (record_ascii rec) as Har by done.
  destruct (jr_closed j); [by split_and!; auto|]. destruct (_ <? _); [by split_and!; auto|].
  set (len := Z.of_nat _). set (j1 := ensureSegmentLocked j len (now / 1000000) pid now).
  destruct (ensure_segment_in j len (now / 1000000) pid now Hj) as [Ho Hr]. fold j1 in Ho, Hr.
  destruct (write_line_in j1 rec now Ho Har (stamp_version _ _)) as (W1 & W2 & W3 & W4).
  assert (journal_ok j -> recorded_in (write_bytes j1 (marshal rec ++ [newline]) now).(jr_dir)
    (write_bytes j1 (marshal rec ++ [newline]) now).(jr_segmentName) rec) as W5.
  { intros Hok. destruct (ensure_segment_ok j len (now / 1000000) pid now Hok) as ([Hf _] & [m Hm] & _). fold j1 in Hf, Hm.
    destruct (Hf m Hm) as (-> & _ & He). apply W4; [by eexists|done]. }
  assert (forall res : JournalError + unit, let j' := write_bytes j1 (marshal rec ++ [newline]) now in
    handle_ok j' /\ (forall n x, recorded_in j.(jr_dir) n x -> recorded_in j'.(jr_dir) n x)
    /\ (forall n x, recorded_in j'.(jr_dir) n x -> recorded_in j.(jr_dir) n x \/ x = rec)
    /\ (journal_ok j -> res = inr tt -> recorded_in j'.(jr_dir) j'.(jr_segmentName) rec)) as HW.
  { intros res. split_and!; [done|..|auto].
    - intros n x Hx. by apply W2, Hr.
    - intros n x Hx. apply W3 in Hx as [Hx| ->]; [left; by apply Hr|by right]. }
  destruct io; try apply HW; [|done].
  destruct (negb _) eqn:En.
  - split_and!; [destruct Hj; by split|auto..|done].
  - assert (j1 = j) as E; [|rewrite E in HW; apply HW].
    unfold j1, ensureSegmentLocked. apply negb_false_iff in En. by rewrite En.
Qed.

Lemma append_keeps_effect j r sync now pid io n k :
  handle_ok j -> record_ascii r -> whole io = true -> closes k r = false ->
  pending_in j.(jr_dir) n k ->
  handle_ok (append_record j r sync now pid io).1 /\ pending_in (append_record j r sync now pid io).1.(jr_dir) n k.
Proof.
  intros Hj Ha Hw Hc [Ho (x & Hx & He & Hk)]. pose proof (append_in j r sync now pid io Hj Ha Hw) as H.
  destruct (append_record _ _ _ _ _ _) as [j' res]. destruct H as (Hj' & H1 & H2 & _). split; [done|]. split.
  - intros y [m Hy]. destruct (H2 m y Hy) as [?| ->]; [apply Ho; by exists m|done].
  - exists x. split_and!; [by apply H1|done..].
Qed.

(** ** The prune beside the writers *)

Lemma scan_lines_open lines k st :
  (forall x, x ∈ omap line_record lines -> closes k x = false) ->
  closed_key (fold_left scan_line lines st) k = closed_key st k.
Proof.
  revert st. induction lines as [|l lines IH]; intros st Hl; [done|]. simpl in *. unfold line_record at 1 in Hl.
  unfold scan_line at 2. destruct (blank_line l); [by apply IH|]. destruct (read_line l) as [r|].
  2:{ by rewrite IH. }
  simpl in Hl. rewrite IH; [|intros x Hx; apply Hl; set_solver]. specialize (Hl r ltac:(set_solver)).
  unfold closed_key, scan_record. fold (is_effect r) (is_seal r) (is_quarantine r). unfold closes in Hl.
  destruct (is_effect r); [done|].
  assert (forall S : gset Key, key_of r <> k -> bool_decide (k ∈ {[key_of r]} ∪ S) = bool_decide (k ∈ S)) as HS.
  { intros S Hn. apply bool_decide_ext. set_solver. }
  destruct (is_seal r), (is_quarantine r); simpl in *; try done;
    rewrite HS; try done; intros E; by rewrite bool_decide_eq_true_2 in Hl.
Qed.

Lemma count_pos {A} (f : A -> bool) (l : list A) x : x ∈ l -> f x = true -> 0 < count f l.
Proof.
  intros Hx Hf. assert (existsb f l = true) as He by (apply existsb_elem; eauto). rewrite count_zero_existsb in He.
  pose proof (count_nonneg f l). apply negb_true_iff in He. lia.
Qed.

(** A segment that holds the open effect is not removable, once it has been counted. *)
Lemma charged_segment_kept before st sk k :
  closed_key st k = false -> k ∈ sk.2 -> removable before (count_segment st sk) = false.
Proof.
  intros Hc Hk. unfold removable, count_segment. simpl. unfold closed_key in Hc. apply orb_false_iff in Hc as [Hs Hq].
  match goal with |- context [0 <? count ?f sk.2] => assert (0 < count f sk.2) as Hp end.
  { apply count_pos with k; [done|]. by rewrite Hs, Hq. }
  by rewrite (proj2 (Z.ltb_lt _ _) Hp).
Qed.

Lemma removable_prunable active before seg : removable before seg = false -> prunable active before seg = false.
Proof.
  unfold removable, prunable. destruct (sg_ModTime seg <? before); rewrite ?andb_false_r, ?andb_true_r; [|done].
  intros H. apply negb_false_iff in H. rewrite <- orb_assoc, H. by rewrite orb_true_r.
Qed.

Lemma existsb_false {A} (f : A -> bool) (l : list A) : existsb f l = false <-> forall x, x ∈ l -> f x = false.
Proof.
  split.
  - intros H x Hx. destruct (f x) eqn:E; [|done]. assert (existsb f l = true) by (apply existsb_elem; eauto). congruence.
  - intros H. destruct (existsb f l) eqn:E; [|done]. apply existsb_elem in E as (x & Hx & Hf). rewrite H in Hf; done.
Qed.

Lemma prune_one_handle active before j seg : handle_ok j -> handle_ok (prune_one active before j seg).
Proof.
  intros [Hf Hc]. unfold prune_one. destruct (prunable _ _ _); [|by split]. destruct (jr_dir j !! _); [|by split].
  split; simpl; [done|]. intros n g Hd. apply lookup_delete_Some in Hd as [_ Hd]. by eapply Hc.
Qed.

Lemma prune_one_pending active before j seg n k :
  (sg_Name seg = n -> prunable active before seg = false) ->
  pending_in j.(jr_dir) n k -> pending_in (prune_one active before j seg).(jr_dir) n k.
Proof.
  intros Hn Hp. unfold prune_one. destruct (prunable active before seg) eqn:Ep; [|done].
  destruct (jr_dir j !! sg_Name seg) as [old|]; [|done]. destruct Hp as [Ho (r & (f & Hf & Hs & Hr) & He & Hk)]. simpl. split.
  - intros x (m & g & Hg & ? & ?). apply lookup_delete_Some in Hg as [_ Hg]. apply Ho. by exists m, g.
  - exists r. split_and!; [|done..]. exists f. rewrite lookup_delete_ne; [done|]. intros E. by specialize (Hn E).
Qed.

(** Each step of a prune keeps the open effect in its segment. *)
Lemma prune_next_keeps j p n k :
  handle_ok j -> harmless k n p -> pending_in j.(jr_dir) n k ->
  handle_ok (prune_next j p).1 /\ harmless k n (prune_next j p).2 /\ pending_in (prune_next j p).1.(jr_dir) n k.
Proof.
  intros Hj Hp Hk. destruct p as [|before [|name names] [[st segs] [total tails]]|before segs|before active [|seg segs]];
    simpl in *; try done.
  - destruct Hp as (_ & Hc & Hs). split_and!; [done| |done]. apply existsb_false. intros seg Hseg.
    apply elem_of_map in Hseg as (sk & Hsk & ->). simpl. destruct (String.eqb _ n) eqn:E; [|done]. apply String.eqb_eq in E.
    by eapply charged_segment_kept, Hs.
  - destruct Hp as (Hn & Hc & Hs). split; [done|]. split; [|done]. apply Forall_cons in Hn as [Hn0 Hn].
    destruct (jr_dir j !! name) as [f|] eqn:Hf; [|done]. destruct Hk as [Ho (r & (f' & Hf' & Hsg & Hr) & He & Hk)].
    split_and!; [done| |].
    + rewrite scan_lines_open; [done|]. intros x Hx. apply Ho. by exists name, f.
    + intros sk. rewrite elem_of_app, list_elem_of_singleton. intros [?| ->] Hname; [by apply Hs|]. simpl in Hname |- *.
      subst name. simplify_eq. rewrite scan_lines_keys. simpl. apply elem_of_map. exists r. split; [|done].
      by apply elem_of_List_filter.
  - split_and!; [done| |done]. apply existsb_false. intros seg Hseg. pose proof (proj1 (existsb_false _ _) Hp seg Hseg) as H.
    simpl in H. destruct (String.eqb _ n); [|done]. simpl in *. by apply removable_prunable.
  - apply orb_false_iff in Hp as [Hp1 Hp2]. split_and!; [by apply prune_one_handle|done|]. apply prune_one_pending; [|done].
    intros E. by rewrite E, String.eqb_refl in Hp1.
Qed.

Lemma close_handle j : handle_ok j -> handle_ok (Close_ j).
Proof. intros [_ Hc]. by split. Qed.

Lemma journal_op_keeps jp op n k :
  handle_ok jp.1 -> harmless k n jp.2 -> spares k op -> pending_in jp.1.(jr_dir) n k ->
  handle_ok (journal_op jp op).1 /\ harmless k n (journal_op jp op).2 /\ pending_in (journal_op jp op).1.(jr_dir) n k.
Proof.
  destruct jp as [j p]. cbn [fst snd]. intros Hj Hp Hs Hk.
  assert (forall r sync now pid io, record_ascii r -> whole io = true -> closes k r = false ->
    handle_ok (append_record j r sync now pid io).1 /\ harmless k n p
    /\ pending_in (append_record j r sync now pid io).1.(jr_dir) n k) as Happ.
  { intros r sync now pid io ? ? ?. destruct (append_keeps_effect j r sync now pid io n k); auto. }
  assert (forall k', k' <> k -> bool_decide (k' = k) = false) as Hne by (intros; by apply bool_decide_eq_false).
  destruct op as [fs r now pid io|k' res now pid io|fs k' reason m now pid io|before| | | |a b]; simpl in *.
  - apply Happ; intuition.
  - destruct Hs as (? & ? & Hn). apply Happ; try done. unfold closes. rewrite <- (Hne k' Hn). by destruct k' as [[] ].
  - destruct Hs as (? & ? & Hn). apply Happ; try done. unfold closes. rewrite <- (Hne k' Hn). by destruct k' as [[] ].
  - split_and!; [done| |done]. destruct p; try done. simpl. split_and!; [|done|set_solver].
    apply Forall_forall. intros m Hm. by apply elem_of_segmentNames in Hm as [_ ?].
  - by apply prune_next_keeps.
  - done.
  - split_and!; [by apply close_handle|done..].
  - split_and!; [|done..]. destruct Hj as [_ Hc]. by split.
Qed.

Lemma journal_run_keeps ops n k : forall jp,
  handle_ok jp.1 -> harmless k n jp.2 -> Forall (spares k) ops -> pending_in jp.1.(jr_dir) n k ->
  pending_in (journal_run jp ops).1.(jr_dir) n k.
Proof.
  induction ops as [|op ops IH]; intros jp Hj Hp Hs Hk; simpl; [done|].
  apply Forall_cons in Hs as [Hop Hs]. destruct (journal_op_keeps jp op n k Hj Hp Hop Hk) as (? & ? & ?). by apply IH.
Qed.

(** A prune whose steps nothing comes between is [Prune]. *)
Lemma scanning_alone j before names : forall acc, exists m,
  Nat.iter m (fun jp => prune_next jp.1 jp.2) (j, PruneScanning before names acc)
  = (j, PruneScanning before [] (fold_left (scan_segment j.(jr_dir)) names acc)).
Proof.
  induction names as [|name names IH]; intros acc; [by exists 0%nat|]. destruct (IH (scan_segment (jr_dir j) acc name)) as [m Hm].
  exists (S m). rewrite Nat.iter_succ_r. exact Hm.
Qed.

Lemma removing_alone before active segs : forall j, exists m,
  Nat.iter m (fun jp => prune_next jp.1 jp.2) (j, PruneRemoving before active segs)
  = (fold_left (prune_one active before) segs j, PruneIdle).
Proof.
  induction segs as [|seg segs IH]; intros j; [by exists 1%nat|]. destruct (IH (prune_one active before j seg)) as [m Hm].
  exists (S m). rewrite Nat.iter_succ_r. exact Hm.
Qed.

Lemma prune_alone j before : exists m,
  Nat.iter m (fun jp => prune_next jp.1 jp.2) (j, prune_start j before) = (Prune j before, PruneIdle).
Proof.
  destruct (scanning_alone j before (segmentNames (jr_dir j)) (scan_start, [], (0, 0))) as [m1 H1].
  unfold Prune, Scan. destruct (fold_left _ _ _) as [[st segs] [total tails]].
  destruct (removing_alone before (jr_segmentName j) (map (count_segment st) segs) j) as [m2 H2].
  exists (m2 + (2 + m1))%nat. rewrite !Nat.iter_add. unfold prune_start. rewrite H1. exact H2.
Qed.

Lemma empty_journal_ok a b : journal_ok (Open_ ∅ a b).
Proof. split; simpl; [done|]. intros n f. by rewrite lookup_empty. Qed.

(** Claim C24. An acknowledged effect is not lost: once [WriteEffect] has returned without
    error on a journal without torn segments, the effect is in the re-drive queue of every
    later scan, whatever is appended, rotated, refused, pruned, closed or restarted in
    between, with the steps of prunes and the writes in any order, until a seal or a
    quarantine for its key is written. The conditions: every text is ASCII, no write is cut
    short, and at the time of the write no prune is reading the segments or has already found
    the segment of the effect fit for removal. *)
Theorem acknowledged_effect_survives (j j' : Journal) (p : PruneRun) (fsync : bool) (r : Record_) (now pid : Z)
    (io : IoFault) (ops : list JournalOp) :
  journal_ok j -> record_ascii (effect_record r) -> whole io = true ->
  open_in j.(jr_dir) (key_of (effect_record r)) ->
  WriteEffect j fsync r now pid io = (j', inr tt) ->
  endangered j'.(jr_segmentName) p = false ->
  Forall (spares (key_of (effect_record r))) ops ->
  let d := (journal_run (j', p) ops).1.(jr_dir) in
  exists x, x ∈ Unsealed (Scan d) /\ key_of x = key_of (effect_record r) /\ is_effect x = true /\ recorded d x.
Proof.
  intros Hj Ha Hw Ho E He Hs d. unfold WriteEffect in E.
  pose proof (append_in j (effect_record r) fsync now pid io (journal_handle j Hj) Ha Hw) as H. rewrite E in H.
  destruct H as (Hj' & _ & Hnew & Hin). specialize (Hin Hj eq_refl).
  destruct (journal_run_keeps ops j'.(jr_segmentName) (key_of (effect_record r)) (j', p)) as [Ho' (x & [f Hx] & Hxe & Hk)];
    [done|by destruct p| done| |].
  { split; [|eexists; by split_and!]. intros x [m Hx]. apply Hnew in Hx as [Hx| ->]; [apply Ho; by exists m|done]. }
  destruct (scan_spec d) as (H1 & H2 & _).
  destruct (H2 x ltac:(by exists j'.(jr_segmentName), f) Hxe ltac:(by rewrite Hk)) as (x' & Hx' & Hk'). exists x'.
  destruct (H1 x' Hx') as (? & ? & _). split_and!; [done|congruence|done..].
Qed.
End Codec.

(** ** A concrete codec

    The codec below is not JSON, but it has the properties [RecordCodec] asks of
    it: one non-blank line per record that decodes to the record. *)
Module SampleCodec.
Fixpoint bits (p : positive) : list ascii :=
  match p with xH => [] | xO p => "0"%char :: bits p | xI p => "1"%char :: bits p end.
Fixpoint unbits (l : list ascii) : positive :=
  match l with [] => xH | c :: l => if Ascii.eqb c "0" then xO (unbits l) else xI (unbits l) end.

Lemma unbits_bits p : unbits (bits p) = p.
Proof. induction p; simpl; congruence. Qed.

Lemma bits_chars p c : c ∈ bits p -> c = "0"%char \/ c = "1"%char.
Proof. induction p; simpl; [rewrite elem_of_cons; intuition..|]. by intros ?%not_elem_of_nil. Qed.

Definition fields (r : Record_) : list positive :=
  [encode r.(Version); encode r.(Kind); encode r.(AccountID); encode r.(RequestID); encode r.(Effect);
   encode r.(WrittenAtUnixMS); encode r.(WindowDate); encode r.(PromptTokens); encode r.(CompletionTokens);
   encode r.(TotalTokens); encode r.(MaxTotalTokens); encode r.(TokenSource); encode r.(Outcome_);
   encode r.(DemoIdentity); encode r.(DemoTokenHash); encode r.(Result); encode r.(Reason_); encode r.(Attempts)].

Definition unfields (l : list positive) : option Record_ :=
  match l with
  | [a; b; c; d; e; f; g; h; i; k; m; n; o; p; q; s; t; u] =>
      a ← decode a; b ← decode b; c ← decode c; d ← decode d; e ← decode e; f ← decode f; g ← decode g;
      h ← decode h; i ← decode i; k ← decode k; m ← decode m; n ← decode n; o ← decode o; p ← decode p;
      q ← decode q; s ← decode s; t ← decode t; u ← decode u;
      Some (mkRecord a b c d e f g h i k m n o p q s t u)
  | _ => None
  end.

Lemma unfields_fields r : unfields (fields r) = Some r.
Proof. destruct r. unfold unfields, fields. rewrite !decode_encode. done. Qed.

Definition line (r : Record_) : list ascii :=
  "{"%char :: flat_map (fun p => bits p ++ [","%char]) (fields r).
Definition unline (l : list ascii) : option Record_ :=
  match l with
  | c :: l => if Ascii.eqb c "{" then unfields (map unbits (removelast (GoStr.split_on "," l))) else None
  | [] => None
  end.

Lemma split_commas l :
  GoStr.split_on "," (flat_map (fun p => bits p ++ [","%char]) l) = map bits l ++ [[]].
Proof.
  induction l as [|p l IH]; [done|]. simpl flat_map. rewrite split_on_app, split_on_line, IH; [by destruct l|].
  intros H%bits_chars. by destruct H.
Qed.

Lemma line_chars r c : c ∈ line r -> c ∈ ["{"; "0"; "1"; ","]%char.
Proof.
  unfold line. rewrite elem_of_cons. intros [->|H]; [by left|].
  apply list_elem_of_In, in_flat_map in H as (p & _ & Hp). apply list_elem_of_In in Hp.
  apply elem_of_app in Hp as [Hp|Hp]; [apply bits_chars in Hp as [->| ->]; set_solver|set_solver].
Qed.

Lemma line_roundtrip r :
  (newline ∉ line r) /\ GoStr.TrimSpace (GoStr.of_chars (line r)) <> "" /\ unline (line r) = Some r.
Proof.
  split_and!.
  - intros H%line_chars. revert H. by apply (bool_decide_eq_false_1 (newline ∈ _)).
  - unfold GoStr.TrimSpace, GoStr.TrimRightFunc, GoStr.TrimLeftFunc. rewrite !GoStr.chars_of_chars.
    unfold line. simpl. rewrite GoStr.drop_while_snoc by done. rewrite rev_app_distr. done.
  - change (unline (line r)) with (unfields (map unbits (removelast
      (GoStr.split_on "," (flat_map (fun p => bits p ++ [","%char]) (fields r)))))).
    rewrite split_commas, removelast_app by done. change (removelast [[]]) with (@nil (list ascii)).
    rewrite app_nil_r, map_map. rewrite (map_ext _ id unbits_bits), map_id. apply unfields_fields.
Qed.

Definition codec : RecordCodec :=
  {| marshal := line; unmarshal := unline; marshal_line := fun r _ => line_roundtrip r |}.
End SampleCodec.

(** ** Witness and counterexamples *)
Module JournalSample.
#[local] Existing Instance SampleCodec.codec.
Definition effect (id : string) : Record_ :=
  mkRecord 0 "" "acct" id "" 0 "2023-11-14" 10 20 30 60 "provider_reported" "ok" "" "" "" "" 0.
Definition key (id : string) : Key := ("acct", id, "settle").
Definition ms : Z := 1000000.
Definition j0 : Journal := Open_ ∅ 0 0.
(** A prune with a restart before it and writes between its steps. *)
Definition later : list JournalOp :=
  [JEffect true (effect "r2") (2000 * ms) 7 IoOk; JSeal (key "r2") "settled" (3000 * ms) 7 IoSyncFails;
   JRestart 0 0; JPrune (10000 * ms); JPruneNext; JEffect true (effect "r3") (4000 * ms) 8 IoOk;
   JPruneNext; JPruneNext; JSeal (key "r3") "settled" (5000 * ms) 8 IoOk; JPruneNext; JPruneNext].
Definition queue (j : Journal) : list string := map RequestID (Unsealed (Scan j.(jr_dir))).
End JournalSample.

#[local] Existing Instance SampleCodec.codec.

Lemma acknowledged_effect_survives_witness :
  exists x, x ∈ Unsealed (Scan (journal_run ((WriteEffect JournalSample.j0 true (JournalSample.effect "r1")
                  (1000 * JournalSample.ms) 7 IoOk).1, PruneIdle) JournalSample.later).1.(jr_dir))
            /\ key_of x = JournalSample.key "r1".
Proof.
  destruct (acknowledged_effect_survives JournalSample.j0
    (WriteEffect JournalSample.j0 true (JournalSample.effect "r1") (1000 * JournalSample.ms) 7 IoOk).1 PruneIdle
    true (JournalSample.effect "r1") (1000 * JournalSample.ms) 7 IoOk JournalSample.later) as (x & Hx & Hk & _).
  - apply empty_journal_ok.
  - repeat constructor.
  - reflexivity.
  - intros x (n & f & Hf & _). unfold JournalSample.j0, Open_ in Hf. cbn [jr_dir] in Hf.
    by rewrite lookup_empty in Hf.
  - vm_compute. reflexivity.
  - reflexivity.
  - repeat constructor; discriminate.
  - exists x. split; [exact Hx|exact Hk].
Defined.

(** A short write leaves the start of a line in the open segment, and the next
    append continues it: the following effect is acknowledged and unreadable. *)
Example effect_after_short_write_is_lost :
  let j1 := (WriteEffect JournalSample.j0 true (JournalSample.effect "r1") (1000 * JournalSample.ms) 7 (IoShort 5)).1 in
  let w := WriteEffect j1 true (JournalSample.effect "r2") (1001 * JournalSample.ms) 7 IoOk in
  w.2 = inr tt /\ Scan w.1.(jr_dir) = mkScan [] 0 0 0 1 0 (Segments (Scan w.1.(jr_dir))).
Proof. vm_compute. done. Qed.

(** A quarantine does not pin the segment that holds it: written to a later segment
    than its effect, it is pruned with that segment, and the effect is driven again. *)
Example quarantine_in_later_segment_is_pruned :
  let j1 := (WriteEffect JournalSample.j0 true (JournalSample.effect "r1") (1000 * JournalSample.ms) 7 IoOk).1 in
  let j2 := (WriteQuarantine (Open_ j1.(jr_dir) 0 0) true (JournalSample.key "r1") "usage_event_conflict" 10
               (2000 * JournalSample.ms) 8 IoOk).1 in
  let j3 := Prune (Open_ j2.(jr_dir) 0 0) (3000 * JournalSample.ms) in
  JournalSample.queue j2 = [] /\ JournalSample.queue j3 = ["r1"].
Proof. vm_compute. done. Qed.

(** [Prune] reads the active segment after its scan: an effect appended in between to
    an idle segment that is then rotated away is deleted with it. *)
Example effect_written_during_prune_is_lost :
  let j1 := (WriteEffect (Open_ ∅ 1100 0) true (JournalSample.effect "r1") (1000 * JournalSample.ms) 7 IoOk).1 in
  let jp2 := journal_run (j1, PruneIdle) [JSeal (JournalSample.key "r1") "settled" (1001 * JournalSample.ms) 7 IoOk;
    JPrune (5000 * JournalSample.ms); JPruneNext; JPruneNext] in
  let w3 := WriteEffect jp2.1 true (JournalSample.effect "r2") (9000 * JournalSample.ms) 7 IoOk in
  let jp4 := journal_run (w3.1, jp2.2) [JEffect true (JournalSample.effect "r3") (9001 * JournalSample.ms) 7 IoOk] in
  w3.2 = inr tt /\ endangered w3.1.(jr_segmentName) jp2.2 = true /\ JournalSample.queue jp4.1 = ["r2"; "r3"]
  /\ JournalSample.queue (journal_run jp4 [JPruneNext; JPruneNext]).1 = ["r3"].
Proof. vm_compute. done. Qed.
