(* ===== verification/Recovery.v ===== *)
(** * Billing after the response, and its recovery

    Models the settlement ladder of
    [phase5-gateway/internal/router/chat_proxy.go] ([settleRequest],
    [settleAfterCommit]) and the recovery pass of
    [router/settlement_journal_recovery.go], over the store (Quota) and the journal
    (Journal). A handler makes calls that can fail without effect, take effect and
    still report an error, or never be reached because the process dies; the
    outcome of every call and every clock reading is an argument. *)

From S2P Require Import Prelude GoTime Quota Journal.

(** ** Handlers *)

(** What becomes of a call: [LateError] is a commit whose connection fails to close. *)
Inductive Fate := Runs | Fails | LateError | Crashes.

Record Env := mkEnv {
  fate : nat -> Fate;
  clock : nat -> Z;
  io : nat -> IoFault;
  cancelled : nat -> bool;
  pid : Z;
  fsync : bool;
}.

Record World := mkWorld {
  w_store : Store;
  w_journal : Journal;
  w_attempts : gmap Key Z;
}.

(** A handler either returns, with the number of calls and readings so far, or dies. *)
Inductive Outcome A := Done (a : A) (n : nat) (w : World) | Crashed (w : World).
Arguments Done {A} _ _ _.
Arguments Crashed {A} _.

Definition M (A : Type) : Type := Env -> nat -> World -> Outcome A.
Definition mret {A} (a : A) : M A := fun _ n w => Done a n w.
Definition mbind {A B} (c : M A) (k : A -> M B) : M B := fun e n w =>
  match c e n w with Done a n' w' => k a e n' w' | Crashed w' => Crashed w' end.

Declare Scope handler_scope.
Notation "'let!' x := c 'in' k" := (mbind c (fun x => k)) (at level 10, x name, k at level 200) : handler_scope.
#[local] Open Scope handler_scope.

Definition now_ : M Z := fun e n w => Done (clock e n) (S n) w.
(** [ctx.Err() != nil]. *)
Definition ctx_done : M bool := fun e n w => Done (cancelled e n) (S n) w.

Definition with_store (w : World) (s : Store) : World := mkWorld s w.(w_journal) w.(w_attempts).
Definition with_journal (w : World) (j : Journal) : World := mkWorld w.(w_store) j w.(w_attempts).
Definition with_attempts (w : World) (a : gmap Key Z) : World := mkWorld w.(w_store) w.(w_journal) a.

(** A call of the store; [f] takes the clock reading the store falls back to. *)
Definition store_call (f : Store -> Z -> Store * result unit) : M (result unit) := fun e n w =>
  let '(s', r) := f w.(w_store) (clock e n) in
  match fate e n with
  | Runs => Done r (S n) (with_store w s')
  | Fails => Done (Err (ErrOther "database error")) (S n) w
  | LateError => Done (Err (ErrOther "connection close error")) (S n) (with_store w s')
  | Crashes => Crashed w
  end.

(** A call of the journal. *)
Definition journal_call (f : Journal -> Z -> Z -> IoFault -> Journal * (JournalError + unit))
    : M (JournalError + unit) := fun e n w =>
  match fate e n with
  | Crashes => Crashed w
  | _ => let '(j', r) := f w.(w_journal) (clock e n) (pid e) (io e n) in Done r (S n) (with_journal w j')
  end.

(** [settlementJournalAttempts]. *)
Definition attempts_next (k : Key) : M Z := fun _ n w =>
  let c := default 0 (w.(w_attempts) !! k) + 1 in
  Done c n (with_attempts w (<[k := c]> w.(w_attempts))).
Definition attempts_clear (k : Key) : M unit := fun _ n w =>
  Done tt n (with_attempts w (delete k w.(w_attempts))).

Section Handlers.
Context {RC : RecordCodec}.

Definition sealSettlementEffect (k : Key) (res : string) : M unit :=
  let! _ := journal_call (fun j => WriteSeal j k res) in mret tt.

Definition RecoveredSettled : string := "settled".
Definition RecoveredUsageEvent : string := "usage_event".
Definition RecoveredQuarantined : string := "quarantined".
Definition RecoveredRetry : string := "retry".

Definition quarantineSettlementEffect (k : Key) (reason : string) (attempts : Z) : M string :=
  let! _ := (fun e => journal_call (fun j => WriteQuarantine j (fsync e) k reason attempts) e) in
  let! _ := attempts_clear k in
  mret RecoveredQuarantined.

(** ** The settlement of a request *)

Record usageSubject := mkSubject {
  sub_AccountID : string;
  sub_DemoIdentity : string;
  sub_DemoTokenHash : string;
}.

(** A settlement with or without its demo row. *)
Definition settle_call (t : ReservationSettlement) (demo : option DemoUsageEvent) : M (result unit) :=
  store_call (fun s c => match demo with
                         | Some d => SettleDemoReservation s t d c
                         | None => SettleReservation s t c
                         end).

Definition settleRequest (req : string) (sub : usageSubject) (prompt completion maxTotal : Z)
    (source outcome : string) : M (result unit) :=
  let! settledAt := now_ in
  let t := mkSettlement sub.(sub_AccountID) req prompt completion 0 maxTotal source outcome settledAt in
  if String.eqb sub.(sub_DemoIdentity) "" then settle_call t None
  else
    let! createdAt := now_ in
    settle_call t (Some (mkDemoEvent req sub.(sub_DemoIdentity) sub.(sub_DemoTokenHash) "" 0 createdAt)).

(** [errors.Is(err, ErrReservationNotFound) || errors.Is(err, ErrReservationTerminal)]. *)
Definition benign (r : result unit) : bool :=
  match r with
  | Ok _ | Err ErrReservationNotFound | Err ErrReservationTerminal => true
  | Err _ => false
  end.

(** The refund at [s.now().Unix()]. *)
Definition refund_call (k : RequestKey) : M (result unit) :=
  let! t := now_ in store_call (fun s _ => RefundReservation s k (t / second)).

(** The idempotent rung of the ladder: the usage row, the demo row, the refund. The
    demo insert's error is only logged. *)
Definition ensure_demo (req : string) (sub : usageSubject) (window : string) (total : Z) : M unit :=
  if String.eqb sub.(sub_DemoIdentity) "" then mret tt
  else
    let! t := now_ in
    let! _ := store_call (fun s c => EnsureDemoUsageEvent s
      (mkDemoEvent req sub.(sub_DemoIdentity) sub.(sub_DemoTokenHash) window total t) c) in
    mret tt.

Definition utc_date : Type := Z -> string.

(** The effect that is armed before the settlement is attempted. *)
Definition settle_record (sub : usageSubject) (req window : string) (prompt completion maxTotal : Z)
    (source outcome : string) : Record_ :=
  mkRecord 0 "" sub.(sub_AccountID) req EffectSettle 0 window prompt completion (Int64.add prompt completion)
    maxTotal source outcome sub.(sub_DemoIdentity) sub.(sub_DemoTokenHash) "" "" 0.

(** [settleAfterCommit]; [date] formats the day of an instant. *)
Definition settleAfterCommit (date : utc_date) (req : string) (sub : usageSubject)
    (prompt completion maxTotal : Z) (source outcome reservationWindow : string) : M unit :=
  let! window := (if String.eqb reservationWindow "" then let! t := now_ in mret (date t)
                  else mret reservationWindow) in
  let acct := sub.(sub_AccountID) in
  let k : Key := (acct, req, EffectSettle) in
  let total := Int64.add prompt completion in
  let! armed := (fun e => journal_call (fun j => WriteEffect j (fsync e)
      (settle_record sub req window prompt completion maxTotal source outcome)) e) in
  let seal (res : string) := match armed with inr _ => sealSettlementEffect k res | inl _ => mret tt end in
  let! settled := settleRequest req sub prompt completion maxTotal source outcome in
  match settled with
  | Ok _ => seal SealSettled
  | Err _ =>
      let! t := now_ in
      let! ensured := store_call (fun s c => EnsureUsageEvent s
        (mkUsageEvent req acct sub.(sub_DemoIdentity) window prompt completion total source outcome t) c) in
      match ensured with
      | Err _ => let! _ := refund_call (acct, req) in mret tt
      | Ok _ =>
          let! _ := ensure_demo req sub window total in
          let! refunded := refund_call (acct, req) in
          if benign refunded then seal SealUsageEvent else mret tt
      end
  end.

(** ** Recovery *)

Definition settlementJournalMaxConflictAttempts : Z := 10.

(** The store calls of a journaled effect. *)
Definition record_settlement (r : Record_) (settledAt : Z) : ReservationSettlement :=
  mkSettlement r.(AccountID) r.(RequestID) r.(PromptTokens) r.(CompletionTokens) r.(TotalTokens)
    r.(MaxTotalTokens) r.(TokenSource) r.(Outcome_) settledAt.
Definition record_event (r : Record_) (createdAt : Z) : UsageEvent :=
  mkUsageEvent r.(RequestID) r.(AccountID) r.(DemoIdentity) r.(WindowDate) r.(PromptTokens)
    r.(CompletionTokens) r.(TotalTokens) r.(TokenSource) r.(Outcome_) createdAt.
Definition record_subject (r : Record_) : usageSubject :=
  mkSubject r.(AccountID) r.(DemoIdentity) r.(DemoTokenHash).
Definition record_request (r : Record_) : RequestKey := (r.(AccountID), r.(RequestID)).

Definition redrive_settle (r : Record_) : M (result unit) :=
  let! settledAt := now_ in
  if String.eqb r.(DemoIdentity) "" then settle_call (record_settlement r settledAt) None
  else
    let! createdAt := now_ in
    settle_call (record_settlement r settledAt)
      (Some (mkDemoEvent r.(RequestID) r.(DemoIdentity) r.(DemoTokenHash) "" 0 createdAt)).

(** The conflict branch: the hold is released before the attempt is counted. *)
Definition redrive_conflict (r : Record_) : M (result string) :=
  let k := key_of r in
  let! refunded := refund_call (record_request r) in
  if negb (benign refunded) then mret (Ok RecoveredRetry)
  else
    let! attempts := attempts_next k in
    if attempts <? settlementJournalMaxConflictAttempts then mret (Ok RecoveredRetry)
    else let! q := quarantineSettlementEffect k "usage_event_conflict" attempts in mret (Ok q).

(** The completion of the idempotent rung. *)
Definition redrive_ensured (r : Record_) : M (result string) :=
  let k := key_of r in
  let! _ := ensure_demo r.(RequestID) (record_subject r) r.(WindowDate) r.(TotalTokens) in
  let! refunded := refund_call (record_request r) in
  if negb (benign refunded) then mret (Ok RecoveredRetry)
  else
    let! _ := sealSettlementEffect k SealUsageEvent in
    let! _ := attempts_clear k in
    mret (Ok RecoveredUsageEvent).

Definition redriveSettlementEffect (r : Record_) : M (result string) :=
  let k := key_of r in
  if negb (String.eqb r.(Effect) EffectSettle) then mret (Ok RecoveredRetry)
  else if negb (TokensConsistent r) then
    let! q := quarantineSettlementEffect k "token_totals_inconsistent" 0 in mret (Ok q)
  else
    let! settled := redrive_settle r in
    match settled with
    | Ok _ =>
        let! _ := sealSettlementEffect k SealSettled in
        let! _ := attempts_clear k in
        mret (Ok RecoveredSettled)
    | Err _ =>
        let! t := now_ in
        let! ensured := store_call (fun s c => EnsureUsageEvent s (record_event r t) c) in
        match ensured with
        | Err ErrUsageEventConflict => redrive_conflict r
        | Err e => mret (Err e)
        | Ok _ => redrive_ensured r
        end
    end.

Record RecoverySummary := mkSummary {
  rs_Scanned : Z; rs_Recovered : Z; rs_Settled : Z; rs_UsageEvents : Z; rs_Quarantined : Z;
  rs_Skipped : Z; rs_Retried : Z; rs_Errors : Z; rs_Pruned : Z; rs_Malformed : Z; rs_Unsealed : Z;
}.
Definition summary_of (scan : ScanResult) : RecoverySummary :=
  mkSummary 0 0 0 0 0 0 0 0 0 scan.(Malformed) (Z.of_nat (length scan.(Unsealed))).
Definition set_pruned (n : Z) (m : RecoverySummary) : RecoverySummary :=
  let '(mkSummary sc rc se us qu sk re er _ ma un) := m in mkSummary sc rc se us qu sk re er n ma un.

(** The count of one re-drive. *)
Definition summarise (res : result string) (m : RecoverySummary) : RecoverySummary :=
  let '(mkSummary sc rc se us qu sk re er pr ma un) := m in
  match res with
  | Err _ => mkSummary (sc + 1) rc se us qu sk re (er + 1) pr ma un
  | Ok x =>
      if String.eqb x RecoveredSettled then mkSummary (sc + 1) (rc + 1) (se + 1) us qu sk re er pr ma un
      else if String.eqb x RecoveredUsageEvent then mkSummary (sc + 1) (rc + 1) se (us + 1) qu sk re er pr ma un
      else if String.eqb x RecoveredQuarantined then mkSummary (sc + 1) rc se us (qu + 1) sk re er pr ma un
      else if String.eqb x RecoveredRetry then mkSummary (sc + 1) rc se us qu sk (re + 1) er pr ma un
      else mkSummary (sc + 1) rc se us qu sk re er pr ma un
  end.
Definition skip_one (m : RecoverySummary) : RecoverySummary :=
  let '(mkSummary sc rc se us qu sk re er pr ma un) := m in mkSummary sc rc se us qu (sk + 1) re er pr ma un.

(** The loop over the queue: bounded by [limit], holding back effects younger than
    [grace]. *)
Fixpoint recover_loop (limit grace now : Z) (queue : list Record_) (m : RecoverySummary) : M RecoverySummary :=
  match queue with
  | [] => mret m
  | r :: queue =>
      if limit <=? m.(rs_Scanned) then mret m
      else
      let! done := ctx_done in
      if (done : bool) then mret m
      else if (0 <? grace) && (time_sub now (WrittenAt r) <? grace)
      then recover_loop limit grace now queue (skip_one m)
      else
        let! res := redriveSettlementEffect r in
        recover_loop limit grace now queue (summarise res m)
  end.

(** The removed segments are counted. *)
Definition journal_prune (before : Z) : M Z := fun _ n w =>
  let j := Prune w.(w_journal) before in
  Done (Z.of_nat (size w.(w_journal).(jr_dir)) - Z.of_nat (size j.(jr_dir))) n (with_journal w j).
Definition journal_scan : M ScanResult := fun _ n w => Done (Scan w.(w_journal).(jr_dir)) n w.

(** [RecoverSettlementJournal]; [grace] and [retention] are durations. *)
Definition RecoverSettlementJournal (limit grace retention : Z) : M RecoverySummary :=
  let limit := if limit <=? 0 then 100 else limit in
  let limit := if 500 <? limit then 500 else limit in
  let! scan := journal_scan in
  let! now := now_ in
  let! m := recover_loop limit grace now scan.(Unsealed) (summary_of scan) in
  if 0 <? retention then let! n := journal_prune (now - retention) in mret (set_pruned n m) else mret m.

(** ** Reasoning about handlers *)

(** Every end of the handler, return or crash, is related to its start. *)
Definition within {A} (R : World -> World -> Prop) (c : M A) : Prop := forall e n w,
  match c e n w with Done _ _ w' => R w w' | Crashed w' => R w w' end.

Lemma within_ret {A} R `{!PreOrder R} (a : A) : within R (mret a).
Proof. intros e n w. simpl. reflexivity. Qed.

Lemma within_bind {A B} R `{!PreOrder R} (c : M A) (k : A -> M B) :
  within R c -> (forall a, within R (k a)) -> within R (mbind c k).
Proof.
  intros Hc Hk e n w. unfold mbind. specialize (Hc e n w). destruct (c e n w) as [a n' w'|w']; [|done].
  specialize (Hk a e n' w'). destruct (k a e n' w'); etrans; eauto.
Qed.

Lemma within_weaken {A} (R R' : World -> World -> Prop) (c : M A) :
  (forall w w', R w w' -> R' w w') -> within R c -> within R' c.
Proof. intros HR Hc e n w. specialize (Hc e n w). destruct (c e n w); auto. Qed.

Lemma within_now R `{!PreOrder R} : within R now_.
Proof. intros e n w. simpl. reflexivity. Qed.

Lemma within_store R `{!PreOrder R} f :
  (forall w c, R w (with_store w (f w.(w_store) c).1)) -> within R (store_call f).
Proof.
  intros Hf e n w. unfold store_call. specialize (Hf w (clock e n)).
  destruct (f (w_store w) (clock e n)) as [s' r]. destruct (fate e n); try reflexivity; done.
Qed.

Lemma within_journal R `{!PreOrder R} f :
  (forall w now pid io, R w (with_journal w (f w.(w_journal) now pid io).1)) -> within R (journal_call f).
Proof.
  intros Hf e n w. unfold journal_call. specialize (Hf w (clock e n) (pid e) (io e n)).
  destruct (f _ _ _ _) as [j' r]. destruct (fate e n); try reflexivity; done.
Qed.

(** What a call that returns [Ok] has done. *)
Lemma store_call_ok f e n w u n' w' :
  store_call f e n w = Done (Ok u) n' w' ->
  f w.(w_store) (clock e n) = (w'.(w_store), Ok u) /\ w'.(w_journal) = w.(w_journal).
Proof.
  unfold store_call. destruct (f _ _) as [s' r]. destruct (fate e n); intros H; simplify_eq. done.
Qed.

(** ** Bills *)

(** The store changes by the store's own effects, on the bill of [k] only. *)
Record billing_step (k : RequestKey) (w w' : World) : Prop := mkBillingStep {
  bs_effects : rtc effect w.(w_store) w'.(w_store);
  bs_other : forall k', k' <> k -> w'.(w_store).(usage_events) !! k' = w.(w_store).(usage_events) !! k';
}.

#[global] Instance billing_step_preorder k : PreOrder (billing_step k).
Proof.
  split.
  - intros w. split; [apply rtc_refl|done].
  - intros w1 w2 w3 [H1 H2] [H3 H4]. split; [by etrans|]. intros k' Hk. by rewrite H4, H2.
Qed.

Lemma billing_usage k w w' : billing_step k w w' -> w.(w_store).(usage_events) ⊆ w'.(w_store).(usage_events).
Proof. intros [H _]. by apply effects_usage. Qed.

Lemma billing_same k w w' : w'.(w_store) = w.(w_store) -> billing_step k w w'.
Proof. intros E. split; rewrite E; [apply rtc_refl|done]. Qed.

Lemma op_billing_step k w op :
  (forall k', k' <> k -> (run_op w.(w_store) op).(usage_events) !! k' = w.(w_store).(usage_events) !! k') ->
  billing_step k w (with_store w (run_op w.(w_store) op)).
Proof. intros H. split; [apply run_op_effect|done]. Qed.

Lemma settle_tx_usage s t at_ demo x :
  settle_tx s t at_ demo = Ok x ->
  forall k', k' <> (t.(st_AccountID), t.(st_RequestID)) -> x.1.(usage_events) !! k' = s.(usage_events) !! k'.
Proof.
  destruct x as [s' [w n]]. intros H. apply settle_tx_inv in H as (r & _ & _ & _ & _ & _ & _ & ->).
  intros k' Hk'. simpl. by rewrite lookup_insert_ne by congruence.
Qed.

Lemma insert_event_usage s e b c x :
  insertUsageEventExec s e b c = Ok x ->
  forall k', k' <> event_key e -> x.1.(usage_events) !! k' = s.(usage_events) !! k'.
Proof.
  unfold insertUsageEventExec, insert_usage_or_ignore. intros H k' Hk.
  destruct (checked_total _ _ _); [|done]. simpl in H.
  destruct (insert_usage s _ _) as [s'|] eqn:Hi; destruct b; simpl in H; simplify_eq; simpl; try done;
    apply insert_usage_inv in Hi as (? & ? & ->); simpl; by rewrite lookup_insert_ne by congruence.
Qed.

Lemma ensure_usage_other s e c k' :
  k' <> event_key e -> (EnsureUsageEvent s e c).1.(usage_events) !! k' = s.(usage_events) !! k'.
Proof.
  intros Hk. unfold EnsureUsageEvent. set (e' := if _ =? 0 then _ else _).
  assert (event_key e' = event_key e) as Ek by (unfold e'; by destruct (_ =? 0)).
  destruct (insertUsageEventExec _ _ _ _) as [[s' n]|] eqn:Hx; [|done].
  apply insert_event_usage with (k' := k') in Hx; [|congruence]. simpl in Hx.
  destruct (0 <? n); [done|]. by destruct (usage_events s' !! event_key e').
Qed.

Lemma refund_usage s k a : (RefundReservation s k a).1.(usage_events) = s.(usage_events).
Proof. unfold RefundReservation, update_active. destruct (_ !! k); [|done]. by destruct (_ && _)%bool. Qed.

Lemma ensure_demo_usage s d c : (EnsureDemoUsageEvent s d c).1.(usage_events) = s.(usage_events).
Proof.
  unfold EnsureDemoUsageEvent. simpl. destruct (insert_demo _ _ _) as [s'|] eqn:Hd; [|done].
  by apply insert_demo_frame in Hd as [_ ->].
Qed.

(** The calls of the ladder, and the ladder, bill nothing but their own request. *)
Lemma settle_call_within t demo :
  within (billing_step (t.(st_AccountID), t.(st_RequestID))) (settle_call t demo).
Proof.
  apply within_store; [apply _|]. intros w c. destruct demo as [d|].
  - apply (op_billing_step _ _ (OpSettleDemo t d c)). intros k' Hk. simpl. unfold SettleDemoReservation.
    destruct (settle_tx _ _ _ _) as [x|] eqn:Hx; [simpl|done].
    destruct (insert_demo _ _ _) as [s'|] eqn:Hd; [simpl|done].
    apply insert_demo_frame in Hd as [_ ->]. by eapply settle_tx_usage.
  - apply (op_billing_step _ _ (OpSettle t c)). intros k' Hk. simpl. unfold SettleReservation.
    destruct (settle_tx _ _ _ _) as [x|] eqn:Hx; [simpl|done]. by eapply settle_tx_usage.
Qed.

Lemma ensure_call_within e : within (billing_step (event_key e)) (store_call (fun s c => EnsureUsageEvent s e c)).
Proof.
  apply within_store; [apply _|]. intros w c. apply (op_billing_step _ _ (OpEnsureUsage e c)).
  intros k' Hk. by apply ensure_usage_other.
Qed.

Lemma refund_call_within k k' : within (billing_step k) (refund_call k').
Proof.
  apply within_bind; [apply _|apply within_now; apply _|]. intros t. apply within_store; [apply _|].
  intros w c. apply (op_billing_step _ _ (OpRefund k' (t / second))). intros k'' _. simpl. by rewrite refund_usage.
Qed.

Lemma ensure_demo_within k req sub window total : within (billing_step k) (ensure_demo req sub window total).
Proof.
  unfold ensure_demo. destruct (String.eqb _ ""); [apply within_ret; apply _|].
  apply within_bind; [apply _|apply within_now; apply _|]. intros t.
  apply within_bind; [apply _| |intros; apply within_ret; apply _].
  apply within_store; [apply _|]. intros w c.
  apply (op_billing_step _ _ (OpEnsureDemo (mkDemoEvent req (sub_DemoIdentity sub) (sub_DemoTokenHash sub) window total t) c)).
  intros k' _. cbn [run_op]. by rewrite ensure_demo_usage.
Qed.

Lemma journal_within k f : within (billing_step k) (journal_call f).
Proof. apply within_journal; [apply _|]. intros. by apply billing_same. Qed.

Lemma seal_within k key res : within (billing_step k) (sealSettlementEffect key res).
Proof. apply within_bind; [apply _|apply journal_within|]. intros. apply within_ret; apply _. Qed.

Lemma clear_within k key : within (billing_step k) (attempts_clear key).
Proof. intros e n w. by apply billing_same. Qed.

Lemma next_within k key : within (billing_step k) (attempts_next key).
Proof. intros e n w. by apply billing_same. Qed.

Lemma quarantine_within k key reason n : within (billing_step k) (quarantineSettlementEffect key reason n).
Proof.
  apply within_bind; [apply _| |].
  - intros e m w. apply (journal_within k (fun j => WriteQuarantine j (fsync e) key reason n) e m w).
  - intros _. apply within_bind; [apply _|apply clear_within|]. intros _. apply within_ret; apply _.
Qed.
End Handlers.

Create HintDb handlers.
#[export] Hint Resolve within_ret within_now settle_call_within ensure_call_within refund_call_within
  ensure_demo_within seal_within clear_within next_within quarantine_within : handlers.
#[export] Hint Extern 1 (PreOrder _) => apply _ : handlers.

(** Splits a handler into its calls. *)
Ltac within_calls :=
  repeat match goal with
  | |- within _ (mbind _ _) => apply within_bind; [apply _| |intros]
  | |- within _ (if ?b then _ else _) => destruct b
  | |- within _ (match ?r with Ok _ => _ | Err _ => _ end) => destruct r
  | |- within _ (match ?e with ErrUsageEventConflict => _ | _ => _ end) => destruct e
  end; eauto with handlers.

Section Ladder.
Context {RC : RecordCodec}.

Lemma redrive_settle_within r : within (billing_step (record_request r)) (redrive_settle r).
Proof.
  unfold redrive_settle. within_calls.
Qed.

Lemma redrive_within r : within (billing_step (record_request r)) (redriveSettlementEffect r).
Proof.
  unfold redriveSettlementEffect, redrive_conflict, redrive_ensured. pose proof redrive_settle_within.
  within_calls; eapply (ensure_call_within (record_event r _)).
Qed.

(** ** A re-drive that reports success has billed the effect *)

Definition bills (r : Record_) (u : UsageRow) : Prop :=
  u.(demo_identity) = r.(DemoIdentity) /\ u.(prompt_tokens) = r.(PromptTokens)
  /\ u.(completion_tokens) = r.(CompletionTokens) /\ u.(total_tokens) = r.(TotalTokens)
  /\ u.(token_source) = r.(TokenSource) /\ u.(outcome) = r.(Outcome_).

Definition held_open (s : Store) (k : RequestKey) : bool :=
  match s.(quota_reservations) !! k with Some r => is_active r | None => false end.

Lemma bind_done {A B} (c : M A) (k : A -> M B) e n w b n' w' :
  mbind c k e n w = Done b n' w' ->
  exists a n1 w1, c e n w = Done a n1 w1 /\ k a e n1 w1 = Done b n' w'.
Proof. unfold mbind. destruct (c e n w) as [a n1 w1|]; [|done]. eauto. Qed.

Lemma checked_total_value p c x total :
  checked_total p c x = Ok total -> total = if x =? 0 then Int64.add p c else x.
Proof. unfold checked_total, require. intros H. split_ifs; simpl in *; simplify_eq; done. Qed.

Lemma consistent_total r total :
  TokensConsistent r = true ->
  checked_total r.(PromptTokens) r.(CompletionTokens) r.(TotalTokens) = Ok total -> total = r.(TotalTokens).
Proof.
  unfold TokensConsistent. intros Hc ->%checked_total_value. split_ifs; try done; lia.
Qed.

Definition billed_closed (r : Record_) (s : Store) : Prop :=
  (exists u, s.(usage_events) !! record_request r = Some u /\ bills r u)
  /\ held_open s (record_request r) = false.

Lemma settle_tx_bill s r a0 at_ demo x :
  TokensConsistent r = true -> settle_tx s (record_settlement r a0) at_ demo = Ok x ->
  demo = r.(DemoIdentity) -> billed_closed r x.1.
Proof.
  destruct x as [s' [win total]]. intros Hc H Hd.
  apply settle_tx_inv in H as (res & _ & _ & _ & Hn & _ & _ & ->). simpl.
  unfold normalizeSettlementTokens in Hn. simpl in Hn.
  destruct (checked_total _ _ _) as [t|] eqn:Ht; simpl in Hn; [|done].
  apply (consistent_total _ _ Hc) in Ht as ->. destruct (require _ _); simpl in Hn; simplify_eq.
  split.
  - eexists. simpl. rewrite lookup_insert_eq. split; [done|]. by split_and!.
  - unfold held_open. simpl. by rewrite lookup_insert_eq.
Qed.

Lemma settle_call_bill r a0 demo e n w u n' w' :
  TokensConsistent r = true ->
  r.(DemoIdentity) = match demo with Some d => d.(de_ClientIP) | None => "" end ->
  settle_call (record_settlement r a0) demo e n w = Done (Ok u) n' w' -> billed_closed r w'.(w_store).
Proof.
  intros Hc Hd H. unfold settle_call in H. apply store_call_ok in H as [H _]. destruct demo as [d|].
  - unfold SettleDemoReservation in H. destruct (settle_tx _ _ _ _) as [x|] eqn:Hx; [simpl in H|done].
    apply settle_tx_bill in Hx as [Hu Hh]; [|done..].
    destruct (insert_demo _ _ _) as [s'|] eqn:Hi; simpl in H; simplify_eq.
    apply insert_demo_frame in Hi as [E1 E2]. split; [by rewrite E2|]. unfold held_open in *. by rewrite E1.
  - unfold SettleReservation in H. destruct (settle_tx _ _ _ _) as [x|] eqn:Hx; simpl in H; [|done].
    apply settle_tx_bill in Hx; [|done..]. injection H as <- _; done.
Qed.

Lemma redrive_settle_bill r e n w u n' w' :
  TokensConsistent r = true -> redrive_settle r e n w = Done (Ok u) n' w' -> billed_closed r w'.(w_store).
Proof.
  intros Hc H. unfold redrive_settle in H. apply bind_done in H as (at_ & n1 & w1 & _ & H).
  destruct (String.eqb _ "") eqn:Ed; bool_hyps.
  - eapply settle_call_bill; [done| |exact H]. done.
  - apply bind_done in H as (c & n2 & w2 & _ & H). eapply settle_call_bill; [done| |exact H]. done.
Qed.

(** The idempotent rung: the row exists with the event's payload. *)
Lemma ensure_ok s e c s' u :
  EnsureUsageEvent s e c = (s', Ok u) ->
  exists row, s'.(usage_events) !! event_key e = Some row
    /\ same_payload e (if e.(ue_TotalTokens) =? 0 then Int64.add e.(ue_PromptTokens) e.(ue_CompletionTokens)
                       else e.(ue_TotalTokens)) row = true.
Proof.
  unfold EnsureUsageEvent.
  set (e' := if _ =? 0 then with_total _ _ else e).
  set (t := if _ =? 0 then Int64.add _ _ else ue_TotalTokens e).
  assert (event_key e' = event_key e /\ ue_TotalTokens e' = t /\ forall tt row, same_payload e' tt row = same_payload e tt row)
    as (Ek & Et & Ep) by (unfold e', t; by destruct (_ =? 0)).
  intros H. destruct (insertUsageEventExec s e' true c) as [[s1 n]|] eqn:Hx; [|done].
  destruct (0 <? n) eqn:Hn.
  - injection H as <- _. unfold insertUsageEventExec in Hx.
    destruct (checked_total _ _ _) as [total|] eqn:Ht; simpl in Hx; [|done].
    unfold insert_usage_or_ignore in Hx. destruct (insert_usage _ _ _) as [s2|] eqn:Hi; injection Hx as <- <-; [|done].
    apply insert_usage_inv in Hi as (_ & _ & ->). unfold with_usage. cbn [usage_events].
    rewrite <- Ek, lookup_insert_eq. eexists. split; [done|].
    rewrite <- Ep. assert (total = t) as ->.
    { apply checked_total_value in Ht as ->. rewrite Et. destruct (t =? 0) eqn:E0; [|done].
      replace (Int64.add (ue_PromptTokens e') (ue_CompletionTokens e'))
        with (Int64.add (ue_PromptTokens e) (ue_CompletionTokens e)) by (unfold e'; by destruct (ue_TotalTokens e =? 0)).
      unfold t in E0 |- *. destruct (ue_TotalTokens e =? 0) eqn:Ez; [done|congruence]. }
    unfold same_payload, event_row. simpl. by rewrite !String.eqb_refl, !Z.eqb_refl.
  - destruct (usage_events s1 !! event_key e') as [row|] eqn:Hr; [|done].
    destruct (same_payload e' (ue_TotalTokens e') row) eqn:Hp; [|done]. injection H as <- _.
    exists row. rewrite <- Ek, <- Ep, <- Et. done.
Qed.

Lemma same_payload_bills r t u :
  TokensConsistent r = true ->
  same_payload (record_event r t)
    (if TotalTokens r =? 0 then Int64.add (PromptTokens r) (CompletionTokens r) else TotalTokens r) u = true ->
  bills r u.
Proof.
  unfold same_payload, bills, TokensConsistent. simpl. intros Hc H. bool_hyps.
  repeat match goal with H : (_ =? _) = true |- _ => apply Z.eqb_eq in H end.
  split_and!; try done. split_ifs; lia.
Qed.

(** A refund that is not a database failure leaves no active hold. *)
Lemma refund_benign k e n w res n' w' :
  refund_call k e n w = Done res n' w' -> benign res = true -> held_open w'.(w_store) k = false.
Proof.
  intros H Hb. apply bind_done in H as (t & n1 & w1 & _ & H). unfold store_call in H.
  destruct (RefundReservation _ _ _) as [s' r] eqn:Hr. destruct (fate e n1); simplify_eq; try done.
  simpl. unfold RefundReservation, update_active in Hr.
  destruct (quota_reservations (w_store w1) !! k) as [x|] eqn:Hk.
  - destruct (is_active x) eqn:Ha; simpl in Hr; simplify_eq; unfold held_open; simpl.
    + by rewrite lookup_insert_eq.
    + by rewrite Hk.
  - simplify_eq. unfold held_open. by rewrite Hk.
Qed.

(** Nothing but a store call changes the store. *)
Definition store_kept (w w' : World) : Prop := w'.(w_store) = w.(w_store).
#[global] Instance store_kept_preorder : PreOrder store_kept.
Proof. split; [done|]. intros w1 w2 w3 H1 H2. unfold store_kept in *. congruence. Qed.

Lemma seal_store k res : within store_kept (sealSettlementEffect k res).
Proof.
  apply within_bind; [apply _|apply within_journal; [apply _|done]|]. intros. apply within_ret. apply _.
Qed.

Lemma billed_closed_mono r k w w' :
  billed_closed r w.(w_store) -> billing_step k w w' ->
  (exists u, w'.(w_store).(usage_events) !! record_request r = Some u /\ bills r u).
Proof. intros [(u & Hu & Hb) _] H. exists u. split; [|done]. eapply lookup_weaken; [done|by eapply billing_usage]. Qed.

Lemma quarantine_result k reason m e n w q n' w' :
  quarantineSettlementEffect k reason m e n w = Done q n' w' -> q = RecoveredQuarantined.
Proof.
  intros H. apply bind_done in H as (x & n1 & w1 & _ & H). apply bind_done in H as (y & n2 & w2 & _ & H).
  by injection H as <-.
Qed.

Lemma seal_done k res e n w u n' w' :
  sealSettlementEffect k res e n w = Done u n' w' -> w'.(w_store) = w.(w_store).
Proof. intros H. pose proof (seal_store k res e n w) as Hs. by rewrite H in Hs. Qed.

(** The two completions of a re-drive that seal. *)
Lemma redrive_ensured_bill r e n w res n' w' :
  (exists u, w.(w_store).(usage_events) !! record_request r = Some u /\ bills r u) ->
  redrive_ensured r e n w = Done res n' w' -> res <> Ok RecoveredRetry -> billed_closed r w'.(w_store).
Proof.
  intros (u & Hu & Hb) H Hres. unfold redrive_ensured in H.
  apply bind_done in H as (x & n1 & w1 & H1 & H). apply bind_done in H as (y & n2 & w2 & H2 & H).
  pose proof (ensure_demo_within (record_request r) (RequestID r) (record_subject r) (WindowDate r) (TotalTokens r) e n w) as B1.
  rewrite H1 in B1. pose proof (refund_call_within (record_request r) (record_request r) e n1 w1) as B2. rewrite H2 in B2.
  destruct (benign y) eqn:Hy; simpl in H; [|by injection H as <-].
  apply bind_done in H as (z & n3 & w3 & H3 & H). apply seal_done in H3. injection H as _ _ <-.
  assert (w_store (with_attempts w3 (delete (key_of r) (w_attempts w3))) = w_store w2) as -> by done.
  split; [|by eapply refund_benign]. exists u. split; [|done].
  eapply lookup_weaken; [done|]. etrans; by eapply billing_usage.
Qed.

Lemma redrive_conflict_result r e n w res n' w' :
  redrive_conflict r e n w = Done res n' w' -> res = Ok RecoveredRetry \/ res = Ok RecoveredQuarantined.
Proof.
  intros H. apply bind_done in H as (y & n2 & w2 & H2 & H).
  destruct (negb (benign y)); [injection H as <-; by left|].
  apply bind_done in H as (a & n3 & w3 & H3 & H). destruct (_ <? _); [injection H as <-; by left|].
  apply bind_done in H as (q & n4 & w4 & H4 & H). apply quarantine_result in H4 as ->.
  injection H as <-. by right.
Qed.

(** Claim C5. A re-drive never reports a bill it has not made: whatever calls fail, take
    effect late or are lost, when it reports [settled] or [usage_event] the usage row of
    the request exists with the tokens, source, outcome and demo identity of the
    journaled effect and no hold of the request is left active; and at any end, return
    or crash, no other request's bill has changed and a bill that existed is the same. *)
Theorem redrive_bills_effect (r : Record_) (e : Env) (n : nat) (w : World) :
  match redriveSettlementEffect r e n w with
  | Done res _ w' =>
      billing_step (record_request r) w w' /\ w.(w_store).(usage_events) ⊆ w'.(w_store).(usage_events) /\
      (res = Ok RecoveredSettled \/ res = Ok RecoveredUsageEvent -> billed_closed r w'.(w_store))
  | Crashed w' => billing_step (record_request r) w w' /\ w.(w_store).(usage_events) ⊆ w'.(w_store).(usage_events)
  end.
Proof.
  pose proof (redrive_within r e n w) as Hw.
  destruct (redriveSettlementEffect r e n w) as [res n' w'|w'] eqn:H;
    [|split; [done|by eapply billing_usage]].
  split_and!; [done|by eapply billing_usage|]. intros Hres. unfold redriveSettlementEffect in H.
  destruct (negb (String.eqb _ _)); [injection H as <-; by destruct Hres|].
  destruct (negb (TokensConsistent r)) eqn:Hc.
  { apply bind_done in H as (q & n1 & w1 & Hq & H). apply quarantine_result in Hq as ->.
    injection H as <-. by destruct Hres. }
  apply negb_false_iff in Hc. apply bind_done in H as (s & n1 & w1 & Hs & H). destruct s as [[]|err].
  - apply (redrive_settle_bill _ _ _ _ _ _ _ Hc) in Hs. apply bind_done in H as (u & n2 & w2 & H2 & H).
    apply seal_done in H2. injection H as _ _ <-. simpl. by rewrite H2.
  - apply bind_done in H as (t & n2 & w2 & _ & H). apply bind_done in H as (x & n3 & w3 & Hx & H).
    destruct x as [[]|err'].
    + eapply redrive_ensured_bill; [|done|].
      * apply store_call_ok in Hx as [Hx _]. apply ensure_ok in Hx as (u & Hu & Hp). exists u. split; [done|].
        by eapply same_payload_bills.
      * by destruct Hres as [->| ->].
    + destruct err'; try (injection H as <-; by destruct Hres).
      apply redrive_conflict_result in H as [->| ->]; by destruct Hres.
Qed.

(** ** A sealed effect is billed *)

Definition is_billed (w : World) (k : RequestKey) : Prop := is_Some (w.(w_store).(usage_events) !! k).

Record world_ok (w : World) : Prop := mkWorldOk {
  wo_journal : journal_ok w.(w_journal);
  wo_ascii : forall r, recorded w.(w_journal).(jr_dir) r -> record_ascii r;
  wo_sealed : forall r, recorded w.(w_journal).(jr_dir) r -> is_seal r = true -> is_billed w (record_request r);
}.

(** Computations of the store only. *)
Definition store_step (w w' : World) : Prop :=
  w'.(w_journal) = w.(w_journal) /\ w.(w_store).(usage_events) ⊆ w'.(w_store).(usage_events).
#[global] Instance store_step_preorder : PreOrder store_step.
Proof. split; [by split|]. intros w1 w2 w3 [H1 H2] [H3 H4]. split; [congruence|by etrans]. Qed.

Lemma store_step_ok w w' : store_step w w' -> world_ok w -> world_ok w'.
Proof.
  intros [E Hu] [H1 H2 H3]. split; rewrite E; [done..|]. intros r Hr Hs.
  destruct (H3 r Hr Hs) as [u Hk]. exists u. by eapply lookup_weaken.
Qed.

Lemma store_step_billed w w' k : store_step w w' -> is_billed w k -> is_billed w' k.
Proof. intros [_ Hu] [u Hk]. exists u. by eapply lookup_weaken. Qed.

Lemma op_store_step (f : Store -> Z -> Store * result unit) (g : Store -> Z -> QuotaOp) :
  (forall s c, (f s c).1 = run_op s (g s c)) -> within store_step (store_call f).
Proof.
  intros Hf. apply within_store; [apply _|]. intros w c. split; [done|]. simpl. rewrite Hf.
  apply effects_usage, run_op_effect.
Qed.

Lemma settle_call_step t demo : within store_step (settle_call t demo).
Proof.
  destruct demo as [d|].
  - apply (op_store_step _ (fun _ c => OpSettleDemo t d c)). done.
  - apply (op_store_step _ (fun _ c => OpSettle t c)). done.
Qed.

Lemma ensure_call_step e : within store_step (store_call (fun s c => EnsureUsageEvent s e c)).
Proof. by apply (op_store_step _ (fun _ c => OpEnsureUsage e c)). Qed.

Lemma refund_call_step k : within store_step (refund_call k).
Proof.
  apply within_bind; [apply _|apply within_now; apply _|]. intros t.
  by apply (op_store_step _ (fun _ _ => OpRefund k (t / second))).
Qed.

Lemma ensure_demo_step req sub window total : within store_step (ensure_demo req sub window total).
Proof.
  unfold ensure_demo. destruct (String.eqb _ ""); [apply within_ret; apply _|].
  apply within_bind; [apply _|apply within_now; apply _|]. intros t.
  apply within_bind; [apply _| |intros; apply within_ret; apply _].
  by apply (op_store_step _ (fun _ c => OpEnsureDemo (mkDemoEvent req (sub_DemoIdentity sub) (sub_DemoTokenHash sub) window total t) c)).
Qed.

Lemma clear_step k : within store_step (attempts_clear k).
Proof. intros e n w. by split. Qed.
Lemma next_step k : within store_step (attempts_next k).
Proof. intros e n w. by split. Qed.

(** Every end of [c], started in a good world where [P] holds, is good, and a return
    satisfies [Q]. *)
Definition whole_env (e : Env) : Prop := forall n, whole (io e n) = true.
Definition keeps {A} (P : World -> Prop) (c : M A) (Q : A -> World -> Prop) : Prop := forall e n w,
  whole_env e -> world_ok w -> P w ->
  match c e n w with Done a _ w' => world_ok w' /\ Q a w' | Crashed w' => world_ok w' end.

Lemma keeps_ret {A} P (a : A) (Q : A -> World -> Prop) : (forall w, P w -> Q a w) -> keeps P (mret a) Q.
Proof. intros H e n w _ Hw Hp. simpl. auto. Qed.

Lemma keeps_bind {A B} P (c : M A) Q (k : A -> M B) R :
  keeps P c Q -> (forall a, keeps (Q a) (k a) R) -> keeps P (mbind c k) R.
Proof.
  intros Hc Hk e n w He Hw Hp. specialize (Hc e n w He Hw Hp). unfold mbind.
  destruct (c e n w) as [a n' w'|w']; [|done]. destruct Hc as [Hw' Hq]. by apply Hk.
Qed.

Lemma keeps_weaken {A} (P P' : World -> Prop) (c : M A) Q :
  keeps P c Q -> (forall w, P' w -> P w) -> keeps P' c Q.
Proof. intros Hc HP e n w He Hw Hp. apply Hc; auto. Qed.

Lemma keeps_pure {A} (φ : Prop) (c : M A) Q : (φ -> keeps (fun _ => True) c Q) -> keeps (fun _ => φ) c Q.
Proof. intros Hc e n w He Hw Hp. by apply Hc. Qed.

Lemma keeps_step {A} P (c : M A) :
  within store_step c -> (forall w w', store_step w w' -> P w -> P w') -> keeps P c (fun _ w => P w).
Proof.
  intros Hc HP e n w He Hw Hp. specialize (Hc e n w).
  destruct (c e n w); [split|]; eauto using store_step_ok.
Qed.

(** Journal writes: a seal needs the bill. *)
Lemma keeps_append P (f : Env -> Journal -> Z -> Z -> IoFault -> Journal * (JournalError + unit)) (r : Record_) :
  (forall e j now pid io, exists sync, f e j now pid io = append_record j r sync now pid io) ->
  record_ascii r -> (forall w, P w -> is_seal r = true -> is_billed w (record_request r)) ->
  (forall w j, P w -> P (with_journal w j)) ->
  keeps P (fun e => journal_call (f e) e) (fun _ w => P w).
Proof.
  intros Hf Ha Hb Hj e n w He Hw Hp. destruct (Hf e (w_journal w) (clock e n) (pid e) (io e n)) as [sync E].
  pose proof (append_ok (w_journal w) r sync (clock e n) (pid e) (io e n) (wo_journal _ Hw) Ha (He n)) as H.
  unfold journal_call. rewrite E. destruct (append_record _ _ _ _ _ _) as [j' res]. destruct H as [Hj' H].
  assert (forall x, recorded (jr_dir j') x -> recorded (jr_dir (w_journal w)) x
    \/ x = stamp_record (clock e n / 1000000) r) as Hr.
  { intros x Hx. destruct H as [[_ H]|H]; apply H in Hx; auto. }
  assert (world_ok (with_journal w j')) as Hw'.
  { split; [done|..]; intros x Hx; destruct (Hr x Hx) as [Ho| ->].
    - by apply (wo_ascii _ Hw).
    - done.
    - by apply (wo_sealed _ Hw).
    - intros Hs. exact (Hb w Hp Hs). }
  destruct (fate e n); [by split; [|apply Hj]..|done].
Qed.

Lemma ascii_const t : forallb (fun c => (N_of_ascii c <? 128)%N) (GoStr.chars t) = true -> ascii_only t.
Proof. rewrite Forall_forallb. intros H. eapply Forall_impl; [done|]. intros c. by rewrite N.ltb_lt. Qed.

Ltac ascii := repeat constructor; first [assumption|by apply ascii_const].

Definition key_ascii (k : Key) : Prop := ascii_only k.1.1 /\ ascii_only k.1.2 /\ ascii_only k.2.

Lemma seal_keeps k res :
  key_ascii k -> ascii_only res ->
  keeps (fun w => is_billed w (k.1.1, k.1.2)) (sealSettlementEffect k res) (fun _ w => True).
Proof.
  intros (? & ? & ?) ?. eapply keeps_bind; [|intros; by apply keeps_ret].
  apply (keeps_append _ (fun _ j => WriteSeal j k res) (seal_record k res)); [|ascii|done|done].
  intros. by exists false.
Qed.

Lemma quarantine_keeps k reason n :
  key_ascii k -> ascii_only reason ->
  keeps (fun _ => True) (quarantineSettlementEffect k reason n) (fun _ _ => True).
Proof.
  intros (? & ? & ?) ?. eapply keeps_bind.
  - apply (keeps_append (fun _ => True) (fun e j => WriteQuarantine j (fsync e) k reason n)
      (quarantine_record k reason n)); [|ascii|done|done]. intros. by eexists.
  - intros ?. eapply keeps_bind; [by apply keeps_step; [apply clear_step|]|]. intros. by apply keeps_ret.
Qed.

(** A store call that bills [k] when it returns [Ok]. *)
Lemma keeps_billing k (f : Store -> Z -> Store * result unit) :
  within store_step (store_call f) ->
  (forall s c s' u, f s c = (s', Ok u) -> is_Some (s'.(usage_events) !! k)) ->
  keeps (fun _ => True) (store_call f) (fun r w => forall u, r = Ok u -> is_billed w k).
Proof.
  intros Hs Hf e n w He Hw _. specialize (Hs e n w). destruct (store_call f e n w) as [r n' w'|w'] eqn:H;
    [|by eapply store_step_ok]. split; [by eapply store_step_ok|]. intros u ->.
  apply store_call_ok in H as [H _]. by eapply Hf.
Qed.

Lemma settle_billed s t c s' u :
  SettleReservation s t c = (s', Ok u) -> is_Some (s'.(usage_events) !! (t.(st_AccountID), t.(st_RequestID))).
Proof.
  unfold SettleReservation. destruct (settle_tx _ _ _ _) as [[s1 [w n]]|] eqn:Hx; intros [= <- <-].
  apply settle_tx_inv in Hx as (r & _ & _ & _ & _ & _ & _ & ->). simpl. by rewrite lookup_insert_eq.
Qed.

Lemma settle_demo_billed s t d c s' u :
  SettleDemoReservation s t d c = (s', Ok u) -> is_Some (s'.(usage_events) !! (t.(st_AccountID), t.(st_RequestID))).
Proof.
  unfold SettleDemoReservation. destruct (settle_tx _ _ _ _) as [[s1 [w n]]|] eqn:Hx; simpl; [|done].
  destruct (insert_demo _ _ _) as [s2|] eqn:Hd; intros [= <- <-].
  apply settle_tx_inv in Hx as (r & _ & _ & _ & _ & _ & _ & ->). apply insert_demo_frame in Hd as [_ ->].
  simpl. by rewrite lookup_insert_eq.
Qed.

Lemma settle_call_keeps t demo :
  keeps (fun _ => True) (settle_call t demo)
    (fun r w => forall u, r = Ok u -> is_billed w (t.(st_AccountID), t.(st_RequestID))).
Proof.
  apply keeps_billing; [apply settle_call_step|]. intros s c s' u. destruct demo; [apply settle_demo_billed|apply settle_billed].
Qed.

Lemma ensure_call_keeps e :
  keeps (fun _ => True) (store_call (fun s c => EnsureUsageEvent s e c))
    (fun r w => forall u, r = Ok u -> is_billed w (event_key e)).
Proof.
  apply keeps_billing; [apply ensure_call_step|]. intros s c s' u H.
  apply ensure_ok in H as (row & Hr & _). by exists row.
Qed.

Lemma keeps_now P : (forall w w', store_step w w' -> P w -> P w') -> keeps P now_ (fun _ w => P w).
Proof. intros HP. apply keeps_step; [|done]. apply within_now. apply _. Qed.

(** The end of the idempotent rung keeps the bill it found. *)
Lemma rung_keeps {A} k (c : M A) :
  within store_step c -> keeps (fun w => is_billed w k) c (fun _ w => is_billed w k).
Proof. intros Hc. apply keeps_step; [done|]. intros w w'. apply store_step_billed. Qed.

Lemma settleRequest_keeps req sub prompt completion maxTotal source outcome :
  keeps (fun _ => True) (settleRequest req sub prompt completion maxTotal source outcome)
    (fun r w => forall u, r = Ok u -> is_billed w (sub.(sub_AccountID), req)).
Proof.
  unfold settleRequest. eapply keeps_bind; [by apply keeps_now|]. intros t. simpl.
  destruct (String.eqb _ ""); [exact (settle_call_keeps (mkSettlement _ _ _ _ _ _ _ _ _) None)|].
  eapply keeps_bind; [by apply keeps_now|]. intros t'.
  exact (settle_call_keeps (mkSettlement _ _ _ _ _ _ _ _ _) (Some _)).
Qed.

Lemma redrive_settle_keeps r :
  keeps (fun _ => True) (redrive_settle r) (fun x w => forall u, x = Ok u -> is_billed w (record_request r)).
Proof.
  unfold redrive_settle. eapply keeps_bind; [by apply keeps_now|]. intros t. simpl.
  destruct (String.eqb _ ""); [apply (settle_call_keeps (record_settlement r t) None)|].
  eapply keeps_bind; [by apply keeps_now|]. intros t'.
  apply (settle_call_keeps (record_settlement r t) (Some _)).
Qed.

Definition subject_ascii (sub : usageSubject) : Prop :=
  ascii_only sub.(sub_AccountID) /\ ascii_only sub.(sub_DemoIdentity) /\ ascii_only sub.(sub_DemoTokenHash).

Lemma settleAfterCommit_keeps date req sub prompt completion maxTotal source outcome window :
  (forall t, ascii_only (date t)) -> subject_ascii sub -> Forall ascii_only [req; source; outcome; window] ->
  keeps (fun _ => True) (settleAfterCommit date req sub prompt completion maxTotal source outcome window)
    (fun _ _ => True).
Proof.
  intros Hd (Ha & Hi & Ht) Hs. rewrite !Forall_cons in Hs. destruct Hs as (Hq & Hsrc & Ho & Hw & _).
  unfold settleAfterCommit. apply keeps_bind with (Q := fun win _ => ascii_only win).
  { destruct (String.eqb window ""); [|by apply keeps_ret].
    eapply keeps_bind; [by apply keeps_now|]. intros t. by apply keeps_ret. }
  intros win. apply keeps_pure. intros Hwin.
  eapply keeps_bind.
  { apply (keeps_append (fun _ => True) (fun e j => WriteEffect j (fsync e) (settle_record sub req win prompt completion maxTotal source outcome))
      (effect_record (settle_record sub req win prompt completion maxTotal source outcome)));
      [intros; by eexists|ascii|done|done]. }
  intros armed. simpl.
  assert (forall res, ascii_only res -> keeps (fun w => is_billed w (sub_AccountID sub, req))
    (match armed with inr _ => sealSettlementEffect (sub_AccountID sub, req, EffectSettle) res | inl _ => mret tt end)
    (fun _ _ => True)) as Hseal.
  { intros res Hres. destruct armed; [by apply keeps_ret|].
    apply (seal_keeps (sub_AccountID sub, req, EffectSettle)); [|done]. split_and!; [done..|by apply ascii_const]. }
  eapply keeps_bind; [apply settleRequest_keeps|]. intros [u|err]; simpl.
  { eapply keeps_weaken; [apply Hseal; by apply ascii_const|]. intros w H. by apply (H u). }
  eapply keeps_bind; [by apply keeps_now|]. intros t. simpl. eapply keeps_bind.
  { eapply keeps_weaken; [apply ensure_call_keeps|done]. }
  intros [u|err']; simpl.
  - eapply keeps_bind; [eapply keeps_weaken; [apply (rung_keeps (sub_AccountID sub, req)), ensure_demo_step|]|].
    { intros w H. by apply (H u). }
    intros ?. simpl. eapply keeps_bind; [apply rung_keeps, refund_call_step|]. intros x. simpl.
    destruct (benign x); [apply Hseal; by apply ascii_const|by apply keeps_ret].
  - eapply keeps_bind; [eapply keeps_weaken; [apply (keeps_step (fun _ => True)); [apply refund_call_step|done]|done]|].
    intros ?. by apply keeps_ret.
Qed.

Lemma redrive_keeps r :
  record_ascii r -> keeps (fun _ => True) (redriveSettlementEffect r) (fun _ _ => True).
Proof.
  intros Ha. assert (key_ascii (key_of r)) as Hk.
  { unfold record_ascii, record_texts in Ha. rewrite !Forall_cons in Ha. unfold key_ascii. simpl. intuition. }
  unfold redriveSettlementEffect. destruct (negb _); [by apply keeps_ret|].
  destruct (negb (TokensConsistent r)).
  { eapply keeps_bind; [apply quarantine_keeps; [done|by apply ascii_const]|]. intros. by apply keeps_ret. }
  eapply keeps_bind; [apply redrive_settle_keeps|]. intros [u|err]; simpl.
  { eapply keeps_bind; [eapply keeps_weaken; [apply (seal_keeps (key_of r)); [done|by apply ascii_const]|]|].
    - intros w H. by apply (H u).
    - intros ?. eapply keeps_bind; [by apply keeps_step; [apply clear_step|]|]. intros. by apply keeps_ret. }
  eapply keeps_bind; [by apply keeps_now|]. intros t. simpl. eapply keeps_bind.
  { eapply keeps_weaken; [apply ensure_call_keeps|done]. }
  intros [u|err']; simpl.
  - unfold redrive_ensured. eapply keeps_bind; [eapply keeps_weaken; [apply (rung_keeps (record_request r)), ensure_demo_step|]|].
    { intros w H. by apply (H u). }
    intros ?. simpl. eapply keeps_bind; [apply rung_keeps, refund_call_step|]. intros x. simpl.
    destruct (negb (benign x)); [by apply keeps_ret|].
    eapply keeps_bind; [apply (seal_keeps (key_of r)); [done|by apply ascii_const]|]. intros ?.
    eapply keeps_bind; [by apply keeps_step; [apply clear_step|]|]. intros. by apply keeps_ret.
  - assert (keeps (fun _ => True) (redrive_conflict r) (fun _ _ => True)) as Hconf.
    { unfold redrive_conflict. eapply keeps_bind; [apply (keeps_step (fun _ => True)); [apply refund_call_step|done]|].
      intros x. simpl. destruct (negb (benign x)); [by apply keeps_ret|].
      eapply keeps_bind; [apply (keeps_step (fun _ => True)); [apply next_step|done]|].
      intros a. simpl. destruct (_ <? _); [by apply keeps_ret|].
      eapply keeps_bind; [apply quarantine_keeps; [done|by apply ascii_const]|]. intros. by apply keeps_ret. }
    destruct err'; first [by apply keeps_ret|by eapply keeps_weaken].
Qed.

Lemma recover_loop_keeps limit grace now queue m :
  Forall record_ascii queue -> keeps (fun _ => True) (recover_loop limit grace now queue m) (fun _ _ => True).
Proof.
  revert m. induction queue as [|r queue IH]; intros m Hq; simpl; [by apply keeps_ret|].
  apply Forall_cons in Hq as [Hr Hq]. destruct (_ <=? _); [by apply keeps_ret|].
  apply keeps_bind with (Q := fun _ _ => True); [by intros e n w ? ? ?|]. intros done. simpl.
  destruct done; [by apply keeps_ret|]. destruct (_ && _)%bool; [by apply IH|].
  eapply keeps_bind; [by apply redrive_keeps|]. intros res. by apply IH.
Qed.

Lemma prune_world_ok w before : world_ok w -> world_ok (with_journal w (Prune w.(w_journal) before)).
Proof.
  intros [H1 H2 H3]. split; simpl; [by apply prune_ok|..]; intros r Hr; apply prune_recorded in Hr; [by apply H2|].
  by apply H3.
Qed.

Lemma recover_keeps limit grace retention :
  keeps (fun _ => True) (RecoverSettlementJournal limit grace retention) (fun _ _ => True).
Proof.
  unfold RecoverSettlementJournal. apply keeps_bind with (Q := fun sc _ => Forall record_ascii (Unsealed sc)).
  { intros e n w He Hw _. split; [done|]. apply Forall_forall. intros r Hr.
    apply (wo_ascii _ Hw). by apply (scan_spec (jr_dir (w_journal w))). }
  intros sc. apply keeps_pure. intros Hq. eapply keeps_bind; [by apply keeps_now|]. intros now. simpl.
  eapply keeps_bind; [by apply recover_loop_keeps|]. intros m. simpl. destruct (0 <? retention); [|by apply keeps_ret].
  eapply keeps_bind with (Q := fun _ _ => True); [|intros; by apply keeps_ret].
  intros e n w He Hw _. simpl. split; [|done]. by apply prune_world_ok.
Qed.

(** What happens to the gateway: requests settle and recovery passes run, in any
    environment, to their end or to a crash; the store serves any other call; the
    journal is pruned; the process restarts. *)
Definition ends {A} (c : M A) (e : Env) (w w' : World) : Prop :=
  match c e 0%nat w with Done _ _ w1 => w' = w1 | Crashed w1 => w' = w1 end.

Inductive world_step : World -> World -> Prop :=
  | ws_settle w w' e date req sub prompt completion maxTotal source outcome window :
      whole_env e -> (forall t, ascii_only (date t)) -> subject_ascii sub ->
      Forall ascii_only [req; source; outcome; window] ->
      ends (settleAfterCommit date req sub prompt completion maxTotal source outcome window) e w w' ->
      world_step w w'
  | ws_recover w w' e limit grace retention :
      whole_env e -> ends (RecoverSettlementJournal limit grace retention) e w w' -> world_step w w'
  | ws_store w op : world_step w (with_store w (run_op w.(w_store) op))
  | ws_prune w before : world_step w (with_journal w (Prune w.(w_journal) before))
  | ws_restart w a b : world_step w (mkWorld w.(w_store) (Open_ w.(w_journal).(jr_dir) a b) ∅).

Lemma keeps_ends {A} (c : M A) e w w' :
  keeps (fun _ => True) c (fun _ _ => True) -> whole_env e -> ends c e w w' -> world_ok w -> world_ok w'.
Proof.
  intros Hc He H Hw. specialize (Hc e 0%nat w He Hw I). unfold ends in H.
  destruct (c e 0%nat w); subst; [by destruct Hc|done].
Qed.

Lemma world_step_ok w w' : world_step w w' -> world_ok w -> world_ok w'.
Proof.
  intros [] Hw.
  - eapply keeps_ends; [by apply settleAfterCommit_keeps|done..].
  - eapply keeps_ends; [apply recover_keeps|done..].
  - eapply store_step_ok; [|done]. split; [done|]. apply effects_usage, run_op_effect.
  - by apply prune_world_ok.
  - destruct Hw as [[Hf Hc] H2 H3]. by split; [split|..].
Qed.

Definition fresh_world (s : Store) (a b : Z) : World := mkWorld s (Open_ ∅ a b) ∅.

Lemma fresh_world_ok s a b : world_ok (fresh_world s a b).
Proof.
  split; simpl; [apply empty_journal_ok|..]; intros r (n & f & Hf & _); by rewrite lookup_empty in Hf.
Qed.

(** A seal in the journal always means a durable bill: starting from an
    empty journal, after any interleaving of settlements, recovery passes, other store
    calls, prunes and restarts, with any call failing, reporting a late error or
    being cut off by a crash, but no journal write torn inside a line, every effect
    sealed in the journal has its usage row, so suppressing its re-drive loses no
    money. *)
Theorem sealed_effect_is_billed (s : Store) (a b : Z) (w : World) (r : Record_) :
  rtc world_step (fresh_world s a b) w ->
  recorded w.(w_journal).(jr_dir) r -> is_seal r = true ->
  exists u, w.(w_store).(usage_events) !! (r.(AccountID), r.(RequestID)) = Some u.
Proof.
  intros Hw Hr Hs. assert (world_ok w) as [_ _ H].
  { clear Hr. remember (fresh_world s a b) as w0 eqn:E. assert (world_ok w0) as H0 by (subst; apply fresh_world_ok).
    clear E. induction Hw; eauto using world_step_ok. }
  destruct (H r Hr Hs) as [u Hu]. by exists u.
Qed.

(** ** Recovery comes to an end *)

(** An environment in which no call fails. *)
Definition calm (e : Env) : Prop := forall n, fate e n = Runs /\ io e n = IoOk.

(** The journal takes the record at any reading of the clock. *)
Definition accepts (e : Env) (j : Journal) (r : Record_) : Prop :=
  j.(jr_closed) = false /\
  forall n, j.(jr_totalBytes) + Z.of_nat (length (marshal (stamp_record (clock e n / 1000000) r) ++ [newline]))
            <= j.(jr_maxTotalBytes).

(** An effect the store can take: consistent totals in the 64-bit range, and a token
    source of the schema. *)
Record drivable (r : Record_) : Prop := mkDrivable {
  dr_ascii : record_ascii r;
  dr_effect : r.(Effect) = EffectSettle;
  dr_tokens : TokensConsistent r = true;
  dr_range : r.(PromptTokens) <= Int64.max /\ r.(CompletionTokens) <= Int64.max;
  dr_source : existsb (String.eqb r.(TokenSource)) token_sources = true;
}.

Definition closed_in (w : World) (k : Key) : Prop :=
  exists x, recorded w.(w_journal).(jr_dir) x /\ closes k x = true.

Lemma calm_store f e n w :
  calm e -> store_call f e n w
  = Done (f w.(w_store) (clock e n)).2 (S n) (with_store w (f w.(w_store) (clock e n)).1).
Proof. intros He. unfold store_call. destruct (f _ _). by rewrite (proj1 (He n)). Qed.

Lemma accepted_append w r sync e n :
  calm e -> journal_ok w.(w_journal) -> record_ascii r -> accepts e w.(w_journal) r ->
  exists j' u, append_record w.(w_journal) r sync (clock e n) (pid e) (io e n) = (j', u)
    /\ recorded j'.(jr_dir) (stamp_record (clock e n / 1000000) r).
Proof.
  intros He Hj Ha [Hc Hr]. rewrite (proj2 (He n)).
  pose proof (append_ok (w_journal w) r sync (clock e n) (pid e) IoOk Hj Ha eq_refl) as H.
  destruct (append_record _ _ _ _ _ _) as [j' u] eqn:E. exists j', u. split; [done|].
  destruct H as [_ [[Hne _]|H]]; [|apply H; by right].
  unfold append_record in E. rewrite Hc in E. specialize (Hr n).
  destruct (_ <? _) eqn:El in E; [lia|]. injection E as _ <-. done.
Qed.

Lemma calm_seal k res e n w :
  calm e -> journal_ok w.(w_journal) -> record_ascii (seal_record k res) ->
  accepts e w.(w_journal) (seal_record k res) ->
  exists n' w', sealSettlementEffect k res e n w = Done tt n' w' /\ closed_in w' k.
Proof.
  intros He Hj Ha Hc. destruct (accepted_append w _ false e n He Hj Ha Hc) as (j' & u & E & Hr).
  unfold sealSettlementEffect, mbind, journal_call. rewrite (proj1 (He n)). unfold WriteSeal. rewrite E.
  eexists _, _. split; [reflexivity|]. eexists. split; [exact Hr|]. unfold closes. simpl.
  apply bool_decide_eq_true_2. by destruct k as [[] ].
Qed.

Lemma calm_quarantine k reason m e n w :
  calm e -> journal_ok w.(w_journal) -> record_ascii (quarantine_record k reason m) ->
  accepts e w.(w_journal) (quarantine_record k reason m) ->
  exists n' w', quarantineSettlementEffect k reason m e n w = Done RecoveredQuarantined n' w' /\ closed_in w' k.
Proof.
  intros He Hj Ha Hc. destruct (accepted_append w _ (fsync e) e n He Hj Ha Hc) as (j' & u & E & Hr).
  unfold quarantineSettlementEffect, mbind, journal_call. rewrite (proj1 (He n)). unfold WriteQuarantine. rewrite E.
  eexists _, _. split; [reflexivity|]. eexists. split; [exact Hr|]. unfold closes. simpl.
  apply bool_decide_eq_true_2. by destruct k as [[] ].
Qed.

Lemma refund_result s k a : benign (RefundReservation s k a).2 = true.
Proof. unfold RefundReservation, update_active. destruct (_ !! k); [|done]. by destruct (_ && _)%bool. Qed.

(** Consistent totals in the 64-bit range did not overflow. *)
Lemma consistent_checked r :
  TokensConsistent r = true -> PromptTokens r <= Int64.max -> CompletionTokens r <= Int64.max ->
  checked_total (PromptTokens r) (CompletionTokens r) (TotalTokens r) = Ok (TotalTokens r)
  /\ TotalTokens r = Int64.add (PromptTokens r) (CompletionTokens r).
Proof.
  unfold TokensConsistent. intros Hc Hp Hq. destruct (_ || _)%bool eqn:E in Hc; [done|].
  apply Z.eqb_eq in Hc. bool_hyps.
  assert (PromptTokens r + CompletionTokens r <= Int64.max) as Hle.
  { destruct (Z.le_gt_cases (PromptTokens r + CompletionTokens r) Int64.max) as [|Hgt]; [done|exfalso].
    unfold Int64.add, Int64.wrap, Int64.max, Int64.half, Int64.modulus in *.
    rewrite (Z.mod_eq _ _) in Hc by done.
    assert ((PromptTokens r + CompletionTokens r + 9223372036854775808) / 18446744073709551616 = 1) as Hd
      by (symmetry; apply (Z.div_unique _ _ 1 (PromptTokens r + CompletionTokens r - 9223372036854775808)); lia).
    lia. }
  assert (Int64.sub Int64.max (CompletionTokens r) = Int64.max - CompletionTokens r) as Hs.
  { apply Int64.sub_exact. unfold Int64.in_range, Int64.min, Int64.max in *. lia. }
  split; [|done]. unfold checked_total. rewrite Hs.
  repeat match goal with H : (_ <? 0) = false |- _ => rewrite H end. simpl.
  destruct (_ <? PromptTokens r) eqn:El; [lia|]. simpl. rewrite <- Hc.
  destruct (TotalTokens r =? 0); [done|]. by rewrite Z.eqb_refl.
Qed.

(** A drivable effect finds its row, writes it, or conflicts with it. *)
Lemma ensure_result s r t c :
  drivable r ->
  (EnsureUsageEvent s (record_event r t) c).2 = Ok tt
  \/ (EnsureUsageEvent s (record_event r t) c).2 = Err ErrUsageEventConflict.
Proof.
  intros [_ _ Hc [Hp Hq] Hs]. destruct (consistent_checked r Hc Hp Hq) as [Ht Et]. unfold EnsureUsageEvent.
  set (e' := if _ =? 0 then _ else _).
  assert (e' = record_event r t) as ->.
  { unfold e'. simpl. destruct (TotalTokens r =? 0); [|done]. unfold with_total, record_event. simpl. by rewrite <- Et. }
  unfold insertUsageEventExec, insert_usage_or_ignore, insert_usage. simpl. rewrite Ht. simpl.
  destruct (usage_events s !! event_key (record_event r t)) as [u|] eqn:Hu; simpl.
  - rewrite Hu. simpl. destruct (same_payload _ _ _); auto.
  - unfold TokensConsistent in Hc. destruct (_ || _)%bool eqn:E in Hc; [done|]. bool_hyps.
    unfold usage_row_checks, event_row. cbn [prompt_tokens completion_tokens total_tokens token_source
      ue_PromptTokens ue_CompletionTokens ue_TokenSource record_event].
    rewrite Hs. repeat match goal with H : (?x <? 0) = false |- _ =>
      apply Z.ltb_ge, Z.leb_le in H; rewrite H end. by left.
Qed.
(** A handler that in a calm environment returns a result satisfying [P] and changes
    nothing but the store. *)
Definition stores {A} (P : A -> Prop) (c : M A) : Prop :=
  forall e n w, calm e -> exists a n' s', c e n w = Done a n' (with_store w s') /\ P a.

Lemma stores_ret {A} (P : A -> Prop) a : P a -> stores P (mret a).
Proof. intros H e n w _. exists a, n, (w_store w). by destruct w. Qed.

Lemma stores_bind {A B} (P : A -> Prop) (Q : B -> Prop) (c : M A) (k : A -> M B) :
  stores P c -> (forall a, P a -> stores Q (k a)) -> stores Q (mbind c k).
Proof.
  intros Hc Hk e n w He. destruct (Hc e n w He) as (a & n1 & s1 & E1 & Ha).
  destruct (Hk a Ha e n1 (with_store w s1) He) as (b & n2 & s2 & E2 & Hb).
  exists b, n2, s2. unfold mbind. by rewrite E1.
Qed.

Lemma stores_now : stores (fun _ => True) now_.
Proof. intros e n w _. eexists _, _, (w_store w). by destruct w. Qed.

Lemma stores_call (P : result unit -> Prop) f : (forall s c, P (f s c).2) -> stores P (store_call f).
Proof. intros H e n w He. rewrite calm_store by done. eexists _, _, _. split; [done|apply H]. Qed.

Lemma stores_settle r : stores (fun _ => True) (redrive_settle r).
Proof.
  eapply stores_bind; [apply stores_now|]. intros t _. destruct (String.eqb _ ""); [by apply stores_call|].
  eapply stores_bind; [apply stores_now|]. intros t' _. by apply stores_call.
Qed.

Lemma stores_ensure_demo req sub window total : stores (fun _ => True) (ensure_demo req sub window total).
Proof.
  unfold ensure_demo. destruct (String.eqb _ ""); [by apply stores_ret|].
  eapply stores_bind; [apply stores_now|]. intros t _.
  eapply stores_bind; [by apply (stores_call (fun _ => True))|]. intros. by apply stores_ret.
Qed.

Lemma stores_refund k : stores (fun x => benign x = true) (refund_call k).
Proof.
  eapply stores_bind; [apply stores_now|]. intros t _. apply stores_call. intros. apply refund_result.
Qed.

(** What the records a re-drive of [k] may have to write need. *)
Record room (e : Env) (w : World) (k : Key) : Prop := mkRoom {
  rm_ok : journal_ok w.(w_journal);
  rm_settled : accepts e w.(w_journal) (seal_record k SealSettled);
  rm_usage : accepts e w.(w_journal) (seal_record k SealUsageEvent);
  rm_conflict : accepts e w.(w_journal)
    (quarantine_record k "usage_event_conflict" settlementJournalMaxConflictAttempts);
}.

Lemma room_store e w s k : room e w k -> room e (with_store w s) k.
Proof. intros []. by split. Qed.

Definition tries (w : World) (k : Key) : Z := default 0 (w.(w_attempts) !! k).

Lemma key_records_ascii r :
  record_ascii r -> (forall res, ascii_only res -> record_ascii (seal_record (key_of r) res))
    /\ (forall reason m, ascii_only reason -> record_ascii (quarantine_record (key_of r) reason m)).
Proof.
  unfold record_ascii, record_texts. rewrite !Forall_cons.
  intros (_ & Ha & Hq & He & _). split; intros; simpl; rewrite !Forall_cons; split_and!;
    first [done|by apply ascii_const|by apply Forall_nil].
Qed.

(** A calm re-drive ends; it closes the effect, or counts one more conflict. *)
Lemma calm_redrive r e n w :
  calm e -> drivable r -> room e w (key_of r) -> 0 <= tries w (key_of r) < settlementJournalMaxConflictAttempts ->
  exists res n' w', redriveSettlementEffect r e n w = Done res n' w' /\
    (closed_in w' (key_of r)
     \/ (tries w' (key_of r) = tries w (key_of r) + 1 /\ tries w' (key_of r) < settlementJournalMaxConflictAttempts)).
Proof.
  intros He Hd Hrm Ht. pose proof Hd as [Ha Hs Hc Hr Hsrc]. destruct (key_records_ascii r Ha) as [Has Haq].
  unfold redriveSettlementEffect. rewrite Hs, Hc, String.eqb_refl. simpl.
  destruct (stores_settle r e n w He) as (x & n1 & s1 & E1 & _). unfold mbind. rewrite E1. destruct x as [u|err].
  { apply (room_store e w s1) in Hrm as [Hj Hset _ _].
    destruct (calm_seal (key_of r) SealSettled e n1 (with_store w s1) He Hj (Has SealSettled ltac:(by apply ascii_const)) Hset)
      as (n2 & w2 & E2 & Hcl). rewrite E2. eexists _, _, _. split; [reflexivity|]. left. exact Hcl. }
  simpl. rewrite calm_store by done. cbn [with_store w_store w_journal w_attempts].
  destruct (ensure_result s1 r (clock e n1) (clock e (S n1)) Hd) as [->| ->].
  - unfold redrive_ensured, mbind. set (w2 := with_store (with_store w s1) _).
    destruct (stores_ensure_demo (RequestID r) (record_subject r) (WindowDate r) (TotalTokens r) e (S (S n1)) w2 He)
      as (y & n3 & s3 & E3 & _). rewrite E3.
    destruct (stores_refund (record_request r) e n3 (with_store w2 s3) He) as (z & n4 & s4 & E4 & Hz).
    rewrite E4, Hz. simpl. apply (room_store e w s4) in Hrm as [Hj _ Hus _].
    destruct (calm_seal (key_of r) SealUsageEvent e n4 (with_store w s4) He Hj (Has SealUsageEvent ltac:(by apply ascii_const)) Hus)
      as (n5 & w5 & E5 & Hcl). change (with_store (with_store w2 s3) s4) with (with_store w s4). rewrite E5.
    eexists _, _, _. split; [reflexivity|]. left. exact Hcl.
  - unfold redrive_conflict, mbind. set (w2 := with_store (with_store w s1) _).
    destruct (stores_refund (record_request r) e (S (S n1)) w2 He) as (z & n4 & s4 & E4 & Hz).
    rewrite E4, Hz. unfold attempts_next. cbn [negb]. change (w_attempts (with_store w2 s4)) with (w_attempts w).
    fold (tries w (key_of r)). destruct (tries w (key_of r) + 1 <? _) eqn:El.
    + eexists _, _, _. split; [reflexivity|]. right.
      match goal with |- tries ?w3 _ = _ /\ _ => assert (tries w3 (key_of r) = tries w (key_of r) + 1) as -> end;
        [|lia]. unfold tries at 1. simpl. by rewrite lookup_insert_eq.
    + set (w3 := with_attempts _ _). assert (tries w (key_of r) + 1 = settlementJournalMaxConflictAttempts) as -> by lia.
      destruct Hrm as [Hj _ _ Hq].
      destruct (calm_quarantine (key_of r) "usage_event_conflict" settlementJournalMaxConflictAttempts e n4 w3 He Hj
        (Haq "usage_event_conflict" _ ltac:(by apply ascii_const)) Hq) as (n5 & w5 & E5 & Hcl). rewrite E5.
      eexists _, _, _. split; [reflexivity|]. left. exact Hcl.
Qed.

(** Claim C4. Recovery comes to an end: re-drive one effect again and again, with calls
    that succeed and room in the journal, and whatever other requests and passes do to
    the store and the journal in between, as long as the process keeps its conflict
    counter; within ten re-drives the effect is closed in the journal, by a seal or,
    when another bill of the request keeps conflicting, by a quarantine. *)
Theorem redrive_closes_within_ten (r : Record_) (es : nat -> Env) (before after : nat -> World) :
  drivable r ->
  (forall i, (i < 10)%nat -> calm (es i) /\ room (es i) (before i) (key_of r)
             /\ ends (redriveSettlementEffect r) (es i) (before i) (after i)) ->
  (forall i, (S i < 10)%nat -> tries (before (S i)) (key_of r) = tries (after i) (key_of r)) ->
  tries (before 0%nat) (key_of r) = 0 ->
  exists m, (m < 10)%nat /\ closed_in (after m) (key_of r).
Proof.
  intros Hd Hstep Hkeep H0.
  assert (forall i, (i < 10)%nat -> tries (before i) (key_of r) = Z.of_nat i ->
    closed_in (after i) (key_of r)
    \/ (tries (after i) (key_of r) = Z.of_nat i + 1 /\ Z.of_nat i + 1 < settlementJournalMaxConflictAttempts)) as calm_step.
  { intros i Hi Ht. destruct (Hstep i Hi) as (He & Hrm & Hend).
    destruct (calm_redrive r (es i) 0%nat (before i) He Hd Hrm) as (res & n' & w' & E & Hw);
      [unfold settlementJournalMaxConflictAttempts; lia|].
    unfold ends in Hend. rewrite E in Hend. subst w'. rewrite Ht in Hw. destruct Hw as [|[-> ?]]; auto. }
  assert (forall i, (i < 10)%nat -> (exists m, (m <= i)%nat /\ closed_in (after m) (key_of r))
    \/ (tries (after i) (key_of r) = Z.of_nat i + 1 /\ Z.of_nat i + 1 < settlementJournalMaxConflictAttempts)) as H.
  { intros i Hi. assert ((exists m, (m < i)%nat /\ closed_in (after m) (key_of r)) \/ tries (before i) (key_of r) = Z.of_nat i)
      as [(m & Hm & Hcl)|Ht].
    - induction i as [|i IH]; [by right|]. destruct IH as [(m & Hm & Hcl)|Ht]; [lia|left; exists m; auto|].
      destruct (calm_step i ltac:(lia) Ht) as [Hcl|[Ht' _]]; [left; exists i; auto|]. right. rewrite Hkeep; lia.
    - left. exists m. auto with lia.
    - destruct (calm_step i Hi Ht) as [Hcl|Ht']; [left; exists i; auto|by right]. }
  destruct (H 9%nat) as [(m & Hm & Hcl)|[_ Hlt]]; [lia|exists m; auto with lia|].
  unfold settlementJournalMaxConflictAttempts in Hlt. lia.
Qed.
End Ladder.

(** ** A gateway at work *)

Module RecoverySample.
#[local] Existing Instance SampleCodec.codec.
Definition t0 : Z := QuotaSample.t0.
Definition env : Env := mkEnv (fun _ => Runs) (fun _ => t0) (fun _ => IoOk) (fun _ => false) 7 true.
Definition subject : usageSubject := mkSubject "acct" "" "".
Definition held : Store := run_ops empty_store [OpReserve (QuotaSample.reserve "r1" 60) t0].
Definition date : utc_date := fun _ => "2023-11-14".

(** The state at the end of a handler. *)
Definition final {A} (c : M A) (w : World) : World :=
  match c env 0%nat w with Done _ _ w' => w' | Crashed w' => w' end.
Definition settled_world : World :=
  final (settleAfterCommit date "r1" subject 10 20 60 "provider_reported" "ok" "2023-11-14") (fresh_world held 0 0).
Definition segment : string := segmentName_ (t0 / 1000000) 7.
Definition seal : Record_ := stamp_record (t0 / 1000000) (seal_record ("acct", "r1", "settle") "settled").
Definition segment_file : File := default (mkFile [] 0) (settled_world.(w_journal).(jr_dir) !! segment).

(** An effect whose request already has another bill. *)
Definition effect : Record_ :=
  mkRecord 1 "effect" "acct" "r1" "settle" 1000 "2023-11-14" 1 2 3 60 "provider_reported" "ok" "" "" "" "" 0.
Definition conflicted (i : nat) : World :=
  mkWorld settled_world.(w_store) (Open_ ∅ 0 0) {[key_of effect := Z.of_nat i]}.
End RecoverySample.

#[local] Existing Instance SampleCodec.codec.

Lemma redrive_bills_effect_witness :
  match redriveSettlementEffect RecoverySample.effect RecoverySample.env 0%nat (fresh_world RecoverySample.held 0 0) with
  | Done res _ w' => res = Ok RecoveredSettled /\ billed_closed RecoverySample.effect w'.(w_store)
  | Crashed _ => False
  end.
Proof.
  pose proof (redrive_bills_effect RecoverySample.effect RecoverySample.env 0%nat
    (fresh_world RecoverySample.held 0 0)) as H.
  destruct (redriveSettlementEffect _ _ _ _) as [res n w'|w'] eqn:E; [|vm_compute in E; discriminate].
  assert (res = Ok RecoveredSettled) as Hr by (vm_compute in E; injection E as <- _ _; reflexivity).
  split; [exact Hr|]. apply H. left. exact Hr.
Defined.

Lemma sealed_effect_is_billed_witness :
  exists u, RecoverySample.settled_world.(w_store).(usage_events) !! ("acct", "r1") = Some u.
Proof.
  apply (sealed_effect_is_billed RecoverySample.held 0 0 RecoverySample.settled_world RecoverySample.seal).
  - apply rtc_once. apply (ws_settle _ _ RecoverySample.env RecoverySample.date "r1" RecoverySample.subject
      10 20 60 "provider_reported" "ok" "2023-11-14").
    + intros n. vm_compute. done.
    + intros t. by apply ascii_const.
    + split_and!; by apply ascii_const.
    + rewrite !Forall_cons, Forall_nil. split_and!; try done; by apply ascii_const.
    + vm_compute. reflexivity.
  - exists RecoverySample.segment, RecoverySample.segment_file. split_and!.
    + vm_compute. reflexivity.
    + vm_compute. reflexivity.
    + apply (list_elem_of_lookup_2 _ 1). vm_compute. reflexivity.
  - vm_compute. reflexivity.
Defined.

Lemma redrive_closes_within_ten_witness :
  exists m, (m < 10)%nat /\
    closed_in (RecoverySample.final (redriveSettlementEffect RecoverySample.effect) (RecoverySample.conflicted m))
      (key_of RecoverySample.effect).
Proof.
  apply (redrive_closes_within_ten RecoverySample.effect (fun _ => RecoverySample.env) RecoverySample.conflicted
    (fun i => RecoverySample.final (redriveSettlementEffect RecoverySample.effect) (RecoverySample.conflicted i))).
  - split; [repeat constructor|reflexivity..|vm_compute; done|reflexivity].
  - intros i _. split_and!; [done| |].
    + split; [apply empty_journal_ok|split; [reflexivity|intros n; vm_compute; discriminate]..].
    + unfold ends, RecoverySample.final. by destruct (redriveSettlementEffect _ _ _ _).
  - intros i Hi. do 9 (destruct i as [|i]; [vm_compute; reflexivity|]). lia.
  - vm_compute. reflexivity.
Defined.
