(* ===== verification/Evm.v ===== *)
(** The transactions of the payout wallet: [internal/payout/evm.go], the address
    helpers of [eip55.go], the signature helpers of [eip712.go] and the local signer of
    [signer.go].

    A byte is an integer from 0 to 255. The encoder and the decoder of RLP, the calldata
    of a USDC transfer, the EIP-1559 envelope and the check of what a signer returns are
    definitions; Keccak-256 and the secp256k1 operations are the class [EvmLib]. A Go
    function that may return an error or panic yields an [outcome].

    The theorems: what [SignedRLP] writes [DecodeSignedEIP1559] reads back; an envelope
    that passes [verifySignedTx] is a transfer of exactly the amount to exactly the
    address; what the local signer makes of a transaction the runner builds passes. *)
From S2P Require Import Prelude.

(** ** Outcomes *)

Inductive outcome (A : Type) := Done (a : A) | Error | Panic.
Arguments Done {A} a.
Arguments Error {A}.
Arguments Panic {A}.

#[global] Instance outcome_ret : MRet outcome := @Done.
#[global] Instance outcome_bind : MBind outcome := fun A B f m =>
  match m with Done a => f a | Error => Error | Panic => Panic end.

(** [if cond { return err }] *)
Definition check (ok : bool) : outcome unit := if ok then Done tt else Error.

Lemma check_done ok u : check ok = Done u -> ok = true.
Proof. by destruct ok. Qed.

(** A successful bind comes from a successful first part. *)
Lemma bind_outcome {A B} (m : outcome A) (f : A -> outcome B) b :
  m ≫= f = Done b -> exists a, m = Done a /\ f a = Done b.
Proof. destruct m; simpl; try discriminate. eauto. Qed.

(** Splits every bind and every check of a successful computation. *)
Ltac inv_done :=
  repeat match goal with
  | H : _ ≫= _ = Done _ |- _ => apply bind_outcome in H as (? & ? & H)
  | H : check _ = Done _ |- _ => apply check_done in H
  | H : mret _ = Done _ |- _ => injection H as H
  | H : Done _ = Done _ |- _ => injection H as H
  end.

(** ** Bytes *)

Abbreviation bytes := (list Z).

Definition is_byte (z : Z) : Prop := 0 <= z < 256.
Definition bytes_ok (b : bytes) : Prop := Forall is_byte b.
Definition bytes_eqb (a b : bytes) : bool := bool_decide (a = b).
Definition len (b : bytes) : Z := Z.of_nat (length b).
Definition repeat_zero (n : nat) : bytes := repeat 0 n.

Definition uint64_modulus : Z := 18446744073709551616.
Definition is_uint64 (z : Z) : Prop := 0 <= z < uint64_modulus.

(** [b[lo:hi]]: the slice, or the run-time panic of bounds out of range. *)
Definition slice (b : bytes) (lo hi : Z) : outcome bytes :=
  if (0 <=? lo) && (lo <=? hi) && (hi <=? len b)
  then Done (firstn (Z.to_nat (hi - lo)) (skipn (Z.to_nat lo) b)) else Panic.

(** [binary.BigEndian]-style bytes of [v], the lowest [n] of them. *)
Fixpoint be_bytes (n : nat) (v : Z) : bytes :=
  match n with
  | O => []
  | S n => Z.shiftr v (8 * Z.of_nat n) mod 256 :: be_bytes n v
  end.

(** [big.Int.SetBytes] *)
Definition SetBytes (b : bytes) : Z := fold_left (fun v x => v * 256 + x) b 0.

(** [big.Int.Bytes]: the absolute value in as few bytes as it takes. *)
Definition Bytes (v : Z) : bytes :=
  if v =? 0 then [] else be_bytes (Z.to_nat (Z.log2 (Z.abs v) / 8 + 1)) (Z.abs v).

(** [binaryBigEndianPutUint64] into a fresh buffer *)
Definition binaryBigEndianPutUint64 (v : Z) : bytes := be_bytes 8 v.

Fixpoint trimLeadingZeros (b : bytes) : bytes :=
  match b with
  | x :: b' => if x =? 0 then trimLeadingZeros b' else b
  | [] => []
  end.

Definition bigEndianLen (v : Z) : bytes := trimLeadingZeros (binaryBigEndianPutUint64 v).

(** The loop [v = (v << 8) | uint64(by)] of [bigEndianRead] and [rlpItemUint]. *)
Definition bigEndianRead (b : bytes) : Z :=
  fold_left (fun v x => Z.lor (Z.shiftl v 8 mod uint64_modulus) x) b 0.

(** [int(u)] of an unsigned 64-bit integer *)
Definition to_int (u : Z) : Z := Int64.wrap u.

(** ** RLP, encoding *)

Definition rlpBytes (b : bytes) : bytes :=
  match b with
  | [] => [128]
  | x :: l =>
      if (len b =? 1) && (x <? 128) then [x]
      else if len b <=? 55 then (128 + len b) :: b
      else let lenBytes := bigEndianLen (len b) in
           ((183 + len lenBytes) mod 256 :: lenBytes) ++ b
  end.

Definition rlpUint (v : Z) : bytes :=
  if v =? 0 then [128] else rlpBytes (trimLeadingZeros (binaryBigEndianPutUint64 v)).

Definition rlpBigInt (v : Z) : bytes :=
  if v =? 0 then [128] else rlpBytes (trimLeadingZeros (Bytes v)).

Definition rlpList (items : list bytes) : bytes :=
  let total := sumZ len items in
  if total =? 0 then [192]
  else if total <=? 55 then (192 + total) :: concat items
  else let lenBytes := bigEndianLen total in
       ((247 + len lenBytes) mod 256 :: lenBytes) ++ concat items.

(** ** RLP, decoding *)

Inductive rlpKind := rlpKindString | rlpKindList.

#[global] Instance rlpKind_eq_dec : EqDecision rlpKind.
Proof. solve_decision. Defined.

Definition between (lo hi z : Z) : bool := (lo <=? z) && (z <=? hi).

Definition rlpDecodeItemWithKind (b : bytes) : outcome (bytes * Z * rlpKind) :=
  match b with
  | [] => Error
  | prefix :: _ =>
      if prefix <? 128 then Done ([prefix], 1, rlpKindString)
      else if prefix =? 128 then Done ([], 1, rlpKindString)
      else if between 129 183 prefix then
        let l := prefix - 128 in
        _ ← check (negb (len b <? 1 + l));
        item ← slice b 1 (1 + l);
        Done (item, 1 + l, rlpKindString)
      else if between 184 191 prefix then
        let ll := prefix - 183 in
        _ ← check (negb (len b <? 1 + ll));
        header ← slice b 1 (1 + ll);
        let l := to_int (bigEndianRead header) in
        _ ← check (negb (len b <? Int64.add (1 + ll) l));
        item ← slice b (1 + ll) (Int64.add (1 + ll) l);
        Done (item, Int64.add (1 + ll) l, rlpKindString)
      else if prefix =? 192 then Done ([], 1, rlpKindList)
      else Error
  end.

(** [rlpDecodeItem], the same without the kind *)
Definition rlpDecodeItem (b : bytes) : outcome (bytes * Z) :=
  match b with
  | [] => Error
  | prefix :: _ =>
      if prefix <? 128 then Done ([prefix], 1)
      else if prefix =? 128 then Done ([], 1)
      else if between 129 183 prefix then
        let l := prefix - 128 in
        _ ← check (negb (len b <? 1 + l));
        item ← slice b 1 (1 + l);
        Done (item, 1 + l)
      else if between 184 191 prefix then
        let ll := prefix - 183 in
        _ ← check (negb (len b <? 1 + ll));
        header ← slice b 1 (1 + ll);
        let l := to_int (bigEndianRead header) in
        _ ← check (negb (len b <? Int64.add (1 + ll) l));
        item ← slice b (1 + ll) (Int64.add (1 + ll) l);
        Done (item, Int64.add (1 + ll) l)
      else if prefix =? 192 then Done ([], 1)
      else Error
  end.

(** The loop over the payload. Every item read takes a byte or more, so that the length
    of the payload is fuel enough ([decode_items_enough]). *)
Fixpoint decode_items {I} (item : bytes -> outcome (I * Z)) (fuel : nat) (payload : bytes)
    : outcome (list I) :=
  match payload with
  | [] => Done []
  | _ :: _ =>
      match fuel with
      | O => Panic
      | S fuel =>
          '(x, used) ← item payload;
          rest ← slice payload used (len payload);
          xs ← decode_items item fuel rest;
          Done (x :: xs)
      end
  end.

(** The length of the header and of the payload of a list. *)
Definition list_header (b : bytes) : outcome (Z * Z) :=
  match b with
  | [] => Error
  | prefix :: _ =>
      if between 192 247 prefix then Done (1, prefix - 192)
      else if between 248 255 prefix then
        let ll := prefix - 247 in
        _ ← check (negb (len b <? 1 + ll));
        header ← slice b 1 (1 + ll);
        Done (1 + ll, to_int (bigEndianRead header))
      else Error
  end.

Definition decode_list {I} (item : bytes -> outcome (I * Z)) (b : bytes)
    : outcome (list I * Z) :=
  '(headerLen, payloadLen) ← list_header b;
  _ ← check (negb (len b <? Int64.add headerLen payloadLen));
  payload ← slice b headerLen (Int64.add headerLen payloadLen);
  out ← decode_items item (length payload) payload;
  Done (out, Int64.add headerLen payloadLen).

Definition rlpDecodeListWithKinds (b : bytes) : outcome (list (bytes * rlpKind) * Z) :=
  decode_list (fun p => '(item, used, kind) ← rlpDecodeItemWithKind p;
                        Done (item, kind, used)) b.

Definition rlpDecodeList (b : bytes) : outcome (list bytes * Z) :=
  decode_list rlpDecodeItem b.

Definition rlpItemUint (b : bytes) : outcome Z :=
  _ ← check (len b <=? 8);
  Done (bigEndianRead b).

(** ** Texts *)

Definition text_bytes (l : list ascii) : bytes := map (fun c => Z.of_N (N_of_ascii c)) l.

Definition hex_char (d : Z) : ascii :=
  ascii_of_N (Z.to_N (if d <? 10 then 48 + d else 87 + d)).

(** [hex.EncodeToString] *)
Definition hex_chars (b : bytes) : list ascii :=
  flat_map (fun x => [hex_char (x / 16); hex_char (x mod 16)]) b.
Definition hex_text (b : bytes) : string := GoStr.of_chars (hex_chars b).

Definition code (c : ascii) : Z := Z.of_N (N_of_ascii c).

Definition nibble (c : ascii) : option Z :=
  if between 48 57 (code c) then Some (code c - 48)
  else if between 97 102 (code c) then Some (code c - 87)
  else if between 65 70 (code c) then Some (code c - 55) else None.

(** [hex.DecodeString] *)
Fixpoint hex_decode (l : list ascii) : option bytes :=
  match l with
  | [] => Some []
  | [_] => None
  | a :: b :: l =>
      x ← nibble a; y ← nibble b; rest ← hex_decode l; Some (16 * x + y :: rest)
  end.

Definition isHexAlphabet (l : list ascii) : bool :=
  forallb (fun c => between 48 57 (code c) || between 97 102 (code c)
                    || between 65 70 (code c)) l.

Definition upper_ascii (c : ascii) : ascii :=
  if between 97 122 (code c) then ascii_of_N (N_of_ascii c - 32)%N else c.

(** ** What the program takes from [x/crypto/sha3] and [dcrec/secp256k1] *)

Class EvmLib := {
  (** the legacy Keccak-256 digest *)
  keccak : bytes -> bytes;
  keccak_length b : length (keccak b) = 32%nat;
  keccak_bytes b : bytes_ok (keccak b);
  (** [ecdsa.RecoverCompact] of a signature and a digest, with the key serialised
      uncompressed; [None] is its error *)
  RecoverCompact : bytes -> bytes -> option bytes;
}.

Section Evm.
Context `{EvmLib}.

(** ** Addresses: [eip55.go] *)

Inductive AddressError := ErrBadFormat | ErrChecksumMismatch.

Definition checksum_char (digest : bytes) (i : nat) (c : ascii) : ascii :=
  let b := nth (i / 2) digest 0 in
  let hashNibble := Z.land (if Nat.even i then Z.shiftr b 4 else b) 15 in
  if (8 <=? hashNibble) && between 97 102 (code c)
  then ascii_of_N (N_of_ascii c - 97 + 65)%N else c.

Definition applyEIP55Checksum (lowerHex : list ascii) : list ascii :=
  imap (checksum_char (keccak (text_bytes lowerHex))) lowerHex.

Definition ParseAndCanonicalizeEIP55 (input : string) : AddressError + string :=
  let l := GoStr.chars input in
  if negb (length l =? 42)%nat then inl ErrBadFormat
  else if negb (GoStr.HasPrefix input "0x" || GoStr.HasPrefix input "0X") then inl ErrBadFormat
  else
    let hexBody := skipn 2 l in
    if negb (isHexAlphabet hexBody) then inl ErrBadFormat
    else
      let lower := map GoStr.lower_ascii hexBody in
      let canonical := "0x" +:+ GoStr.of_chars (applyEIP55Checksum lower) in
      let pureLower := bool_decide (hexBody = lower) in
      let pureUpper := bool_decide (hexBody = map upper_ascii hexBody) in
      if pureLower || pureUpper then inr canonical
      else if negb (String.eqb ("0x" +:+ GoStr.of_chars hexBody) canonical)
           then inl ErrChecksumMismatch
           else inr canonical.

Definition NormalizeAddress (input : string) : outcome string :=
  match ParseAndCanonicalizeEIP55 input with
  | inr canonical => Done (GoStr.ToLower canonical)
  | inl _ => Error
  end.

Definition AddressBytes (input : string) : outcome bytes :=
  match ParseAndCanonicalizeEIP55 input with
  | inr canonical =>
      match hex_decode (skipn 2 (GoStr.chars canonical)) with
      | Some raw => Done raw
      | None => Error
      end
  | inl _ => Error
  end.

Definition addressEqualFold (a b : string) : bool :=
  match NormalizeAddress a, NormalizeAddress b with
  | Done x, Done y => String.eqb x y
  | _, _ => false
  end.

(** ** A USDC transfer *)

Definition USDCContractAddressBase : string := "0x833589fCD6eDb6E08f4c7C32D4f71b54bdA02913".
Definition BaseMainnetChainID : Z := 8453.
Definition transferSelector : bytes := [169; 5; 156; 187].

Definition USDCTransferCalldata (toAddress : string) (amountBaseUnits : Z) : outcome bytes :=
  _ ← check (0 <? amountBaseUnits);
  addr ← AddressBytes toAddress;
  let out := transferSelector ++ (repeat_zero 12 ++ addr) ++ be_bytes 32 amountBaseUnits in
  _ ← check (len out =? 68);
  Done out.

Definition PadAddressTopic (addr : string) : outcome bytes :=
  b ← AddressBytes addr; Done (repeat_zero 12 ++ b).

(** ** The EIP-1559 transaction

    The big integers of the structure are never nil: the runner, the abandon handler and
    the decoder set all of them. *)
Record EIP1559Tx := mkTx {
  ChainID : Z;
  Nonce : Z;
  MaxPriorityFeePerGas : Z;
  MaxFeePerGas : Z;
  GasLimit : Z;
  To : bytes;
  Value : Z;
  Data : bytes;
}.

Definition Validate (t : EIP1559Tx) : outcome unit :=
  _ ← check (ChainID t =? BaseMainnetChainID);
  _ ← check (0 <=? MaxPriorityFeePerGas t);
  _ ← check (0 <=? MaxFeePerGas t);
  _ ← check (MaxPriorityFeePerGas t <=? MaxFeePerGas t);
  check (negb (GasLimit t =? 0)).

Definition prependEIP2718 (typeByte : Z) (rlpEncoded : bytes) : bytes := typeByte :: rlpEncoded.

(** The nine fields before the signature. *)
Definition tx_fields (t : EIP1559Tx) : list bytes :=
  [rlpUint (ChainID t); rlpUint (Nonce t); rlpBigInt (MaxPriorityFeePerGas t);
   rlpBigInt (MaxFeePerGas t); rlpUint (GasLimit t); rlpBytes (To t);
   rlpBigInt (Value t); rlpBytes (Data t); rlpList []].

Definition UnsignedRLP (t : EIP1559Tx) : outcome bytes :=
  _ ← Validate t;
  Done (prependEIP2718 2 (rlpList (tx_fields t ++ [rlpUint 0; rlpBytes []; rlpBytes []]))).

Definition SignedRLP (t : EIP1559Tx) (yParity : Z) (r s : bytes) : outcome bytes :=
  _ ← Validate t;
  _ ← check (yParity <=? 1);
  _ ← check (negb ((len r =? 0) || (32 <? len r) || (len s =? 0) || (32 <? len s)));
  Done (prependEIP2718 2 (rlpList (tx_fields t ++
    [rlpUint yParity; rlpBytes (trimLeadingZeros r); rlpBytes (trimLeadingZeros s)]))).

Definition TxHash (signedTxBytes : bytes) : string := "0x" +:+ hex_text (keccak signedTxBytes).

(** [copy(buf[32-len(b):], b)] into a zeroed buffer of 32 bytes *)
Definition left_pad32 (b : bytes) : bytes := repeat_zero (32 - length b) ++ b.

(** The fields of a decoded list, by position. *)
Definition decoded_fields (items : list (bytes * rlpKind))
    : outcome (EIP1559Tx * Z * bytes * bytes) :=
  match items with
  | [(i0, _); (i1, _); (i2, _); (i3, _); (i4, _); (i5, _); (i6, _); (i7, _); (i8, k8);
     (i9, _); (i10, _); (i11, _)] =>
      chainID ← rlpItemUint i0;
      nonce ← rlpItemUint i1;
      gasLimit ← rlpItemUint i4;
      _ ← check (len i5 =? 20);
      _ ← check (bool_decide (k8 = rlpKindList));
      _ ← check (len i8 =? 0);
      parityU ← rlpItemUint i9;
      _ ← check (parityU <=? 1);
      _ ← check (negb ((len i10 =? 0) || (32 <? len i10) || (len i11 =? 0) || (32 <? len i11)));
      Done (mkTx chainID nonce (SetBytes i2) (SetBytes i3) gasLimit i5 (SetBytes i6) i7,
            parityU, left_pad32 i10, left_pad32 i11)
  | _ => Error
  end.

Definition DecodeSignedEIP1559 (signedTxBytes : bytes)
    : outcome (EIP1559Tx * Z * bytes * bytes) :=
  _ ← check (negb (len signedTxBytes <? 2));
  _ ← check (match signedTxBytes with x :: _ => x =? 2 | [] => false end);
  let body := tail signedTxBytes in
  '(items, consumed) ← rlpDecodeListWithKinds body;
  _ ← check (consumed =? len body);
  decoded_fields items.

Definition SigningHash (t : EIP1559Tx) : outcome bytes :=
  unsigned ← UnsignedRLP t;
  Done (keccak unsigned).

(** [ecrecover] of [eip712.go] *)
Definition ecrecover (digest sig : bytes) : outcome string :=
  match RecoverCompact sig digest with
  | None => Error
  | Some uncompressed =>
      _ ← check (len uncompressed =? 65);
      _ ← check (match uncompressed with x :: _ => x =? 4 | [] => false end);
      Done ("0x" +:+ hex_text (skipn 12 (keccak (tail uncompressed))))
  end.

Definition RecoverTxSender (signedTxBytes : bytes) : outcome string :=
  '(tx, yParity, r, s) ← DecodeSignedEIP1559 signedTxBytes;
  digest ← SigningHash tx;
  ecrecover digest ((27 + yParity) mod 256 :: r ++ s).

(** ** Building and checking: [runner.go], [abandon.go] *)

Definition buildEIP1559 (nonce : Z) (effectiveAddress : string) (amount : Z)
    : outcome EIP1559Tx :=
  calldata ← USDCTransferCalldata effectiveAddress amount;
  usdcBytes ← AddressBytes USDCContractAddressBase;
  Done (mkTx BaseMainnetChainID (nonce mod uint64_modulus) 2000000000 50000000000 80000
          usdcBytes 0 calldata).

Section Verify.
Context (hotWallet : string).

Definition verifySignedTx (unsigned : EIP1559Tx) (signed : bytes) (returnedTxHash : string)
    (amount : Z) (effectiveAddress : string) : outcome unit :=
  '(decoded, _, _, _) ← DecodeSignedEIP1559 signed;
  _ ← check (Nonce decoded =? Nonce unsigned);
  _ ← check (ChainID decoded =? BaseMainnetChainID);
  _ ← check (bytes_eqb (To decoded) (To unsigned));
  _ ← check (Value decoded =? 0);
  let wantData := match USDCTransferCalldata effectiveAddress amount with
                  | Done d => d | _ => [] end in
  _ ← check (bytes_eqb (Data decoded) wantData);
  _ ← check (GoStr.EqualFold (TxHash signed) returnedTxHash);
  recovered ← RecoverTxSender signed;
  check (addressEqualFold recovered hotWallet).

Definition verifyCancelEnvelope (unsigned : EIP1559Tx) (signed : bytes) (returnedHash : string)
    : outcome unit :=
  '(decoded, _, _, _) ← DecodeSignedEIP1559 signed;
  _ ← check (Nonce decoded =? Nonce unsigned);
  _ ← check (ChainID decoded =? BaseMainnetChainID);
  let hotBytes := match AddressBytes hotWallet with Done b => b | _ => repeat_zero 20 end in
  _ ← check (bytes_eqb (To decoded) hotBytes);
  _ ← check ((0 <? Value decoded) && (Int64.wrap (Value decoded) =? 1));
  _ ← check (len (Data decoded) =? 0);
  _ ← check (String.eqb (TxHash signed) returnedHash);
  recovered ← RecoverTxSender signed;
  check (addressEqualFold recovered hotWallet).
End Verify.

(** ** The local signer: [signer.go] *)

Definition decodeUnsignedForSigning (items : list bytes) : outcome EIP1559Tx :=
  match items with
  | [i0; i1; i2; i3; i4; i5; i6; i7; _; _; _; _] =>
      chainID ← rlpItemUint i0;
      nonce ← rlpItemUint i1;
      gasLimit ← rlpItemUint i4;
      _ ← check (len i5 =? 20);
      Done (mkTx chainID nonce (SetBytes i2) (SetBytes i3) gasLimit i5 (SetBytes i6) i7)
  | _ => Error
  end.

Section Signer.
(** [ecdsa.SignCompact] with the private key of the signer *)
Context (SignCompact : bytes -> bytes).

(** [late] tells that the clock passed the deadline of 100 ms, [ctx_err] that the context
    was done at the start. *)
Definition SignTx (ctx_err late : bool) (unsignedTxBytes : bytes) : outcome (bytes * string) :=
  _ ← check (negb ctx_err);
  _ ← check (negb (len unsignedTxBytes <? 2)
             && match unsignedTxBytes with x :: _ => x =? 2 | [] => false end);
  let body := tail unsignedTxBytes in
  '(items, _) ← rlpDecodeList body;
  first ← match items with i :: _ => Done i | [] => Error end;
  chainID ← rlpItemUint first;
  _ ← check (chainID =? BaseMainnetChainID);
  let compact := SignCompact (keccak unsignedTxBytes) in
  tx ← decodeUnsignedForSigning items;
  signedBytes ← SignedRLP tx ((nth 0 compact 0 - 27) mod 256)
                  (firstn 32 (skipn 1 compact)) (firstn 32 (skipn 33 compact));
  _ ← check (negb late);
  Done (signedBytes, TxHash signedBytes).
End Signer.
End Evm.

(** ** Lemmas on bytes *)

Lemma len_nonneg b : 0 <= len b.
Proof. unfold len. lia. Qed.
Lemma len_app a b : len (a ++ b) = len a + len b.
Proof. unfold len. rewrite length_app. lia. Qed.
Lemma len_cons x b : len (x :: b) = 1 + len b.
Proof. unfold len. simpl length. lia. Qed.
Lemma len_nil : len [] = 0.
Proof. done. Qed.
Create Rewrite HintDb evm_len.
Global Hint Rewrite len_app len_cons len_nil : evm_len.
Create HintDb evm.
#[export] Hint Resolve len_nonneg : evm.

Ltac lens := autorewrite with evm_len in *.

Lemma slice_mid a b c lo hi :
  lo = len a -> hi = len a + len b -> slice (a ++ b ++ c) lo hi = Done b.
Proof.
  intros -> ->. unfold slice. pose proof (len_nonneg a). pose proof (len_nonneg b).
  pose proof (len_nonneg c).
  rewrite (proj2 (Z.leb_le 0 (len a))), (proj2 (Z.leb_le (len a) _)),
    (proj2 (Z.leb_le (len a + len b) _)) by (lens; lia). simpl.
  unfold len. rewrite Z.add_simpl_l, !Nat2Z.id. f_equal. rewrite drop_app_length. apply take_app_length.
Qed.

Lemma slice_tail a c lo hi : lo = len a -> hi = len a + len c -> slice (a ++ c) lo hi = Done c.
Proof.
  intros Hlo Hhi. pose proof (slice_mid a c [] lo hi Hlo Hhi) as Hs. by rewrite app_nil_r in Hs.
Qed.

Lemma be_bytes_length n v : length (be_bytes n v) = n.
Proof. induction n; simpl; congruence. Qed.

Lemma be_bytes_ok n v : bytes_ok (be_bytes n v).
Proof.
  induction n; simpl; [constructor|]. constructor; [|done].
  apply Z.mod_pos_bound. lia.
Qed.

Lemma SetBytes_from b acc :
  fold_left (fun v x => v * 256 + x) b acc = acc * 256 ^ len b + SetBytes b.
Proof.
  unfold SetBytes. revert acc. induction b as [|x b IH]; intros acc; cbn [fold_left]; [lens; lia|].
  rewrite (IH (acc * 256 + x)), (IH (0 * 256 + x)). lens. rewrite Z.pow_add_r by (unfold len; lia). lia.
Qed.

Lemma SetBytes_cons x b : SetBytes (x :: b) = x * 256 ^ len b + SetBytes b.
Proof. unfold SetBytes at 1. cbn [fold_left]. rewrite SetBytes_from. lia. Qed.

Lemma SetBytes_bound b : bytes_ok b -> 0 <= SetBytes b < 256 ^ len b.
Proof.
  induction 1 as [|x b Hx _ IH]; [done|]. rewrite SetBytes_cons. lens.
  rewrite Z.pow_add_r by (unfold len; lia). unfold is_byte in Hx. nia.
Qed.

Lemma SetBytes_be n v : 0 <= v -> SetBytes (be_bytes n v) = v mod 256 ^ Z.of_nat n.
Proof.
  intros Hv. induction n as [|n IH]; simpl be_bytes; [by rewrite Z.mod_1_r|].
  rewrite SetBytes_cons, IH. unfold len. rewrite be_bytes_length.
  rewrite Z.shiftr_div_pow2, Z.pow_mul_r by lia. change (2 ^ 8) with 256.
  replace (Z.of_nat (S n)) with (Z.of_nat n + 1) by lia. rewrite Z.pow_add_r by lia.
  rewrite Z.rem_mul_r by (try apply Z.pow_nonzero; lia). change (256 ^ 1) with 256. lia.
Qed.

Lemma SetBytes_trim b : SetBytes (trimLeadingZeros b) = SetBytes b.
Proof.
  induction b as [|x b IH]; simpl; [done|]. destruct (Z.eqb_spec x 0) as [->|]; [|done].
  by rewrite IH, (SetBytes_cons 0 b).
Qed.

Lemma trim_ok b : bytes_ok b -> bytes_ok (trimLeadingZeros b).
Proof. induction 1; simpl; [constructor|]. split_ifs; [done|by constructor]. Qed.

Lemma trim_length b : (length (trimLeadingZeros b) <= length b)%nat.
Proof. induction b; simpl; [done|]. split_ifs; simpl; lia. Qed.

Lemma trim_nonempty b : SetBytes b <> 0 -> (0 < length (trimLeadingZeros b))%nat.
Proof.
  rewrite <- SetBytes_trim. destruct (trimLeadingZeros b); simpl; [done|lia].
Qed.

Lemma Bytes_value v : 0 <= v -> SetBytes (Bytes v) = v.
Proof.
  intros Hv. unfold Bytes. destruct (Z.eqb_spec v 0) as [->|]; [done|].
  rewrite SetBytes_be, Z.abs_eq by lia. apply Z.mod_small. split; [done|].
  pose proof (Z.log2_spec v ltac:(lia)) as [_ Hlog]. pose proof (Z.log2_nonneg v).
  rewrite Z2Nat.id by (pose proof (Z.div_pos (Z.log2 v) 8); lia).
  change 256 with (2 ^ 8). rewrite <- Z.pow_mul_r by (pose proof (Z.div_pos (Z.log2 v) 8); lia).
  eapply Z.lt_le_trans; [exact Hlog|]. apply Z.pow_le_mono_r; [lia|].
  pose proof (Z.div_mod (Z.log2 v) 8). pose proof (Z.mod_pos_bound (Z.log2 v) 8). lia.
Qed.

Lemma Bytes_ok v : bytes_ok (Bytes v).
Proof. unfold Bytes. split_ifs; [constructor|apply be_bytes_ok]. Qed.

Lemma lor_shift v x : 0 <= v -> is_byte x -> Z.lor (Z.shiftl v 8) x = v * 256 + x.
Proof.
  intros Hv Hx. rewrite Z.shiftl_mul_pow2 by lia. change (2 ^ 8) with 256.
  assert (Z.land (v * 256) x = 0) as Hd.
  { apply Z.bits_inj'. intros n Hn. rewrite Z.land_spec, Z.bits_0. change 256 with (2 ^ 8).
    destruct (Z.lt_ge_cases n 8); [by rewrite Z.mul_pow2_bits_low by lia|].
    apply andb_false_iff. right. unfold is_byte in Hx.
    destruct (Z.eq_dec x 0) as [->|]; [apply Z.bits_0|]. apply Z.bits_above_log2; [lia|].
    apply Z.log2_lt_pow2; [lia|]. apply Z.lt_le_trans with (2 ^ 8); [lia|].
    apply Z.pow_le_mono_r; lia. }
  by rewrite <- Z.lxor_lor, <- Z.add_nocarry_lxor.
Qed.

Lemma bigEndianRead_from b acc :
  bytes_ok b -> 0 <= acc -> (acc + 1) * 256 ^ len b <= uint64_modulus ->
  fold_left (fun v x => Z.lor (Z.shiftl v 8 mod uint64_modulus) x) b acc
  = acc * 256 ^ len b + SetBytes b.
Proof.
  intros Hb. revert acc. induction Hb as [|x b Hx Hb IH]; intros acc Hacc Hle; cbn [fold_left].
  { change (SetBytes []) with 0. lens. lia. }
  lens. rewrite Z.pow_add_r in * by (unfold len; lia). rewrite Z.pow_1_r in *.
  assert (0 < 256 ^ len b) by (apply Z.pow_pos_nonneg; unfold len; lia).
  assert ((acc + 1) * 256 <= uint64_modulus) by nia.
  rewrite Z.mod_small; [|rewrite Z.shiftl_mul_pow2 by lia; change (2 ^ 8) with 256; lia].
  rewrite (lor_shift acc x) by done. unfold is_byte in Hx.
  rewrite IH, SetBytes_cons by nia. lia.
Qed.

Lemma bigEndianRead_value b : bytes_ok b -> len b <= 8 -> bigEndianRead b = SetBytes b.
Proof.
  intros Hb Hl. unfold bigEndianRead. rewrite bigEndianRead_from; [lia|done|lia|].
  change uint64_modulus with (256 ^ 8). rewrite Z.mul_1_l. apply Z.pow_le_mono_r; lia.
Qed.

(** The minimal bytes of a 64-bit number. *)
Lemma uint_bytes v :
  is_uint64 v ->
  let b := trimLeadingZeros (binaryBigEndianPutUint64 v) in
  bytes_ok b /\ len b <= 8 /\ SetBytes b = v /\ bigEndianRead b = v.
Proof.
  intros Hv b. pose proof (be_bytes_ok 8 v) as Hok. apply trim_ok in Hok.
  pose proof (trim_length (be_bytes 8 v)) as Hl. rewrite be_bytes_length in Hl.
  assert (len b <= 8) by (unfold len, b, binaryBigEndianPutUint64; lia).
  assert (SetBytes b = v).
  { unfold b, binaryBigEndianPutUint64. rewrite SetBytes_trim, SetBytes_be by apply Hv.
    apply Z.mod_small. exact Hv. }
  repeat split; try done. by rewrite bigEndianRead_value.
Qed.

(** ** The decoder reads what the encoder writes *)

Ltac bind_step := cbn [negb check mbind outcome_bind].

Lemma wrap_small z : 0 <= z < Int64.half -> Int64.wrap z = z.
Proof. intros Hz. apply Int64.wrap_id. unfold Int64.half in Hz. i64. lia. Qed.

(** The header of a string or a list longer than 55 bytes. *)
Lemma long_length n :
  0 < n < Int64.half ->
  let l := bigEndianLen n in
  bytes_ok l /\ 1 <= len l <= 8 /\ to_int (bigEndianRead l) = n.
Proof.
  intros Hn l.
  destruct (uint_bytes n) as (Hok & Hle & Hv & Hr); [unfold is_uint64, uint64_modulus, Int64.half in *; lia|].
  fold (bigEndianLen n) in *. fold l in Hok, Hle, Hv, Hr.
  split_and!; try done.
  - destruct l; [|lens; pose proof (len_nonneg l); lia]. unfold SetBytes in Hv. simpl in Hv. lia.
  - rewrite Hr. apply wrap_small. lia.
Qed.

Lemma item_reads_bytes b rest :
  bytes_ok b -> len b + 9 < Int64.half ->
  rlpDecodeItemWithKind (rlpBytes b ++ rest) = Done (b, len (rlpBytes b), rlpKindString).
Proof.
  intros Hb Hl. destruct b as [|x b]; [done|].
  assert (is_byte x) as Hx by (by inversion Hb). unfold is_byte in Hx.
  unfold rlpBytes. pose proof (len_nonneg b). pose proof (len_nonneg rest).
  destruct ((len (x :: b) =? 1) && (x <? 128)) eqn:Hone.
  { bool_hyps. destruct b; [|lens; pose proof (len_nonneg b); lia].
    simpl. by replace (x <? 128) with true by lia. }
  destruct (Z.leb_spec (len (x :: b)) 55) as [Hs|Hs].
  - set (h := 128 + len (x :: b)). unfold rlpDecodeItemWithKind. cbn [app].
    assert (129 <= h <= 183) by (unfold h; lens; lia). unfold between.
    replace (h <? 128) with false by lia. replace (h =? 128) with false by lia.
    replace ((129 <=? h) && (h <=? 183)) with true by lia. cbv zeta.
    replace (1 + (h - 128)) with (len (h :: x :: b)) by (unfold h; lens; lia).
    change (h :: x :: b ++ rest) with ((h :: x :: b) ++ rest).
    replace (len ((h :: x :: b) ++ rest) <? len (h :: x :: b)) with false by (lens; lia).
    bind_step. change ((h :: x :: b) ++ rest) with ([h] ++ (x :: b) ++ rest).
    by rewrite (slice_mid [h] (x :: b) rest) by (lens; lia).
  - destruct (long_length (len (x :: b))) as (Hok & Hll & Hint); [lia|].
    set (l := bigEndianLen (len (x :: b))) in *.
    rewrite (Z.mod_small (183 + len l)) by lia. set (h := 183 + len l).
    unfold rlpDecodeItemWithKind, between. cbn [app].
    replace (h <? 128) with false by lia. replace (h =? 128) with false by lia.
    replace ((129 <=? h) && (h <=? 183)) with false by lia.
    replace ((184 <=? h) && (h <=? 191)) with true by lia. cbv zeta.
    replace (h - 183) with (len l) by lia.
    change (h :: (l ++ x :: b) ++ rest) with ([h] ++ (l ++ x :: b) ++ rest).
    rewrite <- (app_assoc l). pose proof (len_nonneg l).
    replace (len _ <? 1 + len l) with false by (symmetry; apply Z.ltb_ge; lens; lia).
    bind_step. rewrite (slice_mid [h] l) by (lens; lia). bind_step.
    rewrite Hint. rewrite Int64.add_exact by (i64; unfold Int64.half in Hl; lens; lia).
    replace (len _ <? 1 + len l + len (x :: b)) with false
      by (symmetry; apply Z.ltb_ge; lens; lia). bind_step.
    change ([h] ++ l ++ (x :: b) ++ rest) with ((h :: l) ++ (x :: b) ++ rest).
    rewrite (slice_mid (h :: l) (x :: b)) by (lens; lia). bind_step.
    repeat f_equal. lens. lia.
Qed.

Lemma item_reads_empty_list rest :
  rlpDecodeItemWithKind (rlpList [] ++ rest) = Done ([], len (rlpList []), rlpKindList).
Proof. done. Qed.

Lemma rlpDecodeItem_kind b :
  rlpDecodeItem b = '(item, used, _) ← rlpDecodeItemWithKind b; Done (item, used).
Proof.
  unfold rlpDecodeItem, rlpDecodeItemWithKind. destruct b as [|p b]; [done|].
  destruct (p <? 128); [done|]. destruct (p =? 128); [done|].
  destruct (between 129 183 p); [|destruct (between 184 191 p)]; cbv zeta.
  - destruct (check _); [bind_step|done|done]. by destruct (slice _ _ _).
  - destruct (check _); [bind_step|done|done]. destruct (slice _ _ _); [bind_step|done|done].
    destruct (check _); [bind_step|done|done]. by destruct (slice _ _ _).
  - by destruct (p =? 192).
Qed.

(** Enough fuel for the loop: each item read is not empty. *)
Section ItemLoop.
Context {I : Type} (item : bytes -> outcome (I * Z)).

(** [e] is an encoding of [x]. *)
Definition reads (e : bytes) (x : I) : Prop :=
  (forall rest, item (e ++ rest) = Done (x, len e)) /\ 1 <= len e.

Lemma decode_items_reads es xs fuel :
  Forall2 reads es xs -> (length (concat es) <= fuel)%nat ->
  decode_items item fuel (concat es) = Done xs.
Proof.
  intros Hf. revert fuel. induction Hf as [|e x es xs [He Hl] _ IH]; intros fuel Hfuel.
  { by destruct fuel. }
  simpl in *. rewrite length_app in Hfuel.
  destruct e as [|c e]; [simpl in Hl; lens; lia|].
  destruct fuel as [|fuel]; [simpl in Hfuel; lia|].
  simpl app. cbn [decode_items]. change (c :: e ++ concat es) with ((c :: e) ++ concat es).
  rewrite He. bind_step. rewrite slice_tail by (lens; lia).
  bind_step. rewrite IH by (simpl in Hfuel; lia). done.
Qed.

Lemma decode_list_reads es xs rest :
  Forall2 reads es xs -> sumZ len es + 9 < Int64.half ->
  decode_list item (rlpList es ++ rest) = Done (xs, len (rlpList es)).
Proof.
  intros Hf Ht. assert (len (concat es) = sumZ len es) as Hcat.
  { clear. induction es; simpl; [done|]. lens. lia. }
  assert (forall hdr, list_header (hdr ++ concat es ++ rest) = Done (len hdr, sumZ len es) ->
            len hdr <= 9 -> rlpList es = hdr ++ concat es ->
            decode_list item (rlpList es ++ rest) = Done (xs, len (rlpList es))) as Hdec.
  { intros hdr Hh Hh9 ->. pose proof (len_nonneg hdr). pose proof (len_nonneg rest).
    pose proof (len_nonneg (concat es)).
    unfold decode_list. rewrite <- app_assoc, Hh. bind_step.
    rewrite Int64.add_exact by (i64; unfold Int64.half in Ht; lia).
    replace (len _ <? len hdr + sumZ len es) with false
      by (symmetry; apply Z.ltb_ge; lens; lia). bind_step.
    rewrite slice_mid by lia. bind_step.
    rewrite (decode_items_reads _ _ _ Hf) by done. bind_step.
    do 2 f_equal. lens. lia. }
  pose proof (len_nonneg (concat es)). unfold rlpList in *.
  destruct (Z.eqb_spec (sumZ len es) 0) as [H0|].
  { apply (Hdec [192]); [|done|].
    - destruct (concat es) eqn:Hc; [|lens; pose proof (len_nonneg l); lia].
      rewrite H0. done.
    - destruct (concat es); [done|]. lens. pose proof (len_nonneg l). lia. }
  destruct (Z.leb_spec (sumZ len es) 55).
  { apply (Hdec [192 + sumZ len es]); [|done|done].
    cbn [app list_header]. unfold between.
    replace ((192 <=? 192 + sumZ len es) && (192 + sumZ len es <=? 247)) with true by lia.
    do 2 f_equal. lia. }
  destruct (long_length (sumZ len es)) as (Hok & Hll & Hint); [lia|].
  set (l := bigEndianLen (sumZ len es)) in *.
  rewrite (Z.mod_small (247 + len l)) in * by lia.
  apply (Hdec ((247 + len l) :: l)); [|lens; lia|done].
  change (((247 + len l) :: l) ++ concat es ++ rest) with ([247 + len l] ++ l ++ concat es ++ rest).
  unfold list_header. cbn [app]. unfold between.
  replace ((192 <=? 247 + len l) && (247 + len l <=? 247)) with false by lia.
  replace ((248 <=? 247 + len l) && (247 + len l <=? 255)) with true by lia. cbv zeta.
  replace (1 + (247 + len l - 247)) with (1 + len l) by lia.
  change ((247 + len l) :: l ++ concat es ++ rest) with ([247 + len l] ++ l ++ concat es ++ rest).
  pose proof (len_nonneg l). pose proof (len_nonneg rest).
  replace (len _ <? 1 + len l) with false by (symmetry; apply Z.ltb_ge; lens; lia). bind_step.
  rewrite slice_mid by (lens; lia). bind_step. rewrite Hint. do 2 f_equal. by lens.
Qed.
End ItemLoop.

(** ** The envelope *)

Definition item_and_kind (p : bytes) : outcome (bytes * rlpKind * Z) :=
  '(item, used, kind) ← rlpDecodeItemWithKind p; Done (item, kind, used).

Lemma rlpBytes_len b : len b < Int64.half -> 1 <= len (rlpBytes b) <= 9 + len b.
Proof.
  intros Hb. destruct b as [|x b]; [done|]. unfold rlpBytes. pose proof (len_nonneg b).
  split_ifs; lens; try lia. destruct (long_length (1 + len b)) as (_ & ? & _); [lia|]. lia.
Qed.

Lemma reads_bytes b : bytes_ok b -> len b + 9 < Int64.half ->
  reads item_and_kind (rlpBytes b) (b, rlpKindString).
Proof.
  intros Hb Hl. pose proof (len_nonneg b). split; [|apply rlpBytes_len; lia].
  intros rest. unfold item_and_kind. by rewrite item_reads_bytes.
Qed.

Lemma reads_empty_list : reads item_and_kind (rlpList []) ([], rlpKindList).
Proof. by split. Qed.

Lemma reads_plain e x k : reads item_and_kind e (x, k) -> reads rlpDecodeItem e x.
Proof.
  intros [He Hl]. split; [|done]. intros rest. specialize (He rest). unfold item_and_kind in He.
  rewrite rlpDecodeItem_kind. destruct (rlpDecodeItemWithKind (e ++ rest)) as [[[??]?]| |];
    [|discriminate|discriminate]. simpl in *. congruence.
Qed.

Lemma rlpUint_bytes v : rlpUint v = rlpBytes (trimLeadingZeros (binaryBigEndianPutUint64 v)).
Proof. unfold rlpUint. by destruct (Z.eqb_spec v 0) as [->|]. Qed.

Lemma rlpBigInt_bytes v : rlpBigInt v = rlpBytes (trimLeadingZeros (Bytes v)).
Proof. unfold rlpBigInt. by destruct (Z.eqb_spec v 0) as [->|]. Qed.

(** An unsigned 256-bit integer of a transaction. *)
Definition is_uint256 (v : Z) : Prop := 0 <= v < 2 ^ 256.

Lemma Bytes_len v : is_uint256 v -> len (trimLeadingZeros (Bytes v)) <= 32.
Proof.
  intros Hv. unfold len. pose proof (trim_length (Bytes v)).
  assert (length (Bytes v) <= 32)%nat; [|lia]. unfold Bytes.
  destruct (Z.eqb_spec v 0); [simpl; lia|]. rewrite be_bytes_length.
  assert (Z.log2 (Z.abs v) < 256) by (apply Z.log2_lt_pow2; unfold is_uint256 in Hv; lia).
  assert (Z.log2 (Z.abs v) / 8 < 32) by (apply Z.div_lt_upper_bound; lia). lia.
Qed.

Lemma left_pad32_trim b : (length b <= 32)%nat -> left_pad32 (trimLeadingZeros b) = left_pad32 b.
Proof.
  unfold left_pad32, repeat_zero. induction b as [|x b IH]; simpl trimLeadingZeros; [done|].
  intros Hl. destruct (Z.eqb_spec x 0) as [->|]; [|done]. simpl in Hl.
  rewrite IH by lia. replace (32 - length b)%nat with (S (32 - length (0 :: b))) by (simpl; lia).
  trans ((repeat 0 (32 - length (0 :: b)) ++ [0]) ++ b); [by rewrite <- repeat_cons|].
  by rewrite <- app_assoc.
Qed.

(** The integers and byte strings of the transaction are in their ranges. *)
Record tx_wf (t : EIP1559Tx) : Prop := {
  wf_nonce : is_uint64 (Nonce t);
  wf_gas : is_uint64 (GasLimit t);
  wf_tip : is_uint256 (MaxPriorityFeePerGas t);
  wf_fee : is_uint256 (MaxFeePerGas t);
  wf_to : bytes_ok (To t) /\ len (To t) = 20;
  wf_value : is_uint256 (Value t);
  wf_data : bytes_ok (Data t) /\ len (Data t) < 2 ^ 32;
}.

(** The item lists behind a signed or unsigned envelope. *)
Definition uint_item (v : Z) : bytes := trimLeadingZeros (binaryBigEndianPutUint64 v).
Definition big_item (v : Z) : bytes := trimLeadingZeros (Bytes v).

Definition tx_items (t : EIP1559Tx) (y : Z) (r s : bytes) : list (bytes * rlpKind) :=
  [(uint_item (ChainID t), rlpKindString); (uint_item (Nonce t), rlpKindString);
   (big_item (MaxPriorityFeePerGas t), rlpKindString); (big_item (MaxFeePerGas t), rlpKindString);
   (uint_item (GasLimit t), rlpKindString); (To t, rlpKindString);
   (big_item (Value t), rlpKindString); (Data t, rlpKindString); ([], rlpKindList);
   (uint_item y, rlpKindString); (r, rlpKindString); (s, rlpKindString)].

Definition tx_encodings (t : EIP1559Tx) (y : Z) (r s : bytes) : list bytes :=
  tx_fields t ++ [rlpUint y; rlpBytes r; rlpBytes s].

Lemma reads_uint v : is_uint64 v -> reads item_and_kind (rlpUint v) (uint_item v, rlpKindString).
Proof.
  intros Hv. pose proof (uint_bytes v Hv) as Hb. cbv zeta in Hb. destruct Hb as (? & ? & _ & _). rewrite rlpUint_bytes.
  apply reads_bytes; [done|]. unfold uint_item, Int64.half in *. lia.
Qed.

Lemma reads_big v : is_uint256 v -> reads item_and_kind (rlpBigInt v) (big_item v, rlpKindString).
Proof.
  intros Hv. pose proof (Bytes_len v Hv). rewrite rlpBigInt_bytes.
  apply reads_bytes; [apply trim_ok, Bytes_ok|]. unfold big_item, Int64.half. lia.
Qed.

Lemma rlpUint_len v : is_uint64 v -> len (rlpUint v) <= 17.
Proof.
  intros Hv. pose proof (uint_bytes v Hv) as Hb. cbv zeta in Hb. destruct Hb as (? & ? & _ & _). rewrite rlpUint_bytes.
  pose proof (rlpBytes_len (trimLeadingZeros (binaryBigEndianPutUint64 v))).
  unfold Int64.half in *. lia.
Qed.

Lemma rlpBigInt_len v : is_uint256 v -> len (rlpBigInt v) <= 41.
Proof.
  intros Hv. pose proof (Bytes_len v Hv). rewrite rlpBigInt_bytes.
  pose proof (rlpBytes_len (trimLeadingZeros (Bytes v))). unfold Int64.half in *. lia.
Qed.

Lemma tx_encodings_read t y r s :
  tx_wf t -> is_uint64 (ChainID t) -> is_uint64 y ->
  bytes_ok r -> bytes_ok s -> len r <= 32 -> len s <= 32 ->
  Forall2 (reads item_and_kind) (tx_encodings t y r s) (tx_items t y r s)
  /\ sumZ len (tx_encodings t y r s) + 9 < Int64.half.
Proof.
  intros [Hn Hg Ht Hf [Hto Htl] Hv [Hd Hdl]] Hc Hy Hr Hs Hrl Hsl.
  change (2 ^ 32) with 4294967296 in Hdl.
  pose proof (reads_uint _ Hn). pose proof (reads_uint _ Hg). pose proof (reads_uint _ Hc).
  pose proof (reads_uint _ Hy). pose proof (reads_big _ Ht). pose proof (reads_big _ Hf).
  pose proof (reads_big _ Hv).
  pose proof (reads_bytes _ Hr ltac:(unfold Int64.half; lia)).
  pose proof (reads_bytes _ Hs ltac:(unfold Int64.half; lia)).
  pose proof (reads_bytes _ Hd ltac:(unfold Int64.half; lia)).
  pose proof (reads_bytes _ Hto ltac:(unfold Int64.half; lia)).
  split.
  { unfold tx_encodings, tx_fields, tx_items. cbn [app].
    repeat (apply List.Forall2_cons; [assumption || apply reads_empty_list|]).
    apply List.Forall2_nil. }
  unfold tx_encodings, tx_fields. cbn [app sumZ].
  pose proof (rlpUint_len _ Hn). pose proof (rlpUint_len _ Hg). pose proof (rlpUint_len _ Hc).
  pose proof (rlpUint_len _ Hy). pose proof (rlpBigInt_len _ Ht). pose proof (rlpBigInt_len _ Hf).
  pose proof (rlpBigInt_len _ Hv). change (len (rlpList [])) with 1.
  pose proof (rlpBytes_len r). pose proof (rlpBytes_len s). pose proof (rlpBytes_len (Data t)).
  pose proof (rlpBytes_len (To t)). unfold Int64.half in *. lia.
Qed.

Lemma rlpItemUint_item v : is_uint64 v -> rlpItemUint (uint_item v) = Done v.
Proof.
  intros Hv. pose proof (uint_bytes v Hv) as Hb. cbv zeta in Hb. destruct Hb as (_ & Hl & _ & Hr).
  unfold rlpItemUint, uint_item. replace (len _ <=? 8) with true by (symmetry; by apply Z.leb_le).
  bind_step. by rewrite Hr.
Qed.

Lemma SetBytes_item v : 0 <= v -> SetBytes (big_item v) = v.
Proof. intros Hv. unfold big_item. by rewrite SetBytes_trim, Bytes_value. Qed.

Lemma decoded_tx_items t y r s :
  tx_wf t -> is_uint64 (ChainID t) -> 0 <= y <= 1 -> 1 <= len r <= 32 -> 1 <= len s <= 32 ->
  decoded_fields (tx_items t y r s) = Done (t, y, left_pad32 r, left_pad32 s).
Proof.
  intros [Hn Hg Ht Hf [_ Htl] Hv _] Hc Hy Hr Hs. unfold decoded_fields, tx_items.
  assert (is_uint64 y) as Hy64 by (unfold is_uint64, uint64_modulus; lia).
  rewrite (rlpItemUint_item _ Hc), (rlpItemUint_item _ Hn), (rlpItemUint_item _ Hg). bind_step.
  rewrite Htl, (rlpItemUint_item _ Hy64). bind_step.
  replace (y <=? 1) with true by lia.
  replace ((len r =? 0) || (32 <? len r) || (len s =? 0) || (32 <? len s)) with false by lia.
  bind_step. rewrite !SetBytes_item by (apply Ht || apply Hf || apply Hv). by destruct t.
Qed.

Lemma decode_envelope t y r s :
  tx_wf t -> is_uint64 (ChainID t) -> 0 <= y <= 1 -> bytes_ok r -> bytes_ok s ->
  1 <= len r <= 32 -> 1 <= len s <= 32 ->
  DecodeSignedEIP1559 (prependEIP2718 2 (rlpList (tx_encodings t y r s)))
  = Done (t, y, left_pad32 r, left_pad32 s).
Proof.
  intros Ht Hc Hy Hr Hs Hrl Hsl.
  destruct (tx_encodings_read t y r s) as [Hreads Hsum]; try done; try lia.
  { unfold is_uint64, uint64_modulus. lia. }
  pose proof (decode_list_reads item_and_kind _ _ [] Hreads Hsum) as Hdec.
  rewrite app_nil_r in Hdec.
  assert (1 <= len (rlpList (tx_encodings t y r s))).
  { unfold rlpList. split_ifs; lens; try (pose proof (len_nonneg (concat (tx_encodings t y r s))); lia).
    pose proof (len_nonneg (concat (tx_encodings t y r s))).
    pose proof (len_nonneg (bigEndianLen (sumZ len (tx_encodings t y r s)))). lia. }
  unfold DecodeSignedEIP1559, prependEIP2718.
  replace (len _ <? 2) with false by (symmetry; apply Z.ltb_ge; lens; lia). bind_step. cbn [tail].
  change (2 =? 2) with true. bind_step.
  unfold rlpDecodeListWithKinds. fold item_and_kind. rewrite Hdec. bind_step.
  rewrite Z.eqb_refl. bind_step. by apply decoded_tx_items.
Qed.

Lemma validate_chain t u : Validate t = Done u -> ChainID t = BaseMainnetChainID.
Proof. unfold Validate. intros Hv. inv_done. lia. Qed.

Lemma chain_uint64 t : ChainID t = BaseMainnetChainID -> is_uint64 (ChainID t).
Proof. intros ->. unfold is_uint64, uint64_modulus, BaseMainnetChainID. lia. Qed.

Lemma signed_decodes t y r s signed :
  tx_wf t -> 0 <= y -> bytes_ok r -> bytes_ok s -> SetBytes r <> 0 -> SetBytes s <> 0 ->
  SignedRLP t y r s = Done signed ->
  DecodeSignedEIP1559 signed = Done (t, y, left_pad32 r, left_pad32 s).
Proof.
  intros Ht Hy Hr Hs Hr0 Hs0 Hsig. unfold SignedRLP in Hsig. inv_done.
  match goal with H : Validate t = _ |- _ => apply validate_chain in H as Hc end.
  bool_hyps. unfold len in *.
  pose proof (trim_length r). pose proof (trim_length s).
  pose proof (trim_nonempty r Hr0). pose proof (trim_nonempty s Hs0).
  rewrite <- (left_pad32_trim r), <- (left_pad32_trim s) by lia. subst signed.
  apply decode_envelope; try by apply trim_ok.
  all: try done; try lia; try by apply chain_uint64.
  all: unfold len; lia.
Qed.

(** Claim C25. The decoder returns the transaction and the signature the encoder was
    given. *)
Theorem signed_envelope_roundtrip t y r s signed :
  tx_wf t -> 0 <= y -> bytes_ok r -> bytes_ok s -> SetBytes r <> 0 -> SetBytes s <> 0 ->
  SignedRLP t y r s = Done signed ->
  DecodeSignedEIP1559 signed = Done (t, y, left_pad32 r, left_pad32 s).
Proof. apply signed_decodes. Qed.

(** ** Addresses and calldata *)

Lemma nibble_range c x : nibble c = Some x -> 0 <= x < 16.
Proof. unfold nibble, between. intros Hx. split_ifs; simplify_eq; bool_hyps; lia. Qed.

Lemma hex_decode_ok l b :
  hex_decode l = Some b -> length l = (2 * length b)%nat /\ bytes_ok b.
Proof.
  revert b. induction l as [l IH] using (induction_ltof1 _ (@length _)). intros b Hd.
  destruct l as [|c1 [|c2 l]]; simpl in Hd; [simplify_eq; by split; [|constructor]|done|].
  destruct (nibble c1) as [x|] eqn:Hx; simpl in Hd; [|done].
  destruct (nibble c2) as [y|] eqn:Hy; simpl in Hd; [|done].
  destruct (hex_decode l) as [rest|] eqn:Hr; simpl in Hd; [|done]. simplify_eq.
  apply IH in Hr as [Hl Hok]; [|unfold ltof; simpl; lia].
  apply nibble_range in Hx, Hy. simpl. split; [lia|]. constructor; [unfold is_byte; lia|done].
Qed.

Section Facts.
Context `{EvmLib}.

Lemma parse_canonical_length input c :
  ParseAndCanonicalizeEIP55 input = inr c -> length (GoStr.chars c) = 42%nat.
Proof.
  unfold ParseAndCanonicalizeEIP55. intros Hp.
  destruct (length (GoStr.chars input) =? 42)%nat eqn:Hl; [|done]. apply Nat.eqb_eq in Hl.
  assert (length (GoStr.chars ("0x" +:+ GoStr.of_chars
    (applyEIP55Checksum (map GoStr.lower_ascii (drop 2 (GoStr.chars input)))))) = 42)%nat as Hc.
  { rewrite GoStr.chars_app, length_app, GoStr.chars_of_chars. unfold applyEIP55Checksum.
    rewrite length_imap, length_map, length_drop, Hl. done. }
  cbv zeta in Hp. split_ifs; simplify_eq; done.
Qed.

Lemma AddressBytes_ok a b : AddressBytes a = Done b -> bytes_ok b /\ len b = 20.
Proof.
  unfold AddressBytes. destruct (ParseAndCanonicalizeEIP55 a) as [|c] eqn:Hp; [done|].
  apply parse_canonical_length in Hp.
  destruct (hex_decode _) as [raw|] eqn:Hd; [|done]. intros Hb. inv_done. subst raw.
  apply hex_decode_ok in Hd as [Hl Hok]. rewrite length_drop, Hp in Hl. unfold len. split; [done|lia].
Qed.

Lemma calldata_shape a m d :
  USDCTransferCalldata a m = Done d ->
  exists b, AddressBytes a = Done b /\ 0 < m
            /\ d = transferSelector ++ (repeat_zero 12 ++ b) ++ be_bytes 32 m.
Proof. unfold USDCTransferCalldata. intros Hd. inv_done. eexists. split_and!; [done|lia|done]. Qed.

(** The calldata determines the address and the amount. *)
Lemma calldata_inj a1 a2 m1 m2 d :
  is_uint256 m1 -> is_uint256 m2 ->
  USDCTransferCalldata a1 m1 = Done d -> USDCTransferCalldata a2 m2 = Done d ->
  m1 = m2 /\ AddressBytes a1 = AddressBytes a2.
Proof.
  intros Hm1 Hm2 H1 H2. apply calldata_shape in H1 as (b1 & Hb1 & _ & E1).
  apply calldata_shape in H2 as (b2 & Hb2 & _ & E2). rewrite E1 in E2.
  apply app_inv_head in E2.
  apply app_inj_2 in E2 as [Ea Em]; [|by rewrite !be_bytes_length].
  apply app_inv_head in Ea. split; [|congruence].
  apply (f_equal SetBytes) in Em. rewrite !SetBytes_be in Em by (apply Hm1 || apply Hm2).
  change (256 ^ Z.of_nat 32) with (2 ^ 256) in Em. by rewrite !Z.mod_small in Em by done.
Qed.

Lemma calldata_ok a m d : USDCTransferCalldata a m = Done d -> bytes_ok d /\ len d = 68.
Proof.
  intros Hd. apply calldata_shape in Hd as (b & Hb & _ & ->). apply AddressBytes_ok in Hb as [Hok Hl].
  split.
  - apply Forall_app. split; [repeat constructor; lia|]. apply Forall_app.
    split; [|apply be_bytes_ok]. apply Forall_app. split; [repeat constructor; lia|done].
  - lens. rewrite Hl. unfold len. rewrite be_bytes_length. done.
Qed.

Lemma build_shape nonce a m t :
  buildEIP1559 nonce a m = Done t ->
  tx_wf t /\ Nonce t = nonce mod uint64_modulus /\ ChainID t = BaseMainnetChainID
  /\ AddressBytes USDCContractAddressBase = Done (To t) /\ Value t = 0
  /\ USDCTransferCalldata a m = Done (Data t) /\ Validate t = Done tt.
Proof.
  unfold buildEIP1559. intros Hb. apply bind_outcome in Hb as (d & Hd & Hb).
  apply bind_outcome in Hb as (u & Hu & Hb). inv_done. subst t. simpl.
  pose proof (calldata_ok _ _ _ Hd). pose proof (AddressBytes_ok _ _ Hu).
  split_and!; try done. constructor; simpl; unfold is_uint64, is_uint256, uint64_modulus; try done; try lia.
  - apply Z.mod_pos_bound. done.
  - destruct H0 as [? ->]. by split.
Qed.

(** The sender the code recovers from an envelope is that of its twelve-item digest. *)
Lemma recovered_over_digest signed t y r s sender :
  DecodeSignedEIP1559 signed = Done (t, y, r, s) -> RecoverTxSender signed = Done sender ->
  ecrecover (keccak (prependEIP2718 2 (rlpList (tx_fields t ++ [rlpUint 0; rlpBytes []; rlpBytes []]))))
    ((27 + y) mod 256 :: r ++ s) = Done sender.
Proof.
  intros Hd Hr. unfold RecoverTxSender, SigningHash, UnsignedRLP in Hr. rewrite Hd in Hr. inv_done.
  subst. inv_done. subst. done.
Qed.

(** Claim C15. What passes the check before a broadcast is a transfer of exactly this amount to
    exactly this address, of USDC on this chain, with the nonce of the attempt and no value; its
    calldata is that of no other amount or address; the returned hash is the hash of the envelope;
    and its signature recovers to the hot wallet over the digest of the code, the hash of the nine
    fields followed by three empty ones. The digest a chain recovers a sender from has the nine
    fields alone, and about that sender nothing is claimed. *)
Theorem verified_envelope_pays_exactly hot nonce addr amount unsigned signed hash :
  0 <= nonce < Int64.half -> 0 < amount <= Int64.max ->
  buildEIP1559 nonce addr amount = Done unsigned ->
  verifySignedTx hot unsigned signed hash amount addr = Done tt ->
  exists t y r s sender,
    DecodeSignedEIP1559 signed = Done (t, y, r, s)
    /\ Nonce t = nonce /\ ChainID t = BaseMainnetChainID /\ Value t = 0
    /\ AddressBytes USDCContractAddressBase = Done (To t)
    /\ USDCTransferCalldata addr amount = Done (Data t)
    /\ (forall addr' amount', is_uint256 amount' ->
          USDCTransferCalldata addr' amount' = Done (Data t) ->
          amount' = amount /\ AddressBytes addr' = AddressBytes addr)
    /\ ecrecover (keccak (prependEIP2718 2 (rlpList (tx_fields t ++ [rlpUint 0; rlpBytes []; rlpBytes []]))))
         ((27 + y) mod 256 :: r ++ s) = Done sender
    /\ addressEqualFold sender hot = true
    /\ GoStr.ToLower hash = GoStr.ToLower (TxHash signed).
Proof.
  intros Hn Ha Hb Hv. destruct (build_shape _ _ _ _ Hb) as (Hwf & Hnn & Hc & Hu & Hv0 & Hd & _).
  unfold verifySignedTx in Hv. apply bind_outcome in Hv as ([[[t y] r] s] & Hdec & Hv).
  rewrite Hd in Hv. inv_done. bool_hyps. unfold bytes_eqb, GoStr.EqualFold in *. bool_hyps.
  match goal with H : RecoverTxSender signed = Done ?x |- _ =>
    exists t, y, r, s, x; apply (recovered_over_digest _ _ _ _ _ _ Hdec) in H end.
  split_and!; try done.
  - rewrite Z.mod_small in Hnn by (unfold uint64_modulus, Int64.half in *; lia). lia.
  - lia.
  - lia.
  - congruence.
  - congruence.
  - intros addr' amount' Hm' Hd'. eapply calldata_inj; [done| |exact Hd'|congruence].
    unfold is_uint256, Int64.max in *. lia.
Qed.

(** ** The local signer *)

Lemma left_pad32_full b : length b = 32%nat -> left_pad32 b = b.
Proof. intros Hl. unfold left_pad32. by rewrite Hl. Qed.

Lemma parity_back v : 27 <= v <= 28 -> (27 + (v - 27) mod 256) mod 256 = v.
Proof. intros Hv. assert (v = 27 \/ v = 28) as [->| ->] by lia; done. Qed.

(** The unsigned envelope decodes into the items of the transaction. *)
Lemma unsigned_items t :
  tx_wf t -> Validate t = Done tt ->
  exists u, UnsignedRLP t = Done u /\ u = 2 :: tail u /\ 2 <= len u
    /\ rlpDecodeList (tail u) = Done ((tx_items t 0 [] []).*1, len (tail u)).
Proof.
  intros Ht Hv. unfold UnsignedRLP. rewrite Hv. bind_step. unfold prependEIP2718. eexists.
  split; [done|]. split; [done|]. cbn [tail].
  change (tx_fields t ++ [rlpUint 0; rlpBytes []; rlpBytes []]) with (tx_encodings t 0 [] []).
  destruct (tx_encodings_read t 0 [] []) as [Hreads Hsum];
    try done; try (constructor; done); [by eapply chain_uint64, validate_chain|].
  assert (Forall2 (reads rlpDecodeItem) (tx_encodings t 0 [] []) (tx_items t 0 [] []).*1) as Hp.
  { apply Forall2_fmap_r. eapply Forall2_impl; [exact Hreads|].
    intros e [x k] Hr. by eapply reads_plain. }
  pose proof (decode_list_reads rlpDecodeItem _ _ [] Hp Hsum) as Hdec. rewrite app_nil_r in Hdec.
  split; [|exact Hdec]. lens. assert (1 <= len (rlpList (tx_encodings t 0 [] []))); [|lia].
  destruct (rlpList (tx_encodings t 0 [] [])) eqn:He; [|lens; pose proof (len_nonneg l); lia].
  exfalso. revert He. unfold rlpList. split_ifs; done.
Qed.

Lemma decodeUnsigned_items t :
  tx_wf t -> is_uint64 (ChainID t) ->
  decodeUnsignedForSigning (tx_items t 0 [] []).*1 = Done t.
Proof.
  intros [Hn Hg Ht Hf [_ Htl] Hv _] Hc.
  unfold decodeUnsignedForSigning, tx_items. cbn [fmap list_fmap fst].
  rewrite (rlpItemUint_item _ Hc), (rlpItemUint_item _ Hn), (rlpItemUint_item _ Hg). bind_step.
  rewrite Htl. bind_step. rewrite !SetBytes_item by (apply Ht || apply Hf || apply Hv).
  by destruct t.
Qed.

Section LocalSigner.
(** The signatures of the library: 65 bytes of which the first is 27 or 28, both numbers
    not zero, and the signer's key recovered from each. *)
Context (SignCompact : bytes -> bytes) (pub : bytes).
Hypothesis sign_shape : forall d, length (SignCompact d) = 65%nat /\ bytes_ok (SignCompact d)
  /\ 27 <= nth 0 (SignCompact d) 0 <= 28.
Hypothesis sign_nonzero : forall d, SetBytes (firstn 32 (skipn 1 (SignCompact d))) <> 0
  /\ SetBytes (firstn 32 (skipn 33 (SignCompact d))) <> 0.
Hypothesis sign_recovers : forall d, RecoverCompact (SignCompact d) d = Some pub.
Hypothesis pub_uncompressed : length pub = 65%nat /\ nth 0 pub 0 = 4.

Lemma compact_parts d :
  let c := SignCompact d in
  exists v r s, c = v :: r ++ s /\ length r = 32%nat /\ length s = 32%nat
    /\ bytes_ok r /\ bytes_ok s /\ 27 <= v <= 28 /\ SetBytes r <> 0 /\ SetBytes s <> 0
    /\ nth 0 c 0 = v /\ firstn 32 (skipn 1 c) = r /\ firstn 32 (skipn 33 c) = s.
Proof.
  intros c. destruct (sign_shape d) as (Hl & Hok & Hv). destruct (sign_nonzero d) as [Hr Hs].
  fold c in Hl, Hok, Hv, Hr, Hs. destruct c as [|v c]; [done|]. simpl in Hl, Hv, Hr, Hs.
  inversion Hok as [|? ? _ Hc]; subst.
  exists v, (firstn 32 c), (firstn 32 (skipn 32 c)).
  assert (firstn 32 (skipn 32 c) = skipn 32 c) as Hf by (apply firstn_all2; rewrite length_drop; lia).
  split_and!; try done; try (simpl; done).
  - by rewrite Hf, firstn_skipn.
  - rewrite length_take. lia.
  - rewrite Hf, length_drop. lia.
  - by apply Forall_take.
  - rewrite Hf. by apply Forall_drop.
  - lia.
  - lia.
Qed.

(** The signer returns the envelope of the transaction it was given, whose signature
    recovers to its key. *)
Lemma SignTx_exact t u :
  tx_wf t -> UnsignedRLP t = Done u ->
  exists signed y r s,
    SignTx SignCompact false false u = Done (signed, TxHash signed)
    /\ DecodeSignedEIP1559 signed = Done (t, y, r, s)
    /\ RecoverTxSender signed = Done ("0x" +:+ hex_text (skipn 12 (keccak (tail pub)))).
Proof.
  intros Ht Hu. assert (Validate t = Done tt) as Hv.
  { unfold UnsignedRLP in Hu. apply bind_outcome in Hu as ([] & Hv & _). done. }
  pose proof (chain_uint64 _ (validate_chain _ _ Hv)) as Hc.
  destruct (unsigned_items t Ht Hv) as (u' & Hu' & Hhead & Hlen & Hdec).
  rewrite Hu in Hu'. injection Hu' as <-.
  destruct u as [|x u]; [done|]. injection Hhead as ->. cbn [tail] in Hdec.
  destruct (compact_parts (keccak (2 :: u))) as (v & r & s & Hcomp & Hrl & Hsl & Hr & Hs & Hv27 & Hr0 & Hs0
    & E0 & E1 & E2).
  assert (SignedRLP t ((v - 27) mod 256) r s = Done (prependEIP2718 2 (rlpList
    (tx_encodings t ((v - 27) mod 256) (trimLeadingZeros r) (trimLeadingZeros s))))) as Hsig.
  { unfold SignedRLP. rewrite Hv. bind_step. rewrite Z.mod_small by lia.
    unfold len. rewrite Hrl, Hsl. replace (v - 27 <=? 1) with true by lia. done. }
  assert (DecodeSignedEIP1559 (prependEIP2718 2 (rlpList
    (tx_encodings t ((v - 27) mod 256) (trimLeadingZeros r) (trimLeadingZeros s))))
    = Done (t, (v - 27) mod 256, r, s)) as Hd.
  { rewrite (signed_decodes t ((v - 27) mod 256) r s); try done.
    - by rewrite !left_pad32_full.
    - rewrite Z.mod_small; lia. }
  eexists _, _, r, s. split_and!; [|exact Hd|].
  - unfold SignTx. cbn [tail]. bind_step.
    replace (len (2 :: u) <? 2) with false by (symmetry; apply Z.ltb_ge; lia). bind_step.
    change (2 =? 2) with true. bind_step. rewrite Hdec. bind_step.
    unfold tx_items. cbn [fmap list_fmap fst andb]. bind_step.
    rewrite (rlpItemUint_item _ Hc). bind_step.
    rewrite (validate_chain _ _ Hv), Z.eqb_refl. bind_step.
    pose proof (decodeUnsigned_items t Ht Hc) as Hdu.
    unfold tx_items in Hdu. cbn [fmap list_fmap fst] in Hdu. rewrite (validate_chain _ _ Hv) in Hdu.
    rewrite Hdu. bind_step.
    rewrite E0, E1, E2, Hsig. done.
  - unfold RecoverTxSender. rewrite Hd. bind_step. unfold SigningHash. rewrite Hu. bind_step.
    rewrite parity_back by lia. rewrite <- Hcomp. unfold ecrecover.
    rewrite sign_recovers. destruct pub_uncompressed as [Hpl Hp4].
    unfold len. rewrite Hpl. bind_step. destruct pub as [|x p]; [done|]. simpl in Hp4. subst x.
    done.
Qed.

(** A transaction the runner builds and the local signer signs passes the check. *)
Theorem local_signer_passes hot nonce addr amount unsigned :
  addressEqualFold ("0x" +:+ hex_text (skipn 12 (keccak (tail pub)))) hot = true ->
  buildEIP1559 nonce addr amount = Done unsigned ->
  exists u signed,
    UnsignedRLP unsigned = Done u
    /\ SignTx SignCompact false false u = Done (signed, TxHash signed)
    /\ verifySignedTx hot unsigned signed (TxHash signed) amount addr = Done tt.
Proof.
  intros Hhot Hb. destruct (build_shape _ _ _ _ Hb) as (Hwf & _ & Hc & Hu & Hv0 & Hd & Hv).
  destruct (unsigned_items unsigned Hwf Hv) as (u & Hun & _).
  destruct (SignTx_exact unsigned u Hwf Hun) as (signed & y & r & s & Hs & Hdec & Hrec).
  exists u, signed. split_and!; [done|done|]. unfold verifySignedTx. rewrite Hdec, Hd. bind_step.
  rewrite Z.eqb_refl, Hc, Hv0. bind_step. change (BaseMainnetChainID =? BaseMainnetChainID) with true.
  change (0 =? 0) with true. unfold bytes_eqb. rewrite !bool_decide_eq_true_2 by done. bind_step.
  rewrite GoStr.EqualFold_refl. bind_step. rewrite Hrec. bind_step. by rewrite Hhot.
Qed.
End LocalSigner.
End Facts.

(** What the signer hashes: a list of twelve fields, with an empty signature. *)
Theorem unsigned_envelope_fields t u :
  tx_wf t -> UnsignedRLP t = Done u ->
  exists items, rlpDecodeList (tail u) = Done (items, len (tail u)) /\ length items = 12%nat
    /\ skipn 9 items = [[]; []; []].
Proof.
  intros Ht Hu. assert (Validate t = Done tt) as Hv.
  { unfold UnsignedRLP in Hu. apply bind_outcome in Hu as ([] & Hv & _). done. }
  destruct (unsigned_items t Ht Hv) as (u' & Hu' & _ & _ & Hdec).
  rewrite Hu in Hu'. injection Hu' as <-. eexists. split; [exact Hdec|]. done.
Qed.

(** ** Concrete instances *)

Module EvmExample.
Definition usdc_body : list ascii := skipn 2 (GoStr.chars USDCContractAddressBase).

(** A digest of which a nibble is 8 where the letter of the text is upper case. *)
Fixpoint case_digest (l : list ascii) : bytes :=
  match l with
  | a :: b :: l =>
      (if between 65 70 (code a) then 128 else 0) + (if between 65 70 (code b) then 8 else 0)
      :: case_digest l
  | _ => []
  end.

(** A polynomial in place of Keccak, which keeps the checksum of the USDC address. *)
Definition toy_keccak (b : bytes) : bytes :=
  if bytes_eqb b (text_bytes (map GoStr.lower_ascii usdc_body))
  then case_digest usdc_body ++ repeat_zero 12
  else be_bytes 32 (fold_left (fun v x => (v * 257 + x + 1) mod (2 ^ 256 - 189)) b 7).

Definition toy_pub : bytes := 4 :: repeat_zero 64.
Definition toy_sign (_ : bytes) : bytes := 27 :: be_bytes 32 11 ++ be_bytes 32 13.

#[export] Instance toy_lib : EvmLib.
Proof.
  refine {| keccak := toy_keccak; RecoverCompact := fun _ _ => Some toy_pub |}.
  - intros b. unfold toy_keccak. case_match; [done|apply be_bytes_length].
  - intros b. unfold toy_keccak. case_match; [|apply be_bytes_ok].
    repeat constructor; unfold is_byte; simpl; lia.
Defined.

Definition hot : string :=
  Eval vm_compute in "0x" +:+ hex_text (skipn 12 (keccak (tail toy_pub))).
Definition payee : string := "0x00000000000000000000000000000000000000a1".

Definition toy_tx (nonce : Z) : EIP1559Tx :=
  mkTx BaseMainnetChainID nonce 2000000000 50000000000 80000
    (match AddressBytes USDCContractAddressBase with Done b => b | _ => [] end) 0
    (match USDCTransferCalldata payee 150 with Done d => d | _ => [] end).

Lemma toy_tx_built : buildEIP1559 5 payee 150 = Done (toy_tx 5).
Proof. vm_compute. reflexivity. Qed.
End EvmExample.
Import EvmExample.

(** A length of 2^63 or more turns negative in [int(bigEndianRead(...))], passes the test
    for a truncated payload and makes the slice panic. *)
Example negative_length_panics :
  DecodeSignedEIP1559 (2 :: 255 :: 128 :: repeat_zero 7) = Panic.
Proof. vm_compute. reflexivity. Qed.

Example long_string_length_panics :
  rlpDecodeItemWithKind (191 :: 255 :: repeat_zero 7) = Panic.
Proof. vm_compute. reflexivity. Qed.

Lemma signed_envelope_roundtrip_witness :
  exists signed, SignedRLP (toy_tx 5) 1 [0; 7] [9] = Done signed
    /\ DecodeSignedEIP1559 signed = Done (toy_tx 5, 1, left_pad32 [0; 7], left_pad32 [9]).
Proof.
  destruct (build_shape _ _ _ _ toy_tx_built) as (Hwf & _).
  assert (SignedRLP (toy_tx 5) 1 [0; 7] [9] =
    Done ltac:(let v := eval vm_compute in (SignedRLP (toy_tx 5) 1 [0; 7] [9]) in
               match v with Done ?b => exact b end)) as Hs by (vm_compute; reflexivity).
  eexists. split; [exact Hs|].
  refine (signed_envelope_roundtrip (toy_tx 5) 1 [0; 7] [9] _ Hwf _ _ _ _ _ Hs).
  - lia.
  - repeat constructor; lia.
  - repeat constructor; lia.
  - vm_compute. discriminate.
  - vm_compute. discriminate.
Defined.

Lemma verified_envelope_pays_exactly_witness :
  exists signed hash t y r s,
    verifySignedTx hot (toy_tx 5) signed hash 150 payee = Done tt
    /\ DecodeSignedEIP1559 signed = Done (t, y, r, s) /\ Nonce t = 5.
Proof.
  destruct (SignTx toy_sign false false
    (match UnsignedRLP (toy_tx 5) with Done u => u | _ => [] end)) as [[signed hash]| |] eqn:Hs;
    [|vm_compute in Hs; discriminate|vm_compute in Hs; discriminate].
  exists signed, hash.
  assert (verifySignedTx hot (toy_tx 5) signed hash 150 payee = Done tt) as Hv.
  { vm_compute in Hs. injection Hs as <- <-. vm_compute. reflexivity. }
  destruct (verified_envelope_pays_exactly hot 5 payee 150 (toy_tx 5) signed hash)
    as (t & y & r & s & sender & Hd & Hn & _);
    [unfold Int64.half; lia|unfold Int64.max; lia|exact toy_tx_built|exact Hv|].
  exists t, y, r, s. split_and!; assumption.
Defined.

Lemma local_signer_passes_witness :
  exists u signed,
    UnsignedRLP (toy_tx 5) = Done u
    /\ SignTx toy_sign false false u = Done (signed, TxHash signed)
    /\ verifySignedTx hot (toy_tx 5) signed (TxHash signed) 150 payee = Done tt.
Proof.
  apply (local_signer_passes toy_sign toy_pub) with 5.
  - intros d. split; [vm_compute; reflexivity|]. split; [|simpl; lia].
    repeat constructor; vm_compute; congruence.
  - intros d. split; vm_compute; discriminate.
  - intros d. reflexivity.
  - split; reflexivity.
  - vm_compute. reflexivity.
  - exact toy_tx_built.
Defined.
