(* ===== verification/PayoutStore.v ===== *)
(** The tables of the payout pipeline and every statement on them:
    [internal/payout/lease.go], [attempts.go], and the statements of [abandon.go],
    [reorg.go] and [orphans.go] on stale cancels.

    The payout tables live in the database of the billing ledger; [PayDB] puts them next
    to the [Ledger]. A statement is a function on the rows it touches; UNIQUE indexes,
    CHECKs and the bootstrap trigger are written out. Times are the texts the code stores,
    and SQL compares them as texts. *)
From S2P Require Import Prelude GoTime Ledger Settlement Evm.

(** ** The lease: [payout_runner_lease], at most one row *)

Record LeaseRow := mkLeaseRow {
  holder_host : string;
  holder_pid : Z;
  holder_started_at_utc : string;
  holder_token : string;
  heartbeat_at_utc : string;
  acquired_at_utc : string;
  takeover_count : Z;
}.

#[export] Instance rebuild_LeaseRow : Rebuild LeaseRow := fun r =>
  mkLeaseRow (holder_host r) (holder_pid r) (holder_started_at_utc r) (holder_token r)
    (heartbeat_at_utc r) (acquired_at_utc r) (takeover_count r).

Record LeaseState := mkLeaseState {
  HolderToken : string;
  HolderHost : string;
  HolderPID : Z;
  StartedAt : Z;
}.

Definition formatUTC (t : Z) : string := rfc3339NanoText t.

Definition staleWindow (runInterval : Z) : Z := Int64.mul 3 runInterval.

Inductive AcquireResult := Acquired (taken_over : bool) | LeaseConflict | AcquireError.

(** [Acquire]: the result and the row after the transaction. *)
Definition Acquire (me : LeaseState) (runInterval : Z) (row : option LeaseRow)
    : AcquireResult * option LeaseRow :=
  let now := StartedAt me in
  let mine := mkLeaseRow (HolderHost me) (HolderPID me) (formatUTC now) (HolderToken me)
                (formatUTC now) (formatUTC now) in
  match row with
  | None => (Acquired false, Some (mine 0))
  | Some old =>
      match parse_rfc3339 (heartbeat_at_utc old) with
      | None => (AcquireError, row)
      | Some hbTime =>
          if time_sub now hbTime <? staleWindow runInterval then (LeaseConflict, row)
          else (Acquired true, Some (mine (takeover_count old + 1)))
      end
  end.

(** [Heartbeat]: [false] is [ErrLeaseLost]. *)
Definition Heartbeat (me : LeaseState) (now : Z) (row : option LeaseRow)
    : bool * option LeaseRow :=
  match row with
  | Some r => if String.eqb (holder_token r) (HolderToken me)
              then (true, Some (r <| heartbeat_at_utc := formatUTC now |>)) else (false, row)
  | None => (false, row)
  end.

(** [SelfFence] and [SelfFenceTx]: [false] is [ErrLeaseLost]. *)
Definition SelfFence (me : LeaseState) (row : option LeaseRow) : bool :=
  match row with
  | Some r => String.eqb (holder_token r) (HolderToken me)
  | None => false
  end.

Definition Release (me : LeaseState) (row : option LeaseRow) : option LeaseRow :=
  if SelfFence me row then None else row.

(** [IsLeaseActive]: [None] is a heartbeat that does not parse. *)
Definition IsLeaseActive (now runInterval : Z) (row : option LeaseRow) : option bool :=
  match row with
  | None => Some false
  | Some r => hbTime ← parse_rfc3339 (heartbeat_at_utc r);
              Some (time_sub now hbTime <? staleWindow runInterval)
  end.

(** ** Attempts: [payout_attempts] *)

Record AttemptRow := mkAttemptRow {
  PayoutID : Z;
  AttemptSeq : Z;
  FromAddress : string;
  ToAddress : string;
  AmountBaseUnits : Z;
  AttNonce : Z;
  RawSignedTx : option bytes;
  TxHashCol : option string;
  BroadcastAtUtc : option string;
  ConfirmedAtUtc : option string;
  BlockNumber : option Z;
  GasUsedNativeWei : option Z;
  IsCancelSelfTransfer : bool;
  LastError : option string;
  AbandonedAtUtc : option string;
  AbandonedReason : option string;
  CancelReconfirmStalePagedAtUtc : option string;
  GasReservedNativeWei : option Z;
  UpdatedAtUtc : string;
}.

#[export] Instance rebuild_AttemptRow : Rebuild AttemptRow := fun r =>
  mkAttemptRow (PayoutID r) (AttemptSeq r) (FromAddress r) (ToAddress r) (AmountBaseUnits r)
    (AttNonce r) (RawSignedTx r) (TxHashCol r) (BroadcastAtUtc r) (ConfirmedAtUtc r)
    (BlockNumber r) (GasUsedNativeWei r) (IsCancelSelfTransfer r) (LastError r)
    (AbandonedAtUtc r) (AbandonedReason r) (CancelReconfirmStalePagedAtUtc r)
    (GasReservedNativeWei r) (UpdatedAtUtc r).

Definition is_some {A} (o : option A) : bool := match o with Some _ => true | None => false end.

Definition abandoned (r : AttemptRow) : bool := is_some (AbandonedAtUtc r).
Definition confirmed (r : AttemptRow) : bool := is_some (ConfirmedAtUtc r).
Definition broadcast (r : AttemptRow) : bool := is_some (BroadcastAtUtc r).
Definition live (r : AttemptRow) : bool := negb (abandoned r).
Definition of_payout (p : Z) (r : AttemptRow) : bool := PayoutID r =? p.
Definition is_row (p seq : Z) (r : AttemptRow) : bool :=
  (PayoutID r =? p) && (AttemptSeq r =? seq).

(** The live attempt to pay, and a live cancel, of a payout. *)
Definition live_transfer (p : Z) (r : AttemptRow) : bool :=
  of_payout p r && live r && negb (IsCancelSelfTransfer r).
Definition live_cancel (p : Z) (r : AttemptRow) : bool :=
  of_payout p r && IsCancelSelfTransfer r && live r.

(** The row with the greatest [attempt_seq]. *)
Definition later (best : option AttemptRow) (r : AttemptRow) : option AttemptRow :=
  match best with
  | Some b => if AttemptSeq b <? AttemptSeq r then Some r else best
  | None => Some r
  end.

Definition LookupExistingLatest (p : Z) (rows : list AttemptRow) : option AttemptRow :=
  fold_left later (List.filter (live_transfer p) rows) None.

Definition by_seq (a b : AttemptRow) : Prop := AttemptSeq a <= AttemptSeq b.
#[global] Instance by_seq_dec : RelDecision by_seq := fun a b => Z_le_dec (AttemptSeq a) (AttemptSeq b).

Definition LookupLiveCancels (p : Z) (rows : list AttemptRow) : list AttemptRow :=
  merge_sort by_seq (List.filter (live_cancel p) rows).

Definition max_seq (rows : list AttemptRow) : option Z :=
  fold_left (fun m r => Some (match m with Some z => Z.max z (AttemptSeq r) | None => AttemptSeq r end))
    rows None.

Definition NextAttemptSeq (p : Z) (rows : list AttemptRow) : Z :=
  match max_seq (List.filter (of_payout p) rows) with
  | None => 1
  | Some m => Int64.add m 1
  end.

(** *** Constraints of the table *)

Definition attempt_checks (r : AttemptRow) : bool :=
  (1 <=? AttemptSeq r) && (0 <? AmountBaseUnits r) && (0 <=? AttNonce r).

(** Rows that may not stand side by side: the primary key and the two UNIQUE indexes on
    live rows (the third, on confirmed ones, is implied by the last). *)
Definition clash (a b : AttemptRow) : bool :=
  is_row (PayoutID a) (AttemptSeq a) b
  || (live a && live b && String.eqb (FromAddress a) (FromAddress b) && (AttNonce a =? AttNonce b))
  || (live a && live b && negb (IsCancelSelfTransfer a) && negb (IsCancelSelfTransfer b)
      && (PayoutID a =? PayoutID b)).

Inductive InsertResult := Inserted (rows : list AttemptRow) | UniqueViolation | CheckViolation.

Definition insert_row (r : AttemptRow) (rows : list AttemptRow) : InsertResult :=
  if negb (attempt_checks r) then CheckViolation
  else if existsb (clash r) rows then UniqueViolation
  else Inserted (rows ++ [r]).

(** *** Statements *)

Definition fresh_attempt (p seq : Z) (from to : string) (amount nonce : Z) (nowUTC : string)
    : AttemptRow :=
  mkAttemptRow p seq (GoStr.ToLower from) (GoStr.ToLower to) amount nonce None None None None
    None None false None None None None None nowUTC.

Definition InsertAttempt (p seq : Z) (from to : string) (amount nonce : Z) (nowUTC : string)
    (rows : list AttemptRow) : InsertResult :=
  insert_row (fresh_attempt p seq from to amount nonce nowUTC) rows.

Definition unsigned_live (p seq : Z) (r : AttemptRow) : bool :=
  is_row p seq r && negb (is_some (RawSignedTx r)) && negb (confirmed r) && live r.

Inductive CasResult := CasDone (rows : list AttemptRow)
  | ErrAttemptRowMissing | ErrAttemptStateChangedDuringSign | ErrRawSignedTxAlreadyPresent
  | ErrCasUnknown.

Definition CASPersistSignedTx (p seq : Z) (rawSignedTx : bytes) (txHash nowUTC : string)
    (rows : list AttemptRow) : CasResult :=
  if existsb (unsigned_live p seq) rows then
    CasDone (update_where (unsigned_live p seq) (fun r =>
      r <| RawSignedTx := Some rawSignedTx |> <| TxHashCol := Some txHash |>
        <| UpdatedAtUtc := nowUTC |>) rows)
  else match List.find (is_row p seq) rows with
  | None => ErrAttemptRowMissing
  | Some r => if abandoned r || confirmed r then ErrAttemptStateChangedDuringSign
              else if is_some (RawSignedTx r) then ErrRawSignedTxAlreadyPresent
              else ErrCasUnknown
  end.

(** [StampBroadcastAtTx]: the rows and their number *)
Definition unbroadcast_open (p seq : Z) (r : AttemptRow) : bool :=
  is_row p seq r && negb (broadcast r) && negb (confirmed r) && live r.

Definition stamp (nowUTC : string) (r : AttemptRow) : AttemptRow :=
  r <| BroadcastAtUtc := Some nowUTC |> <| UpdatedAtUtc := nowUTC |>.

Definition StampBroadcastAtTx (p seq : Z) (nowUTC : string) (rows : list AttemptRow)
    : Z * list AttemptRow :=
  (count (unbroadcast_open p seq) rows, update_where (unbroadcast_open p seq) (stamp nowUTC) rows).

Definition StampBroadcastAt (p seq : Z) (nowUTC : string) (rows : list AttemptRow)
    : list AttemptRow :=
  update_where (fun r => is_row p seq r && negb (broadcast r)) (stamp nowUTC) rows.

(** [MarkConfirmedAtTx]: the number of rows and the rows *)
Definition open_row (p seq : Z) (r : AttemptRow) : bool :=
  is_row p seq r && negb (confirmed r) && live r.

Definition MarkConfirmedAtTx (p seq blockNumber gasUsedNativeWei : Z) (nowUTC : string)
    (rows : list AttemptRow) : Z * list AttemptRow :=
  (count (open_row p seq) rows,
   update_where (open_row p seq) (fun r =>
     r <| ConfirmedAtUtc := Some nowUTC |> <| BlockNumber := Some blockNumber |>
       <| GasUsedNativeWei := Some gasUsedNativeWei |> <| UpdatedAtUtc := nowUTC |>
       <| CancelReconfirmStalePagedAtUtc := None |>) rows).

(** [a >= b] of two texts *)
Definition text_ge (a b : string) : bool := negb (String.ltb a b).

Definition text_since (since : string) (t : option string) : bool :=
  match t with Some t => text_ge t since | None => false end.

Definition in_window (from since : string) (r : AttemptRow) : bool :=
  String.eqb (FromAddress r) from && negb (IsCancelSelfTransfer r) && live r
  && (text_since since (BroadcastAtUtc r) || (negb (broadcast r) && negb (confirmed r))).

(** [SumAmountWindow]; SQLite's [SUM] fails when it leaves 64 bits. *)
Definition SumAmountWindow (fromAddress since : string) (rows : list AttemptRow) : option Z :=
  GoStr.int_range_checked (sum_if (in_window (GoStr.ToLower fromAddress) since) AmountBaseUnits rows).

Definition CountStaleUnbroadcastTx (fromAddress nowMinus24h : string) (rows : list AttemptRow) : Z :=
  count (fun r => String.eqb (FromAddress r) (GoStr.ToLower fromAddress) && negb (broadcast r)
                  && negb (confirmed r) && live r && String.ltb (UpdatedAtUtc r) nowMinus24h) rows.

(** The abandon marker of [ServeAbandon]. *)
Definition abandon_rows (p seq : Z) (reason nowUTC : string) (rows : list AttemptRow)
    : Z * list AttemptRow :=
  (count (open_row p seq) rows,
   update_where (open_row p seq) (fun r =>
     r <| AbandonedAtUtc := Some nowUTC |> <| AbandonedReason := Some reason |>
       <| UpdatedAtUtc := nowUTC |>) rows).

(** The cancel row of [ServeAbandon]. *)
Definition cancel_attempt (p seq : Z) (hotWallet : string) (nonce : Z) (raw : bytes)
    (txHash : string) (gas : Z) (nowUTC : string) : AttemptRow :=
  mkAttemptRow p seq (GoStr.ToLower hotWallet) (GoStr.ToLower hotWallet) 1 nonce (Some raw)
    (Some txHash) None None None None true None None None None (Some gas) nowUTC.

Definition cancel_gas_counts (from since : string) (r : AttemptRow) : bool :=
  String.eqb (FromAddress r) from && IsCancelSelfTransfer r && live r
  && (text_since since (BroadcastAtUtc r)
      || (negb (broadcast r) && is_some (GasReservedNativeWei r))).

Definition cancel_gas (r : AttemptRow) : Z :=
  match GasUsedNativeWei r with
  | Some g => g
  | None => default 0 (GasReservedNativeWei r)
  end.

Definition sumCancelGasLast24h (fromAddress since : string) (rows : list AttemptRow) : option Z :=
  GoStr.int_range_checked (sum_if (cancel_gas_counts (GoStr.ToLower fromAddress) since) cancel_gas rows).

(** The update of [handleCancelReorg]: the number of rows and the rows. *)
Definition confirmed_cancel (p seq : Z) (r : AttemptRow) : bool :=
  is_row p seq r && IsCancelSelfTransfer r && live r && confirmed r.

Definition reopen_cancel (p seq : Z) (txHash nowUTC : string) (rows : list AttemptRow)
    : Z * list AttemptRow :=
  (count (confirmed_cancel p seq) rows,
   update_where (confirmed_cancel p seq) (fun r =>
     r <| ConfirmedAtUtc := None |> <| BlockNumber := None |> <| GasUsedNativeWei := None |>
       <| CancelReconfirmStalePagedAtUtc := None |>
       <| LastError := Some ("cancel_self_transfer_reorged:" +:+ txHash) |>
       <| UpdatedAtUtc := nowUTC |>) rows).

(** ** Stale cancels: [orphans.go] *)

(** [cancel_reconfirm_stale_outbox] *)
Record StaleOutboxRow := mkStaleOutboxRow {
  so_ID : Z;
  so_PayoutID : Z;
  so_AttemptSeq : Z;
  so_StaleStartedAtUTC : string;
  so_Nonce : Z;
  so_TxHash : string;
  so_LastSeenBlock : Z;
  so_ReorgReactivatedAtUTC : string;
  so_RunID : string;
  so_emitted_to_log : bool;
}.

#[export] Instance rebuild_StaleOutboxRow : Rebuild StaleOutboxRow := fun r =>
  mkStaleOutboxRow (so_ID r) (so_PayoutID r) (so_AttemptSeq r) (so_StaleStartedAtUTC r)
    (so_Nonce r) (so_TxHash r) (so_LastSeenBlock r) (so_ReorgReactivatedAtUTC r) (so_RunID r)
    (so_emitted_to_log r).

Definition stale_paged (r : AttemptRow) : bool := is_some (CancelReconfirmStalePagedAtUtc r).

Definition stale_candidate (cutoff : string) (r : AttemptRow) : bool :=
  IsCancelSelfTransfer r && is_some (RawSignedTx r) && broadcast r && negb (confirmed r)
  && negb (stale_paged r) && live r && String.ltb (UpdatedAtUtc r) cutoff.

(** The place of a row in the keyset order. *)
Abbreviation keyset := (string * Z * Z)%type.
Definition keyset_of (r : AttemptRow) : keyset := (UpdatedAtUtc r, PayoutID r, AttemptSeq r).

Definition past_cursor (c : option keyset) (r : AttemptRow) : bool :=
  match c with
  | None => true
  | Some (u, p, n) =>
      String.ltb u (UpdatedAtUtc r)
      || (String.eqb (UpdatedAtUtc r) u && (p <? PayoutID r))
      || (String.eqb (UpdatedAtUtc r) u && (PayoutID r =? p) && (n <? AttemptSeq r))
  end.

Definition by_keyset (a b : AttemptRow) : Prop := past_cursor (Some (keyset_of b)) a = false.
#[global] Instance by_keyset_dec : RelDecision by_keyset.
Proof. intros a b. unfold by_keyset. apply _. Defined.

Definition stale_chunk (cutoff : string) (cursor : option keyset) (limit : Z)
    (rows : list AttemptRow) : list AttemptRow :=
  firstn (Z.to_nat limit)
    (merge_sort by_keyset (List.filter (fun r => stale_candidate cutoff r && past_cursor cursor r) rows)).

(** The marker on a stale cancel: the number of rows and the rows. *)
Definition markable (p seq : Z) (r : AttemptRow) : bool :=
  is_row p seq r && negb (stale_paged r) && negb (confirmed r).

Definition mark_stale (p seq : Z) (staleStarted : string) (rows : list AttemptRow)
    : Z * list AttemptRow :=
  (count (markable p seq) rows,
   update_where (markable p seq) (fun r =>
     r <| CancelReconfirmStalePagedAtUtc := Some staleStarted |> <| UpdatedAtUtc := staleStarted |>) rows).

Definition same_period (p seq : Z) (staleStarted : string) (r : StaleOutboxRow) : bool :=
  (so_PayoutID r =? p) && (so_AttemptSeq r =? seq) && String.eqb (so_StaleStartedAtUTC r) staleStarted.

(** [INSERT OR IGNORE]; [next] is the next AUTOINCREMENT id. *)
Definition insert_stale (c : AttemptRow) (staleStarted runID : string) (next : Z)
    (l : list StaleOutboxRow) : Z * list StaleOutboxRow :=
  if existsb (same_period (PayoutID c) (AttemptSeq c) staleStarted) l then (next, l)
  else (next + 1, l ++ [mkStaleOutboxRow next (PayoutID c) (AttemptSeq c) staleStarted (AttNonce c)
          (default "" (TxHashCol c)) (default 0 (BlockNumber c)) (UpdatedAtUtc c) runID false]).

(** The id of the row of a period. *)
Definition period_id (p seq : Z) (staleStarted : string) (l : list StaleOutboxRow) : option Z :=
  so_ID <$> List.find (same_period p seq staleStarted) l.

Definition ListUnemittedStaleOutboxOlderThan (cutoff : string) (l : list StaleOutboxRow)
    : list StaleOutboxRow :=
  List.filter (fun r => negb (so_emitted_to_log r) && String.ltb (so_StaleStartedAtUTC r) cutoff) l.

(** The claim of [ClaimAndEmitStaleOutbox]: the row to emit and the rows. *)
Definition unemitted (id : Z) (r : StaleOutboxRow) : bool :=
  (so_ID r =? id) && negb (so_emitted_to_log r).

Definition claim_stale (id : Z) (l : list StaleOutboxRow)
    : option StaleOutboxRow * list StaleOutboxRow :=
  (List.find (unemitted id) l,
   update_where (unemitted id) (fun r => r <| so_emitted_to_log := true |>) l).

(** ** The nonce cursor: [wallet_nonce_cursor] *)

Record CursorRow := mkCursorRow {
  next_nonce : Z;
  last_synced_at_utc : string;
  rpc_a_last_value : Z;
  rpc_b_last_value : Z;
}.

#[export] Instance rebuild_CursorRow : Rebuild CursorRow := fun r =>
  mkCursorRow (next_nonce r) (last_synced_at_utc r) (rpc_a_last_value r) (rpc_b_last_value r).

(** [UpsertNonceCursor]; the CHECK refuses a nonce that is negative as [int64]. *)
Definition UpsertNonceCursor (fromAddress : string) (nextNonce rpcA rpcB : Z) (nowUTC : string)
    (m : gmap string CursorRow) : option (gmap string CursorRow) :=
  if 0 <=? Int64.wrap nextNonce then
    Some (<[GoStr.ToLower fromAddress := mkCursorRow (Int64.wrap nextNonce) nowUTC
             (Int64.wrap rpcA) (Int64.wrap rpcB)]> m)
  else None.

Definition ReadNonceCursor (fromAddress : string) (m : gmap string CursorRow) : option (option Z) :=
  match m !! GoStr.ToLower fromAddress with
  | None => Some None
  | Some c => if next_nonce c <? 0 then None else Some (Some (next_nonce c))
  end.

Definition AllocateNextNonceTx (fromAddress : string) (m : gmap string CursorRow) : option Z :=
  next_nonce <$> m !! GoStr.ToLower fromAddress.

Definition BumpNonceCursorTx (fromAddress nowUTC : string) (m : gmap string CursorRow)
    : gmap string CursorRow :=
  alter (fun c => c <| next_nonce := next_nonce c + 1 |> <| last_synced_at_utc := nowUTC |>)
    (GoStr.ToLower fromAddress) m.

(** ** Payout addresses and the rows that are ready *)

(** [provider_payout_addresses] *)
Record AddressRow := mkAddressRow {
  ppa_provider_id : string;
  ppa_chain : string;
  ppa_address : string;
  ppa_payout_allowed : bool;
  ppa_pending_until_utc : option string;
  ppa_rotated_from : option string;
  ppa_registered_at_utc : string;
  ppa_registered_against_hot_wallet : string;
}.

Record ReadyRow := mkReadyRow {
  rr_PayoutID : Z;
  rr_ProviderID : string;
  rr_GrossCredits : Z;
  rr_ProviderCredits : Z;
  rr_EffectiveAddress : option string;
}.

Definition pending (nowUTC : string) (a : AddressRow) : bool :=
  match ppa_pending_until_utc a with Some t => String.ltb nowUTC t | None => false end.

Definition payable_address (hotWallet nowUTC : string) (l : PayoutRow) (a : AddressRow) : bool :=
  String.eqb (ppa_provider_id a) (lpr_provider_id l)
  && String.eqb (ppa_chain a) "base-mainnet" && ppa_payout_allowed a
  && String.eqb (ppa_registered_against_hot_wallet a) hotWallet
  && (negb (pending nowUTC a) || is_some (ppa_rotated_from a)).

Definition effective_address (nowUTC : string) (a : AddressRow) : option string :=
  if pending nowUTC a then ppa_rotated_from a else Some (ppa_address a).

Definition by_payout (a b : ReadyRow) : Prop := rr_PayoutID a <= rr_PayoutID b.
#[global] Instance by_payout_dec : RelDecision by_payout :=
  fun a b => Z_le_dec (rr_PayoutID a) (rr_PayoutID b).

(** [SelectReadyPayouts]; a negative [LIMIT] is none. *)
Definition SelectReadyPayouts (hotWallet nowUTC : string) (limit : Z)
    (payouts : list PayoutRow) (addresses : list AddressRow) : list ReadyRow :=
  let joined := flat_map (fun l =>
    if bool_decide (lpr_status l = ready) then
      map (fun a => mkReadyRow (lpr_id l) (lpr_provider_id l) (lpr_gross_credits l)
                      (lpr_provider_credits l) (effective_address nowUTC a))
        (List.filter (payable_address hotWallet nowUTC l) addresses)
    else []) payouts in
  let sorted := merge_sort by_payout joined in
  if limit <? 0 then sorted else firstn (Z.to_nat limit) sorted.

(** ** The database *)

Record PayDB := mkPayDB {
  pd_ledger : Ledger;
  pd_addresses : list AddressRow;
  pd_attempts : list AttemptRow;
  pd_lease : option LeaseRow;
  pd_cursors : gmap string CursorRow;
  (** [payout_runner_state.bootstrap_completed_at_utc], set by a trigger on the first
      confirmation and never cleared *)
  pd_bootstrap : option string;
  pd_outbox : list StaleOutboxRow;
  pd_next_outbox : Z;
}.

#[export] Instance rebuild_PayDB : Rebuild PayDB := fun d =>
  mkPayDB (pd_ledger d) (pd_addresses d) (pd_attempts d) (pd_lease d) (pd_cursors d) (pd_bootstrap d)
    (pd_outbox d) (pd_next_outbox d).

Definition lease_token (d : PayDB) : option string := holder_token <$> pd_lease d.
