(* ===== verification/PayoutRunner.v ===== *)
(** The programs that move money: [internal/payout/runner.go], [rpc.go], [abandon.go],
    [reorg.go], and the start of the runner in [cmd/coordinator/main.go].

    A handler is a program over two kinds of events: a transaction on the database
    ([Tx]), which other processes see as one step, and a question to the world outside it
    ([Ask]): the clock, the two RPC nodes, the signer, the halt flag. Between two events
    of a program other processes may run. The calls of one round of receipt polling touch
    no shared state and are one event. A transaction that fails has no effect and yields
    [None]. *)
From S2P Require Import Prelude GoTime GoFloat Ledger Settlement Evm PayoutStore.

(** ** RPC values: [rpc.go] *)

Inductive RpcErr := NetworkErr | RPCError (code : Z) (message : string).
Abbreviation rpc A := (RpcErr + A)%type.

Record ReceiptLog := mkReceiptLog {
  log_Address : string;
  log_Topics : list string;
  log_Data : bytes;
}.

Record RpcReceipt := mkRpcReceipt {
  rec_TxHash : string;
  rec_BlockHash : string;
  rec_BlockNumber : Z;
  rec_Status : Z;
  rec_To : string;
  rec_GasUsed : Z;
  rec_Logs : list ReceiptLog;
}.

Record RpcTransaction := mkRpcTransaction {
  tx_From : string;
  tx_To : string;
  tx_Input : bytes;
  tx_Value : string;
}.

Inductive side := primary | secondary.

(** The receipts and the heads of both nodes, read in one round of polling. *)
Record PollRound := mkPollRound {
  round_recA : rpc (option RpcReceipt);
  round_recB : rpc (option RpcReceipt);
  round_headA : rpc Z;
  round_headB : rpc Z;
}.

(** What a runner reads of [TuningSnapshot]. *)
Record TuningSnapshot := mkTuning {
  ConfirmationBlocks : Z;
  MaxRowsPerRun : Z;
  TuningRunInterval : Z;
}.

(** The channel the loop of the runner receives from. *)
Inductive Tick := TickStop | TickHeartbeat | TickCycle.

(** ** Programs *)

Inductive Query :=
| QNow                            (* NowFn, time.Now *)
| QSqlNow                         (* 'now' of a SQL view *)
| QHalted                         (* halted.Load *)
| QBefore                         (* time.Now().Before(deadline) *)
| QCtxDone                        (* ctx.Done *)
| QTuning                         (* currentTuning *)
| QTick                           (* the select of the loop *)
| QUuid                           (* uuid.NewString *)
| QBalance                        (* currentHotWalletUSDCBalance *)
| QChainID (s : side)             (* ChainID *)
| QCount (s : side)               (* TransactionCount *)
| QSigner                         (* Signer.SignTx, for whatever it is given *)
| QSend (raw : bytes)             (* BroadcastBoth *)
| QRound (hash : string)          (* TransactionReceipt and BlockNumber on both *)
| QReceipts (hash : string)       (* TransactionReceipt on both *)
| QTransaction (s : side) (hash : string). (* TransactionByHash *)

Definition Answer (q : Query) : Type :=
  match q with
  | QNow => Z
  | QSqlNow | QUuid => string
  | QHalted | QBefore | QCtxDone => bool
  | QTuning => TuningSnapshot
  | QTick => Tick
  | QBalance => option Z
  | QChainID _ | QCount _ => rpc Z
  | QSigner => bytes -> option (bytes * string)
  | QSend _ => option RpcErr * option RpcErr
  | QRound _ => PollRound
  | QReceipts _ => rpc (option RpcReceipt) * rpc (option RpcReceipt)
  | QTransaction _ _ => rpc (option RpcTransaction)
  end.

Inductive prog (R : Type) : Type :=
| Ret (r : R)
| Tx (A : Type) (f : PayDB -> A * PayDB) (k : option A -> prog R)
| Ask (q : Query) (k : Answer q -> prog R).
Arguments Ret {R} r.
Arguments Tx {R A} f k.
Arguments Ask {R} q k.

Fixpoint prog_bind {A B} (p : prog A) (f : A -> prog B) : prog B :=
  match p with
  | Ret r => f r
  | Tx g k => Tx g (fun x => prog_bind (k x) f)
  | Ask q k => Ask q (fun x => prog_bind (k x) f)
  end.

Declare Scope prog_scope.
Delimit Scope prog_scope with prog.
Notation "x <- p ;; q" := (prog_bind p (fun x => q))
  (at level 100, p at next level, right associativity) : prog_scope.
Local Open Scope prog_scope.

Definition tx {A} (f : PayDB -> A * PayDB) : prog (option A) := Tx f Ret.
Definition reads_db {A} (f : PayDB -> A) : prog (option A) := tx (fun d => (f d, d)).
Definition ask (q : Query) : prog (Answer q) := Ask q Ret.

(** ** Checks on RPC answers *)

Fixpoint contains_chars (p l : list ascii) : bool :=
  GoStr.list_prefix p l || match l with [] => false | _ :: l => contains_chars p l end.
Definition Contains (s p : string) : bool := contains_chars (GoStr.chars p) (GoStr.chars s).

Definition IsNonceTooLow (e : option RpcErr) : bool :=
  match e with
  | Some (RPCError _ message) =>
      let msg := GoStr.ToLower message in
      Contains msg "nonce too low" || Contains msg "already known"
      || Contains msg "replacement transaction underpriced"
  | _ => false
  end.

(** [acceptedAny] of [BroadcastBoth] *)
Definition acceptedAny (errs : option RpcErr * option RpcErr) : bool :=
  negb (is_some errs.1) || negb (is_some errs.2).

Definition ReceiptsAgree (a b : RpcReceipt) : bool :=
  String.eqb (rec_TxHash a) (rec_TxHash b) && String.eqb (rec_BlockHash a) (rec_BlockHash b)
  && (rec_BlockNumber a =? rec_BlockNumber b) && (rec_Status a =? rec_Status b)
  && String.eqb (rec_To a) (rec_To b).

(** [int64(head) - int64(rec.BlockNumber)] *)
Definition depth (head : Z) (rec : RpcReceipt) : Z :=
  Int64.sub (Int64.wrap head) (Int64.wrap (rec_BlockNumber rec)).

(** Both nodes have the receipt, and both see it deep enough. *)
Definition round_confirmed (conf : Z) (r : PollRound) : option (RpcReceipt * RpcReceipt) :=
  match round_recA r, round_recB r, round_headA r, round_headB r with
  | inr (Some a), inr (Some b), inr headA, inr headB =>
      if (conf <=? depth headA a) && (conf <=? depth headB b) then Some (a, b) else None
  | _, _, _, _ => None
  end.

Definition ColdStartNonceSync (a b : rpc Z) : option Z :=
  match a, b with
  | inr a, inr b =>
      let diff := Int64.sub (Int64.wrap a) (Int64.wrap b) in
      let diff := if diff <? 0 then Int64.neg diff else diff in
      if 1 <? diff then None else Some (if a <? b then b else a)
  | _, _ => None
  end.

Definition usdcLower : string := GoStr.ToLower USDCContractAddressBase.

Definition hasUSDCTransferLog (r : RpcReceipt) : bool :=
  existsb (fun l => String.eqb (log_Address l) usdcLower) (rec_Logs r).

(** keccak256 of [Transfer(address,address,uint256)] *)
Definition transferTopic : string :=
  "0xddf252ad1be2c89b69c2b068fc378daa952ba7f163c4a11628f55a4df523b3ef".

Definition transfer_log_matches (hotTopic toTopic : string) (amount : Z) (l : ReceiptLog) : bool :=
  String.eqb (log_Address l) usdcLower
  && match log_Topics l with
     | t0 :: t1 :: t2 :: _ =>
         String.eqb t0 transferTopic && String.eqb t1 hotTopic && String.eqb t2 toTopic
     | _ => false
     end
  && (SetBytes (log_Data l) =? amount).

Definition countMatchingTransferLog (r : RpcReceipt) (hotTopic toTopic : string) (amount : Z) : Z :=
  count (transfer_log_matches hotTopic toTopic amount) (rec_Logs r).

(** ** Outcomes of a row *)

Inductive rowOutcome := rowOutcomePaid | rowOutcomeCapped | rowOutcomeDailyCapTripped
  | rowOutcomeInsufficientFunds | rowOutcomeFailed | rowOutcomeSkipped.

Inductive RowErr := ErrLeaseLost | ErrOther.

(** [(rowOutcome, error)] *)
Abbreviation row_result := (rowOutcome * option RowErr)%type.

Definition failed_err : row_result := (rowOutcomeFailed, Some ErrOther).
Definition failed : row_result := (rowOutcomeFailed, None).

(** [SelfFence] as an error *)
Definition fence_error (r : option bool) : option RowErr :=
  match r with None => Some ErrOther | Some false => Some ErrLeaseLost | Some true => None end.

Record RunnerConfig := mkRunnerConfig {
  HotWalletAddress : string;
  PerPayoutCapBaseUnits : Z;
  PerDayCapBaseUnits : Z;
  RunInterval : Z;
  (** the rounds of receipt polling that fit between the start and the deadline:
      [ReceiptPollTimeout / ReceiptPollInterval + 1] *)
  PollRounds : nat;
}.

Section Runner.
Context `{EvmLib} (cfg : RunnerConfig).

Abbreviation hot := (HotWalletAddress cfg).

(** ** Confirmation *)

(** [markConfirmedStandalone]: the number of rows *)
Definition mark_confirmed (p seq block gas : Z) (nowUTC : string) (d : PayDB) : Z * PayDB :=
  let '(n, rows) := MarkConfirmedAtTx p seq block gas nowUTC (pd_attempts d) in
  let d := d <| pd_attempts := rows |> in
  (n, if 0 <? n then d <| pd_bootstrap := Some (default nowUTC (pd_bootstrap d)) |> else d).

Definition markConfirmedStandalone (p seq block gas : Z) (nowUTC : string) : prog (option Z) :=
  tx (mark_confirmed p seq block gas nowUTC).

(** [verifyCancelTxView] *)
Definition verifyCancelTxView (t : RpcTransaction) : bool :=
  addressEqualFold (tx_To t) hot && addressEqualFold (tx_From t) hot
  && (len (tx_Input t) =? 0)
  && String.eqb "1" (GoStr.of_chars (GoStr.drop_while (Ascii.eqb "0")
       (GoStr.chars (GoStr.TrimPrefix (GoStr.ToLower (tx_Value t)) "0x")))).

(** The checks of [pollCancelOnce] on the receipts. *)
Definition cancel_receipts (conf : Z) (r : PollRound) : option RpcReceipt :=
  match round_recA r, round_recB r with
  | inr (Some a), inr (Some b) =>
      if negb (ReceiptsAgree a b) then None
      else match round_headA r, round_headB r with
      | inr headA, inr headB =>
          if (depth headA a <? conf) || (depth headB b <? conf) then None
          else if negb (rec_Status a =? 1) then None
          else if negb (addressEqualFold (rec_To a) hot && addressEqualFold (rec_To b) hot) then None
          else if hasUSDCTransferLog a || hasUSDCTransferLog b then None
          else Some a
      | _, _ => None
      end
  | _, _ => None
  end.

Definition pollCancelOnce (conf : Z) (c : AttemptRow) : prog rowOutcome :=
  match TxHashCol c with
  | None => Ret rowOutcomeFailed
  | Some txHash =>
      r <- ask (QRound (GoStr.ToLower txHash)) ;;
      match cancel_receipts conf r with
      | None => Ret rowOutcomeFailed
      | Some recA =>
          ta <- ask (QTransaction primary (GoStr.ToLower txHash)) ;;
          match ta with
          | inr (Some txA) =>
              tb <- ask (QTransaction secondary (GoStr.ToLower txHash)) ;;
              match tb with
              | inr (Some txB) =>
                  if verifyCancelTxView txA && verifyCancelTxView txB then
                    now <- ask QNow ;;
                    n <- markConfirmedStandalone (PayoutID c) (AttemptSeq c)
                           (Int64.wrap (rec_BlockNumber recA)) (Int64.wrap (rec_GasUsed recA))
                           (formatUTC now) ;;
                    match n with
                    | None => Ret rowOutcomeFailed
                    | Some n => Ret (if n =? 0 then rowOutcomeFailed else rowOutcomePaid)
                    end
                  else Ret rowOutcomeFailed
              | _ => Ret rowOutcomeFailed
              end
          | _ => Ret rowOutcomeFailed
          end
      end
  end.

(** [StampBroadcastAt], its error logged or ignored by every caller *)
Definition stamp_tx (p seq : Z) (nowUTC : string) (d : PayDB) : unit * PayDB :=
  (tt, d <| pd_attempts := StampBroadcastAt p seq nowUTC (pd_attempts d) |>).

Definition rebroadcastCancel (c : AttemptRow) : prog unit :=
  match RawSignedTx c with
  | None | Some [] => Ret tt
  | Some raw =>
      errs <- ask (QSend raw) ;;
      if acceptedAny errs then
        now <- ask QNow ;;
        _ <- tx (stamp_tx (PayoutID c) (AttemptSeq c) (formatUTC now)) ;;
        Ret tt
      else Ret tt
  end.

(** The loop over the live cancels: whether one of them blocks a fresh attempt. *)
Fixpoint cancel_loop (conf : Z) (cs : list AttemptRow) (blocks : bool) : prog bool :=
  match cs with
  | [] => Ret blocks
  | c :: cs =>
      if negb (broadcast c) then
        _ <- rebroadcastCancel c ;;
        cancel_loop conf cs true
      else if negb (confirmed c) then
        outcome <- pollCancelOnce conf c ;;
        match outcome with
        | rowOutcomePaid => cancel_loop conf cs blocks
        | _ => cancel_loop conf cs true
        end
      else cancel_loop conf cs blocks
  end.

(** [claimAndLog] *)
Definition claim_tx (row : ReadyRow) (ext nowUTC view_now : string) (d : PayDB)
    : option bool * PayDB :=
  match ClaimPayoutReady (rr_PayoutID row) (rr_GrossCredits row) ext "USDC-BASE" nowUTC view_now
          (pd_ledger d) with
  | Some (claimed, l) => (Some claimed, d <| pd_ledger := l |>)
  | None => (None, d)
  end.

Definition claimAndLog (row : ReadyRow) (txHash : option string) : prog row_result :=
  halted <- ask QHalted ;;
  if halted : bool then Ret (rowOutcomeSkipped, None)
  else
    now <- ask QNow ;;
    view_now <- ask QSqlNow ;;
    claimed <- tx (claim_tx row (default "" txHash) (formatUTC now) view_now) ;;
    match claimed with
    | None | Some None => Ret failed_err
    | Some (Some false) => Ret failed
    | Some (Some true) => Ret (rowOutcomePaid, None)
    end.

(** [verifyChainSideTransfer]: no error *)
Definition transfer_view_ok (want : bytes) (t : RpcTransaction) : bool :=
  bytes_eqb (tx_Input t) want && addressEqualFold (tx_From t) hot.

Definition topic_of (addr : string) : outcome string :=
  match PadAddressTopic addr with Done b => Done ("0x" +:+ hex_text b) | _ => Error end.

Definition verifyChainSideTransfer (attempt : AttemptRow) (recA recB : RpcReceipt) : prog bool :=
  let txHash := GoStr.ToLower (default "" (TxHashCol attempt)) in
  if negb (String.eqb (rec_To recA) usdcLower && String.eqb (rec_To recB) usdcLower) then Ret false
  else
    ta <- ask (QTransaction primary txHash) ;;
    match ta with
    | inr (Some txA) =>
        tb <- ask (QTransaction secondary txHash) ;;
        match tb with
        | inr (Some txB) =>
            match USDCTransferCalldata (ToAddress attempt) (AmountBaseUnits attempt) with
            | Done want =>
                match topic_of hot, topic_of (ToAddress attempt) with
                | Done hotTopic, Done toTopic => Ret
                    (transfer_view_ok want txA && transfer_view_ok want txB
                     && addressEqualFold (tx_From txA) (tx_From txB)
                     && (countMatchingTransferLog recA hotTopic toTopic (AmountBaseUnits attempt) =? 1)
                     && (countMatchingTransferLog recB hotTopic toTopic (AmountBaseUnits attempt) =? 1))
                | _, _ => Ret false
                end
            | _ => Ret false
            end
        | _ => Ret false
        end
    | _ => Ret false
    end.

Inductive PollEnd := PollCancelled | PollTimeout | PollConfirmed (a b : RpcReceipt).

Fixpoint poll_loop (conf : Z) (txHash : string) (rounds : nat) : prog PollEnd :=
  match rounds with
  | O => Ret PollTimeout
  | S rounds =>
      before <- ask QBefore ;;
      if negb before then Ret PollTimeout
      else
        cancelled <- ask QCtxDone ;;
        if cancelled : bool then Ret PollCancelled
        else
          r <- ask (QRound txHash) ;;
          match round_confirmed conf r with
          | Some (a, b) => Ret (PollConfirmed a b)
          | None => poll_loop conf txHash rounds
          end
  end.

Definition pollAndConfirm (conf : Z) (row : ReadyRow) (attempt : AttemptRow) : prog row_result :=
  match TxHashCol attempt with
  | None => Ret failed_err
  | Some txHash =>
      polled <- poll_loop conf (GoStr.ToLower txHash) (PollRounds cfg) ;;
      match polled with
      | PollCancelled => Ret failed_err
      | PollTimeout => Ret failed
      | PollConfirmed recPri recSec =>
          if negb (ReceiptsAgree recPri recSec) then Ret failed_err
          else if negb (rec_Status recPri =? 1) then Ret failed
          else
            ok <- verifyChainSideTransfer attempt recPri recSec ;;
            if negb ok then Ret failed_err
            else
              now <- ask QNow ;;
              n <- markConfirmedStandalone (rr_PayoutID row) (AttemptSeq attempt)
                     (Int64.wrap (rec_BlockNumber recPri)) (Int64.wrap (rec_GasUsed recPri))
                     (formatUTC now) ;;
              match n with
              | None => Ret failed_err
              | Some n => if n =? 0 then Ret (rowOutcomeSkipped, None)
                          else claimAndLog row (Some txHash)
              end
      end
  end.

(** ** The running balance of a cycle *)

Definition deductPaidAmount (bal : option Z) (amount : Z) : option Z :=
  if amount <=? 0 then bal else (fun b => b - amount) <$> bal.

(** A result with the running balance after it. *)
Definition with_balance (bal : option Z) (p : prog row_result) : prog (option Z * row_result) :=
  r <- p ;; Ret (bal, r).

Definition rebroadcastAndPoll (me : LeaseState) (conf : Z) (bal : option Z) (row : ReadyRow)
    (attempt : AttemptRow) : prog (option Z * row_result) :=
  if negb (is_some (TxHashCol attempt)) then Ret (bal, failed)
  else
    fence <- reads_db (fun d => SelfFence me (pd_lease d)) ;;
    match fence_error fence with
    | Some e => Ret (bal, (rowOutcomeFailed, Some e))
    | None =>
        halted <- ask QHalted ;;
        if halted : bool then Ret (bal, (rowOutcomeSkipped, None))
        else
          errs <- ask (QSend (default [] (RawSignedTx attempt))) ;;
          if negb (acceptedAny errs) then
            if IsNonceTooLow errs.1 || IsNonceTooLow errs.2 then
              now <- ask QNow ;;
              _ <- tx (stamp_tx (rr_PayoutID row) (AttemptSeq attempt) (formatUTC now)) ;;
              with_balance bal (pollAndConfirm conf row attempt)
            else Ret (bal, failed)
          else
            now <- ask QNow ;;
            _ <- tx (stamp_tx (rr_PayoutID row) (AttemptSeq attempt) (formatUTC now)) ;;
            with_balance (deductPaidAmount bal (AmountBaseUnits attempt))
              (pollAndConfirm conf row attempt)
    end.

(** ** A fresh attempt *)

Inductive AllocResult := AllocLeaseLost | AllocError | AllocDailyCap | AllocNoFunds
  | Allocated (attempt : AttemptRow).

(** Building, signing and checking the transaction of an attempt. *)
Definition sign_transfer (signer : bytes -> option (bytes * string)) (nonce : Z)
    (effectiveAddress : string) (amount : Z) : option (bytes * string) :=
  match buildEIP1559 nonce effectiveAddress amount with
  | Done t =>
      match UnsignedRLP t with
      | Done unsigned =>
          '(signed, txHash) ← signer unsigned;
          match verifySignedTx hot t signed txHash amount effectiveAddress with
          | Done _ => Some (signed, txHash)
          | _ => None
          end
      | _ => None
      end
  | _ => None
  end.

(** The transaction of [allocateBuildSignBroadcast], from BEGIN IMMEDIATE to COMMIT or
    ROLLBACK. [cutoff], [windowStart] and [nowUTC] are its three readings of the clock. *)
Definition allocate_tx (me : LeaseState) (bal : option Z) (row : ReadyRow) (amount : Z)
    (cutoff windowStart nowUTC : string) (signer : bytes -> option (bytes * string))
    (d : PayDB) : AllocResult * PayDB :=
  let rows := pd_attempts d in
  let p := rr_PayoutID row in
  let effectiveAddress := default "" (rr_EffectiveAddress row) in
  if negb (SelfFence me (pd_lease d)) then (AllocLeaseLost, d)
  else if 0 <? CountStaleUnbroadcastTx hot cutoff rows then (AllocError, d)
  else match SumAmountWindow hot windowStart rows with
  | None => (AllocError, d)
  | Some committedSum =>
      if PerDayCapBaseUnits cfg <? Int64.add committedSum amount then (AllocDailyCap, d)
      else if match bal with Some running => running <? amount | None => false end
      then (AllocNoFunds, d)
      else match List.find (has_id p) (lpr (pd_ledger d)) with
      | None => (AllocError, d)
      | Some l =>
          if negb (amount =? lpr_provider_credits l) then (AllocError, d)
          else
            let attemptSeq := NextAttemptSeq p rows in
            match AllocateNextNonceTx hot (pd_cursors d) with
            | None => (AllocError, d)
            | Some nonce =>
                match InsertAttempt p attemptSeq hot effectiveAddress amount nonce nowUTC rows with
                | Inserted rows =>
                    match sign_transfer signer nonce effectiveAddress amount with
                    | Some (signed, txHash) =>
                        match CASPersistSignedTx p attemptSeq signed txHash nowUTC rows with
                        | CasDone rows =>
                            (Allocated ((fresh_attempt p attemptSeq hot effectiveAddress amount
                                           nonce nowUTC) <| RawSignedTx := Some signed |>
                                         <| TxHashCol := Some txHash |>),
                             d <| pd_attempts := rows |>
                               <| pd_cursors := BumpNonceCursorTx hot nowUTC (pd_cursors d) |>)
                        | _ => (AllocError, d)
                        end
                    | None => (AllocError, d)
                    end
                | _ => (AllocError, d)
                end
            end
      end
  end.

Definition allocateBuildSignBroadcast (me : LeaseState) (conf : Z) (bal : option Z)
    (row : ReadyRow) (amount : Z) : prog (option Z * row_result) :=
  t1 <- ask QNow ;;
  t2 <- ask QNow ;;
  t3 <- ask QNow ;;
  signer <- ask QSigner ;;
  let nowUTC := formatUTC t3 in
  allocated <- tx (allocate_tx me bal row amount (formatUTC (t1 - day)) (formatUTC (t2 - day))
                     nowUTC signer) ;;
  match allocated with
  | None | Some AllocError => Ret (bal, failed_err)
  | Some AllocLeaseLost => Ret (bal, (rowOutcomeFailed, Some ErrLeaseLost))
  | Some AllocDailyCap => Ret (bal, (rowOutcomeDailyCapTripped, None))
  | Some AllocNoFunds => Ret (bal, (rowOutcomeInsufficientFunds, None))
  | Some (Allocated attempt) =>
      fence <- reads_db (fun d => SelfFence me (pd_lease d)) ;;
      match fence_error fence with
      | Some e => Ret (bal, (rowOutcomeFailed, Some e))
      | None =>
          halted <- ask QHalted ;;
          if halted : bool then Ret (bal, (rowOutcomeSkipped, None))
          else
            errs <- ask (QSend (default [] (RawSignedTx attempt))) ;;
            if negb (acceptedAny errs) then Ret (bal, failed)
            else
              _ <- tx (stamp_tx (rr_PayoutID row) (AttemptSeq attempt) nowUTC) ;;
              with_balance (deductPaidAmount bal amount) (pollAndConfirm conf row attempt)
      end
  end.

(** ** Stale cancels: [ProduceStaleOutboxRows], [ClaimAndEmitStaleOutbox] *)

(** The row that is emitted to the log. *)
Definition ClaimAndEmitStaleOutbox (id : Z) : prog (option StaleOutboxRow) :=
  r <- tx (fun d => let '(r, l) := claim_stale id (pd_outbox d) in (r, d <| pd_outbox := l |>)) ;;
  Ret (match r with Some r => r | None => None end).

(** The transaction of one stale cancel: whether it was committed. *)
Definition produce_tx (c : AttemptRow) (staleStarted runID : string) (d : PayDB) : bool * PayDB :=
  let '(affected, rows) := mark_stale (PayoutID c) (AttemptSeq c) staleStarted (pd_attempts d) in
  if affected =? 0 then (false, d)
  else
    let '(next, l) := insert_stale c staleStarted runID (pd_next_outbox d) (pd_outbox d) in
    (true, d <| pd_attempts := rows |> <| pd_outbox := l |> <| pd_next_outbox := next |>).

Inductive ProduceEnd := ProduceCancelled | ProduceCapped | ProduceDone.

(** The loop over the rows of a chunk. *)
Fixpoint produce_rows (limit : Z) (staleStarted runID : string) (chunk : list AttemptRow) (produced : Z)
    : prog (ProduceEnd * Z) :=
  match chunk with
  | [] => Ret (ProduceDone, produced)
  | c :: chunk =>
      cancelled <- ask QCtxDone ;;
      if cancelled : bool then Ret (ProduceCancelled, produced)
      else if (0 <? limit) && (limit <=? produced) then Ret (ProduceCapped, produced)
      else
        match TxHashCol c with
        | None | Some "" => produce_rows limit staleStarted runID chunk produced
        | Some txHash =>
            recs <- ask (QReceipts (GoStr.ToLower txHash)) ;;
            match recs with
            | (inr None, inr None) =>
                done <- tx (produce_tx c staleStarted runID) ;;
                match done with
                | Some true =>
                    id <- reads_db (fun d => period_id (PayoutID c) (AttemptSeq c) staleStarted
                                               (pd_outbox d)) ;;
                    match id with
                    | Some (Some id) =>
                        if 0 <? id then
                          _ <- ClaimAndEmitStaleOutbox id ;;
                          produce_rows limit staleStarted runID chunk (produced + 1)
                        else produce_rows limit staleStarted runID chunk (produced + 1)
                    | _ => produce_rows limit staleStarted runID chunk (produced + 1)
                    end
                | _ => produce_rows limit staleStarted runID chunk produced
                end
            | _ => produce_rows limit staleStarted runID chunk produced
            end
        end
  end.

Definition staleOutboxChunkSize : Z := 256.
Definition staleOutboxScanCeiling : Z := 20000.

(** The loop over chunks: each but the last has [staleOutboxChunkSize] rows, so the
    ceiling stops it after 79 of them. [None] is an error of the SELECT or the context. *)
Fixpoint chunk_loop (fuel : nat) (cutoff : string) (limit : Z) (staleStarted runID : string)
    (cursor : option keyset) (totalScanned produced : Z) : prog (option Z) :=
  match fuel with
  | O => Ret None
  | S fuel =>
      if staleOutboxScanCeiling <=? totalScanned then Ret (Some produced)
      else
        let chunkLimit := Z.min staleOutboxChunkSize (staleOutboxScanCeiling - totalScanned) in
        chunk <- reads_db (fun d => stale_chunk cutoff cursor chunkLimit (pd_attempts d)) ;;
        match chunk with
        | None => Ret None
        | Some chunk =>
            match last chunk with
            | None => Ret (Some produced)
            | Some c =>
                r <- produce_rows limit staleStarted runID chunk produced ;;
                match r with
                | (ProduceCancelled, _) => Ret None
                | (ProduceCapped, produced) => Ret (Some produced)
                | (ProduceDone, produced) =>
                    if Z.of_nat (length chunk) <? chunkLimit then Ret (Some produced)
                    else chunk_loop fuel cutoff limit staleStarted runID (Some (keyset_of c))
                           (totalScanned + Z.of_nat (length chunk)) produced
                end
            end
        end
  end.

Definition ProduceStaleOutboxRows (runID : string) (now runInterval limit : Z) : prog (option Z) :=
  chunk_loop 80 (formatUTC (now - Int64.mul 3 runInterval)) limit (formatUTC now) runID None 0 0.

(** [reapStaleOutbox] of [reaper.go]: the number of rows emitted. *)
Fixpoint reap_rows (rows : list StaleOutboxRow) (reaped : Z) : prog Z :=
  match rows with
  | [] => Ret reaped
  | r :: rows =>
      cancelled <- ask QCtxDone ;;
      if cancelled : bool then Ret reaped
      else
        row <- ClaimAndEmitStaleOutbox (so_ID r) ;;
        reap_rows rows (if is_some row then reaped + 1 else reaped)
  end.

Definition reapStaleOutbox (staleAge : Z) : prog Z :=
  now <- ask QNow ;;
  rows <- reads_db (fun d => ListUnemittedStaleOutboxOlderThan (formatUTC (now - staleAge)) (pd_outbox d)) ;;
  match rows with
  | None => Ret 0
  | Some rows => reap_rows rows 0
  end.

(** ** One row and one cycle *)

Definition processRow (me : LeaseState) (conf : Z) (bal : option Z) (row : ReadyRow)
    : prog (option Z * row_result) :=
  fence <- reads_db (fun d => SelfFence me (pd_lease d)) ;;
  match fence_error fence with
  | Some e => Ret (bal, (rowOutcomeFailed, Some e))
  | None =>
      let amount := rr_ProviderCredits row in
      if amount <=? 0 then Ret (bal, failed)
      else if PerPayoutCapBaseUnits cfg <? amount then Ret (bal, (rowOutcomeCapped, None))
      else
        existing <- reads_db (fun d => LookupExistingLatest (rr_PayoutID row) (pd_attempts d)) ;;
        let fresh :=
          cancels <- reads_db (fun d => LookupLiveCancels (rr_PayoutID row) (pd_attempts d)) ;;
          match cancels with
          | None => Ret (bal, failed_err)
          | Some cs =>
              blocks <- cancel_loop conf cs false ;;
              if blocks : bool then Ret (bal, (rowOutcomeSkipped, None))
              else allocateBuildSignBroadcast me conf bal row amount
          end in
        match existing with
        | None => Ret (bal, failed_err)
        | Some None => fresh
        | Some (Some e) =>
            if confirmed e then with_balance bal (claimAndLog row (TxHashCol e))
            else if (0 <? len (default [] (RawSignedTx e))) && negb (broadcast e) && live e
            then rebroadcastAndPoll me conf bal row e
            else if broadcast e then with_balance bal (pollAndConfirm conf row e)
            else fresh
        end
  end.

Record RunCounts := mkRunCounts { paid : Z; capped : Z; failed_rows : Z; skipped : Z; skippedFunds : Z }.
#[export] Instance rebuild_RunCounts : Rebuild RunCounts := fun c =>
  mkRunCounts (paid c) (capped c) (failed_rows c) (skipped c) (skippedFunds c).

(** The loop over the rows: the counts, and whether the lease was lost. *)
Fixpoint row_loop (me : LeaseState) (conf : Z) (bal : option Z) (rows : list ReadyRow)
    (c : RunCounts) : prog (RunCounts * bool) :=
  match rows with
  | [] => Ret (c, false)
  | row :: rows =>
      halted <- ask QHalted ;;
      if halted : bool then Ret (c, false)
      else if negb (is_some (rr_EffectiveAddress row)) then
        row_loop me conf bal rows (c <| failed_rows := failed_rows c + 1 |>)
      else
        r <- processRow me conf bal row ;;
        let '(bal, (outcome, err)) := r in
        match err with
        | Some ErrLeaseLost => Ret (c <| failed_rows := failed_rows c + 1 |>, true)
        | Some ErrOther => row_loop me conf bal rows (c <| failed_rows := failed_rows c + 1 |>)
        | None =>
            match outcome with
            | rowOutcomePaid => row_loop me conf bal rows (c <| paid := paid c + 1 |>)
            | rowOutcomeCapped => row_loop me conf bal rows (c <| capped := capped c + 1 |>)
            | rowOutcomeDailyCapTripped => Ret (c <| capped := capped c + 1 |>, false)
            | rowOutcomeInsufficientFunds => Ret (c <| skippedFunds := skippedFunds c + 1 |>, false)
            | rowOutcomeSkipped => row_loop me conf bal rows (c <| skipped := skipped c + 1 |>)
            | rowOutcomeFailed => row_loop me conf bal rows (c <| failed_rows := failed_rows c + 1 |>)
            end
        end
  end.

Inductive RunError := ErrRunnerHalted | ErrSelect | ErrRunLeaseLost.

Definition RunOnce (me : LeaseState) : prog (RunCounts * option RunError) :=
  let none := mkRunCounts 0 0 0 0 0 in
  halted <- ask QHalted ;;
  if halted : bool then Ret (none, Some ErrRunnerHalted)
  else
    snap <- ask QTuning ;;
    runID <- ask QUuid ;;
    now <- ask QNow ;;
    _ <- ProduceStaleOutboxRows runID now (TuningRunInterval snap) (MaxRowsPerRun snap) ;;
    rows <- reads_db (fun d => SelectReadyPayouts hot (formatUTC now) (MaxRowsPerRun snap)
                                 (lpr (pd_ledger d)) (pd_addresses d)) ;;
    match rows with
    | None => Ret (none, Some ErrSelect)
    | Some rows =>
        bal <- ask QBalance ;;
        r <- row_loop me (ConfirmationBlocks snap) bal rows none ;;
        Ret (r.1, if r.2 then Some ErrRunLeaseLost else None)
    end.

(** ** The loop of a runner process *)

(** [loop], for [n] ticks. *)
Fixpoint tick_loop (me : LeaseState) (n : nat) : prog unit :=
  match n with
  | O => Ret tt
  | S n =>
      tick <- ask QTick ;;
      match tick with
      | TickStop => Ret tt
      | TickHeartbeat =>
          now <- ask QNow ;;
          ok <- tx (fun d => let '(ok, row) := Heartbeat me now (pd_lease d) in
                             (ok, d <| pd_lease := row |>)) ;;
          match ok with
          | Some true => tick_loop me n
          | _ => Ret tt
          end
      | TickCycle => _ <- RunOnce me ;; tick_loop me n
      end
  end.

Definition loop (me : LeaseState) (n : nat) : prog unit :=
  _ <- RunOnce me ;; tick_loop me n.

(** The start of the runner in [main.go]: the chain id, the nonce cursor, the lease, the
    loop and, after a clean stop, the release. *)
Definition runner_process (token host : string) (pid : Z) (n : nat) : prog unit :=
  ca <- ask (QChainID primary) ;;
  cb <- ask (QChainID secondary) ;;
  match ca, cb with
  | inr a, inr b =>
      if negb ((a =? BaseMainnetChainID) && (b =? BaseMainnetChainID)) then Ret tt
      else
        na <- ask (QCount primary) ;;
        nb <- ask (QCount secondary) ;;
        match ColdStartNonceSync na nb with
        | None => Ret tt
        | Some chosen =>
            now <- ask QNow ;;
            synced <- tx (fun d =>
              match UpsertNonceCursor hot chosen (match na with inr z => z | _ => 0 end)
                      (match nb with inr z => z | _ => 0 end) (formatUTC now) (pd_cursors d) with
              | Some m => (true, d <| pd_cursors := m |>)
              | None => (false, d)
              end) ;;
            match synced with
            | Some true =>
                t <- ask QNow ;;
                let me := mkLeaseState token host pid t in
                acquired <- tx (fun d => let '(r, row) := Acquire me (RunInterval cfg) (pd_lease d) in
                                         (r, d <| pd_lease := row |>)) ;;
                match acquired with
                | Some (Acquired _) =>
                    _ <- loop me n ;;
                    clean <- ask QCtxDone ;;
                    if clean : bool then
                      _ <- tx (fun d => (tt, d <| pd_lease := Release me (pd_lease d) |>)) ;; Ret tt
                    else Ret tt
                | _ => Ret tt
                end
            | _ => Ret tt
            end
        end
  | _, _ => Ret tt
  end.

(** ** Abandoning an attempt: [abandon.go] *)

Record AbandonRequest := mkAbandonRequest {
  ab_PayoutID : Z;
  ab_AttemptSeq : Z;
  ab_BroadcastCancelSelfTransfer : bool;
  ab_Confirm : bool;
  ab_TipMultiplier : float64;
  ab_Reason : string;
}.

Record AbandonCaps := mkAbandonCaps {
  CancelMaxTipMultiplier : float64;
  CancelMaxGasNativeWei : Z;
  CancelMaxGasNativeWeiPer24h : Z;
  AbandonRatePerHour : Z;
}.

Definition scaled_tip (tipMultiplier : float64) : Z :=
  F64.to_int (F64.mul (F64.of_Z 2000000000) tipMultiplier).

Definition estimateCancelGas (tipMultiplier : float64) : Z :=
  Int64.mul 21000 (Int64.add 20000000000 (scaled_tip tipMultiplier)).

Definition buildCancelTx (nonce : Z) (tipMultiplier : float64) : outcome EIP1559Tx :=
  match AddressBytes hot with
  | Done to =>
      let tip := scaled_tip tipMultiplier in
      Done (mkTx BaseMainnetChainID (nonce mod uint64_modulus) tip (Int64.add tip 20000000000)
              21000 to 1 [])
  | _ => Error
  end.

(** [allowRate]: the calls of the last hour, and whether one more is allowed. The clock is
    read for the cutoff and again for the new call. *)
Definition allowRate (cutoff now : Z) (ratePerHour : Z) (calls : list Z) : list Z * bool :=
  if ratePerHour <=? 0 then (calls, true)
  else
    let kept := List.filter (fun t => cutoff <? t) calls in
    if ratePerHour <=? Z.of_nat (length kept) then (kept, false) else (kept ++ [now], true).

Definition sign_cancel (signer : bytes -> option (bytes * string)) (nonce : Z)
    (tipMultiplier : float64) : option (bytes * string) :=
  match buildCancelTx nonce tipMultiplier with
  | Done t =>
      match UnsignedRLP t with
      | Done unsigned =>
          '(signed, txHash) ← signer unsigned;
          match verifyCancelEnvelope hot t signed txHash with
          | Done _ => Some (signed, txHash)
          | _ => None
          end
      | _ => None
      end
  | _ => None
  end.

(** HTTP answers: the status, and the error code or nothing. *)
Inductive AbandonAnswer :=
| AbandonRefused (status : Z) (code : string)
| AbandonOK (cancelSeq : option Z) (cancelBroadcasted : bool).

Definition internal_error : AbandonAnswer := AbandonRefused 500 "internal_error".

(** The transaction of [ServeAbandon]. *)
Definition abandon_tx (req : AbandonRequest) (caps : AbandonCaps) (tipMult : float64)
    (lease_now : Z) (last24h nowUTC : string) (signer : bytes -> option (bytes * string))
    (d : PayDB) : (AbandonAnswer + option AttemptRow) * PayDB :=
  let gasEstimate := estimateCancelGas tipMult in
  let p := ab_PayoutID req in
  let seq := ab_AttemptSeq req in
  match IsLeaseActive lease_now (RunInterval cfg) (pd_lease d) with
  | None => (inl internal_error, d)
  | Some true => (inl (AbandonRefused 409 "runner_active"), d)
  | Some false =>
      match sumCancelGasLast24h hot last24h (pd_attempts d) with
      | None => (inl internal_error, d)
      | Some used =>
          if CancelMaxGasNativeWeiPer24h caps <? Int64.add used gasEstimate
          then (inl (AbandonRefused 422 "cancel_gas_exceeds_24h_aggregate"), d)
          else
            let '(n, rows) := abandon_rows p seq (ab_Reason req) nowUTC (pd_attempts d) in
            if n =? 0 then
              (inl (match List.find (is_row p seq) (pd_attempts d) with
                    | None => AbandonRefused 404 "not_found"
                    | Some r => if confirmed r then AbandonRefused 409 "already_confirmed"
                                else if abandoned r then AbandonRefused 409 "already_abandoned"
                                else internal_error
                    end), d)
            else if negb (ab_BroadcastCancelSelfTransfer req) then
              (inr None, d <| pd_attempts := rows |>)
            else match List.find (is_row p seq) rows with
            | None => (inl internal_error, d)
            | Some r =>
                let cancelSeq := NextAttemptSeq p rows in
                match sign_cancel signer (AttNonce r) tipMult with
                | None => (inl internal_error, d)
                | Some (signed, txHash) =>
                    let c := cancel_attempt p cancelSeq hot (AttNonce r) signed txHash
                               gasEstimate nowUTC in
                    match insert_row c rows with
                    | Inserted rows => (inr (Some c), d <| pd_attempts := rows |>)
                    | _ => (inl internal_error, d)
                    end
                end
            end
      end
  end.

(** [ServeAbandon], after the decoding of the body: [calls] are the recorded calls of the
    actor. *)
Definition ServeAbandon (caps : AbandonCaps) (req : AbandonRequest) (idempotencyKey : string)
    (calls : list Z) : prog (AbandonAnswer * list Z) :=
  if (ab_PayoutID req =? 0) || (ab_AttemptSeq req <=? 0) || negb (ab_Confirm req)
     || String.eqb (GoStr.TrimSpace (ab_Reason req)) ""
  then Ret (AbandonRefused 400 "missing_field", calls)
  else if String.eqb idempotencyKey "" then Ret (AbandonRefused 400 "missing_field", calls)
  else
    c0 <- ask QNow ;;
    c1 <- ask QNow ;;
    let '(calls, allowed) := allowRate (c0 - 3600 * second) c1 (AbandonRatePerHour caps) calls in
    if negb allowed then Ret (AbandonRefused 429 "rate_limited", calls)
    else
      let tipMult := if F64.ltb (CancelMaxTipMultiplier caps) (ab_TipMultiplier req)
                     then CancelMaxTipMultiplier caps else ab_TipMultiplier req in
      let tipMult := if F64.ltb tipMult F64.one then F64.one else tipMult in
      if CancelMaxGasNativeWei caps <? estimateCancelGas tipMult
      then Ret (AbandonRefused 422 "cancel_gas_exceeds_per_request_cap", calls)
      else
        t0 <- ask QNow ;;
        t1 <- ask QNow ;;
        t2 <- ask QNow ;;
        signer <- ask QSigner ;;
        r <- tx (abandon_tx req caps tipMult t0 (formatUTC (t1 - day)) (formatUTC t2) signer) ;;
        match r with
        | None => Ret (internal_error, calls)
        | Some (inl refused) => Ret (refused, calls)
        | Some (inr None) => Ret (AbandonOK None false, calls)
        | Some (inr (Some c)) =>
            errs <- ask (QSend (default [] (RawSignedTx c))) ;;
            if acceptedAny errs then
              _ <- tx (stamp_tx (PayoutID c) (AttemptSeq c) (formatUTC t2)) ;;
              Ret (AbandonOK (Some (AttemptSeq c)) true, calls)
            else Ret (AbandonOK (Some (AttemptSeq c)) false, calls)
        end.

(** ** Reorg polling: [reorg.go] *)

Definition handleCancelReorg (p seq : Z) (txHash : string) : prog unit :=
  now <- ask QNow ;;
  _ <- tx (fun d => let '(n, rows) := reopen_cancel p seq txHash (formatUTC now) (pd_attempts d) in
                    (n, d <| pd_attempts := rows |>)) ;;
  Ret tt.

Definition by_confirmed (a b : AttemptRow) : Prop :=
  text_ge (default "" (ConfirmedAtUtc a)) (default "" (ConfirmedAtUtc b)) = true.
#[export] Instance by_confirmed_dec : RelDecision by_confirmed.
Proof. intros a b. unfold by_confirmed. apply _. Defined.

Definition reorg_rows (cutoff : string) (rows : list AttemptRow) : list AttemptRow :=
  merge_sort by_confirmed
    (List.filter (fun r => live r && text_since cutoff (ConfirmedAtUtc r)) rows).

Fixpoint reorg_loop (rows : list AttemptRow) : prog unit :=
  match rows with
  | [] => Ret tt
  | r :: rows =>
      match TxHashCol r with
      | None => reorg_loop rows
      | Some txHash =>
          recs <- ask (QReceipts (GoStr.ToLower txHash)) ;;
          match recs with
          | (inr None, inr None) =>
              if IsCancelSelfTransfer r then
                _ <- handleCancelReorg (PayoutID r) (AttemptSeq r) txHash ;; reorg_loop rows
              else reorg_loop rows
          | _ => reorg_loop rows
          end
      end
  end.

(** [ReorgPoller.Run] with the poll window of the moment *)
Definition ReorgPoller_Run (pollWindow : Z) : prog unit :=
  now <- ask QNow ;;
  rows <- reads_db (fun d => reorg_rows (formatUTC (now - pollWindow)) (pd_attempts d)) ;;
  match rows with
  | None => Ret tt
  | Some rows => reorg_loop rows
  end.
End Runner.
