(* ===== verification/PayoutSafety.v ===== *)
(** The payout pipeline as a system of processes: any number of runners, abandon
    requests, reorg polls and reaper passes over one database, two RPC nodes and a chain.

    A step is one event of one process, the mining of a transaction that was sent, or a
    change of the ledger and the addresses by other parts of the coordinator. The chain
    here holds what is final: a transaction deeper than [finality] blocks. One of the two
    nodes may lie.

    The proofs are by rely and guarantee: [wp a p Q s] says that the program [p] of the
    process [a], started at [s], keeps the invariant at each of its events whatever the
    other processes do in between, and ends with [Q]. The invariant then holds in every
    reachable state; a payout is paid at most once, and what is claimed was paid. *)
From S2P Require Import Prelude GoTime GoFloat Ledger Settlement Evm PayoutStore PayoutRunner.

Record Sys := mkSys {
  sy_db : PayDB;
  sy_sent : list bytes;    (** the envelopes given to a node *)
  sy_final : list bytes;   (** the final transactions of the hot wallet *)
}.

#[export] Instance rebuild_Sys : Rebuild Sys := fun s => mkSys (sy_db s) (sy_sent s) (sy_final s).

Abbreviation rows s := (pd_attempts (sy_db s)).
Abbreviation token_of s := (lease_token (sy_db s)).

(** ** The world outside the database *)

Section System.
Context `{EvmLib} (honest : side -> bool) (finality : Z).

Definition nonce_of (raw : bytes) : option Z :=
  match DecodeSignedEIP1559 raw with Done (t, _, _, _) => Some (Nonce t) | _ => None end.

Definition mined_hash (h : string) (s : Sys) : bool :=
  existsb (fun raw => String.eqb (TxHash raw) h) (sy_final s).

Definition deep_receipt (rec : rpc (option RpcReceipt)) (head : rpc Z) : bool :=
  match rec, head with inr (Some r), inr h => finality <=? depth h r | _, _ => false end.

Definition not_found (rec : rpc (option RpcReceipt)) : bool :=
  match rec with inr None => true | _ => false end.

(** What an honest node may answer: a receipt below [finality] blocks is of a final
    transaction, and a final transaction is found. The confirmation depth is configured
    at [finality] or more. All other answers are free. *)
Definition allowed (s : Sys) (q : Query) : Answer q -> bool :=
  match q with
  | QTuning => fun t => finality <=? ConfirmationBlocks t
  | QRound h => fun r =>
      implb (honest primary && deep_receipt (round_recA r) (round_headA r)) (mined_hash h s)
      && implb (honest secondary && deep_receipt (round_recB r) (round_headB r)) (mined_hash h s)
  | QReceipts h => fun r =>
      implb (honest primary && not_found r.1) (negb (mined_hash h s))
      && implb (honest secondary && not_found r.2) (negb (mined_hash h s))
  | _ => fun _ => true
  end.

Definition after (s : Sys) (q : Query) : Sys :=
  match q with QSend raw => s <| sy_sent := raw :: sy_sent s |> | _ => s end.

Definition set_db (d : PayDB) (s : Sys) : Sys := s <| sy_db := d |>.

(** No two envelopes in use have the same Keccak digest. *)
Definition collision_free (s : Sys) : Prop :=
  forall r raw0 raw, r ∈ rows s -> RawSignedTx r = Some raw0 -> raw ∈ sy_final s ->
    TxHash raw = TxHash raw0 -> raw = raw0.

(** Other parts of the coordinator do not consume payouts in the runner's currency. *)
Definition paid_in_usdc (p : PayoutRow) : Prop :=
  lpr_status p = consumed /\ lpr_payout_currency p = Some "USDC-BASE".

Definition others_keep (l l' : Ledger) : Prop :=
  forall p', p' ∈ lpr l' -> paid_in_usdc p' ->
    exists p, p ∈ lpr l /\ paid_in_usdc p /\ lpr_id p = lpr_id p'
              /\ lpr_payout_external_id p = lpr_payout_external_id p'.

(** A process: a runner has the token it takes the lease with. *)
Record thread := mkThread { th_actor : option string; th_prog : prog unit }.

(** What happens: a process runs a transaction, which may fail, or asks the world outside;
    the chain makes a sent envelope final; another part of the coordinator works on the
    ledger and the addresses. The chain takes one envelope for each nonce ([step_mine]): all
    of them count as sent by the one hot wallet. A chain recovers the sender from the hash of
    the nine fields of an envelope, the code from one of twelve items ([Evm.UnsignedRLP]); an
    envelope whose sender differs on the chain is without funds there and is not mined. *)
Inductive sys_step : Sys * list thread -> Sys * list thread -> Prop :=
| step_tx s ts i a A (f : PayDB -> A * PayDB) k x d :
    ts !! i = Some (mkThread a (Tx f k)) -> f (sy_db s) = (x, d) ->
    sys_step (s, ts) (set_db d s, <[i := mkThread a (k (Some x))]> ts)
| step_tx_fail s ts i a A (f : PayDB -> A * PayDB) k :
    ts !! i = Some (mkThread a (Tx f k)) ->
    sys_step (s, ts) (s, <[i := mkThread a (k None)]> ts)
| step_ask s ts i a q k x :
    ts !! i = Some (mkThread a (Ask q k)) -> allowed s q x = true ->
    sys_step (s, ts) (after s q, <[i := mkThread a (k x)]> ts)
| step_mine s ts raw n :
    raw ∈ sy_sent s -> nonce_of raw = Some n ->
    (forall raw', raw' ∈ sy_final s -> nonce_of raw' <> Some n) ->
    sys_step (s, ts) (s <| sy_final := raw :: sy_final s |>, ts)
| step_others s ts l addrs :
    others_keep (pd_ledger (sy_db s)) l ->
    sys_step (s, ts) (set_db ((sy_db s) <| pd_ledger := l |> <| pd_addresses := addrs |>) s, ts).

(** Executions without a Keccak collision. *)
Definition sys_run : relation (Sys * list thread) :=
  rtc (fun x y => sys_step x y /\ collision_free y.1).
End System.

(** ** The invariant *)

(** A row may change from [r] to [r']. *)
Record evolves (r r' : AttemptRow) : Prop := {
  ev_payout : PayoutID r' = PayoutID r;
  ev_seq : AttemptSeq r' = AttemptSeq r;
  ev_nonce : AttNonce r' = AttNonce r;
  ev_raw : RawSignedTx r' = RawSignedTx r;
  ev_hash : TxHashCol r' = TxHashCol r;
  ev_cancel : IsCancelSelfTransfer r' = IsCancelSelfTransfer r;
  ev_amount : AmountBaseUnits r' = AmountBaseUnits r;
  ev_to : ToAddress r' = ToAddress r;
  ev_abandoned : abandoned r = true -> abandoned r' = true;
  ev_confirmed : confirmed r = true -> confirmed r' = true;
  ev_stays : confirmed r = true -> abandoned r = false -> abandoned r' = false;
}.

#[global] Instance evolves_refl : Reflexive evolves.
Proof. intros r. by constructor. Qed.

#[global] Instance evolves_trans : Transitive evolves.
Proof. intros a b c [] []. constructor; try congruence; auto. Qed.

Section Invariant.
Context `{EvmLib} (cap : Z).

(** The transaction transfers the amount of the row to the address of the row. *)
Definition pays (t : EIP1559Tx) (r : AttemptRow) : Prop :=
  Value t = 0 /\ AddressBytes USDCContractAddressBase = Done (To t)
  /\ exists addr, GoStr.ToLower addr = ToAddress r
       /\ USDCTransferCalldata addr (AmountBaseUnits r) = Done (Data t).

(** The envelope of a row is what the row says. *)
Definition envelope_ok (r : AttemptRow) : Prop :=
  exists raw h t y sr ss,
    RawSignedTx r = Some raw /\ TxHashCol r = Some h /\ GoStr.ToLower h = TxHash raw
    /\ DecodeSignedEIP1559 raw = Done (t, y, sr, ss) /\ Nonce t = AttNonce r mod uint64_modulus
    /\ if IsCancelSelfTransfer r then 0 < Value t else pays t r.

(** The transaction of the row is final. *)
Definition mined (s : Sys) (r : AttemptRow) : Prop :=
  exists raw, RawSignedTx r = Some raw /\ raw ∈ sy_final s.

Definition confirmed_cancel_at (s : Sys) (p n : Z) : Prop :=
  exists c, c ∈ rows s /\ live_cancel p c = true /\ confirmed c = true /\ AttNonce c = n.

(** The payout [p] has a confirmed attempt to pay with the hash [h]. *)
Definition paid_attempt (s : Sys) (p : Z) (h : option string) : Prop :=
  exists r, r ∈ rows s /\ live_transfer p r = true /\ confirmed r = true /\ TxHashCol r = h.

(** [X p n] exempts the rows of the payout [p] with the nonce [n] from the rule that an
    abandoned row has a live cancel; the invariant of a committed state exempts none. *)
Record InvE (X : Z -> Z -> Prop) (s : Sys) : Prop := {
  inv_no_clash : forall i j r1 r2, rows s !! i = Some r1 -> rows s !! j = Some r2 -> i <> j ->
    clash r1 r2 = false;
  inv_envelope : forall r, r ∈ rows s -> envelope_ok r;
  inv_amount : forall r, r ∈ rows s -> IsCancelSelfTransfer r = false -> 0 < AmountBaseUnits r <= cap;
  inv_confirmed : forall r, r ∈ rows s -> confirmed r = true -> mined s r;
  inv_abandoned : forall r, r ∈ rows s -> abandoned r = true -> X (PayoutID r) (AttNonce r)
    \/ exists c, c ∈ rows s /\ live_cancel (PayoutID r) c = true /\ AttNonce c = AttNonce r;
  inv_paid_once : forall i j r1 r2, rows s !! i = Some r1 -> rows s !! j = Some r2 -> i <> j ->
    PayoutID r1 = PayoutID r2 -> IsCancelSelfTransfer r1 = false ->
    IsCancelSelfTransfer r2 = false ->
    confirmed_cancel_at s (PayoutID r1) (AttNonce r1)
    \/ confirmed_cancel_at s (PayoutID r2) (AttNonce r2);
  inv_claims : forall p, p ∈ lpr (pd_ledger (sy_db s)) -> paid_in_usdc p ->
    paid_attempt s (lpr_id p) (lpr_payout_external_id p);
  inv_final : forall raw1 raw2 n, raw1 ∈ sy_final s -> raw2 ∈ sy_final s ->
    nonce_of raw1 = Some n -> nonce_of raw2 = Some n -> raw1 = raw2;
}.

Definition Inv : Sys -> Prop := InvE (fun _ _ => False).

(** What a step of the process [a] does to the state others see. *)
Record guar (a : option string) (s s' : Sys) : Prop := {
  g_final : forall raw, raw ∈ sy_final s -> raw ∈ sy_final s';
  g_rows : forall r, r ∈ rows s -> exists r', r' ∈ rows s' /\ evolves r r';
  g_new : forall r', r' ∈ rows s' ->
    (exists r, r ∈ rows s /\ evolves r r')
    \/ (IsCancelSelfTransfer r' = false /\ a = token_of s /\ a <> None)
    \/ (IsCancelSelfTransfer r' = true /\ exists r r1, r ∈ rows s /\ r1 ∈ rows s'
        /\ PayoutID r = PayoutID r' /\ abandoned r = false /\ confirmed r = false
        /\ evolves r r1 /\ abandoned r1 = true);
  g_lease : forall tok, token_of s' = Some tok -> token_of s = Some tok \/ a = Some tok;
}.

(** The steps of all processes but [a]. *)
Definition rely (a : option string) : relation Sys :=
  rtc (fun s s' => exists b, (forall tok, a = Some tok -> b <> Some tok) /\ guar b s s').

Context (honest : side -> bool) (finality : Z).

(** The program [p] of the process [a] keeps the invariant and its guarantee. *)
Fixpoint wp (a : option string) {R} (p : prog R) (Q : R -> Sys -> Prop) (s : Sys) : Prop :=
  match p with
  | Ret r => Q r s
  | Tx f k => forall s1, rely a s s1 -> Inv s1 -> collision_free s1 ->
      (forall x d, f (sy_db s1) = (x, d) ->
         Inv (set_db d s1) /\ guar a s1 (set_db d s1) /\ wp a (k (Some x)) Q (set_db d s1))
      /\ wp a (k None) Q s1
  | Ask q k => forall s1, rely a s s1 -> Inv s1 -> collision_free s1 ->
      forall x, allowed honest finality s1 q x = true -> wp a (k x) Q (after s1 q)
  end.
End Invariant.

(** ** Rules of the logic *)

Section Rules.
Context `{EvmLib} (cap : Z) (honest : side -> bool) (finality : Z).

Abbreviation WP := (wp cap honest finality).
Abbreviation INV := (Inv cap).

Lemma wp_mono a {R} (p : prog R) (Q Q' : R -> Sys -> Prop) s :
  WP a p Q s -> (forall r s, Q r s -> Q' r s) -> WP a p Q' s.
Proof.
  intros Hp HQ. revert s Hp. induction p as [r|A f k IH|q k IH]; simpl; intros s Hp; [auto| |].
  - intros s1 H1 H2 H3. destruct (Hp s1 H1 H2 H3) as [Hx Hn]. split; [|auto].
    intros x d Hf. destruct (Hx x d Hf) as (? & ? & ?). auto.
  - intros s1 H1 H2 H3 x Hx. apply IH, Hp; done.
Qed.

Lemma wp_bind a {R B} (p : prog R) (f : R -> prog B) Q s :
  WP a p (fun r => WP a (f r) Q) s -> WP a (prog_bind p f) Q s.
Proof.
  revert s. induction p as [r|A g k IH|q k IH]; simpl; intros s Hp; [done| |].
  - intros s1 H1 H2 H3. destruct (Hp s1 H1 H2 H3) as [Hx Hn]. split; [|auto].
    intros x d Hf. destruct (Hx x d Hf) as (? & ? & ?). auto.
  - intros s1 H1 H2 H3 x Hx. apply IH, Hp; done.
Qed.

Lemma guar_refl a s s' : sy_db s' = sy_db s -> sy_final s' = sy_final s -> guar a s s'.
Proof.
  intros Hd Hf. constructor; rewrite ?Hd, ?Hf; [done| | |by left].
  - intros r Hr. by exists r.
  - intros r Hr. left. by exists r.
Qed.

Lemma Inv_world s s' : sy_db s' = sy_db s -> sy_final s' = sy_final s -> INV s -> INV s'.
Proof.
  intros Hd Hf [? ? ? Hc ? Ho Hcl ?]. unfold confirmed_cancel_at, paid_attempt, mined in *.
  constructor; unfold confirmed_cancel_at, paid_attempt, mined; rewrite ?Hd, ?Hf; auto.
Qed.

Lemma Inv_after s q : INV s -> INV (after s q).
Proof. apply Inv_world; by destruct q. Qed.

Lemma guar_after a s q : guar a s (after s q).
Proof. apply guar_refl; by destruct q. Qed.

Lemma rows_after s q : rows (after s q) = rows s.
Proof. by destruct q. Qed.

Lemma set_db_id s : set_db (sy_db s) s = s.
Proof. by destruct s. Qed.

(** Reading the database changes nothing. *)
Lemma wp_read a {A B} (f : PayDB -> A) (k : option A -> prog B) Q s :
  (forall s1, rely a s s1 -> INV s1 -> collision_free s1 ->
     WP a (k (Some (f (sy_db s1)))) Q s1 /\ WP a (k None) Q s1) ->
  WP a (prog_bind (reads_db f) k) Q s.
Proof.
  intros Hk s1 H1 H2 H3. destruct (Hk s1 H1 H2 H3) as [Hs Hn]. split; [|done].
  intros x d [= <- <-]. rewrite set_db_id. split_and!; [done|by apply guar_refl|done].
Qed.

Lemma wp_tx a {A B} (f : PayDB -> A * PayDB) (k : option A -> prog B) Q s :
  (forall s1, rely a s s1 -> INV s1 -> collision_free s1 ->
     (forall x d, f (sy_db s1) = (x, d) ->
        INV (set_db d s1) /\ guar a s1 (set_db d s1) /\ WP a (k (Some x)) Q (set_db d s1))
     /\ WP a (k None) Q s1) ->
  WP a (prog_bind (tx f) k) Q s.
Proof. done. Qed.

Lemma wp_ask a q {B} (k : Answer q -> prog B) Q s :
  (forall s1 x, rely a s s1 -> INV s1 -> collision_free s1 ->
     allowed honest finality s1 q x = true -> WP a (k x) Q (after s1 q)) ->
  WP a (prog_bind (ask q) k) Q s.
Proof. intros Hk s1 H1 H2 H3 x Hx. exact (Hk s1 x H1 H2 H3 Hx). Qed.

(** ** Knowledge that survives the steps of others *)

Definition stable (a : option string) (K : Sys -> Prop) : Prop :=
  forall b s s', (forall tok, a = Some tok -> b <> Some tok) -> guar b s s' -> K s -> K s'.

Lemma stable_rely a K s s' : stable a K -> rely a s s' -> K s -> K s'.
Proof.
  intros Hs Hr. induction Hr as [|s s1 s2 (b & Hb & Hg) _ IH]; [done|]. intros HK.
  apply IH. by eapply Hs.
Qed.

(** A row once read keeps its envelope. *)
Definition has_row (r0 : AttemptRow) (s : Sys) : Prop := exists r, r ∈ rows s /\ evolves r0 r.

Lemma has_row_guar b r0 s s' : guar b s s' -> has_row r0 s -> has_row r0 s'.
Proof.
  intros Hg (r & Hr & He). destruct (g_rows _ _ _ Hg r Hr) as (r' & Hr' & He').
  exists r'. split; [done|]. by etrans.
Qed.

Definition has_final (raw : bytes) (s : Sys) : Prop := raw ∈ sy_final s.

Lemma has_final_guar b raw s s' : guar b s s' -> has_final raw s -> has_final raw s'.
Proof. intros Hg. apply (g_final _ _ _ Hg). Qed.

(** A confirmed and live row stays so. *)
Lemma paid_attempt_guar b p h s s' : guar b s s' -> paid_attempt s p h -> paid_attempt s' p h.
Proof.
  intros Hg (r & Hr & Hl & Hc & Hh). destruct (g_rows _ _ _ Hg r Hr) as (r' & Hr' & [? ? ? ? ? ? ? ? ? Hst]).
  exists r'. unfold live_transfer, of_payout, live in *. bool_hyps.
  rewrite !andb_true_iff, !negb_true_iff. split_and!; try done; [lia|auto|congruence|auto|congruence].
Qed.

Lemma stable_has_row a r0 : stable a (has_row r0).
Proof. intros b s s' _ Hg. by eapply has_row_guar. Qed.
Lemma stable_has_final a raw : stable a (has_final raw).
Proof. intros b s s' _ Hg. by eapply has_final_guar. Qed.
Lemma stable_paid a p h : stable a (fun s => paid_attempt s p h).
Proof. intros b s s' _ Hg. by eapply paid_attempt_guar. Qed.

Lemma stable_and a (K1 K2 : Sys -> Prop) : stable a K1 -> stable a K2 -> stable a (fun s => K1 s /\ K2 s).
Proof. intros H1 H2 b s s' Hb Hg [? ?]. split; [by eapply H1|by eapply H2]. Qed.

(** The holder [tok] knows: the payout has no live attempt to pay, and each of its live
    cancels is confirmed, or still in the list [L], or one of [L] was abandoned. *)
Definition no_live_attempt (tok : string) (p : Z) (L : list Z) (s : Sys) : Prop :=
  token_of s = Some tok ->
  (forall r, r ∈ rows s -> PayoutID r = p -> IsCancelSelfTransfer r = false -> abandoned r = true)
  /\ forall c, c ∈ rows s -> live_cancel p c = true ->
       confirmed c = true \/ AttemptSeq c ∈ L
       \/ exists r, r ∈ rows s /\ PayoutID r = p /\ AttemptSeq r ∈ L /\ abandoned r = true.

Lemma live_cancel_back p r r' :
  evolves r r' -> live_cancel p r' = true -> live_cancel p r = true.
Proof.
  intros He. unfold live_cancel, of_payout, live. intros Hl. bool_hyps.
  rewrite (ev_payout _ _ He), (ev_cancel _ _ He) in *.
  rewrite !andb_true_iff. split_and!; [done|done|]. apply negb_true_iff.
  destruct (abandoned r) eqn:Ha; [|done]. rewrite (ev_abandoned _ _ He Ha) in *. done.
Qed.

Lemma stable_no_live tok p L : stable (Some tok) (no_live_attempt tok p L).
Proof.
  intros b s s' Hb Hg HK Htok.
  assert (token_of s = Some tok) as Htok0.
  { destruct (g_lease _ _ _ Hg tok Htok) as [?|Hbt]; [done|]. by destruct (Hb tok). }
  destruct (HK Htok0) as [Hna Hcs]. split.
  - intros r' Hr' Hp Hc. destruct (g_new _ _ _ Hg r' Hr') as [(r & Hr & He)|[(_ & Hbt & _)|(Ht & _)]].
    + eapply ev_abandoned; [done|]. apply Hna; [done| |].
      * by rewrite <- (ev_payout _ _ He).
      * by rewrite <- (ev_cancel _ _ He).
    + destruct (Hb tok); congruence.
    + congruence.
  - assert (forall r, r ∈ rows s -> PayoutID r = p -> AttemptSeq r ∈ L -> abandoned r = true ->
      exists r', r' ∈ rows s' /\ PayoutID r' = p /\ AttemptSeq r' ∈ L /\ abandoned r' = true) as Hkeep.
    { intros r Hr Hp Hs Ha. destruct (g_rows _ _ _ Hg r Hr) as (r' & Hr' & He).
      exists r'. rewrite (ev_payout _ _ He), (ev_seq _ _ He), (ev_abandoned _ _ He); auto. }
    intros c' Hc' Hl. destruct (g_new _ _ _ Hg c' Hc') as [(c & Hc & He)|[(Hn & _)|(_ & Hnew)]].
    + destruct (Hcs c Hc (live_cancel_back _ _ _ He Hl)) as [?|[?|(r & Hr & Hp & Hs & Ha)]].
      * left. by apply (ev_confirmed _ _ He).
      * right. left. by rewrite (ev_seq _ _ He).
      * right. right. eauto.
    + unfold live_cancel in Hl. bool_hyps. congruence.
    + right. right. destruct Hnew as (r & r1 & Hr & Hr1 & Hp & Ha & Hcf & He & Ha1).
      assert (PayoutID r = p) as Hrp.
      { unfold live_cancel, of_payout in Hl. bool_hyps. lia. }
      destruct (IsCancelSelfTransfer r) eqn:Hcr.
      * destruct (Hcs r Hr) as [?|[Hs|(r2 & Hr2 & Hp2 & Hs2 & Ha2)]].
        { unfold live_cancel, of_payout, live. rewrite Hcr, Ha. simpl.
          rewrite !andb_true_r. by apply Z.eqb_eq. }
        { congruence. }
        { exists r1. rewrite (ev_payout _ _ He), (ev_seq _ _ He). done. }
        eauto.
      * rewrite (Hna r Hr Hrp Hcr) in Ha. done.
Qed.

(** ** Transactions that keep the invariant *)

(** A change of the lease, the cursors or the bootstrap mark. *)
Lemma keep_rows a s d :
  INV s -> pd_attempts d = rows s -> pd_ledger d = pd_ledger (sy_db s) ->
  (forall tok, lease_token d = Some tok -> token_of s = Some tok \/ a = Some tok) ->
  INV (set_db d s) /\ guar a s (set_db d s).
Proof.
  intros [] Hr Hl Ht. split.
  - constructor; unfold mined, confirmed_cancel_at, paid_attempt in *; simpl; rewrite ?Hr, ?Hl; auto.
  - constructor; simpl; rewrite ?Hr; [done| | |done].
    + intros r ?. by exists r.
    + intros r ?. left. by exists r.
Qed.

Lemma clash_same r1 r2 r1' r2' :
  evolves r1 r1' -> evolves r2 r2' -> FromAddress r1' = FromAddress r1 ->
  FromAddress r2' = FromAddress r2 -> clash r1 r2 = false -> clash r1' r2' = false.
Proof.
  intros H1 H2 F1 F2. unfold clash, is_row, live.
  rewrite F1, F2, (ev_payout _ _ H1), (ev_payout _ _ H2), (ev_seq _ _ H1), (ev_seq _ _ H2),
    (ev_nonce _ _ H1), (ev_nonce _ _ H2), (ev_cancel _ _ H1), (ev_cancel _ _ H2).
  pose proof (ev_abandoned _ _ H1). pose proof (ev_abandoned _ _ H2).
  intros Hc. apply orb_false_iff in Hc as [Hc Hc3]. apply orb_false_iff in Hc as [Hc1 Hc2].
  rewrite Hc1. simpl.
  destruct (abandoned r1), (abandoned r2); simpl in *; rewrite ?H0, ?H3 by done; simpl;
    rewrite ?andb_false_r; simpl; try done;
    destruct (abandoned r1'), (abandoned r2'); simpl; try done.
  by rewrite Hc2, Hc3.
Qed.

Lemma envelope_evolves r r' : evolves r r' -> envelope_ok r -> envelope_ok r'.
Proof.
  intros He (raw & h & t & y & sr & ss & H1 & H2 & H3 & H4 & H5 & H6).
  exists raw, h, t, y, sr, ss.
  unfold pays.
  rewrite (ev_raw _ _ He), (ev_hash _ _ He), (ev_nonce _ _ He), (ev_cancel _ _ He), (ev_to _ _ He),
    (ev_amount _ _ He).
  split_and!; done.
Qed.

Section Update.
Context (s : Sys) (d : PayDB) (g : AttemptRow -> AttemptRow).
Hypothesis Hrows : pd_attempts d = map g (rows s).
Hypothesis Hev : forall r, r ∈ rows s -> evolves r (g r).
Hypothesis Hfrom : forall r, FromAddress (g r) = FromAddress r.

Lemma updated_elem r' : r' ∈ map g (rows s) -> exists r, r ∈ rows s /\ r' = g r /\ evolves r r'.
Proof. rewrite elem_of_map. intros (r & Hr & ->). eauto. Qed.

Lemma updated_in r : r ∈ rows s -> g r ∈ map g (rows s).
Proof. intros Hr. apply elem_of_map. eauto. Qed.

(** The rows are updated in place; the rows newly abandoned are exempt. *)
Lemma update_pre (X : Z -> Z -> Prop) a :
  INV s -> pd_ledger d = pd_ledger (sy_db s) -> lease_token d = token_of s ->
  (forall r, r ∈ rows s -> abandoned (g r) = abandoned r
     \/ confirmed r = false /\ X (PayoutID r) (AttNonce r)) ->
  (forall r, r ∈ rows s -> confirmed (g r) = true -> confirmed r = true \/ mined s r) ->
  InvE cap X (set_db d s) /\ guar a s (set_db d s).
Proof.
  intros HI Hl Ht Hab Hconf. destruct HI as [Icl Ienv Iam Icf Iab Ipo Icm Ifi].
  assert (forall p r, r ∈ rows s -> confirmed r = true -> live_cancel p r = true ->
    live_cancel p (g r) = true) as Hlc.
  { intros p r Hr Hc. unfold live_cancel, of_payout, live. pose proof (Hev r Hr) as He.
    rewrite (ev_payout _ _ He), (ev_cancel _ _ He). destruct (Hab r Hr) as [->|[? _]]; congruence. }
  assert (forall p n, confirmed_cancel_at s p n -> confirmed_cancel_at (set_db d s) p n) as Hcc.
  { intros p n (c & Hc & Hlcc & Hcfc & Hn). exists (g c). simpl. rewrite Hrows.
    pose proof (Hev c Hc) as He. split_and!; [by apply updated_in|auto| |].
    - by apply (ev_confirmed _ _ He).
    - by rewrite (ev_nonce _ _ He). }
  assert (forall i r', map g (rows s) !! i = Some r' ->
    exists r, rows s !! i = Some r /\ r' = g r /\ r ∈ rows s) as Hlook.
  { intros i r' Hi. rewrite list_lookup_fmap in Hi. destruct (rows s !! i) as [r|] eqn:E; [|done].
    simplify_eq/=. exists r. split_and!; [done|done|]. by eapply list_elem_of_lookup_2. }
  split; [constructor; simpl; rewrite ?Hrows, ?Hl|].
  - intros i j r1' r2' Hi Hj Hij. apply Hlook in Hi as (r1 & Hi & -> & ?).
    apply Hlook in Hj as (r2 & Hj & -> & ?). eapply (clash_same r1 r2); auto. by eapply Icl.
  - intros r' Hr'. apply updated_elem in Hr' as (r & Hr & -> & He). by eapply envelope_evolves; eauto.
  - intros r' Hr' Hc. apply updated_elem in Hr' as (r & Hr & -> & He).
    rewrite (ev_amount _ _ He), (ev_cancel _ _ He) in *. auto.
  - intros r' Hr' Hc. apply updated_elem in Hr' as (r & Hr & -> & He).
    assert (mined s r) as (raw & ? & ?) by (destruct (Hconf r Hr Hc); auto).
    exists raw. simpl. rewrite (ev_raw _ _ He). done.
  - intros r' Hr' Ha. apply updated_elem in Hr' as (r & Hr & -> & He).
    rewrite (ev_payout _ _ He), (ev_nonce _ _ He).
    destruct (Hab r Hr) as [Hsame|[_ ?]]; [|by left]. rewrite Hsame in Ha.
    destruct (Iab r Hr Ha) as [[]|(c & Hc & Hlcc & Hn)]. pose proof (Hev c Hc) as Hec.
    unfold live_cancel, of_payout, live in *. bool_hyps.
    destruct (Hab c Hc) as [Hsc|[_ HX]].
    + right. exists (g c). rewrite (ev_payout _ _ Hec), (ev_nonce _ _ Hec), (ev_cancel _ _ Hec), Hsc.
      split_and!; [by apply updated_in| |done]. by rewrite !andb_true_iff, negb_true_iff.
    + left. rewrite Hn in HX. by replace (PayoutID r) with (PayoutID c) by lia.
  - intros i j r1' r2' Hi Hj Hij. apply Hlook in Hi as (r1 & Hi & -> & Hr1).
    apply Hlook in Hj as (r2 & Hj & -> & Hr2). pose proof (Hev r1 Hr1) as He1.
    pose proof (Hev r2 Hr2) as He2.
    rewrite (ev_payout _ _ He1), (ev_payout _ _ He2), (ev_cancel _ _ He1), (ev_cancel _ _ He2),
      (ev_nonce _ _ He1), (ev_nonce _ _ He2). intros Hp Hc1 Hc2.
    destruct (Ipo i j r1 r2); auto.
  - intros p Hp Hu. destruct (Icm p Hp Hu) as (r & Hr & Hlt & Hc & Hh). pose proof (Hev r Hr) as He.
    exists (g r). simpl. rewrite Hrows, (ev_hash _ _ He). split_and!; [by apply updated_in| | |done].
    + unfold live_transfer, of_payout, live in *. rewrite (ev_payout _ _ He), (ev_cancel _ _ He).
      destruct (Hab r Hr) as [->|[? _]]; congruence.
    + by apply (ev_confirmed _ _ He).
  - done.
  - constructor; simpl; rewrite ?Hrows.
    + done.
    + intros r Hr. exists (g r). split; [by apply updated_in|auto].
    + intros r' Hr'. left. apply updated_elem in Hr' as (r & Hr & -> & He). eauto.
    + intros tok. change (lease_token d = Some tok -> token_of s = Some tok \/ a = Some tok).
      rewrite Ht. auto.
Qed.

(** The rows are updated in place, and none is abandoned. *)
Lemma update_keeps a :
  INV s -> pd_ledger d = pd_ledger (sy_db s) -> lease_token d = token_of s ->
  (forall r, r ∈ rows s -> abandoned (g r) = abandoned r) ->
  (forall r, r ∈ rows s -> confirmed (g r) = true -> confirmed r = true \/ mined s r) ->
  INV (set_db d s) /\ guar a s (set_db d s).
Proof. intros HI Hl Ht Hab Hconf. apply update_pre; auto. Qed.
End Update.

(** *** [StampBroadcastAt] *)
Lemma stamp_keeps a p seq nowUTC s x d :
  INV s -> stamp_tx p seq nowUTC (sy_db s) = (x, d) ->
  INV (set_db d s) /\ guar a s (set_db d s).
Proof.
  intros HI [= _ <-].
  apply (update_keeps s _ (fun r => if is_row p seq r && negb (broadcast r) then stamp nowUTC r else r));
    try done.
  - intros r _. split_ifs; by constructor.
  - intros r. by split_ifs.
  - intros r _. by split_ifs.
  - intros r _. split_ifs; auto.
Qed.

(** *** [MarkConfirmedAtTx], for a row whose transaction is final *)
Lemma mark_confirmed_keeps a p seq block gas nowUTC s n d :
  INV s -> mark_confirmed p seq block gas nowUTC (sy_db s) = (n, d) ->
  (forall r, r ∈ rows s -> is_row p seq r = true -> mined s r) ->
  INV (set_db d s) /\ guar a s (set_db d s).
Proof.
  intros HI Hm Hmined. unfold mark_confirmed, MarkConfirmedAtTx in Hm. injection Hm as <- <-.
  set (g := fun r => if open_row p seq r then r <| ConfirmedAtUtc := Some nowUTC |>
     <| BlockNumber := Some block |> <| GasUsedNativeWei := Some gas |> <| UpdatedAtUtc := nowUTC |>
     <| CancelReconfirmStalePagedAtUtc := None |> else r).
  apply (update_keeps s _ g); try (split_ifs; done).
  - intros r _. unfold g. split_ifs; by constructor.
  - intros r. unfold g. by split_ifs.
  - intros r _. unfold g. by split_ifs.
  - intros r Hr. unfold g. destruct (open_row p seq r) eqn:Ho; [|auto]. intros _. right.
    apply Hmined; [done|]. unfold open_row in Ho. by bool_hyps.
Qed.

(** *** A new row *)

Lemma clash_sym r1 r2 : clash r1 r2 = clash r2 r1.
Proof.
  unfold clash, is_row.
  rewrite (Z.eqb_sym (PayoutID r2)), (Z.eqb_sym (AttemptSeq r2)), (Z.eqb_sym (AttNonce r1)),
    (String.eqb_sym (FromAddress r1)).
  destruct (live r1), (live r2), (IsCancelSelfTransfer r1), (IsCancelSelfTransfer r2); simpl;
    rewrite ?andb_false_r; simpl; rewrite ?andb_true_r; try done.
  all: by rewrite ?(Z.eqb_sym (PayoutID r1)).
Qed.

Lemma same_key X s r1 r2 :
  InvE cap X s -> r1 ∈ rows s -> r2 ∈ rows s -> PayoutID r1 = PayoutID r2 ->
  AttemptSeq r1 = AttemptSeq r2 -> r1 = r2.
Proof.
  intros HI H1 H2 Hp Hs. apply list_elem_of_lookup in H1 as [i Hi], H2 as [j Hj].
  destruct (decide (i = j)) as [->|Hij]; [congruence|].
  pose proof (inv_no_clash _ _ _ HI i j r1 r2 Hi Hj Hij) as Hc. unfold clash, is_row in Hc.
  rewrite Hp, Hs, !Z.eqb_refl in Hc. done.
Qed.

Lemma is_row_eq p seq r : is_row p seq r = true <-> PayoutID r = p /\ AttemptSeq r = seq.
Proof. unfold is_row. rewrite andb_true_iff. lia. Qed.

Section Append.
Context (X : Z -> Z -> Prop) (s : Sys) (d : PayDB) (r : AttemptRow).
Hypothesis Hrows : pd_attempts d = rows s ++ [r].
Hypothesis Hledger : pd_ledger d = pd_ledger (sy_db s).
Hypothesis Hnoclash : existsb (clash r) (rows s) = false.
Hypothesis Henv : envelope_ok r.
Hypothesis Hopen : confirmed r = false /\ abandoned r = false.

Lemma append_old r0 : r0 ∈ rows s -> r0 ∈ rows (set_db d s).
Proof. simpl. rewrite Hrows. set_solver. Qed.

Lemma append_split r0 : r0 ∈ rows (set_db d s) -> r0 ∈ rows s \/ r0 = r.
Proof. simpl. rewrite Hrows. set_solver. Qed.

Lemma append_confirmed_cancel p n :
  confirmed_cancel_at s p n -> confirmed_cancel_at (set_db d s) p n.
Proof. intros (c & Hc & ?). exists c. split; [by apply append_old|done]. Qed.

Lemma append_lookup i r0 :
  rows (set_db d s) !! i = Some r0 ->
  (rows s !! i = Some r0 /\ r0 ∈ rows s) \/ (i = length (rows s) /\ r0 = r).
Proof.
  simpl. rewrite Hrows. intros Hi. apply lookup_app_Some in Hi as [Hi|[Hl Hi]].
  - left. split; [done|]. by eapply list_elem_of_lookup_2.
  - right. destruct (i - length (rows s))%nat as [|k] eqn:Hk; simpl in Hi; [|done].
    simplify_eq. split; [lia|done].
Qed.

Lemma append_keeps :
  InvE cap X s ->
  (IsCancelSelfTransfer r = false -> 0 < AmountBaseUnits r <= cap) ->
  (IsCancelSelfTransfer r = false -> forall r0, r0 ∈ rows s -> IsCancelSelfTransfer r0 = false ->
     PayoutID r0 = PayoutID r -> confirmed_cancel_at s (PayoutID r0) (AttNonce r0)) ->
  (forall p n, X p n -> IsCancelSelfTransfer r = true /\ PayoutID r = p /\ AttNonce r = n) ->
  INV (set_db d s).
Proof.
  intros [Icl Ienv Iam Icf Iab Ipo Icm Ifi] Ham Hold HX. destruct Hopen as [Hnc Hna].
  assert (forall r0, r0 ∈ rows s -> clash r r0 = false) as Hcl.
  { intros r0 Hr0. destruct (clash r r0) eqn:Hc; [|done]. rewrite <- Hnoclash. symmetry.
    apply existsb_elem. eauto. }
  constructor.
  - intros i j r1 r2 Hi Hj Hij. apply append_lookup in Hi as [[Hi H1]|[Hi ->]], Hj as [[Hj H2]|[Hj ->]].
    + by eapply Icl.
    + rewrite clash_sym. auto.
    + auto.
    + congruence.
  - intros r0 [?| ->]%append_split; auto.
  - intros r0 [?| ->]%append_split; auto.
  - intros r0 [Hr0| ->]%append_split Hc; [|congruence]. destruct (Icf r0 Hr0 Hc) as (raw & ? & ?).
    by exists raw.
  - intros r0 [Hr0| ->]%append_split Ha; [|congruence]. right.
    destruct (Iab r0 Hr0 Ha) as [Hx|(c & Hc & Hlc & Hn)].
    + destruct (HX _ _ Hx) as (Hcr & Hp & Hn). exists r. simpl. rewrite Hrows.
      split_and!; [set_solver| |done]. unfold live_cancel, of_payout, live.
      rewrite Hcr, Hna, Hp, Z.eqb_refl. done.
    + exists c. split; [by apply append_old|done].
  - intros i j r1 r2 Hi Hj Hij Hp Hc1 Hc2.
    apply append_lookup in Hi as [[Hi H1]|[Hi ->]], Hj as [[Hj H2]|[Hj ->]].
    + destruct (Ipo i j r1 r2) as [?|?]; auto using append_confirmed_cancel.
    + left. auto using append_confirmed_cancel.
    + right. auto using append_confirmed_cancel.
    + congruence.
  - simpl. rewrite Hledger. intros p Hp Hu. destruct (Icm p Hp Hu) as (r0 & ? & ?).
    exists r0. split; [by apply append_old|done].
  - done.
Qed.
End Append.

(** *** The transaction of a fresh attempt *)

Lemma ToLower_hash raw : GoStr.ToLower (TxHash raw) = TxHash raw.
Proof.
  unfold TxHash, GoStr.ToLower, hex_text. rewrite GoStr.chars_app, GoStr.chars_of_chars, map_app.
  assert (map GoStr.lower_ascii (hex_chars (keccak raw)) = hex_chars (keccak raw)) as Hh.
  { pose proof (keccak_bytes raw) as Hb. induction Hb as [|x b Hx _ IH]; [done|].
    simpl. rewrite IH. unfold is_byte in Hx.
    assert (forall z, 0 <= z < 16 -> GoStr.lower_ascii (hex_char z) = hex_char z) as Hz.
    { intros z Hz. assert (z ∈ [0;1;2;3;4;5;6;7;8;9;10;11;12;13;14;15]) as Hin
        by (rewrite !elem_of_cons; lia).
      repeat (apply elem_of_cons in Hin as [->|Hin]; [reflexivity|]). by apply elem_of_nil in Hin. }
    rewrite (Hz (x / 16)), (Hz (x mod 16)); [done| |].
    - apply Z.mod_pos_bound. lia.
    - pose proof (Z.div_lt_upper_bound x 16 16). pose proof (Z.div_pos x 16). lia. }
  rewrite Hh. apply GoStr.chars_inj. by rewrite GoStr.chars_of_chars, GoStr.chars_app, GoStr.chars_of_chars.
Qed.

Lemma sign_transfer_envelope cfg signer nonce addr amount signed h :
  sign_transfer cfg signer nonce addr amount = Some (signed, h) ->
  GoStr.ToLower h = TxHash signed
  /\ exists t y sr ss, DecodeSignedEIP1559 signed = Done (t, y, sr, ss)
       /\ Nonce t = nonce mod uint64_modulus /\ Value t = 0
       /\ AddressBytes USDCContractAddressBase = Done (To t)
       /\ USDCTransferCalldata addr amount = Done (Data t).
Proof.
  unfold sign_transfer. intros Hs.
  destruct (buildEIP1559 nonce addr amount) as [t0| |] eqn:Hb; try done.
  destruct (build_shape _ _ _ _ Hb) as (_ & Hn & _ & Hto & _ & Hdata & _).
  destruct (UnsignedRLP t0) as [u| |]; try done.
  destruct (signer u) as [[sg hh]|]; simpl in Hs; try done.
  destruct (verifySignedTx _ _ _ _ _ _) as [[]| |] eqn:Hv; simplify_eq/=.
  unfold verifySignedTx in Hv. apply bind_outcome in Hv as ([[[t y] sr] ss] & Hd & Hv).
  rewrite Hdata in Hv. inv_done. unfold GoStr.EqualFold, bytes_eqb in *. bool_hyps.
  rewrite <- (ToLower_hash signed). split; [done|].
  exists t, y, sr, ss. split_and!; [done|lia|lia|congruence|congruence].
Qed.

Lemma find_none_update {A} (p : A -> bool) f (l : list A) :
  (forall x, x ∈ l -> p x = false) -> update_where p f l = l.
Proof.
  intros Hp. unfold update_where. induction l as [|x l IH]; [done|]. simpl.
  rewrite Hp by set_solver. f_equal. apply IH. intros y Hy. apply Hp. set_solver.
Qed.

Lemma allocate_shape cfg me bal row amount cutoff window nowUTC signer s att d :
  INV s ->
  allocate_tx cfg me bal row amount cutoff window nowUTC signer (sy_db s) = (Allocated att, d) ->
  SelfFence me (pd_lease (sy_db s)) = true
  /\ pd_attempts d = rows s ++ [att] /\ pd_ledger d = pd_ledger (sy_db s)
  /\ pd_lease d = pd_lease (sy_db s) /\ existsb (clash att) (rows s) = false
  /\ envelope_ok att /\ confirmed att = false /\ abandoned att = false
  /\ IsCancelSelfTransfer att = false /\ PayoutID att = rr_PayoutID row
  /\ AmountBaseUnits att = amount.
Proof.
  intros HI Ha. unfold allocate_tx in Ha.
  destruct (SelfFence me _) eqn:Hf; [|done]. simpl in Ha.
  destruct (0 <? _); [done|]. destruct (SumAmountWindow _ _ _); [|done].
  destruct (PerDayCapBaseUnits cfg <? _); [done|]. destruct (match bal with Some _ => _ | None => _ end); [done|].
  destruct (List.find _ _); [|done]. destruct (negb _); [done|].
  destruct (AllocateNextNonceTx _ _) as [nonce|]; [|done].
  unfold InsertAttempt, insert_row in Ha.
  set (fr := fresh_attempt _ _ _ _ _ _ _) in Ha.
  destruct (negb (attempt_checks fr)); [done|].
  destruct (existsb (clash fr) (rows s)) eqn:Hcl; [done|].
  destruct (sign_transfer _ _ _ _ _) as [[signed h]|] eqn:Hs; [|done].
  destruct (sign_transfer_envelope _ _ _ _ _ _ _ Hs) as (Hh & t & y & sr & ss & Hd & Hn & Hv & Hto & Hdata).
  destruct (CASPersistSignedTx _ _ _ _ _ _) as [rows'| | | |] eqn:Hcas; simplify_eq/=.
  unfold CASPersistSignedTx in Hcas.
  destruct (existsb _ (rows s ++ [fr])); [|by repeat case_match]. injection Hcas as <-.
  split_and!; try done.
  - unfold update_where. rewrite map_app. f_equal.
    + apply (find_none_update (unsigned_live _ _)). intros r Hr.
      destruct (inv_envelope _ _ _ HI r Hr) as (raw & ? & ? & ? & ? & ? & Hraw & _).
      unfold unsigned_live. rewrite Hraw. simpl. by rewrite !andb_false_r.
    + simpl. unfold unsigned_live, is_row. simpl. by rewrite !Z.eqb_refl.
  - exists signed, h, t, y, sr, ss. split_and!; try done. simpl. unfold pays. eauto.
Qed.

Lemma fence_token me s : SelfFence me (pd_lease (sy_db s)) = true -> token_of s = Some (HolderToken me).
Proof.
  unfold SelfFence, lease_token. destruct (pd_lease (sy_db s)) as [r|]; [|done]. intros Hf.
  bool_hyps. simpl. congruence.
Qed.

Lemma allocate_keeps cfg me bal row amount cutoff window nowUTC signer s x d :
  INV s -> 0 < amount <= cap -> no_live_attempt (HolderToken me) (rr_PayoutID row) [] s ->
  allocate_tx cfg me bal row amount cutoff window nowUTC signer (sy_db s) = (x, d) ->
  INV (set_db d s) /\ guar (Some (HolderToken me)) s (set_db d s)
  /\ forall att, x = Allocated att -> PayoutID att = rr_PayoutID row
       /\ IsCancelSelfTransfer att = false /\ envelope_ok att /\ has_row att (set_db d s).
Proof.
  intros HI Ham HK Ha. destruct x as [| | | |att].
  1-4: assert (d = sy_db s) as -> by (unfold allocate_tx in Ha; repeat case_match; by simplify_eq).
  1-4: rewrite set_db_id; split_and!; [done|by apply guar_refl|done].
  destruct (allocate_shape _ _ _ _ _ _ _ _ _ _ _ _ HI Ha)
    as (Hf & Hrows & Hl & Hlease & Hcl & Henv & Hnc & Hna & Hcan & Hp & Hamt).
  apply fence_token in Hf. destruct (HK Hf) as [Hab Hcs].
  split_and!.
  - apply (append_keeps (fun _ _ => False) s d att); try done; [by rewrite Hamt|].
    intros _ r0 Hr0 Hc0 Hp0. rewrite Hp in Hp0.
    destruct (inv_abandoned _ _ _ HI r0 Hr0 (Hab r0 Hr0 Hp0 Hc0)) as [[]|(c & Hc & Hlc & Hn)].
    exists c. split_and!; try done. rewrite Hp0 in Hlc.
    destruct (Hcs c Hc Hlc) as [?|[Hin|(r & _ & _ & Hin & _)]]; [done| |]; by apply elem_of_nil in Hin.
  - constructor.
    + done.
    + intros r Hr. exists r. split; [|done]. simpl. rewrite Hrows. set_solver.
    + intros r'. simpl. rewrite Hrows. intros Hr'.
      apply elem_of_app in Hr' as [?| ->%list_elem_of_singleton]; [by left; exists r'|].
      right. left. split_and!; [done|by rewrite Hf|done].
    + intros tok. unfold lease_token. simpl. rewrite Hlease. by left.
  - intros att' [= ->]. split_and!; [done|done|done|]. exists att'. split; [|done].
    simpl. rewrite Hrows. set_solver.
Qed.

(** *** The transaction of an abandon request *)

Lemma sign_cancel_envelope cfg signer nonce tip signed h :
  sign_cancel cfg signer nonce tip = Some (signed, h) ->
  GoStr.ToLower h = TxHash signed
  /\ exists t y sr ss, DecodeSignedEIP1559 signed = Done (t, y, sr, ss)
       /\ Nonce t = nonce mod uint64_modulus /\ 0 < Value t.
Proof.
  unfold sign_cancel. intros Hs.
  destruct (buildCancelTx cfg nonce tip) as [t0| |] eqn:Hb; try done.
  assert (Nonce t0 = nonce mod uint64_modulus) as Hn.
  { unfold buildCancelTx in Hb. destruct (AddressBytes _); [|done|done]. injection Hb as <-. done. }
  destruct (UnsignedRLP t0) as [u| |]; try done.
  destruct (signer u) as [[sg hh]|]; simpl in Hs; try done.
  destruct (verifyCancelEnvelope _ _ _ _) as [[]| |] eqn:Hv; simplify_eq/=.
  unfold verifyCancelEnvelope in Hv. apply bind_outcome in Hv as ([[[t y] sr] ss] & Hd & Hv).
  inv_done. bool_hyps. subst h. rewrite ToLower_hash. split; [done|].
  exists t, y, sr, ss. split_and!; [done|lia|lia].
Qed.

Definition abandon_row (nowUTC reason : string) (p seq : Z) (r : AttemptRow) : AttemptRow :=
  if open_row p seq r then r <| AbandonedAtUtc := Some nowUTC |> <| AbandonedReason := Some reason |>
    <| UpdatedAtUtc := nowUTC |> else r.

Lemma abandon_row_evolves nowUTC reason p seq r : evolves r (abandon_row nowUTC reason p seq r).
Proof.
  unfold abandon_row. destruct (open_row p seq r) eqn:Ho; [|done].
  unfold open_row in Ho. bool_hyps. constructor; try done; simpl; intros; congruence.
Qed.

Lemma abandon_keeps cfg a req caps tip lnow last24h nowUTC signer s x d :
  INV s -> ab_BroadcastCancelSelfTransfer req = true ->
  abandon_tx cfg req caps tip lnow last24h nowUTC signer (sy_db s) = (x, d) ->
  INV (set_db d s) /\ guar a s (set_db d s).
Proof.
  intros HI Hreq Ha. unfold abandon_tx in Ha.
  assert (forall y, (y, sy_db s) = (x, d) -> INV (set_db d s) /\ guar a s (set_db d s)) as Hsame.
  { intros y [= <- <-]. rewrite set_db_id. split; [done|by apply guar_refl]. }
  destruct (IsLeaseActive _ _ _) as [[]|]; [by eapply Hsame| |by eapply Hsame].
  destruct (sumCancelGasLast24h _ _ _); [|by eapply Hsame].
  destruct (_ <? _); [by eapply Hsame|]. unfold abandon_rows in Ha.
  destruct (Z.eqb_spec (count (open_row (ab_PayoutID req) (ab_AttemptSeq req)) (rows s)) 0) as [|Hcnt];
    [by eapply Hsame|].
  rewrite Hreq in Ha. simpl in Ha.
  set (p := ab_PayoutID req) in *. set (seq := ab_AttemptSeq req) in *.
  set (g := abandon_row nowUTC (ab_Reason req) p seq).
  fold (map g (rows s)) in Ha.
  change (update_where (open_row p seq) _ (rows s)) with (map g (rows s)) in Ha.
  destruct (List.find (is_row p seq) (map g (rows s))) as [r|] eqn:Hfind; [|by eapply Hsame].
  apply find_Some_elem in Hfind as [Hr Hkey].
  destruct (sign_cancel _ _ _ _) as [[signed h]|] eqn:Hs; [|by eapply Hsame].
  destruct (sign_cancel_envelope _ _ _ _ _ _ Hs) as (Hh & t & y & sr & ss & Hd & Hn & Hv).
  unfold insert_row in Ha. set (c := cancel_attempt _ _ _ _ _ _ _ _) in Ha.
  destruct (negb (attempt_checks c)); [by eapply Hsame|].
  destruct (existsb (clash c) (map g (rows s))) eqn:Hcl; [by eapply Hsame|].
  injection Ha as <- <-. apply elem_of_map in Hr as (r0 & Hr0 & ->).
  pose proof (abandon_row_evolves nowUTC (ab_Reason req) p seq) as Hev. fold g in Hev.
  apply is_row_eq in Hkey as [Hp Hseq].
  rewrite (ev_payout _ _ (Hev r0)) in Hp. rewrite (ev_seq _ _ (Hev r0)) in Hseq.
  (* the row that is abandoned is r0 *)
  assert (exists r1, r1 ∈ rows s /\ open_row p seq r1 = true) as (r1 & Hr1 & Ho1).
  { apply existsb_elem. rewrite count_zero_existsb. apply negb_true_iff. by apply Z.eqb_neq. }
  assert (r1 = r0) as ->.
  { unfold open_row in Ho1. bool_hyps. rewrite is_row_eq in *. eapply (same_key _ _ _ _ HI); [done|done| |];
      destruct_and!; congruence. }
  pose proof Ho1 as Ho. unfold open_row, live in Ho1. bool_hyps.
  set (X := fun p' n' => p' = p /\ n' = AttNonce r0).
  set (d1 := (sy_db s) <| pd_attempts := map g (rows s) |>).
  destruct (update_pre s d1 g) with (X := X) (a := a) as [HI1 Hg1]; try done.
  { intros r. unfold g, abandon_row. by split_ifs. }
  { intros r Hr. unfold g, abandon_row. destruct (open_row p seq r) eqn:Hor; [|by left].
    right. unfold open_row in Hor. bool_hyps. split; [done|].
    assert (r = r0) as ->; [|by split; lia].
    rewrite is_row_eq in *. eapply (same_key _ _ _ _ HI); [done|done| |]; destruct_and!; congruence. }
  { intros r Hr. unfold g, abandon_row. split_ifs; auto. }
  split.
  - change (INV (set_db ((sy_db s) <| pd_attempts := map g (rows s) ++ [c] |>) (set_db d1 s))).
    apply (append_keeps X (set_db d1 s) _ c); try done.
    + by exists signed, h, t, y, sr, ss.
    + intros p' n' [-> ->]. split_and!; [done|done|]. simpl. by rewrite (ev_nonce _ _ (Hev r0)).
  - constructor.
    + done.
    + intros r Hr. exists (g r). split; [|done]. simpl. apply elem_of_app. left.
      apply elem_of_map. eauto.
    + intros r'. simpl. intros Hr'. apply elem_of_app in Hr' as [Hr'| ->%list_elem_of_singleton].
      * left. apply elem_of_map in Hr' as (r & Hr & ->). eauto.
      * right. right. split; [done|]. exists r0, (g r0). split_and!; try done.
        { apply elem_of_app. left. apply elem_of_map. eauto. }
        unfold g, abandon_row. by rewrite Ho.
    + intros tok Htok. by left.
Qed.

(** *** The claim *)

Lemma claim_consumed id g ext cur now vn l b l' p' :
  ClaimPayoutReady id g ext cur now vn l = Some (b, l') -> p' ∈ lpr l' -> lpr_status p' = consumed ->
  (exists p, p ∈ lpr l /\ lpr_status p = consumed /\ lpr_id p = lpr_id p'
     /\ lpr_payout_currency p = lpr_payout_currency p'
     /\ lpr_payout_external_id p = lpr_payout_external_id p')
  \/ (lpr_id p' = id /\ lpr_payout_external_id p' = nullString ext).
Proof.
  intros Hc Hp' Hst.
  assert (p' ∈ lpr l -> exists p, p ∈ lpr l /\ lpr_status p = consumed /\ lpr_id p = lpr_id p'
     /\ lpr_payout_currency p = lpr_payout_currency p'
     /\ lpr_payout_external_id p = lpr_payout_external_id p') as Hsame by (intros ?; by exists p').
  assert (forall q, consume_payout id g ext cur now q l = Some (b, l') ->
    p' ∈ lpr l \/ (lpr_id p' = id /\ lpr_payout_external_id p' = nullString ext)) as Hcons.
  { intros q Hq. unfold consume_payout, update_status in Hq.
    destruct (forallb _ _); simpl in Hq; [|done]. simplify_eq. simpl in Hp'.
    apply elem_of_update_where in Hp' as (p & Hp & ->). destruct (_ && _) eqn:Hhit; [|by left].
    right. unfold ready_id, has_id in Hhit. bool_hyps. simpl. split; [lia|done]. }
  unfold ClaimPayoutReady in Hc. destruct (List.find _ _) as [p0|]; [|simplify_eq; auto].
  destruct (bool_decide _); [|destruct (Hcons _ Hc); auto].
  destruct (negb _); [done|]. destruct (negb _).
  { destruct (update_links _ _ _); simpl in Hc; [|done]. unfold update_status in Hc.
    destruct (forallb _ _); simpl in Hc; [|done]. simplify_eq. simpl in Hp'.
    apply elem_of_update_where in Hp' as (p & Hp & ->). destruct (ready_id id p); [done|auto]. }
  destruct (negb _); [|destruct (Hcons _ Hc); auto].
  destruct (lpr_min_payout_credits p0 <=? _).
  - destruct (forallb _ _); simpl in Hc; [|done]. simplify_eq. simpl in Hp'.
    apply elem_of_update_where in Hp' as (p & Hp & ->). destruct (ready_id id p); [|auto].
    left. by exists p.
  - unfold update_status in Hc. destruct (forallb _ _); simpl in Hc; [|done]. simplify_eq. simpl in Hp'.
    apply elem_of_update_where in Hp' as (p & Hp & ->). destruct (ready_id id p); [done|auto].
Qed.

Lemma guar_same_rows a s d :
  pd_attempts d = rows s -> pd_lease d = pd_lease (sy_db s) -> guar a s (set_db d s).
Proof.
  intros Hr Hl. constructor; simpl; rewrite ?Hr; [done| | |].
  - intros r ?. by exists r.
  - intros r ?. left. by exists r.
  - intros tok. unfold lease_token. simpl. rewrite Hl. by left.
Qed.

Lemma claim_keeps a row h nowUTC vn s x d :
  INV s -> h <> "" -> paid_attempt s (rr_PayoutID row) (Some h) ->
  claim_tx row h nowUTC vn (sy_db s) = (x, d) ->
  INV (set_db d s) /\ guar a s (set_db d s).
Proof.
  intros HI Hne Hpaid Hc. unfold claim_tx in Hc.
  destruct (ClaimPayoutReady _ _ _ _ _ _ _) as [[b l']|] eqn:Hcl; simplify_eq.
  - split; [destruct HI as [? ? ? ? ? ? Icm ?]; constructor; try done|].
    + simpl. intros p' Hp' [Hst Hcur].
      destruct (claim_consumed _ _ _ _ _ _ _ _ _ _ Hcl Hp' Hst) as [(p & Hp & Hsp & Hid & Hcu & Hex)|[Hid Hex]].
      * destruct (Icm p Hp) as (r & ? & ? & ? & Hh); [by split; congruence|].
        exists r. rewrite <- Hid, <- Hex. done.
      * rewrite Hid, Hex. unfold nullString. by destruct (String.eqb_spec h "").
    + by apply guar_same_rows.
  - rewrite set_db_id. split; [done|by apply guar_refl].
Qed.

(** ** Programs *)

Lemma stable_none a K s s' : stable a K -> guar None s s' -> K s -> K s'.
Proof. intros Hs Hg. by apply (Hs None). Qed.

Lemma stable_after a K s q : stable a K -> K s -> K (after s q).
Proof. intros Hs. apply (stable_none a); [done|apply guar_after]. Qed.

Lemma stable_true a : stable a (fun _ => True).
Proof. by intros. Qed.

(** Programs that only ask. *)
Fixpoint ask_only {R} (p : prog R) : Prop :=
  match p with
  | Ret _ => True
  | Tx _ _ => False
  | Ask _ k => forall x, ask_only (k x)
  end.

Lemma wp_ask_only a {R} (p : prog R) K s :
  ask_only p -> stable a K -> K s -> WP a p (fun _ => K) s.
Proof.
  intros Hp HK. revert s. induction p as [r|A f k IH|q k IH]; simpl in *; intros s Hs; [done|done|].
  intros s1 H1 _ _ x _. apply IH; [done|]. apply (stable_after a); [done|]. by eapply stable_rely.
Qed.

Lemma wp_true a {R} (p : prog R) Q s : WP a p Q s -> WP a p (fun _ _ => True) s.
Proof. intros Hp. eapply wp_mono; [done|auto]. Qed.

Context (one_honest : honest primary || honest secondary = true).

(** A receipt both nodes show deep enough is of a final transaction. *)
Lemma round_final conf h r s a b :
  finality <= conf -> allowed honest finality s (QRound h) r = true ->
  round_recA r = inr (Some a) -> round_recB r = inr (Some b) ->
  (exists x, round_headA r = inr x /\ conf <= depth x a) ->
  (exists x, round_headB r = inr x /\ conf <= depth x b) -> mined_hash h s = true.
Proof.
  simpl. intros Hc Hal Ha Hb (xa & Hxa & Hda) (xb & Hxb & Hdb).
  rewrite Ha, Hb, Hxa, Hxb in Hal. simpl in Hal. bool_hyps.
  rewrite (proj2 (Z.leb_le _ _) (Z.le_trans _ _ _ Hc Hda)) in *.
  rewrite (proj2 (Z.leb_le _ _) (Z.le_trans _ _ _ Hc Hdb)) in *.
  rewrite !andb_true_r in *. by destruct (honest primary), (honest secondary), (mined_hash h s).
Qed.

Lemma mined_row s r0 raw h :
  collision_free s -> has_row r0 s -> RawSignedTx r0 = Some raw -> TxHash raw = h ->
  mined_hash h s = true -> has_final raw s.
Proof.
  intros Hcf (r & Hr & He) Hraw Hh Hm. apply existsb_elem in Hm as (raw' & Hin & Heq). bool_hyps.
  unfold has_final. rewrite <- (Hcf r raw raw'); [done|done| |done|congruence].
  by rewrite (ev_raw _ _ He).
Qed.

(** *** Claiming *)
Lemma wp_claim a row h s :
  h <> "" -> paid_attempt s (rr_PayoutID row) (Some h) ->
  WP a (claimAndLog row (Some h)) (fun _ _ => True) s.
Proof.
  intros Hne Hp. unfold claimAndLog.
  pose proof (stable_paid a (rr_PayoutID row) (Some h)) as Hst.
  apply wp_ask. intros s1 halted Hr1 _ _ _. apply (stable_rely _ _ _ _ Hst Hr1) in Hp.
  destruct halted; [done|]. apply wp_ask. intros s2 now Hr2 _ _ _.
  apply (stable_rely _ _ _ _ Hst Hr2) in Hp.
  apply wp_ask. intros s3 vn Hr3 _ _ _. apply (stable_rely _ _ _ _ Hst Hr3) in Hp.
  apply wp_tx. intros s4 Hr4 HI _. apply (stable_rely _ _ _ _ Hst Hr4) in Hp.
  split; [|done]. intros x d Hc. simpl in Hc.
  destruct (claim_keeps a _ _ _ _ _ _ _ HI Hne Hp Hc). split_and!; [done|done|].
  destruct x as [[]|]; done.
Qed.

(** *** Polling *)
Lemma wp_poll_loop a conf r0 raw n s :
  finality <= conf -> RawSignedTx r0 = Some raw -> has_row r0 s ->
  WP a (poll_loop conf (TxHash raw) n)
    (fun e s' => has_row r0 s' /\ match e with PollConfirmed _ _ => has_final raw s' | _ => True end) s.
Proof.
  intros Hc Hraw. revert s. induction n as [|n IH]; intros s Hrow; [done|]. cbn [poll_loop].
  pose proof (stable_has_row a r0) as Hst.
  apply wp_ask. intros s1 before Hr1 _ _ _. apply (stable_rely _ _ _ _ Hst Hr1) in Hrow.
  destruct before; [|done]. cbn [negb]. apply wp_ask. intros s2 cancelled Hr2 _ _ _.
  apply (stable_rely _ _ _ _ Hst Hr2) in Hrow. destruct cancelled; [done|].
  apply wp_ask. intros s3 r Hr3 _ Hcf Hal. apply (stable_rely _ _ _ _ Hst Hr3) in Hrow.
  destruct (round_confirmed conf r) as [[ra rb]|] eqn:Hrc; [|by apply IH].
  split; [done|]. unfold round_confirmed in Hrc.
  destruct (round_recA r) as [|[a1|]] eqn:Ea; try done. destruct (round_recB r) as [|[b1|]] eqn:Eb; try done.
  destruct (round_headA r) as [|ha] eqn:Eha; try done. destruct (round_headB r) as [|hb] eqn:Ehb; try done.
  destruct (_ && _) eqn:Hd; simplify_eq. bool_hyps.
  eapply mined_row; [exact Hcf|exact Hrow|exact Hraw|reflexivity|].
  eapply (round_final conf); [done|exact Hal|exact Ea|exact Eb|exists ha|exists hb]; split; lia || done.
Qed.

(** The row that was read is the one with its key. *)
Lemma key_row s r0 r :
  INV s -> has_row r0 s -> r ∈ rows s -> is_row (PayoutID r0) (AttemptSeq r0) r = true -> evolves r0 r.
Proof.
  intros HI (r1 & Hr1 & He) Hr Hk. apply is_row_eq in Hk as [Hp Hs].
  assert (r = r1) as ->; [|done].
  eapply (same_key _ _ _ _ HI); [done|done| |]; rewrite ?(ev_payout _ _ He), ?(ev_seq _ _ He); done.
Qed.

(** Confirming a row whose transaction is final. *)
Lemma confirm_row a r0 raw block gas nowUTC s n d :
  INV s -> has_row r0 s -> RawSignedTx r0 = Some raw -> has_final raw s ->
  mark_confirmed (PayoutID r0) (AttemptSeq r0) block gas nowUTC (sy_db s) = (n, d) ->
  INV (set_db d s) /\ guar a s (set_db d s)
  /\ (n <> 0 -> exists r, r ∈ rows (set_db d s) /\ evolves r0 r /\ confirmed r = true /\ abandoned r = false).
Proof.
  intros HI Hrow Hraw Hfin Hm.
  destruct (mark_confirmed_keeps a _ _ _ _ _ _ _ _ HI Hm) as [HI' Hg'].
  { intros r Hr Hk. exists raw. split; [|done]. pose proof (key_row _ _ _ HI Hrow Hr Hk) as He.
    by rewrite (ev_raw _ _ He). }
  split_and!; [done|done|]. intros Hn. unfold mark_confirmed, MarkConfirmedAtTx in Hm.
  injection Hm as <- <-.
  assert (exists r, r ∈ rows s /\ open_row (PayoutID r0) (AttemptSeq r0) r = true) as (r & Hr & Ho).
  { apply existsb_elem. rewrite count_zero_existsb. apply negb_true_iff. by apply Z.eqb_neq. }
  pose proof Ho as Ho'. unfold open_row, live in Ho'. bool_hyps.
  pose proof (key_row _ _ _ HI Hrow Hr ltac:(done)) as He.
  eexists. split.
  - match goal with |- _ ∈ rows (set_db ?d s) =>
      assert (pd_attempts d = update_where (open_row (PayoutID r0) (AttemptSeq r0)) (fun r =>
        r <| ConfirmedAtUtc := Some nowUTC |> <| BlockNumber := Some block |>
          <| GasUsedNativeWei := Some gas |> <| UpdatedAtUtc := nowUTC |>
          <| CancelReconfirmStalePagedAtUtc := None |>) (rows s)) as Hd by (by destruct (0 <? _)) end.
    simpl. rewrite Hd. apply elem_of_update_where. exists r. split; [done|]. by rewrite Ho.
  - split_and!; [|done|done]. etrans; [exact He|]. constructor; try done; simpl; intros; congruence.
Qed.

Lemma envelope_parts r :
  envelope_ok r -> exists raw h, RawSignedTx r = Some raw /\ TxHashCol r = Some h
    /\ GoStr.ToLower h = TxHash raw /\ h <> "" /\ 0 < len raw.
Proof.
  intros (raw & h & t & y & sr & ss & H1 & H2 & H3 & H4 & _). exists raw, h. split_and!; try done.
  - intros ->. unfold TxHash in H3. simpl in H3. discriminate.
  - unfold DecodeSignedEIP1559 in H4. apply bind_outcome in H4 as (? & Hl & _). inv_done. bool_hyps.
    destruct (len raw <? 2) eqn:?; [done|]. lia.
Qed.

Context (cfg : RunnerConfig) (Hcap : PerPayoutCapBaseUnits cfg = cap).

Lemma verify_ask_only attempt ra rb : ask_only (verifyChainSideTransfer cfg attempt ra rb).
Proof.
  unfold verifyChainSideTransfer. destruct (negb _); [done|]. intros ta.
  destruct ta as [|[ta|]]; try done. intros tb. destruct tb as [|[tb|]]; try done. simpl.
  destruct (USDCTransferCalldata _ _); try done. destruct (topic_of _); try done.
  by destruct (topic_of _).
Qed.

Lemma wp_pollAndConfirm a conf row attempt s :
  finality <= conf -> PayoutID attempt = rr_PayoutID row -> IsCancelSelfTransfer attempt = false ->
  envelope_ok attempt -> has_row attempt s ->
  WP a (pollAndConfirm cfg conf row attempt) (fun _ _ => True) s.
Proof.
  intros Hc Hp Hcan Henv Hrow. destruct (envelope_parts _ Henv) as (raw & h & Hraw & Hh & Hlow & Hne & _).
  unfold pollAndConfirm. rewrite Hh, Hlow. apply wp_bind.
  eapply wp_mono; [by apply (wp_poll_loop a conf attempt raw)|]. clear s Hrow.
  intros e s [Hrow Hfin]. destruct e as [| |ra rb]; [done|done|].
  destruct (negb (ReceiptsAgree ra rb)); [done|]. destruct (negb (rec_Status ra =? 1)); [done|].
  pose proof (stable_and a _ _ (stable_has_row a attempt) (stable_has_final a raw)) as Hst.
  apply wp_bind. eapply wp_mono;
    [apply (wp_ask_only a _ _ _ (verify_ask_only attempt ra rb) Hst (conj Hrow Hfin))|].
  clear s Hrow Hfin. intros ok s HK. destruct (negb ok); [done|].
  apply wp_ask. intros s1 now Hr1 _ _ _. apply (stable_rely _ _ _ _ Hst Hr1) in HK. cbn [after].
  unfold markConfirmedStandalone. apply wp_tx. intros s2 Hr2 HI _.
  apply (stable_rely _ _ _ _ Hst Hr2) in HK. destruct HK as [Hrow Hfin]. split; [|done].
  rewrite <- Hp. intros n d Hm.
  destruct (confirm_row a attempt raw _ _ _ _ _ _ HI Hrow Hraw Hfin Hm) as (HI' & Hg' & Hpaid).
  split_and!; [done|done|]. destruct (Z.eqb_spec n 0); [done|].
  destruct (Hpaid n0) as (r & Hr & He & Hcf & Hab). apply wp_claim; [done|].
  exists r. rewrite (ev_hash _ _ He). split_and!; try done.
  unfold live_transfer, of_payout, live. by rewrite (ev_payout _ _ He), (ev_cancel _ _ He), Hp, Hcan, Hab, Z.eqb_refl.
Qed.

(** *** Cancels *)

(** The row of [c] is confirmed and live. *)
Definition confirmed_key (c : AttemptRow) (s : Sys) : Prop :=
  exists r, r ∈ rows s /\ evolves c r /\ confirmed r = true /\ abandoned r = false.

Lemma wp_pollCancelOnce a conf c K s :
  finality <= conf -> envelope_ok c -> has_row c s -> stable a K -> K s ->
  WP a (pollCancelOnce cfg conf c)
    (fun o s' => (INV s' /\ K s') /\ (o = rowOutcomePaid -> confirmed_key c s')) s.
Proof.
  intros Hc Henv Hrow HKst HK. destruct (envelope_parts _ Henv) as (raw & h & Hraw & Hh & Hlow & _).
  unfold pollCancelOnce. rewrite Hh, Hlow.
  pose proof (stable_and a _ _ (stable_has_row a c) HKst) as Hst.
  assert (has_row c s /\ K s) as HB by done. clear Hrow HK.
  apply wp_ask. intros s1 r Hr1 HI1 Hcf1 Hal1. apply (stable_rely _ _ _ _ Hst Hr1) in HB. cbn [after].
  destruct (cancel_receipts cfg conf r) as [recA|] eqn:Hrc; [|by destruct HB].
  assert (has_final raw s1) as Hfin.
  { eapply mined_row; [exact Hcf1|apply HB|exact Hraw|reflexivity|].
    unfold cancel_receipts in Hrc.
    destruct (round_recA r) as [|[a1|]] eqn:Ea; try done. destruct (round_recB r) as [|[b1|]] eqn:Eb; try done.
    destruct (negb (ReceiptsAgree a1 b1)); [done|].
    destruct (round_headA r) as [|ha] eqn:Eha; try done. destruct (round_headB r) as [|hb] eqn:Ehb; try done.
    destruct ((depth ha a1 <? conf) || (depth hb b1 <? conf)) eqn:Hd; [done|]. bool_hyps.
    eapply (round_final conf); [done|exact Hal1|exact Ea|exact Eb|exists ha|exists hb]; split; lia || done. }
  pose proof (stable_and a _ _ Hst (stable_has_final a raw)) as Hst2.
  assert ((has_row c s1 /\ K s1) /\ has_final raw s1) as HB1 by done. clear HB Hfin.
  apply wp_ask. intros s2 ta Hr2 HI2 _ _. apply (stable_rely _ _ _ _ Hst2 Hr2) in HB1. cbn [after].
  destruct ta as [|[txA|]]; [by destruct_and!| |by destruct_and!].
  apply wp_ask. intros s3 tb Hr3 HI3 _ _. apply (stable_rely _ _ _ _ Hst2 Hr3) in HB1. cbn [after].
  destruct tb as [|[txB|]]; [by destruct_and!| |by destruct_and!].
  destruct (_ && _); [|by destruct_and!].
  apply wp_ask. intros s4 now Hr4 _ _ _. apply (stable_rely _ _ _ _ Hst2 Hr4) in HB1. cbn [after].
  unfold markConfirmedStandalone. apply wp_tx. intros s5 Hr5 HI _.
  apply (stable_rely _ _ _ _ Hst2 Hr5) in HB1. destruct HB1 as [[Hrow HK] Hfin].
  split; [|done]. intros n d Hm.
  destruct (confirm_row None c raw _ _ _ _ _ _ HI Hrow Hraw Hfin Hm) as (_ & Hg & Hpaid).
  destruct (confirm_row a c raw _ _ _ _ _ _ HI Hrow Hraw Hfin Hm) as (HI' & Hg' & _).
  split_and!; [done|done|]. simpl. split; [split; [done|by eapply stable_none]|].
  destruct (Z.eqb_spec n 0); [done|]. intros _. by apply Hpaid.
Qed.

Lemma wp_rebroadcastCancel a c K s :
  INV s -> stable a K -> K s -> WP a (rebroadcastCancel c) (fun _ s' => INV s' /\ K s') s.
Proof.
  intros HI0 Hst HK. unfold rebroadcastCancel. destruct (RawSignedTx c) as [[|b raw]|]; [done| |done].
  apply wp_ask. intros s1 errs Hr1 HI1 _ _. apply (stable_rely _ _ _ _ Hst Hr1) in HK.
  apply (stable_after _ _ _ (QSend (b :: raw)) Hst) in HK.
  apply (Inv_after _ (QSend (b :: raw))) in HI1. destruct (acceptedAny errs); [|done].
  apply wp_ask. intros s2 now Hr2 _ _ _. apply (stable_rely _ _ _ _ Hst Hr2) in HK. cbn [after].
  apply wp_tx. intros s3 Hr3 HI _. apply (stable_rely _ _ _ _ Hst Hr3) in HK. split; [|done].
  intros x d Hs. destruct (stamp_keeps a _ _ _ _ _ _ HI Hs). split_and!; [done|done|].
  simpl. split; [done|]. eapply stable_none; [done|by eapply stamp_keeps|done].
Qed.

(** A confirmed cancel leaves the list. *)
Lemma no_live_pass tok p c L s :
  INV s -> PayoutID c = p -> confirmed_key c s -> no_live_attempt tok p (AttemptSeq c :: L) s ->
  no_live_attempt tok p L s.
Proof.
  intros HI Hp (r & Hr & He & Hcf & Hab) HK Htok. destruct (HK Htok) as [Hna Hcs]. split; [done|].
  assert (forall r', r' ∈ rows s -> PayoutID r' = p -> AttemptSeq r' = AttemptSeq c -> r' = r) as Huniq.
  { intros r' Hr' Hp' Hs'. eapply (same_key _ _ _ _ HI); [done|done| |];
      rewrite ?(ev_payout _ _ He), ?(ev_seq _ _ He); congruence. }
  intros c' Hc' Hl. destruct (Hcs c' Hc' Hl) as [?|[Hin|(r2 & Hr2 & Hp2 & Hin & Ha2)]]; [by left| |].
  - apply elem_of_cons in Hin as [Hs|?]; [|by right; left]. left.
    rewrite (Huniq c'); [done|done| |done]. unfold live_cancel, of_payout in Hl. bool_hyps. lia.
  - apply elem_of_cons in Hin as [Hs|?]; [|right; right; eauto]. exfalso.
    rewrite (Huniq r2) in Ha2 by done. congruence.
Qed.

Lemma wp_cancel_loop tok conf p cs blocks s :
  finality <= conf -> INV s ->
  (forall c, c ∈ cs -> PayoutID c = p /\ envelope_ok c /\ has_row c s
                       /\ (confirmed c = true -> abandoned c = false)) ->
  (blocks = false -> no_live_attempt tok p (map AttemptSeq cs) s) ->
  WP (Some tok) (cancel_loop cfg conf cs blocks)
    (fun b s' => b = false -> no_live_attempt tok p [] s') s.
Proof.
  intros Hc. revert blocks s. induction cs as [|c cs IH]; intros blocks s HI Hcs HK; [done|].
  cbn [cancel_loop]. destruct (Hcs c (list_elem_of_here _ _)) as (Hp & Henv & Hrow & Hlive).
  set (Krest := fun s => forall c', c' ∈ cs -> has_row c' s).
  assert (stable (Some tok) Krest) as Hrest_st.
  { intros b s1 s2 Hb Hg Hk c' Hc'. eapply stable_has_row; [done|done|by apply Hk]. }
  assert (Krest s) as Hrest by (intros c' Hc'; by apply Hcs, list_elem_of_further).
  assert (forall s', Krest s' -> forall c', c' ∈ cs -> PayoutID c' = p /\ envelope_ok c' /\ has_row c' s'
            /\ (confirmed c' = true -> abandoned c' = false)) as Hmk.
  { intros s' Hk c' Hc'. destruct (Hcs c' (list_elem_of_further _ _ _ Hc')) as (? & ? & _ & ?).
    split_and!; auto. }
  destruct (broadcast c) eqn:Hb; cbn [negb].
  - destruct (confirmed c) eqn:Hcf; cbn [negb].
    + apply IH; [done|by apply Hmk|]. intros Hbl. apply (no_live_pass _ _ c); auto.
      destruct Hrow as (r & Hr & He). exists r. split_and!; [done|done| |].
      * by apply (ev_confirmed _ _ He).
      * apply (ev_stays _ _ He); auto.
    + apply wp_bind.
      pose proof (stable_and _ _ _ Hrest_st
        (stable_no_live tok p (map AttemptSeq (c :: cs)))) as Hst.
      destruct blocks.
      * eapply wp_mono; [by apply (wp_pollCancelOnce _ conf c Krest)|].
        intros o s' [[HI' Hk] _]. cut (WP (Some tok) (cancel_loop cfg conf cs true)
          (fun b s'0 => b = false -> no_live_attempt tok p [] s'0) s'); [by destruct o|].
        apply IH; [done|by apply Hmk|done].
      * eapply wp_mono; [by apply (wp_pollCancelOnce _ conf c _ _ Hc Henv Hrow Hst); auto|].
        intros o s' [[HI' [Hk Hnl]] Hpaid].
        destruct o; (apply IH; [done|by apply Hmk|]); try done.
        intros _. by apply (no_live_pass _ _ c); auto.
  - apply wp_bind. eapply wp_mono; [by apply (wp_rebroadcastCancel _ c Krest)|].
    intros _ s' [HI' Hk]. apply IH; [done|by apply Hmk|done].
Qed.

(** *** A row of the cycle *)

Lemma wp_poll_balance a conf bal row attempt s :
  finality <= conf -> PayoutID attempt = rr_PayoutID row -> IsCancelSelfTransfer attempt = false ->
  envelope_ok attempt -> has_row attempt s ->
  WP a (with_balance bal (pollAndConfirm cfg conf row attempt)) (fun _ _ => True) s.
Proof. intros. apply wp_bind. eapply wp_true, wp_pollAndConfirm; done. Qed.

(** Stamping a row that was sent, then polling. *)
Lemma wp_stamp_poll a conf bal row attempt nowUTC s :
  finality <= conf -> PayoutID attempt = rr_PayoutID row -> IsCancelSelfTransfer attempt = false ->
  envelope_ok attempt -> has_row attempt s ->
  WP a (prog_bind (tx (stamp_tx (rr_PayoutID row) (AttemptSeq attempt) nowUTC))
          (fun _ => with_balance bal (pollAndConfirm cfg conf row attempt))) (fun _ _ => True) s.
Proof.
  intros Hc Hp Hcan Henv Hrow. pose proof (stable_has_row a attempt) as Hst.
  apply wp_tx. intros s1 Hr1 HI _. apply (stable_rely _ _ _ _ Hst Hr1) in Hrow.
  split; [|by apply wp_poll_balance]. intros x d Hs.
  destruct (stamp_keeps a _ _ _ _ _ _ HI Hs). split_and!; [done|done|].
  apply wp_poll_balance; try done. eapply stable_none; [exact Hst|by eapply stamp_keeps|done].
Qed.

Lemma wp_rebroadcastAndPoll a me conf bal row attempt s :
  finality <= conf -> PayoutID attempt = rr_PayoutID row -> IsCancelSelfTransfer attempt = false ->
  envelope_ok attempt -> has_row attempt s ->
  WP a (rebroadcastAndPoll cfg me conf bal row attempt) (fun _ _ => True) s.
Proof.
  intros Hc Hp Hcan Henv Hrow. pose proof (stable_has_row a attempt) as Hst.
  unfold rebroadcastAndPoll. destruct (negb (is_some _)); [done|].
  apply wp_read. intros s1 Hr1 _ _. apply (stable_rely _ _ _ _ Hst Hr1) in Hrow.
  split; [|done]. destruct (fence_error _); [done|].
  apply wp_ask. intros s2 halted Hr2 _ _ _. apply (stable_rely _ _ _ _ Hst Hr2) in Hrow.
  destruct halted; [done|].
  apply wp_ask. intros s3 errs Hr3 _ _ _. apply (stable_rely _ _ _ _ Hst Hr3) in Hrow.
  apply (stable_after _ _ _ (QSend (default [] (RawSignedTx attempt))) Hst) in Hrow.
  destruct (negb (acceptedAny errs)).
  - destruct (IsNonceTooLow errs.1 || IsNonceTooLow errs.2); [|done].
    apply wp_ask. intros s4 now Hr4 _ _ _. apply (stable_rely _ _ _ _ Hst Hr4) in Hrow.
    by apply wp_stamp_poll.
  - apply wp_ask. intros s4 now Hr4 _ _ _. apply (stable_rely _ _ _ _ Hst Hr4) in Hrow.
    by apply wp_stamp_poll.
Qed.

Lemma wp_allocate me conf bal row amount s :
  finality <= conf -> 0 < amount <= cap -> no_live_attempt (HolderToken me) (rr_PayoutID row) [] s ->
  WP (Some (HolderToken me)) (allocateBuildSignBroadcast cfg me conf bal row amount) (fun _ _ => True) s.
Proof.
  intros Hc Ham HK. pose proof (stable_no_live (HolderToken me) (rr_PayoutID row) []) as Hst.
  unfold allocateBuildSignBroadcast.
  apply wp_ask. intros s1 t1 Hr1 _ _ _. apply (stable_rely _ _ _ _ Hst Hr1) in HK.
  apply wp_ask. intros s2 t2 Hr2 _ _ _. apply (stable_rely _ _ _ _ Hst Hr2) in HK.
  apply wp_ask. intros s3 t3 Hr3 _ _ _. apply (stable_rely _ _ _ _ Hst Hr3) in HK.
  apply wp_ask. intros s4 signer Hr4 _ _ _. apply (stable_rely _ _ _ _ Hst Hr4) in HK.
  apply wp_tx. intros s5 Hr5 HI _. apply (stable_rely _ _ _ _ Hst Hr5) in HK.
  split; [|done]. intros x d Ha.
  destruct (allocate_keeps cfg me bal row amount _ _ _ _ _ _ _ HI Ham HK Ha) as (HI' & Hg & Hatt).
  split_and!; [done|done|]. destruct x as [| | | |att]; try done.
  destruct (Hatt att eq_refl) as (Hp & Hcan & Henv & Hrow). clear Hatt.
  pose proof (stable_has_row (Some (HolderToken me)) att) as Hst2.
  apply wp_read. intros s6 Hr6 _ _. apply (stable_rely _ _ _ _ Hst2 Hr6) in Hrow.
  split; [|done]. destruct (fence_error _); [done|].
  apply wp_ask. intros s7 halted Hr7 _ _ _. apply (stable_rely _ _ _ _ Hst2 Hr7) in Hrow.
  destruct halted; [done|].
  apply wp_ask. intros s8 errs Hr8 _ _ _. apply (stable_rely _ _ _ _ Hst2 Hr8) in Hrow.
  apply (stable_after _ _ _ (QSend (default [] (RawSignedTx att))) Hst2) in Hrow.
  destruct (negb (acceptedAny errs)); [done|]. by apply wp_stamp_poll.
Qed.

(** *** What the lookups of [processRow] say *)

Lemma later_fold l best :
  match fold_left later l best with
  | None => best = None /\ l = []
  | Some e => e ∈ l \/ best = Some e
  end.
Proof.
  revert best. induction l as [|r l IH]; intros best; simpl; [by destruct best; auto|].
  specialize (IH (later best r)). destruct (fold_left later l (later best r)) as [e|].
  - destruct IH as [?|Hb]; [left; by apply list_elem_of_further|]. unfold later in Hb.
    repeat case_match; simplify_eq; auto; left; by apply list_elem_of_here.
  - destruct IH as [Hb _]. unfold later in Hb. by repeat case_match.
Qed.

Lemma existing_elem p l e :
  LookupExistingLatest p l = Some e -> e ∈ l /\ live_transfer p e = true.
Proof.
  unfold LookupExistingLatest. intros He. pose proof (later_fold (List.filter (live_transfer p) l) None) as Hf.
  rewrite He in Hf. destruct Hf as [Hf|]; [|done]. by rewrite elem_of_List_filter in Hf.
Qed.

Lemma cancels_elem p l c :
  c ∈ LookupLiveCancels p l <-> c ∈ l /\ live_cancel p c = true.
Proof. unfold LookupLiveCancels. by rewrite merge_sort_Permutation, elem_of_List_filter. Qed.

Lemma no_live_relist tok p L s :
  no_live_attempt tok p L s ->
  no_live_attempt tok p (map AttemptSeq (LookupLiveCancels p (rows s))) s.
Proof.
  intros HK Htok. destruct (HK Htok) as [Hna _]. split; [done|]. intros c Hc Hl. right. left.
  apply elem_of_map. exists c. split; [by apply cancels_elem|done].
Qed.

Lemma no_live_init tok p s :
  LookupExistingLatest p (rows s) = None ->
  no_live_attempt tok p (map AttemptSeq (LookupLiveCancels p (rows s))) s.
Proof.
  intros He Htok. pose proof (later_fold (List.filter (live_transfer p) (rows s)) None) as Hf.
  unfold LookupExistingLatest in He. rewrite He in Hf. destruct Hf as [_ Hf]. split.
  - intros r Hr Hp Hc. destruct (abandoned r) eqn:Ha; [done|].
    assert (r ∈ List.filter (live_transfer p) (rows s)) as Hin.
    { apply elem_of_List_filter. split; [done|]. unfold live_transfer, of_payout, live.
      by rewrite Hc, Ha, Hp, Z.eqb_refl. }
    rewrite Hf in Hin. by apply elem_of_nil in Hin.
  - intros c Hc Hl. right. left. apply elem_of_map. exists c. split; [by apply cancels_elem|done].
Qed.

Lemma wp_processRow me conf bal row s :
  finality <= conf -> WP (Some (HolderToken me)) (processRow cfg me conf bal row) (fun _ _ => True) s.
Proof.
  intros Hc. unfold processRow. apply wp_read. intros s1 _ _ _. split; [|done].
  destruct (fence_error _); [done|]. destruct (Z.leb_spec (rr_ProviderCredits row) 0); [done|].
  destruct (Z.ltb_spec (PerPayoutCapBaseUnits cfg) (rr_ProviderCredits row)); [done|].
  apply wp_read. intros s2 _ HI2 _. split; [|done]. cbn zeta.
  destruct (LookupExistingLatest _ _) as [e|] eqn:He.
  - apply existing_elem in He as [Hin Hl]. pose proof (inv_envelope _ _ _ HI2 e Hin) as Henv.
    unfold live_transfer, of_payout, live in Hl. bool_hyps.
    assert (PayoutID e = rr_PayoutID row) as Hp by lia.
    assert (has_row e s2) as Hrow by (by exists e).
    destruct (envelope_parts _ Henv) as (raw & h & Hraw & Hh & Hlow & Hne & Hlen).
    destruct (confirmed e) eqn:Hcf.
    { apply wp_bind. eapply wp_true. rewrite Hh. apply wp_claim; [done|]. exists e. split_and!; try done.
      unfold live_transfer, of_payout, live. rewrite Hp, Z.eqb_refl. simpl.
      rewrite andb_true_iff, !negb_true_iff. done. }
    rewrite Hraw. change (default [] (Some raw)) with raw. rewrite (proj2 (Z.ltb_lt _ _) Hlen).
    unfold live. destruct (broadcast e) eqn:Hb; cbn [negb andb].
    + by apply wp_poll_balance.
    + destruct (abandoned e); [done|]. by apply wp_rebroadcastAndPoll.
  - apply (no_live_init (HolderToken me)) in He. revert He.
    generalize (map AttemptSeq (LookupLiveCancels (rr_PayoutID row) (rows s2))). intros L HK.
    apply wp_read. intros s3 Hr3 HI3 _. split; [|done].
    apply (stable_rely _ _ _ _ (stable_no_live _ _ _) Hr3), no_live_relist in HK.
    apply wp_bind. eapply wp_mono; [apply (wp_cancel_loop _ conf (rr_PayoutID row)); try done|].
    + intros c Hin. apply cancels_elem in Hin as [Hin Hl].
      unfold live_cancel, of_payout, live in Hl. bool_hyps.
      split_and!; [lia|by eapply inv_envelope|by exists c|done].
    + intros b s4 HK4. destruct b; [done|]. apply wp_allocate; [done|lia|auto].
Qed.

(** *** The cycle and the process of a runner *)

Lemma wp_row_loop me conf bal l c s :
  finality <= conf -> WP (Some (HolderToken me)) (row_loop cfg me conf bal l c) (fun _ _ => True) s.
Proof.
  intros Hc. revert bal c s. induction l as [|row l IH]; intros bal c s; [done|]. cbn [row_loop].
  apply wp_ask. intros s1 halted _ _ _ _. destruct halted; [done|].
  destruct (negb (is_some (rr_EffectiveAddress row))); [by apply IH|].
  apply wp_bind. eapply wp_mono; [by apply wp_processRow|].
  intros [bal' [o err]] s2 _. destruct err as [[]|]; [done|by apply IH|].
  destruct o; try done; by apply IH.
Qed.

(** *** Stale cancels *)

(** A change of the outbox. *)
Lemma wp_claim_stale a id s : WP a (ClaimAndEmitStaleOutbox id) (fun _ _ => True) s.
Proof.
  unfold ClaimAndEmitStaleOutbox. apply wp_tx. intros s1 _ HI _. split; [|done].
  intros x d Hc. destruct (claim_stale id _) as [r l] eqn:Hcl. injection Hc as <- <-.
  destruct (keep_rows a s1 ((sy_db s1) <| pd_outbox := l |>)) as [HI' Hg']; try done. by left.
Qed.

Lemma produce_keeps a c staleStarted runID s x d :
  INV s -> produce_tx c staleStarted runID (sy_db s) = (x, d) ->
  INV (set_db d s) /\ guar a s (set_db d s).
Proof.
  intros HI Hp. unfold produce_tx, mark_stale in Hp.
  destruct (_ =? 0); [injection Hp as <- <-; rewrite set_db_id; split; [done|by apply guar_refl]|].
  destruct (insert_stale _ _ _ _ _) as [next l]. injection Hp as <- <-.
  set (g := fun r => if markable (PayoutID c) (AttemptSeq c) r
     then r <| CancelReconfirmStalePagedAtUtc := Some staleStarted |> <| UpdatedAtUtc := staleStarted |> else r).
  apply (update_keeps s _ g); try done.
  - intros r _. unfold g. split_ifs; by constructor.
  - intros r. unfold g. by split_ifs.
  - intros r _. unfold g. by split_ifs.
  - intros r _. unfold g. split_ifs; auto.
Qed.

Lemma wp_produce_rows a limit staleStarted runID chunk produced s :
  WP a (produce_rows limit staleStarted runID chunk produced) (fun _ _ => True) s.
Proof.
  revert produced s. induction chunk as [|c chunk IH]; intros produced s; [done|]. cbn [produce_rows].
  apply wp_ask. intros s1 cancelled _ _ _ _. destruct cancelled; [done|].
  destruct ((0 <? limit) && (limit <=? produced)); [done|].
  destruct (TxHashCol c) as [[|ch h]|]; [apply IH| |apply IH].
  apply wp_ask. intros s2 recs _ _ _ _. destruct recs as [[|[]] [|[]]]; try apply IH.
  apply wp_tx. intros s3 _ HI _. split; [|apply IH]. intros x d Hp.
  destruct (produce_keeps a _ _ _ _ _ _ HI Hp) as [HI' Hg']. split_and!; [done|done|].
  destruct x; [|apply IH]. apply wp_read. intros s4 _ _ _. split; [|apply IH].
  destruct (period_id _ _ _ _) as [id|]; [|apply IH]. destruct (0 <? id); [|apply IH].
  apply wp_bind. eapply wp_mono; [apply wp_claim_stale|]. intros _ s5 _. apply IH.
Qed.

Lemma wp_chunk_loop a fuel cutoff limit staleStarted runID cursor scanned produced s :
  WP a (chunk_loop fuel cutoff limit staleStarted runID cursor scanned produced) (fun _ _ => True) s.
Proof.
  revert cursor scanned produced s. induction fuel as [|fuel IH]; intros cursor scanned produced s; [done|].
  cbn [chunk_loop]. destruct (staleOutboxScanCeiling <=? scanned); [done|]. cbn zeta.
  apply wp_read. intros s1 _ _ _. split; [|done]. destruct (last _) as [c|]; [|done].
  apply wp_bind. eapply wp_mono; [apply wp_produce_rows|]. intros [[] n] s2 _; [done|done|].
  destruct (_ <? _); [done|]. apply IH.
Qed.

Lemma wp_reapStaleOutbox a staleAge s : WP a (reapStaleOutbox staleAge) (fun _ _ => True) s.
Proof.
  unfold reapStaleOutbox. apply wp_ask. intros s1 now _ _ _ _. apply wp_read. intros s2 _ _ _.
  split; [|done].
  generalize (ListUnemittedStaleOutboxOlderThan (formatUTC (now - staleAge)) (pd_outbox (sy_db s2))) as l.
  intros l. generalize 0. revert s2. induction l as [|r l IH]; intros s2 reaped; [done|].
  cbn [reap_rows]. apply wp_ask. intros s3 cancelled _ _ _ _. destruct cancelled; [done|].
  apply wp_bind. eapply wp_mono; [apply wp_claim_stale|]. intros row s4 _. apply IH.
Qed.

Lemma wp_RunOnce me s : WP (Some (HolderToken me)) (RunOnce cfg me) (fun _ _ => True) s.
Proof.
  unfold RunOnce. apply wp_ask. intros s1 halted _ _ _ _. destruct halted; [done|].
  apply wp_ask. intros s2 snap _ _ _ Hal. simpl in Hal. apply wp_ask. intros s2' runID _ _ _ _.
  apply wp_ask. intros s3 now _ _ _ _. apply wp_bind.
  eapply wp_mono; [apply wp_chunk_loop|]. intros _ s3' _.
  apply wp_read. intros s4 _ _ _. split; [|done].
  apply wp_ask. intros s5 bal _ _ _ _. apply wp_bind. eapply wp_mono; [apply wp_row_loop; lia|done].
Qed.

Lemma wp_tick_loop me n s : WP (Some (HolderToken me)) (tick_loop cfg me n) (fun _ _ => True) s.
Proof.
  revert s. induction n as [|n IH]; intros s; [done|]. cbn [tick_loop].
  apply wp_ask. intros s1 [] _ _ _ _; [done| |apply wp_bind; eapply wp_mono; [apply wp_RunOnce|auto]].
  apply wp_ask. intros s2 now _ _ _ _. apply wp_tx. intros s3 _ HI _. split; [|done].
  intros x d Hh. destruct (Heartbeat me now (pd_lease (sy_db s3))) as [ok r] eqn:Hb. injection Hh as <- <-.
  destruct (keep_rows (Some (HolderToken me)) s3 ((sy_db s3) <| pd_lease := r |>)) as [HI' Hg']; try done.
  { intros tok. unfold Heartbeat in Hb. unfold lease_token. simpl.
    destruct (pd_lease (sy_db s3)) as [old|]; [|by simplify_eq].
    destruct (String.eqb _ _); simplify_eq; auto. }
  split_and!; [done|done|]. destruct ok; [apply IH|done].
Qed.

Lemma wp_runner_process token host pid n s :
  WP (Some token) (runner_process cfg token host pid n) (fun _ _ => True) s.
Proof.
  unfold runner_process. apply wp_ask. intros s1 ca _ _ _ _. apply wp_ask. intros s2 cb _ _ _ _.
  destruct ca as [|va]; [done|]. destruct cb as [|vb]; [done|].
  destruct (negb ((va =? _) && (vb =? _))); [done|].
  apply wp_ask. intros s3 na _ _ _ _. apply wp_ask. intros s4 nb _ _ _ _.
  destruct (ColdStartNonceSync na nb) as [chosen|]; [|done].
  apply wp_ask. intros s5 now _ _ _ _. apply wp_tx. intros s6 _ HI6 _. split; [|done].
  intros synced d Hup.
  destruct (keep_rows (Some token) s6 d) as [HI' Hg']; try done.
  1-3: destruct (UpsertNonceCursor _ _ _ _ _ _); simplify_eq; try done; by left.
  split_and!; [done|done|]. generalize (set_db d s6). clear d Hup HI' Hg' HI6 s6. intros s6. destruct synced; [|done].
  apply wp_ask. intros s7 t _ _ _ _. cbn zeta. apply wp_tx. intros s8 _ HI _. split; [|done].
  intros x d Ha. destruct (Acquire _ _ _) as [r l] eqn:Hacq. injection Ha as <- <-.
  destruct (keep_rows (Some token) s8 ((sy_db s8) <| pd_lease := l |>)) as [HI' Hg']; try done.
  { intros tok. unfold Acquire in Hacq. unfold lease_token. simpl.
    destruct (pd_lease (sy_db s8)) as [old|]; [|simplify_eq; simpl; naive_solver].
    destruct (parse_rfc3339 _); [|simplify_eq; auto].
    destruct (_ <? _); simplify_eq; simpl; naive_solver. }
  split_and!; [done|done|]. destruct r; [|done|done]. clear Hacq HI' Hg' HI.
  set (me := mkLeaseState token host pid t).
  apply wp_bind. unfold loop. apply wp_bind. eapply wp_mono; [apply (wp_RunOnce me)|]. intros _ s9 _.
  eapply wp_mono; [apply (wp_tick_loop me)|]. intros _ s10 _.
  apply wp_ask. intros s11 clean _ _ _ _. destruct clean; [|done].
  apply wp_tx. intros s12 _ HI _. split; [|done]. intros x d [= <- <-].
  destruct (keep_rows (Some token) s12 ((sy_db s12) <| pd_lease := Release me (pd_lease (sy_db s12)) |>))
    as [HI' Hg']; try done.
  intros tok. unfold lease_token, Release. simpl. destruct (SelfFence _ _); [done|by left].
Qed.

(** *** Abandon requests that send a cancel *)
Lemma wp_ServeAbandon caps req key calls s :
  ab_BroadcastCancelSelfTransfer req = true ->
  WP None (ServeAbandon cfg caps req key calls) (fun _ _ => True) s.
Proof.
  intros Hreq. unfold ServeAbandon. case_match; [done|]. destruct (String.eqb key ""); [done|].
  apply wp_ask. intros s1 c0 _ _ _ _. apply wp_ask. intros s2 c1 _ _ _ _.
  destruct (allowRate _ _ _ _) as [calls' []]; [|done]. cbn [negb]. cbn zeta.
  destruct (CancelMaxGasNativeWei caps <? _); [done|].
  apply wp_ask. intros s3 t0 _ _ _ _. apply wp_ask. intros s4 t1 _ _ _ _.
  apply wp_ask. intros s5 t2 _ _ _ _. apply wp_ask. intros s6 signer _ _ _ _.
  apply wp_tx. intros s7 _ HI _. split; [|done]. intros x d Ha.
  destruct (abandon_keeps cfg None _ _ _ _ _ _ _ _ _ _ HI Hreq Ha) as [HI' Hg'].
  split_and!; [done|done|]. clear HI HI' Hg' Ha. destruct x as [refused|[c|]]; [done| |done].
  apply wp_ask. intros s8 errs _ _ _ _. destruct (acceptedAny errs); [|done].
  apply wp_tx. intros s9 _ HI _. split; [|done]. intros x d' Hs.
  destruct (stamp_keeps None _ _ _ _ _ _ HI Hs). split_and!; done.
Qed.

(** *** The reorg poller: the receipt of a confirmed row is found *)
Lemma wp_reorg_loop a l s :
  (forall r, r ∈ l -> exists raw h, TxHashCol r = Some h /\ GoStr.ToLower h = TxHash raw /\ has_final raw s) ->
  WP a (reorg_loop l) (fun _ _ => True) s.
Proof.
  revert s. induction l as [|r l IH]; intros s Hl; [done|]. cbn [reorg_loop].
  destruct (Hl r (list_elem_of_here _ _)) as (raw & h & -> & Hh & Hfin).
  apply wp_ask. intros s1 recs Hr1 _ _ Hal. cbn [after].
  apply (stable_rely _ _ _ _ (stable_has_final a raw) Hr1) in Hfin.
  assert (WP a (reorg_loop l) (fun _ _ => True) s1) as Hrest.
  { apply IH. intros r' Hr'. destruct (Hl r' (list_elem_of_further _ _ _ Hr')) as (raw' & h' & ? & ? & Hf').
    exists raw', h'. split_and!; try done. exact (stable_rely _ _ _ _ (stable_has_final a raw') Hr1 Hf'). }
  assert (mined_hash (GoStr.ToLower h) s1 = true) as Hm.
  { apply existsb_elem. exists raw. split; [done|]. rewrite Hh. apply String.eqb_refl. }
  destruct recs as [[|[]] [|[]]]; try done. exfalso. simpl in Hal. rewrite Hm in Hal.
  by destruct (honest primary), (honest secondary).
Qed.

Lemma wp_ReorgPoller_Run window s : WP None (ReorgPoller_Run window) (fun _ _ => True) s.
Proof.
  unfold ReorgPoller_Run. apply wp_ask. intros s1 now _ _ _ _.
  apply wp_read. intros s2 _ HI _. split; [|done]. apply wp_reorg_loop.
  intros r Hr. unfold reorg_rows in Hr. rewrite merge_sort_Permutation in Hr.
  apply elem_of_List_filter in Hr as [Hr Hc]. bool_hyps.
  destruct (inv_confirmed _ _ _ HI r Hr) as (raw & Hraw & Hfin).
  { unfold confirmed, text_since in *. by destruct (ConfirmedAtUtc r). }
  destruct (envelope_parts _ (inv_envelope _ _ _ HI r Hr)) as (raw' & h & Hraw' & Hh & Hlow & _).
  exists raw, h. split_and!; try done. congruence.
Qed.
End Rules.

(** ** The whole system *)

Section Adequacy.
Context `{EvmLib} (cfg : RunnerConfig) (honest : side -> bool) (finality : Z).

(** The processes: runners, abandon requests that send a cancel, reorg polls,
    reaper passes. *)
Inductive started : thread -> Prop :=
| started_runner token host pid n :
    started (mkThread (Some token) (runner_process cfg token host pid n))
| started_abandon caps req key calls :
    ab_BroadcastCancelSelfTransfer req = true ->
    started (mkThread None (prog_bind (ServeAbandon cfg caps req key calls) (fun _ => Ret tt)))
| started_reorg window : started (mkThread None (ReorgPoller_Run window))
| started_reaper staleAge :
    started (mkThread None (prog_bind (reapStaleOutbox staleAge) (fun _ => Ret tt))).

(** Runners draw different tokens. *)
Definition distinct_tokens (ts : list thread) : Prop :=
  forall i j t t' tok, ts !! i = Some t -> ts !! j = Some t' ->
    th_actor t = Some tok -> th_actor t' = Some tok -> i = j.

(** No attempt yet, nothing claimed, one final transaction per nonce. *)
Record initial (s : Sys) : Prop := {
  initial_rows : rows s = [];
  initial_claims : forall p, p ∈ lpr (pd_ledger (sy_db s)) -> ~ paid_in_usdc p;
  initial_final : forall raw1 raw2 n, raw1 ∈ sy_final s -> raw2 ∈ sy_final s ->
    nonce_of raw1 = Some n -> nonce_of raw2 = Some n -> raw1 = raw2;
}.

Definition reachable (c : Sys * list thread) : Prop :=
  exists s0 ts0, initial s0 /\ Forall started ts0 /\ distinct_tokens ts0
    /\ sys_run honest finality (s0, ts0) c.

Abbreviation cap := (PerPayoutCapBaseUnits cfg).
Abbreviation WPT a p s := (wp cap honest finality a p (fun _ _ => True) s).

Context (one_honest : honest primary || honest secondary = true).

Lemma started_wp t s : started t -> WPT (th_actor t) (th_prog t) s.
Proof.
  intros [token host pid n|caps req key calls Hreq|window|staleAge]; cbn [th_actor th_prog].
  - exact (wp_runner_process cap honest finality one_honest cfg eq_refl token host pid n s).
  - apply wp_bind. eapply wp_mono; [exact (wp_ServeAbandon cap honest finality cfg caps req key calls s Hreq)|done].
  - exact (wp_ReorgPoller_Run cap honest finality one_honest window s).
  - apply wp_bind. eapply wp_mono; [exact (wp_reapStaleOutbox cap honest finality None staleAge s)|done].
Qed.

(** A process is not disturbed by the steps of others. *)
Lemma wp_rely a (p : prog unit) s s' : rely a s s' -> WPT a p s -> WPT a p s'.
Proof.
  intros Hr. destruct p as [r|A f k|q k]; simpl; [done| |].
  - intros Hp s1 Hr1. apply Hp. by etrans.
  - intros Hp s1 Hr1. apply Hp. by etrans.
Qed.

Record holds (c : Sys * list thread) : Prop := {
  holds_inv : Inv cap c.1;
  holds_free : collision_free c.1;
  holds_tokens : distinct_tokens c.2;
  holds_wp : forall i t, c.2 !! i = Some t -> WPT (th_actor t) (th_prog t) c.1;
}.

Lemma guar_rely a b s s' :
  (forall tok, a = Some tok -> b <> Some tok) -> guar b s s' -> rely a s s'.
Proof. intros Hb Hg. apply rtc_once. eauto. Qed.

(** A step of the process [i] to the state [s'] and the rest [p'] of its program. *)
Lemma thread_step s ts i a p p' s' :
  holds (s, ts) -> ts !! i = Some (mkThread a p) ->
  Inv cap s' -> guar a s s' -> WPT a p' s' -> collision_free s' ->
  holds (s', <[i := mkThread a p']> ts).
Proof.
  intros [_ _ Htok Hwp] Hi HI' Hg Hp' Hcf. simpl in *.
  assert (i < length ts)%nat as Hlt by (by eapply lookup_lt_Some).
  assert (forall j t, <[i := mkThread a p']> ts !! j = Some t ->
    exists t0, ts !! j = Some t0 /\ th_actor t0 = th_actor t /\ (j = i \/ t0 = t)) as Hold.
  { intros j t Hj. destruct (decide (j = i)) as [->|Hne].
    - rewrite list_lookup_insert_eq in Hj by done. simplify_eq. eauto.
    - rewrite list_lookup_insert_ne in Hj by done. eauto. }
  constructor; simpl; [done|done| |].
  - intros j1 j2 t1 t2 tok H1 H2 A1 A2. apply Hold in H1 as (? & ? & ? & _), H2 as (? & ? & ? & _).
    eapply (Htok _ _ _ _ tok); [done|done| |]; congruence.
  - intros j t Hj. destruct (decide (j = i)) as [->|Hne].
    + rewrite list_lookup_insert_eq in Hj by done. by simplify_eq.
    + rewrite list_lookup_insert_ne in Hj by done. eapply wp_rely; [|by eapply Hwp].
      eapply guar_rely; [|done]. intros tok Ht Ha. apply Hne.
      by eapply (Htok j i t (mkThread a p)).
Qed.

(** A step of no process. *)
Lemma world_step s ts s' :
  holds (s, ts) -> Inv cap s' -> guar None s s' -> collision_free s' -> holds (s', ts).
Proof.
  intros [_ _ Htok Hwp] HI' Hg Hcf. constructor; simpl in *; [done|done|done|].
  intros i t Hi. apply (wp_rely _ _ s); [by apply (guar_rely _ None)|by eapply Hwp].
Qed.

Lemma mine_keeps s raw n :
  Inv cap s -> nonce_of raw = Some n ->
  (forall raw', raw' ∈ sy_final s -> nonce_of raw' <> Some n) ->
  Inv cap (s <| sy_final := raw :: sy_final s |>) /\ guar None s (s <| sy_final := raw :: sy_final s |>).
Proof.
  intros [? ? ? Icf ? ? ? Ifi] Hn Hfree. split; constructor; simpl; try done.
  - intros r Hr Hc. destruct (Icf r Hr Hc) as (raw' & ? & ?). exists raw'. simpl.
    split; [done|by apply list_elem_of_further].
  - intros raw1 raw2 m H1 H2 Hm1 Hm2.
    apply elem_of_cons in H1 as [->|H1], H2 as [->|H2]; [done| | |by eapply Ifi]; exfalso.
    + apply (Hfree raw2); [done|congruence].
    + apply (Hfree raw1); [done|congruence].
  - intros raw' ?. by apply list_elem_of_further.
  - intros r Hr. by exists r.
  - intros r Hr. left. by exists r.
  - auto.
Qed.

Lemma others_keeps s l addrs :
  Inv cap s -> others_keep (pd_ledger (sy_db s)) l ->
  let s' := set_db ((sy_db s) <| pd_ledger := l |> <| pd_addresses := addrs |>) s in
  Inv cap s' /\ guar None s s'.
Proof.
  intros [? ? ? ? ? ? Icm ?] Ho. split; [|by apply guar_same_rows].
  constructor; try done. simpl. intros p' Hp' Hu.
  destruct (Ho p' Hp' Hu) as (p & Hp & Hpu & <- & <-).
  destruct (Icm p Hp Hpu) as (r & ?). by exists r.
Qed.

Lemma holds_step c c' : holds c -> sys_step honest finality c c' -> collision_free c'.1 -> holds c'.
Proof.
  intros Hh Hs Hcf'. pose proof (holds_inv _ Hh) as HI. pose proof (holds_free _ Hh) as Hcf.
  destruct Hs as [s ts i a A f k x d Hi Hf|s ts i a A f k Hi|s ts i a q k x Hi Hal|s ts raw n _ Hn Hfree|s ts l addrs Ho];
    simpl in *.
  - destruct (holds_wp _ Hh i _ Hi s (rtc_refl _ _) HI Hcf) as [Hx _].
    destruct (Hx x d Hf) as (? & ? & ?). by eapply thread_step.
  - destruct (holds_wp _ Hh i _ Hi s (rtc_refl _ _) HI Hcf) as [_ Hn].
    eapply thread_step; [done|done|done|by apply guar_refl|done|done].
  - pose proof (holds_wp _ Hh i _ Hi s (rtc_refl _ _) HI Hcf x Hal) as Hp.
    eapply thread_step; [done|done|by apply Inv_after|by apply guar_after|done|done].
  - destruct (mine_keeps s raw n HI Hn Hfree). by eapply world_step.
  - destruct (others_keeps s l addrs HI Ho). by eapply world_step.
Qed.

Lemma initial_inv s : initial s -> Inv cap s.
Proof.
  intros [Hr Hc Hf]. constructor; try done; rewrite ?Hr; set_solver.
Qed.

Lemma reachable_inv c : reachable c -> Inv cap c.1.
Proof.
  intros (s0 & ts0 & Hi & Hst & Htok & Hrun).
  assert (holds (s0, ts0)) as Hh.
  { constructor; simpl; [by apply initial_inv| |done|].
    - intros r raw0 raw Hr. rewrite (initial_rows _ Hi) in Hr. by apply elem_of_nil in Hr.
    - intros i t Ht. apply started_wp. by eapply Forall_lookup_1. }
  apply holds_inv. revert Hh. induction Hrun as [|c1 c2 c3 [Hs Hcf] _ IH]; [done|].
  intros Hh. apply IH. by eapply holds_step.
Qed.

(** The cancel that took the nonce of a row keeps the row from being mined. *)
Lemma cancelled_not_mined s r :
  Inv cap s -> r ∈ rows s -> IsCancelSelfTransfer r = false ->
  confirmed_cancel_at s (PayoutID r) (AttNonce r) -> ~ mined s r.
Proof.
  intros HI Hr Hcan (c & Hc & Hl & Hcf & Hn) (raw & Hraw & Hin).
  destruct (inv_confirmed _ _ _ HI c Hc Hcf) as (rawc & Hrawc & Hinc).
  destruct (inv_envelope _ _ _ HI r Hr) as (raw1 & h1 & t1 & y1 & ? & ? & H1 & _ & _ & Hd1 & Hn1 & Hv1).
  destruct (inv_envelope _ _ _ HI c Hc) as (raw2 & h2 & t2 & y2 & ? & ? & H2 & _ & _ & Hd2 & Hn2 & Hv2).
  unfold live_cancel in Hl. bool_hyps. rewrite Hcan in Hv1. destruct Hv1 as [Hv1 _].
  rewrite (inv_final _ _ _ HI raw rawc (AttNonce r mod uint64_modulus)) in Hraw; try done.
  - replace (IsCancelSelfTransfer c) with true in Hv2 by congruence. simplify_eq.
    rewrite Hd1 in Hd2. injection Hd2 as <- _ _ _. lia.
  - unfold nonce_of. simplify_eq. rewrite Hd1. congruence.
  - unfold nonce_of. simplify_eq. rewrite Hd2. congruence.
Qed.

(** Claim C2. No payout is paid twice. In every state that runners, abandon requests with a
    cancel, reorg polls and reaper passes can reach together, under any interleaving,
    failed transactions, crashes, takeovers of the lease and a lying RPC node, two
    different attempts to pay one payout are never both final on the chain. *)
Theorem no_double_payment s ts i j r1 r2 :
  reachable (s, ts) -> rows s !! i = Some r1 -> rows s !! j = Some r2 -> i <> j ->
  PayoutID r1 = PayoutID r2 -> IsCancelSelfTransfer r1 = false -> IsCancelSelfTransfer r2 = false ->
  mined s r1 -> mined s r2 -> False.
Proof.
  intros Hreach Hi Hj Hij Hp Hc1 Hc2 Hm1 Hm2. apply reachable_inv in Hreach. simpl in Hreach.
  pose proof (list_elem_of_lookup_2 _ _ _ Hi). pose proof (list_elem_of_lookup_2 _ _ _ Hj).
  destruct (inv_paid_once _ _ _ Hreach i j r1 r2); try done.
  - by apply (cancelled_not_mined s r1).
  - by apply (cancelled_not_mined s r2).
Qed.

(** Claim C3. A payout that is consumed in USDC was paid: the hash of the claim is the hash of an
    attempt of the payout whose transaction is final, and the transaction transfers the
    amount of the attempt, at most the cap per payout, to the address of the attempt. *)
Theorem claimed_payout_was_transferred s ts p :
  reachable (s, ts) -> p ∈ lpr (pd_ledger (sy_db s)) -> paid_in_usdc p ->
  exists r raw h t y sr ss,
    r ∈ rows s /\ PayoutID r = lpr_id p /\ lpr_payout_external_id p = Some h
    /\ raw ∈ sy_final s /\ TxHash raw = GoStr.ToLower h
    /\ DecodeSignedEIP1559 raw = Done (t, y, sr, ss) /\ pays t r
    /\ 0 < AmountBaseUnits r <= cap.
Proof.
  intros Hreach Hp Hu. apply reachable_inv in Hreach. simpl in Hreach.
  destruct (inv_claims _ _ _ Hreach p Hp Hu) as (r & Hr & Hl & Hcf & Hh).
  destruct (inv_confirmed _ _ _ Hreach r Hr Hcf) as (raw & Hraw & Hin).
  destruct (inv_envelope _ _ _ Hreach r Hr) as (raw' & h & t & y & sr & ss & H1 & H2 & H3 & Hd & _ & Hv).
  unfold live_transfer, of_payout in Hl. bool_hyps. simplify_eq.
  assert (IsCancelSelfTransfer r = false) as Hcan by congruence. rewrite Hcan in Hv.
  exists r, raw, h, t, y, sr, ss. split_and!; try done; try lia; try congruence;
    by eapply (inv_amount _ _ _ Hreach).
Qed.
End Adequacy.

(** ** Executions that can be computed *)

Section Execution.
Context `{EvmLib} (honest : side -> bool) (finality : Z).

(** One event of a process, its questions answered by [o], or the mining of the [k]-th
    envelope that was sent. *)
Inductive move := Step (i : nat) (o : forall q, Answer q) | Mine (k : nat).

(** Every envelope in use is one of [known]. *)
Definition among (known : list bytes) (s : Sys) : bool :=
  forallb (fun r => match RawSignedTx r with Some raw => existsb (bytes_eqb raw) known | None => true end)
    (rows s)
  && forallb (fun raw => existsb (bytes_eqb raw) known) (sy_final s).

Definition exec_move (m : move) (c : Sys * list thread) : option (Sys * list thread) :=
  let '(s, ts) := c in
  match m with
  | Step i o =>
      match ts !! i with
      | Some (mkThread a (Tx f k)) =>
          let '(x, d) := f (sy_db s) in Some (set_db d s, <[i := mkThread a (k (Some x))]> ts)
      | Some (mkThread a (Ask q k)) =>
          if allowed honest finality s q (o q)
          then Some (after s q, <[i := mkThread a (k (o q))]> ts) else None
      | _ => None
      end
  | Mine k =>
      raw ← sy_sent s !! k;
      n ← nonce_of raw;
      if forallb (fun raw' => negb (bool_decide (nonce_of raw' = Some n))) (sy_final s)
      then Some (s <| sy_final := raw :: sy_final s |>, ts) else None
  end.

Fixpoint exec (ok : Sys -> bool) (ms : list move) (c : Sys * list thread) : option (Sys * list thread) :=
  match ms with
  | [] => Some c
  | m :: ms => c' ← exec_move m c; if ok c'.1 then exec ok ms c' else None
  end.

Lemma among_sound known s :
  NoDup (map TxHash known) -> among known s = true -> collision_free s.
Proof.
  intros Hnd Ha r raw0 raw Hr Hraw Hin Heq. unfold among in Ha. apply andb_true_iff in Ha as [Hrs Hfs].
  rewrite Forall_forallb, Forall_forall in Hrs. rewrite Forall_forallb, Forall_forall in Hfs. specialize (Hrs r Hr). rewrite Hraw in Hrs.
  specialize (Hfs raw Hin). apply existsb_elem in Hrs as (x & Hx & Ex), Hfs as (y & Hy & Ey).
  unfold bytes_eqb in Ex, Ey. bool_hyps. subst.
  apply list_elem_of_lookup in Hx as [i Hi], Hy as [j Hj].
  assert (i = j) as ->; [|congruence].
  eapply NoDup_lookup; [exact Hnd| |]; change (map ?f ?l) with (f <$> l); rewrite list_lookup_fmap.
  - rewrite Hi. reflexivity.
  - rewrite Hj. simpl. by rewrite Heq.
Qed.

Lemma exec_move_sound m c c' : exec_move m c = Some c' -> sys_step honest finality c c'.
Proof.
  destruct c as [s ts], m as [i o|k]; simpl.
  - destruct (ts !! i) as [[a [r|A f k|q k]]|] eqn:Hi; try done.
    + destruct (f (sy_db s)) as [x d] eqn:Hf. intros [= <-]. by eapply step_tx.
    + destruct (allowed _ _ _ _ _) eqn:Hal; [|done]. intros [= <-]. by eapply step_ask.
  - destruct (sy_sent s !! k) as [raw|] eqn:Hk; [|done]. simpl.
    destruct (nonce_of raw) as [n|] eqn:Hn; [|done]. simpl.
    destruct (forallb _ _) eqn:Hall; [|done]. intros [= <-]. rewrite Forall_forallb, Forall_forall in Hall.
    eapply step_mine; [by eapply list_elem_of_lookup_2|done|].
    intros raw' Hin Heq. specialize (Hall raw' Hin). bool_hyps. done.
Qed.

Lemma exec_sound ok ms c c' :
  (forall s, ok s = true -> collision_free s) -> exec ok ms c = Some c' ->
  sys_run honest finality c c'.
Proof.
  intros Hok. revert c. induction ms as [|m ms IH]; simpl; intros c Hx; [by simplify_eq|].
  destruct (exec_move m c) as [c1|] eqn:Hm; [|done]. simpl in Hx.
  destruct (ok c1.1) eqn:Hcf; [|done].
  eapply rtc_l; [split; [by eapply exec_move_sound|by apply Hok]|by apply IH].
Qed.
End Execution.

(** A payout whose first transaction is not mined: the runner stops, the operator abandons
    the attempt with a cancel, the cancel is mined, and a second runner takes the lease
    over, sees the cancel confirmed and pays with a fresh attempt. *)
Module PayoutExample.
Import EvmExample.

Definition cfg : RunnerConfig := mkRunnerConfig hot 1000000 5000000 (60 * second) 1.
Definition honest (s : side) : bool := match s with primary => true | secondary => false end.
Definition t0 : Z := 1785000000 * second.
Definition t1 : Z := t0 + 3600 * second.

Definition alice : AddressRow :=
  mkAddressRow "alice" "base-mainnet" payee true None None "2026-07-01T00:00:00Z" hot.
Definition ledger : Ledger := Eval vm_compute in Sample.settled.
Definition db : PayDB := mkPayDB ledger [alice] [] None ∅ None [] 1.
Definition start : Sys := mkSys db [] [].

Definition caps : AbandonCaps := mkAbandonCaps (F64.of_Z 5) (10 ^ 18) (10 ^ 18) 10.
Definition req : AbandonRequest :=
  mkAbandonRequest 1 1 true true (F64.of_Z 1) "stuck".
Definition threads : list thread :=
  [mkThread (Some "token-a") (runner_process cfg "token-a" "host-a" 11 3);
   mkThread None (prog_bind (ServeAbandon cfg caps req "key-1" []) (fun _ => Ret tt));
   mkThread (Some "token-b") (runner_process cfg "token-b" "host-b" 12 3)].

(** The answers of the world: the clock, the count of the wallet, a poll round and a
    transaction. *)
Definition world (now count : Z) (round : PollRound) (t : option RpcTransaction) (q : Query) : Answer q :=
  match q with
  | QNow => now
  | QSqlNow => formatUTC now
  | QUuid => "run"
  | QHalted | QCtxDone => false
  | QBefore => true
  | QTuning => mkTuning 12 10 (600 * second)
  | QTick => TickStop
  | QBalance => None
  | QChainID _ => inr BaseMainnetChainID
  | QCount _ => inr count
  | QSigner => fun u => match SignTx toy_sign false false u with Done x => Some x | _ => None end
  | QSend _ => (None, None)
  | QRound _ => round
  | QReceipts _ => (inr None, inr None)
  | QTransaction _ _ => inr t
  end.

Definition unseen : PollRound := mkPollRound (inr None) (inr None) (inr 100) (inr 100).
Definition seen (r : RpcReceipt) : PollRound :=
  mkPollRound (inr (Some r)) (inr (Some r)) (inr 200) (inr 200).

Definition cancel_receipt : RpcReceipt := mkRpcReceipt "0xc" "0xb" 100 1 hot 21000 [].
Definition cancel_view : RpcTransaction := mkRpcTransaction hot hot [] "0x1".

Definition amount : Z :=
  default 0 (lpr_provider_credits <$> List.find (has_id 1) (lpr (pd_ledger db))).
Definition topic (a : string) : string := match topic_of a with Done t => t | _ => "" end.
Definition transfer_receipt : RpcReceipt :=
  mkRpcReceipt "0xd" "0xe" 150 1 usdcLower 60000
    [mkReceiptLog usdcLower [transferTopic; topic hot; topic payee] (be_bytes 32 amount)].
Definition transfer_view : RpcTransaction :=
  mkRpcTransaction hot usdcLower
    (match USDCTransferCalldata payee amount with Done d => d | _ => [] end) "0x0".

Definition steps (i n : nat) (o : forall q, Answer q) : list move := repeat (Step i o) n.

Definition schedule : list move :=
  steps 0 33 (world t0 5 unseen None) ++ steps 1 9 (world t1 5 unseen None) ++ [Mine 0]
  ++ steps 2 32 (world (t1 + 300 * second) 6 (seen cancel_receipt) (Some cancel_view)) ++ [Mine 0]
  ++ steps 2 14 (world (t1 + 600 * second) 6 (seen transfer_receipt) (Some transfer_view)).

Lemma start_initial : initial start.
Proof.
  constructor; [reflexivity| |intros ? ? ? Hin; by apply elem_of_nil in Hin].
  intros p Hp [Hs _]. change (p ∈ lpr ledger) in Hp.
  assert (Forall (fun p => lpr_status p <> consumed) (lpr ledger)) as Hf
    by (repeat constructor; discriminate).
  rewrite Forall_forall in Hf. exact (Hf p Hp Hs).
Qed.

Lemma threads_started : Forall (started cfg) threads.
Proof. by repeat constructor. Qed.

Lemma threads_tokens : distinct_tokens threads.
Proof.
  intros i j t t' tok Hi Hj Ha Hb.
  assert (forall k u, threads !! k = Some u ->
    [Some "token-a"; None; Some "token-b"] !! k = Some (th_actor u)) as Hk.
  { intros k u Hu. change ((th_actor <$> threads) !! k = Some (th_actor u)).
    rewrite list_lookup_fmap, Hu. reflexivity. }
  apply Hk in Hi, Hj. rewrite Ha in Hi. rewrite Hb in Hj. clear Hk Ha Hb t t'.
  destruct i as [|[|[|]]], j as [|[|[|]]]; by simplify_eq/=.
Qed.

(** The state after a schedule, and the envelopes of its rows. *)
Definition state_after (ms : list move) (ts : list thread) : Sys :=
  default start (fst <$> exec honest 12 (fun _ => true) ms (start, ts)).
Definition envelopes (s : Sys) : list bytes := omap RawSignedTx (rows s).

Lemma exec_state ms ts s :
  bool_decide (NoDup (map TxHash (envelopes s))) = true ->
  fst <$> exec honest 12 (among (envelopes s)) ms (start, ts) = Some s ->
  exists ts', sys_run honest 12 (start, ts) (s, ts').
Proof.
  intros Hnd Hx. apply bool_decide_eq_true_1 in Hnd.
  destruct (exec _ _ _ ms (start, ts)) as [[s' ts']|] eqn:Hm; [|done].
  injection Hx as ->. exists ts'. eapply exec_sound; [|exact Hm]. intros s1. by apply among_sound.
Qed.

Definition paid_state : Sys :=
  Eval vm_compute in state_after schedule threads.

Lemma paid_state_reachable : exists ts, reachable cfg honest 12 (paid_state, ts).
Proof.
  destruct (exec_state schedule threads paid_state) as [ts Hrun];
    [vm_compute; reflexivity|vm_compute; reflexivity|].
  exists ts, start, threads.
  split_and!; [apply start_initial|apply threads_started|apply threads_tokens|exact Hrun].
Qed.

(** An abandon without a cancel leaves the first transaction in the mempool: its nonce is
    in the pending count, the fresh attempt takes the next one, and both are mined. *)
Definition threads_no_cancel : list thread :=
  [mkThread (Some "token-a") (runner_process cfg "token-a" "host-a" 11 3);
   mkThread None (prog_bind (ServeAbandon cfg caps
     (mkAbandonRequest 1 1 false true (F64.of_Z 1) "stuck") "key-1" []) (fun _ => Ret tt));
   mkThread (Some "token-b") (runner_process cfg "token-b" "host-b" 12 3)].

Definition schedule_no_cancel : list move :=
  steps 0 33 (world t0 5 unseen None) ++ steps 1 7 (world t1 5 unseen None)
  ++ steps 2 27 (world (t1 + 300 * second) 6 unseen None) ++ [Mine 0; Mine 1].

Definition twice_state : Sys :=
  Eval vm_compute in state_after schedule_no_cancel threads_no_cancel.

Example abandon_without_cancel_pays_twice :
  exists ts r1 r2,
    sys_run honest 12 (start, threads_no_cancel) (twice_state, ts) /\ rows twice_state = [r1; r2]
    /\ PayoutID r1 = PayoutID r2 /\ AmountBaseUnits r1 = 5525 /\ AmountBaseUnits r2 = 5525
    /\ mined twice_state r1 /\ mined twice_state r2.
Proof.
  destruct (exec_state schedule_no_cancel threads_no_cancel twice_state) as [ts Hrun];
    [vm_compute; reflexivity|vm_compute; reflexivity|].
  exists ts. do 2 eexists. split; [exact Hrun|]. split; [reflexivity|]. split_and!; try reflexivity.
  - eexists. split; [reflexivity|]. apply list_elem_of_here.
  - eexists. split; [reflexivity|]. apply list_elem_of_further, list_elem_of_here.
Qed.

(** The budget of cancel gas counts the gas units of a confirmed cancel, not its wei. *)
Example confirmed_cancel_leaves_gas_budget :
  exists c, rows paid_state !! 1%nat = Some c /\ GasReservedNativeWei c = Some 462000000000000
    /\ sumCancelGasLast24h hot (formatUTC (t1 - day)) (rows paid_state) = Some 21000.
Proof. eexists. split_and!; [reflexivity|reflexivity|vm_compute; reflexivity]. Qed.
End PayoutExample.
Import EvmExample PayoutExample.

Lemma no_double_payment_witness :
  exists ts r1 r2, reachable cfg honest 12 (paid_state, ts)
    /\ rows paid_state !! 0%nat = Some r1 /\ rows paid_state !! 2%nat = Some r2
    /\ PayoutID r1 = PayoutID r2 /\ mined paid_state r2 /\ ~ mined paid_state r1.
Proof.
  destruct paid_state_reachable as [ts Hreach]. exists ts. do 2 eexists.
  split; [exact Hreach|]. split; [reflexivity|]. split; [reflexivity|]. split; [reflexivity|].
  assert (forall r, rows paid_state !! 2%nat = Some r -> mined paid_state r) as Hm.
  { intros r [= <-]. eexists. split; [reflexivity|]. apply list_elem_of_here. }
  split; [by apply Hm|]. intros Hm1.
  refine (no_double_payment cfg honest 12 _ paid_state ts 0%nat 2%nat _ _ Hreach eq_refl eq_refl
            _ eq_refl eq_refl eq_refl Hm1 (Hm _ eq_refl)); [reflexivity|discriminate].
Defined.

Lemma claimed_payout_was_transferred_witness :
  exists ts p r raw t y sr ss, reachable cfg honest 12 (paid_state, ts)
    /\ p ∈ lpr (pd_ledger (sy_db paid_state)) /\ paid_in_usdc p /\ r ∈ rows paid_state
    /\ raw ∈ sy_final paid_state /\ DecodeSignedEIP1559 raw = Done (t, y, sr, ss) /\ pays t r.
Proof.
  destruct paid_state_reachable as [ts Hreach].
  assert (exists p, p ∈ lpr (pd_ledger (sy_db paid_state)) /\ paid_in_usdc p) as (p & Hp & Hu).
  { eexists. split; [apply list_elem_of_here|]. by split. }
  destruct (claimed_payout_was_transferred cfg honest 12 eq_refl paid_state ts p Hreach Hp Hu)
    as (r & raw & h & t & y & sr & ss & Hr & _ & _ & Hin & _ & Hd & Hpay & _).
  exists ts, p, r, raw, t, y, sr, ss. by split_and!.
Defined.
