(* ===== verification/PayoutAddresses.v ===== *)
(** The registration of payout addresses: [internal/payout/addresses.go], [eip712.go],
    [deny.go] and [pause_reader.go].

    [ServePayoutAddress] is the handler of [POST /providers/{id}/payout-address] with its
    eleven steps; the tables it reads and writes are an [AddrDB]. The value of the pause
    flag that the check before the authentication saw, the clock and the failures of the
    database are part of the environment [Env] of a request, so the flag may change between
    that check and the transaction. The token store is [internal/auth], an argument. A
    history is a list of requests, prunes and changes of the flag, in the order of their
    transactions; [run] gives the tables and the log of the accepted registrations.

    The theorems: the table of addresses is a function of that log; the runner pays only to
    addresses that were registered with a signature of their own key and, when a provider
    lets a registration cool off before the next, only after the cooling-off; a registration
    is accepted once; a refused request and a request under a pause change nothing; one
    EIP-712 digest is the digest of one registration. *)
From S2P Require Import Prelude GoTime Ledger Settlement Evm PayoutStore.

(** ** Typed data: [eip712.go] *)

Definition string_bytes (s : string) : bytes := text_bytes (GoStr.chars s).

Definition PayoutChainID : Z := 8453.

Record EIP712Inputs := mkInputs {
  in_ProviderID : string;
  in_CanonicalAddr : string;
  in_Chain : string;
  in_Nonce32 : bytes;
  in_TsUtc : Z;
  in_VerifyingContract : string;
}.

(** [out[31-i] = byte(v >> (8*i))] for [i] from 0 to 7 *)
Definition uint256BE (v : Z) : bytes :=
  map (fun j => if (24 <=? j)%nat then Z.shiftr v (8 * (31 - Z.of_nat j)) mod 256 else 0) (seq 0 32).

Definition leftPadAddress (addr : bytes) : bytes := repeat_zero 12 ++ addr.

Definition has_0x (s : string) : bool := GoStr.HasPrefix s "0x" || GoStr.HasPrefix s "0X".

(** [hex.DecodeString] of the text after the prefix *)
Definition decode_after_0x (s : string) : outcome bytes :=
  match hex_decode (skipn 2 (GoStr.chars s)) with Some raw => Done raw | None => Error end.

(** The signature [r || s || v] as [v || r || s]. *)
Definition decodeSignatureHex (sigHex : string) : outcome bytes :=
  _ ← check (length (GoStr.chars sigHex) =? 132)%nat;
  _ ← check (has_0x sigHex);
  raw ← decode_after_0x sigHex;
  _ ← check (len raw =? 65);
  let v := nth 64 raw 0 in
  _ ← check ((v =? 27) || (v =? 28));
  Done (v :: firstn 32 raw ++ firstn 32 (skipn 32 raw)).

Definition DecodeNonce32 (s : string) : outcome bytes :=
  _ ← check (length (GoStr.chars s) =? 66)%nat;
  _ ← check (has_0x s);
  decode_after_0x s.

Section Eip712.
Context `{EvmLib}.

Definition keccak256 (parts : list bytes) : bytes := keccak (concat parts).
Definition keccak256OfString (s : string) : bytes := keccak256 [string_bytes s].

Definition domainTypeHash : bytes :=
  keccak256OfString "EIP712Domain(string name,string version,uint256 chainId,address verifyingContract)".
Definition payoutAddressRegistrationTypeHash : bytes :=
  keccak256OfString
    "PayoutAddressRegistration(string providerId,address address,string chain,bytes32 nonce,uint64 tsUtc)".
Definition domainNameHash : bytes := keccak256OfString "macprovider-payout".
Definition domainVersionHash : bytes := keccak256OfString "1".

Definition domain_parts (verifying : bytes) : list bytes :=
  [domainTypeHash; domainNameHash; domainVersionHash; uint256BE PayoutChainID; leftPadAddress verifying].

Definition struct_parts (i : EIP712Inputs) (addr : bytes) : list bytes :=
  [payoutAddressRegistrationTypeHash; keccak256OfString (in_ProviderID i); leftPadAddress addr;
   keccak256OfString (in_Chain i); in_Nonce32 i; uint256BE (in_TsUtc i)].

Definition buildDigest (i : EIP712Inputs) : outcome bytes :=
  verifying ← AddressBytes (in_VerifyingContract i);
  addr ← AddressBytes (in_CanonicalAddr i);
  Done (keccak256 [[25; 1]; keccak256 (domain_parts verifying); keccak256 (struct_parts i addr)]).

Definition VerifyEIP712 (i : EIP712Inputs) (signatureHex : string) : outcome bytes :=
  sig ← decodeSignatureHex signatureHex;
  digest ← buildDigest i;
  recovered ← ecrecover digest sig;
  expectedLower ← NormalizeAddress (in_CanonicalAddr i);
  _ ← check (GoStr.EqualFold recovered expectedLower);
  Done digest.

(** ** The deny-list: [deny.go] *)

Definition minimumDenyListLower : list string :=
  ["0x0000000000000000000000000000000000000000"; "0x833589fcd6edb6e08f4c7c32d4f71b54bda02913";
   "0x000000000000000000000000000000000000dead"; "0xdead000000000000000000000000000000000000"].

(** The loop over [extras]; the first address that does not parse ends it. *)
Fixpoint add_extras (set : gset string) (extras : list string) : outcome (gset string) :=
  match extras with
  | [] => Done set
  | raw :: extras => lower ← NormalizeAddress raw; add_extras ({[lower]} ∪ set) extras
  end.

Definition NewDenyList (hotWalletAddress : string) (extras : list string) : outcome (gset string) :=
  let set := list_to_set minimumDenyListLower in
  set ← (if String.eqb hotWalletAddress "" then Done set
         else hwLower ← NormalizeAddress hotWalletAddress; Done ({[hwLower]} ∪ set));
  add_extras set extras.

(** [None] is the nil list. *)
Definition Contains (d : option (gset string)) (addr : string) : bool :=
  match d with None => false | Some set => bool_decide (GoStr.ToLower addr ∈ set) end.

(** ** Texts of the handler *)

Definition is_id_char (c : ascii) : bool :=
  between 48 57 (code c) || between 65 90 (code c) || between 97 122 (code c)
  || (code c =? 95) || (code c =? 45).

(** [^[A-Za-z0-9_-]{1,128}$] *)
Definition providerIDPattern (s : string) : bool :=
  let l := GoStr.chars s in
  (1 <=? length l)%nat && (length l <=? 128)%nat && forallb is_id_char l.

Definition bearerFromHeader (h : string) : string :=
  let trimmed := GoStr.TrimSpace h in
  if GoStr.HasPrefix trimmed "Bearer "
  then GoStr.TrimSpace (GoStr.of_chars (skipn 7 (GoStr.chars trimmed))) else "".

Definition clientIP (xff remoteAddr : string) : string :=
  let xff := GoStr.TrimSpace xff in
  if String.eqb xff "" then remoteAddr
  else match GoStr.index_byte (GoStr.chars xff) "," with
       | Some (S _ as idx) => GoStr.TrimSpace (GoStr.of_chars (firstn idx (GoStr.chars xff)))
       | _ => xff
       end.

Definition orNone (s : string) : string := if String.eqb s "" then "none" else s.

(** [http.StatusText] of the other codes of the handler *)
Definition StatusText (status : Z) : string :=
  if status =? 400 then "Bad Request" else if status =? 401 then "Unauthorized"
  else if status =? 403 then "Forbidden" else if status =? 409 then "Conflict"
  else if status =? 500 then "Internal Server Error" else if status =? 503 then "Service Unavailable"
  else "".

Definition statusName (status : Z) : string :=
  if status =? 201 then "created" else if status =? 200 then "rotated" else StatusText status.

(** A control character, a double quote or a backslash becomes a question mark. *)
Definition jsonString (s : string) : string :=
  GoStr.of_chars (map (fun c =>
    if (code c <? 32) || (code c =? 34) || (code c =? 92) then "?"%char else c) (GoStr.chars s)).

(** [fmt.Sprintf("%d", n)] of a length *)
Fixpoint length_digits (fuel : nat) (n : Z) : list ascii :=
  match fuel with
  | O => []
  | S fuel => (if n <? 10 then [] else length_digits fuel (n / 10)) ++ [digit_char n]
  end.

Definition length_text (s : string) : string :=
  let n := Z.of_nat (length (GoStr.chars s)) in GoStr.of_chars (length_digits (S (Z.to_nat (Z.log2 n))) n).

Definition addressFingerprint (submitted : string) : string :=
  if String.eqb submitted "" then ""
  else
    let l := GoStr.chars submitted in
    let stripped := match l with
                    | "0"%char :: c :: rest => if (Ascii.eqb c "x" || Ascii.eqb c "X")%bool then rest else l
                    | _ => l
                    end in
    if negb (isHexAlphabet stripped) then "<bad> len=" +:+ length_text submitted
    else if (length stripped <? 10)%nat
         then "0x" +:+ GoStr.of_chars stripped +:+ " len=" +:+ length_text submitted
         else "0x" +:+ GoStr.of_chars (firstn 6 stripped) +:+ "..."
              +:+ GoStr.of_chars (skipn (length stripped - 4) stripped) +:+ " len=" +:+ length_text submitted.

(** ** The tables *)

(** [provider_payout_address_nonces] *)
Record NonceRow := mkNonceRow {
  nr_canonical_address : string;
  nr_nonce : string;
  nr_seen_at_utc : string;
}.

(** [ad_paused] is the [registration_paused] row of [runtime_flags]. *)
Record AddrDB := mkAddrDB {
  ad_addresses : list AddressRow;
  ad_nonces : list NonceRow;
  ad_paused : option Z;
}.

#[export] Instance rebuild_AddrDB : Rebuild AddrDB := fun d =>
  mkAddrDB (ad_addresses d) (ad_nonces d) (ad_paused d).

(** [IsRegistrationPaused] and [pausedConn]; [None] is an error, of the query or because
    the row is missing. *)
Definition IsRegistrationPaused (query_fails : bool) (flag : option Z) : option bool :=
  if query_fails then None else v ← flag; Some (v =? 1).

(** ** The service, a request and its environment *)

Record AddressesService := mkService {
  HotWalletAddress : string;
  sv_DenyList : gset string;
  CoolingOffPeriod : Z;
}.

Record registerRequest := mkRegister {
  rq_Chain : string;
  rq_Address : string;
  rq_Nonce : string;
  rq_TsUtc : Z;
  rq_Signature : string;
}.

(** [rq_body] is the body as [encoding/json] decodes it, [None] when it does not. *)
Record Request := mkRequest {
  rq_provider_id : string;
  rq_Authorization : string;
  rq_XForwardedFor : string;
  rq_RemoteAddr : string;
  rq_body : option registerRequest;
}.

(** The failures of single statements. *)
Record Faults := mkFaults {
  fail_pause : bool; fail_conn : bool; fail_begin : bool; fail_pause2 : bool; fail_nonce : bool;
  fail_select : bool; fail_write : bool; fail_commit : bool;
}.

Definition no_faults : Faults := mkFaults false false false false false false false false.

Record Env := mkEnv {
  env_now : Z;
  (** the cooling-off of the tuning snapshot, when there is one *)
  env_Tuning : option Z;
  (** the flag as the check before the authentication reads it *)
  env_early_flag : option Z;
  (** the token store: the owner of a token and whether it is valid; [None] is an error *)
  env_ValidateToken : string -> option (string * bool);
  env_HasActiveToken : string -> option bool;
  env_faults : Faults;
}.

Definition currentCoolingOff (s : AddressesService) (e : Env) : Z :=
  match env_Tuning e with Some t => t | None => CoolingOffPeriod s end.

(** [NewAddressesService]: [None] stands for an argument that is nil. *)
Definition NewAddressesService (db tokens identity pause : option unit) (hot : string)
    (dl : option (gset string)) (coolingOff : Z) : outcome AddressesService :=
  match db, dl, tokens, identity, pause with
  | Some _, Some set, Some _, Some _, Some _ =>
      _ ← check (negb (String.eqb hot ""));
      _ ← check (3600 * second <=? coolingOff);
      Done (mkService hot set coolingOff)
  | _, _, _, _, _ => Error
  end.

(** [LookupPayoutAddress] *)
Definition LookupPayoutAddress (s : AddressesService) (providerID chain : string) (d : AddrDB)
    : string * bool :=
  match find (fun a => String.eqb (ppa_provider_id a) providerID && String.eqb (ppa_chain a) chain
                       && String.eqb (ppa_registered_against_hot_wallet a) (HotWalletAddress s))
          (ad_addresses d) with
  | Some a => (ppa_address a, ppa_payout_allowed a)
  | None => ("", false)
  end.

(** ** What the handler answers and logs *)

Inductive AddressEvent :=
| Changed (provider chain old_address new_address pending_until ts : string)
| ChangeRejected (provider reason src_ip fingerprint ts : string)
| RejectedUnknownProvider (provider src_ip fingerprint ts : string).

Inductive Body := ErrorBody (code : string) | RegisteredBody (chain pending_until_utc status : string).

Record Reply := mkReply { re_status : Z; re_body : Body; re_event : AddressEvent }.

(** An early return, or the value the handler goes on with. *)
Definition attempt (A : Type) : Type := (Reply + A)%type.
#[export] Instance attempt_bind : MBind attempt := fun A B f m =>
  match m with inl r => inl r | inr a => f a end.

Definition ensure (ok : bool) (r : Reply) : attempt unit := if ok then inr tt else inl r.
Definition expect_value {A} (o : option A) (r : Reply) : attempt A :=
  match o with Some a => inr a | None => inl r end.
Definition expect_done {A} (o : outcome A) (r : Reply) : attempt A :=
  match o with Done a => inr a | _ => inl r end.

(** [emitFailure] and [writeError] *)
Definition failure (e : Env) (r : Request) (status : Z) (reason code submitted : string) : Reply :=
  mkReply status (ErrorBody (jsonString code))
    (ChangeRejected (rq_provider_id r) reason (clientIP (rq_XForwardedFor r) (rq_RemoteAddr r))
       (addressFingerprint submitted) (formatUTC (env_now e))).

(** [emitReject] and [writeError] *)
Definition unknown_provider (e : Env) (r : Request) (submitted : string) : Reply :=
  mkReply 400 (ErrorBody (jsonString "unknown_provider"))
    (RejectedUnknownProvider (rq_provider_id r) (clientIP (rq_XForwardedFor r) (rq_RemoteAddr r))
       (addressFingerprint submitted) (formatUTC (env_now e))).

(** ** Steps 1 to 9 *)

Definition timestampSkewBound : Z := 5 * 60 * second.
Definition nonceTableRetention : Z := 10 * 60 * second.

(** [time.Unix(int64(ts), 0)]: the seconds since year 1 are an [int64] too. *)
Definition time_Unix (ts : Z) : Z :=
  (Int64.add (Int64.wrap ts) 62135596800 - 62135596800) * second.

Definition missing_field (b : registerRequest) : bool :=
  String.eqb (rq_Chain b) "" || String.eqb (rq_Address b) "" || String.eqb (rq_Nonce b) ""
  || String.eqb (rq_Signature b) "" || (rq_TsUtc b =? 0).

Definition within_skew (now ts : Z) : bool :=
  let tsRequest := time_Unix ts in
  negb ((tsRequest <? now - timestampSkewBound) || (now + timestampSkewBound <? tsRequest)).

(** A request that passed, with what the transaction needs of it. *)
Record Validated := mkValidated {
  va_body : registerRequest;
  va_canonical : string;
  va_nonce32 : bytes;
}.

Definition inputs_of (s : AddressesService) (providerID canonical chain : string) (nonce32 : bytes)
    (ts : Z) : EIP712Inputs :=
  mkInputs providerID canonical chain nonce32 ts (HotWalletAddress s).

(** Steps 1 and 2 *)
Definition authenticate (e : Env) (r : Request) : attempt unit :=
  let fail := failure e r in
  paused ← expect_value (IsRegistrationPaused (fail_pause (env_faults e)) (env_early_flag e))
             (fail 500 "internal_error" "internal_error" "");
  _ ← ensure (negb paused) (fail 503 "registration_paused" "rotation_in_progress" "");
  let rawBearer := bearerFromHeader (rq_Authorization r) in
  _ ← ensure (negb (String.eqb rawBearer "")) (fail 401 "missing_token" "unauthorized" "");
  '(subject, ok) ← expect_value (env_ValidateToken e rawBearer) (fail 401 "invalid_token" "unauthorized" "");
  _ ← ensure ok (fail 401 "invalid_token" "unauthorized" "");
  ensure (String.eqb subject (rq_provider_id r)) (fail 403 "token_subject_mismatch" "forbidden" "").

(** Steps 3 to 9 *)
Definition validate (s : AddressesService) (e : Env) (r : Request) : attempt Validated :=
  let fail := failure e r in
  let providerID := rq_provider_id r in
  b ← expect_value (rq_body r) (fail 400 "bad_json" "bad_format" "");
  let addr := rq_Address b in
  _ ← ensure (negb (missing_field b)) (fail 400 "missing_field" "missing_field" addr);
  _ ← ensure (String.eqb (rq_Chain b) "base-mainnet") (fail 400 "bad_chain" "chain_mismatch" addr);
  canonical ← match ParseAndCanonicalizeEIP55 addr with
              | inr c => inr c
              | inl ErrChecksumMismatch => inl (fail 400 "checksum_mismatch" "checksum_mismatch" addr)
              | inl ErrBadFormat => inl (fail 400 "bad_format" "bad_format" addr)
              end;
  _ ← ensure (providerIDPattern providerID) (fail 400 "bad_provider_id" "bad_provider_id" addr);
  exists_ ← expect_value (env_HasActiveToken e providerID) (fail 500 "internal_error" "internal_error" addr);
  _ ← ensure exists_ (unknown_provider e r addr);
  _ ← ensure (negb (Contains (Some (sv_DenyList s)) canonical)) (fail 400 "denylist" "denylist" addr);
  _ ← ensure (within_skew (env_now e) (rq_TsUtc b)) (fail 400 "signature_skew" "signature_skew" addr);
  nonce32 ← expect_done (DecodeNonce32 (rq_Nonce b)) (fail 400 "bad_nonce_format" "missing_field" addr);
  _ ← expect_done (VerifyEIP712 (inputs_of s providerID canonical (rq_Chain b) nonce32 (rq_TsUtc b))
                     (rq_Signature b)) (fail 400 "signature_mismatch" "signature_mismatch" addr);
  inr (mkValidated b canonical nonce32).

(** ** Step 10, the transaction *)

(** An accepted registration. *)
Record Accepted := mkAccepted {
  ac_provider : string;
  ac_chain : string;
  ac_address : string;
  ac_nonce32 : bytes;
  ac_ts : Z;
  ac_at : Z;
  ac_pending_until : Z;
  ac_old_address : string;
  ac_status : Z;
}.

Definition nonce_hex (nonce32 : bytes) : string := "0x" +:+ hex_text nonce32.

Definition same_nonce (a n : string) (r : NonceRow) : bool :=
  String.eqb (nr_canonical_address r) a && String.eqb (nr_nonce r) n.

Definition is_address_of (p chain : string) (a : AddressRow) : bool :=
  String.eqb (ppa_provider_id a) p && String.eqb (ppa_chain a) chain.

#[export] Instance rebuild_AddressRow : Rebuild AddressRow := fun a =>
  mkAddressRow (ppa_provider_id a) (ppa_chain a) (ppa_address a) (ppa_payout_allowed a)
    (ppa_pending_until_utc a) (ppa_rotated_from a) (ppa_registered_at_utc a)
    (ppa_registered_against_hot_wallet a).

(** The UPDATE of a rotation. *)
Definition rotate (s : AddressesService) (p chain canonical pendingUntil old now : string)
    (allowed : bool) (l : list AddressRow) : list AddressRow :=
  map (fun a => if is_address_of p chain a then
      a <| ppa_address := canonical |> <| ppa_payout_allowed := allowed |>
        <| ppa_pending_until_utc := Some pendingUntil |> <| ppa_rotated_from := Some old |>
        <| ppa_registered_at_utc := now |> <| ppa_registered_against_hot_wallet := HotWalletAddress s |>
    else a) l.

Definition transact (s : AddressesService) (e : Env) (r : Request) (v : Validated) (d : AddrDB)
    : attempt (AddrDB * Accepted) :=
  let fail := failure e r in
  let b := va_body v in
  let addr := rq_Address b in
  let internal := fail 500 "internal_error" "internal_error" addr in
  let p := rq_provider_id r in
  let chain := rq_Chain b in
  let canonical := va_canonical v in
  let canonicalLower := GoStr.ToLower canonical in
  let nonceLowerHex := nonce_hex (va_nonce32 v) in
  let now := env_now e in
  let f := env_faults e in
  _ ← ensure (negb (fail_conn f)) internal;
  _ ← ensure (negb (fail_begin f)) internal;
  paused2 ← expect_value (IsRegistrationPaused (fail_pause2 f) (ad_paused d)) internal;
  _ ← ensure (negb paused2) (fail 503 "registration_paused" "rotation_in_progress" addr);
  _ ← ensure (negb (fail_nonce f)) internal;
  _ ← ensure (negb (existsb (same_nonce canonicalLower nonceLowerHex) (ad_nonces d)))
        (fail 400 "nonce_replayed" "nonce_replayed" addr);
  let nonces := ad_nonces d ++ [mkNonceRow canonicalLower nonceLowerHex (formatUTC now)] in
  _ ← ensure (negb (fail_select f)) internal;
  let existing := find (is_address_of p chain) (ad_addresses d) in
  let pendingUntil := now + currentCoolingOff s e in
  let pendingUntilStr := formatUTC pendingUntil in
  let accept := mkAccepted p chain canonical (va_nonce32 v) (rq_TsUtc b) now pendingUntil in
  '(addresses, oldAddress, status) ←
    match existing with
    | Some row =>
        if negb (String.eqb (ppa_address row) "") then
          _ ← ensure (ppa_payout_allowed row) (fail 409 "payout_not_allowed" "payout_not_allowed" addr);
          _ ← ensure (negb (fail_write f)) internal;
          inr (rotate s p chain canonical pendingUntilStr (ppa_address row) (formatUTC now)
                 (ppa_payout_allowed row) (ad_addresses d), ppa_address row, 200)
        else
          (** the row is there, so the INSERT violates [UNIQUE(provider_id, chain)] *)
          inl internal
    | None =>
        _ ← ensure (negb (fail_write f)) internal;
        inr (ad_addresses d ++ [mkAddressRow p chain canonical true (Some pendingUntilStr) None
                                  (formatUTC now) (HotWalletAddress s)], "", 201)
    end;
  _ ← ensure (negb (fail_commit f)) internal;
  inr (mkAddrDB addresses nonces (ad_paused d), accept oldAddress status).

Definition serve (s : AddressesService) (e : Env) (r : Request) (d : AddrDB)
    : attempt (AddrDB * Accepted) :=
  _ ← authenticate e r;
  v ← validate s e r;
  transact s e r v d.

(** Step 11: [emitSuccess] and the answer *)
Definition success (e : Env) (a : Accepted) : Reply :=
  let pendingUntilStr := formatUTC (ac_pending_until a) in
  mkReply (ac_status a) (RegisteredBody (ac_chain a) pendingUntilStr (statusName (ac_status a)))
    (Changed (ac_provider a) (ac_chain a) (orNone (ac_old_address a)) (ac_address a) pendingUntilStr
       (formatUTC (env_now e))).

(** The tables, the answer and the registration that was accepted, if one was. A refused
    request has its transaction rolled back. *)
Definition ServePayoutAddress (s : AddressesService) (e : Env) (r : Request) (d : AddrDB)
    : AddrDB * Reply * option Accepted :=
  match serve s e r d with
  | inl reply => (d, reply, None)
  | inr (d', a) => (d', success e a, Some a)
  end.

Definition expired (cutoff : string) (r : NonceRow) : bool := String.ltb (nr_seen_at_utc r) cutoff.

(** [PruneNonces]: the tables and the number of rows deleted *)
Definition PruneNonces (now : Z) (d : AddrDB) : AddrDB * Z :=
  let cutoff := formatUTC (now - nonceTableRetention) in
  (d <| ad_nonces := List.filter (fun r => negb (expired cutoff r)) (ad_nonces d) |>,
   count (expired cutoff) (ad_nonces d)).

(** ** Histories *)

Inductive AddrStep :=
| Serve (e : Env) (r : Request)
| Prune (now : Z)
| SetPaused (v : Z).

Definition apply_step (s : AddressesService) (st : AddrStep) (d : AddrDB) : AddrDB * option Accepted :=
  match st with
  | Serve e r => let '(d', _, a) := ServePayoutAddress s e r d in (d', a)
  | Prune now => ((PruneNonces now d).1, None)
  | SetPaused v => (d <| ad_paused := Some v |>, None)
  end.

(** The tables after the steps and the log of what was accepted, the newest first. One
    service, with its deny-list and its hot wallet, answers all of the requests: a restart
    with another configuration is not a step. *)
Definition run_from (s : AddressesService) (steps : list AddrStep) (d : AddrDB) (log : list Accepted)
    : AddrDB * list Accepted :=
  fold_left (fun '(d, log) st =>
    let '(d', a) := apply_step s st d in (d', match a with Some a => a :: log | None => log end))
    steps (d, log).

(** The tables as the migrations leave them. *)
Definition empty_db : AddrDB := mkAddrDB [] [] (Some 0).

Definition run (s : AddressesService) (steps : list AddrStep) : AddrDB * list Accepted :=
  run_from s steps empty_db [].

Definition step_time (st : AddrStep) : option Z :=
  match st with Serve e _ => Some (env_now e) | Prune now => Some now | SetPaused _ => None end.

(** What an accepted registration proves: the address parses, is not denied and its key
    signed this provider, address, chain, nonce and time for this hot wallet. *)
Record proper (s : AddressesService) (a : Accepted) : Prop := {
  pr_address : exists input, ParseAndCanonicalizeEIP55 input = inr (ac_address a);
  pr_chain : ac_chain a = "base-mainnet";
  pr_provider : providerIDPattern (ac_provider a) = true;
  pr_allowed : Contains (Some (sv_DenyList s)) (ac_address a) = false;
  pr_signed : exists sig digest,
    VerifyEIP712 (inputs_of s (ac_provider a) (ac_address a) (ac_chain a) (ac_nonce32 a) (ac_ts a)) sig
    = Done digest;
  pr_skew : within_skew (ac_at a) (ac_ts a) = true;
}.

(** The registrations of one provider, the newest first. *)
Definition of_provider (p : string) (log : list Accepted) : list Accepted :=
  List.filter (fun a => String.eqb (ac_provider a) p) log.

(** The row of a provider whose registrations are [l], the newest first. *)
Definition current_row (s : AddressesService) (p : string) (l : list Accepted) : option AddressRow :=
  match l with
  | [] => None
  | a :: earlier =>
      Some (mkAddressRow p "base-mainnet" (ac_address a) true (Some (formatUTC (ac_pending_until a)))
              (ac_address <$> head earlier) (formatUTC (ac_at a)) (HotWalletAddress s))
  end.

(** Each registration but the newest had cooled off, to the second, when the next came. *)
Fixpoint waited (l : list Accepted) : Prop :=
  match l with
  | newer :: ((older :: _) as rest) =>
      ac_pending_until older / second <= ac_at newer / second /\ waited rest
  | _ => True
  end.

(** Clock readings that increase from one transaction to the next and have a year of four
    digits. *)
Fixpoint clocked (s : AddressesService) (t : Z) (steps : list AddrStep) : Prop :=
  match steps with
  | [] => True
  | Serve e _ :: rest =>
      t < env_now e /\ in_years (env_now e) /\ in_years (env_now e + currentCoolingOff s e)
      /\ clocked s (env_now e) rest
  | Prune now :: rest => t < now /\ in_years (now - nonceTableRetention) /\ clocked s now rest
  | SetPaused _ :: rest => clocked s t rest
  end.

(** The reading after the steps. *)
Definition last_clock (t : Z) (steps : list AddrStep) : Z :=
  fold_left (fun t st => default t (step_time st)) steps t.

(** ** Early returns *)

Lemma bind_attempt {A B} (m : attempt A) (f : A -> attempt B) b :
  m ≫= f = inr b -> exists a, m = inr a /\ f a = inr b.
Proof. destruct m; [done|eauto]. Qed.

Lemma ensure_inr ok r u : ensure ok r = inr u -> ok = true.
Proof. by destruct ok. Qed.

Lemma expect_value_inr {A} (o : option A) r a : expect_value o r = inr a -> o = Some a.
Proof. destruct o; [|done]. intros Ha. by injection Ha as ->. Qed.

Lemma expect_done_inr {A} (o : outcome A) r a : expect_done o r = inr a -> o = Done a.
Proof. destruct o; [|done..]. intros Ha. by injection Ha as ->. Qed.

Ltac inv_attempt :=
  repeat match goal with
  | H : _ ≫= _ = inr _ |- _ => apply bind_attempt in H as (? & ? & H)
  | H : ensure _ _ = inr _ |- _ => apply ensure_inr in H
  | H : expect_value _ _ = inr _ |- _ => apply expect_value_inr in H
  | H : expect_done _ _ = inr _ |- _ => apply expect_done_inr in H
  | H : inr _ = inr _ |- _ => injection H as H
  | H : context [match ?p with (_, _) => _ end] |- _ => is_var p; destruct p
  end.

Lemma validate_inv s e r v :
  validate s e r = inr v ->
  ParseAndCanonicalizeEIP55 (rq_Address (va_body v)) = inr (va_canonical v)
  /\ rq_Chain (va_body v) = "base-mainnet" /\ providerIDPattern (rq_provider_id r) = true
  /\ Contains (Some (sv_DenyList s)) (va_canonical v) = false
  /\ within_skew (env_now e) (rq_TsUtc (va_body v)) = true
  /\ exists digest, VerifyEIP712 (inputs_of s (rq_provider_id r) (va_canonical v) (rq_Chain (va_body v))
                       (va_nonce32 v) (rq_TsUtc (va_body v))) (rq_Signature (va_body v)) = Done digest.
Proof.
  unfold validate. intros Hv. inv_attempt. subst v. cbn [va_body va_canonical va_nonce32]. bool_hyps.
  split_and!; try done; [|by eexists]. repeat case_match; simplify_eq; done.
Qed.

Definition nonce_row (a : Accepted) : NonceRow :=
  mkNonceRow (GoStr.ToLower (ac_address a)) (nonce_hex (ac_nonce32 a)) (formatUTC (ac_at a)).

(** The address table after an accepted registration. *)
Definition with_registration (s : AddressesService) (a : Accepted) (l : list AddressRow) : list AddressRow :=
  match find (is_address_of (ac_provider a) (ac_chain a)) l with
  | Some row => rotate s (ac_provider a) (ac_chain a) (ac_address a) (formatUTC (ac_pending_until a))
                  (ppa_address row) (formatUTC (ac_at a)) true l
  | None => l ++ [mkAddressRow (ac_provider a) (ac_chain a) (ac_address a) true
                    (Some (formatUTC (ac_pending_until a))) None (formatUTC (ac_at a)) (HotWalletAddress s)]
  end.

Ltac ac_fields :=
  cbn [ac_provider ac_chain ac_address ac_nonce32 ac_ts ac_at ac_pending_until ac_old_address ac_status].

Lemma transact_inv s e r v d d' a :
  transact s e r v d = inr (d', a) ->
  (ac_provider a = rq_provider_id r /\ ac_chain a = rq_Chain (va_body v) /\ ac_address a = va_canonical v
   /\ ac_nonce32 a = va_nonce32 v /\ ac_ts a = rq_TsUtc (va_body v) /\ ac_at a = env_now e
   /\ ac_pending_until a = env_now e + currentCoolingOff s e)
  /\ IsRegistrationPaused false (ad_paused d) = Some false
  /\ existsb (same_nonce (GoStr.ToLower (ac_address a)) (nonce_hex (ac_nonce32 a))) (ad_nonces d) = false
  /\ d' = mkAddrDB (with_registration s a (ad_addresses d)) (ad_nonces d ++ [nonce_row a]) (ad_paused d)
  /\ (forall row, find (is_address_of (ac_provider a) (ac_chain a)) (ad_addresses d) = Some row ->
        ppa_payout_allowed row = true /\ ac_status a = 200)
  /\ (find (is_address_of (ac_provider a) (ac_chain a)) (ad_addresses d) = None -> ac_status a = 201).
Proof.
  unfold transact. intros Ht. inv_attempt. bool_hyps. subst.
  match goal with H : IsRegistrationPaused ?f _ = Some _ |- _ => destruct f; [done|] end.
  match goal with H : (match find ?f ?l with _ => _ end) = inr _ |- _ =>
    destruct (find f l) as [row|] eqn:Hf; [destruct (negb _); [|done]|] end; inv_attempt; simplify_eq.
  all: ac_fields; unfold with_registration, nonce_row; ac_fields; rewrite ?Hf; split_and!;
    try reflexivity; try assumption; try discriminate.
  - match goal with H : ppa_payout_allowed row = true |- _ => by rewrite H end.
  - intros row' Hr. injection Hr as <-. by split.
Qed.

Lemma serve_inv s e r d d' a :
  serve s e r d = inr (d', a) ->
  proper s a /\ ac_at a = env_now e /\ ac_pending_until a = env_now e + currentCoolingOff s e
  /\ IsRegistrationPaused false (ad_paused d) = Some false
  /\ existsb (same_nonce (GoStr.ToLower (ac_address a)) (nonce_hex (ac_nonce32 a))) (ad_nonces d) = false
  /\ d' = mkAddrDB (with_registration s a (ad_addresses d)) (ad_nonces d ++ [nonce_row a]) (ad_paused d).
Proof.
  unfold serve. intros Hs. inv_attempt.
  match goal with H : validate _ _ _ = inr _ |- _ => apply validate_inv in H as (Hp & Hc & Hi & Hd & Hk & Hv) end.
  apply transact_inv in Hs as ((E1 & E2 & E3 & E4 & E5 & E6 & E7) & Hpa & Hn & -> & _).
  split_and!; try assumption; try reflexivity. destruct a. cbn in *. subst. destruct Hv as [dg Hv]. split; ac_fields; eauto.
Qed.

Lemma apply_serve s e r d d' o :
  apply_step s (Serve e r) d = (d', o) ->
  (d' = d /\ o = None) \/ (exists a, o = Some a /\ serve s e r d = inr (d', a)).
Proof.
  cbn [apply_step]. unfold ServePayoutAddress. destruct (serve s e r d) as [rep|[d1 a]]; intros E; simplify_eq; eauto.
Qed.

(** ** Histories keep an invariant *)

Lemma run_from_ind s (I : AddrDB -> list Accepted -> Prop) steps d log :
  (forall st d log d' o, I d log -> apply_step s st d = (d', o) -> I d' (option_list o ++ log)) ->
  I d log -> I (run_from s steps d log).1 (run_from s steps d log).2.
Proof.
  intros Hstep. unfold run_from. revert d log. induction steps as [|st steps IH]; intros d log Hi; [done|].
  cbn [fold_left]. destruct (apply_step s st d) as [d' o] eqn:E. apply IH.
  specialize (Hstep _ _ _ _ _ Hi E). by destruct o.
Qed.

Lemma log_proper s steps d log : run s steps = (d, log) -> Forall (proper s) log.
Proof.
  intros Hr. pose proof (run_from_ind s (fun _ log => Forall (proper s) log) steps empty_db []) as Hi.
  fold (run s steps) in Hi. rewrite Hr in Hi. apply Hi; [|constructor].
  clear. intros [e r|now|v] d log d' o Hl Ha; [|by injection Ha as <- <-..].
  apply apply_serve in Ha as [[-> ->]|(a & -> & Ha)]; [done|].
  apply serve_inv in Ha as [Hp _]. by constructor.
Qed.

(** ** The address table is a function of the log *)

Abbreviation base_row p := (is_address_of p "base-mainnet").

Lemma find_filter_head {A} (f : A -> bool) l : find f l = head (List.filter f l).
Proof. induction l as [|x l IH]; [done|]. cbn. by destruct (f x). Qed.

Lemma is_address_of_true p c a : is_address_of p c a = true -> ppa_provider_id a = p /\ ppa_chain a = c.
Proof. unfold is_address_of. intros Ha. bool_hyps. done. Qed.

Lemma filter_map_keep {A} (g : A -> bool) (f : A -> A) l :
  (forall x, g (f x) = g x) -> List.filter g (map f l) = map f (List.filter g l).
Proof. intros Hg. induction l as [|x l IH]; [done|]. cbn. rewrite Hg, IH. by destruct (g x). Qed.

(** A rotation changes the row of its provider and leaves the others. *)
Lemma filter_rotate s q p c addr pend old now l :
  List.filter (base_row q) (rotate s p c addr pend old now true l)
  = if String.eqb p q && String.eqb c "base-mainnet" then
      map (fun _ => mkAddressRow p c addr true (Some pend) (Some old) now (HotWalletAddress s))
        (List.filter (base_row q) l)
    else List.filter (base_row q) l.
Proof.
  unfold rotate. rewrite filter_map_keep by (intros x; by destruct (is_address_of p c x)).
  destruct (String.eqb p q && String.eqb c "base-mainnet") eqn:Hq.
  - bool_hyps. subst. apply map_ext_in. intros x Hx. apply filter_In in Hx as [_ Hx]. rewrite Hx.
    apply is_address_of_true in Hx as [<- <-]. done.
  - rewrite <- map_id. apply map_ext_in. intros x Hx. apply filter_In in Hx as [_ Hx].
    apply is_address_of_true in Hx as [<- Hc]. unfold is_address_of at 1. rewrite Hc.
    rewrite (String.eqb_sym p), (String.eqb_sym c) in Hq. by rewrite Hq.
Qed.

Definition follows (s : AddressesService) (d : AddrDB) (log : list Accepted) : Prop :=
  forall p, List.filter (base_row p) (ad_addresses d) = option_list (current_row s p (of_provider p log)).

Lemma follows_registration s d log a :
  follows s d log -> ac_chain a = "base-mainnet" ->
  forall nonces paused,
  follows s (mkAddrDB (with_registration s a (ad_addresses d)) nonces paused) (a :: log).
Proof.
  intros Hf Hc nonces paused q. cbn [ad_addresses of_provider List.filter]. unfold with_registration.
  fold (of_provider q log). rewrite find_filter_head, Hc, (Hf (ac_provider a)).
  destruct (String.eqb (ac_provider a) q) eqn:Hq.
  - apply String.eqb_eq in Hq as <-. specialize (Hf (ac_provider a)).
    destruct (of_provider (ac_provider a) log) as [|a' rest] eqn:Ho; cbn [current_row option_list option_rect head] in *.
    + rewrite List.filter_app, Hf. cbn. unfold is_address_of. cbn. by rewrite !String.eqb_refl.
    + rewrite filter_rotate, !String.eqb_refl, Hf. done.
  - destruct (head (option_list (current_row s (ac_provider a) _))).
    { rewrite filter_rotate, Hq. apply Hf. }
    rewrite List.filter_app, Hf. cbn [List.filter]. unfold is_address_of at 1.
    cbn [ppa_provider_id]. rewrite Hq. apply app_nil_r.
Qed.

(** The table of payout addresses is a function of the log of accepted registrations: the row
    of a provider is its newest registration, with the address of the one before as
    [rotated_from]; a refused request, a prune and a pause leave the table as it is. *)
Lemma addresses_follow_log s steps d log :
  run s steps = (d, log) ->
  forall p, List.filter (base_row p) (ad_addresses d) = option_list (current_row s p (of_provider p log)).
Proof.
  intros Hr. pose proof (run_from_ind s (follows s) steps empty_db []) as Hi.
  fold (run s steps) in Hi. rewrite Hr in Hi. apply Hi; [|done]. clear.
  intros [e r|now|v] d log d' o Hf Ha; [|by injection Ha as <- <-..].
  apply apply_serve in Ha as [[-> ->]|(a & -> & Ha)]; [done|].
  apply serve_inv in Ha as (Hp & _ & _ & _ & _ & ->). by apply follows_registration; [|apply Hp].
Qed.

(** ** Texts of times *)

Lemma text_lt_seconds a b :
  in_years a -> in_years b -> String.ltb (formatUTC a) (formatUTC b) = true -> a / second <= b / second.
Proof.
  intros Ha Hb. unfold String.ltb, formatUTC. destruct (rfc3339NanoText_compare a b Ha Hb) as [c ->].
  destruct (Z.compare_spec (a / second) (b / second)); cbn; [lia..|done].
Qed.

Lemma text_ge_seconds a b :
  in_years a -> in_years b -> String.ltb (formatUTC a) (formatUTC b) = false -> b / second <= a / second.
Proof.
  intros Ha Hb. unfold String.ltb, formatUTC. destruct (rfc3339NanoText_compare a b Ha Hb) as [c ->].
  destruct (Z.compare_spec (a / second) (b / second)); cbn; [lia|done|lia].
Qed.

(** ** Replays *)

(** What identifies a signed registration: the address, the nonce and the time. *)
Definition reg_key (a : Accepted) : string * bytes * Z :=
  (GoStr.ToLower (ac_address a), ac_nonce32 a, ac_ts a).

(** The nonce of [a] is still there or was pruned at some [np] that is not later than [t]. *)
Definition remembered (t : Z) (d : AddrDB) (a : Accepted) : Prop :=
  nonce_row a ∈ ad_nonces d
  \/ exists np, np <= t /\ in_years (np - nonceTableRetention)
      /\ String.ltb (formatUTC (ac_at a)) (formatUTC (np - nonceTableRetention)) = true.

Record entry_ok (s : AddressesService) (t : Z) (d : AddrDB) (a : Accepted) : Prop := {
  eo_proper : proper s a;
  eo_at : ac_at a <= t;
  eo_years : in_years (ac_at a) /\ in_years (ac_pending_until a);
  eo_nonce : remembered t d a;
}.

Definition log_ok (s : AddressesService) (t : Z) (d : AddrDB) (log : list Accepted) : Prop :=
  Forall (entry_ok s t d) log /\ NoDup (map reg_key log).

(** The seconds of a time of the request. *)
Lemma time_Unix_whole ts : exists k, time_Unix ts = k * second.
Proof. by eexists. Qed.

Lemma within_skew_bounds now ts :
  within_skew now ts = true ->
  now - timestampSkewBound <= time_Unix ts <= now + timestampSkewBound.
Proof. unfold within_skew. intros Hw. bool_hyps. lia. Qed.

(** A nonce that was pruned before the reading [now] belongs to a registration whose time is
    no longer within the skew. *)
Lemma pruned_is_stale at1 ts np now :
  within_skew at1 ts = true -> in_years at1 -> in_years (np - nonceTableRetention) -> np < now ->
  String.ltb (formatUTC at1) (formatUTC (np - nonceTableRetention)) = true ->
  within_skew now ts = false.
Proof.
  intros Hw H1 H2 Hlt Htext. apply not_true_is_false. intros Hw2.
  apply within_skew_bounds in Hw, Hw2. apply text_lt_seconds in Htext; [|done..].
  destruct (time_Unix_whole ts) as [k Hk]. rewrite Hk in *.
  unfold timestampSkewBound, nonceTableRetention, second in *.
  assert (k <= at1 / 1000000000 + 300).
  { assert (k - 300 <= at1 / 1000000000); [|lia]. apply Z.div_le_lower_bound; lia. }
  pose proof (Z.mul_div_le (np - 10 * 60 * 1000000000) 1000000000 ltac:(lia)). lia.
Qed.

Lemma entry_later s t t' d d' a :
  entry_ok s t d a -> t <= t' -> remembered t' d' a -> entry_ok s t' d' a.
Proof. intros [Hp Ha Hy _] Ht Hr. split; [done|lia|done..]. Qed.

Lemma remembered_keep t t' d d' a :
  remembered t d a -> t <= t' -> (forall r, r ∈ ad_nonces d -> r ∈ ad_nonces d') -> remembered t' d' a.
Proof. intros [Hr|(np & ? & ?)] Ht Hs; [left; auto|right; exists np; split_and!; [lia|tauto..]]. Qed.

(** A registration that was accepted before finds its nonce or is out of the skew. *)
Lemma accepted_is_fresh s t d log e a :
  Forall (entry_ok s t d) log -> t < env_now e -> ac_at a = env_now e -> proper s a ->
  existsb (same_nonce (GoStr.ToLower (ac_address a)) (nonce_hex (ac_nonce32 a))) (ad_nonces d) = false ->
  reg_key a ∉ map reg_key log.
Proof.
  intros Hl Ht Hat Hp Hn Hin. apply elem_of_map in Hin as (b & Hb & Hk).
  rewrite Forall_forall in Hl. destruct (Hl _ Hb) as [Hpb Hab [Hyb _] Hrb].
  unfold reg_key in Hk. injection Hk as Ka Kn Kt. destruct Hrb as [Hr|(np & Hnp & Hy & Htext)].
  - apply not_true_iff_false in Hn. apply Hn, existsb_exists. exists (nonce_row b).
    split; [by apply list_elem_of_In|]. unfold same_nonce, nonce_row.
    cbn [nr_canonical_address nr_nonce]. by rewrite Ka, Kn, !String.eqb_refl.
  - pose proof (pruned_is_stale (ac_at b) (ac_ts b) np (env_now e) (pr_skew _ _ Hpb) Hyb Hy ltac:(lia) Htext).
    pose proof (pr_skew _ _ Hp) as Hs. rewrite Hat, Kt in Hs. congruence.
Qed.

Lemma log_ok_serve s t d log e r d' o :
  log_ok s t d log -> t < env_now e -> in_years (env_now e) ->
  in_years (env_now e + currentCoolingOff s e) -> apply_step s (Serve e r) d = (d', o) ->
  log_ok s (env_now e) d' (option_list o ++ log).
Proof.
  intros [Hl Hk] Ht Hy Hy' Ha. apply apply_serve in Ha as [[-> ->]|(a & -> & Ha)].
  { split; [|done]. eapply Forall_impl; [exact Hl|]. intros b Hb. eapply entry_later; [done|lia|].
    eapply remembered_keep; [apply Hb|lia|done]. }
  apply serve_inv in Ha as (Hp & Hat & Hpu & _ & Hn & ->). split; cbn.
  - constructor.
    + split; [done|lia|by rewrite Hat, Hpu|]. left. cbn. set_solver.
    + eapply Forall_impl; [exact Hl|]. intros b Hb. eapply entry_later; [done|lia|].
      eapply remembered_keep; [apply Hb|lia|]. cbn. set_solver.
  - constructor; [|done]. by eapply accepted_is_fresh.
Qed.

Lemma log_ok_pause s t d log v : log_ok s t d log -> log_ok s t (d <| ad_paused := v |>) log.
Proof.
  intros [Hl Hk]. split; [|done]. eapply Forall_impl; [exact Hl|]. intros b Hb.
  eapply entry_later; [done|lia|]. apply Hb.
Qed.

Lemma log_ok_prune s t d log now :
  log_ok s t d log -> t < now -> in_years (now - nonceTableRetention) -> log_ok s now (PruneNonces now d).1 log.
Proof.
  intros [Hl Hk] Ht Hy. split; [|done]. eapply Forall_impl; [exact Hl|]. intros b Hb.
  eapply entry_later; [done|lia|]. destruct (eo_nonce _ _ _ _ Hb) as [Hr|(np & ? & ? & ?)].
  - destruct (expired (formatUTC (now - nonceTableRetention)) (nonce_row b)) eqn:He.
    + right. exists now. by split.
    + left. cbn. apply elem_of_List_filter. by rewrite He.
  - right. exists np. split_and!; [lia|done..].
Qed.

Lemma log_ok_run s steps t d log :
  log_ok s t d log -> clocked s t steps ->
  log_ok s (last_clock t steps) (run_from s steps d log).1 (run_from s steps d log).2.
Proof.
  revert t d log. induction steps as [|st steps IH]; intros t d log Hi Hc; [done|].
  unfold run_from, last_clock. cbn [fold_left]. destruct (apply_step s st d) as [d' o] eqn:E.
  assert ((d', match o with Some a => a :: log | None => log end) = (d', option_list o ++ log)) as -> by (by destruct o).
  fold (run_from s steps d' (option_list o ++ log)). fold (last_clock (default t (step_time st)) steps).
  destruct st as [e r|now|v]; cbn [clocked step_time default] in *.
  - destruct Hc as (? & ? & ? & ?). apply IH; [|done]. by eapply log_ok_serve.
  - destruct Hc as (? & ? & ?). injection E as <- <-. apply IH; [|done]. by eapply log_ok_prune.
  - injection E as <- <-. apply IH; [|done]. by apply log_ok_pause.
Qed.

Lemma log_ok_reached s steps t d log :
  run s steps = (d, log) -> clocked s t steps -> log_ok s (last_clock t steps) d log.
Proof.
  intros Hr Hc. pose proof (log_ok_run s steps t empty_db []) as Hi. fold (run s steps) in Hi.
  rewrite Hr in Hi. apply Hi; [|done]. split; constructor.
Qed.

(** Claim C38. No signed registration is accepted twice: in a history whose clock readings increase from
    one transaction to the next, two accepted registrations differ in the address, the nonce or
    the time, although the nonces are pruned. *)
Theorem registration_accepted_once s steps t d log :
  run s steps = (d, log) -> clocked s t steps -> NoDup (map reg_key log).
Proof. intros Hr Hc. by destruct (log_ok_reached _ _ _ _ _ Hr Hc). Qed.

(** ** Who is paid *)

Lemma selected_row hot nowUTC limit payouts addresses row :
  row ∈ SelectReadyPayouts hot nowUTC limit payouts addresses ->
  exists l a, a ∈ addresses /\ payable_address hot nowUTC l a = true
    /\ rr_ProviderID row = ppa_provider_id a /\ rr_EffectiveAddress row = effective_address nowUTC a.
Proof.
  unfold SelectReadyPayouts. intros Hr.
  assert (row ∈ flat_map (fun l => if bool_decide (lpr_status l = ready) then
      map (fun a => mkReadyRow (lpr_id l) (lpr_provider_id l) (lpr_gross_credits l)
                      (lpr_provider_credits l) (effective_address nowUTC a))
        (List.filter (payable_address hot nowUTC l) addresses) else []) payouts) as Hj.
  { case_match; [|apply elem_of_take in Hr as (? & ?%list_elem_of_lookup_2 & _)];
      by rewrite merge_sort_Permutation in *. }
  apply list_elem_of_In, in_flat_map in Hj as (l & _ & Hl). case_match; [|done].
  apply in_map_iff in Hl as (a & <- & Ha). apply filter_In in Ha as [Ha Hp]. exists l, a.
  split_and!; [by apply list_elem_of_In|done|cbn|done]. unfold payable_address in Hp. by bool_hyps.
Qed.

(** Claim C28. The runner pays only to an address of the log: for every ready row it selects, the
    effective address is that of an accepted registration of the same provider, not denied and
    signed by the key of the address for this provider, address, chain, nonce, time and hot
    wallet. When each registration of the provider had cooled off before the next came, the
    address that is paid has cooled off, to the second. *)
Theorem paid_to_registered_address s steps t d log now limit payouts row :
  run s steps = (d, log) -> clocked s t steps -> last_clock t steps <= now -> in_years now ->
  row ∈ SelectReadyPayouts (HotWalletAddress s) (formatUTC now) limit payouts (ad_addresses d) ->
  exists a, a ∈ log /\ proper s a /\ ac_provider a = rr_ProviderID row
    /\ rr_EffectiveAddress row = Some (ac_address a)
    /\ (waited (of_provider (rr_ProviderID row) log) -> ac_pending_until a / second <= now / second).
Proof.
  intros Hr Hc Hnow Hy Hrow. pose proof (addresses_follow_log _ _ _ _ Hr) as Hf.
  destruct (log_ok_reached _ _ _ _ _ Hr Hc) as [Hl _]. rewrite Forall_forall in Hl.
  apply selected_row in Hrow as (l & ar & Ha & Hp & -> & ->). unfold payable_address in Hp. bool_hyps.
  specialize (Hf (ppa_provider_id ar)). set (p := ppa_provider_id ar) in *.
  assert (ar ∈ option_list (current_row s p (of_provider p log))) as Hin.
  { rewrite <- Hf. apply elem_of_List_filter. split; [done|]. unfold is_address_of.
    by apply andb_true_iff; split; apply String.eqb_eq. }
  assert (forall x, x ∈ of_provider p log -> x ∈ log /\ ac_provider x = p) as Hof.
  { intros x Hx. apply elem_of_List_filter in Hx as [Hx Hq]. by apply String.eqb_eq in Hq. }
  destruct (of_provider p log) as [|a rest] eqn:Ho; cbn in Hin; [by apply elem_of_nil in Hin|].
  apply list_elem_of_singleton in Hin. destruct (Hof a ltac:(by left)) as [Hal Hap].
  destruct (Hl a Hal) as [Hpa Hat [Hya Hyp] _].
  unfold effective_address, pending in *. rewrite Hin in *. cbn [ppa_pending_until_utc ppa_rotated_from ppa_address] in *.
  destruct (String.ltb (formatUTC now) (formatUTC (ac_pending_until a))) eqn:Hpend.
  - destruct rest as [|b rest]; [done|]. destruct (Hof b ltac:(by right; left)) as [Hbl Hbp].
    destruct (Hl b Hbl) as [Hpb _ _ _]. exists b. split_and!; try done.
    intros [Hw _]. pose proof (Z.div_le_mono (ac_at a) now second ltac:(done) ltac:(lia)). lia.
  - exists a. split_and!; try done. intros _. by apply text_ge_seconds in Hpend.
Qed.

(** ** One digest, one registration *)

(** Two texts are not a collision of Keccak-256. *)
Definition no_collision (x y : bytes) : Prop := keccak x = keccak y -> x = y.

(** The texts hashed for a digest. *)
Definition preimages (i : EIP712Inputs) : list bytes :=
  match AddressBytes (in_VerifyingContract i), AddressBytes (in_CanonicalAddr i) with
  | Done verifying, Done addr =>
      [string_bytes (in_ProviderID i); string_bytes (in_Chain i); concat (domain_parts verifying);
       concat (struct_parts i addr);
       concat [[25; 1]; keccak256 (domain_parts verifying); keccak256 (struct_parts i addr)]]
  | _, _ => []
  end.

Lemma uint256BE_bytes v : uint256BE v = repeat_zero 24 ++ be_bytes 8 v.
Proof. reflexivity. Qed.

Lemma uint256BE_inj v w : is_uint64 v -> is_uint64 w -> uint256BE v = uint256BE w -> v = w.
Proof.
  rewrite !uint256BE_bytes. intros Hv Hw E. apply (f_equal SetBytes) in E. cbn [repeat_zero repeat app] in E.
  rewrite !SetBytes_cons, !Z.mul_0_l, !Z.add_0_l, !SetBytes_be in E by apply Hv || apply Hw.
  unfold is_uint64, uint64_modulus in *. change (256 ^ Z.of_nat 8) with 18446744073709551616 in E.
  rewrite !Z.mod_small in E by lia. done.
Qed.

Lemma string_bytes_inj a b : string_bytes a = string_bytes b -> a = b.
Proof.
  unfold string_bytes, text_bytes. intros E. apply GoStr.chars_inj. revert E.
  generalize (GoStr.chars a) (GoStr.chars b). intros l. induction l as [|c l IH]; intros [|c' l'] E; try done.
  cbn in E. injection E as Ec El. apply N2Z.inj, (f_equal ascii_of_N) in Ec.
  rewrite !ascii_N_embedding in Ec. by rewrite Ec, (IH _ El).
Qed.

(** Hashes of equal length, one after the other. *)
Lemma hash_app x y (a b : bytes) : keccak x ++ a = keccak y ++ b -> keccak x = keccak y /\ a = b.
Proof. intros E. apply app_inj_1 in E; [done|by rewrite !keccak_length]. Qed.

Lemma digest_inv i d :
  buildDigest i = Done d -> exists verifying addr,
    AddressBytes (in_VerifyingContract i) = Done verifying /\ AddressBytes (in_CanonicalAddr i) = Done addr
    /\ d = keccak (concat [[25; 1]; keccak256 (domain_parts verifying); keccak256 (struct_parts i addr)])
    /\ preimages i = [string_bytes (in_ProviderID i); string_bytes (in_Chain i); concat (domain_parts verifying);
       concat (struct_parts i addr);
       concat [[25; 1]; keccak256 (domain_parts verifying); keccak256 (struct_parts i addr)]].
Proof.
  unfold buildDigest, preimages. intros Hd. inv_done.
  match goal with H1 : AddressBytes (in_VerifyingContract i) = Done ?v, H2 : AddressBytes (in_CanonicalAddr i) = Done ?a |- _ =>
    exists v, a; rewrite H1, H2 end. by subst d.
Qed.

Lemma domain_inj v w : concat (domain_parts v) = concat (domain_parts w) -> v = w.
Proof.
  unfold domain_parts, leftPadAddress. cbn [concat]. rewrite !app_nil_r. intros E.
  by repeat apply app_inv_head in E.
Qed.

Lemma struct_inj i j a b :
  length a = length b -> length (in_Nonce32 i) = length (in_Nonce32 j) ->
  concat (struct_parts i a) = concat (struct_parts j b) ->
  keccak (string_bytes (in_ProviderID i)) = keccak (string_bytes (in_ProviderID j)) /\ a = b
  /\ keccak (string_bytes (in_Chain i)) = keccak (string_bytes (in_Chain j))
  /\ in_Nonce32 i = in_Nonce32 j /\ uint256BE (in_TsUtc i) = uint256BE (in_TsUtc j).
Proof.
  intros Hl Hn. unfold struct_parts, keccak256OfString, keccak256, leftPadAddress. cbn [concat].
  rewrite !app_nil_r, <- !app_assoc. intros E. apply app_inv_head, hash_app in E as [Ep E].
  apply app_inv_head, app_inj_1 in E as [Ea E]; [|done]. apply hash_app in E as [Ec E].
  apply app_inj_1 in E as [En Et]; [|done]. done.
Qed.

Ltac in_list := repeat first [left; reflexivity | right].

(** A signature authorises one registration: two inputs with one digest have the same provider,
    address, chain, nonce, time and hot wallet, unless two of the texts that are hashed collide. *)
Theorem digest_binds_registration i j d :
  length (in_Nonce32 i) = 32%nat -> length (in_Nonce32 j) = 32%nat ->
  is_uint64 (in_TsUtc i) -> is_uint64 (in_TsUtc j) ->
  (forall x y, x ∈ preimages i -> y ∈ preimages j -> no_collision x y) ->
  buildDigest i = Done d -> buildDigest j = Done d ->
  in_ProviderID i = in_ProviderID j /\ in_Chain i = in_Chain j /\ in_Nonce32 i = in_Nonce32 j
  /\ in_TsUtc i = in_TsUtc j /\ AddressBytes (in_CanonicalAddr i) = AddressBytes (in_CanonicalAddr j)
  /\ AddressBytes (in_VerifyingContract i) = AddressBytes (in_VerifyingContract j).
Proof.
  intros Hni Hnj Hti Htj Hc Hi Hj.
  apply digest_inv in Hi as (v & a & Hv & Ha & Hd & Pi). apply digest_inv in Hj as (w & b & Hw & Hb & Hd' & Pj).
  rewrite Pi, Pj in Hc. rewrite Hd in Hd'. apply Hc in Hd'; [|in_list..].
  cbn [concat] in Hd'. rewrite !app_nil_r in Hd'. apply app_inv_head in Hd'.
  apply hash_app in Hd' as [Ed Es]. apply Hc in Ed, Es; [|in_list..].
  apply domain_inj in Ed. pose proof (AddressBytes_ok _ _ Ha) as [_ La]. pose proof (AddressBytes_ok _ _ Hb) as [_ Lb].
  apply struct_inj in Es as (Ep & Ea & Ec & En & Et); [|unfold len in *; lia|congruence].
  apply Hc in Ep, Ec; [|in_list..]. apply string_bytes_inj in Ep, Ec. apply uint256BE_inj in Et; [|done..].
  split_and!; congruence.
Qed.

(** ** Refused and accepted requests *)

Lemma bind_attempt_inl {A B} (m : attempt A) (f : A -> attempt B) r :
  m ≫= f = inl r -> m = inl r \/ exists a, f a = inl r.
Proof. destruct m; cbn; intros E; [left; congruence|eauto]. Qed.

Lemma ensure_inl ok r r' : ensure ok r = inl r' -> r' = r.
Proof. destruct ok; [done|]. intros E. by injection E. Qed.

Lemma expect_value_inl {A} (o : option A) r r' : expect_value o r = inl r' -> r' = r.
Proof. destruct o; [done|]. intros E. by injection E. Qed.

Lemma expect_done_inl {A} (o : outcome A) r r' : expect_done o r = inl r' -> r' = r.
Proof. destruct o; [done|intros E; by injection E..]. Qed.

(** Follows an early return to its place. *)
Ltac inv_refusal :=
  repeat match goal with
  | H : _ ≫= _ = inl _ |- _ => apply bind_attempt_inl in H as [H|[? H]]
  | H : context [match ?p with (_, _) => _ end] |- _ => is_var p; destruct p
  | H : ensure _ _ = inl _ |- _ => apply ensure_inl in H
  | H : expect_value _ _ = inl _ |- _ => apply expect_value_inl in H
  | H : expect_done _ _ = inl _ |- _ => apply expect_done_inl in H
  | H : inl _ = inl _ |- _ => injection H as H
  end.

Lemma authenticate_refusal e r rep : authenticate e r = inl rep -> 400 <= re_status rep.
Proof. unfold authenticate. intros E. inv_refusal; subst rep; cbn [failure re_status]; lia. Qed.

Lemma validate_refusal s e r rep : validate s e r = inl rep -> 400 <= re_status rep.
Proof.
  unfold validate. intros E. inv_refusal; try (subst rep; cbn [failure unknown_provider re_status]; lia); [|discriminate].
  destruct (ParseAndCanonicalizeEIP55 _) as [[]|]; inv_refusal; [subst rep; cbn [failure re_status]; lia..|discriminate].
Qed.

Lemma transact_refusal s e r v d rep : transact s e r v d = inl rep -> 400 <= re_status rep.
Proof.
  unfold transact. intros E. inv_refusal; try (subst rep; cbn [failure re_status]; lia); [|discriminate].
  destruct (find _ _) as [row|]; [destruct (negb _)|]; inv_refusal;
    first [discriminate | subst rep; cbn [failure re_status]; lia].
Qed.

(** A request is answered with 200 or 201 when its registration is accepted, and with 400 or
    more when not; then the tables are as they were, the nonce that was already inserted
    included. While registrations are paused, or the flag is missing, none is accepted, whatever
    the check before the authentication read. *)
Theorem refused_request_changes_nothing s e r d d' reply o :
  ServePayoutAddress s e r d = (d', reply, o) ->
  (match o with
   | Some a => (re_status reply = 200 \/ re_status reply = 201) /\ proper s a
               /\ ad_paused d <> Some 1 /\ ad_paused d <> None
   | None => 400 <= re_status reply /\ d' = d
   end).
Proof.
  unfold ServePayoutAddress. destruct (serve s e r d) as [rep|[d1 a]] eqn:Es; intros E; injection E as <- <- <-.
  - split; [|done]. unfold serve in Es. inv_refusal;
      [by eapply authenticate_refusal|by eapply validate_refusal|by eapply transact_refusal].
  - pose proof (serve_inv _ _ _ _ _ _ Es) as (Hp & _ & _ & Hf & _).
    unfold serve in Es. inv_attempt. apply transact_inv in Es as (_ & _ & _ & _ & H200 & H201).
    cbn [success re_status]. split_and!; [|done| |].
    + destruct (find _ _) as [row|]; [left; by eapply H200|right; by apply H201].
    + intros E. by rewrite E in Hf.
    + intros E. by rewrite E in Hf.
Qed.

(** What a request must have to be accepted. *)
Record acceptable (s : AddressesService) (e : Env) (r : Request) (d : AddrDB) (b : registerRequest)
    (canonical : string) (nonce32 : bytes) : Prop := {
  aq_flags : env_early_flag e = Some 0 /\ ad_paused d = Some 0 /\ env_faults e = no_faults;
  aq_token : bearerFromHeader (rq_Authorization r) <> ""
    /\ env_ValidateToken e (bearerFromHeader (rq_Authorization r)) = Some (rq_provider_id r, true);
  aq_body : rq_body r = Some b /\ missing_field b = false /\ rq_Chain b = "base-mainnet";
  aq_address : ParseAndCanonicalizeEIP55 (rq_Address b) = inr canonical
    /\ Contains (Some (sv_DenyList s)) canonical = false;
  aq_provider : providerIDPattern (rq_provider_id r) = true /\ env_HasActiveToken e (rq_provider_id r) = Some true;
  aq_time : within_skew (env_now e) (rq_TsUtc b) = true;
  aq_nonce : DecodeNonce32 (rq_Nonce b) = Done nonce32
    /\ existsb (same_nonce (GoStr.ToLower canonical) (nonce_hex nonce32)) (ad_nonces d) = false;
  aq_signature : exists digest,
    VerifyEIP712 (inputs_of s (rq_provider_id r) canonical (rq_Chain b) nonce32 (rq_TsUtc b)) (rq_Signature b)
    = Done digest;
}.

Lemma bind_inr {A B} (m : attempt A) (f : A -> attempt B) a : m = inr a -> m ≫= f = f a.
Proof. by intros ->. Qed.

Ltac go_on :=
  cbn [no_faults fail_pause fail_conn fail_begin fail_pause2 fail_nonce fail_select fail_write fail_commit
       IsRegistrationPaused mbind option_bind attempt_bind expect_value expect_done Z.eqb negb ensure].

Lemma acceptable_authenticates s e r d b c n : acceptable s e r d b c n -> authenticate e r = inr tt.
Proof.
  intros [(Hf & _ & Hn) [Ht Hv] _ _ _ _ _ _]. unfold authenticate. rewrite Hf, Hn, Hv.
  apply String.eqb_neq in Ht. rewrite Ht.
  go_on. by rewrite String.eqb_refl.
Qed.

Lemma acceptable_validates s e r d b c n :
  acceptable s e r d b c n -> validate s e r = inr (mkValidated b c n).
Proof.
  intros [_ _ (Hb & Hm & Hc) [Ha Hd] [Hp Hi] Hw [Hn _] [dg Hs]]. unfold validate. cbv zeta.
  rewrite Hb. go_on. rewrite Hm, Hc. go_on. rewrite String.eqb_refl. go_on. rewrite Ha. go_on.
  rewrite Hp. go_on. rewrite Hi. go_on. rewrite Hd. go_on. rewrite Hw. go_on. rewrite Hn. go_on.
  rewrite Hc in Hs. by rewrite Hs.
Qed.

(** A valid request is accepted: the first registration of a provider with 201, a rotation of a
    provider that may be paid with 200; a rotation of one that may not is refused with 409. *)
Theorem valid_request_is_answered s e r d b canonical nonce32 :
  acceptable s e r d b canonical nonce32 ->
  Forall (fun a => ppa_address a <> "") (ad_addresses d) ->
  re_status (ServePayoutAddress s e r d).1.2
  = match find (is_address_of (rq_provider_id r) "base-mainnet") (ad_addresses d) with
    | None => 201
    | Some row => if ppa_payout_allowed row then 200 else 409
    end.
Proof.
  intros Ha Hne. unfold ServePayoutAddress, serve.
  rewrite (acceptable_authenticates _ _ _ _ _ _ _ Ha), (bind_inr _ _ tt) by done.
  rewrite (acceptable_validates _ _ _ _ _ _ _ Ha), (bind_inr _ _ (mkValidated b canonical nonce32)) by done.
  destruct Ha as [(_ & Hp & Hf) _ (_ & _ & Hc) _ _ _ [_ Hn] _]. unfold transact. cbv zeta.
  cbn [va_body va_canonical va_nonce32]. rewrite Hf, Hp. go_on. rewrite Hn, Hc. go_on.
  destruct (find _ _) as [row|] eqn:Hr; [|reflexivity].
  apply find_Some_elem in Hr as [Hr _]. rewrite Forall_forall in Hne. apply Hne, String.eqb_neq in Hr.
  rewrite Hr. cbn [negb]. by destruct (ppa_payout_allowed row).
Qed.

(** ** The deny-list and the texts *)

Lemma add_extras_spec extras set set' x :
  add_extras set extras = Done set' ->
  (x ∈ set' <-> x ∈ set \/ exists raw, raw ∈ extras /\ NormalizeAddress raw = Done x).
Proof.
  revert set. induction extras as [|raw extras IH]; intros set; cbn [add_extras]; intros E; inv_done.
  { subst. set_solver. }
  rewrite (IH _ E). split.
  - intros [Hx|(raw' & ? & ?)]; [|set_solver].
    apply elem_of_union in Hx as [->%elem_of_singleton|]; [|by left]. right. exists raw. set_solver.
  - intros [Hx|(raw' & [->|Hr]%elem_of_cons & Hn)]; [set_solver| |set_solver].
    left. apply elem_of_union_l, elem_of_singleton. congruence.
Qed.

(** The deny-list refuses an address exactly when its lower-case form is one of the fixed four,
    the hot wallet or one of the extras. *)
Theorem deny_list_spec hot extras set addr :
  NewDenyList hot extras = Done set ->
  (Contains (Some set) addr = true <->
   GoStr.ToLower addr ∈ minimumDenyListLower
   \/ (hot <> "" /\ NormalizeAddress hot = Done (GoStr.ToLower addr))
   \/ exists raw, raw ∈ extras /\ NormalizeAddress raw = Done (GoStr.ToLower addr)).
Proof.
  unfold NewDenyList, Contains.
  assert (forall y : string, y ∈ (list_to_set minimumDenyListLower : gset string) <-> y ∈ minimumDenyListLower)
    as Hm by (intros y; apply elem_of_list_to_set).
  revert Hm. generalize (list_to_set minimumDenyListLower : gset string). intros fixed Hm E. cbv zeta in E.
  inv_done. rewrite bool_decide_eq_true, (add_extras_spec _ _ _ _ E).
  match goal with H : (if _ then _ else _) = Done _ |- _ => rename H into Hh end.
  destruct (String.eqb hot "") eqn:Hot; inv_done; subst; bool_hyps.
  - rewrite Hm. split; [intros [|]; tauto|intros [|[[]|]]; tauto].
  - rewrite elem_of_union, elem_of_singleton, Hm. split.
    + intros [[->|]|]; tauto.
    + intros [|[[_ Hn]|]]; [tauto| |tauto]. left. left. congruence.
Qed.

Definition plain_char (c : ascii) : bool :=
  between 32 126 (code c) && negb ((code c =? 34) || (code c =? 92)).

Lemma hex_plain l : isHexAlphabet l = true -> forallb plain_char l = true.
Proof.
  unfold isHexAlphabet. intros Hl. apply forallb_forall. intros c Hc. eapply forallb_forall in Hl; [|exact Hc].
  unfold plain_char, between in *. lia.
Qed.

Lemma digits_plain fuel n : forallb plain_char (length_digits fuel n) = true.
Proof.
  revert n. induction fuel as [|fuel IH]; intros n; [done|]. cbn [length_digits].
  rewrite forallb_app. apply andb_true_iff. split; [case_match; [done|apply IH]|].
  cbn [forallb]. unfold plain_char, code. rewrite digit_code. pose proof (Z.mod_pos_bound n 10 ltac:(lia)).
  rewrite Z2N.id by lia. unfold between. lia.
Qed.

Lemma plain_firstn n l : forallb plain_char l = true -> forallb plain_char (firstn n l) = true.
Proof. intros Hl. rewrite <- (firstn_skipn n l), forallb_app in Hl. by apply andb_true_iff in Hl as []. Qed.

Lemma plain_skipn n l : forallb plain_char l = true -> forallb plain_char (skipn n l) = true.
Proof. intros Hl. rewrite <- (firstn_skipn n l), forallb_app in Hl. by apply andb_true_iff in Hl as []. Qed.

(** Whatever a client submits as its address, the log line holds printable characters, without
    a quote or a backslash. *)
Theorem fingerprint_is_printable s : forallb plain_char (GoStr.chars (addressFingerprint s)) = true.
Proof.
  unfold addressFingerprint. case_match; [done|]. cbv zeta.
  match goal with |- context [isHexAlphabet ?x] => generalize x end. intros body.
  destruct (isHexAlphabet body) eqn:Hb; cbn [negb]; [apply hex_plain in Hb; case_match|];
    rewrite !GoStr.chars_app; unfold length_text; rewrite !GoStr.chars_of_chars, !forallb_app, !digits_plain;
    rewrite ?Hb, ?(plain_firstn _ _ Hb), ?(plain_skipn _ _ Hb); reflexivity.
Qed.
End Eip712.

(** ** Concrete histories *)

Module AddressExample.
Import EvmExample.

(** The address whose key the toy library recovers, and another one as the hot wallet. *)
Definition mac_address : string := hot.
Definition deny : gset string := Eval vm_compute in
  match NewDenyList payee [] with Done l => l | _ => ∅ end.
Definition service : AddressesService := mkService payee deny (24 * 3600 * second).

Definition t0 : Z := 1767225600.
Definition signature : string :=
  "0x" +:+ hex_text (be_bytes 32 11 ++ be_bytes 32 13 ++ [27]).

Definition env (now : Z) : Env :=
  mkEnv now None (Some 0) (fun tok => if String.eqb tok "tok" then Some ("mac-1", true) else None)
    (fun p => Some (String.eqb p "mac-1")) no_faults.

Definition request (nonce ts : Z) : Request :=
  mkRequest "mac-1" "Bearer tok" "" "10.0.0.7:5000"
    (Some (mkRegister "base-mainnet" mac_address (nonce_hex (be_bytes 32 nonce)) ts signature)).

Definition owed : PayoutRow :=
  mkPayoutRow 7 "mac-1" "2026-01-01" "2026-01-08" 7 3 1000 900 100 1 None None ready "k" "2026-01-08".

(** A registration, a prune, a replay of it and, after the cooling-off, a rotation. *)
Definition history : list AddrStep :=
  [Serve (env (t0 * second)) (request 1 t0); Prune ((t0 + 60) * second);
   Serve (env ((t0 + 70) * second)) (request 1 t0);
   Serve (env ((t0 + 90000) * second)) (request 2 (t0 + 90000))].
End AddressExample.
Import EvmExample AddressExample.

Example history_answers :
  map (fun a => (ac_status a, ac_at a / second - t0)) (run service history).2 = [(200, 90000); (201, 0)].
Proof. vm_compute. reflexivity. Qed.

(** A provider that registers one address twice is paid there at once: the second registration
    takes the first, which has not cooled off, for the address to pay meanwhile. *)
Example double_registration_skips_cooling_off :
  let d := (run service [Serve (env (t0 * second)) (request 1 t0);
                         Serve (env ((t0 + 1) * second)) (request 2 t0)]).1 in
  map rr_EffectiveAddress
    (SelectReadyPayouts payee (formatUTC ((t0 + 2) * second)) 50 [owed] (ad_addresses d))
  = [Some (match ParseAndCanonicalizeEIP55 mac_address with inr c => c | _ => "" end)].
Proof. vm_compute. reflexivity. Qed.

(** One registration is not paid before its cooling-off ends. *)
Example single_registration_waits :
  let d := (run service [Serve (env (t0 * second)) (request 1 t0)]).1 in
  (SelectReadyPayouts payee (formatUTC ((t0 + 86399) * second)) 50 [owed] (ad_addresses d),
   length (SelectReadyPayouts payee (formatUTC ((t0 + 86400) * second)) 50 [owed] (ad_addresses d)))
  = ([], 1%nat).
Proof. vm_compute. reflexivity. Qed.

(** The nonces are compared as texts whose fraction has no trailing zeros: a prune at the full
    second takes the nonce of a registration half a second too early, and a replay with the same
    clock reading is accepted. *)
Example simultaneous_replay_is_accepted :
  let at1 := t0 * second + 500000000 in
  length (run service [Serve (env at1) (request 1 (t0 + 300)); Prune ((t0 + 600) * second);
                       Serve (env ((t0 + 600) * second)) (request 1 (t0 + 300))]).2 = 2%nat.
Proof. vm_compute. reflexivity. Qed.

Lemma history_clocked : clocked service 0 history.
Proof. cbn. unfold in_years, day, currentCoolingOff, nonceTableRetention. cbn. unfold t0, second. lia. Qed.

Lemma registration_accepted_once_witness : NoDup (map reg_key (run service history).2).
Proof.
  eapply (registration_accepted_once service history 0 (run service history).1);
    [by destruct (run service history)|apply history_clocked].
Defined.

Lemma paid_to_registered_address_witness :
  exists a, a ∈ (run service history).2 /\ proper service a /\ ac_provider a = "mac-1"
    /\ ac_pending_until a / second <= (t0 + 90001) * second / second.
Proof.
  destruct (paid_to_registered_address service history 0 (run service history).1 (run service history).2
    ((t0 + 90001) * second) 50 [owed]
    (mkReadyRow 7 "mac-1" 1000 900
       (Some (match ParseAndCanonicalizeEIP55 mac_address with inr c => c | _ => "" end))))
    as (a & Ha & Hp & Hq & _ & Hw).
  - by destruct (run service history).
  - apply history_clocked.
  - vm_compute. discriminate.
  - unfold in_years, day, t0, second. lia.
  - vm_compute. left.
  - exists a. split; [exact Ha|split; [exact Hp|split; [exact Hq|]]]. apply Hw. vm_compute. split; [discriminate|exact I].
Defined.

(** One registration with the address written in two ways. *)
Definition inputs_lower : EIP712Inputs :=
  inputs_of service "mac-1" mac_address "base-mainnet" (be_bytes 32 1) t0.
Definition inputs_upper : EIP712Inputs :=
  inputs_of service "mac-1" ("0x" +:+ GoStr.of_chars (map upper_ascii (skipn 2 (GoStr.chars mac_address))))
    "base-mainnet" (be_bytes 32 1) t0.
Definition toy_digest : bytes := Eval vm_compute in
  match buildDigest inputs_lower with Done d => d | _ => [] end.

Definition collision_free (xs ys : list bytes) : bool :=
  forallb (fun x => forallb (fun y => bytes_eqb x y || negb (bytes_eqb (keccak x) (keccak y))) ys) xs.

Lemma collision_free_spec xs ys :
  collision_free xs ys = true -> forall x y, x ∈ xs -> y ∈ ys -> no_collision x y.
Proof.
  unfold collision_free. intros Hc x y Hx Hy Hk. rewrite forallb_forall in Hc.
  apply list_elem_of_In in Hx, Hy. specialize (Hc x Hx). rewrite forallb_forall in Hc. specialize (Hc y Hy).
  unfold bytes_eqb in Hc. rewrite (bool_decide_eq_true_2 _ Hk), orb_false_r in Hc. by apply bool_decide_eq_true_1 in Hc.
Qed.

Lemma digest_binds_registration_witness :
  buildDigest inputs_lower = Done toy_digest /\ buildDigest inputs_upper = Done toy_digest
  /\ AddressBytes (in_CanonicalAddr inputs_lower) = AddressBytes (in_CanonicalAddr inputs_upper).
Proof.
  assert (buildDigest inputs_lower = Done toy_digest) as H1 by (vm_compute; reflexivity).
  assert (buildDigest inputs_upper = Done toy_digest) as H2 by (vm_compute; reflexivity).
  split; [exact H1|split; [exact H2|]].
  destruct (digest_binds_registration inputs_lower inputs_upper toy_digest) as (_ & _ & _ & _ & Ha & _).
  - reflexivity.
  - reflexivity.
  - split; [discriminate|reflexivity].
  - split; [discriminate|reflexivity].
  - apply collision_free_spec. vm_compute. reflexivity.
  - exact H1.
  - exact H2.
  - exact Ha.
Defined.
