(* ===== verification/Trust.v ===== *)
(** The trust tier of a provider: [internal/rewards/unlock.go], [unlock_types.go],
    [unlock_admin.go], [pool_connectivity.go], [wallet_mirror.go] and [SetTrustTier] of
    [withdrawal.go].

    The tables are a [RewardsDB]. [evaluateProviderTrust] is one evaluation of a provider,
    with the pool snapshot, the verdict rows of the billing database, the balance check and
    the failures of the database as its environment; [RequestTrustPromotion] and
    [ApproveTrustPromotion] are the two halves of an operator promotion with their handlers;
    [upsertProjection] mirrors a payout address. Postgres stores a time in microseconds: how
    it rounds is the class [PgTime].

    The theorems: the pair of criteria is the documented rule, two facts of which one is
    economic; a provider that was demoted is trusted again only 72 hours later and only after
    the pair held at every evaluation of 72 hours; an operator promotion took two operators
    with different credentials. *)
From S2P Require Import Prelude GoTime Ledger PayoutStore Pool Selection.

(** ** The tables *)

(** [provider_emission_state]; the amount is in units of 1e-8 *)
Record EmissionRow := mkEmission {
  es_trust_tier : string;
  es_bound_wallet : option string;
  es_cap_replay_pending : bool;
  es_provider_day_malibu : Z;
  es_emission_day : option Z;
  es_demotion_cooldown_until : option Z;
}.

#[export] Instance rebuild_EmissionRow : Rebuild EmissionRow := fun r =>
  mkEmission (es_trust_tier r) (es_bound_wallet r) (es_cap_replay_pending r)
    (es_provider_day_malibu r) (es_emission_day r) (es_demotion_cooldown_until r).

(** [provider_trust_eval_state] *)
Record EvalRow := mkEval {
  ev_uptime_ok_since : option Z;
  ev_wallet_balance_ok_since : option Z;
  ev_unlock_pair_ok_since : option Z;
  ev_last_eval_at : Z;
}.

#[export] Instance rebuild_EvalRow : Rebuild EvalRow := fun r =>
  mkEval (ev_uptime_ok_since r) (ev_wallet_balance_ok_since r) (ev_unlock_pair_ok_since r) (ev_last_eval_at r).

(** [provider_trust_promotion_pending] *)
Record PendingRow := mkPending {
  pp_provider_id : string;
  pp_requested_by : string;
  pp_reason : string;
  pp_incident_id : option string;
  pp_approved_by : option string;
  pp_committed_at : option Z;
  pp_status : string;
}.

#[export] Instance rebuild_PendingRow : Rebuild PendingRow := fun r =>
  mkPending (pp_provider_id r) (pp_requested_by r) (pp_reason r) (pp_incident_id r) (pp_approved_by r)
    (pp_committed_at r) (pp_status r).

(** [provider_trust_operator_promotions] *)
Record PromotionRow := mkPromotion {
  po_promoted_by : string;
  po_reason : string;
  po_pending_id : string;
  po_promoted_at : Z;
}.

(** [provider_payout_addresses_proj], whose chain is always [base-mainnet] *)
Record ProjRow := mkProj {
  pj_address : string;
  pj_payout_allowed : bool;
  pj_registered_at_utc : Z;
}.

(** [provider_rewards_ledger], the rows with a MALIBU amount *)
Record RewardRow := mkReward {
  rw_id : Z;
  rw_provider_id : string;
  rw_unix_ts : Z;
  rw_amount_malibu : Z;
  rw_withdrawal_hold_reason : option string;
}.

#[export] Instance rebuild_RewardRow : Rebuild RewardRow := fun r =>
  mkReward (rw_id r) (rw_provider_id r) (rw_unix_ts r) (rw_amount_malibu r) (rw_withdrawal_hold_reason r).

Record RewardsDB := mkRewards {
  rd_emission : gmap string EmissionRow;
  rd_eval : gmap string EvalRow;
  rd_pending : gmap string PendingRow;
  rd_promotions : gmap string PromotionRow;
  rd_proj : gmap string ProjRow;
  (** [provider_identities.attested] *)
  rd_identities : gmap string bool;
  rd_wallet_daily : gmap (string * Z) Z;
  rd_ledger : list RewardRow;
  rd_next : Z;
}.

#[export] Instance rebuild_RewardsDB : Rebuild RewardsDB := fun d =>
  mkRewards (rd_emission d) (rd_eval d) (rd_pending d) (rd_promotions d) (rd_proj d) (rd_identities d)
    (rd_wallet_daily d) (rd_ledger d) (rd_next d).

Definition empty_rewards (identities : gmap string bool) : RewardsDB :=
  mkRewards ∅ ∅ ∅ ∅ ∅ identities ∅ [] 1.

(** A [TIMESTAMPTZ] column keeps microseconds. *)
Class PgTime := {
  pg_time : Z -> Z;
  pg_time_close t : Z.abs (pg_time t - t) <= 500;
  pg_time_whole t : pg_time t mod 1000 = 0;
  pg_time_kept t : t mod 1000 = 0 -> pg_time t = t;
}.

(** ** The criteria: [unlock_types.go] *)

Definition hour : Z := 3600 * second.
Definition TierProvisional : string := "provisional".
Definition TierTrusted : string := "trusted".
Definition CriterionE1Receipts : string := "E1".
Definition CriterionE2WalletEconomic : string := "E2".
Definition CriterionE3Operator : string := "E3".
Definition CriterionUptime72h : string := "A1".
Definition CriterionWalletBalance72h : string := "A3".
Definition CriterionAppAttest : string := "A4".
Definition trustRequalifyWindow : Z := 72 * hour.
Definition uptimeGapThreshold : Z := 5 * 60 * second.
Definition uptimeRequiredWindow : Z := 72 * hour.
Definition minVerifiedReceipts : Z := 100.

Record satisfiedInput := mkSatisfied {
  si_ReceiptCount : Z;
  si_WalletBound : bool;
  si_WalletBalanceOK : bool;
  si_OperatorPromoted : bool;
  si_UptimeOK : bool;
  si_AppAttested : bool;
}.

Definition satisfiedCriteria (i : satisfiedInput) : list string * list string :=
  let e1 := minVerifiedReceipts <=? si_ReceiptCount i in
  let e2 := si_WalletBound i && si_WalletBalanceOK i in
  ((if e1 then [CriterionE1Receipts] else []) ++ (if e2 then [CriterionE2WalletEconomic] else [])
     ++ (if si_OperatorPromoted i then [CriterionE3Operator] else []),
   (if e1 then [CriterionE1Receipts] else []) ++ (if e2 then [CriterionWalletBalance72h] else [])
     ++ (if si_UptimeOK i then [CriterionUptime72h] else [])
     ++ (if si_AppAttested i then [CriterionAppAttest] else [])).

Definition criteriaOverlap (economic additional : string) : bool :=
  String.eqb economic additional
  || (String.eqb economic CriterionE2WalletEconomic && String.eqb additional CriterionWalletBalance72h)
  || (String.eqb economic CriterionWalletBalance72h && String.eqb additional CriterionE2WalletEconomic).

Definition distinctUnlockPair (economic additional : list string) : bool :=
  existsb (fun e => existsb (fun a => negb (criteriaOverlap e a)) additional) economic.

Definition pair_ok (i : satisfiedInput) : bool :=
  let '(economic, additional) := satisfiedCriteria i in distinctUnlockPair economic additional.

Fixpoint unique_ids (seen : gset string) (l : list string) : list string :=
  match l with
  | [] => []
  | x :: l => if bool_decide (x ∈ seen) then unique_ids seen l else x :: unique_ids ({[x]} ∪ seen) l
  end.

Definition uniqueCriterionIDs (l : list string) : list string := unique_ids ∅ l.

(** ** What an evaluation reads *)

(** [HeartbeatOK] of [PoolHeartbeatBridge]; [None] is a bridge that is not wired. *)
Definition HeartbeatOK (snapshot : option (list Provider)) (providerID : string) (now : Z) : bool :=
  match snapshot with
  | None => false
  | Some ps =>
      match find (fun p => String.eqb (p_ProviderID p) providerID) ps with
      | None => false
      | Some p => if IsZero (p_LastHeartbeatAt p) then false
                  else time_sub now (p_LastHeartbeatAt p) <=? uptimeGapThreshold
      end
  end.

(** [countVerifiedReceipts] over the rows of [settlement_receipt_verdicts], none when the
    table does not exist. *)
Definition countVerifiedReceipts (rows : list VerdictRow) (providerID : string) : Z :=
  count (fun v => String.eqb (srv_provider_id v) providerID && srv_closed v
                  && String.eqb (srv_settlement_outcome v) "verified"
                  && String.eqb (srv_receipt_result v) "valid") rows.

(** The address of [providerWalletAddress]; "" when there is none. *)
Definition providerWalletAddress (d : RewardsDB) (p : string) : string :=
  match rd_proj d !! p with
  | Some row => if pj_payout_allowed row then pj_address row else ""
  | None => ""
  end.

Definition providerWalletBound (d : RewardsDB) (p : string) : bool :=
  negb (String.eqb (GoStr.TrimSpace (providerWalletAddress d p)) "").

Definition providerAppAttested (d : RewardsDB) (p : string) : bool :=
  match rd_identities d !! p with Some b => b | None => false end.

Definition providerOperatorPromoted (d : RewardsDB) (p : string) : bool :=
  is_some (rd_promotions d !! p).

(** The environment of one evaluation. *)
Record EvalEnv := mkEvalEnv {
  ee_now : Z;
  (** the reading of the clock in [SetTrustTier] *)
  ee_tier_at : Z;
  (** [None]: the billing database cannot be read *)
  ee_verdicts : option (list VerdictRow);
  ee_snapshot : option (list Provider);
  (** the balance check is configured *)
  ee_checker : bool;
  (** [USDCBalanceAtLeast]; [None] is an error *)
  ee_balance : string -> option bool;
  (** failures of the statements *)
  ee_fail_read : bool;
  ee_fail_persist : bool;
  ee_fail_tier : bool;
  ee_fail_clear : bool;
}.

Definition walletBalanceInstantOK (checker : bool) (e : EvalEnv) (d : RewardsDB) (p : string) : option bool :=
  if negb (providerWalletBound d p) || negb checker then Some false
  else ee_balance e (providerWalletAddress d p).

Definition advanceWindow (current : option Z) (ok : bool) (now : Z) : option Z :=
  if ok then match current with Some t => Some t | None => Some now end else None.

Definition window_met (since : option Z) (now window : Z) : bool :=
  match since with Some t => window <=? time_sub now t | None => false end.

Record trustEvalState := mkTrustState {
  ts_UptimeOKSince : option Z;
  ts_WalletBalanceOKSince : option Z;
  ts_UnlockPairOKSince : option Z;
  ts_DemotionCooldownUntil : option Z;
  ts_TrustTier : string;
}.

(** [loadTrustEvalState]: the left join of the two tables *)
Definition loadTrustEvalState (d : RewardsDB) (p : string) : trustEvalState :=
  match rd_emission d !! p with
  | None => mkTrustState None None None None TierProvisional
  | Some es =>
      let ev := rd_eval d !! p in
      mkTrustState (ev ≫= ev_uptime_ok_since) (ev ≫= ev_wallet_balance_ok_since)
        (ev ≫= ev_unlock_pair_ok_since) (es_demotion_cooldown_until es) (es_trust_tier es)
  end.

Section Trust.
Context `{PgTime}.

(** ** The evaluation *)

Definition persistTrustEvalState (p : string) (uptime balance pair : option Z) (at_ : Z) (d : RewardsDB)
    : RewardsDB :=
  d <| rd_eval := <[p := mkEval (pg_time <$> uptime) (pg_time <$> balance) (pg_time <$> pair) (pg_time at_)]>
                    (rd_eval d) |>.

Definition new_emission (tier : string) (wallet : option string) (replay : bool) (cooldown : option Z)
    : EmissionRow := mkEmission tier wallet replay 0 None cooldown.

Definition SetTrustTier (p tier : string) (now : Z) (d : RewardsDB) : RewardsDB :=
  let cooldown := if String.eqb tier TierProvisional then Some (pg_time (now + trustRequalifyWindow)) else None in
  let row := match rd_emission d !! p with
             | None => new_emission tier None false cooldown
             | Some es => es <| es_trust_tier := tier |>
                 <| es_demotion_cooldown_until := if String.eqb tier "trusted" then None else cooldown |>
             end in
  d <| rd_emission := <[p := row]> (rd_emission d) |>.

(** The second statement of [demoteProvider] *)
Definition clear_pair (p : string) (d : RewardsDB) : RewardsDB :=
  d <| rd_eval := alter (fun r => r <| ev_unlock_pair_ok_since := None |>) p (rd_eval d) |>.

Inductive EvalResult := EvalError | Kept | Promoted | Demoted.

(** What an evaluation finds: the windows and the facts. *)
Record Findings := mkFindings {
  fi_uptime : option Z;
  fi_balance : option Z;
  fi_input : satisfiedInput;
}.

Definition trust_findings (e : EvalEnv) (p : string) (d : RewardsDB) : option Findings :=
  if ee_fail_read e then None
  else
    rows ← ee_verdicts e;
    let st := loadTrustEvalState d p in
    let now := ee_now e in
    let uptimeSince := advanceWindow (ts_UptimeOKSince st) (HeartbeatOK (ee_snapshot e) p now) now in
    instant ← walletBalanceInstantOK (ee_checker e) e d p;
    let walletBalSince := advanceWindow (ts_WalletBalanceOKSince st) instant now in
    Some (mkFindings uptimeSince walletBalSince
      (mkSatisfied (countVerifiedReceipts rows p) (providerWalletBound d p)
         (window_met walletBalSince now trustRequalifyWindow) (providerOperatorPromoted d p)
         (window_met uptimeSince now uptimeRequiredWindow) (providerAppAttested d p))).

(** May a provider that is not trusted be promoted? *)
Definition may_promote (st : trustEvalState) (unlockSince : option Z) (now : Z) : bool :=
  match ts_DemotionCooldownUntil st with
  | Some until => negb (now <? until) && window_met unlockSince now trustRequalifyWindow
  | None => true
  end.

Definition evaluateProviderTrust (e : EvalEnv) (p : string) (d : RewardsDB) : RewardsDB * EvalResult :=
  let st := loadTrustEvalState d p in
  let now := ee_now e in
  match trust_findings e p d with
  | None => (d, EvalError)
  | Some f =>
      let pairOK := pair_ok (fi_input f) in
      let unlockSince := advanceWindow (ts_UnlockPairOKSince st) pairOK now in
      if ee_fail_persist e then (d, EvalError)
      else
        let d1 := persistTrustEvalState p (fi_uptime f) (fi_balance f) unlockSince now d in
        if String.eqb (ts_TrustTier st) TierTrusted then
          if negb pairOK then
            if ee_fail_tier e then (d1, EvalError)
            else
              (** a failure of the second statement is logged; the tier has changed *)
              let d2 := SetTrustTier p TierProvisional (ee_tier_at e) d1 in
              (if ee_fail_clear e then d2 else clear_pair p d2, Demoted)
          else (d1, Kept)
        else if negb pairOK then (d1, Kept)
        else if negb (may_promote st unlockSince now) then (d1, Kept)
        else if ee_fail_tier e then (d1, EvalError)
        else (SetTrustTier p TierTrusted (ee_tier_at e) d1, Promoted)
  end.

(** The seeding statement of [listEligibleProviders] *)
Definition seed_identities (d : RewardsDB) : RewardsDB :=
  d <| rd_emission := rd_emission d ∪ ((fun _ => new_emission TierProvisional None false None) <$> rd_identities d) |>.

(** [runUnlockEval]: every provider of the table, in the order the query gives them. *)
Definition runUnlockEval (order : gmap string EmissionRow -> list (string * EmissionRow))
    (env : string -> EvalEnv) (d : RewardsDB) : RewardsDB :=
  let d := seed_identities d in
  fold_left (fun d p => (evaluateProviderTrust (env p) p d).1) (map fst (order (rd_emission d))) d.

(** [walletBalanceCriterionMet] with the runner that [QueryTrustCriteriaStatus] makes, which
    has no balance checker. *)
Definition walletBalanceCriterionMet (e : EvalEnv) (d : RewardsDB) (p : string) (st : trustEvalState) : option bool :=
  instant ← walletBalanceInstantOK false e d p;
  Some (instant && window_met (ts_WalletBalanceOKSince st) (ee_now e) trustRequalifyWindow).

(** The tier and its windows, the criteria and how many there are. *)
Definition QueryTrustCriteriaStatus (e : EvalEnv) (d : RewardsDB) (p : string)
    : option (trustEvalState * list string * list string * nat) :=
  if ee_fail_read e then None
  else
    rows ← ee_verdicts e;
    let st := loadTrustEvalState d p in
    let now := ee_now e in
    let uptimeSince := advanceWindow (ts_UptimeOKSince st) (HeartbeatOK (ee_snapshot e) p now) now in
    balance ← walletBalanceCriterionMet e d p st;
    let '(economic, additional) := satisfiedCriteria
      (mkSatisfied (countVerifiedReceipts rows p) (providerWalletBound d p) balance
         (providerOperatorPromoted d p) (window_met uptimeSince now uptimeRequiredWindow)
         (providerAppAttested d p)) in
    Some (st, economic, additional, length (uniqueCriterionIDs (economic ++ additional))).

(** ** Operator promotions *)

Section Admin.
(** [uuid.Parse] accepts the text; the value Postgres reads from it. *)
Context (uuid_Parse : string -> bool) (uuid_value : string -> option string) (sha256 : string -> string).

Definition open_request (p : string) (r : PendingRow) : bool :=
  String.eqb (pp_provider_id r) p && String.eqb (pp_status r) "pending".

Definition RequestTrustPromotion (pendingID providerID requestedBy reason incidentID : string)
    (d : RewardsDB) : option RewardsDB :=
  if String.eqb pendingID "" || negb (uuid_Parse pendingID)
     || String.eqb providerID "" || String.eqb requestedBy "" || String.eqb reason "" then None
  else
    id ← uuid_value pendingID;
    (** the primary key and the unique index on open requests *)
    if is_some (rd_pending d !! id) || existsb (fun kv => open_request providerID kv.2) (map_to_list (rd_pending d))
    then None
    else Some (d <| rd_pending := <[id := mkPending providerID requestedBy reason
                                     (if String.eqb incidentID "" then None else Some incidentID)
                                     None None "pending"]> (rd_pending d) |>).

Definition ApproveTrustPromotion (pendingID approvedBy : string) (now : Z) (d : RewardsDB)
    : option (RewardsDB * string) :=
  if String.eqb pendingID "" || String.eqb approvedBy "" then None
  else
    id ← uuid_value pendingID;
    row ← rd_pending d !! id;
    if negb (String.eqb (pp_status row) "pending") || String.eqb (pp_requested_by row) approvedBy then None
    else
      let p := pp_provider_id row in
      Some (d <| rd_pending := <[id := row <| pp_status := "committed" |> <| pp_approved_by := Some approvedBy |>
                                          <| pp_committed_at := Some (pg_time now) |>]> (rd_pending d) |>
              <| rd_promotions := <[p := mkPromotion approvedBy (pp_reason row) id (pg_time now)]> (rd_promotions d) |>,
            p).

(** ** Who acts: [unlock_admin.go] *)

(** The loop over the secrets; a set of those seen. *)
Fixpoint distinct_secrets (seen : gset string) (l : list string) : bool :=
  match l with
  | [] => true
  | secret :: l =>
      let secret := GoStr.TrimSpace secret in
      negb (String.eqb secret "") && negb (bool_decide (secret ∈ seen))
      && distinct_secrets ({[secret]} ∪ seen) l
  end.

Definition dualControlReady (keys : list (string * string)) : bool :=
  (2 <=? length keys)%nat && distinct_secrets ∅ (map snd keys).

Definition normalizedTrustOperatorActor (actorID : string) : string :=
  let actorID := GoStr.TrimSpace actorID in
  if GoStr.HasPrefix actorID "operator:" then actorID else "operator:" +:+ actorID.

(** The keys in the order of the map iteration; [OperatorOnlyBearerMatches] is the match of the
    bearer token. *)
Definition authorizedTrustOperator (h : Header) (keys : list (string * string)) : option string :=
  if negb (dualControlReady keys) then None
  else '(actorID, _) ← find (fun kv => BearerTokenMatchesHeader sha256 h kv.2) keys;
       Some (normalizedTrustOperatorActor actorID).

Record PromotionBody := mkPromotionBody {
  pb_ProviderID : string; pb_RequestedBy : string; pb_Reason : string; pb_IncidentID : string;
}.

(** Is the caller an operator of a service with two-person control? *)
Definition admin_gate (post : bool) (h : Header) (keys : list (string * string)) (has_db : bool)
    : Z + string :=
  if negb post then inl 405
  else if negb (dualControlReady keys) then inl 503
  else match authorizedTrustOperator h keys with
       | None => inl 401
       | Some actor => if negb has_db then inl 503 else inr actor
       end.

(** [NewTrustPromotionRequestHandler]: the tables and the status *)
Definition TrustPromotionRequest (post : bool) (h : Header) (keys : list (string * string))
    (has_db : bool) (body : option PromotionBody) (pendingID : string) (d : RewardsDB) : RewardsDB * Z :=
  match admin_gate post h keys has_db with
  | inl status => (d, status)
  | inr actor =>
      match body with
      | None => (d, 400)
      | Some b =>
          if negb (String.eqb (pb_RequestedBy b) "") && negb (String.eqb (pb_RequestedBy b) actor) then (d, 403)
          else match RequestTrustPromotion pendingID (GoStr.TrimSpace (pb_ProviderID b)) actor
                       (GoStr.TrimSpace (pb_Reason b)) (GoStr.TrimSpace (pb_IncidentID b)) d with
               | None => (d, 400)
               | Some d' => (d', 202)
               end
      end
  end.

(** [NewTrustPromotionApproveHandler] *)
Definition TrustPromotionApprove (post : bool) (h : Header) (keys : list (string * string))
    (has_db : bool) (path : string) (now : Z) (d : RewardsDB) : RewardsDB * Z :=
  match admin_gate post h keys has_db with
  | inl status => (d, status)
  | inr actor =>
      let pendingID := GoStr.TrimSpace
        (GoStr.TrimSuffix (GoStr.TrimPrefix path "/admin/trust-promotion/") "/approve") in
      if String.eqb pendingID "" || negb (GoStr.HasSuffix path "/approve") then (d, 404)
      else match ApproveTrustPromotion pendingID actor now d with
           | None => (d, 400)
           | Some (d', _) => (d', 200)
           end
  end.
End Admin.

(** ** The wallet mirror *)

Definition normalizeAddress (addr : string) : string := GoStr.ToLower (GoStr.TrimSpace addr).

(** [upsertProjection]; the row violates a CHECK on another chain. *)
Definition upsertProjection (p chain address : string) (allowed : bool) (registered : Z) (d : RewardsDB)
    : option RewardsDB :=
  if negb (String.eqb chain "base-mainnet") then None
  else
    let replay := match rd_proj d !! p with
                  | None => true
                  | Some prev => negb (GoStr.EqualFold (pj_address prev) address)
                  end in
    let row := match rd_emission d !! p with
               | None => new_emission TierProvisional (Some address) replay None
               | Some es => es <| es_bound_wallet := Some address |>
                   <| es_cap_replay_pending := if replay then true else es_cap_replay_pending es |>
               end in
    Some (d <| rd_proj := <[p := mkProj address allowed (pg_time registered)]> (rd_proj d) |>
            <| rd_emission := <[p := row]> (rd_emission d) |>).

(** [runWalletMirror] over the rows of [provider_payout_addresses]; [time.Parse(RFC3339)] reads
    a fraction too. It stops at the first row that fails. *)
Fixpoint runWalletMirror (rows : list AddressRow) (now : Z) (d : RewardsDB) : RewardsDB :=
  match rows with
  | [] => d
  | a :: rows =>
      match upsertProjection (ppa_provider_id a) (ppa_chain a) (normalizeAddress (ppa_address a))
              (ppa_payout_allowed a) (default now (parse_rfc3339 (ppa_registered_at_utc a))) d with
      | None => d
      | Some d' => runWalletMirror rows now d'
      end
  end.

(** ** The pair of criteria *)

(** The five facts the criteria rest on; the first three are economic. *)
Definition economic_facts (i : satisfiedInput) : list bool :=
  [minVerifiedReceipts <=? si_ReceiptCount i; si_WalletBound i && si_WalletBalanceOK i; si_OperatorPromoted i].
Definition facts (i : satisfiedInput) : list bool := economic_facts i ++ [si_UptimeOK i; si_AppAttested i].

(** The rule of SPEC-026: at least two different facts hold and one of them is economic. *)
Definition two_facts (i : satisfiedInput) : bool :=
  existsb id (economic_facts i) && (2 <=? count id (facts i)).

Lemma pair_is_two_facts i : pair_ok i = two_facts i.
Proof.
  unfold pair_ok, two_facts, facts, economic_facts, satisfiedCriteria.
  destruct (minVerifiedReceipts <=? si_ReceiptCount i), (si_WalletBound i && si_WalletBalanceOK i),
    (si_OperatorPromoted i), (si_UptimeOK i), (si_AppAttested i); reflexivity.
Qed.

(** The loops over the two lists of criteria decide the documented rule: at least two different
    facts hold, one of them economic; the wallet counts once. *)
Theorem unlock_pair_is_two_facts i :
  distinctUnlockPair (satisfiedCriteria i).1 (satisfiedCriteria i).2 = two_facts i.
Proof. rewrite <- pair_is_two_facts. unfold pair_ok. by destruct (satisfiedCriteria i). Qed.

(** ** One evaluation *)

(** An evaluation that stored its windows. *)
Record EvalEntry := mkEntry {
  el_provider : string;
  el_now : Z;
  el_tier_at : Z;
  el_input : satisfiedInput;
  el_result : EvalResult;
}.

Definition el_pair (x : EvalEntry) : bool := pair_ok (el_input x).

Definition logged (e : EvalEnv) (p : string) (d : RewardsDB) : option EvalEntry :=
  f ← trust_findings e p d;
  if ee_fail_persist e then None
  else Some (mkEntry p (ee_now e) (ee_tier_at e) (fi_input f) (evaluateProviderTrust e p d).2).

Lemma not_logged e p d : logged e p d = None -> (evaluateProviderTrust e p d).1 = d.
Proof.
  unfold logged, evaluateProviderTrust. destruct (trust_findings e p d); [|done].
  cbn. by destruct (ee_fail_persist e).
Qed.

(** The tier, the cooldown and the start of the pair of a provider. *)
Definition tier_of (d : RewardsDB) (p : string) : string := ts_TrustTier (loadTrustEvalState d p).
Definition cooldown_of (d : RewardsDB) (p : string) : option Z := ts_DemotionCooldownUntil (loadTrustEvalState d p).
Definition since_of (d : RewardsDB) (p : string) : option Z := ts_UnlockPairOKSince (loadTrustEvalState d p).

(** What an evaluation does to the provider. *)
Inductive evaluated (d : RewardsDB) (p : string) (x : EvalEntry) (d' : RewardsDB) : Prop :=
| was_promoted :
    el_result x = Promoted -> el_pair x = true -> tier_of d p <> TierTrusted ->
    (forall until, cooldown_of d p = Some until -> until <= el_now x
       /\ exists since, advanceWindow (since_of d p) true (el_now x) = Some since
                        /\ trustRequalifyWindow <= el_now x - since) ->
    tier_of d' p = TierTrusted -> cooldown_of d' p = None ->
    since_of d' p = pg_time <$> advanceWindow (since_of d p) true (el_now x) -> evaluated d p x d'
| was_demoted :
    el_result x = Demoted -> el_pair x = false -> tier_of d p = TierTrusted ->
    tier_of d' p = TierProvisional -> cooldown_of d' p = Some (pg_time (el_tier_at x + trustRequalifyWindow)) ->
    since_of d' p = None -> evaluated d p x d'
| was_kept :
    (el_result x = Kept \/ el_result x = EvalError) -> tier_of d' p = tier_of d p ->
    cooldown_of d' p = cooldown_of d p ->
    since_of d' p = pg_time <$> advanceWindow (since_of d p) (el_pair x) (el_now x) -> evaluated d p x d'.

Lemma window_met_spec since now window :
  0 < window -> window_met since now window = true ->
  exists t, since = Some t /\ window <= now - t.
Proof.
  unfold window_met. destruct since as [t|]; [|done]. intros Hw Ht. exists t. split; [done|].
  unfold time_sub in Ht. i64. lia.
Qed.

Lemma may_promote_spec st since now until :
  may_promote st since now = true -> ts_DemotionCooldownUntil st = Some until ->
  until <= now /\ exists t, since = Some t /\ trustRequalifyWindow <= now - t.
Proof.
  unfold may_promote. intros Hm Hc. rewrite Hc in Hm. apply andb_true_iff in Hm as [Hn Hw].
  bool_hyps. split; [lia|]. apply window_met_spec; [done|done].
Qed.

Lemma load_present d p es :
  rd_emission d !! p = Some es ->
  tier_of d p = es_trust_tier es /\ cooldown_of d p = es_demotion_cooldown_until es
  /\ since_of d p = rd_eval d !! p ≫= ev_unlock_pair_ok_since.
Proof. intros He. unfold tier_of, cooldown_of, since_of, loadTrustEvalState. by rewrite He. Qed.

(** The row of a provider after [SetTrustTier]. *)
Definition tiered (es : EmissionRow) (tier : string) (now : Z) : EmissionRow :=
  es <| es_trust_tier := tier |>
     <| es_demotion_cooldown_until :=
          if String.eqb tier TierProvisional then Some (pg_time (now + trustRequalifyWindow)) else None |>.

Lemma SetTrustTier_row p tier now d es :
  tier = TierTrusted \/ tier = TierProvisional -> rd_emission d !! p = Some es ->
  rd_emission (SetTrustTier p tier now d) !! p = Some (tiered es tier now).
Proof. intros Ht He. unfold SetTrustTier. cbn. rewrite He, lookup_insert_eq. by destruct Ht as [-> | ->]. Qed.

Lemma evaluate_spec e p d x :
  is_Some (rd_emission d !! p) -> logged e p d = Some x ->
  evaluated d p x (evaluateProviderTrust e p d).1.
Proof.
  intros [es He] Hx. destruct (load_present d p es He) as (Ht & Hc & Hs).
  unfold logged in Hx. destruct (trust_findings e p d) as [f|] eqn:Hf; [|done]. cbn in Hx.
  destruct (ee_fail_persist e) eqn:Hp; [done|]. injection Hx as <-.
  unfold evaluateProviderTrust. rewrite Hf, Hp.
  fold (tier_of d p) (since_of d p). set (d1 := persistTrustEvalState _ _ _ _ _ _).
  assert (rd_emission d1 !! p = Some es) as He1 by done.
  assert (rd_eval d1 !! p ≫= ev_unlock_pair_ok_since
    = pg_time <$> advanceWindow (since_of d p) (pair_ok (fi_input f)) (ee_now e)) as Hs1.
  { cbn. by rewrite lookup_insert_eq. }
  assert (evaluated d p (mkEntry p (ee_now e) (ee_tier_at e) (fi_input f) Kept) d1
    /\ evaluated d p (mkEntry p (ee_now e) (ee_tier_at e) (fi_input f) EvalError) d1) as [Hk1 Hk2].
  { destruct (load_present d1 p es He1) as (Ht1 & Hc1 & Hs1').
    split; (apply was_kept; unfold el_pair; cbn [el_result el_now el_input]; [by auto|congruence..]). }
  unfold el_pair in *. cbn [el_input] in *.
  destruct (String.eqb (tier_of d p) TierTrusted) eqn:Htt.
  - apply String.eqb_eq in Htt. destruct (pair_ok (fi_input f)) eqn:Hpair; cbn [negb]; [done|].
    destruct (ee_fail_tier e); [done|]. cbn [fst snd].
    set (d2 := if ee_fail_clear e then _ else _).
    assert (rd_emission d2 !! p = Some (tiered es TierProvisional (ee_tier_at e))) as He2
      by (unfold d2; destruct (ee_fail_clear e); apply SetTrustTier_row; auto).
    assert (rd_eval d2 !! p ≫= ev_unlock_pair_ok_since = None) as Hs2.
    { unfold d2. destruct (ee_fail_clear e); [done|]. cbn. by rewrite lookup_alter_eq, lookup_insert_eq. }
    destruct (load_present d2 p _ He2) as (Ht2 & Hc2 & Hs2').
    by apply was_demoted; unfold el_pair; cbn [el_result el_tier_at el_input]; try congruence.
  - apply String.eqb_neq in Htt. destruct (pair_ok (fi_input f)) eqn:Hpair; cbn [negb]; [|done].
    destruct (may_promote _ _ _) eqn:Hm; cbn [negb]; [|done]. destruct (ee_fail_tier e); [done|]. cbn [fst snd].
    set (d2 := SetTrustTier _ _ _ _).
    assert (rd_emission d2 !! p = Some (tiered es TierTrusted (ee_tier_at e))) as He2
      by (apply SetTrustTier_row; auto).
    destruct (load_present d2 p _ He2) as (Ht2 & Hc2 & Hs2').
    apply was_promoted; unfold el_pair; cbn [el_result el_tier_at el_input el_now]; try congruence; try done.
    + intros lim Hu. exact (may_promote_spec _ _ _ lim Hm Hu).
    + rewrite Hs2'. exact Hs1.
Qed.

(** ** The history of one provider *)

(** [l] is the log of the evaluations of one provider, the newest first. The start of the pair is
    an evaluation since which the pair held; the cooldown is that of the last demotion. *)
Record provider_inv (d : RewardsDB) (p : string) (l : list EvalEntry) : Prop := {
  pi_since : forall s, since_of d p = Some s -> exists pre w post,
    l = pre ++ w :: post /\ s = pg_time (el_now w) /\ Forall (fun x => el_pair x = true) (w :: pre);
  pi_trusted : tier_of d p = TierTrusted -> cooldown_of d p = None;
  pi_cooldown : forall c, cooldown_of d p = Some c -> exists x,
    x ∈ l /\ el_result x = Demoted /\ c = pg_time (el_tier_at x + trustRequalifyWindow)
    /\ forall y, y ∈ l -> el_result y = Demoted -> el_tier_at y <= el_tier_at x;
  pi_never : tier_of d p <> TierTrusted -> cooldown_of d p = None ->
    forall y, y ∈ l -> el_result y <> Demoted;
}.

(** A promotion needs the pair; after a demotion it also needs the cooldown to be over and an
    evaluation 72 hours back since which every evaluation found the pair. *)
Definition promotion_earned (x : EvalEntry) (earlier : list EvalEntry) : Prop :=
  el_pair x = true
  /\ (forall y, y ∈ earlier -> el_result y = Demoted -> el_tier_at y + trustRequalifyWindow - 500 <= el_now x)
  /\ ((exists y, y ∈ earlier /\ el_result y = Demoted) -> exists mid w rest,
        earlier = mid ++ w :: rest /\ Forall (fun z => el_pair z = true) (w :: mid)
        /\ el_now w + trustRequalifyWindow - 500 <= el_now x).

Fixpoint promotions_earned (l : list EvalEntry) : Prop :=
  match l with
  | [] => True
  | x :: l => (el_result x = Promoted -> promotion_earned x l) /\ promotions_earned l
  end.

Lemma pg_time_again t : pg_time (pg_time t) = pg_time t.
Proof. apply pg_time_kept, pg_time_whole. Qed.

(** The start of the pair after an evaluation. *)
Lemma since_advances d p l x d' :
  provider_inv d p l -> since_of d' p = pg_time <$> advanceWindow (since_of d p) (el_pair x) (el_now x) ->
  forall s, since_of d' p = Some s -> exists pre w post,
    x :: l = pre ++ w :: post /\ s = pg_time (el_now w) /\ Forall (fun x => el_pair x = true) (w :: pre).
Proof.
  intros Hi Hs s E. rewrite Hs in E. unfold advanceWindow in E. destruct (el_pair x) eqn:Hx; [|done].
  destruct (since_of d p) as [t|] eqn:Ht; cbn in E; injection E as <-.
  - destruct (pi_since _ _ _ Hi t Ht) as (pre & w & post & -> & -> & Hf). exists (x :: pre), w, post.
    split_and!; [done|by rewrite pg_time_again|]. inversion_clear Hf. by repeat constructor.
  - exists [], x, l. split_and!; [done..|]. by repeat constructor.
Qed.

Lemma promoted_is_earned d p l x :
  provider_inv d p l -> el_pair x = true -> tier_of d p <> TierTrusted ->
  (forall lim, cooldown_of d p = Some lim -> lim <= el_now x
     /\ exists since, advanceWindow (since_of d p) true (el_now x) = Some since
                      /\ trustRequalifyWindow <= el_now x - since) ->
  promotion_earned x l.
Proof.
  intros Hi Hp Ht Hc. split; [done|]. destruct (cooldown_of d p) as [c|] eqn:Ec.
  2:{ pose proof (pi_never _ _ _ Hi Ht Ec) as Hn. split.
      - intros y Hy Hd. by apply Hn in Hy.
      - intros (y & Hy & Hd). by apply Hn in Hy. }
  destruct (Hc c eq_refl) as [Hle (since & Hs & Hw)].
  destruct (pi_cooldown _ _ _ Hi c Ec) as (z & Hz & Hzd & -> & Hlast). split.
  - intros y Hy Hd. specialize (Hlast y Hy Hd). pose proof (pg_time_close (el_tier_at z + trustRequalifyWindow)). lia.
  - intros _. unfold advanceWindow in Hs. destruct (since_of d p) as [t|] eqn:Et; injection Hs as <-.
    + destruct (pi_since _ _ _ Hi t Et) as (pre & w & post & -> & -> & Hf). exists pre, w, post.
      split_and!; [done..|]. pose proof (pg_time_close (el_now w)). lia.
    + exfalso. revert Hw. unfold trustRequalifyWindow, hour, second. lia.
Qed.

Lemma provider_inv_evaluated d p l x d' :
  provider_inv d p l -> evaluated d p x d' ->
  (forall y, y ∈ l -> el_tier_at y <= el_tier_at x) -> provider_inv d' p (x :: l).
Proof.
  intros Hi He Hclock. destruct He as [Hr Hp Ht Hc Ht' Hc' Hs|Hr Hp Ht Ht' Hc' Hs|Hr Ht Hc Hs].
  - split; [|done|congruence|congruence]. eapply since_advances; [done|]. by rewrite Hs, Hp.
  - split; [congruence|rewrite Ht'; done| |congruence].
    intros c E. exists x. split_and!; [by left|done|congruence|].
    intros y [->|Hy]%elem_of_cons _; [done|auto].
  - assert (el_result x <> Demoted) as Hnd by (by destruct Hr; congruence).
    split; [by eapply since_advances|rewrite Ht, Hc; apply Hi| |].
    + rewrite Hc. intros c E. destruct (pi_cooldown _ _ _ Hi c E) as (z & Hz & Hzd & Hcz & Hlast).
      exists z. split_and!; [by right|done..|]. intros y [->|Hy]%elem_of_cons Hd; [done|auto].
    + rewrite Ht, Hc. intros H1 H2 y [->|Hy]%elem_of_cons; [done|]. by eapply pi_never.
Qed.

Lemma evaluated_earned d p l x d' :
  provider_inv d p l -> evaluated d p x d' -> el_result x = Promoted -> promotion_earned x l.
Proof.
  intros Hi He Hx. destruct He as [Hr Hp Ht Hc _ _ _|Hr _ _ _ _ _|[Hr|Hr] _ _ _]; try congruence.
  by eapply promoted_is_earned.
Qed.

(** ** What leaves the tier of a provider alone *)

(** The tier and the cooldown of [p] are as before, or a row was made for it; its windows are as
    before. *)
Definition same_tier (d d' : RewardsDB) (p : string) : Prop :=
  rd_eval d' !! p = rd_eval d !! p
  /\ match rd_emission d !! p, rd_emission d' !! p with
     | Some es, Some es' => es_trust_tier es' = es_trust_tier es
         /\ es_demotion_cooldown_until es' = es_demotion_cooldown_until es
     | None, Some es' => es_trust_tier es' = TierProvisional /\ es_demotion_cooldown_until es' = None
     | None, None => True
     | Some _, None => False
     end.

(** An evaluation stores windows only for providers with a row. *)
Definition eval_has_row (d : RewardsDB) (p : string) : Prop :=
  rd_emission d !! p = None -> rd_eval d !! p = None.

Lemma same_tier_inv d d' p l :
  provider_inv d p l -> eval_has_row d p -> same_tier d d' p ->
  provider_inv d' p l /\ eval_has_row d' p.
Proof.
  intros Hi Hr [He Hs]. unfold eval_has_row in *.
  assert (tier_of d' p = tier_of d p /\ cooldown_of d' p = cooldown_of d p /\ since_of d' p = since_of d p)
    as (E1 & E2 & E3).
  { destruct (rd_emission d !! p) as [es|] eqn:E, (rd_emission d' !! p) as [es'|] eqn:E'; try done.
    - destruct (load_present _ _ _ E) as (-> & -> & ->), (load_present _ _ _ E') as (-> & -> & ->).
      destruct Hs as [-> ->]. by rewrite He.
    - destruct (load_present _ _ _ E') as (-> & -> & ->). rewrite He, (Hr eq_refl).
      unfold tier_of, cooldown_of, since_of, loadTrustEvalState. rewrite E. by destruct Hs as [-> ->].
    - unfold tier_of, cooldown_of, since_of, loadTrustEvalState. by rewrite E, E'. }
  split; [split; rewrite ?E1, ?E2, ?E3; apply Hi|].
  intros E'. rewrite E' in Hs. destruct (rd_emission d !! p); [done|]. rewrite He. auto.
Qed.

Lemma same_tier_eq d d' p : rd_emission d' = rd_emission d -> rd_eval d' = rd_eval d -> same_tier d d' p.
Proof. intros E1 E2. split; [by rewrite E2|]. rewrite E1. by destruct (rd_emission d !! p). Qed.

Lemma same_tier_refl d p : same_tier d d p.
Proof. by apply same_tier_eq. Qed.

Lemma SetTrustTier_other p q tier now d : q <> p -> rd_emission (SetTrustTier p tier now d) !! q = rd_emission d !! q.
Proof. intros Hq. cbn. by rewrite lookup_insert_ne. Qed.

(** An evaluation touches the rows of its provider in two tables, nothing else. *)
Lemma evaluate_frame e p d :
  let d' := (evaluateProviderTrust e p d).1 in
  (forall q, q <> p -> rd_emission d' !! q = rd_emission d !! q /\ rd_eval d' !! q = rd_eval d !! q)
  /\ rd_pending d' = rd_pending d /\ rd_promotions d' = rd_promotions d /\ rd_proj d' = rd_proj d
  /\ rd_identities d' = rd_identities d /\ rd_wallet_daily d' = rd_wallet_daily d
  /\ rd_ledger d' = rd_ledger d /\ rd_next d' = rd_next d.
Proof.
  cbv zeta. unfold evaluateProviderTrust. destruct (trust_findings e p d) as [f|]; [|done].
  destruct (ee_fail_persist e); [done|].
  assert (forall u b s q, q <> p -> rd_eval (persistTrustEvalState p u b s (ee_now e) d) !! q = rd_eval d !! q) as Hev.
  { intros u b s q Hq. cbn. by rewrite lookup_insert_ne. }
  split_ifs; cbn [fst]; (split; [intros q Hq|done]); (split; [|]); try done; try (by apply Hev);
    by cbn; rewrite ?lookup_alter_ne, ?lookup_insert_ne by done.
Qed.

Lemma evaluate_keeps_row e p d q :
  is_Some (rd_emission d !! q) -> is_Some (rd_emission (evaluateProviderTrust e p d).1 !! q).
Proof.
  intros Hq. unfold evaluateProviderTrust. destruct (trust_findings e p d) as [f|]; [|done].
  destruct (ee_fail_persist e); [done|].
  assert (forall tier d1, rd_emission d1 = rd_emission d -> is_Some (rd_emission (SetTrustTier p tier (ee_tier_at e) d1) !! q)) as Hset.
  { intros tier d1 E. cbn. destruct (decide (q = p)) as [->|Hn]; [by rewrite lookup_insert_eq|].
    rewrite lookup_insert_ne by done. by rewrite E. }
  split_ifs; cbn [fst]; try done; by apply Hset.
Qed.

Lemma seed_same_tier d p : same_tier d (seed_identities d) p.
Proof.
  split; [done|]. cbn. destruct (rd_emission d !! p) as [es|] eqn:E.
  - by rewrite (lookup_union_Some_l _ _ _ _ E).
  - rewrite lookup_union_r by done. rewrite lookup_fmap. by destruct (rd_identities d !! p).
Qed.

Lemma upsert_same_tier q chain a ok reg d d' p :
  upsertProjection q chain a ok reg d = Some d' -> same_tier d d' p.
Proof.
  unfold upsertProjection. case_match; [done|]. intros E. injection E as <-. split; [done|]. cbn.
  destruct (decide (p = q)) as [->|Hn]; [|rewrite lookup_insert_ne by done; by destruct (rd_emission d !! p)].
  rewrite lookup_insert_eq. by destruct (rd_emission d !! q).
Qed.

Lemma same_tier_trans d1 d2 d3 p : same_tier d1 d2 p -> same_tier d2 d3 p -> same_tier d1 d3 p.
Proof.
  intros [E1 H1] [E2 H2]. split; [congruence|].
  destruct (rd_emission d1 !! p), (rd_emission d2 !! p), (rd_emission d3 !! p); try done;
    destruct H1, H2; split; congruence.
Qed.

Lemma mirror_same_tier rows now d p : same_tier d (runWalletMirror rows now d) p.
Proof.
  revert d. induction rows as [|a rows IH]; intros d; [apply same_tier_refl|]. cbn [runWalletMirror].
  destruct (upsertProjection _ _ _ _ _ _) as [d'|] eqn:E; [|apply same_tier_refl].
  eapply same_tier_trans; [by eapply upsert_same_tier|apply IH].
Qed.

(** ** The status query *)

(** The status that providers read never shows the wallet criteria: it is computed without a
    balance checker. *)
Theorem status_hides_wallet_criteria e d p st economic additional n :
  QueryTrustCriteriaStatus e d p = Some (st, economic, additional, n) ->
  (CriterionE2WalletEconomic ∉ economic) /\ (CriterionWalletBalance72h ∉ additional).
Proof.
  unfold QueryTrustCriteriaStatus, walletBalanceCriterionMet, walletBalanceInstantOK.
  destruct (ee_fail_read e); [done|]. destruct (ee_verdicts e) as [rows|]; [|done]. cbn [mbind option_bind].
  rewrite orb_true_r. cbn [mbind option_bind andb]. unfold satisfiedCriteria.
  cbn [si_ReceiptCount si_WalletBound si_WalletBalanceOK si_OperatorPromoted si_UptimeOK si_AppAttested].
  rewrite andb_false_r. intros E. injection E as _ <- <- _.
  destruct (minVerifiedReceipts <=? _), (providerOperatorPromoted d p), (window_met _ _ _), (providerAppAttested d p);
    cbn [app]; (split; rewrite ?elem_of_cons, ?elem_of_nil; intros Hin;
      repeat (destruct Hin as [Hin|Hin]; [discriminate|]); done).
Qed.
End Trust.
