(* ===== verification/Rewards.v ===== *)
(** The MALIBU emission and its history: [internal/rewards/emission.go], [rewards.go] and
    [withdrawal.go], with the jobs of [Trust] interleaved.

    [accrueTx] is the transaction of one tick of a provider: the daily cap of the provider,
    the hold, the daily cap of the wallet, the ledger row, the counters and the replay of
    held rows. Amounts are Go floats, stored in units of 1e-8; the two conversions Postgres
    makes are the class [PgNumeric]. The caps of the configuration are finite numbers. A
    history is a list of the steps of the three jobs and of the operator endpoints, in the
    order of their transactions, with a log of evaluations, accruals and operator acts.

    The theorems: a withdrawable row was accrued by a provider that was trusted, not in its
    cooldown and promoted by an evaluation that found two facts; a demoted provider is
    promoted again only after 72 hours in which every evaluation found the pair; an operator
    promotion took two operators with different tokens. *)
From S2P Require Import Prelude GoFloat GoTime Ledger PayoutStore Pool Selection Trust.

(** ** Configuration *)

Record Config := mkConfig {
  TickInterval : Z;
  ProviderDailyCapMALIBU : float64;
  WalletDailyCapMALIBU : float64;
  WalletMirrorInterval : Z;
  UnlockEvalInterval : Z;
  MaxSerializableRetries : Z;
}.

Definition DefaultsApplied (c : Config) : Config :=
  mkConfig
    (if TickInterval c <=? 0 then 15 * 60 * second else TickInterval c)
    (if F64.leb (ProviderDailyCapMALIBU c) F64.zero then F64.of_Z 25 else ProviderDailyCapMALIBU c)
    (if F64.leb (WalletDailyCapMALIBU c) F64.zero then F64.of_Z 100 else WalletDailyCapMALIBU c)
    (if WalletMirrorInterval c <=? 0 then 5 * 60 * second else WalletMirrorInterval c)
    (if UnlockEvalInterval c <=? 0 then hour else UnlockEvalInterval c)
    (if MaxSerializableRetries c <=? 0 then 5 else MaxSerializableRetries c).

(** [time.Duration.Seconds] *)
Definition Seconds (d : Z) : float64 :=
  F64.add (F64.of_Z (Z.quot d second)) (F64.div (F64.of_Z (Z.rem d second)) (F64.of_Z 1000000000)).

Definition ticksPerDay (c : Config) : float64 :=
  let secs := Seconds (TickInterval c) in
  if F64.leb secs F64.zero then F64.of_Z 96 else F64.div (F64.of_Z 86400) secs.

Definition tick_amount (c : Config) : float64 := F64.div (ProviderDailyCapMALIBU c) (ticksPerDay c).

(** ** Amounts *)

(** [math.Min] *)
Definition math_Min (x y : float64) : float64 :=
  match x, y with
  | S754_infinity true, _ | _, S754_infinity true => S754_infinity true
  | S754_nan, _ | _, S754_nan => S754_nan
  | S754_zero sx, S754_zero _ => if sx then x else y
  | _, _ => if F64.ltb x y then x else y
  end.

(** [n / d] rounded to the nearest integer, halves to even *)
Definition round_even (n d : Z) : Z :=
  let q := n / d in
  match (2 * (n mod d)) ?= d with
  | Lt => q
  | Gt => q + 1
  | Eq => if Z.even q then q else q + 1
  end.

(** [fmt.Sprintf("%.8f", v)] read as a [NUMERIC(24,8)] *)
Definition formatMALIBU (v : float64) : option Z :=
  match v with
  | S754_zero _ => Some 0
  | S754_finite s m e =>
      let a := if 0 <=? e then Z.pos m * 2 ^ e * 100000000
               else round_even (Z.pos m * 100000000) (2 ^ (- e)) in
      Some (if s then - a else a)
  | _ => None
  end.

(** [numeric::FLOAT8], and a float parameter stored in a [NUMERIC(24,8)] column. *)
Class PgNumeric := {
  numeric_float8 : Z -> float64;
  float8_numeric : float64 -> option Z;
}.

Section Rewards.
Context `{PgTime} `{PgNumeric}.

(** ** One tick of a provider *)

Definition HoldTrustTierProvisional : string := "trust_tier_provisional".
Definition HoldPerWalletDailyCap : string := "per_wallet_daily_cap".
Definition HoldDemotionCooldown : string := "demotion_cooldown".

(** The readings of the clock in one transaction. *)
Record TickTimes := mkTimes {
  tt_today : Z;
  tt_hold : Z;
  tt_now : Z;
  tt_replay : Z;
}.

Definition utcDay (t : Z) : Z := t / day.

Definition in_cooldown (es : EmissionRow) (now : Z) : bool :=
  match es_demotion_cooldown_until es with Some lim => now <? lim | None => false end.

Definition holdReasonForState (es : EmissionRow) (now : Z) : string :=
  if in_cooldown es now then HoldDemotionCooldown
  else if negb (String.eqb (es_trust_tier es) TierTrusted) then HoldTrustTierProvisional else "".

Definition walletDaySum (d : RewardsDB) (wallet : string) (today : Z) : float64 :=
  match rd_wallet_daily d !! (wallet, today) with Some n => numeric_float8 n | None => F64.zero end.

(** Is the amount held, and what is accrued? *)
Definition applyWalletCap (d : RewardsDB) (wallet : string) (today : Z) (want cap : float64) : bool * float64 :=
  let remaining := F64.sub cap (walletDaySum d wallet today) in
  if F64.leb remaining F64.zero then (true, want)
  else if F64.ltb remaining want then (true, remaining)
  else (false, want).

Definition bumpWalletDaily (wallet : string) (today amount : Z) (d : RewardsDB) : option RewardsDB :=
  let sum := default 0 (rd_wallet_daily d !! (wallet, today)) + amount in
  if sum <? 0 then None
  else Some (d <| rd_wallet_daily := <[(wallet, today) := sum]> (rd_wallet_daily d) |>).

(** *** The replay of held rows *)

Definition oldest_first (a b : RewardRow) : Prop :=
  rw_unix_ts a < rw_unix_ts b \/ (rw_unix_ts a = rw_unix_ts b /\ rw_id a <= rw_id b).
#[export] Instance oldest_first_dec : RelDecision oldest_first.
Proof. intros a b. unfold oldest_first. apply _. Defined.

Definition replayable (wallet : string) (d : RewardsDB) (r : RewardRow) : bool :=
  bool_decide (rw_withdrawal_hold_reason r = Some HoldPerWalletDailyCap)
  && match rd_emission d !! rw_provider_id r with
     | Some es => bool_decide (es_bound_wallet es = Some wallet) && String.eqb (es_trust_tier es) TierTrusted
     | None => false
     end.

Definition clear_hold (id : Z) (l : list RewardRow) : list RewardRow :=
  map (fun r => if rw_id r =? id then r <| rw_withdrawal_hold_reason := None |> else r) l.

(** The loop over the held rows with the running sum. *)
Fixpoint replay_rows (rows : list RewardRow) (running cap : float64) (l : list RewardRow) : list RewardRow :=
  match rows with
  | [] => l
  | r :: rows =>
      let next := F64.add running (numeric_float8 (rw_amount_malibu r)) in
      replay_rows rows next cap (if F64.leb next cap then clear_hold (rw_id r) l else l)
  end.

(** [can_update]: the role of the connection may update the ledger; locking its rows needs it. *)
Definition replayCapPending (can_update : bool) (wallet : string) (cap : float64) (now : Z) (d : RewardsDB)
    : option RewardsDB :=
  if negb can_update then None
  else
    let rows := merge_sort oldest_first (List.filter (replayable wallet d) (rd_ledger d)) in
    Some (d <| rd_ledger := replay_rows rows (walletDaySum d wallet (utcDay now)) cap (rd_ledger d) |>
            <| rd_emission := (fun es =>
                 if bool_decide (es_bound_wallet es = Some wallet) && es_cap_replay_pending es
                 then es <| es_cap_replay_pending := false |> else es) <$> rd_emission d |>).

(** *** The transaction *)

(** What was accrued: the row, and the state of the provider it was accrued under. *)
Record Accrual := mkAccrual {
  ac_row : RewardRow;
  ac_state : EmissionRow;
  ac_hold_at : Z;
}.

Definition ensure_row (p : string) (d : RewardsDB) : RewardsDB * EmissionRow :=
  match rd_emission d !! p with
  | Some es => (d, es)
  | None => let es := new_emission TierProvisional None false None in
            (d <| rd_emission := <[p := es]> (rd_emission d) |>, es)
  end.

(** The writes of the transaction: the ledger row, the counters of the provider and of the wallet,
    and the replay. [None] when one of them fails. *)
Definition record_accrual (c : Config) (can_update : bool) (t : TickTimes) (p : string) (es : EmissionRow)
    (wallet : string) (dayTotal accrue : float64) (hold : string) (d : RewardsDB) : option (RewardsDB * Accrual) :=
  let today := utcDay (tt_today t) in
  amount ← formatMALIBU accrue;
  let row := mkReward (rd_next d) p (tt_now t / second) amount (if String.eqb hold "" then None else Some hold) in
  total ← float8_numeric (F64.add dayTotal accrue);
  if total <? 0 then None
  else
    let d1 := d <| rd_ledger := rd_ledger d ++ [row] |> <| rd_next := rd_next d + 1 |>
                <| rd_emission := <[p := es <| es_provider_day_malibu := total |>
                                           <| es_emission_day := Some today |>]> (rd_emission d) |> in
    d2 ← (if negb (String.eqb wallet "") && GoStr.HasPrefix wallet "0x"
          then bumpWalletDaily wallet today amount d1 else Some d1);
    d3 ← (if es_cap_replay_pending es && negb (String.eqb wallet "")
          then replayCapPending can_update wallet (WalletDailyCapMALIBU c) (tt_replay t) d2 else Some d2);
    Some (d3, mkAccrual row es (tt_hold t)).

(** The tables and the accrual, if there was one; [None] when the transaction fails. *)
Definition accrueTx (c : Config) (can_update : bool) (t : TickTimes) (p : string) (tick : float64) (d : RewardsDB)
    : option (RewardsDB * option Accrual) :=
  let '(d, es) := ensure_row p d in
  let today := utcDay (tt_today t) in
  let dayTotal := if bool_decide (es_emission_day es = Some today)
                  then numeric_float8 (es_provider_day_malibu es) else F64.zero in
  let remaining := F64.sub (ProviderDailyCapMALIBU c) dayTotal in
  if F64.leb remaining F64.zero then Some (d, None)
  else
    let accrue := math_Min tick remaining in
    if F64.leb accrue F64.zero then Some (d, None)
    else
      let hold := holdReasonForState es (tt_hold t) in
      let wallet := GoStr.ToLower (default "" (es_bound_wallet es)) in
      let has_wallet := negb (String.eqb wallet "") && GoStr.HasPrefix wallet "0x" in
      let '(walletHeld, accrue) := if has_wallet
        then applyWalletCap d wallet today accrue (WalletDailyCapMALIBU c) else (false, accrue) in
      if has_wallet && F64.leb accrue F64.zero then Some (d, None)
      else
        let hold := if walletHeld && String.eqb hold "" then HoldPerWalletDailyCap else hold in
        '(d', a) ← record_accrual c can_update t p es wallet dayTotal accrue hold d;
        Some (d', Some a).

(** How an attempt of a serializable transaction ends, when its body does not fail. *)
Inductive TxFate := TxCommits | TxSerialization | TxFails.

(** [withSerializableRetry] around the transaction; [n] attempts are left. *)
Fixpoint accrue_retry (n : nat) (attempts : list (TxFate * TickTimes)) (c : Config) (can_update : bool)
    (p : string) (tick : float64) (d : RewardsDB) : RewardsDB * option Accrual :=
  match n, attempts with
  | S n, (fate, t) :: attempts =>
      match accrueTx c can_update t p tick d, fate with
      | Some (d', a), TxCommits => (d', a)
      | _, TxSerialization => accrue_retry n attempts c can_update p tick d
      | _, _ => (d, None)
      end
  | _, _ => (d, None)
  end.

Definition accrueProvider (attempts : list (TxFate * TickTimes)) (c : Config) (can_update : bool) (p : string)
    (tick : float64) (d : RewardsDB) : RewardsDB * option Accrual :=
  if F64.leb tick F64.zero then (d, None)
  else accrue_retry (Z.to_nat (MaxSerializableRetries c)) attempts c can_update p tick d.

(** ** Reading the ledger *)

Definition withdrawable (r : RewardRow) : bool :=
  (0 <? rw_amount_malibu r) && bool_decide (rw_withdrawal_hold_reason r = None).

Definition by_id (a b : RewardRow) : Prop := rw_id a <= rw_id b.
#[export] Instance by_id_dec : RelDecision by_id := fun a b => Z_le_dec (rw_id a) (rw_id b).

Definition SelectWithdrawableMALIBU (p : string) (limit : Z) (d : RewardsDB) : list RewardRow :=
  let limit := if limit <=? 0 then 100 else limit in
  firstn (Z.to_nat limit)
    (merge_sort by_id (List.filter (fun r => String.eqb (rw_provider_id r) p && withdrawable r) (rd_ledger d))).

(** The sums of [QueryAccrualBalance]: accrued and withdrawable. *)
Definition accrued_sums (p : string) (d : RewardsDB) : Z * Z :=
  (sum_if (fun r => String.eqb (rw_provider_id r) p) rw_amount_malibu (rd_ledger d),
   sum_if (fun r => String.eqb (rw_provider_id r) p && bool_decide (rw_withdrawal_hold_reason r = None))
     rw_amount_malibu (rd_ledger d)).

(** ** Histories *)

Section History.
Context (c : Config) (can_update : bool) (keys : list (string * string)).
Context (uuid_Parse : string -> bool) (uuid_value : string -> option string) (sha256 : string -> string).

(** The loops visit the providers of [provider_emission_state]. *)
Inductive RewardsStep :=
| Seed
| Evaluate (p : string) (e : EvalEnv)
(** [provider_identities] is written elsewhere *)
| SetIdentity (p : string) (attested : bool)
| Tick (p : string) (attempts : list (TxFate * TickTimes))
| Mirror (rows : list AddressRow) (now : Z)
| PromotionRequest (post : bool) (h : Header) (has_db : bool) (body : option PromotionBody) (pendingID : string)
| PromotionApprove (post : bool) (h : Header) (has_db : bool) (path : string) (now : Z).

(** An operator act that was accepted, with the headers that came with it. *)
Inductive OperatorAct :=
| Requested (pending provider : string) (actor : string) (h : Header)
| Approved (pending : string) (actor : string) (h : Header).

Record Log := mkLog {
  lg_evals : list EvalEntry;
  lg_accruals : list Accrual;
  lg_acts : list OperatorAct;
}.

#[export] Instance rebuild_Log : Rebuild Log := fun l => mkLog (lg_evals l) (lg_accruals l) (lg_acts l).

Definition approve_id (path : string) : string := GoStr.TrimSpace
  (GoStr.TrimSuffix (GoStr.TrimPrefix path "/admin/trust-promotion/") "/approve").

Definition rewards_step (st : RewardsStep) (s : RewardsDB * Log) : RewardsDB * Log :=
  let '(d, l) := s in
  match st with
  | Seed => (seed_identities d, l)
  | Evaluate p e =>
      if is_some (rd_emission d !! p) then
        ((evaluateProviderTrust e p d).1,
         l <| lg_evals := option_list (logged e p d) ++ lg_evals l |>)
      else s
  | SetIdentity p attested => (d <| rd_identities := <[p := attested]> (rd_identities d) |>, l)
  | Tick p attempts =>
      if is_some (rd_emission d !! p) then
        let '(d', a) := accrueProvider attempts c can_update p (tick_amount c) d in
        (d', l <| lg_accruals := option_list a ++ lg_accruals l |>)
      else s
  | Mirror rows now => (runWalletMirror rows now d, l)
  | PromotionRequest post h has_db body pendingID =>
      let '(d', status) := TrustPromotionRequest uuid_Parse uuid_value sha256 post h keys has_db body pendingID d in
      (d', match status =? 202, uuid_value pendingID, body, authorizedTrustOperator sha256 h keys with
           | true, Some id, Some b, Some actor =>
               l <| lg_acts := Requested id (GoStr.TrimSpace (pb_ProviderID b)) actor h :: lg_acts l |>
           | _, _, _, _ => l
           end)
  | PromotionApprove post h has_db path now =>
      let '(d', status) := TrustPromotionApprove uuid_value sha256 post h keys has_db path now d in
      (d', match status =? 200, uuid_value (approve_id path), authorizedTrustOperator sha256 h keys with
           | true, Some id, Some actor => l <| lg_acts := Approved id actor h :: lg_acts l |>
           | _, _, _ => l
           end)
  end.

Definition rewards_run (identities : gmap string bool) (steps : list RewardsStep) : RewardsDB * Log :=
  fold_left (fun s st => rewards_step st s) steps (empty_rewards identities, mkLog [] [] []).

(** The readings of the clock when a tier is set increase from one evaluation to the next. *)
Fixpoint tiers_clocked (t : Z) (steps : list RewardsStep) : Prop :=
  match steps with
  | [] => True
  | Evaluate _ e :: rest => t <= ee_tier_at e /\ tiers_clocked (ee_tier_at e) rest
  | _ :: rest => tiers_clocked t rest
  end.

Definition evals_of (p : string) (l : Log) : list EvalEntry :=
  List.filter (fun x => String.eqb (el_provider x) p) (lg_evals l).

(** ** The tier *)

(** What the jobs know of the tiers. *)
Record tiers_ok (t : Z) (d : RewardsDB) (l : Log) : Prop := {
  to_inv : forall p, provider_inv d p (evals_of p l);
  to_row : forall p, eval_has_row d p;
  to_earned : forall p, promotions_earned (evals_of p l);
  to_clock : forall x, x ∈ lg_evals l -> el_tier_at x <= t;
  to_trusted : forall p, tier_of d p = TierTrusted ->
    exists x, x ∈ evals_of p l /\ el_result x = Promoted /\ el_pair x = true;
}.

Lemma same_tier_value d d' p : same_tier d d' p -> tier_of d' p = TierTrusted -> tier_of d p = TierTrusted.
Proof.
  intros [_ Hs] Ht. unfold tier_of, loadTrustEvalState in *.
  destruct (rd_emission d !! p), (rd_emission d' !! p); cbn in *; try done; destruct Hs; congruence.
Qed.

(** A step that keeps the tiers and evaluates nobody. *)
Lemma tiers_ok_same t d d' l l' :
  tiers_ok t d l -> (forall p, same_tier d d' p) -> lg_evals l' = lg_evals l -> tiers_ok t d' l'.
Proof.
  intros Hi Hs Hl. unfold evals_of in *. split; try (unfold evals_of; rewrite Hl).
  - intros p. by eapply same_tier_inv; [apply Hi|apply Hi|].
  - intros p. by eapply same_tier_inv; [apply (to_inv _ _ _ Hi)|apply Hi|].
  - apply Hi.
  - apply Hi.
  - intros p Ht. eapply to_trusted; [done|]. by eapply same_tier_value.
Qed.

Lemma evals_of_cons p x ev l :
  evals_of p (l <| lg_evals := x :: ev |>)
  = if String.eqb (el_provider x) p then x :: evals_of p (l <| lg_evals := ev |>) else evals_of p (l <| lg_evals := ev |>).
Proof. unfold evals_of. cbn. by destruct (String.eqb (el_provider x) p). Qed.

Lemma logged_entry e p d x :
  logged e p d = Some x -> el_provider x = p /\ el_now x = ee_now e /\ el_tier_at x = ee_tier_at e.
Proof.
  unfold logged. destruct (trust_findings e p d); [|done]. cbn. destruct (ee_fail_persist e); [done|].
  intros E. injection E as <-. done.
Qed.

Lemma evaluate_other e p d q : q <> p -> same_tier d (evaluateProviderTrust e p d).1 q.
Proof.
  intros Hq. destruct (evaluate_frame e p d) as [Hf _]. destruct (Hf q Hq) as [E1 E2].
  split; [done|]. rewrite E1. by destruct (rd_emission d !! q).
Qed.

Lemma tiers_ok_evaluate t d l e p :
  tiers_ok t d l -> t <= ee_tier_at e -> is_Some (rd_emission d !! p) ->
  tiers_ok (ee_tier_at e) (evaluateProviderTrust e p d).1
    (l <| lg_evals := option_list (logged e p d) ++ lg_evals l |>).
Proof.
  intros Hi Ht Hp. destruct (logged e p d) as [x|] eqn:Hx; cbn [option_list option_rect app].
  2:{ rewrite (not_logged _ _ _ Hx). destruct l, Hi. split; try done. intros x Hx'. specialize (to_clock0 x Hx'). lia. }
  destruct (logged_entry _ _ _ _ Hx) as (Ep & En & Et). pose proof (evaluate_spec e p d x Hp Hx) as He.
  assert (forall q, q <> p -> same_tier d (evaluateProviderTrust e p d).1 q) as Hoth by (intros; by apply evaluate_other).
  assert (forall q, q <> p -> String.eqb (el_provider x) q = false) as Hne
    by (intros q Hq; apply String.eqb_neq; congruence).
  assert (String.eqb (el_provider x) p = true) as Heq by (by apply String.eqb_eq).
  assert (l = l <| lg_evals := lg_evals l |>) as El by by destruct l.
  assert (forall y, y ∈ evals_of p l -> el_tier_at y <= el_tier_at x) as Hcl.
  { intros y Hy. unfold evals_of in Hy. apply elem_of_List_filter in Hy as [Hy _].
    pose proof (to_clock _ _ _ Hi y Hy). lia. }
  split.
  - intros q. rewrite evals_of_cons, <- El. destruct (decide (q = p)) as [->|Hq].
    + rewrite Heq. eapply provider_inv_evaluated; [apply Hi|done..].
    + rewrite (Hne q Hq). by eapply same_tier_inv; [apply Hi|apply Hi|apply Hoth].
  - intros q. destruct (decide (q = p)) as [->|Hq].
    + intros E. destruct (evaluate_keeps_row e p d p Hp) as [es' E']. congruence.
    + by eapply same_tier_inv; [apply (to_inv _ _ _ Hi)|apply Hi|apply Hoth].
  - intros q. rewrite evals_of_cons, <- El. destruct (decide (q = p)) as [->|Hq].
    + rewrite Heq. split; [|apply Hi]. intros Hr. eapply evaluated_earned; [apply Hi|done..].
    + rewrite (Hne q Hq). apply Hi.
  - cbn. intros y [->|Hy]%elem_of_cons; [lia|]. pose proof (to_clock _ _ _ Hi y Hy). lia.
  - intros q Hq'. rewrite evals_of_cons, <- El. destruct (decide (q = p)) as [->|Hq].
    + rewrite Heq. destruct He as [Hr Hpair _ _ _ _ _|_ _ _ E _ _|_ E _ _].
      * exists x. split_and!; [by left|done..].
      * rewrite E in Hq'. done.
      * rewrite E in Hq'. destruct (to_trusted _ _ _ Hi p Hq') as (y & Hy & ?). exists y. split; [by right|done].
    + rewrite (Hne q Hq). eapply to_trusted; [done|]. by eapply same_tier_value, Hq'; apply Hoth.
Qed.

(** ** The ledger *)

(** A row as it was, or with the hold of the wallet cap released. *)
Definition row_released (r r' : RewardRow) : Prop :=
  r' = r \/ (rw_withdrawal_hold_reason r = Some HoldPerWalletDailyCap
            /\ r' = r <| rw_withdrawal_hold_reason := None |>).

Lemma released_refl l : Forall2 row_released l l.
Proof. apply Forall2_refl_on. intros r. by left. Qed.

Lemma clear_hold_released l0 l r :
  NoDup (map rw_id l0) -> Forall2 row_released l0 l -> r ∈ l0 ->
  rw_withdrawal_hold_reason r = Some HoldPerWalletDailyCap -> Forall2 row_released l0 (clear_hold (rw_id r) l).
Proof.
  intros Hn Hf Hr Hh.
  assert (forall x y, x ∈ l0 -> row_released x y ->
    row_released x (if rw_id y =? rw_id r then y <| rw_withdrawal_hold_reason := None |> else y)) as Hstep.
  { intros x y Hx Hxy. destruct (rw_id y =? rw_id r) eqn:E; [|done]. apply Z.eqb_eq in E.
    assert (rw_id x = rw_id r) as E' by (destruct Hxy as [->|[_ ->]]; done).
    pose proof (NoDup_map_inj rw_id l0 x r Hn Hx Hr E') as ->.
    right. split; [done|]. by destruct Hxy as [->|[_ ->]]. }
  clear Hn Hr. unfold clear_hold. induction Hf as [|x y l0 l Hxy Hf IH]; [constructor|].
  cbn [map]. constructor; [apply Hstep; [by left|done]|]. apply IH. intros x' y' Hx'. apply Hstep. by right.
Qed.

Lemma replay_rows_released rows running cap l0 l :
  NoDup (map rw_id l0) -> Forall2 row_released l0 l ->
  (forall r, r ∈ rows -> r ∈ l0 /\ rw_withdrawal_hold_reason r = Some HoldPerWalletDailyCap) ->
  Forall2 row_released l0 (replay_rows rows running cap l).
Proof.
  intros Hn. revert running l. induction rows as [|r rows IH]; intros running l Hf Hr; [done|].
  cbn [replay_rows]. apply IH; [|intros x Hx; apply Hr; by right].
  destruct (Hr r ltac:(by left)) as [Hin Hh]. case_match; [|done]. by apply clear_hold_released.
Qed.

Lemma replay_spec wallet cap now d d' :
  replayCapPending can_update wallet cap now d = Some d' ->
  (NoDup (map rw_id (rd_ledger d)) -> Forall2 row_released (rd_ledger d) (rd_ledger d'))
  /\ (forall q, same_tier d d' q) /\ rd_pending d' = rd_pending d /\ rd_promotions d' = rd_promotions d
  /\ rd_next d' = rd_next d.
Proof.
  unfold replayCapPending. case_match; [done|]. intros E. injection E as <-. split_and!; try done.
  - intros Hn. cbn [rd_ledger set_field]. apply replay_rows_released; [done|apply released_refl|].
    intros r Hr. rewrite merge_sort_Permutation in Hr. apply elem_of_List_filter in Hr as [Hr Hp].
    split; [done|]. unfold replayable in Hp. by bool_hyps.
  - intros q. split; [done|]. cbn. rewrite lookup_fmap. destruct (rd_emission d !! q); [|done]. cbn. by case_match.
Qed.

(** A hold that is absent or that of the wallet cap means a trusted provider out of cooldown. *)
Definition free_hold (o : option string) : Prop := o = None \/ o = Some HoldPerWalletDailyCap.

Lemma free_hold_trusted es now held :
  let hold := holdReasonForState es now in
  let final := if held && String.eqb hold "" then HoldPerWalletDailyCap else hold in
  free_hold (if String.eqb final "" then None else Some final) ->
  es_trust_tier es = TierTrusted /\ in_cooldown es now = false.
Proof.
  cbv zeta. unfold holdReasonForState. destruct (in_cooldown es now); [by destruct held; intros [|]|].
  destruct (String.eqb (es_trust_tier es) TierTrusted) eqn:E; [|by destruct held; intros [|]].
  apply String.eqb_eq in E. done.
Qed.

(** What a committed tick did: it kept every tier; when it accrued, one row was appended under the
    next id and holds of the wallet cap may have been released. *)
Record ticked (p : string) (d : RewardsDB) (d' : RewardsDB) (o : option Accrual) : Prop := {
  tk_tier : forall q, same_tier d d' q;
  tk_pending : rd_pending d' = rd_pending d;
  tk_promotions : rd_promotions d' = rd_promotions d;
  tk_none : o = None -> rd_ledger d' = rd_ledger d /\ rd_next d' = rd_next d;
  tk_some : forall a, o = Some a ->
    rw_id (ac_row a) = rd_next d /\ rw_provider_id (ac_row a) = p /\ rd_next d' = rd_next d + 1
    /\ es_trust_tier (ac_state a) = tier_of d p
    /\ (free_hold (rw_withdrawal_hold_reason (ac_row a)) ->
          es_trust_tier (ac_state a) = TierTrusted /\ in_cooldown (ac_state a) (ac_hold_at a) = false)
    /\ (NoDup (map rw_id (rd_ledger d ++ [ac_row a])) ->
          Forall2 row_released (rd_ledger d ++ [ac_row a]) (rd_ledger d'));
}.

Lemma ensure_row_spec p d d0 es :
  ensure_row p d = (d0, es) ->
  rd_emission d0 !! p = Some es /\ es_trust_tier es = tier_of d p
  /\ (forall q, same_tier d d0 q) /\ rd_pending d0 = rd_pending d /\ rd_promotions d0 = rd_promotions d
  /\ rd_ledger d0 = rd_ledger d /\ rd_next d0 = rd_next d.
Proof.
  unfold ensure_row, tier_of, loadTrustEvalState. destruct (rd_emission d !! p) as [es'|] eqn:E; intros Eq; injection Eq as <- <-.
  - split_and!; try done. intros q. apply same_tier_refl.
  - split_and!; try done; [apply lookup_insert_eq|]. intros q. split; [done|]. cbn.
    destruct (decide (q = p)) as [->|Hq]; [by rewrite lookup_insert_eq, E|].
    rewrite lookup_insert_ne by done. by destruct (rd_emission d !! q).
Qed.

Lemma bump_spec wallet today amount d d' :
  bumpWalletDaily wallet today amount d = Some d' ->
  rd_emission d' = rd_emission d /\ rd_eval d' = rd_eval d /\ rd_ledger d' = rd_ledger d
  /\ rd_next d' = rd_next d /\ rd_pending d' = rd_pending d /\ rd_promotions d' = rd_promotions d.
Proof. unfold bumpWalletDaily. case_match; [done|]. intros E. by injection E as <-. Qed.

Lemma with_row_same_tier p es es' d :
  rd_emission d !! p = Some es -> es_trust_tier es' = es_trust_tier es ->
  es_demotion_cooldown_until es' = es_demotion_cooldown_until es -> forall d',
  rd_emission d' = <[p := es']> (rd_emission d) -> rd_eval d' = rd_eval d -> forall q, same_tier d d' q.
Proof.
  intros He Ht Hc d' E1 E2 q. split; [by rewrite E2|]. rewrite E1. destruct (decide (q = p)) as [->|Hq].
  - by rewrite lookup_insert_eq, He.
  - rewrite lookup_insert_ne by done. by destruct (rd_emission d !! q).
Qed.

Lemma record_spec t p es wallet dayTotal accrue hold d d' a :
  rd_emission d !! p = Some es ->
  record_accrual c can_update t p es wallet dayTotal accrue hold d = Some (d', a) ->
  (forall q, same_tier d d' q) /\ rd_pending d' = rd_pending d /\ rd_promotions d' = rd_promotions d
  /\ rd_next d' = rd_next d + 1 /\ rw_id (ac_row a) = rd_next d /\ rw_provider_id (ac_row a) = p
  /\ ac_state a = es /\ ac_hold_at a = tt_hold t
  /\ rw_withdrawal_hold_reason (ac_row a) = (if String.eqb hold "" then None else Some hold)
  /\ (NoDup (map rw_id (rd_ledger d ++ [ac_row a])) -> Forall2 row_released (rd_ledger d ++ [ac_row a]) (rd_ledger d')).
Proof.
  intros He. unfold record_accrual. cbv zeta.
  destruct (formatMALIBU accrue) as [amount|]; [|done]. cbn [mbind option_bind].
  destruct (float8_numeric _) as [total|]; [|done]. cbn [mbind option_bind].
  destruct (total <? 0); [done|]. set (d1 := set_field rd_emission _ _).
  set (row := mkReward _ _ _ _ _) in *.
  destruct (if negb (String.eqb wallet "") && GoStr.HasPrefix wallet "0x" then _ else Some d1) as [d2|] eqn:E2; [|done].
  assert (rd_emission d2 = rd_emission d1 /\ rd_eval d2 = rd_eval d1 /\ rd_ledger d2 = rd_ledger d1
    /\ rd_next d2 = rd_next d1 /\ rd_pending d2 = rd_pending d1 /\ rd_promotions d2 = rd_promotions d1)
    as (Em & Ev & El & En & Ep & Epr).
  { destruct (_ && _) in E2; [by eapply bump_spec|]. by injection E2 as <-. }
  cbn [mbind option_bind].
  assert (forall q, same_tier d d2 q) as Hs by (eapply (with_row_same_tier p es); [done| | |by rewrite Em|by rewrite Ev]; done).
  destruct (if es_cap_replay_pending es && negb (String.eqb wallet "") then _ else Some d2) as [d3|] eqn:E3; [|done].
  cbn [mbind option_bind]. intros E. injection E as <- <-. cbn [ac_row ac_state ac_hold_at].
  assert ((NoDup (map rw_id (rd_ledger d2)) -> Forall2 row_released (rd_ledger d2) (rd_ledger d3))
    /\ (forall q, same_tier d2 d3 q) /\ rd_pending d3 = rd_pending d2 /\ rd_promotions d3 = rd_promotions d2
    /\ rd_next d3 = rd_next d2) as (Hf & Hs3 & Ep3 & Epr3 & En3).
  { destruct (_ && _) in E3; [by eapply replay_spec|]. injection E3 as <-. split_and!; try done.
    - intros _. apply released_refl.
    - intros q. apply same_tier_refl. }
  rewrite El in Hf. split_and!; try done.
  - intros q. by eapply same_tier_trans.
  - by rewrite Ep3, Ep.
  - by rewrite Epr3, Epr.
  - by rewrite En3, En.
Qed.

Lemma accrueTx_spec t p tick d d' o : accrueTx c can_update t p tick d = Some (d', o) -> ticked p d d' o.
Proof.
  unfold accrueTx. destruct (ensure_row p d) as [d0 es] eqn:Er.
  apply ensure_row_spec in Er as (He & Ht & Hs & Hp1 & Hp2 & Hl & Hn). cbv zeta.
  assert (ticked p d d0 None) as Hnone by (split; [done..|by rewrite Hl, Hn|done]).
  destruct (F64.leb _ _); [intros E; by injection E as <- <-|].
  destruct (F64.leb _ _); [intros E; by injection E as <- <-|].
  match goal with |- context [if ?b then applyWalletCap ?x1 ?x2 ?x3 ?x4 ?x5 else ?y] =>
    destruct (if b then applyWalletCap x1 x2 x3 x4 x5 else y) as [held acc] end.
  destruct (_ && F64.leb acc _); [intros E; by injection E as <- <-|].
  destruct (record_accrual _ _ _ _ _ _ _ _ _ _) as [[d1 a]|] eqn:Ea; [|done]. cbn [mbind option_bind].
  intros E. injection E as <- <-.
  apply record_spec in Ea as (Hs1 & E1 & E2 & En & Eid & Epr & Est & Eh & Ehold & Hrel); [|done].
  split; [intros q; by eapply same_tier_trans|congruence..|done|].
  intros a' E. injection E as <-. rewrite Est, Eh, Ehold, Eid, Epr, <- Hl. split_and!; try congruence; try done.
  apply free_hold_trusted.
Qed.

(** The row was accrued under this state: a trusted provider out of its cooldown that an
    evaluation had promoted on the pair of criteria. *)
Record earned (evals : list EvalEntry) (a : Accrual) : Prop := {
  ea_tier : es_trust_tier (ac_state a) = TierTrusted;
  ea_cooldown : in_cooldown (ac_state a) (ac_hold_at a) = false;
  ea_promoted : exists x, x ∈ evals /\ el_provider x = rw_provider_id (ac_row a)
    /\ el_result x = Promoted /\ el_pair x = true;
}.

Definition same_row (r r' : RewardRow) : Prop :=
  rw_id r' = rw_id r /\ rw_provider_id r' = rw_provider_id r /\ rw_amount_malibu r' = rw_amount_malibu r
  /\ rw_unix_ts r' = rw_unix_ts r.

Definition row_accounted (l : Log) (r : RewardRow) : Prop :=
  exists a, a ∈ lg_accruals l /\ same_row (ac_row a) r
    /\ (free_hold (rw_withdrawal_hold_reason r) -> earned (lg_evals l) a).

Record ledger_ok (d : RewardsDB) (l : Log) : Prop := {
  lo_ids : NoDup (map rw_id (rd_ledger d));
  lo_next : Forall (fun r => rw_id r < rd_next d) (rd_ledger d);
  lo_rows : Forall (row_accounted l) (rd_ledger d);
}.

Lemma row_released_accounted l r r' : row_released r r' -> row_accounted l r -> row_accounted l r'.
Proof.
  intros [->|[Hh ->]] Ha; [done|]. destruct Ha as (a & Ha & Hs & He). exists a. split_and!; [done..|].
  intros _. apply He. by right.
Qed.

Lemma released_ids l l' : Forall2 row_released l l' -> map rw_id l' = map rw_id l.
Proof. induction 1 as [|r r' l l' Hr _ IH]; [done|]. cbn. rewrite IH. by destruct Hr as [->|[_ ->]]. Qed.

Lemma released_Forall (P : RewardRow -> Prop) l l' :
  (forall r r', row_released r r' -> P r -> P r') -> Forall2 row_released l l' -> Forall P l -> Forall P l'.
Proof.
  intros HP Hf. induction Hf as [|r r' l l' Hr _ IH]; intros Hl; [done|]. inversion_clear Hl. constructor; eauto.
Qed.

Lemma accounted_more l l' r :
  (forall x, x ∈ lg_evals l -> x ∈ lg_evals l') -> (forall a, a ∈ lg_accruals l -> a ∈ lg_accruals l') ->
  row_accounted l r -> row_accounted l' r.
Proof.
  intros He Ha (a & H1 & H2 & H3). exists a. split_and!; auto. intros Hf. destruct (H3 Hf) as [E1 E2 (x & Hx & E3)].
  split; [done..|]. exists x. split; auto.
Qed.

Lemma ledger_ok_more d d' l l' :
  ledger_ok d l -> rd_ledger d' = rd_ledger d -> rd_next d' = rd_next d ->
  (forall x, x ∈ lg_evals l -> x ∈ lg_evals l') -> (forall a, a ∈ lg_accruals l -> a ∈ lg_accruals l') ->
  ledger_ok d' l'.
Proof.
  intros [H1 H2 H3] El En He Ha. split; rewrite ?El, ?En; [done..|]. eapply Forall_impl; [exact H3|].
  intros r. by apply accounted_more.
Qed.

Lemma ledger_ok_tick t d l p d' o :
  tiers_ok t d l -> ledger_ok d l -> ticked p d d' o ->
  ledger_ok d' (l <| lg_accruals := option_list o ++ lg_accruals l |>).
Proof.
  intros Ht Hl Hk. destruct o as [a|]; cbn [option_list option_rect app].
  2:{ destruct (tk_none _ _ _ _ Hk eq_refl) as [El En]. by eapply ledger_ok_more. }
  destruct (tk_some _ _ _ _ Hk a eq_refl) as (Eid & Epr & En & Etier & Hfree & Hrel).
  destruct Hl as [Hn Hlt Hrows].
  assert (NoDup (map rw_id (rd_ledger d ++ [ac_row a]))) as Hn'.
  { rewrite map_app. apply NoDup_app. split_and!; [done| |apply NoDup_singleton].
    intros i Hi Hi'. apply list_elem_of_singleton in Hi'. subst i. apply elem_of_map in Hi as (r & Hr & E).
    rewrite Forall_forall in Hlt. specialize (Hlt r Hr). lia. }
  specialize (Hrel Hn'). set (l' := set_field lg_accruals _ _).
  assert (Forall (row_accounted l') (rd_ledger d ++ [ac_row a])) as Hacc.
  { apply Forall_app. split.
    - eapply Forall_impl; [exact Hrows|]. intros r. apply accounted_more; [done|]. cbn. intros. by right.
    - constructor; [|done]. exists a. split_and!; [by left|done|]. intros Hf. destruct (Hfree Hf) as [E1 E2].
      split; [done..|]. rewrite Etier in E1. destruct (to_trusted _ _ _ Ht p E1) as (x & Hx & Hr & Hp).
      unfold evals_of in Hx. apply elem_of_List_filter in Hx as [Hx Hq]. apply String.eqb_eq in Hq.
      exists x. split_and!; [done|congruence|done..]. }
  split.
  - by rewrite (released_ids _ _ Hrel).
  - eapply released_Forall; [|exact Hrel|].
    + intros r r' [->|[_ ->]]; done.
    + apply Forall_app. split; [eapply Forall_impl; [exact Hlt|]; intros r Hr; cbn in *; lia|].
      constructor; [lia|done].
  - eapply released_Forall; [|exact Hrel|exact Hacc]. apply row_released_accounted.
Qed.

(** ** Operator promotions *)

Abbreviation operator h := (authorizedTrustOperator sha256 h keys).

Record acts_ok (d : RewardsDB) (l : Log) : Prop := {
  ao_pending : forall id r, rd_pending d !! id = Some r -> exists h,
    Requested id (pp_provider_id r) (pp_requested_by r) h ∈ lg_acts l /\ operator h = Some (pp_requested_by r);
  ao_promotions : forall p row, rd_promotions d !! p = Some row -> exists id a1 a2 h1 h2,
    Requested id p a1 h1 ∈ lg_acts l /\ Approved id a2 h2 ∈ lg_acts l /\ a1 <> a2
    /\ operator h1 = Some a1 /\ operator h2 = Some a2;
}.

Lemma acts_ok_more d d' l l' :
  acts_ok d l -> rd_pending d' = rd_pending d -> rd_promotions d' = rd_promotions d ->
  (forall x, x ∈ lg_acts l -> x ∈ lg_acts l') -> acts_ok d' l'.
Proof.
  intros [H1 H2] E1 E2 Hx. split; rewrite ?E1, ?E2.
  - intros id r Hr. destruct (H1 id r Hr) as (h & ? & ?). eauto.
  - intros p row Hp. destruct (H2 p row Hp) as (id & a1 & a2 & h1 & h2 & ? & ? & ?). exists id, a1, a2, h1, h2. auto.
Qed.

Lemma gate_operator post h has_db actor : admin_gate sha256 post h keys has_db = inr actor -> operator h = Some actor.
Proof.
  unfold admin_gate. repeat case_match; try done. intros E. injection E as <-. done.
Qed.

Lemma request_spec post h has_db body pendingID d d' status :
  TrustPromotionRequest uuid_Parse uuid_value sha256 post h keys has_db body pendingID d = (d', status) ->
  (d' = d /\ status <> 202)
  \/ exists b actor id reason incident, status = 202 /\ body = Some b /\ uuid_value pendingID = Some id
     /\ operator h = Some actor
     /\ d' = d <| rd_pending := <[id := mkPending (GoStr.TrimSpace (pb_ProviderID b)) actor reason incident None None
                                         "pending"]> (rd_pending d) |>.
Proof.
  unfold TrustPromotionRequest. destruct (admin_gate _ _ _ _ _) as [st|actor] eqn:Hg.
  { intros E. injection E as <- <-. left. split; [done|]. unfold admin_gate in Hg. repeat case_match; congruence. }
  apply gate_operator in Hg. destruct body as [b|]; [|intros E; injection E as <- <-; by left].
  case_match; [intros E; injection E as <- <-; by left|].
  unfold RequestTrustPromotion. destruct (String.eqb pendingID "" || _ || _ || _ || _); [intros E; injection E as <- <-; by left|].
  destruct (uuid_value pendingID) as [id|]; cbn [mbind option_bind]; [|intros E; injection E as <- <-; by left].
  destruct (is_some _ || existsb _ _); intros E; injection E as <- <-; [by left|].
  right. eexists b, actor, id, _, _. split_and!; done.
Qed.

Lemma approve_spec post h has_db path now d d' status :
  TrustPromotionApprove uuid_value sha256 post h keys has_db path now d = (d', status) ->
  (d' = d /\ status <> 200)
  \/ exists actor id row, status = 200 /\ uuid_value (approve_id path) = Some id /\ operator h = Some actor
     /\ rd_pending d !! id = Some row /\ pp_requested_by row <> actor
     /\ d' = d <| rd_pending := <[id := row <| pp_status := "committed" |> <| pp_approved_by := Some actor |>
                                           <| pp_committed_at := Some (pg_time now) |>]> (rd_pending d) |>
              <| rd_promotions := <[pp_provider_id row := mkPromotion actor (pp_reason row) id (pg_time now)]>
                                    (rd_promotions d) |>.
Proof.
  unfold TrustPromotionApprove. fold (approve_id path). destruct (admin_gate _ _ _ _ _) as [st|actor] eqn:Hg.
  { intros E. injection E as <- <-. left. split; [done|]. unfold admin_gate in Hg. repeat case_match; congruence. }
  apply gate_operator in Hg. case_match; [intros E; injection E as <- <-; by left|].
  unfold ApproveTrustPromotion. destruct (String.eqb (approve_id path) "" || String.eqb actor ""); [intros E; injection E as <- <-; by left|].
  destruct (uuid_value (approve_id path)) as [id|] eqn:Hu; cbn [mbind option_bind]; [|intros E; injection E as <- <-; by left].
  destruct (rd_pending d !! id) as [row|] eqn:Hr; cbn [mbind option_bind]; [|intros E; injection E as <- <-; by left].
  destruct (negb _ || _) eqn:Hc; [intros E; injection E as <- <-; by left|].
  intros E. injection E as <- <-. right. exists actor, id, row. bool_hyps. split_and!; done.
Qed.

Lemma acts_ok_request d l id p actor reason incident h :
  acts_ok d l -> operator h = Some actor ->
  acts_ok (d <| rd_pending := <[id := mkPending p actor reason incident None None "pending"]> (rd_pending d) |>)
    (l <| lg_acts := Requested id p actor h :: lg_acts l |>).
Proof.
  intros [H1 H2] Ho. split; cbn.
  - intros id' r Hr. destruct (decide (id' = id)) as [->|Hn].
    + rewrite lookup_insert_eq in Hr. injection Hr as <-. exists h. cbn. split; [by left|done].
    + rewrite lookup_insert_ne in Hr by done. destruct (H1 id' r Hr) as (h' & ? & ?). exists h'. split; [by right|done].
  - intros q row Hq. destruct (H2 q row Hq) as (i & a1 & a2 & h1 & h2 & ? & ? & ?). exists i, a1, a2, h1, h2.
    split_and!; [by right|by right|tauto..].
Qed.

Lemma acts_ok_approve d l id row actor reason t h :
  acts_ok d l -> operator h = Some actor -> rd_pending d !! id = Some row -> pp_requested_by row <> actor ->
  acts_ok (d <| rd_pending := <[id := row <| pp_status := "committed" |> <| pp_approved_by := Some actor |>
                                        <| pp_committed_at := Some t |>]> (rd_pending d) |>
             <| rd_promotions := <[pp_provider_id row := mkPromotion actor reason id t]> (rd_promotions d) |>)
    (l <| lg_acts := Approved id actor h :: lg_acts l |>).
Proof.
  intros [H1 H2] Ho Hr Hne. destruct (H1 id row Hr) as (hr & Hreq & Hop). split; cbn.
  - intros id' r Hr'. destruct (decide (id' = id)) as [->|Hn].
    + rewrite lookup_insert_eq in Hr'. injection Hr' as <-. exists hr. cbn. split; [by right|done].
    + rewrite lookup_insert_ne in Hr' by done. destruct (H1 id' r Hr') as (h' & ? & ?). exists h'. split; [by right|done].
  - intros q prow Hq. destruct (decide (q = pp_provider_id row)) as [->|Hn].
    + exists id, (pp_requested_by row), actor, hr, h. split_and!; [by right|by left|done..].
    + rewrite lookup_insert_ne in Hq by done. destruct (H2 q prow Hq) as (i & a1 & a2 & h1 & h2 & ? & ? & ?).
      exists i, a1, a2, h1, h2. split_and!; [by right|by right|tauto..].
Qed.

(** ** Every history *)

Lemma mirror_frame rows now d :
  let d' := runWalletMirror rows now d in
  rd_ledger d' = rd_ledger d /\ rd_next d' = rd_next d /\ rd_pending d' = rd_pending d
  /\ rd_promotions d' = rd_promotions d.
Proof.
  cbv zeta. revert d. induction rows as [|a rows IH]; intros d; [done|]. cbn [runWalletMirror].
  destruct (upsertProjection _ _ _ _ _ _) as [d'|] eqn:E; [|done].
  destruct (IH d') as (-> & -> & -> & ->). unfold upsertProjection in E. case_match; [done|]. by injection E as <-.
Qed.

Lemma accrue_ticked attempts p tick d d' o :
  accrueProvider attempts c can_update p tick d = (d', o) -> ticked p d d' o.
Proof.
  assert (ticked p d d None) as Hn by (split; try done; intros q; apply same_tier_refl).
  unfold accrueProvider. destruct (F64.leb tick F64.zero); [intros E; by injection E as <- <-|].
  generalize (Z.to_nat (MaxSerializableRetries c)). intros n. revert attempts.
  induction n as [|n IH]; intros attempts; cbn [accrue_retry]; [intros E; by injection E as <- <-|].
  destruct attempts as [|[fate t] attempts]; [intros E; by injection E as <- <-|].
  destruct (accrueTx c can_update t p tick d) as [[d1 o1]|] eqn:Ea, fate; intros E;
    first [by injection E as <- <-|by eapply IH|idtac]. injection E as <- <-. by eapply accrueTx_spec.
Qed.

Lemma acts_ok_step st s : acts_ok s.1 s.2 -> acts_ok (rewards_step st s).1 (rewards_step st s).2.
Proof.
  destruct s as [d l]. intros Ha. cbn [fst snd] in Ha.
  destruct st as [|p e|p att|p attempts|rows now|post h has_db body pid|post h has_db path now]; cbn [rewards_step].
  - by eapply acts_ok_more.
  - destruct (is_some _); [|done]. destruct (evaluate_frame e p d) as (_ & E1 & E2 & _). by eapply acts_ok_more.
  - by eapply acts_ok_more.
  - destruct (is_some _); [|done].
    destruct (accrueProvider attempts c can_update p (tick_amount c) d) as [d' o] eqn:E.
    apply accrue_ticked in E. by eapply acts_ok_more; [done|apply E|apply E|].
  - destruct (mirror_frame rows now d) as (_ & _ & E3 & E4). by eapply acts_ok_more.
  - destruct (TrustPromotionRequest _ _ _ _ _ _ _ _ _ _) as [d' status] eqn:E.
    apply request_spec in E as [[-> Hs]|(b & actor & id & reason & inc & -> & -> & Hu & Ho & ->)].
    { apply Z.eqb_neq in Hs. by rewrite Hs. }
    rewrite Hu, Ho. by apply acts_ok_request.
  - destruct (TrustPromotionApprove _ _ _ _ _ _ _ _ _) as [d' status] eqn:E.
    apply approve_spec in E as [[-> Hs]|(actor & id & row & -> & Hu & Ho & Hr & Hne & ->)].
    { apply Z.eqb_neq in Hs. by rewrite Hs. }
    rewrite Hu, Ho. by apply acts_ok_approve.
Qed.

(** Tiers and ledger together: a row needs the tier of its provider. *)
Definition rewards_ok (t : Z) (s : RewardsDB * Log) : Prop := tiers_ok t s.1 s.2 /\ ledger_ok s.1 s.2.

(** A step that writes neither tiers nor ledger and logs no evaluation and no accrual. *)
Lemma rewards_ok_same t d d' l l' :
  rewards_ok t (d, l) -> (forall p, same_tier d d' p) -> rd_ledger d' = rd_ledger d -> rd_next d' = rd_next d ->
  lg_evals l' = lg_evals l -> lg_accruals l' = lg_accruals l -> rewards_ok t (d', l').
Proof.
  intros [Ht Hl] Hs E1 E2 E3 E4. split; cbn in *; [by eapply tiers_ok_same|].
  eapply ledger_ok_more; [done..| |]; [by rewrite E3|by rewrite E4].
Qed.

Definition next_clock (t : Z) (st : RewardsStep) : Z :=
  match st with Evaluate _ e => ee_tier_at e | _ => t end.

Lemma rewards_ok_step t st s :
  rewards_ok t s -> t <= next_clock t st ->
  exists t', t' <= next_clock t st /\ rewards_ok t' (rewards_step st s).
Proof.
  destruct s as [d l]. intros Hok Hc.
  destruct st as [|p e|p att|p attempts|rows now|post h has_db body pid|post h has_db path now];
    cbn [rewards_step next_clock] in *.
  - exists t. split; [done|]. by eapply rewards_ok_same; [done|apply seed_same_tier|..].
  - destruct (rd_emission d !! p) as [es|] eqn:Hp; cbn [is_some]; [|exists t; by split].
    exists (ee_tier_at e). split; [done|]. destruct Hok as [Ht Hl].
    destruct (evaluate_frame e p d) as (_ & _ & _ & _ & _ & _ & E3 & E4). split; cbn [fst snd] in *.
    + apply (tiers_ok_evaluate t); [done..|by rewrite Hp].
    + eapply ledger_ok_more; [done..| |done]. cbn. intros x Hx. apply elem_of_app. by right.
  - exists t. split; [done|]. by eapply rewards_ok_same; [done|intros q; by apply same_tier_eq|..].
  - destruct (rd_emission d !! p) as [es|] eqn:Hp; cbn [is_some]; [|exists t; by split].
    destruct (accrueProvider attempts c can_update p (tick_amount c) d) as [d' o] eqn:E.
    apply accrue_ticked in E. exists t. split; [done|]. destruct Hok as [Ht Hl]. split; cbn [fst snd] in *.
    + by eapply tiers_ok_same; [done|apply E|].
    + by eapply ledger_ok_tick.
  - exists t. split; [done|]. destruct (mirror_frame rows now d) as (E1 & E2 & _).
    by eapply rewards_ok_same; [done|apply mirror_same_tier|..].
  - destruct (TrustPromotionRequest _ _ _ _ _ _ _ _ _ _) as [d' status] eqn:E. exists t. split; [done|].
    apply request_spec in E as [[-> _]|(b & actor & id & reason & inc & _ & _ & _ & _ & ->)];
      (eapply rewards_ok_same; [done|intros q; by apply same_tier_eq|..]); repeat case_match; done.
  - destruct (TrustPromotionApprove _ _ _ _ _ _ _ _ _) as [d' status] eqn:E. exists t. split; [done|].
    apply approve_spec in E as [[-> _]|(actor & id & row & _ & _ & _ & _ & _ & ->)];
      (eapply rewards_ok_same; [done|intros q; by apply same_tier_eq|..]); repeat case_match; done.
Qed.

Lemma rewards_ok_run steps t s :
  (exists t0, t0 <= t /\ rewards_ok t0 s) -> tiers_clocked t steps ->
  exists t', rewards_ok t' (fold_left (fun s st => rewards_step st s) steps s).
Proof.
  revert t s. induction steps as [|st steps IH]; intros t s (t0 & Ht0 & Hok) Hc; [by exists t0|].
  cbn [fold_left]. destruct (rewards_ok_step t0 st s Hok) as (t1 & Ht1 & Hok1).
  { destruct st; cbn in *; lia. }
  apply (IH (next_clock t st)).
  - exists t1. split; [|done]. destruct st; cbn in *; lia.
  - destruct st; cbn in *; tauto.
Qed.

Lemma rewards_reached identities steps t :
  tiers_clocked t steps -> exists t', rewards_ok t' (rewards_run identities steps).
Proof.
  intros Hc. eapply rewards_ok_run; [|exact Hc]. exists t. split; [done|]. split; cbn [fst snd].
  - split; try done; [|by intros x Hx; apply elem_of_nil in Hx].
    intros p. split; try done. by intros _ _ y Hy; apply elem_of_nil in Hy.
  - split; constructor.
Qed.

Lemma acts_reached identities steps : acts_ok (rewards_run identities steps).1 (rewards_run identities steps).2.
Proof.
  unfold rewards_run. assert (acts_ok (empty_rewards identities) (mkLog [] [] [])) as H1 by done.
  revert H1. generalize (empty_rewards identities) (mkLog [] [] []). induction steps as [|st steps IH]; intros d l Ha; [done|].
  cbn [fold_left]. pose proof (acts_ok_step st (d, l) Ha) as Hs. destruct (rewards_step st (d, l)) as [d' l']. by apply IH.
Qed.

(** ** Withdrawable rewards *)

(** Claim C22. A row that can be withdrawn was accrued while its provider was trusted and out of its
    cooldown, after an evaluation promoted the provider on two facts of which one is economic. *)
Theorem withdrawable_was_earned identities steps t p limit r :
  tiers_clocked t steps ->
  let s := rewards_run identities steps in
  r ∈ SelectWithdrawableMALIBU p limit s.1 ->
  rw_provider_id r = p /\ 0 < rw_amount_malibu r
  /\ exists a x, a ∈ lg_accruals s.2 /\ same_row (ac_row a) r
      /\ es_trust_tier (ac_state a) = TierTrusted /\ in_cooldown (ac_state a) (ac_hold_at a) = false
      /\ x ∈ lg_evals s.2 /\ el_provider x = p /\ el_result x = Promoted /\ two_facts (el_input x) = true.
Proof.
  intros Hc. cbv zeta. destruct (rewards_reached identities steps t Hc) as (t' & _ & [_ _ Hrows]).
  unfold SelectWithdrawableMALIBU. intros Hr. apply elem_of_take in Hr as (i & Hr & _).
  apply list_elem_of_lookup_2 in Hr. rewrite merge_sort_Permutation in Hr.
  apply elem_of_List_filter in Hr as [Hr Hw]. unfold withdrawable in Hw. bool_hyps.
  rewrite Forall_forall in Hrows. destruct (Hrows r Hr) as (a & Ha & Hs & He).
  destruct He as [E1 E2 (x & Hx & Ep & Hres & Hpair)]; [by left|].
  split_and!; [done|lia|]. exists a, x. destruct Hs as (Si & Sp & Sa & St). split_and!; try done.
  - by rewrite Ep, <- Sp.
  - by rewrite <- pair_is_two_facts.
Qed.

Lemma promotions_earned_at l later x earlier :
  promotions_earned l -> l = later ++ x :: earlier -> el_result x = Promoted -> promotion_earned x earlier.
Proof.
  intros Hp ->. induction later as [|y later IH]; cbn in Hp; [tauto|]. apply IH, Hp.
Qed.

(** A provider that was demoted is promoted again only after the 72 hours of its cooldown, and
    only when an evaluation 72 hours back and every evaluation since then found the pair of
    criteria; the stored times are exact to half a microsecond. *)
Theorem demoted_provider_requalifies identities steps t p later x earlier :
  tiers_clocked t steps ->
  evals_of p (rewards_run identities steps).2 = later ++ x :: earlier -> el_result x = Promoted ->
  promotion_earned x earlier.
Proof.
  intros Hc El Hr. destruct (rewards_reached identities steps t Hc) as (t' & Ht & _).
  by eapply promotions_earned_at; [apply (to_earned _ _ _ Ht p)| |].
Qed.

(** *** Two operators *)

(** The token a request presents. *)
Definition presented (h : Header) : string :=
  GoStr.TrimSpace (GoStr.TrimPrefix (GoStr.TrimSpace (Get h "Authorization")) "Bearer ").

Lemma distinct_secrets_NoDup seen l :
  distinct_secrets seen l = true ->
  NoDup (map GoStr.TrimSpace l) /\ forall x, x ∈ map GoStr.TrimSpace l -> x ∉ seen.
Proof.
  revert seen. induction l as [|y l IH]; intros seen; cbn [distinct_secrets map].
  { intros _. split; [constructor|]. intros x Hx. by apply elem_of_nil in Hx. }
  intros Hd. bool_hyps. match goal with H : distinct_secrets _ l = true |- _ => apply IH in H as [Hn Hs] end.
  split.
  - constructor; [|done]. intros Hin. apply Hs in Hin. set_solver.
  - intros x [->|Hx]%elem_of_cons; [done|]. apply Hs in Hx. set_solver.
Qed.

Lemma operator_secret h actor :
  operator h = Some actor -> exists kv, kv ∈ keys /\ actor = normalizedTrustOperatorActor kv.1
    /\ sha256 (presented h) = sha256 (GoStr.TrimSpace kv.2) /\ dualControlReady keys = true.
Proof.
  unfold authorizedTrustOperator. destruct (dualControlReady keys) eqn:Hd; cbn [negb]; [|done].
  destruct (find _ keys) as [[id secret]|] eqn:Hf; cbn [mbind option_bind]; [|done].
  intros E. injection E as <-. apply find_Some_elem in Hf as [Hin Hm]. exists (id, secret).
  split_and!; try done. unfold BearerTokenMatchesHeader in Hm. repeat case_match; try done. by apply String.eqb_eq in Hm.
Qed.

Lemma operators_differ h1 h2 a1 a2 :
  (forall x y, x ∈ map snd keys -> y ∈ map snd keys ->
     sha256 (GoStr.TrimSpace x) = sha256 (GoStr.TrimSpace y) -> GoStr.TrimSpace x = GoStr.TrimSpace y) ->
  operator h1 = Some a1 -> operator h2 = Some a2 -> a1 <> a2 -> presented h1 <> presented h2.
Proof.
  intros Hsha H1 H2 Hne E. apply operator_secret in H1 as (k1 & Hk1 & -> & S1 & Hd).
  apply operator_secret in H2 as (k2 & Hk2 & -> & S2 & _). apply Hne. f_equal. f_equal.
  rewrite E, S2 in S1. unfold dualControlReady in Hd. apply andb_true_iff in Hd as [_ Hd].
  apply distinct_secrets_NoDup in Hd as [Hn _]. rewrite map_map in Hn.
  apply (NoDup_map_inj (fun kv => GoStr.TrimSpace kv.2) keys k1 k2); [done..|].
  symmetry. apply Hsha; [apply elem_of_map; eauto..|done].
Qed.

(** An operator promotion took two operators: one who requested it and another who approved that
    request, with different names and different tokens, unless two secrets of the configuration
    have the same hash. *)
Theorem promotion_took_two_operators identities steps p row :
  (forall x y, x ∈ map snd keys -> y ∈ map snd keys ->
     sha256 (GoStr.TrimSpace x) = sha256 (GoStr.TrimSpace y) -> GoStr.TrimSpace x = GoStr.TrimSpace y) ->
  let s := rewards_run identities steps in
  rd_promotions s.1 !! p = Some row ->
  exists id a1 a2 h1 h2, Requested id p a1 h1 ∈ lg_acts s.2 /\ Approved id a2 h2 ∈ lg_acts s.2
    /\ a1 <> a2 /\ presented h1 <> presented h2.
Proof.
  intros Hsha. cbv zeta. intros Hp.
  destruct (ao_promotions _ _ (acts_reached identities steps) p row Hp) as (id & a1 & a2 & h1 & h2 & R & A & Hne & O1 & O2).
  exists id, a1, a2, h1, h2. split_and!; try done. by eapply operators_differ.
Qed.
End History.

(** A role that may not update the ledger cannot replay: a provider whose wallet was bound and
    whose replay is pending accrues nothing, and stays so, since every tick fails. *)
Theorem pending_replay_needs_update c t p tick d es d' o :
  rd_emission d !! p = Some es -> es_cap_replay_pending es = true ->
  GoStr.ToLower (default "" (es_bound_wallet es)) <> "" ->
  accrueTx c false t p tick d = Some (d', o) -> o = None /\ d' = d.
Proof.
  intros He Hr Hw. unfold accrueTx, ensure_row. rewrite He. cbv zeta.
  destruct (F64.leb _ _); [intros E; by injection E as <- <-|].
  destruct (F64.leb _ _); [intros E; by injection E as <- <-|].
  match goal with |- context [if ?b then applyWalletCap ?x1 ?x2 ?x3 ?x4 ?x5 else ?y] =>
    destruct (if b then applyWalletCap x1 x2 x3 x4 x5 else y) as [held acc] end.
  destruct (_ && F64.leb acc _); [intros E; by injection E as <- <-|].
  destruct (record_accrual _ _ _ _ _ _ _ _ _ _) as [[d1 a]|] eqn:Ea; [|done]. exfalso.
  unfold record_accrual in Ea. cbv zeta in Ea. apply String.eqb_neq in Hw. rewrite Hr, Hw in Ea. cbn [andb negb] in Ea.
  destruct (formatMALIBU acc); [|done]. cbn [mbind option_bind] in Ea.
  destruct (float8_numeric _); [|done]. cbn [mbind option_bind] in Ea. destruct (_ <? 0); [done|].
  match type of Ea with context [if ?b then bumpWalletDaily ?w ?t' ?m ?x else ?y] =>
    destruct (if b then bumpWalletDaily w t' m x else y) end; done.
Qed.
End Rewards.

(** ** Concrete histories *)

Module RewardsExample.
#[export] Instance micro_time : PgTime.
Proof.
  refine {| pg_time := fun t => (t + 500) / 1000 * 1000 |}; intros t.
  - pose proof (Z.div_mod (t + 500) 1000 ltac:(lia)). pose proof (Z.mod_pos_bound (t + 500) 1000 ltac:(lia)). lia.
  - apply Z.mod_mul. lia.
  - intros Ht. pose proof (Z.div_mod t 1000 ltac:(lia)). rewrite Ht in *.
    replace (t + 500) with (500 + t / 1000 * 1000) by lia. rewrite Z.div_add by lia. change (500 / 1000) with 0. lia.
Defined.

#[export] Instance decimal : PgNumeric := {|
  numeric_float8 := fun n => F64.ratio n 100000000;
  float8_numeric := formatMALIBU;
|}.

Definition conf : Config := DefaultsApplied (mkConfig 0 F64.zero F64.zero 0 0 0).
Definition t0 : Z := 1767225600 * second.

Definition verdict : VerdictRow :=
  mkVerdictRow "acct" "req" 0 "mac-1" "digest" "enforce" "v1" "valid" true "verified" "".
Definition receipts : list VerdictRow := repeat verdict 100.

(** An evaluation that reads these verdicts; there is no pool and no balance check. *)
Definition env (rows : list VerdictRow) (now : Z) : EvalEnv :=
  mkEvalEnv now (now + 1000) (Some rows) None false (fun _ => None) false false false false.

Definition keys : list (string * string) := [("ana", "s1"); ("bo", "s2")].
Definition bearer (token : string) : Header := {["Authorization" := ["Bearer " +:+ token]]}.
Definition run (can_update : bool) (steps : list RewardsStep) : RewardsDB * Log :=
  rewards_run conf can_update keys (fun _ => true) Some (fun s => s) {["mac-1" := true]} steps.
Definition times (t : Z) : list (TxFate * TickTimes) := [(TxCommits, mkTimes t t t t)].

(** Promoted, ticked, demoted, and promoted again after the cooldown and 72 hours of the pair. *)
Definition history : list RewardsStep :=
  [Seed; Tick "mac-1" (times t0); Evaluate "mac-1" (env receipts (t0 + second)); Tick "mac-1" (times (t0 + 2 * second));
   Evaluate "mac-1" (env [] (t0 + hour)); Evaluate "mac-1" (env receipts (t0 + 2 * hour));
   Evaluate "mac-1" (env receipts (t0 + 73 * hour)); Evaluate "mac-1" (env receipts (t0 + 75 * hour))].
End RewardsExample.
Import RewardsExample.

Example history_results :
  map (fun x => (el_now x - t0, el_result x)) (lg_evals (run true history).2)
  = [(75 * hour, Promoted); (73 * hour, Kept); (2 * hour, Kept); (hour, Demoted); (second, Promoted)].
Proof. vm_compute. reflexivity. Qed.

Example history_ledger :
  map (fun r => (rw_amount_malibu r, rw_withdrawal_hold_reason r)) (rd_ledger (run true history).1)
  = [(26041667, Some "trust_tier_provisional"); (26041667, None)].
Proof. vm_compute. reflexivity. Qed.

(** The ticks of a day add up to the cap of the provider. *)
Example day_accrues_the_cap :
  let steps := Seed :: map (fun i => Tick "mac-1" (times (t0 + Z.of_nat i * 900 * second))) (seq 0 96) in
  accrued_sums "mac-1" (run true steps).1 = (2500000000, 0).
Proof. vm_compute. reflexivity. Qed.

(** The wallet has 0.1 left of its cap: the tick of 0.26 accrues 0.1 and holds it, the other 0.16
    are dropped; when nothing is left a tick is held whole. *)
Example wallet_overflow :
  let d := (empty_rewards ∅) <| rd_wallet_daily := {[("0xab", 20454) := 9990000000]} |> in
  (applyWalletCap d "0xab" 20454 (tick_amount conf) (WalletDailyCapMALIBU conf) : bool * float64)
  = (true, F64.sub (F64.of_Z 100) (F64.ratio 9990000000 100000000))
  /\ applyWalletCap (d <| rd_wallet_daily := {[("0xab", 20454) := 10000000000]} |>) "0xab" 20454 (tick_amount conf)
       (WalletDailyCapMALIBU conf) = (true, tick_amount conf).
Proof. vm_compute. by split. Qed.

(** The binding of a wallet stops the accrual of a provider under a role without the privilege. *)
Example bound_wallet_stops_accrual :
  let address := mkAddressRow "mac-1" "base-mainnet" "0xAB" true None None "2026-01-01T00:00:00Z" "0xhot" in
  let steps := [Seed; Tick "mac-1" (times t0); Mirror [address] t0; Tick "mac-1" (times (t0 + second));
                Tick "mac-1" (times (t0 + day))] in
  (length (rd_ledger (run false steps).1), length (rd_ledger (run true steps).1)) = (1%nat, 3%nat).
Proof. vm_compute. reflexivity. Qed.

Lemma history_tiers_clocked : tiers_clocked t0 history.
Proof. cbn. unfold hour, second. lia. Qed.

Lemma withdrawable_was_earned_witness :
  exists a, a ∈ lg_accruals (run true history).2 /\ es_trust_tier (ac_state a) = TierTrusted.
Proof.
  destruct (withdrawable_was_earned conf true keys (fun _ => true) Some (fun s => s) {["mac-1" := true]} history t0
    "mac-1" 10 (mkReward 2 "mac-1" (t0 / second + 2) 26041667 None)) as (_ & _ & a & x & Ha & _ & Ht & _).
  - apply history_tiers_clocked.
  - vm_compute. left.
  - exists a. split; [exact Ha|exact Ht].
Defined.

Lemma demoted_provider_requalifies_witness :
  exists x earlier, el_now x = t0 + 75 * hour /\ promotion_earned x earlier /\ length earlier = 4%nat.
Proof.
  pose (l := evals_of "mac-1" (run true history).2).
  exists (hd (mkEntry "" 0 0 (mkSatisfied 0 false false false false false) Kept) l), (tail l). split; [vm_compute; reflexivity|].
  split; [|vm_compute; reflexivity].
  apply (demoted_provider_requalifies conf true keys (fun _ => true) Some (fun s => s) {["mac-1" := true]} history t0 "mac-1" []).
  - apply history_tiers_clocked.
  - vm_compute. reflexivity.
  - vm_compute. reflexivity.
Defined.

Definition promotion_steps : list RewardsStep :=
  [PromotionRequest true (bearer "s1") true (Some (mkPromotionBody "mac-1" "" "incident" "")) "u-1";
   PromotionApprove true (bearer "s1") true "/admin/trust-promotion/u-1/approve" t0;
   PromotionApprove true (bearer "s2") true "/admin/trust-promotion/u-1/approve" t0].

Lemma promotion_took_two_operators_witness :
  exists row, rd_promotions (run true promotion_steps).1 !! "mac-1" = Some row
    /\ exists id a1 a2 h1 h2, Requested id "mac-1" a1 h1 ∈ lg_acts (run true promotion_steps).2
         /\ Approved id a2 h2 ∈ lg_acts (run true promotion_steps).2 /\ a1 <> a2 /\ presented h1 <> presented h2.
Proof.
  exists (mkPromotion "operator:bo" "incident" "u-1" t0). split; [vm_compute; reflexivity|].
  apply (promotion_took_two_operators conf true keys (fun _ => true) Some (fun s => s) {["mac-1" := true]}
    promotion_steps "mac-1" (mkPromotion "operator:bo" "incident" "u-1" t0)).
  - intros x y _ _ E. exact E.
  - vm_compute. reflexivity.
Defined.
