(* ===== verification/RuntimeFlags.v ===== *)
(** The runtime flags of the payout pipeline: [internal/payout/runtime_flags.go],
    [pauseresume.go], [bootstrap.go], [pause_reader.go] and the first half of [reaper.go].

    An operator pauses and resumes the registration of payout addresses. A flip is one
    transaction that changes the flag and writes an audit row; the event that pages the
    operators is sent after a second transaction has claimed the audit row, by the request
    itself or, when that failed, by the reaper five minutes later. A process of the model
    ([Proc]) makes one step per transaction and per event sent, and any number of processes
    run at once, each statement of a transaction may fail, and a crash ends all processes.

    Shown: the flag is what the last audit row says, the audit rows alternate and keep the
    minimal distance, every flip is announced at most once and with its own data, a pass of
    the reaper leaves no flip unclaimed that is old enough, and restarts keep the flags. *)
From S2P Require Import Prelude GoTime Ledger Settlement Evm PayoutStore.
From S2P Require PayoutAddresses.

(** ** Tables *)

(** [runtime_flags], by name *)
Record FlagRow := mkFlagRow {
  fl_value : Z;
  fl_updated_at_utc : string;
  fl_updated_by_actor : string;
  fl_updated_reason : string;
}.

Record AuditRow := mkAuditRow {
  ID : Z;
  FlagName : string;
  OldValue : Z;
  NewValue : Z;
  Actor : string;
  Reason : string;
  OccurredAtUTC : string;
}.

(** A row of [runtime_flag_audit] with its [emitted_to_log]. *)
Record AuditRec := mkAuditRec { au_row : AuditRow; au_emitted : bool }.

#[export] Instance rebuild_AuditRec : Rebuild AuditRec := fun r => mkAuditRec (au_row r) (au_emitted r).

(** [fd_audit] is in the order of the ids, which [AUTOINCREMENT] makes the order of
    insertion; [fd_next] is the next of them. [fd_bootstrapped] is the one row of
    [runtime_flags_bootstrapped]. *)
Record FlagDB := mkFlagDB {
  fd_flags : gmap string FlagRow;
  fd_audit : list AuditRec;
  fd_next : Z;
  fd_bootstrapped : option string;
}.

#[export] Instance rebuild_FlagDB : Rebuild FlagDB := fun d =>
  mkFlagDB (fd_flags d) (fd_audit d) (fd_next d) (fd_bootstrapped d).

Definition empty_flags : FlagDB := mkFlagDB ∅ [] 1 None.

(** The statement of a transaction that fails, counted from 0; [None] is none. *)
Definition Fault : Type := option nat.
Definition fails (f : Fault) (n : nat) : bool := bool_decide (f = Some n).

(** ** Start of the process: [bootstrap.go] *)

Definition closedSetFlags : list string := ["registration_paused"].

Inductive BootError :=
| BootQuery
| SentinelMissing
| FlagRowMissing (name : string).

Definition seed_row (stamp : string) : FlagRow := mkFlagRow 0 stamp "system:bootstrap_seed" "".

(** [INSERT INTO runtime_flags]: [None] when the name is taken. *)
Definition seed_flag (stamp : string) (flags : option (gmap string FlagRow)) (name : string)
    : option (gmap string FlagRow) :=
  m ← flags; if bool_decide (is_Some (m !! name)) then None else Some (<[name := seed_row stamp]> m).

(** The statements of the seed: the connection and [BEGIN], an [INSERT] per flag, the
    sentinel, [COMMIT]; [f] counts them from 0. *)
Definition seedRuntimeFlags (f : Fault) (now : Z) (d : FlagDB) : BootError + FlagDB :=
  let stamp := rfc3339NanoText now in
  if bool_decide (is_Some f) then inl BootQuery
  else match fold_left (seed_flag stamp) closedSetFlags (Some (fd_flags d)), fd_bootstrapped d with
       | Some flags, None => inr (d <| fd_flags := flags |> <| fd_bootstrapped := Some stamp |>)
       | _, _ => inl BootQuery
       end.

Definition flagExists (name : string) (d : FlagDB) : bool := bool_decide (is_Some (fd_flags d !! name)).

(** The three counts are queries 0 to 2; after them come the seed or the lookups. *)
Definition BootstrapRuntimeFlags (f seed_fault : Fault) (now : Z) (d : FlagDB) : BootError + FlagDB :=
  if fails f 0 || fails f 1 || fails f 2 then inl BootQuery
  else
    let bootstrapped := is_some (fd_bootstrapped d) in
    let flags := negb (bool_decide (fd_flags d = ∅)) in
    let audit := negb (bool_decide (fd_audit d = [])) in
    if negb bootstrapped && negb flags && negb audit then seedRuntimeFlags seed_fault now d
    else if negb bootstrapped && (flags || audit) then inl SentinelMissing
    else if fails f 3 then inl BootQuery
    else match find (fun name => negb (flagExists name d)) closedSetFlags with
         | Some name => inl (FlagRowMissing name)
         | None => inr d
         end.

(** ** The write: [runtime_flags.go] *)

Inductive FlagErr :=
| ErrBadValue | ErrActorRequired | ErrStatement
| ErrFlagMissing | ErrFlagAlreadyAtTarget | ErrFlagRateLimited.

Definition of_flag (name : string) (r : AuditRec) : bool := String.eqb (FlagName (au_row r)) name.

(** [ORDER BY id DESC LIMIT 1] *)
Definition last_audit (name : string) (l : list AuditRec) : option AuditRow :=
  au_row <$> last (List.filter (of_flag name) l).

Definition rate_limited (minInterval now : Z) (name : string) (l : list AuditRec) : bool :=
  match last_audit name l with
  | Some r => match parse_rfc3339 (OccurredAtUTC r) with
              | Some last => time_sub now last <? minInterval
              | None => false
              end
  | None => false
  end.

(** The statements: the connection and [BEGIN IMMEDIATE], the flag, the last audit row, the
    update, the insert, [COMMIT]. A transaction that fails is rolled back. *)
Definition WriteFlagWithAudit (f : Fault) (flag : string) (newValue : Z) (actor reason : string)
    (minInterval now : Z) (d : FlagDB) : FlagErr + AuditRow * FlagDB :=
  if negb ((newValue =? 0) || (newValue =? 1)) then inl ErrBadValue
  else if String.eqb actor "" then inl ErrActorRequired
  else if fails f 0 || fails f 1 then inl ErrStatement
  else match fd_flags d !! flag with
  | None => inl ErrFlagMissing
  | Some row =>
      if fl_value row =? newValue then inl ErrFlagAlreadyAtTarget
      else if (0 <? minInterval) && fails f 2 then inl ErrStatement
      else if (0 <? minInterval) && rate_limited minInterval now flag (fd_audit d) then inl ErrFlagRateLimited
      else if fails f 3 || fails f 4 || fails f 5 then inl ErrStatement
      else
        let stamp := rfc3339NanoText now in
        let audit := mkAuditRow (fd_next d) flag (fl_value row) newValue actor reason stamp in
        inr (audit, mkFlagDB (<[flag := mkFlagRow newValue stamp actor reason]> (fd_flags d))
                      (fd_audit d ++ [mkAuditRec audit false]) (fd_next d + 1) (fd_bootstrapped d))
  end.

(** *** The claim *)

Definition unemitted (id : Z) (r : AuditRec) : bool := (ID (au_row r) =? id) && negb (au_emitted r).

Definition mark (id : Z) (r : AuditRec) : AuditRec :=
  if unemitted id r then r <| au_emitted := true |> else r.

Inductive ClaimResult := ClaimFailed | NotMine | Claimed (row : AuditRow).

(** The transaction of [ClaimAndEmit]: the [UPDATE ... RETURNING id] and [readAuditRowTx].
    [Claimed] lets the caller send the event. *)
Definition claimTx (f : Fault) (id : Z) (d : FlagDB) : ClaimResult * FlagDB :=
  if bool_decide (is_Some f) then (ClaimFailed, d)
  else match find (unemitted id) (fd_audit d) with
       | None => (NotMine, d)
       | Some r => (Claimed (au_row r), d <| fd_audit := map (mark id) (fd_audit d) |>)
       end.

Definition ListUnemittedOlderThan (cutoff : Z) (d : FlagDB) : list Z :=
  map (fun r => ID (au_row r))
    (List.filter (fun r => negb (au_emitted r) && String.ltb (OccurredAtUTC (au_row r)) (rfc3339NanoText cutoff))
       (fd_audit d)).

(** ** Requests and the reaper: [pauseresume.go], [reaper.go] *)

Definition flagFlipEventName (newValue : Z) : string :=
  if newValue =? 1 then "payout_registration_paused" else "payout_registration_resumed".

(** The events of the log. The lag and the clock of the reaper's own event are left out. *)
Inductive FlagEvent :=
| FlipEvent (name : string) (event_id : Z) (actor reason ts_utc : string)
| ReapedEvent (event_id : Z) (flag_name : string) (old_value new_value : Z) (occurred_at_utc : string)
| InvariantViolation (where_ name : string).

Definition emitFlipEvent (eventName : string) (r : AuditRow) : FlagEvent :=
  FlipEvent eventName (ID r) (Actor r) (Reason r) (OccurredAtUTC r).

Definition reaped_event (r : AuditRow) : FlagEvent :=
  ReapedEvent (ID r) (FlagName r) (OldValue r) (NewValue r) (OccurredAtUTC r).

Inductive FlagReply :=
| FlagError (status : Z) (code : string)
| FlagFlipped (old_value new_value audit_id : Z).

(** Who claims an audit row, and what is left to do after it. *)
Inductive Emitter :=
| ByRequest (eventName : string) (reply : FlagReply)
| ByReaper (rest : list Z).

(** What a goroutine is about to do. *)
Inductive Proc :=
| Pause (actor : string) (body : option string)
| Resume (actor : string) (body : option string)
| Claim (id : Z) (k : Emitter)
| Emit (row : AuditRow) (k : Emitter)
| Reap
| ReapLoop (ids : list Z)
| Answered (r : FlagReply)
| Finished.

Definition continue (k : Emitter) : Proc :=
  match k with ByRequest _ reply => Answered reply | ByReaper rest => ReapLoop rest end.

(** [serveFlip] up to the commit of the write. [body] is the reason in the body, [None]
    when it cannot be read or decoded. *)
Definition serveFlip (minInterval now : Z) (f : Fault) (actor : string) (body : option string)
    (newValue : Z) (eventName conflictCode : string) (d : FlagDB) : FlagDB * list FlagEvent * Proc :=
  let refuse status code events := (d, events, Answered (FlagError status code)) in
  match body with
  | None => refuse 400 "bad_format" []
  | Some reason =>
      let reason := GoStr.TrimSpace reason in
      if String.eqb reason "" then refuse 400 "missing_field" []
      else match WriteFlagWithAudit f "registration_paused" newValue actor reason minInterval now d with
      | inl ErrFlagAlreadyAtTarget => refuse 409 conflictCode []
      | inl ErrFlagRateLimited => refuse 429 "rate_limited" []
      | inl ErrFlagMissing =>
          refuse 500 "internal_error" [InvariantViolation "runtime_flag missing" "registration_paused"]
      | inl _ => refuse 500 "internal_error" []
      | inr (audit, d') =>
          (d', [], Claim (ID audit) (ByRequest eventName
                     (FlagFlipped (OldValue audit) (NewValue audit) (ID audit))))
      end
  end.

Definition ServePause minInterval now f actor body (d : FlagDB) :=
  serveFlip minInterval now f actor body 1 "payout_registration_paused" "already_paused" d.
Definition ServeResume minInterval now f actor body (d : FlagDB) :=
  serveFlip minInterval now f actor body 0 "payout_registration_resumed" "already_running" d.

(** [ClaimAndEmit] up to the commit: a claim that failed or that another one had leaves the
    event to whoever has the row. *)
Definition ClaimAndEmit (f : Fault) (id : Z) (k : Emitter) (d : FlagDB) : FlagDB * list FlagEvent * Proc :=
  match claimTx f id d with
  | (Claimed row, d') => (d', [], Emit row k)
  | (_, d') => (d', [], continue k)
  end.

Definition emitted_events (row : AuditRow) (k : Emitter) : list FlagEvent :=
  match k with
  | ByRequest eventName _ => [emitFlipEvent eventName row]
  | ByReaper _ => [emitFlipEvent (flagFlipEventName (NewValue row)) row; reaped_event row]
  end.

(** The start of [ReapOnce]; [f] is the failure of the list query. *)
Definition ReapOnce (now : Z) (f : Fault) (d : FlagDB) : FlagDB * list FlagEvent * Proc :=
  if bool_decide (is_Some f) then (d, [], Finished)
  else (d, [], ReapLoop (ListUnemittedOlderThan (now - 5 * 60 * second) d)).

(** One step of a goroutine at the time [now]; [cancelled] is [ctx.Err() != nil]. *)
Definition proc_step (minInterval now : Z) (f : Fault) (cancelled : bool) (p : Proc) (d : FlagDB)
    : FlagDB * list FlagEvent * Proc :=
  match p with
  | Pause actor body => ServePause minInterval now f actor body d
  | Resume actor body => ServeResume minInterval now f actor body d
  | Claim id k => ClaimAndEmit f id k d
  | Emit row k => (d, emitted_events row k, continue k)
  | Reap => ReapOnce now f d
  | ReapLoop (id :: ids) => if cancelled then (d, [], Finished) else (d, [], Claim id (ByReaper ids))
  | ReapLoop [] => (d, [], Finished)
  | Answered r => (d, [], Answered r)
  | Finished => (d, [], Finished)
  end.

(** ** Histories: goroutines in any interleaving, restarts and crashes *)

Record Sys := mkSys {
  sy_db : FlagDB;
  (** the newest event first *)
  sy_log : list FlagEvent;
  sy_procs : list Proc;
}.

#[export] Instance rebuild_Sys : Rebuild Sys := fun s => mkSys (sy_db s) (sy_log s) (sy_procs s).

Inductive Action :=
| Request (pause : bool) (actor : string) (body : option string)
| ReaperTick
(** the [i]-th goroutine makes a step *)
| Step (i : nat) (now : Z) (f : Fault) (cancelled : bool)
| Restart (now : Z) (f seed_fault : Fault)
| Crash.

Definition act (minInterval : Z) (a : Action) (s : Sys) : Sys :=
  match a with
  | Request pause actor body =>
      s <| sy_procs := sy_procs s ++ [if pause then Pause actor body else Resume actor body] |>
  | ReaperTick => s <| sy_procs := sy_procs s ++ [Reap] |>
  | Step i now f cancelled =>
      match sy_procs s !! i with
      | Some p =>
          let '(d', events, p') := proc_step minInterval now f cancelled p (sy_db s) in
          mkSys d' (rev events ++ sy_log s) (<[i := p']> (sy_procs s))
      | None => s
      end
  | Restart now f seed_fault =>
      match BootstrapRuntimeFlags f seed_fault now (sy_db s) with
      | inr d => mkSys d (sy_log s) []
      | inl _ => s <| sy_procs := [] |>
      end
  | Crash => s <| sy_procs := [] |>
  end.

Definition run_flags (minInterval : Z) (actions : list Action) : Sys :=
  fold_left (fun s a => act minInterval a s) actions (mkSys empty_flags [] []).

(** A goroutine that runs alone and without failures, for at most [n] steps. *)
Fixpoint run_alone (minInterval now : Z) (n : nat) (p : Proc) (d : FlagDB) : FlagDB * list FlagEvent * Proc :=
  match n with
  | O => (d, [], p)
  | S n => let '(d1, ev1, p1) := proc_step minInterval now None false p d in
           let '(d2, ev2, p2) := run_alone minInterval now n p1 d1 in (d2, ev1 ++ ev2, p2)
  end.

(** ** The flag is what the audit rows say *)

Definition audited (d : FlagDB) : list AuditRow := map au_row (fd_audit d).

(** The audit rows a flag went through to get the value: they are numbered, each starts
    from the value the one before left and turns it around, and each is [m] after it. *)
Inductive flip_history (m : Z) : Z -> list AuditRow -> Prop :=
| never_flipped : flip_history m 0 []
| flipped v l r :
    flip_history m v l ->
    ID r = 1 + Z.of_nat (length l) -> FlagName r = "registration_paused" ->
    OldValue r = v -> NewValue r = 1 - v -> Actor r <> "" -> Reason r <> "" ->
    (exists t, in_years t /\ OccurredAtUTC r = rfc3339NanoText t) ->
    (forall q t, last l = Some q -> 0 < m -> parse_rfc3339 (OccurredAtUTC q) = Some t ->
       exists t', parse_rfc3339 (OccurredAtUTC r) = Some t' /\ t + m <= t') ->
    flip_history m (NewValue r) (l ++ [r]).

(** The tables of the flags: empty before the first start, then one flag with its
    history. *)
Definition flags_ok (m : Z) (d : FlagDB) : Prop :=
  fd_next d = 1 + Z.of_nat (length (fd_audit d))
  /\ match fd_bootstrapped d with
     | None => fd_flags d = ∅ /\ fd_audit d = []
     | Some _ => exists row, fd_flags d = {["registration_paused" := row]}
                   /\ flip_history m (fl_value row) (audited d)
     end.

Lemma history_names m v l : flip_history m v l -> Forall (fun r => FlagName r = "registration_paused") l.
Proof. induction 1; [done|]. apply Forall_app. split; [done|]. by apply Forall_singleton. Qed.

Lemma history_value m v l : flip_history m v l -> v = 0 \/ v = 1.
Proof. induction 1; [by left|lia]. Qed.

Lemma history_last m v l : flip_history m v l -> v = default 0 (NewValue <$> last l).
Proof. destruct 1; [done|]. by rewrite last_snoc. Qed.

Lemma history_ids m v l i r : flip_history m v l -> l !! i = Some r -> ID r = 1 + Z.of_nat i.
Proof.
  induction 1 as [|v l q Hl IH Hid _ _ _ _ _ _ _]; [done|]. intros [E|[Hi E]]%lookup_app_Some; [by apply IH|].
  apply list_lookup_singleton_Some in E as [E ->]. rewrite Hid. lia.
Qed.

Lemma history_id_inj m v l q r : flip_history m v l -> q ∈ l -> r ∈ l -> ID q = ID r -> q = r.
Proof.
  intros H [i Hi]%list_elem_of_lookup [j Hj]%list_elem_of_lookup E.
  rewrite (history_ids _ _ _ _ _ H Hi), (history_ids _ _ _ _ _ H Hj) in E.
  assert (i = j) as -> by lia. congruence.
Qed.

Lemma filter_all {A} (p : A -> bool) l : Forall (fun x => p x = true) l -> List.filter p l = l.
Proof. induction 1 as [|x l Hx _ IH]; cbn; [done|]. by rewrite Hx, IH. Qed.

(** With one flag the last audit row is its last audit row. *)
Lemma last_audit_all m v d :
  flip_history m v (audited d) -> last_audit "registration_paused" (fd_audit d) = last (audited d).
Proof.
  intros H%history_names. unfold last_audit. rewrite filter_all.
  - unfold audited. by rewrite <- fmap_last.
  - unfold audited in H. apply Forall_map in H. eapply Forall_impl; [exact H|]. intros r Hr. unfold of_flag.
    by apply String.eqb_eq.
Qed.

(** What a write that succeeds did. *)
Lemma write_inv f flag v actor reason m now d audit d' :
  WriteFlagWithAudit f flag v actor reason m now d = inr (audit, d') ->
  exists row, fd_flags d !! flag = Some row /\ (v = 0 \/ v = 1) /\ fl_value row <> v /\ actor <> ""
    /\ (0 < m -> rate_limited m now flag (fd_audit d) = false)
    /\ audit = mkAuditRow (fd_next d) flag (fl_value row) v actor reason (rfc3339NanoText now)
    /\ d' = mkFlagDB (<[flag := mkFlagRow v (rfc3339NanoText now) actor reason]> (fd_flags d))
              (fd_audit d ++ [mkAuditRec audit false]) (fd_next d + 1) (fd_bootstrapped d).
Proof.
  unfold WriteFlagWithAudit. intros H. destruct (fd_flags d !! flag) as [row|]; split_ifs; try done.
  injection H as <- <-. exists row. bool_hyps.
  split_and!; try done; try lia. intros Hm. apply Z.ltb_lt in Hm.
  match goal with Hr : _ && rate_limited _ _ _ _ = false |- _ => by rewrite Hm in Hr end.
Qed.

Lemma spaced m now q t :
  0 < m -> in_years now -> parse_rfc3339 (OccurredAtUTC q) = Some t ->
  (match parse_rfc3339 (OccurredAtUTC q) with Some last => time_sub now last <? m | None => false end) = false ->
  exists t', parse_rfc3339 (rfc3339NanoText now) = Some t' /\ t + m <= t'.
Proof.
  intros Hm Hn Hq. rewrite Hq. intros Hr. exists now. split; [by apply parse_rfc3339NanoText|].
  apply Z.ltb_ge in Hr. unfold time_sub in Hr. i64. lia.
Qed.

Lemma flags_ok_write m f v actor reason now d audit d' :
  flags_ok m d -> in_years now -> reason <> "" ->
  WriteFlagWithAudit f "registration_paused" v actor reason m now d = inr (audit, d') -> flags_ok m d'.
Proof.
  intros [Hn Hd] Hy Hr H%write_inv. destruct H as (row & Hrow & Hv & Hne & Ha & Hrate & -> & ->).
  destruct (fd_bootstrapped d) as [b|] eqn:Eb.
  2:{ destruct Hd as [E _]. rewrite E in Hrow. done. }
  destruct Hd as (row0 & E & Hh). rewrite E, lookup_singleton_eq in Hrow. injection Hrow as ->.
  pose proof (history_value _ _ _ Hh). split; cbn.
  { rewrite length_app. cbn. lia. }
  eexists. split; [rewrite E; apply insert_singleton_eq|]. cbn. unfold audited. cbn. rewrite map_app. cbn.
  apply (flipped m (fl_value row) _ (mkAuditRow _ _ _ v _ _ _)); cbn; try done.
  - unfold audited. rewrite length_map. lia.
  - lia.
  - by exists now.
  - intros q t Hl Hm Ht. eapply (spaced m now q t); try done.
    specialize (Hrate Hm). unfold rate_limited in Hrate.
    rewrite (last_audit_all m (fl_value row)) in Hrate by done. unfold audited in Hrate. by rewrite Hl in Hrate.
Qed.

Lemma flags_ok_claim m f id d : flags_ok m d -> flags_ok m (claimTx f id d).2.
Proof.
  intros Hd. unfold claimTx. case_bool_decide; [done|]. destruct (find (unemitted id) (fd_audit d)); [|done].
  destruct d as [flags audit next b], Hd as [Hn Hd]. unfold flags_ok, audited in *. cbn in *.
  rewrite length_map. split; [done|]. destruct b.
  - rewrite map_map. rewrite (map_ext (fun r => au_row (mark id r)) au_row); [done|].
    intros r. unfold mark. by destruct (unemitted id r).
  - destruct Hd as [-> ->]. done.
Qed.

Lemma flags_ok_boot m f sf now d d' : flags_ok m d -> BootstrapRuntimeFlags f sf now d = inr d' -> flags_ok m d'.
Proof.
  intros Hd. unfold BootstrapRuntimeFlags, seedRuntimeFlags. destruct d as [flags audit next b].
  cbn [fd_flags fd_audit fd_next fd_bootstrapped]. intros H. destruct b as [b|]; cbn [is_some negb andb] in H.
  - split_ifs; try done. destruct (find _ _); [done|]. by injection H as <-.
  - unfold flags_ok in Hd. cbn in Hd. destruct Hd as [Hn [-> ->]]. cbn in *. split_ifs; try done. injection H as <-. split; [done|]. cbn.
    eexists. split; [done|]. apply never_flipped.
Qed.

Lemma flags_ok_proc m now f cancelled p d :
  in_years now -> flags_ok m d -> flags_ok m (proc_step m now f cancelled p d).1.1.
Proof.
  intros Hy Hd.
  assert (forall actor body v name code, flags_ok m (serveFlip m now f actor body v name code d).1.1) as Hflip.
  { intros actor body v name code. unfold serveFlip. destruct body as [reason|]; [|done].
    destruct (String.eqb_spec (GoStr.TrimSpace reason) ""); [done|].
    destruct (WriteFlagWithAudit _ _ _ _ _ _ _ _) as [[]|[audit d']] eqn:E; try done.
    by eapply flags_ok_write. }
  destruct p as [actor body|actor body|id k|row k| |[|id ids]|r|]; cbn [proc_step]; try done; try apply Hflip.
  - unfold ClaimAndEmit. pose proof (flags_ok_claim m f id d Hd) as H. by destruct (claimTx f id d) as [[] ?].
  - unfold ReapOnce. by case_bool_decide.
  - by destruct cancelled.
Qed.

(** The clock of every step shows a year of four digits. *)
Definition action_clock (a : Action) : option Z := match a with Step _ now _ _ => Some now | _ => None end.
Definition clocks_ok (actions : list Action) : Prop :=
  Forall (fun a => match action_clock a with Some now => in_years now | None => True end) actions.

Lemma run_flags_snoc m actions a : run_flags m (actions ++ [a]) = act m a (run_flags m actions).
Proof. unfold run_flags. by rewrite fold_left_app. Qed.

Lemma flags_ok_run m actions : clocks_ok actions -> flags_ok m (sy_db (run_flags m actions)).
Proof.
  induction actions as [|a actions IH] using rev_ind; intros H; [done|].
  apply Forall_app in H as [H Ha]. specialize (IH H). rewrite Forall_singleton in Ha. rewrite run_flags_snoc.
  destruct a as [pause actor body| |i now f cancelled|now f sf|]; cbn [act sy_db]; try done.
  - destruct (sy_procs _ !! i) as [p|]; [|done].
    pose proof (flags_ok_proc m now f cancelled p _ Ha IH) as Hp.
    by destruct (proc_step _ _ _ _ _ _) as [[d' ev] p'].
  - destruct (BootstrapRuntimeFlags _ _ _ _) as [|d] eqn:E; [done|]. by eapply flags_ok_boot.
Qed.

(** ** Every flip is announced at most once *)

Definition announces (id : Z) (e : FlagEvent) : bool :=
  match e with FlipEvent _ i _ _ _ => i =? id | _ => false end.

(** A goroutine that has claimed the row and not sent its event yet. *)
Definition about_to_announce (id : Z) (p : Proc) : bool :=
  match p with Emit row _ => ID row =? id | _ => false end.

Definition claimed_row (id : Z) (r : AuditRec) : bool := (ID (au_row r) =? id) && au_emitted r.
Definition is_claimed (id : Z) (d : FlagDB) : bool := existsb (claimed_row id) (fd_audit d).

(** The event of an audit row. *)
Definition event_of (r : AuditRow) : FlagEvent := emitFlipEvent (flagFlipEventName (NewValue r)) r.

Definition emitter_ok (row : AuditRow) (k : Emitter) : Prop :=
  match k with ByRequest name _ => name = flagFlipEventName (NewValue row) | ByReaper _ => True end.

Definition proc_ok (d : FlagDB) (p : Proc) : Prop :=
  match p with
  | Claim id (ByRequest name _) =>
      exists row, row ∈ audited d /\ ID row = id /\ name = flagFlipEventName (NewValue row)
  | Emit row k => row ∈ audited d /\ emitter_ok row k
  | _ => True
  end.

Record sys_ok (m : Z) (s : Sys) : Prop := {
  ok_flags : flags_ok m (sy_db s);
  ok_procs : Forall (proc_ok (sy_db s)) (sy_procs s);
  ok_events : forall e id, e ∈ sy_log s -> announces id e = true ->
    exists row, row ∈ audited (sy_db s) /\ ID row = id /\ e = event_of row;
  (** a claim is an event in the log, a goroutine about to send it, or was lost in a crash *)
  ok_once : forall id, count (announces id) (sy_log s) + count (about_to_announce id) (sy_procs s)
    <= if is_claimed id (sy_db s) then 1 else 0;
}.

Lemma count_update {A} (p : A -> bool) l i x y :
  l !! i = Some x -> count p (<[i := y]> l) = count p l - (if p x then 1 else 0) + (if p y then 1 else 0).
Proof.
  intros H. rewrite (insert_take_drop l i y) by by eapply lookup_lt_Some.
  rewrite <- (take_drop_middle l i x H) at 3.
  rewrite !count_app, !count_cons. destruct (p x), (p y); lia.
Qed.

Lemma audit_row_unique m d q r : flags_ok m d -> q ∈ audited d -> r ∈ audited d -> ID q = ID r -> q = r.
Proof.
  intros [_ Hd] Hq Hr. destruct (fd_bootstrapped d).
  - destruct Hd as (row & _ & Hh). by eapply history_id_inj.
  - destruct Hd as [_ E]. unfold audited in Hq. rewrite E in Hq. inversion Hq.
Qed.

(** What a step of a goroutine does to the audit rows. *)
Inductive audit_change (d d' : FlagDB) : Proc -> Proc -> Prop :=
| same_audit p p' :
    audited d' = audited d -> (forall id, is_claimed id d' = is_claimed id d) ->
    (forall id, about_to_announce id p' = false) -> (forall k id, p' = Claim id k -> exists ids, k = ByReaper ids) ->
    audit_change d d' p p'
| wrote p audit name reply :
    audited d' = audited d ++ [audit] -> (forall id, is_claimed id d' = is_claimed id d) ->
    (forall id, about_to_announce id p = false) ->
    (forall row, row ∈ audited d -> ID row < ID audit) -> name = flagFlipEventName (NewValue audit) ->
    audit_change d d' p (Claim (ID audit) (ByRequest name reply))
| claimed id k row :
    audited d' = audited d -> row ∈ audited d -> ID row = id -> is_claimed id d = false ->
    (forall i, is_claimed i d' = is_claimed i d || (i =? id)) ->
    audit_change d d' (Claim id k) (Emit row k).

Lemma history_ids_below m v l r : flip_history m v l -> r ∈ l -> ID r <= Z.of_nat (length l).
Proof.
  intros H [i Hi]%list_elem_of_lookup. rewrite (history_ids _ _ _ _ _ H Hi).
  apply lookup_lt_Some in Hi. lia.
Qed.

Lemma ids_below m d r : flags_ok m d -> r ∈ audited d -> ID r < fd_next d.
Proof.
  intros [Hn Hd] Hr. destruct (fd_bootstrapped d).
  - destruct Hd as (row & _ & Hh). pose proof (history_ids_below _ _ _ _ Hh Hr) as H.
    unfold audited in H. rewrite length_map in H. lia.
  - destruct Hd as [_ E]. unfold audited in Hr. rewrite E in Hr. inversion Hr.
Qed.

Lemma flip_changes m now f actor body v name code d :
  flags_ok m d -> name = flagFlipEventName v -> (forall p, (forall id, about_to_announce id p = false) ->
  audit_change d (serveFlip m now f actor body v name code d).1.1 p (serveFlip m now f actor body v name code d).2).
Proof.
  intros Hd Hname p Hp. unfold serveFlip. destruct body as [reason|]; [|by apply same_audit].
  destruct (String.eqb (GoStr.TrimSpace reason) ""); [by apply same_audit|].
  destruct (WriteFlagWithAudit _ _ _ _ _ _ _ _) as [[]|[audit d']] eqn:E; try by apply same_audit.
  apply write_inv in E as (row & _ & _ & _ & _ & _ & Ea & ->). subst name. cbn [fst snd].
  apply wrote; try done.
  - unfold audited. cbn. by rewrite map_app.
  - intros id. unfold is_claimed. cbn. rewrite existsb_snoc. unfold claimed_row at 2. cbn.
    by rewrite andb_false_r, orb_false_r.
  - intros r Hr. subst audit. cbn. by eapply ids_below.
  - by subst audit.
Qed.

Lemma audit_rec_unique m d q r :
  flags_ok m d -> q ∈ fd_audit d -> r ∈ fd_audit d -> ID (au_row q) = ID (au_row r) -> q = r.
Proof.
  intros [_ Hd] [i Hi]%list_elem_of_lookup [j Hj]%list_elem_of_lookup E.
  destruct (fd_bootstrapped d); [|destruct Hd as [_ Hn]; by rewrite Hn in Hi].
  destruct Hd as (row & _ & Hh).
  assert (forall n x, fd_audit d !! n = Some x -> ID (au_row x) = 1 + Z.of_nat n) as Hid.
  { intros n x Hx. eapply (history_ids _ _ _ n _ Hh). unfold audited.
    change (map au_row (fd_audit d)) with (au_row <$> fd_audit d). by rewrite list_lookup_fmap, Hx. }
  rewrite (Hid _ _ Hi), (Hid _ _ Hj) in E. assert (i = j) as -> by lia. congruence.
Qed.

Lemma mark_claimed i id r : claimed_row i (mark id r) = claimed_row i r || ((i =? id) && unemitted id r).
Proof.
  unfold mark, claimed_row. destruct (unemitted id r) eqn:E; [|by rewrite andb_false_r, orb_false_r].
  unfold unemitted in E. bool_hyps. destruct r as [row em]. cbn in *. subst em.
  replace (ID row =? i) with (i =? id) by lia. by rewrite andb_true_r, andb_false_r.
Qed.

Lemma is_claimed_mark m i id r d :
  flags_ok m d -> find (unemitted id) (fd_audit d) = Some r ->
  existsb (claimed_row i) (map (mark id) (fd_audit d)) = is_claimed i d || (i =? id).
Proof.
  intros Hd Hr. apply find_Some_elem in Hr as [Hin Hr]. unfold is_claimed.
  apply eq_true_iff_eq. rewrite orb_true_iff, !existsb_elem. split.
  - intros (q' & (q & Hq & ->)%elem_of_map & Hc). rewrite mark_claimed in Hc.
    apply orb_true_iff in Hc as [Hc|Hc]; [left; by exists q|right]. by bool_hyps.
  - intros [(q & Hq & Hc)|Hi].
    + exists (mark id q). split; [apply elem_of_map; by exists q|]. by rewrite mark_claimed, Hc.
    + exists (mark id r). split; [apply elem_of_map; by exists r|]. rewrite mark_claimed, Hi, Hr. apply orb_true_r.
Qed.

Lemma claim_changes m f id k d :
  flags_ok m d -> audit_change d (ClaimAndEmit f id k d).1.1 (Claim id k) (ClaimAndEmit f id k d).2.
Proof.
  intros Hd. unfold ClaimAndEmit, claimTx.
  assert (audit_change d d (Claim id k) (continue k)) as Hno by (destruct k; by apply same_audit).
  case_bool_decide; [done|]. destruct (find (unemitted id) (fd_audit d)) as [r|] eqn:E; [|done]. cbn [fst snd].
  pose proof (find_Some_elem _ _ _ E) as [Hin Hu]. pose proof Hu as Hu'. unfold unemitted in Hu'. bool_hyps.
  apply claimed.
  - destruct d. unfold audited. cbn. rewrite map_map. apply map_ext. intros q. unfold mark. by destruct (unemitted id q).
  - apply elem_of_map. by exists r.
  - lia.
  - apply not_true_iff_false. intros (q & Hq & Hc)%existsb_elem. unfold claimed_row in Hc. bool_hyps.
    assert (q = r) as -> by (eapply audit_rec_unique; [done..|lia]). congruence.
  - intros i. rewrite <- (is_claimed_mark m i id r d Hd E). by destruct d.
Qed.

(** The step of a goroutine that is not about to send an event sends none that counts. *)
Lemma proc_changes m now f cancelled p d :
  flags_ok m d -> (forall row k, p <> Emit row k) ->
  audit_change d (proc_step m now f cancelled p d).1.1 p (proc_step m now f cancelled p d).2
  /\ Forall (fun e => forall id, announces id e = false) (proc_step m now f cancelled p d).1.2.
Proof.
  intros Hd Hp.
  assert (forall actor body v name code, Forall (fun e => forall id, announces id e = false)
            (serveFlip m now f actor body v name code d).1.2) as Hflip.
  { intros actor body v name code. unfold serveFlip. destruct body as [reason|]; [|done].
    destruct (String.eqb (GoStr.TrimSpace reason) ""); [done|].
    destruct (WriteFlagWithAudit _ _ _ _ _ _ _ _) as [[]|[audit d']]; try done; repeat constructor. }
  destruct p as [actor body|actor body|id k|row k| |[|id ids]|r|]; cbn [proc_step].
  - split; [|apply Hflip]. by apply flip_changes.
  - split; [|apply Hflip]. by apply flip_changes.
  - split; [by eapply claim_changes|]. unfold ClaimAndEmit. by destruct (claimTx f id d) as [[] ?].
  - by destruct (Hp row k).
  - unfold ReapOnce. case_bool_decide; split; try done; by apply same_audit.
  - split; [by apply same_audit|done].
  - destruct cancelled; (split; [|done]); apply same_audit; try done. intros k i [= -> <-]. by eexists.
  - split; [by apply same_audit|done].
  - split; [by apply same_audit|done].
Qed.

Lemma proc_ok_grow d d' l p : audited d' = audited d ++ l -> proc_ok d p -> proc_ok d' p.
Proof.
  intros E. destruct p as [| |id [name reply|]|row k| | | |]; cbn; try done; rewrite E.
  - intros (row & Hr & ?). exists row. split; [apply elem_of_app; by left|done].
  - intros [Hr Hk]. split; [|done]. apply elem_of_app. by left.
Qed.

Lemma count_none {A} (p : A -> bool) l : Forall (fun x => p x = false) l -> count p l = 0.
Proof. induction 1 as [|x l Hx _ IH]; [done|]. by rewrite count_cons, Hx, IH. Qed.

(** A step that is not the sending of an event. *)
Lemma sys_ok_change m s i p d' ev p' :
  sys_ok m s -> sy_procs s !! i = Some p -> flags_ok m d' -> audit_change (sy_db s) d' p p' ->
  Forall (fun e => forall id, announces id e = false) ev ->
  sys_ok m (mkSys d' (rev ev ++ sy_log s) (<[i := p']> (sy_procs s))).
Proof.
  intros Hs Hi Hd' Hc Hev.
  assert (exists l, audited d' = audited (sy_db s) ++ l) as [l El].
  { destruct Hc as [? ? E|? audit ? ? E|? ? ? E]; rewrite E; eexists; [symmetry; apply app_nil_r|done|symmetry; apply app_nil_r]. }
  pose proof (ok_procs _ _ Hs) as Hps. rewrite Forall_forall in Hps.
  assert (proc_ok (sy_db s) p) as Hp by (apply Hps, list_elem_of_lookup; by exists i).
  assert (Forall (fun e => forall id, announces id e = false) (rev ev)) as Hrev.
  { apply Forall_forall. intros e He. rewrite Forall_forall in Hev. apply Hev. by apply list_elem_of_In, in_rev, list_elem_of_In. }
  split; cbn [sy_db sy_log sy_procs]; [done|..].
  - apply Forall_insert.
    + eapply Forall_impl; [apply Hs|]. intros q. by eapply proc_ok_grow.
    + destruct Hc as [p p' Ea _ Hno Hk|p audit name reply Ea _ _ _ Hname|id k row Ea Hrow Hid _ _].
      * destruct p' as [| |id k|row k| | | |]; try done.
        -- destruct (Hk k id eq_refl) as [ids ->]. done.
        -- specialize (Hno (ID row)). cbn in Hno. by rewrite Z.eqb_refl in Hno.
      * cbn. exists audit. rewrite Ea. split_and!; [apply elem_of_app; right; by left|done..].
      * cbn. rewrite Ea. split; [done|]. destruct k as [name reply|]; [|done]. cbn in Hp |- *.
        destruct Hp as (row' & Hr' & Hid' & ->).
        by rewrite (audit_row_unique m _ row' row (ok_flags _ _ Hs) Hr' Hrow) by congruence.
  - intros e id [He|He]%elem_of_app Ha.
    + rewrite Forall_forall in Hrev. by rewrite Hrev in Ha.
    + destruct (ok_events _ _ Hs e id He Ha) as (row & Hr & ?). exists row. rewrite El.
      split; [apply elem_of_app; by left|done].
  - intros id. rewrite count_app, count_none by (eapply Forall_impl; [exact Hrev|]; by intros ? ->).
    rewrite (count_update _ _ _ _ _ Hi). pose proof (ok_once _ _ Hs id) as H1.
    destruct Hc as [p p' _ Ec Hno _|p audit name reply _ Ec Hno _ _|cid k row _ _ Hid Hnc Ec].
    + rewrite Ec, Hno. destruct (about_to_announce id p); lia.
    + rewrite Ec, Hno. cbn. lia.
    + rewrite Ec. cbn [about_to_announce]. rewrite Hid, (Z.eqb_sym cid id).
      destruct (Z.eqb_spec id cid) as [->|]; [rewrite Hnc in *; cbn; lia|]. rewrite orb_false_r. lia.
Qed.

Lemma sys_ok_emit m s i row k :
  sys_ok m s -> sy_procs s !! i = Some (Emit row k) ->
  sys_ok m (mkSys (sy_db s) (rev (emitted_events row k) ++ sy_log s) (<[i := continue k]> (sy_procs s))).
Proof.
  intros Hs Hi. pose proof (ok_procs _ _ Hs) as Hps. rewrite Forall_forall in Hps.
  assert (proc_ok (sy_db s) (Emit row k)) as [Hrow Hk] by (apply Hps, list_elem_of_lookup; by exists i).
  assert (forall e id, e ∈ rev (emitted_events row k) -> announces id e = true -> ID row = id /\ e = event_of row) as Hev.
  { intros e id He Ha. destruct k; cbn in *; set_unfold; subst.
    - destruct He as [->|[]]. cbn in Ha. split; [lia|done].
    - destruct He as [->|[->|[]]]; [done|]. cbn in Ha. split; [lia|done]. }
  assert (forall id, count (announces id) (rev (emitted_events row k)) = if ID row =? id then 1 else 0) as Hn.
  { intros id. destruct k; cbn; unfold count; cbn; by destruct (ID row =? id). }
  split; cbn [sy_db sy_log sy_procs].
  - apply Hs.
  - apply Forall_insert; [apply Hs|]. by destruct k.
  - intros e id [He|He]%elem_of_app Ha; [|by eapply ok_events]. exists row. by destruct (Hev e id He Ha).
  - intros id. rewrite count_app, Hn, (count_update _ _ _ _ _ Hi). pose proof (ok_once _ _ Hs id).
    replace (about_to_announce id (continue k)) with false by by destruct k. cbn [about_to_announce].
    destruct (ID row =? id); lia.
Qed.

Lemma sys_ok_spawn m s p :
  sys_ok m s -> (forall d, proc_ok d p) -> (forall id, about_to_announce id p = false) ->
  sys_ok m (s <| sy_procs := sy_procs s ++ [p] |>).
Proof.
  intros [H1 H2 H3 H4] Hp Hn. destruct s as [d log procs]. split; cbn in *; try done.
  - apply Forall_app. split; [done|]. by apply Forall_singleton.
  - intros id. rewrite count_app, count_cons, Hn. specialize (H4 id). change (count _ []) with 0. lia.
Qed.

Lemma sys_ok_crash m s : sys_ok m s -> sys_ok m (s <| sy_procs := [] |>).
Proof.
  intros [H1 H2 H3 H4]. destruct s as [d log procs]. split; cbn in *; try done.
  intros id. specialize (H4 id). pose proof (count_nonneg (about_to_announce id) procs).
  change (count (about_to_announce id) []) with 0. lia.
Qed.

Lemma boot_keeps_audit f sf now d d' : BootstrapRuntimeFlags f sf now d = inr d' -> fd_audit d' = fd_audit d.
Proof.
  unfold BootstrapRuntimeFlags, seedRuntimeFlags. intros H.
  destruct (fold_left _ _ _) as [flags|], (fd_bootstrapped d); cbn [is_some negb andb] in H; split_ifs; try done;
    try (destruct (find _ _); [done|]); injection H as <-; by destruct d.
Qed.

Lemma sys_ok_run m actions : clocks_ok actions -> sys_ok m (run_flags m actions).
Proof.
  induction actions as [|a actions IH] using rev_ind; intros H.
  { split; cbn; try done; intros; by apply elem_of_nil in H0. }
  pose proof (flags_ok_run m _ H) as Hf. apply Forall_app in H as [H Ha]. specialize (IH H).
  rewrite run_flags_snoc in *. set (s := run_flags m actions) in *.
  destruct a as [pause actor body| |i now f cancelled|now f sf|]; cbn [act] in *.
  - by destruct pause; apply sys_ok_spawn.
  - by apply sys_ok_spawn.
  - destruct (sy_procs s !! i) as [p|] eqn:Hi; [|done].
    assert ((exists row k, p = Emit row k) \/ (forall row k, p <> Emit row k)) as [(row & k & ->)|Hne]
      by (destruct p; eauto); [by apply sys_ok_emit|].
    pose proof (proc_changes m now f cancelled p (sy_db s) (ok_flags _ _ IH) Hne) as [Hc Hev].
    destruct (proc_step _ _ _ _ _ _) as [[d' ev] p']. by eapply sys_ok_change.
  - apply sys_ok_crash in IH. destruct (BootstrapRuntimeFlags _ _ _ _) as [|d] eqn:E; [done|].
    apply boot_keeps_audit in E as Ea. destruct IH as [H1 H2 H3 H4], s as [d0 log procs].
    unfold audited, is_claimed in *. cbn in *. split; unfold audited, is_claimed; cbn; rewrite ?Ea; try done.
  - by apply sys_ok_crash.
Qed.

(** The flag as [IsRegistrationPaused] reads it. *)
Definition paused_value (d : FlagDB) : option Z := fl_value <$> fd_flags d !! "registration_paused".

Lemma paused_value_history m d :
  flags_ok m d ->
  match paused_value d with
  | Some v => flip_history m v (audited d)
  | None => fd_bootstrapped d = None /\ audited d = []
  end.
Proof.
  intros [_ Hd]. unfold paused_value. destruct (fd_bootstrapped d).
  - destruct Hd as (row & -> & Hh). by rewrite lookup_singleton_eq.
  - destruct Hd as [-> Ha]. unfold audited. by rewrite Ha.
Qed.

(** In any interleaving of requests, reapers, failures, crashes and restarts, the flag has the
    value the audit rows lead to: each of them is numbered, names its actor and reason, starts
    from the value the one before left, turns it around, and is the minimal interval after it.
    There is no flag before the first start and no audit row then. *)
Theorem flag_follows_audit m actions :
  clocks_ok actions ->
  let d := sy_db (run_flags m actions) in
  match paused_value d with
  | Some v => flip_history m v (audited d)
  | None => fd_bootstrapped d = None /\ audited d = []
  end.
Proof.
  intros Hd%(flags_ok_run m). by apply paused_value_history.
Qed.

(** Claim C30. However many goroutines claim an audit row, its flip is announced at most once, with the
    actor, the reason and the time of the row; a row nobody has claimed has not been
    announced. *)
Theorem flip_announced_once m actions row :
  clocks_ok actions ->
  let s := run_flags m actions in
  row ∈ audited (sy_db s) ->
  count (announces (ID row)) (sy_log s) <= 1
  /\ (forall e, e ∈ sy_log s -> announces (ID row) e = true -> e = event_of row)
  /\ (is_claimed (ID row) (sy_db s) = false -> count (announces (ID row)) (sy_log s) = 0).
Proof.
  intros Hs%(sys_ok_run m) s Hrow. pose proof (ok_once _ _ Hs (ID row)) as H1. fold s in H1.
  pose proof (count_nonneg (about_to_announce (ID row)) (sy_procs s)).
  pose proof (count_nonneg (announces (ID row)) (sy_log s)).
  split_and!; [destruct (is_claimed _ _); lia| |].
  - intros e He Ha. destruct (ok_events _ _ Hs e _ He Ha) as (row' & Hr' & Hid & ->).
    by rewrite (audit_row_unique m _ _ _ (ok_flags _ _ Hs) Hr' Hrow Hid).
  - intros E. rewrite E in H1. lia.
Qed.

(** While the last flip is a pause, no registration of an address is accepted, whatever the
    request and whatever the check before its authentication read. *)
Theorem pause_stops_registrations `{EvmLib} m actions row :
  clocks_ok actions ->
  let d := sy_db (run_flags m actions) in
  last (audited d) = Some row -> NewValue row = 1 ->
  forall s e r a, PayoutAddresses.ad_paused a = paused_value d ->
  let '(a', reply, accepted) := PayoutAddresses.ServePayoutAddress s e r a in a' = a /\ accepted = None.
Proof.
  intros Hc d Hl Hv s e r a Ha. pose proof (paused_value_history m d (flags_ok_run m _ Hc)) as Hf.
  assert (paused_value d = Some 1) as Hp.
  { destruct (paused_value d) as [v|]; [|destruct Hf as [_ E]; by rewrite E in Hl].
    apply history_last in Hf. rewrite Hl in Hf. cbn in Hf. congruence. }
  unfold PayoutAddresses.ServePayoutAddress. destruct (PayoutAddresses.serve s e r a) as [rep|[a' acc]] eqn:E; [done|].
  apply PayoutAddresses.serve_inv in E as (_ & _ & _ & Hf' & _). by rewrite Ha, Hp in Hf'.
Qed.

(** ** The reaper *)

Lemma finished_stays m now n d : run_alone m now n Finished d = (d, [], Finished).
Proof. induction n as [|n IH]; [done|]. cbn [run_alone proc_step]. by rewrite IH. Qed.

Lemma unclaimed_found id d :
  find (unemitted id) (fd_audit d) = None -> forall row, row ∈ audited d -> ID row = id -> is_claimed id d = true.
Proof.
  intros Hf row (r & Hr & ->)%elem_of_map Hid. apply existsb_elem. exists r. split; [done|].
  pose proof (find_None_elem _ _ r Hf Hr) as Hu. unfold unemitted in Hu. unfold claimed_row.
  rewrite Hid, Z.eqb_refl in *. by destruct (au_emitted r).
Qed.

Lemma claimed_inv d d' id k row :
  audit_change d d' (Claim id k) (Emit row k) ->
  audited d' = audited d /\ row ∈ audited d /\ ID row = id /\ is_claimed id d = false
  /\ (forall i, is_claimed i d' = is_claimed i d || (i =? id)).
Proof.
  intros Hc. inversion Hc; subst; [|done].
  match goal with Hno : forall id, about_to_announce id _ = false |- _ =>
    specialize (Hno (ID row)); cbn in Hno; by rewrite Z.eqb_refl in Hno end.
Qed.

(** A pass over [ids] ends, and afterwards all of them are claimed: those that were not by
    this pass, which sent their events. *)
Lemma reap_loop m now ids : forall n d,
  flags_ok m d -> (3 * length ids + 1 <= n)%nat ->
  exists d' ev, run_alone m now n (ReapLoop ids) d = (d', ev, Finished) /\ audited d' = audited d
    /\ (forall row, row ∈ audited d -> is_claimed (ID row) d = true \/ ID row ∈ ids -> is_claimed (ID row) d' = true)
    /\ (forall row, row ∈ audited d -> ID row ∈ ids -> is_claimed (ID row) d = false -> event_of row ∈ ev).
Proof.
  induction ids as [|id ids IH]; intros n d Hd Hn.
  - destruct n as [|n]; [cbn in Hn; lia|]. exists d, []. cbn [run_alone proc_step]. rewrite finished_stays.
    split_and!; try done; intros row Hr; [intros [?|?%elem_of_nil]; done|intros ?%elem_of_nil; done].
  - destruct n as [|[|n]]; cbn in Hn; [lia..|]. cbn [run_alone proc_step].
    pose proof (claim_changes m None id (ByReaper ids) d Hd) as Hc.
    pose proof (flags_ok_claim m None id d Hd) as Hd1.
    unfold ClaimAndEmit, claimTx in *. rewrite bool_decide_eq_false_2 in * by (intros [? ?]; done).
    destruct (find (unemitted id) (fd_audit d)) as [r|] eqn:Hf; cbn [fst snd continue] in *.
    + apply claimed_inv in Hc as (Ea & Hrow & Hid & _ & Ecl). subst id.
      destruct n as [|n]; [lia|]. cbn [run_alone proc_step continue].
      set (d1 := d <| fd_audit := map (mark (ID (au_row r))) (fd_audit d) |>) in *.
      destruct (IH n d1 Hd1 ltac:(lia)) as (d' & ev & Hrun & Ea' & Hcl & Hev). rewrite Hrun.
      eexists _, _. split; [done|]. rewrite Ea' in *. rewrite Ea in *. split; [done|]. split.
      * intros row Hr Hin. apply Hcl; [done|]. rewrite Ecl. rewrite elem_of_cons in Hin.
        destruct Hin as [->|[->|Hin]]; [by left|left; by rewrite Z.eqb_refl, orb_true_r|by right].
      * intros row Hr Hin Hu. cbn [app emitted_events]. destruct (decide (ID row = ID (au_row r))) as [E|Hne].
        -- rewrite (audit_row_unique m d row (au_row r) Hd Hr Hrow E). by left.
        -- right. right. apply Hev; [done| |].
           ++ by apply elem_of_cons in Hin as [?|?].
           ++ rewrite Ecl, Hu. cbn. lia.
    + destruct (IH n d Hd ltac:(lia)) as (d' & ev & Hrun & Ea' & Hcl & Hev). rewrite Hrun.
      eexists _, _. split; [done|]. split; [done|]. split.
      * intros row Hr Hin. apply Hcl; [done|]. rewrite elem_of_cons in Hin.
        destruct Hin as [?|[E|?]]; [by left| |by right]. left. rewrite E. by eapply unclaimed_found.
      * intros row Hr Hin Hu. cbn. apply Hev; [done| |done]. apply elem_of_cons in Hin as [E|?]; [|done].
        rewrite E in Hu. by rewrite (unclaimed_found _ _ Hf row) in Hu.
Qed.

Lemma history_times m v l r :
  flip_history m v l -> r ∈ l -> exists t, in_years t /\ OccurredAtUTC r = rfc3339NanoText t.
Proof.
  induction 1 as [|v l q Hl IH _ _ _ _ _ _ Ht _]; [by intros ?%elem_of_nil|].
  intros [?|?%list_elem_of_singleton]%elem_of_app; [by apply IH|by subst].
Qed.

Lemma audit_time m d r t :
  flags_ok m d -> r ∈ audited d -> parse_rfc3339 (OccurredAtUTC r) = Some t ->
  in_years t /\ OccurredAtUTC r = rfc3339NanoText t.
Proof.
  intros [_ Hd] Hr Ht. destruct (fd_bootstrapped d).
  - destruct Hd as (row & _ & Hh). destruct (history_times _ _ _ _ Hh Hr) as (t' & Hy & E).
    rewrite E, parse_rfc3339NanoText in Ht by done. injection Ht as ->. done.
  - destruct Hd as [_ E]. unfold audited in Hr. rewrite E in Hr. by apply elem_of_nil in Hr.
Qed.

(** The list query of the reaper has every unclaimed row that is more than a second older
    than the cutoff: texts of instants in different seconds compare as the instants. *)
Lemma old_rows_listed m d row t cutoff :
  flags_ok m d -> row ∈ audited d -> parse_rfc3339 (OccurredAtUTC row) = Some t -> in_years cutoff ->
  t + second <= cutoff -> is_claimed (ID row) d = false -> ID row ∈ ListUnemittedOlderThan cutoff d.
Proof.
  intros Hd Hr Ht Hc Hold Hu. destruct (audit_time m d row t Hd Hr Ht) as [Hy E].
  apply elem_of_map in Hr as (r & Hr & ->). apply elem_of_map. exists r. split; [|done].
  apply elem_of_List_filter. split; [done|]. apply andb_true_iff. split.
  - apply not_true_iff_false in Hu. apply negb_true_iff, not_true_iff_false. intros Hem. apply Hu.
    apply existsb_elem. exists r. split; [done|]. unfold claimed_row. by rewrite Z.eqb_refl, Hem.
  - rewrite E. unfold String.ltb. destruct (rfc3339NanoText_compare t cutoff Hy Hc) as [c ->].
    assert (t / second < cutoff / second) as Hlt.
    { enough (t / second + 1 <= cutoff / second) by lia. rewrite <- Z.div_add by done. apply Z.div_le_mono; [done|].
      unfold second in *. lia. }
    by rewrite (proj2 (Z.compare_lt_iff _ _) Hlt).
Qed.

(** A pass of the reaper that no other goroutine and no failure disturbs ends, and then every
    flip that is five minutes and a second old has been claimed; those that were not before
    were announced by this pass. *)
Theorem reaper_announces_old_flips m actions now :
  clocks_ok actions -> in_years (now - 5 * 60 * second) ->
  let d := sy_db (run_flags m actions) in
  let '(d', events, p) := run_alone m now (3 * length (fd_audit d) + 2) Reap d in
  p = Finished /\ forall row t, row ∈ audited d -> parse_rfc3339 (OccurredAtUTC row) = Some t ->
    t + 5 * 60 * second + second <= now ->
    is_claimed (ID row) d' = true /\ (is_claimed (ID row) d = false -> event_of row ∈ events).
Proof.
  intros Hd%(flags_ok_run m) Hy d. fold d in Hd. rewrite Nat.add_comm. cbn [run_alone proc_step Nat.add].
  unfold ReapOnce. rewrite bool_decide_eq_false_2 by (intros [? ?]; done).
  set (ids := ListUnemittedOlderThan _ d).
  assert (length ids <= length (fd_audit d))%nat as Hlen
    by (unfold ids, ListUnemittedOlderThan; rewrite length_map; apply List.filter_length_le).
  destruct (reap_loop m now ids (S (3 * length (fd_audit d))) d Hd ltac:(lia)) as (d' & ev & Hrun & _ & Hcl & Hev).
  cbn [run_alone] in Hrun. rewrite Hrun.
  split; [done|]. intros row t Hr Ht Hold.
  assert (is_claimed (ID row) d = false -> ID row ∈ ids) as Hin
    by (intros Hu; eapply old_rows_listed; [done..|unfold second in *; lia|done]).
  split.
  - apply Hcl; [done|]. destruct (is_claimed (ID row) d); [by left|right; by apply Hin].
  - intros Hu. apply Hev; [done| |done]. by apply Hin.
Qed.

(** ** Restarts *)

(** What a start decides, when its queries succeed: it seeds empty tables, refuses tables
    with rows and no sentinel, refuses a missing flag, and otherwise changes nothing. *)
Theorem bootstrap_decides now d :
  BootstrapRuntimeFlags None None now d
  = match fd_bootstrapped d with
    | None => if bool_decide (fd_flags d = ∅ /\ fd_audit d = [])
              then inr (d <| fd_flags := {["registration_paused" := seed_row (rfc3339NanoText now)]} |>
                          <| fd_bootstrapped := Some (rfc3339NanoText now) |>)
              else inl SentinelMissing
    | Some _ => if flagExists "registration_paused" d then inr d else inl (FlagRowMissing "registration_paused")
    end.
Proof.
  unfold BootstrapRuntimeFlags, seedRuntimeFlags. destruct d as [flags audit next [b|]]; cbn.
  - by destruct (flagExists _ _).
  - rewrite bool_decide_and. destruct (bool_decide_reflect (flags = ∅)) as [->|]; cbn; [|done].
    by destruct (bool_decide (audit = [])).
Qed.

(** A restart of a process that was seeded once succeeds and keeps every flag, and none of
    its goroutines; a pause survives it. *)
Theorem restart_keeps_flags m actions now :
  clocks_ok actions ->
  let s := run_flags m actions in
  fd_bootstrapped (sy_db s) <> None -> act m (Restart now None None) s = mkSys (sy_db s) (sy_log s) [].
Proof.
  intros [_ Hd]%(flags_ok_run m) s Hb. fold s in Hd. cbn [act].
  unfold BootstrapRuntimeFlags, flagExists. destruct (fd_bootstrapped (sy_db s)) as [b|] eqn:E; [|done]. cbn.
  destruct Hd as (row & -> & _). by rewrite lookup_singleton_eq.
Qed.

(** ** The handler alone *)

Definition request_of (pause : bool) (actor : string) (body : option string) : Proc :=
  if pause then Pause actor body else Resume actor body.
Definition target_of (pause : bool) : Z := if pause then 1 else 0.

(** The answer of a request that is refused in a system where nothing fails. *)
Definition refusal_of (m now : Z) (pause : bool) (actor : string) (body : option string) (v : Z)
    (audit : list AuditRec) : option FlagReply :=
  match body with
  | None => Some (FlagError 400 "bad_format")
  | Some reason =>
      if String.eqb (GoStr.TrimSpace reason) "" then Some (FlagError 400 "missing_field")
      else if String.eqb actor "" then Some (FlagError 500 "internal_error")
      else if v =? target_of pause then
        Some (FlagError 409 (if pause then "already_paused" else "already_running"))
      else if (0 <? m) && rate_limited m now "registration_paused" audit then Some (FlagError 429 "rate_limited")
      else None
  end.

Lemma claim_new m d audit :
  flags_ok m d -> ID audit = fd_next d ->
  find (unemitted (fd_next d)) (fd_audit d ++ [mkAuditRec audit false]) = Some (mkAuditRec audit false).
Proof.
  intros Hd Hid. rewrite find_app. destruct (find (unemitted (fd_next d)) (fd_audit d)) as [r|] eqn:E.
  - apply find_Some_elem in E as [Hr Hu]. unfold unemitted in Hu. bool_hyps.
    assert (au_row r ∈ audited d) as Hin by (apply elem_of_map; by exists r).
    pose proof (ids_below m d _ Hd Hin). lia.
  - cbn. unfold unemitted. cbn. by rewrite Hid, Z.eqb_refl.
Qed.

Lemma flip_write m now pause actor reason d row :
  fd_flags d !! "registration_paused" = Some row ->
  refusal_of m now pause actor (Some reason) (fl_value row) (fd_audit d) = None ->
  WriteFlagWithAudit None "registration_paused" (target_of pause) actor (GoStr.TrimSpace reason) m now d
  = let stamp := rfc3339NanoText now in
    let audit := mkAuditRow (fd_next d) "registration_paused" (fl_value row) (target_of pause) actor
                   (GoStr.TrimSpace reason) stamp in
    inr (audit, mkFlagDB (<["registration_paused" := mkFlagRow (target_of pause) stamp actor (GoStr.TrimSpace reason)]>
                            (fd_flags d))
                  (fd_audit d ++ [mkAuditRec audit false]) (fd_next d + 1) (fd_bootstrapped d)).
Proof.
  intros Hrow Href. unfold refusal_of in Href. unfold WriteFlagWithAudit. rewrite Hrow.
  destruct (String.eqb (GoStr.TrimSpace reason) ""), (String.eqb actor ""); try done.
  destruct (fl_value row =? target_of pause); [done|].
  destruct ((0 <? m) && rate_limited _ _ _ _); [done|]. cbn. rewrite andb_false_r. by destruct pause.
Qed.

(** A request to a system at rest is refused with the documented answer and changes nothing,
    or turns the flag around, is announced, claimed and answered with the number of its audit
    row, in four steps. *)
Theorem flip_alone m actions now pause actor body row :
  clocks_ok actions ->
  let d := sy_db (run_flags m actions) in
  fd_flags d !! "registration_paused" = Some row ->
  let '(d', events, p) := run_alone m now 4 (request_of pause actor body) d in
  match refusal_of m now pause actor body (fl_value row) (fd_audit d) with
  | Some refusal => d' = d /\ events = [] /\ p = Answered refusal
  | None => exists reason, body = Some reason
      /\ p = Answered (FlagFlipped (fl_value row) (target_of pause) (fd_next d))
      /\ paused_value d' = Some (target_of pause)
      /\ events = [FlipEvent (flagFlipEventName (target_of pause)) (fd_next d) actor (GoStr.TrimSpace reason)
                     (rfc3339NanoText now)]
      /\ is_claimed (fd_next d) d' = true
  end.
Proof.
  intros Hd%(flags_ok_run m) d Hrow. fold d in Hd.
  destruct (refusal_of m now pause actor body (fl_value row) (fd_audit d)) as [refusal|] eqn:Href.
  - assert (proc_step m now None false (request_of pause actor body) d = (d, [], Answered refusal)) as Hs.
    { unfold refusal_of in Href.
      destruct pause, body as [reason|]; cbn [request_of proc_step]; unfold ServePause, ServeResume, serveFlip;
        try (injection Href as <-; done);
        unfold WriteFlagWithAudit; rewrite Hrow; cbn [target_of] in Href;
        destruct (String.eqb (GoStr.TrimSpace reason) ""); try (injection Href as <-; done);
        destruct (String.eqb actor ""); try (injection Href as <-; done);
        cbn [Z.eqb Pos.eqb orb negb]; destruct (fl_value row =? _); try (injection Href as <-; done);
        cbn; rewrite andb_false_r; destruct ((0 <? m) && _); try (injection Href as <-; done); done. }
    cbn [run_alone]. rewrite Hs. cbn. done.
  - destruct body as [reason|]; [|done]. pose proof (flip_write m now pause actor reason d row Hrow Href) as Hw.
    cbn zeta in Hw. set (audit := mkAuditRow _ _ _ _ _ _ _) in Hw.
    assert (String.eqb (GoStr.TrimSpace reason) "" = false) as Hr
      by (unfold refusal_of in Href; by destruct (String.eqb (GoStr.TrimSpace reason) "")).
    set (d1 := mkFlagDB _ _ _ _) in Hw.
    assert (proc_step m now None false (request_of pause actor (Some reason)) d
            = (d1, [], Claim (fd_next d) (ByRequest (flagFlipEventName (target_of pause))
                         (FlagFlipped (fl_value row) (target_of pause) (fd_next d))))) as Hs.
    { destruct pause; cbn [request_of proc_step target_of] in *; unfold ServePause, ServeResume, serveFlip;
        by rewrite Hr, Hw. }
    cbn [run_alone]. rewrite Hs. cbn [run_alone proc_step]. unfold ClaimAndEmit, claimTx.
    rewrite bool_decide_eq_false_2 by (intros [? ?]; done). cbn [fd_audit d1].
    rewrite (claim_new m) by done. cbn. exists reason. split_and!; try done.
    + unfold paused_value. cbn. by rewrite lookup_insert_eq.
    + unfold is_claimed. cbn. rewrite map_app, existsb_app. cbn. unfold mark, unemitted, claimed_row. cbn.
      rewrite Z.eqb_refl. cbn. by rewrite Z.eqb_refl, orb_true_r.
Qed.

(** ** Executions *)

Module FlagExamples.
Import EvmExample.

Definition t0 : Z := 1767225600 * second.
Definition minute : Z := 60 * second.
Definition operator : string := "operator_key:coordinator".

(** A process starts; an operator pauses registrations; the process crashes before the event
    is sent and is started again. *)
Definition paused_then_crashed : list Action :=
  [Restart t0 None None; Request true operator (Some " hot wallet rotation ");
   Step 0 (t0 + 5) None false; Crash; Restart (t0 + minute) None None].

(** Six minutes later a resume and a pass of the reaper run at the same time. *)
Definition resumed_and_reaped : list Action :=
  paused_then_crashed ++
  [Request false operator (Some "done"); ReaperTick;
   Step 0 (t0 + 6 * minute) None false; Step 1 (t0 + 6 * minute) None false; Step 1 (t0 + 6 * minute) None false;
   Step 0 (t0 + 6 * minute) None false; Step 1 (t0 + 6 * minute) None false; Step 1 (t0 + 6 * minute) None false;
   Step 0 (t0 + 6 * minute) None false; Step 1 (t0 + 6 * minute) None false].

Example paused_unannounced :
  let s := run_flags minute paused_then_crashed in
  paused_value (sy_db s) = Some 1 /\ sy_log s = [] /\ is_claimed 1 (sy_db s) = false.
Proof. by vm_compute. Qed.

(** Both flips are announced, the first by the reaper. *)
Example both_announced :
  let s := run_flags minute resumed_and_reaped in
  paused_value (sy_db s) = Some 0
  /\ rev (sy_log s)
     = [FlipEvent "payout_registration_paused" 1 operator "hot wallet rotation" "2026-01-01T00:00:00.000000005Z";
        ReapedEvent 1 "registration_paused" 0 1 "2026-01-01T00:00:00.000000005Z";
        FlipEvent "payout_registration_resumed" 2 operator "done" "2026-01-01T00:06:00Z"]
  /\ sy_procs s = [Answered (FlagFlipped 1 0 2); Finished].
Proof. by vm_compute. Qed.

(** A crash between the claim and the event loses the event: no reaper sends it again. *)
Definition claimed_then_crashed : list Action :=
  [Restart t0 None None; Request true operator (Some "rotation"); Step 0 t0 None false; Step 0 t0 None false; Crash;
   Restart t0 None None; ReaperTick; Step 0 (t0 + 60 * minute) None false; Step 0 (t0 + 60 * minute) None false].

Example claimed_event_is_lost :
  let s := run_flags minute claimed_then_crashed in
  paused_value (sy_db s) = Some 1 /\ is_claimed 1 (sy_db s) = true /\ sy_log s = [] /\ sy_procs s = [Finished].
Proof. by vm_compute. Qed.

(** A second flip within the interval is refused. *)
Example flip_rate_limited :
  (run_alone minute (t0 + 30 * second) 4 (Resume operator (Some "oops"))
     (sy_db (run_flags minute [Restart t0 None None; Request true operator (Some "x"); Step 0 t0 None false]))).2
  = Answered (FlagError 429 "rate_limited").
Proof. by vm_compute. Qed.

(** Rows without the sentinel stop the start. *)
Example sentinel_deleted :
  BootstrapRuntimeFlags None None t0 ((sy_db (run_flags minute paused_then_crashed)) <| fd_bootstrapped := None |>)
  = inl SentinelMissing.
Proof. by vm_compute. Qed.

Ltac check_clocks :=
  unfold clocks_ok, resumed_and_reaped, paused_then_crashed; cbn [app];
  repeat (apply List.Forall_cons || apply List.Forall_nil);
  first [exact I|cbn; unfold in_years, t0, minute, day, second; lia].

Lemma flag_follows_audit_witness :
  clocks_ok resumed_and_reaped
  /\ flip_history minute 0 (audited (sy_db (run_flags minute resumed_and_reaped)))
  /\ length (audited (sy_db (run_flags minute resumed_and_reaped))) = 2%nat.
Proof.
  assert (clocks_ok resumed_and_reaped) as H by check_clocks.
  split_and!; [exact H|exact (flag_follows_audit minute resumed_and_reaped H)|by vm_compute].
Defined.

Lemma flip_announced_once_witness :
  clocks_ok resumed_and_reaped
  /\ count (announces 1) (sy_log (run_flags minute resumed_and_reaped)) <= 1.
Proof.
  assert (clocks_ok resumed_and_reaped) as H by check_clocks.
  split; [exact H|].
  apply (flip_announced_once minute resumed_and_reaped
    (mkAuditRow 1 "registration_paused" 0 1 operator "hot wallet rotation" "2026-01-01T00:00:00.000000005Z") H).
  vm_compute. left.
Defined.

Lemma reaper_witness :
  clocks_ok paused_then_crashed /\ in_years (t0 + 6 * minute - 5 * 60 * second)
  /\ (run_alone minute (t0 + 6 * minute) 5 Reap (sy_db (run_flags minute paused_then_crashed))).2 = Finished.
Proof.
  assert (clocks_ok paused_then_crashed) as H by check_clocks.
  assert (in_years (t0 + 6 * minute - 5 * 60 * second)) as Hy by (vm_compute; split; congruence).
  split_and!; [exact H|exact Hy|].
  exact (proj1 (reaper_announces_old_flips minute paused_then_crashed (t0 + 6 * minute) H Hy)).
Defined.

Lemma pause_witness :
  clocks_ok paused_then_crashed
  /\ forall s e r a, PayoutAddresses.ad_paused a = Some 1 ->
     let '(a', reply, accepted) := PayoutAddresses.ServePayoutAddress s e r a in a' = a /\ accepted = None.
Proof.
  assert (clocks_ok paused_then_crashed) as H1 by check_clocks.
  split; [exact H1|].
  exact (pause_stops_registrations minute paused_then_crashed
    (mkAuditRow 1 "registration_paused" 0 1 operator "hot wallet rotation" "2026-01-01T00:00:00.000000005Z") H1
    eq_refl eq_refl).
Defined.

End FlagExamples.
