(* ===== verification/Funding.v ===== *)
(** The money that comes into the hot wallet and what watches it:
    [internal/payout/funding.go], the records of [orphans.go], the chain balance worker of
    [reconcile.go], and [InitRunnerStateRow] of [bootstrap.go] with the bootstrap triggers of
    [migrations/0003_payout_runner_state.sql].

    Funding is recorded by an operator: by hand until the first payout is confirmed, and with
    a receipt both RPC nodes show afterwards. The worker compares what the tables say should
    be in the wallet with what is, and halts the runner when money is missing. An orphan
    records what a reorganisation took back.

    Shown: recorded funding never exceeds what arrived on the chain; a record by hand is
    refused for good once a payout was confirmed; the worker halts exactly on missing money,
    always on funding that was made up, and never while the books are right; an orphan keeps
    the snapshot it was recorded with. *)
From S2P Require Import Prelude GoTime Ledger Settlement Evm PayoutStore PayoutRunner.

(** ** Tables *)

(** [payout_hot_wallet_funding] *)
Record FundingRow := mkFundingRow {
  fr_id : Z;
  fr_from_address : string;
  fr_to_address : string;
  fr_amount_base_units : Z;
  fr_tx_hash : string;
  fr_block_number : Z;
  fr_observed_at_utc : string;
  fr_source : string;
  fr_operator_note : option string;
}.

(** [payout_reorg_orphans] *)
Record OrphanRow := mkOrphanRow {
  or_id : Z;
  or_payout_id : Z;
  or_attempt_seq : Z;
  or_orphan_tx_hash : string;
  or_last_seen_block : Z;
  or_observed_at_utc : string;
  or_rpc_source : string;
  or_observed_provider_id : string;
  or_observed_provider_credits : Z;
  or_observed_gross_credits : Z;
  or_observed_amount_base_units : Z;
  or_operator_resolution : option string;
  or_resolved_at_utc : option string;
}.

#[export] Instance rebuild_OrphanRow : Rebuild OrphanRow := fun o =>
  mkOrphanRow (or_id o) (or_payout_id o) (or_attempt_seq o) (or_orphan_tx_hash o) (or_last_seen_block o)
    (or_observed_at_utc o) (or_rpc_source o) (or_observed_provider_id o) (or_observed_provider_credits o)
    (or_observed_gross_credits o) (or_observed_amount_base_units o) (or_operator_resolution o)
    (or_resolved_at_utc o).

(** The bootstrap columns of the one row of [payout_runner_state]. *)
Record RunnerState := mkRunnerState {
  payout_bootstrap_complete : bool;
  bootstrap_completed_at_utc : option string;
}.

(** [fu_triggers] are the triggers [sqlite_master] lists. *)
Record FundDB := mkFundDB {
  fu_state : option RunnerState;
  fu_triggers : gset string;
  fu_payouts : list PayoutRow;
  fu_attempts : list AttemptRow;
  fu_funding : list FundingRow;
  fu_next_funding : Z;
  fu_orphans : list OrphanRow;
  fu_next_orphan : Z;
}.

#[export] Instance rebuild_FundDB : Rebuild FundDB := fun d =>
  mkFundDB (fu_state d) (fu_triggers d) (fu_payouts d) (fu_attempts d) (fu_funding d) (fu_next_funding d)
    (fu_orphans d) (fu_next_orphan d).

Definition bootstrap_triggers : gset string :=
  {["trg_prs_bootstrap_one_way"; "trg_pa_bootstrap_flip"; "trg_pa_bootstrap_flip_insert"]}.

(** The tables as the migrations leave them. *)
Definition migrated : FundDB := mkFundDB None bootstrap_triggers [] [] [] 1 [] 1.

(** [InitRunnerStateRow] *)
Definition InitRunnerStateRow (d : FundDB) : FundDB :=
  match fu_state d with
  | Some _ => d
  | None => d <| fu_state := Some (mkRunnerState false None) |>
  end.

(** ** Requests: [funding.go] *)

Record FundingService := mkFundingService {
  hotWalletAddress : string;
  usdcAddress : string;
}.

Definition NewFundingService (db : option unit) (hot usdc : string) : option FundingService :=
  match db with
  | Some _ => if String.eqb hot "" || String.eqb usdc "" then None else Some (mkFundingService hot usdc)
  | None => None
  end.

Record recordFundingRequest := mkFundingRequest {
  fq_FromAddress : string;
  fq_ToAddress : string;
  fq_AmountBaseUnits : Z;
  fq_TxHash : string;
  fq_BlockNumber : Z;
  fq_Source : string;
  fq_OperatorNote : string;
}.

(** What the handler does not decide: the clock, whether the service has RPC clients, what
    they answer to the lower-case hash, and the statement that fails, counted from 0. *)
Record FundingEnv := mkFundingEnv {
  fe_now : Z;
  fe_has_rpcs : bool;
  fe_receipts : string -> rpc (option RpcReceipt) * rpc (option RpcReceipt);
  fe_fault : option nat;
}.

Definition stmt_fails (e : FundingEnv) (n : nat) : bool := bool_decide (fe_fault e = Some n).

Inductive AdminReply :=
| AdminError (status : Z) (code : string)
| FundingCreated (source : string)
| OrphanCreated (id : Z) (is_cancel_self_transfer : bool)
| OrphanResolved (id : Z) (resolved_at_utc : string).

Definition internal : AdminReply := AdminError 500 "internal_error".

(** [addressFromTopic] *)
Definition addressFromTopic (topic : string) : string :=
  let t := GoStr.chars (GoStr.TrimPrefix (GoStr.ToLower topic) "0x") in
  if (length t <? 40)%nat then topic else "0x" +:+ GoStr.of_chars (skipn (length t - 40) t).

(** A [Transfer] of the contract between the two addresses. *)
Definition transfer_between (fromLower toLower usdcLower : string) (l : ReceiptLog) : bool :=
  GoStr.EqualFold (log_Address l) usdcLower
  && match log_Topics l with
     | [t0; t1; t2] =>
         GoStr.EqualFold t0 transferTopic
         && GoStr.EqualFold (GoStr.ToLower (addressFromTopic t1)) fromLower
         && GoStr.EqualFold (GoStr.ToLower (addressFromTopic t2)) toLower
     | _ => false
     end.

(** [verifyFundingReceipt]: the first such log decides. *)
Definition verifyFundingReceipt (rec : RpcReceipt) (req : recordFundingRequest)
    (fromLower toLower usdcLower : string) : bool :=
  (rec_Status rec =? 1) && GoStr.EqualFold (rec_To rec) usdcLower
  && (rec_BlockNumber rec =? fq_BlockNumber req)
  && match find (transfer_between fromLower toLower usdcLower) (rec_Logs rec) with
     | Some l =>
         (length (log_Data l) =? 32)%nat && forallb (Z.eqb 0) (firstn 24 (log_Data l))
         && (SetBytes (log_Data l) =? fq_AmountBaseUnits req)
     | None => false
     end.

Inductive FundingInsert := FundingInserted (d : FundDB) | TxHashTaken | InsertFails.

(** [insertFundingRowTx] and [insertFundingRowDirect]. The driver refuses a block number
    with the highest bit set. *)
Definition insertFundingRow (fromAddr toAddr : string) (amount : Z) (txHash : string) (blockNumber : Z)
    (source operatorNote : string) (now : Z) (d : FundDB) : FundingInsert :=
  let hash := GoStr.ToLower (GoStr.TrimSpace txHash) in
  if negb (blockNumber <=? Int64.max) || negb (0 <? amount)
     || negb (String.eqb source "manual" || String.eqb source "rpc-confirmed") then InsertFails
  else if existsb (fun r => String.eqb (fr_tx_hash r) hash) (fu_funding d) then TxHashTaken
  else FundingInserted
    (d <| fu_funding := fu_funding d ++
            [mkFundingRow (fu_next_funding d) fromAddr toAddr amount hash blockNumber (rfc3339NanoText now)
               source (if String.eqb operatorNote "" then None else Some operatorNote)] |>
       <| fu_next_funding := fu_next_funding d + 1 |>).

(** [SELECT count( * ) FROM sqlite_master] over the three names *)
Definition trigger_count (d : FundDB) : nat := size (fu_triggers d ∩ bootstrap_triggers).

(** The statements of [serveManual]: the connection and [BEGIN IMMEDIATE], the triggers, the
    state, the confirmed attempts, the insert, [COMMIT]. *)
Definition serveManual (e : FundingEnv) (req : recordFundingRequest) (fromLower toLower : string) (d : FundDB)
    : FundDB * AdminReply :=
  if stmt_fails e 0 || stmt_fails e 1 then (d, internal)
  else if negb (trigger_count d =? 3)%nat then (d, AdminError 422 "bootstrap_trigger_missing")
  else if stmt_fails e 2 then (d, internal)
  else match fu_state d with
  | None => (d, internal)
  | Some st =>
      if stmt_fails e 3 then (d, internal)
      else if payout_bootstrap_complete st || existsb confirmed (fu_attempts d)
      then (d, AdminError 422 "bootstrap_complete")
      else if stmt_fails e 4 then (d, internal)
      else match insertFundingRow fromLower toLower (fq_AmountBaseUnits req) (fq_TxHash req)
                   (fq_BlockNumber req) "manual" (fq_OperatorNote req) (fe_now e) d with
           | TxHashTaken => (d, AdminError 409 "tx_hash_already_recorded")
           | InsertFails => (d, internal)
           | FundingInserted d' => if stmt_fails e 5 then (d, internal) else (d', FundingCreated "manual")
           end
  end.

Definition serveRPCConfirmed (e : FundingEnv) (req : recordFundingRequest)
    (fromLower toLower usdcLower : string) (d : FundDB) : FundDB * AdminReply :=
  if negb (fe_has_rpcs e) then (d, internal)
  else match fe_receipts e (GoStr.ToLower (fq_TxHash req)) with
  | (inr (Some recA), inr (Some recB)) =>
      if negb (verifyFundingReceipt recA req fromLower toLower usdcLower) then (d, AdminError 422 "receipt_mismatch")
      else if negb (verifyFundingReceipt recB req fromLower toLower usdcLower) then (d, AdminError 422 "receipt_mismatch")
      else if stmt_fails e 0 || stmt_fails e 1 then (d, internal)
      else match insertFundingRow fromLower toLower (fq_AmountBaseUnits req) (fq_TxHash req)
                   (fq_BlockNumber req) "rpc-confirmed" (fq_OperatorNote req) (fe_now e) d with
           | TxHashTaken => (d, AdminError 409 "tx_hash_already_recorded")
           | InsertFails => (d, internal)
           | FundingInserted d' => (d', FundingCreated "rpc-confirmed")
           end
  | _ => (d, AdminError 422 "receipt_not_available")
  end.

(** [ServeRecordFunding]. [body] is [None] when it cannot be read or decoded. *)
Definition ServeRecordFunding (s : FundingService) (e : FundingEnv) (idempotencyKey : string)
    (body : option recordFundingRequest) (d : FundDB) : FundDB * AdminReply :=
  match body with
  | None => (d, AdminError 400 "bad_format")
  | Some req =>
      if (fq_AmountBaseUnits req <=? 0) || String.eqb (fq_FromAddress req) "" || String.eqb (fq_ToAddress req) ""
         || String.eqb (fq_TxHash req) "" || String.eqb (fq_Source req) ""
      then (d, AdminError 400 "missing_field")
      else
        let idemHeader := GoStr.TrimSpace idempotencyKey in
        if String.eqb idemHeader "" || negb (GoStr.EqualFold idemHeader (fq_TxHash req))
        then (d, AdminError 422 "idempotency_key_mismatch")
        else
          let fromLower := GoStr.ToLower (GoStr.TrimSpace (fq_FromAddress req)) in
          let toLower := GoStr.ToLower (GoStr.TrimSpace (fq_ToAddress req)) in
          let hotLower := GoStr.ToLower (hotWalletAddress s) in
          let usdcLower := GoStr.ToLower (usdcAddress s) in
          if negb (GoStr.EqualFold toLower hotLower) then (d, AdminError 400 "to_address_must_equal_hot_wallet")
          else if GoStr.EqualFold fromLower hotLower then (d, AdminError 400 "from_address_is_hot_wallet")
          else if String.eqb (fq_Source req) "manual" then serveManual e req fromLower toLower d
          else if String.eqb (fq_Source req) "rpc-confirmed" then serveRPCConfirmed e req fromLower toLower usdcLower d
          else (d, AdminError 400 "invalid_source")
  end.

(** ** Orphans: [orphans.go] *)

Record recordOrphanRequest := mkOrphanRequest {
  oq_OrphanID : Z;
  oq_PayoutID : Z;
  oq_AttemptSeq : Z;
  oq_OrphanTxHash : string;
  oq_LastSeenBlock : Z;
  oq_RPCSource : string;
  oq_OperatorResolution : string;
  oq_Reason : string;
}.

Definition blank (s : string) : bool := String.eqb (GoStr.TrimSpace s) "".
Definition resolved (o : OrphanRow) : bool := is_some (or_resolved_at_utc o).

(** The index [idx_pro_unique_active]. *)
Definition same_orphan (p seq : Z) (hash : string) (o : OrphanRow) : bool :=
  (or_payout_id o =? p) && (or_attempt_seq o =? seq) && String.eqb (or_orphan_tx_hash o) hash && negb (resolved o).

(** [serveRecord]: the statements are the connection and [BEGIN IMMEDIATE], the join, the
    insert, [COMMIT]. *)
Definition serveRecord (e : FundingEnv) (req : recordOrphanRequest) (d : FundDB) : FundDB * AdminReply :=
  if (oq_PayoutID req =? 0) || (oq_AttemptSeq req =? 0) || blank (oq_OrphanTxHash req) || blank (oq_RPCSource req)
  then (d, AdminError 400 "missing_field")
  else if stmt_fails e 0 || stmt_fails e 1 then (d, internal)
  else match find (is_row (oq_PayoutID req) (oq_AttemptSeq req)) (fu_attempts d),
             find (fun l => lpr_id l =? oq_PayoutID req) (fu_payouts d) with
  | Some pa, Some lpr =>
      let hash := GoStr.ToLower (GoStr.TrimSpace (oq_OrphanTxHash req)) in
      if stmt_fails e 2 || negb (oq_LastSeenBlock req <=? Int64.max) then (d, internal)
      else if existsb (same_orphan (oq_PayoutID req) (oq_AttemptSeq req) hash) (fu_orphans d)
      then (d, AdminError 409 "orphan_already_recorded")
      else if stmt_fails e 3 then (d, internal)
      else
        (d <| fu_orphans := fu_orphans d ++
               [mkOrphanRow (fu_next_orphan d) (oq_PayoutID req) (oq_AttemptSeq req) hash (oq_LastSeenBlock req)
                  (rfc3339NanoText (fe_now e)) (oq_RPCSource req) (lpr_provider_id lpr) (lpr_provider_credits lpr)
                  (lpr_gross_credits lpr) (AmountBaseUnits pa) None None] |>
           <| fu_next_orphan := fu_next_orphan d + 1 |>,
         OrphanCreated (fu_next_orphan d) (IsCancelSelfTransfer pa))
  | _, _ => (d, AdminError 422 "attempt_not_found")
  end.

Definition unresolved_id (id : Z) (o : OrphanRow) : bool := (or_id o =? id) && negb (resolved o).

Definition serveResolve (e : FundingEnv) (req : recordOrphanRequest) (d : FundDB) : FundDB * AdminReply :=
  if blank (oq_OperatorResolution req) then (d, AdminError 400 "missing_field")
  else if stmt_fails e 0 then (d, internal)
  else if negb (existsb (unresolved_id (oq_OrphanID req)) (fu_orphans d))
  then (d, AdminError 404 "orphan_not_found_or_already_resolved")
  else
    let stamp := rfc3339NanoText (fe_now e) in
    (d <| fu_orphans := update_where (unresolved_id (oq_OrphanID req)) (fun o =>
            o <| or_operator_resolution := Some (oq_OperatorResolution req) |> <| or_resolved_at_utc := Some stamp |>)
            (fu_orphans d) |>,
     OrphanResolved (oq_OrphanID req) stamp).

Definition ServeRecordOrphan (e : FundingEnv) (body : option recordOrphanRequest) (d : FundDB)
    : FundDB * AdminReply :=
  match body with
  | None => (d, AdminError 400 "bad_format")
  | Some req =>
      if blank (oq_Reason req) then (d, AdminError 400 "missing_field")
      else if 0 <? oq_OrphanID req then serveResolve e req d
      else serveRecord e req d
  end.

(** ** The pipeline's statements on [payout_attempts], with the triggers *)

(** [trg_pa_bootstrap_flip] for the rows an [UPDATE] confirmed. *)
Definition fire_flip (before after : list AttemptRow) (d : FundDB) : FundDB :=
  let newly := List.filter (fun '(a, b) => negb (confirmed a) && confirmed b) (combine before after) in
  match newly, fu_state d with
  | (_, b) :: _, Some st =>
      if bool_decide ("trg_pa_bootstrap_flip" ∈ fu_triggers d) && negb (payout_bootstrap_complete st)
      then d <| fu_state := Some (mkRunnerState true (ConfirmedAtUtc b)) |> else d
  | _, _ => d
  end.

(** [trg_pa_bootstrap_flip_insert] *)
Definition fire_insert (r : AttemptRow) (d : FundDB) : FundDB :=
  match fu_state d with
  | Some st =>
      if bool_decide ("trg_pa_bootstrap_flip_insert" ∈ fu_triggers d) && negb (payout_bootstrap_complete st)
         && confirmed r
      then d <| fu_state := Some (mkRunnerState true (ConfirmedAtUtc r)) |> else d
  | None => d
  end.

Inductive PipelineStmt :=
| PInsert (r : AttemptRow)
| PPersist (p seq : Z) (raw : bytes) (hash nowUTC : string)
| PStamp (p seq : Z) (nowUTC : string)
| PConfirm (p seq block gas : Z) (nowUTC : string)
| PAbandon (p seq : Z) (reason nowUTC : string)
| PReopen (p seq : Z) (hash nowUTC : string)
| PMarkStale (p seq : Z) (staleStarted : string).

Definition updated_rows (st : PipelineStmt) (rows : list AttemptRow) : list AttemptRow :=
  match st with
  | PInsert _ => rows
  | PPersist p seq raw hash nowUTC =>
      match CASPersistSignedTx p seq raw hash nowUTC rows with CasDone rows' => rows' | _ => rows end
  | PStamp p seq nowUTC => StampBroadcastAt p seq nowUTC rows
  | PConfirm p seq block gas nowUTC => (MarkConfirmedAtTx p seq block gas nowUTC rows).2
  | PAbandon p seq reason nowUTC => (abandon_rows p seq reason nowUTC rows).2
  | PReopen p seq hash nowUTC => (reopen_cancel p seq hash nowUTC rows).2
  | PMarkStale p seq staleStarted => (mark_stale p seq staleStarted rows).2
  end.

Definition pipeline (st : PipelineStmt) (d : FundDB) : FundDB :=
  match st with
  | PInsert r =>
      match insert_row r (fu_attempts d) with
      | Inserted rows => fire_insert r (d <| fu_attempts := rows |>)
      | _ => d
      end
  | _ => let rows := updated_rows st (fu_attempts d) in
         fire_flip (fu_attempts d) rows (d <| fu_attempts := rows |>)
  end.

(** ** The chain balance worker: [reconcile.go] *)

Definition balanceOfSelector : bytes := [112; 160; 130; 49].

Definition hexDigit (c : ascii) : Z :=
  let n := Z.of_N (N_of_ascii c) in
  if (48 <=? n) && (n <=? 57) then n - 48
  else if (97 <=? n) && (n <=? 102) then n - 97 + 10
  else if (65 <=? n) && (n <=? 70) then n - 65 + 10
  else 0.

Fixpoint pair_digits (l : list ascii) : bytes :=
  match l with
  | hi :: lo :: l => Z.lor (Z.shiftl (hexDigit hi) 4) (hexDigit lo) :: pair_digits l
  | _ => []
  end.

Definition usdcBalanceCalldata (holderAddr : string) : bytes :=
  let h := GoStr.chars (GoStr.TrimPrefix (GoStr.ToLower holderAddr) "0x") in
  let h := repeat "0"%char (64 - length h) ++ h in
  balanceOfSelector ++ pair_digits (firstn 64 h).

Definition parseBalanceResult (data : bytes) : option Z :=
  if (length data <? 32)%nat then None else Some (SetBytes (skipn (length data - 32) data)).

Record ChainBalanceConfig := mkChainBalanceConfig {
  Interval : Z;
  ToleranceUSDC : Z;
  HotWalletAddr : string;
  USDCContract : string;
}.

Definition NewChainBalanceWorker (db : option unit) (cfg : ChainBalanceConfig) : option ChainBalanceConfig :=
  match db with
  | None => None
  | Some _ =>
      if (Interval cfg <=? 0) || (ToleranceUSDC cfg <? 0) || String.eqb (HotWalletAddr cfg) "" then None
      else Some (if String.eqb (USDCContract cfg) ""
                 then mkChainBalanceConfig (Interval cfg) (ToleranceUSDC cfg) (HotWalletAddr cfg) USDCContractAddressBase
                 else cfg)
  end.

Definition funded_to (hotLower : string) (r : FundingRow) : bool := String.eqb (GoStr.ToLower (fr_to_address r)) hotLower.
Definition paid_from (hotLower : string) (r : AttemptRow) : bool :=
  confirmed r && live r && negb (IsCancelSelfTransfer r) && String.eqb (GoStr.ToLower (FromAddress r)) hotLower.

Definition total_funded (hotLower : string) (d : FundDB) : Z :=
  sum_if (funded_to hotLower) fr_amount_base_units (fu_funding d).
Definition total_paid (hotLower : string) (d : FundDB) : Z :=
  sum_if (paid_from hotLower) AmountBaseUnits (fu_attempts d).

(** [computeExpectedBalance]; a [SUM] fails when it leaves 64 bits. *)
Definition computeExpectedBalance (fault : option nat) (cfg : ChainBalanceConfig) (d : FundDB) : option Z :=
  let hotLower := GoStr.ToLower (HotWalletAddr cfg) in
  if bool_decide (is_Some fault) then None
  else
    funded ← GoStr.int_range_checked (total_funded hotLower d);
    paid ← GoStr.int_range_checked (total_paid hotLower d);
    Some (funded - paid).

Inductive ReconEvent :=
| ReconRpcError
| ReconDecodeError (s : side)
| ReconDisagreement (primary_balance secondary_balance : Z)
| ReconDbError
| ReconOk (on_chain expected : Z)
| DriftPositive (on_chain expected : Z)
| DriftNegative (on_chain expected : Z).

(** [runOnce] on the answers of the nodes: the event, and whether the runner is halted. *)
Definition runOnce (cfg : ChainBalanceConfig) (resA resB : rpc bytes) (fault : option nat) (d : FundDB)
    : ReconEvent * bool :=
  match resA, resB with
  | inr a, inr b =>
      match parseBalanceResult a with
      | None => (ReconDecodeError primary, false)
      | Some balA =>
          match parseBalanceResult b with
          | None => (ReconDecodeError secondary, false)
          | Some balB =>
              if ToleranceUSDC cfg <? Z.abs (balA - balB) then (ReconDisagreement balA balB, false)
              else match computeExpectedBalance fault cfg d with
              | None => (ReconDbError, false)
              | Some expected =>
                  let drift := balA - expected in
                  if (drift =? 0) || (Z.abs drift <=? ToleranceUSDC cfg) then (ReconOk balA expected, false)
                  else if 0 <? drift then (DriftPositive balA expected, false)
                  else (DriftNegative balA expected, true)
              end
          end
      end
  | _, _ => (ReconRpcError, false)
  end.

(** ** Histories *)

Section History.
Context (s : FundingService).

Inductive FundStep :=
| Start
| RecordFunding (e : FundingEnv) (idempotencyKey : string) (body : option recordFundingRequest)
| RecordOrphan (e : FundingEnv) (body : option recordOrphanRequest)
| Pipeline (st : PipelineStmt)
(** a settlement run adds a payout *)
| Settled (l : PayoutRow).

Definition fund_step (st : FundStep) (d : FundDB) : FundDB :=
  match st with
  | Start => InitRunnerStateRow d
  | RecordFunding e key body => (ServeRecordFunding s e key body d).1
  | RecordOrphan e body => (ServeRecordOrphan e body d).1
  | Pipeline st => pipeline st d
  | Settled l => d <| fu_payouts := fu_payouts d ++ [l] |>
  end.

Definition fund_from (d : FundDB) (steps : list FundStep) : FundDB := fold_left (fun d st => fund_step st d) steps d.
Definition fund_run (steps : list FundStep) : FundDB := fund_from migrated steps.

(** ** Recorded funding arrived *)

Definition hotLower : string := GoStr.ToLower (hotWalletAddress s).
Definition usdcLow : string := GoStr.ToLower (usdcAddress s).

(** A [Transfer] of the contract into the hot wallet from somewhere else. *)
Definition arrives (l : ReceiptLog) : bool :=
  GoStr.EqualFold (log_Address l) usdcLow
  && match log_Topics l with
     | [t0; t1; t2] => GoStr.EqualFold t0 transferTopic
                       && negb (GoStr.EqualFold (addressFromTopic t1) hotLower)
                       && GoStr.EqualFold (addressFromTopic t2) hotLower
     | _ => false
     end.

(** What a transaction brought into the hot wallet. *)
Definition inflow (r : RpcReceipt) : Z :=
  if rec_Status r =? 1 then sum_if arrives (fun l => SetBytes (log_Data l)) (rec_Logs r) else 0.

(** The receipts of the chain by lower-case hash, and what came in with all of them. *)
Definition total_inflow (chain : gmap string RpcReceipt) : Z := sum_map (fun _ r => inflow r) chain.

Definition logs_ok (chain : gmap string RpcReceipt) : Prop :=
  map_Forall (fun _ r => Forall (fun l => bytes_ok (log_Data l)) (rec_Logs r)) chain.

(** The primary node answers with receipts of the chain. *)
Definition honest_step (chain : gmap string RpcReceipt) (st : FundStep) : Prop :=
  match st with
  | RecordFunding e _ _ => forall h r, (fe_receipts e h).1 = inr (Some r) -> chain !! h = Some r
  | _ => True
  end.

Definition rpc_confirmed (r : FundingRow) : bool := String.eqb (fr_source r) "rpc-confirmed".
Definition manual (r : FundingRow) : bool := String.eqb (fr_source r) "manual".

Lemma is_space_lower c : GoStr.is_space (GoStr.lower_ascii c) = GoStr.is_space c.
Proof. destruct c as [[] [] [] [] [] [] [] []]; reflexivity. Qed.

Lemma drop_while_map (p : ascii -> bool) (f : ascii -> ascii) l :
  (forall c, p (f c) = p c) -> GoStr.drop_while p (map f l) = map f (GoStr.drop_while p l).
Proof. intros Hf. induction l as [|c l IH]; cbn; [done|]. rewrite Hf. by destruct (p c). Qed.

Lemma TrimSpace_ToLower x : GoStr.TrimSpace (GoStr.ToLower x) = GoStr.ToLower (GoStr.TrimSpace x).
Proof.
  unfold GoStr.TrimSpace, GoStr.TrimLeftFunc, GoStr.TrimRightFunc, GoStr.ToLower. rewrite !GoStr.chars_of_chars.
  by rewrite (drop_while_map _ _ _ is_space_lower), <- map_rev, (drop_while_map _ _ _ is_space_lower), <- map_rev.
Qed.

(** A hash that equals the trimmed idempotency key, up to case, has no space around it. *)
Lemma key_trims_hash key h :
  GoStr.EqualFold (GoStr.TrimSpace key) h = true -> GoStr.ToLower (GoStr.TrimSpace h) = GoStr.ToLower h.
Proof.
  unfold GoStr.EqualFold. intros H. bool_hyps. rewrite <- TrimSpace_ToLower, <- H, TrimSpace_ToLower.
  by rewrite GoStr.TrimSpace_idem.
Qed.

(** The row of a request. *)
Definition funding_row (e : FundingEnv) (req : recordFundingRequest) (d : FundDB) : FundingRow :=
  mkFundingRow (fu_next_funding d) (GoStr.ToLower (GoStr.TrimSpace (fq_FromAddress req))) hotLower
    (fq_AmountBaseUnits req) (GoStr.ToLower (fq_TxHash req)) (fq_BlockNumber req) (rfc3339NanoText (fe_now e))
    (fq_Source req) (if String.eqb (fq_OperatorNote req) "" then None else Some (fq_OperatorNote req)).

(** What a request that is recorded went through. *)
Record accepted (e : FundingEnv) (req : recordFundingRequest) (d : FundDB) : Prop := {
  ac_amount : 0 < fq_AmountBaseUnits req;
  ac_from : GoStr.ToLower (GoStr.TrimSpace (fq_FromAddress req)) <> hotLower;
  ac_new : Forall (fun r => fr_tx_hash r <> GoStr.ToLower (fq_TxHash req)) (fu_funding d);
  ac_source :
    (fq_Source req = "manual" /\ trigger_count d = 3%nat
     /\ exists st, fu_state d = Some st /\ payout_bootstrap_complete st = false
          /\ existsb confirmed (fu_attempts d) = false)
    \/ (fq_Source req = "rpc-confirmed"
        /\ exists recA recB, fe_receipts e (GoStr.ToLower (fq_TxHash req)) = (inr (Some recA), inr (Some recB))
             /\ verifyFundingReceipt recA req (GoStr.ToLower (GoStr.TrimSpace (fq_FromAddress req))) hotLower usdcLow = true
             /\ verifyFundingReceipt recB req (GoStr.ToLower (GoStr.TrimSpace (fq_FromAddress req))) hotLower usdcLow = true);
}.

Definition with_funding (r : FundingRow) (d : FundDB) : FundDB :=
  d <| fu_funding := fu_funding d ++ [r] |> <| fu_next_funding := fu_next_funding d + 1 |>.

Lemma insert_inv from to amount hash block source note now d d' :
  insertFundingRow from to amount hash block source note now d = FundingInserted d' ->
  Forall (fun r => fr_tx_hash r <> GoStr.ToLower (GoStr.TrimSpace hash)) (fu_funding d)
  /\ d' = with_funding (mkFundingRow (fu_next_funding d) from to amount (GoStr.ToLower (GoStr.TrimSpace hash)) block
            (rfc3339NanoText now) source (if String.eqb note "" then None else Some note)) d.
Proof.
  unfold insertFundingRow. intros H. split_ifs; try done; injection H as <-; (split; [|by destruct d]);
    apply Forall_forall; intros r Hr E;
    match goal with Hx : existsb _ _ = false |- _ => apply not_true_iff_false in Hx; apply Hx end;
    apply existsb_elem; exists r; (split; [done|by apply String.eqb_eq]).
Qed.

Ltac refused H :=
  match goal with
  | |- context [if ?b then (?d, _) else _] => destruct b eqn:H; [left; eexists; split; [reflexivity|done]|]
  end.

Lemma record_inv e key body d :
  (exists reply, ServeRecordFunding s e key body d = (d, reply) /\ forall source, reply <> FundingCreated source)
  \/ exists req, body = Some req /\ accepted e req d
       /\ ServeRecordFunding s e key body d = (with_funding (funding_row e req d) d, FundingCreated (fq_Source req)).
Proof.
  unfold ServeRecordFunding. destruct body as [req|]; [|left; by eexists].
  refused Hm. refused Hk. refused Hto. refused Hfrom. bool_hyps.
  match goal with H : GoStr.EqualFold (GoStr.TrimSpace key) _ = true |- _ => pose proof (key_trims_hash _ _ H) as Htrim end.
  unfold GoStr.EqualFold in Hto, Hfrom. rewrite !GoStr.ToLower_idem in Hto, Hfrom. bool_hyps. fold hotLower in *.
  rewrite Hto.
  destruct (String.eqb_spec (fq_Source req) "manual") as [Es|_].
  - unfold serveManual. refused Hf. refused Htr. refused Hf2. destruct (fu_state d) as [st|] eqn:Est; [|left; by eexists].
    refused Hf3. refused Hb. refused Hf4. bool_hyps.
    destruct (insertFundingRow _ _ _ _ _ _ _ _ _) as [d'| |] eqn:Hi; [|left; by eexists..].
    refused Hf5. right. exists req. split; [done|].
    apply insert_inv in Hi as [Hnew ->]. rewrite Htrim in *. split.
    + split; try done; [lia|]. left. split_and!; [done|by apply Nat.eqb_eq|by exists st].
    + unfold funding_row. by rewrite Es.
  - destruct (String.eqb_spec (fq_Source req) "rpc-confirmed") as [Es|_]; [|left; by eexists].
    unfold serveRPCConfirmed. refused Hr.
    destruct (fe_receipts e _) as [[|[recA|]] [|[recB|]]] eqn:Hrec; try (left; by eexists).
    refused HA. refused HB. refused Hf. bool_hyps.
    destruct (insertFundingRow _ _ _ _ _ _ _ _ _) as [d'| |] eqn:Hi; [|left; by eexists..].
    right. exists req. split; [done|]. apply insert_inv in Hi as [Hnew ->]. rewrite Htrim in *. split.
    + split; try done; [lia|]. right. split; [done|]. by exists recA, recB.
    + unfold funding_row. by rewrite Es.
Qed.

Lemma sum_if_elem {A} (p : A -> bool) (f : A -> Z) l x :
  (forall y, y ∈ l -> 0 <= f y) -> x ∈ l -> p x = true -> f x <= sum_if p f l.
Proof.
  induction l as [|y l IH]; intros Hf Hx Hp; [by apply elem_of_nil in Hx|]. rewrite sum_if_cons.
  assert (0 <= sum_if p f l) as Hl.
  { clear IH Hx. induction l as [|z l IH]; [done|]. rewrite sum_if_cons.
    assert (0 <= sum_if p f l) by (apply IH; intros w Hw; apply Hf; set_solver).
    assert (0 <= f z) by (apply Hf; set_solver). destruct (p z); lia. }
  apply elem_of_cons in Hx as [->|Hx].
  - rewrite Hp. lia.
  - assert (f x <= sum_if p f l) by (apply IH; try done; intros z Hz; apply Hf; set_solver).
    assert (0 <= f y) by (apply Hf; set_solver). destruct (p y); lia.
Qed.

Lemma lower_hot : GoStr.ToLower hotLower = hotLower.
Proof. apply GoStr.ToLower_idem. Qed.

(** A receipt that verifies brought in the amount. *)
Lemma verified_inflow rec req from :
  verifyFundingReceipt rec req (GoStr.ToLower from) hotLower usdcLow = true -> GoStr.ToLower from <> hotLower ->
  Forall (fun l => bytes_ok (log_Data l)) (rec_Logs rec) -> fq_AmountBaseUnits req <= inflow rec.
Proof.
  unfold verifyFundingReceipt, inflow. intros H Hne Hok. bool_hyps.
  destruct (find _ _) as [l|] eqn:Hf; [|done]. bool_hyps. apply find_Some_elem in Hf as [Hl Ht].
  replace (rec_Status rec =? 1) with true.
  replace (fq_AmountBaseUnits req) with (SetBytes (log_Data l)) by lia.
  apply (sum_if_elem arrives (fun l => SetBytes (log_Data l))); [|done|].
  - intros y Hy. rewrite Forall_forall in Hok. apply SetBytes_bound. by apply Hok.
  - unfold transfer_between, arrives, GoStr.EqualFold in *. apply andb_true_iff in Ht as [Ha Ht].
    rewrite Ha. cbn. destruct (log_Topics l) as [|t0 [|t1 [|t2 []]]]; try done.
    rewrite !GoStr.ToLower_idem, lower_hot in *. bool_hyps.
    match goal with H1 : GoStr.ToLower t0 = _, H2 : _ = GoStr.ToLower from, H3 : _ = hotLower |- _ =>
      rewrite H1, H2, H3, !String.eqb_refl end.
    destruct (String.eqb_spec (GoStr.ToLower from) hotLower); done.
Qed.

Lemma inflow_nonneg rec : Forall (fun l => bytes_ok (log_Data l)) (rec_Logs rec) -> 0 <= inflow rec.
Proof.
  intros H. unfold inflow. destruct (_ =? _); [|done]. unfold sum_if. apply sumZ_nonneg. intros l Hl.
  rewrite Forall_forall in H. pose proof (SetBytes_bound _ (H l Hl)). destruct (arrives l); lia.
Qed.

(** Amounts of different transactions add up to at most what all of them brought in. *)
Lemma rows_within_chain rows : forall chain,
  logs_ok chain -> NoDup (map fr_tx_hash rows) ->
  (forall r, r ∈ rows -> exists rec, chain !! fr_tx_hash r = Some rec /\ fr_amount_base_units r <= inflow rec) ->
  sumZ fr_amount_base_units rows <= total_inflow chain.
Proof.
  induction rows as [|r rows IH]; intros chain Hok Hnd Hr; cbn [sumZ].
  - apply sum_map_nonneg. intros h rec Hh. apply inflow_nonneg. by apply (Hok h).
  - cbn in Hnd. apply NoDup_cons in Hnd as [Hnew Hnd]. destruct (Hr r ltac:(by left)) as (rec & Hc & Hle).
    unfold total_inflow. rewrite (sum_map_lookup _ _ _ _ Hc). fold (total_inflow (delete (fr_tx_hash r) chain)).
    enough (sumZ fr_amount_base_units rows <= total_inflow (delete (fr_tx_hash r) chain)) by lia.
    apply IH; [|done|].
    + intros h rec' Hh. apply lookup_delete_Some in Hh as [_ Hh]. by apply (Hok h).
    + intros q Hq. destruct (Hr q ltac:(by right)) as (rec' & Hc' & ?). exists rec'.
      split; [|done]. rewrite lookup_delete_ne; [done|]. intros E. apply Hnew. rewrite E. by apply elem_of_map; exists q.
Qed.

(** What the funding table keeps. *)
Record funding_ok (chain : gmap string RpcReceipt) (d : FundDB) : Prop := {
  fo_unique : NoDup (map fr_tx_hash (fu_funding d));
  fo_rows : forall r, r ∈ fu_funding d ->
    0 < fr_amount_base_units r /\ fr_to_address r = hotLower /\ fr_from_address r <> hotLower
    /\ (manual r = true \/ rpc_confirmed r = true
          /\ exists rec, chain !! fr_tx_hash r = Some rec /\ fr_amount_base_units r <= inflow rec);
}.

Lemma funding_ok_record chain e key body d :
  logs_ok chain -> honest_step chain (RecordFunding e key body) -> funding_ok chain d ->
  funding_ok chain (ServeRecordFunding s e key body d).1.
Proof.
  intros Hok Hh Hd. destruct (record_inv e key body d) as [(reply & -> & _)|(req & -> & Ha & ->)]; [done|].
  destruct Hd as [H1 H2], Ha as [Hpos Hfrom Hnew Hsrc]. destruct d. cbn in *. split; cbn.
  - rewrite map_app. cbn. apply NoDup_app. split_and!; [done| |apply NoDup_singleton].
    intros h (r & Hr & ->)%elem_of_map Hin. apply list_elem_of_singleton in Hin.
    rewrite Forall_forall in Hnew. by apply (Hnew r Hr).
  - intros r [Hr|Hr]%elem_of_app; [by apply H2|]. apply list_elem_of_singleton in Hr as ->. cbn.
    split_and!; try done. destruct Hsrc as [(Es & _)|(Es & recA & recB & Hrec & HA & _)].
    + left. unfold manual. cbn. by rewrite Es.
    + right. unfold rpc_confirmed. cbn. rewrite Es. split; [done|]. exists recA.
      assert (chain !! GoStr.ToLower (fq_TxHash req) = Some recA) as Hc by (apply Hh; by rewrite Hrec).
      split; [done|]. eapply verified_inflow; [done..|]. by apply (Hok _ _ Hc).
Qed.

(** The other steps leave the table alone. *)
Lemma step_keeps_funding st d :
  (forall e key body, st <> RecordFunding e key body) -> fu_funding (fund_step st d) = fu_funding d.
Proof.
  intros Hne. destruct st as [|e key body|e body|p|l]; cbn [fund_step]; [..|by destruct d].
  - unfold InitRunnerStateRow. by destruct d as [[]].
  - by destruct (Hne e key body).
  - unfold ServeRecordOrphan, serveResolve, serveRecord. destruct body as [req|]; [|done].
    repeat case_match; try done; by destruct d.
  - assert (forall before after d, fu_funding (fire_flip before after d) = fu_funding d) as Hflip.
    { intros before after [st ? ? ? ? ? ? ?]. unfold fire_flip. cbn. repeat case_match; done. }
    destruct p; cbn [pipeline]; try (rewrite Hflip; by destruct d).
    destruct (insert_row _ _); [|done..]. unfold fire_insert. destruct d as [st ? ? ? ? ? ? ?]. cbn.
    repeat case_match; done.
Qed.

Lemma funding_ok_from chain steps : forall d,
  logs_ok chain -> Forall (honest_step chain) steps -> funding_ok chain d -> funding_ok chain (fund_from d steps).
Proof.
  induction steps as [|st steps IH]; intros d Hok Hh Hd; [done|]. apply Forall_cons in Hh as [Hst Hh].
  apply IH; try done. destruct st as [|e key body|e body|p|l].
  2:{ by apply funding_ok_record. }
  all: destruct Hd as [H1 H2]; split; rewrite step_keeps_funding; done.
Qed.

(** Claim C14. Whatever requests were made and answered, in any order with payouts and orphan records:
    the hot wallet received at least the recorded funding that nodes confirmed, on a chain whose
    receipts the primary node shows. A transaction counts once. *)
Theorem recorded_funding_arrived chain steps :
  logs_ok chain -> Forall (honest_step chain) steps ->
  sum_if rpc_confirmed fr_amount_base_units (fu_funding (fund_run steps)) <= total_inflow chain.
Proof.
  intros Hok Hh. assert (funding_ok chain (fund_run steps)) as [Hnd Hr].
  { apply funding_ok_from; [done..|]. split; cbn; [apply NoDup_nil_2|by intros r ?%elem_of_nil]. }
  rewrite sum_if_filter. apply rows_within_chain; [done| |].
  - clear Hr. induction (fu_funding _) as [|r l IH]; cbn; [done|]. cbn in Hnd. apply NoDup_cons in Hnd as [Hn Hnd].
    destruct (rpc_confirmed r); [|by apply IH]. cbn. apply NoDup_cons. split; [|by apply IH].
    intros (q & Hq & E)%elem_of_map. apply elem_of_List_filter in Hq as [Hq _]. apply Hn. rewrite E.
    by apply elem_of_map; exists q.
  - intros r [Hin Hp]%elem_of_List_filter. destruct (Hr r Hin) as (_ & _ & _ & [Hm|[_ ?]]); [|done].
    unfold manual, rpc_confirmed in *. bool_hyps. congruence.
Qed.

(** ** Funding by hand ends with the first payout *)

Definition bootstrapped (d : FundDB) : bool :=
  match fu_state d with Some st => payout_bootstrap_complete st | None => false end.

(** The process was started, the triggers are there, and a confirmed attempt is known. *)
Record boot_ok (d : FundDB) : Prop := {
  bo_state : is_Some (fu_state d);
  bo_triggers : fu_triggers d = bootstrap_triggers;
  bo_confirmed : existsb confirmed (fu_attempts d) = true -> bootstrapped d = true;
}.

Lemma updated_rows_map st rows : exists f, updated_rows st rows = map f rows.
Proof.
  destruct st as [r|p seq raw hash now|p seq now|p seq block gas now|p seq reason now|p seq hash now|p seq started];
    cbn [updated_rows].
  - exists id. by rewrite map_id.
  - unfold CASPersistSignedTx. destruct (existsb _ _); [by eexists|].
    exists id. rewrite map_id. by destruct (find _ _) as [r|]; [destruct (_ || _); [|destruct (is_some _)]|].
  - by eexists.
  - by eexists.
  - by eexists.
  - by eexists.
  - by eexists.
Qed.

Lemma combine_map {A B} (f : A -> B) l : combine l (map f l) = map (fun x => (x, f x)) l.
Proof. induction l as [|x l IH]; cbn; [done|]. by rewrite IH. Qed.

(** A confirmation the update made is found by the trigger. *)
Lemma newly_confirmed f rows :
  existsb confirmed (map f rows) = true -> existsb confirmed rows = false ->
  exists a b l, List.filter (fun '(a, b) => negb (confirmed a) && confirmed b) (combine rows (map f rows)) = (a, b) :: l.
Proof.
  intros (b & (a & Ha & ->)%elem_of_map & Hb)%existsb_elem Hno. rewrite combine_map.
  assert ((a, f a) ∈ List.filter (fun '(a, b) => negb (confirmed a) && confirmed b) (map (fun x => (x, f x)) rows)) as Hin.
  { apply elem_of_List_filter. split; [apply elem_of_map; by exists a|]. rewrite Hb, andb_true_r.
    apply negb_true_iff, not_true_iff_false. intros Hc. apply not_true_iff_false in Hno. apply Hno.
    apply existsb_elem. by exists a. }
  destruct (List.filter _ _) as [|[x y] l]; [by apply elem_of_nil in Hin|]. by eexists _, _, _.
Qed.

Lemma boot_ok_flip f d :
  boot_ok d -> boot_ok (fire_flip (fu_attempts d) (map f (fu_attempts d)) (d <| fu_attempts := map f (fu_attempts d) |>))
  /\ (bootstrapped d = true -> bootstrapped (fire_flip (fu_attempts d) (map f (fu_attempts d))
                                 (d <| fu_attempts := map f (fu_attempts d) |>)) = true).
Proof.
  intros [[st Hst] Htr Hc]. unfold bootstrapped in *. destruct d as [state trig pay att fund nf orp no].
  cbn in Hst, Htr, Hc. subst state trig. unfold fire_flip. cbn [fu_attempts fu_state fu_triggers].
  destruct (List.filter _ _) as [|[a b] l] eqn:E.
  - split; [|done]. split; cbn; try done. intros Hm. destruct (existsb confirmed att) eqn:Ha; [by apply Hc|].
    destruct (newly_confirmed f att Hm Ha) as (x & y & l' & E'). congruence.
  - cbn. destruct (payout_bootstrap_complete st) eqn:Ep; cbn.
    + by split; [split|].
    + split; [split|done]; cbn; done.
Qed.

Lemma boot_ok_step st d :
  boot_ok d -> boot_ok (fund_step st d) /\ (bootstrapped d = true -> bootstrapped (fund_step st d) = true).
Proof.
  intros Hd. destruct st as [|e key body|e body|p|l]; cbn [fund_step].
  - unfold InitRunnerStateRow. destruct (bo_state _ Hd) as [st ->]. done.
  - destruct (record_inv e key body d) as [(reply & -> & _)|(req & _ & _ & ->)]; [done|].
    destruct d, Hd. by split; [split|].
  - unfold ServeRecordOrphan, serveResolve, serveRecord. destruct body as [req|]; [|done].
    repeat case_match; try done; destruct d, Hd; by split; [split|].
  - destruct (updated_rows_map p (fu_attempts d)) as [f Hf].
    destruct p as [r| | | | | |]; cbn [pipeline]; try (rewrite Hf; by apply boot_ok_flip).
    destruct (insert_row r (fu_attempts d)) as [rows| |] eqn:Hi; [|done..].
    assert (rows = fu_attempts d ++ [r]) as -> by (unfold insert_row in Hi; split_ifs; congruence).
    destruct Hd as [[st Hst] Htr Hc]. unfold bootstrapped in *. destruct d as [state trig pay att fund nf orp no].
    cbn in Hst, Htr, Hc |- *. subst state trig. unfold fire_insert, bootstrapped. cbn.
    destruct (payout_bootstrap_complete st) eqn:Ep, (confirmed r) eqn:Er; cbn;
      (split; [split; cbn|]; rewrite ?Ep; try done).
    rewrite andb_false_r. unfold bootstrapped. cbn. by rewrite existsb_snoc, Er, orb_false_r, Ep.
  - destruct d, Hd. by split; [split|].
Qed.

Lemma boot_ok_from steps : forall d,
  boot_ok d -> boot_ok (fund_from d steps) /\ (bootstrapped d = true -> bootstrapped (fund_from d steps) = true).
Proof.
  induction steps as [|st steps IH]; intros d Hd; [done|]. destruct (boot_ok_step st d Hd) as [Hs Hm].
  destruct (IH _ Hs) as [H1 H2]. split; [done|]. intros Hb. apply H2, Hm, Hb.
Qed.

Lemma manual_refused e key body d :
  bootstrapped d = true \/ existsb confirmed (fu_attempts d) = true ->
  List.filter manual (fu_funding (ServeRecordFunding s e key body d).1) = List.filter manual (fu_funding d)
  /\ (ServeRecordFunding s e key body d).2 <> FundingCreated "manual".
Proof.
  intros Hb. destruct (record_inv e key body d) as [(reply & -> & Hr)|(req & _ & Ha & ->)]; [by split|].
  destruct (ac_source _ _ _ Ha) as [(_ & _ & st & Hst & Hp & Hc)|(Es & _)].
  - unfold bootstrapped in Hb. rewrite Hst in Hb. destruct Hb; congruence.
  - destruct d. cbn. rewrite List.filter_app. cbn. unfold manual at 2. cbn. rewrite Es. cbn. by rewrite app_nil_r.
Qed.

(** Once an attempt has been confirmed, in a database whose process was started and whose
    triggers stay, no later request records funding by hand: also when a reorganisation takes
    the confirmation back. *)
Theorem manual_funding_ends steps1 steps2 :
  existsb confirmed (fu_attempts (fund_run (Start :: steps1))) = true ->
  List.filter manual (fu_funding (fund_run (Start :: steps1 ++ steps2)))
  = List.filter manual (fu_funding (fund_run (Start :: steps1)))
  /\ forall e key body, (ServeRecordFunding s e key body (fund_run (Start :: steps1 ++ steps2))).2 <> FundingCreated "manual".
Proof.
  unfold fund_run. cbn [fund_from fold_left fund_step]. intros Hc.
  set (d0 := InitRunnerStateRow migrated) in *.
  assert (boot_ok d0) as H0 by (split; try done; by eexists).
  rewrite fold_left_app. fold (fund_from d0 steps1) in *. set (d1 := fund_from d0 steps1) in *.
  destruct (boot_ok_from steps1 d0 H0) as [H1 _]. fold d1 in H1. fold (fund_from d1 steps2).
  assert (bootstrapped d1 = true) as Hb by by apply bo_confirmed.
  clear Hc. clearbody d1. clear d0 H0. revert d1 H1 Hb.
  induction steps2 as [|st steps IH]; intros d Hd Hb; cbn [fund_from fold_left].
  - split; [done|]. intros e key body. apply manual_refused. by left.
  - destruct (boot_ok_step st d Hd) as [Hs Hm]. specialize (Hm Hb). destruct (IH _ Hs Hm) as [E1 E2].
    split; [|exact E2]. unfold fund_from in E1. rewrite E1. destruct st as [|e key body|e body|p|l].
    2:{ cbn [fund_step]. apply manual_refused. by left. }
    all: by rewrite step_keeps_funding.
Qed.

(** ** The worker *)

(** The runner is halted exactly when both balances decode and agree within the tolerance and
    the wallet lacks more than the tolerance of what the tables say. *)
Lemma runOnce_exact cfg resA resB fault d :
  0 <= ToleranceUSDC cfg ->
  (runOnce cfg resA resB fault d).2 = true <->
  exists a b balA balB expected, resA = inr a /\ resB = inr b
    /\ parseBalanceResult a = Some balA /\ parseBalanceResult b = Some balB
    /\ Z.abs (balA - balB) <= ToleranceUSDC cfg /\ computeExpectedBalance fault cfg d = Some expected
    /\ balA + ToleranceUSDC cfg < expected.
Proof.
  intros Ht. unfold runOnce. split.
  - destruct resA as [|a], resB as [|b]; try done. destruct (parseBalanceResult a) as [balA|] eqn:EA; [|done].
    destruct (parseBalanceResult b) as [balB|] eqn:EB; [|done]. destruct (Z.ltb_spec (ToleranceUSDC cfg) (Z.abs (balA - balB))); [done|].
    destruct (computeExpectedBalance fault cfg d) as [expected|]; [|done]. intros Hh. split_ifs; try done.
    exists a, b, balA, balB, expected. split_and!; try done; lia.
  - intros (a & b & balA & balB & expected & -> & -> & -> & -> & Hagree & -> & Hlow).
    replace (ToleranceUSDC cfg <? Z.abs (balA - balB)) with false by lia.
    replace (_ || _) with false by lia. by replace (0 <? _) with false by lia.
Qed.

Lemma total_funded_rows chain d :
  funding_ok chain d -> total_funded hotLower d = sumZ fr_amount_base_units (fu_funding d).
Proof.
  intros [_ Hr]. unfold total_funded. rewrite sum_if_filter. f_equal. revert Hr.
  induction (fu_funding d) as [|r l IH]; intros Hr; cbn; [done|].
  destruct (Hr r ltac:(by left)) as (_ & E & _). unfold funded_to. rewrite E, lower_hot, String.eqb_refl. f_equal.
  apply IH. intros q Hq. apply Hr. by right.
Qed.

Lemma funding_ok_run chain steps :
  logs_ok chain -> Forall (honest_step chain) steps -> funding_ok chain (fund_run steps).
Proof.
  intros Hok Hh. apply funding_ok_from; [done..|].
  split; cbn; [apply NoDup_nil_2|by intros r ?%elem_of_nil].
Qed.

Lemma expected_inv fault cfg d expected :
  computeExpectedBalance fault cfg d = Some expected ->
  expected = total_funded (GoStr.ToLower (HotWalletAddr cfg)) d - total_paid (GoStr.ToLower (HotWalletAddr cfg)) d.
Proof.
  unfold computeExpectedBalance, GoStr.int_range_checked. case_bool_decide; [done|]. cbn.
  intros Hx. repeat case_match; cbn in *; simplify_eq; lia.
Qed.

Lemma expected_some cfg d :
  Int64.in_range (total_funded (GoStr.ToLower (HotWalletAddr cfg)) d) ->
  Int64.in_range (total_paid (GoStr.ToLower (HotWalletAddr cfg)) d) ->
  computeExpectedBalance None cfg d
  = Some (total_funded (GoStr.ToLower (HotWalletAddr cfg)) d - total_paid (GoStr.ToLower (HotWalletAddr cfg)) d).
Proof.
  intros H1 H2. unfold computeExpectedBalance, GoStr.int_range_checked. i64.
  rewrite bool_decide_eq_false_2 by (intros [? ?]; done). repeat case_match; cbn; try done; lia.
Qed.

(** What the worker makes of the books, against a chain that [arrived] and from which [left]
    left. When all funding was confirmed by nodes and at most the tolerance left beyond the
    payouts the tables know, it does not halt the runner. When more is recorded than arrived,
    by more than the tolerance, and the payouts of the tables did leave, it does. *)
Theorem worker_finds_made_up_funding chain steps cfg resA resB fault a b left :
  logs_ok chain -> Forall (honest_step chain) steps ->
  HotWalletAddr cfg = hotWalletAddress s -> 0 <= ToleranceUSDC cfg ->
  let d := fund_run steps in
  let arrived := total_inflow chain in
  resA = inr a -> parseBalanceResult a = Some (arrived - left) ->
  (List.filter manual (fu_funding d) = [] -> left <= total_paid hotLower d + ToleranceUSDC cfg ->
     (runOnce cfg resA resB fault d).2 = false)
  /\ (fault = None -> resB = inr b -> parseBalanceResult b = Some (arrived - left) ->
      total_paid hotLower d <= left -> arrived + ToleranceUSDC cfg < total_funded hotLower d <= Int64.max ->
      0 <= total_paid hotLower d -> left <= Int64.max ->
      (runOnce cfg resA resB fault d).2 = true).
Proof.
  intros Hok Hh Hhot Ht d arrived -> HA. pose proof (funding_ok_run chain steps Hok Hh) as Hf. fold d in Hf.
  assert (GoStr.ToLower (HotWalletAddr cfg) = hotLower) as Ehot by by rewrite Hhot. split.
  - intros Hman Hleft. apply not_true_iff_false. rewrite runOnce_exact by done.
    intros (a' & b' & balA & balB & expected & [= <-] & _ & E1 & _ & _ & Hexp & Hlow).
    rewrite HA in E1. injection E1 as <-. apply expected_inv in Hexp. rewrite Ehot in Hexp.
    assert (total_funded hotLower d <= arrived); [|lia].
    rewrite (total_funded_rows chain) by done. apply rows_within_chain; [done|apply Hf|].
    intros r Hr. destruct (fo_rows _ _ Hf r Hr) as (_ & _ & _ & [Hm|[_ ?]]); [|done].
    assert (r ∈ List.filter manual (fu_funding d)) as Hin by by apply elem_of_List_filter.
    rewrite Hman in Hin. by apply elem_of_nil in Hin.
  - intros -> -> HB Hpaid Hfund Hpos Hmax. apply runOnce_exact; [done|].
    exists a, b, (arrived - left), (arrived - left), (total_funded hotLower d - total_paid hotLower d).
    split_and!; try done; try lia.
    + rewrite <- Ehot. apply expected_some; rewrite Ehot; i64; [|lia].
      assert (0 <= total_funded hotLower d); [|lia]. rewrite (total_funded_rows chain) by done.
      apply sumZ_nonneg. intros r Hr. destruct (fo_rows _ _ Hf r Hr). lia.
Qed.

(** ** Orphans *)

(** The columns that are written once. *)
Definition snapshot (o : OrphanRow) :=
  (or_id o, or_payout_id o, or_attempt_seq o, or_orphan_tx_hash o, or_last_seen_block o, or_observed_at_utc o,
   or_rpc_source o, (or_observed_provider_id o, or_observed_provider_credits o, or_observed_gross_credits o,
   or_observed_amount_base_units o)).

(** A later state of an orphan. *)
Definition kept (o o' : OrphanRow) : Prop := snapshot o' = snapshot o /\ (resolved o = true -> o' = o).

(** The snapshot is that of the attempt and the payout, in the tables as they are. *)
Definition describes (d : FundDB) (o : OrphanRow) : Prop :=
  (exists pa, pa ∈ fu_attempts d /\ PayoutID pa = or_payout_id o /\ AttemptSeq pa = or_attempt_seq o
     /\ AmountBaseUnits pa = or_observed_amount_base_units o)
  /\ exists l, l ∈ fu_payouts d /\ lpr_id l = or_payout_id o /\ lpr_provider_id l = or_observed_provider_id o
     /\ lpr_provider_credits l = or_observed_provider_credits o /\ lpr_gross_credits l = or_observed_gross_credits o.

Definition orphan_key (o : OrphanRow) := (or_payout_id o, or_attempt_seq o, or_orphan_tx_hash o).

Record orphans_ok (d : FundDB) : Prop := {
  oo_described : Forall (describes d) (fu_orphans d);
  (** the index on unresolved rows *)
  oo_unique : NoDup (map orphan_key (List.filter (fun o => negb (resolved o)) (fu_orphans d)));
  oo_ids : forall i o, fu_orphans d !! i = Some o -> or_id o = 1 + Z.of_nat i;
  oo_next : fu_next_orphan d = 1 + Z.of_nat (length (fu_orphans d));
}.

Lemma updated_rows_core st rows :
  exists f, updated_rows st rows = map f rows
    /\ forall r, PayoutID (f r) = PayoutID r /\ AttemptSeq (f r) = AttemptSeq r /\ AmountBaseUnits (f r) = AmountBaseUnits r.
Proof.
  assert (forall (p : AttemptRow -> bool) g, (forall r, PayoutID (g r) = PayoutID r /\ AttemptSeq (g r) = AttemptSeq r
            /\ AmountBaseUnits (g r) = AmountBaseUnits r) ->
          exists f, update_where p g rows = map f rows /\ forall r, PayoutID (f r) = PayoutID r
            /\ AttemptSeq (f r) = AttemptSeq r /\ AmountBaseUnits (f r) = AmountBaseUnits r) as Hup.
  { intros p g Hg. eexists. split; [reflexivity|]. intros r. cbn. destruct (p r); [apply Hg|done]. }
  assert (exists f, rows = map f rows /\ forall r, PayoutID (f r) = PayoutID r
            /\ AttemptSeq (f r) = AttemptSeq r /\ AmountBaseUnits (f r) = AmountBaseUnits r) as Hid
    by (exists id; by rewrite map_id).
  destruct st as [r|p seq raw hash now|p seq now|p seq block gas now|p seq reason now|p seq hash now|p seq started];
    cbn [updated_rows]; [done| |apply Hup; by intros []..].
  unfold CASPersistSignedTx. destruct (existsb _ _); [apply Hup; by intros []|].
  by destruct (find _ _) as [r|]; [destruct (_ || _); [|destruct (is_some _)]|].
Qed.

(** What a step does to the attempts and payouts an orphan may describe. *)
Lemma step_keeps_described st d o : describes d o -> describes (fund_step st d) o.
Proof.
  assert (forall d', (forall pa, pa ∈ fu_attempts d -> exists pa', pa' ∈ fu_attempts d' /\ PayoutID pa' = PayoutID pa
                        /\ AttemptSeq pa' = AttemptSeq pa /\ AmountBaseUnits pa' = AmountBaseUnits pa) ->
                     (forall l, l ∈ fu_payouts d -> l ∈ fu_payouts d') -> describes d o -> describes d' o) as Hgen.
  { intros d' Ha Hp ((pa & Hin & E1 & E2 & E3) & l & Hl & E). destruct (Ha pa Hin) as (pa' & Hin' & F1 & F2 & F3).
    split; [exists pa'; split_and!; [done|congruence..]|exists l; split; [by apply Hp|done]]. }
  assert (forall d', fu_attempts d' = fu_attempts d -> fu_payouts d' = fu_payouts d -> describes d o -> describes d' o) as Hsame.
  { intros d' E1 E2. apply Hgen; rewrite ?E1, ?E2; [|done]. intros pa Hpa. by exists pa. }
  destruct st as [|e key body|e body|p|l]; cbn [fund_step].
  - apply Hsame; unfold InitRunnerStateRow; by destruct d as [[]].
  - destruct (record_inv e key body d) as [(reply & -> & _)|(req & _ & _ & ->)]; [done|]. by apply Hsame; destruct d.
  - apply Hsame; unfold ServeRecordOrphan, serveResolve, serveRecord; destruct body as [req|]; try done;
      repeat case_match; try done; by destruct d.
  - destruct (updated_rows_core p (fu_attempts d)) as (f & Hf & Hcore).
    assert (forall before after x, fu_attempts (fire_flip before after x) = fu_attempts x
              /\ fu_payouts (fire_flip before after x) = fu_payouts x) as Hflip.
    { intros before after [st ? ? ? ? ? ? ?]. unfold fire_flip. cbn. repeat case_match; done. }
    assert (forall r x, fu_attempts (fire_insert r x) = fu_attempts x /\ fu_payouts (fire_insert r x) = fu_payouts x) as Hins.
    { intros r [st ? ? ? ? ? ? ?]. unfold fire_insert. cbn. repeat case_match; done. }
    destruct p as [r| | | | | |]; cbn [pipeline].
    2-7: apply Hgen; [|rewrite (proj2 (Hflip _ _ _)); by destruct d]; intros pa Hpa; exists (f pa);
         rewrite (proj1 (Hflip _ _ _)), Hf; (split; [|apply Hcore]); destruct d; cbn in *; apply elem_of_map; by exists pa.
    destruct (insert_row r (fu_attempts d)) as [rows| |] eqn:Hi; [|done..].
    assert (rows = fu_attempts d ++ [r]) as -> by (unfold insert_row in Hi; split_ifs; congruence).
    apply Hgen; [|rewrite (proj2 (Hins _ _)); by destruct d]. intros pa Hpa. exists pa. rewrite (proj1 (Hins _ _)).
    split; [|done]. destruct d. cbn in *. apply elem_of_app. by left.
  - apply Hgen; destruct d; cbn; [intros pa ?; by exists pa|]. intros l' ?. apply elem_of_app. by left.
Qed.

Definition resolve_with (resolution stamp : string) (o : OrphanRow) : OrphanRow :=
  o <| or_operator_resolution := Some resolution |> <| or_resolved_at_utc := Some stamp |>.

(** What a request does to the orphans: nothing, it resolves one, or adds one. *)
Inductive orphan_change (d : FundDB) : list OrphanRow -> Z -> Prop :=
| orphans_same : orphan_change d (fu_orphans d) (fu_next_orphan d)
| orphan_resolved id resolution stamp :
    orphan_change d (update_where (unresolved_id id) (resolve_with resolution stamp) (fu_orphans d)) (fu_next_orphan d)
| orphan_added o :
    describes d o -> resolved o = false -> or_id o = fu_next_orphan d ->
    (forall q, q ∈ fu_orphans d -> resolved q = false -> orphan_key q <> orphan_key o) ->
    orphan_change d (fu_orphans d ++ [o]) (fu_next_orphan d + 1).

Lemma step_changes_orphans st d : orphan_change d (fu_orphans (fund_step st d)) (fu_next_orphan (fund_step st d)).
Proof.
  assert (forall d', fu_orphans d' = fu_orphans d -> fu_next_orphan d' = fu_next_orphan d ->
            orphan_change d (fu_orphans d') (fu_next_orphan d')) as Hsame by (intros d' -> ->; apply orphans_same).
  destruct st as [|e key body|e body|p|l]; cbn [fund_step].
  - apply Hsame; unfold InitRunnerStateRow; by destruct d as [[]].
  - destruct (record_inv e key body d) as [(reply & -> & _)|(req & _ & _ & ->)]; by apply Hsame; destruct d.
  - unfold ServeRecordOrphan. destruct body as [req|]; [|apply orphans_same].
    destruct (blank (oq_Reason req)); [apply orphans_same|].
    destruct (0 <? oq_OrphanID req); [unfold serveResolve|unfold serveRecord].
    + repeat (case_match; [apply orphans_same|]). destruct d. cbn.
      apply (orphan_resolved (mkFundDB _ _ _ _ _ _ _ _)).
    + do 2 (case_match; [apply orphans_same|]).
      destruct (find (is_row _ _) _) as [pa|] eqn:Hpa; [|apply orphans_same].
      destruct (find _ (fu_payouts d)) as [lpr|] eqn:Hl; [|apply orphans_same].
      case_match; [apply orphans_same|]. destruct (existsb _ _) eqn:Hx; [apply orphans_same|].
      case_match; [apply orphans_same|]. destruct d as [st tr pay att fund nf orp no]. cbn in *.
      apply find_Some_elem in Hpa as [Hpa Hrow]. apply find_Some_elem in Hl as [Hl Hid]. unfold is_row in Hrow. bool_hyps.
      apply (orphan_added (mkFundDB _ _ _ _ _ _ _ _)); cbn; try done.
      * split; cbn; [exists pa|exists lpr]; split_and!; try done; lia.
      * intros q Hq Hr E. apply not_true_iff_false in Hx. apply Hx, existsb_elem. exists q. split; [done|].
        unfold orphan_key in E. cbn in E. injection E as E1 E2 E3. unfold same_orphan.
        rewrite E1, E2, E3, !Z.eqb_refl, String.eqb_refl, Hr. done.
  - assert (forall before after x, fu_orphans (fire_flip before after x) = fu_orphans x
              /\ fu_next_orphan (fire_flip before after x) = fu_next_orphan x) as Hflip.
    { intros before after [st ? ? ? ? ? ? ?]. unfold fire_flip. cbn. repeat case_match; done. }
    apply Hsame; destruct p; cbn [pipeline]; rewrite ?(proj1 (Hflip _ _ _)), ?(proj2 (Hflip _ _ _)); try by destruct d.
    all: destruct (insert_row _ _); [|done..]; unfold fire_insert; destruct d as [st ? ? ? ? ? ? ?]; cbn;
      repeat case_match; done.
  - by apply Hsame; destruct d.
Qed.

Lemma change_keeps d l n :
  orphan_change d l n -> exists old new, l = old ++ new /\ Forall2 kept (fu_orphans d) old.
Proof.
  intros [|id resolution stamp|o _ _ _ _].
  - exists (fu_orphans d), []. rewrite app_nil_r. split; [done|]. by apply Forall2_refl_on.
  - eexists _, []. rewrite app_nil_r. split; [reflexivity|]. unfold update_where.
    induction (fu_orphans d) as [|o l' IH]; cbn; constructor; [|done].
    unfold unresolved_id. destruct (or_id o =? id), (resolved o) eqn:Hr; cbn; try done.
    split; [by destruct o|congruence].
  - exists (fu_orphans d), [o]. split; [done|]. by apply Forall2_refl_on.
Qed.

Lemma kept_trans o1 o2 o3 : kept o1 o2 -> kept o2 o3 -> kept o1 o3.
Proof.
  intros [H1 H2] [H3 H4]. split; [congruence|]. intros Hr. specialize (H2 Hr). subst. by apply H4.
Qed.

Lemma run_keeps steps : forall d,
  exists old new, fu_orphans (fund_from d steps) = old ++ new /\ Forall2 kept (fu_orphans d) old.
Proof.
  induction steps as [|st steps IH]; intros d.
  - exists (fu_orphans d), []. cbn. rewrite app_nil_r. split; [done|]. by apply Forall2_refl_on.
  - destruct (change_keeps _ _ _ (step_changes_orphans st d)) as (old1 & new1 & E1 & H1).
    destruct (IH (fund_step st d)) as (old2 & new2 & E2 & H2). cbn [fund_from fold_left]. rewrite E1 in H2.
    apply Forall2_app_inv_l in H2 as (olda & oldb & Ha & Hb & ->).
    exists olda, (oldb ++ new2). unfold fund_from in E2. rewrite E2, app_assoc. split; [done|].
    clear - H1 Ha. revert olda Ha. induction H1 as [|x y l l' Hxy _ IH]; intros olda Ha; inversion Ha; subst; constructor.
    + by eapply kept_trans.
    + by apply IH.
Qed.

Lemma resolve_filter id resolution stamp l :
  List.filter (fun o => negb (resolved o)) (update_where (unresolved_id id) (resolve_with resolution stamp) l)
  = List.filter (fun o => negb (unresolved_id id o) && negb (resolved o)) l.
Proof.
  unfold update_where. induction l as [|o l IH]; [done|]. cbn [map List.filter].
  destruct (unresolved_id id o) eqn:E; cbn [negb andb].
  - by destruct o.
  - destruct (resolved o); cbn [negb]; by rewrite IH.
Qed.

Lemma NoDup_map_filter {A B} (f : A -> B) (p q : A -> bool) l :
  (forall x, p x = true -> q x = true) -> NoDup (map f (List.filter q l)) -> NoDup (map f (List.filter p l)).
Proof.
  intros Hpq. induction l as [|x l IH]; cbn; [done|]. intros H. destruct (q x) eqn:Hq; cbn in *.
  - apply NoDup_cons in H as [Hx H]. destruct (p x); [|by apply IH]. cbn. apply NoDup_cons. split; [|by apply IH].
    intros (y & Hy & E)%elem_of_map. apply Hx, elem_of_map. exists y. split; [|done].
    apply elem_of_List_filter in Hy as [Hy Hp]. apply elem_of_List_filter. by auto.
  - destruct (p x) eqn:Hp; [apply Hpq in Hp; congruence|by apply IH].
Qed.

Lemma orphans_ok_step st d : orphans_ok d -> orphans_ok (fund_step st d).
Proof.
  intros Hd. pose proof (step_changes_orphans st d) as Hc.
  assert (Forall (describes (fund_step st d)) (fu_orphans d)) as Hdesc.
  { eapply Forall_impl; [apply Hd|]. intros o. apply step_keeps_described. }
  inversion Hc as [E1 E2|id resolution stamp E1 E2|o Ho Hr Hid Hnew E1 E2]; split; rewrite <- ?E1, <- ?E2; try by apply Hd.
  - done.
  - unfold update_where. apply Forall_map. eapply Forall_impl; [exact Hdesc|]. intros o Ho. cbn.
    destruct (unresolved_id id o); [|done]. by destruct o.
  - rewrite resolve_filter. eapply NoDup_map_filter, (oo_unique _ Hd). intros o [_ H]%andb_true_iff. done.
  - intros i o Ho. unfold update_where in Ho.
    change (map (fun r => if unresolved_id id r then resolve_with resolution stamp r else r) (fu_orphans d))
      with ((fun r => if unresolved_id id r then resolve_with resolution stamp r else r) <$> fu_orphans d) in Ho.
    rewrite list_lookup_fmap in Ho. destruct (fu_orphans d !! i) as [o'|] eqn:Ei; [|done]. injection Ho as <-.
    rewrite <- (oo_ids _ Hd i o' Ei). destruct (unresolved_id id o'); [by destruct o'|done].
  - unfold update_where. rewrite length_map. apply Hd.
  - apply Forall_app. split; [done|]. apply Forall_singleton. by apply step_keeps_described.
  - rewrite List.filter_app, map_app. cbn. rewrite Hr. cbn. apply NoDup_app. split_and!; [apply Hd| |apply NoDup_singleton].
    intros k (q & Hq & ->)%elem_of_map Hin. apply list_elem_of_singleton in Hin.
    apply elem_of_List_filter in Hq as [Hq Hqr]. apply negb_true_iff in Hqr. by apply (Hnew q Hq Hqr).
  - intros i q [Hq|[Hi Hq]]%lookup_app_Some; [by apply (oo_ids _ Hd)|].
    apply list_lookup_singleton_Some in Hq as [Hq <-]. rewrite Hid, (oo_next _ Hd). lia.
  - rewrite length_app. cbn. pose proof (oo_next _ Hd). lia.
Qed.

Lemma orphans_ok_run steps : orphans_ok (fund_run steps).
Proof.
  unfold fund_run. assert (orphans_ok migrated) as H0 by (split; cbn; try done; apply NoDup_nil_2).
  revert H0. generalize migrated. induction steps as [|st steps IH]; intros d Hd; [done|].
  cbn. apply IH. by apply orphans_ok_step.
Qed.

(** An orphan is recorded once while it is unresolved, with the amounts of an attempt and a
    payout that stay in the tables; its snapshot never changes, and neither does a row once it
    is resolved. Rows are numbered and never removed. *)
Theorem orphans_are_kept steps1 steps2 :
  let d1 := fund_run steps1 in
  let d2 := fund_run (steps1 ++ steps2) in
  orphans_ok d2 /\ exists old new, fu_orphans d2 = old ++ new /\ Forall2 kept (fu_orphans d1) old.
Proof.
  intros d1 d2. split; [apply orphans_ok_run|]. unfold d2, fund_run, fund_from. rewrite fold_left_app.
  apply run_keeps.
Qed.
End History.

(** ** The question to the nodes *)

Lemma hexDigit_char x : 0 <= x < 16 -> hexDigit (hex_char x) = x.
Proof.
  intros Hx. assert (In x (map Z.of_nat (seq 0 16))) as Hin.
  { apply in_map_iff. exists (Z.to_nat x). split; [lia|]. apply in_seq. lia. }
  cbn in Hin. by repeat destruct Hin as [<-|Hin].
Qed.

Lemma nibbles x : 0 <= x < 256 -> Z.lor (Z.shiftl (x / 16) 4) (x mod 16) = x.
Proof.
  intros Hx. assert (forallb (fun n => Z.lor (Z.shiftl (n / 16) 4) (n mod 16) =? n) (map Z.of_nat (seq 0 256)) = true) as H
    by by vm_compute.
  rewrite forallb_forall in H. apply Z.eqb_eq, H, in_map_iff. exists (Z.to_nat x). split; [lia|]. apply in_seq. lia.
Qed.

Lemma pair_digits_hex b : bytes_ok b -> pair_digits (hex_chars b) = b.
Proof.
  induction 1 as [|x b Hx _ IH]; [done|]. cbn [hex_chars flat_map app pair_digits]. fold (hex_chars b). rewrite IH.
  f_equal. unfold is_byte in Hx. rewrite !hexDigit_char by (Z.to_euclidean_division_equations; lia). by apply nibbles.
Qed.

Lemma hex_chars_length b : length (hex_chars b) = (2 * length b)%nat.
Proof. induction b as [|x b IH]; [done|]. cbn [hex_chars flat_map app length]. fold (hex_chars b). lia. Qed.

Lemma pair_digits_zeros k l : pair_digits (repeat "0"%char (2 * k) ++ l) = repeat_zero k ++ pair_digits l.
Proof.
  induction k as [|k IH]; [done|]. replace (2 * S k)%nat with (S (S (2 * k))) by lia. cbn [repeat app pair_digits].
  rewrite IH. done.
Qed.

(** The call asks the contract for the balance of the holder: the selector and the address as
    a word of 32 bytes, for an address in any case. *)
Theorem calldata_names_holder holder b :
  GoStr.ToLower holder = "0x" +:+ hex_text b -> bytes_ok b -> length b = 20%nat ->
  usdcBalanceCalldata holder = balanceOfSelector ++ repeat_zero 12 ++ b.
Proof.
  intros Hh Hok Hlen. unfold usdcBalanceCalldata. rewrite Hh. f_equal.
  replace (GoStr.TrimPrefix ("0x" +:+ hex_text b) "0x") with (hex_text b).
  - unfold hex_text. rewrite GoStr.chars_of_chars, hex_chars_length, Hlen.
    change (64 - 2 * 20)%nat with (2 * 12)%nat.
    rewrite firstn_all2 by (rewrite length_app, repeat_length, hex_chars_length, Hlen; lia).
    by rewrite pair_digits_zeros, pair_digits_hex.
  - unfold GoStr.TrimPrefix, GoStr.HasPrefix. rewrite GoStr.chars_app.
    change (GoStr.chars "0x" ++ GoStr.chars (hex_text b)) with ("0"%char :: "x"%char :: GoStr.chars (hex_text b)).
    unfold hex_text. rewrite GoStr.chars_of_chars. done.
Qed.

(** ** Executions *)

Module FundingExamples.
Import EvmExample.

Definition treasury : string := "0x00000000000000000000000000000000000000b2".
Definition service : FundingService := mkFundingService hot USDCContractAddressBase.
Definition t0 : Z := 1767225600 * second.

Definition topic (a : string) : string := match topic_of a with Done t => t | _ => "" end.
(** A deposit of 2 USDC. *)
Definition deposit : RpcReceipt :=
  mkRpcReceipt "0xd1" "0xb1" 77 1 usdcLower 60000
    [mkReceiptLog usdcLower [transferTopic; topic treasury; topic hot] (be_bytes 32 2000000)].
Definition chain : gmap string RpcReceipt := {["0xd1" := deposit]}.

(** Both nodes show the receipts of the chain. *)
Definition env : FundingEnv :=
  mkFundingEnv t0 true (fun h => (inr (chain !! h), inr (chain !! h))) None.

Definition by_nodes : recordFundingRequest :=
  mkFundingRequest treasury hot 2000000 "0xD1" 77 "rpc-confirmed" "first deposit".
Definition by_hand (hash : string) : recordFundingRequest :=
  mkFundingRequest treasury hot 5000000 hash 70 "manual" "".

Definition owed : PayoutRow :=
  mkPayoutRow 7 "mac-1" "2026-01-01" "2026-01-08" 7 3 1000000 900000 100000 1 None None ready "k" "2026-01-08".
Definition transfer : AttemptRow := fresh_attempt 7 1 hot payee 900000 0 (rfc3339NanoText t0).
Definition cancel : AttemptRow := cancel_attempt 7 1 hot 0 [2; 1] "0xcc" 21000 (rfc3339NanoText t0).

Definition request_deposit : FundStep := RecordFunding env "0xd1" (Some by_nodes).
Definition request_by_hand (hash : string) : FundStep := RecordFunding env hash (Some (by_hand hash)).

(** Funding by hand, a payout, funding by hand again, and by the nodes. *)
Definition history : list FundStep :=
  [Start; Settled owed; request_by_hand "0xaa"; Pipeline (PInsert transfer);
   Pipeline (PPersist 7 1 [2; 9] "0xe7" (rfc3339NanoText t0)); Pipeline (PStamp 7 1 (rfc3339NanoText t0));
   Pipeline (PConfirm 7 1 80 60000 (rfc3339NanoText t0)); request_by_hand "0xab"; request_deposit; request_deposit].

Example history_rows :
  map (fun r => (fr_source r, fr_tx_hash r, fr_amount_base_units r)) (fu_funding (fund_run service history))
  = [("manual", "0xaa", 5000000); ("rpc-confirmed", "0xd1", 2000000)].
Proof. vm_compute. reflexivity. Qed.

Example answers_after_payout :
  let d := fund_run service history in
  ((ServeRecordFunding service env "0xac" (Some (by_hand "0xac")) d).2,
   (ServeRecordFunding service env " 0xd1 " (Some by_nodes) d).2)
  = (AdminError 422 "bootstrap_complete", AdminError 409 "tx_hash_already_recorded").
Proof. vm_compute. reflexivity. Qed.

(** A node that shows another amount is refused. *)
Example wrong_amount_refused :
  (ServeRecordFunding service env "0xd1"
     (Some (mkFundingRequest treasury hot 2000001 "0xd1" 77 "rpc-confirmed" "")) migrated).2
  = AdminError 422 "receipt_mismatch".
Proof. vm_compute. reflexivity. Qed.

(** The check against confirmed attempts looks at the rows as they are: after the poller has
    taken the confirmation of the only confirmed attempt back, a flag that was reset in the
    database lets funding by hand in again. *)
Definition reopened : FundDB :=
  fund_run service
    [Start; Settled owed; Pipeline (PInsert cancel); Pipeline (PConfirm 7 1 80 21000 (rfc3339NanoText t0));
     Pipeline (PReopen 7 1 "0xcc" (rfc3339NanoText t0))].

Example reset_flag_after_reorg :
  (ServeRecordFunding service env "0xac" (Some (by_hand "0xac")) reopened).2 = AdminError 422 "bootstrap_complete"
  /\ (ServeRecordFunding service env "0xac" (Some (by_hand "0xac"))
        (reopened <| fu_state := Some (mkRunnerState false None) |>)).2 = FundingCreated "manual".
Proof. by vm_compute. Qed.

(** ** The worker at work *)

Definition cfg : ChainBalanceConfig := mkChainBalanceConfig (3600 * second) 100000 hot USDCContractAddressBase.
Definition answer (v : Z) : rpc bytes := inr (be_bytes 32 v).

(** A deposit and a transfer that is mined and does not have its confirmations yet: the wallet
    has less than the tables say, and the runner is halted. *)
Definition in_flight : FundDB :=
  fund_run service
    [Start; Settled owed; request_deposit; Pipeline (PInsert transfer);
     Pipeline (PPersist 7 1 [2; 9] "0xe7" (rfc3339NanoText t0)); Pipeline (PStamp 7 1 (rfc3339NanoText t0))].

Example mined_transfer_halts :
  runOnce cfg (answer 1100000) (answer 1100000) None in_flight = (DriftNegative 1100000 2000000, true)
  /\ runOnce cfg (answer 1100000) (answer 1100000) None
       (pipeline (PConfirm 7 1 80 60000 (rfc3339NanoText t0)) in_flight) = (ReconOk 1100000 1100000, false).
Proof. by vm_compute. Qed.

Example recorded_orphan :
  let d := fund_run service history in
  let req := mkOrphanRequest 0 7 1 " 0xE7 " 80 "primary" "" "reorg at 80" in
  let '(d1, r1) := ServeRecordOrphan env (Some req) d in
  let '(d2, r2) := ServeRecordOrphan env (Some req) d1 in
  let '(d3, r3) := ServeRecordOrphan env (Some (mkOrphanRequest 1 0 0 "" 0 "" "no compensation" "paid again")) d2 in
  map (fun o => (or_orphan_tx_hash o, or_observed_provider_credits o, or_observed_amount_base_units o, resolved o))
    (fu_orphans d3) = [("0xe7", 900000, 900000, true)]
  /\ r1 = OrphanCreated 1 false /\ r2 = AdminError 409 "orphan_already_recorded".
Proof. by vm_compute. Qed.

Lemma chain_ok : logs_ok chain.
Proof.
  apply map_Forall_singleton. apply Forall_singleton. apply be_bytes_ok.
Defined.

Lemma history_honest : Forall (honest_step chain) history.
Proof. repeat constructor; intros h r; cbn; congruence. Defined.

Lemma funding_arrived_witness :
  sum_if rpc_confirmed fr_amount_base_units (fu_funding (fund_run service history)) <= total_inflow service chain
  /\ sum_if rpc_confirmed fr_amount_base_units (fu_funding (fund_run service history)) = 2000000.
Proof.
  split; [exact (recorded_funding_arrived service chain history chain_ok history_honest)|vm_compute; reflexivity].
Defined.

Lemma manual_ends_witness :
  existsb confirmed (fu_attempts (fund_run service (firstn 7 history))) = true
  /\ length (List.filter manual (fu_funding (fund_run service history))) = 1%nat.
Proof.
  assert (existsb confirmed (fu_attempts (fund_run service (firstn 7 history))) = true) as H by (vm_compute; reflexivity).
  split; [exact H|].
  change history with (Start :: tail (firstn 7 history) ++ skipn 7 history).
  rewrite (proj1 (manual_funding_ends service (tail (firstn 7 history)) (skipn 7 history) H)). vm_compute. reflexivity.
Defined.

Lemma worker_witness :
  (runOnce cfg (answer 1100000) (answer 1100000) None (fund_run service history)).2 = true.
Proof.
  assert (total_inflow service chain = 2000000) as Hin by (vm_compute; reflexivity).
  apply (worker_finds_made_up_funding service chain history cfg (answer 1100000) (answer 1100000) None
           (be_bytes 32 1100000) (be_bytes 32 1100000) 900000 chain_ok history_honest); try reflexivity;
    rewrite ?Hin; vm_compute; try (split; congruence); congruence.
Defined.

End FundingExamples.
