(* ===== verification/PayoutOps.v ===== *)
(** Operating the payout pipeline: the tuning that can be reloaded
    ([internal/payout/config_tuning.go]), the run-now endpoint ([runnow.go]), the detector of
    chronic RPC outages ([chronic.go]), and the checks at the start ([config_security.go],
    [topology.go]).

    Shown: whatever is reloaded, the live tuning is within its bounds and every change is
    announced; two admitted run-now requests are never closer than the live interval, and so
    never closer than its lower bound; an outage is paged only on enough recent samples with
    the error rate, and at most once per cooldown. *)
From S2P Require Import Prelude GoTime GoFloat Evm.

(** ** Tuning: [config_tuning.go] *)

Record TuningSnapshot := mkTuning {
  AddressCoolingOffPeriod : Z;
  RunInterval : Z;
  RunNowMinInterval : Z;
  ConfirmationBlocks : Z;
  MaxRowsPerRun : Z;
  ReorgPollWindow : Z;
  LowBalanceThreshold : Z;
  LowNativeThreshold : Z;
  RPCURLPrimaryPinSPKI : string;
  RPCURLSecondaryPinSPKI : string;
}.

Definition minute : Z := 60 * second.
Definition hour : Z := 60 * minute.

Definition is_hex (c : ascii) : bool :=
  let n := Z.of_N (N_of_ascii c) in
  ((48 <=? n) && (n <=? 57)) || ((97 <=? n) && (n <=? 102)) || ((65 <=? n) && (n <=? 70)).

(** [spkiPinRegex] *)
Definition spkiPinRegex (p : string) : bool :=
  (length (GoStr.chars p) =? 64)%nat && forallb is_hex (GoStr.chars p).

Definition bad_pin (p : string) : bool := negb (String.eqb p "") && negb (spkiPinRegex p).

Definition outside (lo hi v : Z) : bool := (v <? lo) || (hi <? v).

(** [validateBounds]: the first field that violates its bound. The product of the cap is the
    64-bit one. *)
Definition validateBounds (t : TuningSnapshot) (perDayCap : Z) : option string :=
  if AddressCoolingOffPeriod t <? hour then Some "payout.tuning.address_cooling_off_period"
  else if outside (5 * minute) (24 * hour) (RunInterval t) then Some "payout.tuning.run_interval"
  else if outside (10 * second) hour (RunNowMinInterval t) then Some "payout.tuning.run_now_min_interval"
  else if outside 5 200 (ConfirmationBlocks t) then Some "payout.tuning.confirmation_blocks"
  else if outside 1 500 (MaxRowsPerRun t) then Some "payout.tuning.max_rows_per_run"
  else if outside hour (168 * hour) (ReorgPollWindow t) then Some "payout.tuning.reorg_poll_window"
  else if outside 0 1000000000000000000 (LowNativeThreshold t) then Some "payout.tuning.low_native_threshold"
  else if LowBalanceThreshold t <? 0 then Some "payout.tuning.low_balance_threshold"
  else if (0 <? perDayCap) && (Int64.mul 2 perDayCap <? LowBalanceThreshold t)
  then Some "payout.tuning.low_balance_threshold"
  else if bad_pin (RPCURLPrimaryPinSPKI t) then Some "payout.tuning.rpc_url_primary_pin_spki"
  else if bad_pin (RPCURLSecondaryPinSPKI t) then Some "payout.tuning.rpc_url_secondary_pin_spki"
  else None.

Record TuningProvider := mkProvider { tp_live : TuningSnapshot; tp_perDayCap : Z }.

Definition NewTuningProvider (initial : TuningSnapshot) (perDayCap : Z) : option TuningProvider :=
  match validateBounds initial perDayCap with Some _ => None | None => Some (mkProvider initial perDayCap) end.

Definition Snapshot (p : TuningProvider) : TuningSnapshot := tp_live p.

(** The keys [emitReloaded] announces, one event for each. *)
Definition changed_keys (old new : TuningSnapshot) : list string :=
  let changed (same : bool) (key : string) : list string := if same then [] else [key] in
  changed (AddressCoolingOffPeriod old =? AddressCoolingOffPeriod new) "payout.tuning.address_cooling_off_period"
  ++ changed (RunInterval old =? RunInterval new) "payout.tuning.run_interval"
  ++ changed (RunNowMinInterval old =? RunNowMinInterval new) "payout.tuning.run_now_min_interval"
  ++ changed (ConfirmationBlocks old =? ConfirmationBlocks new) "payout.tuning.confirmation_blocks"
  ++ changed (MaxRowsPerRun old =? MaxRowsPerRun new) "payout.tuning.max_rows_per_run"
  ++ changed (ReorgPollWindow old =? ReorgPollWindow new) "payout.tuning.reorg_poll_window"
  ++ changed (LowBalanceThreshold old =? LowBalanceThreshold new) "payout.tuning.low_balance_threshold"
  ++ changed (LowNativeThreshold old =? LowNativeThreshold new) "payout.tuning.low_native_threshold"
  ++ changed (String.eqb (RPCURLPrimaryPinSPKI old) (RPCURLPrimaryPinSPKI new)) "payout.tuning.rpc_url_primary_pin_spki"
  ++ changed (String.eqb (RPCURLSecondaryPinSPKI old) (RPCURLSecondaryPinSPKI new))
       "payout.tuning.rpc_url_secondary_pin_spki".

Inductive ReloadResult :=
| ReloadCancelled
| ReloadRejected (field : string)
| Reloaded (changed : list string).

(** [Reload]; [ctx_err] is [ctx.Err() != nil]. *)
Definition Reload (ctx_err : bool) (candidate : TuningSnapshot) (p : TuningProvider)
    : TuningProvider * ReloadResult :=
  if ctx_err then (p, ReloadCancelled)
  else match validateBounds candidate (tp_perDayCap p) with
       | Some field => (p, ReloadRejected field)
       | None => (mkProvider candidate (tp_perDayCap p), Reloaded (changed_keys (Snapshot p) candidate))
       end.

(** ** The run-now endpoint: [runnow.go] *)

(** What [RunOnce] returns: the run it used, if any, and how it ended. *)
Inductive CycleEnd := CycleOk | CycleHalted | CycleFailed.

Inductive RunNowReply :=
| RunNowOk (run_id : string)
| RunNowHalted (reason : string)
| RunNowError (status : Z) (code : string).

(** The event [payout_run_now_invoked]. *)
Record RunNowInvoked := mkInvoked { ri_run_id : string; ri_actor : string; ri_outcome : string; ri_at : Z }.

(** What one invocation meets: its clock, its identifier, the runner before and in the cycle. *)
Record RunNowEnv := mkRunNowEnv {
  re_now : Z;
  re_uuid : string;
  re_halted : bool;
  re_reason : string;
  re_cycle_id : string;
  re_cycle : CycleEnd;
}.

(** [currentInterval] *)
Definition currentInterval (tuning : option TuningProvider) (fallback : Z) : Z :=
  match tuning with Some p => RunNowMinInterval (Snapshot p) | None => fallback end.

(** [withinWindow]; [lastAccepted] is [None] for the zero time. *)
Definition withinWindow (now interval : Z) (lastAccepted : option Z) : bool :=
  match lastAccepted with Some last => time_sub now last <? interval | None => false end.

(** [ServeRunNow]: the test and the update of [lastAccepted] are one critical section. *)
Definition ServeRunNow (interval : Z) (e : RunNowEnv) (actor : string) (lastAccepted : option Z)
    : option Z * RunNowInvoked * RunNowReply :=
  let now := re_now e in
  let invoked id outcome := mkInvoked id actor outcome now in
  if withinWindow now interval lastAccepted
  then (lastAccepted, invoked (re_uuid e) "rate_limited", RunNowError 429 "rate_limited")
  else if re_halted e
  then (Some now, invoked (re_uuid e) "runner_halted", RunNowHalted (re_reason e))
  else
    let id := if String.eqb (re_cycle_id e) "" then re_uuid e else re_cycle_id e in
    match re_cycle e with
    | CycleHalted => (Some now, invoked id "runner_halted", RunNowHalted (re_reason e))
    | CycleFailed => (Some now, invoked id "cycle_in_flight_or_failed", RunNowError 409 "cycle_in_flight_or_failed")
    | CycleOk => (Some now, invoked id "accepted", RunNowOk id)
    end.

(** *** Reloads and requests *)

Inductive OpsStep :=
| Reloads (ctx_err : bool) (candidate : TuningSnapshot)
| RunNow (e : RunNowEnv) (actor : string).

Record OpsState := mkOps {
  op_tuning : TuningProvider;
  op_last : option Z;
  (** the events, the newest first, each with the interval of its time *)
  op_log : list (RunNowInvoked * Z);
}.

Definition ops_step (st : OpsStep) (s : OpsState) : OpsState :=
  match st with
  | Reloads ctx_err candidate => mkOps (Reload ctx_err candidate (op_tuning s)).1 (op_last s) (op_log s)
  | RunNow e actor =>
      let interval := currentInterval (Some (op_tuning s)) 0 in
      let '(last, ev, _) := ServeRunNow interval e actor (op_last s) in
      mkOps (op_tuning s) last ((ev, interval) :: op_log s)
  end.

Definition ops_run (p : TuningProvider) (steps : list OpsStep) : OpsState :=
  fold_left (fun s st => ops_step st s) steps (mkOps p None []).

Definition admitted (x : RunNowInvoked * Z) : bool := negb (String.eqb (ri_outcome x.1) "rate_limited").

(** Each admitted request is the interval of its time after the one before it. *)
Fixpoint spaced_log (l : list (RunNowInvoked * Z)) : Prop :=
  match l with
  | x :: ((y :: _) as l') => ri_at y.1 + x.2 <= ri_at x.1 /\ spaced_log l'
  | _ => True
  end.

(** The documented bounds. *)
Record in_bounds (t : TuningSnapshot) : Prop := {
  ib_cooling : hour <= AddressCoolingOffPeriod t;
  ib_run : 5 * minute <= RunInterval t <= 24 * hour;
  ib_now : 10 * second <= RunNowMinInterval t <= hour;
  ib_blocks : 5 <= ConfirmationBlocks t <= 200;
  ib_rows : 1 <= MaxRowsPerRun t <= 500;
  ib_reorg : hour <= ReorgPollWindow t <= 168 * hour;
  ib_native : 0 <= LowNativeThreshold t <= 1000000000000000000;
  ib_balance : 0 <= LowBalanceThreshold t;
  ib_pins : bad_pin (RPCURLPrimaryPinSPKI t) = false /\ bad_pin (RPCURLSecondaryPinSPKI t) = false;
}.

Lemma outside_false lo hi v : outside lo hi v = false <-> lo <= v <= hi.
Proof. unfold outside. lia. Qed.

(** A candidate is taken exactly when it is within the bounds and, with a daily cap, the
    balance threshold is at most twice the cap. *)
Theorem validateBounds_exact t cap :
  Int64.in_range (2 * cap) ->
  validateBounds t cap = None <-> in_bounds t /\ (0 < cap -> LowBalanceThreshold t <= 2 * cap).
Proof.
  intros Hr. unfold validateBounds. rewrite (Int64.mul_exact 2 cap Hr). split.
  - intros H. split_ifs; try done. repeat match goal with Hx : outside _ _ _ = false |- _ => apply outside_false in Hx end.
    split; [split; try done; try lia|lia].
  - intros [[? ? ? ? ? ? ? ? [Hp1 Hp2]] Hcap]. replace (AddressCoolingOffPeriod t <? hour) with false by lia.
    rewrite !(proj2 (outside_false _ _ _)) by done. replace (LowBalanceThreshold t <? 0) with false by lia.
    replace (_ && _) with false by lia. by rewrite Hp1, Hp2.
Qed.

Lemma validated_in_bounds t cap : validateBounds t cap = None -> in_bounds t.
Proof.
  unfold validateBounds. intros H. split_ifs; try done.
  all: repeat match goal with Hx : outside _ _ _ = false |- _ => apply outside_false in Hx end;
    split; try done; lia.
Qed.

Lemma changed_keys_none old new : changed_keys old new = [] <-> old = new.
Proof.
  split.
  - unfold changed_keys. intros H. repeat match type of H with _ ++ _ = [] => apply app_nil in H as [? H] end.
    destruct old, new. cbn in *. split_ifs; try done. bool_hyps. f_equal; try done; lia.
  - intros ->. unfold changed_keys. by rewrite !Z.eqb_refl, !String.eqb_refl.
Qed.

Lemma ops_live steps : forall s,
  in_bounds (Snapshot (op_tuning s)) ->
  in_bounds (Snapshot (op_tuning (fold_left (fun s st => ops_step st s) steps s))).
Proof.
  induction steps as [|st steps IH]; intros s Hs; [done|]. cbn. apply IH. destruct st as [ctx c|e actor]; cbn.
  - unfold Reload. destruct ctx; [done|]. destruct (validateBounds c _) eqn:E; [done|]. by eapply validated_in_bounds.
  - by destruct (ServeRunNow _ _ _ _) as [[? ?] ?].
Qed.

Lemma run_now_cases interval e actor last :
  let '(last', ev, _) := ServeRunNow interval e actor last in
  (withinWindow (re_now e) interval last = true /\ last' = last /\ ri_outcome ev = "rate_limited")
  \/ (withinWindow (re_now e) interval last = false /\ last' = Some (re_now e) /\ ri_at ev = re_now e
      /\ ri_outcome ev <> "rate_limited").
Proof.
  unfold ServeRunNow. destruct (withinWindow _ _ _) eqn:E; [by left|].
  destruct (re_halted e); [by right|]. destruct (re_cycle e); by right.
Qed.

(** What a history keeps of the admitted requests. *)
Record log_spaced (s : OpsState) : Prop := {
  ls_bounds : in_bounds (Snapshot (op_tuning s));
  ls_last : op_last s = (fun x => ri_at x.1) <$> head (List.filter admitted (op_log s));
  ls_spaced : spaced_log (List.filter admitted (op_log s));
  ls_interval : Forall (fun x => 10 * second <= x.2 <= hour) (op_log s);
}.

Lemma log_spaced_step st s : log_spaced s -> log_spaced (ops_step st s).
Proof.
  intros Hs. pose proof (ops_live [st] s (ls_bounds _ Hs)) as Hb. cbn in Hb.
  destruct st as [ctx c|e actor]; cbn in *.
  - destruct Hs. by split.
  - set (interval := RunNowMinInterval (Snapshot (op_tuning s))) in *.
    pose proof (run_now_cases interval e actor (op_last s)) as Hc.
    destruct (ServeRunNow _ _ _ _) as [[last' ev] reply].
    pose proof (ib_now _ (ls_bounds _ Hs)) as Hi. fold interval in Hi.
    destruct Hc as [(_ & -> & Ho)|(Hw & -> & Hat & Ho)]; split; cbn; try done.
    + unfold admitted. cbn. rewrite Ho. cbn. apply Hs.
    + unfold admitted. cbn. rewrite Ho. cbn. apply Hs.
    + constructor; [done|apply Hs].
    + unfold admitted. cbn. apply String.eqb_neq in Ho. rewrite Ho. cbn. by rewrite Hat.
    + unfold admitted at 1. cbn. apply String.eqb_neq in Ho. rewrite Ho. cbn.
      pose proof (ls_last _ Hs) as Hl. pose proof (ls_spaced _ Hs) as Hsp.
      destruct (List.filter admitted (op_log s)) as [|y l]; [done|]. split; [|done].
      cbn in Hl |- *. unfold withinWindow in Hw. rewrite Hl in Hw. apply Z.ltb_ge in Hw. unfold time_sub in Hw.
      rewrite Hat. i64. unfold second in Hi. lia.
    + constructor; [done|apply Hs].
Qed.

(** However the tuning is reloaded between requests, two run-now requests that are admitted in
    turn are at least the live interval apart, and it is never less than ten seconds nor more
    than an hour; every request leaves exactly one event. *)
Theorem run_now_spaced initial cap p steps :
  NewTuningProvider initial cap = Some p ->
  let s := ops_run p steps in
  in_bounds (Snapshot (op_tuning s))
  /\ spaced_log (List.filter admitted (op_log s))
  /\ Forall (fun x => 10 * second <= x.2 <= hour) (op_log s)
  /\ length (op_log s) = length (List.filter (fun st => match st with RunNow _ _ => true | _ => false end) steps).
Proof.
  intros Hp. unfold NewTuningProvider in Hp. destruct (validateBounds initial cap) eqn:E; [done|]. injection Hp as <-.
  set (s0 := mkOps (mkProvider initial cap) None []).
  assert (log_spaced s0) as H0 by (split; cbn; try done; by eapply validated_in_bounds).
  assert (forall steps s, log_spaced s -> log_spaced (fold_left (fun s st => ops_step st s) steps s)
            /\ length (op_log (fold_left (fun s st => ops_step st s) steps s))
               = (length (List.filter (fun st => match st with RunNow _ _ => true | _ => false end) steps)
                  + length (op_log s))%nat) as Hrun.
  { clear. induction steps as [|st steps IH]; intros s Hs; [done|]. cbn [fold_left].
    destruct (IH _ (log_spaced_step st s Hs)) as [H1 ->]. split; [done|].
    destruct st as [ctx c|e actor]; cbn; [done|].
    destruct (ServeRunNow _ _ _ _) as [[? ?] ?]. cbn. lia. }
  destruct (Hrun steps s0 H0) as [[] Hn]. cbn in Hn. rewrite Nat.add_0_r in Hn. done.
Qed.

(** ** Chronic outages: [chronic.go] *)

Record chronicSample := mkSample { sa_ts : Z; sa_isErr : bool }.

(** [cl_lastPagedAt] is [None] for the zero time. *)
Record chronicLabelState := mkLabelState { cl_samples : list chronicSample; cl_lastPagedAt : option Z }.

Record ChronicConfig := mkChronic { cc_window : Z; cc_threshold : float64; cc_minSamples : Z; cc_cooldown : Z }.

(** [NewChronicOutageTracker] *)
Definition chronic_defaults : ChronicConfig :=
  mkChronic (10 * minute) (F64.ratio 1 2) 10 (10 * minute).

(** [Record], of an outcome at the time [now] *)
Definition record_sample (label : string) (isErr : bool) (now : Z) (states : gmap string chronicLabelState)
    : gmap string chronicLabelState :=
  if String.eqb label "" then states
  else
    let st := default (mkLabelState [] None) (states !! label) in
    <[label := mkLabelState (cl_samples st ++ [mkSample now isErr]) (cl_lastPagedAt st)]> states.

(** The samples from the first that is not before the cutoff. *)
Fixpoint prune (cutoff : Z) (l : list chronicSample) : list chronicSample :=
  match l with
  | x :: l' => if sa_ts x <? cutoff then prune cutoff l' else l
  | [] => []
  end.

Definition error_count (l : list chronicSample) : Z := count sa_isErr l.

(** One round of the loop of [Evaluate]: the state, and the samples of a page. *)
Definition evaluate_label (c : ChronicConfig) (now : Z) (st : chronicLabelState)
    : chronicLabelState * option (list chronicSample) :=
  let samples := prune (now - cc_window c) (cl_samples st) in
  let kept := mkLabelState samples (cl_lastPagedAt st) in
  if Z.of_nat (length samples) <? cc_minSamples c then (kept, None)
  else if F64.ltb (F64.ratio (error_count samples) (Z.of_nat (length samples))) (cc_threshold c) then (kept, None)
  else if withinWindow now (cc_cooldown c) (cl_lastPagedAt st) then (kept, None)
  else (mkLabelState samples (Some now), Some samples).

(** [Evaluate]: the labels paged, in the order of [range]. *)
Definition Evaluate (order : gmap string chronicLabelState -> list (string * chronicLabelState))
    (c : ChronicConfig) (now : Z) (states : gmap string chronicLabelState)
    : gmap string chronicLabelState * list (string * list chronicSample) :=
  ((fun st => (evaluate_label c now st).1) <$> states,
   omap (fun '(label, st) => (fun l => (label, l)) <$> (evaluate_label c now st).2) (order states)).

(** The tick of [Run]. *)
Definition run_tick (c : ChronicConfig) : Z :=
  let tick := Z.quot (cc_window c) 2 in
  let tick := if minute <? tick then minute else tick in
  if tick <? 10 * second then 10 * second else tick.

(** [trackingRPC]: every call is recorded, as an error when it returned one. *)
Definition tracked {E A} (label : string) (now : Z) (answer : E + A) (states : gmap string chronicLabelState)
    : gmap string chronicLabelState * (E + A) :=
  (record_sample label (match answer with inl _ => true | inr _ => false end) now states, answer).

Section Chronic.
Context (order : gmap string chronicLabelState -> list (string * chronicLabelState)).
Context (order_ok : enumerates order).
Context (c : ChronicConfig).

Inductive ChronicStep :=
| Outcome (label : string) (isErr : bool) (now : Z)
| Evaluation (now : Z).

Definition step_clock (st : ChronicStep) : Z := match st with Outcome _ _ now | Evaluation now => now end.

Record Page := mkPage { pg_label : string; pg_at : Z; pg_samples : list chronicSample }.

Record ChronicState := mkChronicState {
  ch_states : gmap string chronicLabelState;
  (** everything recorded, and the pages, the newest first *)
  ch_recorded : list (string * chronicSample);
  ch_pages : list Page;
}.

Definition chronic_step (st : ChronicStep) (s : ChronicState) : ChronicState :=
  match st with
  | Outcome label isErr now =>
      mkChronicState (record_sample label isErr now (ch_states s))
        ((label, mkSample now isErr) :: ch_recorded s) (ch_pages s)
  | Evaluation now =>
      let '(states, paged) := Evaluate order c now (ch_states s) in
      mkChronicState states (ch_recorded s) (map (fun '(label, l) => mkPage label now l) paged ++ ch_pages s)
  end.

Definition chronic_run (steps : list ChronicStep) : ChronicState :=
  fold_left (fun s st => chronic_step st s) steps (mkChronicState ∅ [] []).

(** The clock does not go back. *)
Fixpoint clocked (t : Z) (steps : list ChronicStep) : Prop :=
  match steps with [] => True | st :: rest => t <= step_clock st /\ clocked (step_clock st) rest end.

(** Samples in the order of their times. *)
Fixpoint in_order (t : Z) (l : list chronicSample) : Prop :=
  match l with [] => True | x :: l => t <= sa_ts x /\ in_order (sa_ts x) l end.

Definition pages_of (label : string) (s : ChronicState) : list Page :=
  List.filter (fun p => String.eqb (pg_label p) label) (ch_pages s).

Fixpoint cooled (l : list Page) : Prop :=
  match l with
  | x :: ((y :: _) as l') => pg_at y + cc_cooldown c <= pg_at x /\ cooled l'
  | _ => True
  end.

(** A page is backed by enough recent samples of its label, with the error rate. *)
Definition justified (s : ChronicState) (p : Page) : Prop :=
  cc_minSamples c <= Z.of_nat (length (pg_samples p))
  /\ F64.ltb (F64.ratio (error_count (pg_samples p)) (Z.of_nat (length (pg_samples p)))) (cc_threshold c) = false
  /\ Forall (fun x => pg_at p - cc_window c <= sa_ts x <= pg_at p /\ (pg_label p, x) ∈ ch_recorded s) (pg_samples p).

Record chronic_ok (t : Z) (s : ChronicState) : Prop := {
  co_samples : forall label st, ch_states s !! label = Some st ->
    (exists t0, in_order t0 (cl_samples st))
    /\ Forall (fun x => sa_ts x <= t /\ (label, x) ∈ ch_recorded s) (cl_samples st);
  co_last : forall label, (st ← ch_states s !! label; cl_lastPagedAt st) = pg_at <$> head (pages_of label s);
  co_cooled : forall label, cooled (pages_of label s);
  co_justified : Forall (justified s) (ch_pages s);
}.

Lemma in_order_snoc t l x : in_order t l -> Forall (fun y => sa_ts y <= sa_ts x) l -> t <= sa_ts x -> in_order t (l ++ [x]).
Proof.
  revert t. induction l as [|y l IH]; intros t Hl Hx Ht; cbn; [done|]. destruct Hl as [H1 H2].
  apply Forall_cons in Hx as [Hy Hx]. split; [done|]. by apply IH.
Qed.

Lemma in_order_bound t l : in_order t l -> Forall (fun y => t <= sa_ts y) l.
Proof.
  revert t. induction l as [|y l IH]; intros t Hl; [done|]. destruct Hl as [H1 H2]. constructor; [done|].
  eapply Forall_impl; [by apply IH|]. cbn. intros. lia.
Qed.

Lemma prune_in_order cutoff l t : in_order t l -> exists t', in_order t' (prune cutoff l) /\ Forall (fun y => cutoff <= sa_ts y) (prune cutoff l).
Proof.
  revert t. induction l as [|y l IH]; intros t Hl; cbn; [by exists t|]. destruct Hl as [H1 H2].
  destruct (Z.ltb_spec (sa_ts y) cutoff); [by eapply IH|]. exists (sa_ts y). split; [by split|].
  constructor; [done|]. eapply Forall_impl; [by apply in_order_bound|]. cbn. intros. lia.
Qed.

Lemma prune_sub cutoff l (P : chronicSample -> Prop) : Forall P l -> Forall P (prune cutoff l).
Proof. induction 1 as [|y l Hy Hl IH]; cbn; [done|]. destruct (_ <? _); [done|]. by constructor. Qed.

(** What the loop decides for a label. *)
Lemma evaluate_label_cases now st :
  let samples := prune (now - cc_window c) (cl_samples st) in
  cl_samples (evaluate_label c now st).1 = samples
  /\ match (evaluate_label c now st).2 with
     | None => cl_lastPagedAt (evaluate_label c now st).1 = cl_lastPagedAt st
     | Some l => l = samples /\ cl_lastPagedAt (evaluate_label c now st).1 = Some now
         /\ cc_minSamples c <= Z.of_nat (length samples)
         /\ F64.ltb (F64.ratio (error_count samples) (Z.of_nat (length samples))) (cc_threshold c) = false
         /\ withinWindow now (cc_cooldown c) (cl_lastPagedAt st) = false
     end.
Proof.
  unfold evaluate_label. cbv zeta. destruct (_ <? _) eqn:E1; [done|]. destruct (F64.ltb _ _) eqn:E2; [done|].
  destruct (withinWindow _ _ _) eqn:E3; [done|]. cbn. split_and!; try done. lia.
Qed.

Definition page_of (now : Z) (label : string) (o : option (list chronicSample)) : list Page :=
  match o with Some l => [mkPage label now l] | None => [] end.

Lemma paged_once now label l :
  NoDup l.*1 ->
  (forall st, (label, st) ∈ l ->
     List.filter (fun p => String.eqb (pg_label p) label) (map (fun '(label, l) => mkPage label now l)
       (omap (fun '(label, st) => (fun l => (label, l)) <$> (evaluate_label c now st).2) l))
     = page_of now label (evaluate_label c now st).2)
  /\ ((forall st, (label, st) ∉ l) ->
     List.filter (fun p => String.eqb (pg_label p) label) (map (fun '(label, l) => mkPage label now l)
       (omap (fun '(label, st) => (fun l => (label, l)) <$> (evaluate_label c now st).2) l)) = []).
Proof.
  induction l as [|[k v] l IH]; intros Hnd; [split; [by intros st ?%elem_of_nil|done]|].
  cbn in Hnd. apply NoDup_cons in Hnd as [Hk Hnd]. destruct (IH Hnd) as [IH1 IH2].
  assert (forall X, List.filter (fun p => String.eqb (pg_label p) label) (map (fun '(label, l) => mkPage label now l)
            (omap (fun '(label, st) => (fun l => (label, l)) <$> (evaluate_label c now st).2) ((k, v) :: l))) = X <->
          (if String.eqb k label then page_of now k (evaluate_label c now v).2 else [])
            ++ List.filter (fun p => String.eqb (pg_label p) label) (map (fun '(label, l) => mkPage label now l)
            (omap (fun '(label, st) => (fun l => (label, l)) <$> (evaluate_label c now st).2) l)) = X) as Hcons.
  { intros X. cbn. destruct ((evaluate_label c now v).2); cbn; by destruct (String.eqb k label). }
  split.
  - intros st Hin. apply Hcons. apply elem_of_cons in Hin as [[= -> ->]|Hin].
    + rewrite String.eqb_refl, IH2, app_nil_r; [done|]. intros st' Hst. apply Hk. apply list_elem_of_fmap. by exists (k, st').
    + destruct (String.eqb_spec k label) as [->|Hne]; [|by apply IH1].
      destruct Hk. apply list_elem_of_fmap. by exists (label, st).
  - intros Hno. apply Hcons. destruct (String.eqb_spec k label) as [->|Hne].
    + destruct (Hno v). by left.
    + apply IH2. intros st Hst. apply (Hno st). by right.
Qed.

Lemma pages_after now label s :
  pages_of label (chronic_step (Evaluation now) s)
  = page_of now label (st ← ch_states s !! label; (evaluate_label c now st).2) ++ pages_of label s.
Proof.
  unfold pages_of, chronic_step, Evaluate. cbn [ch_pages]. rewrite List.filter_app. f_equal.
  destruct (paged_once now label (order (ch_states s))) as [H1 H2].
  { rewrite (order_ok (ch_states s)). apply NoDup_fst_map_to_list. }
  destruct (ch_states s !! label) as [st|] eqn:E; cbn.
  - apply H1. rewrite (order_ok (ch_states s)). by apply elem_of_map_to_list.
  - apply H2. intros st. rewrite (order_ok (ch_states s)), elem_of_map_to_list. congruence.
Qed.

Lemma page_of_state now s p :
  p ∈ ch_pages (chronic_step (Evaluation now) s) ->
  p ∈ ch_pages s \/ exists st, ch_states s !! pg_label p = Some st /\ pg_at p = now
    /\ (evaluate_label c now st).2 = Some (pg_samples p).
Proof.
  cbn. intros [Hp|?]%elem_of_app; [|by left]. right. apply elem_of_map in Hp as ([label l] & Hin & ->).
  apply list_elem_of_omap in Hin as ([k st] & Hin & E). rewrite (order_ok (ch_states s)), elem_of_map_to_list in Hin.
  destruct ((evaluate_label c now st).2) as [l'|] eqn:El; [|done]. injection E as -> ->. by exists st.
Qed.

Lemma justified_recorded s s' p :
  (forall x, x ∈ ch_recorded s -> x ∈ ch_recorded s') -> justified s p -> justified s' p.
Proof.
  intros Hsub (H1 & H2 & H3). split_and!; try done. eapply Forall_impl; [exact H3|]. cbn. intros x [? ?]. auto.
Qed.

Lemma chronic_ok_outcome t label isErr now s :
  t <= now -> chronic_ok t s -> chronic_ok now (chronic_step (Outcome label isErr now) s).
Proof.
  intros Ht Hs. pose proof (co_last _ _ Hs) as Hlast.
  assert (Forall (justified (chronic_step (Outcome label isErr now) s)) (ch_pages s)) as Hj.
  { eapply Forall_impl; [apply Hs|]. intros p. apply justified_recorded. intros x Hx. by right. }
  assert (forall l' st, ch_states s !! l' = Some st ->
            (exists t0, in_order t0 (cl_samples st))
            /\ Forall (fun x => sa_ts x <= now /\ (l', x) ∈ (label, mkSample now isErr) :: ch_recorded s) (cl_samples st)) as Hold.
  { intros l' st Hst. destruct (co_samples _ _ Hs l' st Hst) as [Ho Hf]. split; [done|].
    eapply Forall_impl; [exact Hf|]. cbn. intros x [? ?]. split; [lia|by right]. }
  unfold chronic_step, record_sample in *. destruct (String.eqb label "").
  { split; cbn; try apply Hs; done. }
  split; cbn; try apply Hs; try done.
  - intros l' st. destruct (decide (l' = label)) as [->|Hne].
    + rewrite lookup_insert_eq. intros [= <-]. cbn. destruct (ch_states s !! label) as [st|] eqn:E; cbn.
      * destruct (Hold label st E) as [[t0 Ho] Hf]. split.
        -- exists (Z.min t0 now). apply in_order_snoc; cbn; [|eapply Forall_impl; [exact Hf|]; cbn; lia|lia].
           destruct (cl_samples st); [done|]. destruct Ho. split; [lia|done].
        -- apply Forall_app. split; [done|]. apply Forall_singleton. cbn. split; [lia|by left].
      * split; [by exists now|]. apply Forall_singleton. cbn. split; [lia|by left].
    + rewrite lookup_insert_ne by done. apply Hold.
  - intros l'. etransitivity; [|apply (Hlast l')].
    destruct (decide (l' = label)) as [->|Hne]; [|by rewrite lookup_insert_ne].
    rewrite lookup_insert_eq. cbn. by destruct (ch_states s !! label).
Qed.

Lemma chronic_ok_evaluation t now s :
  0 < cc_cooldown c -> t <= now -> chronic_ok t s -> chronic_ok now (chronic_step (Evaluation now) s).
Proof.
  intros Hc Ht Hs. split.
  - intros label st'. cbn. rewrite lookup_fmap. destruct (ch_states s !! label) as [st|] eqn:E; [|done].
    intros [= <-]. destruct (evaluate_label_cases now st) as [-> _].
    destruct (co_samples _ _ Hs label st E) as [[t0 Ho] Hf]. split.
    + destruct (prune_in_order (now - cc_window c) _ _ Ho) as (t' & ? & _). by exists t'.
    + apply prune_sub. eapply Forall_impl; [exact Hf|]. cbn. intros x [? ?]. split; [lia|done].
  - intros label. rewrite pages_after. cbn. rewrite lookup_fmap. pose proof (co_last _ _ Hs label) as Hl.
    destruct (ch_states s !! label) as [st|] eqn:E; cbn in *; [|done].
    destruct (evaluate_label_cases now st) as [_ He]. destruct (evaluate_label c now st) as [st' [l|]]; cbn in *.
    + by destruct He as (_ & -> & _).
    + by rewrite He.
  - intros label. rewrite pages_after. pose proof (co_last _ _ Hs label) as Hl. pose proof (co_cooled _ _ Hs label) as Hp.
    destruct (ch_states s !! label) as [st|] eqn:E; cbn in *; [|done].
    destruct (evaluate_label_cases now st) as [_ He]. destruct (evaluate_label c now st) as [st' [l|]]; cbn in *; [|done].
    destruct (pages_of label s) as [|y pages]; [done|]. split; [|done]. cbn in Hl |- *.
    destruct He as (_ & _ & _ & _ & Hw). unfold withinWindow in Hw. rewrite Hl in Hw. apply Z.ltb_ge in Hw.
    unfold time_sub in Hw. i64. lia.
  - apply Forall_forall. intros p [Hp|(st & Hst & Hat & Hp)]%page_of_state.
    + pose proof (co_justified _ _ Hs) as Hj. rewrite Forall_forall in Hj. eapply justified_recorded; [|by apply Hj]. done.
    + destruct (evaluate_label_cases now st) as [_ He]. rewrite Hp in He. destruct He as (El & _ & Hm & Hr & _).
      rewrite <- El in Hm, Hr. split_and!; try done. rewrite El.
      destruct (co_samples _ _ Hs _ st Hst) as [[t0 Ho] Hf].
      destruct (prune_in_order (now - cc_window c) _ _ Ho) as (t' & _ & Hge).
      pose proof (prune_sub (now - cc_window c) _ _ Hf) as Hle.
      apply Forall_forall. intros x Hx. rewrite Forall_forall in Hge, Hle. specialize (Hge x Hx). specialize (Hle x Hx).
      rewrite Hat. split; [lia|apply Hle].
Qed.

(** A page is sent only for a label of which, in the window before it, at least the minimum of
    calls was recorded and the rate of errors among them was at or above the threshold; two
    pages of a label are a cooldown apart. *)
Theorem outages_paged_with_reason t0 steps :
  0 < cc_cooldown c -> clocked t0 steps ->
  Forall (justified (chronic_run steps)) (ch_pages (chronic_run steps))
  /\ forall label, cooled (pages_of label (chronic_run steps)).
Proof.
  intros Hc Hcl. unfold chronic_run.
  assert (chronic_ok t0 (mkChronicState ∅ [] [])) as H0 by by split.
  revert H0. generalize (mkChronicState ∅ [] []) as s. revert t0 Hcl.
  induction steps as [|st steps IH]; intros t0 Hcl s Hs; cbn [fold_left].
  - split; apply Hs.
  - destruct Hcl as [Ht Hcl]. apply (IH (step_clock st)); [done|].
    destruct st as [label isErr now|now]; cbn [step_clock] in *.
    + by eapply chronic_ok_outcome.
    + by eapply chronic_ok_evaluation.
Qed.
End Chronic.

(** ** The start: [config_security.go], [topology.go] *)

Section Start.
Context `{EvmLib}.

Record SecurityConfig := mkSecurity { sc_HotWalletAddress : string }.

Definition LoadSecurityConfig (rawHotWallet : string) : option SecurityConfig :=
  if String.eqb rawHotWallet "" then None
  else match ParseAndCanonicalizeEIP55 rawHotWallet with inr canonical => Some (mkSecurity canonical) | inl _ => None end.

Record PayoutRuntimeTopology := mkTopology {
  HandlerEnabled : bool;
  RunnerCoResident : bool;
  HotWalletAddressPinned : string;
  LinuxRequired : bool;
}.

(** [AssertPayoutRuntimeTopology]: whether the process may listen. *)
Definition AssertPayoutRuntimeTopology (goos : string) (t : PayoutRuntimeTopology) : bool :=
  if negb (HandlerEnabled t) then true
  else if String.eqb (HotWalletAddressPinned t) "" then false
  else match ParseAndCanonicalizeEIP55 (HotWalletAddressPinned t) with
       | inl _ => false
       | inr _ =>
           if LinuxRequired t && negb (String.eqb goos "linux") then false
           else RunnerCoResident t
       end.

Definition raised (b : bool) (c : ascii) : ascii :=
  if b && between 97 102 (code c) then ascii_of_N (N_of_ascii c - 97 + 65)%N else c.

Lemma raised_hex b c :
  isHexAlphabet [c] = true ->
  GoStr.lower_ascii (raised b (GoStr.lower_ascii c)) = GoStr.lower_ascii c
  /\ isHexAlphabet [raised b (GoStr.lower_ascii c)] = true.
Proof. destruct c as [[] [] [] [] [] [] [] []], b; vm_compute; done. Qed.

Lemma hex_imap (f : nat -> ascii -> ascii) l :
  (forall i c, exists b, f i c = raised b c) -> isHexAlphabet l = true ->
  map GoStr.lower_ascii (imap f (map GoStr.lower_ascii l)) = map GoStr.lower_ascii l
  /\ isHexAlphabet (imap f (map GoStr.lower_ascii l)) = true.
Proof.
  revert f. induction l as [|c l IH]; intros f Hf Hl; [done|].
  assert (isHexAlphabet [c] = true /\ isHexAlphabet l = true) as [Hc Hl'].
  { unfold isHexAlphabet in *. cbn [forallb] in *. apply andb_true_iff in Hl as [-> ->]. done. }
  cbn [map imap]. destruct (Hf 0%nat (GoStr.lower_ascii c)) as [b Eb]. rewrite Eb.
  destruct (raised_hex b c Hc) as [H1 H2]. destruct (IH (f ∘ S) (fun i c => Hf (S i) c) Hl') as [H3 H4].
  cbn [map]. rewrite H1, H3. split; [done|]. unfold isHexAlphabet in *. cbn [forallb] in *.
  rewrite H4, andb_true_r in *. done.
Qed.

Lemma parse_inv input c :
  ParseAndCanonicalizeEIP55 input = inr c ->
  exists body, length body = 40%nat /\ isHexAlphabet body = true
    /\ c = "0x" +:+ GoStr.of_chars (applyEIP55Checksum (map GoStr.lower_ascii body)).
Proof.
  unfold ParseAndCanonicalizeEIP55. intros Hp. exists (skipn 2 (GoStr.chars input)). rewrite length_skipn.
  destruct (length (GoStr.chars input) =? 42)%nat eqn:E1; cbn [negb] in Hp; [|done]. apply Nat.eqb_eq in E1.
  destruct (_ || _) in Hp; cbn [negb] in Hp; [|done].
  destruct (isHexAlphabet _) eqn:E2; cbn [negb] in Hp; [|done].
  split_and!; [lia|done|]. destruct (_ || _) in Hp; [congruence|]. destruct (negb _) in Hp; [done|congruence].
Qed.

(** The canonical form of an address is its own canonical form. *)
Lemma canonical_is_canonical input canonical :
  ParseAndCanonicalizeEIP55 input = inr canonical -> ParseAndCanonicalizeEIP55 canonical = inr canonical.
Proof.
  intros (body & Hlen & Hhex & ->)%parse_inv. set (lower := map GoStr.lower_ascii body).
  destruct (hex_imap (checksum_char (keccak (text_bytes lower))) body) as [Hlow Hh];
    [intros i c; unfold checksum_char, raised; by eexists|exact Hhex|].
  fold lower in Hlow, Hh. fold (applyEIP55Checksum lower) in Hlow, Hh.
  assert (length (applyEIP55Checksum lower) = 40%nat) as Hl
    by (unfold applyEIP55Checksum, lower; by rewrite length_imap, length_map).
  unfold ParseAndCanonicalizeEIP55. rewrite GoStr.chars_app, GoStr.chars_of_chars.
  change (GoStr.chars "0x") with ["0"%char; "x"%char]. cbn [app length]. rewrite Hl. cbn [skipn]. rewrite !drop_0, Hh, Hlow. cbn [Nat.eqb negb].
  replace (GoStr.HasPrefix _ "0x") with true by (unfold GoStr.HasPrefix; rewrite GoStr.chars_app; reflexivity).
  cbn [orb negb]. rewrite String.eqb_refl. by case_match.
Qed.

(** A hot wallet that was loaded passes the check before the process listens, with a runner
    beside the handler on Linux. *)
Theorem loaded_wallet_passes_topology raw c linux :
  LoadSecurityConfig raw = Some c ->
  AssertPayoutRuntimeTopology "linux" (mkTopology true true (sc_HotWalletAddress c) linux) = true
  /\ AssertPayoutRuntimeTopology "linux" (mkTopology true false (sc_HotWalletAddress c) linux) = false.
Proof.
  unfold LoadSecurityConfig. destruct (String.eqb raw ""); [done|].
  destruct (ParseAndCanonicalizeEIP55 raw) as [|canonical] eqn:E; [done|]. intros [= <-]. cbn.
  unfold AssertPayoutRuntimeTopology. cbn. rewrite (canonical_is_canonical _ _ E), !andb_false_r.
  destruct (String.eqb_spec canonical "") as [->|]; [|done]. apply canonical_is_canonical in E. done.
Qed.
End Start.

(** ** Executions *)

Module OpsExamples.

Definition t0 : Z := 1767225600 * second.
Definition tuning (interval : Z) : TuningSnapshot :=
  mkTuning (24 * hour) (15 * minute) interval 20 50 (24 * hour) 0 0 "" "".
Definition provider : TuningProvider := mkProvider (tuning minute) 500000000.

Definition invocation (now : Z) (halted : bool) : RunNowEnv := mkRunNowEnv now "u" halted "drift" "cycle" CycleOk.

(** A reload that lowers the interval, one that is rejected, and four requests. *)
Definition history : list OpsStep :=
  [RunNow (invocation t0 false) "op"; RunNow (invocation (t0 + 30 * second) false) "op";
   Reloads false (tuning (20 * second)); Reloads false (tuning second);
   RunNow (invocation (t0 + 40 * second) false) "op"; RunNow (invocation (t0 + 59 * second) false) "op"].

Example history_outcomes :
  map (fun x => (ri_outcome x.1, x.2 / second)) (rev (op_log (ops_run provider history)))
  = [("accepted", 60); ("rate_limited", 60); ("accepted", 20); ("rate_limited", 20)].
Proof. vm_compute. reflexivity. Qed.

(** A request that meets a halted runner uses the window up: the next one is refused. *)
Example halted_request_counts :
  map (fun x => ri_outcome x.1)
    (rev (op_log (ops_run provider [RunNow (invocation t0 true) "op"; RunNow (invocation (t0 + second) false) "op"])))
  = ["runner_halted"; "rate_limited"].
Proof. vm_compute. reflexivity. Qed.

(** A cap above half of the range makes every threshold too large: the product wraps around. *)
Example cap_product_wraps :
  validateBounds (tuning minute) (2 ^ 62) = Some "payout.tuning.low_balance_threshold".
Proof. vm_compute. reflexivity. Qed.

Lemma run_now_witness :
  NewTuningProvider (tuning minute) 500000000 = Some provider
  /\ spaced_log (List.filter admitted (op_log (ops_run provider history))).
Proof.
  assert (NewTuningProvider (tuning minute) 500000000 = Some provider) as H by (vm_compute; reflexivity).
  split; [exact H|]. exact (proj1 (proj2 (run_now_spaced (tuning minute) 500000000 provider history H))).
Defined.

(** Ten calls of a node, six of them errors, are paged once. *)
Definition outage : list ChronicStep :=
  map (fun i => Outcome "primary" (Z.of_nat i <? 6) (t0 + Z.of_nat i * second)) (seq 0 10)
  ++ [Evaluation (t0 + minute); Evaluation (t0 + 2 * minute); Evaluation (t0 + 20 * minute)].

Example outage_paged :
  map (fun p => (pg_label p, (pg_at p - t0) / second, length (pg_samples p)))
    (ch_pages (chronic_run map_to_list chronic_defaults outage)) = [("primary", 60, 10%nat)].
Proof. vm_compute. reflexivity. Qed.

Lemma outage_witness :
  clocked t0 outage
  /\ Forall (justified chronic_defaults (chronic_run map_to_list chronic_defaults outage))
       (ch_pages (chronic_run map_to_list chronic_defaults outage)).
Proof.
  assert (clocked t0 outage) as H by (unfold outage, t0, minute, second; cbn; lia).
  split; [exact H|].
  exact (proj1 (outages_paged_with_reason map_to_list enumerates_map_to_list chronic_defaults t0 outage
                  ltac:(unfold chronic_defaults, minute, second; cbn; lia) H)).
Defined.

End OpsExamples.
