(* ===== verification/Dedupe.v ===== *)
(** Retries without a request id: [phase5-gateway/internal/router/idless_dedupe.go], the
    response capture of [chat_proxy.go] and [responses.go], and the part of the chat handler
    between the claim of a fingerprint and the reservation of the quota.

    A buyer that sends a request again without an id would be billed for each attempt, since
    the gateway gives each a new id. The index maps the fingerprint of a request to the id of
    its first attempt; a later attempt takes over that id, waits for the first one and gets
    its response again, or else is refused by the reservation of the id. The entries of the
    index are shared: a request keeps a pointer to the entry it claimed or took over while
    the index drops it, so they live in a heap ([ix_heap]) and the map holds their places.
    Requests ([Phase]) step once per critical section of the index and per store transaction,
    in any interleaving ([run_gateway]). What is shown about it is in DedupeSafety. *)
From stdpp Require Import pretty.
From S2P Require Import Prelude GoTime Quota.

(** ** Bounds *)

Definition idlessDedupeMaxBodies : Z := 4096.
Definition idlessDedupeMaxMappings : Z := 65536.
Definition idlessDedupeMaxEntryBytes : Z := 2 ^ 20.
Definition idlessDedupeMaxTotalBytes : Z := 32 * 2 ^ 20.
Definition idlessDedupePruneInterval : Z := 60 * second.
Definition idlessDedupeMaxWaiters : Z := 4.
Definition idlessDedupeMaxInFlight : Z := 4096.

(** [len] of a byte slice; a slice that may be [nil] is an option. *)
Definition blen (b : string) : Z := Z.of_nat (String.length b).

(** ** The fingerprint *)

Record Fingerprinted := mkFingerprinted {
  fi_entrypoint : string;
  fi_accountID : string;
  fi_demoTokenHash : string;
  fi_conversationTag : string;
  fi_retryHint : string;
  fi_body : string;
}.

Definition idlessDedupeFingerprintVersion : string := "mpg-idless-v2".
Definition nul : string := GoStr.of_chars [ascii_of_N 0].

Definition fingerprint_parts (f : Fingerprinted) : list string :=
  [idlessDedupeFingerprintVersion; fi_entrypoint f; fi_accountID f; fi_demoTokenHash f;
   fi_conversationTag f; fi_retryHint f].

(** What is hashed, from the digest of the body. *)
Fixpoint hashed_parts (parts : list string) (bodyDigest : string) : string :=
  match parts with
  | [] => bodyDigest
  | part :: parts => part +:+ nul +:+ hashed_parts parts bodyDigest
  end.

Definition hex_of (z : Z) : ascii := ascii_of_N (Z.to_N (if z <? 10 then 48 + z else 87 + z)).
(** [hex.EncodeToString] *)
Definition EncodeToString (b : string) : string :=
  GoStr.of_chars (concat (map (fun c => let n := Z.of_N (N_of_ascii c) in [hex_of (n / 16); hex_of (n mod 16)])
                            (GoStr.chars b))).

Definition idlessRequestFingerprint (sha256 : string -> string) (f : Fingerprinted) : string :=
  EncodeToString (sha256 (hashed_parts (fingerprint_parts f) (sha256 (fi_body f)))).

(** ** The index *)

Record idlessDedupeEntry := mkEntry {
  e_requestID : string;
  (** whether [done] is closed *)
  e_closed : bool;
  e_completed : bool;
  e_status : Z;
  e_contentType : string;
  e_providerID : string;
  e_body : option string;
  e_terminalAt : Z;
  e_lastSeen : Z;
  e_waiters : Z;
}.

#[export] Instance rebuild_idlessDedupeEntry : Rebuild idlessDedupeEntry := fun e =>
  mkEntry (e_requestID e) (e_closed e) (e_completed e) (e_status e) (e_contentType e) (e_providerID e)
    (e_body e) (e_terminalAt e) (e_lastSeen e) (e_waiters e).

(** The counters of entries and bytes are Go's [int]; [reachable_index_ok] bounds them. *)
Record idlessDedupeIndex := mkIndex {
  (** every entry ever made, by its address *)
  ix_heap : list idlessDedupeEntry;
  ix_entries : gmap string nat;
  ix_totalBytes : Z;
  ix_bodyCount : Z;
  ix_inFlight : Z;
  ix_lastPruned : Z;
  ix_replayTotal : Z;
  ix_inflightWaitTotal : Z;
  ix_conflictTotal : Z;
  ix_uncacheableTotal : Z;
  ix_mappingPressureEvictions : Z;
  ix_inflightCapSkips : Z;
}.

#[export] Instance rebuild_idlessDedupeIndex : Rebuild idlessDedupeIndex := fun x =>
  mkIndex (ix_heap x) (ix_entries x) (ix_totalBytes x) (ix_bodyCount x) (ix_inFlight x) (ix_lastPruned x)
    (ix_replayTotal x) (ix_inflightWaitTotal x) (ix_conflictTotal x) (ix_uncacheableTotal x)
    (ix_mappingPressureEvictions x) (ix_inflightCapSkips x).

Definition newIdlessDedupeIndex : idlessDedupeIndex := mkIndex [] ∅ 0 0 0 zero_time 0 0 0 0 0 0.

(** A write through the pointer [l]. *)
Definition on_entry (l : nat) (f : idlessDedupeEntry -> idlessDedupeEntry) (x : idlessDedupeIndex) : idlessDedupeIndex :=
  x <| ix_heap := alter f l (ix_heap x) |>.

Definition closeLocked (l : nat) : idlessDedupeIndex -> idlessDedupeIndex :=
  on_entry l (fun e => e <| e_closed := true |>).

Definition releaseBodyLocked (l : nat) (x : idlessDedupeIndex) : idlessDedupeIndex :=
  match ix_heap x !! l ≫= e_body with
  | None => x
  | Some b =>
      on_entry l (fun e => e <| e_body := None |>)
        (x <| ix_totalBytes := ix_totalBytes x - blen b |> <| ix_bodyCount := ix_bodyCount x - 1 |>)
  end.

Definition completed_at (x : idlessDedupeIndex) (l : nat) : bool :=
  match ix_heap x !! l with Some e => e_completed e | None => false end.

Definition removeLocked (fp : string) (l : nat) (x : idlessDedupeIndex) : idlessDedupeIndex :=
  let x := x <| ix_entries := delete fp (ix_entries x) |> in
  let x := if completed_at x l then x else x <| ix_inFlight := ix_inFlight x - 1 |> in
  closeLocked l (releaseBodyLocked l x).

(** [entry.completed && now.Sub(entry.terminalAt) > window] *)
Definition expired (window now : Z) (e : idlessDedupeEntry) : bool :=
  e_completed e && (window <? time_sub now (e_terminalAt e)).

Definition is_body (e : idlessDedupeEntry) : bool := bool_decide (is_Some (e_body e)).

Section Index.
(** The order of the visits of [range x.entries], and the window of the configuration. *)
Variable order : gmap string nat -> list (string * nat).
Variable window : Z.

Definition prune_visit (now : Z) (x : idlessDedupeIndex) (kv : string * nat) : idlessDedupeIndex :=
  match ix_heap x !! kv.2 with
  | Some e => if expired window now e then removeLocked kv.1 kv.2 x else x
  | None => x
  end.

Definition pruneExpiredLocked (now : Z) (x : idlessDedupeIndex) : idlessDedupeIndex :=
  fold_left (prune_visit now) (order (ix_entries x)) (x <| ix_lastPruned := now |>).

(** The loop that keeps the least recently seen of the entries that satisfy [p]. *)
Definition oldest_visit (p : idlessDedupeEntry -> bool) (h : list idlessDedupeEntry)
    (best : option (string * nat * idlessDedupeEntry)) (kv : string * nat) :=
  match h !! kv.2 with
  | Some e =>
      if p e then match best with
                  | None => Some (kv, e)
                  | Some (_, b) => if e_lastSeen e <? e_lastSeen b then Some (kv, e) else best
                  end
      else best
  | None => best
  end.

Definition oldest (p : idlessDedupeEntry -> bool) (x : idlessDedupeIndex) : option (string * nat * idlessDedupeEntry) :=
  fold_left (oldest_visit p (ix_heap x)) (order (ix_entries x)) None.

Definition evictOldestMappingLocked (x : idlessDedupeIndex) : option idlessDedupeIndex :=
  match oldest e_completed x with
  | Some (fp, l, _) => Some (removeLocked fp l x)
  | None => None
  end.

Definition mappings (x : idlessDedupeIndex) : Z := Z.of_nat (size (ix_entries x)).

(** The loop of [pruneForInsertLocked]; each round removes a mapping, so that [n] is enough
    from the number of the mappings on. *)
Fixpoint evict_mappings (n : nat) (x : idlessDedupeIndex) : idlessDedupeIndex :=
  match n with
  | O => x
  | S n =>
      if mappings x <? idlessDedupeMaxMappings then x
      else match evictOldestMappingLocked x with
           | None => x
           | Some x => evict_mappings n (x <| ix_mappingPressureEvictions := ix_mappingPressureEvictions x + 1 |>)
           end
  end.

Definition pruneForInsertLocked (now : Z) (x : idlessDedupeIndex) : idlessDedupeIndex :=
  if mappings x <? idlessDedupeMaxMappings then
    if negb (IsZero (ix_lastPruned x)) && (time_sub now (ix_lastPruned x) <? idlessDedupePruneInterval) then x
    else pruneExpiredLocked now x
  else
    let x := pruneExpiredLocked now x in
    evict_mappings (S (size (ix_entries x))) x.

(** The loop of [evictBodiesLocked]; each round releases a body. *)
Fixpoint evict_bodies (n : nat) (x : idlessDedupeIndex) : idlessDedupeIndex :=
  match n with
  | O => x
  | S n =>
      if (idlessDedupeMaxTotalBytes <? ix_totalBytes x) || (idlessDedupeMaxBodies <? ix_bodyCount x) then
        match oldest is_body x with
        | None => x
        | Some (_, l, _) => evict_bodies n (releaseBodyLocked l x)
        end
      else x
  end.

Definition evictBodiesLocked (x : idlessDedupeIndex) : idlessDedupeIndex :=
  evict_bodies (S (Z.to_nat (ix_bodyCount x))) x.

(** The three results of [claim]. *)
Inductive ClaimResult := Adopted (l : nat) | Won (l : nat) | CapFull.

Definition claim_new (fp requestID : string) (now : Z) (x : idlessDedupeIndex) : idlessDedupeIndex * ClaimResult :=
  let x := pruneForInsertLocked now x in
  if idlessDedupeMaxInFlight <=? ix_inFlight x then
    (x <| ix_inflightCapSkips := ix_inflightCapSkips x + 1 |>, CapFull)
  else
    let l := length (ix_heap x) in
    (x <| ix_heap := ix_heap x ++ [mkEntry requestID false false 0 "" "" None zero_time now 0] |>
       <| ix_entries := <[fp := l]> (ix_entries x) |> <| ix_inFlight := ix_inFlight x + 1 |>, Won l).

Definition claim (fp requestID : string) (now : Z) (x : idlessDedupeIndex) : idlessDedupeIndex * ClaimResult :=
  match ix_entries x !! fp with
  | Some l =>
      match ix_heap x !! l with
      | Some e =>
          if expired window now e then claim_new fp requestID now (removeLocked fp l x)
          else (on_entry l (fun e => e <| e_lastSeen := now |>) x, Adopted l)
      | None => claim_new fp requestID now x
      end
  | None => claim_new fp requestID now x
  end.

(** What the owner publishes. *)
Record Response := mkResponse {
  rs_status : Z;
  rs_contentType : string;
  rs_providerID : string;
  rs_body : option string;
}.

Definition cacheable (b : option string) : bool :=
  match b with Some b => (0 <? blen b) && (blen b <=? idlessDedupeMaxEntryBytes) | None => false end.

Definition publish (fp requestID : string) (r : Response) (now : Z) (x : idlessDedupeIndex) : idlessDedupeIndex :=
  match ix_entries x !! fp with
  | Some l =>
      match ix_heap x !! l with
      | Some e =>
          if negb (String.eqb (e_requestID e) requestID) || e_completed e then x
          else
            let keep := cacheable (rs_body r) in
            let e' := mkEntry (e_requestID e) (e_closed e) true (rs_status r) (rs_contentType r) (rs_providerID r)
                        (if keep then rs_body r else e_body e) now now (e_waiters e) in
            let x := x <| ix_heap := <[l := e']> (ix_heap x) |>
                       <| ix_totalBytes := ix_totalBytes x + (if keep then blen (default "" (rs_body r)) else 0) |>
                       <| ix_bodyCount := ix_bodyCount x + (if keep then 1 else 0) |>
                       <| ix_inFlight := ix_inFlight x - 1 |> in
            evictBodiesLocked (closeLocked l x)
      | None => x
      end
  | None => x
  end.

Definition drop (fp requestID : string) (x : idlessDedupeIndex) : idlessDedupeIndex :=
  match ix_entries x !! fp with
  | Some l =>
      match ix_heap x !! l with
      | Some e =>
          if negb (String.eqb (e_requestID e) requestID) then x
          else let x := removeLocked fp l x in x <| ix_uncacheableTotal := ix_uncacheableTotal x + 1 |>
      | None => x
      end
  | None => x
  end.

(** [awaitTerminal] up to the [select]: it returns, or parks. *)
Inductive AwaitResult := AwaitReturns (ok : bool) | AwaitParks.

Definition await_enter (l : nat) (x : idlessDedupeIndex) : idlessDedupeIndex * AwaitResult :=
  match ix_heap x !! l with
  | None => (x, AwaitReturns false)
  | Some e =>
      if e_closed e then (x, AwaitReturns true)
      else if idlessDedupeMaxWaiters <=? e_waiters e then (x, AwaitReturns false)
      else (on_entry l (fun e => e <| e_waiters := e_waiters e + 1 |>)
              (x <| ix_inflightWaitTotal := ix_inflightWaitTotal x + 1 |>), AwaitParks)
  end.

(** The deferred end of it. *)
Definition await_leave (l : nat) : idlessDedupeIndex -> idlessDedupeIndex :=
  on_entry l (fun e => e <| e_waiters := e_waiters e - 1 |>).

Record idlessDedupeReplay := mkReplay {
  rp_requestID : string;
  rp_status : Z;
  rp_contentType : string;
  rp_providerID : string;
  rp_body : string;
}.

Definition replaySnapshot (l : nat) (now : Z) (x : idlessDedupeIndex) : idlessDedupeIndex * option idlessDedupeReplay :=
  match ix_heap x !! l with
  | Some e =>
      match e_completed e, e_body e with
      | true, Some b =>
          if window <? time_sub now (e_terminalAt e) then (x, None)
          else (on_entry l (fun e => e <| e_lastSeen := now |>) x,
                Some (mkReplay (e_requestID e) (e_status e) (e_contentType e) (e_providerID e) b))
      | _, _ => (x, None)
      end
  | None => (x, None)
  end.
End Index.

(** ** The capture of a response *)

(** [statusWriter]. A [nil] capture is an empty one: it is only ever asked for its length
    and appended to. *)
Record statusWriter := mkWriter {
  sw_statusCode : Z;
  sw_flushed : bool;
  sw_captureArmed : bool;
  sw_captureCap : Z;
  sw_capture : string;
  sw_overflowed : bool;
  sw_poisoned : bool;
}.

#[export] Instance rebuild_statusWriter : Rebuild statusWriter := fun s =>
  mkWriter (sw_statusCode s) (sw_flushed s) (sw_captureArmed s) (sw_captureCap s) (sw_capture s)
    (sw_overflowed s) (sw_poisoned s).

Definition new_writer : statusWriter := mkWriter 0 false false 0 "" false false.

Definition armDedupeCapture (limit : Z) (s : statusWriter) : statusWriter :=
  s <| sw_captureArmed := true |> <| sw_captureCap := limit |>.

Definition success (code : Z) : bool := (200 <=? code) && (code <? 300).

Definition dedupeDelivered2xx (s : statusWriter) : bool :=
  sw_captureArmed s && negb (sw_poisoned s) && success (sw_statusCode s).
Definition dedupePublishable (s : statusWriter) : bool := dedupeDelivered2xx s && negb (sw_overflowed s).
Definition dedupeDeliveredButUncacheable (s : statusWriter) : bool :=
  sw_captureArmed s && negb (sw_poisoned s) && sw_overflowed s && success (sw_statusCode s).
Definition dedupeCapture (s : statusWriter) : option string :=
  if negb (sw_captureArmed s) || sw_overflowed s then None else Some (sw_capture s).

Definition WriteHeader (code : Z) (s : statusWriter) : statusWriter :=
  if sw_flushed s then s else s <| sw_statusCode := code |> <| sw_flushed := true |>.

(** [b[:n]] *)
Definition prefix_of (n : Z) (b : string) : string := String.substring 0 (Z.to_nat n) b.

(** [n] and [err] are what the writer underneath reports. *)
Definition Write (b : string) (n : Z) (err : bool) (s : statusWriter) : statusWriter :=
  let s := if sw_flushed s then s else s <| sw_statusCode := 200 |> <| sw_flushed := true |> in
  if sw_captureArmed s && negb (sw_overflowed s) && negb (sw_poisoned s) then
    if err then s <| sw_poisoned := true |> <| sw_capture := "" |>
    else if sw_captureCap s <? blen (sw_capture s) + n then s <| sw_overflowed := true |> <| sw_capture := "" |>
    else s <| sw_capture := sw_capture s +:+ prefix_of n b |>
  else s.

Definition poisonDedupeCapture (s : statusWriter) : statusWriter := s <| sw_poisoned := true |>.

(** What the handler does with the writer. *)
Inductive WriterEvent := Header (code : Z) | Wrote (b : string) (n : Z) (err : bool) | Poison.

Definition writer_event (s : statusWriter) (ev : WriterEvent) : statusWriter :=
  match ev with
  | Header code => WriteHeader code s
  | Wrote b n err => Write b n err s
  | Poison => poisonDedupeCapture s
  end.

(** The writer after the claim is won and the events are over. *)
Definition written (events : list WriterEvent) : statusWriter :=
  fold_left writer_event events (armDedupeCapture idlessDedupeMaxEntryBytes new_writer).

(** The capture of [responsesAdapter], which translates the response on its way. *)
Record responsesAdapter := mkAdapter {
  ra_captureArmed : bool;
  ra_captureCap : Z;
  ra_capture : string;
  ra_overflowed : bool;
  ra_writeErr : bool;
}.

#[export] Instance rebuild_responsesAdapter : Rebuild responsesAdapter := fun a =>
  mkAdapter (ra_captureArmed a) (ra_captureCap a) (ra_capture a) (ra_overflowed a) (ra_writeErr a).

Definition captureDedupeBytes (p : string) (err : bool) (a : responsesAdapter) : responsesAdapter :=
  if negb (ra_captureArmed a) || ra_overflowed a then a
  else if err then a <| ra_capture := "" |>
  else if ra_captureCap a <? blen (ra_capture a) + blen p then a <| ra_overflowed := true |> <| ra_capture := "" |>
  else a <| ra_capture := ra_capture a +:+ p |>.

(** [writeFinalBytes], and [writeBytes] without its guard. *)
Definition writeFinalBytes (p : string) (n : Z) (err : bool) (a : responsesAdapter) : responsesAdapter :=
  let a := captureDedupeBytes (prefix_of n p) err a in
  if err || negb (n =? blen p) then a <| ra_writeErr := true |> else a.

Definition writeBytes (p : string) (n : Z) (err : bool) (a : responsesAdapter) : responsesAdapter :=
  if ra_writeErr a then a else writeFinalBytes p n err a.

Record AdapterWrite := mkAdapterWrite { aw_final : bool; aw_bytes : string; aw_n : Z; aw_err : bool }.

Definition adapter_write (a : responsesAdapter) (w : AdapterWrite) : responsesAdapter :=
  if aw_final w then writeFinalBytes (aw_bytes w) (aw_n w) (aw_err w) a
  else writeBytes (aw_bytes w) (aw_n w) (aw_err w) a.

Definition adapted (ws : list AdapterWrite) : responsesAdapter :=
  fold_left adapter_write ws (mkAdapter true idlessDedupeMaxEntryBytes "" false false).

Definition adapter_dedupeCapture (a : responsesAdapter) : option string :=
  if negb (ra_captureArmed a) || ra_overflowed a || ra_writeErr a || String.eqb (ra_capture a) "" then None
  else Some (ra_capture a).
Definition adapter_dedupeDeliveredButUncacheable (a : responsesAdapter) : bool :=
  ra_captureArmed a && ra_overflowed a && negb (ra_writeErr a).

(** How an owner ends: what it wrote, through the adapter for [/v1/responses] (its writes up
    to the end of [finish]), the headers of the response, whether the handler panicked and
    whether the buyer is gone ([r.Context().Err() != nil]). *)
Record Delivery := mkDelivery {
  dl_events : list WriterEvent;
  dl_adapter : option (list AdapterWrite);
  dl_contentType : string;
  dl_providerID : string;
  dl_panicked : bool;
  dl_gone : bool;
}.

(** The deferred function of the claim's winner: [Some] is a publication with that body. *)
Definition dedupe_terminal (d : Delivery) : option (option string) :=
  let sw := written (dl_events d) in
  if dl_panicked d then None
  else match dl_adapter d with
  | Some ws =>
      let adapter := adapted ws in
      if dedupeDelivered2xx sw && negb (dl_gone d) then
        match adapter_dedupeCapture adapter with
        | Some capture => Some (Some capture)
        | None => if adapter_dedupeDeliveredButUncacheable adapter then Some None else None
        end
      else if dedupeDeliveredButUncacheable sw && negb (dl_gone d) then Some None else None
  | None =>
      if dedupePublishable sw && negb (dl_gone d) then Some (dedupeCapture sw)
      else if dedupeDeliveredButUncacheable sw && negb (dl_gone d) then Some None else None
  end.

Definition response_of (d : Delivery) (body : option string) : Response :=
  mkResponse (sw_statusCode (written (dl_events d))) (dl_contentType d) (dl_providerID d) body.

(** ** The headers of a response sent again: [replayIdlessDuplicate] *)

Definition Headers : Type := gmap string (list string).

Definition settlement_header (name : string) : bool :=
  GoStr.HasPrefix (GoStr.ToLower name) "x-macprovider-settlement-".

Definition Set_ (name value : string) (h : Headers) : Headers := <[name := [value]]> h.

Definition setRateLimitHeaders (limit remaining reset : Z) (h : Headers) : Headers :=
  Set_ "X-Ratelimit-Reset" (pretty reset)
    (Set_ "X-Ratelimit-Remaining" (pretty remaining) (Set_ "X-Ratelimit-Limit" (pretty limit) h)).

(** The names are in the canonical form in which [http.Header] keeps them. *)
Definition replay_headers (snapshot : idlessDedupeReplay) (usage : result (Z * Z)) (dailyQuota reset : Z)
    (h : Headers) : Headers :=
  let h := filter (fun kv => settlement_header kv.1 = false) h in
  let h := delete "Retry-After" h in
  let h := if String.eqb (rp_contentType snapshot) "" then h else Set_ "Content-Type" (rp_contentType snapshot) h in
  let h := if String.eqb (rp_providerID snapshot) "" then h else Set_ "X-Provider-Id" (rp_providerID snapshot) h in
  let h := Set_ "X-Request-Id" (rp_requestID snapshot) h in
  let h := Set_ "X-Macprovider-Dedupe" "replay" h in
  match usage with
  | Ok (used, reserved) =>
      let remaining := Int64.sub (Int64.sub dailyQuota used) reserved in
      setRateLimitHeaders dailyQuota (if remaining <? 0 then 0 else remaining) reset h
  | Err _ => h
  end.

(** ** The requests *)

Record Request := mkRequest {
  (** the id the gateway gave it *)
  r_id : string;
  r_fingerprinted : Fingerprinted;
  (** the tokens it wants to reserve and the quota of its account *)
  r_tokens : Z;
  r_quota : Z;
  r_maxAge : Z;
}.

(** Where a request is. [own] is the entry of which it won the claim; [id] the id under
    which it goes on. *)
Inductive Phase :=
| Arrived
| Awaiting (l : nat)
| Parked (l : nat)
| Woken (l : nat)
| Reserving (id : string) (own : option nat)
| Dispatched (id : string) (own : option nat)
| Rejected (id : string) (own : option nat) (e : StoreError)
| Replayed (snapshot : idlessDedupeReplay)
| Published (l : nat) (d : Delivery)
| Dropped (l : nat)
| Ended.

Record Gateway := mkGateway {
  gw_index : idlessDedupeIndex;
  gw_store : Store;
  gw_requests : list (Request * Phase);
}.

#[export] Instance rebuild_Gateway : Rebuild Gateway := fun g => mkGateway (gw_index g) (gw_store g) (gw_requests g).

Definition empty_gateway : Gateway := mkGateway newIdlessDedupeIndex empty_store [].

Inductive Action :=
(** a new request that passed the validation, without an id and an idempotency key; the
    gateway's ids are UUIDs, none is given twice *)
| Arrive (r : Request)
| Claim (i : nat) (now : Z)
| Await (i : nat)
(** the [select] of [awaitTerminal] takes [done] or the end of the deadline *)
| Wake (i : nat)
| TimeOut (i : nat)
| Snapshot (i : nat) (now : Z)
(** the reservation; [fault] when the transaction fails, as it does once the buyer is gone *)
| Reserve (i : nat) (now : Z) (fault : bool)
(** the handler is over *)
| End_ (i : nat) (d : Delivery) (now : Z)
(** any other operation on the quota store *)
| StoreOp (op : QuotaOp).

Section Handler.
Variable sha256 : string -> string.
Variable order : gmap string nat -> list (string * nat).
(** [s.idlessDedupeWindow()], positive *)
Variable window : Z.

Definition fingerprint (r : Request) : string := idlessRequestFingerprint sha256 (r_fingerprinted r).

Definition known_id (id : string) (g : Gateway) : bool :=
  existsb (fun rp => String.eqb (r_id rp.1) id) (gw_requests g).

Definition requestID_at (x : idlessDedupeIndex) (l : nat) : string :=
  match ix_heap x !! l with Some e => e_requestID e | None => "" end.

Definition conflict (x : idlessDedupeIndex) : idlessDedupeIndex := x <| ix_conflictTotal := ix_conflictTotal x + 1 |>.

Definition reservation_request (r : Request) (id : string) (now : Z) : ReservationRequest :=
  mkReserve (fi_accountID (r_fingerprinted r)) id (String.substring 0 10 (rfc3339NanoText now))
    (r_tokens r) (r_quota r) (now + r_maxAge r) now.

(** [ReserveQuota] and what the handler makes of its error. Whatever else went wrong, a
    reservation of the id is refunded. *)
Definition reserve (r : Request) (id : string) (now : Z) (fault : bool) (s : Store)
    : Store * option StoreError :=
  let '(s, (decision, err)) :=
    if fault then (s, (no_decision, Some (ErrOther "context canceled")))
    else ReserveQuota s (reservation_request r id now) now in
  let refund s := (RefundReservation s (fi_accountID (r_fingerprinted r), id) (now / second)).1 in
  match err with
  | None => (s, None)
  | Some ErrQuotaExceeded => (s, Some ErrQuotaExceeded)
  | Some e =>
      let s := if Admitted_ decision then refund s else s in
      if negb (Admitted_ decision) && (RemainingTokens decision =? 0) && (0 <? LimitTokens decision) then (s, Some e)
      else match e with
           | ErrReservationExists => (s, Some e)
           | _ => (if Admitted_ decision then s else refund s, Some e)
           end
  end.

(** The deferred function is the winner's alone. Before the dispatch the handler has written
    nothing or an error, so that it drops the claim. *)
Definition end_phase (r : Request) (ph : Phase) (d : Delivery) (now : Z) (x : idlessDedupeIndex)
    : option (idlessDedupeIndex * Phase) :=
  match ph with
  | Dispatched _ (Some l) =>
      match dedupe_terminal d with
      | Some body => Some (publish order (fingerprint r) (r_id r) (response_of d body) now x, Published l d)
      | None => Some (drop (fingerprint r) (r_id r) x, Dropped l)
      end
  | Reserving _ (Some l) | Rejected _ (Some l) _ => Some (drop (fingerprint r) (r_id r) x, Dropped l)
  | Reserving _ None | Dispatched _ None | Rejected _ None _ => Some (x, Ended)
  | _ => None
  end.

(** One step of the [i]-th request, [None] when it cannot be made. *)
Definition request_step (a : Action) (r : Request) (ph : Phase) (x : idlessDedupeIndex) (s : Store)
    : option (idlessDedupeIndex * Store * Phase) :=
  match a, ph with
  | Claim _ now, Arrived =>
      let '(x, c) := claim order window (fingerprint r) (r_id r) now x in
      Some (x, s, match c with
                  | CapFull => Reserving (r_id r) None
                  | Adopted l => Awaiting l
                  | Won l => Reserving (r_id r) (Some l)
                  end)
  | Await _, Awaiting l =>
      match await_enter l x with
      | (x, AwaitParks) => Some (x, s, Parked l)
      | (x, AwaitReturns true) => Some (x, s, Woken l)
      | (x, AwaitReturns false) => Some (conflict x, s, Reserving (requestID_at x l) None)
      end
  | Wake _, Parked l =>
      match ix_heap x !! l with
      | Some e => if e_closed e then Some (await_leave l x, s, Woken l) else None
      | None => None
      end
  | TimeOut _, Parked l => Some (conflict (await_leave l x), s, Reserving (requestID_at x l) None)
  | Snapshot _ now, Woken l =>
      match replaySnapshot window l now x with
      | (x, Some snapshot) => Some (x <| ix_replayTotal := ix_replayTotal x + 1 |>, s, Replayed snapshot)
      | (x, None) => Some (conflict x, s, Reserving (requestID_at x l) None)
      end
  | Reserve _ now fault, Reserving id own =>
      let '(s, err) := reserve r id now fault s in
      Some (x, s, match err with None => Dispatched id own | Some e => Rejected id own e end)
  | End_ _ d now, ph => '(x, ph) ← end_phase r ph d now x; Some (x, s, ph)
  | _, _ => None
  end.

Definition who (a : Action) : option nat :=
  match a with
  | Claim i _ | Await i | Wake i | TimeOut i | Snapshot i _ | Reserve i _ _ | End_ i _ _ => Some i
  | Arrive _ | StoreOp _ => None
  end.

(** An action that cannot happen changes nothing. *)
Definition act (g : Gateway) (a : Action) : Gateway :=
  match a, who a with
  | Arrive r, _ => if known_id (r_id r) g then g else g <| gw_requests := gw_requests g ++ [(r, Arrived)] |>
  | StoreOp op, _ => g <| gw_store := run_op (gw_store g) op |>
  | _, None => g
  | _, Some i =>
      match gw_requests g !! i with
      | None => g
      | Some (r, ph) =>
          match request_step a r ph (gw_index g) (gw_store g) with
          | None => g
          | Some (x, s, ph) => mkGateway x s (<[i := (r, ph)]> (gw_requests g))
          end
      end
  end.

Definition run_gateway (actions : list Action) : Gateway := fold_left act actions empty_gateway.
End Handler.
