(* ===== verification/DedupeSafety.v ===== *)
(** What holds of the index of retries without an id and of the requests that share it.

    Shown: the counters of the index are the sums they stand for and its bounds hold
    ([reachable_index_ok]), a claim of a fingerprint is lost only by a drop, the window or
    the pressure on the map ([claim_kept]), in which case alone an identical retry can be
    reserved again ([retry_billed_once]), a response sent again is the complete response of a
    request with the same fingerprint ([replay_is_an_answer]) without the headers of its
    settlement ([replay_headers_clean]), and nobody waits for an entry whose owner is gone
    ([no_stranded_waiter]). The two loops of evictions run with as much fuel as there are
    mappings or bodies, and end at their bounds ([tidy_evict_mappings],
    [tidy_evict_bodies]). *)
From S2P Require Import Prelude GoTime Quota Dedupe.

(** ** The index, as sums over its entries *)

Definition body_bytes (e : idlessDedupeEntry) : Z := match e_body e with Some b => blen b | None => 0 end.
Definition body_one (e : idlessDedupeEntry) : Z := if is_body e then 1 else 0.
Definition open_one (e : idlessDedupeEntry) : Z := if e_closed e then 0 else 1.

(** An entry in the map is closed when it is completed, one that left it is closed and has
    no body, and the counters are the sums over all entries. *)
Record index_ok (x : idlessDedupeIndex) : Prop := mkIndexOk {
  io_mapped : forall fp l, ix_entries x !! fp = Some l ->
    exists e, ix_heap x !! l = Some e /\ e_closed e = e_completed e;
  io_inj : forall fp fp' l, ix_entries x !! fp = Some l -> ix_entries x !! fp' = Some l -> fp = fp';
  io_unmapped : forall l e, ix_heap x !! l = Some e -> (forall fp, ix_entries x !! fp <> Some l) ->
    e_closed e = true /\ e_body e = None;
  io_body : forall l e b, ix_heap x !! l = Some e -> e_body e = Some b ->
    e_completed e = true /\ 0 < blen b <= idlessDedupeMaxEntryBytes;
  io_bytes : ix_totalBytes x = sumZ body_bytes (ix_heap x);
  io_bodies : ix_bodyCount x = sumZ body_one (ix_heap x);
  io_flight : ix_inFlight x = sumZ open_one (ix_heap x);
}.

(** What the index promises about its memory. *)
Record index_bounded (x : idlessDedupeIndex) : Prop := mkBounded {
  ib_bytes : 0 <= ix_totalBytes x <= idlessDedupeMaxTotalBytes;
  ib_bodies : 0 <= ix_bodyCount x <= idlessDedupeMaxBodies;
  ib_flight : 0 <= ix_inFlight x <= idlessDedupeMaxInFlight;
  ib_mappings : mappings x <= idlessDedupeMaxMappings;
}.

Lemma sumZ_alter {A} (f : A -> Z) (g : A -> A) (h : list A) l e :
  h !! l = Some e -> sumZ f (alter g l h) = sumZ f h - f e + f (g e).
Proof.
  revert l. induction h as [|a h IH]; intros [|l] Hl; simpl in *; simplify_eq; [lia|].
  change (f a + sumZ f (alter g l h) = f a + sumZ f h - f e + f (g e)). rewrite (IH l Hl). lia.
Qed.

Lemma lookup_alter_some {A} (g : A -> A) (h : list A) l l' e' :
  alter g l h !! l' = Some e' <-> exists e, h !! l' = Some e /\ e' = if decide (l = l') then g e else e.
Proof.
  destruct (decide (l = l')) as [->|Hn].
  - rewrite list_lookup_alter_eq. destruct (h !! l') as [e|]; simpl; naive_solver.
  - rewrite list_lookup_alter_ne by done. naive_solver.
Qed.

Lemma alter_alter {A} (f g : A -> A) (h : list A) l : alter f l (alter g l h) = alter (fun e => f (g e)) l h.
Proof.
  apply list_eq. intros k. destruct (decide (l = k)) as [<-|].
  - rewrite !list_lookup_alter_eq. by destruct (h !! l).
  - by rewrite !list_lookup_alter_ne.
Qed.

Definition shut (e : idlessDedupeEntry) : idlessDedupeEntry := e <| e_body := None |> <| e_closed := true |>.

Lemma releaseBody_eq l e x : ix_heap x !! l = Some e ->
  releaseBodyLocked l x
  = x <| ix_heap := alter (fun e => e <| e_body := None |>) l (ix_heap x) |>
      <| ix_totalBytes := ix_totalBytes x - body_bytes e |> <| ix_bodyCount := ix_bodyCount x - body_one e |>.
Proof.
  intros Hl. unfold releaseBodyLocked, body_bytes, body_one, is_body. rewrite Hl. simpl.
  destruct (e_body e) as [b|] eqn:Hb; simpl; [done|].
  destruct x as [h]; simpl in *. unfold set_field; simpl. f_equal; [|lia..].
  apply list_eq. intros k. destruct (decide (l = k)) as [<-|].
  - rewrite list_lookup_alter_eq, Hl. simpl. f_equal. destruct e; simpl in *. by subst.
  - by rewrite list_lookup_alter_ne.
Qed.

Lemma remove_eq fp l e x : ix_heap x !! l = Some e ->
  removeLocked fp l x
  = x <| ix_heap := alter shut l (ix_heap x) |> <| ix_entries := delete fp (ix_entries x) |>
      <| ix_totalBytes := ix_totalBytes x - body_bytes e |> <| ix_bodyCount := ix_bodyCount x - body_one e |>
      <| ix_inFlight := ix_inFlight x - (if e_completed e then 0 else 1) |>.
Proof.
  intros Hl. unfold removeLocked, completed_at. simpl. rewrite Hl.
  set (y := if e_completed e then _ else _).
  assert (ix_heap y !! l = Some e) as Hy by (unfold y; by destruct (e_completed e)).
  rewrite (releaseBody_eq _ _ _ Hy). unfold closeLocked, on_entry. simpl.
  unfold y. destruct x as [h]; simpl in *.
  destruct (e_completed e); simpl; unfold set_field; simpl; f_equal; first [lia | by rewrite alter_alter].
Qed.

(** A change of an entry that keeps what the invariant says of it. *)
Lemma index_ok_alter g l x y :
  index_ok x -> ix_entries y = ix_entries x -> ix_heap y = alter g l (ix_heap x) ->
  (forall e, ix_heap x !! l = Some e ->
     e_closed (g e) = e_closed e /\ e_completed (g e) = e_completed e
     /\ (e_body (g e) = e_body e \/ e_body (g e) = None)) ->
  (forall e, ix_heap x !! l = Some e ->
     ix_totalBytes y = ix_totalBytes x - body_bytes e + body_bytes (g e)
     /\ ix_bodyCount y = ix_bodyCount x - body_one e + body_one (g e)) ->
  ix_inFlight y = ix_inFlight x -> is_Some (ix_heap x !! l) -> index_ok y.
Proof.
  intros [M I U B T C F] He Hh Hg Hc Hf [e Hl]. specialize (Hc e Hl) as [Ht Hb].
  constructor; rewrite ?He, ?Hh.
  - intros fp l' Hfp. destruct (M fp l' Hfp) as (e' & Hl' & Hcl).
    eexists. split; [by apply lookup_alter_some; eexists|].
    case_decide as Hd; [subst|done]. destruct (Hg e' Hl') as (-> & -> & _). done.
  - exact I.
  - intros l' e' Hl' Hn. apply lookup_alter_some in Hl' as (e0 & Hl' & ->). destruct (U _ _ Hl' Hn) as [Ho Hb0].
    case_decide as Hd; [subst|done]. destruct (Hg e0 Hl') as (-> & _ & [->| ->]); done.
  - intros l' e' b Hl' Hb'. apply lookup_alter_some in Hl' as (e0 & Hl' & ->).
    case_decide as Hd; [subst|by eapply B]. destruct (Hg e0 Hl') as (_ & -> & [E|E]); rewrite E in Hb'; [|done].
    by eapply B.
  - rewrite (sumZ_alter _ _ _ _ _ Hl). lia.
  - rewrite (sumZ_alter _ _ _ _ _ Hl). lia.
  - rewrite (sumZ_alter _ _ _ _ _ Hl), Hf, F. destruct (Hg e Hl) as (E & _). unfold open_one. rewrite E. lia.
Qed.

Lemma index_ok_release l x : index_ok x -> index_ok (releaseBodyLocked l x).
Proof.
  intros Hx. destruct (ix_heap x !! l) as [e|] eqn:Hl.
  2:{ unfold releaseBodyLocked. by rewrite Hl. }
  rewrite (releaseBody_eq _ _ _ Hl). eapply index_ok_alter; [done|done|done| | |done|by eexists].
  - intros e' _. simpl. by split_and!; [| |right].
  - intros e' He'. rewrite Hl in He'. simplify_eq. unfold body_bytes, body_one, is_body. simpl. lia.
Qed.

Lemma index_ok_remove fp l x : index_ok x -> ix_entries x !! fp = Some l -> index_ok (removeLocked fp l x).
Proof.
  intros [M I U B T C F] Hfp. destruct (M _ _ Hfp) as (e & Hl & Hc). rewrite (remove_eq _ _ _ _ Hl).
  constructor; simpl.
  - intros fp' l' Hf. apply lookup_delete_Some in Hf as [Hn Hf]. destruct (M _ _ Hf) as (e' & Hl' & ?).
    exists e'. split; [|done]. rewrite list_lookup_alter_ne; [done|]. intros ->. by apply Hn, (I _ _ l').
  - intros fp1 fp2 l' H1 H2. apply lookup_delete_Some in H1 as [_ H1], H2 as [_ H2]. by eapply I.
  - intros l' e' Hl' Hn. apply lookup_alter_some in Hl' as (e0 & Hl' & ->). case_decide as Hd; [done|].
    apply (U _ _ Hl'). intros fp' Hf. apply (Hn fp'), lookup_delete_Some. split; [|done]. intros ->. congruence.
  - intros l' e' b Hl' Hb. apply lookup_alter_some in Hl' as (e0 & Hl' & ->). case_decide; [done|]. by eapply B.
  - rewrite (sumZ_alter _ _ _ _ _ Hl), T. change (body_bytes (shut e)) with 0. lia.
  - rewrite (sumZ_alter _ _ _ _ _ Hl), C. change (body_one (shut e)) with 0. lia.
  - rewrite (sumZ_alter _ _ _ _ _ Hl), F. change (open_one (shut e)) with 0.
    assert (open_one e = if e_completed e then 0 else 1) as -> by (unfold open_one; by rewrite Hc). lia.
Qed.

(** *** Housekeeping *)

(** What an entry keeps while other requests use the index. *)
Record kept (e e' : idlessDedupeEntry) : Prop := mkKept {
  k_id : e_requestID e' = e_requestID e;
  k_completed : e_completed e' = e_completed e;
  k_status : e_status e' = e_status e;
  k_contentType : e_contentType e' = e_contentType e;
  k_providerID : e_providerID e' = e_providerID e;
  k_terminalAt : e_terminalAt e' = e_terminalAt e;
  k_body : e_body e' = e_body e \/ e_body e' = None;
  k_closed : e_closed e = true -> e_closed e' = true;
  k_waiters : e_waiters e' = e_waiters e;
}.

Section Housekeeping.
Context (order : gmap string nat -> list (string * nat)) (window : Z).

(** The entries stay, the map loses mappings only, and those only of completed entries
    after the window or under pressure. *)
Record trims (now : Z) (x x' : idlessDedupeIndex) : Prop := mkTrims {
  tr_heap : Forall2 kept (ix_heap x) (ix_heap x');
  tr_sub : forall fp l, ix_entries x' !! fp = Some l -> ix_entries x !! fp = Some l;
  tr_lost : forall fp l e, ix_entries x !! fp = Some l -> ix_heap x !! l = Some e ->
    ix_entries x' !! fp = Some l
    \/ e_completed e = true
       /\ (expired window now e = true \/ ix_mappingPressureEvictions x < ix_mappingPressureEvictions x');
  tr_pressure : ix_mappingPressureEvictions x <= ix_mappingPressureEvictions x';
}.

Lemma kept_refl e : kept e e.
Proof. constructor; auto. Qed.

Lemma entry_kept_trans e1 e2 e3 : kept e1 e2 -> kept e2 e3 -> kept e1 e3.
Proof.
  intros [] []. constructor; [congruence..| |auto|congruence].
  destruct k_body1 as [->|?]; [done|by right].
Qed.

Lemma kept_expired now e e' : kept e e' -> expired window now e' = expired window now e.
Proof. intros []. unfold expired. congruence. Qed.

Lemma trims_refl now x : trims now x x.
Proof. constructor; auto; [|lia]. apply Forall2_refl_on, kept_refl. Qed.

Lemma trims_trans now x1 x2 x3 : trims now x1 x2 -> trims now x2 x3 -> trims now x1 x3.
Proof.
  intros [H1 S1 L1 P1] [H2 S2 L2 P2]. constructor.
  - eapply Forall2_compose; [apply entry_kept_trans|done|done].
  - auto.
  - intros fp l e Hf Hl. destruct (L1 _ _ _ Hf Hl) as [Hf2|[Hc [He|Hp]]]; [|by right; auto|right; split; [done|right; lia]].
    destruct (Forall2_lookup_l _ _ _ _ _ H1 Hl) as (e2 & Hl2 & Hk).
    destruct (L2 _ _ _ Hf2 Hl2) as [?|[Hc [He|Hp]]]; [by left|right..].
    + rewrite (kept_expired now _ _ Hk) in He. rewrite <- (k_completed _ _ Hk). auto.
    + rewrite <- (k_completed _ _ Hk). split; [done|right; lia].
  - lia.
Qed.

Lemma trims_alter now g l x y :
  (forall e, ix_heap x !! l = Some e -> kept e (g e)) -> ix_heap y = alter g l (ix_heap x) ->
  ix_entries y = ix_entries x -> ix_mappingPressureEvictions y = ix_mappingPressureEvictions x -> trims now x y.
Proof.
  intros Hg Hh He Hp. constructor; rewrite ?He, ?Hp; auto; [|lia].
  rewrite Hh. apply Forall2_same_length_lookup_2; [by rewrite length_alter|].
  intros i a b Ha Hb. apply lookup_alter_some in Hb as (a' & Ha' & ->). simplify_eq.
  case_decide; [subst; by apply Hg|apply kept_refl].
Qed.

Lemma trims_release now l x : trims now x (releaseBodyLocked l x).
Proof.
  destruct (ix_heap x !! l) as [e|] eqn:Hl.
  2:{ unfold releaseBodyLocked. rewrite Hl. apply trims_refl. }
  rewrite (releaseBody_eq _ _ _ Hl). eapply trims_alter; [|done..]. intros e' _. constructor; auto.
Qed.

(** Removing a mapping of a completed entry, for one of the two reasons. *)
Lemma trims_remove now fp l e x y :
  ix_entries x !! fp = Some l -> ix_heap x !! l = Some e -> e_completed e = true ->
  ix_heap y = alter shut l (ix_heap x) -> ix_entries y = delete fp (ix_entries x) ->
  (expired window now e = true /\ ix_mappingPressureEvictions y = ix_mappingPressureEvictions x
   \/ ix_mappingPressureEvictions y = ix_mappingPressureEvictions x + 1) -> trims now x y.
Proof.
  intros Hf Hl Hc Hh He Hr. constructor.
  - rewrite Hh. apply Forall2_same_length_lookup_2; [by rewrite length_alter|].
    intros i a b Ha Hb. apply lookup_alter_some in Hb as (a' & Ha' & ->). simplify_eq.
    case_decide; [|apply kept_refl]. constructor; simpl; auto.
  - rewrite He. intros fp' l' H. by apply lookup_delete_Some in H as [_ ?].
  - intros fp' l' e' Hf' Hl'. destruct (decide (fp = fp')) as [<-|Hn].
    + right. simplify_eq. split; [done|]. destruct Hr as [[? _]|?]; [by left|right; lia].
    + left. by rewrite He, lookup_delete_ne.
  - destruct Hr as [[_ ->]| ->]; lia.
Qed.

(** Housekeeping keeps the invariant and raises no counter. *)
Record tidy (now : Z) (x x' : idlessDedupeIndex) : Prop := mkTidy {
  td_ok : index_ok x';
  td_trims : trims now x x';
  td_flight : ix_inFlight x' = ix_inFlight x;
  td_bytes : ix_totalBytes x' <= ix_totalBytes x;
  td_bodies : ix_bodyCount x' <= ix_bodyCount x;
}.

Lemma tidy_refl now x : index_ok x -> tidy now x x.
Proof. intros. constructor; [done|apply trims_refl|lia..]. Qed.

Lemma tidy_trans now x1 x2 x3 : tidy now x1 x2 -> tidy now x2 x3 -> tidy now x1 x3.
Proof. intros [] []. constructor; [done|by eapply trims_trans|lia..]. Qed.

Lemma body_bytes_nonneg e : 0 <= body_bytes e.
Proof. unfold body_bytes, blen. destruct (e_body e); lia. Qed.
Lemma body_one_nonneg e : 0 <= body_one e.
Proof. unfold body_one. destruct (is_body e); lia. Qed.
Lemma open_one_nonneg e : 0 <= open_one e.
Proof. unfold open_one. destruct (e_closed e); lia. Qed.

Lemma tidy_release now l x : index_ok x -> tidy now x (releaseBodyLocked l x).
Proof.
  intros Hx. constructor; [by apply index_ok_release|apply trims_release|..];
    (destruct (ix_heap x !! l) as [e|] eqn:Hl;
     [rewrite (releaseBody_eq _ _ _ Hl); simpl; pose proof (body_bytes_nonneg e); pose proof (body_one_nonneg e); lia
     |unfold releaseBodyLocked; rewrite Hl; simpl; lia]).
Qed.

Lemma tidy_remove now fp l e x y :
  index_ok x -> ix_entries x !! fp = Some l -> ix_heap x !! l = Some e -> e_completed e = true ->
  (expired window now e = true /\ y = removeLocked fp l x
   \/ y = (removeLocked fp l x) <| ix_mappingPressureEvictions := ix_mappingPressureEvictions x + 1 |>) ->
  tidy now x y.
Proof.
  intros Hx Hf Hl Hc Hy. pose proof (index_ok_remove _ _ _ Hx Hf) as Hr.
  pose proof (body_bytes_nonneg e). pose proof (body_one_nonneg e).
  rewrite (remove_eq _ _ _ _ Hl), Hc in *. destruct Hy as [[He ->]| ->].
  - constructor; [done| |simpl; lia..]. eapply trims_remove; [done..|by left].
  - constructor; [destruct Hr; by constructor| |simpl; lia..]. eapply trims_remove; [done..|by right].
Qed.

Lemma prune_visits now visits : forall x,
  index_ok x -> NoDup visits.*1 -> (forall fp l, (fp, l) ∈ visits -> ix_entries x !! fp = Some l) ->
  tidy now x (fold_left (prune_visit window now) visits x).
Proof.
  induction visits as [|[fp l] visits IH]; intros x Hx Hd Hv; simpl; [by apply tidy_refl|].
  simpl in Hd. apply NoDup_cons in Hd as [Hn Hd].
  pose proof (Hv fp l ltac:(by left)) as Hf. destruct (io_mapped _ Hx _ _ Hf) as (e & Hl & _).
  unfold prune_visit at 2. simpl. rewrite Hl. destruct (expired window now e) eqn:He.
  2:{ apply IH; [done..|]. intros. apply Hv. by right. }
  assert (e_completed e = true) as Hc by (unfold expired in He; by bool_hyps).
  eapply tidy_trans; [apply (tidy_remove now fp l e x (removeLocked fp l x)); auto|].
  apply IH; [by apply index_ok_remove|done|].
  intros fp' l' Hin. rewrite (remove_eq _ _ _ _ Hl). simpl. rewrite lookup_delete_ne; [apply Hv; by right|].
  intros <-. apply Hn. apply list_elem_of_fmap. by exists (fp, l').
Qed.

Context (Hord : enumerates order).

Lemma visits_nodup m : NoDup (order m).*1.
Proof. rewrite (Hord m). apply NoDup_fst_map_to_list. Qed.

Lemma visits_elem m fp l : (fp, l) ∈ order m <-> m !! fp = Some l.
Proof. rewrite (Hord m). apply elem_of_map_to_list. Qed.

Lemma tidy_prune now x : index_ok x -> tidy now x (pruneExpiredLocked order window now x).
Proof.
  intros Hx. unfold pruneExpiredLocked.
  assert (tidy now x (x <| ix_lastPruned := now |>)) as H0.
  { constructor; [destruct Hx; by constructor| |simpl; lia..].
    destruct (trims_refl now x). by constructor. }
  eapply tidy_trans; [exact H0|]. apply prune_visits; [apply H0|apply visits_nodup|].
  intros fp l Hin. by apply visits_elem in Hin.
Qed.

(** The loop finds an entry that satisfies [p] exactly when there is one, and the least
    recently seen of them. *)
Definition oldest_of (p : idlessDedupeEntry -> bool) (h : list idlessDedupeEntry) (visits : list (string * nat))
    (best : option (string * nat * idlessDedupeEntry)) : Prop :=
  match best with
  | None => forall kv e, kv ∈ visits -> h !! kv.2 = Some e -> p e = false
  | Some (kv, b) =>
      kv ∈ visits /\ h !! kv.2 = Some b /\ p b = true
      /\ forall kv' e, kv' ∈ visits -> h !! kv'.2 = Some e -> p e = true -> e_lastSeen b <= e_lastSeen e
  end.

Lemma oldest_visits p h : forall visits before best,
  oldest_of p h before best -> oldest_of p h (before ++ visits) (fold_left (oldest_visit p h) visits best).
Proof.
  induction visits as [|kv visits IH]; intros before best Hb; simpl; [by rewrite app_nil_r|].
  replace (before ++ kv :: visits) with ((before ++ [kv]) ++ visits) by by rewrite <- app_assoc.
  apply IH. unfold oldest_visit.
  destruct (h !! kv.2) as [e|] eqn:He; [destruct (p e) eqn:Hp|];
    destruct best as [[kv0 b]|]; simpl in *; try destruct (_ <? _) eqn:Hlt; simpl;
    setoid_rewrite elem_of_app; setoid_rewrite list_elem_of_singleton; try solve [naive_solver];
    first [destruct Hb as (? & ? & ? & Hle)|pose proof Hb as Hle]; split_and!; auto;
    intros kv' e' [Hin| ->] Hh Hpe; simplify_eq; try lia; try congruence;
    specialize (Hle kv' e' Hin Hh); try specialize (Hle Hpe); first [lia|congruence].
Qed.

Lemma oldest_spec p x : oldest_of p (ix_heap x) (order (ix_entries x)) (oldest order p x).
Proof. apply (oldest_visits _ _ _ []). simpl. set_solver. Qed.

Lemma oldest_some p x fp l e :
  oldest order p x = Some (fp, l, e) -> ix_entries x !! fp = Some l /\ ix_heap x !! l = Some e /\ p e = true.
Proof.
  intros H. pose proof (oldest_spec p x) as Ho. rewrite H in Ho. destruct Ho as (Hin & ? & ? & _).
  by apply visits_elem in Hin.
Qed.

Lemma oldest_none p x fp l e :
  oldest order p x = None -> ix_entries x !! fp = Some l -> ix_heap x !! l = Some e -> p e = false.
Proof.
  intros H Hf Hl. pose proof (oldest_spec p x) as Ho. rewrite H in Ho. simpl in Ho.
  apply (Ho (fp, l)); [by apply visits_elem|done].
Qed.

(** [evict_mappings] ends below the bound or without a completed entry. *)
Lemma tidy_evict_mappings now n : forall x, index_ok x ->
  tidy now x (evict_mappings order n x)
  /\ ((size (ix_entries x) < n)%nat ->
      mappings (evict_mappings order n x) < idlessDedupeMaxMappings
      \/ oldest order e_completed (evict_mappings order n x) = None).
Proof.
  induction n as [|n IH]; intros x Hx; simpl; [split; [by apply tidy_refl|lia]|].
  destruct (mappings x <? idlessDedupeMaxMappings) eqn:Hm.
  { split; [by apply tidy_refl|]. left. lia. }
  unfold evictOldestMappingLocked. destruct (oldest order e_completed x) as [[[fp l] e]|] eqn:Ho.
  2:{ split; [by apply tidy_refl|]. by right. }
  destruct (oldest_some _ _ _ _ _ Ho) as (Hf & Hl & Hc).
  lazymatch goal with |- tidy _ _ (evict_mappings _ _ ?z) /\ _ => set (y := z) end.
  assert (tidy now x y) as Hy.
  { eapply tidy_remove; eauto. right. unfold y. by rewrite (remove_eq _ _ _ _ Hl). }
  destruct (IH y) as [Ht Hn]; [apply Hy|]. split; [by eapply tidy_trans|].
  intros Hs. apply Hn. unfold y. rewrite (remove_eq _ _ _ _ Hl). simpl.
  assert (size (ix_entries x) <> 0)%nat by (intros E%map_size_empty_inv; rewrite E in Hf; done).
  rewrite map_size_delete, Hf. simpl. lia.
Qed.

Lemma open_places ls : forall h : list idlessDedupeEntry,
  NoDup ls -> (forall l, l ∈ ls -> exists e, h !! l = Some e /\ e_closed e = false) ->
  Z.of_nat (length ls) <= sumZ open_one h.
Proof.
  induction ls as [|l ls IH]; intros h Hd Ho; [apply sumZ_nonneg; intros; apply open_one_nonneg|].
  apply NoDup_cons in Hd as [Hn Hd]. destruct (Ho l ltac:(by left)) as (e & Hl & He).
  specialize (IH (alter (fun e => e <| e_closed := true |>) l h) Hd).
  rewrite (sumZ_alter _ _ _ _ _ Hl) in IH. unfold open_one at 2 3 in IH. simpl in *. rewrite He in IH.
  enough (Z.of_nat (length ls) <= sumZ open_one h - 1 + 0) by lia. apply IH.
  intros l' Hl'. rewrite list_lookup_alter_ne by (intros ->; done). apply Ho. by right.
Qed.

(** Without a completed entry the map is no larger than what is in flight. *)
Lemma all_in_flight x : index_ok x -> oldest order e_completed x = None -> mappings x <= ix_inFlight x.
Proof.
  intros Hx Ho. unfold mappings. rewrite (io_flight _ Hx).
  replace (size (ix_entries x)) with (length (map_to_list (ix_entries x)).*2)
    by (rewrite length_fmap; apply length_map_to_list).
  apply open_places.
  - apply NoDup_fmap_2_strong; [|apply NoDup_map_to_list].
    intros [fp l] [fp' l'] H H' He. simpl in He. subst l'.
    apply elem_of_map_to_list in H, H'. by rewrite (io_inj _ Hx _ _ _ H H').
  - intros l Hl. apply list_elem_of_fmap in Hl as ([fp l'] & -> & Hf). apply elem_of_map_to_list in Hf.
    destruct (io_mapped _ Hx _ _ Hf) as (e & Hl & Hc). exists e. split; [done|].
    rewrite Hc. by eapply oldest_none.
Qed.

Lemma trims_mappings now x x' : trims now x x' -> mappings x' <= mappings x.
Proof.
  intros H. unfold mappings.
  enough (size (ix_entries x') <= size (ix_entries x))%nat by lia.
  apply map_subseteq_size, map_subseteq_spec, H.
Qed.

(** Room for a new entry, or everything is in flight. *)
Lemma prune_for_insert now x : index_ok x -> mappings x <= idlessDedupeMaxMappings ->
  tidy now x (pruneForInsertLocked order window now x)
  /\ (ix_inFlight x < idlessDedupeMaxInFlight ->
      mappings (pruneForInsertLocked order window now x) < idlessDedupeMaxMappings).
Proof.
  intros Hx Hm. unfold pruneForInsertLocked. pose proof (tidy_prune now x Hx) as Hp.
  destruct (mappings x <? idlessDedupeMaxMappings) eqn:Hlt.
  - destruct (_ && _); [by split; [apply tidy_refl|lia]|]. split; [done|].
    pose proof (trims_mappings _ _ _ (td_trims _ _ _ Hp)). lia.
  - set (y := pruneExpiredLocked order window now x) in *.
    destruct (tidy_evict_mappings now (S (size (ix_entries y))) y (td_ok _ _ _ Hp)) as [Ht He].
    split; [by eapply tidy_trans|]. intros Hf. destruct (He ltac:(lia)) as [?|Ho]; [done|].
    pose proof (all_in_flight _ (td_ok _ _ _ Ht) Ho) as Ha.
    rewrite (td_flight _ _ _ Ht), (td_flight _ _ _ Hp) in Ha.
    unfold idlessDedupeMaxInFlight, idlessDedupeMaxMappings in *. lia.
Qed.

Lemma no_bodies x : index_ok x -> oldest order is_body x = None ->
  ix_totalBytes x = 0 /\ ix_bodyCount x = 0.
Proof.
  intros Hx Ho.
  assert (forall e, e ∈ ix_heap x -> e_body e = None) as Hn.
  { intros e [l Hl]%list_elem_of_lookup. destruct (e_body e) as [b|] eqn:Hb; [|done].
    destruct (io_unmapped _ Hx l e Hl) as [_ ?]; [|congruence]. intros fp Hf.
    pose proof (oldest_none _ _ _ _ _ Ho Hf Hl) as Hp. unfold is_body in Hp. by rewrite Hb in Hp. }
  rewrite (io_bytes _ Hx), (io_bodies _ Hx).
  assert (forall f : idlessDedupeEntry -> Z, (forall e, e ∈ ix_heap x -> f e = 0) -> sumZ f (ix_heap x) = 0) as H0.
  { intros f Hf. induction (ix_heap x) as [|e h IH]; simpl; [done|].
    rewrite (Hf e) by (by left). rewrite IH; [done| |]; intros; [apply Hn|apply Hf]; by right. }
  split; apply H0; intros e He; unfold body_bytes, body_one, is_body; by rewrite (Hn e He).
Qed.

(** [evict_bodies] ends within the bounds. *)
Lemma tidy_evict_bodies now n : forall x, index_ok x ->
  tidy now x (evict_bodies order n x)
  /\ (ix_bodyCount x < Z.of_nat n ->
      ix_totalBytes (evict_bodies order n x) <= idlessDedupeMaxTotalBytes
      /\ ix_bodyCount (evict_bodies order n x) <= idlessDedupeMaxBodies).
Proof.
  induction n as [|n IH]; intros x Hx; simpl.
  { split; [by apply tidy_refl|]. rewrite (io_bodies _ Hx).
    pose proof (sumZ_nonneg body_one (ix_heap x) (fun e _ => body_one_nonneg e)). lia. }
  destruct (_ || _) eqn:Hc; [|split; [by apply tidy_refl|]; bool_hyps; lia].
  destruct (oldest order is_body x) as [[[fp l] e]|] eqn:Ho.
  2:{ split; [by apply tidy_refl|]. destruct (no_bodies _ Hx Ho) as [-> ->].
      unfold idlessDedupeMaxTotalBytes, idlessDedupeMaxBodies. lia. }
  destruct (oldest_some _ _ _ _ _ Ho) as (Hf & Hl & Hp).
  destruct (IH _ (index_ok_release l x Hx)) as [Ht Hn].
  split; [eapply tidy_trans; [by apply tidy_release|done]|].
  intros Hb. apply Hn. rewrite (releaseBody_eq _ _ _ Hl). simpl. unfold body_one. rewrite Hp. lia.
Qed.
End Housekeeping.

(** *** The operations *)

Section Operations.
Context (order : gmap string nat -> list (string * nat)) (window : Z) (Hord : enumerates order).

Definition index_good (x : idlessDedupeIndex) : Prop := index_ok x /\ index_bounded x.

Lemma counters_nonneg x : index_ok x -> 0 <= ix_totalBytes x /\ 0 <= ix_bodyCount x /\ 0 <= ix_inFlight x.
Proof.
  intros [_ _ _ _ -> -> ->]. split_and!; apply sumZ_nonneg; intros e _;
    [apply body_bytes_nonneg|apply body_one_nonneg|apply open_one_nonneg].
Qed.

Lemma good_new : index_good newIdlessDedupeIndex.
Proof.
  split; constructor; simpl; try done; try set_solver;
    unfold mappings, idlessDedupeMaxMappings; simpl; lia.
Qed.

Lemma good_tidy now x x' : index_good x -> tidy window now x x' -> index_good x'.
Proof.
  intros [Ho Hb] Ht. split; [apply Ht|].
  pose proof (counters_nonneg _ (td_ok _ _ _ _ Ht)) as (? & ? & ?).
  pose proof (trims_mappings _ _ _ _ (td_trims _ _ _ _ Ht)). destruct Ht, Hb. constructor; lia.
Qed.

(** The counters that are only counted do not matter. *)
Lemma good_counters x y : index_good x ->
  ix_heap y = ix_heap x -> ix_entries y = ix_entries x -> ix_totalBytes y = ix_totalBytes x ->
  ix_bodyCount y = ix_bodyCount x -> ix_inFlight y = ix_inFlight x -> index_good y.
Proof.
  intros [[] []] Hh He Ht Hb Hf. split; constructor; unfold mappings in *; rewrite ?Hh, ?He, ?Ht, ?Hb, ?Hf; auto.
Qed.

Lemma alter_none {A} (g : A -> A) (h : list A) l : h !! l = None -> alter g l h = h.
Proof.
  intros Hl. apply list_eq. intros k. destruct (decide (l = k)) as [<-|].
  - by rewrite list_lookup_alter_eq, Hl.
  - by rewrite list_lookup_alter_ne.
Qed.

(** Writing the last time seen or the waiters. *)
Lemma good_touch g l x :
  index_good x ->
  (forall e, e_closed (g e) = e_closed e /\ e_completed (g e) = e_completed e /\ e_body (g e) = e_body e) ->
  index_good (on_entry l g x).
Proof.
  intros [Ho Hb] Hg. split; [|by destruct Hb; constructor].
  destruct (ix_heap x !! l) as [e|] eqn:Hl.
  - eapply (index_ok_alter g l x); [done|done|done| | |done|by eexists].
    + intros e' _. destruct (Hg e') as (? & ? & ?). auto.
    + intros e' _. destruct (Hg e') as (_ & _ & E). unfold body_bytes, body_one, is_body. simpl. rewrite E. lia.
  - unfold on_entry. simpl. rewrite (alter_none g _ _ Hl). by destruct Ho; constructor.
Qed.

(** A new entry. *)
Definition alloc (fp requestID : string) (now : Z) (x : idlessDedupeIndex) : idlessDedupeIndex :=
  x <| ix_heap := ix_heap x ++ [mkEntry requestID false false 0 "" "" None zero_time now 0] |>
    <| ix_entries := <[fp := length (ix_heap x)]> (ix_entries x) |> <| ix_inFlight := ix_inFlight x + 1 |>.

Lemma good_alloc fp id now x :
  index_good x -> ix_entries x !! fp = None -> ix_inFlight x < idlessDedupeMaxInFlight ->
  mappings x < idlessDedupeMaxMappings -> index_good (alloc fp id now x).
Proof.
  intros [[M I U B T C F] []] Hf Hc Hm.
  assert (forall fp' l', ix_entries x !! fp' = Some l' -> l' <> length (ix_heap x)) as Hnew.
  { intros fp' l' H. destruct (M _ _ H) as (e & Hl & _). apply lookup_lt_Some in Hl. lia. }
  split; constructor; simpl; rewrite ?sumZ_app; simpl; try lia.
  - intros fp' l' H. destruct (decide (fp = fp')) as [<-|Hn].
    + rewrite lookup_insert_eq in H. simplify_eq. rewrite lookup_app_r, Nat.sub_diag by lia. by eexists.
    + rewrite lookup_insert_ne in H by done. destruct (M _ _ H) as (e & Hl & ?). exists e.
      split; [|done]. by apply lookup_app_l_Some.
  - intros fp1 fp2 l' H1 H2. apply lookup_insert_Some in H1 as [[<- <-]|[? H1]], H2 as [[<- E]|[? H2]];
      subst; [done| | |by eapply I]; by edestruct Hnew.
  - intros l' e' Hl' Hn. apply lookup_app_Some in Hl' as [Hl'|[Hge Hl']].
    + apply (U _ _ Hl'). intros fp' H. apply (Hn fp'). rewrite lookup_insert_ne; [done|]. intros <-. congruence.
    + apply list_lookup_singleton_Some in Hl' as [Hz <-]. destruct (Hn fp). rewrite lookup_insert_eq. f_equal. lia.
  - intros l' e' b Hl' Hb. apply lookup_app_Some in Hl' as [Hl'|[_ Hl']]; [by eapply B|].
    apply list_lookup_singleton_Some in Hl' as [_ <-]. done.
  - change (ix_totalBytes x = sumZ body_bytes (ix_heap x) + (0 + 0)). lia.
  - change (ix_bodyCount x = sumZ body_one (ix_heap x) + (0 + 0)). lia.
  - change (ix_inFlight x + 1 = sumZ open_one (ix_heap x) + (1 + 0)). lia.
  - unfold mappings, alloc in *. simpl. rewrite map_size_insert, Hf. simpl. lia.
Qed.

(** What [claim] does, by its result. *)
Definition claimed (fp id : string) (now : Z) (x x' : idlessDedupeIndex) (c : ClaimResult) : Prop :=
  match c with
  | Adopted l =>
      ix_entries x !! fp = Some l /\ x' = on_entry l (fun e => e <| e_lastSeen := now |>) x
      /\ exists e, ix_heap x !! l = Some e /\ expired window now e = false
  | Won l =>
      exists y, tidy window now x y /\ ix_entries y !! fp = None /\ l = length (ix_heap y) /\ x' = alloc fp id now y
      /\ index_good y /\ ix_inFlight y < idlessDedupeMaxInFlight
  | CapFull =>
      exists y, tidy window now x y /\ x' = y <| ix_inflightCapSkips := ix_inflightCapSkips y + 1 |>
  end.

Lemma claim_new_spec fp id now x x' c :
  index_good x -> ix_entries x !! fp = None -> claim_new order window fp id now x = (x', c) ->
  claimed fp id now x x' c /\ index_good x'.
Proof.
  intros Hx Hf. pose proof Hx as [Ho Hb]. unfold claim_new.
  destruct (prune_for_insert order window Hord now x Ho (ib_mappings _ Hb)) as [Ht Hm].
  set (y := pruneForInsertLocked order window now x) in *.
  pose proof (good_tidy _ _ _ Hx Ht) as Hy.
  destruct (idlessDedupeMaxInFlight <=? ix_inFlight y) eqn:Hc; intros [= <- <-].
  - split; [by exists y|]. by eapply good_counters.
  - assert (ix_entries y !! fp = None) as Hfy.
    { destruct (ix_entries y !! fp) as [l|] eqn:E; [|done].
      apply (tr_sub _ _ _ _ (td_trims _ _ _ _ Ht)) in E. congruence. }
    pose proof (td_flight _ _ _ _ Ht). split; [exists y; split_and!; try done; lia|].
    apply (good_alloc fp id now y Hy Hfy); [lia|]. apply Hm. lia.
Qed.

Lemma claim_spec fp id now x x' c :
  index_good x -> claim order window fp id now x = (x', c) -> claimed fp id now x x' c /\ index_good x'.
Proof.
  intros Hx. unfold claim. destruct (ix_entries x !! fp) as [l|] eqn:Hf; [|by apply claim_new_spec].
  pose proof Hx as [Ho _]. destruct (io_mapped _ Ho _ _ Hf) as (e & Hl & _). rewrite Hl.
  destruct (expired window now e) eqn:He.
  - intros Hc. assert (tidy window now x (removeLocked fp l x)) as Ht.
    { eapply tidy_remove; eauto. unfold expired in He. by bool_hyps. }
    apply claim_new_spec in Hc as [Hc Hg]; [|by eapply good_tidy|].
    + split; [|done]. destruct c as [l'|l'|].
      * destruct Hc as (Hf' & _). rewrite (remove_eq _ _ _ _ Hl) in Hf'. simpl in Hf'.
        by rewrite lookup_delete_eq in Hf'.
      * destruct Hc as (y & ? & ?). exists y. split; [by eapply tidy_trans|done].
      * destruct Hc as (y & ? & ?). exists y. split; [by eapply tidy_trans|done].
    + rewrite (remove_eq _ _ _ _ Hl). simpl. apply lookup_delete_eq.
  - intros [= <- <-]. split; [split_and!; eauto|]. apply good_touch; [done|]. by intros.
Qed.

(** The entry of a published response. *)
Definition complete (r : Response) (now : Z) (e : idlessDedupeEntry) : idlessDedupeEntry :=
  mkEntry (e_requestID e) true true (rs_status r) (rs_contentType r) (rs_providerID r)
    (if cacheable (rs_body r) then rs_body r else e_body e) now now (e_waiters e).

Lemma open_no_body x l e : index_ok x -> ix_heap x !! l = Some e -> e_completed e = false -> e_body e = None.
Proof.
  intros Hx Hl Hc. destruct (e_body e) as [b|] eqn:Hb; [|done].
  destruct (io_body _ Hx _ _ _ Hl Hb). congruence.
Qed.

Lemma complete_body r now e : e_body e = None ->
  body_bytes (complete r now e) = (if cacheable (rs_body r) then blen (default "" (rs_body r)) else 0)
  /\ body_one (complete r now e) = (if cacheable (rs_body r) then 1 else 0).
Proof.
  intros Hb. unfold body_bytes, body_one, is_body, complete, cacheable. simpl.
  destruct (rs_body r) as [b|]; [destruct (_ && _)|]; simpl; rewrite ?Hb; done.
Qed.

Lemma index_ok_complete r now l e fp x y :
  index_ok x -> ix_entries x !! fp = Some l -> ix_heap x !! l = Some e -> e_completed e = false ->
  ix_entries y = ix_entries x -> ix_heap y = alter (complete r now) l (ix_heap x) ->
  ix_totalBytes y = ix_totalBytes x + (if cacheable (rs_body r) then blen (default "" (rs_body r)) else 0) ->
  ix_bodyCount y = ix_bodyCount x + (if cacheable (rs_body r) then 1 else 0) ->
  ix_inFlight y = ix_inFlight x - 1 -> index_ok y.
Proof.
  intros Hx Hf Hl Hc He Hh Ht Hb Hi. pose proof (open_no_body _ _ _ Hx Hl Hc) as Hn.
  destruct (complete_body r now e Hn) as [Hbb Hbo]. destruct Hx as [M I U B T C F].
  constructor; rewrite ?He, ?Hh.
  - intros fp' l' H. destruct (M _ _ H) as (e' & Hl' & Hcl). eexists.
    split; [by apply lookup_alter_some; eexists|]. by case_decide.
  - exact I.
  - intros l' e' Hl' Hu. apply lookup_alter_some in Hl' as (e0 & Hl' & ->).
    case_decide as Hd; [|by apply (U _ _ Hl')]. subst. by destruct (Hu fp).
  - intros l' e' b Hl' Hbd. apply lookup_alter_some in Hl' as (e0 & Hl' & ->).
    case_decide as Hd; [|by eapply B]. subst. simplify_eq. unfold complete in *. simpl in *.
    split; [done|]. destruct (cacheable (rs_body r)) eqn:Hca; [|congruence].
    unfold cacheable in Hca. rewrite Hbd in Hca. bool_hyps. lia.
  - rewrite (sumZ_alter _ _ _ _ _ Hl), Ht, T, Hbb. unfold body_bytes at 3. rewrite Hn. lia.
  - rewrite (sumZ_alter _ _ _ _ _ Hl), Hb, C, Hbo.
    assert (body_one e = 0) as -> by (unfold body_one, is_body; by rewrite Hn). lia.
  - rewrite (sumZ_alter _ _ _ _ _ Hl), Hi, F. destruct (M _ _ Hf) as (e' & Hl' & Hcl). simplify_eq.
    assert (open_one e = 1) as -> by (unfold open_one; by rewrite Hcl, Hc).
    change (open_one (complete r now e)) with 0. lia.
Qed.

(** The owner of an open entry. *)
Definition owns (fp id : string) (x : idlessDedupeIndex) (l : nat) (e : idlessDedupeEntry) : Prop :=
  ix_entries x !! fp = Some l /\ ix_heap x !! l = Some e /\ e_requestID e = id.

Lemma publish_spec fp id r now x : index_good x ->
  index_good (publish order fp id r now x)
  /\ (publish order fp id r now x = x /\ (forall l e, owns fp id x l e -> e_completed e = true)
      \/ exists l e y, owns fp id x l e /\ e_completed e = false
         /\ ix_heap y = alter (complete r now) l (ix_heap x) /\ ix_entries y = ix_entries x
         /\ ix_mappingPressureEvictions y = ix_mappingPressureEvictions x
         /\ tidy window now y (publish order fp id r now x)).
Proof.
  intros Hx. pose proof Hx as [Ho Hb]. unfold publish, owns.
  destruct (ix_entries x !! fp) as [l|] eqn:Hf; [|split; [done|left; naive_solver]].
  destruct (io_mapped _ Ho _ _ Hf) as (e & Hl & _). rewrite Hl.
  destruct (negb (String.eqb (e_requestID e) id) || e_completed e) eqn:Hg.
  { split; [done|left; split; [done|]]. intros l' e' (? & ? & ?). simplify_eq.
    by rewrite String.eqb_refl in Hg. }
  bool_hyps. set (y := closeLocked l _).
  assert (ix_heap y = alter (complete r now) l (ix_heap x)) as Hh.
  { unfold y, closeLocked, on_entry. simpl. apply list_eq. intros k. destruct (decide (l = k)) as [<-|Hk].
    - rewrite !list_lookup_alter_eq, list_lookup_insert_eq, Hl by (by eapply lookup_lt_Some). done.
    - by rewrite !list_lookup_alter_ne, list_lookup_insert_ne. }
  assert (index_ok y) as Hy by (by eapply (index_ok_complete r now l e fp x)).
  destruct (tidy_evict_bodies order window Hord now (S (Z.to_nat (ix_bodyCount y))) y Hy) as [Ht Hc].
  fold (evictBodiesLocked order y) in *. destruct Hc as [? ?]; [lia|].
  pose proof (counters_nonneg _ (td_ok _ _ _ _ Ht)) as (? & ? & ?).
  pose proof (trims_mappings _ _ _ _ (td_trims _ _ _ _ Ht)) as Hm.
  pose proof (td_flight _ _ _ _ Ht) as Hfl. pose proof (ib_mappings _ Hb). pose proof (ib_flight _ Hb).
  change (mappings y) with (mappings x) in Hm. change (ix_inFlight y) with (ix_inFlight x - 1) in Hfl.
  split; [split; [apply Ht|constructor; lia]|]. right. exists l, e, y. by split_and!.
Qed.

Lemma drop_spec fp id x : index_good x ->
  index_good (drop fp id x)
  /\ (drop fp id x = x /\ (forall l e, ~ owns fp id x l e)
      \/ exists l e, owns fp id x l e /\ ix_heap (drop fp id x) = alter shut l (ix_heap x)
         /\ ix_entries (drop fp id x) = delete fp (ix_entries x)
         /\ ix_mappingPressureEvictions (drop fp id x) = ix_mappingPressureEvictions x).
Proof.
  intros Hx. pose proof Hx as [Ho Hb]. unfold drop, owns.
  destruct (ix_entries x !! fp) as [l|] eqn:Hf; [|split; [done|left; naive_solver]].
  destruct (io_mapped _ Ho _ _ Hf) as (e & Hl & Hcl). rewrite Hl.
  destruct (String.eqb (e_requestID e) id) eqn:Hg; cbn [negb].
  2:{ split; [done|left; split; [done|]]. intros l' e' (? & ? & ?). simplify_eq. by rewrite String.eqb_refl in Hg. }
  bool_hyps. pose proof (index_ok_remove _ _ _ Ho Hf) as Hr. rewrite (remove_eq _ _ _ _ Hl) in *.
  split; [|right; exists l, e; by split_and!].
  assert (index_good (x <| ix_heap := alter shut l (ix_heap x) |> <| ix_entries := delete fp (ix_entries x) |>
      <| ix_totalBytes := ix_totalBytes x - body_bytes e |> <| ix_bodyCount := ix_bodyCount x - body_one e |>
      <| ix_inFlight := ix_inFlight x - (if e_completed e then 0 else 1) |>)) as Hgood.
  { split; [done|]. pose proof (counters_nonneg _ Hr) as (? & ? & ?). simpl in *.
    pose proof (body_bytes_nonneg e). pose proof (body_one_nonneg e). destruct Hb as [? ? ? Hm].
    constructor; simpl; try lia; [destruct (e_completed e); lia|].
    unfold mappings in *. simpl. rewrite map_size_delete. destruct (_ !! _); simpl; lia. }
  by eapply good_counters.
Qed.
End Operations.

(** ** A claim is kept *)

(** The operations of the index, in any order and by any requests. *)
Inductive IndexOp :=
| OClaim (fp id : string) (now : Z)
| OPublish (fp id : string) (r : Response) (now : Z)
| ODrop (fp id : string)
| OAwait (l : nat)
| OLeave (l : nat)
| OSnapshot (l : nat) (now : Z).

Section Histories.
Context (order : gmap string nat -> list (string * nat)) (window : Z).

Definition index_op (x : idlessDedupeIndex) (op : IndexOp) : idlessDedupeIndex :=
  match op with
  | OClaim fp id now => (claim order window fp id now x).1
  | OPublish fp id r now => publish order fp id r now x
  | ODrop fp id => drop fp id x
  | OAwait l => (await_enter l x).1
  | OLeave l => await_leave l x
  | OSnapshot l now => (replaySnapshot window l now x).1
  end.

Definition index_run (ops : list IndexOp) (x : idlessDedupeIndex) : idlessDedupeIndex := fold_left index_op ops x.

Definition op_time (t : Z) (op : IndexOp) : Z :=
  match op with
  | OClaim _ _ now | OPublish _ _ _ now | OSnapshot _ now => now
  | ODrop _ _ | OAwait _ | OLeave _ => t
  end.

(** The clock does not go back, from [t] on. *)
Fixpoint op_clock (t : Z) (ops : list IndexOp) : bool :=
  match ops with
  | [] => true
  | op :: ops => (t <=? op_time t op) && op_clock (op_time t op) ops
  end.

Context (Hord : enumerates order).

Lemma await_good l x : index_good x -> index_good (await_enter l x).1.
Proof.
  intros Hx. unfold await_enter. destruct (ix_heap x !! l); [|done].
  destruct (e_closed _); [done|]. destruct (_ <=? _); [done|]. simpl.
  apply good_touch; [by apply (good_counters x)|by intros].
Qed.

Lemma leave_good l x : index_good x -> index_good (await_leave l x).
Proof. intros Hx. apply good_touch; [done|]. by intros. Qed.

Lemma snapshot_good l now x : index_good x -> index_good (replaySnapshot window l now x).1.
Proof.
  intros Hx. unfold replaySnapshot. destruct (ix_heap x !! l) as [e|]; [|done].
  destruct (e_completed e), (e_body e); try done. destruct (_ <? _); [done|]. simpl.
  apply good_touch; [done|]. by intros.
Qed.

Lemma index_op_good x op : index_good x -> index_good (index_op x op).
Proof.
  intros Hx. destruct op; simpl;
    [|by apply (publish_spec order window Hord)|by apply drop_spec|by apply await_good|by apply leave_good|by apply snapshot_good].
  destruct (claim order window fp id now x) as [x' c] eqn:Hc.
  by apply (claim_spec order window Hord) in Hc as [_ ?].
Qed.

Lemma index_run_good ops x : index_good x -> index_good (index_run ops x).
Proof. revert x. induction ops as [|op ops IH]; intros x Hx; [done|]. by apply IH, index_op_good. Qed.

Section Owner.
Context (fp id : string) (l : nat).

(** The entry [l] answers for the fingerprint and is the owner's. *)
Definition live (x : idlessDedupeIndex) (e : idlessDedupeEntry) : Prop := owns fp id x l e.

(** A step by others: the entry stays, or it was completed and its time was over or the map
    was under pressure. *)
Definition kept_or_lost (now : Z) (x : idlessDedupeIndex) (e : idlessDedupeEntry) (x' : idlessDedupeIndex) : Prop :=
  (exists e', live x' e' /\ e_completed e' = e_completed e /\ e_terminalAt e' = e_terminalAt e)
  \/ e_completed e = true
     /\ (expired window now e = true \/ ix_mappingPressureEvictions x < ix_mappingPressureEvictions x').

Lemma trims_live now x x' e : trims window now x x' -> live x e -> kept_or_lost now x e x'.
Proof.
  intros [Hh _ Hlost _] (Hf & Hl & Hid). destruct (Hlost _ _ _ Hf Hl) as [Hf'|?]; [left|by right].
  destruct (Forall2_lookup_l _ _ _ _ _ Hh Hl) as (e' & Hl' & Hk). exists e'.
  split; [|by destruct Hk]. split; [done|]. split; [done|]. by rewrite (k_id _ _ Hk).
Qed.

(** Without the housekeeping: the waiters and the last time seen. *)
Lemma touched_live now g k x y e :
  ix_heap y = alter g k (ix_heap x) -> ix_entries y = ix_entries x ->
  (forall e, e_requestID (g e) = e_requestID e /\ e_completed (g e) = e_completed e
     /\ e_terminalAt (g e) = e_terminalAt e) ->
  live x e -> kept_or_lost now x e y.
Proof.
  intros Hh He Hg (Hf & Hl & Hid). left. exists (if decide (k = l) then g e else e).
  destruct (Hg e) as (? & ? & ?). split; [|by case_decide].
  split; [by rewrite He|]. split; [|case_decide; congruence].
  rewrite Hh. apply lookup_alter_some. by exists e.
Qed.

Lemma claim_live fp' id' now x x' c e :
  claimed window fp' id' now x x' c -> live x e -> kept_or_lost now x e x'.
Proof.
  intros Hc Hlive. destruct c as [k|k|]; simpl in Hc.
  - destruct Hc as (_ & -> & _). eapply touched_live; [reflexivity|done..].
  - destruct Hc as (y & Ht & Hn & -> & -> & _).
    destruct (trims_live _ _ _ _ (td_trims _ _ _ _ Ht) Hlive) as [(e' & (Hf & Hl & Hid) & ?)|?]; [left|by right].
    exists e'. split; [|done]. split; [|split; [by apply lookup_app_l_Some|done]]. simpl.
    rewrite lookup_insert_ne; [done|congruence].
  - destruct Hc as (y & Ht & ->). by destruct (trims_live _ _ _ _ (td_trims _ _ _ _ Ht) Hlive) as [(? & ? & ?)|?];
      [left; eexists|right].
Qed.

Definition by_owner (op : IndexOp) : bool :=
  match op with
  | OPublish fp' id' _ _ | ODrop fp' id' => String.eqb fp' fp && String.eqb id' id
  | _ => false
  end.

Lemma owns_other fp' id' x k e e' : index_good x -> live x e -> owns fp' id' x k e' ->
  (String.eqb fp' fp && String.eqb id' id) = false -> k <> l.
Proof.
  intros [Hx _] (Hf & Hl & Hid) (Hf' & Hl' & Hid') Hn ->. pose proof (io_inj _ Hx _ _ _ Hf Hf'). simplify_eq.
  by rewrite !String.eqb_refl in Hn.
Qed.

Lemma other_live x op t e : index_good x -> by_owner op = false -> live x e ->
  kept_or_lost (op_time t op) x e (index_op x op).
Proof.
  intros Hx Hn Hlive. destruct op as [fp' id' now|fp' id' r now|fp' id'|k|k|k now]; simpl in *.
  - destruct (claim order window fp' id' now x) as [x' c] eqn:Hc.
    apply (claim_spec order window Hord) in Hc as [Hc _]; [|done]. by eapply claim_live.
  - destruct (publish_spec order window Hord fp' id' r now x Hx)
      as [_ [[-> _]|(k & e0 & y & Ho & _ & Hh & He & Hp & Ht)]].
    { left. by exists e. }
    assert (live y e) as Hy.
    { pose proof Hlive as (Hf & Hl & Hid). split; [by rewrite He|]. split; [|done].
      rewrite Hh, list_lookup_alter_ne; [done|]. by eapply (owns_other fp' id'). }
    destruct (trims_live _ _ _ _ (td_trims _ _ _ _ Ht) Hy) as [?|?]; [by left|right]. by rewrite <- Hp.
  - destruct (drop_spec fp' id' x Hx) as [_ [[-> _]|(k & e0 & Ho & Hh & He & Hp)]]; [left; by exists e|].
    left. exists e. split; [|done]. pose proof (owns_other fp' id' _ _ _ _ Hx Hlive Ho Hn) as Hk.
    destruct Hlive as (Hf & Hl & Hid), Ho as (Hf' & _).
    split; [|split; [by rewrite Hh, list_lookup_alter_ne|done]]. rewrite He, lookup_delete_ne; [done|]. congruence.
  - unfold await_enter. destruct (ix_heap x !! k) as [e0|]; [|left; by exists e].
    destruct (e_closed e0); [left; by exists e|]. destruct (_ <=? _); [left; by exists e|].
    eapply touched_live; [reflexivity|done..].
  - eapply touched_live; [reflexivity|done..].
  - unfold replaySnapshot. destruct (ix_heap x !! k) as [e0|]; [|left; by exists e].
    destruct (e_completed e0), (e_body e0); try (left; by exists e).
    destruct (_ <? _); [left; by exists e|]. eapply touched_live; [reflexivity|done..].
Qed.

Lemma pressure_mono x op : index_good x ->
  ix_mappingPressureEvictions x <= ix_mappingPressureEvictions (index_op x op).
Proof.
  intros Hx. destruct op as [fp' id' now|fp' id' r now|fp' id'|k|k|k now]; simpl.
  - destruct (claim order window fp' id' now x) as [x' c] eqn:Hc.
    apply (claim_spec order window Hord) in Hc as [Hc _]; [|done]. destruct c as [k|k|]; simpl in Hc.
    + destruct Hc as (_ & -> & _). simpl. lia.
    + destruct Hc as (y & Ht & _ & _ & -> & _). simpl. apply (td_trims _ _ _ _ Ht).
    + destruct Hc as (y & Ht & ->). simpl. apply (td_trims _ _ _ _ Ht).
  - destruct (publish_spec order window Hord fp' id' r now x Hx)
      as [_ [[-> _]|(k & e & y & _ & _ & _ & _ & <- & Ht)]]; [lia|]. apply (td_trims _ _ _ _ Ht).
  - destruct (drop_spec fp' id' x Hx) as [_ [[-> _]|(k & e & _ & _ & _ & ->)]]; lia.
  - unfold await_enter. destruct (ix_heap x !! k) as [e|]; [|done]. destruct (e_closed e); [done|].
    destruct (_ <=? _); [done|]. simpl. lia.
  - lia.
  - unfold replaySnapshot. destruct (ix_heap x !! k) as [e|]; [|done].
    destruct (e_completed e), (e_body e); try done. destruct (_ <? _); [done|]. simpl. lia.
Qed.

(** What became of a claim after the operations [past]: it is alive, and completed only by
    its owner, or the owner dropped it, its window is over, or the map was under pressure. *)
Definition fate (pressure : Z) (past : list IndexOp) (t : Z) (x : idlessDedupeIndex) : Prop :=
  (exists e, live x e /\ (e_completed e = true -> exists r, OPublish fp id r (e_terminalAt e) ∈ past))
  \/ ODrop fp id ∈ past
  \/ (exists r t', OPublish fp id r t' ∈ past /\ window < time_sub t t')
  \/ pressure < ix_mappingPressureEvictions x.

Lemma expired_time now e : expired window now e = true -> window < time_sub now (e_terminalAt e).
Proof. unfold expired. intros. bool_hyps. lia. Qed.

Lemma fate_op p past t x op : index_good x -> p <= ix_mappingPressureEvictions x -> t <= op_time t op ->
  fate p past t x -> fate p (past ++ [op]) (op_time t op) (index_op x op).
Proof.
  intros Hx Hp Ht Hf. pose proof (pressure_mono x op Hx) as Hm. unfold fate.
  setoid_rewrite elem_of_app. setoid_rewrite list_elem_of_singleton.
  destruct Hf as [(e & Hlive & Hc)|[Hd|[(r & t' & Hin & Hw)|Hpr]]];
    [|by auto|right; right; left; exists r, t'; split; [by left|]; pose proof (time_sub_mono t (op_time t op) t' Ht); lia
     |right; right; right; lia].
  destruct (by_owner op) eqn:Hb.
  - destruct op as [|fp' id' r now|fp' id'| | |]; simpl in Hb; try done; bool_hyps; subst; [|by auto].
    simpl in *. destruct (publish_spec order window Hord fp id r now x Hx)
      as [_ [[-> _]|(k & e0 & y & Ho & _ & Hh & He & Hpr & Htd)]].
    { left. exists e. split; [done|]. intros Hce. destruct (Hc Hce) as (r' & ?). exists r'. by left. }
    assert (live y (complete r now e)) as Hy.
    { destruct Hlive as (Hfp & Hl & Hid), Ho as (Hfp' & Hl' & _). split; [by rewrite He|]. split; [|done].
      simplify_eq. rewrite Hh. apply lookup_alter_some. exists e. split; [done|]. by rewrite decide_True. }
    destruct (trims_live _ _ _ _ (td_trims _ _ _ _ Htd) Hy) as [(e' & Hl' & _ & Hta)|[_ [Hex|Hlt]]].
    + left. exists e'. split; [done|]. intros _. exists r. right. by rewrite Hta.
    + right; right; left. exists r, now. split; [by right|]. by apply expired_time in Hex.
    + right; right; right. lia.
  - destruct (other_live x op t e Hx Hb Hlive) as [(e' & Hl' & Hce & Hta)|[Hce [Hex|Hlt]]].
    + left. exists e'. split; [done|]. rewrite Hce, Hta. intros H. destruct (Hc H) as (r & ?). exists r. by left.
    + destruct (Hc Hce) as (r & Hin). right; right; left. exists r, (e_terminalAt e).
      split; [by left|]. by apply expired_time.
    + right; right; right. lia.
Qed.

(** The last time of a history. *)
Definition last_time (t : Z) (ops : list IndexOp) : Z := fold_left op_time ops t.

Lemma fate_last ops : forall p past t x, index_good x -> p <= ix_mappingPressureEvictions x ->
  op_clock t ops = true -> fate p past t x -> fate p (past ++ ops) (last_time t ops) (index_run ops x).
Proof.
  induction ops as [|op ops IH]; intros p past t x Hx Hp Hc Hf; simpl; [by rewrite app_nil_r|].
  simpl in Hc. apply andb_true_iff in Hc as [Ht Hc]. apply Z.leb_le in Ht.
  pose proof (pressure_mono x op Hx).
  replace (past ++ op :: ops) with ((past ++ [op]) ++ ops) by by rewrite <- app_assoc.
  apply IH; [by apply index_op_good|lia|done|by apply fate_op].
Qed.
End Owner.

Lemma claim_of_fate fp id l p past t now id' x x' c :
  index_good x -> fate fp id l p past t x -> t <= now -> claim order window fp id' now x = (x', c) ->
  c = Adopted l /\ requestID_at x' l = id
  \/ ODrop fp id ∈ past
  \/ (exists r t', OPublish fp id r t' ∈ past /\ window < time_sub now t')
  \/ p < ix_mappingPressureEvictions x.
Proof.
  intros Hx Hf Ht Hc.
  destruct Hf as [(e & (Hfp & Hl & Hid) & Hpub)|[?|[(r & t' & ? & ?)|?]]]; [|by auto| |by auto].
  2:{ right; right; left. exists r, t'. split; [done|]. pose proof (time_sub_mono t now t' Ht). lia. }
  unfold claim in Hc. rewrite Hfp, Hl in Hc. destruct (expired window now e) eqn:He.
  - right; right; left. assert (e_completed e = true) as Hce by (unfold expired in He; by bool_hyps).
    destruct (Hpub Hce) as (r & ?). exists r, (e_terminalAt e). split; [done|]. by apply expired_time.
  - simplify_eq. left. split; [done|]. unfold requestID_at, on_entry. simpl.
    by rewrite list_lookup_alter_eq, Hl.
Qed.

(** When a request has won the claim of a fingerprint, whatever other requests do and
    however the map is walked, a later request with the fingerprint takes over its id,
    unless the owner dropped the claim, published it longer ago than the window, or the map
    was under pressure in between. *)
Theorem claim_kept ops0 fp id t0 x l ops id' now x' c :
  claim order window fp id t0 (index_run ops0 newIdlessDedupeIndex) = (x, Won l) ->
  op_clock t0 ops = true -> last_time t0 ops <= now ->
  claim order window fp id' now (index_run ops x) = (x', c) ->
  c = Adopted l /\ requestID_at x' l = id
  \/ ODrop fp id ∈ ops
  \/ (exists r t, OPublish fp id r t ∈ ops /\ window < time_sub now t)
  \/ ix_mappingPressureEvictions x < ix_mappingPressureEvictions (index_run ops x).
Proof.
  intros Hw Hc Ht Hr. apply (claim_spec order window Hord) in Hw as [Hw Hx]; [|apply index_run_good, good_new].
  assert (fate fp id l (ix_mappingPressureEvictions x) [] t0 x) as Hf.
  { left. destruct Hw as (y & _ & _ & -> & -> & _). 
    exists (mkEntry id false false 0 "" "" None zero_time t0 0). split; [|done].
    split; [apply lookup_insert_eq|]. split; [|done]. simpl. by rewrite lookup_app_r, Nat.sub_diag by lia. }
  eapply claim_of_fate; [by apply index_run_good|by apply (fate_last _ _ _ _ _ [])|done|done].
Qed.
End Histories.

(** *** The reservation of the id *)

Definition row_of (s : Store) (k : RequestKey) : Prop := is_Some (quota_reservations s !! k).
Definition is_delete (op : QuotaOp) : bool := match op with OpDelete _ => true | _ => false end.

(** The rows of [s] are in [s']. *)
Definition keeps_rows (s s' : Store) : Prop := forall k, row_of s k -> row_of s' k.

Lemma keeps_same s s' : quota_reservations s' = quota_reservations s -> keeps_rows s s'.
Proof. intros E k. unfold row_of. by rewrite E. Qed.

Lemma keeps_insert s s' k r : quota_reservations s' = <[k := r]> (quota_reservations s) -> keeps_rows s s'.
Proof. intros E k'. unfold row_of. rewrite E, lookup_insert_is_Some. destruct (decide (k = k')); auto. Qed.

Lemma keeps_reap s now clock : keeps_rows s (reapExpiredReservationsTx s now clock).
Proof. intros k. unfold row_of, reapExpiredReservationsTx. simpl. by rewrite lookup_fmap, fmap_is_Some. Qed.

Lemma keeps_update s k p h : keeps_rows s (update_active s k p h).1.
Proof.
  unfold update_active. destruct (_ !! k) as [r|]; [|by apply keeps_same].
  destruct (_ && _); [by eapply keeps_insert|by apply keeps_same].
Qed.

Lemma keeps_commit s r : (forall s', r = Ok s' -> keeps_rows s s') -> keeps_rows s (commit s r).1.
Proof. intros H. destruct r; simpl; [auto|by apply keeps_same]. Qed.

Lemma keeps_usage_exec s e b clock x : insertUsageEventExec s e b clock = Ok x -> keeps_rows s x.1.
Proof.
  unfold insertUsageEventExec, insert_usage_or_ignore. intros H. destruct (checked_total _ _ _); [|done]. simpl in H.
  destruct (insert_usage s _ _) as [s'|] eqn:Hi; destruct b; simpl in H; simplify_eq; simpl;
    try (by apply keeps_same); apply insert_usage_inv in Hi as (_ & _ & ->); by apply keeps_same.
Qed.

Lemma reserve_keeps s req clock : keeps_rows s (ReserveQuota s req clock).1.
Proof.
  unfold ReserveQuota. set (tx := reapExpiredReservationsTx _ _ _).
  destruct (quota_reservations tx !! _); [by apply keeps_same|].
  destruct (dailyUsageTx tx _ _) as [[used reserved]|]; [|by apply keeps_same].
  destruct (_ <? rq_RequestedTokens req); [by apply keeps_same|].
  destruct (rq_RequestedTokens req <? 0); [by apply keeps_same|].
  intros k Hk. eapply keeps_insert; [reflexivity|]. by apply keeps_reap.
Qed.

(** Only the deletion of old rows removes a row. *)
Lemma op_keeps s op : is_delete op = false -> keeps_rows s (run_op s op).
Proof.
  destruct op; simpl; intros Hop; try done; clear Hop;
    unfold SettleReservation, SettleDemoReservation, RefundReservation, ExpireReservation,
      MarkReservationStaleHeld, MarkReservationSettlementHold, ClampReservationExpiry, InsertUsageEvent;
    try apply keeps_update.
  - apply reserve_keeps.
  - apply keeps_commit. intros s' H. destruct (settle_tx _ _ _ _) as [[s1 [w n]]|] eqn:Hx; simpl in H; [|done].
    apply settle_tx_inv in Hx as (r & ? & ? & -> & _ & ? & ? & ->). simplify_eq. by eapply keeps_insert.
  - apply keeps_commit. intros s' H. destruct (settle_tx _ _ _ _) as [[s1 [w n]]|] eqn:Hx; simpl in H; [|done].
    apply settle_tx_inv in Hx as (r & ? & ? & -> & _ & ? & ? & ->).
    apply insert_demo_frame in H as [Hr _]. by eapply keeps_insert.
  - apply keeps_commit. intros s' H. destruct (active_reservation s k) as [r|]; simpl in H; [|done].
    injection H as <-. by eapply keeps_insert.
  - apply keeps_commit. intros s' H. destruct (require _ _); simpl in H; [|done].
    destruct (_ !! k) as [r|]; [|done]. destruct (is_active r); [|done].
    destruct (require _ _); simpl in H; [|done]. injection H as <-. by eapply keeps_insert.
  - apply keeps_reap.
  - apply keeps_commit. intros s' H. destruct (insertUsageEventExec _ _ _ _) as [x|] eqn:Hx; simpl in H; [|done].
    injection H as <-. by eapply keeps_usage_exec.
  - unfold EnsureUsageEvent. destruct (insertUsageEventExec _ _ _ _) as [[s' n]|] eqn:Hx; [|by apply keeps_same].
    apply keeps_usage_exec in Hx. destruct (0 <? n); [done|]. by destruct (_ !! _).
  - unfold EnsureDemoUsageEvent. destruct (insert_demo _ _ _) as [s'|] eqn:Hd; [|by apply keeps_same].
    apply insert_demo_frame in Hd as [? ?]. by apply keeps_same.
  - unfold AcquireConcurrency. destruct (_ <=? _); [by apply keeps_same|]. destruct (_ !! _); by apply keeps_same.
  - unfold ReleaseConcurrency. destruct (_ !! k); [|by apply keeps_same]. destruct (bool_decide _); by apply keeps_same.
Qed.

Lemma ops_keep ops : forall s, forallb (fun op => negb (is_delete op)) ops = true -> keeps_rows s (run_ops s ops).
Proof.
  induction ops as [|op ops IH]; intros s H; [by apply keeps_same|]. simpl in H.
  apply andb_true_iff in H as [H1 H2]. apply negb_true_iff in H1.
  intros k Hk. apply (IH (run_op s op) H2). by apply op_keeps.
Qed.

Lemma reserve_twice s req clock : row_of s (rq_AccountID req, rq_RequestID req) ->
  ReserveQuota s req clock = (s, (no_decision, Some ErrReservationExists)).
Proof.
  intros Hr. unfold ReserveQuota.
  destruct (keeps_reap s (or_now (rq_CreatedAt req) clock) clock _ Hr) as [r ->]. done.
Qed.

Lemma reserve_admitted r id now s s' : reserve r id now false s = (s', None) ->
  row_of s' (fi_accountID (r_fingerprinted r), id).
Proof.
  unfold reserve. destruct (ReserveQuota s _ now) as [s1 [d err]] eqn:Hq.
  destruct err as [e|]; [by destruct e, (Admitted_ d); simpl; repeat case_match|]. intros [= <-].
  revert Hq. unfold ReserveQuota. destruct (_ !! _); [done|]. destruct (dailyUsageTx _ _ _) as [[u v]|]; [|done].
  destruct (_ <? _); [done|]. destruct (_ <? 0); [done|]. intros [= <- _]. unfold row_of. simpl.
  by rewrite lookup_insert_eq.
Qed.

(** One bill per intent: after a request without an id has won its claim and been reserved, an
    identical request takes over its id and its reservation is refused, as long as the row
    is not deleted, unless the owner dropped the claim, published it longer ago than the
    window, or the map was under pressure in between. *)
Theorem retry_billed_once sha256 order window ops0 owner retry t0 x l t1 s0 s ops now x' c qops :
  enumerates order ->
  r_fingerprinted retry = r_fingerprinted owner ->
  claim order window (fingerprint sha256 owner) (r_id owner) t0
    (index_run order window ops0 newIdlessDedupeIndex) = (x, Won l) ->
  reserve owner (r_id owner) t1 false s0 = (s, None) ->
  op_clock t0 ops = true -> last_time t0 ops <= now ->
  claim order window (fingerprint sha256 retry) (r_id retry) now (index_run order window ops x) = (x', c) ->
  forallb (fun op => negb (is_delete op)) qops = true ->
  (c = Adopted l
   /\ forall t2, reserve retry (requestID_at x' l) t2 false (run_ops s qops)
                 = (run_ops s qops, Some ErrReservationExists))
  \/ ODrop (fingerprint sha256 owner) (r_id owner) ∈ ops
  \/ (exists r t, OPublish (fingerprint sha256 owner) (r_id owner) r t ∈ ops /\ window < time_sub now t)
  \/ ix_mappingPressureEvictions x < ix_mappingPressureEvictions (index_run order window ops x).
Proof.
  intros Hord Hsame Hw Hres Hc Ht Hr Hq. unfold fingerprint in *. rewrite Hsame in Hr.
  destruct (claim_kept order window Hord _ _ _ _ _ _ _ _ _ _ _ Hw Hc Ht Hr) as [[-> Hid]|?]; [left|by right].
  split; [done|]. intros t2. unfold reserve. rewrite Hid, reserve_twice; [done|].
  apply ops_keep; [done|]. simpl. rewrite Hsame. by eapply reserve_admitted.
Qed.

(** ** The fingerprint *)

Definition nul_free (s : string) : bool := forallb (fun c => negb (Ascii.eqb c (ascii_of_N 0))) (GoStr.chars s).

Lemma chars_nul s rest : GoStr.chars (s +:+ nul +:+ rest) = GoStr.chars s ++ ascii_of_N 0 :: GoStr.chars rest.
Proof. by rewrite !GoStr.chars_app. Qed.

Lemma split_at_nul a b x y : forallb (fun c => negb (Ascii.eqb c (ascii_of_N 0))) a = true ->
  forallb (fun c => negb (Ascii.eqb c (ascii_of_N 0))) b = true ->
  a ++ ascii_of_N 0 :: x = b ++ ascii_of_N 0 :: y -> a = b /\ x = y.
Proof.
  revert b. induction a as [|c a IH]; intros [|d b] Ha Hb He; cbn in He.
  - by simplify_eq.
  - injection He as <- _. cbn in Hb. done.
  - injection He as -> _. cbn in Ha. done.
  - injection He as <- He. cbn [forallb] in Ha, Hb. apply andb_true_iff in Ha as [_ Ha], Hb as [_ Hb].
    destruct (IH b Ha Hb He) as [-> ->]. done.
Qed.

Lemma hashed_parts_inj p1 : forall p2 b1 b2, length p1 = length p2 ->
  forallb nul_free p1 = true -> forallb nul_free p2 = true ->
  hashed_parts p1 b1 = hashed_parts p2 b2 -> p1 = p2 /\ b1 = b2.
Proof.
  induction p1 as [|a p1 IH]; intros [|b p2] b1 b2 Hl H1 H2 He; try done.
  cbn [forallb] in H1, H2. apply andb_true_iff in H1 as [Ha H1], H2 as [Hb H2].
  cbn [hashed_parts] in He. apply (f_equal GoStr.chars) in He. rewrite !chars_nul in He.
  apply split_at_nul in He as [Hab He]; [|done..]. apply GoStr.chars_inj in Hab, He. subst.
  destruct (IH p2 b1 b2 ltac:(by injection Hl) H1 H2 He) as [-> ->]. done.
Qed.

Lemma hex_of_inj a b : 0 <= a < 16 -> 0 <= b < 16 -> hex_of a = hex_of b -> a = b.
Proof.
  intros Ha Hb H. apply (f_equal N_of_ascii) in H. unfold hex_of in H.
  rewrite !N_ascii_embedding in H; destruct (a <? 10) eqn:?, (b <? 10) eqn:?; lia.
Qed.

Lemma EncodeToString_inj a b : EncodeToString a = EncodeToString b -> a = b.
Proof.
  unfold EncodeToString. intros H. apply (f_equal GoStr.chars) in H. rewrite !GoStr.chars_of_chars in H.
  apply GoStr.chars_inj. revert H. generalize (GoStr.chars b) as lb. generalize (GoStr.chars a) as la.
  induction la as [|c la IH]; intros [|d lb] H; try done. cbn [map concat app] in H.
  injection H as Hq Hr Hrest. f_equal; [|by apply IH].
  pose proof (N_ascii_bounded c). pose proof (N_ascii_bounded d).
  set (m := Z.of_N (N_of_ascii c)) in *. set (n := Z.of_N (N_of_ascii d)) in *.
  assert (0 <= m < 256) by lia. assert (0 <= n < 256) by lia.
  apply hex_of_inj in Hq; [|split; [apply Z.div_pos; lia|apply Z.div_lt_upper_bound; lia]..].
  apply hex_of_inj in Hr; [|apply Z.mod_pos_bound; lia..].
  assert (m = n) by (rewrite (Z.div_mod m 16), (Z.div_mod n 16) by lia; lia).
  rewrite <- (ascii_N_embedding c), <- (ascii_N_embedding d). f_equal. lia.
Qed.

(** [net/http] lets no header with a NUL through, account ids and token hashes have none. *)
Definition no_nuls (f : Fingerprinted) : bool :=
  forallb nul_free [fi_entrypoint f; fi_accountID f; fi_demoTokenHash f; fi_conversationTag f; fi_retryHint f].

Definition hashed_text (sha256 : string -> string) (f : Fingerprinted) : string :=
  hashed_parts (fingerprint_parts f) (sha256 (fi_body f)).

(** SHA-256 has no collision on the texts of the two requests. *)
Record told_apart (sha256 : string -> string) (f g : Fingerprinted) : Prop := mkToldApart {
  ta_f : no_nuls f = true;
  ta_g : no_nuls g = true;
  ta_body : sha256 (fi_body f) = sha256 (fi_body g) -> fi_body f = fi_body g;
  ta_text : sha256 (hashed_text sha256 f) = sha256 (hashed_text sha256 g) -> hashed_text sha256 f = hashed_text sha256 g;
}.

(** Requests with one fingerprint are identical, as far as SHA-256 tells different texts
    apart: no part can be shifted into its neighbour. *)
Lemma fingerprint_inj sha256 f g : told_apart sha256 f g ->
  idlessRequestFingerprint sha256 f = idlessRequestFingerprint sha256 g -> f = g.
Proof.
  intros [Hf Hg Hb Ht] H. apply EncodeToString_inj, Ht, hashed_parts_inj in H as [Hp Hbody]; [|done..].
  apply Hb in Hbody. destruct f, g. unfold fingerprint_parts in Hp. simpl in *. congruence.
Qed.

(** ** What is captured *)

(** A write that reached the buyer, and the bytes that did. *)
Definition event_ok (ev : WriterEvent) : bool :=
  match ev with Header _ => true | Wrote _ _ err => negb err | Poison => false end.
Definition event_bytes (ev : WriterEvent) : string :=
  match ev with Wrote b n _ => prefix_of n b | _ => "" end.
Definition delivered (events : list WriterEvent) : string :=
  GoStr.of_chars (concat (map (fun ev => GoStr.chars (event_bytes ev)) events)).

Definition adapter_ok (w : AdapterWrite) : bool := negb (aw_err w) && (aw_n w =? blen (aw_bytes w)).
Definition adapter_bytes (ws : list AdapterWrite) : string :=
  GoStr.of_chars (concat (map (fun w => GoStr.chars (prefix_of (aw_n w) (aw_bytes w))) ws)).

Lemma of_chars_app a b : GoStr.of_chars (a ++ b) = GoStr.of_chars a +:+ GoStr.of_chars b.
Proof. apply GoStr.chars_inj. by rewrite GoStr.chars_app, !GoStr.chars_of_chars. Qed.

Lemma append_nil s : s +:+ "" = s.
Proof. apply GoStr.chars_inj. rewrite GoStr.chars_app. apply app_nil_r. Qed.

Lemma concat_snoc {A} (f : A -> string) l a :
  GoStr.of_chars (concat (map (fun x => GoStr.chars (f x)) (l ++ [a])))
  = GoStr.of_chars (concat (map (fun x => GoStr.chars (f x)) l)) +:+ f a.
Proof. rewrite map_app, concat_app, of_chars_app. cbn. by rewrite app_nil_r, GoStr.of_chars_chars. Qed.

Lemma written_spec events :
  let s := written events in
  sw_captureArmed s = true
  /\ (sw_poisoned s = false -> sw_overflowed s = false ->
      sw_capture s = delivered events /\ forallb event_ok events = true).
Proof.
  induction events as [|ev events [Ha Hc]] using rev_ind; simpl; [done|].
  unfold written, delivered in *. rewrite fold_left_app, forallb_app. cbn [fold_left]. set (s := fold_left _ _ _) in *.
  rewrite concat_snoc. destruct ev as [code|b n err|]; cbn [writer_event event_bytes].
  - unfold WriteHeader. destruct (sw_flushed s); cbn; (split; [done|]); intros Hp Ho; destruct (Hc Hp Ho) as [-> ->];
      split; try done; by rewrite append_nil.
  - unfold Write. set (s' := if sw_flushed s then s else _).
    assert (sw_captureArmed s' = sw_captureArmed s /\ sw_overflowed s' = sw_overflowed s
            /\ sw_poisoned s' = sw_poisoned s /\ sw_capture s' = sw_capture s) as (E1 & E2 & E3 & E4)
      by (unfold s'; by destruct (sw_flushed s)).
    clearbody s'.
    rewrite E1, E2, E3, Ha. destruct (sw_overflowed s) eqn:Ho, (sw_poisoned s) eqn:Hp; simpl; rewrite ?E1, ?E2, ?E3;
      try (split; [done|congruence]).
    destruct (Hc eq_refl eq_refl) as [Hcap Hok].
    destruct err; simpl; [by rewrite ?E1, ?Ha|]. destruct (_ <? _); simpl; rewrite ?E1, ?Ha; (split; [done|]); [done|].
    intros _ _. by rewrite E4, Hcap, Hok.
  - cbn. split; [done|]. by intros.
Qed.

Lemma adapted_spec ws :
  let a := adapted ws in
  ra_captureArmed a = true
  /\ (ra_writeErr a = false -> ra_overflowed a = false ->
      ra_capture a = adapter_bytes ws /\ forallb adapter_ok ws = true).
Proof.
  induction ws as [|w ws [Ha Hc]] using rev_ind; simpl; [done|].
  unfold adapted, adapter_bytes in *. rewrite fold_left_app, forallb_app. cbn [fold_left]. set (a := fold_left _ _ _) in *.
  rewrite (concat_snoc (fun w => prefix_of (aw_n w) (aw_bytes w))). unfold adapter_write, writeBytes.
  assert (let a' := writeFinalBytes (aw_bytes w) (aw_n w) (aw_err w) a in
     ra_captureArmed a' = true /\ (ra_writeErr a' = false -> ra_overflowed a' = false ->
       ra_writeErr a = false /\ ra_overflowed a = false /\ adapter_ok w = true
       /\ ra_capture a' = ra_capture a +:+ prefix_of (aw_n w) (aw_bytes w))) as [Ha' Hc'].
  { unfold writeFinalBytes, captureDedupeBytes, adapter_ok. rewrite Ha. cbn [negb orb].
    destruct (ra_overflowed a) eqn:Ho; [destruct (_ || _); cbn; split; congruence|].
    destruct (aw_err w); [cbn; split; congruence|]. cbn [orb negb andb].
    destruct (_ <? _); destruct (aw_n w =? blen (aw_bytes w)); cbn; split; congruence || naive_solver. }
  destruct (aw_final w); [|destruct (ra_writeErr a) eqn:He; [split; [done|congruence]|]];
    (split; [done|]); intros H1 H2; destruct (Hc' H1 H2) as (? & ? & Hok & ->);
    (destruct Hc as [-> ->]; [done..|]); cbn; by rewrite Hok.
Qed.

(** The answer of a request that ended well: all of it reached the buyer. *)
Definition answer (d : Delivery) : string :=
  match dl_adapter d with Some ws => adapter_bytes ws | None => delivered (dl_events d) end.
Definition answered_whole (d : Delivery) : bool :=
  negb (dl_panicked d) && negb (dl_gone d) && success (sw_statusCode (written (dl_events d)))
  && match dl_adapter d with
     | Some ws => forallb adapter_ok ws
     | None => forallb event_ok (dl_events d)
     end.

(** A body is published only of an answer that reached the buyer whole, and is that answer. *)
Lemma terminal_whole d b : dedupe_terminal d = Some (Some b) -> b = answer d /\ answered_whole d = true.
Proof.
  unfold dedupe_terminal, answer, answered_whole. destruct (dl_panicked d); [done|].
  destruct (written_spec (dl_events d)) as [Ha Hw]. set (sw := written (dl_events d)) in *.
  destruct (dl_adapter d) as [ws|].
  - destruct (adapted_spec ws) as [Haa Hc]. destruct (dedupeDelivered2xx sw) eqn:Hd; cbn [andb];
      [|by destruct (dedupeDeliveredButUncacheable sw), (dl_gone d)]. destruct (dl_gone d); cbn [negb andb]; [by destruct (dedupeDeliveredButUncacheable sw)|].
    unfold adapter_dedupeCapture. rewrite Haa. cbn [negb orb].
    destruct (ra_overflowed _) eqn:Ho; cbn [orb]; [by destruct (adapter_dedupeDeliveredButUncacheable _)|].
    destruct (ra_writeErr _) eqn:He; cbn [orb]; [by destruct (adapter_dedupeDeliveredButUncacheable _)|].
    destruct (String.eqb _ _); [by destruct (adapter_dedupeDeliveredButUncacheable _)|].
    intros [= <-]. destruct (Hc eq_refl eq_refl) as [-> ->]. unfold dedupeDelivered2xx in Hd. bool_hyps.
    split; [done|]. by rewrite andb_true_r.
  - destruct (dedupePublishable sw && negb (dl_gone d)) eqn:Hp; [|by destruct (dedupeDeliveredButUncacheable sw), (dl_gone d)].
    unfold dedupePublishable, dedupeDelivered2xx in Hp. bool_hyps. unfold dedupeCapture.
    destruct (negb _ || _); [done|]. intros [= <-]. destruct Hw as [-> ->]; [done..|].
    split; [done|]. by destruct (dl_gone d), (success _).
Qed.

(** ** Owners and followers *)

(** The entry a request won, whether it still runs, and the entry a request follows. *)
Definition owned (ph : Phase) : option nat :=
  match ph with
  | Reserving _ own | Dispatched _ own | Rejected _ own _ => own
  | Published l _ | Dropped l => Some l
  | _ => None
  end.
Definition running (ph : Phase) : option nat :=
  match ph with Reserving _ own | Dispatched _ own | Rejected _ own _ => own | _ => None end.
Definition follows (ph : Phase) : option nat :=
  match ph with Awaiting l | Parked l | Woken l => Some l | _ => None end.

(** The entry holds the response [d], or has lost its body. *)
Definition holds (d : Delivery) (e : idlessDedupeEntry) : Prop :=
  e_status e = sw_statusCode (written (dl_events d)) /\ e_contentType e = dl_contentType d
  /\ e_providerID e = dl_providerID d
  /\ forall b, e_body e = Some b -> dedupe_terminal d = Some (Some b).

Section Gateway.
Context (sha256 : string -> string) (order : gmap string nat -> list (string * nat)) (window : Z).
#[local] Abbreviation fingerprint := (fingerprint sha256).

(** An entry is closed when its owner has ended, and completed only if it published. *)
Definition owner_entry (x : idlessDedupeIndex) (r : Request) (ph : Phase) (l : nat) (e : idlessDedupeEntry) : Prop :=
  e_requestID e = r_id r
  /\ (forall fp, ix_entries x !! fp = Some l -> fp = fingerprint r)
  /\ (running ph = Some l -> ix_entries x !! fingerprint r = Some l)
  /\ (running ph = None -> e_closed e = true)
  /\ (e_completed e = true -> exists d, ph = Published l d /\ holds d e).

(** A response sent again is that of an owner that published. *)
Definition replay_of (reqs : list (Request * Phase)) (r : Request) (snap : idlessDedupeReplay) : Prop :=
  exists i ro l d, reqs !! i = Some (ro, Published l d) /\ fingerprint ro = fingerprint r
  /\ rp_requestID snap = r_id ro /\ rp_status snap = sw_statusCode (written (dl_events d))
  /\ rp_contentType snap = dl_contentType d /\ rp_providerID snap = dl_providerID d
  /\ dedupe_terminal d = Some (Some (rp_body snap)).

Record core (x : idlessDedupeIndex) (reqs : list (Request * Phase)) : Prop := mkCore {
  co_ids : forall i j ri rj phi phj, reqs !! i = Some (ri, phi) -> reqs !! j = Some (rj, phj) ->
    r_id ri = r_id rj -> i = j;
  co_own : forall i r ph l, reqs !! i = Some (r, ph) -> owned ph = Some l ->
    exists e, ix_heap x !! l = Some e /\ owner_entry x r ph l e;
  co_owner : forall l e, ix_heap x !! l = Some e ->
    exists i r ph, reqs !! i = Some (r, ph) /\ owned ph = Some l;
  co_follow : forall j r ph l, reqs !! j = Some (r, ph) -> follows ph = Some l ->
    exists i ro pho, reqs !! i = Some (ro, pho) /\ owned pho = Some l /\ fingerprint ro = fingerprint r;
  co_replay : forall j r snap, reqs !! j = Some (r, Replayed snap) -> replay_of reqs r snap;
}.

(** What the index does by itself keeps to this. *)
Record stable (e e' : idlessDedupeEntry) : Prop := mkStable {
  st_id : e_requestID e' = e_requestID e;
  st_completed : e_completed e' = e_completed e;
  st_status : e_status e' = e_status e;
  st_contentType : e_contentType e' = e_contentType e;
  st_providerID : e_providerID e' = e_providerID e;
  st_body : e_body e' = e_body e \/ e_body e' = None;
  st_closed : e_closed e = true -> e_closed e' = true;
}.

Record evolves (x x' : idlessDedupeIndex) : Prop := mkEvolves {
  ev_heap : Forall2 stable (ix_heap x) (ix_heap x');
  ev_sub : forall fp l, ix_entries x' !! fp = Some l -> ix_entries x !! fp = Some l;
  ev_open : forall fp l e, ix_entries x !! fp = Some l -> ix_heap x !! l = Some e -> e_completed e = false ->
    ix_entries x' !! fp = Some l;
}.

Lemma trims_evolves now x x' : trims window now x x' -> evolves x x'.
Proof.
  intros [Hh Hs Hl _]. constructor.
  - eapply Forall2_impl; [exact Hh|]. intros e e' []. by constructor.
  - done.
  - intros fp l e Hf He Hc. destruct (Hl _ _ _ Hf He) as [?|[? _]]; [done|congruence].
Qed.

Lemma alter_evolves g l x y :
  ix_heap y = alter g l (ix_heap x) -> ix_entries y = ix_entries x -> (forall e, stable e (g e)) -> evolves x y.
Proof.
  intros Hh He Hg. constructor; rewrite ?Hh, ?He; [|done|done].
  apply Forall2_same_length_lookup_2; [by rewrite length_alter|].
  intros i a b Ha Hb. apply lookup_alter_some in Hb as (a' & Ha' & ->). simplify_eq.
  case_decide; [apply Hg|by constructor; auto].
Qed.

Lemma same_evolves x y : ix_heap y = ix_heap x -> ix_entries y = ix_entries x -> evolves x y.
Proof.
  intros Hh He. constructor; rewrite ?Hh, ?He; [|done|done]. apply Forall2_refl_on. intros e. constructor; auto.
Qed.

Lemma owner_evolves x x' r ph l e e' :
  evolves x x' -> ix_heap x !! l = Some e -> stable e e' -> owner_entry x r ph l e ->
  (running ph = Some l -> e_completed e = false) -> owner_entry x' r ph l e'.
Proof.
  intros Hv Hl Hs (Hid & Hfp & Hrun & Hcl & Hc) Ho. destruct Hs as [Si Sc Ss St Sp Sb Scl]. split_and!.
  - congruence.
  - intros fp Hf. apply Hfp, Hv, Hf.
  - intros Hr. apply (ev_open _ _ Hv _ _ e); auto.
  - auto.
  - rewrite Sc. intros H. destruct (Hc H) as (d & -> & Hd & Hd2 & Hd3 & Hb). exists d. split; [done|].
    split_and!; try congruence. intros b Hbody. destruct Sb as [E|E]; rewrite E in Hbody; [auto|done].
Qed.

Lemma running_owned ph l : running ph = Some l -> owned ph = Some l.
Proof. by destruct ph. Qed.

Lemma running_open x r ph l e : owner_entry x r ph l e -> running ph = Some l -> e_completed e = false.
Proof.
  intros (_ & _ & _ & _ & Hc) Hr. destruct (e_completed e); [|done].
  destruct (Hc eq_refl) as (d & -> & _). done.
Qed.

Lemma core_evolves x x' reqs : core x reqs -> evolves x x' -> core x' reqs.
Proof.
  intros [Hids Hown Howner Hf Hr] Hv. constructor; try done.
  - intros i r ph l Hq Ho. destruct (Hown _ _ _ _ Hq Ho) as (e & Hl & He).
    destruct (Forall2_lookup_l _ _ _ _ _ (ev_heap _ _ Hv) Hl) as (e' & Hl' & Hs). exists e'. split; [done|].
    eapply owner_evolves; eauto using running_open.
  - intros l e' Hl'. destruct (Forall2_lookup_r _ _ _ _ _ (ev_heap _ _ Hv) Hl') as (e & Hl & _). by eapply Howner.
Qed.

(** A step of a request that wins and loses no entry. *)
Lemma core_phase x reqs i r ph ph' :
  core x reqs -> reqs !! i = Some (r, ph) ->
  owned ph' = owned ph -> running ph' = running ph -> (forall l d, ph <> Published l d) ->
  (forall l, follows ph' = Some l ->
     exists j ro pho, reqs !! j = Some (ro, pho) /\ owned pho = Some l /\ fingerprint ro = fingerprint r) ->
  (forall snap, ph' = Replayed snap -> replay_of reqs r snap) ->
  core x (<[i := (r, ph')]> reqs).
Proof.
  intros [Hids Hown Howner Hf Hr] Hq Eo Er Hnp Hf' Hr'.
  assert (forall j r' q, <[i := (r, ph')]> reqs !! j = Some (r', q) ->
    exists p, reqs !! j = Some (r', p) /\ owned q = owned p /\ running q = running p /\ (j <> i -> q = p)) as Hback.
  { intros j r' q Hj. apply list_lookup_insert_Some in Hj as [(<- & E & _)|[Hn Hj]]; [simplify_eq|by exists q].
    exists ph. by split_and!. }
  assert (forall j r' p, reqs !! j = Some (r', p) -> exists q, <[i := (r, ph')]> reqs !! j = Some (r', q)
            /\ owned q = owned p /\ (forall l d, p = Published l d -> q = p)) as Hforth.
  { intros j r' p Hj. destruct (decide (i = j)) as [<-|Hn].
    - simplify_eq. exists ph'. rewrite list_lookup_insert_eq by (by eapply lookup_lt_Some). split_and!; [done..|].
      intros l d ->. by destruct (Hnp l d).
    - exists p. by rewrite list_lookup_insert_ne. }
  assert (forall l r', (exists j ro pho, reqs !! j = Some (ro, pho) /\ owned pho = Some l /\ fingerprint ro = fingerprint r') ->
    exists j ro pho, <[i := (r, ph')]> reqs !! j = Some (ro, pho) /\ owned pho = Some l
      /\ fingerprint ro = fingerprint r') as Hlift.
  { intros l r' (j & ro & pho & Hj & Ho & Hfp). destruct (Hforth _ _ _ Hj) as (q & Hq' & Eq & _).
    exists j, ro, q. split_and!; [done|congruence|done]. }
  assert (forall r' snap, replay_of reqs r' snap -> replay_of (<[i := (r, ph')]> reqs) r' snap) as Hrep.
  { intros r' snap (j & ro & l & d & Hj & Hrest). destruct (Hforth _ _ _ Hj) as (q & Hq' & _ & Ep).
    rewrite (Ep l d eq_refl) in Hq'. by exists j, ro, l, d. }
  constructor.
  - intros a b ra rb pa pb Ha Hb. destruct (Hback _ _ _ Ha) as (? & Ha' & _), (Hback _ _ _ Hb) as (? & Hb' & _).
    by eapply Hids.
  - intros j r' q l Hj Ho. destruct (Hback _ _ _ Hj) as (p & Hp & E1 & E2 & E3). rewrite E1 in Ho.
    destruct (Hown _ _ _ _ Hp Ho) as (e & Hl & Hid & Hfp & Hrun & Hcl & Hc). exists e. split; [done|].
    split_and!; [done..|by rewrite E2|by rewrite E2|]. intros H. destruct (Hc H) as (d & -> & Hd). exists d. split; [|done].
    apply E3. intros ->. simplify_eq. by destruct (Hnp l d).
  - intros l e Hl. destruct (Howner _ _ Hl) as (j & r' & p & Hj & Ho). destruct (Hforth _ _ _ Hj) as (q & ? & ? & _).
    exists j, r', q. split; [done|congruence].
  - intros j r' q l Hj Hfo. apply Hlift.
    apply list_lookup_insert_Some in Hj as [(<- & E & _)|[Hn Hj]]; [simplify_eq; by apply Hf'|by eapply Hf].
  - intros j r' snap Hj. apply Hrep.
    apply list_lookup_insert_Some in Hj as [(<- & E & _)|[Hn Hj]]; [simplify_eq; by apply Hr'|by eapply Hr].
Qed.

(** A request that did not own an entry wins a new one. *)
Lemma core_won x reqs i r now :
  index_ok x -> core x reqs -> reqs !! i = Some (r, Arrived) -> ix_entries x !! fingerprint r = None ->
  core (alloc (fingerprint r) (r_id r) now x) (<[i := (r, Reserving (r_id r) (Some (length (ix_heap x))))]> reqs).
Proof.
  intros Hx Hc Hq Hn. set (ph' := Reserving _ _).
  assert (forall j r' q, reqs !! j = Some (r', q) -> q <> Arrived -> <[i := (r, ph')]> reqs !! j = Some (r', q)) as Hkeep.
  { intros j r' q Hj Ha. rewrite list_lookup_insert_ne; [done|]. intros <-. congruence. }
  assert (forall l ro, (exists j r' q, reqs !! j = Some (r', q) /\ owned q = Some l /\ fingerprint r' = fingerprint ro) ->
    exists j r' q, <[i := (r, ph')]> reqs !! j = Some (r', q) /\ owned q = Some l /\ fingerprint r' = fingerprint ro) as Hlift.
  { intros l ro (j & r' & q & Hj & Ho & Hfp). exists j, r', q. split_and!; [|done..]. apply Hkeep; [done|]. by intros ->. }
  destruct Hc as [Hids Hown Howner Hf Hr]. constructor.
  - intros a b ra rb pa pb Ha Hb. apply list_lookup_insert_Some in Ha as [(<- & Ea & _)|[_ Ha]],
      Hb as [(<- & Eb & _)|[_ Hb]]; simplify_eq; [done|by eapply Hids..].
  - intros j r' q l Hj Ho. apply list_lookup_insert_Some in Hj as [(<- & Ej & _)|[_ Hj]].
    + simplify_eq/=. exists (mkEntry (r_id r') false false 0 "" "" None zero_time now 0).
      split; [by rewrite lookup_app_r, Nat.sub_diag by lia|]. split_and!; simpl; [done| |by rewrite lookup_insert_eq|done..].
      intros fp Hfp. apply lookup_insert_Some in Hfp as [[<- _]|[_ Hfp]]; [done|].
      destruct (io_mapped _ Hx _ _ Hfp) as (e & Hl & _). apply lookup_lt_Some in Hl. lia.
    + destruct (Hown _ _ _ _ Hj Ho) as (e & Hl & Hid & Hfp & Hrun & Hcl & Hc). exists e.
      split; [by apply lookup_app_l_Some|]. split_and!; simpl; [done| |..].
      * intros fp H. apply lookup_insert_Some in H as [[_ E]|[_ H]]; [|by apply Hfp].
        apply lookup_lt_Some in Hl. lia.
      * intros Hrn. rewrite lookup_insert_ne; [by apply Hrun|]. intros E. rewrite E, (Hrun Hrn) in Hn. done.
      * done.
      * done.
  - intros l e Hl. simpl in Hl. apply lookup_app_Some in Hl as [Hl|[Hge Hl]].
    + destruct (Howner _ _ Hl) as (j & r' & q & Hj & Ho). exists j, r', q. split; [|done].
      apply Hkeep; [done|]. by intros ->.
    + apply list_lookup_singleton_Some in Hl as [Hz _]. exists i, r, ph'.
      rewrite list_lookup_insert_eq by (by eapply lookup_lt_Some). split; [done|]. simpl. f_equal. lia.
  - intros j r' q l Hj Hfo. apply Hlift.
    apply list_lookup_insert_Some in Hj as [(<- & E & _)|[_ Hj]]; [by simplify_eq|by eapply Hf].
  - intros j r' snap Hj. apply list_lookup_insert_Some in Hj as [(<- & E & _)|[_ Hj]]; [by simplify_eq|].
    destruct (Hr _ _ _ Hj) as (k & ro & l & d & Hk & Hrest). exists k, ro, l, d. split; [|done]. by apply Hkeep.
Qed.

(** An owner ends: it publishes or drops its entry. *)
Lemma core_end x y reqs i r ph ph' l g :
  index_ok x -> core x reqs -> reqs !! i = Some (r, ph) -> running ph = Some l ->
  owned ph' = Some l -> running ph' = None -> follows ph' = None -> (forall snap, ph' <> Replayed snap) ->
  ix_heap y = alter g l (ix_heap x) ->
  (forall fp k, ix_entries y !! fp = Some k -> ix_entries x !! fp = Some k) ->
  (forall fp k, ix_entries x !! fp = Some k -> k <> l -> ix_entries y !! fp = Some k) ->
  (forall e, ix_heap x !! l = Some e -> e_completed e = false -> e_requestID (g e) = e_requestID e /\ e_closed (g e) = true
     /\ (e_completed (g e) = true -> exists d, ph' = Published l d /\ holds d (g e))) ->
  core y (<[i := (r, ph')]> reqs).
Proof.
  intros Hx Hc Hq Hrun Ho' Hr' Hf' Hs' Hh Hsub Hkeep Hg. pose proof (running_owned _ _ Hrun) as Ho.
  destruct (co_own _ _ Hc _ _ _ _ Hq Ho) as (e0 & Hl0 & He0). pose proof (running_open _ _ _ _ _ He0 Hrun) as Hopen.
  destruct (Hg _ Hl0 Hopen) as (Hgid & Hgcl & Hgc).
  assert (forall j r' q k, reqs !! j = Some (r', q) -> j <> i -> owned q = Some k -> k <> l) as Hother.
  { intros j r' q k Hj Hn Hok ->. destruct (co_own _ _ Hc _ _ _ _ Hj Hok) as (e & Hl & Hid & _). simplify_eq.
    apply Hn. apply (co_ids _ _ Hc _ _ _ _ _ _ Hj Hq). destruct He0 as (E & _). congruence. }
  assert (forall k ro, (exists j r' q, reqs !! j = Some (r', q) /\ owned q = Some k /\ fingerprint r' = fingerprint ro) ->
    exists j r' q, <[i := (r, ph')]> reqs !! j = Some (r', q) /\ owned q = Some k /\ fingerprint r' = fingerprint ro) as Hlift.
  { intros k ro (j & r' & q & Hj & Hok & Hfp). destruct (decide (i = j)) as [<-|Hn].
    - simplify_eq. eexists i, _, ph'. rewrite list_lookup_insert_eq by (by eapply lookup_lt_Some). by split_and!; [|congruence|].
    - exists j, r', q. by rewrite list_lookup_insert_ne. }
  destruct Hc as [Hids Hown Howner Hf Hr]. constructor.
  - intros a b ra rb pa pb Ha Hb. apply list_lookup_insert_Some in Ha as [(<- & Ea & _)|[_ Ha]],
      Hb as [(<- & Eb & _)|[_ Hb]]; simplify_eq; [done|by eapply Hids..].
  - intros j r' q k Hj Hok. apply list_lookup_insert_Some in Hj as [(<- & Ej & _)|[Hn Hj]].
    + simplify_eq. exists (g e0). rewrite Hh. split; [by rewrite list_lookup_alter_eq, Hl0|].
      destruct He0 as (Hid & Hfp & _). split_and!; [congruence|intros fp Hk; by apply Hfp, Hsub|congruence|done|done].
    + pose proof (Hother _ _ _ _ Hj (not_eq_sym Hn) Hok) as Hk.
      destruct (Hown _ _ _ _ Hj Hok) as (e & Hl & Hid & Hfp & Hrn & Hcl & Hce). exists e.
      rewrite Hh, list_lookup_alter_ne by done. split; [done|]. split_and!; [done| | |done|done].
      * intros fp Hfk. by apply Hfp, Hsub.
      * intros H. by apply Hkeep; [apply Hrn|].
  - intros k e Hk. rewrite Hh in Hk. apply lookup_alter_some in Hk as (e1 & Hk & _).
    destruct (Howner _ _ Hk) as (j & r' & q & Hj & Hok). destruct (Hlift k r') as (j' & r2 & q2 & ? & ? & _).
    { by exists j, r', q. } by exists j', r2, q2.
  - intros j r' q k Hj Hfo. apply Hlift.
    apply list_lookup_insert_Some in Hj as [(<- & E & _)|[_ Hj]]; [simplify_eq; congruence|by eapply Hf].
  - intros j r' snap Hj. apply list_lookup_insert_Some in Hj as [(<- & E & _)|[_ Hj]].
    { simplify_eq; by destruct (Hs' snap). }
    destruct (Hr _ _ _ Hj) as (k & ro & l' & d & Hk & Hrest). exists k, ro, l', d. split; [|done].
    rewrite list_lookup_insert_ne; [done|]. intros <-. rewrite Hq in Hk. by simplify_eq/=.
Qed.

(** The waiters of an entry are the requests parked at it. *)
Definition parked_one (l : nat) (rp : Request * Phase) : Z :=
  match rp.2 with Parked k => if decide (k = l) then 1 else 0 | _ => 0 end.
Definition waits (x : idlessDedupeIndex) (reqs : list (Request * Phase)) : Prop :=
  forall l e, ix_heap x !! l = Some e ->
    e_waiters e = sumZ (parked_one l) reqs /\ e_waiters e <= idlessDedupeMaxWaiters.

Record gateway_ok (x : idlessDedupeIndex) (reqs : list (Request * Phase)) : Prop := mkGatewayOk {
  go_index : index_good x;
  go_core : core x reqs;
  go_waits : waits x reqs;
}.

Definition is_parked (ph : Phase) : bool := match ph with Parked _ => true | _ => false end.

Lemma parked_insert reqs i r ph ph' l : reqs !! i = Some (r, ph) ->
  sumZ (parked_one l) (<[i := (r, ph')]> reqs) = sumZ (parked_one l) reqs - parked_one l (r, ph) + parked_one l (r, ph').
Proof. intros Hi. rewrite list_insert_alter. by apply (sumZ_alter _ (fun _ => (r, ph'))). Qed.

Lemma not_parked l r ph : is_parked ph = false -> parked_one l (r, ph) = 0.
Proof. by destruct ph. Qed.

(** A step that parks nobody and whose index keeps the waiters. *)
Lemma waits_other x x' reqs i r ph ph' :
  waits x reqs -> reqs !! i = Some (r, ph) -> is_parked ph = false -> is_parked ph' = false ->
  (forall l e', ix_heap x' !! l = Some e' -> exists e, ix_heap x !! l = Some e /\ e_waiters e' = e_waiters e) ->
  waits x' (<[i := (r, ph')]> reqs).
Proof.
  intros Hw Hi Hp Hp' Hx l e' Hl'. destruct (Hx _ _ Hl') as (e & Hl & ->). destruct (Hw _ _ Hl) as [-> ?].
  rewrite (parked_insert _ _ _ _ _ _ Hi), !not_parked by done. split; lia.
Qed.

Lemma trims_waiters now x x' l e' : trims window now x x' -> ix_heap x' !! l = Some e' ->
  exists e, ix_heap x !! l = Some e /\ e_waiters e' = e_waiters e.
Proof.
  intros Ht Hl'. destruct (Forall2_lookup_r _ _ _ _ _ (tr_heap _ _ _ _ Ht) Hl') as (e & Hl & Hk).
  exists e. split; [done|apply Hk].
Qed.

Lemma alter_waiters g k x y l e' : ix_heap y = alter g k (ix_heap x) -> (forall e, e_waiters (g e) = e_waiters e) ->
  ix_heap y !! l = Some e' -> exists e, ix_heap x !! l = Some e /\ e_waiters e' = e_waiters e.
Proof.
  intros Hh Hg Hl'. rewrite Hh in Hl'. apply lookup_alter_some in Hl' as (e & Hl & ->). exists e.
  split; [done|]. by case_decide.
Qed.

Context (Hord : enumerates order).

Lemma ok_claim x reqs i r now x' c :
  gateway_ok x reqs -> reqs !! i = Some (r, Arrived) -> claim order window (fingerprint r) (r_id r) now x = (x', c) ->
  gateway_ok x' (<[i := (r, match c with
                            | CapFull => Reserving (r_id r) None
                            | Adopted l => Awaiting l
                            | Won l => Reserving (r_id r) (Some l)
                            end)]> reqs).
Proof.
  intros [Hg Hc Hw] Hi Hcl. apply (claim_spec order window Hord) in Hcl as [Hcl Hg']; [|done].
  destruct c as [l|l|]; simpl in Hcl.
  - destruct Hcl as (Hf & -> & _). constructor; [done| |].
    + apply (core_phase _ _ _ _ Arrived); try done.
      * eapply core_evolves; [done|]. eapply alter_evolves; [reflexivity|done|]. intros e. by constructor; auto.
      * intros l' [= <-]. destruct Hg as [Ho _]. destruct (io_mapped _ Ho _ _ Hf) as (e & Hl & _).
        destruct (co_owner _ _ Hc _ _ Hl) as (j & ro & pho & Hj & Hown).
        destruct (co_own _ _ Hc _ _ _ _ Hj Hown) as (e1 & _ & _ & Hfp & _).
        exists j, ro, pho. split_and!; [done..|]. by rewrite (Hfp _ Hf).
    + eapply waits_other; [done..|]. intros k e'. by apply (alter_waiters (fun e => e <| e_lastSeen := now |>) l).
  - destruct Hcl as (y & Ht & Hn & -> & -> & Hy & _).
    pose proof (core_evolves _ _ _ Hc (trims_evolves _ _ _ (td_trims _ _ _ _ Ht))) as Hcy.
    constructor; [done|apply core_won; [apply Hy|done..]|].
    intros k e' Hk. simpl in Hk. apply lookup_app_Some in Hk as [Hk|[Hge Hk]].
    + eapply (waits_other x y); eauto. intros k' e1. apply (trims_waiters now), Ht.
    + apply list_lookup_singleton_Some in Hk as [Hz <-]. simpl.
      rewrite (parked_insert _ _ _ _ _ _ Hi). simpl.
      enough (sumZ (parked_one k) reqs = 0) as -> by (cbn; unfold idlessDedupeMaxWaiters; lia).
      assert (forall rp, rp ∈ reqs -> parked_one k rp = 0) as H0.
      { intros [r' q] [j Hj]%list_elem_of_lookup. unfold parked_one. simpl. destruct q as [| |k'| | | | | | | |]; try done.
        case_decide as Hk; [|done]. subst k'.
        destruct (co_follow _ _ Hcy j r' (Parked k) k Hj eq_refl) as (a & ro & pho & Ha & Ho & _).
        destruct (co_own _ _ Hcy _ _ _ _ Ha Ho) as (e & Hl & _). apply lookup_lt_Some in Hl. lia. }
      clear -H0. induction reqs as [|rp reqs IH]; [done|]. simpl.
      rewrite (H0 rp) by (by left). rewrite IH; [done|]. intros rp' ?. apply H0. by right.
  - destruct Hcl as (y & Ht & ->). constructor; [done| |].
    + apply (core_phase _ _ _ _ Arrived); try done. eapply core_evolves; [done|].
      by destruct (trims_evolves _ _ _ (td_trims _ _ _ _ Ht)).
    + eapply waits_other; [done..|]. intros k e'. apply (trims_waiters now x y), Ht.
Qed.

Lemma waits_moved d x y reqs i r ph ph' l :
  waits x reqs -> reqs !! i = Some (r, ph) ->
  ix_heap y = alter (fun e => e <| e_waiters := e_waiters e + d |>) l (ix_heap x) ->
  (forall k, parked_one k (r, ph') - parked_one k (r, ph) = if decide (l = k) then d else 0) ->
  (forall e, ix_heap x !! l = Some e -> e_waiters e + d <= idlessDedupeMaxWaiters) ->
  waits y (<[i := (r, ph')]> reqs).
Proof.
  intros Hw Hi Hh Hd Hm k e' Hk. rewrite Hh in Hk. apply lookup_alter_some in Hk as (e & Hl & ->).
  destruct (Hw _ _ Hl) as [He ?]. rewrite (parked_insert _ _ _ _ _ _ Hi). specialize (Hd k).
  case_decide as E; [subst; specialize (Hm _ Hl)|]; simpl; lia.
Qed.

(** A step of a request that is not parked before or after and wins and loses no entry. *)
Lemma ok_phase x x' reqs i r ph ph' :
  gateway_ok x reqs -> reqs !! i = Some (r, ph) -> index_good x' -> evolves x x' ->
  waits x' (<[i := (r, ph')]> reqs) ->
  owned ph' = owned ph -> running ph' = running ph -> (forall l d, ph <> Published l d) ->
  (forall l, follows ph' = Some l -> follows ph = Some l) ->
  (forall snap, ph' = Replayed snap -> replay_of reqs r snap) ->
  gateway_ok x' (<[i := (r, ph')]> reqs).
Proof.
  intros [Hg Hc Hw] Hi Hg' Hv Hw' Ho Hr Hp Hf Hrep. constructor; [done| |done].
  apply (core_phase _ _ _ _ ph); try done; [by eapply core_evolves|].
  intros l Hl. by eapply (co_follow _ _ Hc), Hf.
Qed.

Lemma ok_await x reqs i r l :
  gateway_ok x reqs -> reqs !! i = Some (r, Awaiting l) ->
  match await_enter l x with
  | (x', AwaitParks) => gateway_ok x' (<[i := (r, Parked l)]> reqs)
  | (x', AwaitReturns true) => gateway_ok x' (<[i := (r, Woken l)]> reqs)
  | (x', AwaitReturns false) => gateway_ok (conflict x') (<[i := (r, Reserving (requestID_at x' l) None)]> reqs)
  end.
Proof.
  intros Hok Hi. pose proof Hok as [Hg Hc Hw]. pose proof (await_good l x Hg) as Hgood. unfold await_enter in *.
  assert (forall x', ix_heap x' = ix_heap x -> forall ph', is_parked ph' = false -> waits x' (<[i := (r, ph')]> reqs)) as Hsame.
  { intros x' Hh ph' Hp. eapply waits_other; [done..|]. intros k e'. rewrite Hh. by exists e'. }
  assert (forall id, gateway_ok (conflict x) (<[i := (r, Reserving id None)]> reqs)) as Hcon.
  { intros id. eapply ok_phase; try done; [by apply (good_counters x)|by apply same_evolves|by apply Hsame]. }
  destruct (ix_heap x !! l) as [e|] eqn:Hl; [|apply Hcon].
  destruct (e_closed e); [eapply ok_phase; try done; [by apply same_evolves|by apply Hsame]|].
  destruct (idlessDedupeMaxWaiters <=? e_waiters e) eqn:Hm; [apply Hcon|].
  eapply ok_phase; try done.
  - eapply alter_evolves; [reflexivity|done|]. intros e'. by constructor; auto.
  - apply (waits_moved 1 x _ _ _ _ (Awaiting l) _ l); [done..| |].
    + intros k. cbn. case_decide as E; lia.
    + intros e' He'. simplify_eq. lia.
Qed.

Lemma ok_leave x x' reqs i r l ph' :
  gateway_ok x reqs -> reqs !! i = Some (r, Parked l) -> index_good x' ->
  ix_heap x' = ix_heap (await_leave l x) -> ix_entries x' = ix_entries x ->
  owned ph' = None -> running ph' = None -> is_parked ph' = false ->
  (forall k, follows ph' = Some k -> k = l) -> (forall snap, ph' <> Replayed snap) ->
  gateway_ok x' (<[i := (r, ph')]> reqs).
Proof.
  intros Hok Hi Hg' Hh He Ho Hr Hp Hf Hs. pose proof Hok as [Hg Hc Hw]. eapply ok_phase; try done.
  - eapply alter_evolves; [exact Hh|done|]. intros e. by constructor; auto.
  - apply (waits_moved (-1) x _ _ _ _ (Parked l) _ l); [done..| |].
    + intros k. rewrite (not_parked k r ph' Hp). cbn. case_decide as E; lia.
    + intros e Hl. destruct (Hw _ _ Hl). lia.
  - intros k Hk. by rewrite (Hf _ Hk).
  - intros snap ->. by destruct (Hs snap).
Qed.

Lemma replay_found x reqs j r l e b snap :
  core x reqs -> reqs !! j = Some (r, Woken l) -> ix_heap x !! l = Some e -> e_completed e = true ->
  e_body e = Some b -> snap = mkReplay (e_requestID e) (e_status e) (e_contentType e) (e_providerID e) b ->
  replay_of reqs r snap.
Proof.
  intros Hc Hj Hl Hce Hb ->. destruct (co_follow _ _ Hc _ _ _ _ Hj eq_refl) as (i & ro & pho & Hi & Ho & Hfp).
  destruct (co_own _ _ Hc _ _ _ _ Hi Ho) as (e' & Hl' & Hid & _ & _ & _ & Hp). simplify_eq.
  destruct (Hp Hce) as (d & -> & Hs & Ht & Hpr & Hbody). exists i, ro, l, d. split_and!; auto.
Qed.

Lemma ok_snapshot x reqs i r l now :
  gateway_ok x reqs -> reqs !! i = Some (r, Woken l) ->
  match replaySnapshot window l now x with
  | (x', Some snap) =>
      gateway_ok (x' <| ix_replayTotal := ix_replayTotal x' + 1 |>) (<[i := (r, Replayed snap)]> reqs)
  | (x', None) => gateway_ok (conflict x') (<[i := (r, Reserving (requestID_at x' l) None)]> reqs)
  end.
Proof.
  intros Hok Hi. pose proof Hok as [Hg Hc Hw]. pose proof (snapshot_good window l now x Hg) as Hgood.
  assert (forall id, gateway_ok (conflict x) (<[i := (r, Reserving id None)]> reqs)) as Hcon.
  { intros id. eapply ok_phase; try done; [by apply (good_counters x)|by apply same_evolves|].
    eapply waits_other; [done..|]. intros k e'. by exists e'. }
  unfold replaySnapshot in *. destruct (ix_heap x !! l) as [e|] eqn:Hl; [|apply Hcon].
  destruct (e_completed e) eqn:Hce; [|apply Hcon]. destruct (e_body e) as [b|] eqn:Hb; [|apply Hcon].
  destruct (_ <? _); [apply Hcon|]. eapply ok_phase; try done.
  - by apply (good_counters _ _ Hgood).
  - eapply (alter_evolves (fun e => e <| e_lastSeen := now |>) l); [done|done|]. intros e'. by constructor; auto.
  - eapply waits_other; [done..|]. intros k e'. by apply (alter_waiters (fun e => e <| e_lastSeen := now |>) l).
  - intros snap [= <-]. by eapply replay_found.
Qed.

(** The entry of a running owner, as [publish] and [drop] see it. *)
Lemma running_owns x reqs i r ph l : core x reqs -> reqs !! i = Some (r, ph) -> running ph = Some l ->
  exists e, owns (fingerprint r) (r_id r) x l e /\ e_completed e = false.
Proof.
  intros Hc Hi Hr. destruct (co_own _ _ Hc _ _ _ _ Hi (running_owned _ _ Hr)) as (e & Hl & He).
  exists e. split; [|by eapply running_open]. destruct He as (Hid & _ & Hrun & _). by split_and!; [apply Hrun| |].
Qed.

Lemma ok_drop x reqs i r ph l :
  gateway_ok x reqs -> reqs !! i = Some (r, ph) -> running ph = Some l ->
  gateway_ok (drop (fingerprint r) (r_id r) x) (<[i := (r, Dropped l)]> reqs).
Proof.
  intros [Hg Hc Hw] Hi Hr. destruct (running_owns _ _ _ _ _ _ Hc Hi Hr) as (e & Ho & Hce).
  destruct (drop_spec (fingerprint r) (r_id r) x Hg) as [Hg' [[_ Hno]|(k & e' & Ho' & Hh & He & _)]].
  { by destruct (Hno l e). }
  assert (k = l) as -> by (destruct Ho, Ho'; congruence). constructor; [done| |].
  - eapply (core_end x _ _ _ _ ph _ l shut); try done; [apply Hg|rewrite He..|].
    + intros fp k Hk. by apply lookup_delete_Some in Hk as [_ ?].
    + intros fp k Hk Hn. rewrite lookup_delete_ne; [done|]. intros <-. destruct Ho. congruence.
    + intros e1 _ Hce1. split; [done|]. split; [done|]. cbn. congruence.
  - eapply waits_other; [done|done|by destruct ph|done|]. intros k e1. by apply (alter_waiters shut l).
Qed.

Lemma ok_publish x reqs i r id l d body now :
  gateway_ok x reqs -> reqs !! i = Some (r, Dispatched id (Some l)) -> dedupe_terminal d = Some body ->
  gateway_ok (publish order (fingerprint r) (r_id r) (response_of d body) now x) (<[i := (r, Published l d)]> reqs).
Proof.
  intros [Hg Hc Hw] Hi Hd. destruct (running_owns _ _ _ _ _ _ Hc Hi eq_refl) as (e & Ho & Hce).
  destruct (publish_spec order window Hord (fingerprint r) (r_id r) (response_of d body) now x Hg)
    as [Hg' [[_ Hno]|(k & e' & y & Ho' & Hce' & Hh & He & _ & Ht)]].
  { specialize (Hno _ _ Ho). congruence. }
  assert (k = l) as -> by (destruct Ho, Ho'; congruence). constructor; [done| |].
  - eapply core_evolves; [|by eapply trims_evolves, Ht].
    eapply (core_end x _ _ _ _ (Dispatched id (Some l)) _ l (complete (response_of d body) now)); try done;
      [apply Hg|by rewrite He..|].
    intros e1 Hl1 Hce1. split; [done|]. split; [done|]. intros _. exists d. split; [done|]. split_and!; try done.
    intros b Hb. unfold complete in Hb. simpl in Hb. destruct Hg as [Hox _].
    rewrite (open_no_body _ _ _ Hox Hl1 Hce1) in Hb. destruct (cacheable body); [congruence|done].
  - eapply waits_other; [done|done|done|done|]. intros k e1 Hk.
    destruct (trims_waiters _ _ _ _ _ (td_trims _ _ _ _ Ht) Hk) as (e2 & Hk2 & ->).
    by apply (alter_waiters (complete (response_of d body) now) l x y).
Qed.

Lemma snoc_lookup reqs (r r' : Request) (q : Phase) j :
  (reqs ++ [(r, Arrived)]) !! j = Some (r', q) ->
  reqs !! j = Some (r', q) \/ j = length reqs /\ r' = r /\ q = Arrived.
Proof.
  intros H. apply lookup_app_Some in H as [?|[Hge H]]; [by left|right].
  apply list_lookup_singleton_Some in H as [? [= <- <-]]. split_and!; [lia|done..].
Qed.

Lemma ok_arrive x reqs r :
  gateway_ok x reqs -> (forall j r' q, reqs !! j = Some (r', q) -> r_id r' <> r_id r) ->
  gateway_ok x (reqs ++ [(r, Arrived)]).
Proof.
  intros [Hg [Hids Hown Howner Hf Hr] Hw] Hn. constructor; [done| |].
  - constructor.
    + intros i j ri rj pi pj Hi Hj E. apply snoc_lookup in Hi as [Hi|(-> & -> & ->)], Hj as [Hj|(-> & -> & ->)];
        [by eapply Hids|by destruct (Hn _ _ _ Hi)|by destruct (Hn _ _ _ Hj)|done].
    + intros i r' q l Hi Ho. apply snoc_lookup in Hi as [Hi|(_ & _ & ->)]; [by eapply Hown|done].
    + intros l e Hl. destruct (Howner _ _ Hl) as (i & r' & q & Hi & Ho). exists i, r', q.
      split; [by apply lookup_app_l_Some|done].
    + intros j r' q l Hj Hfo. apply snoc_lookup in Hj as [Hj|(_ & _ & ->)]; [|done].
      destruct (Hf _ _ _ _ Hj Hfo) as (i & ro & pho & Hi & ?). exists i, ro, pho. split; [by apply lookup_app_l_Some|done].
    + intros j r' snap Hj. apply snoc_lookup in Hj as [Hj|(_ & _ & ?)]; [|done].
      destruct (Hr _ _ _ Hj) as (i & ro & l & d & Hi & ?). exists i, ro, l, d. split; [by apply lookup_app_l_Some|done].
  - intros l e Hl. destruct (Hw _ _ Hl) as [-> ?]. rewrite sumZ_app. cbn. split; [lia|done].
Qed.

Lemma ok_end x reqs i r ph d now x' ph' :
  gateway_ok x reqs -> reqs !! i = Some (r, ph) -> end_phase sha256 order r ph d now x = Some (x', ph') ->
  gateway_ok x' (<[i := (r, ph')]> reqs).
Proof.
  intros Hok Hi He.
  assert (owned ph = None -> (forall l, ph <> Parked l) -> gateway_ok x (<[i := (r, Ended)]> reqs)) as Hend.
  { intros Ho Hp. pose proof Hok as [Hg Hc Hw]. eapply ok_phase; try done; [by apply same_evolves| | |].
    - eapply waits_other; [done|done|destruct ph; try done; by edestruct Hp|done|]. intros k e'. by exists e'.
    - by destruct ph.
    - intros l' d' ->. done. }
  destruct ph as [|l|l|l|id [l|]|id [l|]|id [l|] err|snap|l d'|l|]; simpl in He; try done;
    try (simplify_eq; by apply Hend); try (simplify_eq; by eapply ok_drop).
  destruct (dedupe_terminal d) as [body|] eqn:Hd; simplify_eq; [by eapply ok_publish|by eapply ok_drop].
Qed.

Lemma ok_step x s reqs i r ph a x' s' ph' :
  gateway_ok x reqs -> reqs !! i = Some (r, ph) ->
  request_step sha256 order window a r ph x s = Some (x', s', ph') -> gateway_ok x' (<[i := (r, ph')]> reqs).
Proof.
  intros Hok Hi Hs. pose proof Hok as [Hg Hc Hw].
  destruct a as [q|k now|k|k|k|k now|k now fault|k d now|op]; simpl in Hs; try (by destruct ph).
  - destruct ph; try done. destruct (claim _ _ _ _ _ _) as [y c] eqn:Hcl. simplify_eq. by eapply ok_claim.
  - destruct ph as [|l| | | | | | | | |]; try done. pose proof (ok_await _ _ _ _ _ Hok Hi) as H.
    destruct (await_enter l x) as [y [[]|]]; by simplify_eq.
  - destruct ph as [| |l| | | | | | | |]; try done. destruct (ix_heap x !! l) as [e|]; [|done].
    destruct (e_closed e); [|done]. simplify_eq. eapply ok_leave; try done; [by apply leave_good|]. by intros ? [= <-].
  - destruct ph as [| |l| | | | | | | |]; try done. simplify_eq.
    eapply ok_leave; try done. by eapply good_counters; [apply (leave_good l)|..].
  - destruct ph as [| | |l| | | | | | |]; try done. pose proof (ok_snapshot _ _ _ _ _ now Hok Hi) as H.
    destruct (replaySnapshot window l now x) as [y [snap|]]; by simplify_eq.
  - destruct ph as [| | | |id own| | | | | |]; try done.
    destruct (reserve r id now fault s) as [s1 err]. simplify_eq. destruct err;
      (eapply ok_phase; try done; [by apply same_evolves|eapply waits_other; [done..|]; intros l e'; by exists e']).
  - destruct (end_phase sha256 order r ph d now x) as [[y q]|] eqn:He; simpl in Hs; [|done]. simplify_eq.
    by eapply ok_end.
Qed.

Definition good_gateway (g : Gateway) : Prop := gateway_ok (gw_index g) (gw_requests g).

Lemma act_good g a : good_gateway g -> good_gateway (act sha256 order window g a).
Proof.
  intros Hok.
  assert (forall i, good_gateway match gw_requests g !! i with
     | None => g
     | Some (r, ph) => match request_step sha256 order window a r ph (gw_index g) (gw_store g) with
                       | None => g
                       | Some (x, s, ph) => mkGateway x s (<[i := (r, ph)]> (gw_requests g))
                       end
     end) as Hstep.
  { intros i. destruct (gw_requests g !! i) as [[r ph]|] eqn:Hi; [|done].
    destruct (request_step _ _ _ _ _ _ _ _) as [[[x s] ph']|] eqn:Hs; [|done]. by eapply ok_step. }
  destruct a; simpl; try apply Hstep; [|done].
  destruct (known_id (r_id r) g) eqn:Hk; [done|]. apply ok_arrive; [done|].
  intros j r' q Hj E. unfold known_id in Hk. enough (existsb (fun rp => String.eqb (r_id rp.1) (r_id r)) (gw_requests g) = true)
    by congruence. apply existsb_elem. exists (r', q). split; [by eapply list_elem_of_lookup_2|]. apply String.eqb_eq, E.
Qed.

Lemma run_good actions : good_gateway (run_gateway sha256 order window actions).
Proof.
  unfold run_gateway. assert (good_gateway empty_gateway) as H0.
  { constructor; [apply good_new|by constructor|by intros ? ?]. }
  revert H0. generalize empty_gateway. induction actions as [|a actions IH]; intros g Hg; [done|].
  by apply IH, act_good.
Qed.
End Gateway.

(** The counters of the index are the sums over its entries and its bounds hold: at most
    4096 responses of at most 1 MiB each and 32 MiB together, 4096 claims in flight, 65536
    mappings, and 4 waiters per entry, each of which is a parked request. *)
Theorem reachable_index_ok sha256 order window actions :
  enumerates order ->
  let g := run_gateway sha256 order window actions in
  index_ok (gw_index g) /\ index_bounded (gw_index g) /\ waits (gw_index g) (gw_requests g).
Proof.
  intros Hord g. destruct (run_good sha256 order window Hord actions) as [[? ?] _ ?]. by split_and!.
Qed.

(** Nobody is stranded: of a request parked at an entry, the entry is closed, so that it can
    wake up, or the owner of the entry is still running and closes it when it ends. *)
Theorem no_stranded_waiter sha256 order window actions j r l :
  enumerates order ->
  let g := run_gateway sha256 order window actions in
  gw_requests g !! j = Some (r, Parked l) ->
  (exists e, ix_heap (gw_index g) !! l = Some e /\ e_closed e = true)
  \/ (exists i ro ph, gw_requests g !! i = Some (ro, ph) /\ running ph = Some l
      /\ forall d now, exists x' ph' e',
         end_phase sha256 order ro ph d now (gw_index g) = Some (x', ph')
         /\ ix_heap x' !! l = Some e' /\ e_closed e' = true).
Proof.
  intros Hord g Hj. destruct (run_good sha256 order window Hord actions) as [Hg Hc Hw].
  destruct (co_follow _ _ _ Hc _ _ _ _ Hj eq_refl) as (i & ro & ph & Hi & Ho & _).
  destruct (co_own _ _ _ Hc _ _ _ _ Hi Ho) as (e & Hl & _ & _ & _ & Hcl & _).
  destruct (running ph) as [k|] eqn:Hr; [right|left; eauto].
  pose proof (running_owned _ _ Hr) as Hk. assert (k = l) as -> by congruence.
  exists i, ro, ph. split_and!; [done..|]. intros d now.
  assert (exists x' ph', end_phase sha256 order ro ph d now (gw_index g) = Some (x', ph') /\ owned ph' = Some l
            /\ running ph' = None) as (x' & ph' & He & Ho' & Hr').
  { destruct ph; simpl in Hr; simplify_eq; simpl; try destruct (dedupe_terminal d); by eexists _, _. }
  destruct (ok_end sha256 order window Hord _ _ _ _ _ _ _ _ _ (mkGatewayOk _ _ _ Hg Hc Hw) Hi He) as [_ Hc' _].
  destruct (co_own _ _ _ Hc' i ro ph' l) as (e' & Hl' & _ & _ & _ & Hcl' & _); [|done|].
  { rewrite list_lookup_insert_eq; [done|]. by eapply lookup_lt_Some. }
  exists x', ph', e'. auto.
Qed.

(** Claim C39. A response sent again is the answer of an earlier request with the same fingerprint (the
    same request, as far as SHA-256 tells), which reached its buyer whole and with success;
    it bears that request's id, and sending it reserves nothing. *)
Theorem replay_is_an_answer sha256 order window actions j r snap :
  enumerates order ->
  let g := run_gateway sha256 order window actions in
  gw_requests g !! j = Some (r, Replayed snap) ->
  exists i owner l d, gw_requests g !! i = Some (owner, Published l d)
  /\ (told_apart sha256 (r_fingerprinted owner) (r_fingerprinted r) -> r_fingerprinted owner = r_fingerprinted r)
  /\ answered_whole d = true
  /\ snap = mkReplay (r_id owner) (sw_statusCode (written (dl_events d))) (dl_contentType d) (dl_providerID d) (answer d).
Proof.
  intros Hord g Hj. destruct (run_good sha256 order window Hord actions) as [_ Hc _].
  destruct (co_replay _ _ _ Hc _ _ _ Hj) as (i & ro & l & d & Hi & Hfp & Hid & Hs & Ht & Hp & Hb).
  apply terminal_whole in Hb as [Hb Hw]. exists i, ro, l, d. split_and!; [done| |done|].
  - intros Hta. by eapply fingerprint_inj.
  - destruct snap; simpl in *. congruence.
Qed.

(** *** The headers *)

(** Nothing of the first attempt's settlement is told again, and the id is the first attempt's. *)
Theorem replay_headers_clean snap usage quota reset h name :
  let h' := replay_headers snap usage quota reset h in
  (settlement_header name = true -> h' !! name = None)
  /\ h' !! "Retry-After" = None
  /\ h' !! "X-Request-Id" = Some [rp_requestID snap]
  /\ h' !! "X-Macprovider-Dedupe" = Some ["replay"].
Proof.
  unfold replay_headers, setRateLimitHeaders, Set_, Headers in *. cbv zeta.
  set (h0 := delete "Retry-After" _).
  assert (forall n, settlement_header n = true -> h0 !! n = None) as H0.
  { intros n Hn. unfold h0. destruct (decide (n = "Retry-After")) as [->|]; [done|].
    rewrite lookup_delete_ne by done. apply map_lookup_filter_None. right. intros v _. simpl. congruence. }
  assert (h0 !! "Retry-After" = None) as Hra by apply lookup_delete_eq.
  clearbody h0.
  split_and!; [intros Hn; assert (forall k, settlement_header k = false -> k <> name) as Hk by (intros k Hkf ->; congruence)|..];
    repeat match goal with |- context [match ?u with _ => _ end] => destruct u end;
    repeat first [rewrite lookup_insert_eq | rewrite lookup_insert_ne by first [done | by apply Hk]]; auto.
Qed.

(** *** Examples *)

(** After the capture is over its limit a failed write is not noticed: the response counts as
    delivered whole, and the retry of a buyer that lacks its end is refused. *)
Example failed_write_after_overflow b n c m :
  idlessDedupeMaxEntryBytes < n ->
  dedupe_terminal (mkDelivery [Header 200; Wrote b n false; Wrote c m true] None "" "" false false) = Some None.
Proof.
  intros Hn. unfold dedupe_terminal, written. cbn -[idlessDedupeMaxEntryBytes prefix_of].
  unfold Write at 2. cbn -[idlessDedupeMaxEntryBytes prefix_of].
  destruct (idlessDedupeMaxEntryBytes <? _) eqn:E; [done|].
  change (blen "") with 0 in E. lia.
Qed.

Module DedupeExamples.
Definition sha : string -> string := fun s => s.
Definition visits : gmap string nat -> list (string * nat) := map_to_list.
Definition t0 : Z := 1700000000 * second.
Definition window : Z := 60 * second.
Definition chat : Fingerprinted := mkFingerprinted "chat" "acct" "" "" "" "hello".
(** The same request, under the ids the gateway gave it. *)
Definition attempt (id : string) : Request := mkRequest id chat 10 1000 (3600 * second).
Definition good : Delivery := mkDelivery [Header 200; Wrote "hi" 2 false; Wrote "!" 1 false] None "text/plain" "p1" false false.
Definition bad : Delivery := mkDelivery [Header 503; Wrote "no" 2 false] None "" "" false false.
Definition run : list Action -> Gateway := run_gateway sha visits window.
Definition phases (actions : list Action) : list Phase := map snd (gw_requests (run actions)).
Definition row (actions : list Action) (id : string) : option ReservationStatus :=
  status <$> quota_reservations (gw_store (run actions)) !! ("acct", id).

(** The first attempt is dispatched and a retry waits for it. *)
Definition waiting : list Action :=
  [Arrive (attempt "a"); Claim 0 t0; Reserve 0 t0 false; Arrive (attempt "b"); Claim 1 (t0 + second); Await 1].
Definition replayed : list Action := waiting ++ [End_ 0 good (t0 + 5 * second); Wake 1; Snapshot 1 (t0 + 5 * second)].

Example retry_gets_the_answer :
  phases replayed = [Published 0 good; Replayed (mkReplay "a" 200 "text/plain" "p1" "hi!")]
  /\ row replayed "a" = Some active /\ row replayed "b" = None.
Proof. vm_compute. done. Qed.

(** A retry whose buyer leaves refunds the reservation of the first attempt, which is still
    being served. *)
Example leaving_retry_refunds_first :
  let actions := waiting ++ [TimeOut 1; Reserve 1 (t0 + 2 * second) true] in
  phases actions = [Dispatched "a" (Some 0%nat); Rejected "a" None (ErrOther "context canceled")]
  /\ row actions "a" = Some refunded.
Proof. vm_compute. done. Qed.

(** The first attempt fails before its reservation: the waiting retry is reserved under its
    id, not refused, and as no claim is left a third attempt is reserved and billed too. *)
Definition first_fails : list Action :=
  [Arrive (attempt "a"); Claim 0 t0; Arrive (attempt "b"); Claim 1 t0; Await 1;
   Reserve 0 t0 true; End_ 0 bad t0; Wake 1; Snapshot 1 t0; Reserve 1 t0 false;
   Arrive (attempt "c"); Claim 2 (t0 + second); Reserve 2 (t0 + second) false].
Example retry_served_twice :
  phases first_fails = [Dropped 0; Dispatched "a" None; Dispatched "c" (Some 1%nat)]
  /\ row first_fails "a" = Some active /\ row first_fails "c" = Some active.
Proof. vm_compute. done. Qed.

Lemma replay_is_an_answer_witness :
  let g := run_gateway sha visits window replayed in
  exists i owner l d, gw_requests g !! i = Some (owner, Published l d)
  /\ (told_apart sha (r_fingerprinted owner) chat -> r_fingerprinted owner = chat)
  /\ answered_whole d = true
  /\ mkReplay "a" 200 "text/plain" "p1" "hi!"
     = mkReplay (r_id owner) (sw_statusCode (written (dl_events d))) (dl_contentType d) (dl_providerID d) (answer d).
Proof.
  apply (replay_is_an_answer sha visits window replayed 1 (attempt "b")); [exact enumerates_map_to_list|].
  vm_compute. reflexivity.
Defined.

(** The retry of [retry_billed_once]: it comes while the first attempt is served. *)
Example retry_refused_while_served :
  let '(x, won) := claim visits window (fingerprint sha (attempt "a")) "a" t0 newIdlessDedupeIndex in
  let '(s, admitted) := reserve (attempt "a") "a" t0 false empty_store in
  let '(x', adopted) := claim visits window (fingerprint sha (attempt "b")) "b" (t0 + second) x in
  (won, admitted, adopted, (reserve (attempt "b") (requestID_at x' 0) (t0 + second) false s).2)
  = (Won 0, None, Adopted 0, Some ErrReservationExists).
Proof. vm_compute. reflexivity. Qed.
End DedupeExamples.
